(* ===== verification/_CoqProject ===== *)
-Q . S2P
Prelude.v
CompletionQueue.v
Capability.v
WovenGuard.v
SecurityLedger.v
Lineage.v
LineageService.v
CompletionPort.v
AsyncOp.v
Pipe.v
TaskControl.v
Scheduler.v
SchedulerInv.v
SchedulerLife.v
SchedulerSteps.v
SchedulerProofs.v
SchedulerLatch.v
SchedulerRaces.v
AsyncEvents.v
TaskAuthority.v
AuthorityProofs.v
Block.v
BlockCache.v
PageCache.v
Heap.v
HeapSafety.v
Frames.v
FramesSafety.v
Elf.v
Ipc.v
IpcInv.v
IpcOps.v
IpcTransfer.v
DeviceIo.v
Bytes.v
VolumeCrypto.v
VolumeCryptoProofs.v
Pci.v
PciProofs.v
Gpt.v
Crc.v
IrqLock.v
Journal.v
Fat32.v
Fat32Table.v
Fat32Chains.v
Fat32Data.v
Fat32Volume.v
Fat32Names.v
Fat32Dir.v
Fat32Meta.v
Fat32Walk.v
Fat32Create.v
Fat32Test.v
Vfs.v
VfsOps.v
VfsInv.v
VfsWorld.v
VfsMachine.v
VfsTheorems.v
VfsTest.v
Swap.v
Aes.v
GroupKeys.v
Wifi80211.v
Ccmp.v
WifiNet.v
Rsn.v
Wpa2.v
Wpa2Proofs.v
WifiRecovery.v
WifiSession.v
WifiSessionProofs.v
