(* ===== verification/Prelude.v ===== *)
(** * A verification of the WovenHat OS kernel (src/kernel/src)

    ** The program

    WovenHat is a multiprocessor kernel in Rust. Its own logic, as opposed to device
    drivers, user-interface glue and third-party crates, is a set of bounded tables
    behind ranked locks:
    - a preemptive per-CPU scheduler with priorities, affinity, migration, balancing,
      sleeping, latched events and CPU hotplug (task.rs, smp.rs);
    - a capability system: coarse capability sets, sandbox profiles and policies
      (capability.rs, wovenguard.rs), a forest of delegated capability lineages
      (wovenguard.rs), an audit ledger (audit.rs) and the authority operations on tasks
      (task.rs);
    - inter-process communication: reference-counted endpoints and shared memory behind
      generation-tagged handles, with capability transfer and services (ipc.rs), and
      pipes (pipe.rs);
    - asynchronous operations with completion ports, timers and events (async_op.rs,
      completion_port.rs, completion_queue.rs, async_events.rs, deadline.rs);
    - memory: the kernel heap (heap.rs) and the physical frame allocator (memory.rs);
    - storage: block devices, MBR and GPT partitions, a write-back sector cache, a clean
      file page cache (block.rs, partition.rs, gpt.rs, block_cache.rs, page_cache.rs,
      storage.rs), the FAT32 file system with its long names and metadata tables
      (fat32.rs), the journal of pending writes (journal.rs) and the encryption of volume
      records with its key vault (volume_crypto.rs);
    - the virtual file system: a bounded tree of nodes in memory or still on disk, open
      files shared by descriptors, shared pages of mapped files (vfs.rs, vfs_api.rs,
      file_frames.rs); the swap slots (swap.rs);
    - the Wi-Fi station: 802.11 frames (wifi80211.rs), AES, key wrap and group keys
      (wifi_gtk.rs), frame protection (wifi_ccmp.rs), the bridge to Ethernet (wifi_net.rs),
      the robust security network and the WPA2 supplicant (wifi_rsn.rs, wifi_crypto.rs,
      wifi_wpa2.rs, wifi_security.rs), recovery, device queues and the session over them
      (wifi_recovery.rs, wifi_backend.rs, wifi_session.rs), with the nonces of entropy.rs;
    - the ranked spin locks that all of this is built on (irq_lock.rs);
    - the ELF parser of the process loader (elf.rs), and the discovery of PCI functions and
      their message-signalled interrupts (hal/pci.rs, hal/pci/msi.rs).

    The scheduler signals the tasks that the asynchronous operations, pipes and IPC
    endpoints name as waiters; task authority and IPC delegate through the lineage
    registry, which audits every request in the ledger; the page cache sits above the
    storage layer, FAT32, the swap slots and the sector cache above any block device; the
    virtual file system reads the files it imported through the storage layer. In the Wi-Fi station the
    supplicant's handshake ends with keys, the session installs them in a bridge under a
    connection epoch, and the bridge seals and opens the frames of the device queues.

    ** How the code is modelled

    Tables are lists of options scanned in the code's order, structs are records, enums
    inductive types; an array with a length field is the list of its used entries. Machine
    integers are [Z] with their wrapping, saturating or checked operations written out
    (below); bytes are [Z]. [Result] is [result] with [?] as a bind. Code over shared
    state passes the state explicitly or runs in a state monad. [None] stands for a panic
    or an exhausted loop bound, and the theorems prove that it does not happen. A lock is
    the atomicity of the section it guards: the concurrent theorems quantify over the
    interleavings of such sections, as step relations; what the code does outside its
    locks (the hand-off between two task stacks, the atomic words of CPU hotplug, the two
    halves of a fork or of the growth of the heap) is a step of its own. The tick counter, the current CPU
    and task, the answers of the page mapper and of the devices are arguments. Code over a
    block device runs in a state-and-error monad over an arbitrary implementation of the
    device trait, reasoned about by weakest preconditions. Unicode normalisation, the inner
    spin mutex, Poly1305 and HMAC-SHA1 with PBKDF2, which come from crates, are parameters with their
    documented laws (for the last, class [Sha1Suite] with [Sha1Laws] in Wpa2 and a toy
    instance for the evaluated tests). Output buffers are lists of bytes that a call returns
    changed. A call of the virtual file system that lets go of its locks while the disk
    reads is a program ([prog]) of sections under the locks with disk reads in between; what
    the disk answers is a parameter. Erasing secrets before memory is released is not observable in the model.

    ** The files

    A file is named with its modules in brackets where it holds more than one.

    - Prelude: this file; notation, integers, arrays, tactics and shared lemmas.
    - CompletionQueue [Queue, QueueAbi, QueueSpec]: completion_queue.rs, the 40-byte record
      ABI and an abstract FIFO. CompletionPort [Port, PortProofs]: completion_port.rs.
      AsyncOp [Op, OpProofs]: async_op.rs over the ports. AsyncEvents [Deadline, Events,
      EventsProofs]: deadline.rs and async_events.rs.
    - Capability: capability.rs. WovenGuard [Guard]: the policies of wovenguard.rs.
      SecurityLedger [Ledger]: audit.rs. Lineage [Lin, LinProofs]: the registry of
      wovenguard.rs; LineageService [Service]: its audited public functions. TaskAuthority
      [Auth], AuthorityProofs: grant, revoke, sandbox binding and the gates of task.rs.
    - Pipe [Pipe, PipeProofs]: pipe.rs.
    - TaskControl [Smp, Task]: the CPU sets and hotplug words of smp.rs and the task control
      block. Scheduler [Sched, Machine]: the scheduler of task.rs, and all CPUs stepping by
      critical sections and single stores. SchedulerInv, SchedulerLife, SchedulerSteps: the
      invariant and its preservation. SchedulerProofs, SchedulerLatch: the theorems.
      SchedulerRaces: task stacks, and placements that are used too late.
    - Block: block.rs and partition.rs, the device trait as a class with its laws.
      BlockCache [Cache, CacheProofs, CacheTest]: block_cache.rs, itself a lawful device.
      PageCache [Pages, PagesProofs]: page_cache.rs and [read_disk_file] of storage.rs.
    - Heap [Heap, HeapProofs]: heap.rs, its tiles and the free list in memory; HeapSafety
      [HeapMachine, HeapDemo]: the interleaved machine. Frames [Frames, FramesProofs]:
      memory.rs and its invariant; FramesSafety [FramesMachine, FramesDemo]: boot and the
      machine.
    - Elf [Elf, ElfProofs]: elf.rs. Pci, PciProofs: hal/pci.rs and hal/pci/msi.rs over an
      arbitrary configuration space.
    - DeviceIo [Io]: the monad of device code and its rules. Gpt [Gpt, GptProofs]: gpt.rs and
      which partition it selects; Crc: its checksum as polynomial division.
    - IrqLock [IrqLock, LockProofs, LockDemo]: irq_lock.rs as CPUs stepping over shared
      mutexes.
    - Journal: journal.rs. VolumeCrypto, VolumeCryptoProofs: volume_crypto.rs.
    - Fat32 [Fat]: volume, allocation table, chains and file data of fat32.rs; Fat32Table:
      the table as a function of the clusters; Fat32Chains: chains, validation and freeing;
      Fat32Data: allocation and contents; Fat32Volume: the theorems. Fat32Names [Names,
      LongNames]: short and long names. Fat32Dir: directories and paths; Fat32Walk: what a
      walk finds; Fat32Create: creating a file. Fat32Meta [Meta, MetaProofs]: the metadata
      and intent tables. Fat32Test [FatTest, FatFlaws]: the self tests, and two executions
      they do not cover.
    - Vfs [FileFrames, Vfs]: file_frames.rs, and the nodes, paths and node table of vfs.rs;
      VfsOps: open files and all operations, as programs. VfsInv [VfsPaths, VfsInv]: paths as
      lists of components, and the tree; VfsWorld [VfsWorld, VfsSections] and VfsMachine
      [VfsFiles, VfsMachine]: each section keeps the invariant, and all calls interleaved.
      VfsTheorems [VfsContents, VfsSafety, VfsTheorems]: a call alone, and the theorems.
      VfsTest [VfsTest, VfsDemo]: the self tests, and instances of the theorems.
    - Swap [Swap, SwapProofs, SwapDemo]: swap.rs, pages in flight, a run on a RAM disk.
    - Bytes: byte lists, slices written in place and big-endian words.
    - Aes [Aes, CcmpAes, AesProofs]: both copies of the cipher; decryption inverts encryption
      and the copies agree. GroupKeys [Gtk, GtkProofs]: wifi_gtk.rs. Wifi80211 [Dot11]:
      wifi80211.rs with the grammar of its elements. Ccmp [Ccmp, CcmpProofs]: wifi_ccmp.rs
      against sealing as a function. WifiNet [WifiNet, BridgeProofs]: wifi_net.rs. Rsn [Rsn,
      Entropy]: wifi_rsn.rs and entropy.rs. Wpa2 [Crypto, Wpa2, Wpa2Test]: wifi_crypto.rs,
      wifi_wpa2.rs and their self tests. Wpa2Proofs [Wpa2Proofs, Wpa2Safety]: the handshake
      with an honest access point, and all other inputs. WifiRecovery [Recovery, Backend]:
      wifi_recovery.rs and wifi_backend.rs. WifiSession [Security, Session]:
      wifi_security.rs and wifi_session.rs; WifiSessionProofs: the theorems.
    - Ipc: the state machine of ipc.rs; IpcInv: reference accounting; IpcOps: every
      operation keeps it; IpcTransfer [IpcSafety, IpcTransfer]: the theorems.

    ** What the theorems show

    - Scheduler: no step that the program may take panics, where a critical section sees
      the hotplug words at one moment and a fork finishes before a CPU of the placement it
      copied leaves; two theorems and the executions behind them show that both conditions
      are needed. A task is on at most one CPU and a CPU's
      current task is its own; dispatch is by priority and round robin; signals are never
      lost; evacuation is all or nothing; balancing improves the loads. Two CPUs are
      on the same stack only while a task that blocked is being switched away from, and then
      they can be.
    - Authority: the exact effect of grant, revoke and sandbox binding on the effective
      capabilities of all tasks; delegation never amplifies; revocation removes exactly the
      subtree, and an anchor that it empties; the gates decide as the policy says and audit
      it. Generations wrap after 2^24 - 1 reuses. An evaluated example shows a second grant
      that escapes revocation.
    - IPC: reference counts equal the references that exist, in every interleaving; when
      all processes are gone nothing is left; a transferred capability arrives with the
      chosen rights; revoking an object's delegations closes exactly those.
    - Asynchronous operations: each completes once and its completion reaches its port
      once; the queue refines a FIFO; the timer worker completes exactly what is due.
    - Pipes: what is read is a prefix of what was written; errors of [write].
    - Memory: heap allocations are disjoint, aligned, keep their contents, and all space
      comes back when they are freed; growth serves every feasible request. Physical frames
      are exclusive, bitmaps and frames never overlap, no frame is lost.
    - Storage: the sector cache is invisible to its clients, flushing makes it durable; a
      partition cannot be left; the page cache returns file contents under interference.
      The GPT checksum is the CRC-32 remainder and detects bursts, and the partition is
      selected exactly when both checksums and all ranges are right.
    - FAT32: an accepted volume is well formed, except that its table may be too short for
      its clusters, which the later theorems assume it is not; chain validation always ends and accepts
      exactly the finite chains; files are read back as written; free space is counted
      exactly; creating a file publishes it with its contents, takes exactly the clusters it
      needs, gives back those of the file it replaces and leaves every other file as it was,
      or fails without a trace; long names survive their records; metadata is found
      again. Evaluated examples exhibit flaws: deleted long names that answer for another
      file, long names that are not overwritten, removed metadata that resurfaces. These are
      on devices that never fault. Sealed volume records open exactly when untouched, and the
      key vault refines a map from handles to keys.
    - Virtual file system: in every interleaving the names form a tree and every valid
      descriptor denotes the file it was opened on; a call alone reads and writes a file as a
      sequence of bytes, on disk or not, as long as no page of it is mapped shared, and what
      it wrote is read back even then; renaming moves exactly a subtree, with the contents
      that are still on disk; listing enumerates exactly the children. Two theorems exhibit
      flaws: directory permissions that are not checked, stores through a mapping that are
      lost.
    - Swap: a page that was swapped out comes back unchanged while its handle lives.
    - Wi-Fi: AES decryption inverts encryption under every key; unwrapping accepts exactly the
      wrappings; elements are parsed exactly as encoded; a protected frame is opened exactly if
      it was sealed with the key and is newer than the last; the bridge delivers exactly those
      frames of its access point, and none twice; an honest 4-way handshake ends with the same
      keys at both ends, and whatever else arrives, keys are held only where the protocol
      says and a group key only comes from an authenticated, newer frame; retries are
      bounded; a session holds keys exactly while its epoch is active, delivers every frame
      of a sequence that its access point protects, and refuses calls of an ended epoch. One theorem exhibits group frames that can be replayed after the
      same group key is read again.
    - Locks: every misuse is reported as the code says; CPUs that respect strictly ranked
      locks never deadlock, while equal ranks can.
    - ELF: accepted images are in bounds, disjoint, never writable and executable;
      relocation shifts exactly the addresses. PCI: reading the capabilities of a function
      ends, also on a malformed list, and reports the list in its registers.

    ** Bounds and fuel

    Loops over tables recurse on the tables. Where the code loops on data the fuel is a
    bound the proofs show to be enough: 64 for the lineage descents (the slots), the object
    count plus one for the release cascade of IPC and a step per queued escrow for its
    cycle search, one turn per byte plus two for the page-cache reads, a node per 16 bytes
    for the heap's list walks, 262144 turns (the code's own bound) for heap growth, a step
    per frame for bitmap scans. Chains recurse on the cluster count and directory walks on
    128 clusters, the code's own bounds, the calls of the virtual file system retry 8 times,
    also as in the code, the free-space scan on the number of entries. The
    product in the field of AES takes 8 turns (the bits of a byte), its key schedule 40 words,
    the key-data parser a turn per byte, the element parser 33 turns (32 elements and the
    end), the key expansion 48 turns (a byte each at least), the walk of a PCI capability list 48
    steps (the code's own bound, and all places there are), rejection sampling as many turns
    as the stream of random words it is given.
    Theorems about blocking calls are about their turns.

    ** Not modelled

    Paging (x86 page tables), device drivers, the TCP/IP stack (a third-party crate
    and DMA), the Wi-Fi radio driver, its firmware loader and the scan glue, system-call
    dispatch and user programs, the shell and graphics, boot and diagnostics: glue around
    hardware or around code outside the repository. Of task.rs, processes, files and memory
    maps; of ipc.rs, the public layer over the state machine (argument checks, blocking
    loops, page copies); of storage.rs, all but [read_disk_file]; of
    file_frames.rs, [map], which goes through page tables. *)
From stdpp Require Export base list list_numbers numbers option sets sorting strings.
From Stdlib Require Export ZArith Lia.

Declare Scope woven_scope.
Delimit Scope woven_scope with woven.
Open Scope woven_scope.
Open Scope Z_scope.

(** ** Results: Rust's [Result<T, E>] with [?] as a bind. *)
Inductive result (A E : Type) : Type :=
  | Ok (a : A)
  | Err (e : E).
Arguments Ok {A E} _.
Arguments Err {A E} _.

Definition rbind {A B E} (m : result A E) (k : A → result B E) : result B E :=
  match m with Ok a => k a | Err e => Err e end.

Definition ok_or {A E} (o : option A) (e : E) : result A E :=
  match o with Some a => Ok a | None => Err e end.

Definition is_ok {A E} (r : result A E) : bool :=
  match r with Ok _ => true | Err _ => false end.

Notation "'let?' x ':=' m 'in' k" := (rbind m (λ x, k))
  (at level 10, x pattern, m at level 100, k at level 200) : woven_scope.

#[export] Instance result_eq_dec {A E} `{EqDecision A, EqDecision E} : EqDecision (result A E).
Proof. solve_decision. Defined.

(** ** Code over shared state: a state monad, with stdpp's bind notation. *)
Definition ST (S A : Type) : Type := S → A * S.
#[export] Instance ST_ret {S} : MRet (ST S) := λ A a s, (a, s).
#[export] Instance ST_bind {S} : MBind (ST S) := λ A B k m s, let '(a, s) := m s in k a s.
Definition gets {S A} (f : S → A) : ST S A := λ s, (f s, s).
Definition modify {S} (f : S → S) : ST S () := λ s, ((), f s).

(** ** Machine integers: a value of width [w] is a [Z] in [0, 2^w). *)
Definition u8_max : Z := 255.
Definition u16_max : Z := 65535.
Definition u32_max : Z := 4294967295.
Definition u64_max : Z := 18446744073709551615.

Definition in_u16 (x : Z) : Prop := 0 ≤ x ≤ u16_max.
Definition in_u32 (x : Z) : Prop := 0 ≤ x ≤ u32_max.
Definition in_u64 (x : Z) : Prop := 0 ≤ x ≤ u64_max.

#[export] Instance in_u16_dec x : Decision (in_u16 x).
Proof. unfold in_u16; apply _. Defined.
#[export] Instance in_u32_dec x : Decision (in_u32 x).
Proof. unfold in_u32; apply _. Defined.
#[export] Instance in_u64_dec x : Decision (in_u64 x).
Proof. unfold in_u64; apply _. Defined.

Definition wrap64 (x : Z) : Z := x mod (u64_max + 1).
Definition wrapping_add64 (x y : Z) : Z := wrap64 (x + y).
Definition saturating_add64 (x y : Z) : Z := Z.min (x + y) u64_max.
Definition saturating_sub (x y : Z) : Z := Z.max (x - y) 0.
Definition checked_add64 (x y : Z) : option Z := if x + y <=? u64_max then Some (x + y) else None.
Definition checked_mul64 (x y : Z) : option Z := if x * y <=? u64_max then Some (x * y) else None.

(** [!x] on a [u64]. *)
Definition not64 (x : Z) : Z := u64_max - x.

(** [u64::is_power_of_two]. *)
Definition is_power_of_two (x : Z) : bool := (0 <? x) && (Z.land x (x - 1) =? 0).

(** [value as u32], [value as u16]: truncating casts. *)
Definition as_u32 (x : Z) : Z := x mod (u32_max + 1).
Definition as_u16 (x : Z) : Z := x mod (u16_max + 1).

(** ** Fixed-size arrays as lists.
    [position] is Rust's [iter().position(p)]; [iter_mut().find(p)] followed by a
    write through the reference is [position] followed by an update at that index. *)
Definition position {A} (p : A → bool) (l : list A) : option nat :=
  fst <$> list_find (λ x, p x = true) l.

(** [iter().filter(p).count()]. *)
Definition count_if {A} (p : A → bool) (l : list A) : nat :=
  length (filter (λ x, p x = true) l).

(** [iter().any(p)]. *)
Definition any {A} (p : A → bool) (l : list A) : bool := existsb p l.

(** [iter().flatten()] over an array of options. *)
Definition flatten {A} (l : list (option A)) : list A := omap id l.

(** [iter().min_by_key(key)]: the first element with the least key. *)
Definition min_by_key {A} (key : A → Z) (l : list A) : option A :=
  foldl (λ best x,
    match best with
    | None => Some x
    | Some b => if key x <? key b then Some x else Some b
    end) None l.

(** [dst[off..off + src.len()].copy_from_slice(src)]; [None] is the slice-index panic. *)
Definition copy_at {A} (off : nat) (src dst : list A) : option (list A) :=
  if (off + length src <=? length dst)%nat
  then Some (take off dst ++ src ++ drop (off + length src) dst)
  else None.

(** Little-endian serialisation ([to_le_bytes]) of an [n]-byte word. *)
Fixpoint to_le_bytes (n : nat) (x : Z) : list Z :=
  match n with
  | O => []
  | S n => x mod 256 :: to_le_bytes n (x / 256)
  end.

Fixpoint from_le_bytes (bs : list Z) : Z :=
  match bs with
  | [] => 0
  | b :: bs => b + 256 * from_le_bytes bs
  end.

(** The bytes of an ASCII literal ([b"..."]). *)
Fixpoint bytes (s : string) : list Z :=
  match s with
  | EmptyString => []
  | String c s => Z.of_N (Ascii.N_of_ascii c) :: bytes s
  end.

(** [slice.starts_with(prefix)]. *)
Fixpoint starts_with (pre l : list Z) : bool :=
  match pre, l with
  | [], _ => true
  | p :: pre, x :: l => (p =? x) && starts_with pre l
  | _ :: _, [] => false
  end.

(** ** Automation *)
Create HintDb woven.

(** Split every hypothesis on [match]/[if] that blocks reduction, closing the
    impossible branches. *)
Ltac split_matches :=
  repeat (case_match; simplify_eq/=); try done.

(** Turn boolean tests in the context into propositions. *)
Ltac reflect_bools :=
  repeat match goal with
  | H : (_ && _)%bool = true |- _ => apply andb_true_iff in H as [? ?]
  | H : (_ || _)%bool = false |- _ => apply orb_false_iff in H as [? ?]
  | H : negb _ = true |- _ => apply negb_true_iff in H
  | H : negb _ = false |- _ => apply negb_false_iff in H
  | H : (_ =? _) = true |- _ => apply Z.eqb_eq in H
  | H : (_ =? _) = false |- _ => apply Z.eqb_neq in H
  | H : (_ <? _) = true |- _ => apply Z.ltb_lt in H
  | H : (_ <? _) = false |- _ => apply Z.ltb_ge in H
  | H : (_ <=? _) = true |- _ => apply Z.leb_le in H
  | H : (_ <=? _) = false |- _ => apply Z.leb_gt in H
  | H : bool_decide _ = true |- _ => apply bool_decide_eq_true in H
  | H : bool_decide _ = false |- _ => apply bool_decide_eq_false in H
  end.

(** ** Arrays *)
Section arrays.
Context {A : Type}.
Implicit Types (p : A → bool) (l : list A).

Lemma position_Some p l i :
  position p l = Some i ↔
  ∃ x, l !! i = Some x ∧ p x = true ∧
       ∀ j y, l !! j = Some y → (j < i)%nat → p y = false.
Proof.
  unfold position. rewrite fmap_Some. split.
  - intros [[j x] [Hf ->]]. apply list_find_Some in Hf as (Hl & Hp & Hlt).
    exists x. split_and!; [done..|]. intros k y Hk Hlt'.
    apply not_true_is_false. eauto.
  - intros (x & Hl & Hp & Hlt). exists (i, x). split; [|done].
    apply list_find_Some. split_and!; [done..|].
    intros k y Hk Hlt'. rewrite (Hlt k y Hk Hlt'). done.
Qed.

Lemma position_None p l :
  position p l = None ↔ ∀ i x, l !! i = Some x → p x = false.
Proof.
  unfold position. rewrite fmap_None, list_find_None, Forall_lookup.
  split; intros H i x Hx; specialize (H i x Hx).
  - by apply not_true_is_false.
  - by rewrite H.
Qed.

Lemma position_lookup p l i :
  position p l = Some i → ∃ x, l !! i = Some x ∧ p x = true.
Proof. intros (x & ? & ? & _)%position_Some. eauto. Qed.

Lemma position_lt p l i : position p l = Some i → (i < length l)%nat.
Proof. intros (x & Hx & _)%position_lookup. eauto using lookup_lt_Some. Qed.

Lemma position_is_Some p l i x :
  l !! i = Some x → p x = true → is_Some (position p l).
Proof.
  intros Hl Hp. destruct (position p l) eqn:E; [eauto|].
  rewrite position_None in E. by rewrite (E i x Hl) in Hp.
Qed.

(** With at most one matching element the position found is that element's. *)
Lemma position_unique p l i x :
  l !! i = Some x → p x = true →
  (∀ j y, l !! j = Some y → p y = true → j = i) →
  position p l = Some i.
Proof.
  intros Hl Hp Hu. destruct (position_is_Some p l i x Hl Hp) as [k Hk].
  pose proof (position_lookup _ _ _ Hk) as (y & Hy & Hpy).
  by rewrite Hk, (Hu k y Hy Hpy).
Qed.

Lemma count_if_insert p l i x y :
  l !! i = Some x →
  (count_if p (<[i:=y]> l) + Nat.b2n (p x) = count_if p l + Nat.b2n (p y))%nat.
Proof.
  intros Hl. unfold count_if.
  rewrite <-(take_drop_middle l i x Hl) at 2.
  rewrite insert_take_drop by eauto using lookup_lt_Some.
  rewrite !filter_app, !length_app, !filter_cons.
  destruct (p x) eqn:Hx, (p y) eqn:Hy; simpl; repeat case_decide; simpl; try done; lia.
Qed.

Lemma count_if_le p l : (count_if p l ≤ length l)%nat.
Proof. apply length_filter. Qed.

Lemma count_if_pos p l i x :
  l !! i = Some x → p x = true → (0 < count_if p l)%nat.
Proof.
  intros Hl Hp. unfold count_if.
  destruct (filter (λ x, p x = true) l) eqn:E; simpl; [|lia].
  apply list_elem_of_lookup_2 in Hl.
  assert (x ∈ filter (λ x, p x = true) l) by (by apply list_elem_of_filter).
  rewrite E in *. set_solver.
Qed.

Lemma count_if_zero p l :
  count_if p l = 0%nat ↔ ∀ i x, l !! i = Some x → p x = false.
Proof.
  split.
  - intros H i x Hx. destruct (p x) eqn:Hp; [|done].
    pose proof (count_if_pos p l i x Hx Hp). lia.
  - intros H. destruct (count_if p l) eqn:E; [done|].
    unfold count_if in E.
    destruct (filter (λ x, p x = true) l) as [|x l'] eqn:F; [done|].
    assert (Hx : x ∈ filter (λ x, p x = true) l) by (rewrite F; set_solver).
    apply list_elem_of_filter in Hx as [Hp Hx].
    apply list_elem_of_lookup in Hx as [i Hi]. by rewrite (H i x Hi) in Hp.
Qed.

Lemma count_if_ext p q l :
  (∀ x, x ∈ l → p x = q x) → count_if p l = count_if q l.
Proof.
  unfold count_if. induction l as [|x l IH]; intros H; [done|].
  rewrite !filter_cons, (H x) by set_solver.
  repeat case_decide; simpl; rewrite ?IH by set_solver; done.
Qed.

Lemma count_if_cons p x l :
  count_if p (x :: l) = (Nat.b2n (p x) + count_if p l)%nat.
Proof.
  unfold count_if. rewrite filter_cons. destruct (p x); case_decide; done.
Qed.

Lemma count_if_replicate_false p n x : p x = false → count_if p (replicate n x) = 0%nat.
Proof.
  intros Hp. apply count_if_zero. intros i y [-> _]%lookup_replicate. done.
Qed.
End arrays.

(** Two arrays whose flags differ exactly where a mask is set. *)
Lemma count_if_mask {A} (p : A → bool) l l' (m : list bool) :
  length l' = length l → length m = length l →
  (∀ i x x' b, l !! i = Some x → l' !! i = Some x' → m !! i = Some b →
    p x = p x' || b ∧ (b = true → p x' = false)) →
  count_if p l = (count_if p l' + count_if id m)%nat.
Proof.
  revert l' m. induction l as [|x l IH]; intros [|x' l'] [|b m] Hl Hm H; try done.
  rewrite !count_if_cons. rewrite (IH l' m); [|by injection Hl|by injection Hm|].
  - destruct (H 0%nat x x' b) as [-> Hb]; try done. change (id b) with b. destruct b.
    + rewrite Hb by done. cbn [orb Nat.b2n]. lia.
    + rewrite orb_false_r. cbn [Nat.b2n]. lia.
  - intros i. apply (H (S i)).
Qed.

Lemma NoDup_fmap_elem {A B} (f : A → B) (l : list A) x y :
  NoDup (f <$> l) → x ∈ l → y ∈ l → f x = f y → x = y.
Proof.
  intros HN [i Hi]%list_elem_of_lookup [j Hj]%list_elem_of_lookup Hf.
  assert (i = j) as ->; [|congruence].
  eapply (NoDup_lookup _ i j (f x) HN); rewrite list_lookup_fmap; [by rewrite Hi|by rewrite Hj, Hf].
Qed.

Lemma count_if_mono {A} (p : A → bool) l l' :
  length l' = length l →
  (∀ i x x', l !! i = Some x → l' !! i = Some x' → p x' = true → p x = true) →
  (count_if p l' ≤ count_if p l)%nat.
Proof.
  revert l'. induction l as [|x l IH]; intros [|x' l'] Hl H; try done.
  rewrite !count_if_cons. pose proof (H 0%nat x x' eq_refl eq_refl) as Hx.
  assert (count_if p l' ≤ count_if p l)%nat.
  { apply IH; [by injection Hl|]. intros i. apply (H (S i)). }
  destruct (p x'); [rewrite Hx by done|]; simpl; lia.
Qed.

Lemma count_if_pointwise {A} (p : A → bool) l l' :
  length l' = length l →
  (∀ i x x', l !! i = Some x → l' !! i = Some x' → p x' = p x) →
  count_if p l' = count_if p l.
Proof.
  revert l'. induction l as [|x l IH]; intros [|x' l'] Hl H; try done.
  rewrite !count_if_cons. rewrite (H 0%nat x x') by done. f_equal.
  apply IH; [by injection Hl|]. intros i. apply (H (S i)).
Qed.

Lemma filter_all {A} (P : A → Prop) `{!∀ x, Decision (P x)} (l : list A) :
  (∀ x, x ∈ l → P x) → filter P l = l.
Proof.
  induction l as [|x l IH]; intros HP; [done|].
  rewrite filter_cons_True by (apply HP; set_solver). f_equal. apply IH. set_solver.
Qed.

Lemma filter_none {A} (P : A → Prop) `{!∀ x, Decision (P x)} (l : list A) :
  (∀ x, x ∈ l → ¬ P x) → filter P l = [].
Proof.
  induction l as [|x l IH]; intros HP; [done|].
  rewrite filter_cons_False by (apply HP; set_solver). apply IH. set_solver.
Qed.

Lemma filter_fmap {A B} (f : A → B) (P : B → Prop) `{!∀ x, Decision (P x)} (l : list A) :
  filter P (f <$> l) = f <$> filter (λ x, P (f x)) l.
Proof.
  induction l as [|x l IH]; [done|]. rewrite fmap_cons, !filter_cons, IH.
  by case_decide.
Qed.

(** Invariants of a loop over a list. *)
Lemma foldl_inv {A B} (P : A → Prop) (f : A → B → A) (l : list B) (a : A) :
  (∀ a x, x ∈ l → P a → P (f a x)) → P a → P (foldl f a l).
Proof.
  revert a. induction l as [|x l IH]; intros a Hf Ha; [done|]. simpl. apply IH; [|apply Hf; set_solver].
  intros b y Hy. apply Hf. set_solver.
Qed.

Lemma foldl_reach {A B} (P : A → Prop) (f : A → B → A) (l : list B) (x : B) (a : A) :
  x ∈ l → (∀ a, P (f a x)) → (∀ a y, P a → P (f a y)) → P (foldl f a l).
Proof.
  intros (l1 & l2 & ->)%list_elem_of_split Hx Hf. rewrite foldl_app. simpl.
  apply foldl_inv; [by eauto|done].
Qed.

Section options.
Context {A : Type}.
Implicit Types (l : list (option A)).

Lemma elem_of_flatten l x : x ∈ flatten l ↔ Some x ∈ l.
Proof.
  unfold flatten. rewrite list_elem_of_omap. split.
  - intros (o & Ho & Hid). unfold id in Hid. by subst.
  - intros H. by exists (Some x).
Qed.

Lemma flatten_app l k : flatten (l ++ k) = flatten l ++ flatten k.
Proof. apply omap_app. Qed.

Lemma flatten_split l i o :
  l !! i = Some o →
  flatten l = flatten (take i l) ++ option_list o ++ flatten (drop (S i) l).
Proof.
  intros Hl. rewrite <-(take_drop_middle l i o Hl) at 1.
  rewrite flatten_app. by destruct o.
Qed.

Lemma flatten_insert l i o :
  (i < length l)%nat →
  flatten (<[i:=o]> l) = flatten (take i l) ++ option_list o ++ flatten (drop (S i) l).
Proof.
  intros Hl. rewrite insert_take_drop by done. rewrite flatten_app. by destruct o.
Qed.

Lemma flatten_fill l i x :
  l !! i = Some None → flatten (<[i:=Some x]> l) ≡ₚ x :: flatten l.
Proof.
  intros Hl. rewrite flatten_insert, (flatten_split l i None) by eauto using lookup_lt_Some.
  simpl. by rewrite <-Permutation_middle.
Qed.

Lemma flatten_clear l i x :
  l !! i = Some (Some x) → x :: flatten (<[i:=None]> l) ≡ₚ flatten l.
Proof.
  intros Hl. rewrite flatten_insert, (flatten_split l i (Some x)) by eauto using lookup_lt_Some.
  simpl. by rewrite <-Permutation_middle.
Qed.

(** Replacing the occupant of a slot, up to the order of the other slots. *)
Lemma flatten_replace l i x y :
  l !! i = Some (Some x) →
  ∃ rest, flatten l ≡ₚ x :: rest ∧ flatten (<[i:=Some y]> l) ≡ₚ y :: rest ∧
          flatten (<[i:=None]> l) ≡ₚ rest.
Proof.
  intros Hl. exists (flatten (<[i:=None]> l)). split_and!; [|..|done].
  - by rewrite flatten_clear.
  - rewrite !flatten_insert by eauto using lookup_lt_Some. simpl.
    by rewrite <-Permutation_middle.
Qed.

Lemma flatten_fmap {B} (f : A → B) l :
  flatten ((λ o : option A, f <$> o) <$> l) = f <$> flatten l.
Proof. induction l as [|[x|] l IH]; simpl; [done|by f_equal|done]. Qed.

Lemma flatten_length l :
  (length (flatten l) + count_if (λ o, match o with None => true | _ => false end) l
    = length l)%nat.
Proof.
  induction l as [|[x|] l IH]; [done|..]; rewrite count_if_cons; simpl; lia.
Qed.

Lemma flatten_replicate_None n : flatten (replicate n (@None A)) = [].
Proof. induction n; simpl; done. Qed.
End options.

Lemma copy_at_app {A} (off : nat) (a b c src : list A) :
  length a = off → length b = length src →
  copy_at off src (a ++ b ++ c) = Some (a ++ src ++ c).
Proof.
  intros Ha Hb. unfold copy_at.
  rewrite (proj2 (Nat.leb_le _ _)) by (rewrite !length_app; lia). f_equal. f_equal.
  - by rewrite take_app_length'.
  - f_equal. rewrite app_assoc, drop_app_length'; [done|]. rewrite length_app. lia.
Qed.

Lemma copy_at_bound {A} off (src dst res : list A) :
  copy_at off src dst = Some res → (off + length src ≤ length dst)%nat.
Proof. unfold copy_at. case_match eqn:E; [|done]. by apply Nat.leb_le in E. Qed.

(** ** Sorting by an integer key *)
Section by_key.
Context {A : Type} (key : A → Z).
Implicit Types (l L : list A).

Definition key_le (x y : A) : Prop := key x ≤ key y.
Definition key_lt (x y : A) : Prop := key x < key y.

#[global] Instance key_le_dec x y : Decision (key_le x y).
Proof. unfold key_le; apply _. Defined.
#[global] Instance key_le_trans : Transitive key_le.
Proof. intros x y z; unfold key_le; lia. Qed.
#[global] Instance key_le_total : Total key_le.
Proof. intros x y; unfold key_le; lia. Qed.

Definition sort_by_key l : list A := merge_sort key_le l.

Lemma sort_by_key_perm l : sort_by_key l ≡ₚ l.
Proof. apply merge_sort_Permutation. Qed.

Lemma strict_sorted_key_inj L x y :
  StronglySorted key_lt L → x ∈ L → y ∈ L → key x = key y → x = y.
Proof.
  induction 1 as [|z L HL IH Hz]; [set_solver|].
  rewrite Forall_forall in Hz. unfold key_lt in Hz.
  intros [->|Hx]%elem_of_cons [->|Hy]%elem_of_cons Hk; auto.
  - specialize (Hz _ Hy). lia.
  - specialize (Hz _ Hx). lia.
Qed.

Lemma sort_by_key_unique l L :
  L ≡ₚ l → StronglySorted key_lt L → sort_by_key l = L.
Proof.
  intros HP HS. apply (StronglySorted_unique_strong key_le).
  - intros x y Hx Hy Hxy Hyx. eapply (strict_sorted_key_inj L); eauto.
    + by rewrite HP, <-(sort_by_key_perm l).
    + unfold key_le in *. lia.
  - apply (StronglySorted_merge_sort _ _).
  - clear HP. induction HS; constructor; auto.
    eapply Forall_impl; [done|]. unfold key_lt, key_le. intros; lia.
  - by rewrite sort_by_key_perm.
Qed.

Lemma sort_by_key_strict l :
  NoDup (key <$> l) → StronglySorted key_lt (sort_by_key l).
Proof.
  intros HN. rewrite <-(sort_by_key_perm l) in HN.
  pose proof (StronglySorted_merge_sort key_le l) as HS.
  fold (sort_by_key l) in HS. induction HS as [|x L HL IH Hx]; [constructor|].
  rewrite fmap_cons, NoDup_cons in HN. destruct HN as [Hn HN].
  constructor; [auto|]. rewrite Forall_forall in *. intros y Hy.
  specialize (Hx y Hy). unfold key_le, key_lt in *.
  assert (key x ≠ key y); [|lia]. intros Heq. apply Hn. rewrite Heq.
  by apply list_elem_of_fmap_2.
Qed.

Lemma sort_by_key_snoc l x :
  NoDup (key <$> l) → (∀ y, y ∈ l → key y < key x) →
  sort_by_key (x :: l) = sort_by_key l ++ [x].
Proof.
  intros HN Hlt. apply sort_by_key_unique.
  - rewrite sort_by_key_perm. by rewrite Permutation_app_comm.
  - apply StronglySorted_app_2; [|by apply sort_by_key_strict|repeat constructor].
    intros y z Hy Hz. rewrite sort_by_key_perm in Hy.
    apply list_elem_of_singleton in Hz as ->. unfold key_lt. auto.
Qed.

Lemma strict_sorted_filter (P : A → Prop) `{!∀ x, Decision (P x)} L :
  StronglySorted key_lt L → StronglySorted key_lt (filter P L).
Proof.
  induction 1 as [|x L HL IH Hx]; [constructor|].
  rewrite filter_cons. case_decide; [|done]. constructor; [done|].
  rewrite Forall_forall in *. intros y [_ Hy]%list_elem_of_filter. auto.
Qed.

Lemma sort_by_key_filter (P : A → Prop) `{!∀ x, Decision (P x)} l :
  NoDup (key <$> l) → sort_by_key (filter P l) = filter P (sort_by_key l).
Proof.
  intros HN. apply sort_by_key_unique; [by rewrite sort_by_key_perm|].
  by apply strict_sorted_filter, sort_by_key_strict.
Qed.

Lemma min_by_key_foldl l b m :
  foldl (λ best x, match best with
    | None => Some x
    | Some b => if key x <? key b then Some x else Some b end) (Some b) l = Some m →
  (m = b ∨ m ∈ l) ∧ key m ≤ key b ∧ ∀ x, x ∈ l → key m ≤ key x.
Proof.
  revert b. induction l as [|x l IH]; simpl; intros b H.
  - simplify_eq. set_solver by lia.
  - destruct (key x <? key b) eqn:E; apply IH in H as (Hm & Hb & Hl); reflect_bools;
      (split_and!; [set_solver|lia|]);
      intros y [->|Hy]%elem_of_cons; auto; lia.
Qed.

Lemma min_by_key_Some l m :
  min_by_key key l = Some m → m ∈ l ∧ ∀ x, x ∈ l → key m ≤ key x.
Proof.
  destruct l as [|b l]; simpl; [done|]. unfold min_by_key; simpl.
  intros (Hm & Hb & Hl)%min_by_key_foldl. split; [set_solver|].
  intros x [->|Hx]%elem_of_cons; auto.
Qed.

Lemma min_by_key_None l : min_by_key key l = None → l = [].
Proof.
  destruct l as [|b l]; [done|]. unfold min_by_key; simpl. intros H. exfalso.
  revert b H. induction l as [|x l IH]; simpl; intros b H; [done|].
  case_match; eauto.
Qed.
End by_key.

(** A key-monotone relabelling commutes with sorting. *)
Lemma sort_by_key_fmap {A B} (ka : A → Z) (kb : B → Z) (f : A → B) (l : list A) :
  NoDup (ka <$> l) →
  (∀ x y, x ∈ l → y ∈ l → ka x < ka y → kb (f x) < kb (f y)) →
  sort_by_key kb (f <$> l) = f <$> sort_by_key ka l.
Proof.
  intros HN Hmono. apply sort_by_key_unique; [by rewrite sort_by_key_perm|].
  pose proof (sort_by_key_strict ka l HN) as HS.
  assert (Hin : ∀ x, x ∈ sort_by_key ka l → x ∈ l)
    by (intros x; by rewrite sort_by_key_perm).
  induction HS as [|x L HL IH Hx]; [constructor|].
  rewrite fmap_cons. constructor; [apply IH; set_solver|].
  apply Forall_forall. intros y (z & -> & Hz)%list_elem_of_fmap.
  apply Hmono; [apply Hin; set_solver..|].
  by apply (proj1 (Forall_forall _ _) Hx).
Qed.

(** ** Little-endian words *)
Lemma length_to_le_bytes n x : length (to_le_bytes n x) = n.
Proof. revert x. induction n; intros; simpl; auto. Qed.

Lemma from_to_le_bytes n x :
  0 ≤ x → from_le_bytes (to_le_bytes n x) = x mod 256 ^ Z.of_nat n.
Proof.
  revert x. induction n as [|n IH]; intros x Hx.
  - by rewrite Z.mod_1_r.
  - cbn [to_le_bytes from_le_bytes]. rewrite IH by (apply Z.div_pos; lia).
    rewrite Nat2Z.inj_succ, Z.pow_succ_r by lia.
    rewrite Z.rem_mul_r by lia. done.
Qed.

Lemma to_le_bytes_inj n x y :
  0 ≤ x < 256 ^ Z.of_nat n → 0 ≤ y < 256 ^ Z.of_nat n →
  to_le_bytes n x = to_le_bytes n y → x = y.
Proof.
  intros Hx Hy H. apply (f_equal from_le_bytes) in H.
  rewrite !from_to_le_bytes in H by lia. by rewrite !Z.mod_small in H by lia.
Qed.

Definition is_byte (b : Z) : Prop := 0 ≤ b ≤ u8_max.

#[export] Instance is_byte_dec b : Decision (is_byte b).
Proof. unfold is_byte; apply _. Defined.

Lemma from_le_bytes_bound bs :
  Forall is_byte bs → 0 ≤ from_le_bytes bs < 256 ^ Z.of_nat (length bs).
Proof.
  induction 1 as [|b bs Hb _ IH]; cbn [from_le_bytes length]; [lia|].
  rewrite Nat2Z.inj_succ, Z.pow_succ_r by lia. unfold is_byte, u8_max in Hb. lia.
Qed.

(** ** Packed bit fields: masks and shifts as [mod] and [/]. *)
Lemma land_disjoint a b k :
  0 ≤ k → 0 ≤ b < 2 ^ k → a mod 2 ^ k = 0 → Z.land a b = 0.
Proof.
  intros Hk Hb Ha. apply Z.bits_inj'. intros n Hn.
  rewrite Z.land_spec, Z.bits_0. destruct (Z.lt_ge_cases n k).
  - rewrite <-(Z.mod_pow2_bits_low a k n) by lia. by rewrite Ha, Z.bits_0.
  - rewrite <-(Z.mod_small b (2 ^ k)) by lia.
    by rewrite Z.mod_pow2_bits_high, andb_false_r by lia.
Qed.

Lemma lor_disjoint_add a b k :
  0 ≤ k → 0 ≤ b < 2 ^ k → a mod 2 ^ k = 0 → Z.lor a b = a + b.
Proof.
  intros. rewrite <-Z.lxor_lor by eauto using land_disjoint.
  symmetry. apply Z.add_nocarry_lxor. eauto using land_disjoint.
Qed.

Lemma land_low x k : 0 ≤ k → Z.land x (2 ^ k - 1) = x mod 2 ^ k.
Proof. intros. rewrite <-Z.land_ones by done. by rewrite Z.ones_equiv, <-Z.sub_1_r. Qed.

(** A mask of [w] ones at bit [k] selects the field [(x / 2^k) mod 2^w]. *)
Lemma land_field x k w :
  0 ≤ k → 0 ≤ w → Z.land x ((2 ^ w - 1) * 2 ^ k) = (x / 2 ^ k) mod 2 ^ w * 2 ^ k.
Proof.
  intros Hk Hw. rewrite <-(land_low (x / 2 ^ k)) by done.
  rewrite <-!Z.shiftl_mul_pow2, <-Z.shiftr_div_pow2 by done.
  apply Z.bits_inj'. intros n Hn.
  rewrite Z.land_spec, !Z.shiftl_spec, Z.land_spec by done.
  destruct (Z.lt_ge_cases n k).
  - rewrite !(Z.testbit_neg_r _ (n - k)) by lia. by rewrite andb_false_r.
  - rewrite Z.shiftr_spec by lia. by replace (n - k + k) with n by lia.
Qed.

(** ** Complements and page alignment *)
Lemma u64_max_ones : u64_max = Z.ones 64.
Proof. reflexivity. Qed.

Lemma not64_testbit x n :
  in_u64 x → 0 ≤ n → Z.testbit (not64 x) n = (n <? 64) && negb (Z.testbit x n).
Proof.
  intros Hx Hn. unfold not64. rewrite u64_max_ones.
  assert (Hx' : Z.land x (Z.ones 64) = x).
  { rewrite Z.land_ones by lia. apply Z.mod_small. unfold in_u64, u64_max in Hx. lia. }
  replace (Z.ones 64 - x) with (Z.ldiff (Z.ones 64) x).
  - rewrite Z.ldiff_spec. destruct (Z.ltb_spec n 64).
    + by rewrite Z.ones_spec_low by lia.
    + by rewrite Z.ones_spec_high by lia.
  - symmetry. apply Z.sub_nocarry_ldiff. apply Z.bits_inj'. intros m Hm.
    rewrite Z.ldiff_spec, Z.bits_0. destruct (Z.lt_ge_cases m 64).
    + by rewrite Z.ones_spec_low, andb_false_r by lia.
    + rewrite <-Hx'. by rewrite Z.land_spec, Z.ones_spec_high, andb_false_r by lia.
Qed.

(** Masking the low [k] bits away rounds down to a multiple of [2^k]. *)
Lemma land_not64_low v k :
  in_u64 v → 0 ≤ k ≤ 64 → Z.land v (not64 (2 ^ k - 1)) = 2 ^ k * (v / 2 ^ k).
Proof.
  intros Hv Hk. apply Z.bits_inj'. intros n Hn.
  assert (Hr : in_u64 (2 ^ k - 1)).
  { pose proof (Z.pow_le_mono_r 2 k 64 ltac:(lia) ltac:(lia)). pose proof (Z.pow_pos_nonneg 2 k).
    unfold in_u64, u64_max in *. lia. }
  rewrite Z.land_spec, not64_testbit by done.
  rewrite (Z.mul_comm (2 ^ k)), <-Z.shiftl_mul_pow2, <-Z.shiftr_div_pow2 by lia.
  rewrite Z.shiftl_spec by done. replace (2 ^ k - 1) with (Z.ones k) by (by rewrite Z.ones_equiv, Z.sub_1_r).
  destruct (Z.lt_ge_cases n k).
  - rewrite (Z.testbit_neg_r _ (n - k)), Z.ones_spec_low, andb_false_r, andb_false_r by lia. done.
  - rewrite Z.shiftr_spec, Z.ones_spec_high by lia. replace (n - k + k) with n by lia.
    destruct (Z.ltb_spec n 64); [by rewrite andb_true_r|].
    rewrite andb_false_l, andb_false_r. symmetry.
    replace v with (v mod 2 ^ 64) by (apply Z.mod_small; unfold in_u64, u64_max in Hv; lia).
    apply Z.mod_pow2_bits_high. lia.
Qed.

Lemma is_power_of_two_pow x : is_power_of_two x = true → ∃ k, 0 ≤ k ∧ x = 2 ^ k.
Proof.
  unfold is_power_of_two. intros H. reflect_bools. pose proof (Z.log2_spec x ltac:(lia)) as [Hlo Hhi].
  pose proof (Z.log2_nonneg x) as Hk. exists (Z.log2 x). split; [done|].
  destruct (decide (x = 2 ^ Z.log2 x)) as [|Hne]; [done|]. exfalso.
  assert (Hb : Z.testbit (Z.land x (x - 1)) (Z.log2 x) = true).
  { rewrite Z.land_spec, Z.bit_log2 by lia.
    rewrite <-(Z.log2_unique (x - 1) (Z.log2 x)), Z.bit_log2 by lia. done. }
  rewrite H0, Z.bits_0 in Hb. done.
Qed.

(** Rounding up to a power of two: [(v + (a - 1)) & !(a - 1)]. *)
Lemma land_round_up v a :
  0 ≤ v → is_power_of_two a = true → a ≤ u64_max → v + (a - 1) ≤ u64_max →
  let r := Z.land (v + (a - 1)) (not64 (a - 1)) in v ≤ r < v + a ∧ r mod a = 0.
Proof.
  intros Hv (k & Hk & ->)%is_power_of_two_pow Ha Hu r. subst r. pose proof (Z.pow_pos_nonneg 2 k ltac:(lia) Hk) as Hp.
  assert (k < 64).
  { apply (Z.pow_lt_mono_r_iff 2); [lia..|]. unfold u64_max in Ha. change (2 ^ 64) with 18446744073709551616. lia. }
  rewrite land_not64_low by (unfold in_u64; lia).
  rewrite Z.mul_comm, Z_mod_mult. split; [|done].
  pose proof (Z.div_mod (v + (2 ^ k - 1)) (2 ^ k) ltac:(lia)). pose proof (Z.mod_pos_bound (v + (2 ^ k - 1)) (2 ^ k) Hp). lia.
Qed.
