(* ===== verification/CompletionQueue.v ===== *)
(** * Completion queue (kernel/src/completion_queue.rs)

    The allocation-free reservation/FIFO core of a completion port: a fixed array
    of 32 optional entries, each a reserved or published completion record. The
    order of publication is kept by a 64-bit sequence number that is renumbered
    when it reaches [u64::MAX].

    [Queue] holds the data and the operations; [QueueSpec] the abstract queue it
    implements (a finite map of reservations and a FIFO of events) and the trace
    refinement. *)
From stdpp Require Import gmap.
From S2P Require Import Prelude.

Module Queue.

Definition CAPACITY : nat := 32.
Definition BATCH : nat := 8.
Definition CANCELLED : Z := 1.

Record Event := mkEvent {
  operation : Z;
  cookie : Z;
  class : Z;
  flags : Z;
  status : Z;
  value : Z
}.

Definition Event_default : Event := mkEvent 0 0 0 0 0 0.

(** [Event::encode]: fill the first 40 bytes with zero, then copy the fields. A
    buffer shorter than 40 bytes panics ([None]). The [i32] status is written in
    two's complement. *)
Definition encode (e : Event) (out : list Z) : option (list Z) :=
  out ← copy_at 0 (replicate 40 0) out;
  out ← copy_at 0 (to_le_bytes 8 (operation e)) out;
  out ← copy_at 8 (to_le_bytes 8 (cookie e)) out;
  out ← copy_at 16 (to_le_bytes 4 (class e)) out;
  out ← copy_at 20 (to_le_bytes 4 (flags e)) out;
  out ← copy_at 24 (to_le_bytes 4 (status e mod 2 ^ 32)) out;
  copy_at 32 (to_le_bytes 8 (value e)) out.

Record Entry := mkEntry {
  event : Event;
  sequence : option Z
}.

Record Queue := mkQueue {
  entries : list (option Entry);
  next_sequence : Z
}.

Definition new : Queue := mkQueue (replicate CAPACITY None) 1.

Definition has_operation (op : Z) (e : Entry) : bool := operation (event e) =? op.

Definition slot_has (op : Z) (s : option Entry) : bool :=
  match s with Some e => has_operation op e | None => false end.

Definition slot_free (s : option Entry) : bool :=
  match s with Some _ => false | None => true end.

Definition reserve (q : Queue) (op ck : Z) : Queue * bool :=
  if any (has_operation op) (flatten (entries q)) then (q, false)
  else
    match position slot_free (entries q) with
    | None => (q, false)
    | Some i =>
        (mkQueue (<[i := Some (mkEntry (mkEvent op ck 0 0 0 0) None)]> (entries q))
                 (next_sequence q), true)
    end.

(** The live sequence numbers, in slot order. *)
Definition sequences (es : list Entry) : list Z := omap sequence es.

(** [renumber]: replace each live sequence number by its rank in the sorted array.
    [binary_search(&seq).unwrap()] finds the index of [seq], which is present. *)
Definition renumber_entry (ordered : list Z) (e : Entry) : Entry :=
  match sequence e with
  | Some s =>
      match position (Z.eqb s) ordered with
      | Some i => mkEntry (event e) (Some (Z.of_nat i + 1))
      | None => e
      end
  | None => e
  end.

Definition renumber (q : Queue) : Queue :=
  let seqs := sequences (flatten (entries q)) in
  let ordered := sort_by_key id seqs in
  mkQueue ((λ s : option Entry, renumber_entry ordered <$> s) <$> entries q) (Z.of_nat (length seqs) + 1).

(** [iter_mut().flatten().find(|e| e.event.operation == operation)]. *)
Definition find_entry (q : Queue) (op : Z) : option (nat * Entry) :=
  i ← position (slot_has op) (entries q);
  e ← mjoin (entries q !! i);
  Some (i, e).

(** The second lookup is the [find(..).unwrap()] after a possible renumbering; its
    [None] branch is the panic, unreachable because [renumber] keeps operations. *)
Definition publish (q : Queue) (op cl fl st va : Z) : Queue * bool :=
  match find_entry q op with
  | None => (q, false)
  | Some (_, e) =>
      if bool_decide (is_Some (sequence e)) then (q, false)
      else
        let q1 := if next_sequence q =? u64_max then renumber q else q in
        match find_entry q1 op with
        | None => (q1, false)
        | Some (i, e) =>
            let e1 := mkEntry
              (mkEvent (operation (event e)) (cookie (event e)) cl fl st va)
              (Some (next_sequence q1)) in
            (mkQueue (<[i := Some e1]> (entries q1)) (next_sequence q1 + 1), true)
        end
  end.

Definition seq_key (e : Entry) : Z := default 0 (sequence e).

Definition seq_after (after : Z) (e : Entry) : bool :=
  match sequence e with Some s => after <? s | None => false end.

(** The loop of [snapshot] over the [n] targets of the output slice: each round
    takes the entry with the least sequence number above [after]. *)
Fixpoint snapshot_from (es : list Entry) (after : Z) (n : nat) : list Event :=
  match n with
  | O => []
  | S n =>
      match min_by_key seq_key (filter (λ e, seq_after after e = true) es) with
      | None => []
      | Some e => event e :: snapshot_from es (seq_key e) n
      end
  end.

(** [snapshot(out)] with [out.len() = n]: the events written, whose number is the
    returned count. *)
Definition snapshot (q : Queue) (n : nat) : list Event :=
  snapshot_from (flatten (entries q)) 0 n.

Definition remove (q : Queue) (op : Z) : Queue * bool :=
  match position (slot_has op) (entries q) with
  | None => (q, false)
  | Some i => (mkQueue (<[i := None]> (entries q)) (next_sequence q), true)
  end.

(** ** Well-formedness *)

(** Published records as (sequence, event) pairs, and reservations as
    (operation, cookie) pairs, in slot order. *)
Definition pub_of (e : Entry) : option (Z * Event) :=
  (λ s, (s, event e)) <$> sequence e.
Definition pend_of (e : Entry) : option (Z * Z) :=
  match sequence e with
  | None => Some (operation (event e), cookie (event e))
  | Some _ => None
  end.

Definition pubs (es : list Entry) : list (Z * Event) := omap pub_of es.
Definition pends (es : list Entry) : list (Z * Z) := omap pend_of es.

Definition ops (es : list Entry) : list Z := (λ e, operation (event e)) <$> es.

Definition live (q : Queue) : list Entry := flatten (entries q).

(** One slot per operation; distinct sequence numbers below the next one, which
    is itself a [u64]. *)
Record wf_entries (es : list Entry) (next : Z) : Prop := {
  wf_ops : NoDup (ops es);
  wf_seqs : NoDup (pubs es).*1;
  wf_bound : ∀ p, p ∈ pubs es → 1 ≤ p.1 < next;
  wf_next : 1 ≤ next ≤ u64_max
}.

Definition wf (q : Queue) : Prop :=
  length (entries q) = CAPACITY ∧ wf_entries (live q) (next_sequence q).

(** The publication order: events by increasing sequence number; and the
    reservations not yet published. *)
Definition fifo_of (es : list Entry) : list Event := (sort_by_key fst (pubs es)).*2.
Definition pending_of (es : list Entry) : gmap Z Z := list_to_map (pends es).

Definition fifo (q : Queue) : list Event := fifo_of (live q).
Definition pending (q : Queue) : gmap Z Z := pending_of (live q).

(** ** Lemmas on entry lists *)

Lemma pubs_cons e es : pubs (e :: es) = option_list (pub_of e) ++ pubs es.
Proof. unfold pubs; simpl. by destruct (pub_of e). Qed.

Lemma pends_cons e es : pends (e :: es) = option_list (pend_of e) ++ pends es.
Proof. unfold pends; simpl. by destruct (pend_of e). Qed.

Lemma pubs_perm es es' : es ≡ₚ es' → pubs es ≡ₚ pubs es'.
Proof. intros H. unfold pubs. by rewrite H. Qed.

Lemma pends_perm es es' : es ≡ₚ es' → pends es ≡ₚ pends es'.
Proof. intros H. unfold pends. by rewrite H. Qed.

Lemma ops_perm es es' : es ≡ₚ es' → ops es ≡ₚ ops es'.
Proof. intros H. unfold ops. by rewrite H. Qed.

Lemma wf_entries_perm es es' n : es ≡ₚ es' → wf_entries es n → wf_entries es' n.
Proof.
  intros HP [Ho Hs Hb Hn]. constructor; [..|done].
  - by rewrite <-(ops_perm _ _ HP).
  - by rewrite <-(pubs_perm _ _ HP).
  - intros p. rewrite <-(pubs_perm _ _ HP). auto.
Qed.

Lemma fifo_perm es es' :
  NoDup (pubs es).*1 → es ≡ₚ es' → fifo_of es = fifo_of es'.
Proof.
  intros HN HP. unfold fifo_of. f_equal. symmetry. apply sort_by_key_unique.
  - by rewrite sort_by_key_perm, (pubs_perm _ _ HP).
  - by apply sort_by_key_strict.
Qed.

Lemma elem_of_pends es op ck :
  (op, ck) ∈ pends es → op ∈ ops es.
Proof.
  intros (e & He & Hp)%list_elem_of_omap. unfold pend_of in Hp.
  case_match; simplify_eq. apply list_elem_of_fmap. eauto.
Qed.

Lemma elem_of_pubs_op es p : p ∈ pubs es → operation p.2 ∈ ops es.
Proof.
  intros (e & He & Hp)%list_elem_of_omap. unfold pub_of in Hp.
  destruct (sequence e); simplify_eq/=. apply list_elem_of_fmap. eauto.
Qed.

Lemma pends_NoDup es : NoDup (ops es) → NoDup (pends es).*1.
Proof.
  induction es as [|e es IH]; simpl; [constructor|].
  intros [Hn HN]%NoDup_cons. destruct (pend_of e) as [[op ck]|] eqn:E; simpl; [|auto].
  constructor; [|auto]. intros Hin. apply Hn.
  apply list_elem_of_fmap in Hin as ([op' ck'] & Heq & Hin).
  apply elem_of_pends in Hin. unfold pend_of in E. case_match; simplify_eq/=. done.
Qed.

Lemma pending_perm es es' :
  NoDup (ops es) → es ≡ₚ es' → pending_of es = pending_of es'.
Proof.
  intros HN HP. apply list_to_map_proper; [by apply pends_NoDup|by apply pends_perm].
Qed.

Lemma pending_absent es op : op ∉ ops es → pending_of es !! op = None.
Proof.
  intros Hn. apply not_elem_of_list_to_map_1.
  intros ([op' ck] & -> & Hin)%list_elem_of_fmap. eauto using elem_of_pends.
Qed.

Lemma entries_split_length es : length es = (length (pends es) + length (pubs es))%nat.
Proof.
  induction es as [|e es IH]; simpl; [done|].
  unfold pend_of, pub_of at 1. destruct (sequence e); simpl; rewrite IH; unfold pends, pubs; lia.
Qed.

Lemma pending_size es : NoDup (ops es) → size (pending_of es) = length (pends es).
Proof.
  intros HN%pends_NoDup. unfold pending_of.
  rewrite <-(length_map_to_list (M := gmap Z)). apply Permutation_length.
  by rewrite map_to_list_to_map.
Qed.

Lemma fifo_length es : length (fifo_of es) = length (pubs es).
Proof. unfold fifo_of. rewrite length_fmap. by rewrite sort_by_key_perm. Qed.

(** A reservation adds one pending operation and leaves the order alone. *)
Lemma reserve_entries es op ck n :
  wf_entries es n → op ∉ ops es →
  let e := mkEntry (mkEvent op ck 0 0 0 0) None in
  wf_entries (e :: es) n ∧ fifo_of (e :: es) = fifo_of es ∧
  pending_of (e :: es) = <[op := ck]> (pending_of es).
Proof.
  intros [Ho Hs Hb Hn] Hop e. split_and!; [|done..].
  constructor; [by apply NoDup_cons|done..].
Qed.

(** Publishing the reserved record [e] appends its event to the order. *)
Lemma publish_entries es e n cl fl st va :
  wf_entries (e :: es) n → sequence e = None → n < u64_max →
  let ev := mkEvent (operation (event e)) (cookie (event e)) cl fl st va in
  wf_entries (mkEntry ev (Some n) :: es) (n + 1) ∧
  fifo_of (mkEntry ev (Some n) :: es) = fifo_of (e :: es) ++ [ev] ∧
  pending_of (mkEntry ev (Some n) :: es) =
    delete (operation (event e)) (pending_of (e :: es)).
Proof.
  intros [Ho Hs Hb Hn] Hseq Hlt ev.
  assert (Hpe : pubs (e :: es) = pubs es) by (cbn; unfold pub_of at 1; by rewrite Hseq).
  rewrite Hpe in *.
  assert (Hfresh : operation (event e) ∉ ops es) by (by apply NoDup_cons in Ho as [? _]).
  split_and!.
  - constructor; cbn; [done| |..|lia].
    + apply NoDup_cons. split; [|done].
      intros ([s ev'] & Heq & Hin)%list_elem_of_fmap. cbn in Heq. subst. specialize (Hb _ Hin). cbn in Hb. lia.
    + intros p [->|Hp]%elem_of_cons; cbn; [lia|]. specialize (Hb _ Hp). lia.
  - unfold fifo_of. rewrite Hpe.
    change (pubs (mkEntry ev (Some n) :: es)) with ((n, ev) :: pubs es).
    rewrite sort_by_key_snoc; [by rewrite fmap_app|done|].
    intros p Hp. cbn. specialize (Hb _ Hp). lia.
  - unfold pending_of, pends. cbn. unfold pend_of at 2. rewrite Hseq. cbn.
    rewrite delete_insert_id; [done|]. by apply pending_absent.
Qed.

(** Removing a record drops its operation from both views. *)
Lemma remove_entries es e n :
  wf_entries (e :: es) n →
  wf_entries es n ∧
  fifo_of es = filter (λ ev, operation ev ≠ operation (event e)) (fifo_of (e :: es)) ∧
  pending_of es = delete (operation (event e)) (pending_of (e :: es)).
Proof.
  intros [Ho Hs Hb Hn].
  apply NoDup_cons in Ho as [Hfresh Ho].
  assert (Hkeep : pubs es = filter (λ p, operation p.2 ≠ operation (event e)) (pubs (e :: es))).
  { assert (Hes : filter (λ p, operation p.2 ≠ operation (event e)) (pubs es) = pubs es).
    { apply filter_all. intros p Hp Heq. apply Hfresh.
      rewrite <-Heq. by apply elem_of_pubs_op. }
    rewrite pubs_cons, filter_app, Hes. unfold pub_of.
    destruct (sequence e) as [n'|]; [|done].
    change (option_list _) with [(n', event e)].
    rewrite filter_cons_False; [done|]. naive_solver. }
  split_and!.
  - constructor; [done| |..|done].
    + cbn in Hs. destruct (pub_of e); [by apply NoDup_cons in Hs as [_ ?]|done].
    + intros p Hp. apply Hb. cbn. destruct (pub_of e); [by right|done].
  - unfold fifo_of. rewrite Hkeep, sort_by_key_filter by done.
    by rewrite filter_fmap.
  - unfold pending_of, pends. cbn. unfold pend_of at 2. destruct (sequence e); cbn.
    + symmetry. apply delete_id. by apply pending_absent.
    + rewrite delete_insert_id; [done|]. by apply pending_absent.
Qed.

(** ** Lookup *)

Lemma find_entry_Some q op i e :
  find_entry q op = Some (i, e) →
  entries q !! i = Some (Some e) ∧ operation (event e) = op.
Proof.
  unfold find_entry. destruct (position _ _) as [j|] eqn:E; [|done]. simpl.
  apply position_lookup in E as (s & Hs & Hp). rewrite Hs. simpl.
  destruct s as [e'|]; simpl; intros; simplify_eq. split; [done|].
  by apply Z.eqb_eq in Hp.
Qed.

Lemma elem_of_ops es op : op ∈ ops es ↔ ∃ e, e ∈ es ∧ operation (event e) = op.
Proof. unfold ops. rewrite list_elem_of_fmap. naive_solver. Qed.

Lemma find_entry_None q op : find_entry q op = None → op ∉ ops (live q).
Proof.
  unfold find_entry. destruct (position _ _) as [j|] eqn:E; simpl.
  - apply position_lookup in E as ([e|] & Hs & Hp); [|done]. by rewrite Hs.
  - intros _ (e & He & Hop)%elem_of_ops.
    apply elem_of_flatten, list_elem_of_lookup in He as [i Hi].
    rewrite position_None in E. specialize (E _ _ Hi). simpl in E.
    apply Z.eqb_neq in E. done.
Qed.

Lemma find_entry_present q op :
  op ∈ ops (live q) → ∃ i e, find_entry q op = Some (i, e).
Proof.
  intros Hin. destruct (find_entry q op) as [[i e]|] eqn:E; [eauto|].
  by apply find_entry_None in E.
Qed.

Lemma any_operation q op :
  any (has_operation op) (live q) = bool_decide (op ∈ ops (live q)).
Proof.
  symmetry. case_bool_decide as H.
  - apply elem_of_ops in H as (e & He & Hop). symmetry.
    apply existsb_exists. exists e. split; [by apply list_elem_of_In|]. by apply Z.eqb_eq.
  - symmetry. apply not_true_is_false. intros (e & He & Hop)%existsb_exists.
    apply H, elem_of_ops. exists e. split; [by apply list_elem_of_In|]. by apply Z.eqb_eq.
Qed.

Lemma live_replace q i e e' n :
  entries q !! i = Some (Some e) →
  ∃ rest, live q ≡ₚ e :: rest ∧
          live (mkQueue (<[i := Some e']> (entries q)) n) ≡ₚ e' :: rest ∧
          live (mkQueue (<[i := None]> (entries q)) n) ≡ₚ rest.
Proof. apply flatten_replace. Qed.

(** ** Snapshot *)

Lemma elem_of_pubs es p :
  p ∈ pubs es ↔ ∃ e, e ∈ es ∧ sequence e = Some p.1 ∧ event e = p.2.
Proof.
  unfold pubs. rewrite list_elem_of_omap. unfold pub_of. split.
  - intros (e & He & Hp). destruct (sequence e) eqn:E; simplify_eq/=. eauto.
  - intros (e & He & Hs & Hv). exists e. rewrite Hs, Hv. destruct p. done.
Qed.

(** The entry picked by one round of the loop is the head of the records above
    [after] in publication order. *)
Lemma snapshot_round es after :
  NoDup (pubs es).*1 →
  match min_by_key seq_key (filter (λ e, seq_after after e = true) es) with
  | None => filter (λ p, after < p.1) (sort_by_key fst (pubs es)) = []
  | Some e => ∃ rest,
      filter (λ p, after < p.1) (sort_by_key fst (pubs es)) = (seq_key e, event e) :: rest ∧
      filter (λ p, seq_key e < p.1) (sort_by_key fst (pubs es)) = rest
  end.
Proof.
  intros HN. set (L := sort_by_key fst (pubs es)).
  assert (HL : StronglySorted (key_lt fst) L) by (by apply sort_by_key_strict).
  assert (Hcorr : ∀ p, p ∈ filter (λ p, after < p.1) L ↔
    ∃ e, e ∈ filter (λ e, seq_after after e = true) es ∧ sequence e = Some p.1 ∧ event e = p.2).
  { intros p. rewrite list_elem_of_filter. unfold L. rewrite sort_by_key_perm, elem_of_pubs.
    setoid_rewrite list_elem_of_filter. unfold seq_after. split.
    - intros (Hlt & e & He & Hs & Hv). exists e. rewrite Hs. split_and!; auto. by apply Z.ltb_lt.
    - intros (e & (Ha & He) & Hs & Hv). rewrite Hs in Ha. apply Z.ltb_lt in Ha. eauto 10. }
  pose proof (strict_sorted_filter fst (λ p, after < p.1) L HL) as HF.
  destruct (min_by_key _ _) as [e|] eqn:E.
  - apply min_by_key_Some in E as [He Hmin].
    assert (Hk : ∃ k, sequence e = Some k ∧ seq_key e = k ∧ after < k).
    { apply list_elem_of_filter in He as [Ha _]. unfold seq_after, seq_key in *.
      destruct (sequence e); [|done]. apply Z.ltb_lt in Ha. eauto. }
    destruct Hk as (k & Hs & -> & Hk).
    assert (Hin : (k, event e) ∈ filter (λ p, after < p.1) L) by (apply Hcorr; eauto).
    destruct (filter (λ p, after < p.1) L) as [|x rest] eqn:EF; [set_solver|].
    assert (x = (k, event e)) as ->.
    { eapply (strict_sorted_key_inj fst); [exact HF|set_solver|done|]. cbn.
      destruct (proj1 (Hcorr x) ltac:(set_solver)) as (e' & He' & Hs' & _).
      specialize (Hmin _ He'). unfold seq_key in Hmin. rewrite Hs, Hs' in Hmin. cbn in Hmin.
      apply StronglySorted_cons in HF as [Hx _]. rewrite Forall_forall in Hx.
      apply elem_of_cons in Hin as [<-|Hin]; [done|]. specialize (Hx _ Hin).
      unfold key_lt in Hx. cbn in Hx. lia. }
    exists rest. split; [done|].
    transitivity (filter (λ p, k < p.1) (filter (λ p, after < p.1) L)).
    { rewrite list_filter_filter. apply list_filter_iff. intros p. lia. }
    rewrite EF, filter_cons_False by (cbn; lia). apply filter_all.
    apply StronglySorted_cons in HF as [Hx _]. by rewrite Forall_forall in Hx.
  - apply min_by_key_None in E.
    destruct (filter (λ p, after < p.1) L) as [|x rest] eqn:EF; [done|].
    destruct (proj1 (Hcorr x) ltac:(set_solver)) as (e' & He' & _). rewrite E in He'. set_solver.
Qed.

Lemma snapshot_from_take es after n :
  NoDup (pubs es).*1 →
  snapshot_from es after n =
  (take n (filter (λ p, after < p.1) (sort_by_key fst (pubs es)))).*2.
Proof.
  intros HN. revert after. induction n as [|n IH]; intros after; [done|].
  cbn [snapshot_from]. pose proof (snapshot_round es after HN) as HR.
  destruct (min_by_key _ _) as [e|].
  - destruct HR as (rest & HR & HR'). rewrite HR, IH, HR'. done.
  - by rewrite HR.
Qed.

(** ** Renumbering *)

Definition rank (ordered : list Z) (s : Z) : Z :=
  match position (Z.eqb s) ordered with Some i => Z.of_nat i + 1 | None => s end.

Lemma sequences_pubs es : sequences es = (pubs es).*1.
Proof.
  induction es as [|e es IH]; [done|]. rewrite pubs_cons, fmap_app, <-IH.
  unfold sequences, pub_of; simpl. by destruct (sequence e).
Qed.

Lemma rank_spec ordered s :
  s ∈ ordered → ∃ i, ordered !! i = Some s ∧ rank ordered s = Z.of_nat i + 1.
Proof.
  intros (i & Hi)%list_elem_of_lookup.
  destruct (position_is_Some (Z.eqb s) ordered i s Hi (Z.eqb_refl s)) as [j Hj].
  pose proof (position_lookup _ _ _ Hj) as (s' & Hs' & <-%Z.eqb_eq).
  exists j. split; [done|]. unfold rank. by rewrite Hj.
Qed.

Lemma rank_bounds ordered s :
  s ∈ ordered → 1 ≤ rank ordered s < Z.of_nat (length ordered) + 1.
Proof.
  intros (i & Hi & ->)%rank_spec. apply lookup_lt_Some in Hi. lia.
Qed.

Lemma strict_sorted_lookup (L : list Z) i j x y :
  StronglySorted (key_lt id) L → L !! i = Some x → L !! j = Some y → (i < j)%nat → x < y.
Proof.
  intros HS. revert i j. induction HS as [|z L HL IH Hz]; intros [|i] [|j] Hx Hy Hij;
    simplify_eq/=; try lia.
  - apply list_elem_of_lookup_2 in Hy. rewrite Forall_forall in Hz. by apply Hz.
  - eapply IH; eauto. lia.
Qed.

Lemma rank_mono ordered x y :
  StronglySorted (key_lt id) ordered → x ∈ ordered → y ∈ ordered → x < y →
  rank ordered x < rank ordered y.
Proof.
  intros HS (i & Hi & ->)%rank_spec (j & Hj & ->)%rank_spec Hlt.
  destruct (Nat.lt_trichotomy i j) as [|[->|Hji]]; [lia|simplify_eq; lia|].
  pose proof (strict_sorted_lookup _ _ _ _ _ HS Hj Hi Hji). lia.
Qed.

Lemma renumber_live q :
  live (renumber q) =
  renumber_entry (sort_by_key id (sequences (live q))) <$> live q.
Proof. unfold live, renumber. cbn [entries]. apply flatten_fmap. Qed.

Section renumber.
Context (es : list Entry) (n : Z) (Hwf : wf_entries es n).
Let ordered := sort_by_key id (sequences es).

Lemma renumber_pubs :
  pubs (renumber_entry ordered <$> es) = (λ p, (rank ordered p.1, p.2)) <$> pubs es.
Proof.
  clear Hwf. generalize ordered. intros o. clear.
  induction es as [|e es' IH]; [done|].
  rewrite fmap_cons, !pubs_cons, fmap_app, IH. f_equal.
  unfold renumber_entry, pub_of, rank. destruct (sequence e) eqn:E; simpl; [|by rewrite E].
  destruct (position _ o); simpl; [done|]. by rewrite E.
Qed.

Lemma renumber_ops : ops (renumber_entry ordered <$> es) = ops es.
Proof.
  unfold ops. rewrite <-list_fmap_compose. apply list_fmap_ext. intros i e _. simpl.
  unfold renumber_entry. repeat case_match; done.
Qed.

Lemma renumber_pends : pends (renumber_entry ordered <$> es) = pends es.
Proof.
  clear Hwf. generalize ordered. intros o. clear.
  induction es as [|e es' IH]; [done|].
  rewrite fmap_cons, !pends_cons, IH. f_equal. f_equal.
  unfold renumber_entry, pend_of. destruct (sequence e) eqn:E; simpl; [|by rewrite E].
  destruct (position _ o); simpl; by rewrite ?E.
Qed.

Lemma ordered_strict : StronglySorted (key_lt id) ordered.
Proof.
  apply sort_by_key_strict. rewrite list_fmap_id, sequences_pubs. apply Hwf.
Qed.

Lemma ordered_elem s : s ∈ ordered ↔ s ∈ (pubs es).*1.
Proof. unfold ordered. by rewrite sort_by_key_perm, sequences_pubs. Qed.

Lemma renumber_mono p p' :
  p ∈ pubs es → p' ∈ pubs es → p.1 < p'.1 → rank ordered p.1 < rank ordered p'.1.
Proof.
  intros Hp Hp'. apply rank_mono; [apply ordered_strict|..];
    by apply ordered_elem, list_elem_of_fmap_2.
Qed.

(** The order of the live completions survives exhaustion of the counter. *)
Lemma renumber_entries :
  (length es ≤ CAPACITY)%nat →
  let es' := renumber_entry ordered <$> es in
  wf_entries es' (Z.of_nat (length (sequences es)) + 1) ∧
  Z.of_nat (length (sequences es)) + 1 < u64_max ∧
  fifo_of es' = fifo_of es ∧ pending_of es' = pending_of es.
Proof.
  intros Hlen es'.
  assert (Hcnt : (length (sequences es) ≤ CAPACITY)%nat).
  { rewrite sequences_pubs, length_fmap. pose proof (entries_split_length es). lia. }
  assert (Hb : Z.of_nat (length (sequences es)) + 1 < u64_max)
    by (unfold CAPACITY, u64_max in *; lia).
  split_and!; [|done|..].
  - constructor; [unfold es'; rewrite renumber_ops; apply Hwf|..|lia].
    + unfold es'. rewrite renumber_pubs, <-list_fmap_compose.
      apply NoDup_fmap_2_strong; [|eapply NoDup_fmap_1, Hwf].
      intros p p' Hp Hp' Heq. cbn in Heq.
      pose proof (renumber_mono p p' Hp Hp'). pose proof (renumber_mono p' p Hp' Hp).
      eapply (strict_sorted_key_inj fst (sort_by_key fst (pubs es)));
        [by apply sort_by_key_strict, Hwf|by rewrite sort_by_key_perm..|lia].
    + unfold es'. rewrite renumber_pubs. intros p' (p & -> & Hp)%list_elem_of_fmap. cbn.
      rewrite <-(Permutation_length (sort_by_key_perm id (sequences es))).
      apply rank_bounds, ordered_elem. by apply list_elem_of_fmap_2.
  - unfold fifo_of, es'. rewrite renumber_pubs.
    rewrite (sort_by_key_fmap fst fst); [|apply Hwf|apply renumber_mono].
    by rewrite <-list_fmap_compose.
  - unfold pending_of, es'. by rewrite renumber_pends.
Qed.
End renumber.

End Queue.

(** ** Wire format *)
Module QueueAbi.
Import Queue.

(** The 40-byte record of docs/completion-port-abi.md: bytes 28..32 are zero. *)
Definition packed (e : Event) : list Z :=
  to_le_bytes 8 (operation e) ++ to_le_bytes 8 (cookie e) ++
  to_le_bytes 4 (class e) ++ to_le_bytes 4 (flags e) ++
  to_le_bytes 4 (status e mod 2 ^ 32) ++ [0; 0; 0; 0] ++ to_le_bytes 8 (value e).

(** The widths of the fields of the Rust struct. *)
Definition valid_event (e : Event) : Prop :=
  in_u64 (operation e) ∧ in_u64 (cookie e) ∧ in_u32 (class e) ∧ in_u32 (flags e) ∧
  - 2 ^ 31 ≤ status e < 2 ^ 31 ∧ in_u64 (value e).

Lemma split_zeros (n : nat) (rest : list Z) (m : nat) :
  (m ≤ n)%nat → replicate n 0 ++ rest = replicate m 0 ++ replicate (n - m) 0 ++ rest.
Proof.
  intros. rewrite (app_assoc (replicate m 0)), <-replicate_add. do 2 f_equal. lia.
Qed.

(** One field copy into the zeroed tail of the buffer. *)
Lemma copy_field (off n w : nat) (x : Z) (pre rest : list Z) :
  length pre = off → (w ≤ n)%nat →
  copy_at off (to_le_bytes w x) (pre ++ replicate n 0 ++ rest) =
  Some ((pre ++ to_le_bytes w x) ++ replicate (n - w) 0 ++ rest).
Proof.
  intros Hp Hw. rewrite (split_zeros n rest w Hw), copy_at_app.
  - by rewrite <-app_assoc.
  - done.
  - by rewrite length_replicate, length_to_le_bytes.
Qed.

Lemma encode_packed e (pre rest : list Z) :
  length pre = 40%nat → encode e (pre ++ rest) = Some (packed e ++ rest).
Proof.
  intros Hpre. unfold encode.
  rewrite (copy_at_app 0 [] pre rest) by (done || by rewrite Hpre, length_replicate). cbn [mbind option_bind app].
  rewrite (copy_field 0 40 8 _ [] rest) by (done || lia). cbn [mbind option_bind].
  rewrite (copy_field 8) by (rewrite ?length_app, ?length_to_le_bytes; simpl; lia). cbn [mbind option_bind].
  rewrite (copy_field 16) by (rewrite ?length_app, ?length_to_le_bytes; simpl; lia). cbn [mbind option_bind].
  rewrite (copy_field 20) by (rewrite ?length_app, ?length_to_le_bytes; simpl; lia). cbn [mbind option_bind].
  rewrite (copy_field 24) by (rewrite ?length_app, ?length_to_le_bytes; simpl; lia). cbn [mbind option_bind].
  rewrite (split_zeros _ rest 4) by lia.
  rewrite (app_assoc _ (replicate 4 0)).
  rewrite (copy_field 32) by (rewrite ?length_app, ?length_to_le_bytes, ?length_replicate; simpl; lia).
  unfold packed. rewrite <-!app_assoc. done.
Qed.

Lemma status_inj s t :
  - 2 ^ 31 ≤ s < 2 ^ 31 → - 2 ^ 31 ≤ t < 2 ^ 31 → s mod 2 ^ 32 = t mod 2 ^ 32 → s = t.
Proof.
  intros Hs Ht H.
  pose proof (Z.div_mod s (2 ^ 32) ltac:(lia)). pose proof (Z.div_mod t (2 ^ 32) ltac:(lia)).
  pose proof (Z.mod_pos_bound s (2 ^ 32) ltac:(lia)).
  assert (s / 2 ^ 32 = -1 ∨ s / 2 ^ 32 = 0) by nia.
  assert (t / 2 ^ 32 = -1 ∨ t / 2 ^ 32 = 0) by nia. lia.
Qed.

Lemma packed_inj e f : valid_event e → valid_event f → packed e = packed f → e = f.
Proof.
  intros (He1 & He2 & He3 & He4 & He5 & He6) (Hf1 & Hf2 & Hf3 & Hf4 & Hf5 & Hf6).
  unfold packed, in_u64, in_u32, u64_max, u32_max in *. intros H.
  repeat match type of H with
  | to_le_bytes _ _ ++ _ = to_le_bytes _ _ ++ _ =>
      apply app_inj_1 in H as [?E H]; [|by rewrite !length_to_le_bytes]
  end.
  apply app_inv_head in H. destruct e, f; cbn in *.
  f_equal; [eapply (to_le_bytes_inj 8)|eapply (to_le_bytes_inj 8)|eapply (to_le_bytes_inj 4)
    |eapply (to_le_bytes_inj 4)|apply status_inj; [done..|]; eapply (to_le_bytes_inj 4)
    |eapply (to_le_bytes_inj 8)]; try eassumption; try (simpl; lia);
    try (apply Z.mod_pos_bound; lia).
Qed.

(** Round trip of the completion-record ABI: [encode] accepts exactly the
    buffers of at least 40 bytes, leaves what follows the record untouched, and
    two events with the field widths of the struct that encode to the same bytes
    are equal. *)
Theorem encode_faithful (e f : Event) (out out' buf : list Z) :
  valid_event e → valid_event f →
  encode e out = Some buf → encode f out' = Some buf →
  e = f ∧ drop 40 buf = drop 40 out ∧ (40 ≤ length out)%nat.
Proof.
  intros He Hf H H'.
  assert (Hlen : ∀ g o b, encode g o = Some b → (40 ≤ length o)%nat).
  { intros g o b Hg. unfold encode in Hg.
    destruct (copy_at 0 (replicate 40 0) o) eqn:E; [|done]. by apply copy_at_bound in E. }
  pose proof (Hlen _ _ _ H) as HL. pose proof (Hlen _ _ _ H') as HL'.
  rewrite <-(take_drop 40 out), encode_packed in H by (rewrite length_take; lia).
  rewrite <-(take_drop 40 out'), encode_packed in H' by (rewrite length_take; lia).
  apply (inj Some) in H as <-. apply (inj Some) in H' as HE.
  assert (length (packed f) = length (packed e)) by (unfold packed; rewrite !length_app, !length_to_le_bytes; done).
  apply app_inj_1 in HE as [HE _]; [|done]. split_and!; [by symmetry; apply packed_inj| |done].
  rewrite drop_app_length'; [done|]. unfold packed. by rewrite !length_app, !length_to_le_bytes.
Qed.

Definition sample_event : Event := mkEvent 4294967301 77 4 1 (-2) 512.

Lemma encode_faithful_witness :
  sample_event = sample_event ∧ drop 40 (packed sample_event ++ [9]) = drop 40 (replicate 40 255 ++ [9])
  ∧ (40 ≤ length (replicate 40 255%Z ++ [9%Z]))%nat.
Proof.
  apply (encode_faithful sample_event sample_event (replicate 40 255 ++ [9]) (replicate 40 3 ++ [9])
           (packed sample_event ++ [9])).
  - unfold valid_event, in_u64, in_u32, u64_max, u32_max; simpl; lia.
  - unfold valid_event, in_u64, in_u32, u64_max, u32_max; simpl; lia.
  - vm_compute. reflexivity.
  - vm_compute. reflexivity.
Defined.

End QueueAbi.

(** ** The abstract queue and the refinement *)
Module QueueSpec.
Import Queue.

(** Reservations waiting for their producer, and published events in order. *)
Record Spec := mkSpec {
  reserved : gmap Z Z;
  ready : list Event
}.

Definition spec_new : Spec := mkSpec ∅ [].

Definition present (a : Spec) (op : Z) : bool :=
  bool_decide (is_Some (reserved a !! op)) || bool_decide (op ∈ operation <$> ready a).

Definition used (a : Spec) : nat := size (reserved a) + length (ready a).

Definition spec_reserve (a : Spec) (op ck : Z) : Spec * bool :=
  if present a op || (CAPACITY <=? used a)%nat then (a, false)
  else (mkSpec (<[op := ck]> (reserved a)) (ready a), true).

Definition spec_publish (a : Spec) (op cl fl st va : Z) : Spec * bool :=
  match reserved a !! op with
  | None => (a, false)
  | Some ck => (mkSpec (delete op (reserved a)) (ready a ++ [mkEvent op ck cl fl st va]), true)
  end.

Definition spec_remove (a : Spec) (op : Z) : Spec * bool :=
  if present a op
  then (mkSpec (delete op (reserved a)) (filter (λ e, operation e ≠ op) (ready a)), true)
  else (a, false).

(** The operations of the queue as commands with observable outputs. *)
Inductive cmd :=
  | Reserve (op ck : Z)
  | Publish (op cl fl st va : Z)
  | Snapshot (n : nat)
  | Remove (op : Z).

Inductive out :=
  | OBool (b : bool)
  | OEvents (es : list Event).

Definition exec (q : Queue) (c : cmd) : Queue * out :=
  match c with
  | Reserve op ck => let '(q, b) := reserve q op ck in (q, OBool b)
  | Publish op cl fl st va => let '(q, b) := publish q op cl fl st va in (q, OBool b)
  | Snapshot n => (q, OEvents (snapshot q n))
  | Remove op => let '(q, b) := remove q op in (q, OBool b)
  end.

Definition spec_exec (a : Spec) (c : cmd) : Spec * out :=
  match c with
  | Reserve op ck => let '(a, b) := spec_reserve a op ck in (a, OBool b)
  | Publish op cl fl st va => let '(a, b) := spec_publish a op cl fl st va in (a, OBool b)
  | Snapshot n => (a, OEvents (take n (ready a)))
  | Remove op => let '(a, b) := spec_remove a op in (a, OBool b)
  end.

Fixpoint run {S} (step : S → cmd → S * out) (s : S) (cs : list cmd) : S * list out :=
  match cs with
  | [] => (s, [])
  | c :: cs =>
      let '(s, o) := step s c in
      let '(s, os) := run step s cs in (s, o :: os)
  end.

Definition abs (q : Queue) : Spec := mkSpec (pending q) (fifo q).

(** Both views of a queue depend on its entries only up to slot order. *)
Lemma abs_perm q es n :
  wf_entries es n → live q ≡ₚ es →
  wf_entries (live q) n ∧ abs q = mkSpec (pending_of es) (fifo_of es).
Proof.
  intros Hw HP. symmetry in HP. split; [by eapply wf_entries_perm|].
  unfold abs, pending, fifo.
  by rewrite (pending_perm _ _ (wf_ops _ _ Hw) HP), (fifo_perm _ _ (wf_seqs _ _ Hw) HP).
Qed.

Lemma ops_views es op :
  op ∈ ops es ↔ is_Some (pending_of es !! op) ∨ op ∈ operation <$> fifo_of es.
Proof.
  split.
  - intros (e & He & Hop)%elem_of_ops. destruct (sequence e) as [s|] eqn:E.
    + right. apply list_elem_of_fmap. exists (event e). split; [done|].
      unfold fifo_of. apply list_elem_of_fmap. exists (s, event e). split; [done|].
      rewrite sort_by_key_perm. apply elem_of_pubs. eauto.
    + left. destruct (pending_of es !! op) eqn:F; [eauto|].
      apply not_elem_of_list_to_map_2 in F. destruct F. apply list_elem_of_fmap.
      exists (op, cookie (event e)). split; [done|]. apply list_elem_of_omap.
      exists e. split; [done|]. unfold pend_of. rewrite E. by subst.
  - intros [[ck Hck]|Hin].
    + apply elem_of_list_to_map_2 in Hck. by eapply elem_of_pends.
    + apply list_elem_of_fmap in Hin as (ev & -> & Hin).
      apply list_elem_of_fmap in Hin as (p & -> & Hp).
      rewrite sort_by_key_perm in Hp. by apply elem_of_pubs_op.
Qed.

Lemma present_abs q op : present (abs q) op = bool_decide (op ∈ ops (live q)).
Proof.
  unfold present, abs; simpl. symmetry. case_bool_decide as H.
  - apply ops_views in H as [H|H].
    + by rewrite bool_decide_eq_true_2.
    + by rewrite (bool_decide_eq_true_2 _ H), orb_true_r.
  - rewrite !bool_decide_eq_false_2; [done|..]; intros ?; apply H, ops_views; auto.
Qed.

Lemma used_abs q : wf q → used (abs q) = length (live q).
Proof.
  intros [_ Hwf]. unfold used, abs; simpl. unfold pending, fifo.
  rewrite pending_size by apply Hwf. rewrite fifo_length. symmetry. apply entries_split_length.
Qed.

Lemma free_slot q :
  wf q → position slot_free (entries q) = None ↔ (CAPACITY <= length (live q))%nat.
Proof.
  intros [Hlen _]. rewrite position_None, <-count_if_zero.
  pose proof (flatten_length (entries q)) as HF. unfold live.
  rewrite Hlen in HF. unfold slot_free. lia.
Qed.

Lemma reserve_sim q op ck q' b :
  wf q → reserve q op ck = (q', b) →
  wf q' ∧ spec_reserve (abs q) op ck = (abs q', b).
Proof.
  intros Hwf. unfold reserve, spec_reserve.
  rewrite present_abs, used_abs by done.
  change (flatten (entries q)) with (live q). rewrite any_operation.
  case_bool_decide as Hop; [intros; simplify_eq; done|].
  destruct (position slot_free (entries q)) as [i|] eqn:E; intros; simplify_eq.
  - assert (Hlt : ¬ (CAPACITY <= length (live q))%nat)
      by (intros H%free_slot; [congruence|done]).
    apply position_lookup in E as ([?|] & Hi & ?); [done|].
    pose proof (flatten_fill _ _ (mkEntry (mkEvent op ck 0 0 0 0) None) Hi) as HP.
    change (flatten (<[i:=?e]> _)) with
      (live (mkQueue (<[i:=e]> (entries q)) (next_sequence q))) in HP.
    destruct Hwf as [Hlen He].
    destruct (reserve_entries (live q) op ck _ He Hop) as (Hw & Hf & Hp).
    destruct (abs_perm _ _ _ Hw HP) as [Hw' ->].
    split; [split; [cbn; by rewrite length_insert|done]|].
    rewrite (proj2 (Nat.leb_gt _ _)) by lia. by rewrite Hf, Hp.
  - apply free_slot in E; [|done]. rewrite (proj2 (Nat.leb_le _ _)) by done. done.
Qed.

(** The state [publish] writes into: renumbered first when the counter is spent. *)
Lemma renumber_step q :
  wf q →
  let q1 := if next_sequence q =? u64_max then renumber q else q in
  wf q1 ∧ next_sequence q1 < u64_max ∧ abs q1 = abs q.
Proof.
  intros Hwf q1. unfold q1. destruct (Z.eqb_spec (next_sequence q) u64_max) as [E|E].
  - destruct Hwf as [Hlen Hw].
    assert (Hll : (length (live q) ≤ CAPACITY)%nat)
      by (pose proof (flatten_length (entries q)); unfold live; lia).
    destruct (renumber_entries _ _ Hw Hll) as (Hw' & Hb & Hf & Hp).
    rewrite <-renumber_live in *. split_and!; [|done|].
    + split; [by cbn; rewrite length_fmap|done].
    + unfold abs, pending, fifo. by rewrite Hf, Hp.
  - split_and!; [done| |done]. destruct Hwf as [_ Hw]. pose proof (wf_next _ _ Hw). lia.
Qed.

Lemma find_entry_views q op i e :
  wf q → find_entry q op = Some (i, e) →
  match sequence e with
  | None => pending q !! op = Some (cookie (event e))
  | Some _ => pending q !! op = None
  end.
Proof.
  intros [_ Hw] (Hi & Hop)%find_entry_Some.
  destruct (live_replace q i e e (next_sequence q) Hi) as (rest & HP & _).
  unfold pending. rewrite (pending_perm _ _ (wf_ops _ _ Hw) HP).
  pose proof (wf_ops _ _ (wf_entries_perm _ _ _ HP Hw)) as HN.
  apply NoDup_cons in HN as [Hfresh _]. rewrite Hop in Hfresh.
  unfold pending_of. rewrite pends_cons. unfold pend_of.
  destruct (sequence e); cbn.
  - by apply pending_absent.
  - rewrite Hop. by rewrite lookup_insert_eq.
Qed.

Lemma publish_sim q op cl fl st va q' b :
  wf q → publish q op cl fl st va = (q', b) →
  wf q' ∧ spec_publish (abs q) op cl fl st va = (abs q', b).
Proof.
  intros Hwf. unfold publish, spec_publish.
  destruct (find_entry q op) as [[i e]|] eqn:E.
  2:{ intros; simplify_eq. split; [done|]. cbn.
      unfold pending. by rewrite pending_absent by (by apply find_entry_None). }
  pose proof (find_entry_views _ _ _ _ Hwf E) as Hv. cbn [reserved abs].
  case_bool_decide as Hseq.
  { intros; simplify_eq. destruct Hseq as [s Hs]. rewrite Hs in Hv. by rewrite Hv. }
  destruct (sequence e) as [s|] eqn:Es; [destruct Hseq; eauto|]. clear Hseq.
  destruct (renumber_step q Hwf) as (Hwf1 & Hlt & Habs).
  set (q1 := if next_sequence q =? u64_max then renumber q else q) in *.
  assert (Hop : op ∈ ops (live q1)).
  { apply ops_views. left. change (pending_of (live q1)) with (reserved (abs q1)).
    rewrite Habs. cbn. rewrite Hv. eauto. }
  destruct (find_entry_present _ _ Hop) as (j & e1 & E1). rewrite E1.
  pose proof (find_entry_views _ _ _ _ Hwf1 E1) as Hv1.
  change (pending q1) with (reserved (abs q1)) in Hv1. rewrite Habs in Hv1. cbn in Hv1.
  destruct (sequence e1) eqn:Es1; [congruence|].
  apply find_entry_Some in E1 as [Hj Hop1].
  rewrite Hv1. clear Hv E. intros [= <- <-]. destruct Hwf1 as [Hlen1 Hw1].
  match goal with |- wf (mkQueue (<[_:=Some ?x]> _) ?n) ∧ _ =>
    destruct (live_replace q1 j e1 x n Hj) as (rest & HP & HP' & _) end.
  pose proof (wf_entries_perm _ _ _ HP Hw1) as Hw1'.
  destruct (publish_entries rest e1 _ cl fl st va Hw1' Es1 Hlt) as (Hw2 & Hf & Hp).
  destruct (abs_perm _ _ _ Hw2 HP') as [Hw3 ->].
  destruct (abs_perm _ _ _ Hw1' HP) as [_ Habs1].
  split; [split; [cbn; by rewrite length_insert|done]|].
  assert (Hq : abs q = mkSpec (pending_of (e1 :: rest)) (fifo_of (e1 :: rest)))
    by (by rewrite <-Habs).
  injection Hq as Hq1 Hq2. by rewrite Hf, Hp, Hop1, <-Hq1, <-Hq2.
Qed.

Lemma remove_sim q op q' b :
  wf q → remove q op = (q', b) →
  wf q' ∧ spec_remove (abs q) op = (abs q', b).
Proof.
  intros Hwf. unfold remove, spec_remove. rewrite present_abs.
  destruct (position (slot_has op) (entries q)) as [i|] eqn:E; intros; simplify_eq.
  - apply position_lookup in E as ([e|] & Hi & Hop); [|done].
    apply Z.eqb_eq in Hop as <-. destruct Hwf as [Hlen Hw].
    destruct (live_replace q i e e (next_sequence q) Hi) as (rest & HP & _ & HP').
    pose proof (wf_entries_perm _ _ _ HP Hw) as Hw1.
    destruct (remove_entries _ _ _ Hw1) as (Hw2 & Hf & Hp).
    destruct (abs_perm _ _ _ Hw2 HP') as [Hw3 ->].
    destruct (abs_perm _ _ _ Hw1 HP) as [_ ->].
    split; [split; [cbn; by rewrite length_insert|done]|].
    rewrite bool_decide_eq_true_2; [by rewrite Hf, Hp|].
    rewrite (ops_perm _ _ HP). by left.
  - rewrite bool_decide_eq_false_2; [done|]. intros Hin.
    destruct (find_entry_present _ _ Hin) as (i & e & HE).
    unfold find_entry in HE. by rewrite E in HE.
Qed.

Lemma snapshot_fifo q n : wf q → snapshot q n = take n (fifo q).
Proof.
  intros [_ Hw]. unfold snapshot, fifo, fifo_of. rewrite snapshot_from_take by apply Hw.
  rewrite filter_all, fmap_take; [done|].
  intros p Hp. change (flatten (entries q)) with (live q) in Hp.
  rewrite sort_by_key_perm in Hp. pose proof (wf_bound _ _ Hw p Hp). lia.
Qed.

Lemma exec_sim q c q' o :
  wf q → exec q c = (q', o) → wf q' ∧ spec_exec (abs q) c = (abs q', o).
Proof.
  intros Hwf. destruct c; simpl.
  - destruct (reserve q op ck) as [q1 b] eqn:E. intros; simplify_eq.
    destruct (reserve_sim _ _ _ _ _ Hwf E) as [? ->]. done.
  - destruct (publish q op cl fl st va) as [q1 b] eqn:E. intros; simplify_eq.
    destruct (publish_sim _ _ _ _ _ _ _ _ Hwf E) as [? ->]. done.
  - intros; simplify_eq. by rewrite snapshot_fifo.
  - destruct (remove q op) as [q1 b] eqn:E. intros; simplify_eq.
    destruct (remove_sim _ _ _ _ Hwf E) as [? ->]. done.
Qed.

Lemma new_wf : wf new.
Proof. split; [done|]. constructor; [constructor..| |unfold u64_max; simpl; lia]. set_solver. Qed.

Lemma run_sim cs q :
  wf q →
  wf (run exec q cs).1 ∧
  run spec_exec (abs q) cs = (abs (run exec q cs).1, (run exec q cs).2).
Proof.
  revert q. induction cs as [|c cs IH]; intros q Hwf; simpl; [done|].
  destruct (exec q c) as [q1 o] eqn:E. destruct (exec_sim _ _ _ _ Hwf E) as [Hwf1 ->].
  destruct (IH q1 Hwf1) as [Hwf2 ->]. destruct (run exec q1 cs). done.
Qed.

(** Refinement: every sequence of reserve/publish/snapshot/remove calls on the
    32-slot array, from the empty queue, gives the same outputs as the abstract
    queue (a finite map of reservations and a FIFO of published events bounded by
    32 in total) - renumbering at [u64::MAX] included, which is invisible. *)
Theorem queue_refines_fifo (cs : list cmd) :
  (run exec new cs).2 = (run spec_exec spec_new cs).2.
Proof.
  destruct (run_sim cs new new_wf) as [_ H]. change spec_new with (abs new). by rewrite H.
Qed.

(** Invariant: in every reachable queue the slots hold distinct operations, the
    published sequence numbers are distinct and below [next_sequence], and
    [next_sequence] is a [u64]: the increment in [publish] never overflows. *)
Theorem queue_reachable_wf (cs : list cmd) : wf (run exec new cs).1.
Proof. apply run_sim, new_wf. Qed.

End QueueSpec.
