(* ===== verification/Capability.v ===== *)
(** * Capabilities (kernel/src/capability.rs)

    The fifteen coarse capabilities and the 64-bit sets of them. The lemmas relate
    the bit-mask operations to finite-set reasoning: membership decides equality of
    sets built from capabilities, and inclusion is inclusion of members. *)
From stdpp Require Import gmap.
From S2P Require Import Prelude.

Module Cap.

Inductive Capability :=
  | Console | TimerRead | TaskInspect | TaskControl | DeviceIo | InterruptControl
  | MemoryInspect | FileRead | FileWrite | Ipc | ProcessCreate | NetworkIo
  | StorageIo | DisplayIo | InputIo.

#[export] Instance Capability_eq_dec : EqDecision Capability.
Proof. solve_decision. Defined.

Definition COUNT : nat := 15.

(** [Capability::ALL], in discriminant order. *)
Definition ALL : list Capability :=
  [Console; TimerRead; TaskInspect; TaskControl; DeviceIo; InterruptControl;
   MemoryInspect; FileRead; FileWrite; Ipc; ProcessCreate; NetworkIo;
   StorageIo; DisplayIo; InputIo].

(** The [repr(u8)] discriminant. *)
Definition index (c : Capability) : nat :=
  match c with
  | Console => 0 | TimerRead => 1 | TaskInspect => 2 | TaskControl => 3
  | DeviceIo => 4 | InterruptControl => 5 | MemoryInspect => 6 | FileRead => 7
  | FileWrite => 8 | Ipc => 9 | ProcessCreate => 10 | NetworkIo => 11
  | StorageIo => 12 | DisplayIo => 13 | InputIo => 14
  end.

Definition bit (c : Capability) : Z := Z.shiftl 1 (Z.of_nat (index c)).

Record CapabilitySet := mkSet { bits : Z }.

#[export] Instance CapabilitySet_eq_dec : EqDecision CapabilitySet.
Proof. solve_decision. Defined.

Definition empty : CapabilitySet := mkSet 0.

Definition with_ (s : CapabilitySet) (c : Capability) : CapabilitySet :=
  mkSet (Z.lor (bits s) (bit c)).

Definition without (s : CapabilitySet) (c : Capability) : CapabilitySet :=
  mkSet (Z.land (bits s) (not64 (bit c))).

Definition contains (s : CapabilitySet) (c : Capability) : bool :=
  negb (Z.land (bits s) (bit c) =? 0).

Definition is_empty (s : CapabilitySet) : bool := bits s =? 0.

Definition is_subset_of (s other : CapabilitySet) : bool :=
  Z.land (bits s) (not64 (bits other)) =? 0.

Definition only (c : Capability) : CapabilitySet := with_ empty c.

Definition with_all (s : CapabilitySet) (cs : list Capability) : CapabilitySet :=
  foldl with_ s cs.

(** [kernel_bootstrap] and [userspace], the builder chains of the source. *)
Definition kernel_bootstrap : CapabilitySet :=
  with_all empty
    [Console; TimerRead; TaskInspect; TaskControl; DeviceIo; InterruptControl;
     MemoryInspect; FileRead; FileWrite; Ipc; TimerRead; ProcessCreate; NetworkIo;
     StorageIo; DisplayIo; InputIo].

Definition userspace : CapabilitySet :=
  with_all empty [Console; FileRead; FileWrite; Ipc; ProcessCreate; NetworkIo].

(** ** Sets as sets *)

Definition wf (s : CapabilitySet) : Prop := in_u64 (bits s).

(** A set with no bit outside the fifteen capabilities. *)
Definition proper (s : CapabilitySet) : Prop := 0 ≤ bits s < 2 ^ 15.

Lemma bit_testbit c n :
  0 ≤ n → Z.testbit (bit c) n = bool_decide (n = Z.of_nat (index c)).
Proof.
  intros Hn. unfold bit. rewrite Z.shiftl_spec by lia.
  case_bool_decide as H; subst.
  - by rewrite Z.sub_diag.
  - destruct (Z.lt_ge_cases n (Z.of_nat (index c))).
    + by rewrite Z.testbit_neg_r by lia.
    + apply Z.bits_above_log2; simpl; lia.
Qed.

Lemma index_inj c d : index c = index d → c = d.
Proof. by destruct c, d. Qed.

Lemma index_lt c : (index c < COUNT)%nat.
Proof. destruct c; unfold COUNT; simpl; lia. Qed.

Lemma elem_of_ALL c : c ∈ ALL.
Proof. destruct c; unfold ALL; set_solver. Qed.

Lemma land_bit_zero x c :
  Z.land x (bit c) = 0 ↔ Z.testbit x (Z.of_nat (index c)) = false.
Proof.
  split.
  - intros H. apply (f_equal (λ y, Z.testbit y (Z.of_nat (index c)))) in H.
    rewrite Z.land_spec, Z.bits_0, bit_testbit, bool_decide_eq_true_2 in H by (done || lia).
    by rewrite andb_true_r in H.
  - intros H. apply Z.bits_inj'. intros n Hn.
    rewrite Z.land_spec, Z.bits_0, bit_testbit by lia.
    case_bool_decide; subst; [by rewrite H|by rewrite andb_false_r].
Qed.

Lemma contains_testbit s c : contains s c = Z.testbit (bits s) (Z.of_nat (index c)).
Proof.
  unfold contains. destruct (Z.testbit _ _) eqn:E.
  - apply negb_true_iff, Z.eqb_neq. rewrite land_bit_zero. congruence.
  - apply negb_false_iff, Z.eqb_eq. by apply land_bit_zero.
Qed.

Lemma bit_range c : 0 ≤ bit c < 2 ^ 15.
Proof.
  pose proof (index_lt c). unfold bit, COUNT in *. rewrite Z.shiftl_1_l.
  split; [apply Z.pow_nonneg; lia|apply Z.pow_lt_mono_r; lia].
Qed.

Lemma contains_empty c : contains empty c = false.
Proof. by destruct c. Qed.

Lemma contains_with s c d :
  contains (with_ s c) d = bool_decide (c = d) || contains s d.
Proof.
  rewrite !contains_testbit. simpl. rewrite Z.lor_spec, bit_testbit by lia.
  rewrite orb_comm. f_equal. apply bool_decide_ext. split; [|by intros ->].
  intros H. symmetry. apply index_inj. lia.
Qed.

Lemma contains_only c d : contains (only c) d = bool_decide (c = d).
Proof. unfold only. by rewrite contains_with, contains_empty, orb_false_r. Qed.

Lemma contains_without s c d :
  contains (without s c) d = contains s d && negb (bool_decide (c = d)).
Proof.
  rewrite !contains_testbit. simpl.
  rewrite Z.land_spec, not64_testbit, bit_testbit by (pose proof (bit_range c); unfold in_u64, u64_max; lia).
  pose proof (index_lt d). unfold COUNT in *. rewrite (proj2 (Z.ltb_lt _ 64)) by lia. simpl.
  do 2 f_equal. apply bool_decide_ext. split; [|by intros ->].
  intros Hd. symmetry. apply index_inj. lia.
Qed.

Lemma contains_with_all s cs d :
  contains (with_all s cs) d = bool_decide (d ∈ cs) || contains s d.
Proof.
  revert s. induction cs as [|c cs IH]; intros s; simpl; [done|].
  rewrite IH, contains_with, orb_assoc. f_equal.
  rewrite <-bool_decide_or. apply bool_decide_ext. set_solver.
Qed.

(** High bits outside the fifteen capabilities can be set in a raw set, so the
    inclusion test is equivalent to inclusion of members on proper sets. *)
Lemma proper_testbit_high s n : proper s → 15 ≤ n → Z.testbit (bits s) n = false.
Proof.
  intros [Hl Hh] Hn. rewrite <-(Z.mod_small (bits s) (2 ^ 15)) by lia.
  by apply Z.mod_pow2_bits_high; lia.
Qed.

Lemma index_surj n : 0 ≤ n < 15 → ∃ c, n = Z.of_nat (index c).
Proof.
  intros Hn.
  assert (∃ c, Z.to_nat n = index c) as [c Hc]; [|exists c; lia].
  assert (Hlt : (Z.to_nat n < 15)%nat) by lia. revert Hlt. generalize (Z.to_nat n).
  intros m Hm.
  do 15 (destruct m as [|m]; [first
    [by exists Console|by exists TimerRead|by exists TaskInspect|by exists TaskControl
    |by exists DeviceIo|by exists InterruptControl|by exists MemoryInspect|by exists FileRead
    |by exists FileWrite|by exists Ipc|by exists ProcessCreate|by exists NetworkIo
    |by exists StorageIo|by exists DisplayIo|by exists InputIo]|]). lia.
Qed.

Lemma is_subset_of_iff s t :
  proper s → wf t →
  is_subset_of s t = true ↔ ∀ c, contains s c = true → contains t c = true.
Proof.
  intros Hs Ht. unfold is_subset_of. rewrite Z.eqb_eq. split.
  - intros H c Hc. rewrite contains_testbit in *.
    apply (f_equal (λ y, Z.testbit y (Z.of_nat (index c)))) in H.
    rewrite Z.land_spec, Z.bits_0, not64_testbit, Hc in H by (done || lia).
    pose proof (index_lt c). unfold COUNT in *.
    rewrite (proj2 (Z.ltb_lt _ 64)) in H by lia. simpl in H. by apply negb_false_iff in H.
  - intros H. apply Z.bits_inj'. intros n Hn.
    rewrite Z.land_spec, Z.bits_0, not64_testbit by done.
    destruct (Z.lt_ge_cases n 15).
    + destruct (index_surj n) as [c ->]; [lia|].
      specialize (H c). rewrite !contains_testbit in H.
      destruct (Z.testbit (bits s) _); [|done]. rewrite H by done. by rewrite andb_false_r.
    + by rewrite proper_testbit_high.
Qed.

Lemma proper_wf s : proper s → wf s.
Proof. unfold proper, wf, in_u64, u64_max. lia. Qed.

Lemma proper_empty : proper empty.
Proof. unfold proper. simpl. lia. Qed.

Lemma proper_with s c : proper s → proper (with_ s c).
Proof.
  intros Hs. unfold proper, with_ in *; simpl. pose proof (bit_range c) as Hb.
  pose proof (proj2 (Z.lor_nonneg (bits s) (bit c))).
  apply Z.bounded_iff_bits_nonneg'; [lia..|].
  intros n Hn. rewrite Z.lor_spec.
  rewrite (proj1 (Z.bounded_iff_bits_nonneg 15 (bits s) ltac:(lia) ltac:(lia))) by lia.
  by rewrite (proj1 (Z.bounded_iff_bits_nonneg 15 (bit c) ltac:(lia) ltac:(lia))) by lia.
Qed.

Lemma proper_with_all s cs : proper s → proper (with_all s cs).
Proof. revert s. induction cs; simpl; auto using proper_with. Qed.

Lemma proper_only c : proper (only c).
Proof. apply proper_with, proper_empty. Qed.

Lemma proper_without s c : proper s → proper (without s c).
Proof.
  intros Hs. unfold proper, without in *; simpl.
  pose proof (proj2 (Z.land_nonneg (bits s) (not64 (bit c)))).
  apply Z.bounded_iff_bits_nonneg'; [lia..|].
  intros n Hn. rewrite Z.land_spec.
  by rewrite (proj1 (Z.bounded_iff_bits_nonneg 15 (bits s) ltac:(lia) ltac:(lia))) by lia.
Qed.

(** Proper sets are determined by their members. *)
Lemma set_ext s t :
  proper s → proper t → (∀ c, contains s c = contains t c) → s = t.
Proof.
  intros Hs Ht H. destruct s as [s], t as [t]. f_equal. apply Z.bits_inj'. intros n Hn.
  destruct (Z.lt_ge_cases n 15).
  - destruct (index_surj n) as [c ->]; [lia|]. specialize (H c).
    by rewrite !contains_testbit in H.
  - pose proof (proper_testbit_high _ n Hs). pose proof (proper_testbit_high _ n Ht).
    simpl in *. by rewrite H1, H2.
Qed.

Lemma is_empty_only c : is_empty (only c) = false.
Proof. by destruct c. Qed.

#[export] Hint Resolve proper_empty proper_with proper_with_all proper_only proper_without
  proper_wf : woven.

(** ** Refinement to finite sets *)

Definition of_index (n : nat) : option Capability := ALL !! n.

Lemma of_index_index c : of_index (index c) = Some c.
Proof. by destruct c. Qed.

#[export] Instance Capability_countable : Countable Capability :=
  inj_countable index of_index of_index_index.

Definition members (s : CapabilitySet) : gset Capability :=
  list_to_set (filter (λ c, contains s c = true) ALL).

Lemma elem_of_members s c : c ∈ members s ↔ contains s c = true.
Proof.
  unfold members. rewrite elem_of_list_to_set, list_elem_of_filter.
  pose proof (elem_of_ALL c). tauto.
Qed.

(** The bit-mask operations implement finite sets of capabilities: [with] is
    insertion, [without] is removal, [is_subset_of] is inclusion and two sets
    with the same members are equal (for sets with no bit outside the fifteen
    capabilities, which every constructor of the module produces). *)
Theorem capability_set_refines (s t : CapabilitySet) (c : Capability) :
  proper s → proper t →
  members (with_ s c) = {[c]} ∪ members s ∧
  members (without s c) = members s ∖ {[c]} ∧
  (is_subset_of s t = true ↔ members s ⊆ members t) ∧
  (members s = members t ↔ s = t) ∧
  proper (with_ s c) ∧ proper (without s c).
Proof.
  intros Hs Ht. split_and!; auto with woven.
  - apply set_eq. intros d. rewrite elem_of_union, !elem_of_members, contains_with.
    rewrite orb_true_iff, bool_decide_eq_true, elem_of_singleton. naive_solver.
  - apply set_eq. intros d. rewrite elem_of_difference, !elem_of_members, contains_without.
    rewrite andb_true_iff, negb_true_iff, bool_decide_eq_false, elem_of_singleton. naive_solver.
  - rewrite is_subset_of_iff by auto with woven. unfold subseteq, set_subseteq_instance.
    setoid_rewrite elem_of_members. done.
  - split; [|by intros ->]. intros H. apply set_ext; [done..|]. intros d.
    apply eq_true_iff_eq. by rewrite <-!elem_of_members, H.
Qed.

Lemma capability_set_refines_witness :
  members (with_ userspace TimerRead) = {[TimerRead]} ∪ members userspace.
Proof.
  apply (capability_set_refines userspace kernel_bootstrap TimerRead).
  - unfold proper. vm_compute. split; [discriminate|reflexivity].
  - unfold proper. vm_compute. split; [discriminate|reflexivity].
Defined.

End Cap.
