(* ===== verification/WovenGuard.v ===== *)
(** * WovenGuard policy (kernel/src/wovenguard.rs, lines 1-572)

    Security domains, sandbox profiles (capability ceiling, service, file and
    device masks) and the authorization functions. *)
From S2P Require Import Prelude Capability.

Module Guard.
Import Cap.

Inductive SecurityDomain := Kernel | SystemService | User | Restricted.

#[export] Instance SecurityDomain_eq_dec : EqDecision SecurityDomain.
Proof. solve_decision. Defined.

Inductive DecisionReason :=
  | Allowed | ActorLacksTaskControl | ActorLacksCapability | TargetDomainCeiling
  | SandboxCeiling | InvalidSandboxProfile | KernelDomainProtected
  | ServicePublishDenied | ServiceDiscoverDenied | DevicePolicyDenied.

#[export] Instance DecisionReason_eq_dec : EqDecision DecisionReason.
Proof. solve_decision. Defined.

Record PolicyDecision := mkDecision {
  allowed : bool;
  reason : DecisionReason
}.

Definition allow : PolicyDecision := mkDecision true Allowed.
Definition deny (r : DecisionReason) : PolicyDecision := mkDecision false r.

Definition domain_ceiling (d : SecurityDomain) : CapabilitySet :=
  match d with
  | Kernel => kernel_bootstrap
  | SystemService =>
      with_all empty
        [Console; TimerRead; TaskInspect; TaskControl; DeviceIo; FileRead; FileWrite;
         Ipc; ProcessCreate; NetworkIo; StorageIo; DisplayIo; InputIo]
  | User => userspace
  | Restricted => only TimerRead
  end.

Definition domain_allows (d : SecurityDomain) (c : Capability) : bool :=
  contains (domain_ceiling d) c.

(** ** Service classes *)
Inductive ServiceClass := Core | SNetwork | SStorage | Ui | Ai | Application | STest.

Definition service_index (c : ServiceClass) : Z :=
  match c with
  | Core => 0 | SNetwork => 1 | SStorage => 2 | Ui => 3 | Ai => 4
  | Application => 5 | STest => 6
  end.

Definition service_bit (c : ServiceClass) : Z := Z.shiftl 1 (service_index c).

Record ServicePolicy := mkServicePolicy {
  publish_mask : Z;
  discover_mask : Z
}.

Definition service_all : ServicePolicy :=
  mkServicePolicy (Z.shiftl 1 7 - 1) (Z.shiftl 1 7 - 1).
Definition service_none : ServicePolicy := mkServicePolicy 0 0.
Definition service_only (p d : ServiceClass) : ServicePolicy :=
  mkServicePolicy (service_bit p) (service_bit d).

Definition allows_publish (p : ServicePolicy) (c : ServiceClass) : bool :=
  negb (Z.land (publish_mask p) (service_bit c) =? 0).
Definition allows_discover (p : ServicePolicy) (c : ServiceClass) : bool :=
  negb (Z.land (discover_mask p) (service_bit c) =? 0).

Definition classify_service (name : list Z) : ServiceClass :=
  let pre s := starts_with (bytes s) name in
  if pre "sys.net." || pre "net." then SNetwork
  else if pre "sys.storage." || pre "storage." then SStorage
  else if pre "sys.ui." || pre "ui." then Ui
  else if pre "sys.ai." || pre "ai." then Ai
  else if pre "sys." then Core
  else if pre "test." || pre "woven.test." then STest
  else Application.

(** ** File scopes *)
Inductive FileScope := Root | System | Temporary | Mounted | Home | Other.

Definition scope_index (s : FileScope) : Z :=
  match s with
  | Root => 0 | System => 1 | Temporary => 2 | Mounted => 3 | Home => 4 | Other => 5
  end.

Definition scope_bit (s : FileScope) : Z := Z.shiftl 1 (scope_index s).

Record FilePolicy := mkFilePolicy {
  read_mask : Z;
  write_mask : Z
}.

Definition file_all : FilePolicy := mkFilePolicy (Z.shiftl 1 6 - 1) (Z.shiftl 1 6 - 1).
Definition file_none : FilePolicy := mkFilePolicy 0 0.
Definition scoped (r w : Z) : FilePolicy := mkFilePolicy r w.

Definition allows_read (p : FilePolicy) (s : FileScope) : bool :=
  negb (Z.land (read_mask p) (scope_bit s) =? 0).
Definition allows_write (p : FilePolicy) (s : FileScope) : bool :=
  negb (Z.land (write_mask p) (scope_bit s) =? 0).

Definition classify_file_path (path : list Z) : FileScope :=
  let eq s := bool_decide (path = bytes s) in
  let pre s := starts_with (bytes s) path in
  if eq "/" then Root
  else if eq "/etc" || pre "/etc/" || eq "/bin" || pre "/bin/" then System
  else if eq "/tmp" || pre "/tmp/" then Temporary
  else if eq "/mnt" || pre "/mnt/" then Mounted
  else if eq "/home" || pre "/home/" then Home
  else Other.

(** ** Device classes *)
Inductive DeviceClass := DNetwork | DStorage | Display | Input | Generic.

Definition device_index (c : DeviceClass) : Z :=
  match c with DNetwork => 0 | DStorage => 1 | Display => 2 | Input => 3 | Generic => 4 end.

Definition device_bit (c : DeviceClass) : Z := Z.shiftl 1 (device_index c).

Record DevicePolicy := mkDevicePolicy { device_mask : Z }.

Definition device_all : DevicePolicy := mkDevicePolicy (Z.shiftl 1 5 - 1).
Definition device_none : DevicePolicy := mkDevicePolicy 0.
Definition device_only (c : DeviceClass) : DevicePolicy := mkDevicePolicy (device_bit c).

Definition device_allows (p : DevicePolicy) (c : DeviceClass) : bool :=
  negb (Z.land (device_mask p) (device_bit c) =? 0).

Definition device_capability (c : DeviceClass) : Capability :=
  match c with
  | DNetwork => NetworkIo
  | DStorage => StorageIo
  | Display => DisplayIo
  | Input => InputIo
  | Generic => DeviceIo
  end.

(** ** Sandbox profiles *)
Record SandboxProfile := mkProfile {
  profile_id : Z;
  ceiling : CapabilitySet;
  services : ServicePolicy;
  files : FilePolicy;
  devices : DevicePolicy
}.

Definition profile_new (id : Z) (c : CapabilitySet) : SandboxProfile :=
  mkProfile id c service_all file_all device_all.

Definition KERNEL_TRUSTED : SandboxProfile := profile_new 1 kernel_bootstrap.
Definition SYSTEM_SERVICE : SandboxProfile := profile_new 2 (domain_ceiling SystemService).
Definition USER_DEFAULT : SandboxProfile := profile_new 3 userspace.
Definition RESTRICTED : SandboxProfile := profile_new 4 (only TimerRead).

Definition with_service_policy (p : SandboxProfile) (s : ServicePolicy) : SandboxProfile :=
  mkProfile (profile_id p) (ceiling p) s (files p) (devices p).
Definition with_file_policy (p : SandboxProfile) (f : FilePolicy) : SandboxProfile :=
  mkProfile (profile_id p) (ceiling p) (services p) f (devices p).
Definition with_device_policy (p : SandboxProfile) (d : DevicePolicy) : SandboxProfile :=
  mkProfile (profile_id p) (ceiling p) (services p) (files p) d.

Definition allows (p : SandboxProfile) (c : Capability) : bool := contains (ceiling p) c.
Definition allows_service_publish (p : SandboxProfile) (c : ServiceClass) : bool :=
  allows_publish (services p) c.
Definition allows_service_discover (p : SandboxProfile) (c : ServiceClass) : bool :=
  allows_discover (services p) c.
Definition allows_file_read (p : SandboxProfile) (s : FileScope) : bool :=
  allows_read (files p) s.
Definition allows_file_write (p : SandboxProfile) (s : FileScope) : bool :=
  allows_write (files p) s.
Definition allows_device (p : SandboxProfile) (c : DeviceClass) : bool :=
  device_allows (devices p) c.

Definition is_valid_for (p : SandboxProfile) (d : SecurityDomain) : bool :=
  negb (profile_id p =? 0) && is_subset_of (ceiling p) (domain_ceiling d).

Definition default_sandbox (d : SecurityDomain) : SandboxProfile :=
  match d with
  | Kernel => KERNEL_TRUSTED
  | SystemService => SYSTEM_SERVICE
  | User => USER_DEFAULT
  | Restricted => RESTRICTED
  end.

(** ** Authorization *)
Definition authorize_device_access (authority : CapabilitySet) (sandbox : SandboxProfile)
    (c : DeviceClass) : PolicyDecision :=
  if negb (contains authority (device_capability c)) then deny ActorLacksCapability
  else if negb (allows_device sandbox c) then deny DevicePolicyDenied
  else allow.

Definition authorize_grant (actor_domain : SecurityDomain) (actor_capabilities : CapabilitySet)
    (target_domain : SecurityDomain) (target_sandbox : SandboxProfile)
    (c : Capability) : PolicyDecision :=
  if negb (contains actor_capabilities TaskControl) then deny ActorLacksTaskControl
  else if negb (contains actor_capabilities c) then deny ActorLacksCapability
  else if bool_decide (target_domain = Kernel) && negb (bool_decide (actor_domain = Kernel))
    then deny KernelDomainProtected
  else if negb (domain_allows target_domain c) then deny TargetDomainCeiling
  else if negb (is_valid_for target_sandbox target_domain) then deny InvalidSandboxProfile
  else if negb (allows target_sandbox c) then deny SandboxCeiling
  else allow.

Definition authorize_sandbox_bind (actor_domain : SecurityDomain)
    (actor_capabilities : CapabilitySet) (target_domain : SecurityDomain)
    (profile : SandboxProfile) : PolicyDecision :=
  if negb (contains actor_capabilities TaskControl) then deny ActorLacksTaskControl
  else if bool_decide (target_domain = Kernel) && negb (bool_decide (actor_domain = Kernel))
    then deny KernelDomainProtected
  else if negb (is_valid_for profile target_domain) then deny InvalidSandboxProfile
  else allow.

Definition authorize_service_publish (p : SandboxProfile) (c : ServiceClass) : PolicyDecision :=
  if allows_service_publish p c then allow else deny ServicePublishDenied.

Definition authorize_service_discover (p : SandboxProfile) (c : ServiceClass) : PolicyDecision :=
  if allows_service_discover p c then allow else deny ServiceDiscoverDenied.

Definition authorize_revoke (actor_capabilities : CapabilitySet) : PolicyDecision :=
  if contains actor_capabilities TaskControl then allow else deny ActorLacksTaskControl.

(** [self_test], the policy proof run at boot. *)
Definition self_test : bool :=
  let kernel := kernel_bootstrap in
  let user := userspace in
  allowed (authorize_grant Kernel kernel Restricted RESTRICTED TimerRead)
  && negb (allowed (authorize_grant Kernel kernel Restricted RESTRICTED DeviceIo))
  && allowed (authorize_grant Kernel kernel User USER_DEFAULT Ipc)
  && negb (allowed (authorize_grant Kernel kernel User USER_DEFAULT MemoryInspect))
  && negb (allowed (authorize_grant User user User USER_DEFAULT Ipc))
  && negb (allowed (authorize_grant Kernel kernel User
       (profile_new 38048 (only Console)) Ipc))
  && negb (allowed (authorize_sandbox_bind Kernel kernel Restricted USER_DEFAULT))
  && allowed (authorize_service_publish
       (with_service_policy RESTRICTED (service_only Core SNetwork)) Core)
  && negb (allowed (authorize_service_discover
       (with_service_policy RESTRICTED (service_only Core SNetwork)) Ai))
  && allowed (authorize_device_access user USER_DEFAULT DNetwork)
  && negb (allowed (authorize_device_access user USER_DEFAULT DStorage))
  && negb (allowed (authorize_device_access kernel
       (with_device_policy KERNEL_TRUSTED (device_only DNetwork)) DStorage))
  && allowed (authorize_revoke kernel)
  && negb (allowed (authorize_revoke user)).

(** ** Lemmas *)

Lemma domain_ceiling_proper d : proper (domain_ceiling d).
Proof. destruct d; cbn [domain_ceiling]; unfold kernel_bootstrap, userspace; auto with woven. Qed.

#[export] Hint Resolve domain_ceiling_proper : woven.

(** Inclusion of the masks gives inclusion of the members, for any raw mask. *)
Lemma subset_contains s t c :
  wf t → is_subset_of s t = true → contains s c = true → contains t c = true.
Proof.
  unfold is_subset_of. rewrite Z.eqb_eq, !contains_testbit. intros Ht H Hc.
  apply (f_equal (λ y, Z.testbit y (Z.of_nat (index c)))) in H.
  rewrite Z.land_spec, Z.bits_0, not64_testbit, Hc in H by (done || lia).
  pose proof (index_lt c). unfold COUNT in *.
  rewrite (proj2 (Z.ltb_lt _ 64)) in H by lia. simpl in H. by apply negb_false_iff in H.
Qed.

Lemma valid_profile_bounded p d c :
  is_valid_for p d = true → allows p c = true → domain_allows d c = true.
Proof.
  unfold is_valid_for, allows, domain_allows. intros [_ Hsub]%andb_true_iff.
  apply subset_contains; eauto with woven.
Qed.

Lemma default_sandbox_valid d : is_valid_for (default_sandbox d) d = true.
Proof. by destruct d. Qed.

Lemma authorize_grant_iff ad ac td ts c :
  allowed (authorize_grant ad ac td ts c) = true ↔
  contains ac TaskControl = true ∧ contains ac c = true ∧ (td = Kernel → ad = Kernel) ∧
  domain_allows td c = true ∧ is_valid_for ts td = true ∧ allows ts c = true.
Proof.
  unfold authorize_grant. split.
  - repeat case_match; simpl; try done; intros _; reflect_bools.
    split_and!; try done. intros ->. by destruct ad.
  - intros (-> & -> & HK & -> & -> & ->); simpl.
    case_bool_decide; simpl; [|done]. by rewrite bool_decide_eq_true_2 by auto.
Qed.

Lemma authorize_sandbox_bind_iff ad ac td p :
  allowed (authorize_sandbox_bind ad ac td p) = true ↔
  contains ac TaskControl = true ∧ (td = Kernel → ad = Kernel) ∧ is_valid_for p td = true.
Proof.
  unfold authorize_sandbox_bind. split.
  - repeat case_match; simpl; try done; intros _; reflect_bools.
    split_and!; try done. intros ->. by destruct ad.
  - intros (-> & HK & ->); simpl.
    case_bool_decide; simpl; [|done]. by rewrite bool_decide_eq_true_2 by auto.
Qed.

Lemma authorize_revoke_iff ac :
  allowed (authorize_revoke ac) = true ↔ contains ac TaskControl = true.
Proof. unfold authorize_revoke. by case_match. Qed.

(** Grant policy: a delegation is authorized exactly when the actor holds
    TaskControl and the capability, only the Kernel domain mints into the Kernel
    domain, and the capability lies below the target's domain ceiling and valid
    sandbox; in particular raw interrupt control and memory inspection can be
    granted to no domain but Kernel. *)
Theorem grant_policy (ad td : SecurityDomain) (ac : CapabilitySet) (ts : SandboxProfile)
    (c : Capability) :
  (allowed (authorize_grant ad ac td ts c) = true ↔
    contains ac TaskControl = true ∧ contains ac c = true ∧ (td = Kernel → ad = Kernel) ∧
    is_valid_for ts td = true ∧ allows ts c = true) ∧
  (c = InterruptControl ∨ c = MemoryInspect →
    allowed (authorize_grant ad ac td ts c) = true → td = Kernel ∧ ad = Kernel).
Proof.
  split.
  - rewrite authorize_grant_iff. split; [tauto|].
    intros (? & ? & ? & Hv & Ha). eauto 10 using valid_profile_bounded.
  - rewrite authorize_grant_iff. intros Hc (_ & _ & HK & Hd & _).
    destruct td; [auto|destruct Hc as [-> | ->]; discriminate..].
Qed.

(** A set inside a valid profile's ceiling stays inside the domain ceiling. *)
Definition within (s : CapabilitySet) (p : SandboxProfile) : Prop :=
  ∀ c, contains s c = true → allows p c = true.

End Guard.
