(* ===== verification/SecurityLedger.v ===== *)
(** * Security ledger (kernel/src/audit.rs)

    The fixed 128-entry ring of security records. [Ledger] holds the ring and its
    operations; the refinement relates it to the unbounded history of recorded
    events: the ring always holds the last [min 128 n] of them, in order. *)
From S2P Require Import Prelude.

Module Ledger.

Definition CAPACITY : nat := 128.

Inductive Action :=
  | CapabilityGrant | CapabilityRevoke | IpcSend | FileWrite | ProcessFault
  | ProcessExec | ProcessFork | WovenGuardAllow | WovenGuardDeny
  | CapabilityLineageIssue | CapabilityDerived | CapabilityLineageRelease
  | CapabilityLineageRevoke | SandboxProfileBind | SandboxProfileDeny
  | SandboxServicePublish | SandboxServiceDiscover | SandboxServiceUse
  | SandboxFileRead | SandboxFileWrite | SandboxDeviceAccess.

#[export] Instance Action_eq_dec : EqDecision Action.
Proof. solve_decision. Defined.

Record Event := mkEvent {
  sequence : Z;
  tick : Z;
  cpu : Z;
  actor : Z;
  action : Action;
  target : Z;
  detail : Z;
  allowed : bool
}.

Record LedgerStatus := mkStatus {
  retained : nat;
  capacity : nat;
  status_next_sequence : Z;
  status_overwritten : Z
}.

Record Log := mkLog {
  events : list (option Event);
  next : nat;
  count : nat;
  log_sequence : Z;
  overwritten : Z
}.

Definition new : Log := mkLog (replicate CAPACITY None) 0 0 0 0.

Definition with_sequence (s : Z) (e : Event) : Event :=
  mkEvent s (tick e) (cpu e) (actor e) (action e) (target e) (detail e) (allowed e).

(** [Log::record]. *)
Definition push (l : Log) (e : Event) : Log :=
  mkLog (<[next l := Some (with_sequence (log_sequence l) e)]> (events l))
        ((next l + 1) `mod` CAPACITY)%nat
        (Nat.min (count l + 1)%nat CAPACITY)
        (wrapping_add64 (log_sequence l) 1)
        (if (count l =? CAPACITY)%nat then wrapping_add64 (overwritten l) 1 else overwritten l).

Definition latest (l : Log) : option Event :=
  if (count l =? 0)%nat then None
  else mjoin (events l !! ((next l + CAPACITY - 1) `mod` CAPACITY)%nat).

(** [recent_into(output)] with [output.len() = n]: the final contents of the output
    slice and the returned count. *)
Definition recent_into (l : Log) (n : nat) : list (option Event) * nat :=
  let copied := Nat.min (count l) n in
  if (copied =? 0)%nat then (replicate n None, 0%nat)
  else
    let oldest := ((next l + CAPACITY - count l) `mod` CAPACITY)%nat in
    let skip := (count l - copied)%nat in
    (((λ off, mjoin (events l !! ((oldest + off) `mod` CAPACITY)%nat)) <$> seq skip copied)
       ++ replicate (n - copied)%nat None, copied).

Definition status (l : Log) : LedgerStatus :=
  mkStatus (count l) CAPACITY (log_sequence l) (overwritten l).

(** [record_detail] and [record]: the tick and CPU are those of the committing CPU. *)
Definition record_detail (now cpu_index : Z) (a : Z) (act : Action) (tgt det : Z)
    (ok : bool) (l : Log) : Log :=
  push l (mkEvent 0 now (as_u16 cpu_index) a act tgt det ok).

Definition record (now cpu_index : Z) (a : Z) (act : Action) (tgt : Z) (ok : bool)
    (l : Log) : Log :=
  record_detail now cpu_index a act tgt 0 ok l.

(** The local proof run at boot. *)
Definition self_test : bool :=
  let log := foldl (λ log i,
    push log (mkEvent 0 (Z.of_nat i) (Z.of_nat (i `mod` 4)%nat) 1 CapabilityGrant 2 (Z.of_nat i)
                (Nat.even i))) new (seq 0 (CAPACITY + 7)%nat) in
  let '(recent, copied) := recent_into log 4 in
  let first_expected := Z.of_nat (CAPACITY + 3)%nat in
  let st := status log in
  (retained st =? CAPACITY)%nat
  && (capacity st =? CAPACITY)%nat
  && (status_next_sequence st =? Z.of_nat (CAPACITY + 7)%nat)
  && (status_overwritten st =? 7)
  && (copied =? length recent)%nat
  && forallb (λ p, match p with
       | (i, Some e) =>
           (sequence e =? first_expected + Z.of_nat i) && (detail e =? first_expected + Z.of_nat i)
       | (_, None) => false
       end) (zip (seq 0 (length recent)) recent)
  && match latest log with
     | Some e =>
         (sequence e =? Z.of_nat (CAPACITY + 6)%nat) && (tick e =? Z.of_nat (CAPACITY + 6)%nat)
         && (actor e =? 1) && (target e =? 2) && (detail e =? Z.of_nat (CAPACITY + 6)%nat)
         && allowed e
     | None => false
     end.

(** [stage9_3_runtime_probe], run against the global ledger on CPU [c]; [t1] and
    [t2] are the ticks read by the two [record_detail] calls. *)
Definition runtime_probe (c t1 t2 : Z) (log : Log) : bool :=
  let ACTOR := u64_max - 37632 in
  let ALLOW_TARGET := u64_max - 37633 in
  let DENY_TARGET := u64_max - 37634 in
  let ALLOW_DETAIL := 2466250753 in
  let DENY_DETAIL := 2466250754 in
  let before := status log in
  let log := record_detail t1 c ACTOR WovenGuardAllow ALLOW_TARGET ALLOW_DETAIL true log in
  let log := record_detail t2 c ACTOR WovenGuardDeny DENY_TARGET DENY_DETAIL false log in
  let after := status log in
  let '(recent, copied) := recent_into log 2 in
  if negb (copied =? 2)%nat then false
  else
    match recent with
    | [Some allow; Some deny] =>
        let expected_overwrites :=
          saturating_add64 (status_overwritten before)
            (saturating_sub (Z.of_nat (retained before) + 2) (Z.of_nat CAPACITY)) in
        (capacity after =? CAPACITY)%nat
        && (retained after =? Nat.min (retained before + 2)%nat CAPACITY)%nat
        && (status_next_sequence after =? wrapping_add64 (status_next_sequence before) 2)
        && (status_overwritten after =? expected_overwrites)
        && (sequence allow =? status_next_sequence before)
        && (sequence deny =? wrapping_add64 (status_next_sequence before) 1)
        && (cpu allow =? as_u16 c) && (cpu deny =? as_u16 c)
        && (actor allow =? ACTOR) && (actor deny =? ACTOR)
        && bool_decide (action allow = WovenGuardAllow)
        && bool_decide (action deny = WovenGuardDeny)
        && (target allow =? ALLOW_TARGET) && (target deny =? DENY_TARGET)
        && (detail allow =? ALLOW_DETAIL) && (detail deny =? DENY_DETAIL)
        && allowed allow && negb (allowed deny)
        && (tick allow <=? tick deny)
    | _ => false
    end.

(** ** The history *)

(** The events of a history carry their position as sequence number. *)
Definition stamped (es : list Event) : list Event :=
  imap (λ i e, with_sequence (wrap64 (Z.of_nat i)) e) es.

(** The last [n] elements. *)
Definition last_n {A} (n : nat) (h : list A) : list A := drop (length h - n)%nat h.

(** The ring [l] represents the stamped history [h]. *)
Record rep (l : Log) (h : list Event) : Prop := {
  rep_length : length (events l) = CAPACITY;
  rep_next : next l = (length h `mod` CAPACITY)%nat;
  rep_count : count l = Nat.min (length h) CAPACITY;
  rep_sequence : log_sequence l = wrap64 (Z.of_nat (length h));
  rep_overwritten : overwritten l = wrap64 (Z.of_nat (length h - CAPACITY)%nat);
  rep_events : ∀ i, (length h ≤ i + CAPACITY)%nat → (i < length h)%nat →
    events l !! (i `mod` CAPACITY)%nat = Some (h !! i)
}.

Lemma rep_new : rep new [].
Proof. constructor; try done. intros i _ Hi. simpl in Hi. lia. Qed.

Lemma wrap64_succ n : wrap64 (wrap64 (Z.of_nat n) + 1) = wrap64 (Z.of_nat (n + 1)%nat).
Proof.
  unfold wrap64. rewrite Zplus_mod_idemp_l. f_equal. lia.
Qed.

Lemma mod_distinct i n :
  (n < i + CAPACITY)%nat → (i < n)%nat → (i `mod` CAPACITY ≠ n `mod` CAPACITY)%nat.
Proof.
  unfold CAPACITY. intros H1 H2 H3.
  pose proof (Nat.div_mod_eq i 128). pose proof (Nat.div_mod_eq n 128).
  assert (n / 128 = i / 128 ∨ n / 128 = S (i / 128))%nat by lia. lia.
Qed.

Lemma rep_push l h e :
  rep l h → rep (push l e) (h ++ [with_sequence (wrap64 (Z.of_nat (length h))) e]).
Proof.
  intros [Hl Hn Hc Hs Ho He].
  constructor; unfold push; cbn [events next count log_sequence overwritten];
    rewrite ?length_app; change (length [_]) with 1%nat; rewrite ?Hn, ?Hc, ?Hs.
  - by rewrite length_insert.
  - rewrite Nat.Div0.add_mod_idemp_l. done.
  - unfold CAPACITY. lia.
  - unfold wrapping_add64. by rewrite wrap64_succ.
  - rewrite Ho. destruct (Nat.eqb_spec (Nat.min (length h) CAPACITY) CAPACITY).
    + unfold wrapping_add64. rewrite wrap64_succ. f_equal. unfold CAPACITY in *. lia.
    + f_equal. unfold CAPACITY in *. lia.
  - intros i Hi1 Hi2. destruct (Nat.eq_dec i (length h)) as [->|Hne].
    + rewrite list_lookup_insert_eq by (rewrite Hl; apply Nat.mod_upper_bound; done).
      by rewrite lookup_app_r, Nat.sub_diag by lia.
    + rewrite list_lookup_insert_ne.
      * rewrite lookup_app_l by lia. apply He; lia.
      * apply not_eq_sym, mod_distinct; lia.
Qed.

Lemma stamped_snoc es e :
  stamped (es ++ [e]) = stamped es ++ [with_sequence (wrap64 (Z.of_nat (length es))) e].
Proof. unfold stamped. rewrite imap_app. simpl. by rewrite Nat.add_0_r. Qed.

Lemma length_stamped es : length (stamped es) = length es.
Proof. apply length_imap. Qed.

Lemma rep_foldl es : rep (foldl push new es) (stamped es).
Proof.
  induction es as [|e es IH] using rev_ind; [apply rep_new|].
  rewrite foldl_app, stamped_snoc. simpl. rewrite <-(length_stamped es). by apply rep_push.
Qed.

Lemma ring_index l h copied k :
  rep l h → (copied ≤ count l)%nat → (k < copied)%nat →
  mjoin (events l !! (((next l + CAPACITY - count l) `mod` CAPACITY + (count l - copied + k))
          `mod` CAPACITY)%nat) = h !! (length h - copied + k)%nat.
Proof.
  intros [Hl Hn Hc _ _ He] Hle Hk.
  rewrite Nat.Div0.add_mod_idemp_l.
  replace ((next l + CAPACITY - count l + (count l - copied + k)) `mod` CAPACITY)%nat
    with ((length h - copied + k) `mod` CAPACITY)%nat.
  - rewrite He by (unfold CAPACITY in *; lia). done.
  - rewrite Hn, Hc. rewrite Hc in Hle. unfold CAPACITY in *.
    pose proof (Nat.div_mod_eq (length h) 128).
    destruct (Nat.le_gt_cases 128 (length h)).
    + rewrite Nat.min_r by lia. rewrite Nat.min_r in Hle by lia.
      replace (length h `mod` 128 + 128 - 128 + (128 - copied + k))%nat
        with (length h `mod` 128 + (128 - copied + k))%nat by lia.
      rewrite Nat.Div0.add_mod_idemp_l.
      replace (length h + (128 - copied + k))%nat with (length h - copied + k + 1 * 128)%nat by lia.
      by rewrite Nat.Div0.mod_add.
    + rewrite Nat.min_l by lia. rewrite Nat.min_l in Hle by lia.
      rewrite (Nat.mod_small (length h)) by lia.
      replace (length h + 128 - length h + (length h - copied + k))%nat
        with (length h - copied + k + 1 * 128)%nat by lia.
      by rewrite Nat.Div0.mod_add.
Qed.

Lemma recent_into_rep l h n :
  rep l h →
  recent_into l n =
  ((Some <$> last_n (Nat.min n CAPACITY) h) ++ replicate (n - Nat.min (count l) n)%nat None,
   Nat.min (count l) n).
Proof.
  intros Hrep. unfold recent_into, last_n.
  destruct (Nat.eqb_spec (Nat.min (count l) n) 0) as [E|E].
  - rewrite E, Nat.sub_0_r. f_equal. rewrite (rep_count _ _ Hrep) in E.
    rewrite drop_ge; [done|]. unfold CAPACITY in *. lia.
  - f_equal. f_equal. apply list_eq. intros k.
    rewrite !list_lookup_fmap, lookup_drop.
    pose proof (rep_count _ _ Hrep) as Hc.
    destruct (Nat.lt_ge_cases k (Nat.min (count l) n)) as [Hk|Hk].
    + rewrite lookup_seq_lt by done. cbn [fmap option_fmap option_map].
      rewrite (ring_index l h) by (done || lia).
      replace (length h - Nat.min n CAPACITY)%nat with (length h - Nat.min (count l) n)%nat
        by (unfold CAPACITY in *; lia).
      destruct (lookup_lt_is_Some_2 h (length h - Nat.min (count l) n + k)%nat) as [x Hx];
        [unfold CAPACITY in *; lia|]. by rewrite Hx.
    + rewrite lookup_seq_ge by done. simpl. rewrite lookup_ge_None_2; [done|].
      unfold CAPACITY in *. lia.
Qed.

Lemma latest_rep l h : rep l h → latest l = last h.
Proof.
  intros Hrep. unfold latest. pose proof (rep_count _ _ Hrep) as Hc.
  destruct (Nat.eqb_spec (count l) 0) as [E|E].
  - destruct h; [done|]. simpl in Hc. unfold CAPACITY in *. lia.
  - pose proof (ring_index l h 1 0 Hrep ltac:(lia) ltac:(lia)) as H.
    rewrite Nat.Div0.add_mod_idemp_l in H. rewrite last_lookup.
    replace (pred (length h)) with (length h - 1 + 0)%nat by lia. rewrite <-H.
    do 2 f_equal. f_equal. unfold CAPACITY in *. lia.
Qed.

(** The ledger refines the unbounded history: after any sequence of records the
    bounded read-out returns exactly the most recent [min n 128] of them, oldest
    first, each stamped with its (wrapping) position; [latest] is the last one and
    the status counts what was retained and what was overwritten. *)
Theorem ledger_refines_history (es : list Event) (n : nat) :
  let l := foldl push new es in
  recent_into l n =
    ((Some <$> last_n (Nat.min n CAPACITY) (stamped es))
       ++ replicate (n - Nat.min (Nat.min (length es) CAPACITY) n)%nat None,
     Nat.min (Nat.min (length es) CAPACITY) n) ∧
  latest l = last (stamped es) ∧
  status l = mkStatus (Nat.min (length es) CAPACITY) CAPACITY
    (wrap64 (Z.of_nat (length es))) (wrap64 (Z.of_nat (length es - CAPACITY)%nat)).
Proof.
  intros l. pose proof (rep_foldl es) as Hrep. fold l in Hrep.
  rewrite (recent_into_rep _ _ _ Hrep), (latest_rep _ _ Hrep).
  unfold status. rewrite (rep_count _ _ Hrep), (rep_sequence _ _ Hrep), (rep_overwritten _ _ Hrep).
  by rewrite length_stamped.
Qed.

Lemma last_n_snoc2 {A} (h : list A) x y : last_n 2 (h ++ [x; y]) = [x; y].
Proof.
  unfold last_n. rewrite length_app, drop_app_length'; [done|]. simpl. lia.
Qed.

(** The boot self-test of the ring passes, and the Stage 9.3 probe passes on
    every reachable ledger: two records committed back to back are read out in
    order with consecutive sequence numbers, exact attribution and exact
    overwrite accounting, for any prior history short of counter exhaustion. *)
Theorem runtime_probe_passes (es : list Event) (c t1 t2 : Z) :
  t1 ≤ t2 → Z.of_nat (length es) + 2 ≤ u64_max →
  self_test = true ∧ runtime_probe c t1 t2 (foldl push new es) = true.
Proof.
  intros Ht Hlen. split; [vm_compute; reflexivity|].
  pose proof (rep_foldl es) as Hrep. set (l := foldl push new es) in *.
  unfold runtime_probe, record_detail.
  match goal with |- context [recent_into (push (push l ?a) ?d) 2] =>
    pose proof (rep_push _ _ d (rep_push _ _ a Hrep)) as Hrep2 end.
  rewrite <-app_assoc in Hrep2. cbn [app] in Hrep2.
  pose proof (length_stamped es) as HL.
  set (h := stamped es) in *.
  rewrite (recent_into_rep _ _ _ Hrep2), (rep_count _ _ Hrep2).
  change (Nat.min 2 CAPACITY) with 2%nat. rewrite last_n_snoc2.
  assert (Hc : Nat.min (Nat.min (length (h ++ [with_sequence (wrap64 (Z.of_nat (length h)))
    (mkEvent 0 t1 (as_u16 c) (u64_max - 37632) WovenGuardAllow (u64_max - 37633) 2466250753 true);
    with_sequence (wrap64 (Z.of_nat (length h + 1)))
    (mkEvent 0 t2 (as_u16 c) (u64_max - 37632) WovenGuardDeny (u64_max - 37634) 2466250754 false)]))
    CAPACITY) 2 = 2%nat) by (rewrite length_app; unfold CAPACITY; simpl; lia).
  rewrite !length_app in *. change (length [_]) with 1%nat in *.
  change (length [_; _]) with 2%nat in *. rewrite Hc.
  cbn [negb Nat.eqb Nat.sub replicate app fmap list_fmap].
  unfold status. rewrite (rep_count _ _ Hrep2), (rep_sequence _ _ Hrep2), (rep_overwritten _ _ Hrep2).
  rewrite (rep_count _ _ Hrep), (rep_sequence _ _ Hrep), (rep_overwritten _ _ Hrep).
  rewrite !length_app. change (length [_; _]) with 2%nat.
  cbn [capacity retained status_next_sequence status_overwritten with_sequence sequence cpu
       actor action target detail allowed tick].
  unfold saturating_add64, saturating_sub, wrapping_add64, wrap64, CAPACITY in *.
  rewrite !HL. unfold u64_max in *.
  rewrite !(Z.mod_small (Z.of_nat _)) by lia. rewrite !(Z.mod_small (_ + _)) by lia.
  repeat (apply andb_true_iff; split); rewrite ?Z.eqb_refl, ?bool_decide_eq_true_2; try done;
    rewrite ?Nat.eqb_eq, ?Z.eqb_eq, ?Z.leb_le; lia.
Qed.

Lemma runtime_probe_passes_witness :
  self_test = true ∧ runtime_probe 2 10 12 (foldl push new []) = true.
Proof.
  apply (runtime_probe_passes [] 2 10 12); [lia|]. unfold u64_max. simpl. lia.
Defined.

End Ledger.
