(* ===== verification/Lineage.v ===== *)
(** * Capability lineages (kernel/src/wovenguard.rs, lines 574-1258)

    The bounded, generation-tagged forest of delegated capabilities: 64 slots, each
    naming its parent by a 32-bit identifier (slot + 1 in the low byte, generation
    above). [Lin] holds the registry and its operations; [LinProofs] the forest
    invariant, its preservation, and the meaning of descent and revocation. *)
From stdpp Require Import relations.
From S2P Require Import Prelude Capability.

Module Lin.
Import Cap.

Definition MAX_CAPABILITY_LINEAGES : nat := 64.
Definition LINEAGE_SLOT_BITS : Z := 8.
Definition LINEAGE_SLOT_MASK : Z := Z.shiftl 1 LINEAGE_SLOT_BITS - 1.
Definition LINEAGE_GENERATION_MASK : Z := Z.shiftl 1 (32 - LINEAGE_SLOT_BITS) - 1.

(** [LineageId(u32)] is its raw 32-bit value. *)
Definition from_parts (slot : nat) (generation : Z) : Z :=
  Z.lor (as_u32 (Z.shiftl generation LINEAGE_SLOT_BITS)) (Z.of_nat slot + 1).

Definition id_slot (id : Z) : option nat :=
  let encoded := Z.land id LINEAGE_SLOT_MASK in
  if encoded =? 0 then None else Some (Z.to_nat (encoded - 1)).

Definition id_generation (id : Z) : Z :=
  Z.land (Z.shiftr id LINEAGE_SLOT_BITS) LINEAGE_GENERATION_MASK.

Inductive LineageError :=
  | EmptyRights | RightsAmplification | InvalidLineage | PermissionDenied
  | TableFull | HasChildren.

#[export] Instance LineageError_eq_dec : EqDecision LineageError.
Proof. solve_decision. Defined.

Record LineageInfo := mkInfo {
  info_id : Z;
  info_parent : option Z;
  info_owner : Z;
  info_rights : CapabilitySet;
  info_child_count : Z
}.

Record LineageSlot := mkSlot {
  generation : Z;
  active : bool;
  parent : option Z;
  owner : Z;
  rights : CapabilitySet;
  child_count : Z
}.

Definition empty_slot : LineageSlot := mkSlot 1 false None 0 empty 0.

Definition slot_id (s : LineageSlot) (slot : nat) : Z := from_parts slot (generation s).

Definition next_generation (current : Z) : Z :=
  let next := Z.land (current + 1) LINEAGE_GENERATION_MASK in
  if next =? 0 then 1 else next.

Definition clear_for_reuse (s : LineageSlot) : LineageSlot :=
  mkSlot (next_generation (generation s)) false None 0 empty 0.

Definition set_child_count (n : Z) (s : LineageSlot) : LineageSlot :=
  mkSlot (generation s) (active s) (parent s) (owner s) (rights s) n.

Record Registry := mkRegistry {
  slots : list LineageSlot;
  count : Z
}.

Definition new : Registry := mkRegistry (replicate MAX_CAPABILITY_LINEAGES empty_slot) 0.

Definition lookup_index (r : Registry) (id : Z) : option nat :=
  slot ← id_slot id;
  if (MAX_CAPABILITY_LINEAGES <=? slot)%nat then None
  else
    entry ← slots r !! slot;
    if active entry && (generation entry =? id_generation id) then Some slot else None.

Definition allocate (r : Registry) (par : option Z) (own : Z) (rts : CapabilitySet)
    : Registry * result Z LineageError :=
  if is_empty rts then (r, Err EmptyRights)
  else
    match position (λ s, negb (active s)) (slots r) with
    | None => (r, Err TableFull)
    | Some i =>
        match slots r !! i with
        | None => (r, Err TableFull)
        | Some e =>
            let e := mkSlot (generation e) true par own rts 0 in
            (mkRegistry (<[i := e]> (slots r)) (count r + 1), Ok (slot_id e i))
        end
    end.

Definition issue_root (r : Registry) (own : Z) (rts : CapabilitySet)
    : Registry * result Z LineageError :=
  allocate r None own rts.

Definition derive (r : Registry) (actor par new_owner : Z) (rts : CapabilitySet)
    : Registry * result Z LineageError :=
  if is_empty rts then (r, Err EmptyRights)
  else
    match (i ← lookup_index r par; e ← slots r !! i; Some (i, e)) with
    | None => (r, Err InvalidLineage)
    | Some (i, e) =>
        if negb (owner e =? actor) then (r, Err PermissionDenied)
        else if negb (is_subset_of rts (rights e)) then (r, Err RightsAmplification)
        else if child_count e =? u16_max then (r, Err TableFull)
        else
          match allocate r (Some par) new_owner rts with
          | (r, Err err) => (r, Err err)
          | (r, Ok child) =>
              (mkRegistry (alter (λ s, set_child_count (child_count s + 1) s) i (slots r))
                          (count r), Ok child)
          end
    end.

Definition info (r : Registry) (id : Z) : result LineageInfo LineageError :=
  match (i ← lookup_index r id; slots r !! i) with
  | None => Err InvalidLineage
  | Some e => Ok (mkInfo id (parent e) (owner e) (rights e) (child_count e))
  end.

(** The bounded ancestor walk of [is_descendant_of]. *)
Fixpoint descend (r : Registry) (descendant ancestor : Z) (fuel : nat) (current : option Z)
    : bool :=
  match fuel with
  | O => false
  | S fuel =>
      match current with
      | None => false
      | Some id =>
          if id =? ancestor then negb (descendant =? ancestor)
          else
            match info r id with
            | Err _ => false
            | Ok i => descend r descendant ancestor fuel (info_parent i)
            end
      end
  end.

Definition is_descendant_of (r : Registry) (descendant ancestor : Z) : bool :=
  descend r descendant ancestor MAX_CAPABILITY_LINEAGES (Some descendant).

Definition release (r : Registry) (actor id : Z) : Registry * result unit LineageError :=
  match (i ← lookup_index r id; e ← slots r !! i; Some (i, e)) with
  | None => (r, Err InvalidLineage)
  | Some (i, e) =>
      if negb (owner e =? actor) then (r, Err PermissionDenied)
      else if negb (child_count e =? 0) then (r, Err HasChildren)
      else
        let clear (s : list LineageSlot) :=
          (mkRegistry (alter clear_for_reuse i s) (count r - 1), Ok ()) in
        match parent e with
        | None => clear (slots r)
        | Some p =>
            match (j ← lookup_index r p; pe ← slots r !! j; Some (j, pe)) with
            | None => (r, Err InvalidLineage)
            | Some (j, pe) =>
                if child_count pe =? 0 then (r, Err InvalidLineage)
                else clear (alter (λ s, set_child_count (child_count s - 1) s) j (slots r))
            end
        end
  end.

(** The authorization walk of [revoke_subtree]: [Ok true] when the actor owns the
    target or a live ancestor, [Err] when a link is dangling. *)
Fixpoint authorized (r : Registry) (actor : Z) (fuel : nat) (current : option Z)
    : result bool LineageError :=
  match fuel with
  | O => Ok false
  | S fuel =>
      match current with
      | None => Ok false
      | Some id =>
          match (i ← lookup_index r id; slots r !! i) with
          | None => Err InvalidLineage
          | Some e =>
              if owner e =? actor then Ok true else authorized r actor fuel (parent e)
          end
      end
  end.

(** The membership snapshot taken before any slot is cleared. *)
Definition revoke_mask (r : Registry) (target : Z) : list bool :=
  imap (λ i e,
    if active e
    then let id := slot_id e i in (id =? target) || is_descendant_of r id target
    else false) (slots r).

Definition revoke_subtree (r : Registry) (actor target : Z)
    : Registry * result nat LineageError :=
  match (i ← lookup_index r target; e ← slots r !! i; Some (i, e)) with
  | None => (r, Err InvalidLineage)
  | Some (ti, te) =>
      match authorized r actor MAX_CAPABILITY_LINEAGES (Some target) with
      | Err err => (r, Err err)
      | Ok false => (r, Err PermissionDenied)
      | Ok true =>
          let mask := revoke_mask r target in
          let revoked := count_if id mask in
          if (revoked =? 0)%nat || negb (default false (mask !! ti)) then (r, Err InvalidLineage)
          else
            let finish (s : list LineageSlot) :=
              (mkRegistry
                 (zip_with (λ e (m : bool), if m then clear_for_reuse e else e) s mask)
                 (count r - Z.of_nat revoked), Ok revoked) in
            match parent te with
            | None => finish (slots r)
            | Some p =>
                match (j ← lookup_index r p; pe ← slots r !! j; Some (j, pe)) with
                | None => (r, Err InvalidLineage)
                | Some (j, pe) =>
                    if default false (mask !! j) then finish (slots r)
                    else if child_count pe =? 0 then (r, Err InvalidLineage)
                    else finish (alter (λ s, set_child_count (child_count s - 1) s) j (slots r))
                end
            end
      end
  end.

Definition owned_by (own : Z) (s : LineageSlot) : bool := active s && (owner s =? own).

(** [revoke_all_owned_lineages]: the loop re-scans after each revocation; [fuel]
    bounds the number of rounds. *)
Fixpoint revoke_all_loop (fuel : nat) (r : Registry) (own : Z) (total : nat)
    : option (Registry * nat) :=
  match fuel with
  | O => None
  | S fuel =>
      match (i ← position (owned_by own) (slots r); e ← slots r !! i; Some (slot_id e i)) with
      | None => Some (r, total)
      | Some id =>
          match revoke_subtree r own id with
          | (r, Ok revoked) => revoke_all_loop fuel r own (total + revoked)
          | (r, Err _) => Some (r, total)
          end
      end
  end.

Definition revoke_all_owned_lineages (r : Registry) (own : Z) : option (Registry * nat) :=
  revoke_all_loop (S MAX_CAPABILITY_LINEAGES) r own 0.

Definition lineage_authorizes (r : Registry) (id : Z) (c : Capability) : bool :=
  match info r id with Ok i => contains (info_rights i) c | Err _ => false end.

Definition revoke_subtree_by_controller (r : Registry) (target : Z)
    : Registry * result nat LineageError :=
  match (i ← lookup_index r target; slots r !! i) with
  | None => (r, Err InvalidLineage)
  | Some e => revoke_subtree r (owner e) target
  end.

End Lin.

(** ** The lineage forest *)
Module LinProofs.
Import Cap Lin.

Definition live (r : Registry) (i : nat) (e : LineageSlot) : Prop :=
  slots r !! i = Some e ∧ active e = true.

(** The number of live slots naming [id] as their parent. *)
Definition is_child (id : Z) (s : LineageSlot) : bool :=
  active s && bool_decide (parent s = Some id).
Definition children (r : Registry) (id : Z) : nat := count_if (is_child id) (slots r).

(** One step up the forest, and the length of the path to the root. *)
Definition parent_rel (r : Registry) (i j : nat) : Prop :=
  ∃ e f, live r i e ∧ live r j f ∧ parent e = Some (slot_id f j).

Inductive Depth (r : Registry) : nat → nat → Prop :=
  | Depth_root i e : live r i e → parent e = None → Depth r i 0
  | Depth_child i j n : parent_rel r i j → Depth r j n → Depth r i (S n).

(** Generations are non-zero 24-bit numbers; the counters are exact; every live
    parent link reaches a live slot with at least the child's rights; and every
    path of links ends in a root. *)
Record wf (r : Registry) : Prop := {
  wf_length : length (slots r) = MAX_CAPABILITY_LINEAGES;
  wf_generation : ∀ i e, slots r !! i = Some e → 1 ≤ generation e < 2 ^ 24;
  wf_count : count r = Z.of_nat (count_if active (slots r));
  wf_parent : ∀ i e p, live r i e → parent e = Some p →
    ∃ j f, live r j f ∧ p = slot_id f j ∧ is_subset_of (rights e) (rights f) = true;
  wf_children : ∀ i e, live r i e → child_count e = Z.of_nat (children r (slot_id e i));
  wf_depth : ∀ i e, live r i e → ∃ n, Depth r i n;
  wf_rights : ∀ i e, live r i e → proper (rights e) ∧ is_empty (rights e) = false
}.

(** ** Identifiers *)

Lemma from_parts_eq slot g :
  (slot < 255)%nat → 0 ≤ g < 2 ^ 24 → from_parts slot g = g * 256 + (Z.of_nat slot + 1).
Proof.
  intros Hs Hg. unfold from_parts, LINEAGE_SLOT_BITS, as_u32, u32_max.
  rewrite Z.shiftl_mul_pow2 by lia. rewrite Z.mod_small by lia.
  change (2 ^ 8) with 256. apply (lor_disjoint_add _ _ 8); [lia|change (2 ^ 8) with 256; lia|].
  change (2 ^ 8) with 256. apply Z.mod_mul. lia.
Qed.

Lemma id_slot_eq id :
  id_slot id = if id mod 256 =? 0 then None else Some (Z.to_nat (id mod 256 - 1)).
Proof.
  unfold id_slot. change LINEAGE_SLOT_MASK with (2 ^ 8 - 1). by rewrite land_low by lia.
Qed.

Lemma id_generation_eq id : id_generation id = (id / 256) mod 2 ^ 24.
Proof.
  unfold id_generation. change LINEAGE_GENERATION_MASK with (2 ^ 24 - 1).
  rewrite land_low by lia. unfold LINEAGE_SLOT_BITS. by rewrite Z.shiftr_div_pow2 by lia.
Qed.

Lemma id_roundtrip slot g :
  (slot < 255)%nat → 0 ≤ g < 2 ^ 24 →
  id_slot (from_parts slot g) = Some slot ∧ id_generation (from_parts slot g) = g ∧
  in_u32 (from_parts slot g).
Proof.
  intros Hs Hg. rewrite id_slot_eq, id_generation_eq, from_parts_eq by done.
  replace ((g * 256 + (Z.of_nat slot + 1)) mod 256) with (Z.of_nat slot + 1)
    by (apply (Z.mod_unique _ _ g); lia).
  replace ((g * 256 + (Z.of_nat slot + 1)) / 256) with g
    by (apply (Z.div_unique _ _ _ (Z.of_nat slot + 1)); lia).
  split_and!.
  - rewrite (proj2 (Z.eqb_neq _ _)) by lia. f_equal. lia.
  - apply Z.mod_small. lia.
  - unfold in_u32, u32_max. lia.
Qed.

Lemma id_decode id slot :
  in_u32 id → id_slot id = Some slot → id = from_parts slot (id_generation id).
Proof.
  unfold in_u32, u32_max. intros Hid. rewrite id_slot_eq, id_generation_eq.
  destruct (Z.eqb_spec (id mod 256) 0); [done|]. intros [= <-].
  pose proof (Z.mod_pos_bound id 256 ltac:(lia)). pose proof (Z.div_mod id 256 ltac:(lia)).
  assert (0 ≤ id / 256 < 2 ^ 24) by (split; [apply Z.div_pos|apply Z.div_lt_upper_bound]; lia).
  rewrite (Z.mod_small (id / 256)) by lia. rewrite from_parts_eq by lia. lia.
Qed.

Lemma from_parts_inj i j g h :
  (i < 255)%nat → (j < 255)%nat → 0 ≤ g < 2 ^ 24 → 0 ≤ h < 2 ^ 24 →
  from_parts i g = from_parts j h → i = j ∧ g = h.
Proof.
  intros Hi Hj Hg Hh H. destruct (id_roundtrip i g Hi Hg) as (Hs & Hgen & _).
  destruct (id_roundtrip j h Hj Hh) as (Hs' & Hgen' & _).
  rewrite H in *. split; congruence.
Qed.

Lemma next_generation_range g : 1 ≤ g < 2 ^ 24 → 1 ≤ next_generation g < 2 ^ 24.
Proof.
  intros Hg. unfold next_generation. change LINEAGE_GENERATION_MASK with (2 ^ 24 - 1).
  rewrite land_low by lia. pose proof (Z.mod_pos_bound (g + 1) (2 ^ 24) ltac:(lia)).
  destruct (Z.eqb_spec ((g + 1) mod 2 ^ 24) 0); lia.
Qed.

Section registry.
Context (r : Registry) (Hwf : wf r).

Lemma live_lt i e : live r i e → (i < 64)%nat.
Proof.
  intros [Hi _]. apply lookup_lt_Some in Hi. rewrite (wf_length _ Hwf) in Hi. done.
Qed.

Lemma live_gen i e : live r i e → 0 ≤ generation e < 2 ^ 24.
Proof. intros [Hi _]. pose proof (wf_generation _ Hwf _ _ Hi). lia. Qed.

Lemma live_fun i e f : live r i e → live r i f → e = f.
Proof. intros [He _] [Hf _]. congruence. Qed.

Lemma slot_id_inj i j e f : live r i e → live r j f → slot_id e i = slot_id f j → i = j.
Proof.
  intros Hi Hj H. pose proof (live_lt _ _ Hi). pose proof (live_lt _ _ Hj).
  by destruct (from_parts_inj i j (generation e) (generation f) ltac:(lia) ltac:(lia)
    ltac:(by eapply live_gen) ltac:(by eapply live_gen) H) as [-> _].
Qed.

Lemma lookup_index_live i e : live r i e → lookup_index r (slot_id e i) = Some i.
Proof.
  intros H. pose proof (live_lt _ _ H). destruct H as [Hi Ha].
  destruct (id_roundtrip i (generation e)) as (Hs & Hg & _); [lia|by eapply live_gen|].
  unfold lookup_index, slot_id. rewrite Hs. cbn [mbind option_bind].
  rewrite (proj2 (Nat.leb_gt _ _)) by (unfold MAX_CAPABILITY_LINEAGES; lia). rewrite Hi. simpl.
  by rewrite Ha, Hg, Z.eqb_refl.
Qed.

Lemma lookup_index_Some id i :
  in_u32 id → lookup_index r id = Some i → ∃ e, live r i e ∧ id = slot_id e i.
Proof.
  intros Hid. unfold lookup_index. destruct (id_slot id) as [s|] eqn:Es; [|done].
  cbn [mbind option_bind]. destruct (Nat.leb_spec MAX_CAPABILITY_LINEAGES s); [done|].
  destruct (slots r !! s) as [e|] eqn:E; [|done]. simpl.
  destruct (active e) eqn:Ha; [|done]. simpl.
  destruct (Z.eqb_spec (generation e) (id_generation id)) as [Hg|]; [|done].
  intros [= <-]. exists e. split; [done|]. unfold slot_id. rewrite Hg. by apply id_decode.
Qed.

Lemma slot_id_u32 i e : live r i e → in_u32 (slot_id e i).
Proof.
  intros H. pose proof (live_lt _ _ H). apply id_roundtrip; [lia|by eapply live_gen].
Qed.

Lemma info_live i e :
  live r i e →
  info r (slot_id e i) = Ok (mkInfo (slot_id e i) (parent e) (owner e) (rights e) (child_count e)).
Proof. intros H. unfold info. rewrite (lookup_index_live _ _ H). simpl. by rewrite (proj1 H). Qed.

Lemma parent_rel_fun i j k : parent_rel r i j → parent_rel r i k → j = k.
Proof.
  intros (e & f & He & Hf & Hp) (e' & f' & He' & Hf' & Hp').
  rewrite (live_fun _ _ _ He He') in Hp. rewrite Hp in Hp'.
  eapply slot_id_inj; eauto. congruence.
Qed.

Lemma parent_rel_of i e p : live r i e → parent e = Some p →
  ∃ j f, parent_rel r i j ∧ live r j f ∧ p = slot_id f j.
Proof.
  intros He Hp. destruct (wf_parent _ Hwf _ _ _ He Hp) as (j & f & Hf & -> & _).
  exists j, f. split; [|done]. by exists e, f.
Qed.

Lemma Depth_fun i n m : Depth r i n → Depth r i m → n = m.
Proof.
  intros H. revert m. induction H as [i e He Hp|i j n Hij Hj IH]; intros m Hm.
  - inversion Hm as [|? j n Hij]; subst; [done|].
    destruct Hij as (e' & f & He' & _ & Hp'). rewrite (live_fun _ _ _ He He') in Hp. congruence.
  - inversion Hm as [? e He Hp|? k n' Hik Hk]; subst.
    + destruct Hij as (e' & f & He' & _ & Hp'). rewrite (live_fun _ _ _ He He') in Hp. congruence.
    + f_equal. apply IH. by rewrite (parent_rel_fun _ _ _ Hij Hik).
Qed.

(** The path to the root visits distinct slots, so it is shorter than the table. *)
Lemma Depth_path i n :
  Depth r i n → ∃ path, length path = S n ∧ NoDup path ∧
    ∀ j, j ∈ path → (j < 64)%nat ∧ ∃ m, (m ≤ n)%nat ∧ Depth r j m.
Proof.
  induction 1 as [i e He Hp|i j n Hij Hj (path & Hlen & HN & Hin)].
  - exists [i]. split_and!; [done|by apply NoDup_singleton|].
    intros j ->%list_elem_of_singleton. split; [by eapply live_lt|].
    exists 0%nat. split; [done|]. by eapply Depth_root.
  - assert (Hi : Depth r i (S n)) by (by eapply Depth_child).
    exists (i :: path). split_and!; [simpl; lia| |].
    + apply NoDup_cons. split; [|done]. intros (_ & m & Hm & HD)%Hin.
      pose proof (Depth_fun _ _ _ HD Hi). lia.
    + intros k [->|Hk]%elem_of_cons.
      * split; [|eauto]. destruct Hij as (e & f & He & _). by eapply live_lt.
      * destruct (Hin k Hk) as (? & m & ? & ?). split; [done|]. exists m. split; [lia|done].
Qed.

Lemma Depth_bound i n : Depth r i n → (n < MAX_CAPABILITY_LINEAGES)%nat.
Proof.
  intros (path & Hlen & HN & Hin)%Depth_path.
  assert (length path ≤ length (seq 0 64))%nat; [|rewrite length_seq in *; unfold MAX_CAPABILITY_LINEAGES; lia].
  apply submseteq_length, NoDup_submseteq; [done|].
  intros j (Hj & _)%Hin. apply elem_of_seq. lia.
Qed.

Lemma parent_rel_root i j e : live r i e → parent e = None → ¬ parent_rel r i j.
Proof.
  intros He Hp (e' & f & He' & _ & Hp'). rewrite (live_fun _ _ _ He He') in Hp. congruence.
Qed.

Lemma rtc_step i j k : parent_rel r i k → i ≠ j → rtc (parent_rel r) i j ↔ rtc (parent_rel r) k j.
Proof.
  intros Hik Hne. split.
  - intros H. inversion H as [|? k' ? Hik' H']; subst; [done|].
    by rewrite (parent_rel_fun _ _ _ Hik Hik').
  - intros H. by eapply rtc_l.
Qed.

Lemma rtc_root i j e : live r i e → parent e = None → rtc (parent_rel r) i j ↔ i = j.
Proof.
  intros He Hp. split; [|intros ->; apply rtc_refl].
  intros H. inversion H; subst; [done|]. by edestruct parent_rel_root.
Qed.

Lemma Depth_tc i j n m :
  tc (parent_rel r) i j → Depth r i n → Depth r j m → (m < n)%nat.
Proof.
  assert (Hstep : ∀ i j n m, parent_rel r i j → Depth r i n → Depth r j m → n = S m).
  { intros i' j' n' m' Hij Hi Hj. eapply (Depth_fun i'); [done|]. by eapply Depth_child. }
  intros H. revert n m. induction H as [i j Hij|i j k Hij Hjk IH]; intros n m Hi Hk.
  - pose proof (Hstep _ _ _ _ Hij Hi Hk). lia.
  - inversion Hi as [? e He Hp|? j' n' Hij' Hj]; subst.
    + by edestruct parent_rel_root.
    + rewrite (parent_rel_fun _ _ _ Hij' Hij) in Hj. specialize (IH _ _ Hj Hk). lia.
Qed.

Lemma tc_irrefl i : ¬ tc (parent_rel r) i i.
Proof.
  intros H. assert (∃ e, live r i e) as [e He].
  { inversion H as [? ? (e & f & He & _)|? ? ? (e & f & He & _)]; eauto. }
  destruct (wf_depth _ Hwf _ _ He) as [n Hn]. pose proof (Depth_tc _ _ _ _ H Hn Hn). lia.
Qed.

Lemma descend_spec d i n j f :
  Depth r i n → live r j f → ∀ e fuel, live r i e → (n < fuel)%nat →
  descend r d (slot_id f j) fuel (Some (slot_id e i)) = true ↔
  rtc (parent_rel r) i j ∧ d ≠ slot_id f j.
Proof.
  intros HD Hf. induction HD as [i e He Hp|i k n Hik Hk IH]; intros e' [|fuel] He' Hlt;
    [lia| |lia|]; cbn [descend].
  - destruct (Z.eqb_spec (slot_id e' i) (slot_id f j)) as [Heq|Hneq].
    + rewrite negb_true_iff, Z.eqb_neq.
      rewrite (slot_id_inj _ _ _ _ He' Hf Heq). split; [|tauto]. intros; split; [apply rtc_refl|done].
    + rewrite info_live by done. cbn. rewrite (live_fun _ _ _ He' He), Hp.
      rewrite (rtc_root _ _ _ He Hp). destruct fuel; cbn; (split; [done|]); intros [-> _];
        destruct Hneq; by rewrite (live_fun _ _ _ He' Hf).
  - destruct (Z.eqb_spec (slot_id e' i) (slot_id f j)) as [Heq|Hneq].
    + rewrite negb_true_iff, Z.eqb_neq.
      rewrite (slot_id_inj _ _ _ _ He' Hf Heq). split; [|tauto]. intros; split; [apply rtc_refl|done].
    + rewrite info_live by done. cbn [info_parent].
      pose proof Hik as (e2 & f2 & He2 & Hf2 & Hp). rewrite (live_fun _ _ _ He' He2), Hp.
      rewrite IH by (done || lia). rewrite (rtc_step i j k); [done|done|].
      intros ->. apply Hneq. by rewrite (live_fun _ _ _ He' Hf).
Qed.

Lemma descend_live d a fuel i e :
  live r i e → descend r d a fuel (Some (slot_id e i)) = true →
  ∃ j f, live r j f ∧ a = slot_id f j.
Proof.
  revert i e. induction fuel as [|fuel IH]; intros i e He; cbn [descend]; [done|].
  destruct (Z.eqb_spec (slot_id e i) a) as [<-|_]; [eauto|].
  rewrite info_live by done. cbn [info_parent].
  destruct (parent e) as [p|] eqn:Hp; [|by destruct fuel].
  destruct (wf_parent _ Hwf _ _ _ He Hp) as (j & f & Hf & -> & _). by apply IH.
Qed.

Lemma is_descendant_spec i e j f :
  live r i e → live r j f →
  is_descendant_of r (slot_id e i) (slot_id f j) = true ↔ tc (parent_rel r) i j.
Proof.
  intros He Hf. destruct (wf_depth _ Hwf _ _ He) as [n Hn]. unfold is_descendant_of.
  rewrite (descend_spec _ i n j f Hn Hf e) by eauto using Depth_bound. split.
  - intros [H Hne]. inversion H as [|? k ? Hik Hkj]; subst.
    + destruct Hne. by rewrite (live_fun _ _ _ He Hf).
    + eapply tc_rtc_r; [|done]. by apply tc_once.
  - intros H. split; [by apply tc_rtc|]. intros Heq.
    rewrite (slot_id_inj _ _ _ _ He Hf Heq) in H. by eapply tc_irrefl.
Qed.

Lemma authorized_spec actor i n :
  Depth r i n → ∀ e fuel, live r i e → (n < fuel)%nat →
  ∃ b, authorized r actor fuel (Some (slot_id e i)) = Ok b ∧
    (b = true ↔ ∃ k g, rtc (parent_rel r) i k ∧ live r k g ∧ owner g = actor).
Proof.
  induction 1 as [i e He Hp|i k n Hik Hk IH]; intros e' [|fuel] He' Hlt;
    [lia| |lia|]; cbn [authorized];
    rewrite (lookup_index_live _ _ He'); cbn [mbind option_bind]; rewrite (proj1 He');
    destruct (Z.eqb_spec (owner e') actor) as [Ho|Ho].
  1,3: exists true; split; [done|]; split; [|done]; intros _; exists i, e'; auto using rtc_refl.
  - rewrite (live_fun _ _ _ He' He), Hp. exists false. split; [by destruct fuel|].
    split; [done|]. intros (k & g & Hk & Hg & Hog). exfalso. apply Ho.
    apply (rtc_root _ _ _ He Hp) in Hk as <-. by rewrite (live_fun _ _ _ He' Hg).
  - pose proof Hik as (e2 & f2 & He2 & Hf2 & Hp). rewrite (live_fun _ _ _ He' He2), Hp.
    destruct (IH f2 fuel Hf2 ltac:(lia)) as (b & -> & Hb). exists b. split; [done|].
    rewrite Hb. split; intros (k' & g & Hk' & Hg & Hog).
    + exists k', g. split; [by eapply rtc_l|done].
    + exists k', g. split; [|done]. apply (rtc_step i k' k); [done| |done].
      intros ->. apply Ho. by rewrite (live_fun _ _ _ He' Hg).
Qed.

Lemma length_revoke_mask t : length (revoke_mask r t) = MAX_CAPABILITY_LINEAGES.
Proof. unfold revoke_mask. rewrite length_imap. apply Hwf. Qed.

(** The mask marks exactly the target and its descendants. *)
Lemma revoke_mask_spec t f i :
  live r t f →
  revoke_mask r (slot_id f t) !! i = Some true ↔
  ∃ e, live r i e ∧ rtc (parent_rel r) i t.
Proof.
  intros Hf. unfold revoke_mask. rewrite list_lookup_imap. split.
  - destruct (slots r !! i) as [e|] eqn:Hi; [|done]. simpl.
    destruct (active e) eqn:Ha; [|done]. intros [= H]. exists e. split; [done|].
    apply orb_true_iff in H as [H%Z.eqb_eq|H].
    + rewrite (slot_id_inj i t e f); auto using rtc_refl. done.
    + apply tc_rtc, (is_descendant_spec i e t f); done.
  - intros (e & [Hi Ha] & H). rewrite Hi. simpl. rewrite Ha. f_equal. apply orb_true_iff.
    apply rtc_tc in H as [->|H].
    + left. apply Z.eqb_eq. f_equal. rewrite (proj1 Hf) in Hi. congruence.
    + right. by apply (is_descendant_spec i e t f).
Qed.

Lemma rights_monotone i j e f c :
  rtc (parent_rel r) i j → live r i e → live r j f →
  contains (rights e) c = true → contains (rights f) c = true.
Proof.
  intros H. revert e. induction H as [i|i k j Hik Hkj IH]; intros e He Hf Hc.
  - by rewrite <-(live_fun _ _ _ He Hf).
  - destruct Hik as (e' & g & He' & Hg & Hp). apply (IH g); try done.
    destruct (wf_parent _ Hwf _ _ _ He' Hp) as (k' & g' & Hg' & Hid & Hsub).
    pose proof (slot_id_inj _ _ _ _ Hg Hg' Hid) as <-.
    rewrite (live_fun _ _ _ Hg Hg'). rewrite (live_fun _ _ _ He He') in Hc.
    destruct (wf_rights _ Hwf _ _ He') as [He1 _], (wf_rights _ Hwf _ _ Hg') as [Hg1 _].
    by apply (proj1 (is_subset_of_iff _ _ He1 (proper_wf _ Hg1)) Hsub).
Qed.
End registry.

(** ** Adding and removing nodes

    Every mutation is one of two shapes. [grown]: a free slot becomes a leaf below
    [up]. [pruned]: a downward-closed set of slots rooted at [t] is cleared. Both
    adjust the child count of the surviving parent [up]. *)
Definition touch (up : option nat) (d : Z) (i : nat) (e : LineageSlot) : LineageSlot :=
  if bool_decide (up = Some i) then set_child_count (child_count e + d) e else e.

Lemma touch_same up d i e :
  generation (touch up d i e) = generation e ∧ active (touch up d i e) = active e ∧
  parent (touch up d i e) = parent e ∧ owner (touch up d i e) = owner e ∧
  rights (touch up d i e) = rights e ∧ slot_id (touch up d i e) i = slot_id e i ∧
  ∀ id, is_child id (touch up d i e) = is_child id e.
Proof. unfold touch. by case_bool_decide. Qed.

Record pruned (r r' : Registry) (mask : list bool) (t : nat) (up : option nat) : Prop := {
  pr_mask : length mask = MAX_CAPABILITY_LINEAGES;
  pr_slots : ∀ i e, slots r !! i = Some e →
    slots r' !! i =
      Some (if default false (mask !! i) then clear_for_reuse e else touch up (-1) i e);
  pr_len : length (slots r') = length (slots r);
  pr_count : count r' = count r - Z.of_nat (count_if id mask);
  pr_live : ∀ i, mask !! i = Some true → ∃ e, live r i e;
  pr_target : mask !! t = Some true;
  pr_down : ∀ i j, parent_rel r i j → mask !! j = Some true → mask !! i = Some true;
  pr_up : ∀ i j, parent_rel r i j → mask !! i = Some true → mask !! j ≠ Some true → i = t;
  pr_parent : ∀ j, parent_rel r t j ↔ up = Some j;
  pr_outside : ∀ j, up = Some j → mask !! j ≠ Some true
}.

Section prune.
Context (r r' : Registry) (mask : list bool) (t : nat) (up : option nat).
Context (Hwf : wf r) (Hpr : pruned r r' mask t up).

Lemma pruned_lookup i e' :
  slots r' !! i = Some e' → ∃ e, slots r !! i = Some e ∧
    e' = if default false (mask !! i) then clear_for_reuse e else touch up (-1) i e.
Proof.
  intros H. destruct (slots r !! i) as [e|] eqn:E.
  - exists e. split; [done|]. apply (pr_slots _ _ _ _ _ Hpr) in E. congruence.
  - apply lookup_ge_None in E. apply lookup_lt_Some in H. rewrite (pr_len _ _ _ _ _ Hpr) in H. lia.
Qed.

Lemma pruned_live i e' :
  live r' i e' ↔ mask !! i ≠ Some true ∧ ∃ e, live r i e ∧ e' = touch up (-1) i e.
Proof.
  split.
  - intros [H Ha]. apply pruned_lookup in H as (e & He & ->).
    destruct (mask !! i) as [[]|]; simpl in *; [done|..];
      (split; [done|]; exists e; split; [|done]; split; [done|]);
      by destruct (touch_same up (-1) i e) as (_ & <- & _).
  - intros [Hm (e & [He Ha] & ->)]. split.
    + rewrite (pr_slots _ _ _ _ _ Hpr _ _ He). by destruct (mask !! i) as [[]|].
    + by destruct (touch_same up (-1) i e) as (_ & -> & _).
Qed.

Lemma pruned_parent_rel i j : parent_rel r i j → mask !! i ≠ Some true → parent_rel r' i j.
Proof.
  intros Hij Hi. pose proof Hij as (e & f & He & Hf & Hp).
  exists (touch up (-1) i e), (touch up (-1) j f).
  destruct (touch_same up (-1) i e) as (_ & _ & -> & _).
  destruct (touch_same up (-1) j f) as (_ & _ & _ & _ & _ & -> & _).
  split_and!; [apply pruned_live; eauto| |done].
  apply pruned_live. split; [|eauto]. intros Hj. by apply Hi, (pr_down _ _ _ _ _ Hpr _ j).
Qed.

Lemma pruned_parent_rel_inv i j :
  parent_rel r' i j → parent_rel r i j ∧ mask !! i ≠ Some true ∧ mask !! j ≠ Some true.
Proof.
  intros (e' & f' & He & Hf & Hp). apply pruned_live in He as (Hi & e & He & ->).
  apply pruned_live in Hf as (Hj & f & Hf & ->). split; [|done]. exists e, f.
  destruct (touch_same up (-1) i e) as (_ & _ & Hpe & _).
  destruct (touch_same up (-1) j f) as (_ & _ & _ & _ & _ & Hid & _).
  rewrite Hpe, Hid in Hp. done.
Qed.

Lemma pruned_rtc i j :
  mask !! i ≠ Some true → rtc (parent_rel r) i j →
  rtc (parent_rel r') i j ∧ mask !! j ≠ Some true.
Proof.
  intros Hi H. revert Hi. induction H as [i|i k j Hik _ IH]; intros Hi.
  - split; [apply rtc_refl|done].
  - destruct IH as [IH Hj].
    { intros Hm. by apply Hi, (pr_down _ _ _ _ _ Hpr _ k). }
    split; [|done]. by eapply rtc_l; [apply pruned_parent_rel|].
Qed.

Lemma pruned_Depth i n : Depth r i n → mask !! i ≠ Some true → Depth r' i n.
Proof.
  induction 1 as [i e He Hp|i j n Hij Hj IH]; intros Hi.
  - apply (Depth_root _ _ (touch up (-1) i e)); [apply pruned_live; eauto|].
    by destruct (touch_same up (-1) i e) as (_ & _ & -> & _).
  - apply (Depth_child _ _ j); [by apply pruned_parent_rel|]. apply IH.
    intros Hm. by apply Hi, (pr_down _ _ _ _ _ Hpr _ j).
Qed.

Lemma pruned_children i e :
  live r i e → mask !! i ≠ Some true →
  Z.of_nat (children r' (slot_id e i)) =
  Z.of_nat (children r (slot_id e i)) - Z.b2z (bool_decide (up = Some i)).
Proof.
  intros He Hi. destruct (pr_live _ _ _ _ _ Hpr t (pr_target _ _ _ _ _ Hpr)) as [te Ht].
  assert (Hc : is_child (slot_id e i) te = bool_decide (up = Some i)).
  { unfold is_child. rewrite (proj2 Ht). simpl. apply bool_decide_ext.
    rewrite <-(pr_parent _ _ _ _ _ Hpr). split; [intros; by exists te, e|].
    intros (te' & e' & Ht' & He' & Hp). rewrite (live_fun _ _ _ _ Ht Ht'), Hp.
    by rewrite (live_fun _ _ _ _ He He'). }
  unfold children. pose proof (count_if_insert (is_child (slot_id e i)) (slots r) t te
    (clear_for_reuse te) (proj1 Ht)) as Hins.
  rewrite (count_if_pointwise _ (<[t:=clear_for_reuse te]> (slots r)) (slots r')).
  - rewrite Hc in Hins. change (is_child _ (clear_for_reuse te)) with false in Hins.
    revert Hins. case_bool_decide; cbn [Nat.b2n Z.b2z]; lia.
  - rewrite length_insert. apply Hpr.
  - intros k x x' Hx Hx'. apply pruned_lookup in Hx' as (y & Hy & ->).
    destruct (decide (k = t)) as [->|Hkt].
    + rewrite list_lookup_insert_eq in Hx by eauto using lookup_lt_Some.
      rewrite (pr_target _ _ _ _ _ Hpr). simpl. by injection Hx as <-.
    + rewrite list_lookup_insert_ne in Hx by done. replace y with x by congruence.
      destruct (mask !! k) as [[]|] eqn:Hm; simpl; try apply touch_same.
      unfold is_child. simpl. symmetry. apply andb_false_iff.
      destruct (active x) eqn:Hax; [right|by left]. apply bool_decide_eq_false. intros Hpx.
      apply Hkt. apply (pr_up _ _ _ _ _ Hpr k i); [|done..]. by exists x, e.
Qed.

Lemma pruned_count_active :
  count r' = Z.of_nat (count_if active (slots r')).
Proof.
  rewrite (pr_count _ _ _ _ _ Hpr), (wf_count _ Hwf).
  rewrite (count_if_mask active (slots r) (slots r') mask); [lia|apply Hpr|..].
  { by rewrite (pr_mask _ _ _ _ _ Hpr), (wf_length _ Hwf). }
  intros i x x' b Hx Hx' Hb. apply pruned_lookup in Hx' as (y & Hy & ->).
  rewrite Hb. simpl. replace y with x by congruence. destruct b; simpl.
  - destruct (pr_live _ _ _ _ _ Hpr i Hb) as [z [Hz Ha]]. split; [congruence|done].
  - destruct (touch_same up (-1) i x) as (_ & -> & _). by rewrite orb_false_r.
Qed.

Lemma pruned_wf : wf r'.
Proof.
  split.
  - rewrite (pr_len _ _ _ _ _ Hpr). apply Hwf.
  - intros i e' H. apply pruned_lookup in H as (e & He & ->).
    pose proof (wf_generation _ Hwf _ _ He). destruct (default false (mask !! i)).
    + by apply next_generation_range.
    + by destruct (touch_same up (-1) i e) as (-> & _).
  - apply pruned_count_active.
  - intros i e' p (Hi & e & He & ->)%pruned_live.
    destruct (touch_same up (-1) i e) as (_ & _ & -> & _ & -> & _). intros Hp.
    destruct (wf_parent _ Hwf _ _ _ He Hp) as (j & f & Hf & -> & Hsub).
    exists j, (touch up (-1) j f).
    destruct (touch_same up (-1) j f) as (_ & _ & _ & _ & -> & -> & _).
    split_and!; try done. apply pruned_live. split; [|eauto]. intros Hj.
    apply Hi, (pr_down _ _ _ _ _ Hpr _ j); [by exists e, f|done].
  - intros i e' (Hi & e & He & ->)%pruned_live.
    destruct (touch_same up (-1) i e) as (_ & _ & _ & _ & _ & -> & _).
    rewrite (pruned_children _ _ He Hi). pose proof (wf_children _ Hwf _ _ He).
    unfold touch. case_bool_decide; simpl; lia.
  - intros i e' (Hi & e & He & ->)%pruned_live.
    destruct (wf_depth _ Hwf _ _ He) as [n Hn]. exists n. by apply pruned_Depth.
  - intros i e' (Hi & e & He & ->)%pruned_live.
    destruct (touch_same up (-1) i e) as (_ & _ & _ & _ & -> & _). by apply (wf_rights _ Hwf i).
Qed.

(** Exactly the identifiers of the masked slots stop resolving. *)
Lemma pruned_lookup_index id i :
  in_u32 id →
  lookup_index r' id = Some i ↔ lookup_index r id = Some i ∧ mask !! i ≠ Some true.
Proof.
  intros Hid. split.
  - intros (e' & (Hi & e & He & ->)%pruned_live & ->)%(lookup_index_Some _ _ _ Hid).
    destruct (touch_same up (-1) i e) as (_ & _ & _ & _ & _ & -> & _).
    split; [by apply lookup_index_live|done].
  - intros [(e & He & ->)%(lookup_index_Some _ _ _ Hid) Hi].
    destruct (touch_same up (-1) i e) as (_ & _ & _ & _ & _ & <- & _).
    apply (lookup_index_live _ pruned_wf). apply pruned_live. eauto.
Qed.
End prune.

Record grown (r r' : Registry) (n : nat) (new : LineageSlot) (up : option nat) : Prop := {
  gr_free : ∃ old, slots r !! n = Some old ∧ active old = false ∧ generation new = generation old;
  gr_new : active new = true ∧ child_count new = 0;
  gr_rights : proper (rights new) ∧ is_empty (rights new) = false;
  gr_parent : up = None ∧ parent new = None ∨
    ∃ j f, up = Some j ∧ live r j f ∧ parent new = Some (slot_id f j) ∧
      is_subset_of (rights new) (rights f) = true;
  gr_slots : ∀ i e, slots r !! i = Some e →
    slots r' !! i = Some (if bool_decide (i = n) then new else touch up 1 i e);
  gr_len : length (slots r') = length (slots r);
  gr_count : count r' = count r + 1
}.

Section grow.
Context (r r' : Registry) (n : nat) (new : LineageSlot) (up : option nat).
Context (Hwf : wf r) (Hgr : grown r r' n new up).

Lemma grown_lookup i e' :
  slots r' !! i = Some e' → ∃ e, slots r !! i = Some e ∧
    e' = if bool_decide (i = n) then new else touch up 1 i e.
Proof.
  intros H. destruct (slots r !! i) as [e|] eqn:E.
  - exists e. split; [done|]. apply (gr_slots _ _ _ _ _ Hgr) in E. congruence.
  - apply lookup_ge_None in E. apply lookup_lt_Some in H. rewrite (gr_len _ _ _ _ _ Hgr) in H. lia.
Qed.

Lemma grown_ne i e : live r i e → i ≠ n.
Proof.
  intros [He Ha] ->. destruct (gr_free _ _ _ _ _ Hgr) as (old & Ho & Hao & _). congruence.
Qed.

Lemma grown_live_new : live r' n new.
Proof.
  destruct (gr_free _ _ _ _ _ Hgr) as (old & Ho & _). split; [|apply Hgr].
  rewrite (gr_slots _ _ _ _ _ Hgr _ _ Ho). by rewrite bool_decide_true.
Qed.

Lemma grown_live_old i e : live r i e → live r' i (touch up 1 i e).
Proof.
  intros He. split.
  - rewrite (gr_slots _ _ _ _ _ Hgr _ _ (proj1 He)).
    by rewrite bool_decide_false by (by eapply grown_ne).
  - destruct (touch_same up 1 i e) as (_ & -> & _). apply He.
Qed.

Lemma grown_live i e' :
  live r' i e' → i = n ∧ e' = new ∨ ∃ e, live r i e ∧ e' = touch up 1 i e.
Proof.
  intros [H Ha]. apply grown_lookup in H as (e & He & ->). case_bool_decide; [by left|right].
  exists e. split; [|done]. split; [done|]. by destruct (touch_same up 1 i e) as (_ & <- & _).
Qed.

Lemma grown_parent_rel i j : parent_rel r i j → parent_rel r' i j.
Proof.
  intros (e & f & He & Hf & Hp). exists (touch up 1 i e), (touch up 1 j f).
  destruct (touch_same up 1 i e) as (_ & _ & -> & _).
  destruct (touch_same up 1 j f) as (_ & _ & _ & _ & _ & -> & _).
  split_and!; [by apply grown_live_old..|done].
Qed.

Lemma grown_Depth i d : Depth r i d → Depth r' i d.
Proof.
  induction 1 as [i e He Hp|i j d Hij Hj IH].
  - apply (Depth_root _ _ (touch up 1 i e)); [by apply grown_live_old|].
    by destruct (touch_same up 1 i e) as (_ & _ & -> & _).
  - apply (Depth_child _ _ j); [by apply grown_parent_rel|done].
Qed.

Lemma grown_Depth_new : ∃ d, Depth r' n d.
Proof.
  destruct (gr_parent _ _ _ _ _ Hgr) as [[_ Hp]|(j & f & _ & Hf & Hp & _)].
  - exists 0%nat. eapply Depth_root; [|done]. apply grown_live_new.
  - destruct (wf_depth _ Hwf _ _ Hf) as [d Hd].
    exists (S d). apply (Depth_child _ _ j); [|by apply grown_Depth].
    exists new, (touch up 1 j f).
    destruct (touch_same up 1 j f) as (_ & _ & _ & _ & _ & -> & _).
    split_and!; [apply grown_live_new|by apply grown_live_old|done].
Qed.

Lemma grown_children id :
  children r' id = (children r id + Nat.b2n (is_child id new))%nat.
Proof.
  destruct (gr_free _ _ _ _ _ Hgr) as (old & Ho & Hao & _).
  pose proof (count_if_insert (is_child id) (slots r) n old new Ho) as Hins.
  unfold is_child in Hins at 2. rewrite Hao in Hins. cbn [andb Nat.b2n] in Hins.
  unfold children. rewrite (count_if_pointwise _ (<[n:=new]> (slots r)) (slots r')); [lia|..].
  - rewrite length_insert. apply Hgr.
  - intros k x x' Hx Hx'. apply grown_lookup in Hx' as (y & Hy & ->). case_bool_decide.
    + subst. rewrite list_lookup_insert_eq in Hx by eauto using lookup_lt_Some. congruence.
    + rewrite list_lookup_insert_ne in Hx by done. replace y with x by congruence.
      apply touch_same.
Qed.

Lemma grown_child_of i e :
  live r i e → is_child (slot_id e i) new = bool_decide (up = Some i).
Proof.
  intros He. unfold is_child. rewrite (proj1 (gr_new _ _ _ _ _ Hgr)). simpl.
  apply bool_decide_ext.
  destruct (gr_parent _ _ _ _ _ Hgr) as [[-> ->]|(j & f & -> & Hf & -> & _)]; [done|]. split.
  - intros [= H]. f_equal. by eapply (slot_id_inj _ Hwf).
  - intros [= ->]. by rewrite (live_fun _ _ _ _ He Hf).
Qed.

(** The identifier of the new node is not yet anybody's parent. *)
Lemma grown_fresh : children r' (slot_id new n) = 0%nat.
Proof.
  apply count_if_zero. intros k x' Hx'. unfold is_child.
  destruct (active x') eqn:Ha; [|done]. simpl. apply bool_decide_eq_false. intros Hp.
  assert (∃ i f, live r i f ∧ slot_id new n = slot_id f i) as (i & f & Hf & Hid).
  { destruct (grown_live k x' (conj Hx' Ha)) as [[-> ->]|(x & Hx & ->)].
    - destruct (gr_parent _ _ _ _ _ Hgr) as [[_ Hq]|(j & f & _ & Hf & Hq & _)]; [congruence|].
      exists j, f. split; [done|congruence].
    - destruct (touch_same up 1 k x) as (_ & _ & Hpx & _). rewrite Hpx in Hp.
      destruct (wf_parent _ Hwf _ _ _ Hx Hp) as (j & f & Hf & Hq & _). eauto. }
  destruct (gr_free _ _ _ _ _ Hgr) as (old & Ho & _ & Hgen).
  apply (grown_ne _ _ Hf). unfold slot_id in Hid. symmetry.
  eapply from_parts_inj; [..|exact Hid].
  - apply lookup_lt_Some in Ho. rewrite (wf_length _ Hwf) in Ho. unfold MAX_CAPABILITY_LINEAGES in Ho. lia.
  - pose proof (live_lt _ Hwf _ _ Hf). lia.
  - pose proof (wf_generation _ Hwf _ _ Ho). lia.
  - by apply (live_gen _ Hwf i).
Qed.

Lemma grown_count_active : count r' = Z.of_nat (count_if active (slots r')).
Proof.
  destruct (gr_free _ _ _ _ _ Hgr) as (old & Ho & Hao & _).
  pose proof (count_if_insert active (slots r) n old new Ho) as Hins.
  rewrite Hao, (proj1 (gr_new _ _ _ _ _ Hgr)) in Hins. cbn [Nat.b2n] in Hins.
  rewrite (gr_count _ _ _ _ _ Hgr), (wf_count _ Hwf).
  rewrite (count_if_pointwise _ (<[n:=new]> (slots r)) (slots r')); [lia|..].
  - rewrite length_insert. apply Hgr.
  - intros k x x' Hx Hx'. apply grown_lookup in Hx' as (y & Hy & ->). case_bool_decide.
    + subst. rewrite list_lookup_insert_eq in Hx by eauto using lookup_lt_Some. congruence.
    + rewrite list_lookup_insert_ne in Hx by done. replace y with x by congruence.
      apply touch_same.
Qed.

Lemma grown_wf : wf r'.
Proof.
  split.
  - rewrite (gr_len _ _ _ _ _ Hgr). apply Hwf.
  - intros i e' H. apply grown_lookup in H as (e & He & ->). case_bool_decide.
    + destruct (gr_free _ _ _ _ _ Hgr) as (old & Ho & _ & ->). by apply (wf_generation _ Hwf n).
    + destruct (touch_same up 1 i e) as (-> & _). by apply (wf_generation _ Hwf i).
  - apply grown_count_active.
  - intros i e' p [[-> ->]|(e & He & ->)]%grown_live.
    + destruct (gr_parent _ _ _ _ _ Hgr) as [[_ Hq]|(j & f & _ & Hf & -> & Hsub)]; [congruence|].
      intros [= <-]. exists j, (touch up 1 j f). destruct (touch_same up 1 j f) as (_ & _ & _ & _ & -> & -> & _).
      split; [by apply grown_live_old|done].
    + destruct (touch_same up 1 i e) as (_ & _ & -> & _ & -> & _). intros Hp.
      destruct (wf_parent _ Hwf _ _ _ He Hp) as (j & f & Hf & -> & Hsub).
      exists j, (touch up 1 j f). destruct (touch_same up 1 j f) as (_ & _ & _ & _ & -> & -> & _).
      split; [by apply grown_live_old|done].
  - intros i e' [[-> ->]|(e & He & ->)]%grown_live.
    + rewrite grown_fresh. apply Hgr.
    + destruct (touch_same up 1 i e) as (_ & _ & _ & _ & _ & -> & _).
      rewrite grown_children, (grown_child_of _ _ He). pose proof (wf_children _ Hwf _ _ He).
      unfold touch. case_bool_decide; cbn [Nat.b2n set_child_count child_count]; lia.
  - intros i e' [[-> ->]|(e & He & ->)]%grown_live; [apply grown_Depth_new|].
    destruct (wf_depth _ Hwf _ _ He) as [d Hd]. exists d. by apply grown_Depth.
  - intros i e' [[-> ->]|(e & He & ->)]%grown_live; [apply Hgr|].
    destruct (touch_same up 1 i e) as (_ & _ & _ & _ & -> & _). by apply (wf_rights _ Hwf i).
Qed.
End grow.

(** ** The operations *)

(** Resolving an identifier: the shape every operation's guard has. *)
Lemma resolve r id :
  wf r → in_u32 id →
  (∃ i e, live r i e ∧ id = slot_id e i ∧ lookup_index r id = Some i ∧ slots r !! i = Some e) ∨
  (lookup_index r id = None ∧ ∀ i e, live r i e → id ≠ slot_id e i).
Proof.
  intros Hwf Hid. destruct (lookup_index r id) as [i|] eqn:E.
  - left. destruct (lookup_index_Some _ _ _ Hid E) as (e & He & ->).
    exists i, e. split_and!; try done. apply He.
  - right. split; [done|]. intros i e He ->. rewrite (lookup_index_live _ Hwf _ _ He) in E. done.
Qed.

Lemma allocate_spec r par own rts :
  allocate r par own rts = (r, Err EmptyRights) ∧ is_empty rts = true ∨
  allocate r par own rts = (r, Err TableFull) ∧ (∀ i e, slots r !! i = Some e → active e = true) ∨
  ∃ n old, let new := mkSlot (generation old) true par own rts 0 in
    is_empty rts = false ∧ slots r !! n = Some old ∧ active old = false ∧
    allocate r par own rts =
      (mkRegistry (<[n := new]> (slots r)) (count r + 1), Ok (slot_id new n)).
Proof.
  unfold allocate. destruct (is_empty rts); [by left|right].
  destruct (position _ (slots r)) as [n|] eqn:E.
  - right. apply position_Some in E as (old & Ho & Ha & _). rewrite Ho.
    exists n, old. split_and!; try done. by apply negb_true_iff.
  - left. split; [done|]. intros i e He. rewrite position_None in E.
    pose proof (E _ _ He) as H. by apply negb_false_iff in H.
Qed.

Lemma issue_root_spec r own rts :
  wf r → proper rts →
  (∃ err, issue_root r own rts = (r, Err err)) ∨
  ∃ r' n new, issue_root r own rts = (r', Ok (slot_id new n)) ∧ grown r r' n new None ∧
    owner new = own ∧ rights new = rts ∧ parent new = None.
Proof.
  intros Hwf Hr. unfold issue_root.
  destruct (allocate_spec r None own rts) as [[-> _]|[[-> _]|(n & old & He & Ho & Ha & ->)]];
    [left; by eexists..|right].
  eexists _, n, _. split; [done|]. split; [|done]. split; try done; cbn [slots count].
  - by exists old.
  - by left.
  - intros i e Hi. unfold touch. rewrite (bool_decide_false (None = Some i)) by done.
    case_bool_decide; subst.
    + by rewrite list_lookup_insert_eq by eauto using lookup_lt_Some.
    + by rewrite list_lookup_insert_ne by done.
  - by rewrite length_insert.
Qed.

Lemma child_count_bound r i e : wf r → live r i e → 0 ≤ child_count e ≤ 64.
Proof.
  intros Hwf He. rewrite (wf_children _ Hwf _ _ He). unfold children.
  pose proof (count_if_le (is_child (slot_id e i)) (slots r)) as H.
  rewrite (wf_length _ Hwf) in H. unfold MAX_CAPABILITY_LINEAGES in H. lia.
Qed.

(** Deriving needs a live parent owned by the actor and holding the rights; the
    [u16] guard never fires, since the table has 64 slots. *)
Lemma derive_spec r actor par own rts :
  wf r → in_u32 par → proper rts →
  (∃ err, derive r actor par own rts = (r, Err err)) ∨
  ∃ r' n new j f, derive r actor par own rts = (r', Ok (slot_id new n)) ∧
    grown r r' n new (Some j) ∧ live r j f ∧ par = slot_id f j ∧ owner f = actor ∧
    owner new = own ∧ rights new = rts ∧ parent new = Some par.
Proof.
  intros Hwf Hid Hr. unfold derive. destruct (is_empty rts) eqn:He; [left; by eexists|].
  destruct (resolve r par Hwf Hid) as [(j & f & Hf & -> & Hl & Hs)|[-> _]]; [|left; by eexists].
  rewrite Hl. cbn [mbind option_bind]. rewrite Hs. cbn [mbind option_bind].
  destruct (Z.eqb_spec (owner f) actor) as [Ho|]; cbn [negb]; [|left; by eexists].
  destruct (is_subset_of rts (rights f)) eqn:Hsub; cbn [negb]; [|left; by eexists].
  pose proof (child_count_bound _ _ _ Hwf Hf) as Hcc.
  rewrite (proj2 (Z.eqb_neq (child_count f) u16_max)) by (unfold u16_max; lia).
  destruct (allocate_spec r (Some (slot_id f j)) own rts)
    as [[-> _]|[[-> _]|(n & old & _ & Hold & Ha & ->)]]; [left; by eexists..|right].
  assert (j ≠ n) by (intros ->; destruct Hf; congruence).
  eexists _, n, _, j, f. split; [done|]. split; [|done].
  split; try done; cbn [slots count].
  - by exists old.
  - right. by exists j, f.
  - intros i e Hi. case_bool_decide; subst.
    + rewrite list_lookup_alter_ne by done.
      by rewrite list_lookup_insert_eq by eauto using lookup_lt_Some.
    + unfold touch. case_bool_decide as Hji; [injection Hji as <-|].
      * rewrite list_lookup_alter_eq, list_lookup_insert_ne, Hi by done. done.
      * by rewrite list_lookup_alter_ne, list_lookup_insert_ne by congruence.
  - by rewrite length_alter, length_insert.
Qed.

(** The index of the parent slot. *)
Lemma parent_index r i e :
  wf r → live r i e →
  (parent e = None ∧ ∀ j, ¬ parent_rel r i j) ∨
  ∃ j f, parent e = Some (slot_id f j) ∧ live r j f ∧ lookup_index r (slot_id f j) = Some j ∧
    (∀ k, parent_rel r i k ↔ k = j) ∧ i ≠ j ∧ 0 < child_count f.
Proof.
  intros Hwf He. destruct (parent e) as [p|] eqn:Hp.
  - right. destruct (wf_parent _ Hwf _ _ _ He Hp) as (j & f & Hf & -> & _).
    assert (Hij : parent_rel r i j) by (by exists e, f).
    exists j, f. split_and!; try done.
    + by apply lookup_index_live.
    + intros k. split; [intros; by eapply parent_rel_fun|by intros ->].
    + intros ->. eapply (tc_irrefl _ Hwf). by apply tc_once.
    + rewrite (wf_children _ Hwf _ _ Hf).
      pose proof (count_if_pos (is_child (slot_id f j)) (slots r) i e (proj1 He)) as H.
      unfold is_child in H at 1. rewrite (proj2 He) in H. simpl in H.
      rewrite bool_decide_true in H by done. unfold children. specialize (H eq_refl). lia.
  - left. split; [done|]. intros j. by apply (parent_rel_root _ _ _ e).
Qed.

Definition parent_slot (r : Registry) (e : LineageSlot) : option nat :=
  parent e ≫= lookup_index r.

(** Clearing the slots of a mask and adjusting the parent is a [pruned] step. *)
Definition prune (r : Registry) (mask : list bool) (up : option nat) : Registry :=
  mkRegistry
    (zip_with (λ e (m : bool), if m then clear_for_reuse e else e)
       (match up with
        | None => slots r
        | Some j => alter (λ s, set_child_count (child_count s - 1) s) j (slots r)
        end) mask)
    (count r - Z.of_nat (count_if id mask)).

Lemma prune_lookup r mask up i e :
  length (slots r) = length mask → (∀ j, up = Some j → mask !! j ≠ Some true) →
  slots r !! i = Some e →
  slots (prune r mask up) !! i =
    Some (if default false (mask !! i) then clear_for_reuse e else touch up (-1) i e).
Proof.
  intros Hlen Hup Hi. destruct (lookup_lt_is_Some_2 mask i) as [b Hb].
  { rewrite <-Hlen. by eapply lookup_lt_Some. }
  unfold prune. cbn [slots]. rewrite lookup_zip_with, Hb. unfold touch.
  destruct up as [j|]; [destruct (decide (j = i)) as [->|Hne]|].
  - rewrite list_lookup_alter_eq, Hi, (bool_decide_true (Some i = Some i)) by done. simpl.
    destruct b; [|done]. by destruct (Hup i eq_refl).
  - rewrite list_lookup_alter_ne, Hi, bool_decide_false by congruence. by destruct b.
  - rewrite Hi. simpl. by destruct b.
Qed.

Lemma length_prune r mask up :
  length (slots r) = length mask → length (slots (prune r mask up)) = length (slots r).
Proof.
  intros Hlen. unfold prune. cbn [slots]. rewrite length_zip_with.
  destruct up; rewrite ?length_alter; lia.
Qed.

(** Pruning a live node with all its descendants. *)
Lemma prune_subtree r mask t te :
  wf r → live r t te → length mask = MAX_CAPABILITY_LINEAGES →
  (∀ i, mask !! i = Some true ↔ ∃ e, live r i e ∧ rtc (parent_rel r) i t) →
  pruned r (prune r mask (parent_slot r te)) mask t (parent_slot r te) ∧
  ∀ j, parent_slot r te = Some j → mask !! j ≠ Some true.
Proof.
  intros Hwf Ht Hlen Hm.
  assert (Hpar : ∀ j, parent_rel r t j ↔ parent_slot r te = Some j).
  { intros j. unfold parent_slot.
    destruct (parent_index _ _ _ Hwf Ht) as [[-> H]|(k & f & -> & Hf & Hk & H & _)].
    - split; [by intros ?%H|done].
    - rewrite H. simpl. rewrite Hk. split; congruence. }
  assert (Hout : ∀ j, parent_slot r te = Some j → mask !! j ≠ Some true).
  { intros j Hj Hmj. apply Hm in Hmj as (e & He & Hrt). apply Hpar in Hj.
    eapply (tc_irrefl _ Hwf t), tc_rtc_r; [by apply tc_once|done]. }
  split; [|done]. assert (Hl : length (slots r) = length mask) by (rewrite Hlen; apply Hwf).
  split; try done.
  - intros i e. by apply prune_lookup.
  - by apply length_prune.
  - intros i (e & He & _)%Hm. eauto.
  - apply Hm. eauto using rtc_refl.
  - intros i j Hij (f & Hf & Hrt)%Hm. apply Hm. destruct Hij as (e & f' & He & Hf' & Hp).
    exists e. split; [done|]. eapply rtc_l; [|done]. by exists e, f'.
  - intros i j Hij (e & He & Hrt)%Hm Hj. destruct (decide (i = t)) as [|Hne]; [done|].
    exfalso. apply Hj, Hm. apply (rtc_step _ Hwf i t j) in Hrt; [|done..].
    destruct Hij as (_ & f & _ & Hf & _). eauto.
Qed.

(** The mask of a single slot. *)
Definition only_slot (i : nat) : list bool :=
  <[i := true]> (replicate MAX_CAPABILITY_LINEAGES false).

Lemma length_only_slot i : length (only_slot i) = MAX_CAPABILITY_LINEAGES.
Proof. unfold only_slot. by rewrite length_insert, length_replicate. Qed.

Lemma only_slot_lookup i k :
  (k < MAX_CAPABILITY_LINEAGES)%nat → only_slot i !! k = Some (bool_decide (k = i)).
Proof.
  intros Hk. unfold only_slot. case_bool_decide; subst.
  - apply list_lookup_insert_eq. by rewrite length_replicate.
  - rewrite list_lookup_insert_ne by done. by apply lookup_replicate.
Qed.

Lemma count_only_slot i :
  (i < MAX_CAPABILITY_LINEAGES)%nat → count_if id (only_slot i) = 1%nat.
Proof.
  intros Hi. pose proof (count_if_insert (@id bool)
    (replicate MAX_CAPABILITY_LINEAGES false) i false true) as H.
  rewrite count_if_replicate_false, lookup_replicate in H by done.
  specialize (H (conj eq_refl Hi)). unfold only_slot. cbn [id Nat.b2n] in H. lia.
Qed.

Lemma prune_only_slot r i up :
  length (slots r) = MAX_CAPABILITY_LINEAGES → (i < MAX_CAPABILITY_LINEAGES)%nat →
  prune r (only_slot i) up =
  mkRegistry
    (alter clear_for_reuse i
       (match up with
        | None => slots r
        | Some j => alter (λ s, set_child_count (child_count s - 1) s) j (slots r)
        end)) (count r - 1).
Proof.
  intros Hlen Hi. unfold prune. rewrite count_only_slot by done. f_equal.
  set (s := match up with None => _ | Some j => _ end).
  assert (Hs : length s = MAX_CAPABILITY_LINEAGES) by (unfold s; destruct up; rewrite ?length_alter; done).
  clearbody s. apply list_eq. intros k. rewrite lookup_zip_with.
  destruct (decide (k < MAX_CAPABILITY_LINEAGES)%nat) as [Hk|Hk].
  - rewrite only_slot_lookup by done. destruct (lookup_lt_is_Some_2 s k) as [e He]; [lia|].
    destruct (decide (k = i)) as [->|Hne].
    + rewrite list_lookup_alter_eq, He, bool_decide_true by done. done.
    + rewrite list_lookup_alter_ne, He, bool_decide_false by done. done.
  - rewrite (lookup_ge_None_2 s k), (lookup_ge_None_2 (alter _ _ s) k); rewrite ?length_alter; done || lia.
Qed.

Lemma leaf_mask r i e k :
  wf r → live r i e → child_count e = 0 →
  only_slot i !! k = Some true ↔ ∃ f, live r k f ∧ rtc (parent_rel r) k i.
Proof.
  intros Hwf He Hc. split.
  - intros H. assert (Hk : (k < MAX_CAPABILITY_LINEAGES)%nat).
    { apply lookup_lt_Some in H. by rewrite length_only_slot in H. }
    rewrite only_slot_lookup in H by done. injection H as ->%bool_decide_eq_true.
    eauto using rtc_refl.
  - intros (f & Hf & Hrt). apply rtc_inv_r in Hrt as [->|(m & _ & g & e' & Hg & He' & Hp)].
    + rewrite only_slot_lookup by (by eapply (live_lt _ Hwf)). by rewrite bool_decide_true.
    + exfalso. rewrite (wf_children _ Hwf _ _ He) in Hc. unfold children in Hc.
      assert (count_if (is_child (slot_id e i)) (slots r) = 0%nat) as Hz by lia.
      rewrite count_if_zero in Hz. specialize (Hz m g (proj1 Hg)).
      unfold is_child in Hz. rewrite (proj2 Hg), Hp in Hz. simpl in Hz.
      by rewrite (live_fun _ _ _ _ He He'), bool_decide_true in Hz.
Qed.

(** Releasing a childless node is pruning it alone. *)
Lemma release_spec r actor id :
  wf r → in_u32 id →
  (∃ err, release r actor id = (r, Err err)) ∨
  ∃ r' i e, release r actor id = (r', Ok ()) ∧ live r i e ∧ id = slot_id e i ∧
    owner e = actor ∧ child_count e = 0 ∧ pruned r r' (only_slot i) i (parent_slot r e).
Proof.
  intros Hwf Hid. unfold release.
  destruct (resolve r id Hwf Hid) as [(i & e & He & -> & Hl & Hs)|[-> _]]; [|left; by eexists].
  rewrite Hl. cbn [mbind option_bind]. rewrite Hs. cbn [mbind option_bind].
  destruct (Z.eqb_spec (owner e) actor) as [Ho|]; cbn [negb]; [|left; by eexists].
  destruct (Z.eqb_spec (child_count e) 0) as [Hc|]; cbn [negb]; [right|left; by eexists].
  assert (Hi : (i < MAX_CAPABILITY_LINEAGES)%nat) by (by eapply (live_lt _ Hwf)).
  destruct (prune_subtree r (only_slot i) i e Hwf He (length_only_slot i)) as [Hpr _].
  { intros k. by apply (leaf_mask r i e). }
  exists (prune r (only_slot i) (parent_slot r e)), i, e. split; [|done].
  rewrite prune_only_slot by (done || apply Hwf). unfold parent_slot.
  destruct (parent_index _ _ _ Hwf He) as [[-> _]|(j & f & -> & Hf & Hj & _ & _ & Hpos)]; [done|].
  rewrite Hj. cbn [mbind option_bind]. rewrite (proj1 Hf). cbn [mbind option_bind]. rewrite Hj.
  by rewrite (proj2 (Z.eqb_neq _ _)) by lia.
Qed.

(** [actor] owns slot [t] or a live ancestor of it. *)
Definition controls (r : Registry) (actor : Z) (t : nat) : Prop :=
  ∃ k g, rtc (parent_rel r) t k ∧ live r k g ∧ owner g = actor.

Lemma revoke_subtree_live r actor t te :
  wf r → live r t te →
  (¬ controls r actor t → revoke_subtree r actor (slot_id te t) = (r, Err PermissionDenied)) ∧
  (controls r actor t →
    let mask := revoke_mask r (slot_id te t) in
    let r' := prune r mask (parent_slot r te) in
    revoke_subtree r actor (slot_id te t) = (r', Ok (count_if id mask)) ∧
    pruned r r' mask t (parent_slot r te)).
Proof.
  intros Hwf Ht. unfold revoke_subtree. rewrite (lookup_index_live _ Hwf _ _ Ht).
  cbn [mbind option_bind]. rewrite (proj1 Ht). cbn [mbind option_bind].
  destruct (wf_depth _ Hwf _ _ Ht) as [n Hn].
  destruct (authorized_spec r Hwf actor t n Hn te MAX_CAPABILITY_LINEAGES Ht) as (b & -> & Hb).
  { by apply (Depth_bound _ Hwf t). }
  fold (controls r actor t) in Hb. split; intros Hctl.
  { destruct b; [by destruct Hctl; apply Hb|done]. }
  apply Hb in Hctl as ->. cbn zeta.
  set (mask := revoke_mask r (slot_id te t)).
  assert (Hm : ∀ i, mask !! i = Some true ↔ ∃ e, live r i e ∧ rtc (parent_rel r) i t).
  { intros i. by apply revoke_mask_spec. }
  destruct (prune_subtree r mask t te Hwf Ht (length_revoke_mask _ Hwf _) Hm) as [Hpr Hout].
  split; [|done]. assert (Htm : mask !! t = Some true) by apply Hpr.
  pose proof (count_if_pos (@id bool) mask t true Htm eq_refl) as Hpos.
  rewrite (proj2 (Nat.eqb_neq _ _)) by lia. rewrite Htm. simpl. unfold prune, parent_slot in *.
  destruct (parent_index _ _ _ Hwf Ht) as [[-> _]|(j & f & Hp & Hf & Hj & _ & _ & Hc)]; [done|].
  rewrite Hp in *. cbn [mbind option_bind] in *. rewrite Hj in *. cbn [mbind option_bind].
  rewrite (proj1 Hf). cbn [mbind option_bind]. specialize (Hout j eq_refl).
  destruct (mask !! j) as [[]|]; [done|..]; simpl; by rewrite (proj2 (Z.eqb_neq _ _)) by lia.
Qed.

Lemma revoke_subtree_stale r actor target :
  lookup_index r target = None → revoke_subtree r actor target = (r, Err InvalidLineage).
Proof. intros H. unfold revoke_subtree. by rewrite H. Qed.

(** ** Reachable registries *)

Inductive op :=
  | OpIssue (own : Z) (rts : CapabilitySet)
  | OpDerive (actor par own : Z) (rts : CapabilitySet)
  | OpRelease (actor id : Z)
  | OpRevoke (actor target : Z)
  | OpRevokeByController (target : Z).

Definition op_ok (o : op) : Prop :=
  match o with
  | OpIssue _ rts => proper rts
  | OpDerive _ par _ rts => in_u32 par ∧ proper rts
  | OpRelease _ id | OpRevoke _ id | OpRevokeByController id => in_u32 id
  end.

Definition run_op (r : Registry) (o : op) : Registry :=
  match o with
  | OpIssue own rts => (issue_root r own rts).1
  | OpDerive actor par own rts => (derive r actor par own rts).1
  | OpRelease actor id => (release r actor id).1
  | OpRevoke actor target => (revoke_subtree r actor target).1
  | OpRevokeByController target => (revoke_subtree_by_controller r target).1
  end.

Lemma wf_new : wf new.
Proof.
  assert (Hs : ∀ i e, slots new !! i = Some e → e = empty_slot).
  { intros i e [-> _]%lookup_replicate. done. }
  assert (Hl : ∀ i e, ¬ live new i e) by (intros i e [->%Hs H]; done).
  split; try (intros i e []%Hl); try (intros i e p []%Hl).
  - done.
  - intros i e ->%Hs. simpl. lia.
  - reflexivity.
Qed.

Lemma revoke_subtree_wf r actor target :
  wf r → in_u32 target → wf (revoke_subtree r actor target).1.
Proof.
  intros Hwf Hid.
  destruct (resolve r target Hwf Hid) as [(t & te & Ht & -> & _)|[H _]].
  2:{ by rewrite revoke_subtree_stale. }
  destruct (revoke_subtree_live r actor t te Hwf Ht) as [Hno Hyes].
  assert (Hdec : controls r actor t ∨ ¬ controls r actor t).
  { destruct (wf_depth _ Hwf _ _ Ht) as [n Hn].
    destruct (authorized_spec r Hwf actor t n Hn te (S n) Ht) as (b & _ & Hb); [lia|].
    unfold controls. rewrite <-Hb. destruct b; auto. }
  destruct Hdec as [Hc|Hc].
  - destruct (Hyes Hc) as [-> Hpr]. by eapply pruned_wf.
  - by rewrite Hno.
Qed.

Lemma run_op_wf r o : wf r → op_ok o → wf (run_op r o).
Proof.
  intros Hwf Ho. destruct o as [own rts|actor par own rts|actor id|actor t|t]; simpl in *.
  - destruct (issue_root_spec r own rts Hwf Ho) as [[? ->]|(r' & n & e & -> & H & _)]; [done|].
    by eapply grown_wf.
  - destruct Ho as [Hid Hr].
    destruct (derive_spec r actor par own rts Hwf Hid Hr)
      as [[? ->]|(r' & n & e & j & f & -> & H & _)]; [done|]. by eapply grown_wf.
  - destruct (release_spec r actor id Hwf Ho) as [[? ->]|(r' & i & e & -> & _ & _ & _ & _ & H)]; [done|].
    by eapply pruned_wf.
  - by apply revoke_subtree_wf.
  - unfold revoke_subtree_by_controller.
    destruct (resolve r t Hwf Ho) as [(i & e & _ & _ & -> & Hs)|[-> _]]; [|done].
    cbn [mbind option_bind]. rewrite Hs. by apply revoke_subtree_wf.
Qed.

(** Every registry reached from the empty one by issuing, deriving, releasing
    and revoking, successful or not, is a bounded forest: exact counters, non-zero
    generations, live acyclic parent links, and rights shrinking downwards. *)
Theorem lineage_reachable_wf (ops : list op) :
  Forall op_ok ops → wf (foldl run_op new ops).
Proof.
  assert (H : ∀ r, wf r → Forall op_ok ops → wf (foldl run_op r ops)).
  { induction ops as [|o ops IH]; intros r Hr Hok; [done|].
    apply Forall_cons in Hok as [Ho Hok]. simpl. apply IH; [by apply run_op_wf|done]. }
  apply H, wf_new.
Qed.

Lemma lineage_reachable_wf_witness :
  let r := foldl run_op new
    [OpIssue 7 kernel_bootstrap; OpDerive 7 257 8 userspace; OpDerive 8 258 9 (only Ipc);
     OpRevoke 7 258; OpRevoke 7 99] in
  wf r ∧ count r = 1.
Proof.
  split; [|reflexivity]. apply lineage_reachable_wf.
  repeat constructor; unfold in_u32, proper, u32_max; vm_compute; done.
Defined.

(** Delegation never amplifies: whatever a lineage authorizes is authorized by
    every lineage [is_descendant_of] reports above it, and reporting a descendant
    means both identifiers are live. *)
Theorem delegation_never_amplifies (r : Registry) (child ancestor : Z) (c : Capability) :
  wf r → in_u32 child → in_u32 ancestor →
  is_descendant_of r child ancestor = true →
  is_ok (info r child) = true ∧ is_ok (info r ancestor) = true ∧
  (lineage_authorizes r child c = true → lineage_authorizes r ancestor c = true).
Proof.
  intros Hwf Hc Ha Hd.
  destruct (resolve r child Hwf Hc) as [(i & e & He & -> & _)|[Hn _]].
  2:{ exfalso. unfold is_descendant_of, MAX_CAPABILITY_LINEAGES in Hd. cbn [descend] in Hd.
      destruct (Z.eqb_spec child ancestor); [done|]. unfold info in Hd. by rewrite Hn in Hd. }
  assert (∃ j f, live r j f ∧ ancestor = slot_id f j) as (j & f & Hf & ->).
  { by eapply (descend_live _ Hwf). }
  apply (is_descendant_spec _ Hwf _ _ _ _ He Hf) in Hd.
  rewrite (info_live _ Hwf _ _ He), (info_live _ Hwf _ _ Hf). split_and!; [done..|].
  unfold lineage_authorizes. rewrite (info_live _ Hwf _ _ He), (info_live _ Hwf _ _ Hf). simpl.
  apply (rights_monotone _ Hwf i j); [by apply tc_rtc|done..].
Qed.

Lemma delegation_never_amplifies_witness :
  let r := foldl run_op new [OpIssue 7 kernel_bootstrap; OpDerive 7 257 8 userspace] in
  lineage_authorizes r 258 Ipc = true ∧ lineage_authorizes r 257 Ipc = true.
Proof.
  set (r := foldl run_op new _). split; [reflexivity|].
  apply (delegation_never_amplifies r 258 257 Ipc); [|unfold in_u32, u32_max; lia..|reflexivity|reflexivity].
  repeat (apply run_op_wf || apply wf_new || unfold r; simpl foldl); unfold op_ok, proper, in_u32; vm_compute; done.
Defined.

(** What an identifier stands for, child counter aside. *)
Definition authority (r : Registry) (id : Z) : option (option Z * Z * CapabilitySet) :=
  match info r id with
  | Ok i => Some (info_parent i, info_owner i, info_rights i)
  | Err _ => None
  end.

Lemma pruned_authority r r' mask t up id :
  wf r → pruned r r' mask t up → in_u32 id →
  authority r' id =
    match lookup_index r id with
    | Some i => if default false (mask !! i) then None else authority r id
    | None => None
    end.
Proof.
  intros Hwf Hpr Hid. pose proof (pruned_wf _ _ _ _ _ Hwf Hpr) as Hwf'.
  pose proof (pruned_lookup_index _ _ _ _ _ Hwf Hpr id) as Hl. unfold authority.
  destruct (resolve r' id Hwf' Hid) as [(i & e' & He' & -> & Hi & _)|[Hn _]].
  - apply Hl in Hi as [-> Hm]; [|done]. rewrite (info_live _ Hwf' _ _ He').
    apply (pruned_live _ _ _ _ _ Hpr) in He' as (_ & e & He & ->).
    destruct (touch_same up (-1) i e) as (_ & _ & Hp & Ho & Hr & Hs & _).
    rewrite Hs, (info_live _ Hwf _ _ He). simpl. rewrite Hp, Ho, Hr.
    by destruct (mask !! i) as [[]|].
  - unfold info at 1. rewrite Hn. simpl. destruct (lookup_index r id) as [i|] eqn:E; [|done].
    destruct (mask !! i) as [[]|] eqn:Hm; [done|..]; exfalso;
      (assert (lookup_index r' id = Some i) by (apply Hl; [done|split; [done|congruence]]); congruence).
Qed.

Lemma in_subtree r t te id :
  wf r → live r t te → in_u32 id →
  (id =? slot_id te t) || is_descendant_of r id (slot_id te t) =
  match lookup_index r id with
  | Some i => default false (revoke_mask r (slot_id te t) !! i)
  | None => false
  end.
Proof.
  intros Hwf Ht Hid. destruct (resolve r id Hwf Hid) as [(i & e & He & -> & -> & _)|[Hn Hno]].
  - destruct (revoke_mask r (slot_id te t) !! i) as [b|] eqn:Hb.
    + unfold revoke_mask in Hb. rewrite list_lookup_imap, (proj1 He) in Hb. simpl in Hb.
      rewrite (proj2 He) in Hb. by injection Hb as <-.
    + apply lookup_ge_None in Hb. rewrite length_revoke_mask in Hb by done.
      pose proof (live_lt _ Hwf _ _ He). unfold MAX_CAPABILITY_LINEAGES in Hb. lia.
  - rewrite Hn. pose proof (Hno _ _ Ht) as Hne. apply orb_false_iff.
    split; [by apply Z.eqb_neq|]. unfold is_descendant_of, MAX_CAPABILITY_LINEAGES.
    cbn [descend]. rewrite (proj2 (Z.eqb_neq _ _) Hne). unfold info. by rewrite Hn.
Qed.

(** Subtree revocation is exact. It fails without effect on a stale target and
    for an actor that owns neither the target nor one of its live ancestors.
    Otherwise it succeeds, restores the invariant, and invalidates the target and
    precisely its descendants: every other identifier keeps its parent, owner and
    rights. *)
Theorem revoke_subtree_exact (r : Registry) (actor target : Z) :
  wf r → in_u32 target →
  (lookup_index r target = None → revoke_subtree r actor target = (r, Err InvalidLineage)) ∧
  ∀ t, lookup_index r target = Some t →
  (¬ controls r actor t → revoke_subtree r actor target = (r, Err PermissionDenied)) ∧
  (controls r actor t → ∃ r' n,
    revoke_subtree r actor target = (r', Ok n) ∧ wf r' ∧ (0 < n)%nat ∧
    count r' = count r - Z.of_nat n ∧
    ∀ id, in_u32 id →
      authority r' id =
        if (id =? target) || is_descendant_of r id target then None else authority r id).
Proof.
  intros Hwf Hid. split; [apply revoke_subtree_stale|].
  intros t (te & Ht & ->)%(lookup_index_Some _ _ _ Hid).
  destruct (revoke_subtree_live r actor t te Hwf Ht) as [Hno Hyes]. split; [done|].
  intros [Heq Hpr]%Hyes. cbn zeta in *. eexists _, _. split; [exact Heq|].
  split_and!; [by eapply pruned_wf| |done|].
  - eapply count_if_pos; [apply Hpr|done].
  - intros id Hu. rewrite (pruned_authority _ _ _ _ _ _ Hwf Hpr Hu), in_subtree by done.
    destruct (lookup_index r id) as [i|] eqn:E; [done|].
    unfold authority, info. by rewrite E.
Qed.

Lemma revoke_subtree_exact_witness :
  let r := foldl run_op new
    [OpIssue 7 kernel_bootstrap; OpDerive 7 257 8 userspace; OpDerive 8 258 9 (only Ipc)] in
  (∃ r' n, revoke_subtree r 7 258 = (r', Ok n) ∧ wf r') ∧ (revoke_subtree r 7 258).2 = Ok 2%nat.
Proof.
  set (r := foldl run_op new _). split; [|reflexivity].
  assert (Hwf : wf r).
  { repeat (apply run_op_wf || apply wf_new || unfold r; simpl foldl); unfold op_ok, proper, in_u32; vm_compute; done. }
  destruct (revoke_subtree_exact r 7 258 Hwf) as [_ H]; [unfold in_u32, u32_max; lia|].
  destruct (H 1%nat) as [_ (r' & n & H1 & H2 & _)]; [reflexivity| |eauto].
  assert (Hl0 : ∃ e, live r 0 e) by (eexists; split; reflexivity). destruct Hl0 as [e0 H0].
  assert (Hl1 : ∃ e, live r 1 e) by (eexists; split; reflexivity). destruct Hl1 as [e1 H1].
  exists 0%nat, e0. split_and!; [|done|destruct H0 as [[= <-] _]; reflexivity].
  apply rtc_once. exists e1, e0. split_and!; [done..|].
  destruct H0 as [[= <-] _], H1 as [[= <-] _]. reflexivity.
Defined.

(** ** Retiring an owner *)

Lemma owned_slot r own i :
  position (owned_by own) (slots r) = Some i → ∃ e, live r i e ∧ owner e = own.
Proof.
  intros (e & He & Ho)%position_lookup. unfold owned_by in Ho.
  apply andb_true_iff in Ho as [Ha Ho%Z.eqb_eq]. by exists e.
Qed.

Lemma pruned_controls r r' mask t up actor i :
  wf r → pruned r r' mask t up → mask !! i ≠ Some true →
  controls r' actor i ↔ controls r actor i.
Proof.
  intros Hwf Hpr Hi. split; intros (k & g & Hk & Hg & Ho).
  - apply (pruned_live _ _ _ _ _ Hpr) in Hg as (_ & e & He & ->). exists k, e.
    destruct (touch_same up (-1) k e) as (_ & _ & _ & Hoe & _). rewrite Hoe in Ho.
    split; [|done]. clear -Hk Hpr. induction Hk as [|i j k Hij _ IH]; [apply rtc_refl|].
    apply (pruned_parent_rel_inv _ _ _ _ _ Hpr) in Hij as [Hij _]. by eapply rtc_l.
  - destruct (pruned_rtc _ _ _ _ _ Hpr i k Hi Hk) as [Hk' Hmk].
    exists k, (touch up (-1) k g). destruct (touch_same up (-1) k g) as (_ & _ & _ & -> & _).
    split_and!; try done. apply (pruned_live _ _ _ _ _ Hpr). eauto.
Qed.

Lemma revoke_all_loop_spec fuel r own total :
  wf r → (Z.to_nat (count r) < fuel)%nat →
  ∃ r' n, revoke_all_loop fuel r own total = Some (r', (total + n)%nat) ∧ wf r' ∧
    count r' = count r - Z.of_nat n ∧
    (∀ id i, in_u32 id →
      lookup_index r' id = Some i ↔ lookup_index r id = Some i ∧ ¬ controls r own i) ∧
    ∀ i e, live r' i e → owner e ≠ own.
Proof.
  revert r total. induction fuel as [|fuel IH]; intros r total Hwf Hfuel; [lia|].
  cbn [revoke_all_loop]. destruct (position _ (slots r)) as [t|] eqn:E.
  - destruct (owned_slot _ _ _ E) as (te & Ht & Ho). cbn [mbind option_bind].
    rewrite (proj1 Ht). cbn [mbind option_bind].
    assert (Hct : controls r own t) by (exists t, te; auto using rtc_refl).
    destruct (proj2 (revoke_subtree_live r own t te Hwf Ht) Hct) as [-> Hpr].
    set (mask := revoke_mask r (slot_id te t)) in *. set (r1 := prune r mask _) in *.
    pose proof (pruned_wf _ _ _ _ _ Hwf Hpr) as Hwf1.
    pose proof (count_if_pos (@id bool) mask t true (pr_target _ _ _ _ _ Hpr) eq_refl) as Hpos.
    pose proof (pr_count _ _ _ _ _ Hpr) as Hc1. pose proof (wf_count _ Hwf1) as Hc1'.
    destruct (IH r1 (total + count_if id mask)%nat Hwf1 ltac:(lia))
      as (r' & n & -> & Hwf' & Hc' & Hl & Hown).
    exists r', (count_if id mask + n)%nat. split_and!; [do 2 f_equal; lia|done|lia| |done].
    intros id i Hid. rewrite (Hl _ _ Hid), (pruned_lookup_index _ _ _ _ _ Hwf Hpr) by done.
    assert (Hin : mask !! i = Some true → controls r own i).
    { intros (e & He & Hrt)%(revoke_mask_spec _ Hwf _ _ _ Ht). exists t, te. done. }
    destruct (decide (mask !! i = Some true)) as [Hm|Hm].
    + split; [by intros [[_ []] _]|]. intros [_ []]. by apply Hin.
    + rewrite (pruned_controls _ _ _ _ _ _ _ Hwf Hpr Hm). tauto.
  - exists r, 0%nat. rewrite position_None in E.
    assert (Hno : ∀ i e, live r i e → owner e ≠ own).
    { intros i e [He Ha] Ho. specialize (E i e He). unfold owned_by in E.
      rewrite Ha, Ho, Z.eqb_refl in E. done. }
    split_and!; [f_equal; f_equal; lia|done|lia| |done]. intros id i _. split; [|tauto].
    intros H. split; [done|]. intros (k & g & _ & Hg & Ho). by apply (Hno k g).
Qed.

Lemma revoke_all_owned_spec (r : Registry) (own : Z) :
  wf r →
  ∃ r' n, revoke_all_owned_lineages r own = Some (r', n) ∧ wf r' ∧
    count r' = count r - Z.of_nat n ∧
    (∀ id i, in_u32 id →
      lookup_index r' id = Some i ↔ lookup_index r id = Some i ∧ ¬ controls r own i) ∧
    position (owned_by own) (slots r') = None.
Proof.
  intros Hwf. unfold revoke_all_owned_lineages.
  destruct (revoke_all_loop_spec (S MAX_CAPABILITY_LINEAGES) r own 0 Hwf)
    as (r' & n & -> & Hwf' & Hc & Hl & Hown).
  { rewrite (wf_count _ Hwf). pose proof (count_if_le active (slots r)) as H.
    rewrite (wf_length _ Hwf) in H. lia. }
  exists r', n. split_and!; try done. destruct (position _ (slots r')) as [t|] eqn:E; [|done].
  destruct (owned_slot _ _ _ E) as (e & He & Ho). by destruct (Hown t e).
Qed.

(** Retiring an owner terminates: the re-scanning loop needs at most one round
    per slot. It leaves no live lineage owned by the owner, and the identifiers that
    survive are exactly those with no lineage of the owner on their ancestor path. *)
Theorem revoke_all_owned_complete (r : Registry) (own : Z) :
  wf r →
  ∃ r' n, revoke_all_owned_lineages r own = Some (r', n) ∧ wf r' ∧
    count r' = count r - Z.of_nat n ∧
    (∀ id i, in_u32 id →
      lookup_index r' id = Some i ↔ lookup_index r id = Some i ∧ ¬ controls r own i) ∧
    position (owned_by own) (slots r') = None.
Proof.
  apply revoke_all_owned_spec.
Qed.

Lemma revoke_all_owned_complete_witness :
  let r := foldl run_op new
    [OpIssue 7 kernel_bootstrap; OpDerive 7 257 8 userspace; OpDerive 8 258 9 (only Ipc)] in
  ∃ r' n, revoke_all_owned_lineages r 8 = Some (r', n) ∧ count r' = count r - Z.of_nat n ∧
    position (owned_by 8) (slots r') = None.
Proof.
  set (r := foldl run_op new _).
  destruct (revoke_all_owned_complete r 8) as (r' & n & H1 & _ & H2 & _ & H3); [|eauto].
  repeat (apply run_op_wf || apply wf_new || unfold r; simpl foldl); unfold op_ok, proper, in_u32; vm_compute; done.
Defined.

(** ** The generation counter wraps *)

(** One use of slot 0 of an otherwise empty registry. *)
Definition cycle (own : Z) (rts : CapabilitySet) (r : Registry) : Registry :=
  match issue_root r own rts with
  | (r, Ok id) => (release r own id).1
  | (r, Err _) => r
  end.

Definition at_generation (g : Z) : Registry :=
  mkRegistry (mkSlot g false None 0 empty 0 ::
    replicate (MAX_CAPABILITY_LINEAGES - 1) empty_slot) 0.

Lemma cycle_at own rts g :
  is_empty rts = false → 1 ≤ g < 2 ^ 24 →
  cycle own rts (at_generation g) = at_generation (next_generation g).
Proof.
  intros He Hg. set (e := mkSlot g true None own rts 0).
  set (r1 := mkRegistry (<[0%nat:=e]> (slots (at_generation g))) (count (at_generation g) + 1)).
  assert (Hi : issue_root (at_generation g) own rts = (r1, Ok (slot_id e 0))).
  { unfold issue_root, allocate. rewrite He. reflexivity. }
  unfold cycle. rewrite Hi. unfold release.
  assert (Hl : lookup_index r1 (slot_id e 0) = Some 0%nat).
  { unfold lookup_index, slot_id. destruct (id_roundtrip 0 g) as (Hs & Hgen & _); [lia..|].
    cbn [generation e]. rewrite Hs. cbn [mbind option_bind].
    change (slots r1 !! 0%nat) with (Some e). simpl. by rewrite Hgen, Z.eqb_refl. }
  rewrite Hl. cbn [mbind option_bind]. change (slots r1 !! 0%nat) with (Some e).
  cbn [mbind option_bind owner e]. rewrite Z.eqb_refl. reflexivity.
Qed.

Lemma iter_cycle own rts k :
  is_empty rts = false → 1 + Z.of_nat k < 2 ^ 24 →
  Nat.iter k (cycle own rts) new = at_generation (1 + Z.of_nat k).
Proof.
  intros He. induction k as [|k IH]; intros Hk; [reflexivity|].
  change (Nat.iter (S k) (cycle own rts) new) with (cycle own rts (Nat.iter k (cycle own rts) new)).
  rewrite IH by lia. rewrite cycle_at by (done || lia). f_equal.
  unfold next_generation. change LINEAGE_GENERATION_MASK with (2 ^ 24 - 1).
  rewrite land_low, Z.mod_small by lia. rewrite (proj2 (Z.eqb_neq _ _)) by lia. lia.
Qed.

(** C35. Generations only delay the reuse of an identifier. A released identifier
    stops resolving at once, but after 2^24 - 1 uses of its slot the registry is
    back in its first state, and the very same identifier is issued again. *)
Theorem generation_wraps (own : Z) (rts : CapabilitySet) :
  is_empty rts = false →
  (issue_root new own rts).2 = Ok 257 ∧
  lookup_index (cycle own rts new) 257 = None ∧
  Nat.iter (Z.to_nat (2 ^ 24 - 1)) (cycle own rts) new = new.
Proof.
  intros He. split_and!.
  - unfold issue_root, allocate. rewrite He. reflexivity.
  - change new with (at_generation 1). rewrite cycle_at by (done || lia). reflexivity.
  - replace (Z.to_nat (2 ^ 24 - 1)) with (S (Z.to_nat (2 ^ 24 - 2))) by lia.
    remember (Z.to_nat (2 ^ 24 - 2)) as k eqn:Hk.
    change (Nat.iter (S k) (cycle own rts) new) with (cycle own rts (Nat.iter k (cycle own rts) new)).
    rewrite iter_cycle by (done || lia). rewrite cycle_at by (done || lia).
    replace (1 + Z.of_nat k) with (2 ^ 24 - 1) by lia. reflexivity.
Qed.

Lemma generation_wraps_witness :
  Nat.iter (Z.to_nat (2 ^ 24 - 1)) (cycle 7 (only Ipc)) new = new.
Proof. apply (generation_wraps 7 (only Ipc)). reflexivity. Defined.

End LinProofs.
