(* ===== verification/LineageService.v ===== *)
(** * The audited lineage interface (kernel/src/wovenguard.rs, lines 905-1258)

    The public functions over the global lineage registry. Each runs one registry
    operation under the lock and commits one record to the security ledger. The
    state is the pair of the registry and the ledger, with the tick and CPU that the
    ledger stamps; the functions are programs of the state monad, and the two
    boot-time self tests are transcribed statement by statement. *)
From S2P Require Import Prelude Capability WovenGuard SecurityLedger Lineage.

Module Service.
Import Cap.

Record Sys := mkSys {
  lineages : Lin.Registry;
  ledger : Ledger.Log;
  now : Z;
  cpu_index : Z
}.

Definition set_lineages (r : Lin.Registry) (s : Sys) : Sys :=
  mkSys r (ledger s) (now s) (cpu_index s).

(** [with_lineages(|registry| ...)] *)
Definition with_lineages {A} (f : Lin.Registry → Lin.Registry * A) : ST Sys A :=
  λ s, let '(r, a) := f (lineages s) in (a, set_lineages r s).

Definition record_detail (actor : Z) (act : Ledger.Action) (tgt det : Z) (ok : bool) : ST Sys () :=
  modify (λ s, mkSys (lineages s)
    (Ledger.record_detail (now s) (cpu_index s) actor act tgt det ok (ledger s))
    (now s) (cpu_index s)).

Definition record (actor : Z) (act : Ledger.Action) (tgt : Z) (ok : bool) : ST Sys () :=
  record_detail actor act tgt 0 ok.

Definition issue_lineage_root (own : Z) (rts : CapabilitySet)
    : ST Sys (result Z Lin.LineageError) :=
  res ← with_lineages (λ r, Lin.issue_root r own rts);
  record_detail own Ledger.CapabilityLineageIssue
    (match res with Ok id => id | Err _ => 0 end) (bits rts) (is_ok res);;
  mret res.

Definition derive_lineage (actor par new_owner : Z) (rts : CapabilitySet)
    : ST Sys (result Z Lin.LineageError) :=
  res ← with_lineages (λ r, Lin.derive r actor par new_owner rts);
  record_detail actor Ledger.CapabilityDerived
    (match res with Ok id => id | Err _ => par end) (bits rts) (is_ok res);;
  mret res.

Definition lineage_info (id : Z) : ST Sys (result Lin.LineageInfo Lin.LineageError) :=
  gets (λ s, Lin.info (lineages s) id).

Definition lineage_is_descendant_of (descendant ancestor : Z) : ST Sys bool :=
  gets (λ s, Lin.is_descendant_of (lineages s) descendant ancestor).

Definition release_lineage (actor id : Z) : ST Sys (result unit Lin.LineageError) :=
  res ← with_lineages (λ r, Lin.release r actor id);
  record actor Ledger.CapabilityLineageRelease id (is_ok res);;
  mret res.

Definition lineage_count : ST Sys Z := gets (λ s, Lin.count (lineages s)).

Definition revoke_lineage_subtree (actor tgt : Z) : ST Sys (result nat Lin.LineageError) :=
  res ← with_lineages (λ r, Lin.revoke_subtree r actor tgt);
  record actor Ledger.CapabilityLineageRevoke tgt (is_ok res);;
  mret res.

Definition revoke_lineage_subtree_by_controller (controller tgt : Z)
    : ST Sys (result nat Lin.LineageError) :=
  res ← with_lineages (λ r, Lin.revoke_subtree_by_controller r tgt);
  record controller Ledger.CapabilityLineageRevoke tgt (is_ok res);;
  mret res.

(** ** The boot-time proofs of the source *)

#[local] Existing Instance Lin.LineageError_eq_dec.

Definition is_err {A} (m : result A Lin.LineageError) (e : Lin.LineageError) : bool :=
  match m with Err e' => bool_decide (e' = e) | Ok _ => false end.

Definition info_is (m : result Lin.LineageInfo Lin.LineageError)
    (p : Lin.LineageInfo → bool) : bool :=
  match m with Ok i => p i | Err _ => false end.

(** The local registry of [lineage_self_test]: fill, overflow, release. *)
Definition bounded_capacity_ok (rts : CapabilitySet) : bool :=
  let '(r, ids, filled) :=
    foldl (λ '(r, ids, filled) i,
      if filled : bool then
        match Lin.issue_root r (Z.of_nat i + 1) rts with
        | (r, Ok id) => (r, ids ++ [Some id], true)
        | (r, Err _) => (r, ids, false)
        end
      else (r, ids, false)) (Lin.new, [], true) (seq 0 Lin.MAX_CAPABILITY_LINEAGES) in
  let '(r, full) := Lin.issue_root r u64_max rts in
  let '(r, cleaned) :=
    foldl (λ '(r, cleaned) '(i, id),
      match id with
      | Some id =>
          let '(r, res) := Lin.release r (Z.of_nat i + 1) id in (r, cleaned && is_ok res)
      | None => (r, cleaned)
      end) (r, true) (zip (seq 0 (length ids)) ids) in
  filled && bool_decide (full = Err Lin.TableFull) && cleaned && (Lin.count r =? 0).

Definition lineage_self_test : ST Sys bool :=
  let ROOT_OWNER := u64_max - 2336 in
  let CHILD_OWNER := u64_max - 2337 in
  let GRANDCHILD_OWNER := u64_max - 2338 in
  baseline ← lineage_count;
  let root_rights := with_ (with_ (with_ empty Console) Ipc) FileRead in
  let child_rights := with_ (with_ empty Console) Ipc in
  let grandchild_rights := with_ empty Ipc in
  root ← issue_lineage_root ROOT_OWNER root_rights;
  match root with
  | Err _ => mret false
  | Ok root =>
  child ← derive_lineage ROOT_OWNER root CHILD_OWNER child_rights;
  match child with
  | Err _ => release_lineage ROOT_OWNER root;; mret false
  | Ok child =>
  grandchild ← derive_lineage CHILD_OWNER child GRANDCHILD_OWNER grandchild_rights;
  match grandchild with
  | Err _ => release_lineage CHILD_OWNER child;; release_lineage ROOT_OWNER root;; mret false
  | Ok grandchild =>
  root_info ← lineage_info root;
  let root_info_ok := info_is root_info (λ i,
    (Lin.info_id i =? root) && bool_decide (Lin.info_parent i = None)
    && (Lin.info_owner i =? ROOT_OWNER) && bool_decide (Lin.info_rights i = root_rights)
    && (Lin.info_child_count i =? 1)) in
  child_info ← lineage_info child;
  let child_info_ok := info_is child_info (λ i,
    bool_decide (Lin.info_parent i = Some root) && (Lin.info_owner i =? CHILD_OWNER)
    && bool_decide (Lin.info_rights i = child_rights) && (Lin.info_child_count i =? 1)) in
  a1 ← lineage_is_descendant_of child root;
  a2 ← lineage_is_descendant_of grandchild root;
  a3 ← lineage_is_descendant_of grandchild child;
  a4 ← lineage_is_descendant_of root root;
  a5 ← lineage_is_descendant_of root child;
  let ancestry_ok := a1 && a2 && a3 && negb a4 && negb a5 in
  escalation ← derive_lineage CHILD_OWNER child GRANDCHILD_OWNER (with_ (with_ empty Ipc) FileWrite);
  let escalation_denied := is_err escalation Lin.RightsAmplification in
  wrong_owner ← derive_lineage ROOT_OWNER child ROOT_OWNER grandchild_rights;
  let wrong_owner_denied := is_err wrong_owner Lin.PermissionDenied in
  blocked ← release_lineage ROOT_OWNER root;
  let parent_release_blocked := is_err blocked Lin.HasChildren in
  cleanup_ok ← (g ← release_lineage GRANDCHILD_OWNER grandchild;
    if is_ok g then
      c ← release_lineage CHILD_OWNER child;
      if is_ok c then r ← release_lineage ROOT_OWNER root; mret (is_ok r) else mret false
    else mret false);
  stale ← lineage_info root;
  let stale_rejected := is_err stale Lin.InvalidLineage in
  generation_ok ← (if cleanup_ok : bool then
      reused ← issue_lineage_root ROOT_OWNER root_rights;
      match reused with
      | Ok reused =>
          let changed := negb (reused =? root) in
          released ← release_lineage ROOT_OWNER reused;
          mret (changed && is_ok released)
      | Err _ => mret false
      end
    else mret false);
  final ← lineage_count;
  mret (root_info_ok && child_info_ok && ancestry_ok && escalation_denied && wrong_owner_denied
    && parent_release_blocked && cleanup_ok && stale_rejected && generation_ok
    && bounded_capacity_ok grandchild_rights && (final =? baseline))
  end end end.

Definition revoked_is (m : result nat Lin.LineageError) (n : nat) : bool :=
  match m with Ok k => (k =? n)%nat | Err _ => false end.

Definition revocation_self_test : ST Sys bool :=
  let ROOT_OWNER := u64_max - 37552 in
  let BRANCH_OWNER := u64_max - 37553 in
  let SIBLING_OWNER := u64_max - 37554 in
  let LEAF_OWNER := u64_max - 37555 in
  baseline ← lineage_count;
  let root_rights := with_ (with_ (with_ empty Console) Ipc) FileRead in
  let branch_rights := with_ (with_ empty Ipc) FileRead in
  let leaf_rights := with_ empty Ipc in
  root ← issue_lineage_root ROOT_OWNER root_rights;
  match root with
  | Err _ => mret false
  | Ok root =>
  branch ← derive_lineage ROOT_OWNER root BRANCH_OWNER branch_rights;
  match branch with
  | Err _ => release_lineage ROOT_OWNER root;; mret false
  | Ok branch =>
  sibling ← derive_lineage ROOT_OWNER root SIBLING_OWNER leaf_rights;
  match sibling with
  | Err _ => revoke_lineage_subtree ROOT_OWNER root;; mret false
  | Ok sibling =>
  leaf ← derive_lineage BRANCH_OWNER branch LEAF_OWNER leaf_rights;
  match leaf with
  | Err _ => revoke_lineage_subtree ROOT_OWNER root;; mret false
  | Ok leaf =>
  deep_leaf ← derive_lineage LEAF_OWNER leaf (LEAF_OWNER + 1) leaf_rights;
  match deep_leaf with
  | Err _ => revoke_lineage_subtree ROOT_OWNER root;; mret false
  | Ok deep_leaf =>
  sibling_try ← revoke_lineage_subtree SIBLING_OWNER branch;
  let sibling_denied := is_err sibling_try Lin.PermissionDenied in
  branch_try ← revoke_lineage_subtree ROOT_OWNER branch;
  let branch_revoked := revoked_is branch_try 3 in
  i1 ← lineage_info branch;
  i2 ← lineage_info leaf;
  i3 ← lineage_info deep_leaf;
  let stale_branch := is_err i1 Lin.InvalidLineage in
  let stale_leaf := is_err i2 Lin.InvalidLineage in
  let stale_deep_leaf := is_err i3 Lin.InvalidLineage in
  derived ← derive_lineage BRANCH_OWNER branch LEAF_OWNER leaf_rights;
  let derive_from_revoked := is_err derived Lin.InvalidLineage in
  i4 ← lineage_info root;
  let root_boundary_ok := info_is i4 (λ i, Lin.info_child_count i =? 1) in
  i5 ← lineage_info sibling;
  let sibling_survives := info_is i5 (λ i,
    bool_decide (Lin.info_parent i = Some root) && (Lin.info_owner i =? SIBLING_OWNER)
    && bool_decide (Lin.info_rights i = leaf_rights)) in
  sibling_can_derive ← (child ← derive_lineage SIBLING_OWNER sibling LEAF_OWNER leaf_rights;
    match child with
    | Ok child => r ← revoke_lineage_subtree SIBLING_OWNER child; mret (revoked_is r 1)
    | Err _ => mret false
    end);
  root_try ← revoke_lineage_subtree ROOT_OWNER root;
  let root_revoked := revoked_is root_try 2 in
  i6 ← lineage_info root;
  let root_stale := is_err i6 Lin.InvalidLineage in
  i7 ← lineage_info sibling;
  let sibling_stale := is_err i7 Lin.InvalidLineage in
  generation_after_revoke_ok ← (reused ← issue_lineage_root ROOT_OWNER leaf_rights;
    match reused with
    | Ok reused =>
        let changed := negb (reused =? root) && negb (reused =? branch)
          && negb (reused =? leaf) && negb (reused =? deep_leaf) in
        r ← revoke_lineage_subtree ROOT_OWNER reused;
        mret (changed && revoked_is r 1)
    | Err _ => mret false
    end);
  final ← lineage_count;
  mret (sibling_denied && branch_revoked && stale_branch && stale_leaf && stale_deep_leaf
    && derive_from_revoked && root_boundary_ok && sibling_survives && sibling_can_derive
    && root_revoked && root_stale && sibling_stale && generation_after_revoke_ok
    && (final =? baseline))
  end end end end end.

(** ** Properties *)

(** A mutation requested through the service. *)
Inductive request :=
  | Issue (own : Z) (rts : CapabilitySet)
  | Derive (actor par own : Z) (rts : CapabilitySet)
  | Release (actor id : Z)
  | Revoke (actor tgt : Z)
  | RevokeByController (controller tgt : Z).

(** The unaudited registry operation, its success, and the ledger record due. *)
Definition effect (r : Lin.Registry) (q : request) : Lin.Registry * bool * (Z * Ledger.Action * Z * Z) :=
  match q with
  | Issue own rts =>
      let '(r, res) := Lin.issue_root r own rts in
      (r, is_ok res, (own, Ledger.CapabilityLineageIssue,
                      match res with Ok id => id | Err _ => 0 end, bits rts))
  | Derive actor par own rts =>
      let '(r, res) := Lin.derive r actor par own rts in
      (r, is_ok res, (actor, Ledger.CapabilityDerived,
                      match res with Ok id => id | Err _ => par end, bits rts))
  | Release actor id =>
      let '(r, res) := Lin.release r actor id in
      (r, is_ok res, (actor, Ledger.CapabilityLineageRelease, id, 0))
  | Revoke actor tgt =>
      let '(r, res) := Lin.revoke_subtree r actor tgt in
      (r, is_ok res, (actor, Ledger.CapabilityLineageRevoke, tgt, 0))
  | RevokeByController controller tgt =>
      let '(r, res) := Lin.revoke_subtree_by_controller r tgt in
      (r, is_ok res, (controller, Ledger.CapabilityLineageRevoke, tgt, 0))
  end.

Definition serve (q : request) (s : Sys) : Sys :=
  match q with
  | Issue own rts => (issue_lineage_root own rts s).2
  | Derive actor par own rts => (derive_lineage actor par own rts s).2
  | Release actor id => (release_lineage actor id s).2
  | Revoke actor tgt => (revoke_lineage_subtree actor tgt s).2
  | RevokeByController c tgt => (revoke_lineage_subtree_by_controller c tgt s).2
  end.

Lemma audited l h t c a act tgt det ok :
  Ledger.rep l h →
  Ledger.rep (Ledger.record_detail t c a act tgt det ok l)
    (h ++ [Ledger.mkEvent (wrap64 (Z.of_nat (length h))) t (as_u16 c) a act tgt det ok]).
Proof. intros H. by apply (Ledger.rep_push _ _ (Ledger.mkEvent 0 t (as_u16 c) a act tgt det ok)) in H. Qed.

(** No lineage mutation escapes the ledger. Whatever sequence of requests is
    served, each changes the registry exactly as its registry operation does, and
    appends exactly one record whose actor, target and success flag are those of the
    operation, refused requests included; the ring holds the newest records. *)
Theorem every_lineage_request_is_audited (q : request) (s : Sys) (h : list Ledger.Event) :
  Ledger.rep (ledger s) h →
  let '(r, ok, (a, act, tgt, det)) := effect (lineages s) q in
  lineages (serve q s) = r ∧
  Ledger.rep (ledger (serve q s))
    (h ++ [Ledger.mkEvent (wrap64 (Z.of_nat (length h))) (now s) (as_u16 (cpu_index s)) a act tgt det ok]).
Proof.
  intros Hrep. destruct q; cbn [effect serve];
    unfold issue_lineage_root, derive_lineage, release_lineage, revoke_lineage_subtree,
      revoke_lineage_subtree_by_controller, with_lineages, record, record_detail, modify,
      mbind, ST_bind, mret, ST_ret; cbv beta;
    [destruct (Lin.issue_root _ _ _) as [r res]
    |destruct (Lin.derive _ _ _ _ _) as [r res]
    |destruct (Lin.release _ _ _) as [r res]
    |destruct (Lin.revoke_subtree _ _ _) as [r res]
    |destruct (Lin.revoke_subtree_by_controller _ _) as [r res]];
    cbn [snd lineages ledger set_lineages now cpu_index];
    (split; [done|]); by apply audited.
Qed.

Lemma every_lineage_request_is_audited_witness :
  let s := serve (Issue 7 (only Ipc)) (mkSys Lin.new Ledger.new 5 0) in
  Ledger.rep (ledger s)
    [Ledger.mkEvent 0 5 0 7 Ledger.CapabilityLineageIssue 257 512 true].
Proof.
  apply (every_lineage_request_is_audited (Issue 7 (only Ipc)) (mkSys Lin.new Ledger.new 5 0) []).
  apply Ledger.rep_new.
Defined.

Definition boot (log : Ledger.Log) (t c : Z) : Sys := mkSys Lin.new log t c.

(** The boot-time proofs of the policy and of the lineage registry succeed on the empty registry, whatever the ledger
    holds, and give every lineage slot back. *)
Theorem lineage_self_tests_pass (log : Ledger.Log) (t c : Z) :
  (lineage_self_test (boot log t c)).1 = true ∧
  (revocation_self_test (boot log t c)).1 = true ∧
  Guard.self_test = true ∧
  Lin.count (lineages (lineage_self_test (boot log t c)).2) = 0 ∧
  Lin.count (lineages (revocation_self_test (boot log t c)).2) = 0.
Proof. split_and!; vm_compute; reflexivity. Qed.

End Service.
