(* ===== verification/CompletionPort.v ===== *)
(** * Completion ports (kernel/src/completion_port.rs)

    The table of 32 per-process completion ports. A port owns one completion queue,
    the set of tasks waiting for it and at most one consumer copying a batch out.
    [Port] holds the table and its operations; the operations that wake tasks
    return the waiters they hand to [notify], in order. [PortProofs] holds the table
    invariant, the lifetime of handles and the delivery of batches. *)
From S2P Require Import Prelude CompletionQueue.

Module Port.
Import Queue.

(** [config::MAX_TASKS] *)
Definition MAX_TASKS : nat := 32.
Definition PORTS : nat := 32.
Definition PER_PROCESS : nat := 4.
Definition TAG : Z := Z.shiftl 49153 16.

Notation Waiters := (list (option Z)) (only parsing).
Definition no_waiters : Waiters := replicate MAX_TASKS None.

Record Port := mkPort {
  generation : Z;
  owner : option Z;
  queue : Queue.Queue;
  waiters : Waiters;
  consumer : option Z
}.

Definition port_new : Port := mkPort 0 None Queue.new no_waiters None.

Definition matches (p : Port) (handle : Z) : bool :=
  bool_decide (is_Some (owner p)) && (generation p =? as_u32 (Z.shiftr handle 32)).

Definition clear (p : Port) : Port := mkPort (generation p) None Queue.new no_waiters None.

Definition set_queue (q : Queue.Queue) (p : Port) : Port :=
  mkPort (generation p) (owner p) q (waiters p) (consumer p).
Definition set_waiters (w : Waiters) (p : Port) : Port :=
  mkPort (generation p) (owner p) (queue p) w (consumer p).
Definition set_consumer (c : option Z) (p : Port) : Port :=
  mkPort (generation p) (owner p) (queue p) (waiters p) c.

Notation Table := (list Port) (only parsing).
Definition table_new : Table := replicate PORTS port_new.

Definition index (handle : Z) : result nat () :=
  let i := Z.to_nat (Z.land handle 65535) in
  if negb (Z.land handle 4294901760 =? TAG) || (Z.shiftr handle 32 =? 0) || (PORTS <=? i)%nat
  then Err () else Ok i.

(** [TABLE[index(handle)?].lock()]: the index and the port it guards. *)
Definition port_at (t : Table) (handle : Z) : option (nat * Port) :=
  match index handle with
  | Err _ => None
  | Ok i => (λ p, (i, p)) <$> t !! i
  end.

Definition owned_by (own : Z) (p : Port) : bool := bool_decide (owner p = Some own).

Definition handle_of (i : nat) (p : Port) : Z :=
  Z.lor (Z.lor (Z.shiftl (generation p) 32) TAG) (Z.of_nat i).

Definition create (t : Table) (own : Z) : Table * result Z () :=
  if (PER_PROCESS <=? count_if (owned_by own) t)%nat then (t, Err ())
  else
    match position (λ p, bool_decide (owner p = None) && (generation p <? u32_max)) t with
    | None => (t, Err ())
    | Some i =>
        match t !! i with
        | None => (t, Err ())
        | Some p =>
            let p := mkPort (generation p + 1) (Some own) (queue p) (waiters p) (consumer p) in
            (<[i := p]> t, Ok (handle_of i p))
        end
    end.

(** [notify(waiters)]: the tasks signalled, in slot order. *)
Definition notify (w : Waiters) : list Z := flatten w.

(** On success, the tasks it signals after the lock is dropped. *)
Definition close (t : Table) (own handle : Z) : Table * result (list Z) () :=
  match port_at t handle with
  | None => (t, Err ())
  | Some (i, p) =>
      if negb (matches p handle) || negb (bool_decide (owner p = Some own)) then (t, Err ())
      else (<[i := clear p]> t, Ok (notify (waiters p)))
  end.

Definition release_owner (t : Table) (own : Z) : Table :=
  (λ p, if owned_by own p then clear p else p) <$> t.

Definition reserve (t : Table) (own handle operation cookie : Z) : Table * result () () :=
  match port_at t handle with
  | None => (t, Err ())
  | Some (i, p) =>
      if negb (matches p handle) || negb (bool_decide (owner p = Some own)) then (t, Err ())
      else
        match Queue.reserve (queue p) operation cookie with
        | (_, false) => (t, Err ())
        | (q, true) => (<[i := set_queue q p]> t, Ok ())
        end
  end.

(** The returned waiters are handed to [notify] by the caller. *)
Definition publish (t : Table) (handle operation class flags status value : Z) : Table * Waiters :=
  match port_at t handle with
  | None => (t, no_waiters)
  | Some (i, p) =>
      if negb (matches p handle) then (t, no_waiters)
      else
        match Queue.publish (queue p) operation class flags status value with
        | (q, false) => (<[i := set_queue q p]> t, no_waiters)
        | (q, true) => (<[i := set_waiters no_waiters (set_queue q p)]> t, waiters p)
        end
  end.

Definition abandon (t : Table) (handle operation : Z) : Table :=
  match port_at t handle with
  | None => t
  | Some (i, p) =>
      if matches p handle then <[i := set_queue (Queue.remove (queue p) operation).1 p]> t else t
  end.

(** [begin]: the 8-event array, zero-padded, and the number of events in it. *)
Definition begin (t : Table) (own handle task : Z) (capacity : nat) (wait : bool)
    : Table * result (list Event * nat) () :=
  if (capacity =? 0)%nat || (BATCH <? capacity)%nat then (t, Err ())
  else
    match port_at t handle with
    | None => (t, Err ())
    | Some (i, p) =>
        if negb (matches p handle) || negb (bool_decide (owner p = Some own))
           || bool_decide (is_Some (consumer p))
        then (t, Err ())
        else
          let es := Queue.snapshot (queue p) capacity in
          let count := length es in
          let res := Ok (es ++ replicate (BATCH - count) Event_default, count) in
          if negb (count =? 0)%nat then (<[i := set_consumer (Some task) p]> t, res)
          else if wait && negb (bool_decide (Some task ∈ waiters p)) then
            match position (λ s, bool_decide (s = None)) (waiters p) with
            | None => (t, Err ())
            | Some k => (<[i := set_waiters (<[k := Some task]> (waiters p)) p]> t, res)
            end
          else (t, res)
    end.

Definition remove_all (q : Queue.Queue) (es : list Event) : Queue.Queue :=
  foldl (λ q e, (Queue.remove q (operation e)).1) q es.

Definition finish (t : Table) (own handle task : Z) (events : list Event) (copied : bool)
    : Table * result () () :=
  match port_at t handle with
  | None => (t, Err ())
  | Some (i, p) =>
      if negb (matches p handle) || negb (bool_decide (owner p = Some own))
         || negb (bool_decide (consumer p = Some task))
      then (t, Err ())
      else
        let q := if copied then remove_all (queue p) events else queue p in
        (<[i := set_consumer None (set_queue q p)]> t, Ok ())
  end.

Definition unwatch (t : Table) (handle task : Z) : Table :=
  match port_at t handle with
  | None => t
  | Some (i, p) =>
      if matches p handle then
        <[i := set_waiters ((λ w, if bool_decide (w = Some task) then None else w) <$> waiters p) p]> t
      else t
  end.

Definition active_count (t : Table) : nat := count_if (λ p, bool_decide (is_Some (owner p))) t.

End Port.

(** ** Invariant, handle lifetime and delivery *)
Module PortProofs.
Import Queue QueueSpec Port.

(** A waiter is registered only while nothing is ready to be delivered. *)
Record wf_port (p : Port) : Prop := {
  wp_generation : in_u32 (generation p);
  wp_queue : Queue.wf (queue p);
  wp_waiters : length (waiters p) = MAX_TASKS;
  wp_distinct : NoDup (flatten (waiters p));
  wp_no_lost : flatten (waiters p) ≠ [] → fifo (queue p) = [];
  wp_free : owner p = None → p = clear p
}.

Record wf (t : Table) : Prop := {
  wf_length : length t = PORTS;
  wf_ports : ∀ i p, t !! i = Some p → wf_port p;
  wf_quota : ∀ own, (count_if (owned_by own) t ≤ PER_PROCESS)%nat
}.

(** The calls of the interface. *)
Inductive op :=
  | Create (own : Z)
  | Close (own h : Z)
  | ReleaseOwner (own : Z)
  | Reserve (own h operation cookie : Z)
  | Publish (h operation class flags status value : Z)
  | Abandon (h operation : Z)
  | Begin (own h task : Z) (capacity : nat) (wait : bool)
  | Finish (own h task : Z) (events : list Event) (copied : bool)
  | Unwatch (h task : Z).

Definition run (t : Table) (o : op) : Table :=
  match o with
  | Create own => (create t own).1
  | Close own h => (close t own h).1
  | ReleaseOwner own => release_owner t own
  | Reserve own h o c => (reserve t own h o c).1
  | Publish h o c f s v => (publish t h o c f s v).1
  | Abandon h o => abandon t h o
  | Begin own h k n w => (begin t own h k n w).1
  | Finish own h k es b => (finish t own h k es b).1
  | Unwatch h k => unwatch t h k
  end.

(** The handle names port [p] at index [i]. *)
Definition names (h : Z) (i : nat) (p : Port) : Prop := index h = Ok i ∧ matches p h = true.

(** What one call may do to the port at index [i]. *)
Inductive change (i : nat) (p : Port) : op → Port → Prop :=
  | ch_same o : change i p o p
  | ch_create own : owner p = None → generation p < u32_max →
      change i p (Create own)
        (mkPort (generation p + 1) (Some own) (queue p) (waiters p) (consumer p))
  | ch_close own h : names h i p → owner p = Some own → change i p (Close own h) (clear p)
  | ch_release own : owner p = Some own → change i p (ReleaseOwner own) (clear p)
  | ch_reserve own h o c q : names h i p → owner p = Some own →
      Queue.reserve (queue p) o c = (q, true) →
      change i p (Reserve own h o c) (set_queue q p)
  | ch_reject h o c f s v q : names h i p →
      Queue.publish (queue p) o c f s v = (q, false) →
      change i p (Publish h o c f s v) (set_queue q p)
  | ch_publish h o c f s v q : names h i p →
      Queue.publish (queue p) o c f s v = (q, true) →
      change i p (Publish h o c f s v) (set_waiters no_waiters (set_queue q p))
  | ch_abandon h o : names h i p →
      change i p (Abandon h o) (set_queue (Queue.remove (queue p) o).1 p)
  | ch_claim own h k n w : names h i p → owner p = Some own → consumer p = None →
      snapshot (queue p) n ≠ [] →
      change i p (Begin own h k n w) (set_consumer (Some k) p)
  | ch_wait own h k n w j : names h i p → owner p = Some own → consumer p = None →
      (0 < n)%nat → snapshot (queue p) n = [] → Some k ∉ waiters p → waiters p !! j = Some None →
      change i p (Begin own h k n w) (set_waiters (<[j := Some k]> (waiters p)) p)
  | ch_finish own h k es (b : bool) : names h i p → owner p = Some own → consumer p = Some k →
      change i p (Finish own h k es b)
        (set_consumer None (set_queue (if b then remove_all (queue p) es else queue p) p))
  | ch_unwatch h k : names h i p →
      change i p (Unwatch h k)
        (set_waiters ((λ w, if bool_decide (w = Some k) then None else w) <$> waiters p) p).

Lemma port_at_Some t h i p :
  port_at t h = Some (i, p) → index h = Ok i ∧ t !! i = Some p.
Proof.
  unfold port_at. destruct (index h) as [j|]; [|done].
  destruct (t !! j) eqn:E; [|done]. intros [= <- <-]. done.
Qed.

(** Updating one slot changes that slot as described and no other. *)
Lemma change_insert o (t : Table) i p p' j q :
  t !! i = Some p → change i p o p' → t !! j = Some q →
  ∃ q', <[i := p']> t !! j = Some q' ∧ change j q o q'.
Proof.
  intros Hi Hc Hj. destruct (decide (i = j)) as [->|Hne].
  - rewrite list_lookup_insert_eq by eauto using lookup_lt_Some.
    replace q with p by congruence. eauto.
  - rewrite list_lookup_insert_ne by done. exists q. split; [done|constructor].
Qed.

Lemma change_id o (t : Table) j q : t !! j = Some q → ∃ q', t !! j = Some q' ∧ change j q o q'.
Proof. intros H. exists q. split; [done|constructor]. Qed.

Ltac guards :=
  repeat match goal with
  | H : negb _ = false |- _ => apply negb_false_iff in H
  | H : negb _ = true |- _ => apply negb_true_iff in H
  | H : _ || _ = false |- _ => apply orb_false_iff in H as [? ?]
  | H : _ && _ = true |- _ => apply andb_true_iff in H as [? ?]
  | H : bool_decide _ = true |- _ => apply bool_decide_eq_true in H
  | H : bool_decide _ = false |- _ => apply bool_decide_eq_false in H
  end.

Lemma run_change t o i p :
  t !! i = Some p → ∃ p', run t o !! i = Some p' ∧ change i p o p'.
Proof.
  intros Hi. destruct o as [own|own h|own|own h o c|h o c f s v|h o|own h k n w|own h k es b|h k];
    cbn [run].
  - unfold create. destruct (_ <=? _)%nat; [by apply change_id|].
    destruct (position _ t) as [j|] eqn:E; [|by apply change_id].
    apply position_lookup in E as (q & Hq & Hp). rewrite Hq. guards.
    eapply change_insert; [done| |done]. apply ch_create; [done|]. by apply Z.ltb_lt.
  - unfold close. destruct (port_at t h) as [[j q]|] eqn:E; [|by apply change_id].
    apply port_at_Some in E as [Hx Hq]. destruct (_ || _) eqn:G; [by apply change_id|]. guards.
    eapply change_insert; [done| |done]. by apply ch_close.
  - unfold release_owner. rewrite list_lookup_fmap, Hi. simpl. eexists. split; [done|].
    unfold owned_by. case_bool_decide; by constructor.
  - unfold reserve. destruct (port_at t h) as [[j q]|] eqn:E; [|by apply change_id].
    apply port_at_Some in E as [Hx Hq]. destruct (_ || _) eqn:G; [by apply change_id|]. guards.
    destruct (Queue.reserve _ _ _) as [q' []] eqn:R; [|by apply change_id].
    eapply change_insert; [done| |done]. by apply ch_reserve.
  - unfold publish. destruct (port_at t h) as [[j q]|] eqn:E; [|by apply change_id].
    apply port_at_Some in E as [Hx Hq]. destruct (negb _) eqn:G; [by apply change_id|]. guards.
    destruct (Queue.publish _ _ _ _ _ _) as [q' []] eqn:R;
      (eapply change_insert; [done| |done]); by constructor.
  - unfold abandon. destruct (port_at t h) as [[j q]|] eqn:E; [|by apply change_id].
    apply port_at_Some in E as [Hx Hq]. destruct (matches q h) eqn:G; [|by apply change_id].
    eapply change_insert; [done| |done]. by apply ch_abandon.
  - unfold begin. destruct (_ || _) eqn:Gn; [by apply change_id|]. guards.
    destruct (port_at t h) as [[j q]|] eqn:E; [|by apply change_id].
    apply port_at_Some in E as [Hx Hq]. destruct (_ || _) eqn:G; [by apply change_id|]. guards.
    assert (Hc : consumer q = None) by (destruct (consumer q); [exfalso; eauto|done]).
    destruct (negb (_ =? 0)%nat) eqn:Ge.
    { guards. eapply change_insert; [done| |done]. apply ch_claim; try done.
      intros Hs. by rewrite Hs in Ge. }
    guards. destruct (w && _) eqn:Gw; [|by apply change_id]. guards.
    destruct (position _ (waiters q)) as [m|] eqn:Ew; [|by apply change_id].
    apply position_lookup in Ew as (x & Hm & ->%bool_decide_eq_true).
    eapply change_insert; [done| |done]. apply ch_wait; try done.
    + match goal with H : (n =? 0)%nat = false |- _ => apply Nat.eqb_neq in H end. lia.
    + apply Nat.eqb_eq in Ge. by apply nil_length_inv.
  - unfold finish. destruct (port_at t h) as [[j q]|] eqn:E; [|by apply change_id].
    apply port_at_Some in E as [Hx Hq]. destruct (_ || _) eqn:G; [by apply change_id|]. guards.
    eapply change_insert; [done| |done]. by apply ch_finish.
  - unfold unwatch. destruct (port_at t h) as [[j q]|] eqn:E; [|by apply change_id].
    apply port_at_Some in E as [Hx Hq]. destruct (matches q h) eqn:G; [|by apply change_id].
    eapply change_insert; [done| |done]. by apply ch_unwatch.
Qed.

(** ** The queue of a port, through its FIFO view *)

Lemma reserve_fifo q o c q' b :
  Queue.wf q → Queue.reserve q o c = (q', b) → Queue.wf q' ∧ fifo q' = fifo q.
Proof.
  intros Hwf E. destruct (reserve_sim _ _ _ _ _ Hwf E) as [Hwf' Hs]. split; [done|].
  unfold spec_reserve in Hs. destruct (_ || _); by apply (f_equal (λ x, ready x.1)) in Hs.
Qed.

Lemma publish_fifo q o c f s v q' b :
  Queue.wf q → Queue.publish q o c f s v = (q', b) →
  Queue.wf q' ∧ ∃ tail, fifo q' = fifo q ++ tail ∧ (b = false → tail = []).
Proof.
  intros Hwf E. destruct (publish_sim _ _ _ _ _ _ _ _ Hwf E) as [Hwf' Hs]. split; [done|].
  unfold spec_publish in Hs. destruct (reserved (abs q) !! o);
    pose proof (f_equal (λ x, ready x.1) Hs) as Hr; apply (f_equal snd) in Hs; cbn in Hr, Hs.
  - eexists. split; [by symmetry|]. by intros ->.
  - exists []. by rewrite app_nil_r.
Qed.

Lemma remove_fifo q o :
  Queue.wf q →
  Queue.wf (Queue.remove q o).1 ∧
  fifo (Queue.remove q o).1 = filter (λ e, operation e ≠ o) (fifo q).
Proof.
  intros Hwf. destruct (Queue.remove q o) as [q' b] eqn:E.
  destruct (remove_sim _ _ _ _ Hwf E) as [Hwf' Hs]. split; [done|].
  unfold spec_remove in Hs. cbn [fst].
  destruct (present (abs q) o) eqn:P; apply (f_equal (λ x, ready x.1)) in Hs; cbn in Hs; [done|].
  rewrite <-Hs. symmetry. apply filter_all. intros e He Ho. unfold present in P.
  apply orb_false_iff in P as [_ P%bool_decide_eq_false]. apply P. apply list_elem_of_fmap. eauto.
Qed.

Lemma fifo_NoDup q : Queue.wf q → NoDup (operation <$> fifo q).
Proof.
  intros [_ Hw]. unfold fifo, fifo_of.
  assert (HN : NoDup (operation <$> (pubs (live q)).*2)).
  { pose proof (wf_ops _ _ Hw) as Ho. clear Hw. induction (live q) as [|e es IH]; [constructor|].
    apply NoDup_cons in Ho as [Hn Ho]. rewrite pubs_cons. unfold pub_of.
    destruct (sequence e); cbn; [|by apply IH]. apply NoDup_cons. split; [|by apply IH].
    intros Hin. apply Hn. apply list_elem_of_fmap in Hin as (ev & -> & Hin).
    apply list_elem_of_fmap in Hin as (p & -> & Hin). by apply elem_of_pubs_op. }
  rewrite <-list_fmap_compose in *.
  by rewrite (fmap_Permutation _ _ _ (sort_by_key_perm fst (pubs (live q)))).
Qed.

(** Removing the operations of a prefix of the FIFO drops that prefix. *)
Lemma remove_all_prefix q pre rest :
  Queue.wf q → fifo q = pre ++ rest →
  Queue.wf (remove_all q pre) ∧ fifo (remove_all q pre) = rest.
Proof.
  revert q. induction pre as [|e pre IH]; intros q Hwf Hf; [done|].
  cbn [remove_all foldl]. destruct (remove_fifo q (operation e) Hwf) as [Hwf' Hf'].
  apply IH; [done|]. rewrite Hf', Hf. pose proof (fifo_NoDup q Hwf) as HN.
  rewrite Hf in HN. simpl in HN. apply NoDup_cons in HN as [Hn _].
  rewrite <-app_comm_cons, filter_cons_False by (intros H; by apply H). apply filter_all.
  intros x Hx Ho. apply Hn. rewrite <-Ho. apply list_elem_of_fmap. eauto.
Qed.

Lemma remove_all_fifo q es :
  Queue.wf q → Queue.wf (remove_all q es) ∧ (fifo q = [] → fifo (remove_all q es) = []).
Proof.
  revert q. induction es as [|e es IH]; intros q Hwf; [done|]. cbn [remove_all foldl].
  destruct (remove_fifo q (operation e) Hwf) as [Hwf' Hf']. destruct (IH _ Hwf') as [Hw Hn].
  split; [done|]. intros H. apply Hn. by rewrite Hf', H.
Qed.

(** ** The invariant *)

Lemma snapshot_nil q n : Queue.wf q → (0 < n)%nat → snapshot q n = [] → fifo q = [].
Proof. intros Hwf Hn. rewrite snapshot_fifo by done. by destruct (fifo q), n; try lia. Qed.

Lemma no_waiters_flatten : flatten no_waiters = [].
Proof. apply flatten_replicate_None. Qed.

Lemma unwatch_sublist (k : Z) (w : Waiters) :
  flatten ((λ w, if bool_decide (w = Some k) then None else w) <$> w) `sublist_of` flatten w.
Proof.
  induction w as [|[x|] w IH]; cbn; [constructor| |done].
  case_bool_decide; cbn; by constructor.
Qed.

Lemma wf_port_clear p : wf_port p → wf_port (clear p).
Proof.
  intros H. split; cbn; rewrite ?no_waiters_flatten; try done.
  - apply H.
  - apply new_wf.
  - constructor.
Qed.

Lemma named_owned h i p : names h i p → owner p ≠ None.
Proof. intros [_ Hm] Ho. unfold matches in Hm. rewrite Ho in Hm. done. Qed.

Lemma wf_port_set_queue q p :
  wf_port p → Queue.wf q → (fifo (queue p) = [] → fifo q = []) → owner p ≠ None →
  wf_port (set_queue q p).
Proof. intros [] Hq Hf Ho. split; cbn; auto. done. Qed.

Lemma change_wf_port i p o p' : wf_port p → change i p o p' → wf_port p'.
Proof.
  intros Hwf Hc. pose proof Hwf as [Hg Hq Hw Hd Hl Hf].
  destruct Hc as [|own Ho Hgen|own h Hn Ho|own Ho|own h o c q Hn Ho R|h o c f s v q Hn R
    |h o c f s v q Hn R|h o Hn|own h k n w Hn Ho Hk Hs|own h k n w j Hn Ho Hk Hpos Hs Hnew Hj
    |own h k es b Hn Ho Hk|h k Hn]; try pose proof (named_owned _ _ _ Hn) as Hown.
  - done.
  - split; cbn; try done. unfold in_u32 in *. lia.
  - by apply wf_port_clear.
  - by apply wf_port_clear.
  - destruct (reserve_fifo _ _ _ _ _ Hq R) as [Hq' Hf']. apply wf_port_set_queue; try done. by rewrite Hf'.
  - destruct (publish_fifo _ _ _ _ _ _ _ _ Hq R) as [Hq' (tail & Hf' & Ht)].
    apply wf_port_set_queue; try done. by rewrite Hf', (Ht eq_refl), app_nil_r.
  - destruct (publish_fifo _ _ _ _ _ _ _ _ Hq R) as [Hq' _].
    split; cbn; rewrite ?no_waiters_flatten; try done. constructor.
  - destruct (remove_fifo (queue p) o Hq) as [Hq' Hf']. apply wf_port_set_queue; try done.
    rewrite Hf'. by intros ->.
  - split; cbn; try done.
  - pose proof (flatten_fill _ _ k Hj) as HP. split; cbn; try done.
    + by rewrite length_insert.
    + rewrite HP. apply NoDup_cons. split; [|done]. intros Hin. apply Hnew.
      apply list_elem_of_omap in Hin as (x & Hx & Hxe). by rewrite <-Hxe.
    + intros _. by eapply snapshot_nil.
  - destruct (remove_all_fifo (queue p) es Hq) as [Hq' Hf'].
    split; cbn; try done; [by destruct b|].
    intros H%Hl. destruct b; auto.
  - pose proof (unwatch_sublist k (waiters p)) as Hsub. split; cbn; try done.
    + by rewrite length_fmap.
    + by eapply sublist_NoDup.
    + intros H. apply Hl. intros Hnil. apply H. rewrite Hnil in Hsub. by apply sublist_nil_r in Hsub.
Qed.

Lemma run_length t o : length (run t o) = length t.
Proof.
  destruct o; cbn [run]; unfold create, close, release_owner, reserve, publish, abandon, begin,
    finish, unwatch; repeat case_match; rewrite ?length_fmap; cbn [fst];
    rewrite ?length_insert; simplify_eq; rewrite ?length_insert; done.
Qed.

Lemma run_change_inv t o i p' :
  run t o !! i = Some p' → ∃ p, t !! i = Some p ∧ change i p o p'.
Proof.
  intros H. destruct (lookup_lt_is_Some_2 t i) as [p Hp].
  { apply lookup_lt_Some in H. by rewrite run_length in H. }
  exists p. split; [done|]. destruct (run_change t o i p Hp) as (q & Hq & Hc). congruence.
Qed.

(** Only [create] gives a port an owner. *)
Lemma change_owner i p o p' own :
  change i p o p' → owner p' = Some own → owner p = Some own ∨ o = Create own.
Proof. destruct 1; cbn; naive_solver. Qed.

Lemma create_quota t own own' :
  (count_if (owned_by own') t ≤ PER_PROCESS)%nat →
  (count_if (owned_by own') (create t own).1 ≤ PER_PROCESS)%nat.
Proof.
  intros H. unfold create. destruct (Nat.leb_spec PER_PROCESS (count_if (owned_by own) t)); [done|].
  destruct (position _ t) as [i|] eqn:E; [|done].
  apply position_lookup in E as (p & Hp & G). rewrite Hp. cbn [fst]. guards.
  match goal with |- context [<[i:=?p']> t] =>
    pose proof (count_if_insert (owned_by own') t i p p' Hp) as Hc end.
  unfold owned_by in Hc at 2 4. cbn [owner] in Hc. destruct (decide (own = own')) as [->|Hne].
  - destruct (bool_decide (Some own' = Some own')), (bool_decide (owner p = Some own'));
      cbn [Nat.b2n] in Hc; lia.
  - rewrite (bool_decide_eq_false_2 (Some own = Some own')) in Hc by congruence.
    destruct (bool_decide (owner p = Some own')); cbn [Nat.b2n] in Hc; lia.
Qed.

Lemma run_wf t o : wf t → wf (run t o).
Proof.
  intros [Hl Hp Hq]. split.
  - by rewrite run_length.
  - intros i p' H. apply run_change_inv in H as (p & Hi & Hc). by eapply change_wf_port, Hc; eauto.
  - intros own. assert (Hdec : (∃ own', o = Create own') ∨ ¬ ∃ own', o = Create own').
    { destruct o; naive_solver. }
    destruct Hdec as [[own' ->]|Hne].
    + by apply create_quota.
    + etransitivity; [|apply (Hq own)]. apply count_if_mono; [apply run_length|].
      intros i p p' Hi Hi' Ho. unfold owned_by in *. apply bool_decide_eq_true in Ho.
      apply bool_decide_eq_true. apply run_change_inv in Hi' as (p2 & Hp2 & Hc).
      replace p with p2 by congruence. destruct (change_owner _ _ _ _ _ Hc Ho); [done|]. naive_solver.
Qed.

Lemma wf_table_new : wf table_new.
Proof.
  assert (H : ∀ i p, table_new !! i = Some p → p = port_new).
  { intros i p [-> _]%lookup_replicate. done. }
  split; [done| |].
  - intros i p ->%H. split; cbn; try done; rewrite ?no_waiters_flatten; try done.
    + apply new_wf.
    + constructor.
  - intros own. unfold table_new. rewrite count_if_replicate_false by done. unfold PER_PROCESS. lia.
Qed.

(** Every reachable port table is well formed: no owner ever holds more than
    four ports, free ports are empty, every queue satisfies its own invariant, and a
    task is registered as a waiter only while its port has nothing to deliver, so
    that no wakeup is lost between [begin] and [publish]. *)
Theorem port_table_reachable_wf (ops : list op) : wf (foldl run table_new ops).
Proof.
  assert (H : ∀ t, wf t → wf (foldl run t ops)); [|apply H, wf_table_new].
  induction ops as [|o ops IH]; intros t Ht; [done|]. apply IH. by apply run_wf.
Qed.

(** ** Handles *)

Lemma index_spec h i :
  in_u64 h → index h = Ok i →
  (i < PORTS)%nat ∧ 1 ≤ h / 2 ^ 32 ≤ u32_max ∧ h = h / 2 ^ 32 * 2 ^ 32 + TAG + Z.of_nat i.
Proof.
  unfold in_u64, u64_max, index. intros Hh. destruct (_ || _) eqn:G; [done|]. intros [= <-]. guards.
  match goal with H : (Z.land h 4294901760 =? TAG) = true |- _ => apply Z.eqb_eq in H as Ht end.
  match goal with H : (Z.shiftr h 32 =? 0) = false |- _ => apply Z.eqb_neq in H as Hz end.
  match goal with H : (PORTS <=? _)%nat = false |- _ => apply Nat.leb_gt in H as Hi end.
  change 4294901760 with ((2 ^ 16 - 1) * 2 ^ 16) in Ht. rewrite land_field in Ht by lia.
  change 65535 with (2 ^ 16 - 1) in *. rewrite land_low in * by lia.
  rewrite Z.shiftr_div_pow2 in Hz by lia. unfold TAG in *. change (Z.shiftl 49153 16) with 3221291008 in *.
  pose proof (Z.mod_pos_bound h (2 ^ 16)). pose proof (Z.mod_pos_bound (h / 2 ^ 16) (2 ^ 16)).
  pose proof (Z.div_mod h (2 ^ 16)). pose proof (Z.div_mod (h / 2 ^ 16) (2 ^ 16)).
  rewrite Z.div_div in * by lia. change (2 ^ 16 * 2 ^ 16) with (2 ^ 32) in *.
  assert (0 ≤ h / 2 ^ 32 < 2 ^ 32) by (split; [apply Z.div_pos|apply Z.div_lt_upper_bound]; lia).
  split; [done|]. unfold u32_max. lia.
Qed.

Lemma handle_of_eq i p :
  (i < PORTS)%nat → in_u32 (generation p) →
  handle_of i p = generation p * 2 ^ 32 + TAG + Z.of_nat i.
Proof.
  unfold PORTS, in_u32. intros Hi Hg. unfold handle_of. rewrite Z.shiftl_mul_pow2 by lia.
  change TAG with 3221291008.
  rewrite (lor_disjoint_add (_ * _) _ 32) by (lia || apply Z.mod_mul; lia).
  rewrite (lor_disjoint_add _ _ 16); [done|lia..|].
  replace (generation p * 2 ^ 32 + 3221291008) with ((generation p * 2 ^ 16 + 49153) * 2 ^ 16) by lia.
  apply Z.mod_mul. lia.
Qed.

Lemma index_handle_of i p :
  (i < PORTS)%nat → in_u32 (generation p) → 1 ≤ generation p →
  index (handle_of i p) = Ok i ∧ as_u32 (Z.shiftr (handle_of i p) 32) = generation p ∧
  in_u64 (handle_of i p).
Proof.
  intros Hi Hg Hpos. rewrite handle_of_eq by done. unfold index, in_u32, u32_max, PORTS in *.
  change 4294901760 with ((2 ^ 16 - 1) * 2 ^ 16). rewrite land_field by lia.
  change 65535 with (2 ^ 16 - 1). rewrite land_low by lia. rewrite Z.shiftr_div_pow2 by lia.
  change TAG with 3221291008. set (g := generation p) in *.
  replace ((g * 2 ^ 32 + 3221291008 + Z.of_nat i) / 2 ^ 16) with (g * 2 ^ 16 + 49153)
    by (apply (Z.div_unique _ _ _ (Z.of_nat i)); lia).
  replace ((g * 2 ^ 32 + 3221291008 + Z.of_nat i) / 2 ^ 32) with g
    by (apply (Z.div_unique _ _ _ (3221291008 + Z.of_nat i)); lia).
  replace ((g * 2 ^ 32 + 3221291008 + Z.of_nat i) mod 2 ^ 16) with (Z.of_nat i)
    by (apply (Z.mod_unique _ _ (g * 2 ^ 16 + 49153)); lia).
  replace ((g * 2 ^ 16 + 49153) mod 2 ^ 16) with 49153 by (apply (Z.mod_unique _ _ g); lia).
  rewrite (proj2 (Z.eqb_neq g 0)), Nat2Z.id, (proj2 (Nat.leb_gt _ _)) by lia. split_and!.
  - done.
  - unfold as_u32, u32_max. apply Z.mod_small. lia.
  - unfold in_u64, u64_max. lia.
Qed.

(** [valid t h]: the handle still opens a port. *)
Definition valid (t : Table) (h : Z) : bool :=
  match port_at t h with Some (_, p) => matches p h | None => false end.

(** The handle's generation is spent at its index. *)
Definition spent (h : Z) (p : Port) : Prop :=
  as_u32 (Z.shiftr h 32) < generation p ∨
  as_u32 (Z.shiftr h 32) = generation p ∧ owner p = None.

Lemma change_spent h i p o p' : change i p o p' → spent h p → spent h p'.
Proof.
  unfold spent. destruct 1; cbn; try tauto; naive_solver lia.
Qed.

Lemma spent_invalid t h i p : index h = Ok i → t !! i = Some p → spent h p → valid t h = false.
Proof.
  intros Hi Hp Hs. unfold valid, port_at. rewrite Hi, Hp. cbn. unfold matches.
  destruct Hs as [Hlt|[_ Ho]].
  - rewrite (proj2 (Z.eqb_neq _ _)) by lia. apply andb_false_r.
  - rewrite Ho. done.
Qed.

Lemma run_spent t h i ops :
  (∃ p, t !! i = Some p ∧ spent h p) → ∃ p, foldl run t ops !! i = Some p ∧ spent h p.
Proof.
  revert t. induction ops as [|o ops IH]; intros t (p & Hp & Hs); [eauto|]. apply IH.
  destruct (run_change t o i p Hp) as (p' & Hp' & Hc). eauto using change_spent.
Qed.

Lemma create_valid t own t' h :
  wf t → create t own = (t', Ok h) → valid t' h = true ∧ in_u64 h.
Proof.
  intros Hwf. unfold create. destruct (_ <=? _)%nat; [done|].
  destruct (position _ t) as [i|] eqn:E; [|done].
  apply position_lookup in E as (p & Hp & G). rewrite Hp. guards.
  match goal with H : (_ <? _) = true |- _ => apply Z.ltb_lt in H as Hg end.
  pose proof (wp_generation _ (wf_ports _ Hwf _ _ Hp)) as Hr. unfold in_u32 in Hr.
  set (p' := mkPort _ _ _ _ _). intros [= <- <-].
  assert (Hi : (i < PORTS)%nat) by (rewrite <-(wf_length _ Hwf); by eapply lookup_lt_Some).
  destruct (index_handle_of i p') as (Hx & Hgen & Hu); [done|unfold in_u32; cbn; lia..|].
  split; [|done]. unfold valid, port_at. rewrite Hx.
  rewrite list_lookup_insert_eq by eauto using lookup_lt_Some. cbn. unfold matches.
  rewrite Hgen, Z.eqb_refl. done.
Qed.

(** A closed handle is dead for good. After a successful [close], whatever calls
    follow, the handle never opens a port again and is never handed out again: a slot
    whose 32-bit generation is exhausted is retired, not recycled. *)
Theorem closed_handle_stays_dead (t : Table) (own h : Z) (woken : list Z) (ops : list op) :
  wf t → (close t own h).2 = Ok woken →
  let t' := foldl run (close t own h).1 ops in
  valid t' h = false ∧ ∀ own', (create t' own').2 ≠ Ok h.
Proof.
  intros Hwf Hc. cbn zeta. set (t' := foldl run _ ops).
  assert (Hdead : ∃ i, index h = Ok i ∧ ∃ p, t' !! i = Some p ∧ spent h p).
  { unfold t'. revert Hc. unfold close. destruct (port_at t h) as [[i p]|] eqn:E; [|done].
    apply port_at_Some in E as [Hx Hp]. destruct (_ || _) eqn:G; [done|]. intros _. guards.
    exists i. split; [done|]. apply run_spent. exists (clear p). cbn [fst].
    rewrite list_lookup_insert_eq by eauto using lookup_lt_Some. split; [done|]. right.
    match goal with H : matches p h = true |- _ => unfold matches in H end. guards.
    split; [|done]. symmetry. by apply Z.eqb_eq. }
  destruct Hdead as (i & Hx & p & Hp & Hs). split; [by eapply spent_invalid|].
  intros own' Hcr. assert (Hwf' : wf t').
  { unfold t'. clear -Hwf. pose proof (run_wf t (Close own h) Hwf) as H. cbn [run] in H. revert H.
    generalize (close t own h).1. induction ops as [|o ops IH]; intros u Hu; [done|].
    apply IH. by apply run_wf. }
  destruct (create t' own') as [t2 r] eqn:E. simpl in Hcr. subst r.
  destruct (create_valid _ _ _ _ Hwf' E) as [Hv _].
  destruct (run_spent t' h i [Create own']) as (p' & Hp' & Hs'); [eauto|]. cbn in Hp'.
  rewrite E in Hp'. cbn [fst] in Hp'. by rewrite (spent_invalid _ _ _ _ Hx Hp' Hs') in Hv.
Qed.

Lemma closed_handle_stays_dead_witness :
  let t := foldl run table_new [Create 5; Create 5] in
  let h := 7516258304 in
  (close t 5 h).2 = Ok [] ∧
  valid (foldl run (close t 5 h).1 [Create 5; Create 6]) h = false.
Proof.
  set (t := foldl run table_new _). split; [reflexivity|].
  apply (closed_handle_stays_dead t 5 7516258304 [] [Create 5; Create 6]); [|reflexivity].
  apply (run_wf (run table_new (Create 5))), run_wf, wf_table_new.
Defined.

(** ** Delivery *)

(** Calls that leave a claimed batch alone: they do not close, abandon or finish it. *)
Definition benign (own h task : Z) (o : op) : Prop :=
  match o with
  | Close _ h' | Abandon h' _ => in_u64 h' ∧ h' ≠ h
  | ReleaseOwner own' => own' ≠ own
  | Finish _ h' k _ _ => in_u64 h' ∧ (h' ≠ h ∨ k ≠ task)
  | _ => True
  end.

Definition fifo_at (t : Table) (h : Z) : list Event :=
  match port_at t h with Some (_, p) => fifo (queue p) | None => [] end.

(** The port of [h] is owned by [own] and claimed by [task], and starts with [batch]. *)
Definition claimed (t : Table) (own h task : Z) (batch : list Event) : Prop :=
  ∃ i p rest, names h i p ∧ t !! i = Some p ∧ owner p = Some own ∧ consumer p = Some task ∧
    Queue.wf (queue p) ∧ fifo (queue p) = batch ++ rest.

Lemma names_eq h i p :
  in_u64 h → names h i p → h = generation p * 2 ^ 32 + TAG + Z.of_nat i.
Proof.
  intros Hu [Hi Hm]. destruct (index_spec _ _ Hu Hi) as (_ & Hr & Heq). unfold matches in Hm. guards.
  match goal with H : (generation p =? _) = true |- _ => apply Z.eqb_eq in H as -> end.
  unfold as_u32, u32_max in *. rewrite Z.shiftr_div_pow2, Z.mod_small by lia. done.
Qed.

Lemma names_inj h h' i p : in_u64 h → in_u64 h' → names h i p → names h' i p → h = h'.
Proof. intros Hu Hu' H H'. by rewrite (names_eq _ _ _ Hu H), (names_eq _ _ _ Hu' H'). Qed.

Lemma claimed_step t own h task batch o :
  in_u64 h → benign own h task o → claimed t own h task batch →
  claimed (run t o) own h task batch.
Proof.
  intros Hu Hb (i & p & rest & Hn & Hp & Ho & Hk & Hw & Hf).
  destruct (run_change t o i p Hp) as (p' & Hp' & Hc). exists i, p'.
  assert (Hsame : ∀ h', in_u64 h' → names h' i p → h' = h) by (intros; by eapply names_inj).
  destruct Hc as [|own' Ho'|own' h' Hn' Ho'|own' Ho'|own' h' op c q Hn' Ho' R|h' op c f s v q Hn' R
    |h' op c f s v q Hn' R|h' op Hn'|own' h' k n w Hn' Ho' Hk'|own' h' k n w j Hn' Ho' Hk'
    |own' h' k es b Hn' Ho' Hk'|h' k Hn']; cbn in Hb; try congruence.
  - by exists rest.
  - destruct Hb as [Hu' Hne]. by destruct Hne; apply Hsame.
  - destruct (reserve_fifo _ _ _ _ _ Hw R) as [Hw' Hf']. exists rest. cbn. by rewrite Hf'.
  - destruct (publish_fifo _ _ _ _ _ _ _ _ Hw R) as [Hw' (tail & Hf' & _)].
    exists (rest ++ tail). cbn. by rewrite Hf', Hf, app_assoc.
  - destruct (publish_fifo _ _ _ _ _ _ _ _ Hw R) as [Hw' (tail & Hf' & _)].
    exists (rest ++ tail). cbn. by rewrite Hf', Hf, app_assoc.
  - destruct Hb as [Hu' Hne]. by destruct Hne; apply Hsame.
  - destruct Hb as [Hu' [Hne|Hne]]; [by destruct Hne; apply Hsame|congruence].
  - exists rest. done.
Qed.

Lemma begin_claims t own h task cap wait t1 evs n :
  wf t → begin t own h task cap wait = (t1, Ok (evs, n)) → n ≠ 0%nat →
  claimed t1 own h task (take n evs) ∧ length (take n evs) = n ∧ take n evs = take cap (fifo_at t h).
Proof.
  intros Hwf. unfold begin. destruct ((cap =? 0)%nat || _); [done|].
  destruct (port_at t h) as [[i p]|] eqn:E; [|done]. unfold fifo_at. rewrite E.
  apply port_at_Some in E as [Hx Hp]. destruct (negb (matches p h) || _ || _) eqn:G; [done|]. guards.
  pose proof (wp_queue _ (wf_ports _ Hwf _ _ Hp)) as Hq.
  rewrite (snapshot_fifo _ cap Hq). set (es := take cap (fifo (queue p))).
  assert (Htake : take (length es) (es ++ replicate (BATCH - length es) Event_default) = es)
    by (rewrite take_app_le, firstn_all by lia; done).
  cbv zeta. destruct (negb (length es =? 0)%nat) eqn:Ge.
  - intros Heq Hn. injection Heq as <- <- <-. rewrite Htake. split_and!; try done.
    exists i, (set_consumer (Some task) p), (drop cap (fifo (queue p))).
    rewrite list_lookup_insert_eq by eauto using lookup_lt_Some.
    split_and!; try done. cbn. unfold es. by rewrite take_drop.
  - guards. apply Nat.eqb_eq in Ge. intros Heq Hn. exfalso. revert Heq.
    repeat case_match; intros; by simplify_eq.
Qed.

(** A claimed batch is delivered once, in order, and is safe to retry. When
    [begin] hands out events, they are the oldest ones. As long as nobody closes the
    port, abandons its operations or finishes the claim - whatever else is reserved,
    published, created or watched - the batch stays at the front of the FIFO and no
    other consumer gets in; then [finish(copied)] drops exactly that batch, and a
    failed copy ([copied = false]) leaves the FIFO as it was. *)
Theorem batch_delivered_once (t : Table) (own h task : Z) (cap : nat) (wait : bool)
    (t1 : Table) (evs : list Event) (n : nat) (ops : list op) :
  wf t → in_u64 h → begin t own h task cap wait = (t1, Ok (evs, n)) → n ≠ 0%nat →
  Forall (benign own h task) ops →
  let batch := take n evs in
  let t2 := foldl run t1 ops in
  batch = take cap (fifo_at t h) ∧
  (∀ own' k c w, (begin t2 own' h k c w).2 = Err ()) ∧
  ∃ rest, fifo_at t2 h = batch ++ rest ∧
    (finish t2 own h task batch true).2 = Ok () ∧
    fifo_at (finish t2 own h task batch true).1 h = rest ∧
    (finish t2 own h task batch false).2 = Ok () ∧
    fifo_at (finish t2 own h task batch false).1 h = batch ++ rest.
Proof.
  intros Hwf Hu Hb Hn Hops. cbn zeta.
  destruct (begin_claims _ _ _ _ _ _ _ _ _ Hwf Hb Hn) as (Hcl & _ & Hev). split; [done|].
  set (batch := take n evs) in *.
  assert (Hcl2 : claimed (foldl run t1 ops) own h task batch).
  { clear Hb. revert t1 Hcl. induction Hops as [|o ops Ho _ IH]; intros t1 Hcl; [done|].
    apply IH. by apply claimed_step. }
  set (t2 := foldl run t1 ops) in *. clearbody t2.
  destruct Hcl2 as (i & p & rest & [Hx Hm] & Hp & Ho & Hk & Hw & Hf).
  assert (Hat : port_at t2 h = Some (i, p)) by (unfold port_at; by rewrite Hx, Hp).
  assert (Hat' : ∀ p', port_at (<[i:=p']> t2) h = Some (i, p')).
  { intros p'. unfold port_at. rewrite Hx, list_lookup_insert_eq by eauto using lookup_lt_Some. done. }
  split.
  { intros own' k c w. unfold begin. destruct ((c =? 0)%nat || _); [done|].
    rewrite Hat, Hk. by rewrite (bool_decide_eq_true_2 (is_Some (Some task))), orb_true_r by eauto. }
  exists rest. unfold finish, fifo_at.
  rewrite Hat, Hm, !bool_decide_eq_true_2 by done. cbn [negb orb fst snd]. rewrite !Hat'. cbn.
  split_and!; try done. by apply remove_all_prefix.
Qed.

Lemma batch_delivered_once_witness :
  let t := foldl run table_new
    [Create 5; Reserve 5 7516258304 100 1; Reserve 5 7516258304 101 2; Reserve 5 7516258304 102 3;
     Publish 7516258304 101 4 0 0 9; Publish 7516258304 100 4 0 0 8] in
  let '(t1, r) := begin t 5 7516258304 40 1 true in
  match r with
  | Ok (evs, n) =>
      let t2 := foldl run t1 [Publish 7516258304 102 4 0 0 7] in
      take n evs = [mkEvent 101 2 4 0 0 9] ∧
      fifo_at (finish t2 5 7516258304 40 (take n evs) true).1 7516258304 =
        [mkEvent 100 1 4 0 0 8; mkEvent 102 3 4 0 0 7]
  | Err _ => False
  end.
Proof.
  set (t := foldl run table_new _).
  assert (Hwf : wf t) by (repeat (apply wf_table_new || apply run_wf || unfold t; simpl foldl)).
  destruct (begin t 5 7516258304 40 1 true) as [t1 r] eqn:E.
  destruct r as [[evs n]|[]]; [|vm_compute in E; done].
  assert (Hn : n = 1%nat) by (vm_compute in E; by simplify_eq).
  destruct (batch_delivered_once t 5 7516258304 40 1 true t1 evs n
    [Publish 7516258304 102 4 0 0 7]) as (H1 & _ & rest & H2 & _ & H3 & _);
    [done|unfold in_u64, u64_max; lia|done|lia|by repeat constructor|].
  cbv zeta. rewrite E. split; [rewrite H1; reflexivity|]. rewrite H3.
  rewrite H1 in H2. vm_compute in E. injection E as <- _ _. vm_compute in H2. by injection H2 as <-.
Defined.

End PortProofs.
