(* ===== verification/AsyncOp.v ===== *)
(** * Asynchronous operations (kernel/src/async_op.rs)

    The table of 32 generation-tagged operations that every asynchronous subsystem
    completes through. [Op] transcribes the module: the state is the operation
    table, the completion ports it publishes to, the statistics counters and the
    scheduler signals emitted so far. [task::current_task_id_if_running] and
    [task::current_process_id] are arguments, the calls to [task::signal_event] are
    appended to [signalled], and [wait_ready] is one iteration of its blocking loop. [OpProofs] has the cross-component invariant. *)
From stdpp Require Import gmap.
From S2P Require Import Prelude CompletionQueue CompletionPort.

Module Op.

Definition MAX_ASYNC_OPERATIONS : nat := 32.

Inductive AsyncClass := Block | Network | Device | Service | File | Timer | Event.

#[export] Instance AsyncClass_eq_dec : EqDecision AsyncClass.
Proof. solve_decision. Defined.

(** [class as u32] *)
Definition class_u32 (c : AsyncClass) : Z :=
  match c with
  | Block => 0 | Network => 1 | Device => 2 | Service => 3 | File => 4 | Timer => 5 | Event => 6
  end.

Definition class_from_u64 (v : Z) : option AsyncClass :=
  if v =? 0 then Some Block else if v =? 1 then Some Network else if v =? 2 then Some Device
  else if v =? 3 then Some Service else if v =? 4 then Some File else if v =? 5 then Some Timer
  else if v =? 6 then Some Event else None.

Record Handle := mkHandle { h_slot : nat; h_generation : Z }.

#[export] Instance Handle_eq_dec : EqDecision Handle.
Proof. solve_decision. Defined.

Definition to_raw (h : Handle) : Z := Z.lor (Z.shiftl (h_generation h) 32) (Z.of_nat (h_slot h)).

Definition from_raw (raw : Z) : option Handle :=
  if negb (Z.land raw 4294901760 =? 0) then None
  else
    let g := as_u32 (Z.shiftr raw 32) in
    let s := Z.to_nat (Z.land raw 65535) in
    if (g =? 0) || (MAX_ASYNC_OPERATIONS <=? s)%nat then None else Some (mkHandle s g).

Record Completion := mkCompletion { status : Z; reserved : Z; value : Z }.

#[export] Instance Completion_eq_dec : EqDecision Completion.
Proof. solve_decision. Defined.

Definition COMPLETION_OK : Completion := mkCompletion 0 0 0.
Definition completion_new (st v : Z) : Completion := mkCompletion st 0 v.

Inductive Error :=
  | Full | NoCurrentTask | InvalidHandle | NotOwner | AlreadyComplete | WrongClass
  | AlreadyAssociated.

#[export] Instance Error_eq_dec : EqDecision Error.
Proof. solve_decision. Defined.

Inductive State := Free | Pending | Complete.

#[export] Instance State_eq_dec : EqDecision State.
Proof. solve_decision. Defined.

Record Slot := mkSlot {
  generation : Z;
  state : State;
  class : AsyncClass;
  owner : Z;
  waiting : bool;
  completion : Completion;
  port : option Z
}.

Definition empty_slot : Slot := mkSlot 0 Free Block 0 false COMPLETION_OK None.

Definition slot_release (s : Slot) : Slot :=
  mkSlot (generation s) Free (class s) (owner s) false COMPLETION_OK None.

Definition is_free (s : Slot) : bool := bool_decide (state s = Free).

Record Counters := mkCounters {
  allocated : Z;
  completed : Z;
  waits : Z;
  signals : Z;
  released : Z;
  cancelled : Z;
  owner_reaped : Z;
  stale_rejections : Z
}.

Record Sys := mkSys {
  slots : list Slot;
  ports : list Port.Port;
  counters : Counters;
  signalled : list Z
}.

Definition boot : Sys :=
  mkSys (replicate MAX_ASYNC_OPERATIONS empty_slot) Port.table_new (mkCounters 0 0 0 0 0 0 0 0) [].

(** [Table::allocate]: the first free slot whose generation is not exhausted. *)
Definition allocate (ss : list Slot) (own : Z) (c : AsyncClass) : option (list Slot * Handle) :=
  i ← position (λ s, is_free s && negb (generation s =? u32_max)) ss;
  s ← ss !! i;
  let s := mkSlot (generation s + 1) Pending c own false COMPLETION_OK (port s) in
  Some (<[i := s]> ss, mkHandle i (generation s)).

(** [Table::get_mut] *)
Definition get_mut (ss : list Slot) (h : Handle) : option Slot :=
  s ← ss !! h_slot h;
  if negb (is_free s) && (generation s =? h_generation h) then Some s else None.

Definition active_count (ss : list Slot) : nat := count_if (λ s, negb (is_free s)) ss.
#[global] Arguments active_count : simpl never.

(** Updates of the shared state. *)
Definition count_with (f : Counters → Counters) (x : Sys) : Sys :=
  mkSys (slots x) (ports x) (f (counters x)) (signalled x).
Definition set_slot (h : Handle) (s : Slot) (x : Sys) : Sys :=
  mkSys (<[h_slot h := s]> (slots x)) (ports x) (counters x) (signalled x).
Definition set_ports (t : list Port.Port) (x : Sys) : Sys :=
  mkSys (slots x) t (counters x) (signalled x).
Definition signal (ts : list Z) (x : Sys) : Sys :=
  mkSys (slots x) (ports x) (counters x) (signalled x ++ ts).

Definition inc (n : Z) : Z := wrapping_add64 n 1.
Definition add_allocated (c : Counters) := mkCounters (inc (allocated c)) (completed c) (waits c)
  (signals c) (released c) (cancelled c) (owner_reaped c) (stale_rejections c).
Definition add_completed (c : Counters) := mkCounters (allocated c) (inc (completed c)) (waits c)
  (signals c) (released c) (cancelled c) (owner_reaped c) (stale_rejections c).
Definition add_waits (c : Counters) := mkCounters (allocated c) (completed c) (inc (waits c))
  (signals c) (released c) (cancelled c) (owner_reaped c) (stale_rejections c).
Definition add_signals (c : Counters) := mkCounters (allocated c) (completed c) (waits c)
  (inc (signals c)) (released c) (cancelled c) (owner_reaped c) (stale_rejections c).
Definition add_released (n : Z) (c : Counters) := mkCounters (allocated c) (completed c) (waits c)
  (signals c) (wrapping_add64 (released c) n) (cancelled c) (owner_reaped c) (stale_rejections c).
Definition add_cancelled (c : Counters) := mkCounters (allocated c) (completed c) (waits c)
  (signals c) (released c) (inc (cancelled c)) (owner_reaped c) (stale_rejections c).
Definition add_reaped (n : Z) (c : Counters) := mkCounters (allocated c) (completed c) (waits c)
  (signals c) (released c) (cancelled c) (wrapping_add64 (owner_reaped c) n) (stale_rejections c).
Definition add_stale (c : Counters) := mkCounters (allocated c) (completed c) (waits c)
  (signals c) (released c) (cancelled c) (owner_reaped c) (inc (stale_rejections c)).

(** ** The operations *)

Definition allocate_current (cur : option Z) (c : AsyncClass) (x : Sys) : Sys * result Handle Error :=
  match cur with
  | None => (x, Err NoCurrentTask)
  | Some own =>
      match allocate (slots x) own c with
      | None => (x, Err Full)
      | Some (ss, h) =>
          (count_with add_allocated (mkSys ss (ports x) (counters x) (signalled x)), Ok h)
      end
  end.

(** The guard most entry points share: a live handle owned by the current task. A
    stale handle is counted. *)
Definition with_owned {A} (cur : option Z) (h : Handle) (x : Sys)
    (k : Slot → Sys * result A Error) : Sys * result A Error :=
  match cur with
  | None => (x, Err NoCurrentTask)
  | Some own =>
      match get_mut (slots x) h with
      | None => (count_with add_stale x, Err InvalidHandle)
      | Some s => if negb (owner s =? own) then (x, Err NotOwner) else k s
      end
  end.

Definition class_current (cur : option Z) (h : Handle) (x : Sys) : Sys * result AsyncClass Error :=
  with_owned cur h x (λ s, (x, Ok (class s))).

Definition set_complete (c : Completion) (s : Slot) : Slot :=
  mkSlot (generation s) Complete (class s) (owner s) (waiting s) c (port s).
Definition set_waiting (s : Slot) : Slot :=
  mkSlot (generation s) (state s) (class s) (owner s) true (completion s) (port s).
Definition set_port (p : Z) (s : Slot) : Slot :=
  mkSlot (generation s) (state s) (class s) (owner s) (waiting s) (completion s) (Some p).

(** [slot.port.map(|port| completion_port::publish(port, ...))]: the new port table
    and the waiters to notify. *)
Definition publish_opt (t : list Port.Port) (p : option Z) (h : Handle) (c : AsyncClass)
    (flags st v : Z) : list Port.Port * list Z :=
  match p with
  | None => (t, [])
  | Some p =>
      let '(t, w) := Port.publish t p (to_raw h) (class_u32 c) flags st v in (t, Port.notify w)
  end.

Definition complete (h : Handle) (c : Completion) (x : Sys) : Sys * result () Error :=
  match get_mut (slots x) h with
  | None => (count_with add_stale x, Err InvalidHandle)
  | Some s =>
      if bool_decide (state s = Complete) then (x, Err AlreadyComplete)
      else
        let x := set_slot h (set_complete c s) x in
        let '(t, wake) := publish_opt (ports x) (port s) h (class s) 0 (status c) (value c) in
        let x := count_with add_completed (set_ports t x) in
        let x := if waiting s then signal [owner s] (count_with add_signals x) else x in
        (signal wake x, Ok ())
  end.

Definition associate_current (cur : option Z) (process : Z) (h : Handle) (p cookie : Z) (x : Sys)
    : Sys * result () Error :=
  match cur with
  | None => (x, Err NoCurrentTask)
  | Some own =>
      match get_mut (slots x) h with
      | None => (x, Err InvalidHandle)
      | Some s =>
          if negb (owner s =? own) then (x, Err NotOwner)
          else if bool_decide (is_Some (port s)) then (x, Err AlreadyAssociated)
          else
            match Port.reserve (ports x) process p (to_raw h) cookie with
            | (_, Err _) => (x, Err Full)
            | (t, Ok _) =>
                let x := set_ports t (set_slot h (set_port p s) x) in
                if bool_decide (state s = Complete) then
                  let '(t, wake) := publish_opt t (Some p) h (class s) 0
                    (status (completion s)) (value (completion s)) in
                  (signal wake (set_ports t x), Ok ())
                else (x, Ok ())
            end
      end
  end.

Definition complete_current_service (cur : option Z) (h : Handle) (c : Completion) (x : Sys)
    : Sys * result () Error :=
  with_owned cur h x (λ s,
    if negb (bool_decide (class s = Service)) then (x, Err WrongClass) else complete h c x).

Definition peek_current (cur : option Z) (h : Handle) (x : Sys)
    : Sys * result (option Completion) Error :=
  with_owned cur h x (λ s,
    (x, Ok (if bool_decide (state s = Complete) then Some (completion s) else None))).

(** One turn of the loop of [wait_ready]: [Ok (Some c)] returns [c]; [Ok None] has
    registered the wait and goes on to [task::wait_for_event]. *)
Definition wait_ready_turn (cur : option Z) (h : Handle) (x : Sys)
    : Sys * result (option Completion) Error :=
  with_owned cur h x (λ s,
    if bool_decide (state s = Complete) then (x, Ok (Some (completion s)))
    else (count_with add_waits (set_slot h (set_waiting s) x), Ok None)).

(** The common tail of [release_current] and [cancel_current]. *)
Definition withdraw (h : Handle) (s : Slot) (x : Sys) : Sys :=
  let '(t, wake) :=
    if bool_decide (state s = Pending)
    then publish_opt (ports x) (port s) h (class s) Queue.CANCELLED (-2) 0
    else (ports x, []) in
  signal wake (set_slot h (slot_release s) (set_ports t x)).

Definition release_current (cur : option Z) (h : Handle) (x : Sys) : Sys * result () Error :=
  with_owned cur h x (λ s, (count_with (add_released 1) (withdraw h s x), Ok ())).

Definition cancel_current (cur : option Z) (h : Handle) (x : Sys) : Sys * result () Error :=
  with_owned cur h x (λ s,
    (count_with (add_released 1) (count_with add_cancelled (withdraw h s x)), Ok ())).

(** [wait] when the completion is already there: the loop returns in its first turn. *)
Definition wait_complete (cur : option Z) (h : Handle) (x : Sys)
    : Sys * result (option Completion) Error :=
  match wait_ready_turn cur h x with
  | (x, Ok (Some c)) =>
      match release_current cur h x with
      | (x, Ok _) => (x, Ok (Some c))
      | (x, Err e) => (x, Err e)
      end
  | (x, r) => (x, r)
  end.

(** The sweep of [release_owner] over the slots from index [i] on. *)
Fixpoint reap (own : Z) (i : nat) (ss : list Slot) (t : list Port.Port)
    : list Slot * list Port.Port * nat :=
  match ss with
  | [] => ([], t, O)
  | s :: ss =>
      if negb (is_free s) && (owner s =? own) then
        let t := match port s with
                 | Some p => Port.abandon t p (to_raw (mkHandle i (generation s)))
                 | None => t
                 end in
        let '(ss, t, n) := reap own (S i) ss t in (slot_release s :: ss, t, S n)
      else
        let '(ss, t, n) := reap own (S i) ss t in (s :: ss, t, n)
  end.

Definition release_owner (own : Z) (x : Sys) : Sys * nat :=
  let '(ss, t, n) := reap own 0 (slots x) (ports x) in
  let x := mkSys ss t (counters x) (signalled x) in
  (if (n =? 0)%nat then x
   else count_with (add_released (Z.of_nat n)) (count_with (add_reaped (Z.of_nat n)) x), n).

(** ** The boot-time structural probe *)

Definition probe_class (cur : option Z) (first_stale : option Handle) (index : nat) (c : AsyncClass)
    (x : Sys) : Sys * option (option Handle) :=
  match allocate_current cur c x with
  | (x, Err _) => (x, None)
  | (x, Ok h) =>
      if negb (bool_decide (from_raw (to_raw h) = Some h)) then (x, None)
      else
        let first_stale := match first_stale with None => Some h | s => s end in
        let '(x, r1) := class_current cur h x in
        if negb (bool_decide (r1 = Ok c)) then (x, None) else
        let '(x, r2) := peek_current cur h x in
        if negb (bool_decide (r2 = Ok None)) then (x, None) else
        let comp := completion_new (Z.of_nat index) (4128 + Z.of_nat index) in
        let '(x, r3) := complete h comp x in
        if negb (is_ok r3) then (x, None) else
        let '(x, r4) := peek_current cur h x in
        if negb (bool_decide (r4 = Ok (Some comp))) then (x, None) else
        let '(x, r5) := wait_complete cur h x in
        if negb (bool_decide (r5 = Ok (Some comp))) then (x, None) else (x, Some first_stale)
  end.

Fixpoint probe_classes (cur : option Z) (first_stale : option Handle) (index : nat)
    (cs : list AsyncClass) (x : Sys) : Sys * option (option Handle) :=
  match cs with
  | [] => (x, Some first_stale)
  | c :: cs =>
      match probe_class cur first_stale index c x with
      | (x, None) => (x, None)
      | (x, Some first_stale) => probe_classes cur first_stale (S index) cs x
      end
  end.

Definition structural_self_test (cur : option Z) (x : Sys) : Sys * bool :=
  let before := counters x in
  let before_active := active_count (slots x) in
  match probe_classes cur None 0 [Block; Network; Device; Service; File] x with
  | (x, Some (Some stale)) =>
      let '(x, r) := wait_complete cur stale x in
      if negb (bool_decide (r = Err InvalidHandle)) then (x, false)
      else
        match allocate_current cur Service x with
        | (x, Err _) => (x, false)
        | (x, Ok h) =>
            let '(x, r1) := cancel_current cur h x in
            if negb (is_ok r1) then (x, false) else
            let '(x, r2) := peek_current cur h x in
            if negb (bool_decide (r2 = Err InvalidHandle)) then (x, false) else
            let after := counters x in
            (x, (allocated before + 6 <=? allocated after)
                && (completed before + 5 <=? completed after)
                && (released before + 5 <=? released after)
                && (cancelled before <? cancelled after)
                && (stale_rejections before + 2 <=? stale_rejections after)
                && (active_count (slots x) =? before_active)%nat)
        end
  | (x, _) => (x, false)
  end.

End Op.

(** ** Proofs *)
Module OpProofs.
Import Op.

(** ** Raw handles *)

Definition handle_ok (h : Handle) : Prop :=
  (h_slot h < MAX_ASYNC_OPERATIONS)%nat ∧ 1 ≤ h_generation h ≤ u32_max.

Lemma to_raw_eq h :
  (h_slot h < MAX_ASYNC_OPERATIONS)%nat → in_u32 (h_generation h) →
  to_raw h = h_generation h * 2 ^ 32 + Z.of_nat (h_slot h).
Proof.
  unfold MAX_ASYNC_OPERATIONS. intros Hs Hg. unfold to_raw. rewrite Z.shiftl_mul_pow2 by lia.
  apply (lor_disjoint_add _ _ 32); [lia|lia|]. apply Z.mod_mul. lia.
Qed.

Lemma from_raw_eq raw :
  in_u64 raw →
  from_raw raw =
    if negb ((raw / 2 ^ 16) mod 2 ^ 16 =? 0) then None
    else if (raw / 2 ^ 32 =? 0) || (MAX_ASYNC_OPERATIONS <=? Z.to_nat (raw mod 2 ^ 16))%nat then None
    else Some (mkHandle (Z.to_nat (raw mod 2 ^ 16)) (raw / 2 ^ 32)).
Proof.
  unfold in_u64, u64_max. intros Hr. unfold from_raw.
  change 4294901760 with ((2 ^ 16 - 1) * 2 ^ 16). rewrite land_field by lia.
  change 65535 with (2 ^ 16 - 1). rewrite land_low by lia. rewrite Z.shiftr_div_pow2 by lia.
  assert (0 ≤ raw / 2 ^ 32 < 2 ^ 32) by (split; [apply Z.div_pos|apply Z.div_lt_upper_bound]; lia).
  unfold as_u32, u32_max. rewrite (Z.mod_small (raw / 2 ^ 32)) by lia.
  replace ((raw / 2 ^ 16) mod 2 ^ 16 * 2 ^ 16 =? 0) with ((raw / 2 ^ 16) mod 2 ^ 16 =? 0); [done|].
  pose proof (Z.mod_pos_bound (raw / 2 ^ 16) (2 ^ 16) ltac:(lia)). apply Bool.eq_iff_eq_true.
  rewrite !Z.eqb_eq. lia.
Qed.

(** The raw handle of the system-call interface is a bijection between the
    handles that can be live (slot below 32, generation from 1 to 2^32-1) and the
    64-bit words [from_raw] accepts: both round trips hold. *)
Theorem raw_handle_roundtrip (h : Handle) (raw : Z) :
  (handle_ok h → from_raw (to_raw h) = Some h ∧ in_u64 (to_raw h)) ∧
  (in_u64 raw → from_raw raw = Some h → to_raw h = raw ∧ handle_ok h).
Proof.
  split.
  - intros [Hs Hg]. rewrite to_raw_eq by (done || unfold in_u32; lia).
    unfold MAX_ASYNC_OPERATIONS, u32_max in *. destruct h as [i g]; cbn in *.
    assert (Hu : in_u64 (g * 2 ^ 32 + Z.of_nat i)) by (unfold in_u64, u64_max; lia).
    split; [|done]. rewrite from_raw_eq by done.
    replace ((g * 2 ^ 32 + Z.of_nat i) / 2 ^ 16) with (g * 2 ^ 16)
      by (apply (Z.div_unique _ _ _ (Z.of_nat i)); lia).
    replace ((g * 2 ^ 32 + Z.of_nat i) / 2 ^ 32) with g
      by (apply (Z.div_unique _ _ _ (Z.of_nat i)); lia).
    replace ((g * 2 ^ 32 + Z.of_nat i) mod 2 ^ 16) with (Z.of_nat i)
      by (apply (Z.mod_unique _ _ (g * 2 ^ 16)); lia).
    rewrite Z.mod_mul, Nat2Z.id by lia. cbn [Z.eqb negb].
    rewrite (proj2 (Z.eqb_neq g 0)), (proj2 (Nat.leb_gt _ _)) by (unfold MAX_ASYNC_OPERATIONS; lia).
    done.
  - intros Hu. rewrite from_raw_eq by done. unfold in_u64, u64_max in Hu.
    destruct (Z.eqb_spec ((raw / 2 ^ 16) mod 2 ^ 16) 0) as [H16|]; [|done]. cbn [negb].
    destruct (Z.eqb_spec (raw / 2 ^ 32) 0) as [|Hg]; [done|]. cbn [orb].
    destruct (Nat.leb_spec MAX_ASYNC_OPERATIONS (Z.to_nat (raw mod 2 ^ 16))) as [|Hs]; [done|].
    intros [= <-]. pose proof (Z.mod_pos_bound raw (2 ^ 16) ltac:(lia)).
    pose proof (Z.div_mod raw (2 ^ 16) ltac:(lia)). pose proof (Z.div_mod (raw / 2 ^ 16) (2 ^ 16) ltac:(lia)).
    rewrite Z.div_div in * by lia. change (2 ^ 16 * 2 ^ 16) with (2 ^ 32) in *.
    assert (0 ≤ raw / 2 ^ 32 < 2 ^ 32) by (split; [apply Z.div_pos|apply Z.div_lt_upper_bound]; lia).
    rewrite to_raw_eq; cbn [h_slot h_generation]; [|done|unfold in_u32, u32_max; lia].
    split; [lia|]. split; cbn; [done|unfold u32_max; lia].
Qed.

Lemma to_raw_inj h h' :
  (h_slot h < MAX_ASYNC_OPERATIONS)%nat → (h_slot h' < MAX_ASYNC_OPERATIONS)%nat →
  in_u32 (h_generation h) → in_u32 (h_generation h') → to_raw h = to_raw h' → h = h'.
Proof.
  intros Hs Hs' Hg Hg'. rewrite !to_raw_eq by done. unfold MAX_ASYNC_OPERATIONS in *.
  destruct h as [i g], h' as [j k]; cbn in *. intros H.
  assert (g = k) as -> by (unfold in_u32, u32_max in *; nia). f_equal. lia.
Qed.

Lemma raw_handle_roundtrip_witness :
  from_raw 21474836487 = Some (mkHandle 7 5) ∧ to_raw (mkHandle 7 5) = 21474836487.
Proof.
  split; [reflexivity|].
  apply (raw_handle_roundtrip (mkHandle 7 5) 21474836487); [unfold in_u64, u64_max; lia|reflexivity].
Defined.

(** ** The cross-component invariant *)
Import QueueSpec PortProofs.

Notation pend q := (Queue.pending (Port.queue q)) (only parsing).

Definition raw_of (i : nat) (s : Slot) : Z := to_raw (mkHandle i (generation s)).

(** The port named by an association: still open, or closed for good. *)
Definition open_or_spent (t : list Port.Port) (p : Z) : Prop :=
  in_u64 p ∧ ∃ k q, Port.index p = Ok k ∧ t !! k = Some q ∧
    (Port.matches q p = true ∨ spent p q).

(** Operations and ports agree: a pending operation associated with an open port
    holds a reservation there, and every reservation belongs to such an operation. *)
Record wf_tables (ss : list Slot) (t : list Port.Port) : Prop := {
  w_len : length ss = MAX_ASYNC_OPERATIONS;
  w_gen : ∀ i s, ss !! i = Some s → in_u32 (generation s) ∧ (state s ≠ Free → 1 ≤ generation s);
  w_free : ∀ i s, ss !! i = Some s → state s = Free → waiting s = false ∧ port s = None;
  w_ports : PortProofs.wf t;
  w_assoc : ∀ i s p, ss !! i = Some s → port s = Some p → open_or_spent t p;
  w_reserved : ∀ i s p k q, ss !! i = Some s → state s = Pending → port s = Some p →
    t !! k = Some q → names p k q → is_Some (pend q !! raw_of i s);
  w_backed : ∀ k q op, t !! k = Some q → is_Some (pend q !! op) →
    ∃ i s p, ss !! i = Some s ∧ state s = Pending ∧ port s = Some p ∧ names p k q ∧ op = raw_of i s
}.

Record wf (x : Sys) : Prop := {
  w_tables : wf_tables (slots x) (ports x);
  w_balance : allocated (counters x) =
    wrap64 (released (counters x) + Z.of_nat (active_count (slots x)))
}.

Lemma get_mut_Some ss h s :
  get_mut ss h = Some s →
  ss !! h_slot h = Some s ∧ state s ≠ Free ∧ generation s = h_generation h ∧
  to_raw h = raw_of (h_slot h) s.
Proof.
  unfold get_mut. destruct (ss !! h_slot h) as [s'|] eqn:E; [|done]. cbn [mbind option_bind].
  destruct (_ && _) eqn:G; [|done]. intros [= <-]. apply andb_true_iff in G as [Hf Hg%Z.eqb_eq].
  unfold is_free in Hf. apply negb_true_iff, bool_decide_eq_false in Hf.
  split_and!; try done. unfold raw_of. rewrite Hg. by destruct h.
Qed.

(** ** The reservations of a queue *)

Lemma reserve_pending q o c q' :
  Queue.wf q → Queue.reserve q o c = (q', true) →
  Queue.pending q' = <[o := c]> (Queue.pending q) ∧ Queue.pending q !! o = None.
Proof.
  intros Hwf E. destruct (reserve_sim _ _ _ _ _ Hwf E) as [_ Hs]. unfold spec_reserve in Hs.
  destruct (present (abs q) o || _) eqn:P; [done|].
  apply (f_equal (λ x, QueueSpec.reserved x.1)) in Hs. cbn in Hs. split; [done|].
  apply orb_false_iff in P as [P _]. unfold present in P. apply orb_false_iff in P as [P _].
  apply bool_decide_eq_false in P. cbn in P. by apply eq_None_not_Some.
Qed.

Lemma publish_pending q o c f st v q' b :
  Queue.wf q → Queue.publish q o c f st v = (q', b) →
  Queue.pending q' = delete o (Queue.pending q).
Proof.
  intros Hwf E. destruct (publish_sim _ _ _ _ _ _ _ _ Hwf E) as [_ Hs]. unfold spec_publish in Hs.
  cbn in Hs. destruct (Queue.pending q !! o) eqn:P;
    apply (f_equal (λ x, QueueSpec.reserved x.1)) in Hs; cbn in Hs; [done|].
  by rewrite <-Hs, delete_id.
Qed.

Lemma remove_pending q o :
  Queue.wf q → Queue.pending (Queue.remove q o).1 = delete o (Queue.pending q).
Proof.
  intros Hwf. destruct (Queue.remove q o) as [q' b] eqn:E. cbn [fst].
  destruct (remove_sim _ _ _ _ Hwf E) as [_ Hs]. unfold spec_remove in Hs.
  destruct (present (abs q) o) eqn:P;
    apply (f_equal (λ x, QueueSpec.reserved x.1)) in Hs; cbn in Hs; [done|].
  rewrite <-Hs, delete_id; [done|]. apply orb_false_iff in P as [P _].
  apply bool_decide_eq_false in P. by apply eq_None_not_Some.
Qed.

Lemma pending_ready_disjoint q o :
  Queue.wf q → o ∈ Queue.operation <$> Queue.fifo q → Queue.pending q !! o = None.
Proof.
  intros [_ Hw] Ho. apply eq_None_not_Some. intros [ck Hck].
  apply elem_of_list_to_map_2 in Hck.
  apply list_elem_of_fmap in Ho as (ev & -> & Ho). apply list_elem_of_fmap in Ho as (p & -> & Ho).
  rewrite sort_by_key_perm in Ho. apply Queue.elem_of_pubs in Ho as (e & He & Hs & Hev).
  apply list_elem_of_omap in Hck as (e' & He' & Hp). unfold Queue.pend_of in Hp.
  destruct (Queue.sequence e') eqn:Hs'; [done|]. injection Hp as Hop _.
  assert (e = e'); [|congruence].
  eapply NoDup_fmap_elem; [apply (Queue.wf_ops _ _ Hw)|done..|]. cbn. by rewrite Hop, Hev.
Qed.

Lemma remove_all_pending q es :
  Queue.wf q → (∀ e, e ∈ es → Queue.pending q !! Queue.operation e = None) →
  Queue.pending (Port.remove_all q es) = Queue.pending q.
Proof.
  revert q. induction es as [|e es IH]; intros q Hwf Hes; [done|].
  unfold Port.remove_all. cbn [foldl]. fold (Port.remove_all (Queue.remove q (Queue.operation e)).1 es).
  assert (Heq : Queue.pending (Queue.remove q (Queue.operation e)).1 = Queue.pending q).
  { rewrite remove_pending, delete_id; [done|apply Hes; set_solver|done]. }
  rewrite IH, Heq; [done|by apply remove_fifo|]. intros e' He'. rewrite Heq. apply Hes. set_solver.
Qed.

(** ** How port calls act on reservations *)

(** Publishing or abandoning [raw] can only drop the reservation of [raw]; on the
    port named by [must] it does drop it. *)
Definition settled (t t' : list Port.Port) (raw : Z) (must : option Z) : Prop :=
  PortProofs.wf t' ∧
  ∀ k q, t !! k = Some q → ∃ q', t' !! k = Some q' ∧
    Port.generation q' = Port.generation q ∧ Port.owner q' = Port.owner q ∧
    (pend q' = pend q ∨ pend q' = delete raw (pend q)) ∧
    ∀ p, must = Some p → names p k q → pend q' = delete raw (pend q).

Lemma settled_refl t raw : PortProofs.wf t → settled t t raw None.
Proof. intros H. split; [done|]. intros k q Hq. exists q. naive_solver. Qed.

Lemma publish_names t p raw c f st v k q :
  t !! k = Some q → names p k q →
  ∃ q', (Port.publish t p raw c f st v).1 !! k = Some q' ∧
    Port.queue q' = (Queue.publish (Port.queue q) raw c f st v).1.
Proof.
  intros Hq [Hi Hm]. unfold Port.publish, Port.port_at. rewrite Hi, Hq. cbn. rewrite Hm. cbn.
  destruct (Queue.publish _ _ _ _ _ _) as [q2 []]; cbn;
    rewrite list_lookup_insert_eq by eauto using lookup_lt_Some; eauto.
Qed.

Lemma publish_settled t p raw c f st v :
  PortProofs.wf t → settled t (Port.publish t p raw c f st v).1 raw (Some p).
Proof.
  intros Hwf. split; [apply (run_wf t (PortProofs.Publish p raw c f st v) Hwf)|].
  intros k q Hq. pose proof (wp_queue _ (wf_ports _ Hwf _ _ Hq)) as Hw.
  destruct (run_change t (PortProofs.Publish p raw c f st v) k q Hq) as (q' & Hq' & Hc).
  cbn [run] in Hq'. exists q'. split; [done|].
  assert (Hn : names p k q → pend q' = delete raw (pend q)).
  { intros Hn. destruct (publish_names t p raw c f st v k q Hq Hn) as (q2 & Hq2 & Hqq).
    replace q' with q2 by congruence. rewrite Hqq.
    destruct (Queue.publish (Port.queue q) raw c f st v) eqn:E. by eapply publish_pending. }
  inversion Hc; subst; cbn in *; split_and!; try done; auto; try (intros ? [= <-]; done).
Qed.

Lemma abandon_settled t p raw :
  PortProofs.wf t → settled t (Port.abandon t p raw) raw (Some p).
Proof.
  intros Hwf. split; [apply (run_wf t (PortProofs.Abandon p raw) Hwf)|].
  intros k q Hq. pose proof (wp_queue _ (wf_ports _ Hwf _ _ Hq)) as Hw.
  destruct (run_change t (PortProofs.Abandon p raw) k q Hq) as (q' & Hq' & Hc).
  cbn [run] in Hq'. exists q'. split; [done|].
  assert (Hn : names p k q → pend q' = delete raw (pend q)).
  { intros [Hi Hm]. unfold Port.abandon, Port.port_at in Hq'. rewrite Hi, Hq in Hq'. cbn in Hq'.
    rewrite Hm, list_lookup_insert_eq in Hq' by eauto using lookup_lt_Some. injection Hq' as <-.
    by apply remove_pending. }
  inversion Hc; subst; cbn in *; split_and!; try done; auto; try (intros ? [= <-]; done).
Qed.

Lemma names_same p k q q' :
  Port.generation q' = Port.generation q → Port.owner q' = Port.owner q →
  names p k q' ↔ names p k q.
Proof. intros Hg Ho. unfold names, Port.matches. by rewrite Hg, Ho. Qed.

Lemma spent_same p q q' :
  Port.generation q' = Port.generation q → Port.owner q' = Port.owner q → spent p q → spent p q'.
Proof. intros Hg Ho. unfold spent. by rewrite Hg, Ho. Qed.

Lemma settled_open t t' raw must p :
  settled t t' raw must → open_or_spent t p → open_or_spent t' p.
Proof.
  intros [_ Hs] (Hu & k & q & Hi & Hq & H). split; [done|].
  destruct (Hs k q Hq) as (q' & Hq' & Hg & Ho & _). exists k, q'. split_and!; try done.
  destruct H as [H|H]; [left|right; by eapply spent_same].
  by apply (names_same p k q q' Hg Ho).
Qed.

Lemma settled_inv t t' raw must k q' :
  length t' = length t → settled t t' raw must → t' !! k = Some q' →
  ∃ q, t !! k = Some q ∧ Port.generation q' = Port.generation q ∧ Port.owner q' = Port.owner q ∧
    (pend q' = pend q ∨ pend q' = delete raw (pend q)) ∧
    ∀ p, must = Some p → names p k q → pend q' = delete raw (pend q).
Proof.
  intros Hl [_ Hs] Hq'. destruct (lookup_lt_is_Some_2 t k) as [q Hq].
  { rewrite <-Hl. by eapply lookup_lt_Some. }
  destruct (Hs k q Hq) as (q2 & Hq2 & H). exists q. split; [done|]. by replace q' with q2 by congruence.
Qed.

Section tables.
Context (ss : list Slot) (t : list Port.Port) (Hwf : wf_tables ss t).

Lemma raw_of_inj i j s s' :
  ss !! i = Some s → ss !! j = Some s' → raw_of i s = raw_of j s' → i = j.
Proof.
  intros Hi Hj H. apply to_raw_inj in H; [by injection H| | |..]; cbn.
  - apply lookup_lt_Some in Hi. by rewrite (w_len _ _ Hwf) in Hi.
  - apply lookup_lt_Some in Hj. by rewrite (w_len _ _ Hwf) in Hj.
  - by apply (w_gen _ _ Hwf _ _ Hi).
  - by apply (w_gen _ _ Hwf _ _ Hj).
Qed.

(** Replacing one live slot by a settled one while its reservation is dropped. *)
Lemma settle_wf i s s' t' :
  ss !! i = Some s → state s ≠ Free → generation s' = generation s → state s' ≠ Pending →
  (port s' = port s ∨ port s' = None) →
  (state s' = Free → waiting s' = false ∧ port s' = None) →
  length t' = length t →
  settled t t' (raw_of i s) (if bool_decide (state s = Pending) then port s else None) →
  wf_tables (<[i := s']> ss) t'.
Proof.
  intros Hi Hlive Hg Hst Hport Hfree Hlen Hset.
  assert (Hlook : ∀ j x, <[i:=s']> ss !! j = Some x →
    (j = i ∧ x = s') ∨ (j ≠ i ∧ ss !! j = Some x)).
  { intros j x. destruct (decide (j = i)) as [->|Hne].
    - rewrite list_lookup_insert_eq by eauto using lookup_lt_Some. intros [= <-]. auto.
    - rewrite list_lookup_insert_ne by done. auto. }
  split.
  - rewrite length_insert. apply Hwf.
  - intros j x [[-> ->]|[_ Hj]]%Hlook; [|by apply (w_gen _ _ Hwf j)].
    rewrite Hg. destruct (w_gen _ _ Hwf _ _ Hi) as [Hr Hp]. split; [done|]. intros _. by apply Hp.
  - intros j x [[-> ->]|[_ Hj]]%Hlook; [done|by apply (w_free _ _ Hwf j)].
  - apply Hset.
  - intros j x p [[-> ->]|[_ Hj]]%Hlook Hp; eapply settled_open; try exact Hset.
    + eapply (w_assoc _ _ Hwf i s); [done|]. destruct Hport; congruence.
    + by eapply (w_assoc _ _ Hwf j x).
  - intros j x p k q' [[-> ->]|[Hne Hj]]%Hlook Hpend Hp Hq' Hn; [done|].
    destruct (settled_inv _ _ _ _ _ _ Hlen Hset Hq') as (q & Hq & Hgq & Ho & Hd & _).
    apply (names_same p k q q' Hgq Ho) in Hn.
    destruct (w_reserved _ _ Hwf j x p k q Hj Hpend Hp Hq Hn) as [ck Hck]. exists ck.
    destruct Hd as [->| ->]; [done|]. rewrite lookup_delete_ne; [done|].
    intros Heq. by apply Hne, (raw_of_inj _ _ _ _ Hj Hi).
  - intros k q' op Hq' Hop.
    destruct (settled_inv _ _ _ _ _ _ Hlen Hset Hq') as (q & Hq & Hgq & Ho & Hd & Hmust).
    assert (Hop' : is_Some (pend q !! op)).
    { destruct Hd as [Hd|Hd]; rewrite Hd in Hop; [done|].
      destruct Hop as [ck Hck]. apply lookup_delete_Some in Hck as [_ ?]. eauto. }
    destruct (w_backed _ _ Hwf k q op Hq Hop') as (j & x & p & Hj & Hx & Hp & Hn & ->).
    exists j, x, p. split_and!; try done; [|by apply (names_same p k q q' Hgq Ho)].
    rewrite list_lookup_insert_ne; [done|]. intros ->. replace x with s in * by congruence.
    rewrite bool_decide_eq_true_2 in Hmust by done. rewrite (Hmust p Hp Hn), lookup_delete_eq in Hop.
    by destruct Hop.
Qed.

(** Replacing a slot by one with the same generation, state and association. *)
Lemma retouch_wf i s s' :
  ss !! i = Some s → state s ≠ Free → generation s' = generation s → state s' = state s →
  port s' = port s → wf_tables (<[i := s']> ss) t.
Proof.
  intros Hi Hlive Hg Hst Hport.
  assert (Hlook : ∀ j x, <[i:=s']> ss !! j = Some x →
    ∃ y, ss !! j = Some y ∧ generation x = generation y ∧ state x = state y ∧ port x = port y ∧
      (state x = Free → x = y)).
  { intros j x. destruct (decide (j = i)) as [->|Hne].
    - rewrite list_lookup_insert_eq by eauto using lookup_lt_Some. intros [= <-].
      exists s. split_and!; try done. congruence.
    - rewrite list_lookup_insert_ne by done. intros Hj. by exists x. }
  split.
  - rewrite length_insert. apply Hwf.
  - intros j x (y & Hy & -> & -> & _)%Hlook. by apply (w_gen _ _ Hwf j).
  - intros j x (y & Hy & _ & _ & _ & Hf)%Hlook Hx. pose proof (Hf Hx) as <-.
    by apply (w_free _ _ Hwf j).
  - apply Hwf.
  - intros j x p (y & Hy & _ & _ & -> & _)%Hlook. by apply (w_assoc _ _ Hwf j).
  - intros j x p k q (y & Hy & Hgy & -> & -> & _)%Hlook Hp Ho Hq Hn. unfold raw_of. rewrite Hgy.
    by apply (w_reserved _ _ Hwf j y p k q).
  - intros k q op Hq Hop.
    destruct (w_backed _ _ Hwf k q op Hq Hop) as (j & x & p & Hj & Hx & Hp & Hn & ->).
    destruct (decide (j = i)) as [->|Hne].
    + replace x with s in * by congruence. exists i, s', p.
      rewrite list_lookup_insert_eq by eauto using lookup_lt_Some. unfold raw_of. rewrite Hg.
      split_and!; congruence || done.
    + exists j, x, p. rewrite list_lookup_insert_ne by done. done.
Qed.

Lemma allocate_wf own c ss' h :
  allocate ss own c = Some (ss', h) → wf_tables ss' t.
Proof.
  unfold allocate. destruct (position _ ss) as [i|] eqn:E; [|done].
  apply position_lookup in E as (s & Hi & G). cbn [mbind option_bind]. rewrite Hi.
  cbn [mbind option_bind]. intros [= <- _]. apply andb_true_iff in G as [Hf Hg].
  unfold is_free in Hf. apply bool_decide_eq_true in Hf. apply negb_true_iff, Z.eqb_neq in Hg.
  destruct (w_free _ _ Hwf _ _ Hi Hf) as [_ Hp]. destruct (w_gen _ _ Hwf _ _ Hi) as [Hr _].
  set (s' := mkSlot _ _ _ _ _ _ _).
  assert (Hlook : ∀ j x, <[i:=s']> ss !! j = Some x →
    (j = i ∧ x = s') ∨ (j ≠ i ∧ ss !! j = Some x)).
  { intros j x. destruct (decide (j = i)) as [->|Hne].
    - rewrite list_lookup_insert_eq by eauto using lookup_lt_Some. intros [= <-]. auto.
    - rewrite list_lookup_insert_ne by done. auto. }
  split.
  - rewrite length_insert. apply Hwf.
  - intros j x [[-> ->]|[_ Hj]]%Hlook; [|by apply (w_gen _ _ Hwf j)].
    unfold in_u32 in *. cbn. split; [lia|]. intros _. lia.
  - intros j x [[-> ->]|[_ Hj]]%Hlook; [done|by apply (w_free _ _ Hwf j)].
  - apply Hwf.
  - intros j x p [[-> ->]|[_ Hj]]%Hlook; [cbn; congruence|by apply (w_assoc _ _ Hwf j)].
  - intros j x p k q [[-> ->]|[_ Hj]]%Hlook; [cbn; congruence|by apply (w_reserved _ _ Hwf j)].
  - intros k q op Hq Hop.
    destruct (w_backed _ _ Hwf k q op Hq Hop) as (j & x & p & Hj & Hx & H).
    exists j, x, p. rewrite list_lookup_insert_ne; [done|]. intros ->. congruence.
Qed.

(** Changing the ports without touching the reservations of open ports. *)
Lemma ports_wf t' :
  length t' = length t → PortProofs.wf t' →
  (∀ k q, t !! k = Some q → ∃ q', t' !! k = Some q' ∧
    (Port.generation q' = Port.generation q ∧ Port.owner q' = Port.owner q ∧ pend q' = pend q ∨
     pend q' = ∅ ∧ ∀ p, Port.index p = Ok k → Port.matches q p = true ∨ spent p q → spent p q')) →
  wf_tables ss t'.
Proof.
  intros Hlen Hwf' H. split; try apply Hwf; [done|..].
  - intros i s p Hi Hp. destruct (w_assoc _ _ Hwf i s p Hi Hp) as (Hu & k & q & Hx & Hq & Hos).
    split; [done|]. destruct (H k q Hq) as (q' & Hq' & Hc). exists k, q'. split_and!; try done.
    destruct Hc as [(Hg & Ho & _)|[_ Hs]]; [|right; by apply Hs].
    destruct Hos as [Hm|Hs]; [left; by apply (names_same p k q q' Hg Ho)|right; by eapply spent_same].
  - intros i s p k q' Hi Hs Hp Hq' Hn.
    destruct (w_assoc _ _ Hwf i s p Hi Hp) as (Hu & k' & q & Hx & Hq & Hos).
    assert (k' = k) as -> by (destruct Hn; congruence).
    destruct (H k q Hq) as (q2 & Hq2 & Hc). replace q2 with q' in * by congruence.
    destruct Hc as [(Hg & Ho & ->)|[_ Hsp]].
    + apply (w_reserved _ _ Hwf i s p k q); try done. by apply (names_same p k q q' Hg Ho).
    + exfalso. specialize (Hsp p Hx Hos). destruct Hn as [_ Hm].
      pose proof (spent_invalid t' p k q' Hx Hq' Hsp) as Hv.
      unfold valid, Port.port_at in Hv. rewrite Hx, Hq' in Hv. cbn in Hv. congruence.
  - intros k q' op Hq' Hop. destruct (lookup_lt_is_Some_2 t k) as [q Hq].
    { rewrite <-Hlen. by eapply lookup_lt_Some. }
    destruct (H k q Hq) as (q2 & Hq2 & Hc). replace q2 with q' in * by congruence.
    destruct Hc as [(Hg & Ho & Hp)|[Hp _]]; rewrite Hp in Hop.
    + destruct (w_backed _ _ Hwf k q op Hq Hop) as (i & s & p & ? & ? & ? & Hn & ->).
      exists i, s, p. split_and!; try done. by apply (names_same p k q q' Hg Ho).
    + rewrite lookup_empty in Hop. by destruct Hop.
Qed.

Lemma lookup_update i s s' j x :
  ss !! i = Some s → <[i := s']> ss !! j = Some x →
  (j = i ∧ x = s') ∨ (j ≠ i ∧ ss !! j = Some x).
Proof.
  intros Hi. destruct (decide (j = i)) as [->|Hne].
  - rewrite list_lookup_insert_eq by eauto using lookup_lt_Some. intros [= <-]. auto.
  - rewrite list_lookup_insert_ne by done. auto.
Qed.

(** Associating an operation that is already complete needs no reservation. *)
Lemma attach_complete_wf i s p :
  ss !! i = Some s → state s = Complete → open_or_spent t p →
  wf_tables (<[i := set_port p s]> ss) t.
Proof.
  intros Hi Hc Ho. pose proof (lookup_update i s (set_port p s)) as Hlook. split.
  - rewrite length_insert. apply Hwf.
  - intros j x [[-> ->]|[_ Hj]]%Hlook; [by apply (w_gen _ _ Hwf i s)|by apply (w_gen _ _ Hwf j)|done].
  - intros j x [[-> ->]|[_ Hj]]%Hlook; [cbn; congruence|by apply (w_free _ _ Hwf j)|done].
  - apply Hwf.
  - intros j x p' [[-> ->]|[_ Hj]]%Hlook; [by intros [= <-]|by apply (w_assoc _ _ Hwf j)|done].
  - intros j x p' k q [[-> ->]|[_ Hj]]%Hlook; [cbn; congruence|by apply (w_reserved _ _ Hwf j)|done].
  - intros k q op Hq Hop.
    destruct (w_backed _ _ Hwf k q op Hq Hop) as (j & x & p' & Hj & Hx & H).
    exists j, x, p'. rewrite list_lookup_insert_ne; [done|]. intros ->. congruence.
Qed.

(** Associating a pending operation, with its reservation made. *)
Lemma attach_pending_wf i s p k q q' ck :
  ss !! i = Some s → state s = Pending → port s = None → in_u64 p →
  t !! k = Some q → names p k q →
  Port.generation q' = Port.generation q → Port.owner q' = Port.owner q →
  pend q' = <[raw_of i s := ck]> (pend q) → PortProofs.wf (<[k := q']> t) →
  wf_tables (<[i := set_port p s]> ss) (<[k := q']> t).
Proof.
  intros Hi Hs Hnone Hu Hq Hn Hg Ho Hpend Hwt.
  pose proof (lookup_update i s (set_port p s)) as Hlook.
  assert (Hk : <[k:=q']> t !! k = Some q')
    by (apply list_lookup_insert_eq; by eapply lookup_lt_Some).
  assert (Hports : ∀ k1 q1, <[k:=q']> t !! k1 = Some q1 → ∃ q0, t !! k1 = Some q0 ∧
    Port.generation q1 = Port.generation q0 ∧ Port.owner q1 = Port.owner q0 ∧
    (k1 = k ∧ q0 = q ∧ pend q1 = <[raw_of i s := ck]> (pend q) ∨ k1 ≠ k ∧ q1 = q0)).
  { intros k1 q1. destruct (decide (k1 = k)) as [->|Hne].
    - rewrite Hk. intros [= <-]. exists q. auto 10.
    - rewrite list_lookup_insert_ne by done. intros H. exists q1. auto 10. }
  split.
  - rewrite length_insert. apply Hwf.
  - intros j x [[-> ->]|[_ Hj]]%Hlook; [by apply (w_gen _ _ Hwf i s)|by apply (w_gen _ _ Hwf j)|done].
  - intros j x [[-> ->]|[_ Hj]]%Hlook; [cbn; congruence|by apply (w_free _ _ Hwf j)|done].
  - done.
  - intros j x p' [[-> ->]|[_ Hj]]%Hlook Hp; [| |done].
    + injection Hp as <-. split; [done|]. exists k, q'. destruct Hn as [Hx Hm].
      split_and!; try done. left. unfold Port.matches in *. by rewrite Hg, Ho.
    + destruct (w_assoc _ _ Hwf j x p' Hj Hp) as (Hu' & k1 & q1 & Hx1 & Hq1 & Hos).
      split; [done|]. destruct (decide (k1 = k)) as [->|Hne].
      * replace q1 with q in * by congruence. exists k, q'. split_and!; try done.
        destruct Hos as [Hm|Hsp]; [left; unfold Port.matches in *; by rewrite Hg, Ho|].
        right. by eapply spent_same.
      * exists k1, q1. rewrite list_lookup_insert_ne by done. done.
  - intros j x p' k1 q1 Hj Hx Hp Hq1 Hn1.
    apply Hports in Hq1 as (q0 & Hq0 & Hg0 & Ho0 & Hc). apply (names_same p' k1 q0 q1 Hg0 Ho0) in Hn1.
    apply Hlook in Hj as [[-> ->]|[Hne Hj]]; [| |done].
    + injection Hp as <-. change (raw_of i (set_port p s)) with (raw_of i s).
      destruct Hc as [(-> & -> & ->)|[Hk1 _]]; [rewrite lookup_insert_eq; eauto|].
      destruct Hk1. destruct Hn, Hn1. congruence.
    + pose proof (w_reserved _ _ Hwf j x p' k1 q0 Hj Hx Hp Hq0 Hn1) as Hr.
      destruct Hc as [(-> & -> & ->)|[_ ->]]; [|done].
      rewrite lookup_insert_is_Some. right. split; [|done]. intros Heq.
      apply Hne. symmetry. by apply (raw_of_inj i j s x).
  - intros k1 q1 op Hq1 Hop. apply Hports in Hq1 as (q0 & Hq0 & Hg0 & Ho0 & Hc).
    assert (Hcase : (k1 = k ∧ op = raw_of i s) ∨ is_Some (pend q0 !! op)).
    { destruct Hc as [(-> & -> & Hp)|[_ ->]]; [|by right]. rewrite Hp in Hop.
      apply lookup_insert_is_Some in Hop as [<-|[_ H]]; auto. }
    destruct Hcase as [[-> ->]|Hop'].
    + exists i, (set_port p s), p. rewrite list_lookup_insert_eq by eauto using lookup_lt_Some.
      split_and!; try done. replace q0 with q in * by congruence. by apply (names_same p k q q1).
    + destruct (w_backed _ _ Hwf k1 q0 op Hq0 Hop') as (j & x & p' & Hj & Hx & Hp & Hn' & ->).
      exists j, x, p'. rewrite list_lookup_insert_ne by (intros ->; congruence).
      split_and!; try done. by apply (names_same p' k1 q0 q1).
Qed.
End tables.

(** ** Calls made on ports by system calls and process teardown *)

Definition user_call (t : list Port.Port) (o : PortProofs.op) : Prop :=
  match o with
  | PortProofs.Create _ | PortProofs.Close _ _ | PortProofs.ReleaseOwner _
  | PortProofs.Begin _ _ _ _ _ | PortProofs.Unwatch _ _ => True
  | PortProofs.Finish own h k es _ => claimed t own h k es
  | _ => False
  end.

Lemma cleared_spent p k q :
  Port.index p = Ok k → Port.matches q p = true ∨ spent p q → spent p (Port.clear q).
Proof.
  intros Hi [Hm|Hs].
  - right. unfold Port.matches in Hm. apply andb_true_iff in Hm as [_ Hm%Z.eqb_eq]. done.
  - destruct Hs as [Hs|[Hs _]]; [by left|by right].
Qed.

Lemma user_call_wf ss t o : wf_tables ss t → user_call t o → wf_tables ss (run t o).
Proof.
  intros Hwf Hu. pose proof (w_ports _ _ Hwf) as Hp.
  apply (ports_wf ss t Hwf); [apply run_length|by apply run_wf|]. intros k q Hq.
  destruct (run_change t o k q Hq) as (q' & Hq' & Hc). exists q'. split; [done|].
  pose proof (wf_ports _ Hp _ _ Hq) as Hwq.
  destruct Hc as [| own Ho Hg|own h Hn Ho|own Ho| | | | | | |own h j es b Hn Ho Hj|];
    try done; try (by left).
  - right. split.
    + cbn. rewrite (wp_free _ Hwq Ho). done.
    + intros p _ [Hm|Hs].
      * exfalso. unfold Port.matches in Hm. by rewrite Ho in Hm.
      * left. cbn. destruct Hs as [Hs|[-> _]]; lia.
  - right. split; [done|]. intros p Hi Hs. by eapply cleared_spent.
  - right. split; [done|]. intros p Hi Hs. by eapply cleared_spent.
  - left. split_and!; try done. cbn. destruct b; [|done].
    destruct Hu as (i & p & rest & [Hi _] & Hpi & _ & _ & Hw & Hf).
    assert (i = k) as -> by (destruct Hn; congruence). replace p with q in * by congruence.
    apply remove_all_pending; [done|]. intros e He. apply pending_ready_disjoint; [done|].
    rewrite Hf, fmap_app. apply elem_of_app. left. apply list_elem_of_fmap. eauto.
Qed.

(** ** The operations preserve the tables *)

Lemma reserve_Ok t own p raw ck t' u :
  PortProofs.wf t → Port.reserve t own p raw ck = (t', Ok u) →
  ∃ k q q', t !! k = Some q ∧ names p k q ∧ Port.owner q = Some own ∧ t' = <[k := q']> t ∧
    Port.generation q' = Port.generation q ∧ Port.owner q' = Port.owner q ∧
    pend q' = <[raw := ck]> (pend q) ∧ pend q !! raw = None ∧ PortProofs.wf t'.
Proof.
  intros Hwf Hr. pose proof (run_wf t (PortProofs.Reserve own p raw ck) Hwf) as Hwf'.
  cbn [run] in Hwf'. rewrite Hr in Hwf'. cbn [fst] in Hwf'. revert Hr.
  unfold Port.reserve. destruct (Port.port_at t p) as [[k q]|] eqn:E; [|done].
  apply port_at_Some in E as [Hx Hq].
  destruct (negb (Port.matches q p)) eqn:Hm; [done|]. apply negb_false_iff in Hm.
  destruct (negb (bool_decide (Port.owner q = Some own))) eqn:Ho; [done|].
  apply negb_false_iff, bool_decide_eq_true in Ho. cbn [orb].
  destruct (Queue.reserve (Port.queue q) raw ck) as [q2 []] eqn:R; [|done]. intros [= <- _].
  destruct (reserve_pending _ _ _ _ (wp_queue _ (wf_ports _ Hwf _ _ Hq)) R) as [Hp Hnone].
  exists k, q, (Port.set_queue q2 q). split_and!; done.
Qed.

Lemma publish_length t p raw c f st v : length (Port.publish t p raw c f st v).1 = length t.
Proof. apply (run_length t (PortProofs.Publish p raw c f st v)). Qed.

Lemma publish_opt_settled t p h c f st v :
  PortProofs.wf t →
  length (publish_opt t p h c f st v).1 = length t ∧
  settled t (publish_opt t p h c f st v).1 (to_raw h) p.
Proof.
  intros Hwf. unfold publish_opt. destruct p as [p|]; [|split; [done|by apply settled_refl]].
  pose proof (publish_length t p (to_raw h) (class_u32 c) f st v) as Hl.
  pose proof (publish_settled t p (to_raw h) (class_u32 c) f st v Hwf) as Hs.
  destruct (Port.publish _ _ _ _ _ _ _) as [t' w]. done.
Qed.

Lemma complete_wf_tables h c x :
  wf_tables (slots x) (ports x) →
  wf_tables (slots (complete h c x).1) (ports (complete h c x).1).
Proof.
  intros Hwf. unfold complete. destruct (get_mut (slots x) h) as [s|] eqn:E; [|done].
  apply get_mut_Some in E as (Hi & Hlive & Hg & Hraw).
  case_bool_decide as Hc; [done|]. cbn [ports set_slot].
  destruct (publish_opt_settled (ports x) (port s) h (class s) 0 (status c) (value c)
    (w_ports _ _ Hwf)) as [Hl Hs].
  destruct (publish_opt _ _ _ _ _ _ _) as [t wake]. cbn [fst] in Hl, Hs. rewrite Hraw in Hs.
  assert (Hpend : state s = Pending) by (by destruct (state s)).
  destruct (waiting s); cbn; (apply (settle_wf _ _ Hwf (h_slot h) s); cbn; try done; [by left|]);
    by rewrite bool_decide_eq_true_2.
Qed.

Lemma withdraw_wf_tables h s x :
  wf_tables (slots x) (ports x) → get_mut (slots x) h = Some s →
  wf_tables (slots (withdraw h s x)) (ports (withdraw h s x)).
Proof.
  intros Hwf (Hi & Hlive & Hg & Hraw)%get_mut_Some. unfold withdraw.
  destruct (publish_opt_settled (ports x) (port s) h (class s) Queue.CANCELLED (-2) 0
    (w_ports _ _ Hwf)) as [Hl Hs].
  destruct (publish_opt _ _ _ _ _ _ _) as [t wake]. cbn [fst] in Hl, Hs. rewrite Hraw in Hs.
  case_bool_decide as Hp; cbn; (apply (settle_wf _ _ Hwf (h_slot h) s); cbn; try done; [by right|]).
  - by rewrite bool_decide_eq_true_2.
  - rewrite bool_decide_eq_false_2 by done. apply settled_refl, Hwf.
Qed.

Lemma associate_wf_tables cur proc h p ck x :
  in_u64 p → wf_tables (slots x) (ports x) →
  wf_tables (slots (associate_current cur proc h p ck x).1)
            (ports (associate_current cur proc h p ck x).1).
Proof.
  intros Hu Hwf. unfold associate_current. destruct cur as [own|]; [|done].
  destruct (get_mut (slots x) h) as [s|] eqn:E; [|done].
  apply get_mut_Some in E as (Hi & Hlive & Hg & Hraw).
  destruct (negb _); [done|]. case_bool_decide as Hp; [done|].
  assert (Hnone : port s = None) by (by apply eq_None_not_Some).
  destruct (Port.reserve (ports x) proc p (to_raw h) ck) as [t' [u|]] eqn:R; [|done].
  destruct (reserve_Ok _ _ _ _ _ _ _ (w_ports _ _ Hwf) R)
    as (k & q & q' & Hq & Hn & Ho & -> & Hg' & Ho' & Hpend & Hfresh & Hwt).
  rewrite Hraw in Hpend, Hfresh. case_bool_decide as Hc.
  - destruct (publish_opt_settled (<[k:=q']> (ports x)) (Some p) h (class s) 0
      (status (completion s)) (value (completion s)) Hwt) as [Hl Hs].
    destruct (publish_opt _ _ _ _ _ _ _) as [t2 wake]. cbn [fst] in Hl, Hs. cbn.
    rewrite length_insert in Hl. rewrite Hraw in Hs.
    assert (Hsame : ∀ k1 q1, ports x !! k1 = Some q1 → ∃ q2, t2 !! k1 = Some q2 ∧
      Port.generation q2 = Port.generation q1 ∧ Port.owner q2 = Port.owner q1 ∧ pend q2 = pend q1).
    { intros k1 q1 Hq1. destruct (decide (k1 = k)) as [->|Hne].
      - replace q1 with q in * by congruence. destruct (proj2 Hs k q') as (q2 & Hq2 & Hg2 & Ho2 & _ & Hm).
        { apply list_lookup_insert_eq. by eapply lookup_lt_Some. }
        exists q2. split_and!; [done|congruence|congruence|].
        rewrite (Hm p eq_refl) by (by apply (names_same p k q q')).
        rewrite Hpend. by apply delete_insert_id.
      - destruct (proj2 Hs k1 q1) as (q2 & Hq2 & Hg2 & Ho2 & [Hd|Hd] & _).
        { by rewrite list_lookup_insert_ne. }
        + exists q2. done.
        + exists q2. split_and!; try done. rewrite Hd. apply delete_id. apply eq_None_not_Some.
          intros Hsome. destruct (w_backed _ _ Hwf _ _ _ Hq1 Hsome) as (j & y & p' & Hj & Hy & _ & _ & He).
          assert (j = h_slot h) as -> by (symmetry; by apply (raw_of_inj _ _ Hwf _ _ s y)). congruence. }
    assert (Hwf2 : wf_tables (slots x) t2).
    { apply (ports_wf _ _ Hwf); [done|apply Hs|]. intros k1 q1 Hq1.
      destruct (Hsame _ _ Hq1) as (q2 & ? & ? & ? & ?). exists q2. auto. }
    apply attach_complete_wf; try done. split; [done|].
    destruct (Hsame _ _ Hq) as (q2 & Hq2 & Hg2 & Ho2 & _). exists k, q2. destruct Hn as [Hx Hm].
    split_and!; try done. left. unfold Port.matches in *. by rewrite Hg2, Ho2.
  - cbn. apply (attach_pending_wf _ _ Hwf _ _ _ _ q q' ck); try done. by destruct (state s).
Qed.

Definition owned_live (own : Z) (s : Slot) : bool := negb (is_free s) && (owner s =? own).

Lemma is_free_release s : is_free (slot_release s) = true.
Proof. done. Qed.

Lemma reap_spec own pre ss t ss' t' n :
  wf_tables (pre ++ ss) t → reap own (length pre) ss t = (ss', t', n) →
  wf_tables (pre ++ ss') t' ∧ ss' = (λ s, if owned_live own s then slot_release s else s) <$> ss ∧
  n = count_if (owned_live own) ss.
Proof.
  revert pre t ss' n. induction ss as [|s ss IH]; intros pre t ss' n Hwf; cbn [reap].
  { intros [= <- <- <-]. done. }
  fold (owned_live own s). rewrite count_if_cons.
  assert (Hi : (pre ++ s :: ss) !! length pre = Some s) by (by apply list_lookup_middle).
  destruct (owned_live own s) eqn:Ho; cbn [fmap list_fmap]; rewrite Ho.
  - set (t1 := match port s with Some p => _ | None => t end).
    assert (Hset : length t1 = length t ∧ settled t t1 (raw_of (length pre) s) (port s)).
    { unfold t1. destruct (port s) as [p|]; [|split; [done|apply settled_refl, Hwf]].
      split; [apply (run_length t (PortProofs.Abandon _ _))|apply abandon_settled, Hwf]. }
    destruct Hset as [Hl Hset].
    assert (Hwf1 : wf_tables (pre ++ slot_release s :: ss) t1).
    { replace (pre ++ slot_release s :: ss) with (<[length pre := slot_release s]> (pre ++ s :: ss))
        by (by rewrite insert_app_r_alt, Nat.sub_diag by lia).
      unfold owned_live in Ho. apply andb_true_iff in Ho as [Hf _].
      apply negb_true_iff, bool_decide_eq_false in Hf.
      apply (settle_wf _ _ Hwf (length pre) s); try done; [by right|]. case_bool_decide; [done|].
      destruct Hset as [Hw Hs]. split; [done|]. intros k q Hq.
      destruct (Hs k q Hq) as (q' & ? & ? & ? & ? & _). exists q'. done. }
    destruct (reap own (S (length pre)) ss t1) as [[ss2 t2] m] eqn:E.
    intros [= <- <- <-]. rewrite cons_middle, app_assoc in Hwf1.
    replace (S (length pre)) with (length (pre ++ [slot_release s])) in E by (rewrite length_app; cbn; lia).
    destruct (IH _ _ _ _ Hwf1 E) as (Hw & -> & ->). rewrite <-app_assoc in Hw. done.
  - destruct (reap own (S (length pre)) ss t) as [[ss2 t2] m] eqn:E.
    intros [= <- <- <-]. rewrite cons_middle, app_assoc in Hwf.
    replace (S (length pre)) with (length (pre ++ [s])) in E by (rewrite length_app; cbn; lia).
    destruct (IH _ _ _ _ Hwf E) as (Hw & -> & ->). rewrite <-app_assoc in Hw. done.
Qed.

(** ** Accounting *)

Definition live (s : Slot) : bool := negb (is_free s).

Lemma active_update ss i s s' :
  ss !! i = Some s →
  (active_count (<[i := s']> ss) + Nat.b2n (live s) = active_count ss + Nat.b2n (live s'))%nat.
Proof. intros Hi. by apply (count_if_insert live). Qed.

Lemma balance_step a r r' n n' :
  a = wrap64 (r + Z.of_nat n) → wrap64 (r' + Z.of_nat n') = wrap64 (r + Z.of_nat n) →
  a = wrap64 (r' + Z.of_nat n').
Proof. congruence. Qed.

Lemma wrap64_add_l a b : wrap64 (wrap64 a + b) = wrap64 (a + b).
Proof. unfold wrap64. by rewrite Z.add_mod_idemp_l. Qed.

Lemma get_mut_live ss h s : get_mut ss h = Some s → live s = true ∧ ss !! h_slot h = Some s.
Proof.
  intros (Hi & Hf & _)%get_mut_Some. split; [|done]. unfold live, is_free.
  by rewrite bool_decide_eq_false_2.
Qed.

Lemma live_not_free s : live s = true ↔ state s ≠ Free.
Proof. unfold live, is_free. rewrite negb_true_iff, bool_decide_eq_false. done. Qed.

Lemma update_active x h s s' :
  get_mut (slots x) h = Some s → live s' = true →
  active_count (<[h_slot h := s']> (slots x)) = active_count (slots x).
Proof.
  intros [Hl Hi]%get_mut_live Hl'. pose proof (active_update _ _ _ s' Hi) as H.
  rewrite Hl, Hl' in H. cbn [Nat.b2n] in H. lia.
Qed.

Lemma release_active x h s :
  get_mut (slots x) h = Some s →
  active_count (slots x) = S (active_count (<[h_slot h := slot_release s]> (slots x))).
Proof.
  intros [Hl Hi]%get_mut_live. pose proof (active_update _ _ _ (slot_release s) Hi) as H.
  rewrite Hl in H. change (live (slot_release s)) with false in H. cbn [Nat.b2n] in H. lia.
Qed.

(** ** Reachable states *)

Inductive call :=
  | Allocate (cur : option Z) (c : AsyncClass)
  | ClassOf (cur : option Z) (h : Handle)
  | CompleteOp (h : Handle) (c : Completion)
  | Associate (cur : option Z) (process : Z) (h : Handle) (p cookie : Z)
  | ServiceComplete (cur : option Z) (h : Handle) (c : Completion)
  | Peek (cur : option Z) (h : Handle)
  | WaitTurn (cur : option Z) (h : Handle)
  | ReleaseOp (cur : option Z) (h : Handle)
  | CancelOp (cur : option Z) (h : Handle)
  | ReapOwner (own : Z)
  | PortCall (o : PortProofs.op).

(** A port call outside this module; [close] signals the waiters of the port. *)
Definition port_call (o : PortProofs.op) (x : Sys) : Sys :=
  let x' := set_ports (run (ports x) o) x in
  match o with
  | PortProofs.Close own h =>
      match (Port.close (ports x) own h).2 with Ok w => signal w x' | Err _ => x' end
  | _ => x'
  end.

Definition step (x : Sys) (c : call) : Sys :=
  match c with
  | Allocate cur c => (allocate_current cur c x).1
  | ClassOf cur h => (class_current cur h x).1
  | CompleteOp h c => (complete h c x).1
  | Associate cur pr h p ck => (associate_current cur pr h p ck x).1
  | ServiceComplete cur h c => (complete_current_service cur h c x).1
  | Peek cur h => (peek_current cur h x).1
  | WaitTurn cur h => (wait_ready_turn cur h x).1
  | ReleaseOp cur h => (release_current cur h x).1
  | CancelOp cur h => (cancel_current cur h x).1
  | ReapOwner own => (release_owner own x).1
  | PortCall o => port_call o x
  end.

(** Port handles come from 64-bit registers; the port calls are those of
    [user_call]. *)
Definition call_ok (x : Sys) (c : call) : Prop :=
  match c with
  | Associate _ _ _ p _ => in_u64 p
  | PortCall o => user_call (ports x) o
  | _ => True
  end.

Inductive reachable : Sys → Prop :=
  | reach_boot : reachable boot
  | reach_step x c : reachable x → call_ok x c → reachable (step x c).

Lemma op_wf_boot : wf boot.
Proof.
  assert (Hs : ∀ i s, slots boot !! i = Some s → s = empty_slot).
  { intros i s [-> _]%lookup_replicate. done. }
  assert (Ht : ∀ k q, ports boot !! k = Some q → q = Port.port_new).
  { intros k q [-> _]%lookup_replicate. done. }
  split; [|reflexivity]. split.
  - done.
  - intros i s ->%Hs. unfold in_u32, u32_max. cbn. split; [lia|done].
  - intros i s ->%Hs. done.
  - apply wf_table_new.
  - intros i s p ->%Hs. done.
  - intros i s p k q ->%Hs. done.
  - intros k q op ->%Ht. change (pend Port.port_new) with (∅ : gmap Z Z).
    rewrite lookup_empty. by intros [].
Qed.

(** The balance only looks at two counters and the number of live slots. *)
Lemma balance_same x x' :
  wf x → wf_tables (slots x') (ports x') →
  allocated (counters x') = allocated (counters x) →
  released (counters x') = released (counters x) →
  active_count (slots x') = active_count (slots x) → wf x'.
Proof. intros [_ Hb] Ht Ha Hr Hn. split; [done|]. by rewrite Ha, Hr, Hn. Qed.

Lemma balance_release x x' n :
  wf x → wf_tables (slots x') (ports x') →
  allocated (counters x') = allocated (counters x) →
  released (counters x') = wrapping_add64 (released (counters x)) (Z.of_nat n) →
  active_count (slots x) = (active_count (slots x') + n)%nat → wf x'.
Proof.
  intros [_ Hb] Ht Ha Hr Hn. split; [done|]. rewrite Ha, Hr, Hb. unfold wrapping_add64.
  rewrite wrap64_add_l. f_equal. lia.
Qed.

Lemma with_owned_wf {A} cur h x (k : Slot → Sys * result A Error) :
  wf x → (∀ s, get_mut (slots x) h = Some s → wf (k s).1) → wf (with_owned cur h x k).1.
Proof.
  intros Hwf Hk. unfold with_owned. destruct cur as [own|]; [|done].
  destruct (get_mut (slots x) h) as [s|] eqn:E; [|by apply (balance_same x); try apply Hwf].
  destruct (negb _); [done|]. by apply Hk.
Qed.

Lemma complete_wf h c x : wf x → wf (complete h c x).1.
Proof.
  intros Hwf. pose proof (complete_wf_tables h c x (w_tables _ Hwf)) as Ht. revert Ht.
  unfold complete. destruct (get_mut (slots x) h) as [s|] eqn:E.
  2:{ intros _. by apply (balance_same x); try apply Hwf. }
  destruct (bool_decide _); [done|]. destruct (publish_opt _ _ _ _ _ _ _) as [t wake].
  intros Ht. apply (balance_same x); [done|done|..]; destruct (waiting s); cbn; try done;
    by apply (update_active x h s).
Qed.

Lemma withdraw_counts h s x :
  counters (withdraw h s x) = counters x ∧
  slots (withdraw h s x) = <[h_slot h := slot_release s]> (slots x).
Proof. unfold withdraw. destruct (if bool_decide _ then _ else _). done. Qed.

Lemma withdraw_wf h s x f :
  wf x → get_mut (slots x) h = Some s →
  allocated (f (counters x)) = allocated (counters x) →
  released (f (counters x)) = wrapping_add64 (released (counters x)) 1 →
  wf (count_with f (withdraw h s x)).
Proof.
  intros Hwf Hs Ha Hr. destruct (withdraw_counts h s x) as [Hc Hss].
  apply (balance_release x _ 1); cbn [slots ports counters count_with]; rewrite ?Hc, ?Hss; try done.
  - rewrite <-Hss. by apply withdraw_wf_tables; [apply Hwf|].
  - rewrite (release_active x h s Hs). lia.
Qed.

Lemma associate_wf cur proc h p ck x :
  in_u64 p → wf x → wf (associate_current cur proc h p ck x).1.
Proof.
  intros Hu Hwf. pose proof (associate_wf_tables cur proc h p ck x Hu (w_tables _ Hwf)) as Ht. revert Ht.
  unfold associate_current. destruct cur as [own|]; [|done].
  destruct (get_mut (slots x) h) as [s|] eqn:E; [|done].
  destruct (negb _); [done|]. destruct (bool_decide (is_Some _)); [done|].
  destruct (Port.reserve _ _ _ _ _) as [t' [u|]]; [|done].
  assert (Hl : live (set_port p s) = true) by apply (get_mut_live _ _ _ E).
  destruct (bool_decide _); [destruct (publish_opt _ _ _ _ _ _ _) as [t2 wake]|];
    intros Ht; (apply (balance_same x); [done|done|done|done|]); by apply (update_active x h s).
Qed.

Lemma allocate_current_wf cur c x : wf x → wf (allocate_current cur c x).1.
Proof.
  intros [Ht Hb]. unfold allocate_current. destruct cur as [own|]; [|done].
  destruct (allocate (slots x) own c) as [[ss h]|] eqn:E; [|done]. split; cbn.
  - by eapply allocate_wf.
  - unfold inc, wrapping_add64. rewrite Hb, wrap64_add_l. f_equal.
    unfold allocate in E. destruct (position _ (slots x)) as [i|] eqn:P; [|done].
    apply position_lookup in P as (s & Hi & G). cbn [mbind option_bind] in E.
    rewrite Hi in E. cbn [mbind option_bind] in E. injection E as <- _.
    match goal with |- context [<[i:=?s']> _] =>
      pose proof (active_update _ i s s' Hi) as Ha; change (live s') with true in Ha end.
    apply andb_true_iff in G as [Hf _]. assert (live s = false) as Hl by (unfold live; by rewrite Hf).
    rewrite Hl in Ha. cbn [Nat.b2n] in Ha. lia.
Qed.

Lemma release_owner_wf own x : wf x → wf (release_owner own x).1.
Proof.
  intros Hwf. unfold release_owner. destruct (reap own 0 (slots x) (ports x)) as [[ss t] n] eqn:E.
  destruct (reap_spec own [] _ _ _ _ _ (w_tables _ Hwf) E) as (Ht & Hss & Hn). cbn [app fst] in *.
  assert (Hact : active_count (slots x) = (active_count ss + n)%nat).
  { rewrite Hss, Hn. clear. unfold active_count. induction (slots x) as [|s l IH]; [done|].
    cbn [fmap list_fmap]. rewrite !count_if_cons, IH. destruct (owned_live own s) eqn:Ho.
    - rewrite is_free_release. unfold owned_live in Ho. apply andb_true_iff in Ho as [-> _].
      cbn [negb Nat.b2n]. lia.
    - cbn [Nat.b2n]. lia. }
  destruct (Nat.eqb_spec n 0) as [Hz|Hz]; cbn [fst].
  - apply (balance_same x); try done. cbn [slots]. lia.
  - by apply (balance_release x _ n).
Qed.

Lemma op_step_wf x c : wf x → call_ok x c → wf (step x c).
Proof.
  intros Hwf Hok. destruct c; cbn [step].
  - by apply allocate_current_wf.
  - by apply with_owned_wf.
  - by apply complete_wf.
  - by apply associate_wf.
  - apply with_owned_wf; [done|]. intros s Hs. destruct (negb _); [done|]. by apply complete_wf.
  - by apply with_owned_wf.
  - apply with_owned_wf; [done|]. intros s Hs. case_bool_decide; [done|].
    pose proof (get_mut_Some _ _ _ Hs) as (Hi & Hl & _).
    apply (balance_same x); try done; cbn.
    + by apply (retouch_wf _ _ (w_tables _ Hwf) _ s).
    + apply (update_active x h s); [done|]. by apply live_not_free.
  - apply with_owned_wf; [done|]. intros s Hs. by apply withdraw_wf.
  - apply with_owned_wf; [done|]. intros s Hs.
    by apply (withdraw_wf h s x (λ c, add_released 1 (add_cancelled c))).
  - by apply release_owner_wf.
  - assert (H : wf (set_ports (run (ports x) o) x)).
    { apply (balance_same x); try done. apply user_call_wf; [apply Hwf|done]. }
    unfold port_call. destruct o; try done. destruct (Port.close _ _ _).2; [|done].
    by eapply balance_same; [exact H|apply H|..].
Qed.

(** In every reachable state operations and completion ports agree: each
    pending operation associated with an open port has its reservation there - so a
    producer can never find the port full - and each reservation belongs to exactly
    such an operation, so none leaks; and the counters balance: allocated =
    released + live, modulo 2^64. *)
Theorem async_reachable_wf (x : Sys) : reachable x → wf x.
Proof. induction 1 as [|x c _ IH Hok]; [apply op_wf_boot|by apply op_step_wf]. Qed.

Lemma async_reachable_wf_witness :
  let x := step (step (step boot (PortCall (PortProofs.Create 5))) (Allocate (Some 3) Timer))
             (Associate (Some 3) 5 (mkHandle 0 1) 7516258304 77) in
  wf x ∧ port <$> slots x !! 0%nat = Some (Some 7516258304).
Proof.
  split; [|reflexivity]. apply async_reachable_wf.
  apply reach_step; [|unfold call_ok, in_u64, u64_max; lia].
  apply reach_step; [|exact I]. apply reach_step; [apply reach_boot|exact I].
Defined.

(** ** Life of one operation *)

(** What a call may do to one slot. *)
Inductive slot_change (s : Slot) : Slot → Prop :=
  | sc_touch s' : generation s' = generation s → state s' = state s → owner s' = owner s →
      completion s' = completion s → slot_change s s'
  | sc_allocate s' : state s = Free → generation s' = generation s + 1 → slot_change s s'
  | sc_complete c : state s = Pending → slot_change s (set_complete c s)
  | sc_release : slot_change s (slot_release s).

Lemma slot_same s : slot_change s s.
Proof. by constructor. Qed.

Lemma slot_update (ss : list Slot) (j : nat) t t' (i : nat) s :
  ss !! j = Some t → slot_change t t' → ss !! i = Some s →
  ∃ s', <[j := t']> ss !! i = Some s' ∧ slot_change s s'.
Proof.
  intros Hj Hc Hi. destruct (decide (j = i)) as [->|Hne].
  - rewrite list_lookup_insert_eq by eauto using lookup_lt_Some. replace s with t by congruence. eauto.
  - rewrite list_lookup_insert_ne by done. eauto using slot_same.
Qed.

Lemma with_owned_slot {A} cur h x (k : Slot → Sys * result A Error) i s :
  slots x !! i = Some s →
  (∀ t, get_mut (slots x) h = Some t → ∃ s', slots (k t).1 !! i = Some s' ∧ slot_change s s') →
  ∃ s', slots (with_owned cur h x k).1 !! i = Some s' ∧ slot_change s s'.
Proof.
  intros Hi Hk. unfold with_owned. destruct cur as [own|]; [|eauto using slot_same].
  destruct (get_mut (slots x) h) as [t|]; [|eauto using slot_same].
  destruct (negb _); eauto using slot_same.
Qed.

Lemma complete_slot h c x i s :
  slots x !! i = Some s → ∃ s', slots (complete h c x).1 !! i = Some s' ∧ slot_change s s'.
Proof.
  intros Hi. unfold complete. destruct (get_mut (slots x) h) as [t|] eqn:E; [|eauto using slot_same].
  apply get_mut_Some in E as (Hj & Hl & _). case_bool_decide; [eauto using slot_same|].
  destruct (publish_opt _ _ _ _ _ _ _) as [t2 wake].
  assert (state t = Pending) by (by destruct (state t)).
  destruct (waiting t); by apply (slot_update _ _ t); [|constructor|].
Qed.

Lemma reap_slots own i ss t :
  (reap own i ss t).1.1 = (λ s, if owned_live own s then slot_release s else s) <$> ss.
Proof.
  revert i t. induction ss as [|s ss IH]; intros i t; [done|]. cbn [reap]. fold (owned_live own s).
  cbn [fmap list_fmap]. destruct (owned_live own s).
  - specialize (IH (S i) (match port s with
      Some p => Port.abandon t p (to_raw (mkHandle i (generation s))) | None => t end)).
    destruct (reap _ _ _ _) as [[ss2 t2] n]. cbn in *. by rewrite IH.
  - specialize (IH (S i) t). destruct (reap _ _ _ _) as [[ss2 t2] n]. cbn in *. by rewrite IH.
Qed.

Lemma step_slot x c i s :
  slots x !! i = Some s → ∃ s', slots (step x c) !! i = Some s' ∧ slot_change s s'.
Proof.
  intros Hi. destruct c as [cur c|cur h|h c|cur pr h p ck|cur h c|cur h|cur h|cur h|cur h|own|o];
    cbn [step].
  - unfold allocate_current. destruct cur as [own|]; [|eauto using slot_same].
    destruct (allocate _ _ _) as [[ss h]|] eqn:E; [|eauto using slot_same].
    unfold allocate in E. destruct (position _ _) as [j|] eqn:P; [|done].
    apply position_lookup in P as (t & Hj & G). cbn [mbind option_bind] in E. rewrite Hj in E.
    cbn [mbind option_bind] in E. injection E as <- _. apply andb_true_iff in G as [Hf _].
    apply bool_decide_eq_true in Hf. by apply (slot_update _ _ t); [|apply sc_allocate|].
  - apply with_owned_slot; [done|]. eauto using slot_same.
  - by apply complete_slot.
  - unfold associate_current. destruct cur as [own|]; [|eauto using slot_same].
    destruct (get_mut (slots x) h) as [t|] eqn:E; [|eauto using slot_same].
    apply get_mut_Some in E as (Hj & _).
    destruct (negb _); [eauto using slot_same|]. destruct (bool_decide _); [eauto using slot_same|].
    destruct (Port.reserve _ _ _ _ _) as [t' [u|]]; [|eauto using slot_same].
    destruct (bool_decide _); [destruct (publish_opt _ _ _ _ _ _ _) as [t2 wake]|];
      by apply (slot_update _ _ t); [|constructor|].
  - apply with_owned_slot; [done|]. intros t _. destruct (negb _); [eauto using slot_same|].
    by apply complete_slot.
  - apply with_owned_slot; [done|]. eauto using slot_same.
  - apply with_owned_slot; [done|]. intros t (Hj & _)%get_mut_Some.
    destruct (bool_decide _); [eauto using slot_same|]. by apply (slot_update _ _ t); [|constructor|].
  - apply with_owned_slot; [done|]. intros t (Hj & _)%get_mut_Some. cbn.
    rewrite (proj2 (withdraw_counts h t x)). by apply (slot_update _ _ t); [|apply sc_release|].
  - apply with_owned_slot; [done|]. intros t (Hj & _)%get_mut_Some. cbn.
    rewrite (proj2 (withdraw_counts h t x)). by apply (slot_update _ _ t); [|apply sc_release|].
  - pose proof (reap_slots own 0 (slots x) (ports x)) as Hr. unfold release_owner.
    destruct (reap _ _ _ _) as [[ss t] n]. cbn in Hr.
    exists (if owned_live own s then slot_release s else s). split.
    + destruct (n =? 0)%nat; cbn; by rewrite Hr, list_lookup_fmap, Hi.
    + destruct (owned_live own s); [apply sc_release|apply slot_same].
  - exists s. split; [|apply slot_same]. unfold port_call. destruct o; try done.
    by destruct (Port.close _ _ _).2.
Qed.

(** The handle's operation is complete with result [c]; or over for good. *)
Definition done_with (own : Z) (c : Completion) (h : Handle) (s : Slot) : Prop :=
  generation s = h_generation h ∧ state s = Complete ∧ completion s = c ∧ owner s = own.
Definition over (h : Handle) (s : Slot) : Prop :=
  h_generation h < generation s ∨ h_generation h = generation s ∧ state s = Free.

Lemma change_over h s s' : slot_change s s' → over h s → over h s'.
Proof.
  unfold over. intros [s1 Hg Hst _ _|s1 Hf Hg|c Hp|] H; cbn.
  - by rewrite Hg, Hst.
  - left. rewrite Hg. destruct H as [H|[H _]]; lia.
  - destruct H as [H|[_ H]]; [by left|congruence].
  - destruct H as [H|[H _]]; [by left|by right].
Qed.

Lemma change_done own c h s s' :
  slot_change s s' → done_with own c h s → done_with own c h s' ∨ over h s'.
Proof.
  unfold done_with, over. intros [s1 Hg1 Hst1 Ho1 Hc1|s1 Hf Hg1|c1 Hp|] (Hg & Hst & Hc & Ho); cbn.
  - left. split_and!; congruence.
  - right. left. lia.
  - congruence.
  - right. right. done.
Qed.

Lemma steps_done own c h calls x :
  (∃ s, slots x !! h_slot h = Some s ∧ (done_with own c h s ∨ over h s)) →
  ∃ s, slots (foldl step x calls) !! h_slot h = Some s ∧ (done_with own c h s ∨ over h s).
Proof.
  revert x. induction calls as [|cl calls IH]; intros x (s & Hs & H); [eauto|]. apply IH.
  destruct (step_slot x cl _ _ Hs) as (s' & Hs' & Hc). exists s'. split; [done|].
  destruct H as [H|H]; [by eapply change_done|right; by eapply change_over].
Qed.

(** An operation completes exactly once and its result is stable. After a
    successful [complete], and whatever calls follow - by producers, the owner, other
    tasks, or teardown - there are two cases only. Either the owner still reads this
    very completion and every further [complete] is refused as already complete; or
    the operation was released and the handle is stale for everybody, even if the
    slot serves a new operation. *)
Theorem completed_exactly_once (x : Sys) (h : Handle) (s : Slot) (c : Completion) (calls : list call) :
  get_mut (slots x) h = Some s → (complete h c x).2 = Ok () →
  let x' := foldl step (complete h c x).1 calls in
  ((peek_current (Some (owner s)) h x').2 = Ok (Some c) ∧
   ∀ c', complete h c' x' = (x', Err AlreadyComplete)) ∨
  ((peek_current (Some (owner s)) h x').2 = Err InvalidHandle ∧
   ∀ c', (complete h c' x').2 = Err InvalidHandle).
Proof.
  intros Hs Hok. cbn zeta. pose proof (get_mut_Some _ _ _ Hs) as (Hi & Hl & Hg & _).
  set (x1 := (complete h c x).1). assert (H1 : slots x1 !! h_slot h = Some (set_complete c s)).
  { unfold x1. revert Hok. unfold complete. rewrite Hs. case_bool_decide; [done|]. intros _.
    destruct (publish_opt _ _ _ _ _ _ _). destruct (waiting s); cbn;
      apply list_lookup_insert_eq; by eapply lookup_lt_Some. }
  destruct (steps_done (owner s) c h calls x1) as (s' & Hs' & H).
  { exists (set_complete c s). split; [done|]. left. done. }
  set (x' := foldl step x1 calls) in *. clearbody x'.
  unfold peek_current, with_owned, complete. destruct H as [(Hg' & Hst & Hc & Ho)|H].
  - left. assert (Hget : get_mut (slots x') h = Some s').
    { unfold get_mut. rewrite Hs'. cbn [mbind option_bind]. unfold is_free.
      by rewrite Hst, Hg', Z.eqb_refl. }
    rewrite Hget, Ho, Z.eqb_refl. cbn [negb]. by rewrite Hst, Hc, !bool_decide_eq_true_2.
  - right. assert (get_mut (slots x') h = None) as ->; [|done].
    unfold get_mut. rewrite Hs'. cbn [mbind option_bind]. destruct H as [H|[_ H]].
    + by rewrite (proj2 (Z.eqb_neq _ _)), andb_false_r by lia.
    + unfold is_free. by rewrite H.
Qed.

Lemma completed_exactly_once_witness :
  let x := step boot (Allocate (Some 3) Block) in
  let x' := foldl step (complete (mkHandle 0 1) (completion_new 0 9) x).1
    [CompleteOp (mkHandle 0 1) (completion_new 1 1); ReapOwner 4] in
  (peek_current (Some 3) (mkHandle 0 1) x').2 = Ok (Some (completion_new 0 9)) ∨
  (peek_current (Some 3) (mkHandle 0 1) x').2 = Err InvalidHandle.
Proof.
  set (x := step boot _). assert (Hs : ∃ s, get_mut (slots x) (mkHandle 0 1) = Some s ∧ owner s = 3)
    by (eexists; split; reflexivity). destruct Hs as (s & Hs & Ho).
  destruct (completed_exactly_once x (mkHandle 0 1) s (completion_new 0 9)
    [CompleteOp (mkHandle 0 1) (completion_new 1 1); ReapOwner 4] Hs) as [[H _]|[H _]];
    [reflexivity|left|right]; by rewrite Ho in H.
Defined.

(** A completion is never lost on its way to the port. Completing a pending
    operation that is associated with an open port always finds its reservation:
    exactly one event, with the cookie given at association and the result, is
    appended to the port's FIFO, and the owner (if it is waiting) and then every task
    waiting on the port are signalled. *)
Theorem associated_completion_delivered (x : Sys) (h : Handle) (s : Slot) (c : Completion)
    (p : Z) (k : nat) (q : Port.Port) :
  wf x → get_mut (slots x) h = Some s → state s = Pending → port s = Some p →
  ports x !! k = Some q → names p k q →
  ∃ ck q', pend q !! to_raw h = Some ck ∧
    (complete h c x).2 = Ok () ∧
    ports (complete h c x).1 !! k = Some q' ∧
    Queue.fifo (Port.queue q') =
      Queue.fifo (Port.queue q) ++
      [Queue.mkEvent (to_raw h) ck (class_u32 (class s)) 0 (status c) (value c)] ∧
    Port.waiters q' = Port.no_waiters ∧
    signalled (complete h c x).1 =
      signalled x ++ (if waiting s then [owner s] else []) ++ flatten (Port.waiters q).
Proof.
  intros Hwf Hs Hp Hport Hq [Hx Hm]. pose proof (get_mut_Some _ _ _ Hs) as (Hi & Hl & Hg & Hraw).
  destruct (w_reserved _ _ (w_tables _ Hwf) _ _ _ _ _ Hi Hp Hport Hq (conj Hx Hm)) as [ck Hck].
  rewrite <-Hraw in Hck. exists ck. pose proof (w_ports _ _ (w_tables _ Hwf)) as Hwp.
  pose proof (wp_queue _ (wf_ports _ Hwp _ _ Hq)) as Hwq.
  destruct (Queue.publish (Port.queue q) (to_raw h) (class_u32 (class s)) 0 (status c) (value c))
    as [q2 b] eqn:E.
  destruct (publish_sim _ _ _ _ _ _ _ _ Hwq E) as [_ Hsim]. unfold spec_publish in Hsim.
  cbn [QueueSpec.reserved abs] in Hsim. rewrite Hck in Hsim.
  pose proof (f_equal snd Hsim) as Hb. apply (f_equal (λ y, ready y.1)) in Hsim. cbn in Hb, Hsim. subst b.
  exists (Port.set_waiters Port.no_waiters (Port.set_queue q2 q)).
  unfold complete. rewrite Hs, bool_decide_eq_false_2 by (by rewrite Hp).
  rewrite Hport. cbn [publish_opt ports set_slot]. unfold Port.publish, Port.port_at.
  rewrite Hx, Hq. cbn [fmap option_fmap option_map]. rewrite Hm. cbn [negb]. rewrite E.
  split_and!; try done.
  - destruct (waiting s); apply list_lookup_insert_eq; by eapply lookup_lt_Some.
  - destruct (waiting s); cbn [signalled signal set_ports count_with fst app];
      by rewrite <-?(assoc_L (++)).
Qed.

Lemma associated_completion_delivered_witness :
  let x := step (step (step boot (PortCall (PortProofs.Create 5))) (Allocate (Some 3) Timer))
             (Associate (Some 3) 5 (mkHandle 0 1) 7516258304 77) in
  fifo_at (ports (complete (mkHandle 0 1) (completion_new 0 9) x).1) 7516258304 =
    [Queue.mkEvent 4294967296 77 5 0 0 9].
Proof.
  set (x := step _ _).
  assert (Hwf : wf x).
  { apply op_step_wf; [|unfold call_ok, in_u64, u64_max; lia].
    apply op_step_wf; [|exact I]. apply op_step_wf; [apply op_wf_boot|exact I]. }
  destruct (slots x !! 0%nat) as [s|] eqn:Hs; [|vm_compute in Hs; done].
  destruct (ports x !! 0%nat) as [q|] eqn:Hq; [|vm_compute in Hq; done].
  destruct (associated_completion_delivered x (mkHandle 0 1) s (completion_new 0 9) 7516258304 0 q)
    as (ck & q' & H1 & _ & H2 & H3 & _); [done| | | |done| |].
  1-3: vm_compute in Hs; injection Hs as <-; reflexivity.
  - vm_compute in Hq. injection Hq as <-. split; reflexivity.
  - unfold fifo_at, Port.port_at. change (Port.index 7516258304) with (@Ok nat () 0%nat).
    cbv beta iota. rewrite H2. cbn [fmap option_fmap option_map]. rewrite H3.
    vm_compute in Hq, Hs. injection Hq as <-. injection Hs as <-. vm_compute in H1. by injection H1 as <-.
Defined.

(** The structural probe the kernel runs at boot succeeds on the empty table and
    leaves it empty. *)
Theorem structural_self_test_passes :
  (structural_self_test (Some 7) boot).2 = true ∧
  active_count (slots (structural_self_test (Some 7) boot).1) = 0%nat.
Proof. split; vm_compute; reflexivity. Qed.

End OpProofs.
