(* ===== verification/Pipe.v ===== *)
(** * Anonymous pipes (kernel/src/pipe.rs)

    The table of 32 pipes: 2048-byte ring buffers with reader and writer counts,
    waiter lists and 64-bit epochs. [Pipe] transcribes the module; the blocking
    [read] and [write] are modelled turn by turn, a turn being one iteration of
    their loop between two calls of [task::wait_for_event]. [PipeProofs] shows that
    a ring is a FIFO of bytes, that bytes are neither lost, duplicated nor
    reordered, and that a retired identifier never names a pipe again. *)
From S2P Require Import Prelude.

Module Pipe.

Definition PIPE_BUFFER : nat := 2048.
Definition MAX_PIPES : nat := 32.
Definition MAX_WAITERS : nat := 32.

Record PipeId := mkId { id_slot : nat; id_epoch : Z }.

#[export] Instance PipeId_eq_dec : EqDecision PipeId.
Proof. solve_decision. Defined.

Inductive Error := Full | Invalid | Closed.

#[export] Instance Error_eq_dec : EqDecision Error.
Proof. solve_decision. Defined.

Record Pipe := mkPipe {
  epoch : Z;
  data : list Z;
  head : nat;
  tail : nat;
  len : nat;
  readers : Z;
  writers : Z;
  occupied : bool;
  read_waiters : list (option Z);
  write_waiters : list (option Z)
}.

Definition no_waiters : list (option Z) := replicate MAX_WAITERS None.

Definition pipe_empty : Pipe :=
  mkPipe 0 (replicate PIPE_BUFFER 0) 0 0 0 0 0 false no_waiters no_waiters.

Record Table := mkTable { pipes : list Pipe; generations : list Z }.

Definition table_new : Table :=
  mkTable (replicate MAX_PIPES pipe_empty) (replicate MAX_PIPES 0).

Definition fresh_pipe (e : Z) : Pipe :=
  mkPipe e (replicate PIPE_BUFFER 0) 0 0 0 1 1 true no_waiters no_waiters.

(** [Table::alloc] *)
Definition alloc (t : Table) : Table * result PipeId Error :=
  match position (λ pg : Pipe * Z, negb (occupied pg.1) && (pg.2 <? u64_max))
          (zip (pipes t) (generations t)) with
  | None => (t, Err Full)
  | Some slot =>
      match generations t !! slot with
      | None => (t, Err Full)
      | Some g =>
          match checked_add64 g 1 with
          | None => (t, Err Full)
          | Some e =>
              (mkTable (<[slot := fresh_pipe e]> (pipes t)) (<[slot := e]> (generations t)),
               Ok (mkId slot e))
          end
      end
  end.

(** [Table::get] and [Table::get_mut] *)
Definition get (t : Table) (id : PipeId) : result Pipe Error :=
  match pipes t !! id_slot id with
  | Some p => if occupied p && (epoch p =? id_epoch id) then Ok p else Err Invalid
  | None => Err Invalid
  end.

Definition set_pipe (t : Table) (id : PipeId) (p : Pipe) : Table :=
  mkTable (<[id_slot id := p]> (pipes t)) (generations t).

Definition push_waiter (ws : list (option Z)) (task : Z) : list (option Z) * bool :=
  if bool_decide (Some task ∈ ws) then (ws, true)
  else
    match position (λ w, bool_decide (w = None)) ws with
    | Some i => (<[i := Some task]> ws, true)
    | None => (ws, false)
    end.

(** The copy loop of [try_write]. *)
Fixpoint push_bytes (p : Pipe) (buf : list Z) : Pipe * nat :=
  match buf with
  | [] => (p, O)
  | b :: buf =>
      if (len p <? PIPE_BUFFER)%nat then
        let p := mkPipe (epoch p) (<[tail p := b]> (data p)) (head p)
          ((tail p + 1) `mod` PIPE_BUFFER)%nat (len p + 1)%nat (readers p) (writers p) (occupied p)
          (read_waiters p) (write_waiters p) in
        let '(p, n) := push_bytes p buf in (p, S n)
      else (p, O)
  end.

Definition try_write (t : Table) (id : PipeId) (buf : list Z) : Table * result (nat * bool) Error :=
  match get t id with
  | Err e => (t, Err e)
  | Ok p =>
      if readers p =? 0 then (t, Err Closed)
      else
        let '(p, written) := push_bytes p buf in
        let need_block := (written <? length buf)%nat && (0 <? readers p) in
        (set_pipe t id p, Ok (written, need_block && (written =? 0)%nat))
  end.

(** The copy loop of [try_read], for [n] bytes of room: the bytes stored into the
    front of the buffer. *)
Fixpoint pop_bytes (p : Pipe) (n : nat) : Pipe * list Z :=
  match n with
  | O => (p, [])
  | S n =>
      if (0 <? len p)%nat then
        let b := default 0 (data p !! head p) in
        let p := mkPipe (epoch p) (data p) ((head p + 1) `mod` PIPE_BUFFER)%nat (tail p)
          (len p - 1)%nat (readers p) (writers p) (occupied p) (read_waiters p) (write_waiters p) in
        let '(p, bs) := pop_bytes p n in (p, b :: bs)
      else (p, [])
  end.

(** The bytes read (their number is the source's count), [should_block], [eof]. *)
Definition try_read (t : Table) (id : PipeId) (room : nat) : Table * result (list Z * bool * bool) Error :=
  match get t id with
  | Err e => (t, Err e)
  | Ok p =>
      if (len p =? 0)%nat then
        if writers p =? 0 then (t, Ok ([], false, true)) else (t, Ok ([], true, false))
      else
        let '(p, bs) := pop_bytes p room in (set_pipe t id p, Ok (bs, false, false))
  end.

Definition set_read_waiters (w : list (option Z)) (p : Pipe) : Pipe :=
  mkPipe (epoch p) (data p) (head p) (tail p) (len p) (readers p) (writers p) (occupied p) w
    (write_waiters p).
Definition set_write_waiters (w : list (option Z)) (p : Pipe) : Pipe :=
  mkPipe (epoch p) (data p) (head p) (tail p) (len p) (readers p) (writers p) (occupied p)
    (read_waiters p) w.

(** [wake_list(take_waiters(..))]: clear the list; the tasks signalled. *)
Definition wake_readers (t : Table) (id : PipeId) : Table * list Z :=
  match get t id with
  | Ok p => (set_pipe t id (set_read_waiters no_waiters p), flatten (read_waiters p))
  | Err _ => (t, [])
  end.
Definition wake_writers (t : Table) (id : PipeId) : Table * list Z :=
  match get t id with
  | Ok p => (set_pipe t id (set_write_waiters no_waiters p), flatten (write_waiters p))
  | Err _ => (t, [])
  end.

(** How a turn of a blocking loop ends: the call returns, goes round again, or
    sleeps in [wait_for_event] before going round. *)
Inductive turn (R S : Type) :=
  | Return (r : R)
  | Again (s : S)
  | Sleep (s : S).
Arguments Return {R S} _.
Arguments Again {R S} _.
Arguments Sleep {R S} _.

(** One iteration of [write], with [total] bytes already written. *)
Definition write_turn (t : Table) (id : PipeId) (task : Z) (buf : list Z) (total : nat)
    : Table * list Z * turn (result nat Error) nat :=
  match try_write t id (drop total buf) with
  | (t, Err e) => (t, [], Return (Err e))
  | (t, Ok (written, block)) =>
      let registered :=
        if block : bool then
          match get t id with
          | Err e => Err e
          | Ok p =>
              let '(w, ok) := push_waiter (write_waiters p) task in
              if ok : bool then Ok (set_pipe t id (set_write_waiters w p)) else Err Full
          end
        else Ok t in
      match registered with
      | Err e => (t, [], Return (Err e))
      | Ok t =>
          let total := (total + written)%nat in
          let '(t, woken) := if (0 <? written)%nat then wake_readers t id else (t, []) in
          if (total =? length buf)%nat then (t, woken, Return (Ok total))
          else if block then
            let still_block :=
              match get t id with
              | Ok p => (0 <? readers p) && (PIPE_BUFFER <=? len p)%nat
              | Err _ => false
              end in
            (t, woken, if still_block then Sleep total else Again total)
          else if (written =? 0)%nat then
            (t, woken, Return (if (0 <? total)%nat then Ok total else Err Closed))
          else (t, woken, Again total)
      end
  end.

(** One iteration of [read] into a buffer with [room] bytes. *)
Definition read_turn (t : Table) (id : PipeId) (task : Z) (room : nat)
    : Table * list Z * turn (result (list Z) Error) () :=
  match try_read t id room with
  | (t, Err e) => (t, [], Return (Err e))
  | (t, Ok (bs, block, eof)) =>
      let registered :=
        if block : bool then
          match get t id with
          | Err e => Err e
          | Ok p =>
              let '(w, ok) := push_waiter (read_waiters p) task in
              if ok : bool then Ok (set_pipe t id (set_read_waiters w p)) else Err Full
          end
        else Ok t in
      match registered with
      | Err e => (t, [], Return (Err e))
      | Ok t =>
          if (0 <? length bs)%nat then
            let '(t, woken) := wake_writers t id in (t, woken, Return (Ok bs))
          else if eof then (t, [], Return (Ok []))
          else if block then
            let still_block :=
              match get t id with
              | Ok p => (len p =? 0)%nat && (0 <? writers p)
              | Err _ => false
              end in
            (t, [], if still_block then Sleep () else Again ())
          else (t, [], Return (Ok []))
      end
  end.

Definition set_ends (r w : Z) (p : Pipe) : Pipe :=
  mkPipe (epoch p) (data p) (head p) (tail p) (len p) r w (occupied p) (read_waiters p)
    (write_waiters p).

Definition checked_add32 (x y : Z) : option Z := if x + y <=? u32_max then Some (x + y) else None.

Definition clone_reader (t : Table) (id : PipeId) : Table * result () Error :=
  match get t id with
  | Err e => (t, Err e)
  | Ok p =>
      match checked_add32 (readers p) 1 with
      | None => (t, Err Full)
      | Some r => (set_pipe t id (set_ends r (writers p) p), Ok ())
      end
  end.

Definition clone_writer (t : Table) (id : PipeId) : Table * result () Error :=
  match get t id with
  | Err e => (t, Err e)
  | Ok p =>
      match checked_add32 (writers p) 1 with
      | None => (t, Err Full)
      | Some w => (set_pipe t id (set_ends (readers p) w p), Ok ())
      end
  end.

Definition retire (p : Pipe) : Pipe :=
  if (readers p =? 0) && (writers p =? 0) then pipe_empty else p.

(** The closing calls return the tasks they signal. *)
Definition close_reader (t : Table) (id : PipeId) : Table * list Z :=
  match get t id with
  | Err _ => (t, [])
  | Ok p =>
      let q := set_write_waiters no_waiters (set_ends (saturating_sub (readers p) 1) (writers p) p) in
      (set_pipe t id (retire q), flatten (write_waiters p))
  end.

Definition close_writer (t : Table) (id : PipeId) : Table * list Z :=
  match get t id with
  | Err _ => (t, [])
  | Ok p =>
      let q := set_read_waiters no_waiters (set_ends (readers p) (saturating_sub (writers p) 1) p) in
      (set_pipe t id (retire q), flatten (read_waiters p))
  end.

(** [write] and [read] when they need not sleep, for at most [fuel] iterations. *)
Fixpoint write_loop (fuel : nat) (t : Table) (id : PipeId) (task : Z) (buf : list Z) (total : nat)
    : Table * option (result nat Error) :=
  match fuel with
  | O => (t, None)
  | S fuel =>
      match write_turn t id task buf total with
      | (t, _, Return r) => (t, Some r)
      | (t, _, Again total) => write_loop fuel t id task buf total
      | (t, _, Sleep _) => (t, None)
      end
  end.

Definition write_now (t : Table) (id : PipeId) (task : Z) (buf : list Z)
    : Table * option (result nat Error) :=
  match buf with
  | [] => (t, Some (Ok O))
  | _ => write_loop (S (length buf)) t id task buf 0
  end.

Definition read_now (t : Table) (id : PipeId) (task : Z) (room : nat)
    : Table * option (result (list Z) Error) :=
  if (room =? 0)%nat then (t, Some (Ok []))
  else
    match read_turn t id task room with
    | (t, _, Return r) => (t, Some r)
    | (t, _, _) => (t, None)
    end.

Definition is_written (r : option (result nat Error)) (n : nat) : bool :=
  bool_decide (r = Some (Ok n)).
Definition is_read (r : option (result (list Z) Error)) (bs : list Z) : bool :=
  bool_decide (r = Some (Ok bs)).

(** [self_test], run by [task] on a table with a free slot. *)
Definition self_test (task : Z) (t : Table) : Table * bool :=
  let '(ws, fits) := foldl (λ '(ws, ok) i, let '(ws, b) := push_waiter ws (Z.of_nat i) in (ws, ok && b))
    (no_waiters, true) (seq 0 MAX_WAITERS) in
  let '(ws, again) := push_waiter ws 0 in
  let '(_, over) := push_waiter ws (Z.of_nat MAX_WAITERS) in
  let waiter_bound := fits && again && negb over in
  match alloc t with
  | (t, Err _) => (t, false)
  | (t, Ok id) =>
      let payload := bytes "blocking-pipe-test" in
      let '(t, r) := write_now t id task payload in
      if negb (is_written r (length payload)) then
        let '(t, _) := close_writer t id in
        let '(t, _) := close_reader t id in (t, false)
      else
        let '(t, r) := read_now t id task 32 in
        let ok := is_read r payload in
        let '(t, _) := close_writer t id in
        let '(t, r) := read_now t id task 32 in
        let eof := is_read r [] in
        let '(t, _) := close_reader t id in
        match alloc t with
        | (t, Err _) => (t, false)
        | (t, Ok reused) =>
            let '(t, s1) := clone_reader t id in
            let '(t, s2) := clone_writer t id in
            let '(t, s3) := read_now t id task 32 in
            let '(t, s4) := write_now t id task (bytes "x") in
            let stale_rejected := negb (bool_decide (reused = id))
              && bool_decide (s1 = Err Invalid) && bool_decide (s2 = Err Invalid)
              && bool_decide (s3 = Some (Err Invalid)) && bool_decide (s4 = Some (Err Invalid)) in
            let '(t, _) := close_reader t id in
            let '(t, _) := close_writer t id in
            let '(t, f1) := write_now t reused task (bytes "y") in
            let '(t, f2) := read_now t reused task 1 in
            let fresh_intact := is_written f1 1 && is_read f2 (bytes "y") in
            let '(t, _) := close_writer t reused in
            let '(t, _) := close_reader t reused in
            (t, waiter_bound && ok && eof && (stale_rejected && fresh_intact))
        end
  end.

End Pipe.

(** ** Proofs *)
Module PipeProofs.
Import Pipe.

(** The bytes in the ring, oldest first. *)
Definition contents (p : Pipe) : list Z :=
  (λ k, default 0 (data p !! ((head p + k) `mod` PIPE_BUFFER)%nat)) <$> seq 0 (len p).

Record wf_pipe (p : Pipe) : Prop := {
  wp_data : length (data p) = PIPE_BUFFER;
  wp_head : (head p < PIPE_BUFFER)%nat;
  wp_len : (len p ≤ PIPE_BUFFER)%nat;
  wp_tail : tail p = ((head p + len p) `mod` PIPE_BUFFER)%nat
}.

(** Everything but the ring. *)
Definition frame (p : Pipe) := (epoch p, occupied p, readers p, writers p, read_waiters p, write_waiters p).

Lemma mod_bound n : (n `mod` PIPE_BUFFER < PIPE_BUFFER)%nat.
Proof. by apply Nat.mod_upper_bound. Qed.

Lemma mod_add_eq a j k :
  (j < PIPE_BUFFER)%nat → (k < PIPE_BUFFER)%nat →
  ((a + j) `mod` PIPE_BUFFER = (a + k) `mod` PIPE_BUFFER)%nat → j = k.
Proof.
  intros Hj Hk H.
  assert (Hz : (Z.of_nat ((a + j) `mod` PIPE_BUFFER) = Z.of_nat ((a + k) `mod` PIPE_BUFFER))) by lia.
  rewrite !Nat2Z.inj_mod, !Nat2Z.inj_add in Hz.
  assert (Hd : (Z.of_nat j - Z.of_nat k) mod Z.of_nat PIPE_BUFFER = 0).
  { replace (Z.of_nat j - Z.of_nat k)
      with ((Z.of_nat a + Z.of_nat j) - (Z.of_nat a + Z.of_nat k)) by lia.
    rewrite Zminus_mod, Hz, Z.sub_diag. done. }
  apply Z.mod_divide in Hd as [q Hq]; [|done]. unfold PIPE_BUFFER in *. nia.
Qed.

Lemma push_one p b :
  wf_pipe p → (len p < PIPE_BUFFER)%nat →
  let p' := mkPipe (epoch p) (<[tail p := b]> (data p)) (head p)
    ((tail p + 1) `mod` PIPE_BUFFER)%nat (len p + 1)%nat (readers p) (writers p) (occupied p)
    (read_waiters p) (write_waiters p) in
  wf_pipe p' ∧ contents p' = contents p ++ [b].
Proof.
  intros [Hd Hh Hl Ht] Hlt p'. split.
  - split; cbn [p' data head len tail]; [by rewrite length_insert|done|lia|].
    rewrite Ht, Nat.Div0.add_mod_idemp_l. f_equal. lia.
  - unfold contents. cbn [p' data head len]. rewrite Nat.add_1_r, seq_S, fmap_app. cbn [fmap list_fmap].
    rewrite Nat.add_0_l, Ht, list_lookup_insert_eq by (rewrite Hd; apply mod_bound). f_equal.
    apply list_fmap_ext. intros i k Hk. apply lookup_seq in Hk as [-> Hk].
    rewrite list_lookup_insert_ne; [done|]. intros Heq. apply mod_add_eq in Heq; lia.
Qed.

Lemma push_bytes_spec p buf p' n :
  wf_pipe p → push_bytes p buf = (p', n) →
  wf_pipe p' ∧ frame p' = frame p ∧ n = Nat.min (length buf) (PIPE_BUFFER - len p) ∧
  len p' = (len p + n)%nat ∧ contents p' = contents p ++ take n buf.
Proof.
  revert p n. induction buf as [|b buf IH]; intros p n Hwf; cbn [push_bytes].
  { intros [= <- <-]. rewrite app_nil_r. split_and!; done || lia. }
  destruct (Nat.ltb_spec (len p) PIPE_BUFFER) as [Hlt|Hge].
  - destruct (push_one p b Hwf Hlt) as [Hwf' Hc]. set (q := mkPipe _ _ _ _ _ _ _ _ _ _) in *.
    destruct (push_bytes q buf) as [p2 m] eqn:E. intros [= <- <-].
    destruct (IH q m Hwf' E) as (H1 & H2 & -> & H4 & H5). change (len q) with (len p + 1)%nat in *.
    split_and!; try done; cbn [length]; try lia.
    rewrite H5, Hc, <-(assoc_L (++)). f_equal.
  - intros [= <- <-]. rewrite app_nil_r. split_and!; try done; cbn [length]; lia.
Qed.

Lemma pop_one p :
  wf_pipe p → (0 < len p)%nat →
  let p' := mkPipe (epoch p) (data p) ((head p + 1) `mod` PIPE_BUFFER)%nat (tail p) (len p - 1)%nat
    (readers p) (writers p) (occupied p) (read_waiters p) (write_waiters p) in
  wf_pipe p' ∧ contents p = default 0 (data p !! head p) :: contents p'.
Proof.
  intros [Hd Hh Hl Ht] Hlt p'. split.
  - split; cbn [p' data head len tail]; [done|apply mod_bound|lia|].
    rewrite Ht, Nat.Div0.add_mod_idemp_l. f_equal. lia.
  - unfold contents. cbn [p' data head len]. destruct (len p) as [|n]; [lia|].
    cbn [seq fmap list_fmap]. rewrite Nat.add_0_r, (Nat.mod_small (head p)) by done. f_equal.
    rewrite <-fmap_S_seq, <-list_fmap_compose, Nat.sub_succ, Nat.sub_0_r.
    apply list_fmap_ext. intros i k Hk. unfold compose. rewrite Nat.Div0.add_mod_idemp_l. do 3 f_equal. lia.
Qed.

Lemma pop_bytes_spec p n p' bs :
  wf_pipe p → pop_bytes p n = (p', bs) →
  wf_pipe p' ∧ frame p' = frame p ∧ bs = take n (contents p) ∧ contents p' = drop n (contents p).
Proof.
  revert p bs. induction n as [|n IH]; intros p bs Hwf; cbn [pop_bytes].
  { intros [= <- <-]. rewrite drop_0. done. }
  destruct (Nat.ltb_spec 0 (len p)) as [Hlt|Hge].
  - destruct (pop_one p Hwf Hlt) as [Hwf' Hc]. set (q := mkPipe _ _ _ _ _ _ _ _ _ _) in *.
    destruct (pop_bytes q n) as [p2 m] eqn:E. intros [= <- <-].
    destruct (IH q m Hwf' E) as (H1 & H2 & -> & H4). rewrite Hc. done.
  - intros [= <- <-]. assert (Hn : contents p = []) by (unfold contents; by replace (len p) with 0%nat by lia).
    rewrite Hn. done.
Qed.

(** ** Steps: one locked section each, so that every interleaving is a sequence *)

Inductive op :=
  | OAlloc
  | OWrite (id : PipeId) (buf : list Z)
  | ORead (id : PipeId) (room : nat)
  | OWatchRead (id : PipeId) (task : Z)
  | OWatchWrite (id : PipeId) (task : Z)
  | OWakeReaders (id : PipeId)
  | OWakeWriters (id : PipeId)
  | OCloneReader (id : PipeId)
  | OCloneWriter (id : PipeId)
  | OCloseReader (id : PipeId)
  | OCloseWriter (id : PipeId).

Definition watch_read (t : Table) (id : PipeId) (task : Z) : Table :=
  match get t id with
  | Ok p => set_pipe t id (set_read_waiters (push_waiter (read_waiters p) task).1 p)
  | Err _ => t
  end.
Definition watch_write (t : Table) (id : PipeId) (task : Z) : Table :=
  match get t id with
  | Ok p => set_pipe t id (set_write_waiters (push_waiter (write_waiters p) task).1 p)
  | Err _ => t
  end.

Definition step (t : Table) (o : op) : Table :=
  match o with
  | OAlloc => (alloc t).1
  | OWrite id buf => (try_write t id buf).1
  | ORead id room => (try_read t id room).1
  | OWatchRead id k => watch_read t id k
  | OWatchWrite id k => watch_write t id k
  | OWakeReaders id => (wake_readers t id).1
  | OWakeWriters id => (wake_writers t id).1
  | OCloneReader id => (clone_reader t id).1
  | OCloneWriter id => (clone_writer t id).1
  | OCloseReader id => (close_reader t id).1
  | OCloseWriter id => (close_writer t id).1
  end.

(** The bytes a step accepts into, and delivers out of, the pipe [id]. *)
Definition accepted (id : PipeId) (t : Table) (o : op) : list Z :=
  match o with
  | OWrite id' buf =>
      if bool_decide (id' = id)
      then match (try_write t id' buf).2 with Ok (n, _) => take n buf | Err _ => [] end else []
  | _ => []
  end.
Definition delivered (id : PipeId) (t : Table) (o : op) : list Z :=
  match o with
  | ORead id' room =>
      if bool_decide (id' = id)
      then match (try_read t id' room).2 with Ok (bs, _, _) => bs | Err _ => [] end else []
  | _ => []
  end.

Fixpoint stream (f : Table → op → list Z) (t : Table) (ops : list op) : list Z :=
  match ops with
  | [] => []
  | o :: ops => f t o ++ stream f (step t o) ops
  end.

Record wf (t : Table) : Prop := {
  wf_len : length (pipes t) = MAX_PIPES ∧ length (generations t) = MAX_PIPES;
  wf_pipes : ∀ i p, pipes t !! i = Some p → wf_pipe p;
  wf_gens : ∀ i g, generations t !! i = Some g → 0 ≤ g ≤ u64_max
}.

(** The slot of [id] has seen the epoch of [id]. *)
Definition issued (t : Table) (id : PipeId) : Prop :=
  ∃ p g, pipes t !! id_slot id = Some p ∧ generations t !! id_slot id = Some g ∧ id_epoch id ≤ g.

Lemma get_Ok t id p :
  get t id = Ok p → pipes t !! id_slot id = Some p ∧ occupied p = true ∧ epoch p = id_epoch id.
Proof.
  unfold get. destruct (pipes t !! id_slot id) as [q|]; [|done].
  destruct (_ && _) eqn:G; [|done]. intros [= <-]. apply andb_true_iff in G as [? ?%Z.eqb_eq]. done.
Qed.

Lemma get_Ok_2 t id p :
  pipes t !! id_slot id = Some p → occupied p = true → epoch p = id_epoch id → get t id = Ok p.
Proof. intros Hp Ho He. unfold get. by rewrite Hp, Ho, He, Z.eqb_refl. Qed.

Lemma get_set t id p p' :
  get t id = Ok p → occupied p' = true → epoch p' = id_epoch id → get (set_pipe t id p') id = Ok p'.
Proof.
  intros (Hp & _)%get_Ok Ho He. apply get_Ok_2; [|done..]. cbn [pipes set_pipe].
  apply list_lookup_insert_eq. by eapply lookup_lt_Some.
Qed.

Lemma get_set_empty t id p : get t id = Ok p → get (set_pipe t id pipe_empty) id = Err Invalid.
Proof.
  intros (Hp & _)%get_Ok. unfold get. cbn [pipes set_pipe].
  rewrite list_lookup_insert_eq by (by eapply lookup_lt_Some). done.
Qed.

Lemma get_set_other t id id' p p' q :
  id' ≠ id → get t id = Ok p → get t id' = Ok q → get (set_pipe t id' p') id = Ok p.
Proof.
  intros Hne (Hp & Ho & He)%get_Ok (Hq & Ho' & He')%get_Ok. apply get_Ok_2; [|done..].
  cbn [pipes set_pipe]. rewrite list_lookup_insert_ne; [done|]. intros Heq. apply Hne.
  rewrite Heq in Hq. destruct id, id'; cbn in *. congruence.
Qed.

(** The shape of a step: nothing, an allocation, or the update of one valid pipe. *)
Inductive effect (t : Table) : op → Table → Prop :=
  | ef_none o : (∀ id, accepted id t o = []) → (∀ id, delivered id t o = []) → effect t o t
  | ef_alloc slot p g : pipes t !! slot = Some p → occupied p = false →
      generations t !! slot = Some g → g < u64_max →
      effect t OAlloc (mkTable (<[slot := fresh_pipe (g + 1)]> (pipes t))
                               (<[slot := g + 1]> (generations t)))
  | ef_update o id p p' : get t id = Ok p → wf_pipe p' →
      (epoch p' = epoch p ∧ occupied p' = true ∧
       contents p ++ accepted id t o = delivered id t o ++ contents p' ∨
       p' = pipe_empty ∧ accepted id t o = [] ∧ delivered id t o = []) →
      (∀ id', id' ≠ id → accepted id' t o = [] ∧ delivered id' t o = []) →
      effect t o (set_pipe t id p').

Lemma wf_pipe_empty : wf_pipe pipe_empty.
Proof.
  split; cbn [pipe_empty data head len tail]; [by rewrite length_replicate|unfold PIPE_BUFFER; lia|lia|].
  reflexivity.
Qed.

Lemma wf_pipe_frame p p' :
  wf_pipe p → data p' = data p → head p' = head p → tail p' = tail p → len p' = len p →
  wf_pipe p' ∧ contents p' = contents p.
Proof.
  intros [Hd Hh Hl Ht] E1 E2 E3 E4. unfold contents. rewrite E1, E2, E4. split; [|done].
  split; rewrite ?E1, ?E2, ?E3, ?E4; done.
Qed.

(** Steps that only touch waiters or end counts. *)
Lemma ef_same_ring t o id p p' :
  wf t → get t id = Ok p → data p' = data p → head p' = head p → tail p' = tail p →
  len p' = len p → epoch p' = epoch p → occupied p' = occupied p →
  (∀ i, accepted i t o = []) → (∀ i, delivered i t o = []) → effect t o (set_pipe t id p').
Proof.
  intros Hwf Hg E1 E2 E3 E4 E5 E6 Ha Hd. pose proof (get_Ok _ _ _ Hg) as (Hp & Ho & _).
  destruct (wf_pipe_frame p p' (wf_pipes _ Hwf _ _ Hp) E1 E2 E3 E4) as [Hw Hc].
  apply (ef_update t o id p); [done|done| |auto]. left. rewrite Ha, Hd, app_nil_r, Hc.
  split_and!; congruence || done.
Qed.

Lemma ef_close t o id p q :
  wf t → get t id = Ok p → data q = data p → head q = head p → tail q = tail p →
  len q = len p → epoch q = epoch p → occupied q = occupied p →
  (∀ i, accepted i t o = []) → (∀ i, delivered i t o = []) → effect t o (set_pipe t id (retire q)).
Proof.
  intros Hwf Hg E1 E2 E3 E4 E5 E6 Ha Hd. unfold retire. destruct (_ && _).
  - apply (ef_update t o id p); [done|apply wf_pipe_empty|right; auto|auto].
  - by apply (ef_same_ring t o id p).
Qed.

Lemma write_effect t id buf : wf t → effect t (OWrite id buf) (try_write t id buf).1.
Proof.
  intros Hwf. unfold try_write. destruct (get t id) as [p|] eqn:G.
  2:{ cbn [fst]. apply ef_none; [|done]. intros i. cbn [accepted]. case_bool_decide; [|done].
      subst. unfold try_write. by rewrite G. }
  destruct (readers p =? 0) eqn:R.
  { cbn [fst]. apply ef_none; [|done]. intros i. cbn [accepted]. case_bool_decide; [|done].
    subst. unfold try_write. by rewrite G, R. }
  destruct (push_bytes p buf) as [p' n] eqn:E. cbn [fst].
  pose proof (get_Ok _ _ _ G) as (Hp & Ho & He).
  destruct (push_bytes_spec p buf p' n (wf_pipes _ Hwf _ _ Hp) E) as (Hw & Hf & _ & _ & Hc).
  unfold frame in Hf. apply (ef_update t _ id p); [done|done| |].
  - left. split_and!; [congruence|congruence|]. cbn [accepted delivered].
    rewrite bool_decide_eq_true_2 by done. unfold try_write. rewrite G, R, E. by rewrite Hc.
  - intros id' Hne. cbn [accepted delivered]. by rewrite bool_decide_eq_false_2.
Qed.

Lemma read_effect t id room : wf t → effect t (ORead id room) (try_read t id room).1.
Proof.
  intros Hwf. unfold try_read. destruct (get t id) as [p|] eqn:G.
  2:{ cbn [fst]. apply ef_none; [done|]. intros i. cbn [delivered]. case_bool_decide; [|done].
      subst. unfold try_read. by rewrite G. }
  destruct (len p =? 0)%nat eqn:R.
  { destruct (writers p =? 0) eqn:W; cbn [fst]; (apply ef_none; [done|]); intros i; cbn [delivered];
      (case_bool_decide; [|done]); subst; unfold try_read; by rewrite G, R, W. }
  destruct (pop_bytes p room) as [p' bs] eqn:E. cbn [fst].
  pose proof (get_Ok _ _ _ G) as (Hp & Ho & He).
  destruct (pop_bytes_spec p room p' bs (wf_pipes _ Hwf _ _ Hp) E) as (Hw & Hf & Hb & Hc).
  unfold frame in Hf. apply (ef_update t _ id p); [done|done| |].
  - left. split_and!; [congruence|congruence|]. cbn [accepted delivered].
    rewrite bool_decide_eq_true_2 by done. unfold try_read. rewrite G, R, E. cbn [snd].
    by rewrite Hc, Hb, app_nil_r, take_drop.
  - intros id' Hne. cbn [accepted delivered]. by rewrite bool_decide_eq_false_2.
Qed.

Lemma alloc_effect t : wf t → effect t OAlloc (alloc t).1.
Proof.
  intros Hwf. unfold alloc. destruct (position _ _) as [slot|] eqn:E; [|by apply ef_none].
  apply position_lookup in E as ([p g] & Hz & G). apply lookup_zip_Some in Hz as [Hp Hg].
  cbn [fst snd] in G. apply andb_true_iff in G as [Ho%negb_true_iff Hlt%Z.ltb_lt].
  rewrite Hg. unfold checked_add64. rewrite (proj2 (Z.leb_le _ _)) by lia. cbn [fst].
  by apply (ef_alloc t slot p g).
Qed.

Lemma step_effect t o : wf t → effect t o (step t o).
Proof.
  intros Hwf. destruct o as [|id buf|id room|id k|id k|id|id|id|id|id|id]; cbn [step].
  - by apply alloc_effect.
  - by apply write_effect.
  - by apply read_effect.
  - unfold watch_read. destruct (get t id) as [p|] eqn:G; [|by apply ef_none]. by apply (ef_same_ring t _ id p).
  - unfold watch_write. destruct (get t id) as [p|] eqn:G; [|by apply ef_none]. by apply (ef_same_ring t _ id p).
  - unfold wake_readers. destruct (get t id) as [p|] eqn:G; [|by apply ef_none]. by apply (ef_same_ring t _ id p).
  - unfold wake_writers. destruct (get t id) as [p|] eqn:G; [|by apply ef_none]. by apply (ef_same_ring t _ id p).
  - unfold clone_reader. destruct (get t id) as [p|] eqn:G; [|by apply ef_none].
    destruct (checked_add32 _ _); [by apply (ef_same_ring t _ id p)|by apply ef_none].
  - unfold clone_writer. destruct (get t id) as [p|] eqn:G; [|by apply ef_none].
    destruct (checked_add32 _ _); [by apply (ef_same_ring t _ id p)|by apply ef_none].
  - unfold close_reader. destruct (get t id) as [p|] eqn:G; [|by apply ef_none]. by apply (ef_close t _ id p).
  - unfold close_writer. destruct (get t id) as [p|] eqn:G; [|by apply ef_none]. by apply (ef_close t _ id p).
Qed.

Lemma wf_pipe_fresh e : wf_pipe (fresh_pipe e).
Proof. destruct wf_pipe_empty as [H1 H2 H3 H4]. by split. Qed.

Lemma pipe_step_wf t o : wf t → wf (step t o).
Proof.
  intros Hwf. destruct (step_effect t o Hwf) as [|slot p g Hp Ho Hg Hlt|o id p p' G Hw _ _]; [done|..].
  - destruct Hwf as [[Hl1 Hl2] Hps Hgs]. split; cbn [pipes generations].
    + by rewrite !length_insert.
    + intros i q Hq. apply list_lookup_insert_Some in Hq as [(_ & <- & _)|[_ Hq]]; [|by eapply Hps].
      apply wf_pipe_fresh.
    + intros i h Hh. apply list_lookup_insert_Some in Hh as [(_ & <- & _)|[_ Hh]]; [|by eapply Hgs].
      pose proof (Hgs _ _ Hg). lia.
  - destruct Hwf as [[Hl1 Hl2] Hps Hgs]. split; cbn [pipes generations set_pipe]; [|..|done].
    + by rewrite !length_insert.
    + intros i q Hq. apply list_lookup_insert_Some in Hq as [(_ & <- & _)|[_ Hq]]; [done|by eapply Hps].
Qed.

Lemma pipe_wf_table_new : wf table_new.
Proof.
  split; cbn [pipes generations table_new].
  - by rewrite !length_replicate.
  - intros i p [-> _]%lookup_replicate. apply wf_pipe_empty.
  - intros i g [-> _]%lookup_replicate. unfold u64_max. lia.
Qed.

(** One step, seen from a valid identifier. *)
Lemma step_stream t o id p :
  wf t → get t id = Ok p →
  (∃ p', get (step t o) id = Ok p' ∧
     contents p ++ accepted id t o = delivered id t o ++ contents p') ∨
  get (step t o) id = Err Invalid ∧ accepted id t o = [] ∧ delivered id t o = [].
Proof.
  intros Hwf G. pose proof (get_Ok _ _ _ G) as (Hp & Ho & He).
  destruct (step_effect t o Hwf) as [o Ha Hd|slot q g Hq Hoq Hg Hlt|o id' q q' G' Hw Hc Hother].
  - left. exists p. by rewrite Ha, Hd, app_nil_r.
  - left. exists p. rewrite app_nil_r. split; [|done]. apply get_Ok_2; [|done..]. cbn [pipes].
    rewrite list_lookup_insert_ne; [done|]. intros ->. congruence.
  - destruct (decide (id' = id)) as [->|Hne].
    + replace q with p in * by congruence. destruct Hc as [(He' & Ho' & Hc)|(-> & Ha & Hd)].
      * left. exists q'. split; [|done]. eapply get_set; [done|done|congruence].
      * right. split; [by eapply get_set_empty|done].
    + left. exists p. destruct (Hother id) as [-> ->]; [done|]. rewrite app_nil_r. split; [|done].
      by eapply get_set_other.
Qed.

(** One step, seen from an identifier that was issued and is no longer valid. *)
Lemma step_stale t o id :
  wf t → issued t id → get t id = Err Invalid →
  issued (step t o) id ∧ get (step t o) id = Err Invalid ∧
  accepted id t o = [] ∧ delivered id t o = [].
Proof.
  intros Hwf (p & g & Hp & Hg & Hle) G.
  destruct (step_effect t o Hwf) as [o Ha Hd|slot q h Hq Hoq Hh Hlt|o id' q q' G' Hw Hc Hother].
  - split_and!; try done. by exists p, g.
  - destruct (decide (slot = id_slot id)) as [->|Hne].
    + replace h with g in * by congruence. split_and!; try done.
      * exists (fresh_pipe (g + 1)), (g + 1). cbn [pipes generations].
        rewrite !list_lookup_insert_eq by (by eapply lookup_lt_Some). split_and!; done || lia.
      * unfold get. cbn [pipes]. rewrite list_lookup_insert_eq by (by eapply lookup_lt_Some).
        cbn [fresh_pipe occupied epoch andb]. by rewrite (proj2 (Z.eqb_neq _ _)) by lia.
    + split_and!; try done.
      * exists p, g. cbn [pipes generations]. by rewrite !list_lookup_insert_ne.
      * unfold get in *. cbn [pipes]. by rewrite list_lookup_insert_ne.
  - assert (Hne : id' ≠ id) by (intros ->; congruence).
    destruct (Hother id) as [Ha Hd]; [done|]. pose proof (get_Ok _ _ _ G') as (Hq & Hoq & Heq).
    destruct (decide (id_slot id' = id_slot id)) as [Heqs|Hns].
    + rewrite Heqs in Hq. replace q with p in * by congruence. split_and!; try done.
      * exists q', g. cbn [pipes generations set_pipe]. rewrite Heqs.
        rewrite list_lookup_insert_eq by (by eapply lookup_lt_Some). done.
      * unfold get. cbn [pipes set_pipe]. rewrite Heqs.
        rewrite list_lookup_insert_eq by (by eapply lookup_lt_Some).
        destruct Hc as [(He' & Ho' & _)|[-> _]]; [|done]. rewrite Ho', (proj2 (Z.eqb_neq _ _)); [done|].
        intros He2. apply Hne. destruct id, id'; cbn in *. congruence.
    + split_and!; try done.
      * exists p, g. cbn [pipes generations set_pipe]. by rewrite list_lookup_insert_ne.
      * unfold get in *. cbn [pipes set_pipe]. by rewrite list_lookup_insert_ne.
Qed.

Lemma steps_wf t ops : wf t → wf (foldl step t ops).
Proof. revert t. induction ops as [|o ops IH]; intros t Ht; [done|]. apply IH. by apply pipe_step_wf. Qed.

Lemma steps_stale t id ops :
  wf t → issued t id → get t id = Err Invalid →
  issued (foldl step t ops) id ∧ get (foldl step t ops) id = Err Invalid ∧
  stream (accepted id) t ops = [] ∧ stream (delivered id) t ops = [].
Proof.
  revert t. induction ops as [|o ops IH]; intros t Hwf Hi G; [done|].
  destruct (step_stale t o id Hwf Hi G) as (Hi' & G' & Ha & Hd). cbn [foldl stream].
  rewrite Ha, Hd. apply IH; [by apply pipe_step_wf|done..].
Qed.

Lemma get_Err t id e : get t id = Err e → e = Invalid.
Proof. unfold get. repeat case_match; congruence. Qed.

Lemma issued_step t o id : wf t → issued t id → issued (step t o) id.
Proof.
  intros Hwf Hi. destruct (get t id) as [p|e] eqn:G.
  - destruct Hi as (q & g & Hq & Hg & Hle). pose proof (get_Ok _ _ _ G) as (Hp & Ho & _).
    destruct (step_effect t o Hwf) as [|slot q' h Hq' Ho' Hh Hlt|o id' q' q2 G' _ _ _]; [by exists q, g|..].
    + exists q, g. cbn [pipes generations]. rewrite !list_lookup_insert_ne by (intros ->; congruence). done.
    + destruct (decide (id_slot id' = id_slot id)) as [Heq|Hne].
      * exists q2, g. cbn [pipes generations set_pipe]. rewrite Heq, list_lookup_insert_eq by (by eapply lookup_lt_Some). done.
      * exists q, g. cbn [pipes generations set_pipe]. by rewrite list_lookup_insert_ne.
  - apply step_stale; [done|done|]. by rewrite (get_Err _ _ _ G) in G.
Qed.

Lemma steps_stream t id p ops :
  wf t → issued t id → get t id = Ok p →
  ∃ rest, contents p ++ stream (accepted id) t ops = stream (delivered id) t ops ++ rest ∧
    (∀ p', get (foldl step t ops) id = Ok p' → rest = contents p').
Proof.
  revert t p. induction ops as [|o ops IH]; intros t p Hwf Hi G; cbn [foldl stream].
  { exists (contents p). rewrite app_nil_r. split; [done|]. intros p' Hp'. congruence. }
  destruct (step_stream t o id p Hwf G) as [(p1 & G1 & Hc)|(G1 & Ha & Hd)].
  - destruct (IH (step t o) p1) as (rest & Hr & Hl); [by apply pipe_step_wf|by apply issued_step|done|].
    exists rest. split; [|done]. by rewrite (assoc_L (++)), Hc, <-!(assoc_L (++)), Hr.
  - destruct (steps_stale (step t o) id ops) as (_ & G2 & -> & ->);
      [by apply pipe_step_wf|by apply issued_step|done|].
    exists (contents p). rewrite Ha, Hd, app_nil_r. split; [done|]. intros p' Hp'. congruence.
Qed.

Lemma alloc_fresh t id :
  wf t → (alloc t).2 = Ok id →
  issued (alloc t).1 id ∧ get (alloc t).1 id = Ok (fresh_pipe (id_epoch id)) ∧ get t id = Err Invalid.
Proof.
  intros Hwf. unfold alloc. destruct (position _ _) as [slot|] eqn:E; [|done].
  apply position_lookup in E as ([p g] & Hz & G). apply lookup_zip_Some in Hz as [Hp Hg].
  cbn [fst snd] in G. apply andb_true_iff in G as [Ho%negb_true_iff Hlt%Z.ltb_lt].
  rewrite Hg. unfold checked_add64. rewrite (proj2 (Z.leb_le _ _)) by lia. cbn [fst snd].
  intros [= <-]. cbn [id_slot id_epoch]. split_and!.
  - exists (fresh_pipe (g + 1)), (g + 1). cbn [pipes generations id_slot id_epoch].
    rewrite !list_lookup_insert_eq by (by eapply lookup_lt_Some). done.
  - apply get_Ok_2; [|done..]. cbn [pipes id_slot]. apply list_lookup_insert_eq. by eapply lookup_lt_Some.
  - unfold get. cbn [id_slot]. by rewrite Hp, Ho.
Qed.

(** A pipe is a reliable byte stream. From the creation of a pipe on, in every
    interleaving of reads, writes, clones, closes and wakeups on all pipes, the bytes
    delivered are an exact prefix of the bytes accepted; while the pipe is alive the
    difference is exactly what its ring holds, at most 2048 bytes. *)
Theorem pipe_stream_faithful (t : Table) (id : PipeId) (ops : list op) :
  wf t → (alloc t).2 = Ok id →
  let t0 := (alloc t).1 in
  stream (delivered id) t0 ops `prefix_of` stream (accepted id) t0 ops ∧
  ∀ p, get (foldl step t0 ops) id = Ok p →
    stream (accepted id) t0 ops = stream (delivered id) t0 ops ++ contents p ∧
    (length (contents p) ≤ PIPE_BUFFER)%nat.
Proof.
  intros Hwf Ha. cbn zeta. destruct (alloc_fresh t id Hwf Ha) as (Hi & G & _).
  pose proof (pipe_step_wf t OAlloc Hwf) as Hwf0. cbn [step] in Hwf0.
  destruct (steps_stream _ id _ ops Hwf0 Hi G) as (rest & Hr & Hl). cbn [contents] in Hr.
  change (contents (fresh_pipe (id_epoch id))) with (@nil Z) in Hr. cbn [app] in Hr. split.
  - exists rest. done.
  - intros p Hp. rewrite Hr, (Hl p Hp). split; [done|].
    pose proof (get_Ok _ _ _ Hp) as (Hq & _).
    pose proof (wp_len _ (wf_pipes _ (steps_wf _ ops Hwf0) _ _ Hq)) as Hlen.
    unfold contents. by rewrite length_fmap, length_seq.
Qed.

Lemma pipe_stream_faithful_witness :
  let t0 := (alloc table_new).1 in
  let id := mkId 0 1 in
  let ops := [OWrite id [1; 2; 3]; ORead id 2; OWrite id [4]; OCloseWriter id] in
  stream (delivered id) t0 ops `prefix_of` stream (accepted id) t0 ops ∧
  stream (delivered id) t0 ops = [1; 2].
Proof.
  split; [|vm_compute; reflexivity].
  apply (pipe_stream_faithful table_new (mkId 0 1)); [apply pipe_wf_table_new|vm_compute; reflexivity].
Defined.

(** Identifiers are never recycled: once the pipe behind an identifier is
    retired, every later call with that identifier fails, whatever happens to the
    slot, and no later [alloc] returns it. *)
Theorem retired_pipe_id_stays_invalid (t : Table) (id : PipeId) (ops more : list op) :
  wf t → (alloc t).2 = Ok id →
  let t1 := foldl step (alloc t).1 ops in
  let t2 := foldl step t1 more in
  get t1 id = Err Invalid →
  get t2 id = Err Invalid ∧ (alloc t2).2 ≠ Ok id.
Proof.
  intros Hwf Ha. cbn zeta. intros G. destruct (alloc_fresh t id Hwf Ha) as (Hi & _).
  pose proof (pipe_step_wf t OAlloc Hwf) as Hwf0. cbn [step] in Hwf0.
  assert (Hi1 : issued (foldl step (alloc t).1 ops) id).
  { clear G. revert Hwf0 Hi. generalize (alloc t).1.
    induction ops as [|o ops IH]; intros u Hu Hui; [done|]. apply IH; [by apply pipe_step_wf|by apply issued_step]. }
  pose proof (steps_wf _ ops Hwf0) as Hwf1.
  destruct (steps_stale _ id more Hwf1 Hi1 G) as (Hi2 & G2 & _). split; [done|]. intros Hal.
  pose proof (steps_wf _ more Hwf1) as Hwf2.
  destruct (alloc_fresh _ id Hwf2 Hal) as (_ & G3 & _).
  destruct (step_stale _ OAlloc id Hwf2 Hi2 G2) as (_ & G4 & _). cbn [step] in G4. congruence.
Qed.

Lemma retired_pipe_id_stays_invalid_witness :
  let id := mkId 0 1 in
  let t1 := foldl step (alloc table_new).1 [OCloseWriter id; OCloseReader id] in
  get t1 id = Err Invalid ∧ get (foldl step t1 [OAlloc; OAlloc]) id = Err Invalid.
Proof.
  split; [vm_compute; reflexivity|].
  apply (retired_pipe_id_stays_invalid table_new (mkId 0 1) [OCloseWriter (mkId 0 1); OCloseReader (mkId 0 1)]
    [OAlloc; OAlloc]); [apply pipe_wf_table_new|vm_compute; reflexivity..].
Defined.

(** ** The blocking write loop *)

(** [try_write] asks to block exactly when it wrote nothing of a non-empty buffer. *)
Lemma try_write_block t id buf t' n b :
  wf t → (∀ p, get t id = Ok p → 0 ≤ readers p) →
  try_write t id buf = (t', Ok (n, b)) →
  b = ((n <? length buf)%nat && (n =? 0)%nat) ∧ (n ≤ length buf)%nat.
Proof.
  intros Hwf Hr. unfold try_write. destruct (get t id) as [p|] eqn:G; [|done].
  specialize (Hr p eq_refl). destruct (Z.eqb_spec (readers p) 0) as [|Hz]; [done|].
  destruct (push_bytes p buf) as [p' m] eqn:E. intros [= _ <- <-].
  pose proof (get_Ok _ _ _ G) as (Hp & _).
  destruct (push_bytes_spec p buf p' m (wf_pipes _ Hwf _ _ Hp) E) as (_ & Hf & -> & _).
  unfold frame in Hf. assert (readers p' = readers p) as -> by congruence.
  rewrite (proj2 (Z.ltb_lt _ _)) by lia. rewrite andb_true_r. split; [done|lia].
Qed.

(** C32. [write] returns success only when the whole buffer went in. Its branch for a
    partial count is unreachable: when the last reader leaves, a writer that already
    moved [total] bytes gets [Closed], and the count is lost. *)
Theorem write_all_or_error (t : Table) (id : PipeId) (task : Z) (buf : list Z) (total : nat) :
  wf t → (∀ p, get t id = Ok p → 0 ≤ readers p) → (total < length buf)%nat →
  (∀ t' woken n, write_turn t id task buf total = (t', woken, Return (Ok n)) → n = length buf) ∧
  (∀ p, get t id = Ok p → readers p = 0 →
    write_turn t id task buf total = (t, [], Return (Err Closed))).
Proof.
  intros Hwf Hr Hlt. split.
  - intros t' woken n. unfold write_turn.
    destruct (try_write t id (drop total buf)) as [t1 [[m b]|e]] eqn:E; [|congruence].
    destruct (try_write_block _ _ _ _ _ _ Hwf Hr E) as [Hb Hm]. rewrite length_drop in Hb, Hm.
    destruct (if b then _ else _) as [t2|e]; [|congruence].
    destruct (if (0 <? m)%nat then _ else _) as [t3 w].
    destruct (Nat.eqb_spec (total + m) (length buf)) as [Heq|Hne]; [congruence|].
    destruct b; [by destruct (match get t3 id with Ok _ => _ | Err _ => _ end)|].
    destruct (Nat.eqb_spec m 0) as [->|Hm0]; [|congruence].
    symmetry in Hb. apply andb_false_iff in Hb as [Hb%Nat.ltb_ge|Hb]; [lia|done].
  - intros p G Hz. unfold write_turn, try_write. rewrite G, Hz. done.
Qed.

Lemma write_all_or_error_witness :
  let id := mkId 0 1 in
  let t := foldl step (alloc table_new).1 [OWrite id [7; 7]; OCloseReader id] in
  write_turn t id 3 [7; 7; 7] 2 = (t, [], Return (Err Closed)).
Proof.
  cbv zeta. set (t := foldl step (alloc table_new).1 _).
  destruct (get t (mkId 0 1)) as [p|] eqn:G; [|vm_compute in G; done].
  assert (Hz : readers p = 0) by (vm_compute in G; by injection G as <-).
  destruct (write_all_or_error t (mkId 0 1) 3 [7; 7; 7] 2) as [_ H].
  - apply steps_wf, (pipe_step_wf table_new OAlloc), pipe_wf_table_new.
  - intros q Hq. assert (q = p) as -> by congruence. lia.
  - cbn. lia.
  - exact (H p G Hz).
Defined.

(** The pipe self test of the source passes on the boot-time table, and gives
    both pipes it made back. *)
Theorem pipe_self_test_passes :
  (self_test 9 table_new).2 = true ∧
  Forall (λ p, occupied p = false) (pipes (self_test 9 table_new).1).
Proof. split; [vm_compute; reflexivity|]. vm_compute. repeat constructor. Qed.

End PipeProofs.
