(* ===== verification/TaskControl.v ===== *)
(** * CPU topology and hotplug words (kernel/src/smp.rs)

    The per-CPU atomics the scheduler consults: which logical CPUs have published
    themselves online, the hotplug state word of each CPU, its NUMA domain and the
    published CPU count. Masks are 64-bit words with bit [c] for CPU [c]. *)
From S2P Require Import Prelude Capability WovenGuard.
Module Smp.

Definition MAX_CPUS : nat := 4.

(** The atomics [ONLINE], [OFFLINE_STATE], [DOMAINS] and [COUNT]. *)
Record Topology := mkTopology {
  online : list bool;
  offline_state : list Z;
  domains : list Z;
  count : Z
}.

Definition online_count (tp : Topology) : Z := count tp.

Definition cpu_is_online (tp : Topology) (cpu : nat) : bool :=
  default false (online tp !! cpu).

Definition hotplug_state (tp : Topology) (cpu : nat) : Z :=
  default 0 (offline_state tp !! cpu).

(** Requested or running transitions: the states 1, 2, 6 and 8. *)
Definition in_transition (s : Z) : bool := (s =? 1) || (s =? 2) || (s =? 6) || (s =? 8).

Definition cpu_is_schedulable (tp : Topology) (cpu : nat) : bool :=
  cpu_is_online tp cpu && negb (in_transition (hotplug_state tp cpu)).

(** [cpu_bit] of task.rs *)
Definition cpu_bit (cpu : nat) : Z := Z.shiftl 1 (Z.of_nat cpu).

Definition mask_of (f : nat → bool) : Z :=
  foldl (λ mask cpu, if f cpu then Z.lor mask (cpu_bit cpu) else mask) 0 (seq 0 MAX_CPUS).

Definition schedulable_mask (tp : Topology) : Z := mask_of (cpu_is_schedulable tp).
Definition online_mask (tp : Topology) : Z := mask_of (cpu_is_online tp).

Definition cpu_domain (tp : Topology) (cpu : nat) : Z :=
  default u32_max (domains tp !! cpu).

Definition offline_requested (tp : Topology) (cpu : nat) : bool :=
  bool_decide (cpu < MAX_CPUS)%nat && (hotplug_state tp cpu =? 1).

(** Stores to the atomics. *)
Definition set_hotplug_state (cpu : nat) (s : Z) (tp : Topology) : Topology :=
  mkTopology (online tp) (<[cpu := s]> (offline_state tp)) (domains tp) (count tp).
Definition set_online (cpu : nat) (b : bool) (tp : Topology) : Topology :=
  mkTopology (<[cpu := b]> (online tp)) (offline_state tp) (domains tp) (count tp).
Definition set_count (n : Z) (tp : Topology) : Topology :=
  mkTopology (online tp) (offline_state tp) (domains tp) n.

(** [compare_exchange] on a hotplug word. *)
Definition compare_exchange (cpu : nat) (expected new : Z) (tp : Topology) : Topology * bool :=
  if hotplug_state tp cpu =? expected then (set_hotplug_state cpu new tp, true) else (tp, false).

Definition cancel_unclaimed (cpu : nat) (requested stable : Z) (tp : Topology) : Topology * bool :=
  compare_exchange cpu requested stable tp.

(** ** Masks as sets of CPUs *)

Lemma cpu_bit_testbit (c : nat) i : 0 ≤ i → Z.testbit (cpu_bit c) i = bool_decide (i = Z.of_nat c).
Proof.
  intros Hi. unfold cpu_bit. rewrite Z.shiftl_1_l, Z.pow2_bits_eqb by lia.
  case_bool_decide; destruct (Z.eqb_spec (Z.of_nat c) i); (done || lia).
Qed.

Lemma testbit_mask_of f i :
  0 ≤ i → Z.testbit (mask_of f) i = bool_decide (i < 4) && f (Z.to_nat i).
Proof.
  intros Hi. assert (Hn : mask_of f = Z.lor (Z.lor (Z.lor (if f 0%nat then 1 else 0)
    (if f 1%nat then 2 else 0)) (if f 2%nat then 4 else 0)) (if f 3%nat then 8 else 0)).
  { unfold mask_of. simpl. by destruct (f 0%nat), (f 1%nat), (f 2%nat), (f 3%nat). }
  rewrite Hn. assert (i = 0 ∨ i = 1 ∨ i = 2 ∨ i = 3 ∨ 4 ≤ i) as [->|[->|[->|[->|H4]]]] by lia;
    [change (Z.to_nat 0) with 0%nat|change (Z.to_nat 1) with 1%nat
    |change (Z.to_nat 2) with 2%nat|change (Z.to_nat 3) with 3%nat|];
    [destruct (f 0%nat), (f 1%nat), (f 2%nat), (f 3%nat); vm_compute; reflexivity..|].
  rewrite bool_decide_false by lia. simpl andb.
  apply Z.bits_above_log2.
  - by destruct (f 0%nat), (f 1%nat), (f 2%nat), (f 3%nat).
  - assert (Z.log2 (Z.lor (Z.lor (Z.lor (if f 0%nat then 1 else 0)
      (if f 1%nat then 2 else 0)) (if f 2%nat then 4 else 0)) (if f 3%nat then 8 else 0)) ≤ 3); [|lia].
    destruct (f 0%nat), (f 1%nat), (f 2%nat), (f 3%nat); vm_compute; discriminate.
Qed.

Lemma mask_of_range f : 0 ≤ mask_of f < 16.
Proof.
  unfold mask_of. simpl. destruct (f 0%nat), (f 1%nat), (f 2%nat), (f 3%nat); done.
Qed.

Lemma mask_meets a c : 0 ≤ a → Z.land a (cpu_bit c) ≠ 0 ↔ Z.testbit a (Z.of_nat c) = true.
Proof.
  intros Ha. split.
  - intros H. destruct (Z.testbit a (Z.of_nat c)) eqn:E; [done|]. destruct H.
    apply Z.bits_inj_iff'. intros i Hi. rewrite Z.land_spec, cpu_bit_testbit, Z.bits_0 by done.
    case_bool_decide; subst; [by rewrite E|by rewrite andb_false_r].
  - intros H H0. assert (Z.testbit (Z.land a (cpu_bit c)) (Z.of_nat c) = false) by (rewrite H0; apply Z.bits_0).
    rewrite Z.land_spec, H, cpu_bit_testbit, bool_decide_true in H1 by lia. done.
Qed.

Lemma mask_within a m :
  in_u64 a → in_u64 m →
  Z.land a (not64 m) = 0 ↔ ∀ i, 0 ≤ i → Z.testbit a i = true → Z.testbit m i = true.
Proof.
  intros Ha Hm. split.
  - intros H i Hi Hai. destruct (Z.testbit m i) eqn:E; [done|].
    assert (Hz : Z.testbit (Z.land a (not64 m)) i = false) by (rewrite H; apply Z.bits_0).
    assert (i < 64).
    { destruct (decide (i < 64)) as [|H64]; [done|]. exfalso.
      rewrite Z.bits_above_log2 in Hai; [done|unfold in_u64 in Ha; lia|].
      destruct (decide (a = 0)) as [->|Hne]; [rewrite Z.log2_nonpos; lia|].
      apply Z.log2_lt_pow2; unfold in_u64, u64_max in Ha; [lia|].
      apply Z.lt_le_trans with (2 ^ 64); [lia|]. apply Z.pow_le_mono_r; lia. }
    rewrite Z.land_spec, Hai, not64_testbit, E in Hz by (done || lia). simpl in Hz.
    destruct (Z.ltb_spec i 64); [done|lia].
  - intros H. apply Z.bits_inj_iff'. intros i Hi. rewrite Z.bits_0, Z.land_spec.
    destruct (Z.testbit a i) eqn:E; [|done]. rewrite (not64_testbit m i) by done.
    rewrite (H i Hi E). simpl. by rewrite ?andb_false_r.
Qed.

Lemma testbit_online tp c :
  Z.testbit (online_mask tp) (Z.of_nat c) = bool_decide (c < MAX_CPUS)%nat && cpu_is_online tp c.
Proof.
  unfold online_mask. rewrite testbit_mask_of, Nat2Z.id by lia. f_equal.
  apply bool_decide_ext. unfold MAX_CPUS. lia.
Qed.

Lemma testbit_schedulable tp c :
  Z.testbit (schedulable_mask tp) (Z.of_nat c) = bool_decide (c < MAX_CPUS)%nat && cpu_is_schedulable tp c.
Proof.
  unfold schedulable_mask. rewrite testbit_mask_of, Nat2Z.id by lia. f_equal.
  apply bool_decide_ext. unfold MAX_CPUS. lia.
Qed.

Lemma mask_nonempty a : in_u64 a → a ≠ 0 → ∃ k : nat, Z.testbit a (Z.of_nat k) = true.
Proof.
  unfold in_u64. intros Ha Hne. exists (Z.to_nat (Z.log2 a)).
  rewrite Z2Nat.id by apply Z.log2_nonneg. apply Z.bit_log2. lia.
Qed.

End Smp.

(** * Task control blocks (kernel/src/task.rs, lines 205-503)

    The scheduler's per-task record with its constructors. Addresses - the static
    task stacks, the code labels, the kernel's root page table - are chosen by the
    linker and the boot code, so they are fields of the class [Platform]. *)
Module Task.
Import Cap.

Definition MAX_TASKS : nat := 32.
Definition TASK_STACK_SIZE : Z := 4096 * 32.
Definition KERNEL_TASK_ID : Z := 0.
Definition IDLE_TASK_ID : Z := 1.

(** What the image's layout and the paging code provide: the base address of each
    [TASK_STACKS] entry, the address of [idle_task] and the kernel's address space. *)
Class Platform := {
  task_stack : nat → Z;
  idle_task : Z;
  kernel_address_space : option Z
}.

(** [TaskPriority]: a [u8] newtype with three named values. *)
Definition LOW : Z := 0.
Definition NORMAL : Z := 1.
Definition HIGH : Z := 2.

Definition quantum (p : Z) : Z :=
  if p =? LOW then 1 else if p =? NORMAL then 2 else if p =? HIGH then 4 else 1.

Inductive TaskState := Empty | Ready | Running | Switching | Blocked | Sleeping | Dead.

#[export] Instance TaskState_eq_dec : EqDecision TaskState.
Proof. solve_decision. Defined.

Record UserTaskContext := mkUserContext {
  user_entry : Z;
  user_stack_top : Z;
  code_segment : Z;
  data_segment : Z
}.

Record Tcb := mkTcb {
  id : Z;
  name : string;
  state : TaskState;
  priority : Z;
  stack_pointer : Z;
  capabilities : CapabilitySet;
  capability_lineages : list (option Z);
  security_domain : Guard.SecurityDomain;
  sandbox_profile : Guard.SandboxProfile;
  entry : option Z;
  wake_tick : Z;
  user_context : option UserTaskContext;
  address_space : option Z;
  remaining_ticks : Z;
  cpu : nat;
  migratable : bool;
  ever_dispatched : bool;
  affinity_mask : Z;
  termination_signal : Z;
  event_pending : bool;
  event_deadline : option Z
}.

(** Field stores. *)
Definition set_id (v : Z) (t : Tcb) : Tcb :=
  mkTcb v (name t) (state t) (priority t) (stack_pointer t) (capabilities t)
    (capability_lineages t) (security_domain t) (sandbox_profile t) (entry t) (wake_tick t)
    (user_context t) (address_space t) (remaining_ticks t) (cpu t) (migratable t)
    (ever_dispatched t) (affinity_mask t) (termination_signal t) (event_pending t)
    (event_deadline t).
Definition set_name (v : string) (t : Tcb) : Tcb :=
  mkTcb (id t) v (state t) (priority t) (stack_pointer t) (capabilities t)
    (capability_lineages t) (security_domain t) (sandbox_profile t) (entry t) (wake_tick t)
    (user_context t) (address_space t) (remaining_ticks t) (cpu t) (migratable t)
    (ever_dispatched t) (affinity_mask t) (termination_signal t) (event_pending t)
    (event_deadline t).
Definition set_state (v : TaskState) (t : Tcb) : Tcb :=
  mkTcb (id t) (name t) v (priority t) (stack_pointer t) (capabilities t)
    (capability_lineages t) (security_domain t) (sandbox_profile t) (entry t) (wake_tick t)
    (user_context t) (address_space t) (remaining_ticks t) (cpu t) (migratable t)
    (ever_dispatched t) (affinity_mask t) (termination_signal t) (event_pending t)
    (event_deadline t).
Definition set_priority (v : Z) (t : Tcb) : Tcb :=
  mkTcb (id t) (name t) (state t) v (stack_pointer t) (capabilities t) (capability_lineages t)
    (security_domain t) (sandbox_profile t) (entry t) (wake_tick t) (user_context t)
    (address_space t) (remaining_ticks t) (cpu t) (migratable t) (ever_dispatched t)
    (affinity_mask t) (termination_signal t) (event_pending t) (event_deadline t).
Definition set_stack_pointer (v : Z) (t : Tcb) : Tcb :=
  mkTcb (id t) (name t) (state t) (priority t) v (capabilities t) (capability_lineages t)
    (security_domain t) (sandbox_profile t) (entry t) (wake_tick t) (user_context t)
    (address_space t) (remaining_ticks t) (cpu t) (migratable t) (ever_dispatched t)
    (affinity_mask t) (termination_signal t) (event_pending t) (event_deadline t).
Definition set_capabilities (v : CapabilitySet) (t : Tcb) : Tcb :=
  mkTcb (id t) (name t) (state t) (priority t) (stack_pointer t) v (capability_lineages t)
    (security_domain t) (sandbox_profile t) (entry t) (wake_tick t) (user_context t)
    (address_space t) (remaining_ticks t) (cpu t) (migratable t) (ever_dispatched t)
    (affinity_mask t) (termination_signal t) (event_pending t) (event_deadline t).
Definition set_capability_lineages (v : list (option Z)) (t : Tcb) : Tcb :=
  mkTcb (id t) (name t) (state t) (priority t) (stack_pointer t) (capabilities t) v
    (security_domain t) (sandbox_profile t) (entry t) (wake_tick t) (user_context t)
    (address_space t) (remaining_ticks t) (cpu t) (migratable t) (ever_dispatched t)
    (affinity_mask t) (termination_signal t) (event_pending t) (event_deadline t).
Definition set_security_domain (v : Guard.SecurityDomain) (t : Tcb) : Tcb :=
  mkTcb (id t) (name t) (state t) (priority t) (stack_pointer t) (capabilities t)
    (capability_lineages t) v (sandbox_profile t) (entry t) (wake_tick t) (user_context t)
    (address_space t) (remaining_ticks t) (cpu t) (migratable t) (ever_dispatched t)
    (affinity_mask t) (termination_signal t) (event_pending t) (event_deadline t).
Definition set_sandbox_profile (v : Guard.SandboxProfile) (t : Tcb) : Tcb :=
  mkTcb (id t) (name t) (state t) (priority t) (stack_pointer t) (capabilities t)
    (capability_lineages t) (security_domain t) v (entry t) (wake_tick t) (user_context t)
    (address_space t) (remaining_ticks t) (cpu t) (migratable t) (ever_dispatched t)
    (affinity_mask t) (termination_signal t) (event_pending t) (event_deadline t).
Definition set_wake_tick (v : Z) (t : Tcb) : Tcb :=
  mkTcb (id t) (name t) (state t) (priority t) (stack_pointer t) (capabilities t)
    (capability_lineages t) (security_domain t) (sandbox_profile t) (entry t) v
    (user_context t) (address_space t) (remaining_ticks t) (cpu t) (migratable t)
    (ever_dispatched t) (affinity_mask t) (termination_signal t) (event_pending t)
    (event_deadline t).
Definition set_address_space (v : option Z) (t : Tcb) : Tcb :=
  mkTcb (id t) (name t) (state t) (priority t) (stack_pointer t) (capabilities t)
    (capability_lineages t) (security_domain t) (sandbox_profile t) (entry t) (wake_tick t)
    (user_context t) v (remaining_ticks t) (cpu t) (migratable t) (ever_dispatched t)
    (affinity_mask t) (termination_signal t) (event_pending t) (event_deadline t).
Definition set_remaining_ticks (v : Z) (t : Tcb) : Tcb :=
  mkTcb (id t) (name t) (state t) (priority t) (stack_pointer t) (capabilities t)
    (capability_lineages t) (security_domain t) (sandbox_profile t) (entry t) (wake_tick t)
    (user_context t) (address_space t) v (cpu t) (migratable t) (ever_dispatched t)
    (affinity_mask t) (termination_signal t) (event_pending t) (event_deadline t).
Definition set_cpu (v : nat) (t : Tcb) : Tcb :=
  mkTcb (id t) (name t) (state t) (priority t) (stack_pointer t) (capabilities t)
    (capability_lineages t) (security_domain t) (sandbox_profile t) (entry t) (wake_tick t)
    (user_context t) (address_space t) (remaining_ticks t) v (migratable t) (ever_dispatched t)
    (affinity_mask t) (termination_signal t) (event_pending t) (event_deadline t).
Definition set_migratable (v : bool) (t : Tcb) : Tcb :=
  mkTcb (id t) (name t) (state t) (priority t) (stack_pointer t) (capabilities t)
    (capability_lineages t) (security_domain t) (sandbox_profile t) (entry t) (wake_tick t)
    (user_context t) (address_space t) (remaining_ticks t) (cpu t) v (ever_dispatched t)
    (affinity_mask t) (termination_signal t) (event_pending t) (event_deadline t).
Definition set_ever_dispatched (v : bool) (t : Tcb) : Tcb :=
  mkTcb (id t) (name t) (state t) (priority t) (stack_pointer t) (capabilities t)
    (capability_lineages t) (security_domain t) (sandbox_profile t) (entry t) (wake_tick t)
    (user_context t) (address_space t) (remaining_ticks t) (cpu t) (migratable t) v
    (affinity_mask t) (termination_signal t) (event_pending t) (event_deadline t).
Definition set_affinity_mask (v : Z) (t : Tcb) : Tcb :=
  mkTcb (id t) (name t) (state t) (priority t) (stack_pointer t) (capabilities t)
    (capability_lineages t) (security_domain t) (sandbox_profile t) (entry t) (wake_tick t)
    (user_context t) (address_space t) (remaining_ticks t) (cpu t) (migratable t)
    (ever_dispatched t) v (termination_signal t) (event_pending t) (event_deadline t).
Definition set_termination_signal (v : Z) (t : Tcb) : Tcb :=
  mkTcb (id t) (name t) (state t) (priority t) (stack_pointer t) (capabilities t)
    (capability_lineages t) (security_domain t) (sandbox_profile t) (entry t) (wake_tick t)
    (user_context t) (address_space t) (remaining_ticks t) (cpu t) (migratable t)
    (ever_dispatched t) (affinity_mask t) v (event_pending t) (event_deadline t).
Definition set_event_pending (v : bool) (t : Tcb) : Tcb :=
  mkTcb (id t) (name t) (state t) (priority t) (stack_pointer t) (capabilities t)
    (capability_lineages t) (security_domain t) (sandbox_profile t) (entry t) (wake_tick t)
    (user_context t) (address_space t) (remaining_ticks t) (cpu t) (migratable t)
    (ever_dispatched t) (affinity_mask t) (termination_signal t) v (event_deadline t).
Definition set_event_deadline (v : option Z) (t : Tcb) : Tcb :=
  mkTcb (id t) (name t) (state t) (priority t) (stack_pointer t) (capabilities t)
    (capability_lineages t) (security_domain t) (sandbox_profile t) (entry t) (wake_tick t)
    (user_context t) (address_space t) (remaining_ticks t) (cpu t) (migratable t)
    (ever_dispatched t) (affinity_mask t) (termination_signal t) (event_pending t) v.

Definition no_lineages : list (option Z) := replicate COUNT None.

Definition tcb_empty : Tcb :=
  mkTcb u64_max "" Empty NORMAL 0 empty no_lineages Guard.Restricted
    (Guard.default_sandbox Guard.Restricted) None 0 None None 0 0 false false 1 0 false None.

(** The stack a fresh task is dispatched from: the entry address, RFLAGS and six
    callee-saved registers below the aligned top, with eight bytes reserved. *)
Definition align16 (a : Z) : Z := Z.land a (not64 15).
Definition fresh_stack_pointer (stack_start : Z) : Z :=
  align16 (stack_start + TASK_STACK_SIZE) - 8 - 8 * 8.

Definition initialize `{Platform} (slot : nat) (i : Z) (nm : string) (e : Z) (p : Z) (t : Tcb) : Tcb :=
  mkTcb i nm Ready p (fresh_stack_pointer (task_stack slot)) empty no_lineages
    Guard.SystemService (Guard.default_sandbox Guard.SystemService) (Some e) 0 None
    kernel_address_space (quantum p) (cpu t) false false 1 0 false None.

Definition initialize_user `{Platform} (slot : nat) (i : Z) (nm : string) (ctx : UserTaskContext)
    (space : Z) (t : Tcb) : Tcb :=
  mkTcb i nm Ready NORMAL (fresh_stack_pointer (task_stack slot)) userspace no_lineages
    Guard.User (Guard.default_sandbox Guard.User) None 0 (Some ctx)
    (Some space) (quantum NORMAL) (cpu t) false false 1 0 false None.

(** [ForkSecurityContext]: what a fork child inherits. *)
Record ForkSecurityContext := mkForkSecurity {
  fork_capabilities : CapabilitySet;
  fork_lineages : list (option Z);
  fork_domain : Guard.SecurityDomain;
  fork_sandbox : Guard.SandboxProfile
}.

(** [frame_size] is the size of the saved user frame at the top of the stack. *)
Definition initialize_fork `{Platform} (slot : nat) (i frame_size space : Z)
    (sec : ForkSecurityContext) (t : Tcb) : Tcb :=
  mkTcb i "fork-child" Ready NORMAL
    (align16 (task_stack slot + TASK_STACK_SIZE) - frame_size - 8 * 8)
    (fork_capabilities sec) (fork_lineages sec) (fork_domain sec) (fork_sandbox sec)
    None 0 None (Some space) (quantum NORMAL) (cpu t) false false 1 0 false None.

Definition is_idle_name (nm : string) : bool :=
  bool_decide (nm = "idle"%string) || bool_decide (nm = "cpu-idle"%string).

(** [!matches!(state, Empty | Dead)] *)
Definition live (t : Tcb) : bool :=
  negb (bool_decide (state t = Empty)) && negb (bool_decide (state t = Dead)).

End Task.
