(* ===== verification/Scheduler.v ===== *)
(** * The SMP scheduler (kernel/src/task.rs)

    The global scheduler state and every operation that runs under its lock: the
    two-phase context switch, blocking and wakeups with the event latch, spawning,
    affinity, load balancing and CPU evacuation. An operation is one critical section
    and takes the executing CPU [me] ([smp::cpu_index()]) and, where the source reads
    it, the tick [now]. [None] stands for a panic ([assert!], [expect]). *)
From S2P Require Import Prelude Capability WovenGuard SecurityLedger Lineage LineageService TaskControl.
Module Sched.
Import Smp Task.

Record Scheduler := mkSched {
  tasks : list Tcb;
  current_slot : list nat;
  task_count : Z;
  context_switches : Z;
  last_selected : list (list nat);
  switching_out : list nat
}.

Definition sched_empty : Scheduler :=
  mkSched (replicate MAX_TASKS tcb_empty) (replicate MAX_CPUS 0%nat) 0 0
    (replicate MAX_CPUS (replicate 3 0%nat)) (replicate MAX_CPUS MAX_TASKS).

(** The scheduler with the globals its operations touch: CPU topology, the task id
    counter, the audited lineage registry, the terminations reported to
    [complete_process_termination], the local preemption flags and the IPIs sent. *)
Record World := mkWorld {
  smp : Topology;
  sched : Scheduler;
  next_task_id : Z;
  sec : Service.Sys;
  exits : list (Z * Z);
  preempt : list bool;
  ipis : list nat
}.

Definition set_smp (tp : Topology) (w : World) : World :=
  mkWorld tp (sched w) (next_task_id w) (sec w) (exits w) (preempt w) (ipis w).
Definition set_sched (s : Scheduler) (w : World) : World :=
  mkWorld (smp w) s (next_task_id w) (sec w) (exits w) (preempt w) (ipis w).
Definition set_sec (s : Service.Sys) (w : World) : World :=
  mkWorld (smp w) (sched w) (next_task_id w) s (exits w) (preempt w) (ipis w).
Definition set_tasks (ts : list Tcb) (w : World) : World :=
  set_sched (mkSched ts (current_slot (sched w)) (task_count (sched w)) (context_switches (sched w))
    (last_selected (sched w)) (switching_out (sched w))) w.
Definition update_task (slot : nat) (f : Tcb → Tcb) (w : World) : World :=
  set_tasks (alter f slot (tasks (sched w))) w.
Definition set_current_slot (cpu slot : nat) (w : World) : World :=
  set_sched (mkSched (tasks (sched w)) (<[cpu := slot]> (current_slot (sched w))) (task_count (sched w))
    (context_switches (sched w)) (last_selected (sched w)) (switching_out (sched w))) w.
Definition set_switching_out (cpu slot : nat) (w : World) : World :=
  set_sched (mkSched (tasks (sched w)) (current_slot (sched w)) (task_count (sched w))
    (context_switches (sched w)) (last_selected (sched w)) (<[cpu := slot]> (switching_out (sched w)))) w.
Definition set_last_selected (cpu prio slot : nat) (w : World) : World :=
  set_sched (mkSched (tasks (sched w)) (current_slot (sched w)) (task_count (sched w))
    (context_switches (sched w)) (alter (λ l, <[prio := slot]> l) cpu (last_selected (sched w)))
    (switching_out (sched w))) w.
Definition set_task_count (n : Z) (w : World) : World :=
  set_sched (mkSched (tasks (sched w)) (current_slot (sched w)) n (context_switches (sched w))
    (last_selected (sched w)) (switching_out (sched w))) w.
Definition count_switch (w : World) : World :=
  set_sched (mkSched (tasks (sched w)) (current_slot (sched w)) (task_count (sched w))
    (wrapping_add64 (context_switches (sched w)) 1) (last_selected (sched w)) (switching_out (sched w))) w.
Definition retire_one (w : World) : World :=
  set_task_count (saturating_sub (task_count (sched w)) 1) w.

(** [NEXT_TASK_ID.fetch_add(1)] *)
Definition fresh_id (w : World) : World * Z :=
  (mkWorld (smp w) (sched w) (wrapping_add64 (next_task_id w) 1) (sec w) (exits w) (preempt w) (ipis w),
   next_task_id w).

(** [complete_process_termination(task, signal)] is recorded in order. *)
Definition complete_process_termination (task signal : Z) (w : World) : World :=
  mkWorld (smp w) (sched w) (next_task_id w) (sec w) (exits w ++ [(task, signal)]) (preempt w) (ipis w).

(** [smp::reschedule_cpu]: a local preemption request, or an IPI to another CPU. *)
Definition request_reschedule (me : nat) (w : World) : World :=
  mkWorld (smp w) (sched w) (next_task_id w) (sec w) (exits w) (<[me := true]> (preempt w)) (ipis w).
Definition reschedule_cpu (me cpu : nat) (w : World) : World * bool :=
  if negb (cpu_is_online (smp w) cpu) then (w, false)
  else if bool_decide (cpu = me) then (request_reschedule me w, true)
  else (mkWorld (smp w) (sched w) (next_task_id w) (sec w) (exits w) (preempt w) (ipis w ++ [cpu]), true).

(** ** Boot *)

Section platform.
Context `{Platform}.

Definition boot_kernel_task (t : Tcb) : Tcb :=
  mkTcb KERNEL_TASK_ID "kernel" Running HIGH (stack_pointer t) Cap.kernel_bootstrap no_lineages
    Guard.Kernel (Guard.default_sandbox Guard.Kernel) (entry t) (wake_tick t) (user_context t)
    kernel_address_space (quantum HIGH) 0 false true (cpu_bit 0)
    (termination_signal t) (event_pending t) (event_deadline t).

Definition boot_idle_task (t : Tcb) : Tcb :=
  set_affinity_mask (cpu_bit 0) (set_cpu 0%nat
    (set_sandbox_profile (Guard.default_sandbox Guard.Restricted)
      (set_security_domain Guard.Restricted
        (initialize 1 IDLE_TASK_ID "idle" idle_task LOW t)))).

(** [Scheduler::initialize] *)
Definition sched_initialize (w : World) : option World :=
  if negb (task_count (sched w) =? 0) then None
  else Some (set_task_count 2 (update_task 1 boot_idle_task (update_task 0 boot_kernel_task w))).

(** ** The affinity checker *)

Definition task_valid (tp : Topology) (t : Tcb) : bool :=
  negb (affinity_mask t =? 0) &&
  (Z.land (affinity_mask t) (not64 (online_mask tp)) =? 0) &&
  cpu_is_online tp (cpu t) &&
  negb (Z.land (affinity_mask t) (cpu_bit (cpu t)) =? 0) &&
  (if bool_decide (entry t = None) && negb (migratable t)
   then affinity_mask t =? cpu_bit (cpu t) else true).

Definition validate_affinity_invariants (w : World) : bool :=
  forallb (λ t, negb (live t) || task_valid (smp w) t) (tasks (sched w)).

(** Continue with [w] if the checker accepts it, panic otherwise. *)
Definition validated {A} (w : World) (k : option A) : option A :=
  if validate_affinity_invariants w then k else None.

(** ** Reaping and waking *)

Definition doomed (me cur slot : nat) (t : Tcb) : bool :=
  negb (bool_decide (slot = cur)) && bool_decide (state t = Dead) && bool_decide (cpu t = me).

Fixpoint revoke_each (owners : list Z) (r : Lin.Registry) : option Lin.Registry :=
  match owners with
  | [] => Some r
  | o :: owners => '(r, _) ← Lin.revoke_all_owned_lineages r o; revoke_each owners r
  end.

Definition reap_dead (me : nat) (w : World) : option World :=
  cur ← current_slot (sched w) !! me;
  let owners := flatten (imap (λ slot t, if doomed me cur slot t then Some (id t) else None) (tasks (sched w))) in
  r ← revoke_each owners (Service.lineages (sec w));
  Some (set_sec (Service.set_lineages r (sec w))
    (set_tasks (imap (λ slot t, if doomed me cur slot t then tcb_empty else t) (tasks (sched w))) w)).

Definition wake_one (now : Z) (t : Tcb) : Tcb :=
  let t := if bool_decide (state t = Blocked)
              && match event_deadline t with Some d => d <=? now | None => false end
           then set_event_deadline None (set_state Ready t) else t in
  if bool_decide (state t = Sleeping) && (wake_tick t <=? now)
  then set_wake_tick 0 (set_state Ready t) else t.

Definition wake_sleeping (now : Z) (w : World) : World :=
  set_tasks (wake_one now <$> tasks (sched w)) w.

(** ** The two-phase context switch *)

Record ContextSwitch := mkSwitch {
  next_privilege_stack : Z;
  previous_slot : nat;
  next_rsp : Z;
  next_address_space : Z
}.

Definition eligible (me : nat) (t : Tcb) : bool :=
  bool_decide (state t = Ready) && bool_decide (cpu t = me)
  && negb (Z.land (affinity_mask t) (cpu_bit me) =? 0).

(** [.map(|task| task.priority).max()] *)
Definition best_priority (me : nat) (ts : list Tcb) : option Z :=
  foldl (λ best t, if eligible me t
                   then Some (match best with Some p => Z.max p (priority t) | None => priority t end)
                   else best) None ts.

Definition next_slot (me : nat) (ts : list Tcb) (start : nat) (best : Z) : option nat :=
  List.find (λ slot, match ts !! slot with
                     | Some t => eligible me t && (priority t =? best)
                     | None => false end)
    ((λ offset, (start + offset) `mod` MAX_TASKS)%nat <$> seq 1 MAX_TASKS).

(** The incoming task is published [Running]. *)
Definition dispatch (t : Tcb) : Tcb :=
  set_remaining_ticks (quantum (priority t)) (set_state Running (set_ever_dispatched true t)).

Definition prepare_switch (me : nat) (w : World) : option (World * option ContextSwitch) :=
  w ← reap_dead me w;
  validated w
  (match best_priority me (tasks (sched w)) with
   | None => Some (w, None)
   | Some best =>
     row ← last_selected (sched w) !! me;
     start ← row !! Z.to_nat best;
     match next_slot me (tasks (sched w)) start best with
     | None => Some (w, None)
     | Some next =>
       incoming ← tasks (sched w) !! next;
       space ← address_space incoming;
       let w := set_last_selected me (Z.to_nat best) next w in
       previous ← current_slot (sched w) !! me;
       outgoing ← tasks (sched w) !! previous;
       w ← (if bool_decide (state outgoing = Running) then
              pending ← switching_out (sched w) !! me;
              if bool_decide (pending = MAX_TASKS)
              then Some (set_switching_out me previous (update_task previous (set_state Switching) w))
              else None
            else Some w);
       let w := count_switch (set_current_slot me next (update_task next dispatch w)) in
       Some (w, Some (mkSwitch (align16 (task_stack next + TASK_STACK_SIZE)) previous
                        (stack_pointer incoming) space))
     end
   end).

(** Run on the incoming stack, after the physical switch. *)
Definition finalize_switch (me : nat) (w : World) : option World :=
  outgoing ← switching_out (sched w) !! me;
  if bool_decide (outgoing = MAX_TASKS) then Some w else
  cur ← current_slot (sched w) !! me;
  t ← tasks (sched w) !! outgoing;
  if bool_decide (outgoing = cur) then None else
  if negb (bool_decide (state t = Switching)) then None else
  let signal := termination_signal t in
  let w :=
    if negb (signal =? 0) then
      complete_process_termination (id t) signal
        (retire_one (update_task outgoing
          (λ t, set_termination_signal 0 (set_name "terminated" (set_state Dead t))) w))
    else update_task outgoing (set_state Ready) w in
  Some (set_switching_out me MAX_TASKS w).

(** [yield_now]: its critical section. *)
Definition yield_now (me : nat) (w : World) : option (World * option ContextSwitch) :=
  if task_count (sched w) =? 0 then None else prepare_switch me w.

Definition request_termination (i signal : Z) (w : World) : World * option nat :=
  match position (λ t, (id t =? i) && live t) (tasks (sched w)) with
  | None => (w, None)
  | Some slot =>
    match tasks (sched w) !! slot with
    | None => (w, None)
    | Some t =>
      let w := update_task slot (set_termination_signal signal) w in
      (match state t with
       | Ready | Blocked | Sleeping =>
           complete_process_termination i signal
             (retire_one (update_task slot
               (λ t, set_termination_signal 0 (set_name "terminated" (set_state Dead t))) w))
       | _ => w
       end, Some (cpu t))
    end
  end.

(** ** The timer tick *)

(** [lock_free] is the outcome of [SCHEDULER.try_lock()]. *)
Definition tick (me : nat) (lock_free : bool) (now : Z) (w : World) : option World :=
  if negb lock_free then Some (request_reschedule me w) else
  let w := wake_sleeping now w in
  slot ← current_slot (sched w) !! me;
  t ← tasks (sched w) !! slot;
  Some (if negb (bool_decide (state t = Running)) then w
        else if 1 <? remaining_ticks t
        then update_task slot (set_remaining_ticks (remaining_ticks t - 1)) w
        else request_reschedule me (update_task slot (set_remaining_ticks 0) w)).

(** [suspended]: a file fault or a local preemption guard is active on this CPU. *)
Definition preempt_from_interrupt (me : nat) (suspended lock_free : bool) (now : Z) (w : World)
    : option (World * option ContextSwitch) :=
  if suspended then Some (w, None) else
  requested ← preempt w !! me;
  if negb requested then Some (w, None) else
  let w := mkWorld (smp w) (sched w) (next_task_id w) (sec w) (exits w) (<[me := false]> (preempt w)) (ipis w) in
  if negb lock_free then Some (request_reschedule me w, None)
  else prepare_switch me (wake_sleeping now w).

(** ** Blocking *)

(** The current slot of this CPU, refused ([None]) when it is the kernel task's. *)
Definition blockable_slot (me : nat) (w : World) : option nat :=
  slot ← current_slot (sched w) !! me;
  t ← tasks (sched w) !! slot;
  if id t =? KERNEL_TASK_ID then None else Some slot.

Definition expect_switch (r : option (World * option ContextSwitch)) : option (World * ContextSwitch) :=
  '(w, cs) ← r; cs ← cs; Some (w, cs).

Definition block_current (me : nat) (w : World) : option (World * ContextSwitch) :=
  slot ← blockable_slot me w;
  expect_switch (prepare_switch me (update_task slot (set_state Blocked) w)).

Definition sleep_current (me : nat) (now ticks : Z) (w : World) : option (World * ContextSwitch) :=
  slot ← blockable_slot me w;
  expect_switch (prepare_switch me (update_task slot
    (λ t, set_state Sleeping (set_wake_tick (saturating_add64 now (Z.max ticks 1)) t)) w)).

Definition wait_for_event_until (me : nat) (now deadline : Z) (w : World)
    : option (World * option ContextSwitch) :=
  slot ← blockable_slot me w;
  t ← tasks (sched w) !! slot;
  if event_pending t then Some (update_task slot (set_event_pending false) w, None)
  else if negb (deadline =? u64_max) && (deadline <=? now) then Some (w, None)
  else
    '(w, cs) ← expect_switch (prepare_switch me (update_task slot
      (λ t, set_event_deadline (if deadline =? u64_max then None else Some deadline)
              (set_state Blocked t)) w));
    Some (w, Some cs).

Definition exit_current_task (me : nat) (w : World) : option (World * option ContextSwitch) :=
  slot ← blockable_slot me w;
  prepare_switch me (retire_one (update_task slot (set_state Dead) w)).

(** ** Waking *)

(** The common wake transition. *)
Definition make_ready (t : Tcb) : Tcb :=
  set_event_deadline None (set_wake_tick 0 (set_state Ready t)).

Definition wake_task (me : nat) (i : Z) (w : World) : World * bool :=
  match position (λ t, (id t =? i) && (bool_decide (state t = Blocked) || bool_decide (state t = Sleeping)))
          (tasks (sched w)) with
  | None => (w, false)
  | Some slot =>
    let target := from_option cpu 0%nat (tasks (sched w) !! slot) in
    ((reschedule_cpu me target (update_task slot make_ready w)).1, true)
  end.

Definition signal_event (me : nat) (i : Z) (w : World) : World * bool :=
  match position (λ t, (id t =? i) && negb (bool_decide (state t = Empty))) (tasks (sched w)) with
  | None => (w, false)
  | Some slot =>
    match tasks (sched w) !! slot with
    | None => (w, false)
    | Some t =>
      if bool_decide (state t = Blocked)
      then ((reschedule_cpu me (cpu t) (update_task slot make_ready w)).1, true)
      else (update_task slot (set_event_pending true) w, true)
    end
  end.

(** ** Spawning *)

Inductive SpawnError := Full | OfflineCpu | InvalidAffinity.

#[local] Instance SpawnError_eq_dec : EqDecision SpawnError.
Proof. solve_decision. Defined.

Definition free_slot (w : World) : option nat :=
  position (λ t, bool_decide (state t = Empty)) (tasks (sched w)).

Definition add_task (w : World) : World := set_task_count (task_count (sched w) + 1) w.

Definition spawn_with_priority (nm : string) (e p : Z) (w : World)
    : option (World * result Z SpawnError) :=
  if task_count (sched w) =? 0 then None else
  Some (match free_slot w with
        | None => (w, Err Full)
        | Some slot =>
          let '(w, i) := fresh_id w in
          (add_task (update_task slot (initialize slot i nm e p) w), Ok i)
        end).

Definition spawn_kernel_on (me cpu : nat) (nm : string) (e : Z) (mig : bool) (affinity : Z) (w : World)
    : World * result Z SpawnError :=
  if negb (cpu_is_schedulable (smp w) cpu)
     || negb (Z.land affinity (not64 (schedulable_mask (smp w))) =? 0)
  then (w, Err OfflineCpu)
  else if Z.land affinity (cpu_bit cpu) =? 0 then (w, Err InvalidAffinity)
  else match free_slot w with
       | None => (w, Err Full)
       | Some slot =>
         let '(w, i) := fresh_id w in
         let w := add_task (update_task slot
           (λ t, set_affinity_mask affinity (set_migratable mig (set_cpu cpu
             (initialize slot i nm e NORMAL t)))) w) in
         ((reschedule_cpu me cpu w).1, Ok i)
       end.

Definition spawn_on (me cpu : nat) (nm : string) (e : Z) (w : World) : World * result Z SpawnError :=
  spawn_kernel_on me cpu nm e false (cpu_bit cpu) w.

Definition spawn_migratable_on (me cpu : nat) (nm : string) (e : Z) (w : World)
    : World * result Z SpawnError :=
  spawn_kernel_on me cpu nm e true (schedulable_mask (smp w)) w.

(** An AP publishes its idle context. *)
Definition cpu_idle (slot : nat) (i : Z) (c : nat) (t : Tcb) : Tcb :=
  set_state Running (set_affinity_mask (cpu_bit c) (set_cpu c
    (initialize slot i "cpu-idle" idle_task LOW t))).

Definition init_ap (c : nat) (w : World) : option World :=
  slot ← free_slot w;
  let '(w, i) := fresh_id w in
  Some (add_task (set_current_slot c slot (update_task slot (cpu_idle slot i c) w))).

(** ** Affinity and migration *)

Inductive MigrationError := UnknownTask | MOfflineCpu | AffinityDenied | Pinned | NotReady.
Inductive AffinityError := AUnknownTask | InvalidMask | AOfflineCpu | APinned | ANotReady.

Definition find_task (i : Z) (w : World) : option (nat * Tcb) :=
  slot ← position (λ t, (id t =? i) && negb (bool_decide (state t = Empty))) (tasks (sched w));
  t ← tasks (sched w) !! slot;
  Some (slot, t).

Definition migrate_ready_task (me : nat) (i : Z) (target : nat) (w : World)
    : option (World * result () MigrationError) :=
  if negb (cpu_is_schedulable (smp w) target) then Some (w, Err MOfflineCpu) else
  match find_task i w with
  | None => Some (w, Err UnknownTask)
  | Some (slot, t) =>
    if negb (migratable t) then Some (w, Err Pinned)
    else if Z.land (affinity_mask t) (cpu_bit target) =? 0 then Some (w, Err AffinityDenied)
    else if negb (bool_decide (state t = Ready)) then Some (w, Err NotReady)
    else
      let w := update_task slot (set_cpu target) w in
      validated w (Some ((reschedule_cpu me target w).1, Ok ()))
  end.

Definition task_affinity (i : Z) (w : World) : option Z := affinity_mask ∘ snd <$> find_task i w.

(** [seen] is what [online_affinity_mask] returned. *)
Definition set_affinity_seen (seen : Z) (me : nat) (i affinity : Z) (w : World)
    : option (World * result () AffinityError) :=
  if affinity =? 0 then Some (w, Err InvalidMask) else
  if negb (Z.land affinity (not64 seen) =? 0) then Some (w, Err AOfflineCpu) else
  match find_task i w with
  | None => Some (w, Err AUnknownTask)
  | Some (slot, t) =>
    if negb (migratable t) then Some (w, Err APinned)
    else if negb (bool_decide (state t = Ready)) then Some (w, Err ANotReady)
    else
      let w := update_task slot (set_affinity_mask affinity) w in
      if negb (Z.land affinity (cpu_bit (cpu t)) =? 0) then validated w (Some (w, Ok ()))
      else
        new_cpu ← List.find (λ c, negb (Z.land affinity (cpu_bit c) =? 0)) (seq 0 MAX_CPUS);
        let w := update_task slot (set_cpu new_cpu) w in
        validated w (Some ((reschedule_cpu me new_cpu w).1, Ok ()))
  end.

Definition set_ready_task_affinity (me : nat) (i affinity : Z) (w : World)
    : option (World * result () AffinityError) :=
  set_affinity_seen (schedulable_mask (smp w)) me i affinity w.

(** ** Load balancing *)

Record CpuRunLoad := mkLoad { ready : nat; running : nat }.
Definition runnable (l : CpuRunLoad) : nat := (ready l + running l)%nat.

Definition count_task (loads : list CpuRunLoad) (t : Tcb) : list CpuRunLoad :=
  if bool_decide (MAX_CPUS ≤ cpu t)%nat || is_idle_name (name t) then loads
  else match state t with
       | Ready => alter (λ l, mkLoad (S (ready l)) (running l)) (cpu t) loads
       | Running | Switching => alter (λ l, mkLoad (ready l) (S (running l))) (cpu t) loads
       | _ => loads
       end.

Definition run_loads (ts : list Tcb) : list CpuRunLoad :=
  foldl count_task (replicate MAX_CPUS (mkLoad 0 0)) ts.

Definition load_of (loads : list CpuRunLoad) (c : nat) : nat := from_option runnable 0%nat (loads !! c).

(** Lexicographic order on the placement key (cross-domain, load, CPU). *)
Definition key_lt (a b : bool * nat * nat) : bool :=
  let '(xa, la, ca) := a in
  let '(xb, lb, cb) := b in
  (negb xa && xb) || (bool_decide (xa = xb) &&
    (bool_decide (la < lb)%nat || (bool_decide (la = lb) && bool_decide (ca < cb)%nat))).

Definition placement_key (tp : Topology) (loads : list CpuRunLoad) (me c : nat) : bool * nat * nat :=
  (negb (cpu_domain tp c =? cpu_domain tp me), load_of loads c, c).

Definition min_placement (tp : Topology) (loads : list CpuRunLoad) (me : nat) (cs : list nat) : option nat :=
  foldl (λ best c, match best with
                   | None => Some c
                   | Some b => if key_lt (placement_key tp loads me c) (placement_key tp loads me b)
                               then Some c else Some b
                   end) None cs.

Definition least_loaded_cpu_for_mask (me : nat) (affinity : Z) (w : World) : option nat :=
  min_placement (smp w) (run_loads (tasks (sched w))) me
    (List.filter (λ c, cpu_is_schedulable (smp w) c && negb (Z.land affinity (cpu_bit c) =? 0))
      (seq 0 MAX_CPUS)).

Definition spawn_io_service (me : nat) (nm : string) (e : Z) (w : World) : World * result Z SpawnError :=
  let c := default 0%nat (min_placement (smp w) (run_loads (tasks (sched w))) me
             (List.filter (cpu_is_schedulable (smp w)) (seq 0 MAX_CPUS))) in
  spawn_migratable_on me c nm e w.

(** [rebalance_one]: slot, source, target, gain. *)
Definition candidate (tp : Topology) (t : Tcb) : bool :=
  bool_decide (state t = Ready) && migratable t && negb (is_idle_name (name t))
  && cpu_is_online tp (cpu t) && negb (bool_decide (entry t = None) && ever_dispatched t).

Definition destination (tp : Topology) (loads : list CpuRunLoad) (t : Tcb) (target : nat) : bool :=
  negb (bool_decide (target = cpu t)) && cpu_is_schedulable tp target
  && negb (Z.land (affinity_mask t) (cpu_bit target) =? 0)
  && bool_decide (load_of loads target + 1 < load_of loads (cpu t))%nat.

Definition better (tp : Topology) (b : nat * nat * nat * nat) (source target gain : nat) : bool :=
  let '(_, best_source, best_target, best_gain) := b in
  let cross := negb (cpu_domain tp source =? cpu_domain tp target) in
  let best_cross := negb (cpu_domain tp best_source =? cpu_domain tp best_target) in
  (negb cross && best_cross) || (bool_decide (cross = best_cross) &&
    (bool_decide (best_gain < gain)%nat
     || (bool_decide (gain = best_gain) && bool_decide (target < best_target)%nat))).

Definition consider (tp : Topology) (loads : list CpuRunLoad) (slot : nat) (t : Tcb)
    (best : option (nat * nat * nat * nat)) (target : nat) : option (nat * nat * nat * nat) :=
  if destination tp loads t target then
    let gain := (load_of loads (cpu t) - load_of loads target)%nat in
    if match best with None => true | Some b => better tp b (cpu t) target gain end
    then Some (slot, cpu t, target, gain) else best
  else best.

Definition best_move (tp : Topology) (ts : list Tcb) : option (nat * nat * nat * nat) :=
  let loads := run_loads ts in
  foldl (λ best '(slot, t),
    if candidate tp t then foldl (consider tp loads slot t) best (seq 0 MAX_CPUS) else best)
    None (imap pair ts).

Definition rebalance_one (w : World) : option (World * option (Z * nat * nat)) :=
  if online_count (smp w) <? 2 then Some (w, None) else
  match best_move (smp w) (tasks (sched w)) with
  | None => Some (w, None)
  | Some (slot, source, target, _) =>
    t ← tasks (sched w) !! slot;
    let w := update_task slot (set_cpu target) w in
    validated w (Some (w, Some (id t, source, target)))
  end.

Definition rebalance_once (me : nat) (w : World) : option (World * bool) :=
  '(w, migration) ← rebalance_one w;
  Some (match migration with
        | None => (w, false)
        | Some (_, _, target) => ((reschedule_cpu me target w).1, true)
        end).

(** ** User tasks *)

(** A fresh user task with its placement. *)
Definition place (c : nat) (mig : bool) (affinity : Z) (t : Tcb) : Tcb :=
  set_affinity_mask affinity (set_migratable mig (set_cpu c t)).

(** The common part of the functions below: reap, find a slot, take an id, create the
    process and fill the slot. [created] tells whether the process, its IPC namespace and
    its entry in the process table could be created: they are not the scheduler's. *)
Definition install_user (me : nat) (created : bool) (init : nat → Z → Tcb → Tcb) (w : World)
    : option (World * result Z SpawnError) :=
  w ← reap_dead me w;
  Some (match free_slot w with
        | None => (w, Err Full)
        | Some slot =>
          let '(w, i) := fresh_id w in
          if negb created then (w, Err Full) else (add_task (update_task slot (init slot i) w), Ok i)
        end).

Definition validated_if_ok (r : option (World * result Z SpawnError)) : option (World * result Z SpawnError) :=
  '(w, res) ← r; match res with Ok _ => validated w (Some (w, res)) | Err _ => Some (w, res) end.

Definition spawn_user_process (me : nat) (nm : string) (ctx : UserTaskContext) (space : Z) (created : bool) (w : World)
    : option (World * result Z SpawnError) :=
  install_user me created (λ slot i t, initialize_user slot i nm ctx space t) w.

(** A system service: the capabilities are given, and have to be within the domain's. *)
Definition system_service (caps : Cap.CapabilitySet) (t : Tcb) : Tcb :=
  set_sandbox_profile (Guard.profile_new 104 caps)
    (set_capability_lineages no_lineages (set_capabilities caps (set_security_domain Guard.SystemService t))).

Definition spawn_user_system_service (me : nat) (nm : string) (ctx : UserTaskContext) (space : Z) (caps : Cap.CapabilitySet)
    (created : bool) (w : World) : option (World * result Z SpawnError) :=
  if negb (Cap.is_subset_of caps (Guard.domain_ceiling Guard.SystemService)) then Some (w, Err Full)
  else install_user me created (λ slot i t, system_service caps (initialize_user slot i nm ctx space t)) w.

Definition spawn_pinned_user_process_on (me cpu : nat) (nm : string) (ctx : UserTaskContext) (space : Z) (created : bool)
    (w : World) : option (World * result Z SpawnError) :=
  if negb (cpu_is_schedulable (smp w) cpu) then Some (w, Err Full) else
  '(w, res) ← validated_if_ok (install_user me created
    (λ slot i t, place cpu false (cpu_bit cpu) (initialize_user slot i nm ctx space t)) w);
  Some (match res with
        | Ok _ => if bool_decide (cpu = me) then (w, res) else ((reschedule_cpu me cpu w).1, res)
        | Err _ => (w, res)
        end).

Definition spawn_migratable_user_probe (me : nat) (nm : string) (ctx : UserTaskContext) (space : Z) (created : bool)
    (w : World) : option (World * result Z SpawnError) :=
  validated_if_ok (install_user me created
    (λ slot i t, place 0 true (schedulable_mask (smp w)) (initialize_user slot i nm ctx space t)) w).

(** The owner is chosen after reaping; without a free slot the order of the two refusals
    does not matter. *)
Definition spawn_multicore_user_process (me : nat) (affinity : Z) (nm : string) (ctx : UserTaskContext) (space : Z)
    (created : bool) (w : World) : option (World * result Z SpawnError) :=
  if (affinity =? 0) || negb (Z.land affinity (not64 (schedulable_mask (smp w))) =? 0) then Some (w, Err Full) else
  w1 ← reap_dead me w;
  match least_loaded_cpu_for_mask me affinity w1 with
  | None => Some (w1, Err Full)
  | Some owner =>
    '(w, res) ← validated_if_ok (install_user me created
      (λ slot i t, place owner true affinity (initialize_user slot i nm ctx space t)) w);
    Some (match res with
          | Ok _ => if bool_decide (owner = me) then (w, res) else ((reschedule_cpu me owner w).1, res)
          | Err _ => (w, res)
          end)
  end.

(** [fork_current] has two critical sections. The first copies the parent's placement and
    authority; the address space and the files are cloned without the lock; the second
    fills a slot with the copies. *)
Record ForkSnapshot := mkSnapshot {
  parent_cpu : nat;
  parent_migratable : bool;
  parent_affinity : Z;
  parent_security : ForkSecurityContext
}.

Definition fork_begin (me : nat) (w : World) : option ForkSnapshot :=
  slot ← current_slot (sched w) !! me;
  t ← tasks (sched w) !! slot;
  Some (mkSnapshot (cpu t) (migratable t) (affinity_mask t)
          (mkForkSecurity (capabilities t) (capability_lineages t) (security_domain t) (sandbox_profile t))).

Definition fork_child (sn : ForkSnapshot) (frame_size space : Z) (slot : nat) (i : Z) (t : Tcb) : Tcb :=
  place (parent_cpu sn) (parent_migratable sn) (parent_affinity sn)
    (initialize_fork slot i frame_size space (parent_security sn) t).

(** The checker runs before [task_count] is incremented, which it does not read. *)
Definition fork_finish (me : nat) (sn : ForkSnapshot) (frame_size space : Z) (created : bool) (w : World)
    : option (World * result Z SpawnError) :=
  validated_if_ok (install_user me created (fork_child sn frame_size space) w).

(** ** CPU evacuation *)

(** One task of the planning loop: [None] is the early [return false]. *)
Definition evacuation_change (tp : Topology) (cur target slot : nat) (t : Tcb)
    : option (option (nat * Z)) :=
  let target_bit := cpu_bit target in
  let remaining := Z.land (schedulable_mask tp) (not64 target_bit) in
  if bool_decide (state t = Empty) then Some None
  else if bool_decide (state t = Dead) then
    Some (if bool_decide (cpu t = target) then Some (0%nat, cpu_bit 0) else None)
  else if negb (bool_decide (cpu t = target)) && (Z.land (affinity_mask t) target_bit =? 0) then Some None
  else if is_idle_name (name t) then Some None
  else
    let new_mask := Z.land (affinity_mask t) (not64 target_bit) in
    if new_mask =? 0 then None
    else if bool_decide (cpu t = target) then
      if (bool_decide (state t = Running) || bool_decide (state t = Switching))
         && negb (bool_decide (slot = cur)) then None
      else if negb (migratable t) || (bool_decide (entry t = None) && ever_dispatched t) then None
      else match List.find (λ c, negb (Z.land (Z.land remaining (affinity_mask t)) (cpu_bit c) =? 0))
                   (seq 0 MAX_CPUS) with
           | None => None
           | Some dest => Some (if bool_decide (slot = cur) then None else Some (dest, new_mask))
           end
    else if negb (migratable t) then None
    else Some (Some (cpu t, new_mask)).

Definition apply_change (t : Tcb) (ch : option (nat * Z)) : Tcb :=
  match ch with Some (c, m) => set_affinity_mask m (set_cpu c t) | None => t end.

Definition evacuate_cpu (target : nat) (w : World) : option (World * bool) :=
  cur ← current_slot (sched w) !! target;
  Some (match mapM (λ '(slot, t), evacuation_change (smp w) cur target slot t) (imap pair (tasks (sched w))) with
        | None => (w, false)
        | Some changes => (set_tasks (zip_with apply_change (tasks (sched w)) changes) w, true)
        end).

Definition prepare_cpu_offline (target : nat) (w : World) : option (World * bool) :=
  if bool_decide (target = 0%nat) || negb (cpu_is_online (smp w) target) then Some (w, false) else
  '(w, passed) ← evacuate_cpu target w;
  if passed : bool then validated w (Some (w, true)) else Some (w, false).

Definition park_idle (t : Tcb) : Tcb :=
  set_affinity_mask (cpu_bit 0) (set_cpu 0%nat (set_name "offline-idle" (set_state Dead t))).

Definition offline_cpu_checkpoint (target : nat) (w : World) : option (World * bool) :=
  if bool_decide (target = 0%nat) || negb (cpu_is_online (smp w) target) then Some (w, false) else
  cur ← current_slot (sched w) !! target;
  t ← tasks (sched w) !! cur;
  if negb (is_idle_name (name t)) || negb (bool_decide (state t = Running)) then Some (w, false) else
  '(w, passed) ← evacuate_cpu target w;
  if passed : bool then
    let w := retire_one (update_task cur park_idle w) in
    validated w (Some (w, true))
  else Some (w, false).

Definition online_cpu_checkpoint (target : nat) (w : World) : option (World * bool) :=
  if bool_decide (target = 0%nat) || negb (cpu_is_online (smp w) target) then Some (w, false) else
  match position (λ t, bool_decide (state t = Empty)
          || (bool_decide (state t = Dead) && bool_decide (name t = "offline-idle"%string)))
          (tasks (sched w)) with
  | None => Some (w, false)
  | Some slot =>
    let '(w, i) := fresh_id w in
    let w := add_task (set_current_slot target slot (update_task slot (cpu_idle slot i target) w)) in
    validated w (Some (w, true))
  end.

(** ** Queries *)

Definition current_task_id_if_running (me : nat) (w : World) : option Z :=
  if task_count (sched w) =? 0 then None
  else slot ← current_slot (sched w) !! me; t ← tasks (sched w) !! slot; Some (id t).

End platform.
End Sched.

(** * The multiprocessor machine around the scheduler

    Each CPU is in a phase of its hand-off or hotplug protocol; the machine steps by one
    critical section of one CPU at a time, so executions are the interleavings the
    scheduler lock allows. The stores to the words [ONLINE], [COUNT] and [OFFLINE_STATE],
    which are made without that lock, are steps of their own; a critical section reads
    each of these words as of one moment (see SchedulerRaces for what happens if it does
    not). [stacks] is ghost state: the task stack each CPU physically executes on, which
    changes when the assembly switch runs, between [prepare_switch] and
    [finalize_switch]. *)
Module Machine.
Import Smp Task Sched.

(** [Up]: running a task. [Handoff]: the next task is published, the old stack still in
    use. [Arrived]: on the new stack, hand-off not finalized. [Draining]: idle task
    retired by the offline checkpoint (or not recreated by the online one), still in the
    online mask. [Withdrawn]: out of the online mask, word not stored yet. [Parked]:
    offline. [Rejoining]: online again, idle task not recreated yet. *)
Inductive phase := Up | Handoff | Arrived | Draining | Withdrawn | Parked | Rejoining.

#[export] Instance phase_eq_dec : EqDecision phase.
Proof. solve_decision. Defined.

(** [stacks]: the slot on whose task stack a CPU executes, [None] on the CPU's own
    bootstrap stack, which an AP keeps for its idle task and while it is parked. [forks]:
    the snapshots of the [fork_current] calls between their two critical sections. *)
Record Machine := mkMachine {
  world : World;
  phases : list phase;
  stacks : list (option nat);
  forks : list ForkSnapshot
}.

Definition set_world (w : World) (m : Machine) : Machine := mkMachine w (phases m) (stacks m) (forks m).
Definition set_phase (c : nat) (p : phase) (m : Machine) : Machine :=
  mkMachine (world m) (<[c := p]> (phases m)) (stacks m) (forks m).

(** The stack that the saved context of the task in a slot lies on. *)
Definition context_stack (c slot : nat) (t : Tcb) : option nat :=
  if negb (bool_decide (c = 0%nat)) && is_idle_name (name t) then None else Some slot.

Inductive user_spawn := Cpu0 | Service (caps : Cap.CapabilitySet) | PinnedOn (target : nat) | Probe | Multicore (affinity : Z).

Inductive op :=
  | Yield (c : nat)
  | Preempt (c : nat) (suspended lock_free : bool) (now : Z)
  | SwitchStacks (c : nat)
  | Finalize (c : nat)
  | Block (c : nat)
  | Sleep (c : nat) (now ticks : Z)
  | Wait (c : nat) (now deadline : Z)
  | Exit (c : nat)
  | Tick (c : nat) (lock_free : bool) (now : Z)
  | Wake (c : nat) (i : Z)
  | Signal (c : nat) (i : Z)
  | Terminate (c : nat) (i signal : Z)
  | Spawn (nm : string) (e p : Z)
  | SpawnOn (c target : nat) (nm : string) (e : Z) (mig : bool) (affinity : Z)
  | SpawnUser (c : nat) (k : user_spawn) (nm : string) (ctx : UserTaskContext) (space : Z) (created : bool)
  | ForkBegin (c : nat)
  | ForkFinish (c : nat) (sn : ForkSnapshot) (frame_size space : Z) (created : bool)
  | Migrate (c : nat) (i : Z) (target : nat)
  | SetAffinity (c : nat) (i affinity : Z)
  | Rebalance (c : nat)
  | PrepareOffline (target : nat)
  | Word (target : nat) (expected new : Z)
  | Checkpoint (c : nat)
  | Withdraw (c : nat)
  | Leave (c : nat)
  | Publish (c : nat)
  | AddCount (c : nat) (d : Z)
  | PublishCount (n : Z)
  | InitAp (c : nat)
  | Rejoin (c : nat).

Section platform.
Context `{Platform}.

(** After a critical section that may have selected a successor. *)
Definition commit (c : nat) (r : World * option ContextSwitch) (m : Machine) : Machine :=
  let '(w, cs) := r in
  set_world w (match cs with Some _ => set_phase c Handoff m | None => m end).

Definition blocking (c : nat) (r : option (World * ContextSwitch)) (m : Machine) : option Machine :=
  '(w, cs) ← r; Some (commit c (w, Some cs) m).

Definition step (m : Machine) (o : op) : option Machine :=
  let w := world m in
  match o with
  | Yield c => r ← yield_now c w; Some (commit c r m)
  | Preempt c suspended lock_free now => r ← preempt_from_interrupt c suspended lock_free now w; Some (commit c r m)
  | SwitchStacks c =>
      slot ← current_slot (sched w) !! c;
      t ← tasks (sched w) !! slot;
      Some (mkMachine w (<[c := Arrived]> (phases m)) (<[c := context_stack c slot t]> (stacks m)) (forks m))
  | Finalize c => w ← finalize_switch c w; Some (set_world w (set_phase c Up m))
  | Block c => blocking c (block_current c w) m
  | Sleep c now ticks => blocking c (sleep_current c now ticks w) m
  | Wait c now deadline => r ← wait_for_event_until c now deadline w; Some (commit c r m)
  | Exit c => r ← exit_current_task c w; Some (commit c r m)
  | Tick c lock_free now => w ← tick c lock_free now w; Some (set_world w m)
  | Wake c i => Some (set_world (wake_task c i w).1 m)
  | Signal c i => Some (set_world (signal_event c i w).1 m)
  | Terminate c i signal => Some (set_world (request_termination i signal w).1 m)
  | Spawn nm e p => '(w, _) ← spawn_with_priority nm e p w; Some (set_world w m)
  | SpawnOn c target nm e mig affinity =>
      Some (set_world (spawn_kernel_on c target nm e mig affinity w).1 m)
  | SpawnUser c k nm ctx space created =>
      '(w, _) ← (match k with
                 | Cpu0 => spawn_user_process c nm ctx space created w
                 | Service caps => spawn_user_system_service c nm ctx space caps created w
                 | PinnedOn target => spawn_pinned_user_process_on c target nm ctx space created w
                 | Probe => spawn_migratable_user_probe c nm ctx space created w
                 | Multicore affinity => spawn_multicore_user_process c affinity nm ctx space created w
                 end);
      Some (set_world w m)
  | ForkBegin c => sn ← fork_begin c w; Some (mkMachine w (phases m) (stacks m) (sn :: forks m))
  | ForkFinish c sn frame_size space created =>
      '(w, _) ← fork_finish c sn frame_size space created w; Some (set_world w m)
  | Migrate c i target => '(w, _) ← migrate_ready_task c i target w; Some (set_world w m)
  | SetAffinity c i affinity => '(w, _) ← set_ready_task_affinity c i affinity w; Some (set_world w m)
  | Rebalance c => '(w, _) ← rebalance_once c w; Some (set_world w m)
  | PrepareOffline target => '(w, _) ← prepare_cpu_offline target w; Some (set_world w m)
  | Word target expected new =>
      Some (set_world (set_smp (compare_exchange target expected new (smp w)).1 w) m)
  | Checkpoint c =>
      '(w, passed) ← offline_cpu_checkpoint c w;
      Some (set_world w (if passed : bool then set_phase c Draining m else m))
  | Withdraw c => Some (set_world (set_smp (set_online c false (smp w)) w) (set_phase c Withdrawn m))
  | Leave c =>
      let final := if hotplug_state (smp w) c =? 2 then 5 else 9 in
      Some (set_world (set_smp (set_hotplug_state c final (smp w)) w) (set_phase c Parked m))
  | Publish c => Some (set_world (set_smp (set_online c true (smp w)) w) (set_phase c Rejoining m))
  | AddCount c d => Some (set_world (set_smp (set_count (count (smp w) + d) (smp w)) w) m)
  | PublishCount n => Some (set_world (set_smp (set_count n (smp w)) w) m)
  | InitAp c => w ← init_ap c w; Some (set_world w (set_phase c Up m))
  | Rejoin c =>
      '(w, passed) ← online_cpu_checkpoint c w;
      Some (set_world w (set_phase c (if passed : bool then Up else Draining) m))
  end.

Definition is_up (ph : list phase) (c : nat) : Prop :=
  ph !! c = Some Up ∨ ph !! c = Some Handoff ∨ ph !! c = Some Arrived.

(** The current task of [c] may block: it is neither the kernel task nor an idle task,
    whose loops only yield and halt. *)
Definition may_block (m : Machine) (c : nat) : Prop :=
  phases m !! c = Some Up ∧
  ∃ s t, current_slot (sched (world m)) !! c = Some s ∧ tasks (sched (world m)) !! s = Some t ∧
    id t ≠ KERNEL_TASK_ID ∧ is_idle_name (name t) = false.

(** The stores and exchanges on a hotplug word other than those inside the
    leaving: requests and their cancellation or acknowledgement while the CPU runs, the
    claim and its rejection at the idle loop, the end of a rejoin, and the same for
    parked CPUs. *)
Definition word_allowed (ph : option phase) (expected new : Z) : bool :=
  match ph with
  | Some Up => bool_decide ((expected, new) ∈ [(0, 1); (7, 1); (1, 0); (1, 7); (1, 2); (2, 3); (3, 0); (3, 7); (8, 7)])
  | Some Handoff | Some Arrived =>
      bool_decide ((expected, new) ∈ [(0, 1); (7, 1); (1, 0); (1, 7); (3, 0); (3, 7)])
  | Some Parked => bool_decide ((expected, new) ∈ [(5, 6); (6, 5); (6, 8); (9, 5)])
  | _ => false
  end.

(** No CPU of the mask is offline, or between the checkpoint that emptied it and the
    store to [ONLINE]. *)
Definition fresh (m : Machine) (affinity : Z) : Prop :=
  ∀ k : nat, Z.testbit affinity (Z.of_nat k) = true →
    (k < MAX_CPUS)%nat ∧ cpu_is_online (smp (world m)) k = true ∧ phases m !! k ≠ Some Draining ∧
    ¬ (phases m !! k = Some Rejoining ∧ hotplug_state (smp (world m)) k = 8).

(** When the program performs each step: control flow of the CPU that executes it,
    and the callers' obligations (fresh names are not the idle names, signals are sent
    to processes and not to idle tasks, priorities are the three named ones, a starting
    AP finds a slot). [fork_current] finishes while no CPU of the placement it copied has
    left: the code does not ensure that, see SchedulerRaces. *)
Definition enabled (m : Machine) (o : op) : Prop :=
  let w := world m in
  let up c := phases m !! c = Some Up in
  match o with
  | Yield c | Preempt c _ _ _ | Tick c _ _ | Wake c _ | Signal c _ | Migrate c _ _ | Rebalance c => up c
  | SwitchStacks c => phases m !! c = Some Handoff
  | Finalize c => phases m !! c = Some Arrived
  | Block c | Sleep c _ _ | Wait c _ _ | Exit c => may_block m c
  | Terminate c i _ => up c ∧
      ∀ s t, tasks (sched w) !! s = Some t → live t = true → is_idle_name (name t) = true → id t ≠ i
  | Spawn nm _ p => is_idle_name nm = false ∧ 0 ≤ p ≤ 2 ∧ next_task_id w < u64_max
  | SpawnOn c _ nm _ _ affinity => up c ∧ is_idle_name nm = false ∧ in_u64 affinity ∧ next_task_id w < u64_max
  | SpawnUser c k nm _ _ _ => up c ∧ is_idle_name nm = false ∧ next_task_id w < u64_max ∧
      match k with Multicore affinity => in_u64 affinity | _ => True end
  | ForkBegin c => up c ∧ ∃ s t, current_slot (sched w) !! c = Some s ∧ tasks (sched w) !! s = Some t ∧ entry t = None
  | ForkFinish c sn _ _ _ => up c ∧ sn ∈ forks m ∧ next_task_id w < u64_max ∧ fresh m (parent_affinity sn)
  | SetAffinity c _ affinity => up c ∧ in_u64 affinity
  | PrepareOffline target => is_up (phases m) target
  | Word target expected new => target ≠ 0%nat ∧ word_allowed (phases m !! target) expected new = true
  | Checkpoint c => up c ∧ c ≠ 0%nat ∧ hotplug_state (smp w) c = 2
  | Withdraw c => phases m !! c = Some Draining
  | Leave c => phases m !! c = Some Withdrawn
  | Publish c => c ≠ 0%nat ∧ phases m !! c = Some Parked ∧ hotplug_state (smp w) c ∈ [0; 8]
  | AddCount c d => (phases m !! c = Some Withdrawn ∧ d = -1) ∨
      (phases m !! c = Some Rejoining ∧ hotplug_state (smp w) c = 8 ∧ d = 1)
  | PublishCount _ => True
  | InitAp c => phases m !! c = Some Rejoining ∧ hotplug_state (smp w) c = 0 ∧
      is_Some (free_slot w) ∧ next_task_id w < u64_max
  | Rejoin c => phases m !! c = Some Rejoining ∧ hotplug_state (smp w) c = 8 ∧ next_task_id w < u64_max
  end.

(** Power-on: CPU 0 is online, the others are parked. *)
Definition boot_topology (doms : list Z) : Topology :=
  mkTopology [true; false; false; false] [0; 0; 0; 0] doms 1.

Definition boot_world (doms : list Z) (log : Ledger.Log) : World :=
  mkWorld (boot_topology doms) sched_empty 2 (Service.mkSys Lin.new log 0 0) []
    (replicate MAX_CPUS false) [].

Definition boot (doms : list Z) (log : Ledger.Log) : option Machine :=
  w ← sched_initialize (boot_world doms log);
  Some (mkMachine w [Up; Parked; Parked; Parked] [Some 0%nat; None; None; None] []).

(** Executions: each step enabled where it is taken. *)
Inductive reachable : Machine → Prop :=
  | reach_boot doms log m : length doms = MAX_CPUS → boot doms log = Some m → reachable m
  | reach_step m o m' : reachable m → enabled m o → step m o = Some m' → reachable m'.

Fixpoint run (m : Machine) (os : list op) : option Machine :=
  match os with
  | [] => Some m
  | o :: os => m ← step m o; run m os
  end.

End platform.
End Machine.
