(* ===== verification/SchedulerInv.v ===== *)
(** * The scheduler's invariant (kernel/src/task.rs)

    Every reachable machine keeps CPU ownership consistent: a task is owned by an
    online CPU inside its affinity mask, at most one task runs per CPU, the
    hand-off slots name exactly the tasks in transit, every running CPU keeps an idle
    task, and [task_count] is exact. No step that the program may take panics. *)
From S2P Require Import Prelude Capability WovenGuard SecurityLedger Lineage LineageService TaskControl Scheduler.

Module SchedInv.
Import Smp Task Sched Machine.

Section inv.
Context `{Platform}.

(** CPUs no live task may name: between the checkpoints and the online mask. *)
Definition quiet (tp : Topology) (ph : list phase) (c : nat) : Prop :=
  ph !! c = Some Draining ∨ (ph !! c = Some Rejoining ∧ hotplug_state tp c = 8).

Definition idle (t : Tcb) : Prop := live t = true ∧ is_idle_name (name t) = true.

Record task_inv (tp : Topology) (cur sw : list nat) (ph : list phase) (nid : Z) (s : nat) (t : Tcb) : Prop := {
  ti_empty : state t = Empty → cpu t = 0%nat;
  ti_id : state t ≠ Empty → 0 ≤ id t < nid;
  ti_valid : live t = true → task_valid tp t = true;
  ti_shape : live t = true → is_Some (address_space t) ∧ in_u64 (affinity_mask t) ∧ 0 ≤ priority t ≤ 2;
  ti_run : state t = Running → cur !! cpu t = Some s ∧ is_up ph (cpu t);
  ti_switching : state t = Switching → sw !! cpu t = Some s;
  ti_idle : idle t → state t ∈ [Ready; Running; Switching] ∧ migratable t = false ∧
    affinity_mask t = cpu_bit (cpu t) ∧ termination_signal t = 0 ∧ is_up ph (cpu t);
  ti_quiet : live t = true → ∀ c, quiet tp ph c → Z.testbit (affinity_mask t) (Z.of_nat c) = false
}.

Definition phase_inv (tp : Topology) (c : nat) (p : phase) : Prop :=
  match p with
  | Parked => cpu_is_online tp c = false
  | Draining => cpu_is_online tp c = true ∧ hotplug_state tp c ∈ [2; 8]
  | Withdrawn => cpu_is_online tp c = false
  | Rejoining => cpu_is_online tp c = true ∧ hotplug_state tp c ∈ [0; 8]
  | _ => cpu_is_online tp c = true
  end.

(** [ex] is a CPU whose current task has just left [Running], if any. *)
Record inv (ex : option nat) (tp : Topology) (ts : list Tcb) (cur sw : list nat)
    (ph : list phase) (nid n : Z) : Prop := {
  i_tasks : length ts = MAX_TASKS;
  i_cur : length cur = MAX_CPUS;
  i_sw : length sw = MAX_CPUS;
  i_ph : length ph = MAX_CPUS;
  i_on : length (online tp) = MAX_CPUS;
  i_words : length (offline_state tp) = MAX_CPUS;
  i_task : ∀ s t, ts !! s = Some t → task_inv tp cur sw ph nid s t;
  i_phase : ∀ c p, ph !! c = Some p → phase_inv tp c p;
  i_cur_lt : ∀ c s, cur !! c = Some s → (s < MAX_TASKS)%nat;
  i_current : ∀ c, is_up ph c → ex ≠ Some c →
    ∃ s t, cur !! c = Some s ∧ ts !! s = Some t ∧ state t = Running ∧ cpu t = c;
  i_out : ∀ c s, sw !! c = Some s → s ≠ MAX_TASKS →
    (∃ t, ts !! s = Some t ∧ state t = Switching ∧ cpu t = c) ∧
    (ph !! c = Some Handoff ∨ ph !! c = Some Arrived);
  i_has_idle : ∀ c, is_up ph c → ∃ s t, ts !! s = Some t ∧ idle t ∧ cpu t = c;
  i_boot : is_up ph 0;
  i_boot_word : hotplug_state tp 0 = 0;
  i_ids : ∀ s1 s2 t1 t2, ts !! s1 = Some t1 → ts !! s2 = Some t2 →
    state t1 ≠ Empty → state t2 ≠ Empty → id t1 = id t2 → s1 = s2;
  i_one_idle : ∀ s1 s2 t1 t2, ts !! s1 = Some t1 → ts !! s2 = Some t2 →
    idle t1 → idle t2 → cpu t1 = cpu t2 → s1 = s2;
  i_count : n = Z.of_nat (count_if live ts);
  i_nid : 0 ≤ nid ≤ u64_max
}.

(** ** Replacing one task *)

(** What the CPU-indexed clauses need to survive replacing [t] by [t']. *)
Record keeps (ex : option nat) (t t' : Tcb) : Prop := {
  k_running : state t = Running → ex ≠ Some (cpu t) → state t' = Running ∧ cpu t' = cpu t;
  k_switching : state t = Switching → state t' = Switching ∧ cpu t' = cpu t;
  k_idle : idle t ↔ idle t';
  k_idle_cpu : idle t → cpu t' = cpu t;
  k_id : state t' ≠ Empty → state t ≠ Empty ∧ id t' = id t
}.

Lemma lookup_insert_cases {A} (l : list A) (i j : nat) (x y : A) :
  <[i := x]> l !! j = Some y → (i = j ∧ y = x) ∨ (i ≠ j ∧ l !! j = Some y).
Proof.
  intros [(-> & -> & _)|[? ?]]%list_lookup_insert_Some; auto.
Qed.

Lemma alter_insert {A} (f : A → A) (l : list A) (i : nat) (x : A) :
  l !! i = Some x → alter f i l = <[i := f x]> l.
Proof.
  intros Hx. rewrite list_insert_alter. apply list_alter_ext; [|done].
  intros y Hy. by simplify_eq.
Qed.

(** Pointwise replacement of the task table. *)
Lemma inv_pointwise ex tp ts ts' cur sw ph nid n :
  inv ex tp ts cur sw ph nid n → length ts' = length ts →
  (∀ s t t', ts !! s = Some t → ts' !! s = Some t' → keeps ex t t' ∧ task_inv tp cur sw ph nid s t') →
  inv ex tp ts' cur sw ph nid (Z.of_nat (count_if live ts')).
Proof.
  intros I Hlen K.
  assert (F : ∀ s t, ts !! s = Some t → ∃ t', ts' !! s = Some t' ∧ keeps ex t t').
  { intros s t Hs. destruct (lookup_lt_is_Some_2 ts' s) as [t' Ht'].
    - rewrite Hlen. by apply lookup_lt_Some in Hs.
    - exists t'. split; [done|]. by destruct (K s t t'). }
  assert (G : ∀ s t', ts' !! s = Some t' →
    ∃ t, ts !! s = Some t ∧ keeps ex t t' ∧ task_inv tp cur sw ph nid s t').
  { intros s t' Hs. destruct (lookup_lt_is_Some_2 ts s) as [t Ht].
    - rewrite <-Hlen. by apply lookup_lt_Some in Hs.
    - exists t. split; [done|]. by apply K. }
  destruct I. split; try done.
  - by rewrite Hlen.
  - intros s t' Hs. by destruct (G s t' Hs) as (_ & _ & _ & ?).
  - intros c Hc He. destruct (i_current0 c Hc He) as (j & u & Hj & Hu & Hr & Huc).
    destruct (F j u Hu) as (u' & Hu' & Ku). destruct (k_running _ _ _ Ku Hr) as [? ?]; [congruence|].
    exists j, u'. split_and!; congruence.
  - intros c j Hj Hne. destruct (i_out0 c j Hj Hne) as [(u & Hu & Hst & Huc) Hph]. split; [|done].
    destruct (F j u Hu) as (u' & Hu' & Ku). destruct (k_switching _ _ _ Ku Hst).
    exists u'. split_and!; congruence.
  - intros c Hc. destruct (i_has_idle0 c Hc) as (j & u & Hu & Hi & Huc).
    destruct (F j u Hu) as (u' & Hu' & Ku). exists j, u'. split_and!; [done|by apply Ku|].
    by rewrite (k_idle_cpu _ _ _ Ku).
  - intros j1 j2 u1 u2 H1 H2 N1 N2 Hid.
    destruct (G _ _ H1) as (v1 & ? & K1 & _). destruct (G _ _ H2) as (v2 & ? & K2 & _).
    destruct (k_id _ _ _ K1 N1), (k_id _ _ _ K2 N2). apply (i_ids0 j1 j2 v1 v2); congruence.
  - intros j1 j2 u1 u2 H1 H2 N1 N2 Hc.
    destruct (G _ _ H1) as (v1 & ? & K1 & _). destruct (G _ _ H2) as (v2 & ? & K2 & _).
    apply (k_idle _ _ _ K1) in N1. apply (k_idle _ _ _ K2) in N2.
    apply (i_one_idle0 j1 j2 v1 v2); [done..|].
    by rewrite <-(k_idle_cpu _ _ _ K1), <-(k_idle_cpu _ _ _ K2).
Qed.

Lemma keeps_refl ex t : keeps ex t t.
Proof. by split. Qed.

Lemma inv_insert ex tp ts cur sw ph nid n s t t' :
  inv ex tp ts cur sw ph nid n → ts !! s = Some t → keeps ex t t' →
  task_inv tp cur sw ph nid s t' →
  inv ex tp (<[s := t']> ts) cur sw ph nid (n - Z.b2z (live t) + Z.b2z (live t')).
Proof.
  intros I Hs K Ht'.
  assert (n - Z.b2z (live t) + Z.b2z (live t') = Z.of_nat (count_if live (<[s := t']> ts))) as ->.
  { pose proof (count_if_insert live ts s t t' Hs). rewrite (i_count _ _ _ _ _ _ _ _ I).
    destruct (live t), (live t'); simpl in *; lia. }
  apply (inv_pointwise ex tp ts _ cur sw ph nid n); [done|by rewrite length_insert|].
  intros j u u' Hu [[<- ->]|[? ?]]%lookup_insert_cases; simplify_eq; [done|].
  split; [apply keeps_refl|by apply (i_task _ _ _ _ _ _ _ _ I)].
Qed.

(** ** Changes that leave ownership alone *)

(** The fields the invariant looks at. *)
Definition view (t : Tcb) :=
  (id t, name t, state t, priority t, address_space t, entry t, cpu t, migratable t, affinity_mask t,
   termination_signal t).

Lemma view_facts t t' : view t' = view t →
  live t' = live t ∧ (∀ tp, task_valid tp t' = task_valid tp t) ∧ (idle t ↔ idle t').
Proof.
  unfold view, live, task_valid, idle. intros Hv. injection Hv as ??????????. unfold live.
  repeat match goal with E : _ t' = _ |- _ => rewrite E end. done.
Qed.

Lemma keeps_view ex t t' : view t' = view t → keeps ex t t'.
Proof.
  intros Hv. destruct (view_facts t t' Hv) as (Hl & _ & Hi). unfold view in Hv. simplify_eq.
  split; [split; congruence..|done|congruence|split; congruence].
Qed.

Lemma task_inv_view tp cur sw ph nid s t t' :
  view t' = view t → task_inv tp cur sw ph nid s t → task_inv tp cur sw ph nid s t'.
Proof.
  intros Hv T. destruct (view_facts t t' Hv) as (Hl & Htv & Hi). unfold view in Hv. simplify_eq.
  destruct T. split; intros; rewrite ?Htv in *; try (rewrite Hl in *);
    repeat match goal with E : _ t' = _ |- _ => rewrite E in * end;
    repeat match goal with Hd : idle t' |- _ => apply Hi in Hd end; eauto.
Qed.

(** The same owner in another state. *)
Definition owner_view (t : Tcb) :=
  (id t, priority t, address_space t, entry t, cpu t, migratable t, affinity_mask t).

Lemma task_inv_owner tp cur sw ph nid s t t' :
  task_inv tp cur sw ph nid s t → live t = true → owner_view t' = owner_view t →
  state t' ≠ Empty →
  (state t' = Running → cur !! cpu t = Some s ∧ is_up ph (cpu t)) →
  (state t' = Switching → sw !! cpu t = Some s) →
  (idle t' → state t' ∈ [Ready; Running; Switching] ∧ idle t ∧ termination_signal t' = 0) →
  task_inv tp cur sw ph nid s t'.
Proof.
  intros T Hl Hv He Hr Hs Hi. unfold owner_view in Hv. simplify_eq.
  assert (Htv : task_valid tp t' = task_valid tp t) by (unfold task_valid; repeat match goal with E : _ t' = _ |- _ => rewrite E end; done).
  assert (state t ≠ Empty) by (intros E; unfold live in Hl; by rewrite E in Hl).
  destruct T. split; intros; rewrite ?Htv;
    repeat match goal with E : _ t' = _ |- _ => rewrite E in * end; eauto; try done.
  match goal with Hd : idle t' |- _ => destruct (Hi Hd) as (? & Hit & ?) end. destruct (ti_idle0 Hit) as (? & ? & ? & ? & ?). split_and!; congruence.
Qed.

(** ** The affinity checker, as a statement about sets of CPUs *)

Lemma task_valid_iff tp t :
  in_u64 (affinity_mask t) →
  task_valid tp t = true ↔
  cpu_is_online tp (cpu t) = true ∧ Z.testbit (affinity_mask t) (Z.of_nat (cpu t)) = true ∧
  (∀ i, 0 ≤ i → Z.testbit (affinity_mask t) i = true → Z.testbit (online_mask tp) i = true) ∧
  (entry t = None → migratable t = false → affinity_mask t = cpu_bit (cpu t)).
Proof.
  intros Ha. unfold task_valid.
  assert (Hm : in_u64 (online_mask tp)).
  { pose proof (mask_of_range (cpu_is_online tp)). unfold in_u64, u64_max, online_mask. lia. }
  rewrite !andb_true_iff, !negb_true_iff, !Z.eqb_neq, Z.eqb_eq, mask_within, mask_meets by (done || apply Ha).
  split.
  - intros ((((_ & Hw) & Ho) & Hb) & Hp). split_and!; try done. intros E M.
    rewrite E, M, bool_decide_true in Hp by done. by apply Z.eqb_eq.
  - intros (Ho & Hb & Hw & Hp). split_and!; try done.
    + intros E. by rewrite E, Z.bits_0 in Hb.
    + case_bool_decide as E; [|done]. destruct (migratable t); [done|]. simpl. apply Z.eqb_eq. auto.
Qed.

Lemma cpu_lt tp c : length (online tp) = MAX_CPUS → cpu_is_online tp c = true → (c < MAX_CPUS)%nat.
Proof.
  unfold cpu_is_online. intros <- Ho. destruct (online tp !! c) eqn:E; [|done].
  by apply lookup_lt_Some in E.
Qed.

Lemma schedulable_online tp c : cpu_is_schedulable tp c = true → cpu_is_online tp c = true.
Proof. unfold cpu_is_schedulable. by intros [? _]%andb_true_iff. Qed.

Lemma quiet_not_schedulable ex tp ts cur sw ph nid n c :
  inv ex tp ts cur sw ph nid n → quiet tp ph c → cpu_is_schedulable tp c = false.
Proof.
  intros I [Hd|[_ Hw]]; unfold cpu_is_schedulable.
  - apply (i_phase _ _ _ _ _ _ _ _ I) in Hd as [_ Hw]. rewrite elem_of_cons, list_elem_of_singleton in Hw.
    destruct Hw as [->| ->]; by rewrite andb_false_r.
  - by rewrite Hw, andb_false_r.
Qed.

Lemma within_schedulable tp a i :
  in_u64 a → Z.land a (not64 (schedulable_mask tp)) = 0 → Z.testbit a (Z.of_nat i) = true →
  (i < MAX_CPUS)%nat ∧ cpu_is_schedulable tp i = true.
Proof.
  intros Ha Hw Hi. assert (Hm : in_u64 (schedulable_mask tp)).
  { pose proof (mask_of_range (cpu_is_schedulable tp)). unfold in_u64, u64_max, schedulable_mask. lia. }
  rewrite mask_within in Hw by done. specialize (Hw (Z.of_nat i)). rewrite testbit_schedulable in Hw.
  apply andb_true_iff in Hw as [?%bool_decide_eq_true ?]; [done|lia|done].
Qed.

(** A [Ready] task handed to a schedulable CPU of a schedulable mask. *)
Lemma task_inv_move ex tp ts cur sw ph nid n s t c a :
  inv ex tp ts cur sw ph nid n → ts !! s = Some t → state t = Ready → migratable t = true →
  in_u64 a → Z.testbit a (Z.of_nat c) = true →
  (∀ i : nat, Z.testbit a (Z.of_nat i) = true →
     (i < MAX_CPUS)%nat ∧ cpu_is_online tp i = true ∧ ¬ quiet tp ph i) →
  keeps ex t (set_affinity_mask a (set_cpu c t)) ∧
  task_inv tp cur sw ph nid s (set_affinity_mask a (set_cpu c t)).
Proof.
  intros I Hs Hr Hm Ha Hc Hall. pose proof (i_task _ _ _ _ _ _ _ _ I s t Hs) as T.
  assert (Hni : ¬ idle t) by (intros Hi; destruct (ti_idle _ _ _ _ _ _ _ T Hi) as (_ & ? & _); congruence).
  assert (Hni' : ¬ idle (set_affinity_mask a (set_cpu c t))) by exact Hni.
  assert (Hl : live t = true) by (unfold live; by rewrite Hr).
  split.
  - split; cbn; [congruence..|done|intros Hi; by destruct Hni|done].
  - destruct (ti_shape _ _ _ _ _ _ _ T Hl) as (? & ? & ?).
    split; cbn [state cpu id set_affinity_mask set_cpu address_space priority affinity_mask]; try congruence;
      try done.
    + apply T.
    + intros _. apply task_valid_iff; [done|].
      cbn [cpu entry migratable affinity_mask set_affinity_mask set_cpu]. split_and!.
      * by apply Hall.
      * done.
      * intros i Hi Hb. destruct (Z_of_nat_complete i Hi) as [k ->]. rewrite testbit_online.
        destruct (Hall _ Hb) as (? & -> & _). by rewrite bool_decide_true.
      * by rewrite Hm.
    + intros _ q Hq. destruct (Z.testbit a (Z.of_nat q)) eqn:E; [|done].
      destruct (Hall _ E) as (_ & _ & []). done.
Qed.

Lemma inv_validates ex tp ts cur sw ph nid n :
  inv ex tp ts cur sw ph nid n → forallb (λ t, negb (live t) || task_valid tp t) ts = true.
Proof.
  intros I. apply forallb_forall. intros t [s Hs]%list_elem_of_In%list_elem_of_lookup.
  destruct (live t) eqn:Hl; [|done]. simpl. by apply (i_task _ _ _ _ _ _ _ _ I s t Hs).
Qed.

(** ** The hand-off *)

Lemma task_inv_arrays tp cur sw ph cur' sw' ph' nid s t :
  task_inv tp cur sw ph nid s t →
  (state t = Running → cur !! cpu t = Some s → cur' !! cpu t = Some s) →
  (state t = Switching → sw !! cpu t = Some s → sw' !! cpu t = Some s) →
  (∀ c, is_up ph c → is_up ph' c) → (∀ c, quiet tp ph' c → quiet tp ph c) →
  task_inv tp cur' sw' ph' nid s t.
Proof.
  intros [] Hr Hs Hu Hq. split; eauto.
  - intros R. destruct (ti_run0 R). auto.
  - intros Hi. destruct (ti_idle0 Hi) as (? & ? & ? & ? & ?). split_and!; auto.
Qed.

Lemma up_change ph me p q c :
  ph !! me = Some p → (p = Up ∨ p = Handoff ∨ p = Arrived) → (q = Up ∨ q = Handoff ∨ q = Arrived) →
  is_up ph c ↔ is_up (<[me := q]> ph) c.
Proof.
  intros Hp Hup Huq. unfold is_up. destruct (decide (c = me)) as [->|Hne].
  - rewrite list_lookup_insert_eq by (by eapply lookup_lt_Some). rewrite Hp. naive_solver.
  - by rewrite list_lookup_insert_ne.
Qed.

Lemma quiet_change tp ph me p q c :
  ph !! me = Some p → (p = Up ∨ p = Handoff ∨ p = Arrived) → (q = Up ∨ q = Handoff ∨ q = Arrived) →
  quiet tp ph c ↔ quiet tp (<[me := q]> ph) c.
Proof.
  intros Hp Hup Huq. unfold quiet. destruct (decide (c = me)) as [->|Hne].
  - rewrite list_lookup_insert_eq by (by eapply lookup_lt_Some). rewrite Hp. naive_solver.
  - by rewrite list_lookup_insert_ne.
Qed.

(** Moving between the running phases, when the hand-off slot agrees. *)
Lemma inv_phase ex tp ts cur sw ph nid n me p q :
  inv ex tp ts cur sw ph nid n → ph !! me = Some p →
  (p = Up ∨ p = Handoff ∨ p = Arrived) → (q = Up ∨ q = Handoff ∨ q = Arrived) →
  (q = Up → sw !! me = Some MAX_TASKS) →
  inv ex tp ts cur sw (<[me := q]> ph) nid n.
Proof.
  intros I Hp Hup Huq Hsw. pose proof (lookup_lt_Some _ _ _ Hp) as Hlt.
  assert (U := λ c, up_change ph me p q c Hp Hup Huq).
  assert (Q := λ c, quiet_change tp ph me p q c Hp Hup Huq).
  destruct I. split; try done.
  - by rewrite length_insert.
  - intros s t Ht. apply (task_inv_arrays tp cur sw ph); auto; intros c; [by apply U|by apply Q].
  - intros c r [[<- ->]|[? ?]]%lookup_insert_cases; [|eauto].
    specialize (i_phase0 me p Hp). destruct Hup as [->|[->| ->]], Huq as [->|[->| ->]]; done.
  - intros c Hc. apply U in Hc. eauto.
  - intros c s Hs Hne. destruct (i_out0 c s Hs Hne) as [Hex Hph]. split; [done|].
    destruct (decide (c = me)) as [->|?]; [|by rewrite list_lookup_insert_ne].
    rewrite list_lookup_insert_eq by done. destruct Huq as [->|[->| ->]]; [|auto..].
    rewrite Hsw in Hs by done. congruence.
  - intros c Hc. apply U in Hc. eauto.
  - by apply U.
Qed.

Lemma up_slot_clear ex tp ts cur sw ph nid n me :
  inv ex tp ts cur sw ph nid n → ph !! me = Some Up → sw !! me = Some MAX_TASKS.
Proof.
  intros I Hp. destruct (lookup_lt_is_Some_2 sw me) as [s Hs].
  { rewrite (i_sw _ _ _ _ _ _ _ _ I), <-(i_ph _ _ _ _ _ _ _ _ I). by eapply lookup_lt_Some. }
  destruct (decide (s = MAX_TASKS)) as [->|Hne]; [done|].
  destruct (i_out _ _ _ _ _ _ _ _ I me s Hs Hne) as [_ [?|?]]; congruence.
Qed.

(** First half: the running task becomes the outgoing one. *)
Lemma inv_deselect tp ts cur sw ph nid n me prev p :
  inv None tp ts cur sw ph nid n → ph !! me = Some Up → cur !! me = Some prev →
  ts !! prev = Some p → state p = Running →
  inv (Some me) tp (<[prev := set_state Switching p]> ts) cur (<[me := prev]> sw) (<[me := Handoff]> ph) nid n.
Proof.
  intros I Hp Hcur Hprev Hrun. pose proof (up_slot_clear _ _ _ _ _ _ _ _ _ I Hp) as Hclear.
  apply (inv_phase _ _ _ _ _ _ _ _ me Up Handoff) in I; [|auto..|done].
  set (ph' := <[me := Handoff]> ph) in *.
  assert (Hph : ph' !! me = Some Handoff) by (apply list_lookup_insert_eq; by eapply lookup_lt_Some).
  pose proof (i_task _ _ _ _ _ _ _ _ I prev p Hprev) as T.
  assert (Hpc : cpu p = me).
  { destruct (i_current _ _ _ _ _ _ _ _ I me) as (s & t & ? & ? & ? & ?); [right; by left|done|]. congruence. }
  assert (Hidle : idle p ↔ idle (set_state Switching p)).
  { unfold idle, live. cbn. by rewrite Hrun. }
  assert (Hlv : live p = true ∧ live (set_state Switching p) = true)
    by (unfold live; cbn; by rewrite Hrun).
  assert (Hother : ∀ s t, ts !! s = Some t → state t = Switching → cpu t ≠ me).
  { intros s t Ht Hst Hc. pose proof (ti_switching _ _ _ _ _ _ _ (i_task _ _ _ _ _ _ _ _ I s t Ht) Hst) as Hs.
    rewrite Hc, Hclear in Hs. simplify_eq. apply lookup_lt_Some in Ht.
    rewrite (i_tasks _ _ _ _ _ _ _ _ I) in Ht. lia. }
  pose proof (lookup_lt_Some _ _ _ Hclear) as Hlt.
  assert (Hsw : ∀ c, c ≠ me → <[me := prev]> sw !! c = sw !! c) by (intros; by rewrite list_lookup_insert_ne).
  assert (Hswme : <[me := prev]> sw !! me = Some prev) by by apply list_lookup_insert_eq.
  pose proof (lookup_lt_Some _ _ _ Hprev) as Hlt'.
  destruct I. split; try done.
  - by rewrite length_insert.
  - by rewrite length_insert.
  - intros s t [[<- ->]|[Hne Ht]]%lookup_insert_cases.
    + assert (T' : task_inv tp cur (<[me := prev]> sw) ph' nid prev p)
        by (apply (task_inv_arrays tp cur sw ph'); auto; congruence).
      apply (task_inv_owner _ _ _ _ _ _ p); try done; [unfold live; by rewrite Hrun|cbn; by rewrite Hpc|].
      intros Hi. apply Hidle in Hi. destruct (ti_idle _ _ _ _ _ _ _ T Hi) as (_ & _ & _ & ? & _).
      split_and!; [set_solver|done|done].
    + apply (task_inv_arrays tp cur sw ph'); eauto. intros Hst Hs. rewrite Hsw; [done|]. eauto.
  - intros c Hc He. destruct (i_current0 c Hc) as (s & t & ? & Ht & ? & ?); [done|].
    exists s, t. split_and!; try done. rewrite list_lookup_insert_ne; [done|]. congruence.
  - intros c s Hs Hne. destruct (decide (c = me)) as [->|Hcm].
    + rewrite Hswme in Hs. injection Hs as <-. split; [|auto].
      exists (set_state Switching p). rewrite list_lookup_insert_eq by done. done.
    + rewrite Hsw in Hs by done. destruct (i_out0 c s Hs Hne) as [(t & Ht & ? & ?) ?]. split; [|done].
      exists t. rewrite list_lookup_insert_ne; [done|]. congruence.
  - intros c Hc. destruct (i_has_idle0 c Hc) as (s & t & Ht & Hi & ?).
    destruct (decide (s = prev)) as [->|]; [|exists s, t; by rewrite list_lookup_insert_ne].
    simplify_eq. exists prev, (set_state Switching p).
    rewrite list_lookup_insert_eq by done. split_and!; [done|by apply Hidle|done].
  - intros s1 s2 t1 t2 [[<- ->]|[? ?]]%lookup_insert_cases [[<- ->]|[? ?]]%lookup_insert_cases; cbn; [done| | |eauto];
      intros ???; [eapply (i_ids0 prev s2 p t2)|eapply (i_ids0 s1 prev t1 p)]; (done || congruence).
  - intros s1 s2 t1 t2 [[<- ->]|[? ?]]%lookup_insert_cases [[<- ->]|[? ?]]%lookup_insert_cases; [done| | |eauto];
      rewrite <-Hidle; intros ???; [eapply (i_one_idle0 prev s2 p t2)|eapply (i_one_idle0 s1 prev t1 p)]; done.
  - pose proof (count_if_insert live ts prev p (set_state Switching p) Hprev) as Hc.
    rewrite (proj1 Hlv), (proj2 Hlv) in Hc. lia.
Qed.

(** Second half: the selected task becomes the current one. *)
Lemma inv_select tp ts cur sw ph nid n me next t :
  inv (Some me) tp ts cur sw ph nid n → is_up ph me → ts !! next = Some t →
  state t = Ready → cpu t = me →
  (∀ s u, ts !! s = Some u → state u = Running → cpu u ≠ me) →
  inv None tp (<[next := dispatch t]> ts) (<[me := next]> cur) sw ph nid n.
Proof.
  intros I Hup Hnext Hready Hcpu Hnone.
  assert (Hidle : idle t ↔ idle (dispatch t)) by (unfold idle, live; cbn; by rewrite Hready).
  assert (Hlv : live t = true ∧ live (dispatch t) = true) by (unfold live; cbn; by rewrite Hready).
  assert (Hlt : (me < length cur)%nat).
  { rewrite (i_cur _ _ _ _ _ _ _ _ I), <-(i_ph _ _ _ _ _ _ _ _ I).
    destruct Hup as [?|[?|?]]; by eapply lookup_lt_Some. }
  pose proof (lookup_lt_Some _ _ _ Hnext) as Hlt'.
  destruct I. split; try done.
  - by rewrite length_insert.
  - by rewrite length_insert.
  - intros s u [[<- ->]|[Hne Hu]]%lookup_insert_cases.
    + assert (T : task_inv tp (<[me := next]> cur) sw ph nid next t)
        by (apply (task_inv_arrays tp cur sw ph); auto; congruence).
      apply (task_inv_owner _ _ _ _ _ _ t); try done; [by apply Hlv| |].
      * intros _. rewrite Hcpu. by rewrite list_lookup_insert_eq.
      * intros Hi. apply Hidle in Hi. destruct (ti_idle _ _ _ _ _ _ _ T Hi) as (_ & _ & _ & ? & _).
        split_and!; [set_solver|done|done].
    + apply (task_inv_arrays tp cur sw ph); auto. intros Hr Hs.
      rewrite list_lookup_insert_ne; [done|]. intros E. by apply (Hnone s u).
  - intros c s [[<- ->]|[? ?]]%lookup_insert_cases; [by rewrite <-i_tasks0|eauto].
  - intros c Hc _. destruct (decide (c = me)) as [->|Hne].
    + exists next, (dispatch t). rewrite !list_lookup_insert_eq by done. done.
    + destruct (i_current0 c Hc) as (s & u & Hs & Hu & Hr & Huc); [congruence|].
      exists s, u. rewrite !list_lookup_insert_ne; [done| |done]. intros ->. congruence.
  - intros c s Hs Hne. destruct (i_out0 c s Hs Hne) as [(u & Hu & ? & ?) ?]. split; [|done].
    exists u. rewrite list_lookup_insert_ne; [done|]. intros ->. congruence.
  - intros c Hc. destruct (i_has_idle0 c Hc) as (s & u & Hu & Hi & ?).
    destruct (decide (s = next)) as [->|]; [|exists s, u; by rewrite list_lookup_insert_ne].
    simplify_eq. exists next, (dispatch t). rewrite list_lookup_insert_eq by done.
    split_and!; [done|by apply Hidle|done].
  - intros s1 s2 t1 t2 [[<- ->]|[? ?]]%lookup_insert_cases [[<- ->]|[? ?]]%lookup_insert_cases; cbn; [done| | |eauto];
      intros ???; [eapply (i_ids0 next s2 t t2)|eapply (i_ids0 s1 next t1 t)]; (done || congruence).
  - intros s1 s2 t1 t2 [[<- ->]|[? ?]]%lookup_insert_cases [[<- ->]|[? ?]]%lookup_insert_cases; [done| | |eauto];
      rewrite <-Hidle; intros ???; [eapply (i_one_idle0 next s2 t t2)|eapply (i_one_idle0 s1 next t1 t)]; done.
  - pose proof (count_if_insert live ts next t (dispatch t) Hnext) as Hc.
    rewrite (proj1 Hlv), (proj2 Hlv) in Hc. lia.
Qed.

Lemma inv_weaken ex tp ts cur sw ph nid n :
  inv None tp ts cur sw ph nid n → inv ex tp ts cur sw ph nid n.
Proof. intros []. split; auto. Qed.

(** ** The world around the table *)

Definition winv (ex : option nat) (ph : list phase) (w : World) : Prop :=
  inv ex (smp w) (tasks (sched w)) (current_slot (sched w)) (switching_out (sched w)) ph
    (next_task_id w) (task_count (sched w)) ∧
  length (last_selected (sched w)) = MAX_CPUS ∧
  Forall (λ row, length row = 3%nat) (last_selected (sched w)) ∧
  LinProofs.wf (Service.lineages (sec w)) ∧ length (preempt w) = MAX_CPUS.

Lemma revoke_each_total owners r :
  LinProofs.wf r → ∃ r', revoke_each owners r = Some r' ∧ LinProofs.wf r'.
Proof.
  revert r. induction owners as [|o owners IH]; intros r Hwf; [by exists r|]. simpl.
  destruct (LinProofs.revoke_all_owned_spec r o Hwf) as (r1 & k & -> & Hwf1 & _). simpl. by apply IH.
Qed.

Lemma task_inv_empty tp cur sw ph nid s : task_inv tp cur sw ph nid s tcb_empty.
Proof. split; try done. by intros [? _]. Qed.

Lemma dead_doomed me cur s t : doomed me cur s t = true → state t = Dead ∧ s ≠ cur ∧ cpu t = me.
Proof.
  unfold doomed. rewrite !andb_true_iff, negb_true_iff, bool_decide_eq_false, !bool_decide_eq_true. tauto.
Qed.

Lemma reap_dead_spec ex ph w me :
  winv ex ph w → (me < MAX_CPUS)%nat →
  ∃ w', reap_dead me w = Some w' ∧ winv ex ph w' ∧
    current_slot (sched w') = current_slot (sched w) ∧
    switching_out (sched w') = switching_out (sched w) ∧ smp w' = smp w ∧
    last_selected (sched w') = last_selected (sched w) ∧
    (∀ s t, tasks (sched w) !! s = Some t → state t ≠ Dead ∨ current_slot (sched w) !! me = Some s →
       tasks (sched w') !! s = Some t) ∧
    (∀ s t, tasks (sched w') !! s = Some t → state t ≠ Empty → tasks (sched w) !! s = Some t).
Proof.
  intros (I & Hl1 & Hl2 & Hlin & Hpre) Hme. unfold reap_dead.
  destruct (lookup_lt_is_Some_2 (current_slot (sched w)) me) as [cur Hcur].
  { by rewrite (i_cur _ _ _ _ _ _ _ _ I). }
  rewrite Hcur. cbn [mbind option_bind]. cbv zeta.
  set (owners := flatten _). destruct (revoke_each_total owners _ Hlin) as (r & -> & Hr).
  cbn [mbind option_bind]. eexists. split; [done|]. set (f := λ slot t, _).
  assert (Hlook : ∀ s t', imap f (tasks (sched w)) !! s = Some t' →
    ∃ t, tasks (sched w) !! s = Some t ∧ t' = f s t).
  { intros s t'. rewrite list_lookup_imap. destruct (tasks (sched w) !! s); naive_solver. }
  split_and!; try done; cbn.
  - split_and!; try done; cbn.
    assert (Hcount : count_if live (imap f (tasks (sched w))) = count_if live (tasks (sched w))).
    { apply count_if_pointwise; [by rewrite length_imap|]. intros s t t' Ht (u & Hu & ->)%Hlook.
      simplify_eq. unfold f. destruct (doomed me cur s t) eqn:E; [|done].
      destruct (dead_doomed _ _ _ _ E) as [Hd _]. unfold live. by rewrite Hd. }
    rewrite (i_count _ _ _ _ _ _ _ _ I), <-Hcount.
    eapply inv_pointwise; [done|by rewrite length_imap|].
    intros s t t' Ht (u & Hu & ->)%Hlook. simplify_eq. unfold f.
    destruct (doomed me cur s t) eqn:E; [|split; [apply keeps_refl|by eapply i_task]].
    split; [|apply task_inv_empty]. destruct (dead_doomed _ _ _ _ E) as [Hd _].
    assert (Hni : ¬ idle t) by (unfold idle, live; rewrite Hd; naive_solver).
    split; try (rewrite Hd; done); [|naive_solver]. split; [done|by intros [? _]].
  - intros s t Ht Hd. rewrite list_lookup_imap, Ht. cbn. f_equal. unfold f, doomed.
    destruct Hd as [Hd|Hd].
    + rewrite (bool_decide_false (state t = Dead)) by done. by rewrite andb_false_r.
    + replace cur with s by congruence. by rewrite bool_decide_true.
  - intros s t (u & Hu & ->)%Hlook Hne. unfold f in *. destruct (doomed me cur s u); [done|congruence].
Qed.

(** ** Selection *)

Lemma best_priority_spec me (ts : list Tcb) :
  match best_priority me ts with
  | None => ∀ s t, ts !! s = Some t → eligible me t = false
  | Some b => (∃ s t, ts !! s = Some t ∧ eligible me t = true ∧ priority t = b) ∧
      ∀ s t, ts !! s = Some t → eligible me t = true → priority t ≤ b
  end.
Proof.
  induction ts as [|u ts IH] using rev_ind; [done|].
  unfold best_priority in *. rewrite foldl_app. cbn [foldl].
  set (acc := foldl _ None ts) in *.
  assert (Hin : ∀ s t, (ts ++ [u]) !! s = Some t → ts !! s = Some t ∨ t = u).
  { intros s t [Hs|[_ Hs]]%lookup_app_Some; [by left|]. right.
    by apply list_lookup_singleton_Some in Hs as [_ ->]. }
  assert (Hlast : (ts ++ [u]) !! length ts = Some u) by by apply list_lookup_middle.
  assert (Hpre : ∀ s t, ts !! s = Some t → (ts ++ [u]) !! s = Some t) by (intros; by apply lookup_app_l_Some).
  destruct (eligible me u) eqn:Eu; destruct acc as [b|]; cbn.
  - destruct IH as [(s & t & Hs & He & Hp) Hmax]. split.
    + destruct (Z.max_spec b (priority u)) as [[? ->]|[? ->]]; [exists (length ts), u|exists s, t]; auto.
    + intros s' t' [Hs'| ->]%Hin He'; [specialize (Hmax _ _ Hs' He'); lia|lia].
  - split; [exists (length ts), u; auto|]. intros s' t' [Hs'| ->]%Hin He'; [|lia].
    rewrite (IH _ _ Hs') in He'. done.
  - destruct IH as [(s & t & Hs & He & Hp) Hmax]. split; [exists s, t; auto|].
    intros s' t' [Hs'| ->]%Hin He'; [eauto|congruence].
  - intros s' t' [Hs'| ->]%Hin; eauto.
Qed.

Lemma find_fmap_seq {A} (p : A → bool) (f : nat → A) a n :
  match List.find p (f <$> seq a n) with
  | Some x => ∃ k, (a ≤ k < a + n)%nat ∧ x = f k ∧ p x = true ∧ ∀ j, (a ≤ j < k)%nat → p (f j) = false
  | None => ∀ j, (a ≤ j < a + n)%nat → p (f j) = false
  end.
Proof.
  revert a. induction n as [|n IH]; intros a; [cbn; intros; lia|].
  cbn [List.find seq fmap list_fmap].
  destruct (p (f a)) eqn:E; [exists a; split_and!; (done || lia || (intros; lia))|].
  specialize (IH (S a)). destruct (List.find p _) as [x|].
  - destruct IH as (k & ? & ? & ? & Hj). exists k. split_and!; try (done || lia).
    intros j ?. destruct (decide (j = a)) as [->|]; [done|]. apply Hj. lia.
  - intros j ?. destruct (decide (j = a)) as [->|]; [done|]. apply IH. lia.
Qed.

(** A task that [me] may run now. *)
Definition candidate_at (me : nat) (ts : list Tcb) (best : Z) (s : nat) : Prop :=
  ∃ t, ts !! s = Some t ∧ eligible me t = true ∧ priority t = best.

Lemma next_offset (start s : nat) :
  (s < MAX_TASKS)%nat → ∃ k, (1 ≤ k ≤ MAX_TASKS)%nat ∧ ((start + k) `mod` MAX_TASKS = s)%nat.
Proof.
  unfold MAX_TASKS. intros Hs.
  pose proof (Nat.mod_upper_bound start 32 ltac:(lia)). pose proof (Nat.div_mod start 32 ltac:(lia)).
  assert (∃ k, (1 ≤ k ≤ 32)%nat ∧ ∃ q, (start + k = s + q * 32)%nat) as (k & ? & q & Hq).
  { destruct (decide (start `mod` 32 < s)%nat).
    - exists (s - start `mod` 32)%nat. split; [lia|]. exists (start / 32)%nat. lia.
    - exists (s + 32 - start `mod` 32)%nat. split; [lia|]. exists (start / 32 + 1)%nat. lia. }
  exists k. split; [done|]. rewrite Hq, Nat.Div0.mod_add. by apply Nat.mod_small.
Qed.

Lemma next_slot_spec me (ts : list Tcb) start best :
  length ts = MAX_TASKS → (∃ s, candidate_at me ts best s) →
  ∃ next k, next_slot me ts start best = Some next ∧ (1 ≤ k ≤ MAX_TASKS)%nat ∧
    next = ((start + k) `mod` MAX_TASKS)%nat ∧ candidate_at me ts best next ∧
    ∀ j, (1 ≤ j < k)%nat → ¬ candidate_at me ts best ((start + j) `mod` MAX_TASKS)%nat.
Proof.
  intros Hlen [s Hs]. unfold next_slot. set (p := λ slot : nat, match ts !! slot with
    | Some t => eligible me t && (priority t =? best) | None => false end).
  assert (Hp : ∀ x, p x = true ↔ candidate_at me ts best x).
  { intros x. unfold p, candidate_at. destruct (ts !! x) as [t|]; [|naive_solver].
    rewrite andb_true_iff, Z.eqb_eq. naive_solver. }
  pose proof (find_fmap_seq p (λ offset, (start + offset) `mod` MAX_TASKS)%nat 1 MAX_TASKS) as F.
  destruct (List.find p _) as [x|].
  - destruct F as (k & ? & -> & ? & Hj). eexists _, k. split_and!; [done|lia..|done|by apply Hp|].
    intros j ? Hc%Hp. rewrite Hj in Hc; [done|lia].
  - exfalso. assert (Hlt : (s < MAX_TASKS)%nat).
    { destruct Hs as (t & Ht & _). apply lookup_lt_Some in Ht. lia. }
    destruct (next_offset start s Hlt) as (k & ? & Hk). apply Hp in Hs. rewrite <-Hk, F in Hs; [done|lia].
Qed.

Lemma eligible_spec me t :
  eligible me t = true → state t = Ready ∧ cpu t = me.
Proof. unfold eligible. rewrite !andb_true_iff, !bool_decide_eq_true. tauto. Qed.

(** What [prepare_switch] chose. *)
Record chosen (me : nat) (w w' : World) (next : nat) : Prop := {
  ch_current : current_slot (sched w') !! me = Some next;
  ch_candidate : ∃ best start k, candidate_at me (tasks (sched w)) best next ∧
    (∀ s t, tasks (sched w) !! s = Some t → eligible me t = true → priority t ≤ best) ∧
    last_selected (sched w) !! me ≫= (.!! Z.to_nat best) = Some start ∧
    (1 ≤ k ≤ MAX_TASKS)%nat ∧ next = ((start + k) `mod` MAX_TASKS)%nat ∧
    (∀ j, (1 ≤ j < k)%nat → ¬ candidate_at me (tasks (sched w)) best ((start + j) `mod` MAX_TASKS)%nat) ∧
    last_selected (sched w') !! me ≫= (.!! Z.to_nat best) = Some next
}.

Lemma validated_inv {A} ex ph w (k : option A) : winv ex ph w → validated w k = k.
Proof.
  intros [I _]. unfold validated, validate_affinity_invariants. by rewrite (inv_validates _ _ _ _ _ _ _ _ I).
Qed.

Lemma candidate_reap me w w' best s :
  (∀ s t, tasks (sched w) !! s = Some t → state t ≠ Dead ∨ current_slot (sched w) !! me = Some s →
     tasks (sched w') !! s = Some t) →
  (∀ s t, tasks (sched w') !! s = Some t → state t ≠ Empty → tasks (sched w) !! s = Some t) →
  candidate_at me (tasks (sched w)) best s ↔ candidate_at me (tasks (sched w')) best s.
Proof.
  intros F B. split; intros (t & Ht & He & Hp); exists t; pose proof (eligible_spec _ _ He) as [Hr _];
    split_and!; try done; [apply F|apply B]; rewrite ?Hr; auto.
Qed.

Lemma winv_last_selected ex ph w c p s : winv ex ph w → winv ex ph (set_last_selected c p s w).
Proof.
  intros (I & Hl1 & Hl2 & Hlin & Hpre). split_and!; try done; cbn.
  - by rewrite length_alter.
  - apply Forall_alter; [done|]. intros row _ Hr. by rewrite length_insert.
Qed.

Lemma winv_select ph w me next t :
  winv (Some me) ph w → is_up ph me → tasks (sched w) !! next = Some t → state t = Ready → cpu t = me →
  (∀ s u, tasks (sched w) !! s = Some u → state u = Running → cpu u ≠ me) →
  winv None ph (count_switch (set_current_slot me next (update_task next dispatch w))).
Proof.
  intros (I & Hl1 & Hl2 & Hlin & Hpre) Hup Ht Hr Hc Hn. split_and!; try done. cbn.
  rewrite (alter_insert _ _ _ t) by done. by apply inv_select.
Qed.

Lemma winv_deselect ph w me prev p :
  winv None ph w → ph !! me = Some Up → current_slot (sched w) !! me = Some prev →
  tasks (sched w) !! prev = Some p → state p = Running →
  let w' := set_switching_out me prev (update_task prev (set_state Switching) w) in
  winv (Some me) (<[me := Handoff]> ph) w' ∧
  (∀ s u, tasks (sched w') !! s = Some u → state u = Running → cpu u ≠ me).
Proof.
  intros (I & Hl1 & Hl2 & Hlin & Hpre) Hup Hcur Hp Hr. cbv zeta. split.
  - split_and!; try done. cbn. rewrite (alter_insert _ _ _ p) by done. by apply inv_deselect.
  - cbn. rewrite (alter_insert _ _ _ p) by done.
    intros s u [[<- ->]|[Hne Hu]]%lookup_insert_cases Hru Hcu; [done|].
    destruct (ti_run _ _ _ _ _ _ _ (i_task _ _ _ _ _ _ _ _ I s u Hu) Hru) as [Hs _]. congruence.
Qed.

Lemma prepare_switch_spec ex ph w me :
  winv ex ph w → ph !! me = Some Up → ex = None ∨ ex = Some me →
  (ex = Some me → ∀ s t, current_slot (sched w) !! me = Some s → tasks (sched w) !! s = Some t →
     state t ≠ Running) →
  (∃ w', prepare_switch me w = Some (w', None) ∧ winv ex ph w' ∧
     ∀ s t, tasks (sched w) !! s = Some t → eligible me t = false) ∨
  (∃ w' cs next, prepare_switch me w = Some (w', Some cs) ∧ winv None (<[me := Handoff]> ph) w' ∧
     chosen me w w' next).
Proof.
  intros W Hup Hex Hexc. pose proof W as [I0 _].
  assert (Hme : (me < MAX_CPUS)%nat).
  { rewrite <-(i_ph _ _ _ _ _ _ _ _ I0). by eapply lookup_lt_Some. }
  destruct (reap_dead_spec ex ph w me W Hme) as (w1 & Hreap & W1 & Ecur & Esw & Etp & Els & F & B).
  unfold prepare_switch. rewrite Hreap. cbn [mbind option_bind]. rewrite (validated_inv ex ph) by done.
  pose proof (best_priority_spec me (tasks (sched w1))) as HB.
  destruct (best_priority me (tasks (sched w1))) as [best|].
  2:{ left. exists w1. split_and!; [done|done|]. intros s t Ht. destruct (eligible me t) eqn:E; [|done].
      pose proof (eligible_spec _ _ E) as [Hr _]. rewrite (HB s t) in E; [done|]. apply F; [done|].
      left. by rewrite Hr. }
  destruct HB as [(s0 & t0 & Hs0 & He0 & Hp0) Hmax].
  pose proof W1 as (I1 & Hl1 & Hl2 & Hlin & Hpre).
  destruct (lookup_lt_is_Some_2 (last_selected (sched w1)) me) as [row Hrow]; [by rewrite Hl1|].
  assert (Hrl : length row = 3%nat) by (by eapply (Forall_lookup_1 _ _ _ _ Hl2)).
  assert (Hb : 0 ≤ best ≤ 2).
  { pose proof (eligible_spec _ _ He0) as [Hr _]. subst best.
    apply (ti_shape _ _ _ _ _ _ _ (i_task _ _ _ _ _ _ _ _ I1 s0 t0 Hs0)). unfold live. by rewrite Hr. }
  destruct (lookup_lt_is_Some_2 row (Z.to_nat best)) as [start Hstart]; [lia|].
  rewrite Hrow. cbn [mbind option_bind]. rewrite Hstart. cbn [mbind option_bind].
  destruct (next_slot_spec me (tasks (sched w1)) start best) as (next & k & Hnext & Hk & Hnk & Hc & Hrr).
  { apply I1. } { exists s0, t0. auto. }
  rewrite Hnext. pose proof Hc as (tn & Htn & Hen & Hpn). rewrite Htn. cbn [mbind option_bind].
  pose proof (eligible_spec _ _ Hen) as [Hrn Hcn].
  assert (Hln : live tn = true) by (unfold live; by rewrite Hrn).
  destruct (ti_shape _ _ _ _ _ _ _ (i_task _ _ _ _ _ _ _ _ I1 next tn Htn) Hln) as ((space & Hspace) & _ & _).
  rewrite Hspace. cbn [mbind option_bind]. cbv zeta. cbn [current_slot sched set_last_selected set_sched tasks].
  destruct (lookup_lt_is_Some_2 (current_slot (sched w1)) me) as [prev Hprev].
  { by rewrite (i_cur _ _ _ _ _ _ _ _ I1). }
  rewrite Hprev. cbn [mbind option_bind].
  destruct (lookup_lt_is_Some_2 (tasks (sched w1)) prev) as [tp Htp].
  { rewrite (i_tasks _ _ _ _ _ _ _ _ I1). by apply (i_cur_lt _ _ _ _ _ _ _ _ I1 me). }
  rewrite Htp. cbn [mbind option_bind].
  right. set (w2 := set_last_selected me (Z.to_nat best) next w1).
  assert (W2 : winv ex ph w2) by by apply winv_last_selected.
  assert (Hup' : is_up (<[me := Handoff]> ph) me).
  { right. left. apply list_lookup_insert_eq. by eapply lookup_lt_Some. }
  assert (Hlast : ∀ w3, last_selected (sched w3) = last_selected (sched w2) →
    last_selected (sched w3) !! me ≫= (.!! Z.to_nat best) = Some next).
  { intros w3 ->. cbn. rewrite list_lookup_alter_eq, Hrow. cbn. apply list_lookup_insert_eq. lia. }
  assert (Hch : ∀ w3, current_slot (sched w3) !! me = Some next →
    last_selected (sched w3) = last_selected (sched w2) → chosen me w w3 next).
  { intros w3 Hw3 Hl3. split; [done|]. exists best, start, k.
    assert (R := λ s, candidate_reap me w w1 best s F B). split_and!; try done.
    - by apply R.
    - intros s t Ht He. pose proof (eligible_spec _ _ He) as [Hr _]. apply (Hmax s t); [|done].
      apply F; [done|]. left. by rewrite Hr.
    - rewrite <-Els, Hrow. cbn. done.
    - lia.
    - lia.
    - intros j Hj Hcj%R. by apply (Hrr j).
    - by apply Hlast. }
  assert (Hcurlt : (me < length (current_slot (sched w1)))%nat) by by rewrite (i_cur _ _ _ _ _ _ _ _ I1).
  destruct (decide (state tp = Running)) as [Hrun|Hrun].
  - assert (ex = None) as ->.
    { destruct Hex as [->|Hx]; [done|]. exfalso. apply (Hexc Hx prev tp); [congruence| |done].
      apply B; [done|]. by rewrite Hrun. }
    rewrite bool_decide_true by done. cbn [switching_out sched set_last_selected set_sched].
    rewrite (up_slot_clear _ _ _ _ _ _ _ _ _ I1 Hup). cbn [mbind option_bind]. rewrite bool_decide_true by done.
    destruct (winv_deselect ph w2 me prev tp) as [W3 Hnone]; [done..|].
    eexists _, _, next. split_and!; [done| |].
    + apply (winv_select _ _ _ _ tn); try done. cbn. rewrite list_lookup_alter_ne; [done|congruence].
    + apply Hch; [|done]. cbn. by apply list_lookup_insert_eq.
  - rewrite bool_decide_false by done. cbn [mbind option_bind].
    assert (Hnone : ∀ s u, tasks (sched w2) !! s = Some u → state u = Running → cpu u ≠ me).
    { intros s u Hu Hru Hcu. cbn in Hu.
      destruct (ti_run _ _ _ _ _ _ _ (i_task _ _ _ _ _ _ _ _ I1 s u Hu) Hru) as [Hs _]. congruence. }
    assert (W3 : winv (Some me) (<[me := Handoff]> ph) w2).
    { destruct W2 as (I2 & ?). split; [|done]. apply (inv_phase _ _ _ _ _ _ _ _ me Up Handoff); auto; [|done].
      destruct Hex as [->| ->]; [by apply inv_weaken|done]. }
    eexists _, _, next. split_and!; [done|by apply (winv_select _ _ _ _ tn)|].
    apply Hch; [|done]. cbn. by apply list_lookup_insert_eq.
Qed.

(** ** Steps that change one task *)

Definition at_rest (st : TaskState) : Prop := st = Ready ∨ st = Blocked ∨ st = Sleeping.

Lemma live_at_rest t : at_rest (state t) → live t = true.
Proof. unfold live. by intros [->|[->| ->]]. Qed.

(** A task that is not executing changes state, or dies. *)
Lemma calm_change ex tp ts cur sw ph nid n s t t' :
  inv ex tp ts cur sw ph nid n → ts !! s = Some t → at_rest (state t) → ¬ idle t →
  at_rest (state t') ∧ name t' = name t ∨ state t' = Dead → owner_view t' = owner_view t →
  keeps ex t t' ∧ task_inv tp cur sw ph nid s t'.
Proof.
  intros I Hs Hr Hni Hr' Hv. pose proof (live_at_rest t Hr) as Hl.
  assert (Hni' : ¬ idle t').
  { intros [Hl' Hn']. apply Hni. split; [done|]. destruct Hr' as [[_ <-]|Hd]; [done|].
    unfold live in Hl'. by rewrite Hd in Hl'. }
  assert (Hne : state t' ≠ Empty ∧ state t' ≠ Running ∧ state t' ≠ Switching).
  { unfold at_rest in Hr'. destruct Hr' as [[[->|[->| ->]] _]| ->]; done. }
  split.
  - unfold owner_view in Hv. simplify_eq. split.
    + intros E. rewrite E in Hr. by destruct Hr as [?|[?|?]].
    + intros E. rewrite E in Hr. by destruct Hr as [?|[?|?]].
    + tauto.
    + tauto.
    + intros _. split; [|done]. intros E. rewrite E in Hr. by destruct Hr as [?|[?|?]].
  - apply (task_inv_owner _ _ _ _ _ _ t); try done; [by apply (i_task _ _ _ _ _ _ _ _ I)|tauto..].
Qed.

Lemma winv_alter ex ph w s t f :
  winv ex ph w → tasks (sched w) !! s = Some t → keeps ex t (f t) →
  task_inv (smp w) (current_slot (sched w)) (switching_out (sched w)) ph (next_task_id w) s (f t) →
  live (f t) = live t → winv ex ph (update_task s f w).
Proof.
  intros (I & Hr) Hs K T Hl. split; [|done]. cbn. rewrite (alter_insert _ _ _ t) by done.
  replace (task_count (sched w)) with (task_count (sched w) - Z.b2z (live t) + Z.b2z (live (f t)))
    by (rewrite Hl; lia).
  by apply inv_insert.
Qed.

Lemma winv_cosmetic ex ph w s t f :
  winv ex ph w → tasks (sched w) !! s = Some t → view (f t) = view t → winv ex ph (update_task s f w).
Proof.
  intros W Hs Hv. apply (winv_alter _ _ _ _ t); try done.
  - by apply keeps_view.
  - apply (task_inv_view _ _ _ _ _ _ t); [done|]. by apply W.
  - by apply view_facts.
Qed.

Lemma winv_reschedule ex ph w me c : winv ex ph w → winv ex ph (reschedule_cpu me c w).1.
Proof.
  intros (I & Hl1 & Hl2 & Hlin & Hpre). unfold reschedule_cpu. destruct (negb _); [by split|].
  case_bool_decide; split_and!; try done. cbn. by rewrite length_insert.
Qed.

Lemma idle_not_waiting tp cur sw ph nid s t :
  task_inv tp cur sw ph nid s t → state t = Blocked ∨ state t = Sleeping → ¬ idle t.
Proof.
  intros T Hst Hi. destruct (ti_idle _ _ _ _ _ _ _ T Hi) as [Hin _].
  destruct Hst as [E|E]; rewrite E in Hin; set_solver.
Qed.

Lemma waiting_at_rest t : state t = Blocked ∨ state t = Sleeping → at_rest (state t).
Proof. unfold at_rest. tauto. Qed.

(** Waking a waiting task, whatever else is cleared. *)
Lemma wake_change ex tp ts cur sw ph nid n s t t' :
  inv ex tp ts cur sw ph nid n → ts !! s = Some t → state t = Blocked ∨ state t = Sleeping →
  state t' = Ready → name t' = name t → owner_view t' = owner_view t →
  keeps ex t t' ∧ task_inv tp cur sw ph nid s t' ∧ live t' = live t.
Proof.
  intros I Hs Hw Hr Hn Hv. pose proof (i_task _ _ _ _ _ _ _ _ I s t Hs) as T.
  destruct (calm_change ex tp ts cur sw ph nid n s t t') as [K T']; try done.
  - by apply waiting_at_rest.
  - by eapply idle_not_waiting.
  - left. split; [by left|done].
  - split_and!; [done..|]. rewrite (live_at_rest t) by by apply waiting_at_rest.
    unfold live. by rewrite Hr.
Qed.

Lemma wake_one_cases now t :
  wake_one now t = t ∨
  ((state t = Blocked ∨ state t = Sleeping) ∧ state (wake_one now t) = Ready ∧
   name (wake_one now t) = name t ∧ owner_view (wake_one now t) = owner_view t).
Proof.
  unfold wake_one. destruct (bool_decide (state t = Blocked)) eqn:E1; cbn [andb].
  - apply bool_decide_eq_true in E1. destruct (event_deadline t) as [d|]; [destruct (d <=? now)|];
      cbn [state set_event_deadline set_state andb bool_decide]; rewrite ?E1; cbn; [right|left..]; auto.
  - destruct (bool_decide (state t = Sleeping)) eqn:E2; cbn [andb]; [|by left].
    apply bool_decide_eq_true in E2. destruct (wake_tick t <=? now); [right|left]; auto.
Qed.

Lemma winv_wake_sleeping ex ph w now : winv ex ph w → winv ex ph (wake_sleeping now w).
Proof.
  intros (I & Hr). split; [|done]. cbn.
  assert (P : ∀ s t t', tasks (sched w) !! s = Some t → (wake_one now <$> tasks (sched w)) !! s = Some t' →
    (keeps ex t t' ∧ task_inv (smp w) (current_slot (sched w)) (switching_out (sched w)) ph (next_task_id w) s t')
    ∧ live t' = live t).
  { intros s t t' Ht. rewrite list_lookup_fmap, Ht. intros [= <-].
    destruct (wake_one_cases now t) as [->|(? & ? & ? & ?)].
    - split_and!; [apply keeps_refl|by eapply i_task|done].
    - destruct (wake_change ex _ _ _ _ _ _ _ s t (wake_one now t) I) as (? & ? & ?); try done. }
  rewrite (i_count _ _ _ _ _ _ _ _ I).
  rewrite <-(count_if_pointwise live (tasks (sched w)) (wake_one now <$> tasks (sched w)));
    [|by rewrite length_fmap|intros s t t' Ht Ht'; by apply (P s t t')].
  apply (inv_pointwise ex _ (tasks (sched w)) _ _ _ _ _ (task_count (sched w))); [done|by rewrite length_fmap|].
  intros s t t' Ht Ht'. by apply (P s t t').
Qed.

(** ** Blocking: the idle task is always there to take over *)

Lemma current_running ph w me s t :
  winv None ph w → is_up ph me → current_slot (sched w) !! me = Some s → tasks (sched w) !! s = Some t →
  state t = Running ∧ cpu t = me.
Proof.
  intros [I _] Hup Hs Ht. destruct (i_current _ _ _ _ _ _ _ _ I me Hup) as (j & u & ? & ? & ? & ?); [done|].
  simplify_eq. done.
Qed.

Lemma idle_ready ph w me s t :
  winv None ph w → ph !! me = Some Up → current_slot (sched w) !! me = Some s →
  tasks (sched w) !! s = Some t → is_idle_name (name t) = false →
  ∃ j u, j ≠ s ∧ tasks (sched w) !! j = Some u ∧ eligible me u = true.
Proof.
  intros [I _] Hup Hs Ht Hn.
  destruct (i_has_idle _ _ _ _ _ _ _ _ I me) as (j & u & Hu & Hi & Hc); [by left|].
  assert (j ≠ s) by (intros ->; simplify_eq; destruct Hi as [_ ?]; congruence).
  exists j, u. split_and!; try done. pose proof (i_task _ _ _ _ _ _ _ _ I j u Hu) as T.
  destruct (ti_idle _ _ _ _ _ _ _ T Hi) as (Hst & _ & Ha & _).
  assert (state u = Ready) as Hr.
  { destruct (state u) eqn:E; try (exfalso; set_solver); [done| |].
    - destruct (ti_run _ _ _ _ _ _ _ T E). congruence.
    - pose proof (ti_switching _ _ _ _ _ _ _ T E) as Hsw. rewrite Hc in Hsw.
      rewrite (up_slot_clear _ _ _ _ _ _ _ _ _ I Hup) in Hsw. simplify_eq.
      apply lookup_lt_Some in Hu. rewrite (i_tasks _ _ _ _ _ _ _ _ I) in Hu. lia. }
  unfold eligible. rewrite Hr, Hc, Ha, !bool_decide_true by done. cbn.
  rewrite negb_true_iff, Z.eqb_neq, mask_meets, cpu_bit_testbit, bool_decide_true; try done; try lia.
  unfold cpu_bit. rewrite Z.shiftl_1_l. lia.
Qed.

Lemma deschedule ph w me s t f w' :
  winv None ph w → ph !! me = Some Up → current_slot (sched w) !! me = Some s →
  tasks (sched w) !! s = Some t → is_idle_name (name t) = false →
  owner_view (f t) = owner_view t → name (f t) = name t →
  state (f t) = Blocked ∨ state (f t) = Sleeping ∨ state (f t) = Dead →
  w' = (if live (f t) then update_task s f w else retire_one (update_task s f w)) →
  ∃ w2 cs next, prepare_switch me w' = Some (w2, Some cs) ∧ winv None (<[me := Handoff]> ph) w2 ∧
    chosen me w' w2 next.
Proof.
  intros W Hup Hs Ht Hn Hv Hnm Hst ->.
  destruct (current_running ph w me s t W) as [Hrun Hcpu]; [by left|done..|].
  destruct (idle_ready ph w me s t W Hup Hs Ht Hn) as (j & u & Hj & Hu & He).
  set (w' := if live (f t) then _ else _).
  assert (Et : tasks (sched w') = <[s := f t]> (tasks (sched w))).
  { unfold w'. destruct (live (f t)); cbn; by rewrite (alter_insert _ _ _ t). }
  assert (Hni : ¬ idle t) by (intros [_ ?]; congruence).
  assert (Hni' : ¬ idle (f t)) by (intros [_ ?]; congruence).
  assert (Hlt : live t = true) by (unfold live; by rewrite Hrun).
  assert (W' : winv (Some me) ph w').
  { pose proof W as (I & Haux). apply (inv_weaken (Some me)) in I.
    assert (K : keeps (Some me) t (f t)).
    { unfold owner_view in Hv. simplify_eq. split; try tauto; try congruence. intros _. split; congruence. }
    assert (T : task_inv (smp w) (current_slot (sched w)) (switching_out (sched w)) ph (next_task_id w) s (f t)).
    { apply (task_inv_owner _ _ _ _ _ _ t); try done; try tauto; [by apply (i_task _ _ _ _ _ _ _ _ I)|..];
        intros E; rewrite E in Hst; naive_solver. }
    pose proof (inv_insert (Some me) _ _ _ _ _ _ _ s t (f t) I Ht K T) as I'. rewrite Hlt in I'.
    assert (1 ≤ task_count (sched w)).
    { rewrite (i_count _ _ _ _ _ _ _ _ I). pose proof (count_if_pos live _ _ _ Ht Hlt). lia. }
    unfold w'. destruct (live (f t)); (split; [|done]); cbn; rewrite (alter_insert _ _ _ t) by done;
      cbn in I'; [by replace (task_count (sched w)) with (task_count (sched w) - 1 + 1) by lia|].
    replace (saturating_sub (task_count (sched w)) 1) with (task_count (sched w) - 1 + 0)
      by (unfold saturating_sub; lia). done. }
  assert (Ecur : current_slot (sched w') = current_slot (sched w)) by (unfold w'; by destruct (live (f t))).
  destruct (prepare_switch_spec (Some me) ph w' me W' Hup) as [(w2 & _ & _ & Hno)|(w2 & cs & nx & ? & ? & ?)].
  - by right.
  - intros _ s' t'. rewrite Ecur, Et. intros Hs' Ht'. simplify_eq.
    rewrite list_lookup_insert_eq in Ht' by (by eapply lookup_lt_Some). simplify_eq.
    intros E. rewrite E in Hst. naive_solver.
  - rewrite (Hno j u) in He; [done|]. rewrite Et. by rewrite list_lookup_insert_ne.
  - eauto 10.
Qed.

(** The outgoing task is published: [Ready], or retired when it was signalled. *)
Lemma inv_finalize tp ts cur sw ph nid n c s t t' :
  inv None tp ts cur sw ph nid n → ph !! c = Some Arrived → sw !! c = Some s → ts !! s = Some t →
  state t = Switching → owner_view t' = owner_view t →
  (state t' = Ready ∧ name t' = name t ∧ termination_signal t' = termination_signal t) ∨
  (state t' = Dead ∧ ¬ idle t) →
  inv None tp (<[s := t']> ts) cur (<[c := MAX_TASKS]> sw) (<[c := Up]> ph) nid (n - 1 + Z.b2z (live t')).
Proof.
  intros I Hp Hsw Ht Hst Hv Hnew.
  assert (U := λ k, up_change ph c Arrived Up k Hp ltac:(auto) ltac:(auto)).
  assert (Q := λ k, quiet_change tp ph c Arrived Up k Hp ltac:(auto) ltac:(auto)).
  pose proof (i_task _ _ _ _ _ _ _ _ I s t Ht) as T.
  pose proof (lookup_lt_Some _ _ _ Ht) as Hlt. pose proof (lookup_lt_Some _ _ _ Hsw) as Hltc.
  pose proof (lookup_lt_Some _ _ _ Hp) as Hltp.
  assert (Hsne : s ≠ MAX_TASKS) by (rewrite (i_tasks _ _ _ _ _ _ _ _ I) in Hlt; lia).
  assert (Hc : cpu t = c).
  { destruct (i_out _ _ _ _ _ _ _ _ I c s Hsw Hsne) as [(u & ? & ? & ?) _]. congruence. }
  assert (Hlv : live t = true) by (unfold live; by rewrite Hst).
  assert (Hidle : idle t ↔ idle t').
  { unfold idle. destruct Hnew as [(E & -> & _)|[E Hni]].
    - rewrite Hlv. unfold live. rewrite E. cbn. tauto.
    - split; [done|]. intros [Hl _]. unfold live in Hl. by rewrite E in Hl. }
  assert (Hne : state t' ≠ Empty ∧ state t' ≠ Running ∧ state t' ≠ Switching)
    by (destruct Hnew as [(-> & _)|[-> _]]; done).
  assert (Hsw' : ∀ k, k ≠ c → <[c := MAX_TASKS]> sw !! k = sw !! k) by (intros; by rewrite list_lookup_insert_ne).
  assert (Hother : ∀ j u, j ≠ s → ts !! j = Some u → state u = Switching → cpu u ≠ c).
  { intros j u Hj Hu Hsu Hcu. pose proof (ti_switching _ _ _ _ _ _ _ (i_task _ _ _ _ _ _ _ _ I j u Hu) Hsu). congruence. }
  assert (Hid : id t' = id t ∧ cpu t' = cpu t) by (unfold owner_view in Hv; simplify_eq; done).
  destruct Hid as [Hid Hcpu]. destruct I. split; try done.
  - by rewrite length_insert.
  - by rewrite length_insert.
  - by rewrite length_insert.
  - intros j u [[<- ->]|[Hj Hu]]%lookup_insert_cases.
    + assert (T' : task_inv tp cur sw (<[c := Up]> ph) nid s t)
        by (apply (task_inv_arrays tp cur sw ph); auto; intros k; [by apply U|by apply Q]).
      apply (task_inv_arrays tp cur sw (<[c := Up]> ph)); try tauto.
      apply (task_inv_owner _ _ _ _ _ _ t); try tauto; try done.
      intros Hi'. destruct Hnew as [(E & _ & ->)|[E _]];
        [|destruct Hi' as [Hl _]; unfold live in Hl; by rewrite E in Hl].
      apply Hidle in Hi'. destruct (ti_idle _ _ _ _ _ _ _ T Hi') as (_ & _ & _ & ? & _).
      rewrite E. split_and!; [set_solver|done|done].
    + apply (task_inv_arrays tp cur sw ph); auto; [|intros k; by apply U|intros k; by apply Q].
      intros Hsu ?. rewrite Hsw'; [done|]. by apply (Hother j u).
  - intros k r [[<- ->]|[? ?]]%lookup_insert_cases; [|eauto]. by apply (i_phase0 c Arrived).
  - intros k Hk%U _. destruct (i_current0 k Hk) as (j & u & ? & Hu & Hru & ?); [done|].
    exists j, u. rewrite list_lookup_insert_ne; [done|]. intros ->. congruence.
  - intros k j Hj Hjne. destruct (decide (k = c)) as [->|Hkc].
    + rewrite list_lookup_insert_eq in Hj by done. congruence.
    + rewrite Hsw' in Hj by done. destruct (i_out0 k j Hj Hjne) as [(u & ? & ? & ?) ?].
      split; [|by rewrite list_lookup_insert_ne]. exists u. rewrite list_lookup_insert_ne; [done|].
      intros ->. congruence.
  - intros k Hk%U. destruct (i_has_idle0 k Hk) as (j & u & Hu & Hi & ?).
    destruct (decide (j = s)) as [->|]; [|exists j, u; by rewrite list_lookup_insert_ne].
    simplify_eq. exists s, t'. rewrite list_lookup_insert_eq by done.
    split_and!; [done|by apply Hidle|congruence].
  - by apply U.
  - intros s1 s2 t1 t2 [[<- ->]|[? ?]]%lookup_insert_cases [[<- ->]|[? ?]]%lookup_insert_cases; [done| | |eauto];
      intros ???; [eapply (i_ids0 s s2 t t2)|eapply (i_ids0 s1 s t1 t)]; (done || congruence).
  - intros s1 s2 t1 t2 [[<- ->]|[? ?]]%lookup_insert_cases [[<- ->]|[? ?]]%lookup_insert_cases; [done| | |eauto];
      rewrite <-Hidle; intros ???; [eapply (i_one_idle0 s s2 t t2)|eapply (i_one_idle0 s1 s t1 t)]; (done || congruence).
  - pose proof (count_if_insert live ts s t t' Ht) as Hcnt. rewrite Hlv in Hcnt.
    destruct (live t'); simpl in *; lia.
Qed.

End inv.
End SchedInv.
