(* ===== verification/SchedulerLife.v ===== *)
(** * Task and CPU lifecycle keep the scheduler's invariant

    Fresh tasks, CPUs that leave and rejoin, and evacuation, at the level of the
    invariant of SchedulerInv.v. *)
From S2P Require Import Prelude Capability WovenGuard SecurityLedger Lineage LineageService TaskControl Scheduler SchedulerInv.

Module SchedLife.
Import Smp Task Sched Machine SchedInv.

Section life.
Context `{Platform}.

Lemma task_inv_nid tp cur sw ph nid nid' s t :
  nid ≤ nid' → task_inv tp cur sw ph nid s t → task_inv tp cur sw ph nid' s t.
Proof. intros Hle []. split; eauto. intros Hne. specialize (ti_id0 Hne). lia. Qed.

Lemma fresh_ids_unique (ts : list Tcb) (nid : Z) (s : nat) (t' : Tcb) :
  (∀ (j : nat) u, ts !! j = Some u → state u ≠ Empty → id u < nid) → id t' = nid →
  (∀ (s1 s2 : nat) t1 t2, ts !! s1 = Some t1 → ts !! s2 = Some t2 →
    state t1 ≠ Empty → state t2 ≠ Empty → id t1 = id t2 → s1 = s2) →
  ∀ (s1 s2 : nat) t1 t2, <[s := t']> ts !! s1 = Some t1 → <[s := t']> ts !! s2 = Some t2 →
    state t1 ≠ Empty → state t2 ≠ Empty → id t1 = id t2 → s1 = s2.
Proof.
  intros Hlt Hid Hu s1 s2 t1 t2 [[<- ->]|[? H1]]%lookup_insert_cases [[<- ->]|[? H2]]%lookup_insert_cases N1 N2 E;
    [done|pose proof (Hlt _ _ H2 N2); lia|pose proof (Hlt _ _ H1 N1); lia|eauto].
Qed.

(** A fresh [Ready] task in a free slot. *)
Lemma inv_fresh tp ts cur sw ph nid n s t t' :
  inv None tp ts cur sw ph nid n → ts !! s = Some t → state t = Empty → nid < u64_max →
  state t' = Ready → id t' = nid → is_idle_name (name t') = false →
  task_valid tp t' = true → is_Some (address_space t') → in_u64 (affinity_mask t') → 0 ≤ priority t' ≤ 2 →
  (∀ c, quiet tp ph c → Z.testbit (affinity_mask t') (Z.of_nat c) = false) →
  inv None tp (<[s := t']> ts) cur sw ph (nid + 1) (n + 1).
Proof.
  intros I Ht He Hnid Hr Hid Hn Hv Has Ha Hp Hq.
  assert (Hni' : ¬ idle t') by (intros [_ ?]; congruence).
  assert (Hni : ¬ idle t) by (intros [Hl _]; unfold live in Hl; by rewrite He in Hl).
  assert (Hold : ∀ j u, ts !! j = Some u → state u ≠ Empty → j ≠ s) by (intros j u Hu Hne ->; congruence).
  pose proof (lookup_lt_Some _ _ _ Ht) as Hlt.
  assert (Hids : ∀ j u, ts !! j = Some u → state u ≠ Empty → id u < nid).
  { intros j u Hu Hne. by apply (ti_id _ _ _ _ _ _ _ (i_task _ _ _ _ _ _ _ _ I j u Hu)). }
  destruct I. split; try done.
  - by rewrite length_insert.
  - intros j u [[<- ->]|[? Hu]]%lookup_insert_cases; [|apply (task_inv_nid _ _ _ _ nid); [lia|eauto]].
    split; try (rewrite Hr; done); try done. intros _. lia.
  - intros c Hc _. destruct (i_current0 c Hc) as (j & u & ? & Hu & Hru & ?); [done|].
    exists j, u. rewrite list_lookup_insert_ne; [done|]. apply not_eq_sym, (Hold j u); [done|]. by rewrite Hru.
  - intros c j Hj Hne. destruct (i_out0 c j Hj Hne) as [(u & Hu & Hsu & ?) ?]. split; [|done].
    exists u. rewrite list_lookup_insert_ne; [done|]. apply not_eq_sym, (Hold j u); [done|]. by rewrite Hsu.
  - intros c Hc. destruct (i_has_idle0 c Hc) as (j & u & Hu & Hi & ?). exists j, u.
    rewrite list_lookup_insert_ne; [done|]. intros ->. congruence.
  - by apply (fresh_ids_unique ts nid s t').
  - intros s1 s2 t1 t2 [[<- ->]|[? ?]]%lookup_insert_cases [[<- ->]|[? ?]]%lookup_insert_cases ???; by eauto.
  - pose proof (count_if_insert live ts s t t' Ht) as Hc.
    assert (live t = false) as E1 by (unfold live; by rewrite He).
    assert (live t' = true) as E2 by (unfold live; by rewrite Hr). rewrite E1, E2 in Hc. simpl in Hc. lia.
  - lia.
Qed.

(** A CPU takes up its idle context. *)
Lemma inv_rejoin tp ts cur sw ph nid n c s t t' :
  inv None tp ts cur sw ph nid n → ph !! c = Some Rejoining → hotplug_state tp c ≠ 2 →
  ts !! s = Some t → live t = false → nid < u64_max →
  state t' = Running → id t' = nid → is_idle_name (name t') = true → cpu t' = c → migratable t' = false →
  affinity_mask t' = cpu_bit c → termination_signal t' = 0 → entry t' ≠ None →
  is_Some (address_space t') → 0 ≤ priority t' ≤ 2 →
  inv None tp (<[s := t']> ts) (<[c := s]> cur) sw (<[c := Up]> ph) (nid + 1) (n + 1).
Proof.
  intros I Hp Hw Ht Hdead Hnid Hr Hid Hn Hc Hm Ha Hsig Hent Has Hprio.
  pose proof (lookup_lt_Some _ _ _ Ht) as Hlt. pose proof (lookup_lt_Some _ _ _ Hp) as Hltp.
  assert (Hltc : (c < length cur)%nat) by (rewrite (i_cur _ _ _ _ _ _ _ _ I), <-(i_ph _ _ _ _ _ _ _ _ I); done).
  assert (Hdown : ¬ is_up ph c) by (unfold is_up; rewrite Hp; naive_solver).
  assert (U : ∀ k, is_up (<[c := Up]> ph) k ↔ k = c ∨ is_up ph k).
  { intros k. unfold is_up. destruct (decide (k = c)) as [->|Hne].
    - rewrite list_lookup_insert_eq by done. naive_solver.
    - rewrite list_lookup_insert_ne by done. naive_solver. }
  assert (Q : ∀ k, quiet tp (<[c := Up]> ph) k → quiet tp ph k ∧ k ≠ c).
  { intros k. unfold quiet. destruct (decide (k = c)) as [->|Hne].
    - rewrite list_lookup_insert_eq by done. naive_solver.
    - rewrite list_lookup_insert_ne by done. naive_solver. }
  assert (Hlive : ∀ j u, ts !! j = Some u → live u = true → j ≠ s) by (intros j u Hu Hl ->; congruence).
  assert (Hids : ∀ j u, ts !! j = Some u → state u ≠ Empty → id u < nid).
  { intros j u Hu Hne. by apply (ti_id _ _ _ _ _ _ _ (i_task _ _ _ _ _ _ _ _ I j u Hu)). }
  assert (Hon : cpu_is_online tp c = true) by (by apply (i_phase _ _ _ _ _ _ _ _ I c Rejoining Hp)).
  assert (Hc4 : (c < MAX_CPUS)%nat) by (rewrite <-(i_ph _ _ _ _ _ _ _ _ I); done).
  assert (Hlt' : live t' = true) by (unfold live; by rewrite Hr).
  assert (Hbit : in_u64 (cpu_bit c)).
  { unfold cpu_bit, in_u64, u64_max. rewrite Z.shiftl_1_l. unfold MAX_CPUS in Hc4.
    pose proof (Z.pow_le_mono_r 2 (Z.of_nat c) 4). lia. }
  assert (Hcold : ∀ j u, ts !! j = Some u → idle u → cpu u ≠ c).
  { intros j u Hu Hi Hcu. destruct (ti_idle _ _ _ _ _ _ _ (i_task _ _ _ _ _ _ _ _ I j u Hu) Hi) as (_ & _ & _ & _ & ?).
    congruence. }
  destruct I. split; try done.
  - by rewrite length_insert.
  - by rewrite length_insert.
  - by rewrite length_insert.
  - intros j u [[<- ->]|[? Hu]]%lookup_insert_cases.
    + split; try (rewrite Hr; done); rewrite ?Hc, ?Ha; try done.
      * intros _. lia.
      * intros _. apply task_valid_iff; rewrite ?Ha, ?Hc; [done|]. split_and!; try done.
        -- rewrite cpu_bit_testbit by lia. by apply bool_decide_true.
        -- intros i Hi. rewrite cpu_bit_testbit by done. intros ->%bool_decide_eq_true.
           rewrite testbit_online, Hon, bool_decide_true by done. done.
      * intros _. rewrite list_lookup_insert_eq by done. split; [done|]. apply U. by left.
      * intros _. rewrite Hr. split_and!; try done; [set_solver|]. apply U. by left.
      * intros _ k [_ Hk]%Q. rewrite cpu_bit_testbit by lia. apply bool_decide_false. lia.
    + apply (task_inv_nid _ _ _ _ nid); [lia|]. apply (task_inv_arrays tp cur sw ph); auto.
      * intros Hru Hcu. rewrite list_lookup_insert_ne; [done|]. intros E.
        destruct (ti_run _ _ _ _ _ _ _ (i_task0 j u Hu) Hru) as [_ ?]. congruence.
      * intros k Hk. apply U. by right.
      * intros k Hk. by apply Q.
  - intros k r [[<- ->]|[? ?]]%lookup_insert_cases; eauto.
  - intros k j [[<- ->]|[? ?]]%lookup_insert_cases; [by rewrite <-i_tasks0|eauto].
  - intros k [->|Hk]%U _; [exists s, t'; by rewrite !list_lookup_insert_eq|].
    destruct (i_current0 k Hk) as (j & u & ? & Hu & Hru & ?); [done|].
    exists j, u. rewrite !list_lookup_insert_ne; [done| |].
    + apply not_eq_sym, (Hlive j u); [done|]. unfold live. by rewrite Hru.
    + intros ->. done.
  - intros k j Hj Hne. destruct (i_out0 k j Hj Hne) as [(u & Hu & Hsu & ?) Hph]. split.
    + exists u. rewrite list_lookup_insert_ne; [done|]. apply not_eq_sym, (Hlive j u); [done|].
      unfold live. by rewrite Hsu.
    + rewrite list_lookup_insert_ne; [done|]. intros ->. rewrite Hp in Hph. naive_solver.
  - intros k [->|Hk]%U; [exists s, t'; by rewrite list_lookup_insert_eq|].
    destruct (i_has_idle0 k Hk) as (j & u & Hu & Hi & ?). exists j, u.
    rewrite list_lookup_insert_ne; [done|]. apply not_eq_sym, (Hlive j u); [done|]. apply Hi.
  - apply U. by right.
  - by apply (fresh_ids_unique ts nid s t').
  - intros s1 s2 t1 t2 [[<- ->]|[? ?]]%lookup_insert_cases [[<- ->]|[? ?]]%lookup_insert_cases ???; [done| | |by eauto].
    + exfalso. apply (Hcold s2 t2); [done..|congruence].
    + exfalso. apply (Hcold s1 t1); [done..|congruence].
  - pose proof (count_if_insert live ts s t t' Ht) as Hcnt. rewrite Hdead, Hlt' in Hcnt. simpl in Hcnt. lia.
  - lia.
Qed.

(** ** The topology changes *)

Lemma inv_topology tp tp' ts cur sw ph ph' nid n :
  inv None tp ts cur sw ph nid n →
  length (online tp') = MAX_CPUS → length (offline_state tp') = MAX_CPUS → length ph' = MAX_CPUS →
  (∀ c, is_up ph' c ↔ is_up ph c) →
  (∀ c, ph !! c = Some Handoff ∨ ph !! c = Some Arrived → ph' !! c = ph !! c) →
  (∀ c p, ph' !! c = Some p → phase_inv tp' c p) → hotplug_state tp' 0 = 0 →
  (∀ s t, ts !! s = Some t → live t = true → task_valid tp' t = true ∧
     ∀ c, quiet tp' ph' c → Z.testbit (affinity_mask t) (Z.of_nat c) = false) →
  inv None tp' ts cur sw ph' nid n.
Proof.
  intros I H1 H2 H3 U HA HP H0 HT. destruct I. split; try done.
  - intros s t Ht. pose proof (i_task0 s t Ht) as []. split; auto.
    + intros Hl. by destruct (HT s t Ht Hl).
    + intros Hr. destruct (ti_run0 Hr). split; [done|]. by apply U.
    + intros Hi. destruct (ti_idle0 Hi) as (? & ? & ? & ? & ?). split_and!; try done. by apply U.
    + intros Hl. by destruct (HT s t Ht Hl).
  - intros c Hc. apply i_current0. by apply U.
  - intros c s Hs Hne. destruct (i_out0 c s Hs Hne) as [? Hph]. split; [done|]. rewrite (HA c) by done. done.
  - intros c Hc. apply i_has_idle0. by apply U.
  - by apply U.
Qed.

Lemma task_valid_online tp tp' t :
  (∀ c, cpu_is_online tp' c = cpu_is_online tp c) → task_valid tp' t = task_valid tp t.
Proof.
  intros E. unfold task_valid. rewrite E. replace (online_mask tp') with (online_mask tp); [done|].
  unfold online_mask, mask_of. cbn. by rewrite !E.
Qed.

Lemma hotplug_state_set tp c s c' :
  (c < length (offline_state tp))%nat →
  hotplug_state (set_hotplug_state c s tp) c' = if bool_decide (c' = c) then s else hotplug_state tp c'.
Proof.
  intros Hlt. unfold hotplug_state. cbn. case_bool_decide as E.
  - subst. by rewrite list_lookup_insert_eq.
  - by rewrite list_lookup_insert_ne.
Qed.

Lemma cpu_is_online_set tp c b c' :
  (c < length (online tp))%nat →
  cpu_is_online (set_online c b tp) c' = if bool_decide (c' = c) then b else cpu_is_online tp c'.
Proof.
  intros Hlt. unfold cpu_is_online. cbn. case_bool_decide as E.
  - subst. by rewrite list_lookup_insert_eq.
  - by rewrite list_lookup_insert_ne.
Qed.

(** Storing a hotplug word: the phase must tolerate it. *)
Lemma inv_word tp ts cur sw ph nid n c p s :
  inv None tp ts cur sw ph nid n → ph !! c = Some p →
  phase_inv (set_hotplug_state c s tp) c p → (p = Rejoining → s ≠ 8 ∨ hotplug_state tp c = 8) → c ≠ 0%nat →
  inv None (set_hotplug_state c s tp) ts cur sw ph nid n.
Proof.
  intros I Hp Hok Hr Hc0. pose proof (lookup_lt_Some _ _ _ Hp) as Hlt.
  assert (Hltw : (c < length (offline_state tp))%nat).
  { by rewrite (i_words _ _ _ _ _ _ _ _ I), <-(i_ph _ _ _ _ _ _ _ _ I). }
  apply (inv_topology tp _ _ _ _ ph); try done; [apply I|cbn; rewrite length_insert; apply I|apply I|..].
  - intros c' p' Hp'. destruct (decide (c' = c)) as [->|Hne]; [congruence|].
    pose proof (i_phase _ _ _ _ _ _ _ _ I c' p' Hp') as Hph.
    destruct p'; try exact Hph; cbn in *; rewrite hotplug_state_set, bool_decide_false by done; exact Hph.
  - rewrite hotplug_state_set, bool_decide_false by done. apply I.
  - intros j t Ht Hl. pose proof (i_task _ _ _ _ _ _ _ _ I j t Ht) as T. split.
    + rewrite (task_valid_online tp); [by apply T|done].
    + intros k Hk. apply (ti_quiet _ _ _ _ _ _ _ T Hl). destruct Hk as [Hk|[Hk Hw]]; [by left|]. right.
      split; [done|]. rewrite hotplug_state_set in Hw by done. case_bool_decide; [|done]. subst.
      assert (p = Rejoining) as -> by congruence. destruct (Hr eq_refl); congruence.
Qed.

(** A quiet CPU leaves the online mask. *)
Lemma inv_withdraw tp ts cur sw ph nid n c :
  inv None tp ts cur sw ph nid n → ph !! c = Some Draining →
  inv None (set_online c false tp) ts cur sw (<[c := Withdrawn]> ph) nid n.
Proof.
  intros I Hq. set (tp' := set_online _ _ _). assert (Hqc : quiet tp ph c) by by left.
  pose proof (lookup_lt_Some _ _ _ Hq) as Hlt.
  assert (Hlo : (c < length (online tp))%nat) by (by rewrite (i_on _ _ _ _ _ _ _ _ I), <-(i_ph _ _ _ _ _ _ _ _ I)).
  assert (Hdown : ∀ p, p = Up ∨ p = Handoff ∨ p = Arrived → ph !! c ≠ Some p).
  { intros p Hp E. rewrite E in Hq. naive_solver. }
  assert (Hon : ∀ c', cpu_is_online tp' c' = if bool_decide (c' = c) then false else cpu_is_online tp c').
  { intros c'. by apply (cpu_is_online_set tp c false c'). }
  assert (Hword : ∀ c', hotplug_state tp' c' = hotplug_state tp c') by done.
  apply (inv_topology tp _ _ _ _ ph); try done.
  - cbn. rewrite length_insert. apply I.
  - apply I.
  - rewrite length_insert. apply I.
  - intros c'. unfold is_up. destruct (decide (c' = c)) as [->|Hne]; [|by rewrite list_lookup_insert_ne].
    rewrite list_lookup_insert_eq by done. split; [naive_solver|]. intros [E|[E|E]]; by apply Hdown in E; auto.
  - intros c' Hc'. rewrite list_lookup_insert_ne; [done|]. intros <-. destruct Hc' as [E|E]; by apply Hdown in E; auto.
  - intros c' p' [[<- ->]|[Hne Hp']]%lookup_insert_cases.
    + cbn. rewrite Hon. by rewrite bool_decide_true.
    + pose proof (i_phase _ _ _ _ _ _ _ _ I c' p' Hp') as Hph.
      destruct p'; cbn in *; rewrite Hon, bool_decide_false, ?Hword by done; exact Hph.
  - apply I.
  - intros j t Ht Hl. pose proof (i_task _ _ _ _ _ _ _ _ I j t Ht) as T.
    destruct (ti_shape _ _ _ _ _ _ _ T Hl) as (_ & Ha & _).
    pose proof (ti_valid _ _ _ _ _ _ _ T Hl) as (Ho & Hb & Hw & Hpin)%task_valid_iff; [|done].
    assert (Hc : Z.testbit (affinity_mask t) (Z.of_nat c) = false) by by apply T.
    split.
    + apply task_valid_iff; [done|]. rewrite Hon. split_and!; try done.
      * rewrite bool_decide_false; [done|]. intros E. congruence.
      * intros i Hi Hbi. specialize (Hw i Hi Hbi). destruct (Z_of_nat_complete i Hi) as [q ->].
        rewrite testbit_online in *. rewrite Hon, (bool_decide_false (q = c)); [done|]. intros ->. congruence.
    + intros k' Hk'. apply T; [done|]. unfold quiet in *. destruct (decide (k' = c)) as [->|Hne].
      * rewrite list_lookup_insert_eq in Hk' by done. naive_solver.
      * by rewrite list_lookup_insert_ne in Hk' by done.
Qed.

(** Moving between phases outside the running ones, the topology staying as it is. *)
Lemma inv_phase_down tp ts cur sw ph nid n c p q :
  inv None tp ts cur sw ph nid n → ph !! c = Some p → p ∈ [Draining; Withdrawn; Parked; Rejoining] →
  q ∈ [Draining; Withdrawn; Parked; Rejoining] → phase_inv tp c q →
  (quiet tp (<[c := q]> ph) c → quiet tp ph c) →
  inv None tp ts cur sw (<[c := q]> ph) nid n.
Proof.
  intros I Hp Hpd Hqd Hq Hquiet. pose proof (lookup_lt_Some _ _ _ Hp) as Hlt.
  assert (Hnup : ∀ r, r ∈ [Draining; Withdrawn; Parked; Rejoining] → r ≠ Up ∧ r ≠ Handoff ∧ r ≠ Arrived).
  { intros r Hr. repeat (apply elem_of_cons in Hr as [->|Hr]; [done|]). by apply elem_of_nil in Hr. }
  destruct (Hnup p Hpd) as (? & ? & ?), (Hnup q Hqd) as (? & ? & ?).
  apply (inv_topology tp _ _ _ _ ph); try done; try apply I.
  - rewrite length_insert. apply I.
  - intros c'. unfold is_up. destruct (decide (c' = c)) as [->|Hne]; [|by rewrite list_lookup_insert_ne].
    rewrite list_lookup_insert_eq, Hp by done. naive_solver.
  - intros c' Hc'. rewrite list_lookup_insert_ne; [done|]. intros <-. rewrite Hp in Hc'. naive_solver.
  - intros c' p' [[<- ->]|[Hne Hp']]%lookup_insert_cases; [done|]. by apply (i_phase _ _ _ _ _ _ _ _ I).
  - intros j t Ht Hl. pose proof (i_task _ _ _ _ _ _ _ _ I j t Ht) as T. split; [by apply T|].
    intros k Hk. apply T; [done|]. destruct (decide (k = c)) as [->|Hne]; [by apply Hquiet|].
    unfold quiet in *. by rewrite list_lookup_insert_ne in Hk by done.
Qed.

(** The last store of a CPU that leaves. *)
Lemma inv_leave tp ts cur sw ph nid n c s :
  inv None tp ts cur sw ph nid n → ph !! c = Some Withdrawn →
  inv None (set_hotplug_state c s tp) ts cur sw (<[c := Parked]> ph) nid n.
Proof.
  intros I Hp. pose proof (i_phase _ _ _ _ _ _ _ _ I c _ Hp) as Hoff. pose proof (lookup_lt_Some _ _ _ Hp) as Hlt.
  apply (inv_word _ _ _ _ _ _ _ c Withdrawn s) in I; [|done..|].
  2:{ intros ->. destruct (i_boot _ _ _ _ _ _ _ _ I) as [E|[E|E]]; congruence. }
  apply (inv_phase_down _ _ _ _ _ _ _ _ Withdrawn); try done; [set_solver..|].
  unfold quiet. rewrite list_lookup_insert_eq by done. naive_solver.
Qed.

(** A parked CPU publishes itself. *)
Lemma inv_publish tp ts cur sw ph nid n c :
  inv None tp ts cur sw ph nid n → ph !! c = Some Parked → hotplug_state tp c ∈ [0; 8] →
  inv None (set_online c true tp) ts cur sw (<[c := Rejoining]> ph) nid n.
Proof.
  intros I Hp Hw8. set (tp' := set_online _ _ _). pose proof (lookup_lt_Some _ _ _ Hp) as Hlt.
  assert (Hlo : (c < length (online tp))%nat) by (by rewrite (i_on _ _ _ _ _ _ _ _ I), <-(i_ph _ _ _ _ _ _ _ _ I)).
  assert (Hon : ∀ c', cpu_is_online tp' c' = if bool_decide (c' = c) then true else cpu_is_online tp c').
  { intros c'. apply (cpu_is_online_set tp c true c'). done. }
  assert (Hoff : cpu_is_online tp c = false) by (by apply (i_phase _ _ _ _ _ _ _ _ I c Parked)).
  apply (inv_topology tp _ _ _ _ ph); try done.
  - cbn. rewrite length_insert. apply I.
  - apply I.
  - rewrite length_insert. apply I.
  - intros c'. unfold is_up. destruct (decide (c' = c)) as [->|Hne]; [|by rewrite list_lookup_insert_ne].
    rewrite list_lookup_insert_eq, Hp by done. naive_solver.
  - intros c' Hc'. rewrite list_lookup_insert_ne; [done|]. intros <-. rewrite Hp in Hc'. naive_solver.
  - intros c' p' [[<- ->]|[Hne Hp']]%lookup_insert_cases.
    + cbn. rewrite Hon. rewrite bool_decide_true by done. done.
    + pose proof (i_phase _ _ _ _ _ _ _ _ I c' p' Hp') as Hph.
      destruct p'; cbn in *; rewrite Hon, bool_decide_false by done; exact Hph.
  - apply I.
  - intros j t Ht Hl. pose proof (i_task _ _ _ _ _ _ _ _ I j t Ht) as T.
    destruct (ti_shape _ _ _ _ _ _ _ T Hl) as (_ & Ha & _).
    pose proof (ti_valid _ _ _ _ _ _ _ T Hl) as (Ho & Hb & Hw & Hpin)%task_valid_iff; [|done]. split.
    + apply task_valid_iff; [done|]. rewrite Hon. split_and!; try done.
      * case_bool_decide; [done|]. done.
      * intros i Hi Hbi. specialize (Hw i Hi Hbi). destruct (Z_of_nat_complete i Hi) as [q ->].
        rewrite testbit_online in *. rewrite Hon. destruct (decide (q = c)) as [->|E];
          [by rewrite Hoff, andb_false_r in Hw|by rewrite (bool_decide_false (q = c))].
    + intros k' Hk'. destruct (decide (k' = c)) as [->|Hne].
      * destruct (Z.testbit (affinity_mask t) (Z.of_nat c)) eqn:E; [|done].
        specialize (Hw (Z.of_nat c) ltac:(lia) E). by rewrite testbit_online, Hoff, andb_false_r in Hw.
      * apply T; [done|]. unfold quiet in *. by rewrite list_lookup_insert_ne in Hk' by done.
Qed.

(** ** Evacuation *)

Lemma drop_bit_testbit a c i :
  in_u64 a → (c < MAX_CPUS)%nat → 0 ≤ i →
  Z.testbit (Z.land a (not64 (cpu_bit c))) i = Z.testbit a i && negb (bool_decide (i = Z.of_nat c)).
Proof.
  intros Ha Hc Hi. rewrite Z.land_spec, not64_testbit, cpu_bit_testbit; try done.
  - destruct (Z.ltb_spec i 64); [done|]. cbn. rewrite andb_false_r.
    rewrite Z.bits_above_log2; [done|unfold in_u64 in Ha; lia|].
    destruct (decide (a = 0)) as [->|Hne]; [rewrite Z.log2_nonpos; lia|].
    apply Z.log2_lt_pow2; unfold in_u64, u64_max in Ha; [lia|].
    apply Z.lt_le_trans with (2 ^ 64); [lia|]. apply Z.pow_le_mono_r; lia.
  - unfold in_u64, cpu_bit, u64_max, MAX_CPUS in *. rewrite Z.shiftl_1_l.
    pose proof (Z.pow_le_mono_r 2 (Z.of_nat c) 4). lia.
Qed.

Lemma land_in_u64 a b : in_u64 a → 0 ≤ b → in_u64 (Z.land a b).
Proof.
  unfold in_u64, u64_max. intros Ha Hb. split; [apply Z.land_nonneg; lia|].
  destruct (decide (Z.land a b = 0)) as [->|Hne]; [lia|].
  assert (0 ≤ Z.land a b) by (apply Z.land_nonneg; lia).
  assert (Z.log2 (Z.land a b) < 64); [|pose proof (Z.log2_lt_pow2 (Z.land a b) 64); lia].
  pose proof (Z.log2_land a b ltac:(lia) Hb).
  assert (Z.log2 a < 64); [|lia]. destruct (decide (a = 0)) as [->|]; [done|]. apply Z.log2_lt_pow2; lia.
Qed.

Lemma not64_bit_nonneg c : (c < MAX_CPUS)%nat → 0 ≤ not64 (cpu_bit c).
Proof.
  unfold not64, cpu_bit, u64_max, MAX_CPUS. intros Hc. rewrite Z.shiftl_1_l.
  pose proof (Z.pow_le_mono_r 2 (Z.of_nat c) 4). lia.
Qed.

(** Giving up a CPU of the mask, and moving off it if it is the owner. *)
Lemma task_inv_shrink tp ts cur sw ph nid n s t c dest :
  inv None tp ts cur sw ph nid n → ts !! s = Some t → live t = true → migratable t = true →
  is_idle_name (name t) = false → (c < MAX_CPUS)%nat → dest ≠ c →
  Z.testbit (affinity_mask t) (Z.of_nat dest) = true → cpu_is_online tp dest = true →
  dest = cpu t ∨ at_rest (state t) →
  let t' := set_affinity_mask (Z.land (affinity_mask t) (not64 (cpu_bit c))) (set_cpu dest t) in
  keeps None t t' ∧ task_inv tp cur sw ph nid s t'.
Proof.
  intros I Ht Hl Hm Hn Hc Hdc Hb Hon Hd. cbv zeta. set (t' := set_affinity_mask _ _).
  pose proof (i_task _ _ _ _ _ _ _ _ I s t Ht) as T.
  destruct (ti_shape _ _ _ _ _ _ _ T Hl) as (Has & Ha & Hp).
  pose proof (ti_valid _ _ _ _ _ _ _ T Hl) as (Ho & _ & Hw & _)%task_valid_iff; [|done].
  assert (Hni : ¬ idle t) by (intros [_ ?]; congruence).
  assert (Hni' : ¬ idle t') by exact Hni.
  assert (Ha' : in_u64 (affinity_mask t')) by (apply land_in_u64; [done|by apply not64_bit_nonneg]).
  assert (Hcpu : state t = Running ∨ state t = Switching → dest = cpu t).
  { intros Hst. destruct Hd as [?|[E|[E|E]]]; [done|rewrite E in Hst; naive_solver..]. }
  split.
  - split; cbn; try tauto; intros; (split; [done|apply Hcpu; tauto]) || done.
  - split; cbn [state cpu id address_space priority t' set_affinity_mask set_cpu]; try done.
    + intros E. unfold live in Hl. by rewrite E in Hl.
    + apply T.
    + intros _. apply task_valid_iff; [done|]. cbn [cpu entry migratable affinity_mask t' set_affinity_mask set_cpu].
      split_and!; try done.
      * rewrite drop_bit_testbit by (done || lia). rewrite Hb, bool_decide_false by lia. done.
      * intros i Hi. rewrite drop_bit_testbit by done. intros [? _]%andb_true_iff. by apply Hw.
      * by rewrite Hm.
    + intros Hr. rewrite Hcpu by auto. by apply T.
    + intros Hr. rewrite Hcpu by auto. by apply T.
    + intros _ q Hq. cbn. rewrite drop_bit_testbit by (done || lia).
      by rewrite (ti_quiet _ _ _ _ _ _ _ T Hl q Hq).
Qed.

(** What evacuating [target] leaves of task [t] in slot [s]. *)
Record evacuated (cur target s : nat) (t t' : Tcb) : Prop := {
  ev_state : state t' = state t;
  ev_name : name t' = name t;
  ev_id : id t' = id t;
  ev_free : live t = true → Z.testbit (affinity_mask t') (Z.of_nat target) = false ∧ cpu t' ≠ target ∨
    t' = t ∧ (is_idle_name (name t) = true ∨ s = cur);
  ev_mask : live t = true → affinity_mask t' = affinity_mask t ∨
    affinity_mask t' = Z.land (affinity_mask t) (not64 (cpu_bit target))
}.

Lemma evacuation_task tp ts cu sw ph nid n cur target s t ch :
  inv None tp ts cu sw ph nid n → (target < MAX_CPUS)%nat → ts !! s = Some t →
  evacuation_change tp cur target s t = Some ch →
  keeps None t (apply_change t ch) ∧ task_inv tp cu sw ph nid s (apply_change t ch) ∧
  evacuated cur target s t (apply_change t ch).
Proof.
  intros I Hlt Ht. pose proof (i_task _ _ _ _ _ _ _ _ I s t Ht) as T. unfold evacuation_change.
  assert (Same : (live t = true → Z.testbit (affinity_mask t) (Z.of_nat target) = false ∧ cpu t ≠ target ∨
      is_idle_name (name t) = true ∨ s = cur) →
    keeps None t t ∧ task_inv tp cu sw ph nid s t ∧ evacuated cur target s t t).
  { intros HF. split_and!; [apply keeps_refl|done|split; try done; [|by left]]. intros Hl. destruct (HF Hl); auto. }
  destruct (bool_decide (state t = Empty)) eqn:E1.
  { intros [= <-]. cbn. apply Same. unfold live. by rewrite E1. }
  destruct (bool_decide (state t = Dead)) eqn:E2.
  { assert (Hnl : live t = false) by (unfold live; by rewrite E1, E2). apply bool_decide_eq_true in E2.
    intros [= <-]. destruct (bool_decide (cpu t = target)); cbn; [|apply Same; by rewrite Hnl]. split_and!.
    - assert (Hni : ¬ idle t) by (intros [Hl _]; congruence).
      assert (Hni' : ¬ idle (set_affinity_mask (cpu_bit 0) (set_cpu 0 t))) by exact Hni.
      split; try tauto; cbn; rewrite E2; done.
    - assert (Hnl' : live (set_affinity_mask (cpu_bit 0) (set_cpu 0 t)) = false) by exact Hnl.
      split; cbn [state id set_affinity_mask set_cpu]; try (rewrite Hnl'; done); try (rewrite E2; done); [|].
      + apply T.
      + intros [Hl _]. congruence.
    - split; try done; rewrite Hnl; done. }
  assert (Hl : live t = true) by (unfold live; by rewrite E1, E2).
  destruct (ti_shape _ _ _ _ _ _ _ T Hl) as (_ & Ha & _).
  pose proof (ti_valid _ _ _ _ _ _ _ T Hl) as (Ho & Hb & Hw & _)%task_valid_iff; [|done].
  destruct (negb (bool_decide (cpu t = target)) && (Z.land (affinity_mask t) (cpu_bit target) =? 0)) eqn:E3.
  { intros [= <-]. cbn. apply Same. intros _. left.
    rewrite andb_true_iff, negb_true_iff, bool_decide_eq_false, Z.eqb_eq in E3. destruct E3 as [Hne E3].
    split; [|done]. destruct (Z.testbit _ _) eqn:E; [|done]. apply mask_meets in E; [done|unfold in_u64 in Ha; lia]. }
  destruct (is_idle_name (name t)) eqn:E4; [intros [= <-]; cbn; apply Same; auto|].
  cbv zeta. destruct (Z.land (affinity_mask t) (not64 (cpu_bit target)) =? 0); [discriminate|].
  assert (Free : ∀ d, d ≠ target → evacuated cur target s t
    (set_affinity_mask (Z.land (affinity_mask t) (not64 (cpu_bit target))) (set_cpu d t))).
  { intros d Hd. split; try done; [|by right]. intros _. left. cbn.
    rewrite drop_bit_testbit, bool_decide_true, andb_false_r by (done || lia). done. }
  destruct (bool_decide (cpu t = target)) eqn:E6; [|apply bool_decide_eq_false in E6].
  - destruct ((bool_decide (state t = Running) || bool_decide (state t = Switching)) && negb (bool_decide (s = cur))) eqn:E7; [done|].
    destruct (migratable t) eqn:Hm; cbn [negb orb]; [|done].
    destruct (bool_decide (entry t = None) && ever_dispatched t); [done|].
    destruct (List.find _ _) as [dest|] eqn:Hf; [|done]. apply find_some in Hf as [_ Hf]. intros [= <-].
    destruct (decide (s = cur)) as [E8|E8]; [rewrite bool_decide_true by done; cbn; apply Same; auto|].
    rewrite (bool_decide_false (s = cur)) by done.
    rewrite (bool_decide_false (s = cur)), andb_true_r, orb_false_iff, !bool_decide_eq_false in E7 by done.
    destruct E7 as [E7 E7'].
    rewrite negb_true_iff, Z.eqb_neq, mask_meets, !Z.land_spec, !andb_true_iff in Hf.
    2:{ apply Z.land_nonneg. right. unfold in_u64 in Ha. lia. }
    destruct Hf as [[Hsch Hnt] Hdb]. rewrite testbit_schedulable, andb_true_iff in Hsch.
    destruct Hsch as [_ Hon%schedulable_online].
    assert (Hdt : dest ≠ target).
    { intros ->. rewrite not64_testbit, cpu_bit_testbit, bool_decide_true, andb_false_r in Hnt; try done; try lia.
      unfold in_u64, cpu_bit, u64_max, MAX_CPUS in *. rewrite Z.shiftl_1_l.
      pose proof (Z.pow_le_mono_r 2 (Z.of_nat target) 4). lia. }
    destruct (task_inv_shrink tp ts cu sw ph nid n s t target dest) as [K T']; try done.
    + right. unfold at_rest. apply bool_decide_eq_false in E1, E2. destruct (state t); auto; done.
    + split_and!; [done..|by apply Free].
  - destruct (migratable t) eqn:Hm; cbn [negb]; [|done]. intros [= <-].
    destruct (task_inv_shrink tp ts cu sw ph nid n s t target (cpu t)) as [K T']; try done; [by left|].
    split_and!; [done..|by apply Free].
Qed.

Lemma evacuate_cpu_spec ph w target cur :
  winv None ph w → (target < MAX_CPUS)%nat → current_slot (sched w) !! target = Some cur →
  evacuate_cpu target w = Some (w, false) ∨
  ∃ ts, evacuate_cpu target w = Some (set_tasks ts w, true) ∧ winv None ph (set_tasks ts w) ∧
    ∀ (s : nat) t', ts !! s = Some t' →
      ∃ t, tasks (sched w) !! s = Some t ∧ evacuated cur target s t t'.
Proof.
  intros W Hlt Hcur. pose proof W as (I & Haux). unfold evacuate_cpu. rewrite Hcur. cbn [mbind option_bind].
  destruct (mapM _ _) as [chs|] eqn:Em; [|by left]. right. eexists. split; [done|].
  apply mapM_Some in Em. pose proof (Forall2_length _ _ _ Em) as Hlen. rewrite length_imap in Hlen.
  assert (P : ∀ s t t', tasks (sched w) !! s = Some t →
    zip_with apply_change (tasks (sched w)) chs !! s = Some t' →
    (keeps None t t' ∧ task_inv (smp w) (current_slot (sched w)) (switching_out (sched w)) ph (next_task_id w) s t')
    ∧ evacuated cur target s t t').
  { intros s t t' Ht (u & ch & -> & Hu & Hch)%lookup_zip_with_Some. simplify_eq.
    assert (Hev : evacuation_change (smp w) cur target s t = Some ch).
    { apply (Forall2_lookup_lr _ _ _ s (s, t) ch Em); [|done]. by rewrite list_lookup_imap, Ht. }
    destruct (evacuation_task _ _ _ _ _ _ _ cur target s t ch I Hlt Ht Hev) as (? & ? & ?). done. }
  assert (Hz : length (zip_with apply_change (tasks (sched w)) chs) = length (tasks (sched w)))
    by (rewrite length_zip_with; lia).
  split_and!.
  - split; [|done]. cbn. rewrite (i_count _ _ _ _ _ _ _ _ I).
    rewrite <-(count_if_pointwise live (tasks (sched w)) (zip_with apply_change (tasks (sched w)) chs)); [|done|].
    + apply (inv_pointwise None _ (tasks (sched w)) _ _ _ _ _ (task_count (sched w))); [done..|].
      intros s t t' Ht Ht'. by apply (P s t t').
    + intros s t t' Ht Ht'. destruct (P s t t' Ht Ht') as [_ []]. unfold live. by rewrite ev_state0.
  - intros s t' Ht'. destruct (lookup_lt_is_Some_2 (tasks (sched w)) s) as [t Ht].
    { rewrite <-Hz. by eapply lookup_lt_Some. }
    exists t. split; [done|]. by apply (P s t t').
Qed.

(** The idle task retires and its CPU starts draining. *)
Lemma inv_park tp ts cur sw ph nid n c s t t' :
  inv None tp ts cur sw ph nid n → ph !! c = Some Up → c ≠ 0%nat → hotplug_state tp c = 2 →
  cur !! c = Some s → ts !! s = Some t → idle t →
  (∀ j u, ts !! j = Some u → j ≠ s → live u = true → Z.testbit (affinity_mask u) (Z.of_nat c) = false) →
  state t' = Dead → id t' = id t →
  inv None tp (<[s := t']> ts) cur sw (<[c := Draining]> ph) nid (n - 1).
Proof.
  intros I Hp Hc0 Hw Hs Ht Hi Hfree Hd Hid. pose proof (lookup_lt_Some _ _ _ Ht) as Hlt.
  pose proof (lookup_lt_Some _ _ _ Hp) as Hltp.
  destruct (i_current _ _ _ _ _ _ _ _ I c) as (s0 & u0 & E1 & E2 & Hrun & Hcpu); [by left|done|].
  rewrite Hs in E1. injection E1 as <-. rewrite Ht in E2. injection E2 as <-.
  assert (Hnl : live t' = false) by (unfold live; by rewrite Hd).
  assert (Hni : ¬ idle t') by (intros [? _]; congruence).
  assert (Hown : ∀ j u, ts !! j = Some u → j ≠ s → live u = true → cpu u ≠ c).
  { intros j u Hu Hj Hl E. pose proof (i_task _ _ _ _ _ _ _ _ I j u Hu) as T.
    destruct (ti_shape _ _ _ _ _ _ _ T Hl) as (_ & Ha & _).
    pose proof (ti_valid _ _ _ _ _ _ _ T Hl) as (_ & Hb & _)%task_valid_iff; [|done].
    rewrite E, (Hfree j u) in Hb; done. }
  assert (U : ∀ k, is_up (<[c := Draining]> ph) k ↔ k ≠ c ∧ is_up ph k).
  { intros k. unfold is_up. destruct (decide (k = c)) as [->|Hne].
    - rewrite list_lookup_insert_eq by done. naive_solver.
    - rewrite list_lookup_insert_ne by done. naive_solver. }
  assert (Q : ∀ k, quiet tp (<[c := Draining]> ph) k → k = c ∨ quiet tp ph k).
  { intros k. unfold quiet. destruct (decide (k = c)) as [->|Hne]; [by left|].
    rewrite list_lookup_insert_ne by done. by right. }
  pose proof (up_slot_clear _ _ _ _ _ _ _ _ _ I Hp) as Hclear.
  destruct I. split; try done.
  - by rewrite length_insert.
  - by rewrite length_insert.
  - intros j u [[<- ->]|[Hj Hu]]%lookup_insert_cases.
    + split; try (rewrite Hnl; done); try (rewrite Hd; done); try done.
      intros _. rewrite Hid. apply (ti_id _ _ _ _ _ _ _ (i_task0 s t Ht)). by rewrite Hrun.
    + pose proof (i_task0 j u Hu) as T. destruct T. split; auto.
      * intros Hr. destruct (ti_run0 Hr) as [? ?]. split; [done|]. apply U. split; [|done].
        apply (Hown j u); [done..|]. unfold live. by rewrite Hr.
      * intros Hiu. destruct (ti_idle0 Hiu) as (? & ? & ? & ? & ?). split_and!; try done.
        apply U. split; [|done]. apply (Hown j u); [done..|]. apply Hiu.
      * intros Hl k [->|Hk]%Q; eauto.
  - intros k r [[<- ->]|[? ?]]%lookup_insert_cases; [|eauto]. split; [by apply (i_phase0 c Up)|]. rewrite Hw. set_solver.
  - intros k [Hk Hu]%U _. destruct (i_current0 k Hu) as (j & u & ? & ? & ? & ?); [done|].
    exists j, u. rewrite list_lookup_insert_ne; [done|]. intros <-. congruence.
  - intros k j Hj Hne. assert (k ≠ c) by congruence.
    destruct (i_out0 k j Hj Hne) as [(u & ? & ? & ?) ?].
    split; [|by rewrite list_lookup_insert_ne]. exists u. rewrite list_lookup_insert_ne; [done|].
    intros <-. congruence.
  - intros k [Hk Hu]%U. destruct (i_has_idle0 k Hu) as (j & u & Hju & ? & ?).
    exists j, u. rewrite list_lookup_insert_ne; [done|]. intros <-. congruence.
  - apply U. split; [|done]. congruence.
  - intros s1 s2 t1 t2 [[<- ->]|[? ?]]%lookup_insert_cases [[<- ->]|[? ?]]%lookup_insert_cases; [done| | |eauto];
      intros ???; [eapply (i_ids0 s s2 t t2)|eapply (i_ids0 s1 s t1 t)]; (done || congruence).
  - intros s1 s2 t1 t2 [[<- ->]|[? ?]]%lookup_insert_cases [[<- ->]|[? ?]]%lookup_insert_cases ???; by eauto.
  - pose proof (count_if_insert live ts s t t' Ht) as Hcnt.
    assert (live t = true) as E by (unfold live; by rewrite Hrun). rewrite E, Hnl in Hcnt. simpl in Hcnt. lia.
Qed.

End life.
End SchedLife.
