(* ===== verification/SchedulerSteps.v ===== *)
(** * Every scheduler step keeps the invariant (kernel/src/task.rs, kernel/src/smp.rs)

    One lemma per operation of the machine: where the program may perform it, it does
    not panic and it re-establishes the invariant. The theorems about executions
    follow. *)
From S2P Require Import Prelude Capability WovenGuard SecurityLedger Lineage LineageService TaskControl Scheduler SchedulerInv SchedulerLife.

Module SchedSteps.
Import Smp Task Sched Machine SchedInv SchedLife.

Section steps.
Context `{Platform}.

Definition minv (m : Machine) : Prop := winv None (phases m) (world m).

(** The step is taken and the invariant holds after it. *)
Definition safe (m : Machine) (o : op) : Prop := ∃ m', step m o = Some m' ∧ minv m'.

Lemma up_lt ph w c : winv None ph w → ph !! c = Some Up → (c < MAX_CPUS)%nat.
Proof. intros [I _] Hc. rewrite <-(i_ph _ _ _ _ _ _ _ _ I). by eapply lookup_lt_Some. Qed.

Lemma count_positive ph w : winv None ph w → 1 ≤ task_count (sched w).
Proof.
  intros [I _]. destruct (i_has_idle _ _ _ _ _ _ _ _ I 0) as (s & t & Ht & [Hl _] & _); [by apply I|].
  rewrite (i_count _ _ _ _ _ _ _ _ I). pose proof (count_if_pos live _ _ _ Ht Hl). lia.
Qed.

(** Outcome of [prepare_switch] for the phase bookkeeping of the machine. *)
Lemma commit_prepare m c w :
  winv None (phases m) w → phases m !! c = Some Up →
  ∃ r, prepare_switch c w = Some r ∧ minv (commit c r m).
Proof.
  intros W Hup. destruct (prepare_switch_spec None (phases m) w c) as [(w' & -> & ? & _)|(w' & cs & nx & -> & ? & _)];
    try done; try (by left); (eexists; split; [done|]); done.
Qed.

Lemma safe_yield m c : minv m → phases m !! c = Some Up → safe m (Yield c).
Proof.
  intros M Hup. unfold safe. cbn. unfold yield_now. pose proof (count_positive _ _ M).
  destruct (Z.eqb_spec (task_count (sched (world m))) 0); [lia|].
  destruct (commit_prepare m c (world m) M Hup) as (r & -> & ?). eexists. by split.
Qed.

Lemma winv_preempt ex ph w l :
  winv ex ph w → length l = MAX_CPUS →
  winv ex ph (mkWorld (smp w) (sched w) (next_task_id w) (sec w) (exits w) l (ipis w)).
Proof. intros (I & ? & ? & ? & ?) Hl. by split_and!. Qed.

Lemma safe_preempt m c suspended lock_free now :
  minv m → phases m !! c = Some Up → safe m (Preempt c suspended lock_free now).
Proof.
  intros M Hup. unfold safe. cbn. unfold preempt_from_interrupt. pose proof M as (_ & _ & _ & _ & Hpre).
  destruct suspended; [by exists m; destruct m|].
  destruct (lookup_lt_is_Some_2 (preempt (world m)) c) as [b Hb]; [rewrite Hpre; by eapply up_lt|].
  rewrite Hb. cbn [mbind option_bind]. destruct b; cbn [negb]; [|by exists m; destruct m].
  destruct lock_free; cbn [negb].
  - match goal with |- context [prepare_switch c ?x] => destruct (commit_prepare m c x) as (r & -> & ?) end;
      [|done|eexists; by split].
    apply winv_wake_sleeping, (winv_preempt _ _ (world m)); [done|by rewrite length_insert].
  - eexists. split; [done|]. apply (winv_preempt _ _ (world m)); [done|]. cbn. by rewrite !length_insert.
Qed.

Lemma may_block_facts m c :
  minv m → may_block m c → ∃ s t, phases m !! c = Some Up ∧
    blockable_slot c (world m) = Some s ∧ current_slot (sched (world m)) !! c = Some s ∧
    tasks (sched (world m)) !! s = Some t ∧ is_idle_name (name t) = false ∧ state t = Running ∧ cpu t = c.
Proof.
  intros M (Hup & s & t & Hs & Ht & Hid & Hn). exists s, t.
  destruct (current_running _ _ c s t M) as [? ?]; [by left|done..|].
  split_and!; try done. unfold blockable_slot. rewrite Hs. cbn. rewrite Ht. cbn.
  by destruct (Z.eqb_spec (id t) KERNEL_TASK_ID).
Qed.

Lemma safe_block m c : minv m → may_block m c → safe m (Block c).
Proof.
  intros M HB. destruct (may_block_facts m c M HB) as (s & t & Hup & Hslot & Hs & Ht & Hn & _).
  unfold safe. cbn. unfold block_current. rewrite Hslot. cbn [mbind option_bind].
  destruct (deschedule (phases m) (world m) c s t (set_state Blocked)
    (update_task s (set_state Blocked) (world m)) M Hup Hs Ht Hn)
    as (w2 & cs & nx & HP & ? & _); [done|done|by left|done|]. rewrite HP. eexists. by split.
Qed.

Lemma safe_sleep m c now ticks : minv m → may_block m c → safe m (Sleep c now ticks).
Proof.
  intros M HB. destruct (may_block_facts m c M HB) as (s & t & Hup & Hslot & Hs & Ht & Hn & _).
  unfold safe. cbn. unfold sleep_current. rewrite Hslot. cbn [mbind option_bind].
  destruct (deschedule (phases m) (world m) c s t
    (λ t, set_state Sleeping (set_wake_tick (saturating_add64 now (Z.max ticks 1)) t))
    (update_task s (λ t, set_state Sleeping (set_wake_tick (saturating_add64 now (Z.max ticks 1)) t)) (world m))
    M Hup Hs Ht Hn) as (w2 & cs & nx & HP & ? & _); [done|done|by auto|done|]. rewrite HP. eexists. by split.
Qed.

Lemma safe_wait m c now deadline : minv m → may_block m c → safe m (Wait c now deadline).
Proof.
  intros M HB. destruct (may_block_facts m c M HB) as (s & t & Hup & Hslot & Hs & Ht & Hn & _).
  unfold safe. cbn. unfold wait_for_event_until. rewrite Hslot. cbn [mbind option_bind]. rewrite Ht.
  cbn [mbind option_bind]. destruct (event_pending t).
  { eexists. split; [done|]. by apply (winv_cosmetic _ _ _ _ t). }
  destruct (negb (deadline =? u64_max) && (deadline <=? now)); [eexists; by split|].
  destruct (deschedule (phases m) (world m) c s t
    (λ t, set_event_deadline (if deadline =? u64_max then None else Some deadline) (set_state Blocked t))
    (update_task s (λ t, set_event_deadline (if deadline =? u64_max then None else Some deadline)
      (set_state Blocked t)) (world m)) M Hup Hs Ht Hn) as (w2 & cs & nx & HP & ? & _); [done|done|by left|done|]. rewrite HP.
  eexists. by split.
Qed.

Lemma safe_exit m c : minv m → may_block m c → safe m (Exit c).
Proof.
  intros M HB. destruct (may_block_facts m c M HB) as (s & t & Hup & Hslot & Hs & Ht & Hn & _).
  unfold safe. cbn. unfold exit_current_task. rewrite Hslot. cbn [mbind option_bind].
  destruct (deschedule (phases m) (world m) c s t (set_state Dead)
    (retire_one (update_task s (set_state Dead) (world m))) M Hup Hs Ht Hn)
    as (w2 & cs & nx & HP & ? & _); [done|done|by auto|done|]. rewrite HP. eexists. by split.
Qed.

Lemma safe_switch_stacks m c : minv m → phases m !! c = Some Handoff → safe m (SwitchStacks c).
Proof.
  intros (I & Haux) Hp. unfold safe. cbn.
  destruct (i_current _ _ _ _ _ _ _ _ I c) as (s & t & -> & Ht & _); [by right; left|done|]. cbn [mbind option_bind].
  rewrite Ht. eexists. split; [done|]. split; [|done]. apply (inv_phase _ _ _ _ _ _ _ _ c Handoff Arrived); auto; done.
Qed.

Lemma safe_tick m c lock_free now : minv m → phases m !! c = Some Up → safe m (Tick c lock_free now).
Proof.
  intros M Hup. unfold safe. cbn. unfold tick. pose proof M as (_ & _ & _ & _ & Hpre).
  destruct lock_free; cbn [negb].
  2:{ eexists. split; [done|]. apply (winv_preempt _ _ (world m)); [done|]. by rewrite length_insert. }
  pose proof (winv_wake_sleeping None _ _ now M) as W1. set (w1 := wake_sleeping now (world m)) in *.
  pose proof W1 as (I1 & _). destruct (i_current _ _ _ _ _ _ _ _ I1 c) as (s & t & Hs & Ht & Hr & Hc); [by left|done|].
  rewrite Hs. cbn [mbind option_bind]. rewrite Ht. cbn [mbind option_bind].
  eexists. split; [done|]. rewrite bool_decide_true by done. cbn [negb].
  destruct (1 <? remaining_ticks t).
  - by apply (winv_cosmetic _ _ _ _ t).
  - apply (winv_preempt _ _ (update_task s (set_remaining_ticks 0) w1)); [|by rewrite length_insert].
    by apply (winv_cosmetic _ _ _ _ t).
Qed.

Lemma safe_finalize m c : minv m → phases m !! c = Some Arrived → safe m (Finalize c).
Proof.
  intros M Hp. pose proof M as (I & Haux). unfold safe. cbn. unfold finalize_switch.
  assert (Hup : is_up (phases m) c) by (right; by right).
  destruct (i_current _ _ _ _ _ _ _ _ I c Hup) as (cu & tc & Hcu & Htc & Hrc & _); [done|].
  destruct (lookup_lt_is_Some_2 (switching_out (sched (world m))) c) as [s Hs].
  { rewrite (i_sw _ _ _ _ _ _ _ _ I), <-(i_ph _ _ _ _ _ _ _ _ I). by eapply lookup_lt_Some. }
  rewrite Hs. cbn [mbind option_bind]. case_bool_decide as Hmax.
  { cbn. eexists. split; [done|]. split; [|done].
    apply (inv_phase _ _ _ _ _ _ _ _ c Arrived Up); auto. intros _. cbn. by rewrite Hs, Hmax. }
  destruct (i_out _ _ _ _ _ _ _ _ I c s Hs Hmax) as [(t & Ht & Hst & Hc) _].
  rewrite Hcu. cbn [mbind option_bind]. rewrite Ht. cbn [mbind option_bind].
  rewrite bool_decide_false by congruence. rewrite bool_decide_true by done. cbn [negb].
  assert (Hlv : live t = true) by (unfold live; by rewrite Hst).
  pose proof (count_if_pos live _ _ _ Ht Hlv). pose proof (i_count _ _ _ _ _ _ _ _ I) as Hcount.
  destruct (Z.eqb_spec (termination_signal t) 0) as [Hsig|Hsig]; cbn [negb mbind option_bind];
    (eexists; split; [done|]; split; [|done]); cbn; rewrite (alter_insert _ _ _ t) by done.
  - replace (task_count (sched (world m))) with (task_count (sched (world m)) - 1 + 1) by lia.
    apply (inv_finalize _ _ _ _ _ _ _ _ _ t); try done. by left.
  - replace (saturating_sub (task_count (sched (world m))) 1) with (task_count (sched (world m)) - 1 + 0)
      by (unfold saturating_sub; lia).
    apply (inv_finalize _ _ _ _ _ _ _ _ _ t); try done. right. split; [done|].
    intros Hi. by destruct (ti_idle _ _ _ _ _ _ _ (i_task _ _ _ _ _ _ _ _ I s t Ht) Hi) as (_ & _ & _ & ? & _).
Qed.

Lemma safe_wake m c i : minv m → safe m (Wake c i).
Proof.
  intros M. unfold safe. cbn. eexists. split; [done|]. unfold wake_task.
  destruct (position _ _) as [s|] eqn:E; [|done]. apply position_lookup in E as (t & Ht & Hp).
  rewrite !andb_true_iff, orb_true_iff, !bool_decide_eq_true in Hp. destruct Hp as [_ Hw].
  apply winv_reschedule. pose proof M as (I & _).
  destruct (wake_change None _ _ _ _ _ _ _ s t (make_ready t) I) as (? & ? & ?); try done.
  by apply (winv_alter _ _ _ _ t).
Qed.

Lemma safe_signal m c i : minv m → safe m (Signal c i).
Proof.
  intros M. unfold safe. cbn. eexists. split; [done|]. unfold signal_event.
  destruct (position _ _) as [s|] eqn:E; [|done]. apply position_lookup in E as (t & Ht & _).
  rewrite Ht. case_bool_decide as Hb.
  - apply winv_reschedule. pose proof M as (I & _).
    destruct (wake_change None _ _ _ _ _ _ _ s t (make_ready t) I) as (? & ? & ?); try done; [by left|].
    by apply (winv_alter _ _ _ _ t).
  - by apply (winv_cosmetic _ _ _ _ t).
Qed.

(** ** Termination, migration and affinity *)

Lemma safe_terminate m c i signal :
  minv m →
  (∀ s t, tasks (sched (world m)) !! s = Some t → live t = true → is_idle_name (name t) = true → id t ≠ i) →
  safe m (Terminate c i signal).
Proof.
  intros M Hnot. pose proof M as (I & Haux). unfold safe. cbn. eexists. split; [done|].
  unfold request_termination. destruct (position _ _) as [s|] eqn:E; [|done].
  apply position_lookup in E as (t & Ht & [Hid Hl]%andb_true_iff). rewrite Ht. apply Z.eqb_eq in Hid.
  assert (Hni : ¬ idle t) by (intros [_ Hn]; by apply (Hnot s t)).
  set (dead := λ t, set_termination_signal 0 (set_name "terminated" (set_state Dead t))).
  assert (Hdie : at_rest (state t) → winv None (phases m) (complete_process_termination i signal
    (retire_one (update_task s dead (update_task s (set_termination_signal signal) (world m)))))).
  { intros Hr. split; [|done]. cbn. rewrite list_alter_alter_eq, (alter_insert _ _ _ t) by done.
    set (t' := (dead ∘ set_termination_signal signal) t).
    destruct (calm_change None _ _ _ _ _ _ _ s t t' I Ht Hr Hni) as [K T]; [by right|done|].
    pose proof (inv_insert None _ _ _ _ _ _ _ s t t' I Ht K T) as I'.
    pose proof (count_positive _ _ M). rewrite Hl in I'.
    replace (saturating_sub (task_count (sched (world m))) 1) with (task_count (sched (world m)) - 1 + 0)
      by (unfold saturating_sub; lia). done. }
  assert (Hmark : winv None (phases m) (update_task s (set_termination_signal signal) (world m))).
  { apply (winv_alter _ _ _ _ t); try done.
    pose proof (i_task _ _ _ _ _ _ _ _ I s t Ht) as T.
    apply (task_inv_owner _ _ _ _ _ _ t); try done; try apply T.
    intros E. unfold live in Hl. cbn in E. by rewrite E in Hl. }
  destruct (state t) eqn:Hst; cbn [fst]; try done; apply Hdie; unfold at_rest; auto.
Qed.

Lemma find_task_spec i w s t :
  find_task i w = Some (s, t) → tasks (sched w) !! s = Some t ∧ id t = i ∧ state t ≠ Empty.
Proof.
  unfold find_task. destruct (position _ _) as [s'|] eqn:E; [|done]. cbn.
  apply position_lookup in E as (u & Hu & [Hid He]%andb_true_iff). rewrite Hu. cbn. intros [= -> ->].
  apply Z.eqb_eq in Hid. rewrite negb_true_iff, bool_decide_eq_false in He. done.
Qed.

Lemma set_cpu_affinity t c : set_affinity_mask (affinity_mask t) (set_cpu c t) = set_cpu c t.
Proof. by destruct t. Qed.

(** The CPUs in the mask of a live task are online and not quiet. *)
Lemma mask_members ph w s t i :
  winv None ph w → tasks (sched w) !! s = Some t → live t = true →
  Z.testbit (affinity_mask t) (Z.of_nat i) = true →
  (i < MAX_CPUS)%nat ∧ cpu_is_online (smp w) i = true ∧ ¬ quiet (smp w) ph i.
Proof.
  intros (I & _) Ht Hl Hb. pose proof (i_task _ _ _ _ _ _ _ _ I s t Ht) as T.
  destruct (ti_shape _ _ _ _ _ _ _ T Hl) as (_ & Ha & _).
  pose proof (ti_valid _ _ _ _ _ _ _ T Hl) as (_ & _ & Hw & _)%task_valid_iff; [|done].
  specialize (Hw (Z.of_nat i) ltac:(lia) Hb). rewrite testbit_online, andb_true_iff, bool_decide_eq_true in Hw.
  destruct Hw. split_and!; try done. intros Hq. rewrite (ti_quiet _ _ _ _ _ _ _ T Hl i Hq) in Hb. done.
Qed.

Lemma winv_move ph w s t c :
  winv None ph w → tasks (sched w) !! s = Some t → state t = Ready → migratable t = true →
  Z.testbit (affinity_mask t) (Z.of_nat c) = true → winv None ph (update_task s (set_cpu c) w).
Proof.
  intros W Ht Hr Hm Hb. pose proof W as (I & _).
  assert (Hl : live t = true) by (unfold live; by rewrite Hr).
  destruct (ti_shape _ _ _ _ _ _ _ (i_task _ _ _ _ _ _ _ _ I s t Ht) Hl) as (_ & Ha & _).
  destruct (task_inv_move None _ _ _ _ _ _ _ s t c (affinity_mask t) I Ht Hr Hm Ha Hb) as [K T].
  { intros i. by apply (mask_members ph w s t). }
  rewrite set_cpu_affinity in K, T. by apply (winv_alter _ _ _ _ t).
Qed.

Lemma land_meets a c : in_u64 a → (Z.land a (cpu_bit c) =? 0) = false → Z.testbit a (Z.of_nat c) = true.
Proof. intros Ha Hz%Z.eqb_neq. apply mask_meets in Hz; [done|unfold in_u64 in Ha; lia]. Qed.

Lemma safe_migrate m c i target : minv m → safe m (Migrate c i target).
Proof.
  intros M. unfold safe. cbn. unfold migrate_ready_task.
  destruct (cpu_is_schedulable (smp (world m)) target); cbn [negb]; [|eexists; by split].
  destruct (find_task i (world m)) as [[s t]|] eqn:E; [|eexists; by split].
  apply find_task_spec in E as (Ht & _ & _).
  destruct (migratable t) eqn:Hm; cbn [negb]; [|eexists; by split].
  destruct (Z.land (affinity_mask t) (cpu_bit target) =? 0) eqn:Hb; [eexists; by split|].
  case_bool_decide as Hr; cbn [negb]; [|eexists; by split]. cbv zeta.
  pose proof M as (I & _).
  assert (W : winv None (phases m) (update_task s (set_cpu target) (world m))).
  { apply (winv_move _ _ _ t); try done. apply land_meets; [|done].
    apply (ti_shape _ _ _ _ _ _ _ (i_task _ _ _ _ _ _ _ _ I s t Ht)). unfold live. by rewrite Hr. }
  rewrite (validated_inv None (phases m)) by done. eexists. split; [done|]. by apply winv_reschedule.
Qed.

Lemma safe_set_affinity m c i a : minv m → in_u64 a → safe m (SetAffinity c i a).
Proof.
  intros M Ha. unfold safe. cbn. unfold set_ready_task_affinity, set_affinity_seen.
  destruct (a =? 0) eqn:Hz; [eexists; by split|].
  destruct (Z.eqb_spec (Z.land a (not64 (schedulable_mask (smp (world m))))) 0) as [Hw|]; cbn [negb]; [|eexists; by split].
  destruct (find_task i (world m)) as [[s t]|] eqn:E; [|eexists; by split].
  apply find_task_spec in E as (Ht & _ & _).
  destruct (migratable t) eqn:Hm; cbn [negb]; [|eexists; by split].
  case_bool_decide as Hr; cbn [negb]; [|eexists; by split]. cbv zeta.
  pose proof M as (I & _).
  assert (Hall : ∀ i : nat, Z.testbit a (Z.of_nat i) = true →
     (i < MAX_CPUS)%nat ∧ cpu_is_online (smp (world m)) i = true ∧ ¬ quiet (smp (world m)) (phases m) i).
  { intros k Hk. destruct (within_schedulable _ _ _ Ha Hw Hk) as [? Hs]. split_and!; [done|by apply schedulable_online|].
    intros Hq. by rewrite (quiet_not_schedulable _ _ _ _ _ _ _ _ _ I Hq) in Hs. }
  assert (Move : ∀ d f, f t = set_affinity_mask a (set_cpu d t) →
    Z.testbit a (Z.of_nat d) = true → winv None (phases m) (update_task s f (world m))).
  { intros d f Ef Hd. destruct (task_inv_move None _ _ _ _ _ _ _ s t d a I Ht Hr Hm Ha Hd Hall) as [K T].
    apply (winv_alter _ _ _ _ t); try done; by rewrite Ef. }
  destruct (Z.land a (cpu_bit (cpu t)) =? 0) eqn:Hb; cbn [negb].
  - destruct (List.find _ _) as [d|] eqn:Hf; cbn [mbind option_bind].
    + apply find_some in Hf as [_ Hf%negb_true_iff].
      assert (W : winv None (phases m) (update_task s (set_cpu d) (update_task s (set_affinity_mask a) (world m)))).
      { pose proof (Move d (set_cpu d ∘ set_affinity_mask a)) as W. unfold update_task in *. cbn in *.
        rewrite list_alter_alter_eq. apply W; [done|]. by apply land_meets. }
      rewrite (validated_inv None (phases m)) by done. eexists. split; [done|]. by apply winv_reschedule.
    + exfalso. destruct (mask_nonempty a) as [k Hk]; [done|by apply Z.eqb_neq|].
      destruct (Hall k Hk) as (Hk4 & _). eapply find_none in Hf; [|by apply in_seq; split; [lia|exact Hk4]].
      apply negb_false_iff, Z.eqb_eq in Hf. apply (mask_meets a k) in Hk; [done|]. unfold in_u64 in Ha. lia.
  - assert (W : winv None (phases m) (update_task s (set_affinity_mask a) (world m))).
    { apply (Move (cpu t)); [by destruct t|by apply land_meets]. }
    rewrite (validated_inv None (phases m)) by done. eexists. by split.
Qed.

(** ** Load balancing *)

(** A task and a CPU it may be moved to for the better. *)
Definition improving (tp : Topology) (ts : list Tcb) (s target : nat) : Prop :=
  ∃ t, ts !! s = Some t ∧ candidate tp t = true ∧ (target < MAX_CPUS)%nat ∧
    destination tp (run_loads ts) t target = true.

Lemma best_move_sound tp ts s source target gain :
  best_move tp ts = Some (s, source, target, gain) →
  improving tp ts s target ∧ ∃ t, ts !! s = Some t ∧ source = cpu t ∧
    gain = (load_of (run_loads ts) source - load_of (run_loads ts) target)%nat.
Proof.
  set (P := λ best : option (nat * nat * nat * nat), ∀ s source target gain,
    best = Some (s, source, target, gain) → improving tp ts s target ∧ ∃ t, ts !! s = Some t ∧ source = cpu t ∧
    gain = (load_of (run_loads ts) source - load_of (run_loads ts) target)%nat).
  intros Hb. revert s source target gain Hb. change (P (best_move tp ts)). unfold best_move. cbv zeta.
  apply foldl_inv; [|done]. intros best [s t] Hin HP.
  apply list_elem_of_lookup in Hin as [k Hk]. rewrite list_lookup_imap in Hk.
  destruct (ts !! k) as [u|] eqn:Hu; [|done]. cbn in Hk. injection Hk as -> ->.
  destruct (candidate tp t) eqn:Hc; [|done]. apply foldl_inv; [|done].
  intros b target [_ Ht4]%elem_of_seq HPb. unfold consider. destruct (destination _ _ _ _) eqn:Hd; [|done].
  assert (New : P (Some (s, cpu t, target, (load_of (run_loads ts) (cpu t) - load_of (run_loads ts) target)%nat))).
  { intros s' src' tgt' g' [= <- <- <- <-]. split; [exists t; split_and!; try done; lia|]. by exists t. }
  destruct b as [b|]; [destruct (better _ _ _ _ _)|]; done.
Qed.

Lemma best_move_complete tp ts s target : improving tp ts s target → is_Some (best_move tp ts).
Proof.
  intros (t & Ht & Hc & Hlt & Hd). unfold best_move. cbv zeta.
  assert (Keep : ∀ j u b k, is_Some b → is_Some (consider tp (run_loads ts) j u b k)).
  { intros j u b k Hb. unfold consider. destruct (destination tp (run_loads ts) u k); [|done].
    destruct b as [b|]; [destruct (better _ _ _ _ _)|]; by eexists. }
  apply (foldl_reach is_Some _ _ (s, t)).
  - apply list_elem_of_lookup. exists s. by rewrite list_lookup_imap, Ht.
  - intros b. rewrite Hc. apply (foldl_reach is_Some _ _ target); [apply elem_of_seq; lia| |by eauto].
    intros b'. unfold consider. rewrite Hd. destruct b' as [b'|]; [destruct (better _ _ _ _ _)|]; by eexists.
  - intros b [j u] Hb. destruct (candidate tp u); [|done]. apply foldl_inv; [|done]. eauto.
Qed.

Lemma candidate_spec tp t : candidate tp t = true →
  state t = Ready ∧ migratable t = true ∧ is_idle_name (name t) = false ∧ cpu_is_online tp (cpu t) = true ∧
  (entry t = None → ever_dispatched t = false).
Proof.
  unfold candidate. rewrite !andb_true_iff, !negb_true_iff, bool_decide_eq_true, andb_false_iff, bool_decide_eq_false.
  intros ((((? & ?) & ?) & ?) & Hd). split_and!; try done. intros E. by destruct Hd.
Qed.

Lemma destination_spec tp loads t c : destination tp loads t c = true →
  c ≠ cpu t ∧ cpu_is_schedulable tp c = true ∧ Z.land (affinity_mask t) (cpu_bit c) ≠ 0 ∧
  (load_of loads c + 1 < load_of loads (cpu t))%nat.
Proof.
  unfold destination. rewrite !andb_true_iff, !negb_true_iff, bool_decide_eq_true, bool_decide_eq_false, Z.eqb_neq.
  tauto.
Qed.

Lemma rebalance_move ph w s source target gain :
  winv None ph w → best_move (smp w) (tasks (sched w)) = Some (s, source, target, gain) →
  ∃ t, tasks (sched w) !! s = Some t ∧ state t = Ready ∧ migratable t = true ∧ source = cpu t ∧
    is_idle_name (name t) = false ∧ cpu_is_schedulable (smp w) target = true ∧ target ≠ source ∧
    Z.testbit (affinity_mask t) (Z.of_nat target) = true ∧
    (entry t = None → ever_dispatched t = false) ∧
    (load_of (run_loads (tasks (sched w))) target + 1 < load_of (run_loads (tasks (sched w))) source)%nat ∧
    winv None ph (update_task s (set_cpu target) w).
Proof.
  intros W HB. pose proof W as (I & _).
  apply best_move_sound in HB as [(t & Ht & Hc & Hlt & Hd) (t' & Ht' & -> & _)]. simplify_eq.
  apply candidate_spec in Hc as (Hr & Hm & Hn & _ & He). apply destination_spec in Hd as (Hne & Hs & Hb & Hg).
  assert (Hbit : Z.testbit (affinity_mask t) (Z.of_nat target) = true).
  { apply land_meets; [|by apply Z.eqb_neq].
    apply (ti_shape _ _ _ _ _ _ _ (i_task _ _ _ _ _ _ _ _ I s t Ht)). unfold live. by rewrite Hr. }
  exists t. split_and!; try done. by apply (winv_move _ _ _ t).
Qed.

Lemma safe_rebalance m c : minv m → safe m (Rebalance c).
Proof.
  intros M. unfold safe. cbn. unfold rebalance_once, rebalance_one.
  destruct (_ <? 2); [eexists; by split|].
  destruct (best_move _ _) as [[[[s source] target] gain]|] eqn:E; [|eexists; by split].
  destruct (rebalance_move (phases m) (world m) s source target gain M E) as (t & Ht & _ & _ & _ & _ & _ & _ & _ & _ & _ & W).
  rewrite Ht. cbn [mbind option_bind]. cbv zeta. rewrite (validated_inv None (phases m)) by done.
  eexists. split; [done|]. by apply winv_reschedule.
Qed.

(** ** Spawning *)

Hypothesis kernel_space : is_Some kernel_address_space.

Lemma free_slot_spec w s : free_slot w = Some s → ∃ t, tasks (sched w) !! s = Some t ∧ state t = Empty.
Proof. intros (t & Ht & He%bool_decide_eq_true)%position_lookup. eauto. Qed.

Lemma nid_succ w : 0 ≤ next_task_id w → next_task_id w < u64_max → wrapping_add64 (next_task_id w) 1 = next_task_id w + 1.
Proof. intros ??. unfold wrapping_add64, wrap64. apply Z.mod_small. lia. Qed.

(** The initializer in a free slot, with an owner and mask that are fit to run. *)
Lemma winv_spawn ph w s t f :
  winv None ph w → tasks (sched w) !! s = Some t → state t = Empty → next_task_id w < u64_max →
  state (f t) = Ready → id (f t) = next_task_id w → is_idle_name (name (f t)) = false →
  is_Some (address_space (f t)) → 0 ≤ priority (f t) ≤ 2 →
  (entry (f t) = None → migratable (f t) = false → affinity_mask (f t) = cpu_bit (cpu (f t))) →
  in_u64 (affinity_mask (f t)) → Z.testbit (affinity_mask (f t)) (Z.of_nat (cpu (f t))) = true →
  (∀ i : nat, Z.testbit (affinity_mask (f t)) (Z.of_nat i) = true →
     (i < MAX_CPUS)%nat ∧ cpu_is_online (smp w) i = true ∧ ¬ quiet (smp w) ph i) →
  winv None ph (add_task (update_task s f (fresh_id w).1)).
Proof.
  intros (I & Haux) Ht He Hnid Hr Hid Hn Has Hp Hpin Ha Hb Hall.
  split; [|done]. cbn. rewrite (alter_insert _ _ _ t) by done.
  rewrite nid_succ by (done || apply I). apply (inv_fresh _ _ _ _ _ _ _ _ t); try done.
  - apply task_valid_iff; [done|]. split_and!; try done; [by apply Hall|].
    intros i Hi Hbi. destruct (Z_of_nat_complete i Hi) as [k ->]. destruct (Hall k Hbi) as (? & ? & _).
    by rewrite testbit_online, bool_decide_true.
  - intros c Hq. destruct (Z.testbit (affinity_mask (f t)) (Z.of_nat c)) eqn:E; [|done].
    by destruct (Hall c E) as (_ & _ & []).
Qed.

Lemma safe_spawn m nm e p :
  minv m → is_idle_name nm = false → 0 ≤ p ≤ 2 → next_task_id (world m) < u64_max → safe m (Spawn nm e p).
Proof.
  intros M Hn Hp Hnid. pose proof M as (I & _). unfold safe. cbn. unfold spawn_with_priority.
  pose proof (count_positive _ _ M). destruct (Z.eqb_spec (task_count (sched (world m))) 0); [lia|].
  destruct (free_slot (world m)) as [s|] eqn:E; [|eexists; by split].
  apply free_slot_spec in E as (t & Ht & He). cbn. eexists. split; [done|].
  assert (Hc0 : cpu t = 0%nat) by (by apply (i_task _ _ _ _ _ _ _ _ I s t Ht)).
  assert (Hup0 : cpu_is_online (smp (world m)) 0 = true ∧ ¬ quiet (smp (world m)) (phases m) 0).
  { unfold quiet. destruct (i_boot _ _ _ _ _ _ _ _ I) as [Hph|[Hph|Hph]]; rewrite Hph;
      (split; [by apply (i_phase _ _ _ _ _ _ _ _ I 0%nat _ Hph)|naive_solver]). }
  apply (winv_spawn _ (world m) s t); try done; cbn; rewrite ?Hc0; try done.
  intros i. change 1 with (cpu_bit 0). rewrite cpu_bit_testbit by lia. intros Hi%bool_decide_eq_true.
  assert (i = 0%nat) as -> by lia. split_and!; [unfold MAX_CPUS; lia|apply Hup0|apply Hup0].
Qed.

Lemma safe_spawn_on m c target nm e mig a :
  minv m → is_idle_name nm = false → in_u64 a → next_task_id (world m) < u64_max →
  safe m (SpawnOn c target nm e mig a).
Proof.
  intros M Hn Ha Hnid. pose proof M as (I & _). unfold safe. cbn. eexists. split; [done|]. unfold spawn_kernel_on.
  destruct (_ || _) eqn:E1; [done|]. apply orb_false_iff in E1 as [Hs%negb_false_iff Hw%negb_false_iff%Z.eqb_eq].
  destruct (Z.land a (cpu_bit target) =? 0) eqn:Hb; [done|]. apply land_meets in Hb; [|done].
  destruct (free_slot (world m)) as [s|] eqn:E; [|done]. apply free_slot_spec in E as (t & Ht & He). cbn.
  apply winv_reschedule. apply (winv_spawn _ (world m) s t); try done.
  intros k Hk. cbn in Hk. destruct (within_schedulable _ _ _ Ha Hw Hk) as [? Hsk].
  split_and!; [done|by apply schedulable_online|].
  intros Hq. by rewrite (quiet_not_schedulable _ _ _ _ _ _ _ _ _ I Hq) in Hsk.
Qed.

(** ** User tasks *)

(** Where a fresh task may be put. *)
Definition placeable (m : Machine) (c : nat) (mig : bool) (a : Z) : Prop :=
  in_u64 a ∧ Z.testbit a (Z.of_nat c) = true ∧ (mig = false → a = cpu_bit c) ∧
  ∀ i : nat, Z.testbit a (Z.of_nat i) = true →
    (i < MAX_CPUS)%nat ∧ cpu_is_online (smp (world m)) i = true ∧ ¬ quiet (smp (world m)) (phases m) i.

Lemma cpu0_up m : minv m → cpu_is_online (smp (world m)) 0 = true ∧ ¬ quiet (smp (world m)) (phases m) 0.
Proof.
  intros (I & _). unfold quiet. destruct (i_boot _ _ _ _ _ _ _ _ I) as [Hph|[Hph|Hph]]; rewrite Hph;
    (split; [by apply (i_phase _ _ _ _ _ _ _ _ I 0%nat _ Hph)|naive_solver]).
Qed.

Lemma placeable_bit m c :
  (c < MAX_CPUS)%nat → cpu_is_online (smp (world m)) c = true → ¬ quiet (smp (world m)) (phases m) c →
  placeable m c false (cpu_bit c).
Proof.
  intros Hc Ho Hq. split_and!.
  - unfold in_u64, cpu_bit, u64_max, MAX_CPUS in *. rewrite Z.shiftl_1_l. pose proof (Z.pow_le_mono_r 2 (Z.of_nat c) 4). lia.
  - rewrite cpu_bit_testbit by lia. by apply bool_decide_true.
  - done.
  - intros i. rewrite cpu_bit_testbit by lia. intros Hi%bool_decide_eq_true. by assert (i = c) as -> by lia.
Qed.

Lemma schedulable_placeable m k :
  minv m → cpu_is_schedulable (smp (world m)) k = true →
  cpu_is_online (smp (world m)) k = true ∧ ¬ quiet (smp (world m)) (phases m) k.
Proof.
  intros (I & _) Hs. split; [by apply schedulable_online|].
  intros Hq. by rewrite (quiet_not_schedulable _ _ _ _ _ _ _ _ _ I Hq) in Hs.
Qed.

Lemma placeable_mask m c mig a :
  minv m → in_u64 a → Z.land a (not64 (schedulable_mask (smp (world m)))) = 0 → Z.testbit a (Z.of_nat c) = true →
  (mig = false → a = cpu_bit c) → placeable m c mig a.
Proof.
  intros M Ha Hw Hb Hm. split_and!; try done. intros i Hi. destruct (within_schedulable _ _ _ Ha Hw Hi) as [? Hs].
  split; [done|]. by apply schedulable_placeable.
Qed.

(** A placed user task in the slot that [install_user] found. *)
Lemma install_user_spec m me created init c mig a :
  minv m → (me < MAX_CPUS)%nat → next_task_id (world m) < u64_max → placeable m c mig a →
  (∀ slot i t, state t = Empty → cpu t = 0%nat → let t' := init slot i t in
     state t' = Ready ∧ id t' = i ∧ is_idle_name (name t') = false ∧ is_Some (address_space t') ∧
     0 ≤ priority t' ≤ 2 ∧ cpu t' = c ∧ migratable t' = mig ∧ affinity_mask t' = a) →
  ∃ w' r, install_user me created init (world m) = Some (w', r) ∧ winv None (phases m) w' ∧ smp w' = smp (world m).
Proof.
  intros M Hme Hnid (Ha & Hb & Hm & Hall) Hinit. unfold install_user.
  destruct (reap_dead_spec None (phases m) (world m) me M Hme) as (w1 & HR & W1 & Ec & Es & Etp & _).
  assert (Hn1 : next_task_id w1 = next_task_id (world m)).
  { unfold reap_dead in HR. destruct (current_slot _ !! me); [|done]. cbn [mbind option_bind] in HR.
    destruct (revoke_each _ _); [|done]. by injection HR as <-. }
  rewrite HR. cbn [mbind option_bind]. destruct (free_slot w1) as [slot|] eqn:E; [|by eexists _, _].
  apply free_slot_spec in E as (t & Ht & He). cbn [fresh_id]. destruct created; cbn [negb].
  - eexists _, _. split; [done|]. split; [|done]. pose proof W1 as (I1 & _).
    assert (Hc0 : cpu t = 0%nat) by (by apply (i_task _ _ _ _ _ _ _ _ I1 slot t Ht)).
    destruct (Hinit slot (next_task_id w1) t He Hc0) as (? & ? & ? & ? & ? & Hcpu & Hmig & Hmask).
    apply (winv_spawn _ w1 slot t); rewrite ?Hcpu, ?Hmig, ?Hmask, ?Etp; try done. by rewrite Hn1.
  - eexists _, _. split; [done|]. split; [|done]. destruct W1 as (I1 & Haux). split; [|done]. cbn.
    rewrite nid_succ by (rewrite ?Hn1; (done || rewrite <-Hn1; apply I1)).
    destruct I1. split; try done; [|rewrite Hn1; lia].
    intros s u Hu. apply (task_inv_nid _ _ _ _ (next_task_id w1)); [lia|by apply i_task0].
Qed.

Lemma validated_if_ok_spec ph w r :
  winv None ph w → validated_if_ok (Some (w, r)) = Some (w, r).
Proof. intros W. unfold validated_if_ok. cbn. destruct r; [|done]. by rewrite (validated_inv None ph). Qed.

Lemma winv_user_ipi ph me c w (r : result Z SpawnError) :
  winv None ph w →
  winv None ph (match r with
    | Ok _ => if bool_decide (c = me) then (w, r) else ((reschedule_cpu me c w).1, r)
    | Err _ => (w, r) end).1.
Proof. intros W. destruct r; [|done]. case_bool_decide; [done|]. by apply winv_reschedule. Qed.

Lemma min_placement_in tp loads me cs c : min_placement tp loads me cs = Some c → c ∈ cs.
Proof.
  revert c. unfold min_placement. apply (foldl_inv (λ o, ∀ c, o = Some c → c ∈ cs)); [|done].
  intros [b|] x Hx IH c; [|by intros [= <-]]. destruct (key_lt _ _); intros [= <-]; auto.
Qed.

Lemma least_loaded_in_mask me a w c :
  least_loaded_cpu_for_mask me a w = Some c → (Z.land a (cpu_bit c) =? 0) = false.
Proof.
  intros Hc%min_placement_in. apply list_elem_of_In, filter_In in Hc as [_ [_ Hc]%andb_true_iff]. by apply negb_true_iff.
Qed.

Lemma safe_spawn_user m c k nm ctx space created :
  minv m → phases m !! c = Some Up → is_idle_name nm = false → next_task_id (world m) < u64_max →
  match k with Multicore affinity => in_u64 affinity | _ => True end →
  safe m (SpawnUser c k nm ctx space created).
Proof.
  intros M Hup Hn Hnid Hk. pose proof (up_lt _ _ _ M Hup) as Hlt. destruct (cpu0_up m M) as [H0 Hq0].
  assert (P0 : placeable m 0 false (cpu_bit 0)) by (apply placeable_bit; [unfold MAX_CPUS; lia|done..]).
  unfold safe. cbn. destruct k as [|caps|target| |a].
  - unfold spawn_user_process.
    destruct (install_user_spec m c created (λ slot i t, initialize_user slot i nm ctx space t) _ _ _ M Hlt Hnid P0)
      as (w' & r & -> & W & _); [|by eexists].
    intros slot i t He Hc. cbn. split_and!; try done; by eexists.
  - unfold spawn_user_system_service. destruct (negb _); [by eexists|].
    destruct (install_user_spec m c created (λ slot i t, system_service caps (initialize_user slot i nm ctx space t)) _ _ _ M Hlt Hnid P0)
      as (w' & r & -> & W & _); [|by eexists].
    intros slot i t He Hc. cbn. split_and!; try done; by eexists.
  - unfold spawn_pinned_user_process_on.
    destruct (cpu_is_schedulable (smp (world m)) target) eqn:Hs; cbn [negb]; [|by eexists].
    destruct (schedulable_placeable m target M Hs) as [Ho Hq].
    assert (Ht4 : (target < MAX_CPUS)%nat) by (destruct M as (I & _); apply (cpu_lt (smp (world m))); [apply I|done]).
    destruct (install_user_spec m c created (λ slot i t, place target false (cpu_bit target) (initialize_user slot i nm ctx space t))
      _ _ _ M Hlt Hnid (placeable_bit m target Ht4 Ho Hq)) as (w' & r & -> & W & _).
    { intros slot i t He Hc. cbn. split_and!; try done; by eexists. }
    rewrite (validated_if_ok_spec (phases m)) by done. cbn [mbind option_bind].
    destruct (match r with Ok _ => _ | Err _ => _ end) as [w2 r2] eqn:E2. eexists. split; [done|].
    pose proof (winv_user_ipi (phases m) c target w' r W) as W2. by rewrite E2 in W2.
  - unfold spawn_migratable_user_probe.
    assert (Hb : placeable m 0 true (schedulable_mask (smp (world m)))).
    { assert (Hm : in_u64 (schedulable_mask (smp (world m)))).
      { pose proof (mask_of_range (cpu_is_schedulable (smp (world m)))). unfold in_u64, u64_max, schedulable_mask. lia. }
      apply placeable_mask; try done.
      - apply mask_within; try done.
      - rewrite testbit_schedulable, bool_decide_true by (unfold MAX_CPUS; lia). cbn.
        unfold cpu_is_schedulable. rewrite H0. destruct M as (I & _). by rewrite (i_boot_word _ _ _ _ _ _ _ _ I). }
    destruct (install_user_spec m c created (λ slot i t, place 0 true (schedulable_mask (smp (world m)))
      (initialize_user slot i nm ctx space t)) _ _ _ M Hlt Hnid Hb) as (w' & r & -> & W & _).
    { intros slot i t He Hc. cbn. split_and!; try done; by eexists. }
    rewrite (validated_if_ok_spec (phases m)) by done. cbn [mbind option_bind]. by eexists.
  - unfold spawn_multicore_user_process.
    destruct ((a =? 0) || _) eqn:Ea; [by eexists|]. apply orb_false_iff in Ea as [_ Hw%negb_false_iff%Z.eqb_eq].
    destruct (reap_dead_spec None (phases m) (world m) c M Hlt) as (w1 & HR & W1 & _ & _ & Etp & _).
    rewrite HR. cbn [mbind option_bind]. destruct (least_loaded_cpu_for_mask c a w1) as [owner|] eqn:Eo; [|by eexists].
    apply least_loaded_in_mask in Eo. apply land_meets in Eo; [|done].
    destruct (install_user_spec m c created (λ slot i t, place owner true a (initialize_user slot i nm ctx space t))
      owner true a M Hlt Hnid) as (w' & r & -> & W & _).
    { by apply placeable_mask. }
    { intros slot i t He Hc. cbn. split_and!; try done; by eexists. }
    rewrite (validated_if_ok_spec (phases m)) by done. cbn [mbind option_bind].
    destruct (match r with Ok _ => _ | Err _ => _ end) as [w2 r2] eqn:E2. eexists. split; [done|].
    pose proof (winv_user_ipi (phases m) c owner w' r W) as W2. by rewrite E2 in W2.
Qed.

(** What the first section of a fork copies: the placement of a process. *)
Definition snapshot_ok (sn : ForkSnapshot) : Prop :=
  in_u64 (parent_affinity sn) ∧ Z.testbit (parent_affinity sn) (Z.of_nat (parent_cpu sn)) = true ∧
  (parent_migratable sn = false → parent_affinity sn = cpu_bit (parent_cpu sn)).

Lemma fork_begin_spec m c :
  minv m → enabled m (ForkBegin c) → ∃ sn, fork_begin c (world m) = Some sn ∧ snapshot_ok sn.
Proof.
  intros M (Hup & s & t & Hs & Ht & He). unfold fork_begin. rewrite Hs. cbn [mbind option_bind]. rewrite Ht. cbn.
  eexists. split; [done|]. destruct (current_running _ _ c s t M) as [Hr _]; [by left|done..|]. destruct M as (I & _).
  pose proof (i_task _ _ _ _ _ _ _ _ I s t Ht) as T. assert (Hl : live t = true) by (unfold live; by rewrite Hr).
  destruct (ti_shape _ _ _ _ _ _ _ T Hl) as (_ & Ha & _).
  pose proof (ti_valid _ _ _ _ _ _ _ T Hl) as (_ & Hb & _ & Hp)%task_valid_iff; [|done]. split_and!; auto.
Qed.

Lemma safe_fork_finish m c sn frame_size space created :
  minv m → snapshot_ok sn → phases m !! c = Some Up → next_task_id (world m) < u64_max → fresh m (parent_affinity sn) →
  safe m (ForkFinish c sn frame_size space created).
Proof.
  intros M (Ha & Hb & Hp) Hup Hnid Hf. unfold safe. cbn. unfold fork_finish.
  destruct (install_user_spec m c created (fork_child sn frame_size space) (parent_cpu sn) (parent_migratable sn)
    (parent_affinity sn) M (up_lt _ _ _ M Hup) Hnid) as (w' & r & -> & W & _).
  - split_and!; try done. intros i Hi. destruct (Hf i Hi) as (? & ? & Hd & Hr). split_and!; try done. by intros [?|?].
  - intros slot i t He Hc. cbn. split_and!; try done; by eexists.
  - rewrite (validated_if_ok_spec (phases m)) by done. by eexists.
Qed.

(** ** CPU hotplug *)

Lemma up_online ph w c : winv None ph w → is_up ph c → cpu_is_online (smp w) c = true.
Proof. intros (I & _) [Hp|[Hp|Hp]]; apply (i_phase _ _ _ _ _ _ _ _ I c _ Hp). Qed.

Lemma safe_prepare_offline m target :
  minv m → is_up (phases m) target → safe m (PrepareOffline target).
Proof.
  intros M Hup. pose proof M as (I & _). unfold safe. cbn. unfold prepare_cpu_offline.
  destruct (bool_decide (target = 0%nat) || negb (cpu_is_online (smp (world m)) target)); [eexists; by split|].
  assert (Hlt : (target < MAX_CPUS)%nat).
  { rewrite <-(i_ph _ _ _ _ _ _ _ _ I). destruct Hup as [?|[?|?]]; by eapply lookup_lt_Some. }
  destruct (lookup_lt_is_Some_2 (current_slot (sched (world m))) target) as [cur Hcur].
  { by rewrite (i_cur _ _ _ _ _ _ _ _ I). }
  destruct (evacuate_cpu_spec (phases m) (world m) target cur M Hlt Hcur) as [->|(ts & -> & W' & _)];
    cbn [mbind option_bind]; [eexists; by split|].
  rewrite (validated_inv None (phases m)) by done. eexists. by split.
Qed.

Lemma safe_checkpoint m c :
  minv m → phases m !! c = Some Up → c ≠ 0%nat → hotplug_state (smp (world m)) c = 2 → safe m (Checkpoint c).
Proof.
  intros M Hup Hc0 Hw. pose proof M as (I & Haux). unfold safe. cbn. unfold offline_cpu_checkpoint.
  rewrite bool_decide_false, (up_online (phases m)) by (done || by left). cbn [orb negb].
  destruct (i_current _ _ _ _ _ _ _ _ I c) as (s & t & Hs & Ht & Hrun & Hcpu); [by left|done|].
  rewrite Hs. cbn [mbind option_bind]. rewrite Ht. cbn [mbind option_bind]. rewrite (bool_decide_true (state t = Running)) by done.
  destruct (is_idle_name (name t)) eqn:Hn; cbn [negb orb]; [|eexists; by split].
  assert (Hlt : (c < MAX_CPUS)%nat) by by eapply up_lt.
  destruct (evacuate_cpu_spec (phases m) (world m) c s M Hlt Hs) as [->|(ts & -> & W' & Hev)];
    cbn [mbind option_bind]; [eexists; by split|].
  pose proof W' as (I' & _). cbn in I'.
  assert (Ht' : ts !! s = Some t).
  { destruct (lookup_lt_is_Some_2 ts s) as [t' Ht'].
    { rewrite (i_tasks _ _ _ _ _ _ _ _ I'), <-(i_tasks _ _ _ _ _ _ _ _ I). by eapply lookup_lt_Some. }
    destruct (Hev s t' Ht') as (t0 & Ht0 & E). rewrite Ht in Ht0. injection Ht0 as <-.
    destruct (i_current _ _ _ _ _ _ _ _ I' c) as (s' & u & Hs' & Hu & _ & Hcu); [by left|done|].
    rewrite Hs in Hs'. injection Hs' as <-. rewrite Ht' in Hu. injection Hu as <-.
    destruct (ev_free _ _ _ _ _ E) as [[_ Hne]|[-> _]]; [unfold live; by rewrite Hrun|done|done]. }
  set (w2 := retire_one _).
  assert (W2 : winv None (<[c := Draining]> (phases m)) w2).
  { split; [|done]. cbn. rewrite (alter_insert _ _ _ t) by done.
    replace (saturating_sub (task_count (sched (world m))) 1) with (task_count (sched (world m)) - 1)
      by (pose proof (count_positive _ _ M); unfold saturating_sub; lia).
    assert (Hi : idle t) by (split; [unfold live; by rewrite Hrun|done]).
    apply (inv_park _ _ _ _ _ _ _ _ _ t); try done.
    intros j u' Hu' Hj Hl'. destruct (Hev j u' Hu') as (u & Hu & E).
    assert (Hl : live u = true) by (unfold live in *; by rewrite <-(ev_state _ _ _ _ _ E)).
    destruct (ev_free _ _ _ _ _ E Hl) as [[? _]|[-> [Hni|?]]]; [done| |done].
    assert (Hiu : idle u) by done.
    destruct (ti_idle _ _ _ _ _ _ _ (i_task _ _ _ _ _ _ _ _ I j u Hu) Hiu) as (_ & _ & -> & _).
    rewrite cpu_bit_testbit by lia. apply bool_decide_false. intros E'%Nat2Z.inj.
    apply Hj. apply (i_one_idle _ _ _ _ _ _ _ _ I j s u t); try done. congruence. }
  rewrite (validated_inv None (<[c := Draining]> (phases m))) by done. eexists. by split.
Qed.

Lemma safe_word m target expected new :
  minv m → target ≠ 0%nat → word_allowed (phases m !! target) expected new = true → safe m (Word target expected new).
Proof.
  intros M H0 Hok. pose proof M as (I & Haux). unfold safe. cbn. eexists. split; [done|].
  unfold compare_exchange. destruct (Z.eqb_spec (hotplug_state (smp (world m)) target) expected) as [He|]; [|by split].
  destruct (phases m !! target) as [p|] eqn:Hp; [|done]. split; [|done]. cbn.
  apply (inv_word _ _ _ _ _ _ _ _ p); try done.
  - pose proof (i_phase _ _ _ _ _ _ _ _ I target p Hp) as Hph. by destruct p.
  - by intros ->.
Qed.

Lemma safe_withdraw m c : minv m → phases m !! c = Some Draining → safe m (Withdraw c).
Proof.
  intros (I & Haux) Hp. unfold safe. cbn. eexists. split; [done|]. split; [|done]. cbn. by apply inv_withdraw.
Qed.

Lemma safe_leave m c : minv m → phases m !! c = Some Withdrawn → safe m (Leave c).
Proof.
  intros (I & Haux) Hp. unfold safe. cbn. eexists. split; [done|]. split; [|done]. cbn. by apply inv_leave.
Qed.

Lemma safe_publish m c :
  minv m → phases m !! c = Some Parked → hotplug_state (smp (world m)) c ∈ [0; 8] → safe m (Publish c).
Proof.
  intros (I & Haux) Hp Hw. unfold safe. cbn. eexists. split; [done|]. split; [|done]. cbn.
  by apply inv_publish.
Qed.

Lemma safe_count m o n : minv m → step m o = Some (set_world (set_smp (set_count n (smp (world m))) (world m)) m) → safe m o.
Proof.
  intros (I & Haux) Ho. unfold safe. rewrite Ho. eexists. split; [done|]. split; [|done]. cbn.
  apply (inv_topology (smp (world m)) _ _ _ _ (phases m)); try done; try apply I.
  intros s t Ht Hl. pose proof (i_task _ _ _ _ _ _ _ _ I s t Ht) as T.
  split; [by apply T|]. intros c Hq. by apply T.
Qed.

Lemma safe_init_ap m c :
  minv m → phases m !! c = Some Rejoining → hotplug_state (smp (world m)) c = 0 →
  is_Some (free_slot (world m)) → next_task_id (world m) < u64_max → safe m (InitAp c).
Proof.
  intros M Hp Hw [s Hs] Hnid. pose proof M as (I & Haux). unfold safe. cbn. unfold init_ap. rewrite Hs.
  cbn [mbind option_bind]. eexists. split; [done|]. apply free_slot_spec in Hs as (t & Ht & He).
  split; [|done]. cbn. rewrite (alter_insert _ _ _ t) by done. rewrite nid_succ by (done || apply I).
  apply (inv_rejoin _ _ _ _ _ _ _ _ _ t); try done; [by rewrite Hw|unfold live; by rewrite He].
Qed.

Lemma safe_rejoin m c :
  minv m → phases m !! c = Some Rejoining → hotplug_state (smp (world m)) c = 8 →
  next_task_id (world m) < u64_max → safe m (Rejoin c).
Proof.
  intros M Hp Hw Hnid. pose proof M as (I & Haux). unfold safe. cbn. unfold online_cpu_checkpoint.
  pose proof (i_phase _ _ _ _ _ _ _ _ I c _ Hp) as [Hon _]. rewrite Hon. cbn [negb].
  assert (Hc0 : c ≠ 0%nat).
  { intros ->. destruct (i_boot _ _ _ _ _ _ _ _ I) as [E|[E|E]]; rewrite Hp in E; done. }
  rewrite bool_decide_false by done. cbn [orb].
  destruct (position _ _) as [s|] eqn:E.
  2:{ cbn [mbind option_bind]. eexists. split; [done|]. split; [|done]. cbn.
      apply (inv_phase_down _ _ _ _ _ _ _ _ Rejoining); try done; [set_solver..| |].
      - split; [done|]. rewrite Hw. set_solver.
      - intros _. by right. }
  apply position_lookup in E as (t & Ht & Hdead).
  assert (Hnl : live t = false).
  { unfold live. rewrite orb_true_iff, andb_true_iff in Hdead. destruct Hdead as [->|[-> _]]; [done|by rewrite andb_false_r]. }
  cbv zeta. cbn [fresh_id].
  set (w2 := add_task _).
  assert (W2 : winv None (<[c := Up]> (phases m)) w2).
  { split; [|done]. cbn. rewrite (alter_insert _ _ _ t) by done. rewrite nid_succ by (done || apply I).
    apply (inv_rejoin _ _ _ _ _ _ _ _ _ t); try done. by rewrite Hw. }
  rewrite (validated_inv None (<[c := Up]> (phases m))) by done. cbn [mbind option_bind].
  eexists. by split.
Qed.

(** ** Executions *)

(** The invariant, and the snapshots of the forks in flight are placements. *)
Definition sound (m : Machine) : Prop := minv m ∧ Forall snapshot_ok (forks m).

Lemma step_minv m o : sound m → enabled m o → safe m o.
Proof.
  intros [M F] He. destruct o; cbn in He.
  - by apply safe_yield.
  - by apply safe_preempt.
  - by apply safe_switch_stacks.
  - by apply safe_finalize.
  - by apply safe_block.
  - by apply safe_sleep.
  - by apply safe_wait.
  - by apply safe_exit.
  - by apply safe_tick.
  - by apply safe_wake.
  - by apply safe_signal.
  - apply safe_terminate; [done|apply He].
  - destruct He as (? & ? & ?). by apply safe_spawn.
  - destruct He as (_ & ? & ? & ?). by apply safe_spawn_on.
  - destruct He as (? & ? & ? & ?). by apply safe_spawn_user.
  - destruct (fork_begin_spec m c M He) as (sn & Hsn & _). unfold safe. cbn. rewrite Hsn. by eexists.
  - destruct He as (? & Hin & ? & ?). apply safe_fork_finish; try done. by eapply Forall_forall in F.
  - by apply safe_migrate.
  - destruct He. by apply safe_set_affinity.
  - by apply safe_rebalance.
  - by apply safe_prepare_offline.
  - destruct He. by apply safe_word.
  - destruct He as (? & ? & ?). by apply safe_checkpoint.
  - by apply safe_withdraw.
  - by apply safe_leave.
  - destruct He as (_ & ? & ?). by apply safe_publish.
  - by eapply safe_count.
  - by eapply safe_count.
  - destruct He as (? & ? & ? & ?). by apply safe_init_ap.
  - destruct He as (? & ? & ?). by apply safe_rejoin.
Qed.

Lemma step_forks m o m' :
  step m o = Some m' → forks m' = forks m ∨ ∃ c sn, o = ForkBegin c ∧ fork_begin c (world m) = Some sn ∧ forks m' = sn :: forks m.
Proof.
  assert (Hc : ∀ c r P, forks (commit c r P) = forks P) by (by intros c [? []] P).
  destruct o; cbn; try (intros [= <-]; by left).
  all: lazymatch goal with |- context [fork_begin ?c ?w] =>
    destruct (fork_begin c w) as [sn|] eqn:E; [|done]; intros [= <-]; right; by exists c, sn | _ => idtac end.
  all: unfold blocking; intros Hs;
    repeat match type of Hs with
    | mbind _ ?x = Some _ => destruct x as [?|] eqn:?; [cbn [mbind option_bind] in Hs|done]
    | (let '(_, _) := ?x in _) = Some _ => destruct x
    end; injection Hs as <-; left; rewrite ?Hc; try done; by case_match.
Qed.

Lemma step_safe m o : sound m → enabled m o → ∃ m', step m o = Some m' ∧ sound m'.
Proof.
  intros S He. destruct (step_minv m o S He) as (m' & Hs & M'). exists m'. split; [done|]. split; [done|].
  destruct S as [M F]. destruct (step_forks _ _ _ Hs) as [->|(c & sn & -> & Hb & ->)]; [done|].
  constructor; [|done]. destruct (fork_begin_spec m c M He) as (sn' & ? & ?). congruence.
Qed.

End steps.
End SchedSteps.
