(* ===== verification/SchedulerProofs.v ===== *)
(** * What the scheduler guarantees (kernel/src/task.rs)

    Theorems about every execution of the machine: no enabled step panics and CPU ownership
    is exclusive; dispatch is by priority with round-robin turns; evacuation is all or
    nothing; balancing moves one task and narrows the gap; an event signal is never
    lost. *)
From S2P Require Import Prelude Capability WovenGuard SecurityLedger Lineage LineageService TaskControl Scheduler SchedulerInv SchedulerLife SchedulerSteps.

Module SchedProofs.
Import Smp Task Sched Machine SchedInv SchedLife SchedSteps.

Section proofs.
Context `{Platform}.

(** ** Boot *)

Lemma inv_boot (tp : Topology) (k i : Tcb) :
  online tp = [true; false; false; false] → offline_state tp = [0; 0; 0; 0] →
  k = boot_kernel_task tcb_empty → i = boot_idle_task tcb_empty → is_Some kernel_address_space →
  inv None tp (k :: i :: replicate 30 tcb_empty) [0; 0; 0; 0]%nat (replicate MAX_CPUS MAX_TASKS)
    [Up; Parked; Parked; Parked] 2 2.
Proof.
  intros Hon Hw -> -> Hk. set (k := boot_kernel_task _). set (i := boot_idle_task _).
  assert (Hl : ∀ s t, (k :: i :: replicate 30 tcb_empty) !! s = Some t →
    (s = 0%nat ∧ t = k) ∨ (s = 1%nat ∧ t = i) ∨ t = tcb_empty).
  { intros [|[|s]] t Ht; [cbn in Ht; naive_solver..|].
    change (replicate 30 tcb_empty !! s = Some t) in Ht. apply lookup_replicate in Ht as [-> _]. auto. }
  assert (Hup : ∀ c, is_up [Up; Parked; Parked; Parked] c ↔ c = 0%nat).
  { intros c. unfold is_up. do 4 (destruct c as [|c]; [cbn; naive_solver|]). cbn. naive_solver. }
  assert (Hq : ∀ c, ¬ quiet tp [Up; Parked; Parked; Parked] c).
  { intros c. unfold quiet. do 4 (destruct c as [|c]; [cbn; naive_solver|]). cbn. naive_solver. }
  assert (Hv : ∀ t, affinity_mask t = 1 → cpu t = 0%nat → task_valid tp t = true).
  { intros t Ha Hc. unfold task_valid. rewrite Ha, Hc.
    replace (online_mask tp) with 1 by (unfold online_mask, mask_of, cpu_is_online; by rewrite Hon).
    replace (cpu_is_online tp 0) with true by (unfold cpu_is_online; by rewrite Hon).
    by destruct (bool_decide (entry t = None) && negb (migratable t)). }
  assert (Hidle : ∀ t, idle t → t = k ∨ t = i ∨ t = tcb_empty → t = i).
  { intros t Hi [->|[->| ->]]; [|done|]; by destruct Hi. }
  split; try done; cbn [length]; rewrite ?length_replicate, ?Hon, ?Hw; try done.
  - intros s t Hs. destruct (Hl s t Hs) as [[-> ->]|[[-> ->]| ->]]; [| |apply task_inv_empty].
    + split; try done; cbn; try (intros; split_and!; (done || unfold in_u64, u64_max; cbn; lia)).
      * intros _. by apply Hv.
      * intros _. split; [done|]. by apply Hup.
      * by intros [_ ?].
      * intros _ c Hc. by apply Hq in Hc.
    + split; try done; cbn; try (intros; split_and!; (done || unfold in_u64, u64_max; cbn; lia)).
      * intros _. by apply Hv.
      * intros _. split_and!; try done; [set_solver|]. by apply Hup.
      * intros _ c Hc. by apply Hq in Hc.
  - intros c p. unfold phase_inv, cpu_is_online. rewrite Hon.
    do 4 (destruct c as [|c]; [cbn; by intros [= <-]|]). done.
  - intros c s. do 4 (destruct c as [|c]; [cbn; intros [= <-]; unfold MAX_TASKS; lia|]). done.
  - intros c ->%Hup _. by exists 0%nat, k.
  - intros c s [-> _]%lookup_replicate. done.
  - intros c ->%Hup. exists 1%nat, i. split_and!; try done.
  - by apply Hup.
  - unfold hotplug_state. by rewrite Hw.
  - intros s1 s2 t1 t2 [[-> ->]|[[-> ->]| ->]]%Hl [[-> ->]|[[-> ->]| ->]]%Hl; try done.
  - intros s1 s2 t1 t2 [[-> ->]|[[-> ->]| ->]]%Hl [[-> ->]|[[-> ->]| ->]]%Hl I1 I2 _; try done;
      (by destruct I1) || by destruct I2.
Qed.

Lemma boot_minv doms log m :
  is_Some kernel_address_space → boot doms log = Some m → minv m.
Proof.
  intros Hk [= <-]. split_and!; cbn; try done.
  - by apply (inv_boot (boot_topology doms) _ _ eq_refl eq_refl eq_refl eq_refl).
  - by repeat constructor.
  - apply LinProofs.wf_new.
Qed.

Lemma reachable_sound m : is_Some kernel_address_space → reachable m → sound m.
Proof.
  intros Hk. induction 1 as [doms log m Hd Hb|m o m' _ IH He Hs].
  - split; [by eapply boot_minv|]. by injection Hb as <-.
  - destruct (step_safe Hk m o IH He) as (m1 & Hm1 & ?). congruence.
Qed.

Lemma reachable_minv m : is_Some kernel_address_space → reachable m → minv m.
Proof. intros Hk Hr. by apply reachable_sound. Qed.

(** C1. No scheduler step panics. Take any execution that interleaves critical sections
    of all CPUs - dispatching, blocking, waking, spawning kernel and user tasks, forking,
    killing, migrating, balancing - with the single stores by which CPUs leave and rejoin:
    every step the program may take next succeeds, so no assertion fails, no blocked task
    is left without a replacement to switch to, no index is out of range, and the
    reaper's revocation loop terminates. The steps and when they may be taken are those
    of [step] and [enabled]: the kernel has an address space, ids do not run out, an AP
    that starts finds a slot, a critical section reads the hotplug words at one moment,
    and [fork_current] finishes before a CPU of the placement it copied leaves. The code
    does not enforce the last two; [stale_placements_panic] is about executions where
    they fail. *)
Theorem scheduler_never_panics (m : Machine) (o : op) :
  is_Some kernel_address_space → reachable m → enabled m o → ∃ m', step m o = Some m' ∧ reachable m'.
Proof.
  intros Hk Hr He. destruct (step_safe Hk m o (reachable_sound m Hk Hr) He) as (m' & Hs & _).
  exists m'. split; [done|]. by eapply reach_step.
Qed.

(** C2. CPU ownership is exclusive and follows affinity. In every reachable state
    each running CPU executes exactly the task its [current_slot] names, no two
    [Running] tasks share a CPU, every live task is owned by an online CPU inside its
    affinity mask and the mask names online CPUs only, a task in transit is the one
    its CPU is switching away from, and [task_count] counts the live tasks. *)
Theorem cpu_ownership_exclusive (m : Machine) :
  is_Some kernel_address_space → reachable m →
  let w := world m in let ts := tasks (sched w) in
  (∀ c, is_up (phases m) c → ∃ s t, current_slot (sched w) !! c = Some s ∧ ts !! s = Some t ∧
     state t = Running ∧ cpu t = c) ∧
  (∀ s1 s2 t1 t2, ts !! s1 = Some t1 → ts !! s2 = Some t2 → state t1 = Running → state t2 = Running →
     cpu t1 = cpu t2 → s1 = s2) ∧
  (∀ s t, ts !! s = Some t → live t = true → Z.testbit (affinity_mask t) (Z.of_nat (cpu t)) = true ∧
     ∀ k : nat, Z.testbit (affinity_mask t) (Z.of_nat k) = true → (k < MAX_CPUS)%nat ∧ cpu_is_online (smp w) k = true) ∧
  (∀ s t, ts !! s = Some t → state t = Switching → switching_out (sched w) !! cpu t = Some s ∧
     (phases m !! cpu t = Some Handoff ∨ phases m !! cpu t = Some Arrived)) ∧
  task_count (sched w) = Z.of_nat (count_if live ts).
Proof.
  intros Hk Hr. cbv zeta. pose proof (reachable_minv m Hk Hr) as M. pose proof M as (I & _). split_and!.
  - intros c Hc. by apply (i_current _ _ _ _ _ _ _ _ I c Hc).
  - intros s1 s2 t1 t2 H1 H2 R1 R2 E.
    destruct (ti_run _ _ _ _ _ _ _ (i_task _ _ _ _ _ _ _ _ I s1 t1 H1) R1) as [E1 _].
    destruct (ti_run _ _ _ _ _ _ _ (i_task _ _ _ _ _ _ _ _ I s2 t2 H2) R2) as [E2 _]. congruence.
  - intros s t Ht Hl. pose proof (i_task _ _ _ _ _ _ _ _ I s t Ht) as T.
    destruct (ti_shape _ _ _ _ _ _ _ T Hl) as (_ & Ha & _).
    pose proof (ti_valid _ _ _ _ _ _ _ T Hl) as (_ & Hb & _)%task_valid_iff; [|done].
    split; [done|]. intros k Hk'. destruct (mask_members _ _ s t k M Ht Hl Hk') as (? & ? & _). done.
  - intros s t Ht Hs. pose proof (ti_switching _ _ _ _ _ _ _ (i_task _ _ _ _ _ _ _ _ I s t Ht) Hs) as E.
    split; [done|]. apply (i_out _ _ _ _ _ _ _ _ I _ s E). apply lookup_lt_Some in Ht.
    rewrite (i_tasks _ _ _ _ _ _ _ _ I) in Ht. lia.
  - apply I.
Qed.

(** ** Round robin *)

(** How many turns after [start] slot [s] comes, from 1 to 32. *)
Definition turns (start s : nat) : nat :=
  S ((s + MAX_TASKS - S (start `mod` MAX_TASKS)) `mod` MAX_TASKS).

Lemma turns_spec start s k :
  (1 ≤ k ≤ MAX_TASKS)%nat → ((start + k) `mod` MAX_TASKS = s)%nat → turns start s = k.
Proof.
  unfold turns, MAX_TASKS. intros Hk <-.
  pose proof (Nat.mod_upper_bound start 32 ltac:(lia)) as Hr. pose proof (Nat.div_mod start 32 ltac:(lia)) as Hd.
  set (r := (start `mod` 32)%nat) in *. set (q := (start / 32)%nat) in *.
  assert ((start + k) `mod` 32 = (r + k) `mod` 32)%nat as ->.
  { rewrite Hd, (Nat.mul_comm 32 q), <-Nat.add_assoc, (Nat.add_comm (q * 32)), Nat.Div0.mod_add. done. }
  assert ((r + k) `mod` 32 = if decide (r + k < 32) then r + k else if decide (r + k < 64) then r + k - 32 else r + k - 64)%nat as ->.
  { case_decide; [by apply Nat.mod_small|]. case_decide.
    - replace (r + k)%nat with (r + k - 32 + 1 * 32)%nat at 1 by lia. rewrite Nat.Div0.mod_add. apply Nat.mod_small. lia.
    - lia. }
  repeat case_decide; try lia.
  - replace (r + k + 32 - S r)%nat with (k - 1 + 1 * 32)%nat by lia. rewrite Nat.Div0.mod_add, Nat.mod_small; lia.
  - replace (r + k - 32 + 32 - S r)%nat with (k - 1)%nat by lia. rewrite Nat.mod_small; lia.
Qed.

(** Dispatch is by strict priority, round robin within a priority, and fair. On a
    CPU that reschedules, [prepare_switch] switches unless no task is eligible. The
    task it picks is eligible and no eligible task has a higher priority; it is the
    first one after the last slot served at that priority, which becomes the new
    starting point; so every other eligible task of that priority moves strictly
    closer to its turn, and is served within 32 selections. *)
Theorem dispatch_priority_round_robin (m : Machine) (c : nat) :
  is_Some kernel_address_space → reachable m → phases m !! c = Some Up →
  let ts := tasks (sched (world m)) in
  (∃ w', prepare_switch c (world m) = Some (w', None) ∧
     ∀ s t, ts !! s = Some t → eligible c t = false) ∨
  ∃ w' cs next best start, prepare_switch c (world m) = Some (w', Some cs) ∧
    current_slot (sched w') !! c = Some next ∧
    last_selected (sched (world m)) !! c ≫= (.!! Z.to_nat best) = Some start ∧
    last_selected (sched w') !! c ≫= (.!! Z.to_nat best) = Some next ∧
    (∃ t, ts !! next = Some t ∧ eligible c t = true ∧ priority t = best) ∧
    (∀ s t, ts !! s = Some t → eligible c t = true → priority t ≤ best ∧
       (priority t = best → s ≠ next → (turns start next < turns start s ∧ turns next s < turns start s)%nat)).
Proof.
  intros Hk Hr Hup. cbv zeta. pose proof (reachable_minv m Hk Hr) as M.
  destruct (prepare_switch_spec None (phases m) (world m) c M Hup) as
    [(w' & HP & _ & Hno)|(w' & cs & next & HP & W' & Hch)]; [by left|done|left; eauto|right].
  destruct Hch as [Hcur (best & start & k & (t & Ht & He & Hp) & Hmax & Hst & Hk1 & Hn & Hrr & Hlast)].
  exists w', cs, next, best, start. split_and!; try done; [by exists t|].
  intros s u Hu Heu. split; [by eapply Hmax|]. intros Hpu Hne.
  assert (Hlt : (s < MAX_TASKS)%nat).
  { destruct M as (I & _). apply lookup_lt_Some in Hu. by rewrite (i_tasks _ _ _ _ _ _ _ _ I) in Hu. }
  destruct (next_offset start s Hlt) as (j & Hj & Hjs).
  assert (k < j)%nat.
  { destruct (decide (j < k)%nat) as [Hjk|?].
    - exfalso. apply (Hrr j); [lia|]. rewrite Hjs. by exists u.
    - assert (j ≠ k) by (intros ->; congruence). lia. }
  rewrite (turns_spec start s j), (turns_spec start next k) by done.
  rewrite (turns_spec next s (j - k)); [lia|lia|].
  rewrite Hn, Nat.Div0.add_mod_idemp_l. rewrite <-Hjs. f_equal. lia.
Qed.

(** ** Evacuation *)

(** Evacuating a CPU is all or nothing. Either [evacuate_cpu] refuses and the
    whole world is unchanged, or afterwards no live task other than the idle tasks and
    the one currently executing there is owned by the target CPU or may run on it;
    each gave up exactly that CPU, kept its identity and state, and is owned by an
    online CPU of its remaining mask. *)
Theorem evacuation_all_or_nothing (m : Machine) (target : nat) (cur : nat) :
  is_Some kernel_address_space → reachable m → is_up (phases m) target →
  current_slot (sched (world m)) !! target = Some cur →
  evacuate_cpu target (world m) = Some (world m, false) ∨
  ∃ ts, evacuate_cpu target (world m) = Some (set_tasks ts (world m), true) ∧
    ∀ (s : nat) t', ts !! s = Some t' → ∃ t, tasks (sched (world m)) !! s = Some t ∧
      id t' = id t ∧ state t' = state t ∧ name t' = name t ∧
      (live t = true →
         Z.testbit (affinity_mask t') (Z.of_nat (cpu t')) = true ∧ cpu_is_online (smp (world m)) (cpu t') = true ∧
         (is_idle_name (name t) = true ∨ s = cur ∨
          (cpu t' ≠ target ∧ ∀ k : nat, Z.testbit (affinity_mask t') (Z.of_nat k) =
             Z.testbit (affinity_mask t) (Z.of_nat k) && negb (bool_decide (k = target))))).
Proof.
  intros Hk Hr Hup Hcur. pose proof (reachable_minv m Hk Hr) as M. pose proof M as (I & _).
  assert (Hlt : (target < MAX_CPUS)%nat).
  { rewrite <-(i_ph _ _ _ _ _ _ _ _ I). destruct Hup as [?|[?|?]]; by eapply lookup_lt_Some. }
  destruct (evacuate_cpu_spec _ _ _ _ M Hlt Hcur) as [?|(ts & HE & W' & Hev)]; [by left|right].
  exists ts. split; [done|]. intros s t' Ht'. destruct (Hev s t' Ht') as (t & Ht & E).
  exists t. split_and!; [done|apply E..|]. intros Hl. destruct W' as (I' & _). cbn in I'.
  assert (Hl' : live t' = true) by (unfold live in *; by rewrite (ev_state _ _ _ _ _ E)).
  pose proof (i_task _ _ _ _ _ _ _ _ I' s t' Ht') as T'.
  destruct (ti_shape _ _ _ _ _ _ _ T' Hl') as (_ & Ha' & _).
  pose proof (ti_valid _ _ _ _ _ _ _ T' Hl') as (Ho & Hb & _)%task_valid_iff; [|done].
  split_and!; [done..|]. destruct (ev_free _ _ _ _ _ E Hl) as [[Hf Hne]|[_ [?|?]]]; [|auto..].
  right. right. split; [done|]. intros k.
  destruct (ti_shape _ _ _ _ _ _ _ (i_task _ _ _ _ _ _ _ _ I s t Ht) Hl) as (_ & Ha & _).
  destruct (ev_mask _ _ _ _ _ E Hl) as [Em|Em].
  - rewrite Em in *. case_bool_decide as Ek; [subst; by rewrite Hf|by rewrite andb_true_r].
  - rewrite Em, drop_bit_testbit by (done || lia). do 2 f_equal. apply bool_decide_ext. lia.
Qed.

(** ** Load balancing *)

(** The tasks [run_loads] counts for a CPU. *)
Definition counted (c : nat) (t : Tcb) : bool :=
  bool_decide (cpu t = c) && negb (is_idle_name (name t)) &&
  (bool_decide (state t = Ready) || bool_decide (state t = Running) || bool_decide (state t = Switching)).

Lemma load_of_alter (loads : list CpuRunLoad) (f : CpuRunLoad → CpuRunLoad) (k c : nat) :
  (∀ l, runnable (f l) = S (runnable l)) → (k < length loads)%nat →
  load_of (alter f k loads) c = (load_of loads c + Nat.b2n (bool_decide (k = c)))%nat.
Proof.
  intros Hf Hk. unfold load_of. case_bool_decide as E; [subst|].
  - rewrite list_lookup_alter_eq. destruct (lookup_lt_is_Some_2 loads c Hk) as [l ->]. cbn. rewrite Hf. lia.
  - rewrite list_lookup_alter_ne by done. cbn. lia.
Qed.

Lemma run_loads_count (ts : list Tcb) (c : nat) :
  (c < MAX_CPUS)%nat → load_of (run_loads ts) c = count_if (counted c) ts ∧ length (run_loads ts) = MAX_CPUS.
Proof.
  intros Hc. induction ts as [|t ts IH] using rev_ind.
  { split; [|done]. unfold load_of, run_loads. cbn [foldl]. rewrite lookup_replicate_2 by done. done. }
  unfold run_loads in *. rewrite foldl_app. cbn [foldl]. set (loads := foldl _ _ ts) in *. destruct IH as [IH Hlen].
  assert (Hsplit : count_if (counted c) (ts ++ [t]) = (count_if (counted c) ts + Nat.b2n (counted c t))%nat).
  { unfold count_if. rewrite filter_app, length_app. f_equal. fold (count_if (counted c) [t]).
    rewrite count_if_cons. unfold count_if. rewrite filter_nil. simpl length. lia. }
  rewrite Hsplit, <-IH. unfold count_task, counted.
  destruct (bool_decide (MAX_CPUS ≤ cpu t)%nat) eqn:Eb; cbn [orb].
  { apply bool_decide_eq_true in Eb. split; [|done]. rewrite (bool_decide_false (cpu t = c)) by lia. cbn. lia. }
  apply bool_decide_eq_false in Eb.
  destruct (is_idle_name (name t)); [rewrite andb_false_r; cbn; split; [lia|done]|]. cbn [negb]. rewrite andb_true_r.
  destruct (state t); cbn [bool_decide]; rewrite ?length_alter; (split; [|done]);
    rewrite ?load_of_alter; try (intros []; cbn; lia); try lia;
    repeat (rewrite (bool_decide_true (_ = _)) by done || rewrite (bool_decide_false (_ = _)) by done);
    cbn; rewrite ?andb_true_r, ?andb_false_r; done || (cbn; lia).
Qed.

Lemma load_after_move (ts : list Tcb) (s target c : nat) (t : Tcb) :
  ts !! s = Some t → state t = Ready → is_idle_name (name t) = false → (c < MAX_CPUS)%nat → target ≠ cpu t →
  (load_of (run_loads (<[s := set_cpu target t]> ts)) c + Nat.b2n (bool_decide (c = cpu t)) =
   load_of (run_loads ts) c + Nat.b2n (bool_decide (c = target)))%nat.
Proof.
  intros Ht Hr Hn Hc Hne. rewrite !(proj1 (run_loads_count _ c Hc)).
  pose proof (count_if_insert (counted c) ts s t (set_cpu target t) Ht) as E.
  assert (Hcnt : ∀ u, state u = Ready → is_idle_name (name u) = false → counted c u = bool_decide (c = cpu u)).
  { intros u Hru Hnu. unfold counted. rewrite Hru, Hnu. cbn. rewrite !andb_true_r. apply bool_decide_ext. done. }
  rewrite !Hcnt in E by done. cbn [cpu set_cpu] in E. lia.
Qed.

(** One balancing pass moves at most one task, and only for the better. It moves
    nothing exactly when fewer than two CPUs are counted online or no candidate has a
    destination at least two tasks below its own CPU. Otherwise one [Ready], explicitly
    migratable task goes to a schedulable CPU of its mask - a process only before its
    first dispatch; the source loses one, the target gains one and stays at or below
    the source, and every other load and task is unchanged. *)
Theorem rebalance_improves (m : Machine) :
  is_Some kernel_address_space → reachable m →
  let tp := smp (world m) in let ts := tasks (sched (world m)) in
  ∃ w' r, rebalance_one (world m) = Some (w', r) ∧
  match r with
  | None => w' = world m ∧
      (online_count tp < 2 ∨ ∀ s target, ¬ improving tp ts s target)
  | Some (i, source, target) => ∃ s t, ts !! s = Some t ∧ id t = i ∧ cpu t = source ∧ state t = Ready ∧
      migratable t = true ∧ (entry t = None → ever_dispatched t = false) ∧ target ≠ source ∧
      cpu_is_schedulable tp target = true ∧ Z.testbit (affinity_mask t) (Z.of_nat target) = true ∧
      tasks (sched w') = <[s := set_cpu target t]> ts ∧
      let load := load_of (run_loads ts) in let load' := load_of (run_loads (tasks (sched w'))) in
      load source = S (load' source) ∧ load' target = S (load target) ∧ (load' target ≤ load' source)%nat ∧
      ∀ c, (c < MAX_CPUS)%nat → c ≠ source → c ≠ target → load' c = load c
  end.
Proof.
  intros Hk Hr. cbv zeta. pose proof (reachable_minv m Hk Hr) as M. pose proof M as (I & _).
  unfold rebalance_one. destruct (Z.ltb_spec (online_count (smp (world m))) 2).
  { eexists _, _. split; [done|]. split; [done|]. by left. }
  destruct (best_move _ _) as [[[[s source] target] gain]|] eqn:E.
  - destruct (rebalance_move _ _ _ _ _ _ M E) as (t & Ht & Hrd & Hm & -> & Hn & Hs & Hne & Hb & He & Hg & W).
    rewrite Ht. cbn [mbind option_bind]. rewrite (validated_inv None (phases m)) by done.
    eexists _, _. split; [done|]. exists s, t. split_and!; try done.
    { cbn. by rewrite (alter_insert _ _ _ t). }
    all: cbn [tasks sched update_task set_tasks set_sched]; rewrite (alter_insert _ _ _ t) by done.
    all: assert (Hcpu : (cpu t < MAX_CPUS)%nat) by (apply (cpu_lt (smp (world m))); [apply I|];
      apply task_valid_iff; [|apply (i_task _ _ _ _ _ _ _ _ I s t Ht)]; 
      [apply (ti_shape _ _ _ _ _ _ _ (i_task _ _ _ _ _ _ _ _ I s t Ht))|]; unfold live; by rewrite Hrd).
    all: assert (Htg : (target < MAX_CPUS)%nat) by (apply (cpu_lt (smp (world m))); [apply I|by apply schedulable_online]).
    all: assert (L := λ c Hc, load_after_move _ s target c t Ht Hrd Hn Hc Hne).
    + pose proof (L (cpu t) Hcpu) as E1. rewrite bool_decide_true, bool_decide_false in E1 by done. cbn in E1. lia.
    + pose proof (L target Htg) as E1. rewrite bool_decide_false, bool_decide_true in E1 by done. cbn in E1. lia.
    + pose proof (L (cpu t) Hcpu) as E1. rewrite bool_decide_true, bool_decide_false in E1 by done.
      pose proof (L target Htg) as E2. rewrite bool_decide_false, bool_decide_true in E2 by done. cbn in *. lia.
    + intros c Hc H1 H2. pose proof (L c Hc) as E1. rewrite !bool_decide_false in E1 by done. cbn in E1. lia.
  - eexists _, _. split; [done|]. split; [done|]. right. intros s target Himp.
    apply best_move_complete in Himp as [? ?]. congruence.
Qed.

(** A sequence of steps, each enabled where it is taken. *)
Fixpoint legal (m : Machine) (os : list op) : Prop :=
  match os with
  | [] => True
  | o :: os => enabled m o ∧ match step m o with Some m' => legal m' os | None => False end
  end.

Lemma legal_reachable m os : reachable m → legal m os → ∃ m', run m os = Some m' ∧ reachable m'.
Proof.
  revert m. induction os as [|o os IH]; intros m Hr Hl; [by exists m|]. cbn in *. destruct Hl as [He Hl].
  destruct (step m o) as [m1|] eqn:Hs; [|done]. cbn. apply IH; [by eapply reach_step|done].
Qed.

End proofs.

(** ** A two-processor execution *)

#[local] Instance demo_platform : Platform := {|
  task_stack := λ slot, 1048576 * Z.of_nat slot;
  idle_task := 4096;
  kernel_address_space := Some 8192
|}.

Definition demo (os : list op) : Machine :=
  match m ← boot [0; 0; 0; 0] Ledger.new; run m os with
  | Some m => m
  | None => mkMachine (boot_world [] Ledger.new) [] [] []
  end.

Lemma demo_reachable os : legal (demo []) os → reachable (demo os).
Proof.
  intros Hl. assert (Hb : boot [0; 0; 0; 0] Ledger.new = Some (demo [])) by reflexivity.
  destruct (legal_reachable (demo []) os) as (m & Hr & Hm); [by apply (reach_boot [0; 0; 0; 0] Ledger.new)|done|].
  unfold demo. rewrite Hb. cbn [mbind option_bind]. by rewrite Hr.
Qed.

Ltac prove_legal :=
  vm_compute; repeat match goal with
  | |- _ ∧ _ => split
  | |- _ ∨ _ => left
  | |- True => exact I
  | |- ∃ _, _ => eexists
  | |- _ → False => discriminate
  | |- list_elem_of _ _ => by repeat constructor
  | |- _ => reflexivity
  end.

(** CPU 1 comes up and runs the migratable worker with id 3. *)
Definition worker_running : list op :=
  [Publish 1; InitAp 1; PublishCount 2; SpawnOn 0 1 "worker" 77 true 3; Yield 1; SwitchStacks 1; Finalize 1].

Lemma worker_running_reachable : reachable (demo worker_running).
Proof. apply demo_reachable. prove_legal. Qed.

Lemma scheduler_never_panics_witness :
  reachable (demo worker_running) ∧ enabled (demo worker_running) (Block 1) ∧
  ∃ m', step (demo worker_running) (Block 1) = Some m' ∧ reachable m'.
Proof.
  assert (He : enabled (demo worker_running) (Block 1)) by prove_legal.
  split; [apply worker_running_reachable|]. split; [exact He|].
  apply scheduler_never_panics; [by eexists|apply worker_running_reachable|exact He].
Defined.

Lemma cpu_ownership_exclusive_witness :
  reachable (demo worker_running) ∧
  task_count (sched (world (demo worker_running))) = 4 ∧
  ∃ s t, current_slot (sched (world (demo worker_running))) !! 1%nat = Some s ∧
    tasks (sched (world (demo worker_running))) !! s = Some t ∧ state t = Running ∧ cpu t = 1%nat.
Proof.
  split; [apply worker_running_reachable|].
  destruct (cpu_ownership_exclusive (demo worker_running)) as (Hcur & _ & _ & _ & Hc);
    [by eexists|apply worker_running_reachable|].
  split; [rewrite Hc; vm_compute; reflexivity|]. apply Hcur. left. vm_compute. reflexivity.
Defined.

Lemma dispatch_priority_round_robin_witness :
  reachable (demo worker_running) ∧
  ∃ w' cs, prepare_switch 1 (world (demo worker_running)) = Some (w', Some cs) ∧
    current_slot (sched w') !! 1%nat = Some 2%nat.
Proof.
  split; [apply worker_running_reachable|].
  destruct (dispatch_priority_round_robin (demo worker_running) 1) as
    [(w' & HP & _)|(w' & cs & next & best & start & HP & Hc & _)];
    [by eexists|apply worker_running_reachable|vm_compute; reflexivity| |].
  - exfalso. vm_compute in HP. discriminate.
  - exists w', cs. split; [exact HP|]. vm_compute in HP. injection HP as <- _. vm_compute. reflexivity.
Defined.

(** The worker yields: it is [Ready] on CPU 1, whose idle task runs. *)
Definition worker_ready : list op := worker_running ++ [Yield 1; SwitchStacks 1; Finalize 1].

Lemma worker_ready_reachable : reachable (demo worker_ready).
Proof. apply demo_reachable. prove_legal. Qed.

Lemma evacuation_all_or_nothing_witness :
  reachable (demo worker_ready) ∧
  ∃ ts, evacuate_cpu 1 (world (demo worker_ready)) = Some (set_tasks ts (world (demo worker_ready)), true) ∧
    cpu <$> ts !! 3%nat = Some 0%nat.
Proof.
  split; [apply worker_ready_reachable|].
  destruct (evacuation_all_or_nothing (demo worker_ready) 1 2) as [HE|(ts & HE & _)];
    [by eexists|apply worker_ready_reachable|left; vm_compute; reflexivity|vm_compute; reflexivity| |].
  - exfalso. vm_compute in HE. discriminate.
  - exists ts. split; [exact HE|]. vm_compute in HE. injection HE as <-. vm_compute. reflexivity.
Defined.

(** Two more workers queue up behind the first one on CPU 1. *)
Definition crowded : list op :=
  worker_running ++ [SpawnOn 0 1 "worker" 77 true 3; SpawnOn 0 1 "worker" 77 true 3].

Lemma crowded_reachable : reachable (demo crowded).
Proof. apply demo_reachable. prove_legal. Qed.

Lemma rebalance_improves_witness :
  reachable (demo crowded) ∧
  ∃ w' i, rebalance_one (world (demo crowded)) = Some (w', Some (i, 1%nat, 0%nat)) ∧
    load_of (run_loads (tasks (sched (world (demo crowded))))) 1 = 3%nat ∧
    load_of (run_loads (tasks (sched w'))) 1 = 2%nat.
Proof.
  split; [apply crowded_reachable|].
  destruct (rebalance_improves (demo crowded)) as (w' & r & HR & Hspec); [by eexists|apply crowded_reachable|].
  assert (Hr : r = Some (4, 1%nat, 0%nat)) by (vm_compute in HR; congruence).
  subst r. exists w', 4. split; [exact HR|]. destruct Hspec as (s & t & _ & _ & _ & _ & _ & _ & _ & _ & _ & _ & HL & _).
  assert (load_of (run_loads (tasks (sched (world (demo crowded))))) 1 = 3%nat) as E by (vm_compute; reflexivity).
  split; [exact E|]. rewrite E in HL. congruence.
Defined.

End SchedProofs.
