(* ===== verification/SchedulerLatch.v ===== *)
(** * The event latch loses no signal (kernel/src/task.rs, [signal_event] and
    [wait_for_event_until])

    How one step changes a task, slot by slot: a live task keeps its identity and its
    pending signal, and a slot that was free can only hold a task with a fresh id.
    Hence a signal delivered to a task that is not blocked is still there when the
    task comes to wait, whatever the other CPUs do in between. *)
From S2P Require Import Prelude Capability WovenGuard SecurityLedger Lineage LineageService TaskControl Scheduler SchedulerInv SchedulerLife SchedulerSteps SchedulerProofs.

Module SchedLatch.
Import Smp Task Sched Machine SchedInv SchedLife SchedSteps SchedProofs.

Section latch.
Context `{Platform}.

(** [consumed]: this step is the wait that takes the task's own signal. *)
Definition evolves (nid : Z) (consumed : Prop) (t t' : Tcb) : Prop :=
  if live t
  then id t' = id t ∧ state t' ≠ Empty ∧ (event_pending t = true → event_pending t' = true ∨ consumed)
  else live t' = true → id t' = nid.

Definition evolution (nid : Z) (consumed : nat → Prop) (ts ts' : list Tcb) : Prop :=
  ∀ s t t', ts !! s = Some t → ts' !! s = Some t' → evolves nid (consumed s) t t'.

Lemma evolves_refl nid P t : evolves nid P t t.
Proof.
  unfold evolves. destruct (live t) eqn:E; [|done]. split_and!; auto.
  intros E'. unfold live in E. by rewrite E' in E.
Qed.

Lemma evolution_refl nid P ts : evolution nid P ts ts.
Proof. intros s t t' Ht Ht'. simplify_eq. apply evolves_refl. Qed.

(** A store to one task that neither frees it nor touches id and latch. *)
Lemma evolution_alter nid (P : nat → Prop) ts s f :
  (∀ t, ts !! s = Some t → evolves nid (P s) t (f t)) → evolution nid P ts (alter f s ts).
Proof.
  intros Hf j t t' Ht Ht'. destruct (decide (j = s)) as [->|Hne].
  - rewrite list_lookup_alter_eq, Ht in Ht'. injection Ht' as <-. by apply Hf.
  - rewrite list_lookup_alter_ne in Ht' by done. simplify_eq. apply evolves_refl.
Qed.

Lemma evolution_map nid (P : nat → Prop) ts ts' (g : nat → Tcb → Tcb) :
  (∀ s t', ts' !! s = Some t' → ∃ t, ts !! s = Some t ∧ t' = g s t) →
  (∀ s t, ts !! s = Some t → evolves nid (P s) t (g s t)) → evolution nid P ts ts'.
Proof.
  intros Hg HE s t t' Ht Ht'. destruct (Hg s t' Ht') as (u & Hu & ->). simplify_eq. eauto.
Qed.

Definition same_identity (t t' : Tcb) : Prop :=
  id t' = id t ∧ event_pending t' = event_pending t ∧ live t' = live t ∧
  (state t' = Empty → state t = Empty).

Lemma evolves_same nid P t t' : same_identity t t' → evolves nid P t t'.
Proof.
  intros (Hid & Hp & Hl & _). unfold evolves. destruct (live t) eqn:E; [|by rewrite Hl].
  split_and!; [done| |by rewrite Hp; auto]. intros E'. unfold live in Hl. by rewrite E' in Hl.
Qed.

(** What [prepare_switch] does to each slot. *)
Lemma prepare_tasks me w w' cs cur :
  prepare_switch me w = Some (w', cs) → current_slot (sched w) !! me = Some cur →
  next_task_id w' = next_task_id w ∧
  ∀ s t', tasks (sched w') !! s = Some t' → ∃ t, tasks (sched w) !! s = Some t ∧
    ((state t = Dead ∧ s ≠ cur ∧ t' = tcb_empty) ∨ same_identity t t').
Proof.
  intros HP Hcur. unfold prepare_switch, reap_dead in HP. rewrite Hcur in HP. cbn [mbind option_bind] in HP. cbv zeta in HP.
  destruct (revoke_each _ _) as [r|]; [|done]. cbn [mbind option_bind] in HP.
  set (w1 := set_sec _ _) in HP.
  assert (H1 : ∀ s t', tasks (sched w1) !! s = Some t' → ∃ t, tasks (sched w) !! s = Some t ∧
    ((state t = Dead ∧ s ≠ cur ∧ t' = tcb_empty) ∨ t' = t)).
  { intros s t' Ht'. cbn in Ht'. rewrite list_lookup_imap in Ht'. destruct (tasks (sched w) !! s) as [t|]; [|done].
    cbn in Ht'. injection Ht' as <-. exists t. split; [done|]. destruct (doomed me cur s t) eqn:E; [|by right].
    left. destruct (dead_doomed _ _ _ _ E) as (? & ? & _). done. }
  assert (Hid : ∀ t, same_identity t t) by done.
  assert (Ec1 : current_slot (sched w1) = current_slot (sched w)) by done.
  assert (En1 : next_task_id w1 = next_task_id w) by done. clearbody w1.
  unfold validated in HP. destruct (validate_affinity_invariants w1); [|done].
  destruct (best_priority me (tasks (sched w1))) as [best|].
  2:{ injection HP as <- <-. split; [done|]. intros s t' Ht'. destruct (H1 s t' Ht') as (t & ? & [?| ->]); eauto. }
  destruct (last_selected (sched w1) !! me) as [row|]; [|done]. cbn [mbind option_bind] in HP.
  destruct (row !! Z.to_nat best) as [start|]; [|done]. cbn [mbind option_bind] in HP.
  destruct (next_slot me (tasks (sched w1)) start best) as [next|] eqn:En.
  2:{ injection HP as <- <-. split; [done|]. intros s t' Ht'. destruct (H1 s t' Ht') as (t & ? & [?| ->]); eauto. }
  unfold next_slot in En. apply find_some in En as [_ En].
  destruct (tasks (sched w1) !! next) as [tn|] eqn:Htn; [|done].
  apply andb_true_iff in En as [[Hrn _]%eligible_spec _]. cbn [mbind option_bind] in HP.
  destruct (address_space tn) as [space|]; [|done]. cbn [mbind option_bind] in HP.
  cbn [current_slot sched set_last_selected set_sched tasks] in HP.
  rewrite Ec1, Hcur in HP. cbn [mbind option_bind] in HP.
  destruct (tasks (sched w1) !! cur) as [tc|] eqn:Htc; [|done]. cbn [mbind option_bind] in HP.
  assert (Hdisp : ∀ t, state t = Ready → same_identity t (dispatch t)).
  { intros t Hr. split_and!; try done. unfold live. cbn. by rewrite Hr. }
  assert (Hsw : ∀ t, state t = Running → same_identity t (set_state Switching t)).
  { intros t Hr. split_and!; try done. unfold live. cbn. by rewrite Hr. }
  destruct (bool_decide (state tc = Running)) eqn:Eb.
  - apply bool_decide_eq_true in Eb.
    destruct (switching_out _ !! me) as [pend|]; [|done]. cbn [mbind option_bind] in HP.
    destruct (bool_decide (pend = MAX_TASKS)); [|done]. cbn [mbind option_bind] in HP. injection HP as <- <-.
    split; [done|]. intros s t' Ht'. cbn in Ht'.
    destruct (decide (s = next)) as [->|Hn].
    + rewrite list_lookup_alter_eq in Ht'. rewrite list_lookup_alter_ne in Ht' by congruence.
      cbn in Ht'. rewrite Htn in Ht'. injection Ht' as <-.
      destruct (H1 next tn Htn) as (t & ? & [?| ->]); [naive_solver|]. exists t. auto.
    + rewrite list_lookup_alter_ne in Ht' by done. destruct (decide (s = cur)) as [->|Hc].
      * rewrite list_lookup_alter_eq in Ht'. cbn in Ht'. rewrite Htc in Ht'. injection Ht' as <-.
        destruct (H1 cur tc Htc) as (t & ? & [?| ->]); [naive_solver|]. exists t. auto.
      * rewrite list_lookup_alter_ne in Ht' by done. destruct (H1 s t' Ht') as (t & ? & [?| ->]); eauto.
  - cbn [mbind option_bind] in HP. injection HP as <- <-. split; [done|]. intros s t' Ht'. cbn in Ht'.
    destruct (decide (s = next)) as [->|Hn].
    + rewrite list_lookup_alter_eq in Ht'. cbn in Ht'. rewrite Htn in Ht'. injection Ht' as <-.
      destruct (H1 next tn Htn) as (t & ? & [?| ->]); [naive_solver|]. exists t. auto.
    + rewrite list_lookup_alter_ne in Ht' by done. destruct (H1 s t' Ht') as (t & ? & [?| ->]); eauto.
Qed.

Lemma evolves_after_same nid P t0 t1 t2 : same_identity t0 t1 → evolves nid P t1 t2 → evolves nid P t0 t2.
Proof. intros (Hid & Hp & Hl & _). unfold evolves. by rewrite Hl, Hid, Hp. Qed.

Definition consuming (m : Machine) (o : op) (s : nat) : Prop :=
  ∃ c now deadline, o = Wait c now deadline ∧ current_slot (sched (world m)) !! c = Some s.

Lemma prepare_evolution nid P me w w' cs cur :
  prepare_switch me w = Some (w', cs) → current_slot (sched w) !! me = Some cur →
  evolution nid P (tasks (sched w)) (tasks (sched w')).
Proof.
  intros HP Hcur s t t' Ht Ht'. destruct (prepare_tasks _ _ _ _ _ HP Hcur) as [_ HT].
  destruct (HT s t' Ht') as (u & Hu & [(Hd & _ & ->)|Hs]); simplify_eq; [|by apply evolves_same].
  unfold evolves, live. rewrite Hd. done.
Qed.

(** The current task [cur] is taken off its CPU by [f], then the CPU reschedules. *)
Lemma deschedule_evolution nid P me w w0 w' cs cur f :
  prepare_switch me w0 = Some (w', cs) → tasks (sched w0) = alter f cur (tasks (sched w)) →
  current_slot (sched w0) !! me = Some cur →
  (∀ t, id (f t) = id t ∧ event_pending (f t) = event_pending t ∧ state (f t) ≠ Empty) →
  (∀ t, tasks (sched w) !! cur = Some t → live t = true) →
  evolution nid P (tasks (sched w)) (tasks (sched w')).
Proof.
  intros HP Ets Hcur Hf Hlive s t t' Ht Ht'. destruct (prepare_tasks _ _ _ _ _ HP Hcur) as [_ HT].
  destruct (HT s t' Ht') as (u & Hu & Hcase). rewrite Ets in Hu. destruct (decide (s = cur)) as [->|Hne].
  - rewrite list_lookup_alter_eq, Ht in Hu. injection Hu as <-. destruct (Hf t) as (Hid & Hp & Hst).
    destruct Hcase as [(_ & [] & _)|(Hid' & Hp' & _ & He')]; [done|]. unfold evolves. rewrite (Hlive t Ht).
    split_and!; [congruence|auto|rewrite Hp', Hp; auto].
  - rewrite list_lookup_alter_ne in Hu by done. simplify_eq.
    destruct Hcase as [(Hd & _ & ->)|Hs]; [|by apply evolves_same]. unfold evolves, live. by rewrite Hd.
Qed.


Lemma evacuate_tasks target w w' b :
  evacuate_cpu target w = Some (w', b) → next_task_id w' = next_task_id w ∧
  current_slot (sched w') = current_slot (sched w) ∧
  ∀ s t', tasks (sched w') !! s = Some t' → ∃ t, tasks (sched w) !! s = Some t ∧ same_identity t t'.
Proof.
  unfold evacuate_cpu. destruct (current_slot (sched w) !! target); [|done]. cbn [mbind option_bind].
  destruct (mapM _ _) as [chs|]; intros [= <- <-]; (split; [done|]; split; [done|]); intros s t' Ht'; [|by exists t'].
  cbn in Ht'. apply lookup_zip_with_Some in Ht' as (t & ch & -> & Ht & _). exists t. split; [done|].
  by destruct ch as [[? ?]|].
Qed.

Lemma evolution_same nid P ts ts' :
  (∀ s t', ts' !! s = Some t' → ∃ t, ts !! s = Some t ∧ same_identity t t') → evolution nid P ts ts'.
Proof.
  intros HT s t t' Ht Ht'. destruct (HT s t' Ht') as (u & Hu & ?). simplify_eq. by apply evolves_same.
Qed.

Lemma wake_one_same now t : same_identity t (wake_one now t).
Proof.
  destruct (wake_one_cases now t) as [->|(Hw & Hr & _ & Hv)]; [done|].
  assert (Hl : live t = true) by by apply live_at_rest, waiting_at_rest.
  unfold owner_view in Hv. simplify_eq. split_and!; [done| |rewrite Hl; unfold live; by rewrite Hr|by rewrite Hr].
  unfold wake_one. by repeat match goal with |- context [if ?b then _ else _] => destruct b end.
Qed.

Lemma wake_sleeping_evolution nid P now w ts' :
  evolution nid P (tasks (sched (wake_sleeping now w))) ts' → evolution nid P (tasks (sched w)) ts'.
Proof.
  intros HE s t t' Ht Ht'. apply (evolves_after_same _ _ _ (wake_one now t)); [apply wake_one_same|].
  apply (HE s); [|done]. cbn. by rewrite list_lookup_fmap, Ht.
Qed.

Lemma reschedule_tasks me c w :
  tasks (sched (reschedule_cpu me c w).1) = tasks (sched w) ∧
  next_task_id (reschedule_cpu me c w).1 = next_task_id w.
Proof. unfold reschedule_cpu. destruct (negb _); [done|]. by case_bool_decide. Qed.

(** ** One step *)

(** What the executions need of each step. *)
Definition keeps_signals (m : Machine) (o : op) (m' : Machine) : Prop :=
  evolution (next_task_id (world m)) (consuming m o) (tasks (sched (world m))) (tasks (sched (world m'))) ∧
  next_task_id (world m) ≤ next_task_id (world m').

Lemma keeps_tasks m o m' :
  tasks (sched (world m')) = tasks (sched (world m)) → next_task_id (world m') = next_task_id (world m) →
  keeps_signals m o m'.
Proof. intros E1 E2. split; [rewrite E1; apply evolution_refl|by rewrite E2]. Qed.

Lemma keeps_alter m o m' s f :
  tasks (sched (world m')) = alter f s (tasks (sched (world m))) → next_task_id (world m') = next_task_id (world m) →
  (∀ t, tasks (sched (world m)) !! s = Some t →
     evolves (next_task_id (world m)) (consuming m o s) t (f t)) → keeps_signals m o m'.
Proof. intros E1 E2 Hf. split; [rewrite E1; by apply evolution_alter|by rewrite E2]. Qed.

(** A fresh task in a slot without a live one. *)
Lemma keeps_fresh m o m' s f :
  minv m → next_task_id (world m) < u64_max →
  tasks (sched (world m')) = alter f s (tasks (sched (world m))) →
  next_task_id (world m') = wrapping_add64 (next_task_id (world m)) 1 →
  (∀ t, tasks (sched (world m)) !! s = Some t → live t = false ∧ id (f t) = next_task_id (world m)) →
  keeps_signals m o m'.
Proof.
  intros (I & _) Hlt E1 E2 Hf. split; [|rewrite E2, nid_succ; [lia|apply I|done]].
  rewrite E1. apply evolution_alter. intros t Ht. destruct (Hf t Ht) as [Hl Hid]. unfold evolves. by rewrite Hl.
Qed.

Lemma current_lookup m c : minv m → phases m !! c = Some Up →
  ∃ s t, current_slot (sched (world m)) !! c = Some s ∧ tasks (sched (world m)) !! s = Some t ∧ live t = true.
Proof.
  intros (I & _) Hup. destruct (i_current _ _ _ _ _ _ _ _ I c) as (s & t & ? & ? & Hr & _); [by left|done|].
  exists s, t. split_and!; try done. unfold live. by rewrite Hr.
Qed.

Lemma prepare_keeps m o c w w' cs P :
  prepare_switch c w = Some (w', cs) → next_task_id w = next_task_id (world m) →
  is_Some (current_slot (sched w) !! c) →
  (∀ ts', evolution (next_task_id (world m)) (consuming m o) (tasks (sched w)) ts' →
     evolution (next_task_id (world m)) (consuming m o) (tasks (sched (world m))) ts') →
  keeps_signals m o (commit c (w', cs) P).
Proof.
  intros HP Hn [cur Hcur] Hpre. destruct (prepare_tasks _ _ _ _ _ HP Hcur) as [Hn' _].
  assert (Ew : world (commit c (w', cs) P) = w') by (by destruct cs). unfold keeps_signals. rewrite Ew, Hn', Hn.
  split; [|done]. apply Hpre. by eapply prepare_evolution.
Qed.

Lemma deschedule_keeps m o c w0 w' cs cur f P :
  minv m → phases m !! c = Some Up → prepare_switch c w0 = Some (w', cs) →
  tasks (sched w0) = alter f cur (tasks (sched (world m))) → next_task_id w0 = next_task_id (world m) →
  current_slot (sched w0) = current_slot (sched (world m)) → current_slot (sched (world m)) !! c = Some cur →
  (∀ t, id (f t) = id t ∧ event_pending (f t) = event_pending t ∧ state (f t) ≠ Empty) →
  keeps_signals m o (commit c (w', cs) P).
Proof.
  intros M Hup HP Ets Hn Ec Hcur Hf. assert (Hcur0 : current_slot (sched w0) !! c = Some cur) by by rewrite Ec.
  destruct (prepare_tasks _ _ _ _ _ HP Hcur0) as [Hn' _].
  assert (Ew : world (commit c (w', cs) P) = w') by (by destruct cs). unfold keeps_signals. rewrite Ew, Hn', Hn.
  split; [|done]. apply (deschedule_evolution _ _ c _ w0 _ cs cur f); try done.
  intros t Ht. destruct (current_lookup m c M Hup) as (s & u & ? & ? & ?). congruence.
Qed.

Lemma keeps_yield m c m' :
  minv m → phases m !! c = Some Up → step m (Yield c) = Some m' → keeps_signals m (Yield c) m'.
Proof.
  intros M He Hs. cbn in Hs. unfold yield_now in Hs. destruct (_ =? 0); [done|]. destruct (prepare_switch c (world m)) as [[w' cs]|] eqn:HP; [|done].
  injection Hs as <-. apply (prepare_keeps m _ c (world m)); try done.
  destruct (current_lookup m c M He) as (? & ? & ? & _). by eexists.
Qed.

Lemma keeps_preempt m c suspended lock_free now m' :
  minv m → phases m !! c = Some Up → step m (Preempt c suspended lock_free now) = Some m' → keeps_signals m (Preempt c suspended lock_free now) m'.
Proof.
  intros M He Hs. cbn in Hs. unfold preempt_from_interrupt in Hs. destruct suspended; [injection Hs as <-; by apply keeps_tasks|].
  destruct (preempt (world m) !! c) as [[]|]; cbn [mbind option_bind negb] in Hs;
    [|injection Hs as <-; by apply keeps_tasks|done].
  destruct lock_free; cbn [negb] in Hs; [|injection Hs as <-; by apply keeps_tasks].
  destruct (prepare_switch c _) as [[w' cs]|] eqn:HP; [|done]. injection Hs as <-.
  apply (prepare_keeps m _ c _ _ _ _ HP); [done| |].
  + destruct (current_lookup m c M He) as (? & ? & ? & _). by eexists.
  + intros ts' HE. exact (wake_sleeping_evolution _ _ now _ _ HE).
Qed.

Lemma keeps_switch_stacks m c m' :
  minv m → step m (SwitchStacks c) = Some m' → keeps_signals m (SwitchStacks c) m'.
Proof.
  intros M Hs. cbn in Hs. destruct (current_slot _ !! c) as [s|]; [|done]. cbn [mbind option_bind] in Hs.
  destruct (tasks _ !! s); [|done]. injection Hs as <-. by apply keeps_tasks.
Qed.

Lemma keeps_finalize m c m' :
  minv m → step m (Finalize c) = Some m' → keeps_signals m (Finalize c) m'.
Proof.
  intros M Hs. cbn in Hs. unfold finalize_switch in Hs. destruct (switching_out _ !! c) as [out|]; [|done]. cbn [mbind option_bind] in Hs.
  case_bool_decide; [injection Hs as <-; by apply keeps_tasks|].
  destruct (current_slot _ !! c) as [cur|]; [|done]. cbn [mbind option_bind] in Hs.
  destruct (tasks _ !! out) as [t|] eqn:Ht; [|done]. cbn [mbind option_bind] in Hs. case_bool_decide; [done|].
  case_bool_decide as Hsw; cbn [negb] in Hs; [|done].
  assert (Hev : ∀ t', id t' = id t → event_pending t' = event_pending t → state t' ≠ Empty → ∀ P,
    evolves (next_task_id (world m)) P t t').
  { intros t' E1 E2 E3 P. unfold evolves, live. rewrite Hsw. cbn. rewrite E2. split_and!; auto. }
  destruct (termination_signal t =? 0); cbn [negb mbind option_bind] in Hs; injection Hs as <-;
    (eapply keeps_alter; [done|done|]); intros u Hu; simplify_eq; by apply Hev.
Qed.

Lemma keeps_block m c m' :
  minv m → may_block m c → step m (Block c) = Some m' → keeps_signals m (Block c) m'.
Proof.
  intros M He Hs. cbn in Hs. destruct (may_block_facts m c M He) as (s & t & Hup & Hsl & Hcur & Ht & _).
  unfold block_current in Hs. rewrite Hsl in Hs. cbn [mbind option_bind] in Hs.
  destruct (prepare_switch c _) as [[w' [cs|]]|] eqn:HP; try done. cbn in Hs. injection Hs as <-.
  by apply (deschedule_keeps m _ c _ w' (Some cs) s (set_state Blocked) m M Hup HP).
Qed.

Lemma keeps_sleep m c now ticks m' :
  minv m → may_block m c → step m (Sleep c now ticks) = Some m' → keeps_signals m (Sleep c now ticks) m'.
Proof.
  intros M He Hs. cbn in Hs. destruct (may_block_facts m c M He) as (s & t & Hup & Hsl & Hcur & Ht & _).
  unfold sleep_current in Hs. rewrite Hsl in Hs. cbn [mbind option_bind] in Hs.
  destruct (prepare_switch c _) as [[w' [cs|]]|] eqn:HP; try done. cbn in Hs. injection Hs as <-.
  by apply (deschedule_keeps m _ c _ w' (Some cs) s _ m M Hup HP eq_refl).
Qed.

Lemma keeps_wait m c now deadline m' :
  minv m → may_block m c → step m (Wait c now deadline) = Some m' → keeps_signals m (Wait c now deadline) m'.
Proof.
  intros M He Hs. cbn in Hs. destruct (may_block_facts m c M He) as (s & t & Hup & Hsl & Hcur & Ht & _ & Hrun & _).
  unfold wait_for_event_until in Hs. rewrite Hsl in Hs. cbn [mbind option_bind] in Hs. rewrite Ht in Hs. cbn [mbind option_bind] in Hs.
  destruct (event_pending t) eqn:Ep.
  { injection Hs as <-. eapply keeps_alter; [done|done|]. intros u Hu. simplify_eq. unfold evolves, live. cbn. rewrite Hrun. cbn.
    split_and!; try done. intros _. right. exists c, now, deadline. done. }
  destruct (_ && _); [injection Hs as <-; by apply keeps_tasks|].
  destruct (prepare_switch c _) as [[w' [cs|]]|] eqn:HP; try done. cbn in Hs. injection Hs as <-.
  by apply (deschedule_keeps m _ c _ w' (Some cs) s _ m M Hup HP eq_refl).
Qed.

Lemma keeps_exit m c m' :
  minv m → may_block m c → step m (Exit c) = Some m' → keeps_signals m (Exit c) m'.
Proof.
  intros M He Hs. cbn in Hs. destruct (may_block_facts m c M He) as (s & t & Hup & Hsl & Hcur & Ht & _).
  unfold exit_current_task in Hs. rewrite Hsl in Hs. cbn [mbind option_bind] in Hs.
  destruct (prepare_switch c _) as [[w' cs]|] eqn:HP; [|done]. injection Hs as <-.
  by apply (deschedule_keeps m _ c _ w' cs s (set_state Dead) m M Hup HP eq_refl).
Qed.

Lemma keeps_tick m c lock_free now m' :
  minv m → step m (Tick c lock_free now) = Some m' → keeps_signals m (Tick c lock_free now) m'.
Proof.
  intros M Hs. cbn in Hs. unfold tick in Hs. destruct lock_free; cbn [negb] in Hs; [|injection Hs as <-; by apply keeps_tasks].
  destruct (current_slot _ !! c) as [s|]; [|done]. cbn [mbind option_bind] in Hs.
  destruct (tasks _ !! s) as [t|] eqn:Ht; [|done]. cbn [mbind option_bind] in Hs. injection Hs as <-.
  assert (Hk : ∀ w', tasks (sched w') = alter (set_remaining_ticks (remaining_ticks t - 1)) s (tasks (sched (wake_sleeping now (world m)))) ∨
    tasks (sched w') = alter (set_remaining_ticks 0) s (tasks (sched (wake_sleeping now (world m)))) ∨
    tasks (sched w') = tasks (sched (wake_sleeping now (world m))) →
    evolution (next_task_id (world m)) (consuming m (Tick c true now)) (tasks (sched (world m))) (tasks (sched w'))).
  { intros w' Hw'. apply (wake_sleeping_evolution _ _ now).
    destruct Hw' as [->|[->| ->]]; [apply evolution_alter|apply evolution_alter|apply evolution_refl]; intros; by apply evolves_same. }
  destruct (negb _); [|destruct (1 <? _)]; (split; [|done]); apply Hk; auto.
Qed.

Lemma keeps_wake m c i m' :
  minv m → step m (Wake c i) = Some m' → keeps_signals m (Wake c i) m'.
Proof.
  intros M Hs. cbn in Hs. injection Hs as <-. unfold wake_task. destruct (position _ _) as [s|] eqn:E; [|by apply keeps_tasks].
  destruct (reschedule_tasks c (from_option cpu 0%nat (tasks (sched (world m)) !! s)) (update_task s make_ready (world m))) as [E1 E2].
  apply (keeps_alter _ _ _ s make_ready); [done..|]. apply position_lookup in E as (t & Ht & Hp).
  intros u Hu. simplify_eq. apply evolves_same. apply andb_true_iff in Hp as [_ Hp].
  rewrite orb_true_iff, !bool_decide_eq_true in Hp. split_and!; try done.
  by rewrite (live_at_rest t) by by apply waiting_at_rest.
Qed.

Lemma keeps_signal m c i m' :
  minv m → step m (Signal c i) = Some m' → keeps_signals m (Signal c i) m'.
Proof.
  intros M Hs. cbn in Hs. injection Hs as <-. unfold signal_event. destruct (position _ _) as [s|] eqn:E; [|by apply keeps_tasks].
  apply position_lookup in E as (t & Ht & _). rewrite Ht. case_bool_decide as Hb.
  + destruct (reschedule_tasks c (cpu t) (update_task s make_ready (world m))) as [E1 E2].
    apply (keeps_alter _ _ _ s make_ready); [done..|]. intros u Hu. simplify_eq. apply evolves_same.
    split_and!; try done. unfold live. cbn. by rewrite Hb.
  + apply (keeps_alter _ _ _ s (set_event_pending true)); [done..|]. intros u Hu. simplify_eq.
    unfold evolves. destruct (live t) eqn:El; [|cbn; unfold live in *; cbn; congruence].
    split_and!; try done; [|by left]. intros E. unfold live in El. cbn in E. by rewrite E in El.
Qed.

Lemma keeps_terminate m c i signal m' :
  minv m → step m (Terminate c i signal) = Some m' → keeps_signals m (Terminate c i signal) m'.
Proof.
  intros M Hs. cbn in Hs. injection Hs as <-. unfold request_termination.
  destruct (position _ _) as [s|] eqn:E; [|by apply keeps_tasks].
  apply position_lookup in E as (t & Ht & [_ Hl]%andb_true_iff). rewrite Ht.
  assert (Hne : state t ≠ Empty) by (intros E; unfold live in Hl; by rewrite E in Hl).
  set (dead := λ t, set_termination_signal 0 (set_name "terminated" (set_state Dead t))).
  assert (Hmark : keeps_signals m (Terminate c i signal)
    (set_world (update_task s (set_termination_signal signal) (world m)) m)).
  { apply (keeps_alter _ _ _ s (set_termination_signal signal)); [done..|].
    intros u Hu. simplify_eq. by apply evolves_same. }
  assert (Hdie : keeps_signals m (Terminate c i signal) (set_world (complete_process_termination i signal
    (retire_one (update_task s dead (update_task s (set_termination_signal signal) (world m))))) m)).
  { apply (keeps_alter _ _ _ s (dead ∘ set_termination_signal signal)); [cbn; by rewrite list_alter_alter_eq|done|].
    intros u Hu. simplify_eq. unfold evolves. rewrite Hl. cbn. auto. }
  by destruct (state t).
Qed.

Lemma keeps_spawn m nm e p m' :
  minv m → next_task_id (world m) < u64_max → step m (Spawn nm e p) = Some m' → keeps_signals m (Spawn nm e p) m'.
Proof.
  intros M Hn Hs. cbn in Hs. unfold spawn_with_priority in Hs. destruct (_ =? 0); [done|].
  destruct (free_slot (world m)) as [s|] eqn:E; cbn in Hs; injection Hs as <-; [|by apply keeps_tasks].
  apply free_slot_spec in E as (t & Ht & He).
  eapply (keeps_fresh _ _ _ s); try done. intros u Hu. simplify_eq. split; [unfold live; by rewrite He|done].
Qed.

Lemma keeps_spawn_on m c target nm e mig a m' :
  minv m → next_task_id (world m) < u64_max → step m (SpawnOn c target nm e mig a) = Some m' →
  keeps_signals m (SpawnOn c target nm e mig a) m'.
Proof.
  intros M Hn Hs. cbn in Hs. injection Hs as <-. unfold spawn_kernel_on. destruct (_ || _); [by apply keeps_tasks|].
  destruct (_ =? 0); [by apply keeps_tasks|].
  destruct (free_slot (world m)) as [s|] eqn:E; [|by apply keeps_tasks]. cbn.
  apply free_slot_spec in E as (t & Ht & He).
  match goal with |- context [reschedule_cpu c target ?x] => destruct (reschedule_tasks c target x) as [E1 E2] end.
  apply (keeps_fresh _ _ _ s (λ t, set_affinity_mask a (set_migratable mig (set_cpu target
    (initialize s (next_task_id (world m)) nm e NORMAL t))))); [done|done|cbn; by rewrite E1|cbn; by rewrite E2|].
  intros u Hu. simplify_eq. split; [unfold live; by rewrite He|done].
Qed.

Lemma reap_effect me w w1 :
  reap_dead me w = Some w1 → next_task_id w1 = next_task_id w ∧
  ∀ s t', tasks (sched w1) !! s = Some t' → ∃ t, tasks (sched w) !! s = Some t ∧
    (t' = t ∨ live t = false ∧ t' = tcb_empty).
Proof.
  unfold reap_dead. destruct (current_slot (sched w) !! me) as [cur|]; [|done]. cbn [mbind option_bind]. cbv zeta.
  destruct (revoke_each _ _) as [reg|]; [|done]. intros [= <-]. split; [done|]. intros s t' Ht'. cbn in Ht'.
  rewrite list_lookup_imap in Ht'. destruct (tasks (sched w) !! s) as [t|]; [|done].
  cbn in Ht'. injection Ht' as <-. exists t. split; [done|]. destruct (doomed me cur s t) eqn:E; [|by left].
  right. destruct (dead_doomed _ _ _ _ E) as (Hd & _). split; [unfold live; by rewrite Hd|done].
Qed.

Lemma reap_evolution nid P me w w1 :
  reap_dead me w = Some w1 → evolution nid P (tasks (sched w)) (tasks (sched w1)).
Proof.
  intros [_ H1]%reap_effect s t t' Ht Ht'. destruct (H1 s t' Ht') as (u & Hu & [->|[Hl ->]]); simplify_eq; [apply evolves_refl|].
  unfold evolves. by rewrite Hl.
Qed.

(** Reaping and filling a free slot. *)
Lemma install_evolution P me created init w w' r :
  install_user me created init w = Some (w', r) → 0 ≤ next_task_id w → next_task_id w < u64_max →
  (∀ slot i t, id (init slot i t) = i) →
  evolution (next_task_id w) P (tasks (sched w)) (tasks (sched w')) ∧ next_task_id w ≤ next_task_id w'.
Proof.
  intros HI H0 Hlt Hid. unfold install_user in HI. destruct (reap_dead me w) as [w1|] eqn:HR; [|done].
  cbn [mbind option_bind] in HI. destruct (reap_effect _ _ _ HR) as [En H1].
  pose proof (reap_evolution (next_task_id w) P _ _ _ HR) as E1.
  destruct (free_slot w1) as [slot|] eqn:Ef; [|injection HI as <- <-; by rewrite En].
  apply free_slot_spec in Ef as (t0 & Ht0 & He0). cbn [fresh_id] in HI.
  assert (Hn' : next_task_id w ≤ wrapping_add64 (next_task_id w1) 1) by (rewrite En, nid_succ; [lia|done..]).
  destruct created; cbn [negb] in HI; injection HI as <- <-; (split; [|done]); [|exact E1].
  intros s t t' Ht Ht'. cbn in Ht'. destruct (decide (s = slot)) as [->|Hne].
  - rewrite list_lookup_alter_eq, Ht0 in Ht'. injection Ht' as <-.
    destruct (H1 slot t0 Ht0) as (u & Hu & Hcase). rewrite Ht in Hu. injection Hu as <-.
    assert (Hl : live t = false) by (destruct Hcase as [->|[? _]]; [unfold live; by rewrite He0|done]).
    unfold evolves. rewrite Hl. intros _. by rewrite Hid.
  - rewrite list_lookup_alter_ne in Ht' by done. by apply (E1 s).
Qed.

Lemma validated_if_ok_some r w res : validated_if_ok r = Some (w, res) → r = Some (w, res).
Proof.
  unfold validated_if_ok. destruct r as [[w0 [x|x]]|]; [|cbn; by intros [= <- <-]|done].
  cbn. unfold validated. destruct (validate_affinity_invariants w0); [|done]. by intros [= <- <-].
Qed.

Lemma keeps_install m o c created init w' r m' :
  minv m → next_task_id (world m) < u64_max → install_user c created init (world m) = Some (w', r) →
  (∀ slot i t, id (init slot i t) = i) →
  tasks (sched (world m')) = tasks (sched w') → next_task_id (world m') = next_task_id w' → keeps_signals m o m'.
Proof.
  intros (I & _) Hn HI Hid E1 E2. unfold keeps_signals. rewrite E1, E2.
  apply (install_evolution _ c created init _ _ r); try done. apply I.
Qed.

Lemma keeps_spawn_user m c k nm ctx space created m' :
  minv m → next_task_id (world m) < u64_max → step m (SpawnUser c k nm ctx space created) = Some m' →
  keeps_signals m (SpawnUser c k nm ctx space created) m'.
Proof.
  intros M Hn Hs. cbn in Hs.
  assert (Hipi : ∀ (d : nat) w (r : result Z SpawnError), let w2 := (match r with
      | Ok _ => if bool_decide (d = c) then (w, r) else ((reschedule_cpu c d w).1, r) | Err _ => (w, r) end).1 in
    tasks (sched w2) = tasks (sched w) ∧ next_task_id w2 = next_task_id w).
  { intros d w [|]; cbn; [|done]. case_bool_decide; [done|]. apply reschedule_tasks. }
  destruct k as [|caps|target| |a].
  - destruct (spawn_user_process _ _ _ _ _ _) as [[w' r]|] eqn:E; [|done]. injection Hs as <-.
    by eapply keeps_install.
  - unfold spawn_user_system_service in Hs. destruct (negb _); [injection Hs as <-; by apply keeps_tasks|].
    destruct (install_user _ _ _ _) as [[w' r]|] eqn:E; [|done]. injection Hs as <-. by eapply keeps_install.
  - unfold spawn_pinned_user_process_on in Hs. destruct (negb _); [injection Hs as <-; by apply keeps_tasks|].
    destruct (validated_if_ok _) as [[w' r]|] eqn:E; [|done]. apply validated_if_ok_some in E. cbn [mbind option_bind] in Hs.
    destruct (Hipi target w' r) as [E1 E2]. destruct (match r with Ok _ => _ | Err _ => _ end) as [w2 r2].
    injection Hs as <-. by eapply keeps_install.
  - destruct (spawn_migratable_user_probe _ _ _ _ _ _) as [[w' r]|] eqn:E; [|done]. injection Hs as <-.
    apply validated_if_ok_some in E. by eapply keeps_install.
  - unfold spawn_multicore_user_process in Hs. destruct (_ || _); [injection Hs as <-; by apply keeps_tasks|].
    destruct (reap_dead c (world m)) as [w1|] eqn:HR; [|done]. cbn [mbind option_bind] in Hs.
    destruct (least_loaded_cpu_for_mask c a w1) as [owner|].
    + destruct (validated_if_ok _) as [[w' r]|] eqn:E; [|done]. apply validated_if_ok_some in E. cbn [mbind option_bind] in Hs.
      destruct (Hipi owner w' r) as [E1 E2]. destruct (match r with Ok _ => _ | Err _ => _ end) as [w2 r2].
      injection Hs as <-. by eapply keeps_install.
    + injection Hs as <-. destruct (reap_effect _ _ _ HR) as [En _].
      split; [by apply (reap_evolution _ _ c)|cbn; by rewrite En].
Qed.

Lemma keeps_fork_finish m c sn frame_size space created m' :
  minv m → next_task_id (world m) < u64_max → step m (ForkFinish c sn frame_size space created) = Some m' →
  keeps_signals m (ForkFinish c sn frame_size space created) m'.
Proof.
  intros M Hn Hs. cbn in Hs. destruct (fork_finish _ _ _ _ _ _) as [[w' r]|] eqn:E; [|done]. injection Hs as <-.
  apply validated_if_ok_some in E. by eapply keeps_install.
Qed.

Lemma keeps_migrate m c i target m' :
  minv m → step m (Migrate c i target) = Some m' → keeps_signals m (Migrate c i target) m'.
Proof.
  intros M Hs. cbn in Hs. unfold migrate_ready_task in Hs.
  destruct (negb _); [injection Hs as <-; by apply keeps_tasks|].
  destruct (find_task i (world m)) as [[s t]|]; [|injection Hs as <-; by apply keeps_tasks].
  destruct (negb _); [injection Hs as <-; by apply keeps_tasks|].
  destruct (_ =? 0); [injection Hs as <-; by apply keeps_tasks|].
  destruct (negb _); [injection Hs as <-; by apply keeps_tasks|].
  unfold validated in Hs. destruct (validate_affinity_invariants _); [|done]. cbn in Hs. injection Hs as <-.
  destruct (reschedule_tasks c target (update_task s (set_cpu target) (world m))) as [E1 E2].
  apply (keeps_alter _ _ _ s (set_cpu target)); [done..|]. intros u _. by apply evolves_same.
Qed.

Lemma keeps_set_affinity m c i a m' :
  minv m → step m (SetAffinity c i a) = Some m' → keeps_signals m (SetAffinity c i a) m'.
Proof.
  intros M Hs. cbn in Hs. unfold set_ready_task_affinity, set_affinity_seen in Hs.
  destruct (a =? 0); [injection Hs as <-; by apply keeps_tasks|].
  destruct (negb _); [injection Hs as <-; by apply keeps_tasks|].
  destruct (find_task i (world m)) as [[s t]|]; [|injection Hs as <-; by apply keeps_tasks].
  destruct (negb (migratable t)); [injection Hs as <-; by apply keeps_tasks|].
  destruct (negb (bool_decide _)); [injection Hs as <-; by apply keeps_tasks|].
  destruct (negb _).
  - unfold validated in Hs. destruct (validate_affinity_invariants _); [|done]. injection Hs as <-.
    apply (keeps_alter _ _ _ s (set_affinity_mask a)); [done..|]. intros u _. by apply evolves_same.
  - destruct (List.find _ _) as [d|]; [|done]. cbn [mbind option_bind] in Hs. unfold validated in Hs.
    destruct (validate_affinity_invariants _); [|done]. cbn in Hs. injection Hs as <-.
    match goal with |- context [reschedule_cpu c d ?x] => destruct (reschedule_tasks c d x) as [E1 E2] end.
    apply (keeps_alter _ _ _ s (set_cpu d ∘ set_affinity_mask a)); [|done|].
    + cbn. rewrite E1. cbn. by rewrite list_alter_alter_eq.
    + intros u _. by apply evolves_same.
Qed.

Lemma keeps_rebalance m c m' :
  minv m → step m (Rebalance c) = Some m' → keeps_signals m (Rebalance c) m'.
Proof.
  intros M Hs. cbn in Hs. unfold rebalance_once, rebalance_one in Hs.
  destruct (_ <? 2); [injection Hs as <-; by apply keeps_tasks|].
  destruct (best_move _ _) as [[[[s src] d] g]|]; [|injection Hs as <-; by apply keeps_tasks].
  destruct (tasks _ !! s) as [t|]; [|done]. cbn [mbind option_bind] in Hs. unfold validated in Hs.
  destruct (validate_affinity_invariants _); [|done]. cbn in Hs. injection Hs as <-.
  destruct (reschedule_tasks c d (update_task s (set_cpu d) (world m))) as [E1 E2].
  apply (keeps_alter _ _ _ s (set_cpu d)); [done..|]. intros u _. by apply evolves_same.
Qed.

Lemma keeps_evacuation m o m' target w' b :
  evacuate_cpu target (world m) = Some (w', b) → world m' = w' → keeps_signals m o m'.
Proof.
  intros (En & _ & HT)%evacuate_tasks <-. split; [by apply evolution_same|by rewrite En].
Qed.

Lemma keeps_prepare_offline m target m' :
  minv m → step m (PrepareOffline target) = Some m' → keeps_signals m (PrepareOffline target) m'.
Proof.
  intros M Hs. cbn in Hs. unfold prepare_cpu_offline in Hs.
  destruct (_ || _); [injection Hs as <-; by apply keeps_tasks|].
  destruct (evacuate_cpu target (world m)) as [[w' b]|] eqn:HE; [|done]. cbn [mbind option_bind] in Hs.
  destruct b; [unfold validated in Hs; destruct (validate_affinity_invariants _); [|done]|];
    injection Hs as <-; by eapply keeps_evacuation.
Qed.

Lemma keeps_checkpoint m c m' :
  minv m → phases m !! c = Some Up → step m (Checkpoint c) = Some m' → keeps_signals m (Checkpoint c) m'.
Proof.
  intros M Hup Hs. cbn in Hs. unfold offline_cpu_checkpoint in Hs.
  destruct (_ || _); [injection Hs as <-; by apply keeps_tasks|].
  destruct (current_lookup m c M Hup) as (cur & t & Hcur & Ht & Hl). rewrite Hcur in Hs. cbn [mbind option_bind] in Hs.
  rewrite Ht in Hs. cbn [mbind option_bind] in Hs. destruct (_ || _); [injection Hs as <-; by apply keeps_tasks|].
  destruct (evacuate_cpu c (world m)) as [[w' b]|] eqn:HE; [|done]. cbn [mbind option_bind] in Hs.
  destruct b; [unfold validated in Hs; destruct (validate_affinity_invariants _); [|done]|];
    injection Hs as <-; [|by eapply keeps_evacuation].
  destruct (evacuate_tasks _ _ _ _ HE) as (En & _ & HT). split; [|cbn; by rewrite En].
  intros s u u' Hu Hu'. cbn in Hu'. destruct (decide (s = cur)) as [->|Hne].
  - rewrite list_lookup_alter_eq in Hu'. destruct (tasks (sched w') !! cur) as [v|] eqn:Hv; [|done].
    injection Hu' as <-. destruct (HT cur v Hv) as (v0 & Hv0 & (Hid & Hp & _)). simplify_eq.
    unfold evolves. rewrite Hl. cbn. rewrite Hid, Hp. auto.
  - rewrite list_lookup_alter_ne in Hu' by done. destruct (HT s u' Hu') as (v & Hv & Hsame). simplify_eq.
    by apply evolves_same.
Qed.

Lemma keeps_init_ap m c m' :
  minv m → next_task_id (world m) < u64_max → step m (InitAp c) = Some m' → keeps_signals m (InitAp c) m'.
Proof.
  intros M Hn Hs. cbn in Hs. unfold init_ap in Hs. destruct (free_slot (world m)) as [s|] eqn:E; [|done].
  cbn in Hs. injection Hs as <-. apply free_slot_spec in E as (t & Ht & He).
  eapply (keeps_fresh _ _ _ s); try done. intros u Hu. simplify_eq. split; [unfold live; by rewrite He|done].
Qed.

Lemma keeps_rejoin m c m' :
  minv m → next_task_id (world m) < u64_max → step m (Rejoin c) = Some m' → keeps_signals m (Rejoin c) m'.
Proof.
  intros M Hn Hs. cbn in Hs. unfold online_cpu_checkpoint in Hs.
  destruct (_ || _) in Hs; [injection Hs as <-; by apply keeps_tasks|].
  destruct (position _ _) as [s|] eqn:E; [|injection Hs as <-; by apply keeps_tasks].
  apply position_lookup in E as (t & Ht & Hd). cbv zeta in Hs. cbn [fresh_id] in Hs. unfold validated in Hs.
  destruct (validate_affinity_invariants _); [|done]. injection Hs as <-.
  eapply (keeps_fresh _ _ _ s); try done. intros u Hu. simplify_eq. split; [|done].
  rewrite orb_true_iff, andb_true_iff, !bool_decide_eq_true in Hd. unfold live.
  by destruct Hd as [->|[-> _]].
Qed.

Lemma step_keeps m o m' : minv m → enabled m o → step m o = Some m' → keeps_signals m o m'.
Proof.
  intros M He Hs. destruct o; cbn in He.
  - by apply keeps_yield.
  - by apply keeps_preempt.
  - by apply keeps_switch_stacks.
  - by apply keeps_finalize.
  - by apply keeps_block.
  - by apply keeps_sleep.
  - by apply keeps_wait.
  - by apply keeps_exit.
  - by apply keeps_tick.
  - by apply keeps_wake.
  - by apply keeps_signal.
  - by apply keeps_terminate.
  - destruct He as (_ & _ & ?). by apply keeps_spawn.
  - destruct He as (_ & _ & _ & ?). by apply keeps_spawn_on.
  - destruct He as (_ & _ & ? & _). by apply keeps_spawn_user.
  - cbn in Hs. destruct (fork_begin _ _); [|done]. injection Hs as <-. by apply keeps_tasks.
  - destruct He as (_ & _ & ? & _). by apply keeps_fork_finish.
  - by apply keeps_migrate.
  - by apply keeps_set_affinity.
  - by apply keeps_rebalance.
  - by apply keeps_prepare_offline.
  - injection Hs as <-. by apply keeps_tasks.
  - destruct He. by apply keeps_checkpoint.
  - injection Hs as <-. by apply keeps_tasks.
  - injection Hs as <-. by apply keeps_tasks.
  - injection Hs as <-. by apply keeps_tasks.
  - injection Hs as <-. by apply keeps_tasks.
  - injection Hs as <-. by apply keeps_tasks.
  - destruct He as (_ & _ & _ & ?). by apply keeps_init_ap.
  - destruct He as (_ & _ & ?). by apply keeps_rejoin.
Qed.

(** ** Executions *)

(** Some steps of a run, none of which is a wait by the task with id [i]. *)
Inductive without_wait (i : Z) : Machine → Machine → Prop :=
  | ww_refl m : without_wait i m m
  | ww_step m o m1 m2 :
      enabled m o → step m o = Some m1 →
      (∀ s t, consuming m o s → tasks (sched (world m)) !! s = Some t → id t ≠ i) →
      without_wait i m1 m2 → without_wait i m m2.

(** The signal of task [i] is pending, or the task is gone for good. *)
Definition latched (i : Z) (m : Machine) : Prop :=
  i < next_task_id (world m) ∧
  ((∃ s t, tasks (sched (world m)) !! s = Some t ∧ live t = true ∧ id t = i ∧ event_pending t = true) ∨
   (∀ s t, tasks (sched (world m)) !! s = Some t → live t = true → id t ≠ i)).

Lemma same_slots m m' : minv m → minv m' →
  ∀ s t, tasks (sched (world m')) !! s = Some t → is_Some (tasks (sched (world m)) !! s).
Proof.
  intros (I & _) (I' & _) s t Ht. apply lookup_lt_is_Some_2.
  rewrite (i_tasks _ _ _ _ _ _ _ _ I), <-(i_tasks _ _ _ _ _ _ _ _ I'). by eapply lookup_lt_Some.
Qed.

Lemma latched_step i m o m' :
  is_Some kernel_address_space → sound m → enabled m o → step m o = Some m' →
  (∀ s t, consuming m o s → tasks (sched (world m)) !! s = Some t → id t ≠ i) →
  latched i m → latched i m'.
Proof.
  intros Hk S He Hs Hnc [Hlt HL]. pose proof S as [M _]. destruct (step_keeps m o m' M He Hs) as [HE Hn].
  assert (M' : minv m') by (destruct (step_safe Hk m o S He) as (m1 & ? & [? _]); congruence).
  split; [lia|]. destruct HL as [(s & t & Ht & Hl & Hid & Hp)|Hnone].
  - destruct (same_slots m' m M' M s t Ht) as [t' Ht'].
    pose proof (HE s t t' Ht Ht') as Ev. unfold evolves in Ev. rewrite Hl in Ev.
    destruct Ev as (Hid' & Hne & Hpend). destruct (Hpend Hp) as [Hp'|Hc]; [|by destruct (Hnc s t Hc Ht)].
    destruct (live t') eqn:Hl'; [left; exists s, t'; split_and!; try done; congruence|].
    right. intros s2 t2 Ht2 Hl2 Hid2. destruct M' as (I' & _).
    assert (s2 = s) as ->; [|congruence].
    apply (i_ids _ _ _ _ _ _ _ _ I' s2 s t2 t'); [done..| |done|congruence].
    intros E. unfold live in Hl2. by rewrite E in Hl2.
  - right. intros s t' Ht' Hl' Hid'. destruct (same_slots m m' M M' s t' Ht') as [t Ht].
    pose proof (HE s t t' Ht Ht') as Ev. unfold evolves in Ev. destruct (live t) eqn:Hl.
    + destruct Ev as (Hid & _). apply (Hnone s t Ht Hl). congruence.
    + specialize (Ev Hl'). lia.
Qed.

Lemma latched_run i m m' :
  is_Some kernel_address_space → without_wait i m m' → sound m → latched i m → minv m' ∧ latched i m'.
Proof.
  intros Hk. induction 1 as [m|m o m1 m2 He Hs Hnc _ IH]; intros M HL; [by destruct M|].
  assert (M1 : sound m1) by (destruct (step_safe Hk m o M He) as (mm & ? & ?); congruence).
  apply IH; [done|]. by apply (latched_step i m o).
Qed.

(** C3. No event signal is lost. When [signal_event] reports success for a live task,
    either the task was blocked and is [Ready] from then on, its deadline cleared; or
    the signal is latched: however the execution continues - preemptions, migrations,
    hotplug, other signals and waits, in any interleaving - when the task itself next
    calls [wait_for_event_until], with any deadline, the call returns at once without
    blocking. *)
Theorem signal_never_lost (m : Machine) (c : nat) (i : Z) (s : nat) (t : Tcb) :
  is_Some kernel_address_space → reachable m → phases m !! c = Some Up →
  tasks (sched (world m)) !! s = Some t → live t = true → id t = i →
  let w1 := (signal_event c i (world m)).1 in
  (signal_event c i (world m)).2 = true ∧
  (state t = Blocked → ∃ t1, tasks (sched w1) !! s = Some t1 ∧ id t1 = i ∧ state t1 = Ready ∧ event_deadline t1 = None) ∧
  (state t ≠ Blocked → ∀ m' c' s' t' now deadline,
     without_wait i (set_world w1 m) m' → may_block m' c' →
     current_slot (sched (world m')) !! c' = Some s' → tasks (sched (world m')) !! s' = Some t' → id t' = i →
     wait_for_event_until c' now deadline (world m') =
       Some (update_task s' (set_event_pending false) (world m'), None)).
Proof.
  intros Hk Hr Hup Ht Hl Hid. cbv zeta. pose proof (reachable_minv m Hk Hr) as M. pose proof M as (I & _).
  assert (Hne : state t ≠ Empty) by (intros E; unfold live in Hl; by rewrite E in Hl).
  assert (Hpos : position (λ t, (id t =? i) && negb (bool_decide (state t = Empty))) (tasks (sched (world m))) = Some s).
  { apply (position_unique _ _ _ t); [done| |].
    - rewrite Hid, Z.eqb_refl, bool_decide_false by done. done.
    - intros j u Hu [Hui%Z.eqb_eq Hue%negb_true_iff%bool_decide_eq_false]%andb_true_iff.
      apply (i_ids _ _ _ _ _ _ _ _ I j s u t); try done. congruence. }
  unfold signal_event. rewrite Hpos, Ht. split_and!.
  - by case_bool_decide.
  - intros Hb. rewrite bool_decide_true by done.
    destruct (reschedule_tasks c (cpu t) (update_task s make_ready (world m))) as [E1 _]. cbn [fst].
    rewrite E1. exists (make_ready t). cbn. rewrite list_lookup_alter_eq, Ht. done.
  - intros Hb m' c' s' t' now deadline Hrun HB Hs' Ht' Hid'. rewrite bool_decide_false in Hrun by done. cbn [fst] in Hrun.
    set (m1 := set_world _ m) in Hrun.
    assert (M1 : sound m1).
    { split; [by apply (winv_cosmetic _ _ _ _ t)|]. by apply (reachable_sound m Hk Hr). }
    assert (L1 : latched i m1).
    { split; [subst i; by apply (ti_id _ _ _ _ _ _ _ (i_task _ _ _ _ _ _ _ _ I s t Ht))|].
      left. exists s, (set_event_pending true t). split_and!; try done. cbn. by rewrite list_lookup_alter_eq, Ht. }
    destruct (latched_run i m1 m' Hk Hrun M1 L1) as [M' [_ L']].
    destruct (may_block_facts m' c' M' HB) as (s0 & t0 & _ & Hslot & Hs0 & Ht0 & _ & Hrun0 & _).
    rewrite Hs' in Hs0. injection Hs0 as <-. rewrite Ht' in Ht0. injection Ht0 as <-.
    unfold wait_for_event_until. rewrite Hslot. cbn [mbind option_bind]. rewrite Ht'. cbn [mbind option_bind].
    assert (Hl' : live t' = true) by (unfold live; by rewrite Hrun0).
    destruct L' as [(s2 & t2 & Ht2 & Hl2 & Hid2 & Hp2)|Hnone]; [|by destruct (Hnone s' t' Ht' Hl')].
    destruct M' as (I' & _).
    assert (s2 = s') as ->.
    { apply (i_ids _ _ _ _ _ _ _ _ I' s2 s' t2 t'); [done..| | |congruence]; intros E;
        [unfold live in Hl2; by rewrite E in Hl2|unfold live in Hl'; by rewrite E in Hl']. }
    assert (t2 = t') as -> by congruence. by rewrite Hp2.
Qed.

End latch.

#[local] Existing Instance demo_platform.

Definition signalled : World := (signal_event 0 3 (world (demo worker_running))).1.

Lemma signalled_eq : signalled = (signal_event 0 3 (world (demo worker_running))).1.
Proof. unfold signalled. reflexivity. Qed.

Lemma worker_before : ∃ t, tasks (sched (world (demo worker_running))) !! 3%nat = Some t ∧
  live t = true ∧ id t = 3 ∧ state t ≠ Blocked.
Proof. eexists. vm_compute. split_and!; (reflexivity || discriminate). Qed.

Lemma worker_after : ∃ t, tasks (sched signalled) !! 3%nat = Some t ∧ id t = 3 ∧ id t ≠ KERNEL_TASK_ID ∧
  is_idle_name (name t) = false ∧ current_slot (sched signalled) !! 1%nat = Some 3%nat.
Proof. eexists. vm_compute. split_and!; (reflexivity || discriminate). Qed.

Lemma demo_kernel_space : is_Some kernel_address_space.
Proof. by eexists. Qed.

Lemma both_up : phases (demo worker_running) !! 0%nat = Some Up ∧ phases (demo worker_running) !! 1%nat = Some Up.
Proof. vm_compute. done. Qed.

(** The wait of CPU 1 right after the signal, for any machine with these facts. *)
Lemma wait_after_signal (m : Machine) (w1 w2 : World) (t : Tcb) :
  (∀ m' c' s' t' now deadline, without_wait 3 (set_world w1 m) m' → may_block m' c' →
     current_slot (sched (world m')) !! c' = Some s' → tasks (sched (world m')) !! s' = Some t' → id t' = 3 →
     wait_for_event_until c' now deadline (world m') =
       Some (update_task s' (set_event_pending false) (world m'), None)) →
  w2 = w1 → phases m !! 1%nat = Some Up → current_slot (sched w2) !! 1%nat = Some 3%nat →
  tasks (sched w2) !! 3%nat = Some t → id t = 3 → id t ≠ KERNEL_TASK_ID → is_idle_name (name t) = false →
  wait_for_event_until 1 500 u64_max w2 = Some (update_task 3 (set_event_pending false) w2, None).
Proof.
  intros HW -> Hp Hc Ht Hid Hk Hn.
  apply (HW (set_world w1 m) 1%nat 3%nat t 500 u64_max); [apply ww_refl| |done..].
  split; [done|]. by exists 3%nat, t.
Qed.

Lemma signal_never_lost_witness :
  wait_for_event_until 1 500 u64_max signalled = Some (update_task 3 (set_event_pending false) signalled, None).
Proof.
  destruct worker_before as (t & Ht & Hl & Hid & Hnb). destruct worker_after as (t1 & Ht1 & Hid1 & Hk1 & Hn1 & Hc1).
  destruct (signal_never_lost (demo worker_running) 0 3 3 t demo_kernel_space worker_running_reachable
    (proj1 both_up) Ht Hl Hid) as (_ & _ & HW).
  exact (wait_after_signal (demo worker_running) (signal_event 0 3 (world (demo worker_running))).1 signalled t1
    (HW Hnb) signalled_eq (proj2 both_up) Hc1 Ht1 Hid1 Hk1 Hn1).
Defined.

End SchedLatch.
