(* ===== verification/SchedulerRaces.v ===== *)
(** * What the scheduler lock does not cover (kernel/src/task.rs, kernel/src/smp.rs)

    The hand-off of task stacks, as a ghost invariant over all executions, and the window
    it leaves to tasks that block; placements that were read before a CPU left and are
    used after it. *)
From S2P Require Import Prelude Capability WovenGuard SecurityLedger Lineage LineageService TaskControl Scheduler SchedulerInv SchedulerLife SchedulerSteps SchedulerProofs SchedulerLatch.

Module SchedRaces.
Import Smp Task Sched Machine SchedInv SchedLife SchedSteps SchedProofs.

Section stacks.
Context `{Platform}.

(** Slot [s] holds a task called [n]. *)
Definition named (w : World) (s : nat) (n : string) : Prop := ∃ t, tasks (sched w) !! s = Some t ∧ name t = n.

(** CPU [c] keeps its current task, with its name, and its outgoing slot. *)
Definition kept (w w' : World) (c : nat) : Prop :=
  current_slot (sched w') !! c = current_slot (sched w) !! c ∧
  switching_out (sched w') !! c = switching_out (sched w) !! c ∧
  ∀ s t, current_slot (sched w) !! c = Some s → tasks (sched w) !! s = Some t → state t = Running → cpu t = c →
    named w' s (name t).

Lemma named_alter w s n k f : (∀ t, name (f t) = name t) → named w s n → named (update_task k f w) s n.
Proof.
  intros Hf (t & Ht & <-). destruct (decide (s = k)) as [->|Hne].
  - exists (f t). cbn. by rewrite list_lookup_alter_eq, Ht.
  - exists t. cbn. by rewrite list_lookup_alter_ne.
Qed.

Lemma kept_tasks w w' c : sched w' = sched w → kept w w' c.
Proof. intros E. unfold kept, named. rewrite E. split_and!; eauto. Qed.

Lemma kept_alter w w' c k f :
  current_slot (sched w') = current_slot (sched w) → switching_out (sched w') = switching_out (sched w) →
  tasks (sched w') = alter f k (tasks (sched w)) →
  (∀ t, tasks (sched w) !! k = Some t → state t = Running → name (f t) = name t) → kept w w' c.
Proof.
  intros E1 E2 E3 Hf. split_and!; [by rewrite E1|by rewrite E2|]. intros s t Hs Ht Hr _. unfold named. rewrite E3.
  destruct (decide (s = k)) as [->|Hne].
  - exists (f t). rewrite list_lookup_alter_eq, Ht. auto.
  - exists t. by rewrite list_lookup_alter_ne.
Qed.

Lemma reschedule_sched me c w : sched (reschedule_cpu me c w).1 = sched w.
Proof. unfold reschedule_cpu. destruct (negb _); [done|]. by case_bool_decide. Qed.

Lemma reap_named me w w' :
  reap_dead me w = Some w' →
  current_slot (sched w') = current_slot (sched w) ∧ switching_out (sched w') = switching_out (sched w) ∧
  ∀ s t, tasks (sched w) !! s = Some t → state t ≠ Dead ∨ current_slot (sched w) !! me = Some s → named w' s (name t).
Proof.
  unfold reap_dead. destruct (current_slot (sched w) !! me) as [cur|] eqn:Hcur; [|done]. cbn [mbind option_bind]. cbv zeta.
  destruct (revoke_each _ _); [|done]. intros [= <-]. split_and!; [done..|].
  intros s t Ht Hd. exists t. cbn. rewrite list_lookup_imap, Ht. cbn. split; [|done]. f_equal. unfold doomed.
  destruct Hd as [Hd|[= ->]]; [by rewrite (bool_decide_false (state t = Dead)), andb_false_r|by rewrite bool_decide_true].
Qed.

(** What [prepare_switch] does to the other CPUs and to its own outgoing slot. *)
Lemma prepare_named me w w' cs :
  prepare_switch me w = Some (w', cs) →
  (∀ c, c ≠ me ∨ cs = None → current_slot (sched w') !! c = current_slot (sched w) !! c ∧
     switching_out (sched w') !! c = switching_out (sched w) !! c) ∧
  (switching_out (sched w') !! me = switching_out (sched w) !! me ∨
   ∃ s, current_slot (sched w) !! me = Some s ∧ switching_out (sched w') !! me = Some s) ∧
  ∀ s t, tasks (sched w) !! s = Some t → state t ≠ Dead ∨ current_slot (sched w) !! me = Some s → named w' s (name t).
Proof.
  unfold prepare_switch. destruct (reap_dead me w) as [w1|] eqn:HR; [|done]. cbn [mbind option_bind].
  destruct (reap_named _ _ _ HR) as (E1 & E2 & N1). unfold validated. destruct (validate_affinity_invariants w1); [|done].
  destruct (best_priority me _) as [best|].
  2:{ intros [= <- <-]. split_and!; [intros; by rewrite E1, E2|left; by rewrite E2|done]. }
  destruct (last_selected _ !! me) as [row|]; [|done]. cbn [mbind option_bind].
  destruct (row !! _) as [start|]; [|done]. cbn [mbind option_bind].
  destruct (next_slot me _ start best) as [next|].
  2:{ intros [= <- <-]. split_and!; [intros; by rewrite E1, E2|left; by rewrite E2|done]. }
  destruct (tasks _ !! next) as [tn|]; [|done]. cbn [mbind option_bind].
  destruct (address_space tn); [|done]. cbn [mbind option_bind].
  cbn [current_slot sched set_last_selected set_sched tasks]. rewrite E1.
  destruct (current_slot (sched w) !! me) as [cur|] eqn:Hcur; [|done]. cbn [mbind option_bind].
  destruct (tasks _ !! cur) as [tc|]; [|done]. cbn [mbind option_bind].
  destruct (bool_decide (state tc = Running)).
  - destruct (switching_out _ !! me) as [pend|] eqn:Hp; [|done]. cbn [mbind option_bind].
    destruct (bool_decide (pend = MAX_TASKS)); [|done]. cbn [mbind option_bind]. intros [= <- <-]. split_and!.
    + intros c [Hc|?]; [|done]. cbn. rewrite !list_lookup_insert_ne by done. by rewrite E1, E2.
    + right. exists cur. split; [done|]. cbn in *. apply list_lookup_insert_eq. by eapply lookup_lt_Some.
    + intros s t Ht Hd. apply (named_alter (set_switching_out _ _ _)); [done|]. apply (named_alter (set_last_selected _ _ _ w1)); [done|].
      by apply N1.
  - cbn [mbind option_bind]. intros [= <- <-]. split_and!.
    + intros c [Hc|?]; [|done]. cbn. rewrite !list_lookup_insert_ne by done. by rewrite E1, E2.
    + left. cbn. by rewrite E2.
    + intros s t Ht Hd. apply (named_alter (set_last_selected _ _ _ w1)); [done|]. by apply N1.
Qed.

(** Where each CPU executes. In the middle of a hand-off it is still on the stack of the
    outgoing task, which is in [switching_out], unless that task was not [Running] any
    more when it left. *)
Definition on_stack (w : World) (sts : list (option nat)) (c : nat) (p : phase) : Prop :=
  match p with
  | Up | Arrived => ∃ s t, current_slot (sched w) !! c = Some s ∧ tasks (sched w) !! s = Some t ∧
      sts !! c = Some (context_stack c s t)
  | Handoff => ∃ o, sts !! c = Some o ∧
      ∀ s, o = Some s → switching_out (sched w) !! c = Some s ∨ switching_out (sched w) !! c = Some MAX_TASKS
  | _ => sts !! c = Some None
  end.

Definition ginv (m : Machine) : Prop := ∀ c p, phases m !! c = Some p → on_stack (world m) (stacks m) c p.

Lemma on_stack_kept m w' c p :
  minv m → phases m !! c = Some p → kept (world m) w' c →
  on_stack (world m) (stacks m) c p → on_stack w' (stacks m) c p.
Proof.
  intros (I & _) Hp (E1 & E2 & E3).
  assert (Hcur : is_up (phases m) c →
    (∃ s t, current_slot (sched (world m)) !! c = Some s ∧ tasks (sched (world m)) !! s = Some t ∧
       stacks m !! c = Some (context_stack c s t)) →
    ∃ s t, current_slot (sched w') !! c = Some s ∧ tasks (sched w') !! s = Some t ∧ stacks m !! c = Some (context_stack c s t)).
  { intros Hup (s & t & Hs & Ht & Hst).
    destruct (i_current _ _ _ _ _ _ _ _ I c Hup) as (s1 & t1 & Hs1 & Ht1 & Hr & Hc); [done|].
    rewrite Hs in Hs1. injection Hs1 as <-. rewrite Ht in Ht1. injection Ht1 as <-.
    destruct (E3 s t Hs Ht Hr Hc) as (t' & Ht' & Hn). exists s, t'. rewrite E1. split_and!; [done..|].
    rewrite Hst. unfold context_stack. by rewrite Hn. }
  destruct p; cbn; try done; try (apply Hcur; unfold is_up; rewrite Hp; auto).
  intros (o & Ho & Hs). exists o. split; [done|]. intros s E. rewrite E2. auto.
Qed.

Lemma ginv_kept m m' :
  minv m → ginv m → phases m' = phases m → stacks m' = stacks m → (∀ c, kept (world m) (world m') c) → ginv m'.
Proof. intros M G Ep Es K c p. rewrite Ep, Es. intros Hp. apply on_stack_kept with (p := p); auto. Qed.

Lemma ginv_phase m m' c0 p0 :
  minv m → ginv m → phases m' = <[c0 := p0]> (phases m) → stacks m' = stacks m →
  (∀ c, c ≠ c0 → kept (world m) (world m') c) → on_stack (world m') (stacks m) c0 p0 → ginv m'.
Proof.
  intros M G Ep Es K O c p. rewrite Ep, Es. intros [[<- ->]|[Hne Hp]]%lookup_insert_cases; [done|].
  apply on_stack_kept with (p := p); auto.
Qed.

(** A reschedule from [w0], reached from the machine's world by changing the state of the
    current task. *)
Lemma ginv_commit m c w0 w' cs :
  minv m → ginv m → phases m !! c = Some Up → prepare_switch c w0 = Some (w', cs) →
  current_slot (sched w0) = current_slot (sched (world m)) → switching_out (sched w0) = switching_out (sched (world m)) →
  (∀ s t, tasks (sched (world m)) !! s = Some t → ∃ t0, tasks (sched w0) !! s = Some t0 ∧ name t0 = name t ∧
     (state t = Running → state t0 ≠ Dead ∨ current_slot (sched (world m)) !! c = Some s)) →
  ginv (commit c (w', cs) m).
Proof.
  intros M G Hup HP Ec Es Hts. destruct (prepare_named _ _ _ _ HP) as (E & Hsw & N). rewrite Ec, Es in *.
  assert (K : ∀ k, k ≠ c ∨ cs = None → kept (world m) w' k).
  { intros k Hk. destruct (E k Hk) as [E1 E2]. split_and!; [done..|]. intros s t Hs Ht Hr _.
    destruct (Hts s t Ht) as (t0 & Ht0 & <- & Hd). apply (N s t0 Ht0). auto. }
  destruct cs as [cs|]; cbn.
  - apply (ginv_phase m _ c Handoff); try done; [intros; apply K; auto|].
    destruct (G c Up Hup) as (s & t & Hs & Ht & Hst). exists (context_stack c s t). split; [done|].
    intros s' Hs'. assert (s' = s) as -> by (unfold context_stack in Hs'; by destruct (_ && _); simplify_eq).
    destruct M as (I & _). cbn. destruct Hsw as [->|(s2 & Hs2 & ->)]; [right; by eapply up_slot_clear|left; congruence].
  - apply (ginv_kept m); try done. intros k. apply K. auto.
Qed.

(** The current task of [c] changes its state. *)
Lemma deschedule_names w c s f :
  current_slot (sched w) !! c = Some s → (∀ t, name (f t) = name t) →
  ∀ j t, tasks (sched w) !! j = Some t → ∃ t0, alter f s (tasks (sched w)) !! j = Some t0 ∧ name t0 = name t ∧
    (state t = Running → state t0 ≠ Dead ∨ current_slot (sched w) !! c = Some j).
Proof.
  intros Hs Hf j t Ht. destruct (decide (j = s)) as [->|Hne].
  - exists (f t). rewrite list_lookup_alter_eq, Ht. auto.
  - exists t. rewrite list_lookup_alter_ne by done. split_and!; [done..|]. intros ->. auto.
Qed.

Lemma evacuate_kept target w w' b : evacuate_cpu target w = Some (w', b) → ∀ c, kept w w' c.
Proof.
  unfold evacuate_cpu. destruct (current_slot _ !! target); [|done]. cbn [mbind option_bind].
  destruct (mapM _ _) as [chs|] eqn:Em; intros [= <- <-] c; [|by apply kept_tasks].
  split_and!; [done..|]. intros s t Hs Ht Hr _. apply mapM_Some in Em. pose proof (Forall2_length _ _ _ Em) as Hlen.
  rewrite length_imap in Hlen. destruct (lookup_lt_is_Some_2 chs s) as [ch Hch].
  { rewrite <-Hlen. by eapply lookup_lt_Some. }
  exists (apply_change t ch). cbn. split; [|by destruct ch as [[? ?]|]].
  apply lookup_zip_with_Some. exists t, ch. auto.
Qed.

(** Filling a free slot changes no current task. *)
Lemma kept_fill w w1 w' c k f :
  (∀ s t, current_slot (sched w) !! c = Some s → tasks (sched w) !! s = Some t → state t = Running →
     tasks (sched w1) !! s = Some t) →
  current_slot (sched w') !! c = current_slot (sched w) !! c → switching_out (sched w') = switching_out (sched w) →
  tasks (sched w') = alter f k (tasks (sched w1)) →
  (∀ t, tasks (sched w1) !! k = Some t → state t ≠ Running) → kept w w' c.
Proof.
  intros H1 E1 E2 E3 Hk. split_and!; [done|by rewrite E2|]. intros s t Hs Ht Hr. exists t. split; [|done].
  rewrite E3, list_lookup_alter_ne; [by apply H1|]. intros ->. by apply (Hk t (H1 s t Hs Ht Hr)).
Qed.

Lemma install_kept me created init w w' r c : install_user me created init w = Some (w', r) → kept w w' c.
Proof.
  unfold install_user. destruct (reap_dead me w) as [w1|] eqn:HR; [|done]. cbn [mbind option_bind].
  destruct (reap_named _ _ _ HR) as (E1 & E2 & N1).
  assert (H1 : ∀ s t, tasks (sched w) !! s = Some t → state t = Running → tasks (sched w1) !! s = Some t).
  { intros s t Ht Hr. destruct (SchedLatch.reap_effect _ _ _ HR) as [_ HE].
    destruct (N1 s t Ht) as (t1 & Ht1 & _); [left; by rewrite Hr|].
    destruct (HE s t1 Ht1) as (u & Hu & [->|[Hl _]]); simplify_eq; [done|]. unfold live in Hl. by rewrite Hr in Hl. }
  assert (K1 : ∀ w2, sched w2 = sched w1 → kept w w2 c).
  { intros w2 E. split_and!; [by rewrite E, E1|by rewrite E, E2|]. intros s t Hs Ht Hr _. exists t. rewrite E. auto. }
  destruct (free_slot w1) as [slot|] eqn:Ef; [|intros [= <- <-]; by apply K1].
  apply free_slot_spec in Ef as (t0 & Ht0 & He0). cbn [fresh_id].
  destruct created; cbn [negb]; intros [= <- <-]; [|by apply K1].
  apply (kept_fill w w1 _ c slot (init slot (next_task_id w1))); cbn; try done; [intros; by apply H1|by rewrite E1|].
  intros t Ht. by simplify_eq; rewrite He0.
Qed.

Lemma kept_sched w w1 w2 c : kept w w1 c → sched w2 = sched w1 → kept w w2 c.
Proof. intros (? & ? & ?) E. unfold kept, named. rewrite E. done. Qed.

Lemma kept_trans_sched w w1 w2 c : sched w1 = sched w → kept w1 w2 c → kept w w2 c.
Proof. intros E (? & ? & ?). unfold kept, named in *. rewrite <-E. done. Qed.

(** Operations that leave phases and stacks alone. *)
Lemma ginv_world m w' : minv m → ginv m → (∀ c, kept (world m) w' c) → ginv (set_world w' m).
Proof. intros M G K. by apply (ginv_kept m). Qed.

Lemma ipi_sched c d w (r : result Z SpawnError) :
  sched (match r with Ok _ => if bool_decide (d = c) then (w, r) else ((reschedule_cpu c d w).1, r) | Err _ => (w, r) end).1
  = sched w.
Proof. destruct r; [|done]. case_bool_decide; [done|]. apply reschedule_sched. Qed.

Lemma spawn_user_kept m c k nm ctx space created m' :
  step m (SpawnUser c k nm ctx space created) = Some m' → ∃ w', m' = set_world w' m ∧ ∀ d, kept (world m) w' d.
Proof.
  intros Hs. cbn in Hs. destruct k as [|caps|target| |a].
  - destruct (spawn_user_process _ _ _ _ _ _) as [[w' r]|] eqn:E; [|done]. injection Hs as <-. exists w'. split; [done|].
    intros d. by eapply install_kept.
  - unfold spawn_user_system_service in Hs. destruct (negb _).
    { injection Hs as <-. eexists. split; [done|]. intros d. by apply kept_tasks. }
    destruct (install_user _ _ _ _) as [[w' r]|] eqn:E; [|done]. injection Hs as <-. exists w'. split; [done|].
    intros d. by eapply install_kept.
  - unfold spawn_pinned_user_process_on in Hs. destruct (negb _).
    { injection Hs as <-. eexists. split; [done|]. intros d. by apply kept_tasks. }
    destruct (validated_if_ok _) as [[w' r]|] eqn:E; [|done]. apply SchedLatch.validated_if_ok_some in E. cbn [mbind option_bind] in Hs.
    pose proof (ipi_sched c target w' r) as E1. destruct (match r with Ok _ => _ | Err _ => _ end) as [w2 r2].
    injection Hs as <-. exists w2. split; [done|]. intros d. apply (kept_sched _ w'); [by eapply install_kept|done].
  - destruct (spawn_migratable_user_probe _ _ _ _ _ _) as [[w' r]|] eqn:E; [|done]. injection Hs as <-.
    apply SchedLatch.validated_if_ok_some in E. exists w'. split; [done|]. intros d. by eapply install_kept.
  - unfold spawn_multicore_user_process in Hs. destruct (_ || _).
    { injection Hs as <-. eexists. split; [done|]. intros d. by apply kept_tasks. }
    destruct (reap_dead c (world m)) as [w1|] eqn:HR; [|done]. cbn [mbind option_bind] in Hs.
    destruct (least_loaded_cpu_for_mask c a w1) as [owner|].
    + destruct (validated_if_ok _) as [[w' r]|] eqn:E; [|done]. apply SchedLatch.validated_if_ok_some in E. cbn [mbind option_bind] in Hs.
      pose proof (ipi_sched c owner w' r) as E1. destruct (match r with Ok _ => _ | Err _ => _ end) as [w2 r2].
      injection Hs as <-. exists w2. split; [done|]. intros d. apply (kept_sched _ w'); [by eapply install_kept|done].
    + injection Hs as <-. exists w1. split; [done|]. intros d. destruct (reap_named _ _ _ HR) as (E1 & E2 & N).
      split_and!; [by rewrite E1|by rewrite E2|]. intros s t Hs Ht Hr _. apply N; [done|]. left. by rewrite Hr.
Qed.

Lemma kept_update w c k f :
  (∀ t, tasks (sched w) !! k = Some t → state t = Running → name (f t) = name t) → kept w (update_task k f w) c.
Proof. intros Hf. by apply (kept_alter _ _ _ k f). Qed.

Lemma kept_via w w1 w2 c :
  current_slot (sched w1) = current_slot (sched w) → switching_out (sched w1) = switching_out (sched w) →
  (∀ s t, tasks (sched w) !! s = Some t → state t = Running → tasks (sched w1) !! s = Some t) →
  kept w1 w2 c → kept w w2 c.
Proof. intros E1 E2 E3 (K1 & K2 & K3). rewrite E1, E2 in *. split_and!; [done..|]. eauto. Qed.

Lemma wake_sleeping_running now w s t :
  tasks (sched w) !! s = Some t → state t = Running → tasks (sched (wake_sleeping now w)) !! s = Some t.
Proof.
  intros Ht Hr. cbn. rewrite list_lookup_fmap, Ht. cbn. f_equal.
  destruct (wake_one_cases now t) as [E|([E|E] & _)]; [done|congruence..].
Qed.

(** The offline checkpoint runs on the idle task of an AP, so on the AP's own stack. *)
Lemma ginv_checkpoint m c m' :
  minv m → ginv m → phases m !! c = Some Up ∧ c ≠ 0%nat ∧ hotplug_state (smp (world m)) c = 2 →
  step m (Checkpoint c) = Some m' → ginv m'.
Proof.
  intros M G (Hup & Hc0 & _) Hs. cbn in Hs. unfold offline_cpu_checkpoint in Hs. pose proof M as (I & _).
  destruct (_ || _); [injection Hs as <-; apply ginv_world; [done..|]; intros ?; by apply kept_tasks|].
  destruct (G c Up Hup) as (s & t & Hcur & Ht & Hst). rewrite Hcur in Hs. cbn [mbind option_bind] in Hs.
  rewrite Ht in Hs. cbn [mbind option_bind] in Hs.
  destruct (is_idle_name (name t)) eqn:Hn; cbn [negb orb] in Hs;
    [|injection Hs as <-; apply ginv_world; [done..|]; intros ?; by apply kept_tasks].
  destruct (negb _); [injection Hs as <-; apply ginv_world; [done..|]; intros ?; by apply kept_tasks|].
  destruct (evacuate_cpu c (world m)) as [[w' b]|] eqn:HE; [|done]. cbn [mbind option_bind] in Hs.
  pose proof (evacuate_kept _ _ _ _ HE) as K.
  destruct b; [|injection Hs as <-; by apply ginv_world].
  unfold validated in Hs. destruct (validate_affinity_invariants _); [|done]. injection Hs as <-.
  apply (ginv_phase m _ c Draining); try done.
  - intros d Hd. destruct (K d) as (K1 & K2 & K3). split_and!; [done..|]. intros j u Hj Hu Hr Hcpu.
    assert (j ≠ s).
    { intros ->. destruct (i_current _ _ _ _ _ _ _ _ I c) as (s1 & t1 & Hs1 & Ht1 & _ & Hc1); [by left|done|]. congruence. }
    destruct (K3 j u Hj Hu Hr Hcpu) as (u' & Hu' & Hnu). exists u'. cbn. by rewrite list_lookup_alter_ne.
  - cbn. rewrite Hst. unfold context_stack. by rewrite bool_decide_false, Hn.
Qed.

(** An AP takes up a fresh idle task on the stack it is on. *)
Lemma ginv_idle m c s t w' f :
  minv m → ginv m → phases m !! c = Some Rejoining → tasks (sched (world m)) !! s = Some t → state t ≠ Running →
  current_slot (sched w') = <[c := s]> (current_slot (sched (world m))) →
  switching_out (sched w') = switching_out (sched (world m)) →
  tasks (sched w') = alter f s (tasks (sched (world m))) → name (f t) = "cpu-idle"%string →
  ginv (set_world w' (set_phase c Up m)).
Proof.
  intros M G Hp Ht Hr E1 E2 E3 Hn. pose proof M as (I & _).
  assert (Hlt : (c < length (current_slot (sched (world m))))%nat).
  { rewrite (i_cur _ _ _ _ _ _ _ _ I), <-(i_ph _ _ _ _ _ _ _ _ I). by eapply lookup_lt_Some. }
  apply (ginv_phase m _ c Up); try done.
  - intros d Hd. apply (kept_fill _ (world m) _ d s f); cbn; try done; [by rewrite E1, list_lookup_insert_ne|].
    intros u Hu. congruence.
  - cbn. exists s, (f t). rewrite E1, E3, list_lookup_insert_eq, list_lookup_alter_eq, Ht by done. split_and!; [done..|].
    rewrite (G c Rejoining Hp). unfold context_stack. rewrite Hn, bool_decide_false; [done|].
    intros ->. destruct (i_boot _ _ _ _ _ _ _ _ I) as [E|[E|E]]; congruence.
Qed.

Lemma ginv_rejoin m c m' :
  minv m → ginv m → phases m !! c = Some Rejoining ∧ hotplug_state (smp (world m)) c = 8 ∧ next_task_id (world m) < u64_max →
  step m (Rejoin c) = Some m' → ginv m'.
Proof.
  intros M G (Hp & _) Hs. cbn in Hs. unfold online_cpu_checkpoint in Hs.
  assert (Hfail : ginv (set_world (world m) (set_phase c Draining m))).
  { apply (ginv_phase m _ c Draining); try done; [intros; by apply kept_tasks|]. by apply (G c Rejoining). }
  destruct (_ || _) in Hs; [by injection Hs as <-|].
  destruct (position _ _) as [s|] eqn:E; [|by injection Hs as <-].
  apply position_lookup in E as (t & Ht & Hd). cbv zeta in Hs. cbn [fresh_id] in Hs. unfold validated in Hs.
  destruct (validate_affinity_invariants _); [|done]. injection Hs as <-. eapply ginv_idle; try done.
  rewrite orb_true_iff, andb_true_iff, !bool_decide_eq_true in Hd. destruct Hd as [->|[-> _]]; done.
Qed.

Ltac same_world := apply ginv_world; [done..|]; intros ?; by apply kept_tasks.

Lemma ginv_step m o m' : minv m → ginv m → enabled m o → step m o = Some m' → ginv m'.
Proof.
  intros M G He Hs. destruct o; cbn in He.
  - cbn in Hs. unfold yield_now in Hs. destruct (_ =? 0); [done|]. destruct (prepare_switch c _) as [[w' cs]|] eqn:HP; [|done].
    injection Hs as <-. apply (ginv_commit m c _ w' cs M G He HP eq_refl eq_refl). intros s t Ht. exists t.
    split_and!; [done..|]. intros Hr. left. congruence.
  - cbn in Hs. unfold preempt_from_interrupt in Hs. destruct suspended; [injection Hs as <-; same_world|].
    destruct (preempt (world m) !! c) as [[]|]; cbn [mbind option_bind negb] in Hs; [|injection Hs as <-; same_world|done].
    destruct lock_free; cbn [negb] in Hs; [|injection Hs as <-; same_world].
    destruct (prepare_switch c _) as [[w' cs]|] eqn:HP; [|done]. injection Hs as <-.
    apply (ginv_commit m c _ w' cs M G He HP eq_refl eq_refl). intros s t Ht. exists (wake_one now t). cbn. rewrite list_lookup_fmap, Ht.
    destruct (wake_one_cases now t) as [E|([E|E] & _ & En & _)]; (split_and!; [done|congruence|]); intros Hr; left; congruence.
  - cbn in Hs. destruct M as (I & _). destruct (i_current _ _ _ _ _ _ _ _ I c) as (s & t & Hc & Ht & Hr & _); [by right; left|done|].
    rewrite Hc in Hs. cbn [mbind option_bind] in Hs. rewrite Ht in Hs. injection Hs as <-.
    intros k p [[<- ->]|[Hne Hp]]%lookup_insert_cases; cbn.
    + exists s, t. split_and!; [done..|]. apply list_lookup_insert_eq. destruct (G c Handoff He) as (o & Ho & _). by eapply lookup_lt_Some.
    + pose proof (G k p Hp) as O. destruct p; cbn in *; by rewrite list_lookup_insert_ne by done.
  - cbn in Hs. unfold finalize_switch in Hs. destruct (switching_out _ !! c) as [out|] eqn:Ho; [|done]. cbn [mbind option_bind] in Hs.
    assert (Hcur : ∀ w', current_slot (sched w') = current_slot (sched (world m)) → (∀ d, d ≠ c → kept (world m) w' d) →
      (∀ s t, current_slot (sched (world m)) !! c = Some s → tasks (sched (world m)) !! s = Some t → state t = Running → named w' s (name t)) →
      ginv (set_world w' (set_phase c Up m))).
    { intros w' E K N. apply (ginv_phase m _ c Up); try done. cbn.
      destruct (G c Arrived He) as (s & t & Hc & Ht & Hst). destruct M as (I & _).
      destruct (i_current _ _ _ _ _ _ _ _ I c) as (s1 & t1 & Hs1 & Ht1 & Hr & _); [by right; right|done|]. simplify_eq.
      destruct (N s t Hc Ht Hr) as (t' & Ht' & Hn). exists s, t'. rewrite E. split_and!; [done..|].
      rewrite Hst. unfold context_stack. by rewrite Hn. }
    case_bool_decide as Hmax.
    { injection Hs as <-. apply Hcur; [done|intros; by apply kept_tasks|]. intros s t Hc Ht Hr. by exists t. }
    destruct (current_slot _ !! c) as [cur|] eqn:Hc; [|done]. cbn [mbind option_bind] in Hs.
    destruct (tasks _ !! out) as [t|] eqn:Ht; [|done]. cbn [mbind option_bind] in Hs. case_bool_decide; [done|].
    case_bool_decide as Hsw; cbn [negb] in Hs; [|done].
    assert (Hdone : ∀ w' f, tasks (sched w') = alter f out (tasks (sched (world m))) →
      current_slot (sched w') = current_slot (sched (world m)) →
      switching_out (sched w') = <[c := MAX_TASKS]> (switching_out (sched (world m))) →
      ginv (set_world w' (set_phase c Up m))).
    { intros w' f E1 E2 E3. assert (N : ∀ s u, tasks (sched (world m)) !! s = Some u → state u = Running → named w' s (name u)).
      { intros s u Hu Hr. exists u. split; [|done]. rewrite E1, list_lookup_alter_ne; [done|]. intros ->. congruence. }
      apply Hcur; [done| |by eauto]. intros d Hd. split_and!; [by rewrite E2|by rewrite E3, list_lookup_insert_ne|eauto]. }
    destruct (termination_signal t =? 0); cbn [negb mbind option_bind] in Hs; injection Hs as <-;
      by eapply Hdone.
  - cbn in Hs. destruct (may_block_facts m c M He) as (s & t & Hup & Hsl & Hcur & Ht & _ & Hr & _).
    unfold block_current in Hs. rewrite Hsl in Hs. cbn [mbind option_bind] in Hs.
    destruct (prepare_switch c _) as [[w' [cs|]]|] eqn:HP; try done. cbn in Hs. injection Hs as <-.
    eapply (ginv_commit m c _ w' (Some cs)); try done. by apply deschedule_names.
  - cbn in Hs. destruct (may_block_facts m c M He) as (s & t & Hup & Hsl & Hcur & Ht & _ & Hr & _).
    unfold sleep_current in Hs. rewrite Hsl in Hs. cbn [mbind option_bind] in Hs.
    destruct (prepare_switch c _) as [[w' [cs|]]|] eqn:HP; try done. cbn in Hs. injection Hs as <-.
    eapply (ginv_commit m c _ w' (Some cs)); try done. by apply deschedule_names.
  - cbn in Hs. destruct (may_block_facts m c M He) as (s & t & Hup & Hsl & Hcur & Ht & _ & Hr & _).
    unfold wait_for_event_until in Hs. rewrite Hsl in Hs. cbn [mbind option_bind] in Hs. rewrite Ht in Hs. cbn [mbind option_bind] in Hs.
    destruct (event_pending t).
    { injection Hs as <-. apply ginv_world; [done..|]. intros d. by apply kept_update. }
    destruct (_ && _); [injection Hs as <-; same_world|].
    destruct (prepare_switch c _) as [[w' [cs|]]|] eqn:HP; try done. cbn in Hs. injection Hs as <-.
    eapply (ginv_commit m c _ w' (Some cs)); try done. by apply deschedule_names.
  - cbn in Hs. destruct (may_block_facts m c M He) as (s & t & Hup & Hsl & Hcur & Ht & _ & Hr & _).
    unfold exit_current_task in Hs. rewrite Hsl in Hs. cbn [mbind option_bind] in Hs.
    destruct (prepare_switch c _) as [[w' cs]|] eqn:HP; [|done]. injection Hs as <-.
    eapply (ginv_commit m c _ w' cs); try done. by apply deschedule_names.
  - cbn in Hs. unfold tick in Hs. destruct lock_free; cbn [negb] in Hs; [|injection Hs as <-; same_world].
    destruct (current_slot _ !! c) as [s|]; [|done]. cbn [mbind option_bind] in Hs.
    destruct (tasks _ !! s) as [t|]; [|done]. cbn [mbind option_bind] in Hs. injection Hs as <-.
    apply ginv_world; [done..|]. intros d. apply (kept_via _ (wake_sleeping now (world m))); [done..|intros; by apply wake_sleeping_running|].
    destruct (negb _); [by apply kept_tasks|]. destruct (1 <? _); [by apply kept_update|].
    by apply (kept_sched _ (update_task s (set_remaining_ticks 0) (wake_sleeping now (world m)))); [apply kept_update|].
  - cbn in Hs. injection Hs as <-. apply ginv_world; [done..|]. intros d. unfold wake_task.
    destruct (position _ _) as [s|]; [|by apply kept_tasks].
    apply (kept_sched _ (update_task s make_ready (world m))); [by apply kept_update|apply reschedule_sched].
  - cbn in Hs. injection Hs as <-. apply ginv_world; [done..|]. intros d. unfold signal_event.
    destruct (position _ _) as [s|]; [|by apply kept_tasks]. destruct (tasks _ !! s) as [t|]; [|by apply kept_tasks].
    case_bool_decide; [|by apply kept_update].
    apply (kept_sched _ (update_task s make_ready (world m))); [by apply kept_update|apply reschedule_sched].
  - cbn in Hs. injection Hs as <-. apply ginv_world; [done..|]. intros d. unfold request_termination.
    destruct (position _ _) as [s|]; [|by apply kept_tasks]. destruct (tasks _ !! s) as [t|] eqn:Ht; [|by apply kept_tasks].
    destruct (state t) eqn:Hst; cbn [fst]; try (by apply kept_update);
      (apply (kept_alter _ _ _ s ((λ t, set_termination_signal 0 (set_name "terminated" (set_state Dead t))) ∘ set_termination_signal signal));
        [done|done|cbn; by rewrite list_alter_alter_eq|intros; congruence]).
  - cbn in Hs. unfold spawn_with_priority in Hs. destruct (_ =? 0); [done|].
    destruct (free_slot (world m)) as [s|] eqn:E; cbn in Hs; injection Hs as <-; [|same_world].
    apply free_slot_spec in E as (t & Ht & He'). apply ginv_world; [done..|]. intros d.
    by apply (kept_alter _ _ _ s (initialize s (next_task_id (world m)) nm e p)); [..|intros; congruence].
  - cbn in Hs. injection Hs as <-. apply ginv_world; [done..|]. intros d. unfold spawn_kernel_on.
    destruct (_ || _); [by apply kept_tasks|]. destruct (_ =? 0); [by apply kept_tasks|].
    destruct (free_slot (world m)) as [s|] eqn:E; [|by apply kept_tasks]. cbn.
    apply free_slot_spec in E as (t & Ht & He'). eapply kept_sched; [|apply reschedule_sched].
    by apply (kept_alter _ _ _ s (λ t, set_affinity_mask affinity (set_migratable mig (set_cpu target
      (initialize s (next_task_id (world m)) nm e NORMAL t))))); [..|intros; congruence].
  - destruct (spawn_user_kept _ _ _ _ _ _ _ _ Hs) as (w' & -> & K). by apply ginv_world.
  - cbn in Hs. destruct (fork_begin _ _); [|done]. injection Hs as <-. apply (ginv_kept m); try done. intros d. by apply kept_tasks.
  - cbn in Hs. destruct (fork_finish _ _ _ _ _ _) as [[w' r]|] eqn:E; [|done]. injection Hs as <-.
    apply SchedLatch.validated_if_ok_some in E. apply ginv_world; [done..|]. intros d. by eapply install_kept.
  - cbn in Hs. unfold migrate_ready_task in Hs. destruct (negb _); [injection Hs as <-; same_world|].
    destruct (find_task i (world m)) as [[s t]|]; [|injection Hs as <-; same_world].
    destruct (negb _); [injection Hs as <-; same_world|]. destruct (_ =? 0); [injection Hs as <-; same_world|].
    destruct (negb _); [injection Hs as <-; same_world|]. unfold validated in Hs.
    destruct (validate_affinity_invariants _); [|done]. injection Hs as <-. apply ginv_world; [done..|]. intros d.
    apply (kept_sched _ (update_task s (set_cpu target) (world m))); [by apply kept_update|apply reschedule_sched].
  - cbn in Hs. unfold set_ready_task_affinity, set_affinity_seen in Hs. destruct (affinity =? 0); [injection Hs as <-; same_world|].
    destruct (negb _); [injection Hs as <-; same_world|].
    destruct (find_task i (world m)) as [[s t]|]; [|injection Hs as <-; same_world].
    destruct (negb (migratable t)); [injection Hs as <-; same_world|].
    destruct (negb (bool_decide _)); [injection Hs as <-; same_world|]. destruct (negb _).
    + unfold validated in Hs. destruct (validate_affinity_invariants _); [|done]. injection Hs as <-.
      apply ginv_world; [done..|]. intros d. by apply kept_update.
    + destruct (List.find _ _) as [k|]; [|done]. cbn [mbind option_bind] in Hs. unfold validated in Hs.
      destruct (validate_affinity_invariants _); [|done]. injection Hs as <-. apply ginv_world; [done..|]. intros d.
      eapply kept_sched; [|apply reschedule_sched].
      apply (kept_alter _ _ _ s (set_cpu k ∘ set_affinity_mask affinity)); [done|done|cbn; by rewrite list_alter_alter_eq|done].
  - cbn in Hs. unfold rebalance_once, rebalance_one in Hs. destruct (_ <? 2); [injection Hs as <-; same_world|].
    destruct (best_move _ _) as [[[[s src] k] g]|]; [|injection Hs as <-; same_world].
    destruct (tasks _ !! s) as [t|]; [|done]. cbn [mbind option_bind] in Hs. unfold validated in Hs.
    destruct (validate_affinity_invariants _); [|done]. cbn in Hs. injection Hs as <-. apply ginv_world; [done..|]. intros d.
    apply (kept_sched _ (update_task s (set_cpu k) (world m))); [by apply kept_update|apply reschedule_sched].
  - cbn in Hs. unfold prepare_cpu_offline in Hs. destruct (_ || _); [injection Hs as <-; same_world|].
    destruct (evacuate_cpu target (world m)) as [[w' b]|] eqn:HE; [|done]. cbn [mbind option_bind] in Hs.
    pose proof (evacuate_kept _ _ _ _ HE) as K.
    destruct b; [unfold validated in Hs; destruct (validate_affinity_invariants _); [|done]|]; injection Hs as <-; by apply ginv_world.
  - injection Hs as <-. apply ginv_world; [done..|]. intros d. by apply kept_tasks.
  - by apply (ginv_checkpoint m c).
  - injection Hs as <-. apply (ginv_phase m _ c Withdrawn); try done; [intros; by apply kept_tasks|]. by apply (G c Draining).
  - injection Hs as <-. apply (ginv_phase m _ c Parked); try done; [intros; by apply kept_tasks|]. by apply (G c Withdrawn).
  - injection Hs as <-. destruct He as (_ & Hp & _). apply (ginv_phase m _ c Rejoining); try done; [intros; by apply kept_tasks|].
    by apply (G c Parked).
  - injection Hs as <-. same_world.
  - injection Hs as <-. same_world.
  - cbn in Hs. unfold init_ap in Hs. destruct (free_slot (world m)) as [s|] eqn:E; [|done]. cbn in Hs. injection Hs as <-.
    apply free_slot_spec in E as (t & Ht & He'). destruct He as (Hp & _). eapply ginv_idle; try done. by rewrite He'.
  - by apply (ginv_rejoin m c).
Qed.

Lemma reachable_ginv m : is_Some kernel_address_space → reachable m → ginv m.
Proof.
  intros Hk. induction 1 as [doms log m Hd Hb|m o m' Hr IH He Hs].
  - injection Hb as <-. intros c p. destruct c as [|[|[|[|c]]]]; intros Hp; cbn in Hp; try (injection Hp as <-); try done.
    by eexists 0%nat, _.
  - apply (ginv_step m o); try done. by apply reachable_minv.
Qed.

Lemma up_stack m c s p :
  minv m → ginv m → phases m !! c = Some p → p = Up ∨ p = Arrived → stacks m !! c = Some (Some s) →
  ∃ t, tasks (sched (world m)) !! s = Some t ∧ state t = Running ∧ cpu t = c.
Proof.
  intros (I & _) G Hp Hup Hs.
  destruct (i_current _ _ _ _ _ _ _ _ I c) as (s1 & t & Hc & Ht & Hr & Hcpu); [unfold is_up; destruct Hup as [->| ->]; auto|done|].
  assert (O : on_stack (world m) (stacks m) c Up) by (pose proof (G c p Hp) as O; by destruct Hup as [->| ->]).
  destruct O as (s2 & t2 & Hc2 & Ht2 & Hst). rewrite Hs in Hst. unfold context_stack in Hst. destruct (_ && _); simplify_eq.
  by exists t.
Qed.

(** A CPU on the stack of slot [s] owns that task, unless it is leaving it without having
    named it. *)
Lemma stack_owner m c s :
  minv m → ginv m → stacks m !! c = Some (Some s) → (c < MAX_CPUS)%nat →
  (∃ t, tasks (sched (world m)) !! s = Some t ∧ (state t = Running ∨ state t = Switching) ∧ cpu t = c) ∨
  (phases m !! c = Some Handoff ∧ switching_out (sched (world m)) !! c = Some MAX_TASKS).
Proof.
  intros M G Hs Hlt. pose proof M as (I & _). destruct (lookup_lt_is_Some_2 (phases m) c) as [p Hp]; [by rewrite (i_ph _ _ _ _ _ _ _ _ I)|].
  pose proof (G c p Hp) as O.
  destruct p; cbn in O; try congruence.
  - left. destruct (up_stack m c s Up M G Hp) as (t & ? & ? & ?); [by left|done|]. exists t. auto.
  - destruct O as (o & Ho & Hsw). rewrite Hs in Ho. injection Ho as <-.
    destruct (Hsw s eq_refl) as [E|E]; [|by right]. destruct (decide (s = MAX_TASKS)) as [->|Hne]; [by right|].
    left. destruct (i_out _ _ _ _ _ _ _ _ I c s E Hne) as [(t & ? & ? & ?) _]. exists t. auto.
  - left. destruct (up_stack m c s Arrived M G Hp) as (t & ? & ? & ?); [by right|done|]. exists t. auto.
Qed.

Lemma stacks_apart m c c' s :
  is_Some kernel_address_space → reachable m → (c < MAX_CPUS)%nat → (c' < MAX_CPUS)%nat → c ≠ c' →
  stacks m !! c = Some (Some s) → stacks m !! c' = Some (Some s) →
  ∃ d, (d = c ∨ d = c') ∧ phases m !! d = Some Handoff ∧ switching_out (sched (world m)) !! d = Some MAX_TASKS.
Proof.
  intros Hk Hr Hlt Hlt' Hne Hs Hs'. pose proof (reachable_minv m Hk Hr) as M. pose proof (reachable_ginv m Hk Hr) as G.
  destruct (stack_owner m c s M G Hs Hlt) as [(t & Ht & _ & Hc)|?]; [|by exists c; auto].
  destruct (stack_owner m c' s M G Hs' Hlt') as [(t' & Ht' & _ & Hc')|?]; [|by exists c'; auto]. congruence.
Qed.

End stacks.

(** CPU 1 blocks its worker; before it has switched stacks, CPU 0 wakes the worker, takes
    it over and dispatches it. *)
Definition blocked_and_stolen : list op :=
  worker_running ++ [Block 1; Wake 0 3; Migrate 0 3 0; Yield 0; SwitchStacks 0].

Lemma blocked_and_stolen_reachable : @reachable demo_platform (demo blocked_and_stolen).
Proof. apply demo_reachable. prove_legal. Qed.



(** ** Placements that outlive a CPU *)
Section stale.
Context `{Platform}.

(** [schedulable_mask] when other CPUs store to the words between its two loads of a CPU:
    [ONLINE] as in [before], [OFFLINE_STATE] as in [after]. *)
Definition torn_mask (before after : Topology) : Z :=
  mask_of (λ c, cpu_is_online before c && negb (in_transition (hotplug_state after c))).

Lemma not_validated {A} w slot t k (r : option A) :
  tasks (sched w) !! slot = Some t → live t = true → in_u64 (affinity_mask t) →
  Z.testbit (affinity_mask t) (Z.of_nat k) = true → cpu_is_online (smp w) k = false → validated w r = None.
Proof.
  intros Ht Hl Ha Hb Ho. unfold validated. destruct (validate_affinity_invariants w) eqn:E; [|done]. exfalso.
  unfold validate_affinity_invariants in E. rewrite forallb_forall in E.
  specialize (E t ltac:(apply list_elem_of_In, list_elem_of_lookup; by exists slot)). rewrite Hl in E. cbn in E.
  apply task_valid_iff in E as (_ & _ & Hw & _); [|done]. specialize (Hw (Z.of_nat k) ltac:(lia) Hb).
  rewrite testbit_online, Ho, andb_false_r in Hw. done.
Qed.

Lemma fork_install_panics m c sn frame_size space k :
  minv m → (c < MAX_CPUS)%nat → in_u64 (parent_affinity sn) → is_Some (free_slot (world m)) →
  Z.testbit (parent_affinity sn) (Z.of_nat k) = true → cpu_is_online (smp (world m)) k = false →
  step m (ForkFinish c sn frame_size space true) = None.
Proof.
  intros M Hc Ha [s0 Hs0] Hb Ho. cbn. unfold fork_finish, install_user.
  destruct (reap_dead_spec None (phases m) (world m) c M Hc) as (w1 & HR & W1 & _ & _ & Etp & _ & F & _).
  rewrite HR. cbn [mbind option_bind]. apply free_slot_spec in Hs0 as (t0 & Ht0 & He0).
  destruct (free_slot w1) as [slot|] eqn:Ef.
  - apply free_slot_spec in Ef as (t & Ht & He). cbn [fresh_id negb validated_if_ok mbind option_bind].
    rewrite (not_validated _ slot (fork_child sn frame_size space slot (next_task_id w1) t) k); try done; [|by rewrite Etp].
    cbn. by rewrite list_lookup_alter_eq, Ht.
  - exfalso. unfold free_slot in Ef.
    rewrite position_None in Ef. specialize (Ef s0 t0 (F s0 t0 Ht0 ltac:(left; by rewrite He0))). cbn in Ef.
    by rewrite bool_decide_true in Ef.
Qed.

Lemma torn_affinity_panics m c i s t before k :
  minv m → (k < MAX_CPUS)%nat → tasks (sched (world m)) !! s = Some t → id t = i → state t = Ready → migratable t = true →
  cpu_is_online before k = true → in_transition (hotplug_state (smp (world m)) k) = false →
  cpu_is_online (smp (world m)) k = false →
  set_affinity_seen (torn_mask before (smp (world m))) c i (cpu_bit k) (world m) = None.
Proof.
  intros M Hk Ht Hid Hr Hm Hbf Hw Ho. pose proof M as (I & _). unfold set_affinity_seen.
  assert (Ha : in_u64 (cpu_bit k)).
  { unfold cpu_bit, in_u64, u64_max, MAX_CPUS in *. rewrite Z.shiftl_1_l. pose proof (Z.pow_le_mono_r 2 (Z.of_nat k) 4). lia. }
  assert (Hbit : Z.testbit (cpu_bit k) (Z.of_nat k) = true) by (rewrite cpu_bit_testbit by lia; by apply bool_decide_true).
  destruct (Z.eqb_spec (cpu_bit k) 0) as [E|_]; [by rewrite E, Z.bits_0 in Hbit|].
  assert (Hseen : Z.land (cpu_bit k) (not64 (torn_mask before (smp (world m)))) = 0).
  { apply mask_within; [done| |].
    - pose proof (mask_of_range (λ c, cpu_is_online before c && negb (in_transition (hotplug_state (smp (world m)) c)))).
      unfold in_u64, u64_max, torn_mask. lia.
    - intros j Hj. rewrite cpu_bit_testbit by done. intros ->%bool_decide_eq_true. unfold torn_mask.
      rewrite testbit_mask_of, Nat2Z.id by lia. rewrite Hbf, Hw, bool_decide_true by (unfold MAX_CPUS in Hk; lia). done. }
  rewrite Hseen. cbn [negb Z.eqb].
  assert (Hf : find_task i (world m) = Some (s, t)).
  { unfold find_task. rewrite (position_unique _ _ s t); [cbn; by rewrite Ht|done| |].
    - by rewrite Hid, Z.eqb_refl, Hr.
    - intros j u Hu [Hui%Z.eqb_eq Hue%negb_true_iff%bool_decide_eq_false]%andb_true_iff.
      apply (i_ids _ _ _ _ _ _ _ _ I j s u t); try done; [by rewrite Hr|congruence]. }
  rewrite Hf, Hm, bool_decide_true by done. cbn [negb].
  assert (Hlive : ∀ f, state (f t) = state t → live (f t) = true) by (intros f E; unfold live; by rewrite E, Hr).
  destruct (Z.land (cpu_bit k) (cpu_bit (cpu t)) =? 0); cbn [negb].
  - destruct (List.find _ _) as [d|]; [|done]. cbn [mbind option_bind].
    apply (not_validated _ s (set_cpu d (set_affinity_mask (cpu_bit k) t)) k); try done.
    + cbn. by rewrite !list_lookup_alter_eq, Ht.
    + by apply (Hlive (λ t, set_cpu d (set_affinity_mask (cpu_bit k) t))).
  - apply (not_validated _ s (set_affinity_mask (cpu_bit k) t) k); try done.
    + cbn. by rewrite list_lookup_alter_eq, Ht.
    + by apply (Hlive (set_affinity_mask (cpu_bit k))).
Qed.

(** C36. A placement that was read before a CPU left makes the kernel panic when it is used
    after. In a state where CPU [k] has left: the second section of a [fork_current] whose
    first section copied an affinity with [k] in it, and which gets as far as a slot,
    fails the assertion of the affinity checker, for the mask is not checked again; and
    so does [set_ready_task_affinity] when its check of the mask read [ONLINE] of [k]
    before [k] cleared it and [OFFLINE_STATE] after [k] had stored its last word, as the
    two are separate loads and [k] stores them without the scheduler lock. *)
Theorem stale_placements_panic (m : Machine) (c k : nat) :
  is_Some kernel_address_space → reachable m → phases m !! c = Some Up → (k < MAX_CPUS)%nat →
  cpu_is_online (smp (world m)) k = false →
  (∀ sn frame_size space, sn ∈ forks m → Z.testbit (parent_affinity sn) (Z.of_nat k) = true →
     is_Some (free_slot (world m)) → step m (ForkFinish c sn frame_size space true) = None) ∧
  (∀ before i s t, tasks (sched (world m)) !! s = Some t → id t = i → state t = Ready → migratable t = true →
     cpu_is_online before k = true → hotplug_state (smp (world m)) k = 5 →
     set_affinity_seen (torn_mask before (smp (world m))) c i (cpu_bit k) (world m) = None).
Proof.
  intros Hk Hr Hup Hlt Ho. destruct (reachable_sound m Hk Hr) as [M F]. split.
  - intros sn frame_size space Hin Hb Hs. apply (fork_install_panics _ _ _ _ _ k); try done.
    + by eapply up_lt.
    + eapply Forall_forall in F; [|done]. apply F.
  - intros before i s t Ht Hid Hrd Hm Hb Hw. by apply (torn_affinity_panics m c i s t before k); rewrite ?Hw.
Qed.

End stale.

(** A process on CPU 0 that may run on both CPUs forks while CPU 1 leaves; a second one is
    waiting. *)
Definition fork_and_leave : list op :=
  [Publish 1; InitAp 1; PublishCount 2; SpawnUser 0 Probe "app" (mkUserContext 0 0 0 0) 7 true;
   SpawnUser 0 Probe "app" (mkUserContext 0 0 0 0) 7 true; Yield 0; SwitchStacks 0; Finalize 0;
   ForkBegin 0; PrepareOffline 1; Word 1 0 1; Word 1 1 2; Checkpoint 1; Withdraw 1; AddCount 1 (-1); Leave 1].

Lemma fork_and_leave_reachable : @reachable demo_platform (demo fork_and_leave).
Proof. apply demo_reachable. prove_legal. Qed.

(** The parent's placement, and the waiting process. *)
Definition stale_parent : ForkSnapshot :=
  mkSnapshot 0 true 3 (mkForkSecurity Cap.userspace no_lineages Guard.User (Guard.default_sandbox Guard.User)).

Lemma stale_placements_panic_witness :
  @step demo_platform (demo fork_and_leave) (ForkFinish 0 stale_parent 64 9 true) = None ∧
  @set_affinity_seen (torn_mask (smp (world (demo (take 8 fork_and_leave)))) (smp (world (demo fork_and_leave))))
    0 4 2 (world (demo fork_and_leave)) = None.
Proof.
  assert (Hw : ∃ t, tasks (sched (world (demo fork_and_leave))) !! 4%nat = Some t ∧ id t = 4 ∧ state t = Ready ∧ migratable t = true).
  { eexists. vm_compute. split_and!; reflexivity. }
  destruct Hw as (t & Ht & Hi & Hr & Hm).
  destruct (@stale_placements_panic demo_platform (demo fork_and_leave) 0 1) as [H1 H2];
    [by eexists|apply fork_and_leave_reachable|vm_compute; reflexivity|vm_compute; lia|vm_compute; reflexivity|].
  split.
  - apply H1; [vm_compute; by constructor|vm_compute; reflexivity|vm_compute; by eexists].
  - apply (H2 _ 4 4%nat t Ht Hi Hr Hm); vm_compute; reflexivity.
Defined.

End SchedRaces.
