(* ===== verification/AsyncEvents.v ===== *)
(** * Deadline arithmetic (kernel/src/deadline.rs)

    One-shot and periodic timers over 64-bit ticks: [advance] counts the deadlines
    passed and computes the next one, saturating and retiring instead of wrapping. *)
From S2P Require Import Prelude CompletionQueue CompletionPort AsyncOp.
Module Deadline.

Record Timer := mkTimer {
  next : option Z;
  period : Z;
  pending : Z
}.

(** [Timer::new] *)
Definition timer_new (deadline p : Z) : option Timer :=
  if (deadline <? u64_max) && (p <? u64_max) then Some (mkTimer (Some deadline) p 0) else None.

(** [checked_div]: the period is non-zero on this path. *)
Definition checked_div (x y : Z) : option Z := if y =? 0 then None else Some (x / y).

Definition advance (t : Timer) (now : Z) : Timer :=
  match next t with
  | None => t
  | Some d =>
      if now <? d then t
      else
        let count :=
          if period t =? 0 then 1
          else saturating_add64 (default 0 (checked_div (saturating_sub now d) (period t))) 1 in
        mkTimer
          (if period t =? 0 then None
           else
             step ← checked_mul64 (period t) count;
             d' ← checked_add64 d step;
             if d' <? u64_max then Some d' else None)
          (period t)
          (saturating_add64 (pending t) count)
  end.

Definition take (t : Timer) : Timer * Z := (mkTimer (next t) (period t) 0, pending t).

Definition exhausted (t : Timer) : bool :=
  bool_decide (next t = None) && (pending t =? 0).

(** ** Exactness *)

(** The number of deadlines [d], [d + p], [d + 2p], ... that are due at [now]. *)
Definition due (d p now : Z) : Z :=
  if now <? d then 0 else if p =? 0 then 1 else (now - d) / p + 1.

(** A use of a timer: advanced at a tick, or its count taken. *)
Inductive use := Advance (now : Z) | Take.

Definition use_step (st : Timer * Z) (u : use) : Timer * Z :=
  match u with
  | Advance now => (advance st.1 now, st.2)
  | Take => let '(t, n) := take st.1 in (t, st.2 + n)
  end.

Definition use_time (u : use) : Z := match u with Advance now => now | Take => -1 end.
Definition latest (us : list use) : Z := foldr Z.max (-1) (use_time <$> us).

(** Taken plus pending is the number due at the latest tick seen. *)
Record exact (d p m : Z) (st : Timer * Z) : Prop := {
  ex_period : period st.1 = p;
  ex_pending : 0 ≤ pending st.1;
  ex_taken : 0 ≤ st.2;
  ex_total : st.2 + pending st.1 = due d p m;
  ex_next : next st.1 =
    if p =? 0 then (if m <? d then Some d else None)
    else (if d + due d p m * p <? u64_max then Some (d + due d p m * p) else None)
}.

Lemma due_periodic d p m :
  0 < p → m < d ∧ due d p m = 0 ∨
  d ≤ m ∧ d + (due d p m - 1) * p ≤ m < d + due d p m * p ∧ 1 ≤ due d p m.
Proof.
  intros Hp. unfold due. destruct (Z.ltb_spec m d); [left; lia|right].
  rewrite (proj2 (Z.eqb_neq _ _)) by lia. pose proof (Z.div_mod (m - d) p ltac:(lia)).
  pose proof (Z.mod_pos_bound (m - d) p ltac:(lia)).
  assert (0 ≤ (m - d) / p) by (apply Z.div_pos; lia). nia.
Qed.

(** The deadlines due at a later tick, counted from the first one still to come. *)
Lemma due_split d p m now :
  0 < p → m ≤ now → d + due d p m * p ≤ now →
  due d p now = due d p m + ((now - (d + due d p m * p)) / p + 1).
Proof.
  intros Hp Hle Hd. assert (0 ≤ due d p m) by (destruct (due_periodic d p m Hp); lia).
  unfold due at 1. rewrite (proj2 (Z.ltb_ge _ _)) by nia. rewrite (proj2 (Z.eqb_neq _ _)) by lia.
  replace (now - d) with ((now - (d + due d p m * p)) + due d p m * p) by lia.
  rewrite Z.div_add by lia. lia.
Qed.

Lemma due_same d p m now :
  0 < p → m ≤ now → now < d + due d p m * p → due d p now = due d p m.
Proof.
  intros Hp Hle Hd. destruct (due_periodic d p m Hp) as [[H1 H2]|(H1 & H2 & H3)];
    destruct (due_periodic d p now Hp) as [[H4 H5]|(H4 & H6 & H7)]; nia.
Qed.

Lemma due_bound d p m : 0 ≤ d → 0 ≤ p → -1 ≤ m < u64_max → 0 ≤ due d p m ≤ u64_max.
Proof.
  intros Hd Hp Hm. destruct (Z.eq_dec p 0) as [->|Hne].
  - unfold due, u64_max. destruct (m <? d); simpl; lia.
  - destruct (due_periodic d p m ltac:(lia)) as [[_ ->]|(H1 & H2 & H3)]; unfold u64_max in *; nia.
Qed.

Lemma next_deadline d p c :
  0 ≤ d → 0 < p → 0 ≤ c →
  (step ← checked_mul64 p c; d' ← checked_add64 d step; if d' <? u64_max then Some d' else None) =
  if d + c * p <? u64_max then Some (d + c * p) else None.
Proof.
  intros Hd Hp Hc. unfold checked_mul64, checked_add64.
  destruct (Z.leb_spec (p * c) u64_max); cbn [mbind option_bind].
  - destruct (Z.leb_spec (d + p * c) u64_max); cbn [mbind option_bind].
    + by rewrite (Z.mul_comm p c).
    + rewrite (proj2 (Z.ltb_ge _ _)) by lia. done.
  - rewrite (proj2 (Z.ltb_ge _ _)) by lia. done.
Qed.

Section exact.
Context (d p : Z) (Hd : 0 ≤ d < u64_max) (Hp : 0 ≤ p < u64_max).

Lemma exact_new : exact d p (-1) (mkTimer (Some d) p 0, 0).
Proof.
  assert (Hz : due d p (-1) = 0) by (unfold due; by rewrite (proj2 (Z.ltb_lt _ _)) by lia).
  split; cbn; rewrite ?Hz; try lia. rewrite (proj2 (Z.ltb_lt (-1) d)) by lia.
  destruct (p =? 0); [done|]. rewrite (proj2 (Z.ltb_lt _ _)) by lia. f_equal. lia.
Qed.

Lemma exact_advance_once m st now :
  p = 0 → -1 ≤ m → 0 ≤ now → exact d p m st → exact d p (Z.max m now) (advance st.1 now, st.2).
Proof.
  intros H0 Hm Hnow [H1 H2 H3 H4 H5]. unfold advance. rewrite H5. unfold due in *.
  rewrite H0 in *. cbn [Z.eqb] in *. destruct (Z.ltb_spec m d) as [Hlt|Hge].
  - destruct (Z.ltb_spec now d) as [Hn|Hn]; split; cbn [fst snd period pending next];
      rewrite ?H1; cbn [Z.eqb]; try done; unfold saturating_add64, due; cbn [Z.eqb];
      rewrite ?(proj2 (Z.ltb_lt (Z.max m now) d)), ?(proj2 (Z.ltb_ge (Z.max m now) d)) by lia;
      try done; unfold u64_max; lia.
  - split; cbn [fst snd period pending next]; try done; unfold due; cbn [Z.eqb];
      rewrite (proj2 (Z.ltb_ge (Z.max m now) d)) by lia; done.
Qed.

Lemma exact_advance_periodic m st now :
  0 < p → -1 ≤ m < u64_max → 0 ≤ now < u64_max → exact d p m st →
  exact d p (Z.max m now) (advance st.1 now, st.2).
Proof.
  intros Hpos Hm Hnow [H1 H2 H3 H4 H5]. pose proof (due_bound d p m) as Hb.
  pose proof (due_bound d p now) as Hbn. unfold advance. rewrite H5.
  rewrite (proj2 (Z.eqb_neq p 0)) in * by lia. set (D := d + due d p m * p) in *.
  assert (HmD : m < D) by (unfold D; destruct (due_periodic d p m Hpos); lia).
  assert (Hstay : now < D → due d p (Z.max m now) = due d p m).
  { intros HD. destruct (Z.max_spec m now) as [[Hlt ->]|[Hge ->]]; [|done].
    apply due_same; [done|lia|done]. }
  destruct (Z.ltb_spec D u64_max) as [HD|HD].
  2:{ specialize (Hstay ltac:(lia)). split; cbn [fst snd]; rewrite ?Hstay, ?(proj2 (Z.eqb_neq p 0)) by lia;
      try done; try lia. fold D. by rewrite (proj2 (Z.ltb_ge _ _)) by lia. }
  destruct (Z.ltb_spec now D) as [Hn|Hn].
  { specialize (Hstay Hn). split; cbn [fst snd]; rewrite ?Hstay, ?(proj2 (Z.eqb_neq p 0)) by lia;
      try done; try lia. fold D. by rewrite (proj2 (Z.ltb_lt _ _)) by lia. }
  rewrite (Z.max_r m now) by lia. pose proof (due_split d p m now Hpos ltac:(lia) Hn) as Hs. fold D in Hs.
  assert (Hq : 0 ≤ (now - D) / p) by (apply Z.div_pos; lia).
  rewrite H1, (proj2 (Z.eqb_neq p 0)) by lia.
  unfold checked_div, saturating_sub, saturating_add64. rewrite (proj2 (Z.eqb_neq p 0)) by lia.
  cbn [default]. rewrite (Z.max_l (now - D) 0) by lia.
  rewrite (Z.min_l ((now - D) / p + 1)) by lia.
  split; cbn [fst snd period pending next]; rewrite ?(proj2 (Z.eqb_neq p 0)) by lia; try done; try lia.
  rewrite next_deadline by lia. rewrite Hs. unfold D.
  replace (d + due d p m * p + ((now - (d + due d p m * p)) / p + 1) * p)
    with (d + (due d p m + ((now - (d + due d p m * p)) / p + 1)) * p) by lia. done.
Qed.

Lemma exact_use m st u :
  -1 ≤ m < u64_max → -1 ≤ use_time u < u64_max → (∀ now, u = Advance now → 0 ≤ now) →
  exact d p m st → exact d p (Z.max m (use_time u)) (use_step st u).
Proof.
  intros Hm Hu Hnow Hex. destruct u as [now|]; cbn [use_step use_time] in *.
  - specialize (Hnow now eq_refl). destruct (Z.eq_dec p 0); [by apply exact_advance_once; try lia|].
    apply exact_advance_periodic; try lia. done.
  - rewrite Z.max_l by lia. destruct Hex as [H1 H2 H3 H4 H5]. split; cbn; try done; lia.
Qed.
End exact.

(** Timers neither lose nor invent expirations. For any sequence of [advance] and
    [take] calls at ticks below [u64::MAX], in any order and however coarse, the counts
    taken so far plus the pending count are exactly the number of deadlines [d],
    [d + p], [d + 2p], ... up to the latest tick (one deadline when [p] is 0); and the
    next deadline is the first one not yet due, or none when it would reach
    [u64::MAX]. *)
Theorem timer_counts_exactly (d p : Z) (t : Timer) (us : list use) :
  0 ≤ d → 0 ≤ p → timer_new d p = Some t →
  Forall (λ u, ∀ now, u = Advance now → 0 ≤ now < u64_max) us →
  let '(t', taken) := foldl use_step (t, 0) us in
  taken + pending t' = due d p (latest us) ∧
  next t' = (if p =? 0 then (if latest us <? d then Some d else None)
             else (if d + due d p (latest us) * p <? u64_max
                   then Some (d + due d p (latest us) * p) else None)).
Proof.
  intros Hd Hp Hnew Hus. unfold timer_new in Hnew. destruct (_ && _) eqn:G; [|done].
  apply andb_true_iff in G as [G1%Z.ltb_lt G2%Z.ltb_lt]. injection Hnew as <-.
  assert (H : ∀ m st, -1 ≤ m < u64_max → exact d p m st →
    exact d p (Z.max m (latest us)) (foldl use_step st us)).
  { induction Hus as [|u us Hu _ IH]; intros m st Hm Hex.
    - unfold latest. cbn. by rewrite Z.max_l by lia.
    - assert (Hr : -1 ≤ use_time u < u64_max)
        by (unfold u64_max in *; destruct u as [now|]; cbn; [specialize (Hu now eq_refl)|]; lia).
      change (latest (u :: us)) with (Z.max (use_time u) (latest us)). rewrite Z.max_assoc.
      apply IH; [lia|]. apply exact_use; try done; try lia. intros now ->. by apply Hu. }
  assert (Hn : exact d p (-1) (mkTimer (Some d) p 0, 0)) by (apply exact_new; lia).
  specialize (H (-1) _ ltac:(unfold u64_max; lia) Hn).
  assert (Hl : -1 ≤ latest us) by (clear; induction us; unfold latest in *; cbn in *; lia).
  rewrite Z.max_r in H by lia. destruct (foldl use_step _ us) as [t' taken].
  destruct H as [H1 H2 H3 H4 H5]. done.
Qed.

Lemma timer_counts_exactly_witness :
  let us := [Advance 20; Advance 9; Take; Advance 25] in
  timer_new 10 3 = Some (mkTimer (Some 10) 3 0) ∧
  let '(t', taken) := foldl use_step (mkTimer (Some 10) 3 0, 0) us in
  taken + pending t' = 6 ∧ next t' = Some 28.
Proof.
  split; [reflexivity|].
  apply (timer_counts_exactly 10 3 (mkTimer (Some 10) 3 0) [Advance 20; Advance 9; Take; Advance 25]);
    [lia|lia|reflexivity|].
  unfold u64_max. repeat (apply Forall_cons; split; [intros now Hu; try done; injection Hu; lia|]).
  apply Forall_nil; exact I.
Defined.

End Deadline.

(** * Timers and events (kernel/src/async_events.rs)

    The 32 process-owned timer and manual-reset event objects, and the worker that
    completes the operations waiting on them. [Events] transcribes the module over
    the operation table of [AsyncOp] and the arithmetic of [Deadline]; the tick
    counter, the current task and its process are arguments. [EventsProofs] shows
    that a registered waiter is never stranded and that the worker never oversleeps. *)
Module Events.
Import Deadline.
#[local] Existing Instance Op.Handle_eq_dec.

Definition COUNT : nat := 32.
Definition QUOTA : nat := 8.
Definition TAG : Z := Z.shiftl 49154 16.

Inductive Kind := KTimer (t : Timer) | KEvent (set : bool).

Record Object := mkObject {
  generation : Z;
  owner : option Z;
  kind : Kind;
  waiter : option Op.Handle
}.

Definition EMPTY : Object := mkObject 0 None (KEvent false) None.

Definition clear (o : Object) : Object := mkObject (generation o) None (kind o) None.

Definition set_waiter (w : option Op.Handle) (o : Object) : Object :=
  mkObject (generation o) (owner o) (kind o) w.
Definition set_kind (k : Kind) (o : Object) : Object :=
  mkObject (generation o) (owner o) k (waiter o).

Definition ready (o : Object) (now : Z) : Object * Z :=
  match kind o with
  | KTimer t => let '(t, n) := take (advance t now) in (set_kind (KTimer t) o, n)
  | KEvent set => (o, if set then 1 else 0)
  end.

Record World := mkWorld {
  sys : Op.Sys;
  objects : list Object;
  worker : option Z
}.

Definition boot : World := mkWorld Op.boot (replicate COUNT EMPTY) None.

Definition set_sys (x : Op.Sys) (w : World) : World := mkWorld x (objects w) (worker w).
Definition set_objects (os : list Object) (w : World) : World := mkWorld (sys w) os (worker w).

(** [lookup]: the index of the object and the object. *)
Definition lookup_object (os : list Object) (own raw : Z) : option (nat * Object) :=
  if negb (Z.land raw 4294901760 =? TAG) || (Z.shiftr raw 32 =? 0) then None
  else
    let i := Z.to_nat (Z.land raw 65535) in
    o ← os !! i;
    if negb (bool_decide (owner o = Some own)) || negb (generation o =? as_u32 (Z.shiftr raw 32))
    then None else Some (i, o).

Definition notify_worker (w : World) : World :=
  match worker w with
  | Some k => set_sys (Op.signal [k] (sys w)) w
  | None => w
  end.

(** [start_worker], given the outcome of [task::spawn_with_priority]. *)
Definition start_worker (spawned : option Z) (w : World) : World * bool :=
  match worker w with
  | Some _ => (w, true)
  | None =>
      match spawned with
      | Some id => (mkWorld (sys w) (objects w) (Some id), true)
      | None => (w, false)
      end
  end.

Definition create (own : Z) (k : Kind) (w : World) : World * result Z () :=
  if (QUOTA <=? count_if (λ o, bool_decide (owner o = Some own)) (objects w))%nat then (w, Err ())
  else
    match position (λ o, bool_decide (owner o = None) && (generation o <? u32_max)) (objects w) with
    | None => (w, Err ())
    | Some i =>
        match objects w !! i with
        | None => (w, Err ())
        | Some o =>
            let o := mkObject (generation o + 1) (Some own) k None in
            (notify_worker (set_objects (<[i := o]> (objects w)) w),
             Ok (Z.lor (Z.lor (Z.shiftl (generation o) 32) TAG) (Z.of_nat i)))
        end
    end.

Definition create_timer (own deadline p : Z) (w : World) : World * result Z () :=
  if bool_decide (worker w = None) then (w, Err ())
  else
    match timer_new deadline p with
    | None => (w, Err ())
    | Some t => create own (KTimer t) w
    end.

Definition create_event (own : Z) (set : bool) (w : World) : World * result Z () :=
  create own (KEvent set) w.

Definition is_timer_kind (k : Kind) : bool := match k with KTimer _ => true | KEvent _ => false end.

(** The closure of [wait_current], run under the object lock. *)
Definition wait_object (os : list Object) (own raw : Z) (is_timer : bool) (now : Z) (h : Op.Handle)
    : list Object * result (option Z) () :=
  match lookup_object os own raw with
  | None => (os, Err ())
  | Some (i, o) =>
      if negb (Bool.eqb (is_timer_kind (kind o)) is_timer) || bool_decide (is_Some (waiter o))
      then (os, Err ())
      else
        let '(o, count) := ready o now in
        if negb (count =? 0) then (<[i := o]> os, Ok (Some count))
        else if match kind o with KTimer t => exhausted t | KEvent _ => false end
        then (<[i := o]> os, Err ())
        else (<[i := set_waiter (Some h) o]> os, Ok None)
  end.

Definition wait_current (cur : option Z) (process now raw : Z) (is_timer : bool) (w : World)
    : World * result Op.Handle () :=
  match Op.allocate_current cur (if is_timer then Op.Timer else Op.Event) (sys w) with
  | (x, Err _) => (set_sys x w, Err ())
  | (x, Ok h) =>
      let '(os, res) := wait_object (objects w) process raw is_timer now h in
      let w := mkWorld x os (worker w) in
      match res with
      | Ok (Some count) => (set_sys (Op.complete h (Op.completion_new 0 count) x).1 w, Ok h)
      | Ok None => (notify_worker w, Ok h)
      | Err _ => (set_sys (Op.release_current cur h x).1 w, Err ())
      end
  end.

Definition set_event (own raw : Z) (set : bool) (w : World) : World * result () () :=
  match lookup_object (objects w) own raw with
  | None => (w, Err ())
  | Some (i, o) =>
      match kind o with
      | KTimer _ => (w, Err ())
      | KEvent _ =>
          let o1 := set_kind (KEvent set) o in
          let '(o2, woken) := if set then (set_waiter None o1, waiter o) else (o1, None) in
          let w := set_objects (<[i := o2]> (objects w)) w in
          match woken with
          | Some h => (set_sys (Op.complete h (Op.completion_new 0 1) (sys w)).1 w, Ok ())
          | None => (w, Ok ())
          end
      end
  end.

Definition close (cur : option Z) (own raw : Z) (is_timer : bool) (w : World) : World * result () () :=
  match lookup_object (objects w) own raw with
  | None => (w, Err ())
  | Some (i, o) =>
      if negb (Bool.eqb (is_timer_kind (kind o)) is_timer) then (w, Err ())
      else
        let w := set_objects (<[i := clear o]> (objects w)) w in
        let w := match waiter o with
                 | Some h => set_sys (Op.cancel_current cur h (sys w)).1 w
                 | None => w
                 end in
        (notify_worker w, Ok ())
  end.

Definition cancel (h : Op.Handle) (w : World) : World :=
  set_objects ((λ o, if bool_decide (waiter o = Some h) then set_waiter None o else o) <$> objects w) w.

Definition release_owner (own : Z) (w : World) : World :=
  set_objects ((λ o, if bool_decide (owner o = Some own) then clear o else o) <$> objects w) w.

(** The body of the loop of [pump] for one object: the object, its completion if any,
    and the deadline it contributes. *)
Definition pump_object (now : Z) (o : Object) : Object * option (Op.Handle * Z) * option Z :=
  if bool_decide (owner o = None) then (o, None, None)
  else
    let '(o, d) :=
      match kind o with
      | KTimer t => let t := advance t now in (set_kind (KTimer t) o, next t)
      | KEvent _ => (o, None)
      end in
    match waiter o with
    | None => (o, None, d)
    | Some h =>
        let '(o, count) := ready o now in
        if negb (count =? 0) then (set_waiter None o, Some (h, count), d) else (o, None, d)
    end.

Definition pump (now : Z) (w : World) : World * Z :=
  let rs := pump_object now <$> objects w in
  let completions := flatten ((λ r, r.1.2) <$> rs) in
  let deadline := foldl Z.min u64_max (flatten (snd <$> rs)) in
  let x := foldl (λ x hc, (Op.complete hc.1 (Op.completion_new 0 hc.2) x).1) (sys w) completions in
  (mkWorld x ((λ r, r.1.1) <$> rs) (worker w), deadline).

Definition active_count (w : World) : nat :=
  count_if (λ o, bool_decide (is_Some (owner o))) (objects w).

(** [structural_self_test], run by task [cur] of process [own] at tick [now]. *)
Definition structural_self_test (cur : option Z) (own now : Z) (w : World) : World * bool :=
  match create_event own false w with
  | (w, Err _) => (w, false)
  | (w, Ok event) =>
  match set_event own event true w with
  | (w, Err _) => (w, false)
  | (w, Ok _) =>
  match wait_current cur own now event false w with
  | (w, Err _) => (w, false)
  | (w, Ok event_handle) =>
      let '(x, r) := Op.wait_complete cur event_handle (sys w) in
      let w := set_sys x w in
      let event_result := match r with Ok (Some c) => Op.value c =? 1 | _ => false end in
      match close cur own event false w with
      | (w, Err _) => (w, false)
      | (w, Ok _) =>
          if negb event_result then (w, false)
          else
            let deadline := saturating_add64 now 2 in
            match create_timer own deadline 0 w with
            | (w, Err _) => (w, false)
            | (w, Ok timer_raw) =>
            match wait_current cur own now timer_raw true w with
            | (w, Err _) => (w, false)
            | (w, Ok timer_handle) =>
                let '(w, _) := pump deadline w in
                let '(x, r) := Op.wait_complete cur timer_handle (sys w) in
                let w := set_sys x w in
                let timer_result := match r with Ok (Some c) => Op.value c =? 1 | _ => false end in
                match close cur own timer_raw true w with
                | (w, Ok _) => (w, timer_result)
                | (w, Err _) => (w, false)
                end
            end
            end
      end
  end
  end
  end.

End Events.

(** ** Proofs *)
Module EventsProofs.
Import Deadline Events.
#[local] Existing Instance Op.Handle_eq_dec.

Record wf_timer (t : Timer) : Prop := {
  wt_next : ∀ d, next t = Some d → 0 ≤ d < u64_max;
  wt_period : 0 ≤ period t < u64_max;
  wt_pending : 0 ≤ pending t ≤ u64_max
}.

(** What a waiter is registered on: an event that is not set, or a timer with
    nothing pending and a deadline still to come. *)
Definition waits_on (k : Kind) : Prop :=
  match k with
  | KEvent set => set = false
  | KTimer t => pending t = 0 ∧ is_Some (next t)
  end.

Record wf_object (o : Object) : Prop := {
  wo_generation : in_u32 (generation o);
  wo_timer : ∀ t, kind o = KTimer t → wf_timer t;
  wo_waiter : waiter o ≠ None → owner o ≠ None ∧ waits_on (kind o)
}.

Definition owns (own : Z) (o : Object) : bool := bool_decide (owner o = Some own).

Record wf_objects (os : list Object) : Prop := {
  ws_length : length os = COUNT;
  ws_objects : ∀ i o, os !! i = Some o → wf_object o;
  ws_quota : ∀ own, (count_if (owns own) os ≤ QUOTA)%nat
}.

(** ** Timers *)

Lemma advance_wf t now : wf_timer t → 0 ≤ now < u64_max → wf_timer (advance t now).
Proof.
  intros [Hn Hp Hpe] Hnow. unfold advance. destruct (next t) as [d|] eqn:E; [|by split; rewrite ?E].
  destruct (Hn d eq_refl) as [Hd1 Hd2].
  destruct (Z.ltb_spec now d); [by split; rewrite ?E; auto|].
  assert (Hq : 0 ≤ (now - d) / period t ∨ period t = 0).
  { destruct (Z.eq_dec (period t) 0); [by right|left; apply Z.div_pos; lia]. }
  split; cbn [next period pending]; [|done|].
  - intros d' Hd'. destruct (Z.eqb_spec (period t) 0) as [|Hne]; [done|].
    revert Hd'. unfold checked_mul64, checked_add64, checked_div, saturating_add64, saturating_sub.
    rewrite (proj2 (Z.eqb_neq (period t) 0)) by done. cbn [from_option]. unfold id.
    rewrite Z.max_l by lia. set (c := Z.min _ _).
    assert (0 ≤ c) by (unfold c, u64_max; lia).
    destruct (_ <=? _); [|done]. cbn [mbind option_bind]. destruct (_ <=? _); [|done].
    cbn [mbind option_bind]. destruct (Z.ltb_spec (d + period t * c) u64_max); [|done].
    intros [= <-]. nia.
  - unfold saturating_add64, saturating_sub, checked_div, u64_max in *.
    destruct (Z.eqb_spec (period t) 0) as [|Hne]; cbn [from_option]; unfold id; [lia|].
    rewrite (Z.max_l (now - d)) by lia. generalize dependent ((now - d) / period t). lia.
Qed.

(** A timer with nothing pending fires exactly its due deadlines, and its next
    deadline is in the future. *)
Lemma advance_fresh t now d :
  wf_timer t → 0 ≤ now < u64_max → pending t = 0 → next t = Some d →
  pending (advance t now) = due d (period t) now ∧
  ∀ d', next (advance t now) = Some d' → now < d' ∧ (due d (period t) now = 0 → d' = d).
Proof.
  intros [Hn Hp Hpe] Hnow Hz Hd. specialize (Hn d Hd).
  assert (Ht : t = mkTimer (Some d) (period t) 0) by (destruct t; cbn in *; congruence).
  pose proof (exact_new d (period t) Hn) as H0. rewrite <-Ht in H0.
  assert (Hex : exact d (period t) (Z.max (-1) now) (advance t now, 0)).
  { destruct (Z.eq_dec (period t) 0).
    - eapply (exact_advance_once d (period t)) with (st := (t, 0)); try done; lia.
    - eapply (exact_advance_periodic d (period t)) with (st := (t, 0)); try done; unfold u64_max in *; lia. }
  rewrite Z.max_r in Hex by lia. destruct Hex as [_ _ _ H4 H5]. cbn in H4, H5. split; [lia|].
  intros d'. rewrite H5. destruct (Z.eqb_spec (period t) 0) as [Hz0|Hnz].
  - destruct (Z.ltb_spec now d); [|done]. intros [= <-]. done.
  - destruct (_ <? u64_max); [|done]. intros [= <-].
    destruct (due_periodic d (period t) now ltac:(lia)) as [[H6 H7]|(H6 & H7 & H8)]; lia.
Qed.

Lemma timer_new_wf d p t : 0 ≤ d → 0 ≤ p → timer_new d p = Some t → wf_timer t.
Proof.
  intros Hd Hp. unfold timer_new. destruct (_ && _) eqn:G; [|done]. intros [= <-].
  apply andb_true_iff in G as [G1%Z.ltb_lt G2%Z.ltb_lt]. split; cbn; [|lia|unfold u64_max; lia].
  intros d' [= <-]. lia.
Qed.

(** After [advance], [next] is in the future. *)
Lemma advance_future t now d :
  wf_timer t → 0 ≤ now < u64_max → next (advance t now) = Some d → now < d.
Proof.
  intros Hwf Hnow H. destruct (next t) as [d0|] eqn:E.
  2:{ unfold advance in H. rewrite E in H. congruence. }
  set (t0 := mkTimer (Some d0) (period t) 0).
  assert (Hwf0 : wf_timer t0).
  { destruct Hwf as [Hn Hp Hpe]. split; cbn; [|done|unfold u64_max; lia]. intros d' [= <-]. by apply Hn. }
  assert (Heq : next (advance t now) = next (advance t0 now)).
  { unfold advance. rewrite E. cbn [t0 next period]. by destruct (now <? d0). }
  rewrite Heq in H. by apply (advance_fresh t0 now d0 Hwf0 Hnow eq_refl eq_refl) in H as [H _].
Qed.

(** ** Objects *)

Definition keeps_owner (o o' : Object) : Prop := owner o' = owner o ∨ owner o' = None.

Lemma keeps_owns own o o' : keeps_owner o o' → owns own o' = true → owns own o = true.
Proof.
  unfold owns. rewrite !bool_decide_eq_true. intros [->| ->]; [done|done].
Qed.

Lemma update_wf os i o o' :
  wf_objects os → os !! i = Some o → wf_object o' → keeps_owner o o' → wf_objects (<[i := o']> os).
Proof.
  intros [Hl Ho Hq] Hi Hw Hk. split.
  - by rewrite length_insert.
  - intros j x Hx. apply list_lookup_insert_Some in Hx as [(_ & <- & _)|[_ Hx]]; [done|by eapply Ho].
  - intros own. etransitivity; [|apply (Hq own)]. apply count_if_mono; [by rewrite length_insert|].
    intros j x x' Hx Hx'. apply list_lookup_insert_Some in Hx' as [(<- & <- & _)|[_ Hx']].
    + replace x with o by congruence. by apply keeps_owns.
    + congruence.
Qed.

Lemma map_wf f os :
  wf_objects os → (∀ o, wf_object o → wf_object (f o) ∧ keeps_owner o (f o)) → wf_objects (f <$> os).
Proof.
  intros [Hl Ho Hq] Hf. split.
  - by rewrite length_fmap.
  - intros i x Hx. apply list_lookup_fmap_Some in Hx as (o & -> & Hi). by apply Hf, (Ho i).
  - intros own. etransitivity; [|apply (Hq own)]. apply count_if_mono; [by rewrite length_fmap|].
    intros j x x' Hx Hx'. rewrite list_lookup_fmap, Hx in Hx'. injection Hx' as <-.
    by apply keeps_owns, Hf, (Ho j).
Qed.

Lemma lookup_object_Some os own raw i o :
  lookup_object os own raw = Some (i, o) → os !! i = Some o ∧ owner o = Some own.
Proof.
  unfold lookup_object. destruct (negb _ || _); [done|].
  destruct (os !! _) as [o'|] eqn:E; [|done]. cbn [mbind option_bind].
  destruct (negb (bool_decide _) || _) eqn:G; [done|]. intros [= <- <-]. split; [done|].
  apply orb_false_iff in G as [G _]. by apply negb_false_iff, bool_decide_eq_true in G.
Qed.

Lemma ready_spec o now o' n :
  wf_object o → 0 ≤ now < u64_max → ready o now = (o', n) →
  wf_object (set_waiter None o') ∧ owner o' = owner o ∧ generation o' = generation o ∧
  waiter o' = waiter o ∧
  (∀ t, kind o' = KTimer t → wf_timer t ∧ pending t = 0) ∧
  (n = 0 → ∀ b, kind o' = KEvent b → b = false).
Proof.
  intros [Hg Ht Hw] Hnow. unfold ready. destruct (kind o) as [t|b] eqn:E.
  - cbn [take]. intros [= <- <-]. cbn.
    assert (Hwt : wf_timer (mkTimer (next (advance t now)) (period (advance t now)) 0)).
    { destruct (advance_wf t now (Ht t eq_refl) Hnow) as [H1 H2 H3]. split; cbn; [done|done|unfold u64_max; lia]. }
    split_and!; try done; [split; cbn; try done; by intros ? [= <-]|by intros ? [= <-]].
  - intros [= <- <-]. split_and!; try done; [split; cbn; try done; rewrite E; done|rewrite E; done|].
    intros Hn b' Hb. rewrite E in Hb. injection Hb as <-. by destruct b.
Qed.

Lemma wait_object_wf os own raw is_timer now h :
  wf_objects os → 0 ≤ now < u64_max → wf_objects (wait_object os own raw is_timer now h).1.
Proof.
  intros Hwf Hnow. unfold wait_object.
  destruct (lookup_object os own raw) as [[i o]|] eqn:E; [|done].
  apply lookup_object_Some in E as [Hi Ho].
  destruct (negb _) eqn:Gk; [done|]. cbn [orb]. case_bool_decide as Hw; [done|].
  destruct (ready o now) as [o' n] eqn:R.
  destruct (ready_spec o now o' n (ws_objects _ Hwf _ _ Hi) Hnow R) as (Hwo & Ho' & Hg' & Hw' & Ht & Hev).
  assert (Hnw : waiter o' = None) by (rewrite Hw'; by apply eq_None_not_Some).
  assert (Hsame : set_waiter None o' = o') by (rewrite <-Hnw; by destruct o').
  rewrite Hsame in Hwo.
  destruct (negb (n =? 0)) eqn:Gn; [by apply (update_wf os i o); try done; left|].
  apply negb_false_iff, Z.eqb_eq in Gn.
  destruct (match kind o' with KTimer t => exhausted t | KEvent _ => false end) eqn:Gx;
    (apply (update_wf os i o); [done|done| |by left]); [done|].
  split; cbn; [apply Hwo|apply Hwo|]. intros _. split; [by rewrite Ho', Ho|].
  destruct (kind o') as [t|b] eqn:Ek; cbn; [|by apply (Hev Gn)].
  destruct (Ht t eq_refl) as [_ Hp]. split; [done|].
  unfold exhausted in Gx. rewrite Hp in Gx. cbn in Gx. rewrite andb_true_r in Gx.
  apply bool_decide_eq_false in Gx. by destruct (next t); [eauto|].
Qed.

(** The number of expirations an object owes its waiter at [now]. *)
Definition fires (k : Kind) (now : Z) : Z :=
  match k with
  | KTimer t => match next t with Some d => due d (period t) now | None => 0 end
  | KEvent set => if set then 1 else 0
  end.

Lemma advance_again t now :
  wf_timer t → 0 ≤ now < u64_max → advance (advance t now) now = advance t now.
Proof.
  intros Hwf Hnow. unfold advance at 1. destruct (next (advance t now)) as [d|] eqn:E; [|done].
  pose proof (advance_future t now d Hwf Hnow E). by rewrite (proj2 (Z.ltb_lt _ _)) by lia.
Qed.

Lemma advance_not_due t now d :
  wf_timer t → 0 ≤ now < u64_max → pending t = 0 → next t = Some d →
  due d (period t) now = 0 → advance t now = t.
Proof.
  intros [Hn Hp Hpe] Hnow Hz Hd Hdue. unfold advance. rewrite Hd.
  destruct (Z.ltb_spec now d) as [|Hge]; [done|]. exfalso. revert Hdue. unfold due.
  rewrite (proj2 (Z.ltb_ge _ _)) by lia. destruct (Z.eqb_spec (period t) 0); [done|].
  assert (0 ≤ (now - d) / period t) by (apply Z.div_pos; lia). lia.
Qed.

(** One object under the pump. *)
Lemma pump_object_spec now o :
  0 ≤ now < u64_max → wf_object o → owner o ≠ None →
  ∃ o' c d, pump_object now o = (o', c, d) ∧ wf_object o' ∧ owner o' = owner o ∧
    (∀ h, waiter o = Some h →
      if fires (kind o) now =? 0 then waiter o' = Some h ∧ c = None
      else waiter o' = None ∧ c = Some (h, fires (kind o) now)) ∧
    (waiter o = None → waiter o' = None ∧ c = None) ∧
    (∀ t x, kind o' = KTimer t → next t = Some x → now < x ∧ d = Some x).
Proof.
  intros Hnow Hwf Ho. pose proof Hwf as [Hg Ht Hw]. unfold pump_object.
  rewrite bool_decide_eq_false_2 by done. destruct (kind o) as [t|b] eqn:E.
  - pose proof (Ht t eq_refl) as Hwt. pose proof (advance_wf t now Hwt Hnow) as Hwa.
    cbn [waiter set_kind]. destruct (waiter o) as [h|] eqn:Ew.
    + destruct (Hw ltac:(done)) as [_ [Hp [d Hd]]].
      destruct (advance_fresh t now d Hwt Hnow Hp Hd) as [Hpend Hfut].
      unfold ready. cbn [kind set_kind take]. rewrite advance_again by done. cbn [fires].
      rewrite Hd, <-Hpend. destruct (Z.eqb_spec (pending (advance t now)) 0) as [Hz|Hz]; cbn [negb].
      * pose proof (advance_not_due t now d Hwt Hnow Hp Hd ltac:(congruence)) as Heq.
        rewrite Heq in Hfut |- *.
        eexists _, _, _. split; [done|]. cbn. split_and!; try done.
        -- split; cbn; [done| |intros _; split; [done|]; cbn; by rewrite Hd].
           intros t' [= <-]. split; cbn; [exact (wt_next _ Hwt)|exact (wt_period _ Hwt)|unfold u64_max; lia].
        -- by intros h' [= <-].
        -- intros t' x [= <-] Hx. cbn in Hx. split; [|congruence]. by destruct (Hfut x Hx).
      * eexists _, _, _. split; [done|]. cbn. split_and!; try done.
        -- split; cbn; try done. intros t' [= <-].
           split; cbn; [exact (wt_next _ Hwa)|exact (wt_period _ Hwa)|unfold u64_max; lia].
        -- by intros h' [= <-].
        -- intros t' x [= <-] Hx. cbn in Hx. split; [by destruct (Hfut x Hx)|congruence].
    + eexists _, _, _. split; [done|]. cbn. split_and!; try done.
      * split; cbn; try done. by intros t' [= <-].
      * intros t' x [= <-] Hx. split; [|done]. by apply (advance_future t now x).
  - destruct (waiter o) as [h|] eqn:Ew.
    + destruct (Hw ltac:(done)) as [_ Hb]. cbn in Hb. subst b.
      unfold ready. rewrite E. cbn. eexists _, _, _. split; [done|]. split_and!; try done.
      * by intros h' [= <-].
      * congruence.
    + eexists _, _, _. split; [done|]. split_and!; try done. congruence.
Qed.

Lemma pump_object_wf now o :
  0 ≤ now < u64_max → wf_object o →
  wf_object (pump_object now o).1.1 ∧ keeps_owner o (pump_object now o).1.1.
Proof.
  intros Hnow Hwf. destruct (decide (owner o = None)) as [Hn|Hn].
  - unfold pump_object. rewrite bool_decide_eq_true_2 by done. split; [done|by left].
  - destruct (pump_object_spec now o Hnow Hwf Hn) as (o' & c & d & -> & Hw & Ho & _).
    split; [done|by left].
Qed.

(** ** Reachable object tables *)

Inductive call :=
  | StartWorker (spawned : option Z)
  | CreateTimer (own deadline p : Z)
  | CreateEvent (own : Z) (set : bool)
  | WaitObject (cur : option Z) (process now raw : Z) (is_timer : bool)
  | SetEvent (own raw : Z) (set : bool)
  | CloseObject (cur : option Z) (own raw : Z) (is_timer : bool)
  | CancelWait (h : Op.Handle)
  | ReleaseOwner (own : Z)
  | Pump (now : Z)
  | OpCall (c : OpProofs.call).

Definition step (w : World) (c : call) : World :=
  match c with
  | StartWorker k => (start_worker k w).1
  | CreateTimer own d p => (create_timer own d p w).1
  | CreateEvent own b => (create_event own b w).1
  | WaitObject cur pr now raw b => (wait_current cur pr now raw b w).1
  | SetEvent own raw b => (set_event own raw b w).1
  | CloseObject cur own raw b => (close cur own raw b w).1
  | CancelWait h => cancel h w
  | ReleaseOwner own => release_owner own w
  | Pump now => (pump now w).1
  | OpCall c => set_sys (OpProofs.step (sys w) c) w
  end.

(** Deadlines and periods are 64-bit words, and the clock has not reached the end of
    its range. *)
Definition call_ok (c : call) : Prop :=
  match c with
  | CreateTimer _ d p => 0 ≤ d ∧ 0 ≤ p
  | WaitObject _ _ now _ _ | Pump now => 0 ≤ now < u64_max
  | _ => True
  end.

Lemma objects_notify w : objects (notify_worker w) = objects w.
Proof. unfold notify_worker. by destruct (worker w). Qed.

Lemma create_wf own k w :
  wf_objects (objects w) → (∀ t, k = KTimer t → wf_timer t) → wf_objects (objects (create own k w).1).
Proof.
  intros [Hl Ho Hq] Hk. unfold create.
  destruct (Nat.leb_spec QUOTA (count_if (λ o, bool_decide (owner o = Some own)) (objects w))) as [|Hlt]; [done|].
  destruct (position _ (objects w)) as [i|] eqn:E; [|done].
  apply position_lookup in E as (o & Hi & G). rewrite Hi. cbn [fst]. rewrite objects_notify.
  apply andb_true_iff in G as [Hn%bool_decide_eq_true Hg%Z.ltb_lt].
  set (o' := mkObject _ _ _ _). cbn [objects set_objects]. split.
  - by rewrite length_insert.
  - intros j x Hx. apply list_lookup_insert_Some in Hx as [(_ & <- & _)|[_ Hx]]; [|by eapply Ho].
    pose proof (wo_generation _ (Ho _ _ Hi)) as Hr. unfold in_u32 in Hr.
    split; cbn; [unfold in_u32; lia|done|done].
  - intros own'. pose proof (count_if_insert (owns own') _ i o o' Hi) as Hc.
    specialize (Hq own'). assert (owns own' o = false) as Hf by (unfold owns; by rewrite Hn).
    rewrite Hf in Hc. cbn [Nat.b2n] in Hc. destruct (decide (own = own')) as [<-|Hne].
    + change (count_if (λ o, bool_decide (owner o = Some own)) (objects w))
        with (count_if (owns own) (objects w)) in Hlt.
      destruct (owns own o'); cbn [Nat.b2n] in Hc; lia.
    + assert (owns own' o' = false) as Hf' by (unfold owns; apply bool_decide_eq_false; cbn; congruence).
      rewrite Hf' in Hc. cbn [Nat.b2n] in Hc. lia.
Qed.

Lemma clear_wf o : wf_object o → wf_object (clear o) ∧ keeps_owner o (clear o).
Proof. intros [Hg Ht Hw]. split; [by split|by right]. Qed.

Lemma drop_waiter_wf o : wf_object o → wf_object (set_waiter None o) ∧ keeps_owner o (set_waiter None o).
Proof. intros [Hg Ht Hw]. split; [by split|by left]. Qed.

Lemma set_event_wf own raw b w :
  wf_objects (objects w) → wf_objects (objects (set_event own raw b w).1).
Proof.
  intros Hwf. unfold set_event. destruct (lookup_object _ _ _) as [[i o]|] eqn:E; [|done].
  apply lookup_object_Some in E as [Hi Ho]. destruct (kind o) as [t|b0] eqn:Ek; [done|].
  pose proof (ws_objects _ Hwf _ _ Hi) as [Hg Ht Hw].
  set (o2 := if b then _ else (set_kind (KEvent b) o, None)).
  assert (Hwf' : wf_objects (<[i := o2.1]> (objects w))).
  { apply (update_wf _ i o); [done|done| |unfold o2; destruct b; by left].
    unfold o2. destruct b; split; cbn; try done. rewrite Ho. intros Hs. split; [done|]. done. }
  destruct o2 as [o2 [h|]]; done.
Qed.

Lemma close_wf cur own raw b w :
  wf_objects (objects w) → wf_objects (objects (close cur own raw b w).1).
Proof.
  intros Hwf. unfold close. destruct (lookup_object _ _ _) as [[i o]|] eqn:E; [|done].
  apply lookup_object_Some in E as [Hi Ho]. destruct (negb _); [done|]. cbn [fst].
  rewrite objects_notify.
  assert (Hwf' : wf_objects (<[i := clear o]> (objects w))).
  { destruct (clear_wf o (ws_objects _ Hwf _ _ Hi)). by apply (update_wf _ i o). }
  by destruct (waiter o).
Qed.

Lemma wait_current_wf cur pr now raw b w :
  wf_objects (objects w) → 0 ≤ now < u64_max →
  wf_objects (objects (wait_current cur pr now raw b w).1).
Proof.
  intros Hwf Hnow. unfold wait_current.
  destruct (Op.allocate_current _ _ _) as [x [h|e]]; [|done].
  pose proof (wait_object_wf (objects w) pr raw b now h Hwf Hnow) as Hw.
  destruct (wait_object _ _ _ _ _ _) as [os [[n|]|[]]]; cbn [fst] in *; try done.
  by rewrite objects_notify.
Qed.

Lemma event_step_wf w c : wf_objects (objects w) → call_ok c → wf_objects (objects (step w c)).
Proof.
  intros Hwf Hok. destruct c as [k|own d p|own b|cur pr now raw b|own raw b|cur own raw b|h|own|now|c];
    cbn [step call_ok] in *.
  - unfold start_worker. destruct (worker w), k; done.
  - destruct Hok as [Hd Hp]. unfold create_timer. destruct (bool_decide _); [done|].
    destruct (timer_new d p) as [t|] eqn:E; [|done]. apply create_wf; [done|].
    intros t' [= <-]. by apply (timer_new_wf d p t).
  - by apply create_wf.
  - by apply wait_current_wf.
  - by apply set_event_wf.
  - by apply close_wf.
  - apply map_wf; [done|]. intros o Ho. case_bool_decide; [by apply drop_waiter_wf|by split; [|left]].
  - apply map_wf; [done|]. intros o Ho. case_bool_decide; [by apply clear_wf|by split; [|left]].
  - cbn. rewrite <-list_fmap_compose. apply map_wf; [done|]. intros o Ho. by apply pump_object_wf.
  - done.
Qed.

Lemma events_wf_boot : wf_objects (objects boot).
Proof.
  assert (Hs : ∀ i o, objects boot !! i = Some o → o = EMPTY).
  { intros i o [-> _]%lookup_replicate. done. }
  split; [done| |].
  - intros i o ->%Hs. split; cbn; try done.
  - intros own. cbn [objects boot]. rewrite count_if_replicate_false by done. unfold QUOTA. lia.
Qed.

(** In every reachable state no waiter is stranded: an operation is registered
    on an object only while the object is open and is either an event that is not set
    or a timer with no pending expiration and a deadline still to come; no process
    owns more than eight objects; and timers hold deadlines below [u64::MAX]. *)
Theorem event_objects_reachable_wf (cs : list call) :
  Forall call_ok cs → wf_objects (objects (foldl step boot cs)).
Proof.
  assert (H : ∀ w, wf_objects (objects w) → Forall call_ok cs → wf_objects (objects (foldl step w cs))).
  { induction cs as [|c cs IH]; intros w Hw Hok; [done|]. apply Forall_cons in Hok as [Hc Hcs].
    apply IH; [by apply event_step_wf|done]. }
  apply H, events_wf_boot.
Qed.

Lemma event_objects_reachable_wf_witness :
  let w := foldl step boot
    [StartWorker (Some 2); CreateTimer 5 10 3; WaitObject (Some 7) 5 4 7516323840 true; Pump 16] in
  wf_objects (objects w) ∧ waiter <$> objects w !! 0%nat = Some None.
Proof.
  split; [|reflexivity]. apply event_objects_reachable_wf.
  repeat constructor; unfold u64_max; lia.
Defined.

(** ** The worker *)

Lemma min_list_le z l x : x ∈ l → foldl Z.min z l ≤ x.
Proof.
  assert (Hle : ∀ l z, foldl Z.min z l ≤ z).
  { clear. induction l as [|y l IH]; intros z; cbn; [lia|]. specialize (IH (Z.min z y)). lia. }
  intros Hx. revert z. induction Hx as [x l|x y l _ IH]; intros z; cbn; [|apply IH].
  specialize (Hle l (Z.min z x)). lia.
Qed.

(** The pump completes every waiter that is due, and only those, exactly once:
    the completions it issues are, in object order, the waiters of open objects that
    have fired, each with the number of deadlines due at [now]. What it leaves waiting
    on a timer is due strictly later than [now], and no earlier than the deadline it
    returns for the worker's sleep, so the worker never oversleeps a waiter. *)
Theorem pump_exact (now : Z) (w : World) :
  0 ≤ now < u64_max → wf_objects (objects w) →
  let due_waiters := flatten
    ((λ o, if bool_decide (owner o = None) then None
           else h ← waiter o; let n := fires (kind o) now in if n =? 0 then None else Some (h, n))
     <$> objects w) in
  let '(w', deadline) := pump now w in
  sys w' = foldl (λ x hc, (Op.complete hc.1 (Op.completion_new 0 hc.2) x).1) (sys w) due_waiters ∧
  (∀ i o o', objects w !! i = Some o → objects w' !! i = Some o' →
    waiter o' = if bool_decide (owner o = None) || negb (fires (kind o) now =? 0) then None else waiter o) ∧
  (∀ i o' t d, objects w' !! i = Some o' → owner o' ≠ None → kind o' = KTimer t → next t = Some d →
    now < d ∧ deadline ≤ d).
Proof.
  intros Hnow Hwf. cbn zeta. unfold pump. split_and!.
  - cbn [sys]. f_equal. f_equal. rewrite <-list_fmap_compose. apply list_fmap_ext. intros i o Hi.
    unfold compose. case_bool_decide as Ho.
    + unfold pump_object. by rewrite bool_decide_eq_true_2.
    + destruct (pump_object_spec now o Hnow (ws_objects _ Hwf _ _ Hi) Ho)
        as (o' & c & d & -> & _ & _ & Hs & Hn & _). cbn [fst snd].
      destruct (waiter o) as [h|]; cbn [mbind option_bind]; [|by apply Hn].
      specialize (Hs h eq_refl). destruct (fires (kind o) now =? 0); by destruct Hs.
  - intros i o o' Hi Hi'. cbn [objects] in Hi'. rewrite !list_lookup_fmap, Hi in Hi'. cbn in Hi'.
    injection Hi' as <-. pose proof (ws_objects _ Hwf _ _ Hi) as Hwo. case_bool_decide as Ho; cbn [orb].
    + unfold pump_object. rewrite bool_decide_eq_true_2 by done. cbn.
      destruct (waiter o) eqn:Ew; [|done]. destruct Hwo as [_ _ Hw]. by destruct Hw; congruence.
    + destruct (pump_object_spec now o Hnow Hwo Ho) as (o' & c & d & -> & _ & _ & Hs & Hn & _). cbn [fst].
      destruct (waiter o) as [h|]; [|destruct Hn as [-> _]; [done|by destruct (negb _)]].
      specialize (Hs h eq_refl). destruct (fires (kind o) now =? 0); cbn; by destruct Hs.
  - intros i o' t d Hi' Ho' Hk Hd. cbn [objects] in Hi'. rewrite !list_lookup_fmap in Hi'.
    destruct (objects w !! i) as [o|] eqn:Hi; [|done]. cbn in Hi'. injection Hi' as <-.
    assert (Ho : owner o ≠ None).
    { intros Hn. unfold pump_object in Ho'. by rewrite bool_decide_eq_true_2 in Ho'. }
    destruct (pump_object_spec now o Hnow (ws_objects _ Hwf _ _ Hi) Ho)
      as (o1 & c & d1 & E & _ & _ & _ & _ & Hf). rewrite E in Hk. cbn in Hk.
    destruct (Hf t d Hk Hd) as [Hlt ->]. split; [done|]. apply min_list_le.
    apply list_elem_of_omap. exists (Some d). split; [|done]. apply list_elem_of_fmap.
    exists (pump_object now o). rewrite E. split; [done|]. rewrite <-E. apply list_elem_of_fmap.
    exists o. split; [done|]. by eapply list_elem_of_lookup_2.
Qed.

Lemma pump_exact_witness :
  let w := foldl step boot
    [StartWorker (Some 2); CreateTimer 5 10 3; WaitObject (Some 7) 5 4 7516323840 true] in
  let '(w', deadline) := pump 16 w in
  deadline = 19 ∧
  sys w' = (Op.complete (Op.mkHandle 0 1) (Op.completion_new 0 3) (sys w)).1.
Proof.
  cbv zeta. set (w := foldl step boot _).
  assert (Hwf : wf_objects (objects w)).
  { apply event_step_wf; [|unfold call_ok, u64_max; lia].
    apply event_step_wf; [|unfold call_ok; lia]. apply event_step_wf; [|exact I].
    apply events_wf_boot. }
  pose proof (pump_exact 16 w ltac:(unfold u64_max; lia) Hwf) as H.
  destruct (pump 16 w) as [w' deadline] eqn:E. destruct H as [H _]. split; [|rewrite H; reflexivity].
  vm_compute in E. by injection E as _ <-.
Defined.

(** The module's own structural test passes at boot once the worker exists. *)
Theorem events_self_test_passes :
  (structural_self_test (Some 7) 5 100 (start_worker (Some 2) boot).1).2 = true ∧
  active_count (structural_self_test (Some 7) 5 100 (start_worker (Some 2) boot).1).1 = 0%nat.
Proof. split; vm_compute; reflexivity. Qed.

End EventsProofs.
