(* ===== verification/TaskAuthority.v ===== *)
(** * Task authority (kernel/src/task.rs, lines 3741-4160)

    The reference monitor over the scheduler's tasks: effective capabilities (raw set,
    sandbox ceiling and lineage token together), capability grant and revocation,
    sandbox binding, and the file and device gates. [audit_actor] is the value of
    [current_process_id()], the process the ledger names; every record is stamped
    with the executing CPU [me]. [None] stands for a panic. *)
From S2P Require Import Prelude Capability WovenGuard SecurityLedger Lineage LineageService TaskControl Scheduler.

Module Auth.
Import Cap Task Sched.

Inductive CapabilityError := PermissionDenied | UnknownTask.

#[export] Instance CapabilityError_eq_dec : EqDecision CapabilityError.
Proof. solve_decision. Defined.

Definition registry (w : World) : Lin.Registry := Service.lineages (sec w).

(** A call into the audited lineage service or the ledger from CPU [me]. *)
Definition secure {A} (me : nat) (m : ST Service.Sys A) (w : World) : World * A :=
  let s := sec w in
  let '(a, s) := m (Service.mkSys (Service.lineages s) (Service.ledger s) (Service.now s) (Z.of_nat me)) in
  (set_sec s w, a).

(** [capability_lineages[capability.index()]] *)
Definition lineage_of (t : Tcb) (c : Capability) : option Z :=
  mjoin (capability_lineages t !! index c).

Definition bind_lineage (c : Capability) (l : option Z) (t : Tcb) : Tcb :=
  set_capability_lineages (<[index c := l]> (capability_lineages t)) t.

Definition task_effective_has (r : Lin.Registry) (t : Tcb) (c : Capability) : bool :=
  if negb (contains (capabilities t) c) || negb (Guard.allows (sandbox_profile t) c) then false
  else match lineage_of t c with
       | None => true
       | Some lineage => Lin.lineage_authorizes r lineage c
       end.

Definition task_effective_capabilities (r : Lin.Registry) (t : Tcb) : CapabilitySet :=
  foldl (λ effective c, if task_effective_has r t c then with_ effective c else effective) empty ALL.

(** The task running on CPU [me]. *)
Definition current (me : nat) (w : World) : option (nat * Tcb) :=
  slot ← current_slot (sched w) !! me;
  t ← tasks (sched w) !! slot;
  Some (slot, t).

Definition current_task_id (me : nat) (w : World) : option Z :=
  if task_count (sched w) =? 0 then None else '(_, t) ← current me w; Some (id t).

Definition current_has (me : nat) (c : Capability) (w : World) : option bool :=
  if task_count (sched w) =? 0 then None
  else '(_, t) ← current me w; Some (task_effective_has (registry w) t c).

Definition task_named (target : Z) (w : World) : option nat :=
  position (λ t, negb (bool_decide (state t = Empty)) && (id t =? target)) (tasks (sched w)).

Definition task_has (target : Z) (c : Capability) (w : World) : bool :=
  match (slot ← task_named target w; tasks (sched w) !! slot) with
  | Some t => task_effective_has (registry w) t c
  | None => false
  end.

(** ** The device and file gates *)

Definition authorize_current_device (me : nat) (actor : Z) (class : Guard.DeviceClass) (w : World)
    : option (World * bool) :=
  if task_count (sched w) =? 0 then None
  else '(_, t) ← current me w;
    let authority := task_effective_capabilities (registry w) t in
    let allowed := Guard.allowed (Guard.authorize_device_access authority (sandbox_profile t) class) in
    let '(w, _) := secure me (Service.record_detail actor Ledger.SandboxDeviceAccess
      (Guard.device_index class) (Z.of_nat (index (Guard.device_capability class))) allowed) w in
    Some (w, allowed).

Definition task_sandbox_profile (target : Z) (w : World) : option Guard.SandboxProfile :=
  slot ← task_named target w;
  t ← tasks (sched w) !! slot;
  Some (sandbox_profile t).

Definition sandbox_profile_for_process (process_id : Z) (w : World) : option Guard.SandboxProfile :=
  task_sandbox_profile process_id w.

Definition current_file_access_allowed (me : nat) (c : Capability) (scope : Guard.FileScope)
    (write : bool) (w : World) : bool :=
  if task_count (sched w) =? 0 then false
  else match current me w with
  | None => false
  | Some (_, t) =>
      if negb (task_effective_has (registry w) t c) then false
      else if write then Guard.allows_file_write (sandbox_profile t) scope
      else Guard.allows_file_read (sandbox_profile t) scope
  end.

Definition current_file_authority (me : nat) (w : World)
    : option (bool * bool * Guard.SandboxProfile) :=
  if task_count (sched w) =? 0 then None
  else '(_, t) ← current me w;
    Some (task_effective_has (registry w) t FileRead,
          task_effective_has (registry w) t FileWrite, sandbox_profile t).

(** FNV-1a over the path bytes. *)
Definition file_path_hash (path : list Z) : Z :=
  foldl (λ hash byte, wrap64 (Z.lxor hash byte * 0x1000000001b3)) 0xcbf29ce484222325 path.

Definition sandbox_file_access_for_task (me : nat) (target : Z) (path : list Z) (write : bool) (w : World)
    : World * bool :=
  let scope := Guard.classify_file_path path in
  let allowed := match task_sandbox_profile target w with
    | Some profile =>
        if write then Guard.allows_file_write profile scope else Guard.allows_file_read profile scope
    | None => false
    end in
  let '(w, _) := secure me (Service.record_detail target
    (if write then Ledger.SandboxFileWrite else Ledger.SandboxFileRead)
    (Guard.scope_index scope) (file_path_hash path) allowed) w in
  (w, allowed).

Definition authorize_current_file_path (me : nat) (actor : Z) (path : list Z) (write : bool) (w : World)
    : World * bool :=
  let scope := Guard.classify_file_path path in
  let allowed := current_file_access_allowed me (if write then FileWrite else FileRead) scope write w in
  let '(w, _) := secure me (Service.record_detail actor
    (if write then Ledger.SandboxFileWrite else Ledger.SandboxFileRead)
    (Guard.scope_index scope) (file_path_hash path) allowed) w in
  (w, allowed).

(** ** Grant, bind and revoke *)

(** The two records that close a grant or a revocation. *)
Definition conclude (me : nat) (actor : Z) (action : Ledger.Action) (target : Z)
    (w : World) (res : result () CapabilityError) : option (World * result () CapabilityError) :=
  let verdict := if is_ok res then Ledger.WovenGuardAllow else Ledger.WovenGuardDeny in
  let '(w, _) := secure me (Service.record actor verdict target (is_ok res)) w in
  let '(w, _) := secure me (Service.record actor action target (is_ok res)) w in
  Some (w, res).

(** The actor's own token for [c], issued on first use. *)
Definition delegation_parent (me actor_index : nat) (actor : Tcb) (c : Capability) (w : World)
    : World * result Z Lin.LineageError :=
  let fresh :=
    let '(w, res) := secure me (Service.issue_lineage_root (id actor) (only c)) w in
    match res with
    | Ok lineage => (update_task actor_index (bind_lineage c (Some lineage)) w, Ok lineage)
    | Err e => (w, Err e)
    end in
  match lineage_of actor c with
  | Some lineage => if Lin.lineage_authorizes (registry w) lineage c then (w, Ok lineage) else fresh
  | None => fresh
  end.

Definition grant (me : nat) (audit_actor target : Z) (c : Capability) (w : World)
    : option (World * result () CapabilityError) :=
  if task_count (sched w) =? 0 then None else
  '(actor_index, actor) ← current me w;
  let finish := conclude me audit_actor Ledger.CapabilityGrant target in
  let authority := task_effective_capabilities (registry w) actor in
  match task_named target w with
  | None => finish w (Err UnknownTask)
  | Some target_index =>
      tgt ← tasks (sched w) !! target_index;
      let decision := Guard.authorize_grant (security_domain actor) authority
        (security_domain tgt) (sandbox_profile tgt) c in
      if negb (Guard.allowed decision) then finish w (Err PermissionDenied)
      else if task_effective_has (registry w) tgt c && bool_decide (lineage_of tgt c = None)
      then finish w (Ok ())
      else
        match delegation_parent me actor_index actor c w with
        | (w, Err _) => Some (w, Err PermissionDenied)
        | (w, Ok parent) =>
            match secure me (Service.derive_lineage (id actor) parent target (only c)) w with
            | (w, Ok child) =>
                finish (update_task target_index (λ t,
                  bind_lineage c (Some child) (set_capabilities (with_ (capabilities t) c) t)) w) (Ok ())
            | (w, Err _) => finish w (Err PermissionDenied)
            end
        end
  end.

(** Remove [c] and its token from a task. *)
Definition strip (c : Capability) (t : Tcb) : Tcb :=
  bind_lineage c None (set_capabilities (without (capabilities t) c) t).

(** One turn of the tightening loop of [bind_sandbox_profile]. *)
Definition tighten (me : nat) (controller : Z) (target_index : nat) (profile : Guard.SandboxProfile)
    (w : World) (c : Capability) : World :=
  if Guard.allows profile c then w else
  match (t ← tasks (sched w) !! target_index; lineage_of t c) with
  | Some lineage =>
      let '(w, _) := secure me (Service.revoke_lineage_subtree_by_controller controller lineage) w in
      update_task target_index (strip c) w
  | None => update_task target_index (strip c) w
  end.

Definition bind_sandbox_profile (me : nat) (audit_actor target : Z) (profile : Guard.SandboxProfile)
    (w : World) : option (World * result () CapabilityError) :=
  if task_count (sched w) =? 0 then None else
  '(actor_index, actor) ← current me w;
  let authority := task_effective_capabilities (registry w) actor in
  match task_named target w with
  | None => Some (w, Err UnknownTask)
  | Some target_index =>
      tgt ← tasks (sched w) !! target_index;
      let decision := Guard.authorize_sandbox_bind (security_domain actor) authority
        (security_domain tgt) profile in
      let '(w, res) :=
        if negb (Guard.allowed decision) then (w, Err PermissionDenied)
        else
          let w := foldl (tighten me (id actor) target_index profile) w ALL in
          (update_task target_index (set_sandbox_profile profile) w, Ok ()) in
      let '(w, _) := secure me (Service.record_detail audit_actor
        (if is_ok res then Ledger.SandboxProfileBind else Ledger.SandboxProfileDeny)
        target (Guard.profile_id profile) (is_ok res)) w in
      Some (w, res)
  end.

(** Release of an emptied provenance root after its last child was revoked. *)
Definition releasable (r : Lin.Registry) (controller parent : Z) : bool :=
  match Lin.info r parent with
  | Ok info => (Lin.info_owner info =? controller) && bool_decide (Lin.info_parent info = None)
               && (Lin.info_child_count info =? 0)
  | Err _ => false
  end.

Definition release_parent (me actor_index : nat) (controller : Z) (c : Capability) (parent : Z)
    (w : World) : World :=
  if releasable (registry w) controller parent then
    let '(w, res) := secure me (Service.release_lineage controller parent) w in
    if is_ok res && bool_decide ((t ← tasks (sched w) !! actor_index; lineage_of t c) = Some parent)
    then update_task actor_index (bind_lineage c None) w
    else w
  else w.

Definition revoke_token (me actor_index : nat) (controller : Z) (c : Capability) (lineage : Z)
    (w : World) : World :=
  let parent := match Lin.info (registry w) lineage with
    | Ok info => Lin.info_parent info
    | Err _ => None
    end in
  let '(w, _) := secure me (Service.revoke_lineage_subtree_by_controller controller lineage) w in
  match parent with
  | Some parent => release_parent me actor_index controller c parent w
  | None => w
  end.

Definition revoke (me : nat) (audit_actor target : Z) (c : Capability) (w : World)
    : option (World * result () CapabilityError) :=
  if task_count (sched w) =? 0 then None else
  '(actor_index, actor) ← current me w;
  let finish := conclude me audit_actor Ledger.CapabilityRevoke target in
  let authority := task_effective_capabilities (registry w) actor in
  if negb (Guard.allowed (Guard.authorize_revoke authority)) then finish w (Err PermissionDenied)
  else match task_named target w with
  | Some target_index =>
      tgt ← tasks (sched w) !! target_index;
      let w := match lineage_of tgt c with
        | Some lineage => revoke_token me actor_index (id actor) c lineage w
        | None => w
        end in
      finish (update_task target_index (strip c) w) (Ok ())
  | None => finish w (Err UnknownTask)
  end.

End Auth.
