(* ===== verification/AuthorityProofs.v ===== *)
(** * Properties of task authority

    [sound]: every task's raw capabilities lie within its sandbox ceiling and every
    live token it holds authorizes the capability it is bound to. Grant, revocation
    and sandbox binding preserve it, and their effect on the effective capabilities
    of all tasks is characterised. *)
From stdpp Require Import relations.
From S2P Require Import Prelude Capability WovenGuard SecurityLedger Lineage LineageService TaskControl Scheduler TaskAuthority.

Module AuthProofs.
Import Cap Task Sched Auth.

Abbreviation authority := LinProofs.authority.

Definition valid (r : Lin.Registry) (l : Z) : bool := bool_decide (is_Some (authority r l)).

(** A well-formed task with respect to a registry. *)
Record good (r : Lin.Registry) (t : Tcb) : Prop := {
  g_width : length (capability_lineages t) = COUNT;
  g_contained : ∀ c, contains (capabilities t) c = true → Guard.allows (sandbox_profile t) c = true;
  g_tokens : ∀ c l, lineage_of t c = Some l →
    in_u32 l ∧ ∀ p o rts, authority r l = Some (p, o, rts) → contains rts c = true
}.

Definition sound (r : Lin.Registry) (ts : list Tcb) : Prop :=
  LinProofs.wf r ∧ ∀ (slot : nat) t, ts !! slot = Some t → good r t.

(** No task still holds the token a free registry slot would issue next. *)
Definition unheld (r : Lin.Registry) (ts : list Tcb) : Prop :=
  ∀ (i : nat) e (slot : nat) t c l, Lin.slots r !! i = Some e → Lin.active e = false →
    ts !! slot = Some t → lineage_of t c = Some l → l ≠ Lin.slot_id e i.

Definition effective (r : Lin.Registry) (ts : list Tcb) (slot : nat) (c : Capability) : bool :=
  match ts !! slot with Some t => task_effective_has r t c | None => false end.

(** ** Tokens *)

Lemma authorizes_authority r l c :
  Lin.lineage_authorizes r l c = match authority r l with Some (_, _, rts) => contains rts c | None => false end.
Proof. unfold Lin.lineage_authorizes, authority. by destruct (Lin.info r l). Qed.

(** On well-formed tasks the ceiling and the token's rights never decide. *)
Lemma has_good r t c :
  good r t →
  task_effective_has r t c =
    contains (capabilities t) c && match lineage_of t c with None => true | Some l => valid r l end.
Proof.
  intros Hg. unfold task_effective_has. destruct (contains (capabilities t) c) eqn:Ec; [|done].
  rewrite (g_contained _ _ Hg c Ec). simpl. destruct (lineage_of t c) as [l|] eqn:El; [|done].
  rewrite authorizes_authority. unfold valid.
  destruct (authority r l) as [[[p o] rts]|] eqn:Ea.
  - rewrite (proj2 (g_tokens _ _ Hg c l El) p o rts Ea). symmetry. by apply bool_decide_eq_true.
  - symmetry. apply bool_decide_eq_false. by intros [? ?].
Qed.

Lemma grown_authority r r' n new up l :
  LinProofs.wf r → LinProofs.grown r r' n new up → in_u32 l →
  authority r' l =
    if l =? Lin.slot_id new n then Some (Lin.parent new, Lin.owner new, Lin.rights new) else authority r l.
Proof.
  intros Hwf Hgr Hl. pose proof (LinProofs.grown_wf _ _ _ _ _ Hwf Hgr) as Hwf'.
  unfold authority. destruct (Z.eqb_spec l (Lin.slot_id new n)) as [->|Hne].
  { by rewrite (LinProofs.info_live _ Hwf' _ _ (LinProofs.grown_live_new _ _ _ _ _ Hgr)). }
  destruct (LinProofs.resolve r l Hwf Hl) as [(i & e & He & -> & _)|[Hn Hno]].
  - destruct (LinProofs.touch_same up 1 i e) as (_ & _ & Hp & Ho & Hr & Hs & _).
    rewrite <-Hs at 1.
    rewrite (LinProofs.info_live _ Hwf' _ _ (LinProofs.grown_live_old _ _ _ _ _ Hgr _ _ He)).
    rewrite (LinProofs.info_live _ Hwf _ _ He). simpl. by rewrite Hp, Ho, Hr.
  - unfold Lin.info at 2. rewrite Hn. simpl.
    destruct (LinProofs.resolve r' l Hwf' Hl) as [(i & e & He & -> & _)|[Hn' _]].
    + exfalso. destruct (LinProofs.grown_live _ _ _ _ _ Hgr _ _ He) as [[-> ->]|(e0 & He0 & ->)]; [done|].
      apply (Hno _ _ He0). by destruct (LinProofs.touch_same up 1 i e0) as (_ & _ & _ & _ & _ & -> & _).
    + unfold Lin.info. by rewrite Hn'.
Qed.

(** Dropping or keeping authority never validates a held token. *)
Definition narrows (r r' : Lin.Registry) (t : Tcb) : Prop :=
  ∀ c l, lineage_of t c = Some l → authority r' l = None ∨ authority r' l = authority r l.

Lemma good_narrows r r' t : good r t → narrows r r' t → good r' t.
Proof.
  intros Hg Hn. split; [apply Hg..|]. intros c l Hl. split; [by eapply g_tokens|].
  intros p o rts Ha. destruct (Hn c l Hl) as [H|H]; [congruence|].
  rewrite H in Ha. by eapply (g_tokens _ _ Hg c l Hl).
Qed.

Lemma lineage_of_bind c l t d :
  length (capability_lineages t) = COUNT →
  lineage_of (bind_lineage c l t) d = if bool_decide (c = d) then l else lineage_of t d.
Proof.
  intros Hw. unfold lineage_of, bind_lineage. cbn [capability_lineages set_capability_lineages].
  case_bool_decide as H; [subst|].
  - rewrite list_lookup_insert_eq; [done|]. rewrite Hw. apply index_lt.
  - rewrite list_lookup_insert_ne; [done|]. intros ?%index_inj. done.
Qed.

Lemma good_bind r t c l :
  good r t → (∀ id, l = Some id → in_u32 id ∧ ∀ p o rts, authority r id = Some (p, o, rts) → contains rts c = true) →
  good r (bind_lineage c l t).
Proof.
  intros Hg Hl. pose proof (g_width _ _ Hg) as Hw. split; try apply Hg.
  - unfold bind_lineage. cbn [capability_lineages set_capability_lineages]. by rewrite length_insert.
  - intros d id. rewrite lineage_of_bind by done. case_bool_decide; subst; [by apply Hl|by apply Hg].
Qed.

Lemma good_with r t c :
  good r t → Guard.allows (sandbox_profile t) c = true →
  good r (set_capabilities (with_ (capabilities t) c) t).
Proof.
  intros Hg Ha. split; try apply Hg.
  - intros d. cbn [capabilities sandbox_profile set_capabilities]. rewrite contains_with.
    intros [->%bool_decide_eq_true|Hd]%orb_true_iff; [done|by apply Hg].
Qed.

Lemma good_strip r t c : good r t → good r (strip c t).
Proof.
  intros Hg. apply good_bind; [|done]. split; try apply Hg.
  - intros d. cbn [capabilities sandbox_profile set_capabilities].
    rewrite contains_without. intros [Hd _]%andb_true_iff. by apply Hg.
Qed.

(** ** Effective capabilities after each elementary change *)

Lemma has_strip r t c d :
  good r t → task_effective_has r (strip c t) d = task_effective_has r t d && negb (bool_decide (c = d)).
Proof.
  intros Hg. rewrite !has_good by auto using good_strip. unfold strip at 2.
  rewrite lineage_of_bind by apply Hg. change (capabilities (strip c t)) with (without (capabilities t) c).
  rewrite contains_without. case_bool_decide; simpl; [by rewrite !andb_false_r|].
  by rewrite !andb_true_r.
Qed.

Lemma has_grant r t c l d :
  good r t → Guard.allows (sandbox_profile t) c = true → in_u32 l →
  (∃ p o rts, authority r l = Some (p, o, rts) ∧ contains rts c = true) →
  let t' := bind_lineage c (Some l) (set_capabilities (with_ (capabilities t) c) t) in
  good r t' ∧ task_effective_has r t' d = task_effective_has r t d || bool_decide (c = d).
Proof.
  intros Hg Ha Hl (p & o & rts & Hau & Hc) t'.
  assert (Hg' : good r t').
  { apply good_bind; [by apply good_with|]. intros id [= <-]. split; [done|].
    intros p' o' rts' H. congruence. }
  split; [done|]. rewrite !has_good by done. unfold t'.
  rewrite lineage_of_bind by apply Hg.
  change (capabilities (bind_lineage _ _ _)) with (with_ (capabilities t) c).
  change (lineage_of (set_capabilities _ t) d) with (lineage_of t d).
  rewrite contains_with. case_bool_decide as Hd; simpl; [|by rewrite orb_false_r].
  rewrite orb_true_r. unfold valid. apply bool_decide_eq_true. by eexists.
Qed.

(** Rebinding intrinsic authority to a live token, or the reverse. *)
Lemma has_rebind r t c l d :
  good r t → lineage_of t c = None → in_u32 l →
  (∃ p o rts, authority r l = Some (p, o, rts) ∧ contains rts c = true) →
  let t' := bind_lineage c (Some l) t in
  good r t' ∧ task_effective_has r t' d = task_effective_has r t d.
Proof.
  intros Hg Hn Hl (p & o & rts & Hau & Hc) t'.
  assert (Hg' : good r t').
  { apply good_bind; [done|]. intros id [= <-]. split; [done|]. intros p' o' rts' H. congruence. }
  split; [done|]. rewrite !has_good by done. unfold t'.
  rewrite lineage_of_bind by apply Hg. change (capabilities (bind_lineage _ _ t)) with (capabilities t).
  case_bool_decide as Hd; [subst|done]. rewrite Hn. f_equal.
  unfold valid. apply bool_decide_eq_true. by eexists.
Qed.

Lemma has_narrows r r' t c :
  good r t → narrows r r' t → task_effective_has r' t c = true → task_effective_has r t c = true.
Proof.
  intros Hg Hn. rewrite !has_good by eauto using good_narrows.
  intros [-> H]%andb_true_iff. simpl. destruct (lineage_of t c) as [l|] eqn:El; [|done].
  unfold valid in *. apply bool_decide_eq_true in H. apply bool_decide_eq_true.
  destruct (Hn c l El) as [Hx|Hx]; rewrite Hx in H; [by destruct H|done].
Qed.

Lemma has_same r r' t c :
  good r t → (∀ d l, lineage_of t d = Some l → authority r' l = authority r l) →
  task_effective_has r' t c = task_effective_has r t c.
Proof.
  intros Hg Hn. unfold task_effective_has. destruct (_ || _); [done|].
  destruct (lineage_of t c) as [l|] eqn:El; [|done]. by rewrite !authorizes_authority, (Hn c l El).
Qed.

(** ** The audited calls *)

Lemma secure_issue me o rts w :
  ∃ w', secure me (Service.issue_lineage_root o rts) w = (w', (Lin.issue_root (registry w) o rts).2) ∧
    registry w' = (Lin.issue_root (registry w) o rts).1 ∧ sched w' = sched w.
Proof.
  unfold secure, registry, Service.issue_lineage_root, Service.with_lineages, Service.record_detail,
    modify, mbind, ST_bind, mret, ST_ret. cbn [Service.lineages].
  destruct (Lin.issue_root _ o rts) as [r res]. eexists. split; [reflexivity|]. done.
Qed.

Lemma secure_derive me a p o rts w :
  ∃ w', secure me (Service.derive_lineage a p o rts) w = (w', (Lin.derive (registry w) a p o rts).2) ∧
    registry w' = (Lin.derive (registry w) a p o rts).1 ∧ sched w' = sched w.
Proof.
  unfold secure, registry, Service.derive_lineage, Service.with_lineages, Service.record_detail,
    modify, mbind, ST_bind, mret, ST_ret. cbn [Service.lineages].
  destruct (Lin.derive _ a p o rts) as [r res]. eexists. split; [reflexivity|]. done.
Qed.

Lemma secure_release me a l w :
  ∃ w', secure me (Service.release_lineage a l) w = (w', (Lin.release (registry w) a l).2) ∧
    registry w' = (Lin.release (registry w) a l).1 ∧ sched w' = sched w.
Proof.
  unfold secure, registry, Service.release_lineage, Service.with_lineages, Service.record,
    Service.record_detail, modify, mbind, ST_bind, mret, ST_ret. cbn [Service.lineages].
  destruct (Lin.release _ a l) as [r res]. eexists. split; [reflexivity|]. done.
Qed.

Lemma secure_revoke me a l w :
  ∃ w', secure me (Service.revoke_lineage_subtree_by_controller a l) w =
      (w', (Lin.revoke_subtree_by_controller (registry w) l).2) ∧
    registry w' = (Lin.revoke_subtree_by_controller (registry w) l).1 ∧ sched w' = sched w.
Proof.
  unfold secure, registry, Service.revoke_lineage_subtree_by_controller, Service.with_lineages,
    Service.record, Service.record_detail, modify, mbind, ST_bind, mret, ST_ret. cbn [Service.lineages].
  destruct (Lin.revoke_subtree_by_controller _ l) as [r res]. eexists. split; [reflexivity|]. done.
Qed.

Lemma secure_record me a act tgt det ok w :
  ∃ w', secure me (Service.record_detail a act tgt det ok) w = (w', ()) ∧
    registry w' = registry w ∧ sched w' = sched w.
Proof. eexists. split; [reflexivity|]. done. Qed.

Lemma conclude_spec me a act tgt w res :
  ∃ w', conclude me a act tgt w res = Some (w', res) ∧ registry w' = registry w ∧ sched w' = sched w.
Proof. eexists. split; [reflexivity|]. done. Qed.


(** ** Task tables *)

Lemma sound_alter r ts slot f :
  sound r ts → (∀ t, ts !! slot = Some t → good r (f t)) → sound r (alter f slot ts).
Proof.
  intros [Hwf Hts] Hf. split; [done|]. intros k t. destruct (decide (slot = k)) as [<-|Hne].
  - rewrite list_lookup_alter_eq. intros (t0 & H0 & ->)%fmap_Some. by apply Hf.
  - rewrite list_lookup_alter_ne by done. apply Hts.
Qed.

Lemma effective_alter r ts slot f k d :
  effective r (alter f slot ts) k d =
    if bool_decide (slot = k)
    then match ts !! slot with Some t => task_effective_has r (f t) d | None => false end
    else effective r ts k d.
Proof.
  unfold effective. case_bool_decide; [subst; rewrite list_lookup_alter_eq; by destruct (ts !! k)|].
  by rewrite list_lookup_alter_ne.
Qed.

Lemma effective_alter_same r ts slot f k d :
  (∀ t, ts !! slot = Some t → task_effective_has r (f t) d = task_effective_has r t d) →
  effective r (alter f slot ts) k d = effective r ts k d.
Proof.
  intros Hf. rewrite effective_alter. case_bool_decide; [subst|done].
  unfold effective. destruct (ts !! k) as [t|] eqn:E; [by apply Hf|done].
Qed.

Lemma inactive_authority r (i : nat) e :
  LinProofs.wf r → Lin.slots r !! i = Some e → Lin.active e = false →
  authority r (Lin.slot_id e i) = None.
Proof.
  intros Hwf Hi Ha. assert (Hlen : (i < 64)%nat).
  { apply lookup_lt_Some in Hi. by rewrite (LinProofs.wf_length _ Hwf) in Hi. }
  pose proof (LinProofs.wf_generation _ Hwf _ _ Hi) as Hg.
  destruct (LinProofs.id_roundtrip i (Lin.generation e)) as (_ & _ & Hu); [lia|lia|].
  destruct (LinProofs.resolve r (Lin.slot_id e i) Hwf Hu) as [(j & f & Hf & Heq & _)|[Hn _]].
  - exfalso. pose proof (LinProofs.live_lt _ Hwf _ _ Hf).
    apply LinProofs.from_parts_inj in Heq as [-> _]; [|lia|lia|lia|by apply (LinProofs.live_gen _ Hwf j)].
    destruct Hf. congruence.
  - unfold authority, Lin.info. by rewrite Hn.
Qed.

(** Allocating a token nobody holds changes nobody's authority. *)
Lemma grow_sound r r' n new up ts :
  sound r ts → unheld r ts → LinProofs.grown r r' n new up →
  sound r' ts ∧ unheld r' ts ∧ (∀ slot d, effective r' ts slot d = effective r ts slot d) ∧
  in_u32 (Lin.slot_id new n) ∧
  authority r' (Lin.slot_id new n) = Some (Lin.parent new, Lin.owner new, Lin.rights new).
Proof.
  intros [Hwf Hts] Hun Hgr. pose proof (LinProofs.grown_wf _ _ _ _ _ Hwf Hgr) as Hwf'.
  assert (Hsame : ∀ (slot : nat) t c l, ts !! slot = Some t → lineage_of t c = Some l →
    authority r' l = authority r l).
  { intros slot t c l Ht Hl. rewrite (grown_authority _ _ _ _ _ _ Hwf Hgr) by (by eapply (Hts slot)).
    destruct (LinProofs.gr_free _ _ _ _ _ Hgr) as (old & Ho & Hina & Hg).
    rewrite (proj2 (Z.eqb_neq _ _)); [done|].
    unfold Lin.slot_id. rewrite Hg. by eapply (Hun n old slot t c l). }
  pose proof (LinProofs.slot_id_u32 _ Hwf' _ _ (LinProofs.grown_live_new _ _ _ _ _ Hgr)) as Hu.
  split_and!; [| | |done|].
  - split; [done|]. intros slot t Ht. apply (good_narrows r); [by eapply Hts|].
    intros c l Hl. right. by eapply Hsame.
  - intros i e slot t c l Hi Hina Ht Hl.
    apply (LinProofs.grown_lookup _ _ _ _ _ Hgr) in Hi as (e0 & He0 & ->).
    case_bool_decide; [by rewrite (proj1 (LinProofs.gr_new _ _ _ _ _ Hgr)) in Hina|].
    destruct (LinProofs.touch_same up 1 i e0) as (_ & Hact & _ & _ & _ & -> & _).
    rewrite Hact in Hina. by eapply Hun.
  - intros slot d. unfold effective. destruct (ts !! slot) as [t|] eqn:E; [|done].
    apply has_same; [by eapply Hts|]. intros c l. by eapply Hsame.
  - rewrite (grown_authority _ _ _ _ _ _ Hwf Hgr Hu). by rewrite Z.eqb_refl.
Qed.

Lemma unheld_bind r ts slot c l :
  sound r ts → unheld r ts → is_Some (authority r l) →
  unheld r (alter (bind_lineage c (Some l)) slot ts).
Proof.
  intros [Hwf Hts] Hun Hl i e k t d m Hi Hina. destruct (decide (slot = k)) as [<-|Hne].
  - rewrite list_lookup_alter_eq. intros (t0 & H0 & ->)%fmap_Some.
    rewrite lineage_of_bind by (by eapply Hts). case_bool_decide; [|by eapply Hun].
    intros [= <-] ->. rewrite (inactive_authority _ _ _ Hwf Hi Hina) in Hl. by destruct Hl.
  - rewrite list_lookup_alter_ne by done. by eapply Hun.
Qed.

Lemma contains_collect (p : Capability → bool) s cs d :
  contains (foldl (λ e c, if p c then with_ e c else e) s cs) d = contains s d || (bool_decide (d ∈ cs) && p d).
Proof.
  revert s. induction cs as [|c cs IH]; intros s; simpl; [by rewrite orb_false_r|].
  rewrite IH. assert (Hin : bool_decide (d ∈ c :: cs) = bool_decide (c = d) || bool_decide (d ∈ cs)).
  { rewrite <-bool_decide_or. apply bool_decide_ext. set_solver. }
  rewrite Hin. destruct (decide (c = d)) as [<-|Hne].
  - rewrite (bool_decide_true (c = c)) by done.
    destruct (p c); [rewrite contains_with, (bool_decide_true (c = c)) by done|];
      by destruct (contains s c), (bool_decide (c ∈ cs)).
  - rewrite (bool_decide_false (c = d)) by done.
    destruct (p c); [rewrite contains_with, (bool_decide_false (c = d)) by done|]; done.
Qed.

Lemma effective_capabilities r t c :
  contains (task_effective_capabilities r t) c = task_effective_has r t c.
Proof.
  unfold task_effective_capabilities. rewrite contains_collect, contains_empty, bool_decide_true; [done|].
  apply elem_of_ALL.
Qed.

(** ** Grant *)

Lemma delegation_parent_spec me ai actor c w :
  sound (registry w) (tasks (sched w)) → unheld (registry w) (tasks (sched w)) →
  tasks (sched w) !! ai = Some actor → task_effective_has (registry w) actor c = true →
  ∃ w' res, delegation_parent me ai actor c w = (w', res) ∧
    sound (registry w') (tasks (sched w')) ∧ unheld (registry w') (tasks (sched w')) ∧
    (∀ slot d, effective (registry w') (tasks (sched w')) slot d =
               effective (registry w) (tasks (sched w)) slot d) ∧
    (∀ p, res = Ok p → in_u32 p) ∧
    (∀ (slot : nat) t, tasks (sched w) !! slot = Some t →
      ∃ t', tasks (sched w') !! slot = Some t' ∧ sandbox_profile t' = sandbox_profile t).
Proof.
  intros Hs Hun Hai Hhas. pose proof (proj2 Hs _ _ Hai) as Hg.
  unfold delegation_parent. destruct (lineage_of actor c) as [l|] eqn:El.
  { assert (Hl : Lin.lineage_authorizes (registry w) l c = true).
    { unfold task_effective_has in Hhas. rewrite El in Hhas. by destruct (_ || _) in Hhas. }
    rewrite Hl. exists w, (Ok l). split_and!; eauto.
    intros p [= <-]. by apply (g_tokens _ _ Hg c). }
  destruct (secure_issue me (id actor) (only c) w) as (w1 & -> & Hr1 & Hs1).
  destruct (LinProofs.issue_root_spec (registry w) (id actor) (only c) (proj1 Hs) (proper_only c))
    as [[err He]|(r' & n & new & He & Hgr & Ho & Hrts & Hp)]; rewrite He in *; simpl in *.
  { exists w1, (Err err). rewrite Hr1, Hs1. by split_and!; eauto. }
  destruct (grow_sound _ _ _ _ _ _ Hs Hun Hgr) as (Hs' & Hun' & Heff & Hu & Hau).
  assert (Hlive : ∃ p o rts, authority r' (Lin.slot_id new n) = Some (p, o, rts) ∧ contains rts c = true).
  { eexists _, _, _. split; [exact Hau|]. rewrite Hrts, contains_only. by apply bool_decide_eq_true. }
  assert (Hre : ∀ t d, tasks (sched w) !! ai = Some t →
    good r' (bind_lineage c (Some (Lin.slot_id new n)) t) ∧
    task_effective_has r' (bind_lineage c (Some (Lin.slot_id new n)) t) d = task_effective_has r' t d).
  { intros t d Ht. apply has_rebind; [by eapply (proj2 Hs')| |done|done]. congruence. }
  eexists _, _. split; [reflexivity|]. unfold registry, update_task, set_tasks in *. simpl in *.
  rewrite Hr1, Hs1. split_and!.
  - apply sound_alter; [done|]. intros t Ht. by apply (Hre t c).
  - apply unheld_bind; [done..|]. by rewrite Hau.
  - intros slot d. rewrite effective_alter_same; [apply Heff|]. intros t Ht. by apply Hre.
  - intros p [= <-]. done.
  - intros slot t Ht. destruct (decide (ai = slot)) as [<-|Hne].
    + rewrite list_lookup_alter_eq, Ht. by eexists.
    + rewrite list_lookup_alter_ne by done. by eauto.
Qed.

(** Deriving a token for [c] and binding it to the target. *)
Lemma delegate_spec me a p target ti c w :
  sound (registry w) (tasks (sched w)) → unheld (registry w) (tasks (sched w)) → in_u32 p →
  (∀ t, tasks (sched w) !! ti = Some t → Guard.allows (sandbox_profile t) c = true) →
  is_Some (tasks (sched w) !! ti) →
  ∃ w1 res, secure me (Service.derive_lineage a p target (only c)) w = (w1, res) ∧
  let w' := match res with
    | Ok child => update_task ti (λ t,
        bind_lineage c (Some child) (set_capabilities (with_ (capabilities t) c) t)) w1
    | Err _ => w1
    end in
  sound (registry w') (tasks (sched w')) ∧
  ∀ slot d, effective (registry w') (tasks (sched w')) slot d =
    effective (registry w) (tasks (sched w)) slot d || (is_ok res && bool_decide (slot = ti ∧ d = c)).
Proof.
  intros Hs Hun Hu Hal [tgt Htgt].
  destruct (secure_derive me a p target (only c) w) as (w1 & -> & Hr1 & Hs1).
  destruct (LinProofs.derive_spec (registry w) a p target (only c) (proj1 Hs) Hu (proper_only c))
    as [[err He]|(r' & n & new & j & f & He & Hgr & _ & _ & _ & _ & Hrts & _)]; rewrite He in *; simpl in *.
  { exists w1, (Err err). split; [done|]. simpl. rewrite Hr1, Hs1. split; [done|].
    intros slot d. by rewrite orb_false_r. }
  destruct (grow_sound _ _ _ _ _ _ Hs Hun Hgr) as (Hs' & Hun' & Heff & Hu' & Hau).
  set (l := Lin.slot_id new n) in *. exists w1, (Ok l). split; [done|]. simpl.
  assert (Hgrant : ∀ t d, tasks (sched w) !! ti = Some t →
    let t' := bind_lineage c (Some l) (set_capabilities (with_ (capabilities t) c) t) in
    good r' t' ∧ task_effective_has r' t' d = task_effective_has r' t d || bool_decide (c = d)).
  { intros t d Ht. apply has_grant; [by eapply (proj2 Hs')|by apply Hal|done|].
    eexists _, _, _. split; [exact Hau|]. rewrite Hrts, contains_only. by apply bool_decide_eq_true. }
  unfold registry in *. simpl. rewrite Hr1, Hs1. split.
  - apply sound_alter; [done|]. intros t Ht. by apply (Hgrant t c).
  - intros slot d. rewrite effective_alter, Htgt. rewrite <-Heff.
    destruct (decide (ti = slot)) as [<-|Hne].
    + rewrite (bool_decide_true (ti = ti)), (proj2 (Hgrant tgt d Htgt)) by done.
      unfold effective. rewrite Htgt. f_equal. apply bool_decide_ext. naive_solver.
    + rewrite bool_decide_false, (bool_decide_false (slot = ti ∧ d = c)) by naive_solver.
      by rewrite orb_false_r.
Qed.

(** What an allowed grant decision has established. *)
Lemma grant_allowed actor_domain s target_domain profile c :
  Guard.allowed (Guard.authorize_grant actor_domain s target_domain profile c) = true →
  contains s TaskControl = true ∧ contains s c = true ∧
  Guard.domain_allows target_domain c = true ∧ Guard.allows profile c = true.
Proof.
  unfold Guard.authorize_grant. destruct (contains s TaskControl), (contains s c); simpl; try done.
  destruct (_ && _); [done|].
  destruct (Guard.domain_allows target_domain c), (Guard.is_valid_for profile target_domain),
    (Guard.allows profile c); done.
Qed.

Lemma current_slot_task me w ai actor :
  current me w = Some (ai, actor) → tasks (sched w) !! ai = Some actor.
Proof.
  unfold current. destruct (current_slot (sched w) !! me) as [s|]; [|done]. simpl.
  destruct (tasks (sched w) !! s) eqn:E; [|done]. by intros [= <- <-].
Qed.

Lemma task_named_lookup target w ti :
  task_named target w = Some ti → ∃ t, tasks (sched w) !! ti = Some t ∧ id t = target ∧ state t ≠ Empty.
Proof.
  intros (t & Ht & [Hst Hid]%andb_true_iff)%position_lookup.
  exists t. apply negb_true_iff, bool_decide_eq_false in Hst. by apply Z.eqb_eq in Hid.
Qed.

(** Adding capability [c] to the task in [slot], if anything. *)
Definition gains (w w' : World) (target : option nat) (c : Capability) (granted : bool) : Prop :=
  ∀ slot d, effective (registry w') (tasks (sched w')) slot d =
    effective (registry w) (tasks (sched w)) slot d ||
      (granted && bool_decide (target = Some slot ∧ d = c)).

Lemma gains_none w w' target c :
  registry w' = registry w → sched w' = sched w → gains w w' target c false.
Proof. intros Hr Hs slot d. rewrite Hr, Hs. by rewrite orb_false_r. Qed.

Lemma gains_already w w' ti tgt c :
  registry w' = registry w → sched w' = sched w → tasks (sched w) !! ti = Some tgt →
  task_effective_has (registry w) tgt c = true → gains w w' (Some ti) c true.
Proof.
  intros Hr Hs Ht Hh slot d. rewrite Hr, Hs. simpl.
  case_bool_decide as Heq; [|by rewrite orb_false_r]. destruct Heq as [[= <-] ->].
  unfold effective. by rewrite Ht, Hh.
Qed.

(** C4. Grant gives exactly what policy allows. From a sound task table in which no
    stale token collides with the next one issued, a grant never panics and keeps the
    table sound; when it succeeds the target gains the one capability and nothing else
    about any task's effective authority changes, the granting task's included, and
    when it fails nobody's authority changes. Success requires the actor to hold task
    control and the capability effectively, and the target's domain and sandbox to
    admit it. *)
Theorem grant_exact me audit_actor target c w ai actor :
  sound (registry w) (tasks (sched w)) → unheld (registry w) (tasks (sched w)) →
  task_count (sched w) ≠ 0 → current me w = Some (ai, actor) →
  ∃ w' res, grant me audit_actor target c w = Some (w', res) ∧
    sound (registry w') (tasks (sched w')) ∧
    gains w w' (task_named target w) c (is_ok res) ∧
    (res = Ok () → task_effective_has (registry w) actor TaskControl = true ∧
      task_effective_has (registry w) actor c = true ∧
      ∃ ti tgt, task_named target w = Some ti ∧ tasks (sched w) !! ti = Some tgt ∧
        Guard.domain_allows (security_domain tgt) c = true ∧ Guard.allows (sandbox_profile tgt) c = true).
Proof.
  intros Hs Hun Hcount Hcur. pose proof (current_slot_task _ _ _ _ Hcur) as Hai.
  unfold grant. rewrite (proj2 (Z.eqb_neq _ _) Hcount), Hcur. cbn [mbind option_bind].
  assert (Hfin : ∀ w0 res, ∃ w', conclude me audit_actor Ledger.CapabilityGrant target w0 res = Some (w', res) ∧
    registry w' = registry w0 ∧ sched w' = sched w0) by (intros; apply conclude_spec).
  destruct (task_named target w) as [ti|] eqn:Hti.
  2:{ destruct (Hfin w (Err UnknownTask)) as (w' & -> & Hr & Hsc). eexists _, _. split; [done|].
      rewrite Hr, Hsc. split_and!; [done|by apply gains_none|done]. }
  destruct (task_named_lookup _ _ _ Hti) as (tgt & Htgt & _). rewrite Htgt. cbn [mbind option_bind].
  destruct (Guard.allowed _) eqn:Hal; cbn [negb].
  2:{ destruct (Hfin w (Err PermissionDenied)) as (w' & -> & Hr & Hsc). eexists _, _. split; [done|].
      rewrite Hr, Hsc. split_and!; [done|by apply gains_none|done]. }
  apply grant_allowed in Hal as (Hctl & Hc & Hdom & Hprof). rewrite effective_capabilities in Hctl, Hc.
  assert (Hpol : task_effective_has (registry w) actor TaskControl = true ∧
    task_effective_has (registry w) actor c = true ∧
    ∃ ti' tgt', Some ti = Some ti' ∧ tasks (sched w) !! ti' = Some tgt' ∧
      Guard.domain_allows (security_domain tgt') c = true ∧ Guard.allows (sandbox_profile tgt') c = true)
    by (split_and!; eauto 10).
  destruct (task_effective_has (registry w) tgt c && _) eqn:Hint.
  { destruct (Hfin w (Ok ())) as (w' & -> & Hr & Hsc). eexists _, _. split; [done|].
    rewrite Hr, Hsc. split_and!; [done| |done]. apply andb_true_iff in Hint as [Hh _].
    by apply (gains_already w w' ti tgt). }
  destruct (delegation_parent_spec me ai actor c w Hs Hun Hai Hc)
    as (w1 & res1 & -> & Hs1 & Hun1 & Heff1 & Hu1 & Hfwd).
  destruct res1 as [p|err].
  2:{ eexists _, _. split; [done|]. split_and!; [done| |done]. intros slot d.
      by rewrite Heff1, orb_false_r. }
  destruct (Hfwd ti tgt Htgt) as (tgt1 & Htgt1 & Hprof1).
  destruct (delegate_spec me (id actor) p target ti c w1 Hs1 Hun1 (Hu1 p eq_refl))
    as (w2 & res2 & -> & Hs2 & Heff2); [intros t Ht; congruence|by eexists|].
  destruct res2 as [child|err]; cbn zeta iota in Hs2, Heff2; (edestruct Hfin as (w' & -> & Hr & Hsc));
    eexists _, _; (split; [done|]); rewrite Hr, Hsc; (split_and!; [done| |done]);
    intros slot d; rewrite Hr, Hsc, Heff2, Heff1; f_equal; simpl; try done.
  apply bool_decide_ext. naive_solver.
Qed.

(** ** Withdrawn tokens *)

(** [l] itself or a token derived from it. *)
Definition lost (r : Lin.Registry) (l id : Z) : bool :=
  valid r l && ((id =? l) || Lin.is_descendant_of r id l).

Definition parent_of (r : Lin.Registry) (l : Z) : option Z :=
  '(p, _, _) ← authority r l; p.

(** [r'] is [r] with the tokens in [gone] withdrawn. *)
Definition withdraws (gone : Z → bool) (r r' : Lin.Registry) : Prop :=
  LinProofs.wf r' ∧ ∀ id, in_u32 id → authority r' id = if gone id then None else authority r id.

Lemma withdraws_refl r : LinProofs.wf r → withdraws (λ _, false) r r.
Proof. done. Qed.

Lemma controller_revoke r l :
  LinProofs.wf r → in_u32 l → withdraws (lost r l) r (Lin.revoke_subtree_by_controller r l).1.
Proof.
  intros Hwf Hl. unfold Lin.revoke_subtree_by_controller.
  destruct (LinProofs.resolve r l Hwf Hl) as [(t & te & Ht & -> & Hi & Hsl)|[Hn _]].
  - rewrite Hi. cbn [mbind option_bind]. rewrite Hsl.
    destruct (LinProofs.revoke_subtree_live r (Lin.owner te) t te Hwf Ht) as [_ Hyes].
    destruct Hyes as [-> Hpr]; [by exists t, te|]. split; [by eapply LinProofs.pruned_wf|].
    intros id Hu. simpl. rewrite (LinProofs.pruned_authority _ _ _ _ _ _ Hwf Hpr Hu). unfold lost.
    rewrite LinProofs.in_subtree by done.
    replace (valid r (Lin.slot_id te t)) with true.
    + destruct (Lin.lookup_index r id) as [i|] eqn:E; simpl; [done|].
      unfold authority, Lin.info. by rewrite E.
    + symmetry. apply bool_decide_eq_true. unfold authority.
      rewrite (LinProofs.info_live _ Hwf _ _ Ht). by eexists.
  - rewrite Hn. cbn [mbind option_bind fst]. split; [done|]. intros id Hu. unfold lost.
    replace (valid r l) with false; [done|]. symmetry. apply bool_decide_eq_false.
    unfold authority, Lin.info. rewrite Hn. by intros [? ?].
Qed.

Lemma release_withdraws r a l :
  LinProofs.wf r → in_u32 l →
  withdraws (λ id, is_ok (Lin.release r a l).2 && (id =? l)) r (Lin.release r a l).1.
Proof.
  intros Hwf Hl.
  destruct (LinProofs.release_spec r a l Hwf Hl) as [[err ->]|(r' & i & e & -> & He & -> & _ & _ & Hpr)];
    simpl; [done|]. split; [by eapply LinProofs.pruned_wf|].
  intros id Hu. rewrite (LinProofs.pruned_authority _ _ _ _ _ _ Hwf Hpr Hu).
  destruct (LinProofs.resolve r id Hwf Hu) as [(k & f & Hf & -> & Hk & _)|[Hn Hno]].
  - rewrite Hk, LinProofs.only_slot_lookup by (by eapply LinProofs.live_lt). simpl.
    destruct (decide (k = i)) as [->|Hne].
    + by rewrite (LinProofs.live_fun _ _ _ _ Hf He), Z.eqb_refl, bool_decide_true.
    + rewrite (proj2 (Z.eqb_neq _ _)) by (intros ?%(LinProofs.slot_id_inj _ Hwf _ _ _ _ Hf He); done).
      by rewrite bool_decide_false.
  - rewrite Hn. unfold authority, Lin.info. rewrite Hn. by destruct (_ =? _).
Qed.

Lemma withdraws_sound gone r r' ts : sound r ts → withdraws gone r r' → sound r' ts.
Proof.
  intros [Hwf Hts] [Hwf' Hau]. split; [done|]. intros slot t Ht. apply (good_narrows r); [by eapply Hts|].
  intros c l Hl. rewrite Hau by (by eapply (Hts slot)). destruct (gone l); auto.
Qed.

Lemma has_withdraws gone r r' t d :
  good r t → withdraws gone r r' →
  task_effective_has r' t d =
    task_effective_has r t d && negb (match lineage_of t d with Some l => gone l | None => false end).
Proof.
  intros Hg [_ Hau]. unfold task_effective_has. destruct (_ || _); [done|].
  destruct (lineage_of t d) as [l|] eqn:El; [|done].
  rewrite !authorizes_authority, Hau by (by eapply (g_tokens _ _ Hg)).
  destruct (gone l); [by rewrite andb_false_r|by rewrite andb_true_r].
Qed.

Lemma parent_of_u32 r l p : LinProofs.wf r → in_u32 l → parent_of r l = Some p → in_u32 p ∧ is_Some (authority r p).
Proof.
  intros Hwf Hl. unfold parent_of, authority.
  destruct (LinProofs.resolve r l Hwf Hl) as [(i & e & He & -> & _)|[Hn _]].
  - rewrite (LinProofs.info_live _ Hwf _ _ He). simpl. intros Hp.
    destruct (LinProofs.wf_parent _ Hwf _ _ _ He Hp) as (j & f & Hf & -> & _).
    rewrite (LinProofs.info_live _ Hwf _ _ Hf). split; [by eapply LinProofs.slot_id_u32|by eexists].
  - unfold Lin.info. by rewrite Hn.
Qed.

(** The root of the forest that held [l]: owned by the actor [a], without a parent of its
    own, and with [l] as its only child. *)
Definition emptied_root (r : Lin.Registry) (a l p : Z) : Prop :=
  parent_of r l = Some p ∧ (∃ rts, authority r p = Some (None, a, rts)) ∧
  ∀ id, in_u32 id → parent_of r id = Some p → id = l.

Lemma childless r i e :
  LinProofs.wf r → LinProofs.live r i e →
  Lin.child_count e = 0 ↔ ∀ id, in_u32 id → parent_of r id ≠ Some (Lin.slot_id e i).
Proof.
  intros Hwf He. rewrite (LinProofs.wf_children _ Hwf _ _ He). unfold LinProofs.children.
  rewrite (Nat2Z.inj_iff _ 0), count_if_zero. split.
  - intros Hno id Hu Hp. unfold parent_of, authority in Hp.
    destruct (LinProofs.resolve r id Hwf Hu) as [(k & f & Hf & -> & _)|[Hn _]].
    + rewrite (LinProofs.info_live _ Hwf _ _ Hf) in Hp. simpl in Hp.
      assert (LinProofs.is_child (Lin.slot_id e i) f = true) as Hc.
      { unfold LinProofs.is_child. rewrite (proj2 Hf), Hp. by apply bool_decide_true. }
      by rewrite (Hno k f (proj1 Hf)) in Hc.
    + unfold Lin.info in Hp. by rewrite Hn in Hp.
  - intros Hno k f Hk. apply not_true_iff_false. unfold LinProofs.is_child.
    intros [Ha Hp%bool_decide_eq_true]%andb_true_iff.
    assert (Hf : LinProofs.live r k f) by done.
    apply (Hno (Lin.slot_id f k)); [by eapply LinProofs.slot_id_u32|].
    unfold parent_of, authority. by rewrite (LinProofs.info_live _ Hwf _ _ Hf).
Qed.

Lemma releasable_iff r a p :
  LinProofs.wf r → in_u32 p →
  releasable r a p = true ↔
    (∃ rts, authority r p = Some (None, a, rts)) ∧ ∀ id, in_u32 id → parent_of r id ≠ Some p.
Proof.
  intros Hwf Hp. unfold releasable, authority.
  destruct (LinProofs.resolve r p Hwf Hp) as [(i & e & He & -> & _)|[Hn _]].
  - rewrite (LinProofs.info_live _ Hwf _ _ He). simpl. rewrite <-(childless r i e Hwf He).
    rewrite !andb_true_iff, bool_decide_eq_true, !Z.eqb_eq. split.
    + intros [[<- ->] ?]. split; [by eexists|done].
    + by intros [[? [= -> <- _]] ?].
  - unfold Lin.info. rewrite Hn. simpl. split; [done|]. by intros [[? ?] _].
Qed.

Lemma releasable_releases r a p :
  releasable r a p = true → is_ok (Lin.release r a p).2 = true.
Proof.
  unfold releasable, Lin.info, Lin.release. destruct (Lin.lookup_index r p) as [i|]; [|done].
  cbn [mbind option_bind]. destruct (Lin.slots r !! i) as [e|]; [|done]. cbn.
  intros [[-> ->%bool_decide_eq_true]%andb_true_iff ->]%andb_true_iff. done.
Qed.

(** Withdrawing the subtree of [l] leaves its parent, and no other child of the parent
    goes with it. *)
Lemma lost_near_parent r l p id :
  LinProofs.wf r → in_u32 l → in_u32 id → parent_of r l = Some p →
  lost r l p = false ∧ (parent_of r id = Some p → lost r l id = true → id = l).
Proof.
  intros Hwf Hl Hid Hp. unfold parent_of, authority in Hp.
  destruct (LinProofs.resolve r l Hwf Hl) as [(i & e & He & -> & _)|[Hn _]].
  2:{ unfold Lin.info in Hp. by rewrite Hn in Hp. }
  rewrite (LinProofs.info_live _ Hwf _ _ He) in Hp. simpl in Hp.
  destruct (LinProofs.wf_parent _ Hwf _ _ _ He Hp) as (j & f & Hf & -> & _).
  assert (Hij : LinProofs.parent_rel r i j) by (by exists e, f).
  split.
  - unfold lost. apply andb_false_intro2, orb_false_intro.
    + apply Z.eqb_neq. intros Heq. rewrite (LinProofs.slot_id_inj _ Hwf _ _ _ _ Hf He Heq) in Hij.
      eapply (LinProofs.tc_irrefl _ Hwf i). by apply tc_once.
    + apply not_true_iff_false. rewrite (LinProofs.is_descendant_spec _ Hwf _ _ _ _ Hf He). intros H.
      eapply (LinProofs.tc_irrefl _ Hwf i). by eapply tc_l.
  - unfold parent_of, authority.
    destruct (LinProofs.resolve r id Hwf Hid) as [(k & g & Hg & -> & _)|[Hn _]].
    2:{ unfold Lin.info. by rewrite Hn. }
    rewrite (LinProofs.info_live _ Hwf _ _ Hg). simpl. intros Hgp [_ H]%andb_true_iff.
    apply orb_true_iff in H as [H%Z.eqb_eq|H]; [done|]. exfalso.
    apply (LinProofs.is_descendant_spec _ Hwf _ _ _ _ Hg He) in H.
    assert (Hkj : LinProofs.parent_rel r k j) by (by exists g, f).
    eapply (LinProofs.tc_irrefl _ Hwf i). eapply tc_rtc_r; [by apply tc_once|].
    inversion H as [? ? Hs|? m ? Hs Ht]; subst; rewrite (LinProofs.parent_rel_fun _ Hwf _ _ _ Hkj Hs);
      [done|by apply tc_rtc].
Qed.

(** After the subtree of [l] is withdrawn its parent is released exactly when it is an
    emptied root of the actor. *)
Lemma releasable_emptied r r1 a l p :
  LinProofs.wf r → in_u32 l → withdraws (lost r l) r r1 → parent_of r l = Some p →
  releasable r1 a p = true ↔ emptied_root r a l p.
Proof.
  intros Hwf Hl [Hwf1 Hau] Hp. destruct (parent_of_u32 r l p Hwf Hl Hp) as [Hpu _].
  rewrite releasable_iff by done. unfold emptied_root.
  rewrite Hau, (proj1 (lost_near_parent r l p l Hwf Hl Hl Hp)) by done.
  assert (Hpar : ∀ id, in_u32 id → parent_of r1 id = if lost r l id then None else parent_of r id).
  { intros id Hu. unfold parent_of. rewrite Hau by done. by destruct (lost r l id). }
  assert (Hll : lost r l l = true).
  { unfold lost. rewrite Z.eqb_refl, andb_true_r. apply bool_decide_eq_true.
    unfold parent_of in Hp. destruct (authority r l); [by eexists|done]. }
  split.
  - intros [Hr Hno]. split_and!; [done..|]. intros id Hu Hid. apply (lost_near_parent r l p id); try done.
    destruct (lost r l id) eqn:E; [done|]. destruct (Hno id Hu). by rewrite Hpar, E.
  - intros (_ & Hr & Hall). split; [done|]. intros id Hu. rewrite Hpar by done.
    destruct (lost r l id) eqn:E; [done|]. intros Hid. rewrite (Hall id Hu Hid), Hll in E. done.
Qed.

(** ** Revocation *)

(** After withdrawing [gone]: what each task holds effectively. *)
Definition drops (gone : nat → Capability → Z → bool) (w w' : World) : Prop :=
  ∀ (slot : nat) t d, tasks (sched w) !! slot = Some t →
    effective (registry w') (tasks (sched w')) slot d =
      effective (registry w) (tasks (sched w)) slot d &&
      negb (match lineage_of t d with Some l => gone slot d l | None => false end).

Lemma withdraws_drops gone w w' :
  sound (registry w) (tasks (sched w)) → withdraws gone (registry w) (registry w') →
  sched w' = sched w → drops (λ _ _, gone) w w'.
Proof.
  intros Hs Hwd Hsc slot t d Ht. unfold effective. rewrite Hsc, Ht.
  by apply has_withdraws; [eapply (proj2 Hs)|].
Qed.

Lemma releasable_live r controller p :
  releasable r controller p = true → is_Some (authority r p).
Proof. unfold releasable, authority. destruct (Lin.info r p); [by eexists|done]. Qed.

Lemma has_unbind r t c d :
  good r t → task_effective_has r (bind_lineage c None t) d =
    if bool_decide (c = d) then contains (capabilities t) c else task_effective_has r t d.
Proof.
  intros Hg. rewrite !has_good by (done || by apply good_bind).
  rewrite lineage_of_bind by apply Hg. change (capabilities (bind_lineage _ _ t)) with (capabilities t).
  case_bool_decide; subst; [by rewrite andb_true_r|done].
Qed.

(** Giving the actor its intrinsic authority back when its root [p] is withdrawn. *)
Lemma unbind_drops w w1 ai c p t0 :
  sound (registry w) (tasks (sched w)) → sound (registry w1) (tasks (sched w1)) →
  sched w1 = sched w → drops (λ _ _ l, l =? p) w w1 → is_Some (authority (registry w) p) →
  tasks (sched w) !! ai = Some t0 → lineage_of t0 c = Some p →
  drops (λ slot d l, (l =? p) && negb (bool_decide (slot = ai ∧ d = c))) w
    (update_task ai (bind_lineage c None) w1).
Proof.
  intros Hs Hs1 Hsc Hdr Hp Hai Hl slot t d Ht.
  change (registry (update_task _ _ w1)) with (registry w1).
  change (tasks (sched (update_task ai (bind_lineage c None) w1)))
    with (alter (bind_lineage c None) ai (tasks (sched w1))).
  unfold drops in Hdr. rewrite Hsc in Hs1, Hdr.
  rewrite effective_alter, Hsc, Hai. destruct (decide (ai = slot)) as [<-|Hne].
  - rewrite bool_decide_true by done. assert (t0 = t) as -> by congruence.
    rewrite has_unbind by (by eapply (proj2 Hs1)).
    case_bool_decide as Hd; [subst|].
    + rewrite (bool_decide_true (ai = ai ∧ d = d)) by done. rewrite Hl, andb_false_r, andb_true_r.
      unfold effective. rewrite Hai, has_good, Hl by (by eapply (proj2 Hs)). unfold valid.
      rewrite (bool_decide_true (is_Some _)) by done. by rewrite andb_true_r.
    + pose proof (Hdr ai t d Ht) as H. unfold effective at 1 in H. rewrite Hai in H. rewrite H.
      rewrite (bool_decide_false (ai = ai ∧ d = c)) by naive_solver.
      destruct (lineage_of t d); simpl; by rewrite ?andb_true_r.
  - rewrite (bool_decide_false (ai = slot)), (bool_decide_false (slot = ai ∧ d = c)) by naive_solver.
    rewrite (Hdr slot t d Ht). destruct (lineage_of t d); by rewrite ?andb_true_r.
Qed.

Lemma release_parent_spec me ai controller c p w :
  sound (registry w) (tasks (sched w)) → in_u32 p →
  let w' := release_parent me ai controller c p w in
  sound (registry w') (tasks (sched w')) ∧
  (∀ slot : nat, is_Some (tasks (sched w) !! slot) → is_Some (tasks (sched w') !! slot)) ∧
  drops (λ slot d l, releasable (registry w) controller p && (l =? p) && negb (bool_decide (slot = ai ∧ d = c))) w w'.
Proof.
  intros Hs Hp w'. unfold w', release_parent. destruct (releasable _ _ _) eqn:Hrel.
  2:{ split_and!; [done..|]. intros slot t d Ht. simpl.
      destruct (lineage_of t d); by rewrite andb_true_r. }
  pose proof (releasable_releases _ _ _ Hrel) as Hok. apply releasable_live in Hrel.
  destruct (secure_release me controller p w) as (w1 & -> & Hr1 & Hs1).
  pose proof (release_withdraws (registry w) controller p (proj1 Hs) Hp) as Hwd. rewrite <-Hr1 in Hwd.
  pose proof (withdraws_sound _ _ _ _ Hs Hwd) as Hsnd. rewrite <-Hs1 in Hsnd.
  pose proof (withdraws_drops _ _ _ Hs Hwd Hs1) as Hdr.
  rewrite Hok in *. cbn [andb] in *.
  case_bool_decide as Hb.
  - destruct (tasks (sched w1) !! ai) as [t0|] eqn:Hai; [|done]. simpl in Hb.
    split_and!.
    + apply sound_alter; [done|]. intros t Ht. apply good_bind; [by eapply (proj2 Hsnd)|done].
    + intros slot. simpl. rewrite Hs1. destruct (decide (ai = slot)) as [<-|Hne].
      * rewrite list_lookup_alter_eq. by intros [? ->].
      * by rewrite list_lookup_alter_ne.
    + apply (unbind_drops w w1 ai c p t0); rewrite <-?Hs1; try done. by rewrite Hs1.
  - split_and!; [done|by rewrite Hs1|]. intros slot t d Ht. rewrite (Hdr slot t d Ht).
    destruct (lineage_of t d) as [l|] eqn:El; [|done]. destruct (Z.eqb_spec l p) as [->|]; [|done].
    rewrite (bool_decide_false (slot = ai ∧ d = c)); [done|]. intros [-> ->].
    apply Hb. rewrite Hs1, Ht. done.
Qed.

Lemma drops_trans g1 g2 w w1 w' :
  sched w1 = sched w → drops g1 w w1 → drops g2 w1 w' →
  drops (λ slot d l, g1 slot d l || g2 slot d l) w w'.
Proof.
  intros Hsc H1 H2 slot t d Ht. rewrite (H2 slot t d) by (by rewrite Hsc).
  rewrite (H1 slot t d Ht). destruct (lineage_of t d) as [l|]; [|by rewrite !andb_true_r].
  by rewrite negb_orb, andb_assoc.
Qed.

Lemma revoke_token_spec me ai controller c l w :
  sound (registry w) (tasks (sched w)) → in_u32 l →
  let w' := revoke_token me ai controller c l w in
  sound (registry w') (tasks (sched w')) ∧
  (∀ slot : nat, is_Some (tasks (sched w) !! slot) → is_Some (tasks (sched w') !! slot)) ∧
  ∃ gone, drops gone w w' ∧
    (∀ slot d id, gone slot d id = true ↔ lost (registry w) l id = true ∨
      emptied_root (registry w) controller l id ∧ ¬ (slot = ai ∧ d = c)).
Proof.
  intros Hs Hl w'. unfold w', revoke_token.
  assert (match Lin.info (registry w) l with Ok info => Lin.info_parent info | Err _ => None end =
    parent_of (registry w) l) as ->.
  { unfold parent_of, authority. by destruct (Lin.info (registry w) l). }
  destruct (secure_revoke me controller l w) as (w1 & -> & Hr1 & Hs1).
  pose proof (controller_revoke (registry w) l (proj1 Hs) Hl) as Hwd. rewrite <-Hr1 in Hwd.
  pose proof (withdraws_sound _ _ _ _ Hs Hwd) as Hsnd. rewrite <-Hs1 in Hsnd.
  pose proof (withdraws_drops _ _ _ Hs Hwd Hs1) as Hdr.
  destruct (parent_of (registry w) l) as [p|] eqn:Hp.
  2:{ split_and!; [done|by rewrite Hs1|]. exists (λ _ _, lost (registry w) l). split; [done|].
      intros slot d id. split; [by left|]. intros [H|[(H & _) _]]; congruence. }
  destruct (parent_of_u32 _ _ _ (proj1 Hs) Hl Hp) as [Hpu _].
  destruct (release_parent_spec me ai controller c p w1 Hsnd Hpu) as (Hs' & Hfwd & Hdr').
  pose proof (releasable_emptied _ _ controller l p (proj1 Hs) Hl Hwd Hp) as Hrel.
  split_and!; [done|by rewrite <-Hs1|].
  eexists. split; [by eapply drops_trans|]. intros slot d id. simpl.
  rewrite orb_true_iff, !andb_true_iff, Hrel, Z.eqb_eq, negb_true_iff, bool_decide_eq_false.
  split; [intros [H|[[H ->] Hn]]; tauto|]. intros [H|[H Hn]]; [by left|right].
  assert (id = p) as -> by (destruct H as (H & _); congruence). done.
Qed.

(** The token bound to the target, if any. *)
Lemma revoke_binding_spec me ai controller c tgt (ti : nat) w :
  sound (registry w) (tasks (sched w)) → tasks (sched w) !! ti = Some tgt →
  let w' := match lineage_of tgt c with
    | Some lineage => revoke_token me ai controller c lineage w
    | None => w
    end in
  sound (registry w') (tasks (sched w')) ∧ ∃ gone, drops gone w w' ∧
    (∀ slot d id, gone slot d id = true ↔ ∃ l, lineage_of tgt c = Some l ∧ (lost (registry w) l id = true ∨
      emptied_root (registry w) controller l id ∧ ¬ (slot = ai ∧ d = c))).
Proof.
  intros Hs Ht. destruct (lineage_of tgt c) as [l|] eqn:El; cbn zeta iota.
  - destruct (revoke_token_spec me ai controller c l w Hs) as (Hs' & _ & gone & Hdr & Hgone).
    { by eapply (g_tokens _ _ (proj2 Hs _ _ Ht)). }
    split; [done|]. exists gone. split; [done|]. intros slot d id. rewrite Hgone. naive_solver.
  - split; [done|]. exists (λ _ _ _, false). split; [|naive_solver].
    intros slot t d Ht'. destruct (lineage_of t d); by rewrite andb_true_r.
Qed.

Lemma strip_spec w ti c :
  sound (registry w) (tasks (sched w)) →
  let w' := update_task ti (strip c) w in
  sound (registry w') (tasks (sched w')) ∧
  ∀ slot d, effective (registry w') (tasks (sched w')) slot d =
    effective (registry w) (tasks (sched w)) slot d && negb (bool_decide (slot = ti ∧ d = c)).
Proof.
  intros Hs w'. unfold w', update_task, registry. simpl. fold (registry w). split.
  - apply sound_alter; [done|]. intros t Ht. apply good_strip. by eapply (proj2 Hs).
  - intros slot d. rewrite effective_alter. unfold effective.
    destruct (decide (ti = slot)) as [<-|Hne].
    + rewrite bool_decide_true by done. destruct (tasks (sched w) !! ti) as [t|] eqn:E; [|done].
      rewrite has_strip by (by eapply (proj2 Hs)). do 2 f_equal. apply bool_decide_ext. naive_solver.
    + rewrite (bool_decide_false (ti = slot)), (bool_decide_false (slot = ti ∧ d = c)) by naive_solver.
      by rewrite andb_true_r.
Qed.

(** C5. Revocation takes exactly the target's capability and what was derived from
    it. It needs task control and a known target and otherwise changes nothing. When it
    succeeds, a task holds a capability effectively afterwards exactly when it did before,
    unless it is the target's revoked capability; or it is held through the target's token
    or a token derived from it; or it is held by another task through the emptied root:
    the parent of the target's token, owned by the actor, itself without a parent, and
    with no child besides the token. The actor keeps the capability it anchored there. *)
Theorem revoke_exact me audit_actor target c w ai actor :
  sound (registry w) (tasks (sched w)) → task_count (sched w) ≠ 0 → current me w = Some (ai, actor) →
  ∃ w' res, revoke me audit_actor target c w = Some (w', res) ∧
    sound (registry w') (tasks (sched w')) ∧
    (is_ok res = task_effective_has (registry w) actor TaskControl && bool_decide (is_Some (task_named target w))) ∧
    (is_ok res = false → registry w' = registry w ∧ sched w' = sched w) ∧
    ∀ ti tgt, is_ok res = true → task_named target w = Some ti → tasks (sched w) !! ti = Some tgt →
      effective (registry w') (tasks (sched w')) ti c = false ∧
      ∀ (slot : nat) t d, tasks (sched w) !! slot = Some t →
        effective (registry w') (tasks (sched w')) slot d = true ↔
          effective (registry w) (tasks (sched w)) slot d = true ∧ ¬ (slot = ti ∧ d = c) ∧
          ∀ l l', lineage_of tgt c = Some l → lineage_of t d = Some l' →
            lost (registry w) l l' = false ∧
            (emptied_root (registry w) (id actor) l l' → slot = ai ∧ d = c).
Proof.
  intros Hs Hcount Hcur. unfold revoke.
  rewrite (proj2 (Z.eqb_neq _ _) Hcount), Hcur. cbn [mbind option_bind].
  assert (Hfin : ∀ w0 res, ∃ w', conclude me audit_actor Ledger.CapabilityRevoke target w0 res = Some (w', res) ∧
    registry w' = registry w0 ∧ sched w' = sched w0) by (intros; apply conclude_spec).
  unfold Guard.authorize_revoke. rewrite effective_capabilities.
  destruct (task_effective_has (registry w) actor TaskControl); cbn [Guard.allowed Guard.allow Guard.deny negb].
  2:{ destruct (Hfin w (Err PermissionDenied)) as (w' & -> & Hr & Hsc). eexists _, _.
      rewrite Hr, Hsc. by split_and!. }
  destruct (task_named target w) as [ti|] eqn:Hti.
  2:{ destruct (Hfin w (Err UnknownTask)) as (w' & -> & Hr & Hsc). eexists _, _.
      rewrite Hr, Hsc. by split_and!. }
  destruct (task_named_lookup _ _ _ Hti) as (tgt & Htgt & _). rewrite Htgt. cbn [mbind option_bind].
  destruct (revoke_binding_spec me ai (id actor) c tgt ti w Hs Htgt) as (Hs1 & gone & Hdr & Hgone).
  set (w1 := match lineage_of tgt c with Some _ => _ | None => w end) in *.
  clearbody w1. destruct (strip_spec w1 ti c Hs1) as [Hs2 Heff2].
  destruct (Hfin (update_task ti (strip c) w1) (Ok ())) as (w' & -> & Hr & Hsc).
  exists w', (Ok ()). rewrite Hr, Hsc. split_and!; try done.
  intros ti' tgt' _ [= <-] Htgt'. assert (tgt' = tgt) as -> by congruence. split.
  { rewrite Heff2, bool_decide_true by done. by rewrite andb_false_r. }
  intros slot t d Ht. rewrite Heff2, (Hdr slot t d Ht), !andb_true_iff, !negb_true_iff, bool_decide_eq_false.
  destruct (lineage_of t d) as [l'|]; [|naive_solver].
  rewrite <-not_true_iff_false, Hgone. setoid_rewrite <-not_true_iff_false. split.
  - intros [[? Hn] ?]. split_and!; [done..|]. intros l ? Hl [= <-]. split; [naive_solver|]. intros He.
    destruct (decide (slot = ai ∧ d = c)); [done|]. naive_solver.
  - intros (? & ? & Hk). split_and!; [done| |done]. intros (l & Hl & [Hx|[Hx Hn]]); naive_solver.
Qed.

(** ** Sandbox binding *)

Definition no_gain (w w' : World) : Prop :=
  ∀ slot d, effective (registry w') (tasks (sched w')) slot d = true →
    effective (registry w) (tasks (sched w)) slot d = true.

(** The raw state of every task after the capabilities [cs] that the profile refuses
    were stripped from task [ti]. *)
Definition stripped (ti : nat) (profile : Guard.SandboxProfile) (cs : list Capability) (w w' : World) : Prop :=
  ∀ (slot : nat) t, tasks (sched w) !! slot = Some t → ∃ t', tasks (sched w') !! slot = Some t' ∧
    (∀ d, contains (capabilities t') d = contains (capabilities t) d &&
       negb (bool_decide (slot = ti ∧ d ∈ cs) && negb (Guard.allows profile d))) ∧
    (∀ d, lineage_of t d = None → lineage_of t' d = None).

Lemma tighten_refused me a ti profile w c :
  Guard.allows profile c = false → sound (registry w) (tasks (sched w)) →
  ∃ w1, tighten me a ti profile w c = update_task ti (strip c) w1 ∧
    sound (registry w1) (tasks (sched w1)) ∧ no_gain w w1 ∧ sched w1 = sched w.
Proof.
  intros Hal Hs. assert (no_gain w w) by (by intros ? ?). unfold tighten. rewrite Hal.
  destruct (tasks (sched w) !! ti) as [t|] eqn:Ht; cbn [mbind option_bind]; [|by exists w].
  destruct (lineage_of t c) as [l|] eqn:El; [|by exists w].
  destruct (secure_revoke me a l w) as (w1 & -> & Hr1 & Hs1). exists w1.
  assert (Hl : in_u32 l) by (by eapply (g_tokens _ _ (proj2 Hs _ _ Ht))).
  pose proof (controller_revoke (registry w) l (proj1 Hs) Hl) as Hwd. rewrite <-Hr1 in Hwd.
  split_and!; [done| | |done].
  - rewrite Hs1. by eapply withdraws_sound.
  - intros slot d. pose proof (withdraws_drops _ _ _ Hs Hwd Hs1 slot) as Hdr.
    destruct (tasks (sched w) !! slot) as [t0|] eqn:E.
    + rewrite (Hdr t0 d eq_refl). by intros [? _]%andb_true_iff.
    + unfold effective at 1. by rewrite Hs1, E.
Qed.

Lemma tighten_spec me a ti profile cs w w1 c :
  sound (registry w1) (tasks (sched w1)) → no_gain w w1 → stripped ti profile cs w w1 →
  let w' := tighten me a ti profile w1 c in
  sound (registry w') (tasks (sched w')) ∧ no_gain w w' ∧ stripped ti profile (cs ++ [c]) w w'.
Proof.
  intros Hs Hng Hst w'. unfold w'. destruct (Guard.allows profile c) eqn:Hal.
  { unfold tighten. rewrite Hal. split_and!; [done..|]. intros slot t Ht.
    destruct (Hst slot t Ht) as (t' & Ht' & Hc & Hl). exists t'. split_and!; [done| |done].
    intros d. rewrite (Hc d). do 2 f_equal. destruct (Guard.allows profile d) eqn:Hd; [by rewrite !andb_false_r|].
    rewrite !andb_true_r. apply bool_decide_ext. rewrite elem_of_app, list_elem_of_singleton.
    split; [by intros [? ?]; auto|]. intros [? [?| ->]]; [done|congruence]. }
  destruct (tighten_refused me a ti profile w1 c Hal Hs) as (w2 & -> & Hs2 & Hng2 & Hsc).
  destruct (strip_spec w2 ti c Hs2) as [Hs3 Heff]. split_and!; [done| |].
  { intros slot d. rewrite Heff. intros [H _]%andb_true_iff. by apply Hng, Hng2. }
  intros slot t Ht. destruct (Hst slot t Ht) as (t' & Ht' & Hc & Hl). simpl. rewrite Hsc.
  destruct (decide (ti = slot)) as [<-|Hne].
  - rewrite list_lookup_alter_eq, Ht'. simpl. exists (strip c t'). split_and!; [done| |].
    + intros d. change (capabilities (strip c t')) with (without (capabilities t') c).
      rewrite contains_without, Hc, <-andb_assoc. f_equal.
      rewrite <-negb_orb. f_equal. destruct (decide (c = d)) as [<-|Hcd].
      * rewrite Hal, !(bool_decide_true (c = c)), orb_true_r, andb_true_r by done.
        symmetry. apply bool_decide_eq_true. set_solver.
      * rewrite (bool_decide_false (c = d)), orb_false_r by done. f_equal. apply bool_decide_ext. set_solver.
    + intros d Hd. unfold strip. rewrite lineage_of_bind by (by eapply (g_width _ _ (proj2 Hs _ _ Ht'))).
      case_bool_decide; [done|]. by apply Hl.
  - rewrite list_lookup_alter_ne by done. exists t'. split_and!; [done| |done].
    intros d. rewrite Hc, !(bool_decide_false (slot = ti ∧ _)) by naive_solver. done.
Qed.

Lemma tighten_all me a ti profile w :
  sound (registry w) (tasks (sched w)) →
  let w' := foldl (tighten me a ti profile) w ALL in
  sound (registry w') (tasks (sched w')) ∧ no_gain w w' ∧ stripped ti profile ALL w w'.
Proof.
  intros Hs. cbv zeta.
  assert (Hgen : ∀ cs cs0 w1, sound (registry w1) (tasks (sched w1)) ∧ no_gain w w1 ∧ stripped ti profile cs0 w w1 →
    let w' := foldl (tighten me a ti profile) w1 cs in
    sound (registry w') (tasks (sched w')) ∧ no_gain w w' ∧ stripped ti profile (cs0 ++ cs) w w').
  { intros cs. induction cs as [|c cs IH]; intros cs0 w1 H; simpl; [by rewrite app_nil_r|].
    rewrite cons_middle, (assoc_L (++)). apply IH. destruct H as (?&?&?). by apply tighten_spec. }
  apply (Hgen ALL [] w). split_and!; [done|by intros ? ?|]. intros slot t Ht. exists t. split_and!; [done| |done].
  intros d. rewrite (bool_decide_false (slot = ti ∧ d ∈ [])) by set_solver. by rewrite andb_true_r.
Qed.

Lemma sandbox_bind_allowed actor_domain s target_domain profile :
  Guard.allowed (Guard.authorize_sandbox_bind actor_domain s target_domain profile) = true →
  contains s TaskControl = true ∧ Guard.is_valid_for profile target_domain = true.
Proof.
  unfold Guard.authorize_sandbox_bind. destruct (contains s TaskControl); simpl; [|done].
  destruct (_ && _); [done|]. by destruct (Guard.is_valid_for profile target_domain).
Qed.

(** Installing a profile that already covers the raw capabilities. *)
Lemma has_profile r t profile :
  good r t → (∀ d, contains (capabilities t) d = true → Guard.allows profile d = true) →
  good r (set_sandbox_profile profile t) ∧
  ∀ d, task_effective_has r (set_sandbox_profile profile t) d = task_effective_has r t d.
Proof.
  intros Hg Hc. assert (Hg' : good r (set_sandbox_profile profile t)) by (split; [apply Hg|done|apply Hg]).
  split; [done|]. intros d. by rewrite !has_good.
Qed.

Lemma install_profile w w1 ti profile :
  sound (registry w1) (tasks (sched w1)) → no_gain w w1 → stripped ti profile ALL w w1 →
  length (tasks (sched w1)) = length (tasks (sched w)) →
  let w' := update_task ti (set_sandbox_profile profile) w1 in
  sound (registry w') (tasks (sched w')) ∧
  ∀ slot d, effective (registry w') (tasks (sched w')) slot d = effective (registry w1) (tasks (sched w1)) slot d.
Proof.
  intros Hs Hng Hst Hlen w'.
  assert (Hcov : ∀ t d, tasks (sched w1) !! ti = Some t →
    contains (capabilities t) d = true → Guard.allows profile d = true).
  { intros t1 d Ht1. destruct (lookup_lt_is_Some_2 (tasks (sched w)) ti) as [t Ht].
    { rewrite <-Hlen. by eapply lookup_lt_Some. }
    destruct (Hst ti t Ht) as (t' & Ht' & Hc & _). assert (t' = t1) as -> by congruence.
    rewrite Hc. rewrite bool_decide_true by (split; [done|apply elem_of_ALL]).
    destruct (Guard.allows profile d); [done|]. by rewrite andb_false_r. }
  change (registry w') with (registry w1).
  change (tasks (sched w')) with (alter (set_sandbox_profile profile) ti (tasks (sched w1))). split.
  - apply sound_alter; [done|]. intros t Ht. apply has_profile; [by eapply (proj2 Hs)|by eauto].
  - intros slot d. apply effective_alter_same. intros t Ht.
    apply has_profile; [by eapply (proj2 Hs)|by eauto].
Qed.

Lemma length_tighten me a ti profile cs w :
  length (tasks (sched (foldl (tighten me a ti profile) w cs))) = length (tasks (sched w)).
Proof.
  apply (foldl_inv (λ w', length (tasks (sched w')) = length (tasks (sched w)))); [|done].
  intros w1 c _ H. unfold tighten. destruct (Guard.allows profile c); [done|].
  destruct (_ ≫= _) as [l|]; [|simpl; by rewrite length_alter].
  destruct (secure_revoke me a l w1) as (w2 & -> & _ & Hs). simpl. by rewrite length_alter, Hs.
Qed.

(** Binding a sandbox profile confines without resurrecting. It never panics and
    keeps the table sound; no task gains effective authority, even when the new profile
    is wider than the old one. On success the target carries the profile, which is
    valid for its domain, its raw capabilities lie within the profile's ceiling, and
    intrinsic authority the profile admits is kept, as is that of all other tasks; a
    refused request changes neither tasks nor tokens. *)
Theorem bind_sandbox_confines me audit_actor target profile w ai actor :
  sound (registry w) (tasks (sched w)) → task_count (sched w) ≠ 0 → current me w = Some (ai, actor) →
  ∃ w' res, bind_sandbox_profile me audit_actor target profile w = Some (w', res) ∧
    sound (registry w') (tasks (sched w')) ∧ no_gain w w' ∧
    (is_ok res = false → registry w' = registry w ∧ sched w' = sched w) ∧
    (res = Ok () → ∃ ti tgt tgt', task_named target w = Some ti ∧ tasks (sched w) !! ti = Some tgt ∧
      tasks (sched w') !! ti = Some tgt' ∧ sandbox_profile tgt' = profile ∧
      Guard.is_valid_for profile (security_domain tgt) = true ∧
      (∀ d, contains (capabilities tgt') d = true → Guard.allows profile d = true) ∧
      ∀ (slot : nat) t d, tasks (sched w) !! slot = Some t → lineage_of t d = None →
        effective (registry w) (tasks (sched w)) slot d = true →
        (slot = ti → Guard.allows profile d = true) →
        effective (registry w') (tasks (sched w')) slot d = true).
Proof.
  intros Hs Hcount Hcur. unfold bind_sandbox_profile.
  rewrite (proj2 (Z.eqb_neq _ _) Hcount), Hcur. cbn [mbind option_bind].
  destruct (task_named target w) as [ti|] eqn:Hti.
  2:{ exists w, (Err UnknownTask). split_and!; try done. by intros ? ?. }
  destruct (task_named_lookup _ _ _ Hti) as (tgt & Htgt & _). rewrite Htgt. cbn [mbind option_bind].
  destruct (Guard.allowed _) eqn:Hal; cbn [negb].
  2:{ edestruct (secure_record me audit_actor) as (w' & -> & Hr & Hsc). exists w', (Err PermissionDenied).
      rewrite Hr, Hsc. split_and!; try done. intros slot d. by rewrite Hr, Hsc. }
  apply sandbox_bind_allowed in Hal as [_ Hvalid].
  destruct (tighten_all me (id actor) ti profile w Hs) as (Hs1 & Hng1 & Hst1).
  pose proof (length_tighten me (id actor) ti profile ALL w) as Hlen.
  set (w1 := foldl _ w ALL) in *. clearbody w1.
  destruct (install_profile w w1 ti profile Hs1 Hng1 Hst1 Hlen) as [Hs2 Heff2].
  edestruct (secure_record me audit_actor) as (w' & -> & Hr & Hsc). exists w', (Ok ()).
  rewrite Hr, Hsc. split_and!; try done.
  { intros slot d. rewrite Hr, Hsc, Heff2. apply Hng1. }
  intros _. destruct (Hst1 ti tgt Htgt) as (t1 & Ht1 & Hc1 & Hl1).
  exists ti, tgt, (set_sandbox_profile profile t1).
  assert (Hlook : tasks (sched (update_task ti (set_sandbox_profile profile) w1)) !! ti =
    Some (set_sandbox_profile profile t1)) by (simpl; by rewrite list_lookup_alter_eq, Ht1).
  split_and!; try done.
  { intros d H. apply (g_contained _ _ (proj2 Hs2 _ _ Hlook) d H). }
  intros slot t d Ht Hln Heff Hadm. rewrite Heff2. unfold effective in *. rewrite Ht in Heff.
  destruct (Hst1 slot t Ht) as (t' & Ht' & Hc & Hl). rewrite Ht'.
  rewrite has_good, Hln in Heff by (by eapply (proj2 Hs)). rewrite andb_true_r in Heff.
  rewrite has_good, (Hl d Hln), andb_true_r, Hc, Heff by (by eapply (proj2 Hs1)). simpl.
  case_bool_decide as H; [|done]. by rewrite Hadm by apply H.
Qed.

(** ** The access gates *)

Lemma device_decision s profile class :
  Guard.allowed (Guard.authorize_device_access s profile class) =
    contains s (Guard.device_capability class) && Guard.allows_device profile class.
Proof.
  unfold Guard.authorize_device_access.
  by destruct (contains s _), (Guard.allows_device profile class).
Qed.

Lemma secure_logged me actor act tgt det ok w h :
  Ledger.rep (Service.ledger (sec w)) h →
  ∃ w', secure me (Service.record_detail actor act tgt det ok) w = (w', ()) ∧
    registry w' = registry w ∧ sched w' = sched w ∧
    Ledger.rep (Service.ledger (sec w')) (h ++ [Ledger.mkEvent (wrap64 (Z.of_nat (length h)))
      (Service.now (sec w)) (as_u16 (Z.of_nat me)) actor act tgt det ok]).
Proof. intros H. eexists. split; [reflexivity|]. split_and!; [done..|]. by apply Service.audited. Qed.

(** The device and file gates are reference monitors. Each admits exactly the
    requests for which the running task effectively holds the capability of the device
    class or access mode and its sandbox admits the class or the path's scope; it
    changes no task and no token, and appends one ledger record with the actor, the
    object and the decision, refusals included. *)
Theorem access_gates_decide_and_audit me actor class path (write : bool) w ai t h :
  task_count (sched w) ≠ 0 → current me w = Some (ai, t) → Ledger.rep (Service.ledger (sec w)) h →
  let logged w' act tgt det ok := registry w' = registry w ∧ sched w' = sched w ∧
    Ledger.rep (Service.ledger (sec w')) (h ++ [Ledger.mkEvent (wrap64 (Z.of_nat (length h)))
      (Service.now (sec w)) (as_u16 (Z.of_nat me)) actor act tgt det ok]) in
  (∃ w', let ok := task_effective_has (registry w) t (Guard.device_capability class)
                   && Guard.allows_device (sandbox_profile t) class in
    authorize_current_device me actor class w = Some (w', ok) ∧
    logged w' Ledger.SandboxDeviceAccess (Guard.device_index class)
      (Z.of_nat (index (Guard.device_capability class))) ok) ∧
  (∃ w', let scope := Guard.classify_file_path path in
    let ok := task_effective_has (registry w) t (if write then FileWrite else FileRead)
              && (if write then Guard.allows_file_write else Guard.allows_file_read) (sandbox_profile t) scope in
    authorize_current_file_path me actor path write w = (w', ok) ∧
    logged w' (if write then Ledger.SandboxFileWrite else Ledger.SandboxFileRead)
      (Guard.scope_index scope) (file_path_hash path) ok).
Proof.
  intros Hcount Hcur Hrep logged.
  unfold authorize_current_device, authorize_current_file_path, current_file_access_allowed.
  rewrite (proj2 (Z.eqb_neq _ _) Hcount), Hcur. cbn [mbind option_bind].
  rewrite device_decision, effective_capabilities. split.
  - edestruct (secure_logged me actor) as (w' & -> & H); [done|]. by exists w'.
  - edestruct (secure_logged me actor) as (w' & -> & H); [done|]. exists w'.
    destruct write, (task_effective_has _ t _); by split.
Qed.

(** ** Fresh tasks and boot *)

Lemma lineage_of_fresh t c : capability_lineages t = no_lineages → lineage_of t c = None.
Proof. intros H. unfold lineage_of. rewrite H. by destruct c. Qed.

Lemma good_fresh r t :
  capability_lineages t = no_lineages →
  (∀ c, contains (capabilities t) c = true → Guard.allows (sandbox_profile t) c = true) → good r t.
Proof.
  intros Hl Hc. split; [by rewrite Hl|done|]. intros c l. by rewrite lineage_of_fresh.
Qed.

(** The tasks made at boot and by the spawning operations start well-formed. *)
Lemma good_boot `{Platform} r t : good r tcb_empty ∧ good r (boot_kernel_task t) ∧ good r (boot_idle_task t).
Proof. split_and!; (apply good_fresh; [done|]); by intros []. Qed.

Lemma good_initialize `{Platform} r slot i nm e p t : good r (initialize slot i nm e p t).
Proof. apply good_fresh; [done|]. by intros []. Qed.

Lemma good_initialize_user `{Platform} r slot i nm ctx space t : good r (initialize_user slot i nm ctx space t).
Proof. apply good_fresh; [done|]. by intros []. Qed.

(** A fork child inherits a well-formed security context. *)
Lemma fork_good `{Platform} r slot i frame_size space parent t :
  good r parent →
  good r (initialize_fork slot i frame_size space (mkForkSecurity (capabilities parent)
    (capability_lineages parent) (security_domain parent) (sandbox_profile parent)) t).
Proof. intros Hg. split; apply Hg. Qed.

Lemma sound_unheld_fresh ts :
  Forall (λ t, good Lin.new t ∧ capability_lineages t = no_lineages) ts →
  sound Lin.new ts ∧ unheld Lin.new ts.
Proof.
  rewrite Forall_lookup. intros H. split.
  - split; [apply LinProofs.wf_new|]. intros slot t Ht. by eapply H.
  - intros i e slot t c l _ _ Ht Hl. rewrite lineage_of_fresh in Hl; [done|]. by eapply H.
Qed.

(** A kernel with two services. *)
Section example.
#[local] Instance flat : Platform :=
  {| task_stack slot := 0x100000 + 0x20000 * Z.of_nat slot; idle_task := 0x2000; kernel_address_space := Some 0x1000 |}.

Definition example_tasks : list Tcb :=
  [boot_kernel_task tcb_empty; initialize 1 2 "broker" 0x3000 NORMAL tcb_empty;
   initialize 2 3 "worker" 0x4000 NORMAL tcb_empty].

Definition example_world : World :=
  mkWorld (Smp.mkTopology [true; true; false; false] [0; 0; 0; 0] [0; 0; 0; 0] 2)
    (mkSched example_tasks [0; 1; 0; 0]%nat 3 0 (replicate 4 (replicate 3 0%nat)) (replicate 4 MAX_TASKS))
    4 (Service.mkSys Lin.new Ledger.new 0 0) [] (replicate 4 false) [].

Lemma example_sound : sound Lin.new example_tasks ∧ unheld Lin.new example_tasks.
Proof.
  apply sound_unheld_fresh. unfold example_tasks.
  rewrite !Forall_cons, Forall_nil. split_and!; try done; apply good_boot || apply good_initialize.
Qed.
End example.

Lemma grant_exact_witness :
  ∃ w' res, grant 0 0 2 Ipc example_world = Some (w', res) ∧ sound (registry w') (tasks (sched w')) ∧
    gains example_world w' (Some 1%nat) Ipc (is_ok res).
Proof.
  destruct (grant_exact 0 0 2 Ipc example_world 0 (boot_kernel_task (H := flat) tcb_empty)
    (proj1 example_sound) (proj2 example_sound) ltac:(done) eq_refl) as (w' & res & H1 & H2 & H3 & _).
  exists w', res. split_and!; [exact H1|exact H2|exact H3].
Defined.

Lemma revoke_exact_witness :
  ∃ w' res, revoke 0 0 2 Ipc example_world = Some (w', res) ∧ sound (registry w') (tasks (sched w')) ∧
    is_ok res = true.
Proof.
  destruct (revoke_exact 0 0 2 Ipc example_world 0 (boot_kernel_task (H := flat) tcb_empty)
    (proj1 example_sound) ltac:(done) eq_refl) as (w' & res & H1 & H2 & H3 & _).
  exists w', res. split_and!; [exact H1|exact H2|rewrite H3; reflexivity].
Defined.

Lemma bind_sandbox_confines_witness :
  ∃ w' res, bind_sandbox_profile 0 0 2 Guard.RESTRICTED example_world = Some (w', res) ∧
    sound (registry w') (tasks (sched w')) ∧ no_gain example_world w'.
Proof.
  destruct (bind_sandbox_confines 0 0 2 Guard.RESTRICTED example_world 0 (boot_kernel_task (H := flat) tcb_empty)
    (proj1 example_sound) ltac:(done) eq_refl) as (w' & res & H1 & H2 & H3 & _).
  exists w', res. split_and!; [exact H1|exact H2|exact H3].
Defined.

Lemma access_gates_decide_and_audit_witness :
  ∃ w', authorize_current_device 0 0 Guard.DNetwork example_world = Some (w', true) ∧
    Ledger.rep (Service.ledger (sec w'))
      [Ledger.mkEvent 0 0 0 0 Ledger.SandboxDeviceAccess 0 11 true].
Proof.
  destruct (access_gates_decide_and_audit 0 0 Guard.DNetwork [] false example_world 0
    (boot_kernel_task (H := flat) tcb_empty) [] ltac:(done) eq_refl Ledger.rep_new) as [(w' & H1 & _ & _ & H3) _].
  exists w'. split; [exact H1|exact H3].
Defined.

(** ** A consequence of the bookkeeping *)

(** Requests in sequence, keeping the last result. *)
Inductive request := Grant (me : nat) (target : Z) (c : Capability) | Revoke (me : nat) (target : Z) (c : Capability).

Fixpoint serve (w : World) (rs : list request) : option World :=
  match rs with
  | [] => Some w
  | q :: rs =>
      '(w, res) ← match q with
        | Grant me target c => grant me 0 target c w
        | Revoke me target c => revoke me 0 target c w
        end;
      if is_ok res then serve w rs else None
  end.

(** By example: revocation is transitive along delegations, but a repeated grant breaks the
    chain. The kernel grants a broker task control and a capability, the broker
    delegates the capability to a worker, and the kernel revokes the broker: both lose
    it. If the kernel grants the capability to the broker a second time before revoking
    it, the broker's token is replaced while the old one stays live, and after the
    revocation the worker still holds the capability. *)
Lemma regrant_escapes_revocation :
  let delegate := [Grant 0 2 TaskControl; Grant 0 2 Ipc; Grant 1 3 Ipc] in
  (∃ w, serve example_world (delegate ++ [Revoke 0 2 Ipc]) = Some w ∧
    task_has 2 Ipc w = false ∧ task_has 3 Ipc w = false) ∧
  (∃ w, serve example_world (delegate ++ [Grant 0 2 Ipc; Revoke 0 2 Ipc]) = Some w ∧
    task_has 2 Ipc w = false ∧ task_has 3 Ipc w = true).
Proof.
  split; eexists; (split; [vm_compute; reflexivity|]); split; vm_compute; reflexivity.
Qed.

(** The registry with every slot taken. *)
Definition full_registry : Lin.Registry :=
  foldl (λ r _, (Lin.issue_root r 9 (only Console)).1) Lin.new (seq 0 Lin.MAX_CAPABILITY_LINEAGES).

(** When no lineage root can be issued, [grant] returns early: the refusal leaves no
    grant record, only the failed issue. *)
Lemma grant_denial_unaudited :
  let w := set_sec (Service.mkSys full_registry Ledger.new 0 0) example_world in
  ∃ w', grant 0 0 2 Ipc w = Some (w', Err PermissionDenied) ∧
    Ledger.log_sequence (Service.ledger (sec w')) = 1 ∧
    Ledger.action <$> Ledger.latest (Service.ledger (sec w')) = Some Ledger.CapabilityLineageIssue.
Proof. eexists. split; [vm_compute; reflexivity|]. split; vm_compute; reflexivity. Qed.
End AuthProofs.
