(* ===== verification/Block.v ===== *)
(** * Block devices and partitions (kernel/src/block.rs, kernel/src/partition.rs)

    The [BlockDevice] trait is a class of operations; [Lawful] states what its clients
    rely on, for an abstract disk content. The RAM disk and the partition view
    implement it; the MBR scan finds a partition inside any device. Bytes are [Z];
    a buffer passed by [&mut] comes back as a result. *)
From S2P Require Import Prelude.

Module Block.

Definition SECTOR_SIZE : nat := 512.

Inductive Error := OutOfBounds | InvalidBuffer | ReadOnly | DeviceFault.

#[export] Instance Error_eq_dec : EqDecision Error.
Proof. solve_decision. Defined.

(** The trait. [read_sector d lba out] returns the device, the buffer and the status. *)
Class BlockDevice (D : Type) := {
  sector_count : D → Z;
  is_read_only : D → bool;
  flush : D → D * result () Error;
  read_sector : D → Z → list Z → D * list Z * result () Error;
  write_sector : D → Z → list Z → D * result () Error
}.

(** What the trait promises, for devices in a good state [ok] whose sector [l] holds
    [disk d l]. A failed write may leave anything in its own sector; a failed read may
    leave anything in the buffer; nothing else changes. *)
Class Lawful {D} `{BlockDevice D} (ok : D → Prop) (disk : D → Z → list Z) : Prop := {
  law_count d : ok d → 0 ≤ sector_count d ≤ u64_max;
  law_length d l : ok d → 0 ≤ l < sector_count d → length (disk d l) = SECTOR_SIZE;
  law_read d l out : ok d → 0 ≤ l →
    let '(d', out', res) := read_sector d l out in
    ok d' ∧ sector_count d' = sector_count d ∧ is_read_only d' = is_read_only d ∧
    (∀ k, 0 ≤ k < sector_count d → disk d' k = disk d k) ∧ length out' = length out ∧
    (res = Ok () → length out = SECTOR_SIZE ∧ l < sector_count d ∧ out' = disk d l);
  law_write d l data : ok d → 0 ≤ l →
    let '(d', res) := write_sector d l data in
    ok d' ∧ sector_count d' = sector_count d ∧ is_read_only d' = is_read_only d ∧
    (∀ k, 0 ≤ k < sector_count d → k ≠ l → disk d' k = disk d k) ∧
    (res = Ok () → length data = SECTOR_SIZE ∧ l < sector_count d ∧ disk d' l = data);
  law_flush d : ok d →
    let '(d', res) := flush d in
    ok d' ∧ sector_count d' = sector_count d ∧ is_read_only d' = is_read_only d ∧
    ∀ k, 0 ≤ k < sector_count d → disk d' k = disk d k
}.

(** ** The RAM disk *)
Record RamDisk := mkRamDisk {
  sectors : list (list Z);
  read_only : bool
}.

Definition new (n : nat) : RamDisk := mkRamDisk (replicate n (replicate SECTOR_SIZE 0)) false.
Definition set_read_only (b : bool) (d : RamDisk) : RamDisk := mkRamDisk (sectors d) b.

Definition ram_read_sector (d : RamDisk) (lba : Z) (sector : list Z) : RamDisk * list Z * result () Error :=
  if negb (length sector =? SECTOR_SIZE)%nat then (d, sector, Err InvalidBuffer)
  else match sectors d !! Z.to_nat lba with
       | None => (d, sector, Err OutOfBounds)
       | Some source => (d, source, Ok ())
       end.

Definition ram_write_sector (d : RamDisk) (lba : Z) (sector : list Z) : RamDisk * result () Error :=
  if negb (length sector =? SECTOR_SIZE)%nat then (d, Err InvalidBuffer)
  else if read_only d then (d, Err ReadOnly)
  else match sectors d !! Z.to_nat lba with
       | None => (d, Err OutOfBounds)
       | Some _ => (mkRamDisk (<[Z.to_nat lba := sector]> (sectors d)) (read_only d), Ok ())
       end.

#[export] Instance ram_device : BlockDevice RamDisk := {|
  sector_count d := Z.of_nat (length (sectors d));
  is_read_only := read_only;
  flush d := (d, Ok ());
  read_sector := ram_read_sector;
  write_sector := ram_write_sector
|}.

Definition ram_ok (d : RamDisk) : Prop :=
  Z.of_nat (length (sectors d)) ≤ u64_max ∧ Forall (λ s, length s = SECTOR_SIZE) (sectors d).
Definition ram_disk (d : RamDisk) (l : Z) : list Z := default [] (sectors d !! Z.to_nat l).

#[export] Instance ram_lawful : Lawful ram_ok ram_disk.
Proof.
  split.
  - intros d [H _]. simpl. lia.
  - intros d l [_ H] Hl. simpl in Hl. unfold ram_disk.
    destruct (sectors d !! Z.to_nat l) as [s|] eqn:E; [simpl; by eapply Forall_lookup_1 in H|].
    apply lookup_ge_None in E. lia.
  - intros d l out Hok Hl. simpl. unfold ram_read_sector.
    destruct (Nat.eqb_spec (length out) SECTOR_SIZE) as [Ho|]; simpl; [|done].
    destruct (sectors d !! Z.to_nat l) as [s|] eqn:E; [|done]. split_and!; try done.
    + rewrite Ho. by eapply (Forall_lookup_1 _ _ _ _ (proj2 Hok)).
    + intros _. apply lookup_lt_Some in E as Hlt. split_and!; [done|lia|]. unfold ram_disk. by rewrite E.
  - intros d l data [Hb Hok] Hl. simpl. unfold ram_write_sector.
    destruct (Nat.eqb_spec (length data) SECTOR_SIZE) as [Ho|]; simpl; [|done].
    destruct (read_only d) eqn:Hro; [done|].
    destruct (sectors d !! Z.to_nat l) as [s|] eqn:E; [|done]. apply lookup_lt_Some in E as Hlt.
    simpl. rewrite length_insert. split_and!; try done.
    + unfold ram_ok. simpl. rewrite length_insert. split; [done|by apply Forall_insert].
    + intros k Hk Hne. unfold ram_disk. simpl. rewrite list_lookup_insert_ne by lia. done.
    + intros _. split_and!; [done|lia|]. unfold ram_disk. simpl. by rewrite list_lookup_insert_eq.
  - intros d Hok. simpl. done.
Qed.

(** [block::self_test] *)
Definition write_then (d : RamDisk) (l : Z) (data : list Z) (k : RamDisk → bool) : bool :=
  match write_sector d l data with (d, Ok _) => k d | (_, Err _) => false end.

Definition self_test : bool :=
  let written := default [] (copy_at 0 (bytes "wovenhat-block") (replicate SECTOR_SIZE 0)) in
  write_then (new 2) 1 written (λ disk,
    let '(disk, read, r1) := read_sector disk 1 (replicate SECTOR_SIZE 0) in
    let round_trip := is_ok r1 && bool_decide (read = written) in
    let '(disk, read, r2) := read_sector disk 2 read in
    let bounds := bool_decide (r2 = Err OutOfBounds) in
    let '(disk, _, r3) := read_sector disk 0 (take (SECTOR_SIZE - 1) read) in
    let size := bool_decide (r3 = Err InvalidBuffer) in
    let disk := set_read_only true disk in
    let '(_, r4) := write_sector disk 0 written in
    round_trip && bounds && size && bool_decide (r4 = Err ReadOnly)).

(** ** Partitions *)
Record Partition := mkPartition {
  start_lba : Z;
  psectors : Z;
  kind : Z
}.

#[export] Instance Partition_eq_dec : EqDecision Partition.
Proof. solve_decision. Defined.

Inductive PartitionError := PBlock (e : Error) | PInvalidTable | POutOfBounds.

#[export] Instance PartitionError_eq_dec : EqDecision PartitionError.
Proof. solve_decision. Defined.

Definition PARTITION_TABLE_OFFSET : nat := 446.
Definition PARTITION_ENTRY_SIZE : nat := 16.
Definition PARTITION_COUNT : nat := 4.

(** Indexing a sector buffer; the callers stay below its 512 bytes. *)
Definition byte_at (s : list Z) (i : nat) : Z := default 0 (s !! i).
Definition read_u32 (s : list Z) (off : nat) : Z :=
  from_le_bytes [byte_at s off; byte_at s (off + 1); byte_at s (off + 2); byte_at s (off + 3)].

(** One table entry: skip, or a partition to take if none was taken before. *)
Definition scan_entry (sector : list Z) (count : Z) (found : option Partition) (i : nat)
    : result (option Partition) PartitionError :=
  let offset := (PARTITION_TABLE_OFFSET + i * PARTITION_ENTRY_SIZE)%nat in
  let boot := byte_at sector offset in
  if negb ((boot =? 0) || (boot =? 0x80)) then Err PInvalidTable
  else
    let knd := byte_at sector (offset + 4) in
    let start := read_u32 sector (offset + 8) in
    let n := read_u32 sector (offset + 12) in
    if (knd =? 0) && (start =? 0) && (n =? 0) then Ok found
    else match checked_add64 start n with
      | None => Err POutOfBounds
      | Some e =>
          if (start =? 0) || (n =? 0) || (count <? e) then Err POutOfBounds
          else if bool_decide (found = None) && ((knd =? 0x0b) || (knd =? 0x0c))
          then Ok (Some (mkPartition start n knd))
          else Ok found
      end.

Fixpoint scan_entries (sector : list Z) (count : Z) (found : option Partition) (ids : list nat)
    : result (option Partition) PartitionError :=
  match ids with
  | [] => Ok found
  | i :: ids => let? found := scan_entry sector count found i in scan_entries sector count found ids
  end.

Section device.
Context {D : Type} `{BlockDevice D}.

Definition find_fat32 (d : D) : D * result (option Partition) PartitionError :=
  let '(d, sector, res) := read_sector d 0 (replicate SECTOR_SIZE 0) in
  match res with
  | Err e => (d, Err (PBlock e))
  | Ok _ =>
      if negb (byte_at sector 510 =? 0x55) || negb (byte_at sector 511 =? 0xaa) then (d, Ok None)
      else (d, scan_entries sector (sector_count d) None (seq 0 PARTITION_COUNT))
  end.

(** [PartitionDevice<'a, D>] *)
Record PartitionDevice := mkPartitionDevice {
  device : D;
  partition : Partition
}.

Definition partition_new (d : D) (p : Partition) : result PartitionDevice PartitionError :=
  match checked_add64 (start_lba p) (psectors p) with
  | None => Err POutOfBounds
  | Some e =>
      if (start_lba p =? 0) || (psectors p =? 0) || (sector_count d <? e) then Err POutOfBounds
      else Ok (mkPartitionDevice d p)
  end.

Definition absolute_lba (v : PartitionDevice) (lba : Z) : result Z Error :=
  if psectors (partition v) <=? lba then Err OutOfBounds
  else ok_or (checked_add64 (start_lba (partition v)) lba) OutOfBounds.

Definition partition_read_sector (v : PartitionDevice) (lba : Z) (sector : list Z)
    : PartitionDevice * list Z * result () Error :=
  match absolute_lba v lba with
  | Err e => (v, sector, Err e)
  | Ok abs =>
      let '(d, out, res) := read_sector (device v) abs sector in
      (mkPartitionDevice d (partition v), out, res)
  end.

Definition partition_write_sector (v : PartitionDevice) (lba : Z) (sector : list Z)
    : PartitionDevice * result () Error :=
  match absolute_lba v lba with
  | Err e => (v, Err e)
  | Ok abs =>
      let '(d, res) := write_sector (device v) abs sector in
      (mkPartitionDevice d (partition v), res)
  end.

#[export] Instance partition_device : BlockDevice PartitionDevice := {|
  sector_count v := psectors (partition v);
  is_read_only v := is_read_only (device v);
  flush v := let '(d, res) := flush (device v) in (mkPartitionDevice d (partition v), res);
  read_sector := partition_read_sector;
  write_sector := partition_write_sector
|}.

End device.
Arguments PartitionDevice D : clear implicits.

(** [partition::self_test] *)
Definition partition_self_test : bool :=
  let put off bs s := default s (copy_at off bs s) in
  let mbr := put (446 + 12)%nat (to_le_bytes 4 4) (put (446 + 8)%nat (to_le_bytes 4 2)
    (put (446 + 4)%nat [0x0c] (put 446%nat [0x80] (put 511%nat [0xaa] (put 510%nat [0x55]
      (replicate SECTOR_SIZE 0)))))) in
  write_then (new 8) 0 mbr (λ disk,
    match find_fat32 disk with
    | (disk, Ok (Some p)) =>
        let payload := put 0%nat (bytes "partition") (replicate SECTOR_SIZE 0) in
        match partition_new disk p with
        | Err _ => false
        | Ok view =>
            let '(view, w) := write_sector view 1 payload in
            let '(view, _, r) := read_sector view 4 payload in
            let disk := device view in
            let '(disk, physical, r') := read_sector disk 3 (replicate SECTOR_SIZE 0) in
            is_ok w && negb (is_ok r) && is_ok r' &&
              bool_decide (take 9 physical = bytes "partition") && (start_lba p =? 2) && (psectors p =? 4)
        end
    | _ => false
    end).

(** ** Properties *)

Section partition_proofs.
Context {D : Type} `{BlockDevice D} (ok : D → Prop) (disk : D → Z → list Z) `{!Lawful ok disk}.

(** A partition inside the device. *)
Definition within (p : Partition) (n : Z) : Prop :=
  0 < start_lba p ∧ 0 < psectors p ∧ start_lba p + psectors p ≤ n.

Definition partition_ok (v : PartitionDevice D) : Prop :=
  ok (device v) ∧ within (partition v) (sector_count (device v)).
Definition partition_disk (v : PartitionDevice D) (l : Z) : list Z :=
  disk (device v) (start_lba (partition v) + l).

(** The sectors outside the partition. *)
Definition outside_same (v v' : PartitionDevice D) : Prop :=
  ∀ k, 0 ≤ k < sector_count (device v) →
    ¬ (start_lba (partition v) ≤ k < start_lba (partition v) + psectors (partition v)) →
    disk (device v') k = disk (device v) k.

Lemma absolute_lba_spec v l :
  partition_ok v → 0 ≤ l →
  absolute_lba v l =
    if psectors (partition v) <=? l then Err OutOfBounds else Ok (start_lba (partition v) + l).
Proof.
  intros [Hok (H1 & H2 & H3)] Hl. unfold absolute_lba. pose proof (law_count _ Hok).
  destruct (Z.leb_spec (psectors (partition v)) l); [done|]. unfold checked_add64.
  by rewrite (proj2 (Z.leb_le _ _)) by lia.
Qed.

Lemma partition_new_ok d p v :
  ok d → 0 ≤ start_lba p → 0 ≤ psectors p → partition_new d p = Ok v →
  partition_ok v ∧ device v = d ∧ partition v = p.
Proof.
  intros Hok H1 H2. unfold partition_new, checked_add64. destruct (Z.leb_spec (start_lba p + psectors p) u64_max); [|done].
  destruct (Z.eqb_spec (start_lba p) 0), (Z.eqb_spec (psectors p) 0); simpl; try done.
  destruct (Z.ltb_spec (sector_count d) (start_lba p + psectors p)); [done|].
  intros [= <-]. unfold partition_ok, within. simpl. split_and!; (done || lia).
Qed.

Lemma partition_read v l out :
  partition_ok v → 0 ≤ l →
  let '(v', out', res) := partition_read_sector v l out in
  partition_ok v' ∧ partition v' = partition v ∧ is_read_only (device v') = is_read_only (device v) ∧
  outside_same v v' ∧
  (∀ k, 0 ≤ k < psectors (partition v) → partition_disk v' k = partition_disk v k) ∧
  length out' = length out ∧
  (res = Ok () → length out = SECTOR_SIZE ∧ l < psectors (partition v) ∧ out' = partition_disk v l).
Proof.
  intros Hp Hl. unfold partition_read_sector. rewrite absolute_lba_spec by done.
  destruct (Z.leb_spec (psectors (partition v)) l); [by split_and!|].
  destruct Hp as [Hok Hw]. pose proof Hw as (H1 & H2 & H3).
  pose proof (law_read (device v) (start_lba (partition v) + l) out Hok ltac:(lia)) as Hr.
  destruct (read_sector (device v) _ out) as [[d' out'] res].
  destruct Hr as (Hok' & Hc & Hro & Hsame & Hlen & Hres).
  unfold partition_ok, partition_disk, outside_same. simpl. rewrite Hc. split_and!; try done.
  - intros k Hk _. by apply Hsame.
  - intros k Hk. apply Hsame. lia.
  - intros Hx. destruct (Hres Hx) as (? & ? & ?). done.
Qed.

Lemma partition_write v l data :
  partition_ok v → 0 ≤ l →
  let '(v', res) := partition_write_sector v l data in
  partition_ok v' ∧ partition v' = partition v ∧ is_read_only (device v') = is_read_only (device v) ∧
  outside_same v v' ∧
  (∀ k, 0 ≤ k < psectors (partition v) → k ≠ l → partition_disk v' k = partition_disk v k) ∧
  (res = Ok () → length data = SECTOR_SIZE ∧ l < psectors (partition v) ∧ partition_disk v' l = data).
Proof.
  intros Hp Hl. unfold partition_write_sector. rewrite absolute_lba_spec by done.
  destruct (Z.leb_spec (psectors (partition v)) l); [by split_and!|].
  destruct Hp as [Hok Hw]. pose proof Hw as (H1 & H2 & H3).
  pose proof (law_write (device v) (start_lba (partition v) + l) data Hok ltac:(lia)) as Hr.
  destruct (write_sector (device v) _ data) as [d' res].
  destruct Hr as (Hok' & Hc & Hro & Hsame & Hres).
  unfold partition_ok, partition_disk, outside_same. simpl. rewrite Hc. split_and!; try done.
  - intros k Hk Hout. apply Hsame; lia.
  - intros k Hk Hne. apply Hsame; lia.
  - intros Hx. destruct (Hres Hx) as (? & ? & ?). done.
Qed.

#[export] Instance partition_lawful : Lawful partition_ok partition_disk.
Proof.
  split.
  - intros v [Hok (H1 & H2 & H3)]. pose proof (law_count _ Hok). simpl. lia.
  - intros v l [Hok (H1 & H2 & H3)] Hl. simpl in Hl. unfold partition_disk. apply law_length; [done|lia].
  - intros v l out Hp Hl. simpl. pose proof (partition_read v l out Hp Hl) as Hr.
    destruct (partition_read_sector v l out) as [[v' out'] res].
    destruct Hr as (? & Hpart & ? & _ & ? & ? & ?). by rewrite Hpart.
  - intros v l data Hp Hl. simpl. pose proof (partition_write v l data Hp Hl) as Hr.
    destruct (partition_write_sector v l data) as [v' res].
    destruct Hr as (? & Hpart & ? & _ & ? & ?). by rewrite Hpart.
  - intros v [Hok Hw]. pose proof (law_flush _ Hok) as Hf. pose proof Hw as (H1 & H2 & H3). simpl.
    destruct (flush (device v)) as [d' res]. destruct Hf as (? & Hc & ? & Hsame).
    unfold partition_ok, partition_disk. simpl. rewrite Hc. split_and!; try done.
    intros k Hk. apply Hsame. lia.
Qed.

(** *** The MBR scan *)

Lemma read_u32_range s off : Forall (λ b, 0 ≤ b < 256) s → 0 ≤ read_u32 s off < 2 ^ 32.
Proof.
  intros Hs. assert (Hb : ∀ i, 0 ≤ byte_at s i < 256).
  { intros i. unfold byte_at. destruct (s !! i) eqn:E; simpl; [|lia]. by eapply Forall_lookup_1 in Hs. }
  unfold read_u32. simpl. pose proof (Hb off). pose proof (Hb (off + 1)%nat).
  pose proof (Hb (off + 2)%nat). pose proof (Hb (off + 3)%nat). lia.
Qed.

Lemma scan_entry_within sector n found i r :
  Forall (λ b, 0 ≤ b < 256) sector → (∀ p, found = Some p → within p n) →
  scan_entry sector n found i = Ok r → ∀ p, r = Some p → within p n.
Proof.
  intros Hs Hf. unfold scan_entry.
  set (off := (PARTITION_TABLE_OFFSET + i * PARTITION_ENTRY_SIZE)%nat). clearbody off.
  pose proof (read_u32_range sector (off + 8) Hs). pose proof (read_u32_range sector (off + 12) Hs).
  destruct (negb _); [done|]. destruct (_ && _ && _); [by intros [= <-]|].
  unfold checked_add64. destruct (_ <=? u64_max); [|done].
  destruct (Z.eqb_spec (read_u32 sector (off + 8)) 0), (Z.eqb_spec (read_u32 sector (off + 12)) 0); cbn [orb]; try done.
  destruct (Z.ltb_spec n (read_u32 sector (off + 8) + read_u32 sector (off + 12))); [done|].
  destruct (_ && _); intros [= <-]; [|done]. intros p [= <-]. unfold within. cbn [start_lba psectors]. lia.
Qed.

Lemma scan_entries_within sector n ids found r :
  Forall (λ b, 0 ≤ b < 256) sector → (∀ p, found = Some p → within p n) →
  scan_entries sector n found ids = Ok r → ∀ p, r = Some p → within p n.
Proof.
  intros Hs. revert found. induction ids as [|i ids IH]; intros found Hf; simpl; [by intros [= <-]|].
  destruct (scan_entry sector n found i) as [f|e] eqn:E; [|done]. simpl.
  apply IH. by eapply scan_entry_within.
Qed.

(** The partition the scan selects lies inside the device, so a view of it opens. *)
Lemma find_fat32_within d d' p :
  ok d → (∀ l, 0 ≤ l < sector_count d → Forall (λ b, 0 ≤ b < 256) (disk d l)) →
  find_fat32 d = (d', Ok (Some p)) → ok d' ∧ within p (sector_count d') ∧
  is_ok (partition_new d' p) = true.
Proof.
  intros Hok Hbytes. unfold find_fat32.
  pose proof (law_read d 0 (replicate SECTOR_SIZE 0) Hok ltac:(lia)) as Hr.
  destruct (read_sector d 0 _) as [[d1 out] res]. destruct Hr as (Hok1 & Hc & _ & _ & _ & Hres).
  destruct res as [[]|e]; [|done]. destruct (Hres eq_refl) as (_ & Hlt & ->).
  destruct (negb _ || negb _); [done|]. destruct (scan_entries _ _ _ _) as [found|err] eqn:Hscan; intros Heq; simplify_eq.
  assert (Hw : within p (sector_count d')).
  { refine (scan_entries_within _ _ _ None _ _ _ Hscan p eq_refl); [|done]. apply Hbytes. lia. }
  split_and!; [done..|]. pose proof (law_count _ Hok1). destruct Hw as (H1 & H2 & H3).
  unfold partition_new, checked_add64. rewrite (proj2 (Z.leb_le _ _)) by lia.
  rewrite (proj2 (Z.eqb_neq _ _)), (proj2 (Z.eqb_neq _ _)), (proj2 (Z.ltb_ge _ _)) by lia. done.
Qed.

(** *** A client of the view *)

(** What a file system does to the partition it was given. *)
Inductive access :=
  | ARead (lba : Z) (buffer : list Z)
  | AWrite (lba : Z) (data : list Z)
  | AFlush.

Definition access_lba (a : access) : Z := match a with ARead l _ | AWrite l _ => l | AFlush => 0 end.

Definition perform (v : PartitionDevice D) (a : access) : PartitionDevice D :=
  match a with
  | ARead l out => (read_sector v l out).1.1
  | AWrite l data => (write_sector v l data).1
  | AFlush => (flush v).1
  end.

(** The view still shows partition [p] of a device like [d], and the sectors of [d]
    outside [p] are as they were. *)
Record confined (d : D) (p : Partition) (v : PartitionDevice D) : Prop := {
  cf_ok : partition_ok v;
  cf_part : partition v = p;
  cf_count : sector_count (device v) = sector_count d;
  cf_outside : ∀ k, 0 ≤ k < sector_count d →
    ¬ (start_lba p ≤ k < start_lba p + psectors p) → disk (device v) k = disk d k
}.

Lemma perform_confined d p v a : confined d p v → 0 ≤ access_lba a → confined d p (perform v a).
Proof.
  intros [Hok Hp Hc Hout] Ha. destruct a as [l out|l data|]; cbn [perform access_lba] in *.
  - pose proof (partition_read v l out Hok Ha) as Hr. simpl.
    pose proof Hok as [Hd (H1 & H2 & H3)]. unfold partition_read_sector in *. rewrite absolute_lba_spec in * by done.
    destruct (Z.leb_spec (psectors (partition v)) l); [done|].
    pose proof (law_read (device v) (start_lba (partition v) + l) out Hd ltac:(lia)) as Hl.
    destruct (read_sector (device v) _ out) as [[d' out'] res]. destruct Hr as (Hok' & _ & _ & Hsame & _), Hl as (_ & Hc' & _).
    split; [done|done|cbn; by rewrite Hc'|]. intros k Hk Hx. rewrite Hsame; [by apply Hout|by rewrite Hc|by rewrite Hp].
  - pose proof (partition_write v l data Hok Ha) as Hr. simpl.
    pose proof Hok as [Hd (H1 & H2 & H3)]. unfold partition_write_sector in *. rewrite absolute_lba_spec in * by done.
    destruct (Z.leb_spec (psectors (partition v)) l); [done|].
    pose proof (law_write (device v) (start_lba (partition v) + l) data Hd ltac:(lia)) as Hl.
    destruct (write_sector (device v) _ data) as [d' res]. destruct Hr as (Hok' & _ & _ & Hsame & _), Hl as (_ & Hc' & _).
    split; [done|done|cbn; by rewrite Hc'|]. intros k Hk Hx. rewrite Hsame; [by apply Hout|by rewrite Hc|by rewrite Hp].
  - pose proof Hok as [Hd Hw]. pose proof (law_flush _ Hd) as Hl. simpl. destruct (flush (device v)) as [d' res].
    destruct Hl as (Hd' & Hc' & _ & Hsame). split; cbn; [|done|by rewrite Hc'|].
    + unfold partition_ok. cbn. by rewrite Hc'.
    + intros k Hk Hx. rewrite Hsame by (by rewrite Hc). by apply Hout.
Qed.

(** The partition the MBR scan finds is inside the device and opens, and the file
    system that gets the view is confined to it: after any sequence of reads, writes and
    flushes through the view, whatever sector numbers it uses and whichever operations
    fail, every sector of the device outside the partition, the partition table included,
    holds what it held before the scan. *)
Theorem partition_isolates d d' p (accesses : list access) :
  ok d → (∀ l, 0 ≤ l < sector_count d → Forall (λ b, 0 ≤ b < 256) (disk d l)) →
  find_fat32 d = (d', Ok (Some p)) → Forall (λ a, 0 ≤ access_lba a) accesses →
  ∃ v, partition_new d' p = Ok v ∧ within p (sector_count d) ∧
    ∀ k, 0 ≤ k < sector_count d → ¬ (start_lba p ≤ k < start_lba p + psectors p) →
      disk (device (foldl perform v accesses)) k = disk d k.
Proof.
  intros Hok Hbytes Hfind Hacc. destruct (find_fat32_within d d' p Hok Hbytes Hfind) as (Hok' & Hw & Hopen).
  assert (Hscan : sector_count d' = sector_count d ∧ ∀ k, 0 ≤ k < sector_count d → disk d' k = disk d k).
  { revert Hfind. unfold find_fat32. pose proof (law_read d 0 (replicate SECTOR_SIZE 0) Hok ltac:(lia)) as Hr.
    destruct (read_sector d 0 _) as [[d1 out] res]. destruct Hr as (_ & Hc & _ & Hsame & _).
    destruct res; [|done]. destruct (negb _ || negb _); [done|]. intros [= <- _]. done. }
  destruct Hscan as [Hc Hsame]. destruct (partition_new d' p) as [v|] eqn:Hv; [|done].
  pose proof Hw as (H1 & H2 & H3). rewrite Hc in *.
  destruct (partition_new_ok d' p v Hok' ltac:(lia) ltac:(lia) Hv) as (Hpo & Hdev & Hpart).
  exists v. split_and!; [done|done|]. assert (Hconf : confined d p v).
  { split; [done..|by rewrite Hdev|]. intros k Hk _. rewrite Hdev. by apply Hsame. }
  assert (Hend : confined d p (foldl perform v accesses)); [|apply Hend].
  clear Hopen Hv Hpo Hdev Hpart. revert v Hconf. induction Hacc as [|a l Ha _ IH]; intros v Hconf; [done|].
  cbn [foldl]. by apply IH, perform_confined.
Qed.

End partition_proofs.

Lemma block_self_tests_pass : self_test = true ∧ partition_self_test = true.
Proof. split; vm_compute; reflexivity. Qed.

(** A disk with one FAT32 partition at sector 2, four sectors long. *)
Definition sample_mbr : list Z :=
  default [] (copy_at 446 ([0x80; 0; 0; 0; 0x0c; 0; 0; 0] ++ to_le_bytes 4 2 ++ to_le_bytes 4 4)
    (default [] (copy_at 510 [0x55; 0xaa] (replicate SECTOR_SIZE 0)))).
Definition sample_disk : RamDisk := (write_sector (new 8) 0 sample_mbr).1.

Lemma partition_isolates_witness :
  ∃ v, partition_new sample_disk (mkPartition 2 4 0x0c) = Ok v ∧
    ram_disk (device (foldl perform v [AWrite 3 (replicate SECTOR_SIZE 7); AWrite 4 (replicate SECTOR_SIZE 7); AFlush])) 0
    = sample_mbr.
Proof.
  destruct (partition_isolates ram_ok ram_disk sample_disk sample_disk (mkPartition 2 4 0x0c)
    [AWrite 3 (replicate SECTOR_SIZE 7); AWrite 4 (replicate SECTOR_SIZE 7); AFlush]) as (v & Hv & _ & Hk).
  - split; [vm_compute; congruence|]. apply Forall_forall. intros s Hs.
    assert (Hlen : forallb (λ s, (length s =? SECTOR_SIZE)%nat) (sectors sample_disk) = true) by (vm_compute; reflexivity).
    rewrite forallb_forall in Hlen. apply Nat.eqb_eq, Hlen. by apply list_elem_of_In.
  - intros l Hl. apply (bool_decide_unpack _).
    assert (Hall : forallb (λ s, bool_decide (Forall (λ b, 0 ≤ b < 256) s)) (sectors sample_disk) = true) by (vm_compute; reflexivity).
    rewrite forallb_forall in Hall. unfold ram_disk. destruct (sectors sample_disk !! Z.to_nat l) as [s|] eqn:E; [|vm_compute; exact I].
    simpl. rewrite (Hall s) by (apply list_elem_of_In; by eapply list_elem_of_lookup_2). exact I.
  - vm_compute. reflexivity.
  - repeat constructor; vm_compute; congruence.
  - exists v. split; [exact Hv|]. rewrite Hk; [vm_compute; reflexivity|vm_compute; split; congruence|cbn; lia].
Defined.

End Block.
