(* ===== verification/BlockCache.v ===== *)
(** * The write-back sector cache (kernel/src/block_cache.rs)

    A bounded cache of sectors in front of any block device. The cache is itself a
    block device; [cache_transparent] shows that it keeps every law of the device
    below for the logical content - the cached sector where there is one, the device's
    otherwise - and [flush_durable] that flushing makes the two agree. *)
From S2P Require Import Prelude Block.

Module Cache.
Import Block.

Record CacheEntry := mkEntry {
  lba : Z;
  data : list Z;
  valid : bool;
  dirty : bool;
  age : Z
}.

Definition entry_empty : CacheEntry := mkEntry 0 (replicate SECTOR_SIZE 0) false false 0.

Definition set_data (x : list Z) (e : CacheEntry) : CacheEntry := mkEntry (lba e) x (valid e) (dirty e) (age e).
Definition set_dirty (b : bool) (e : CacheEntry) : CacheEntry := mkEntry (lba e) (data e) (valid e) b (age e).
Definition set_age (a : Z) (e : CacheEntry) : CacheEntry := mkEntry (lba e) (data e) (valid e) (dirty e) a.

(** [enumerate().max_by_key(key)]: the last index with the greatest key. *)
Definition max_index {A} (key : A → Z) (l : list A) : option nat :=
  fst <$> foldl (λ best '(i, x),
    match best with
    | None => Some (i, key x)
    | Some (_, b) => if b <=? key x then Some (i, key x) else best
    end) None (imap pair l).

Section device.
Context {D : Type} `{BlockDevice D}.

(** [CachedDevice<D, N>]: [N] is the length of [entries]. *)
Record CachedDevice := mkCached {
  inner : D;
  entries : list CacheEntry;
  writebacks : Z;
  evictions : Z;
  hits : Z;
  misses : Z
}.

Definition cache_new (n : nat) (d : D) : CachedDevice := mkCached d (replicate n entry_empty) 0 0 0 0.

Definition set_inner (d : D) (c : CachedDevice) : CachedDevice :=
  mkCached d (entries c) (writebacks c) (evictions c) (hits c) (misses c).
Definition set_entries (es : list CacheEntry) (c : CachedDevice) : CachedDevice :=
  mkCached (inner c) es (writebacks c) (evictions c) (hits c) (misses c).
Definition count_writeback (c : CachedDevice) : CachedDevice :=
  mkCached (inner c) (entries c) (saturating_add64 (writebacks c) 1) (evictions c) (hits c) (misses c).
Definition count_eviction (c : CachedDevice) : CachedDevice :=
  mkCached (inner c) (entries c) (writebacks c) (saturating_add64 (evictions c) 1) (hits c) (misses c).
Definition count_hit (c : CachedDevice) : CachedDevice :=
  mkCached (inner c) (entries c) (writebacks c) (evictions c) (saturating_add64 (hits c) 1) (misses c).
Definition count_miss (c : CachedDevice) : CachedDevice :=
  mkCached (inner c) (entries c) (writebacks c) (evictions c) (hits c) (saturating_add64 (misses c) 1).

Definition older (e : CacheEntry) : CacheEntry :=
  if valid e then set_age (saturating_add64 (age e) 1) e else e.

Definition touch (i : nat) (c : CachedDevice) : CachedDevice :=
  set_entries (alter (set_age 0) i (older <$> entries c)) c.

Definition find (l : Z) (c : CachedDevice) : option nat :=
  position (λ e, valid e && (lba e =? l)) (entries c).

Definition victim (c : CachedDevice) : nat :=
  match position (λ e, negb (valid e)) (entries c) with
  | Some i => i
  | None => default 0%nat (max_index age (entries c))
  end.

Definition write_back (i : nat) (c : CachedDevice) : CachedDevice * result () Error :=
  match entries c !! i with
  | None => (c, Ok ())
  | Some e =>
      if valid e && dirty e then
        match write_sector (inner c) (lba e) (data e) with
        | (d, Err err) => (set_inner d c, Err err)
        | (d, Ok _) =>
            (count_writeback (set_entries (alter (set_dirty false) i (entries c)) (set_inner d c)), Ok ())
        end
      else (c, Ok ())
  end.

(** Count the eviction if slot [i] was in use, and overwrite it. *)
Definition replace (i : nat) (e : CacheEntry) (c : CachedDevice) : CachedDevice :=
  let c := match entries c !! i with
           | Some old => if valid old then count_eviction c else c
           | None => c
           end in
  set_entries (<[i := e]> (entries c)) c.

Definition load (l : Z) (c : CachedDevice) : CachedDevice * result nat Error :=
  match find l c with
  | Some i => (touch i (count_hit c), Ok i)
  | None =>
      let c := count_miss c in
      let i := victim c in
      match write_back i c with
      | (c, Err e) => (c, Err e)
      | (c, Ok _) =>
          let '(d, buf, res) := read_sector (inner c) l (replicate SECTOR_SIZE 0) in
          let c := set_inner d c in
          match res with
          | Err e => (c, Err e)
          | Ok _ => (touch i (replace i (mkEntry l buf true false 0) c), Ok i)
          end
      end
  end.

Fixpoint write_back_all (ids : list nat) (c : CachedDevice) : CachedDevice * result () Error :=
  match ids with
  | [] => (c, Ok ())
  | i :: ids =>
      match write_back i c with
      | (c, Err e) => (c, Err e)
      | (c, Ok _) => write_back_all ids c
      end
  end.

Definition cache_flush (c : CachedDevice) : CachedDevice * result () Error :=
  match write_back_all (seq 0 (length (entries c))) c with
  | (c, Err e) => (c, Err e)
  | (c, Ok _) => let '(d, res) := flush (inner c) in (set_inner d c, res)
  end.

Definition cache_read_sector (c : CachedDevice) (l : Z) (sector : list Z)
    : CachedDevice * list Z * result () Error :=
  if negb (length sector =? SECTOR_SIZE)%nat then (c, sector, Err InvalidBuffer)
  else if sector_count (inner c) <=? l then (c, sector, Err OutOfBounds)
  else if (length (entries c) =? 0)%nat then
    let '(d, out, res) := read_sector (inner c) l sector in (set_inner d c, out, res)
  else match load l c with
       | (c, Err e) => (c, sector, Err e)
       | (c, Ok i) => (c, default sector (data <$> entries c !! i), Ok ())
       end.

Definition store (i : nat) (sector : list Z) (c : CachedDevice) : CachedDevice * result () Error :=
  (touch i (set_entries (alter (λ e, set_dirty true (set_data sector e)) i (entries c)) c), Ok ()).

Definition cache_write_sector (c : CachedDevice) (l : Z) (sector : list Z) : CachedDevice * result () Error :=
  if negb (length sector =? SECTOR_SIZE)%nat then (c, Err InvalidBuffer)
  else if sector_count (inner c) <=? l then (c, Err OutOfBounds)
  else if is_read_only (inner c) then (c, Err ReadOnly)
  else if (length (entries c) =? 0)%nat then
    let '(d, res) := write_sector (inner c) l sector in (set_inner d c, res)
  else match find l c with
       | Some i => store i sector (count_hit c)
       | None =>
           let c := count_miss c in
           let i := victim c in
           match write_back i c with
           | (c, Err e) => (c, Err e)
           | (c, Ok _) => store i sector (replace i (mkEntry l (replicate SECTOR_SIZE 0) true false 0) c)
           end
       end.

#[export] Instance cached_device : BlockDevice CachedDevice := {|
  sector_count c := sector_count (inner c);
  is_read_only c := is_read_only (inner c);
  flush := cache_flush;
  read_sector := cache_read_sector;
  write_sector := cache_write_sector
|}.

Record Stats := mkStats {
  stat_hits : Z; stat_misses : Z; stat_writebacks : Z; stat_evictions : Z;
  capacity : nat; resident : nat; dirty_count : nat
}.

Definition stats (c : CachedDevice) : Stats :=
  mkStats (hits c) (misses c) (writebacks c) (evictions c) (length (entries c))
    (count_if valid (entries c)) (count_if (λ e, valid e && dirty e) (entries c)).

End device.
Arguments CachedDevice D : clear implicits.

End Cache.

(** ** Transparency *)
Module CacheProofs.
Import Block Cache.

Lemma max_index_spec {A} (key : A → Z) (l : list A) :
  match max_index key l with
  | Some i => ∃ x, l !! i = Some x ∧ ∀ (j : nat) y, l !! j = Some y → key y ≤ key x
  | None => l = []
  end.
Proof.
  unfold max_index.
  assert (Hgen : match foldl (λ best '(i, x),
      match best with
      | None => Some (i, key x)
      | Some (_, b) => if b <=? key x then Some (i, key x) else best
      end) None (imap pair l) with
    | Some (i, b) => ∃ x, l !! i = Some x ∧ b = key x ∧ ∀ (j : nat) y, l !! j = Some y → key y ≤ key x
    | None => l = []
    end); [|by destruct (foldl _ _ _) as [[i b]|]; simpl; [destruct Hgen as (x & ? & _ & ?); eauto|]].
  induction l as [|x l IH] using rev_ind; [done|]. rewrite imap_app, foldl_app. simpl.
  destruct (foldl _ None (imap pair l)) as [[i b]|].
  - destruct IH as (y & Hy & -> & Hmax). rewrite Nat.add_0_r. destruct (Z.leb_spec (key y) (key x)).
    + exists x. rewrite lookup_app_r, Nat.sub_diag by done. split_and!; try done.
      intros j z [Hz|[Hge Hz]]%lookup_app_Some; [specialize (Hmax _ _ Hz); lia|].
      destruct (j - length l)%nat; simplify_eq/=. lia.
    + exists y. split_and!; [by apply lookup_app_l_Some|done|].
      intros j z [Hz|[Hge Hz]]%lookup_app_Some; [by eapply Hmax|].
      destruct (j - length l)%nat; simplify_eq/=. lia.
  - subst. simpl. exists x. split_and!; try done. intros [|j] z Hz; simplify_eq/=. done.
Qed.

Section proofs.
Context {D : Type} `{BlockDevice D} (ok : D → Prop) (disk : D → Z → list Z) `{!Lawful ok disk}.
Implicit Types (c : CachedDevice D) (e : CacheEntry).

Record inv c : Prop := {
  i_inner : ok (inner c);
  i_entry : ∀ (i : nat) e, entries c !! i = Some e → valid e = true →
    0 ≤ lba e < sector_count (inner c) ∧ length (data e) = SECTOR_SIZE ∧
    (dirty e = false → data e = disk (inner c) (lba e));
  i_unique : ∀ (i j : nat) e e', entries c !! i = Some e → entries c !! j = Some e' →
    valid e = true → valid e' = true → lba e = lba e' → i = j
}.

(** The logical content of the disk. *)
Definition view c (l : Z) : list Z :=
  match find l c ≫= λ i, entries c !! i with
  | Some e => data e
  | None => disk (inner c) l
  end.

Lemma find_hit c i e :
  inv c → entries c !! i = Some e → valid e = true → find (lba e) c = Some i.
Proof.
  intros Hi He Hv. unfold find. apply position_Some. exists e. rewrite Hv, Z.eqb_refl. split_and!; try done.
  intros j y Hy Hlt. destruct (valid y) eqn:Hvy; [|done]. simpl. apply Z.eqb_neq. intros Heq.
  pose proof (i_unique _ Hi _ _ _ _ Hy He Hvy Hv Heq). lia.
Qed.

Lemma find_Some c l i :
  find l c = Some i → ∃ e, entries c !! i = Some e ∧ valid e = true ∧ lba e = l.
Proof.
  intros (e & He & [Hv Hl]%andb_true_iff)%position_lookup. exists e. by apply Z.eqb_eq in Hl.
Qed.

Lemma find_None c l (i : nat) e : find l c = None → entries c !! i = Some e → valid e = true → lba e ≠ l.
Proof.
  intros Hf He Hv <-. unfold find in Hf. rewrite position_None in Hf. pose proof (Hf i e He) as Hx.
  by rewrite Hv, Z.eqb_refl in Hx.
Qed.

Lemma view_hit c i e : inv c → entries c !! i = Some e → valid e = true → view c (lba e) = data e.
Proof. intros Hi He Hv. unfold view. rewrite (find_hit c i e) by done. simpl. by rewrite He. Qed.

Lemma view_miss c l : find l c = None → view c l = disk (inner c) l.
Proof. intros Hf. unfold view. by rewrite Hf. Qed.

(** Entries that differ only in bookkeeping. *)
Definition same_entry e e' : Prop := valid e' = valid e ∧ lba e' = lba e ∧ data e' = data e.

Lemma find_same c c' l : Forall2 same_entry (entries c) (entries c') → find l c' = find l c.
Proof.
  unfold find. intros Hf. destruct (position _ (entries c)) as [i|] eqn:E.
  - apply position_Some in E as (e & He & Hp & Hmin). apply position_Some.
    destruct (Forall2_lookup_l _ _ _ _ _ Hf He) as (e' & He' & Hv & Hl & _).
    exists e'. rewrite Hv, Hl. split_and!; [done..|]. intros j y' Hy' Hj.
    destruct (Forall2_lookup_r _ _ _ _ _ Hf Hy') as (y & Hy & Hvy & Hly & _).
    rewrite Hvy, Hly. by eapply Hmin.
  - rewrite position_None in E. apply position_None. intros j y' Hy'.
    destruct (Forall2_lookup_r _ _ _ _ _ Hf Hy') as (y & Hy & Hvy & Hly & _).
    rewrite Hvy, Hly. by eapply E.
Qed.

Lemma view_same c c' l :
  Forall2 same_entry (entries c) (entries c') →
  (find l c = None → disk (inner c') l = disk (inner c) l) → view c' l = view c l.
Proof.
  intros Hf Hd. unfold view. rewrite (find_same c c' l Hf). destruct (find l c) as [i|] eqn:E; simpl; [|by apply Hd].
  destruct (find_Some _ _ _ E) as (e & He & _).
  destruct (Forall2_lookup_l _ _ _ _ _ Hf He) as (e' & He' & _ & _ & Hdata). by rewrite He, He'.
Qed.

(** Changing bookkeeping over a device that kept every clean sector. *)
Lemma inv_same c c' :
  inv c → ok (inner c') → sector_count (inner c') = sector_count (inner c) →
  Forall2 same_entry (entries c) (entries c') →
  (∀ (i : nat) e e', entries c !! i = Some e → entries c' !! i = Some e' → valid e = true → dirty e' = false →
    data e = disk (inner c') (lba e)) →
  inv c'.
Proof.
  intros Hi Hok Hc Hf Hclean. split; [done| |].
  - intros i e' He' Hv'. destruct (Forall2_lookup_r _ _ _ _ _ Hf He') as (e & He & Hv & Hl & Hd).
    rewrite Hv in Hv'. destruct (i_entry _ Hi i e He Hv') as (H1 & H2 & H3).
    rewrite Hc, Hl, Hd. split_and!; [lia|lia|done|]. intros Hdirty. by eapply Hclean.
  - intros i j e' f' He' Hf' Hve Hvf Heq.
    destruct (Forall2_lookup_r _ _ _ _ _ Hf He') as (e & He & Hv & Hl & _).
    destruct (Forall2_lookup_r _ _ _ _ _ Hf Hf') as (f & Hff & Hv2 & Hl2 & _).
    eapply (i_unique _ Hi i j e f); congruence.
Qed.

Lemma same_touch i (es : list CacheEntry) : Forall2 same_entry es (alter (set_age 0) i (older <$> es)).
Proof.
  apply Forall2_same_length_lookup_2; [by rewrite length_alter, length_fmap|].
  intros j e e' He He'. destruct (decide (i = j)) as [<-|Hne].
  - rewrite list_lookup_alter_eq, list_lookup_fmap, He in He'. simplify_eq/=.
    unfold older. by destruct (valid e) eqn:E.
  - rewrite list_lookup_alter_ne, list_lookup_fmap, He in He' by done. simplify_eq/=.
    unfold older. by destruct (valid e) eqn:E.
Qed.

Lemma dirty_touch i (es : list CacheEntry) (j : nat) e e' :
  es !! j = Some e → alter (set_age 0) i (older <$> es) !! j = Some e' → dirty e' = dirty e.
Proof.
  intros He. destruct (decide (i = j)) as [<-|Hne].
  - rewrite list_lookup_alter_eq, list_lookup_fmap, He. intros [= <-]. unfold older. by destruct (valid e).
  - rewrite list_lookup_alter_ne, list_lookup_fmap, He by done. intros [= <-]. unfold older. by destruct (valid e).
Qed.

Lemma touch_spec i c : inv c → inv (touch i c) ∧ inner (touch i c) = inner c ∧ ∀ l, view (touch i c) l = view c l.
Proof.
  intros Hi. split_and!; [|done|].
  - apply (inv_same c); try done; [apply Hi|apply same_touch|].
    intros j e e' He He' Hv Hd. rewrite (dirty_touch _ _ _ _ _ He He') in Hd.
    by apply (i_entry _ Hi j e He Hv).
  - intros l. apply view_same; [apply same_touch|done].
Qed.

Lemma same_refl (es : list CacheEntry) : Forall2 same_entry es es.
Proof. apply Forall2_same_length_lookup_2; [done|]. intros j e e' He He'. by simplify_eq. Qed.

(** Counters are not part of the state the laws speak of. *)
Lemma inv_counters c c' : inv c → inner c' = inner c → entries c' = entries c → inv c'.
Proof.
  intros Hi Hin He. apply (inv_same c); rewrite ?Hin, ?He; [done|apply Hi|done|apply same_refl|].
  intros i e e' Hx Hy Hv Hd. simplify_eq. by apply (i_entry _ Hi i).
Qed.

Lemma view_counters c c' l : inner c' = inner c → entries c' = entries c → view c' l = view c l.
Proof. intros Hin He. unfold view, find. by rewrite Hin, He. Qed.

(** ** Write-back *)

(** What every step that only writes back keeps. *)
Record kept c c' : Prop := {
  k_inv : inv c';
  k_count : sector_count (inner c') = sector_count (inner c);
  k_ro : is_read_only (inner c') = is_read_only (inner c);
  k_entries : Forall2 same_entry (entries c) (entries c');
  k_view : ∀ l, 0 ≤ l < sector_count (inner c) → view c' l = view c l;
  k_dirty : ∀ (i : nat) e e', entries c !! i = Some e → entries c' !! i = Some e' → dirty e = false → dirty e' = false
}.

Lemma kept_refl c : inv c → kept c c.
Proof. intros Hi. split; auto using same_refl. intros i e e' He He'. by simplify_eq. Qed.

Lemma kept_trans c c1 c2 : kept c c1 → kept c1 c2 → kept c c2.
Proof.
  intros H1 H2. split; [apply H2| | | | |].
  - rewrite (k_count _ _ H2). apply H1.
  - rewrite (k_ro _ _ H2). apply H1.
  - pose proof (k_entries _ _ H1) as F1. pose proof (k_entries _ _ H2) as F2.
    apply Forall2_same_length_lookup_2; [by rewrite (Forall2_length _ _ _ F1), (Forall2_length _ _ _ F2)|].
    intros j x z Hx Hz. destruct (Forall2_lookup_l _ _ _ _ _ F1 Hx) as (y & Hy & ? & ? & ?).
    destruct (Forall2_lookup_l _ _ _ _ _ F2 Hy) as (z' & Hz' & ? & ? & ?). simplify_eq.
    unfold same_entry. by split_and!; etransitivity.
  - intros l Hl. rewrite (k_view _ _ H2) by (by rewrite (k_count _ _ H1)). by apply H1.
  - intros i e e' He He' Hd.
    destruct (Forall2_lookup_l _ _ _ _ _ (k_entries _ _ H1) He) as (e1 & He1 & _).
    eapply (k_dirty _ _ H2 i e1 e'); [done..|]. by eapply (k_dirty _ _ H1).
Qed.

Lemma same_clean i (es : list CacheEntry) : Forall2 same_entry es (alter (set_dirty false) i es).
Proof.
  apply Forall2_same_length_lookup_2; [by rewrite length_alter|].
  intros j e e' He He'. destruct (decide (i = j)) as [<-|Hne].
  - rewrite list_lookup_alter_eq, He in He'. by simplify_eq/=.
  - rewrite list_lookup_alter_ne in He' by done. by simplify_eq.
Qed.

Lemma write_back_spec i c :
  inv c → let '(c', res) := write_back i c in kept c c' ∧
    (res = Ok () → ∀ e', entries c' !! i = Some e' → valid e' = true → dirty e' = false).
Proof.
  intros Hi. unfold write_back. destruct (entries c !! i) as [e|] eqn:He.
  2:{ split; [by apply kept_refl|]. intros _ e'. by rewrite He. }
  destruct (valid e) eqn:Hv; simpl.
  2:{ split; [by apply kept_refl|]. intros _ e' He'. congruence. }
  destruct (dirty e) eqn:Hd.
  2:{ split; [by apply kept_refl|]. intros _ e' He'. congruence. }
  destruct (i_entry _ Hi i e He Hv) as (Hr & Hlen & _).
  pose proof (law_write (inner c) (lba e) (data e) (i_inner _ Hi) ltac:(lia)) as Hw.
  destruct (write_sector (inner c) (lba e) (data e)) as [d [[]|err]];
    destruct Hw as (Hok & Hc & Hro & Hsame & Hres).
  - destruct (Hres eq_refl) as (_ & _ & Hdisk). split; [split|]; cbn [inner entries count_writeback set_entries set_inner]; try done.
    + apply (inv_same c); try done; [apply same_clean|]. cbn [inner entries count_writeback set_entries set_inner].
      intros j f f' Hf Hf' Hvf Hdf. destruct (i_entry _ Hi j f Hf Hvf) as (Hrf & _ & Hcl).
      destruct (decide (i = j)) as [<-|Hne]; [by simplify_eq|].
      rewrite list_lookup_alter_ne in Hf' by done. simplify_eq.
      rewrite Hsame; [by apply Hcl|done|]. intros Heq. by destruct Hne; eapply (i_unique _ Hi i j e f).
    + apply same_clean.
    + intros l Hl. apply view_same; [apply same_clean|]. cbn [inner count_writeback set_entries set_inner].
      intros Hmiss. apply Hsame; [done|]. intros ->. by eapply find_None.
    + intros j f f' Hf Hf' Hdf. destruct (decide (i = j)) as [<-|Hne]; [congruence|].
      rewrite list_lookup_alter_ne in Hf' by done. by simplify_eq.
    + intros _ e'. rewrite list_lookup_alter_eq, He. intros [= <-] _. done.
  - split; [split|done]; cbn [inner entries set_inner]; try done.
    + apply (inv_same c); try done; [apply same_refl|]. cbn [inner entries set_inner].
      intros j f f' Hf Hf' Hvf Hdf. simplify_eq. destruct (i_entry _ Hi j f Hf Hvf) as (Hrf & _ & Hcl).
      rewrite Hsame; [by apply Hcl|done|]. intros Heq.
      pose proof (i_unique _ Hi i j e f He Hf Hv Hvf (eq_sym Heq)) as ->. congruence.
    + apply same_refl.
    + intros l Hl. apply view_same; [apply same_refl|]. cbn [inner set_inner].
      intros Hmiss. apply Hsame; [done|]. intros ->. by eapply find_None.
    + intros j f f' Hf Hf'. by simplify_eq.
Qed.

(** ** Filling a slot *)
Lemma put_spec i e c :
  inv c → (i < length (entries c))%nat → valid e = true → 0 ≤ lba e < sector_count (inner c) →
  length (data e) = SECTOR_SIZE → (dirty e = false → data e = disk (inner c) (lba e)) →
  (∀ (j : nat) f, entries c !! j = Some f → valid f = true → lba f = lba e → j = i) →
  (∀ old, entries c !! i = Some old → valid old = true → lba old = lba e ∨ dirty old = false) →
  let c' := set_entries (<[i := e]> (entries c)) c in
  inv c' ∧ ∀ l, view c' l = if l =? lba e then data e else view c l.
Proof.
  intros Hi Hlt Hv Hr Hlen Hclean Huniq Hold c'.
  assert (Hat : ∀ (j : nat) f, entries c' !! j = Some f →
    j = i ∧ f = e ∨ j ≠ i ∧ entries c !! j = Some f).
  { intros j f. unfold c'. simpl. destruct (decide (i = j)) as [<-|Hne].
    - rewrite list_lookup_insert_eq by done. intros [= <-]. by left.
    - rewrite list_lookup_insert_ne by done. by right. }
  assert (Hinv : inv c').
  { split; [apply Hi| |].
    - intros j f [[-> ->]|[_ Hf]]%Hat Hvf; [exact (conj Hr (conj Hlen Hclean))|]. by apply (i_entry _ Hi j f Hf Hvf).
    - intros j k f g [[-> ->]|[Hj Hf]]%Hat [[-> ->]|[Hk Hg]]%Hat Hvf Hvg Heq; [done| | |].
      + symmetry. by apply (Huniq k g).
      + by apply (Huniq j f).
      + by apply (i_unique _ Hi j k f g). }
  split; [done|]. intros l. destruct (Z.eqb_spec l (lba e)) as [->|Hne].
  - apply (view_hit _ i); [done| |done]. unfold c'. simpl. by rewrite list_lookup_insert_eq.
  - destruct (find l c) as [j|] eqn:Hf.
    + destruct (find_Some _ _ _ Hf) as (f & Hfj & Hvf & <-). rewrite (view_hit c j f Hi Hfj Hvf).
      destruct (decide (i = j)) as [<-|Hij].
      * (* the clean entry that was replaced *)
        destruct (Hold f Hfj Hvf) as [?|Hcl]; [done|].
        rewrite view_miss; [symmetry; by apply (i_entry _ Hi i f Hfj Hvf)|].
        destruct (find (lba f) c') as [k|] eqn:Hk; [|done]. exfalso.
        destruct (find_Some _ _ _ Hk) as (g & Hg & Hvg & Hlg). apply Hat in Hg as [[-> ->]|[Hki Hg]]; [done|].
        by pose proof (i_unique _ Hi k i g f Hg Hfj Hvg Hvf Hlg).
      * apply (view_hit c' j); [done| |done]. unfold c'. simpl. by rewrite list_lookup_insert_ne.
    + rewrite (view_miss c) by done. apply (view_miss c'). destruct (find l c') as [k|] eqn:Hk; [|done]. exfalso.
      destruct (find_Some _ _ _ Hk) as (g & Hg & Hvg & Hlg). apply Hat in Hg as [[-> ->]|[Hki Hg]]; [done|].
      by eapply find_None.
Qed.

Lemma victim_lt c : (0 < length (entries c))%nat → (victim c < length (entries c))%nat.
Proof.
  intros Hn. unfold victim. destruct (position _ _) as [i|] eqn:E; [by eapply position_lt|].
  pose proof (max_index_spec age (entries c)) as Hm. destruct (max_index age (entries c)) as [i|].
  - destruct Hm as (x & Hx & _). simpl. by eapply lookup_lt_Some.
  - rewrite Hm in Hn. simpl in Hn. lia.
Qed.

Lemma replace_same i e c : inner (replace i e c) = inner c ∧ entries (replace i e c) = <[i := e]> (entries c).
Proof. unfold replace. destruct (entries c !! i) as [old|]; [by destruct (valid old)|done]. Qed.

(** Filling slot [i], whatever the counters, then touching it. *)
Lemma fill_spec i e c c1 :
  inv c → (i < length (entries c))%nat → valid e = true → 0 ≤ lba e < sector_count (inner c) →
  length (data e) = SECTOR_SIZE → (dirty e = false → data e = disk (inner c) (lba e)) →
  (∀ (j : nat) f, entries c !! j = Some f → valid f = true → lba f = lba e → j = i) →
  (∀ old, entries c !! i = Some old → valid old = true → lba old = lba e ∨ dirty old = false) →
  inner c1 = inner c → entries c1 = <[i := e]> (entries c) →
  inv (touch i c1) ∧ inner (touch i c1) = inner c ∧
  (∀ l, view (touch i c1) l = if l =? lba e then data e else view c l) ∧
  data <$> entries (touch i c1) !! i = Some (data e).
Proof.
  intros Hi Hlt Hv Hr Hlen Hclean Huniq Hold Hin Hen.
  destruct (put_spec i e c Hi Hlt Hv Hr Hlen Hclean Huniq Hold) as [Hi1 Hview].
  set (c0 := set_entries (<[i := e]> (entries c)) c) in *.
  assert (Hic : inv c1) by (by apply (inv_counters c0)).
  destruct (touch_spec i c1 Hic) as (Hi' & Hin' & Hv'). split_and!; [done|congruence| |].
  - intros l. rewrite Hv', <-Hview. by apply view_counters.
  - simpl. rewrite list_lookup_alter_eq, list_lookup_fmap, Hen, list_lookup_insert_eq by done. simpl.
    unfold older. by rewrite Hv.
Qed.

Lemma victim_counters c c' : entries c' = entries c → victim c' = victim c.
Proof. unfold victim. by intros ->. Qed.

(** The state after the victim was written back: the slot is clean and still misses. *)
Lemma evict_spec l c :
  inv c → (0 < length (entries c))%nat → find l c = None →
  let i := victim (count_miss c) in
  (i < length (entries c))%nat ∧
  let '(c1, res) := write_back i (count_miss c) in
  kept c c1 ∧ length (entries c1) = length (entries c) ∧
  (res = Ok () → (∀ (j : nat) f, entries c1 !! j = Some f → valid f = true → lba f ≠ l) ∧
    ∀ old, entries c1 !! i = Some old → valid old = true → dirty old = false).
Proof.
  intros Hi Hn Hmiss i. assert (Hic : inv (count_miss c)) by (by apply (inv_counters c)).
  split; [unfold i; rewrite (victim_counters c) by done; by apply victim_lt|].
  pose proof (write_back_spec i (count_miss c) Hic) as Hw.
  destruct (write_back i (count_miss c)) as [c1 res]. destruct Hw as [Hk Hres].
  assert (Hk' : kept c c1).
  { eapply kept_trans; [|exact Hk]. split; try done.
    - apply same_refl.
    - intros j e e' He He'. simpl in He'. by simplify_eq. }
  split_and!; [done|by rewrite <-(Forall2_length _ _ _ (k_entries _ _ Hk'))|].
  intros Hok. split; [|by apply Hres]. intros j f Hf Hvf.
  destruct (Forall2_lookup_r _ _ _ _ _ (k_entries _ _ Hk') Hf) as (f0 & Hf0 & Hv & Hl & _).
  rewrite Hl. eapply find_None; [done..|congruence].
Qed.

Lemma load_spec l c :
  inv c → (0 < length (entries c))%nat → 0 ≤ l < sector_count (inner c) →
  let '(c', res) := load l c in
  inv c' ∧ sector_count (inner c') = sector_count (inner c) ∧ is_read_only (inner c') = is_read_only (inner c) ∧
  (∀ k, 0 ≤ k < sector_count (inner c) → view c' k = view c k) ∧
  ∀ i, res = Ok i → data <$> entries c' !! i = Some (view c l).
Proof.
  intros Hi Hn Hl. unfold load. destruct (find l c) as [i|] eqn:Hf.
  - destruct (find_Some _ _ _ Hf) as (e & He & Hv & <-).
    assert (Hic : inv (count_hit c)) by (by apply (inv_counters c)).
    destruct (touch_spec i _ Hic) as (Hi' & Hin' & Hv'). rewrite Hin'.
    split_and!; [done..| |].
    + intros k _. rewrite Hv'. by apply view_counters.
    + intros j [= <-]. rewrite (view_hit c i e Hi He Hv). simpl.
      rewrite list_lookup_alter_eq, list_lookup_fmap, He. simpl. unfold older. by rewrite Hv.
  - pose proof (evict_spec l c Hi Hn Hf) as [Hlt Hev].
    set (i := victim (count_miss c)) in *. destruct (write_back i (count_miss c)) as [c1 [[]|err]].
    2:{ destruct Hev as (Hk & _ & _). split_and!; try apply Hk. done. }
    destruct Hev as (Hk & Hlen & Hclean). destruct (Hclean eq_refl) as [Hmiss Hslot]. clear Hclean.
    pose proof (law_read (inner c1) l (replicate SECTOR_SIZE 0) (i_inner _ (k_inv _ _ Hk)) ltac:(lia)) as Hr.
    destruct (read_sector (inner c1) l _) as [[d buf] res]. destruct Hr as (Hok & Hc & Hro & Hsame & Hbl & Hres).
    assert (Hk2 : kept c (set_inner d c1)).
    { eapply kept_trans; [exact Hk|]. pose proof (k_inv _ _ Hk) as Hi1. split; try done.
      - apply (inv_same c1); try done; [apply same_refl|]. intros j f f' Hfj Hfj' Hvf Hdf.
        simpl in *. simplify_eq. destruct (i_entry _ Hi1 j f Hfj Hvf) as (? & _ & Hcl).
        rewrite Hsame by done. by apply Hcl.
      - apply same_refl.
      - intros k Hkr. apply view_same; [apply same_refl|]. intros _. by apply Hsame.
      - intros j f f' Hfj Hfj'. simpl in *. by simplify_eq. }
    pose proof (k_count _ _ Hk2) as Hcnt.
    destruct res as [[]|err]; [|split_and!; try apply Hk2; done].
    destruct (Hres eq_refl) as (_ & Hlc & ->).
    destruct (replace_same i (mkEntry l (disk (inner c1) l) true false 0) (set_inner d c1)) as [Hri Hre].
    destruct (fill_spec i (mkEntry l (disk (inner c1) l) true false 0) (set_inner d c1)
      (replace i (mkEntry l (disk (inner c1) l) true false 0) (set_inner d c1)))
      as (Hi' & Hin' & Hv' & Hd'); try done;
      try (by simpl; rewrite ?Hlen, ?Hc, ?(k_count _ _ Hk)).
    + apply Hk2.
    + intros _. simpl. symmetry. apply Hsame; lia.
    + intros j f Hfj Hvf Heq. by destruct (Hmiss j f Hfj Hvf).
    + intros old Ho Hvo. right. by apply Hslot.
    + assert (Hvl : view c l = disk (inner c1) l).
      { rewrite <-(k_view _ _ Hk) by done. apply view_miss. destruct (find l c1) as [j|] eqn:Hj; [|done].
        destruct (find_Some _ _ _ Hj) as (f & Hfj & Hvf & Hlf). by destruct (Hmiss j f Hfj Hvf). }
      rewrite Hin'. split_and!; [done|by apply Hk2..| |].
      * intros k Hkr. rewrite Hv'. simpl. destruct (Z.eqb_spec k l) as [->|]; [done|]. by apply Hk2.
      * intros j [= <-]. by rewrite Hd', Hvl.
Qed.

Lemma alter_insert_same {A} (f : A → A) i x (l : list A) : alter f i (<[i := x]> l) = <[i := f x]> l.
Proof.
  apply list_eq. intros j. destruct (decide (i = j)) as [<-|Hne].
  - rewrite list_lookup_alter_eq. destruct (decide (i < length l)%nat).
    + by rewrite !list_lookup_insert_eq.
    + by rewrite !list_insert_ge, lookup_ge_None_2 by lia.
  - by rewrite list_lookup_alter_ne, !list_lookup_insert_ne.
Qed.

Lemma inv_nil c : entries c = [] → ok (inner c) → inv c.
Proof. intros Hn Hok. split; [done|..]; by rewrite Hn. Qed.

Lemma view_nil c l : entries c = [] → view c l = disk (inner c) l.
Proof. intros Hn. unfold view, find. by rewrite Hn. Qed.

Lemma view_length c l : inv c → 0 ≤ l < sector_count (inner c) → length (view c l) = SECTOR_SIZE.
Proof.
  intros Hi Hl. destruct (find l c) as [i|] eqn:Hf.
  - destruct (find_Some _ _ _ Hf) as (e & He & Hv & <-). rewrite (view_hit c i e) by done.
    by apply (i_entry _ Hi i).
  - rewrite view_miss by done. apply law_length; [apply Hi|done].
Qed.

(** Storing a sector: the slot holds it dirty, whatever was there. *)
Lemma store_spec i e0 sector c c1 :
  inv c → (i < length (entries c))%nat → valid e0 = true → 0 ≤ lba e0 < sector_count (inner c) →
  length sector = SECTOR_SIZE →
  (∀ (j : nat) f, entries c !! j = Some f → valid f = true → lba f = lba e0 → j = i) →
  (∀ old, entries c !! i = Some old → valid old = true → lba old = lba e0 ∨ dirty old = false) →
  inner c1 = inner c → entries c1 = <[i := e0]> (entries c) →
  let '(c', res) := store i sector c1 in
  res = Ok () ∧ inv c' ∧ inner c' = inner c ∧
  ∀ l, view c' l = if l =? lba e0 then sector else view c l.
Proof.
  intros Hi Hlt Hv Hr Hlen Huniq Hold Hin Hen. unfold store. split; [done|].
  destruct (fill_spec i (set_dirty true (set_data sector e0)) c
    (set_entries (alter (λ e, set_dirty true (set_data sector e)) i (entries c1)) c1))
    as (Hi' & Hin' & Hv' & _); try done.
  cbn [entries set_entries]. by rewrite Hen, alter_insert_same.
Qed.

Lemma cache_write_spec c l sector :
  inv c → 0 ≤ l →
  let '(c', res) := cache_write_sector c l sector in
  inv c' ∧ sector_count (inner c') = sector_count (inner c) ∧ is_read_only (inner c') = is_read_only (inner c) ∧
  (∀ k, 0 ≤ k < sector_count (inner c) → k ≠ l → view c' k = view c k) ∧
  (res = Ok () → length sector = SECTOR_SIZE ∧ l < sector_count (inner c) ∧ view c' l = sector) ∧
  ((0 < length (entries c))%nat → res ≠ Ok () → view c' l = view c l).
Proof.
  intros Hi Hl. unfold cache_write_sector.
  destruct (Nat.eqb_spec (length sector) SECTOR_SIZE) as [Hs|]; cbn [negb]; [|done].
  destruct (Z.leb_spec (sector_count (inner c)) l) as [|Hlt]; [done|].
  destruct (is_read_only (inner c)) eqn:Hro0; [done|].
  destruct (Nat.eqb_spec (length (entries c)) 0) as [Hz|Hnz].
  - assert (Hnil : entries c = []) by (by apply nil_length_inv).
    pose proof (law_write (inner c) l sector (i_inner _ Hi) ltac:(lia)) as Hw.
    destruct (write_sector (inner c) l sector) as [d res]. destruct Hw as (Hok & Hc & Hro & Hsame & Hres). rewrite Hro0 in Hro.
    assert (Hvw : ∀ k, view (set_inner d c) k = disk d k ∧ view c k = disk (inner c) k)
      by (intros k; split; by apply view_nil).
    split_and!; try done.
    + by apply inv_nil.
    + intros k Hk Hne. destruct (Hvw k) as [-> ->]. by apply Hsame.
    + intros Hx. destruct (Hres Hx) as (? & ? & ?). by rewrite (proj1 (Hvw l)).
    + lia.
  - destruct (find l c) as [i|] eqn:Hf.
    + destruct (find_Some _ _ _ Hf) as (e & He & Hv & <-).
      pose proof (store_spec i e sector c (count_hit c) Hi) as Hst.
      destruct (store i sector (count_hit c)) as [c' res]. destruct Hst as (-> & Hi' & Hin' & Hv'); try done.
      * by eapply lookup_lt_Some.
      * intros j f Hj Hvf Heq. by apply (i_unique _ Hi j i f e).
      * intros old Ho _. simplify_eq. by left.
      * simpl. by rewrite list_insert_id.
      * rewrite Hin'. split_and!; try done.
        -- intros k _ Hne. rewrite Hv'. by rewrite (proj2 (Z.eqb_neq _ _)).
        -- intros _. rewrite Hv', Z.eqb_refl. done.
    + pose proof (evict_spec l c Hi ltac:(lia) Hf) as [Hvl Hev].
      set (i := victim (count_miss c)) in *. destruct (write_back i (count_miss c)) as [c1 [[]|err]].
      2:{ destruct Hev as (Hk & _ & _). pose proof (k_ro _ _ Hk) as Hro. rewrite Hro0 in Hro.
          split_and!; try apply Hk; try done.
          - intros k Hkr _. by apply Hk.
          - intros _ _. apply Hk. lia. }
      destruct Hev as (Hk & Hlen & Hclean). destruct (Hclean eq_refl) as [Hmiss Hslot]. clear Hclean.
      set (e0 := mkEntry l (replicate SECTOR_SIZE 0) true false 0).
      destruct (replace_same i e0 c1) as [Hri Hre].
      pose proof (store_spec i e0 sector c1 (replace i e0 c1) (k_inv _ _ Hk)) as Hst.
      destruct (store i sector (replace i e0 c1)) as [c' res]. destruct Hst as (-> & Hi' & Hin' & Hv'); try done.
      * by rewrite Hlen.
      * simpl. rewrite (k_count _ _ Hk). lia.
      * intros j f Hj Hvf Heq. by destruct (Hmiss j f Hj Hvf).
      * intros old Ho Hvo. right. by apply Hslot.
      * rewrite Hin'. split_and!; try done; [apply Hk|rewrite (k_ro _ _ Hk); done| |].
        -- intros k Hkr Hne. rewrite Hv'. simpl. rewrite (proj2 (Z.eqb_neq _ _)) by done. by apply Hk.
        -- intros _. rewrite Hv'. simpl. by rewrite Z.eqb_refl.
Qed.

Lemma cache_read_spec c l out :
  inv c → 0 ≤ l →
  let '(c', out', res) := cache_read_sector c l out in
  inv c' ∧ sector_count (inner c') = sector_count (inner c) ∧ is_read_only (inner c') = is_read_only (inner c) ∧
  (∀ k, 0 ≤ k < sector_count (inner c) → view c' k = view c k) ∧ length out' = length out ∧
  (res = Ok () → length out = SECTOR_SIZE ∧ l < sector_count (inner c) ∧ out' = view c l).
Proof.
  intros Hi Hl. unfold cache_read_sector.
  destruct (Nat.eqb_spec (length out) SECTOR_SIZE) as [Hs|]; cbn [negb]; [|done].
  destruct (Z.leb_spec (sector_count (inner c)) l) as [|Hlt]; [done|].
  destruct (Nat.eqb_spec (length (entries c)) 0) as [Hz|Hnz].
  - assert (Hnil : entries c = []) by (by apply nil_length_inv).
    pose proof (law_read (inner c) l out (i_inner _ Hi) ltac:(lia)) as Hr.
    destruct (read_sector (inner c) l out) as [[d out'] res]. destruct Hr as (Hok & Hc & Hro & Hsame & Hbl & Hres).
    assert (Hvw : ∀ k, view (set_inner d c) k = disk d k ∧ view c k = disk (inner c) k)
      by (intros k; split; by apply view_nil).
    split_and!; try done.
    + by apply inv_nil.
    + intros k Hk. destruct (Hvw k) as [-> ->]. by apply Hsame.
    + intros Hx. destruct (Hres Hx) as (? & ? & ?). by rewrite (proj2 (Hvw l)).
  - pose proof (load_spec l c Hi ltac:(lia) ltac:(lia)) as Hld.
    destruct (load l c) as [c' [i|err]]; destruct Hld as (Hi' & Hc & Hro & Hv & Hd).
    + rewrite (Hd i eq_refl). simpl. split_and!; try done. rewrite Hs. by apply view_length.
    + by split_and!.
Qed.

(** ** Flush *)
Lemma write_back_all_spec ids c :
  inv c → let '(c', res) := write_back_all ids c in kept c c' ∧
    (res = Ok () → ∀ (i : nat) e', i ∈ ids → entries c' !! i = Some e' → valid e' = true → dirty e' = false).
Proof.
  revert c. induction ids as [|i ids IH]; intros c Hi; simpl.
  { split; [by apply kept_refl|]. intros _ i e' []%elem_of_nil. }
  pose proof (write_back_spec i c Hi) as Hw. destruct (write_back i c) as [c1 [[]|err]]; destruct Hw as [Hk Hcl].
  2:{ split; [done|]. intros [=]. }
  specialize (IH c1 (k_inv _ _ Hk)). destruct (write_back_all ids c1) as [c2 res]. destruct IH as [Hk2 Hcl2].
  split; [by eapply kept_trans|]. intros -> j e' [->|Hj]%elem_of_cons He' Hv'; [|by eapply Hcl2].
  destruct (Forall2_lookup_r _ _ _ _ _ (k_entries _ _ Hk2) He') as (e1 & He1 & Hve & _).
  eapply (k_dirty _ _ Hk2 i e1); [done..|]. eapply Hcl; [done..|congruence].
Qed.

Lemma cache_flush_spec c :
  inv c → let '(c', res) := cache_flush c in
  inv c' ∧ sector_count (inner c') = sector_count (inner c) ∧ is_read_only (inner c') = is_read_only (inner c) ∧
  (∀ k, 0 ≤ k < sector_count (inner c) → view c' k = view c k) ∧
  (res = Ok () → (∀ (i : nat) e, entries c' !! i = Some e → valid e = true → dirty e = false) ∧
    ∀ k, 0 ≤ k < sector_count (inner c) → disk (inner c') k = view c k).
Proof.
  intros Hi. unfold cache_flush.
  pose proof (write_back_all_spec (seq 0 (length (entries c))) c Hi) as Hw.
  destruct (write_back_all _ c) as [c1 [[]|err]]; destruct Hw as [Hk Hcl].
  2:{ split_and!; try apply Hk. intros [=]. }
  pose proof (law_flush (inner c1) (i_inner _ (k_inv _ _ Hk))) as Hf.
  destruct (flush (inner c1)) as [d res]. destruct Hf as (Hok & Hc & Hro & Hsame).
  pose proof (k_inv _ _ Hk) as Hi1. rewrite (k_count _ _ Hk) in Hc, Hsame.
  assert (Hi' : inv (set_inner d c1)).
  { apply (inv_same c1); try done; [by rewrite (k_count _ _ Hk)|apply same_refl|].
    intros j f f' Hj Hj' Hvf Hdf. simpl in *. simplify_eq.
    destruct (i_entry _ Hi1 j f Hj Hvf) as (Hr & _ & Hclean). rewrite (k_count _ _ Hk) in Hr.
    rewrite Hsame by done. by apply Hclean. }
  assert (Hv : ∀ k, 0 ≤ k < sector_count (inner c) → view (set_inner d c1) k = view c k).
  { intros k Hkr. rewrite <-(k_view _ _ Hk) by done. apply view_same; [apply same_refl|]. intros _. by apply Hsame. }
  split_and!; try done; [simpl; rewrite Hro; apply Hk|]. intros _.
  assert (Hall : ∀ (i : nat) e, entries c1 !! i = Some e → valid e = true → dirty e = false).
  { intros i e He. eapply Hcl; [done|..|done]. apply elem_of_seq. apply lookup_lt_Some in He.
    rewrite <-(Forall2_length _ _ _ (k_entries _ _ Hk)) in He. lia. }
  split; [exact Hall|]. intros k Hkr. rewrite <-Hv by done.
  destruct (find k (set_inner d c1)) as [i|] eqn:Hfind; [|by rewrite view_miss].
  destruct (find_Some _ _ _ Hfind) as (e & He & Hve & <-). rewrite (view_hit _ i e) by done.
  symmetry. apply (i_entry _ Hi' i e He Hve). by apply (Hall i).
Qed.

(** C31. The cache is transparent. In front of a device that keeps the block-device
    laws, with any number of slots, the cache keeps the same laws for its logical
    content: a successful read returns the last sector successfully written there, a
    write changes its own sector only, and neither failed write-backs, failed loads nor
    evictions - of clean or dirty sectors - alter any logical sector. *)
Theorem cache_transparent : Lawful inv view.
Proof.
  split.
  - intros c Hi. exact (law_count (inner c) (i_inner _ Hi)).
  - intros c l Hi Hl. by apply view_length.
  - intros c l out Hi Hl. pose proof (cache_read_spec c l out Hi Hl) as Hr. simpl.
    destruct (cache_read_sector c l out) as [[c' out'] res]. exact Hr.
  - intros c l sector Hi Hl. pose proof (cache_write_spec c l sector Hi Hl) as Hw. simpl.
    destruct (cache_write_sector c l sector) as [c' res]. by destruct Hw as (? & ? & ? & ? & ? & _).
  - intros c Hi. pose proof (cache_flush_spec c Hi) as Hf. simpl.
    destruct (cache_flush c) as [c' res]. by destruct Hf as (? & ? & ? & ? & _).
Qed.

(** Flushing is durable and failure keeps data. A flush that reports success
    leaves no dirty sector and the device below holding the whole logical content; one
    that fails keeps the logical content, so that it can be retried; and a rejected or
    failed write to a cache with slots leaves its sector as it was. *)
Theorem flush_durable (c : CachedDevice D) (l : Z) (sector : list Z) :
  inv c → 0 ≤ l < sector_count (inner c) →
  (let '(c', res) := cache_flush c in
   inv c' ∧ (∀ k, 0 ≤ k < sector_count (inner c) → view c' k = view c k) ∧
   (res = Ok () → count_if (λ e, valid e && dirty e) (entries c') = 0%nat ∧
     ∀ k, 0 ≤ k < sector_count (inner c) → disk (inner c') k = view c k)) ∧
  (let '(c', res) := cache_write_sector c l sector in
   (0 < length (entries c))%nat → res ≠ Ok () → view c' l = view c l).
Proof.
  intros Hi Hl. split.
  - pose proof (cache_flush_spec c Hi) as Hf. destruct (cache_flush c) as [c' res].
    destruct Hf as (Hi' & _ & _ & Hv & Hres). split_and!; [done..|]. intros Hok.
    destruct (Hres Hok) as [Hclean Hdisk]. split; [|done]. apply count_if_zero.
    intros i e He. destruct (valid e) eqn:Hve; [|done]. by apply (Hclean i).
  - pose proof (cache_write_spec c l sector Hi ltac:(lia)) as Hw.
    destruct (cache_write_sector c l sector) as [c' res]. by destruct Hw as (_ & _ & _ & _ & _ & ?).
Qed.

(** An empty cache over a good device. *)
Lemma inv_cache_new n d : ok d → inv (cache_new n d).
Proof.
  intros Hok. split; [done|..]; intros i; intros *; simpl; intros [-> _]%lookup_replicate; done.
Qed.

End proofs.
End CacheProofs.

(** ** The probe device and the self tests of the source *)
Module CacheTest.
Import Block Cache.

Record Probe := mkProbe {
  probe_disk : RamDisk;
  reads : Z;
  writes : Z;
  flushes : Z;
  fail_read : bool;
  fail_write : bool;
  fail_flush : bool
}.

Definition probe_new : Probe := mkProbe (new 4) 0 0 0 false false false.

Definition probe_read_sector (p : Probe) (l : Z) (out : list Z) : Probe * list Z * result () Error :=
  let put d := mkProbe d (reads p + 1) (writes p) (flushes p) (fail_read p) (fail_write p) (fail_flush p) in
  if fail_read p then (put (probe_disk p), out, Err DeviceFault)
  else let '(d, out, res) := read_sector (probe_disk p) l out in (put d, out, res).

Definition probe_write_sector (p : Probe) (l : Z) (x : list Z) : Probe * result () Error :=
  let put d := mkProbe d (reads p) (writes p + 1) (flushes p) (fail_read p) (fail_write p) (fail_flush p) in
  if fail_write p then (put (probe_disk p), Err DeviceFault)
  else let '(d, res) := write_sector (probe_disk p) l x in (put d, res).

Definition probe_flush (p : Probe) : Probe * result () Error :=
  (mkProbe (probe_disk p) (reads p) (writes p) (flushes p + 1) (fail_read p) (fail_write p) (fail_flush p),
   if fail_flush p then Err DeviceFault else Ok ()).

#[export] Instance probe_device : BlockDevice Probe := {|
  sector_count p := sector_count (probe_disk p);
  is_read_only p := is_read_only (probe_disk p);
  flush := probe_flush;
  read_sector := probe_read_sector;
  write_sector := probe_write_sector
|}.

(** Faults and counters do not change the sectors. *)
#[export] Instance probe_lawful : Lawful (λ p, ram_ok (probe_disk p)) (λ p, ram_disk (probe_disk p)).
Proof.
  split.
  - intros p Hok. exact (law_count (probe_disk p) Hok).
  - intros p l Hok Hl. exact (law_length (probe_disk p) l Hok Hl).
  - intros p l out Hok Hl. pose proof (law_read (probe_disk p) l out Hok Hl) as Hr.
    cbn [read_sector probe_device]. unfold probe_read_sector. destruct (fail_read p); [by split_and!|].
    destruct (read_sector (probe_disk p) l out) as [[d o] res]. exact Hr.
  - intros p l x Hok Hl. pose proof (law_write (probe_disk p) l x Hok Hl) as Hw.
    cbn [write_sector probe_device]. unfold probe_write_sector. destruct (fail_write p); [by split_and!|].
    destruct (write_sector (probe_disk p) l x) as [d res]. exact Hw.
  - intros p Hok. by split_and!.
Qed.

Definition sector (b : Z) : list Z := replicate SECTOR_SIZE b.

Definition with_faults (r w f : bool) (c : CachedDevice Probe) : CachedDevice Probe :=
  let p := inner c in
  set_inner (mkProbe (probe_disk p) (reads p) (writes p) (flushes p) r w f) c.

Definition reuse_and_eviction_test : bool :=
  let cache := cache_new 2 probe_new in
  let '(cache, out, r1) := read_sector cache 0 (sector 0) in
  let '(cache, out, r2) := read_sector cache 0 out in
  let c1 := reads (inner cache) =? 1 in
  let '(cache, w1) := write_sector cache 1 (sector 1) in
  let '(cache, w2) := write_sector cache 1 (sector 2) in
  let c2 := (reads (inner cache) =? 1) && (writes (inner cache) =? 0) in
  let '(cache, out, r3) := read_sector cache 1 out in
  let c3 := bool_decide (out = sector 2) && (dirty_count (stats cache) =? 1)%nat in
  let '(cache, out, r4) := read_sector cache 0 out in
  let '(cache, out, r5) := read_sector cache 2 out in
  let c4 := (writes (inner cache) =? 1) && (stat_writebacks (stats cache) =? 1)
            && (stat_evictions (stats cache) =? 1) && (resident (stats cache) =? 2)%nat in
  let '(_, out, r6) := read_sector (probe_disk (inner cache)) 1 out in
  let c5 := bool_decide (out = sector 2) in
  let '(cache, f1) := flush cache in
  let '(cache, f2) := flush cache in
  let c6 := (writes (inner cache) =? 1) && (flushes (inner cache) =? 2) && (dirty_count (stats cache) =? 0)%nat in
  let '(cache, out, r7) := read_sector cache 0 out in
  is_ok r1 && is_ok r2 && c1 && is_ok w1 && is_ok w2 && c2 && is_ok r3 && c3 && is_ok r4 && is_ok r5
  && c4 && is_ok r6 && c5 && is_ok f1 && is_ok f2 && c6 && is_ok r7
  && (reads (inner cache) =? 2) && (hits cache =? 5) && (misses cache =? 3).

Definition is_fault {A} (r : result A Error) : bool :=
  match r with Err DeviceFault => true | _ => false end.

Definition failure_recovery_test : bool :=
  let cache := cache_new 1 probe_new in
  let '(cache, w1) := write_sector cache 0 (sector 7) in
  let cache := with_faults false true false cache in
  let '(cache, f1) := flush cache in
  let '(cache, out, r1) := read_sector cache 1 (sector 0) in
  let '(cache, w2) := write_sector cache 1 (sector 9) in
  let c1 := (dirty_count (stats cache) =? 1)%nat && (stat_evictions (stats cache) =? 0) in
  let '(cache, out, r2) := read_sector cache 0 out in
  let c2 := bool_decide (out = sector 7) in
  let cache := with_faults false false false cache in
  let '(cache, f2) := flush cache in
  let c3 := (dirty_count (stats cache) =? 0)%nat in
  let '(_, out, r3) := read_sector (probe_disk (inner cache)) 0 out in
  let c4 := bool_decide (out = sector 7) in
  let cache := with_faults true false false cache in
  let '(cache, out, r4) := read_sector cache 1 (sector 3) in
  let c5 := bool_decide (out = sector 3) in
  let '(cache, out, r5) := read_sector cache 0 out in
  let c6 := bool_decide (out = sector 7) in
  let cache := with_faults false false true cache in
  let '(cache, f3) := flush cache in
  let cache := with_faults false false false cache in
  let '(cache, f4) := flush cache in
  let '(cache, out, r6) := read_sector cache 1 out in
  is_ok w1 && is_fault f1 && is_fault r1 && is_fault w2 && c1 && is_ok r2 && c2 && is_ok f2 && c3 && is_ok r3
  && c4 && is_fault r4 && c5 && is_ok r5 && c6 && is_fault f3 && is_ok f4 && is_ok r6
  && bool_decide (out = sector 0).

Definition validation_and_bypass_test : bool :=
  let cache := cache_new 1 probe_new in
  let '(cache, out, r1) := read_sector cache 4 (sector 0) in
  let '(cache, w1) := write_sector cache 4 out in
  let '(cache, _, r2) := read_sector cache 0 (take 1 out) in
  let '(cache, w2) := write_sector cache 0 (take 1 out) in
  let c1 := (reads (inner cache) =? 0) && (writes (inner cache) =? 0) in
  let p := inner cache in
  let cache := set_inner (mkProbe (set_read_only true (probe_disk p)) (reads p) (writes p) (flushes p)
    (fail_read p) (fail_write p) (fail_flush p)) cache in
  let '(cache, w3) := write_sector cache 0 out in
  let c2 := (dirty_count (stats cache) =? 0)%nat in
  let bypass := cache_new 0 probe_new in
  let '(bypass, w4) := write_sector bypass 2 (sector 8) in
  let '(bypass, out, r3) := read_sector bypass 2 out in
  let c3 := bool_decide (out = sector 8) && (writes (inner bypass) =? 1) && (reads (inner bypass) =? 1)
            && (resident (stats bypass) =? 0)%nat in
  let '(bypass, f1) := flush bypass in
  bool_decide (r1 = Err OutOfBounds) && bool_decide (w1 = Err OutOfBounds)
  && bool_decide (r2 = Err InvalidBuffer) && bool_decide (w2 = Err InvalidBuffer) && c1
  && bool_decide (w3 = Err ReadOnly) && c2 && is_ok w4 && is_ok r3 && c3 && is_ok f1
  && (flushes (inner bypass) =? 1).

Lemma cache_self_tests_pass :
  reuse_and_eviction_test && failure_recovery_test && validation_and_bypass_test = true.
Proof. vm_compute. reflexivity. Qed.

Definition probe_ok (p : Probe) : Prop := ram_ok (probe_disk p).
Definition probe_content (p : Probe) : Z → list Z := ram_disk (probe_disk p).

Lemma probe_new_ok : probe_ok probe_new.
Proof. split; [vm_compute; discriminate|]. apply Forall_replicate. by rewrite length_replicate. Qed.

Lemma cache_transparent_witness :
  let c := cache_new 1 probe_new in
  let '(c', _) := write_sector c 2 (sector 5) in
  CacheProofs.inv probe_ok probe_content c' ∧ CacheProofs.view probe_content c' 2 = sector 5.
Proof.
  pose proof (@law_write _ _ _ _ (CacheProofs.cache_transparent probe_ok probe_content)
    (cache_new 1 probe_new) 2 (sector 5)
    (CacheProofs.inv_cache_new probe_ok probe_content 1 probe_new probe_new_ok) ltac:(lia)) as Hw.
  cbv zeta. destruct (write_sector (cache_new 1 probe_new) 2 (sector 5)) as [c' res] eqn:E.
  destruct Hw as (Hi & _ & _ & _ & Hres). split; [exact Hi|]. apply Hres.
  assert (Hr : (write_sector (cache_new 1 probe_new) 2 (sector 5)).2 = Ok ()) by (vm_compute; reflexivity).
  rewrite E in Hr. exact Hr.
Defined.

Lemma flush_durable_witness :
  let c := cache_new 1 probe_new in
  let '(c', res) := cache_flush c in
  CacheProofs.inv probe_ok probe_content c' ∧
  ∀ k, 0 ≤ k < 4 → CacheProofs.view probe_content c' k = CacheProofs.view probe_content c k.
Proof.
  pose proof (CacheProofs.flush_durable probe_ok probe_content (cache_new 1 probe_new) 0 (sector 1)
    (CacheProofs.inv_cache_new probe_ok probe_content 1 probe_new probe_new_ok)
    ltac:(split; [lia|vm_compute; reflexivity])) as Hf.
  cbv zeta. destruct (cache_flush (cache_new 1 probe_new)) as [c' res].
  destruct Hf as [(Hi & Hv & _) _]. split; [exact Hi|exact Hv].
Defined.

End CacheTest.
