(* ===== verification/PageCache.v ===== *)
(** * The clean file-page cache (kernel/src/page_cache.rs) and its reader (storage.rs)

    A bounded cache of 4 KiB file pages keyed by path and page number. [read] fills
    misses through the caller's loader; [read_disk_file] drops the cache lock during
    the physical read and publishes the page only if no invalidation happened since.
    A key array with its length is the list of its bytes; file positions are [Z], so
    that the overflow check is the code's. [None] is a slice-index panic. *)
From S2P Require Import Prelude Block BlockCache.

Module Pages.
Import Block Cache.

Definition PAGE_SIZE : nat := 4096.
Definition KEY_SIZE : nat := 128.

Record Slot := mkSlot {
  key : list Z;
  page : Z;
  pdata : list Z;
  plength : nat;
  pvalid : bool;
  page_age : Z
}.

Definition slot_empty : Slot := mkSlot [] 0 (replicate PAGE_SIZE 0) 0 false 0.

Record PageCache := mkPages {
  slots : list Slot;
  phits : Z;
  pmisses : Z;
  pevictions : Z;
  epoch : Z
}.

Definition pages_new (n : nat) : PageCache := mkPages (replicate n slot_empty) 0 0 0 0.

Record PageStats := mkPageStats {
  st_hits : Z; st_misses : Z; st_evictions : Z; st_resident : nat; st_capacity : nat
}.

Definition page_stats (c : PageCache) : PageStats :=
  mkPageStats (phits c) (pmisses c) (pevictions c) (count_if pvalid (slots c)) (length (slots c)).

Definition set_slots (l : list Slot) (c : PageCache) : PageCache :=
  mkPages l (phits c) (pmisses c) (pevictions c) (epoch c).
Definition hit (c : PageCache) : PageCache :=
  mkPages (slots c) (saturating_add64 (phits c) 1) (pmisses c) (pevictions c) (epoch c).
Definition miss (c : PageCache) : PageCache :=
  mkPages (slots c) (phits c) (saturating_add64 (pmisses c) 1) (pevictions c) (epoch c).
Definition evict (c : PageCache) : PageCache :=
  mkPages (slots c) (phits c) (pmisses c) (saturating_add64 (pevictions c) 1) (epoch c).

Definition set_pvalid (b : bool) (s : Slot) : Slot :=
  mkSlot (key s) (page s) (pdata s) (plength s) b (page_age s).
Definition set_page_age (a : Z) (s : Slot) : Slot :=
  mkSlot (key s) (page s) (pdata s) (plength s) (pvalid s) a.

Definition invalidate (c : PageCache) : PageCache :=
  mkPages (set_pvalid false <$> slots c) (phits c) (pmisses c) (pevictions c) (wrapping_add64 (epoch c) 1).

(** [key.is_empty() || key.len() > KEY_SIZE || N == 0 || offset.checked_add(length).is_none()] *)
Definition bad_read (c : PageCache) (k : list Z) (offset : Z) (len : nat) : bool :=
  (length k =? 0)%nat || (KEY_SIZE <? length k)%nat || (length (slots c) =? 0)%nat
  || bool_decide (checked_add64 offset (Z.of_nat len) = None).

Definition validate_read (c : PageCache) (k : list Z) (offset : Z) (len : nat) : result () Error :=
  if bad_read c k offset len then Err InvalidBuffer else Ok ().

Definition holds_page (k : list Z) (p : Z) (s : Slot) : bool :=
  pvalid s && (page s =? p) && bool_decide (key s = k).

(** Ages of the valid slots grow; slot [i] becomes the youngest. *)
Definition age_one (s : Slot) : Slot :=
  if pvalid s then set_page_age (saturating_add64 (page_age s) 1) s else s.
Definition use (i : nat) (c : PageCache) : PageCache :=
  set_slots (alter (set_page_age 0) i (age_one <$> slots c)) c.

(** [slice[within..within + count]] and the copy into [output[at..at + count]]. *)
Definition sub (l : list Z) (within count : nat) : option (list Z) :=
  if (within + count <=? length l)%nat then Some (take count (drop within l)) else None.

Definition copy_out (s : Slot) (within count at_ : nat) (output : list Z) : option (list Z) :=
  bytes ← sub (pdata s) within count; copy_at at_ bytes output.

Definition read_cached_page (c : PageCache) (k : list Z) (p : Z) (within : nat) (output : list Z)
    : option (PageCache * list Z * option (nat * nat)) :=
  match position (holds_page k p) (slots c) with
  | None => Some (miss c, output, None)
  | Some i =>
      let c := use i (hit c) in
      s ← slots c !! i;
      let count := Nat.min (plength s - within) (length output) in
      out ← copy_out s within count 0 output;
      Some (c, out, Some (count, plength s))
  end.

(** The slot a new page goes to: a free one, or the oldest. *)
Definition page_victim (c : PageCache) : option nat :=
  match position (λ s, negb (pvalid s)) (slots c) with
  | Some i => Some i
  | None => max_index page_age (slots c)
  end.

Definition publish_loaded_page (c : PageCache) (k : list Z) (p : Z) (bytes : list Z) (len : nat) (expected : Z)
    : option (PageCache * result bool Error) :=
  if (length k =? 0)%nat || (KEY_SIZE <? length k)%nat || (length (slots c) =? 0)%nat
     || (PAGE_SIZE <? len)%nat || (length bytes <? len)%nat
  then Some (c, Err InvalidBuffer)
  else if negb (epoch c =? expected) then Some (c, Ok false)
  else
    let existing := position (holds_page k p) (slots c) in
    i ← match existing with Some i => Some i | None => page_victim c end;
    s ← slots c !! i;
    let c := if bool_decide (existing = None) && pvalid s then evict c else c in
    let s' := mkSlot k p (take len bytes ++ replicate (PAGE_SIZE - len) 0) len true 0 in
    Some (set_slots (<[i := s']> (age_one <$> slots c)) c, Ok true).

(** ** Reading through the cache *)
Section loader.
(** The caller's loader: a closure over its own state, filling the buffer. *)
Context {T : Type} (load : T → Z → list Z → T * list Z * result nat Error).

(** The page's slot, loaded if it is not resident. *)
Definition resident (c : PageCache) (st : T) (k : list Z) (p : Z)
    : option (PageCache * T * result nat Error) :=
  match position (holds_page k p) (slots c) with
  | Some i => Some (hit c, st, Ok i)
  | None =>
      let c := miss c in
      i ← page_victim c;
      s ← slots c !! i;
      let c := if pvalid s then evict c else c in
      let '(st, bytes, res) := load st (p * Z.of_nat PAGE_SIZE) (replicate PAGE_SIZE 0) in
      match res with
      | Err e =>
          Some (set_slots (<[i := mkSlot (key s) (page s) bytes (plength s) false (page_age s)]> (slots c)) c, st, Err e)
      | Ok len =>
          if (PAGE_SIZE <? len)%nat
          then Some (set_slots (<[i := mkSlot (key s) (page s) bytes (plength s) false (page_age s)]> (slots c)) c,
                     st, Err InvalidBuffer)
          else Some (set_slots (<[i := mkSlot k p bytes len true (page_age s)]> (slots c)) c, st, Ok i)
      end
  end.

(** The loop of [read]; every turn but the last copies at least one byte. *)
Fixpoint read_loop (fuel : nat) (c : PageCache) (st : T) (k : list Z) (offset : Z) (output : list Z) (copied : nat)
    : option (PageCache * T * list Z * result nat Error) :=
  match fuel with
  | O => None
  | S fuel =>
      if (length output <=? copied)%nat then Some (c, st, output, Ok copied)
      else
        let position := offset + Z.of_nat copied in
        let p := position / Z.of_nat PAGE_SIZE in
        let within := Z.to_nat (position mod Z.of_nat PAGE_SIZE) in
        r ← resident c st k p;
        let '(c, st, res) := r in
        match res with
        | Err e => Some (c, st, output, Err e)
        | Ok i =>
            let c := use i c in
            s ← slots c !! i;
            let count := Nat.min (plength s - within) (length output - copied) in
            if (count =? 0)%nat then Some (c, st, output, Ok copied)
            else
              output ← copy_out s within count copied output;
              let copied := (copied + count)%nat in
              if (plength s <? PAGE_SIZE)%nat then Some (c, st, output, Ok copied)
              else read_loop fuel c st k offset output copied
        end
  end.

Definition read (c : PageCache) (st : T) (k : list Z) (offset : Z) (output : list Z)
    : option (PageCache * T * list Z * result nat Error) :=
  if bad_read c k offset (length output) then Some (c, st, output, Err InvalidBuffer)
  else read_loop (2 + length output) c st k offset output 0.

(** ** [read_disk_file] *)

(** One page of the request: from the cache, or loaded with the cache unlocked. While it
    is unlocked the other CPUs may do anything to the cache ([env]). *)
Definition disk_page (env : PageCache → PageCache) (c : PageCache) (st : T) (k : list Z) (p : Z)
    (within copied chunk : nat) (output : list Z) : option (PageCache * T * list Z * result (nat * nat) Error) :=
  window ← sub output copied chunk;
  r ← read_cached_page c k p within window;
  let '(c, window, found) := r in
  match found with
  | Some (count, len) => output ← copy_at copied window output; Some (c, st, output, Ok (count, len))
  | None =>
      let expected := epoch c in
      let c := env c in
      let '(st, bytes, res) := load st (p * Z.of_nat PAGE_SIZE) (replicate PAGE_SIZE 0) in
      match res with
      | Err _ => Some (c, st, output, Err DeviceFault)
      | Ok len =>
          if (PAGE_SIZE <? len)%nat then Some (c, st, output, Err InvalidBuffer)
          else
            r ← publish_loaded_page c k p bytes len expected;
            let '(c, published) := r in
            match published with
            | Err e => Some (c, st, output, Err e)
            | Ok false => Some (c, st, output, Err DeviceFault)
            | Ok true =>
                let count := Nat.min (len - within) chunk in
                piece ← sub bytes within count;
                output ← copy_at copied piece output;
                Some (c, st, output, Ok (count, len))
            end
      end
  end.

Fixpoint disk_loop (fuel : nat) (env : nat → PageCache → PageCache) (c : PageCache) (st : T) (k : list Z)
    (offset : Z) (output : list Z) (copied : nat) : option (PageCache * T * list Z * result nat Error) :=
  match fuel with
  | O => None
  | S fuel =>
      if (length output <=? copied)%nat then Some (c, st, output, Ok copied)
      else
        let position := offset + Z.of_nat copied in
        let p := position / Z.of_nat PAGE_SIZE in
        let within := Z.to_nat (position mod Z.of_nat PAGE_SIZE) in
        let chunk := Nat.min (PAGE_SIZE - within) (length output - copied) in
        r ← disk_page (env fuel) c st k p within copied chunk output;
        let '(c, st, output, res) := r in
        match res with
        | Err e => Some (c, st, output, Err e)
        | Ok (count, len) =>
            let copied := (copied + count)%nat in
            if (count =? 0)%nat || (len <? PAGE_SIZE)%nat then Some (c, st, output, Ok copied)
            else disk_loop fuel env c st k offset output copied
        end
  end.

(** [mounted] is [mnt_mounted()], [present] [primary_ata_present()]. *)
Definition read_disk_file (mounted present : bool) (env : nat → PageCache → PageCache) (c : PageCache) (st : T)
    (path : list Z) (offset : Z) (output : list Z) : option (PageCache * T * list Z * result nat Error) :=
  if negb mounted then Some (c, st, output, Err DeviceFault)
  else if negb (starts_with (bytes "/mnt/") path) then Some (c, st, output, Err InvalidBuffer)
  else if negb present then Some (c, st, output, Err DeviceFault)
  else match validate_read c path offset (length output) with
  | Err e => Some (c, st, output, Err e)
  | Ok _ => disk_loop (2 + length output) env c st path offset output 0
  end.

End loader.

(** ** Self tests *)
Definition get_read {T} (r : option (PageCache * T * list Z * result nat Error)) (c0 : PageCache) (t0 : T)
    : PageCache * T * list Z * result nat Error :=
  default (c0, t0, [], Err DeviceFault) r.

Definition boundary_load (loads : nat) (offset : Z) (buf : list Z) : nat * list Z * result nat Error :=
  let n := Z.to_nat (Z.min (saturating_sub (Z.of_nat PAGE_SIZE + 11) offset) (Z.of_nat PAGE_SIZE)) in
  (S loads, replicate n (if offset =? 0 then 1 else 2) ++ drop n buf, Ok n).

Definition boundary_test : bool :=
  let file := bytes "/file" in
  let at_ := Z.of_nat PAGE_SIZE - 8 in
  let '(c, n, out, r1) := get_read (read boundary_load (pages_new 2) 0%nat file at_ (replicate 32 0)) (pages_new 2) 0%nat in
  let ok := bool_decide (r1 = Ok 19%nat) && bool_decide (take 8 out = replicate 8 1)
    && bool_decide (take 11 (drop 8 out) = replicate 11 2) && bool_decide (drop 19 out = replicate 13 0) in
  let '(c, n, out, r2) := get_read (read boundary_load c n file at_ out) c n in
  let '(c, n, out, r3) := get_read (read boundary_load c n file (Z.of_nat PAGE_SIZE + 11) out) c n in
  ok && bool_decide (r2 = Ok 19%nat) && bool_decide (r3 = Ok 0%nat)
  && (n =? 2)%nat && (st_resident (page_stats c) =? 2)%nat && (st_hits (page_stats c) =? 3).

Definition fill_load (b : Z) (st : unit) (offset : Z) (buf : list Z) : unit * list Z * result nat Error :=
  (st, replicate (length buf) b, Ok PAGE_SIZE).
Definition fail_load (b : Z) (st : unit) (offset : Z) (buf : list Z) : unit * list Z * result nat Error :=
  (st, replicate (length buf) b, Err DeviceFault).

(** Read one byte at offset 0 and continue if it succeeds. *)
Definition read_one (load : unit → Z → list Z → unit * list Z * result nat Error) (k : string) (c : PageCache)
    : PageCache * list Z * result nat Error :=
  let '(c, _, out, r) := get_read (read load c tt (bytes k) 0 [0]) c tt in (c, out, r).

Definition eviction_and_failure_test : bool :=
  let '(c, _, r1) := read_one (fill_load 4) "a" (pages_new 2) in
  let '(c, _, r2) := read_one (fill_load 4) "b" c in
  let '(c, _, r3) := read_one (fill_load 4) "a" c in
  let '(c, _, r4) := read_one (fill_load 4) "c" c in
  let first := is_ok r1 && is_ok r2 && is_ok r3 && is_ok r4 && (st_evictions (page_stats c) =? 1) in
  let '(c, _, r5) := read_one (fail_load 0) "a" c in
  let '(c, _, r6) := read_one (fail_load 99) "b" c in
  let '(c, out, r7) := read_one (fill_load 4) "b" c in
  let second := is_ok r5 && bool_decide (r6 = Err DeviceFault) && is_ok r7 && bool_decide (out = [4]) in
  let c := invalidate c in
  let empty := (st_resident (page_stats c) =? 0)%nat in
  let '(c, out, r8) := read_one (fill_load 7) "a" c in
  let '(c, _, r9) := read_one (fill_load 7) "" c in
  let '(c, _, _, r10) := get_read (read (fill_load 7) c tt (bytes "a") u64_max [0]) c tt in
  let '(_, _, r11) := read_one (fill_load 7) "a" (pages_new 0) in
  first && second && empty && is_ok r8 && bool_decide (out = [7]) && bool_decide (r9 = Err InvalidBuffer)
  && bool_decide (r10 = Err InvalidBuffer) && bool_decide (r11 = Err InvalidBuffer).

End Pages.

Module PagesProofs.
Import Block Cache Pages.

Lemma page_cache_self_tests_pass : boundary_test = true ∧ eviction_and_failure_test = true.
Proof. split; vm_compute; reflexivity. Qed.

(** ** What a cached page must be *)

(** Page [p] of contents [f]: shorter than a page only at the end of the file. *)
Definition page_of (f : list Z) (p : Z) : list Z := take PAGE_SIZE (drop (Z.to_nat p * PAGE_SIZE) f).

Section coherence.
Context (files : list Z → list Z).

Definition slot_ok (s : Slot) : Prop :=
  pvalid s = true →
  length (pdata s) = PAGE_SIZE ∧ take (plength s) (pdata s) = page_of (files (key s)) (page s)
  ∧ plength s = length (page_of (files (key s)) (page s)).

Definition coherent (c : PageCache) : Prop := Forall slot_ok (slots c).

Lemma page_of_length f p : (length (page_of f p) ≤ PAGE_SIZE)%nat.
Proof. unfold page_of. rewrite length_take. lia. Qed.

(** *** One turn of a read *)

(** [output] holds the first [copied] bytes of the file from [o] on, then what was there. *)
Record progress (f : list Z) (o : nat) (out0 out : list Z) (copied : nat) : Prop := {
  pr_out : out = take copied (drop o f) ++ drop copied out0;
  pr_len : (copied ≤ length out0)%nat;
  pr_file : (copied ≤ length f - o)%nat
}.

Lemma progress_length f o out0 out copied : progress f o out0 out copied → length out = length out0.
Proof. intros [-> H1 H2]. rewrite length_app, length_take, !length_drop. lia. Qed.

(** The bytes a turn copies, from a page of the file. *)
Lemma turn_bytes f o copied p within count :
  (Z.to_nat p * PAGE_SIZE + within = o + copied)%nat → (within + count ≤ PAGE_SIZE)%nat →
  take count (drop within (page_of f p)) = take count (drop copied (drop o f)).
Proof.
  intros Hp Hc. unfold page_of. rewrite skipn_firstn_comm, take_take, !drop_drop.
  rewrite Nat.min_l by lia. f_equal. f_equal. lia.
Qed.

Lemma turn_progress f o out0 out copied p within count :
  progress f o out0 out copied → (Z.to_nat p * PAGE_SIZE + within = o + copied)%nat → (within < PAGE_SIZE)%nat →
  count = Nat.min (length (page_of f p) - within) (length out0 - copied) →
  let piece := take count (drop within (page_of f p)) in
  length piece = count ∧
  copy_at copied piece out = Some (take copied out ++ piece ++ drop (copied + count) out) ∧
  progress f o out0 (take copied out ++ piece ++ drop (copied + count) out) (copied + count) ∧
  (count = 0%nat ∨ (length (page_of f p) < PAGE_SIZE)%nat → (copied + count)%nat = Nat.min (length out0) (length f - o)).
Proof.
  intros Hpr Hp Hw Hcount piece. pose proof (page_of_length f p) as Hmax.
  pose proof (progress_length _ _ _ _ _ Hpr) as Hlen. destruct Hpr as [Hout H1 H2].
  assert (Hpl : length piece = count) by (unfold piece; rewrite length_take, length_drop; lia).
  assert (Hfile : length (page_of f p) = Nat.min PAGE_SIZE (length f - Z.to_nat p * PAGE_SIZE)).
  { unfold page_of. by rewrite length_take, length_drop. }
  split_and!; [done| | |].
  - unfold copy_at. rewrite Hpl. rewrite (proj2 (Nat.leb_le _ _)) by lia. done.
  - split; [|lia..]. rewrite Hout at 1 2. unfold piece.
    rewrite (turn_bytes f o copied p within count Hp) by lia.
    assert (Ht : length (take copied (drop o f)) = copied) by (rewrite length_take, length_drop; lia).
    rewrite take_app_length' by done. rewrite drop_app_ge, Ht by lia. rewrite app_assoc. f_equal. rewrite <-(take_drop copied (take (copied + count) (drop o f))).
    rewrite take_take, Nat.min_l by lia. f_equal. rewrite skipn_firstn_comm. f_equal. lia.
    rewrite drop_drop. f_equal. lia.
  - intros [Hz|Hshort]; lia.
Qed.

(** *** The cache operations keep coherence *)
Lemma slot_ok_invalid k p d n a : slot_ok (mkSlot k p d n false a).
Proof. done. Qed.

Lemma coherent_insert c i s : coherent c → slot_ok s → coherent (set_slots (<[i := s]> (slots c)) c).
Proof. intros Hc Hs. by apply Forall_insert. Qed.

Lemma age_one_ok s : slot_ok s → slot_ok (age_one s).
Proof. unfold age_one. by destruct (pvalid s). Qed.

Lemma coherent_age c : coherent c → Forall slot_ok (age_one <$> slots c).
Proof. intros Hc. apply Forall_fmap. eapply Forall_impl; [done|]. apply age_one_ok. Qed.

Lemma coherent_use i c : coherent c → coherent (use i c).
Proof. intros Hc. apply (Forall_alter slot_ok); [by apply coherent_age|]. by intros s _ Hs. Qed.

Lemma coherent_invalidate c : coherent (invalidate c).
Proof. apply Forall_fmap, Forall_forall. intros s _. done. Qed.

(** Everything but the age of a slot. *)
Definition same_page (s s' : Slot) : Prop :=
  key s' = key s ∧ page s' = page s ∧ pdata s' = pdata s ∧ plength s' = plength s ∧ pvalid s' = pvalid s.

Lemma age_one_same s : same_page s (age_one s).
Proof. unfold age_one, same_page. destruct (pvalid s) eqn:E; cbn; by split_and!. Qed.

Lemma use_lookup i c s : slots c !! i = Some s → ∃ s', slots (use i c) !! i = Some s' ∧ same_page s s'.
Proof.
  intros Hi. unfold use. cbn [slots set_slots]. rewrite list_lookup_alter_eq, list_lookup_fmap, Hi. cbn.
  eexists. split; [done|]. destruct (age_one_same s) as (? & ? & ? & ? & ?). by split_and!.
Qed.

Lemma holds_page_true k p s : holds_page k p s = true → pvalid s = true ∧ page s = p ∧ key s = k.
Proof. unfold holds_page. intros H. reflect_bools. by split_and!. Qed.

Lemma page_victim_Some c : slots c ≠ [] → ∃ i s, page_victim c = Some i ∧ slots c !! i = Some s.
Proof.
  intros Hne. unfold page_victim. destruct (position _ (slots c)) as [i|] eqn:E.
  - apply position_lookup in E as (s & Hs & _). eauto.
  - pose proof (CacheProofs.max_index_spec page_age (slots c)) as Hm. destruct (max_index page_age (slots c)) as [i|]; [|done].
    destruct Hm as (s & Hs & _). eauto.
Qed.

(** ** Reading gives the file *)
Section reading.
Context {T : Type} (load : T → Z → list Z → T * list Z * result nat Error) (k : list Z).

(** A loader that, when it succeeds, returns the requested page of the file. *)
Definition faithful : Prop := ∀ st p, 0 ≤ p →
  let '(_, buf, res) := load st (p * Z.of_nat PAGE_SIZE) (replicate PAGE_SIZE 0) in
  length buf = PAGE_SIZE ∧
  ∀ n, res = Ok n → n = length (page_of (files k) p) ∧ take n buf = page_of (files k) p.

Context (Hload : faithful).

(** The page requested sits in the slot. *)
Definition shows (s : Slot) (p : Z) : Prop :=
  pvalid s = true ∧ length (pdata s) = PAGE_SIZE
  ∧ take (plength s) (pdata s) = page_of (files k) p ∧ plength s = length (page_of (files k) p).

Lemma resident_spec c st p :
  coherent c → slots c ≠ [] → 0 ≤ p →
  ∃ c' st' res, resident load c st k p = Some (c', st', res) ∧ coherent c' ∧ slots c' ≠ [] ∧
    ∀ i, res = Ok i → ∃ s, slots c' !! i = Some s ∧ shows s p.
Proof.
  intros Hc Hne Hp. unfold resident. destruct (position _ (slots c)) as [i|] eqn:E.
  - eexists _, _, _. split; [done|]. split_and!; [done..|]. intros ? [= <-].
    apply position_lookup in E as (s & Hs & (Hv & Hpg & Hk)%holds_page_true). exists s. split; [done|].
    pose proof (proj1 (Forall_lookup _ _) Hc i s Hs Hv) as (H1 & H2 & H3). rewrite Hk, Hpg in *. by split_and!.
  - destruct (page_victim_Some (miss c) Hne) as (i & s & Hv & Hs). rewrite Hv. cbn [mbind option_bind]. rewrite Hs. cbn [mbind option_bind].
    set (c1 := if pvalid s then evict (miss c) else miss c).
    assert (Hc1 : coherent c1 ∧ slots c1 = slots c) by (unfold c1; by destruct (pvalid s)). clearbody c1. destruct Hc1 as [Hc1 Hs1].
    pose proof (Hload st p Hp) as Hl. destruct (load st _ _) as [[st' buf] res]. destruct Hl as [Hb Hok].
    assert (Hfail : ∀ e, ∃ c' st'' res', Some (set_slots (<[i := mkSlot (key s) (page s) buf (plength s) false (page_age s)]> (slots c1)) c1, st', @Err nat Error e)
        = Some (c', st'', res') ∧ coherent c' ∧ slots c' ≠ [] ∧ ∀ i, res' = Ok i → ∃ s, slots c' !! i = Some s ∧ shows s p).
    { intros e. eexists _, _, _. split; [done|]. split_and!; [by apply coherent_insert| |done].
      cbn. intros Hnil%(f_equal length). rewrite length_insert, Hs1 in Hnil. by destruct (slots c). }
    destruct res as [n|e]; [|apply Hfail]. case_match; [apply Hfail|]. destruct (Hok n eq_refl) as [Hn Ht].
    eexists _, _, _. split; [done|]. split_and!.
    + apply coherent_insert; [done|]. intros _. by split_and!.
    + cbn. intros Hnil%(f_equal length). rewrite length_insert, Hs1 in Hnil. by destruct (slots c).
    + intros ? [= <-]. eexists. cbn. rewrite Hs1, list_lookup_insert_eq by eauto using lookup_lt_Some. split; [done|]. by split_and!.
Qed.

(** Positions: a page number and an offset in the page. *)
Lemma position_parts o copied :
  let position := Z.of_nat o + Z.of_nat copied in
  let p := position / Z.of_nat PAGE_SIZE in
  let within := Z.to_nat (position mod Z.of_nat PAGE_SIZE) in
  0 ≤ p ∧ (Z.to_nat p * PAGE_SIZE + within = o + copied)%nat ∧ (within < PAGE_SIZE)%nat.
Proof.
  cbv zeta. unfold PAGE_SIZE. change (Z.of_nat 4096) with 4096.
  pose proof (Z.div_mod (Z.of_nat o + Z.of_nat copied) 4096 ltac:(lia)) as Hd.
  pose proof (Z.mod_pos_bound (Z.of_nat o + Z.of_nat copied) 4096 ltac:(lia)).
  pose proof (Z.div_pos (Z.of_nat o + Z.of_nat copied) 4096 ltac:(lia) ltac:(lia)). lia.
Qed.

(** The page data a slot shows, from [within] on. *)
Lemma shown_piece s p within count :
  shows s p → (within < PAGE_SIZE)%nat → (count ≤ plength s - within)%nat →
  sub (pdata s) within count = Some (take count (drop within (page_of (files k) p))).
Proof.
  intros (_ & Hd & Ht & Hn) Hw Hc. pose proof (page_of_length (files k) p). unfold sub. rewrite Hd.
  rewrite (proj2 (Nat.leb_le _ _)) by lia. f_equal. rewrite <-Ht, skipn_firstn_comm, take_take. f_equal. lia.
Qed.

(** The outcome of a read of [output] from [o] on. *)
Definition reads (o : nat) (out0 : list Z) (r : option (PageCache * T * list Z * result nat Error)) : Prop :=
  ∃ c' st' out res, r = Some (c', st', out, res) ∧ coherent c' ∧ slots c' ≠ [] ∧ length out = length out0 ∧
    ∀ n, res = Ok n → n = Nat.min (length out0) (length (files k) - o) ∧ out = take n (drop o (files k)) ++ drop n out0.

Lemma read_loop_spec fuel c st o out0 out copied :
  coherent c → slots c ≠ [] → progress (files k) o out0 out copied → (length out0 - copied < fuel)%nat →
  reads o out0 (read_loop load fuel c st k (Z.of_nat o) out copied).
Proof.
  revert c st out copied. induction fuel as [|fuel IH]; intros c st out copied Hc Hne Hpr Hf; [lia|].
  cbn [read_loop]. pose proof (progress_length _ _ _ _ _ Hpr) as Hlen. destruct (Nat.leb_spec (length out) copied) as [Hend|Hmore].
  { eexists _, _, _, _. split; [done|]. split_and!; [done..|]. intros ? [= <-]. destruct Hpr. split; [lia|done]. }
  destruct (position_parts o copied) as (Hp & Hpos & Hw). cbv zeta in *.
  set (p := (Z.of_nat o + Z.of_nat copied) / Z.of_nat PAGE_SIZE) in *.
  set (within := Z.to_nat ((Z.of_nat o + Z.of_nat copied) mod Z.of_nat PAGE_SIZE)) in *.
  destruct (resident_spec c st p Hc Hne Hp) as (c1 & st1 & res & -> & Hc1 & Hne1 & Hok). cbn [mbind option_bind].
  destruct res as [i|e].
  2:{ eexists _, _, _, _. split; [done|]. by split_and!. }
  destruct (Hok i eq_refl) as (s & Hs & Hshow). destruct (use_lookup i c1 s Hs) as (s' & Hs' & (_ & _ & Hd & Hn & Hv)).
  rewrite Hs'. cbn [mbind option_bind].
  assert (Hshow' : shows s' p) by (destruct Hshow as (? & ? & ? & ?); unfold shows; rewrite Hd, Hn, Hv; by split_and!).
  pose proof (coherent_use i c1 Hc1) as Hcu.
  assert (Hnu : slots (use i c1) ≠ []) by (intros Hnil; by rewrite Hnil in Hs').
  set (count := Nat.min _ _) in *.
  assert (Hcount : count = Nat.min (length (page_of (files k) p) - within) (length out0 - copied)).
  { unfold count. rewrite Hlen. f_equal. f_equal. apply Hshow'. }
  destruct (turn_progress _ _ _ _ _ p within count Hpr Hpos Hw Hcount) as (_ & Hcopy & Hpr' & Hdone).
  pose proof (proj2 (proj2 (proj2 Hshow'))) as Hpl.
  destruct (Nat.eqb_spec count 0) as [Hz|Hnz].
  { eexists _, _, _, _. split; [done|]. split_and!; [done..|]. intros ? [= <-]. specialize (Hdone (or_introl Hz)).
    destruct Hpr. split; [lia|done]. }
  unfold copy_out. rewrite (shown_piece s' p within count Hshow') by (done || (unfold count; lia)). cbn [mbind option_bind].
  rewrite Hcopy. cbn [mbind option_bind]. destruct (Nat.ltb_spec (plength s') PAGE_SIZE) as [Hshort|Hfull].
  - eexists _, _, _, _. split; [done|]. split_and!; [done..|by eapply progress_length|]. intros ? [= <-].
    rewrite Hpl in Hshort. specialize (Hdone (or_intror Hshort)). destruct Hpr'. split; [lia|done].
  - apply IH; [done..|lia].
Qed.

(** *** With the cache unlocked during the load *)

(** Whatever the other CPUs do keeps the cache coherent. *)
Definition harmless (env : PageCache → PageCache) : Prop :=
  ∀ c, coherent c → slots c ≠ [] → coherent (env c) ∧ slots (env c) ≠ [].

Lemma publish_spec c p buf n e :
  coherent c → slots c ≠ [] → length buf = PAGE_SIZE → n = length (page_of (files k) p) →
  take n buf = page_of (files k) p →
  ∃ c' res, publish_loaded_page c k p buf n e = Some (c', res) ∧ coherent c' ∧ slots c' ≠ [].
Proof.
  intros Hc Hne Hb Hn Ht. unfold publish_loaded_page. destruct (_ || _) eqn:Hbad; [by eexists _, _|].
  destruct (negb _); [by eexists _, _|].
  assert (Hi : ∃ i s, match position (holds_page k p) (slots c) with Some i => Some i | None => page_victim c end = Some i
                      ∧ slots c !! i = Some s).
  { destruct (position _ (slots c)) as [i|] eqn:E; [|by apply page_victim_Some].
    apply position_lookup in E as (s & Hs & _). eauto. }
  destruct Hi as (i & s & Hi & Hs). rewrite Hi. cbn [mbind option_bind]. rewrite Hs. cbn [mbind option_bind].
  set (c1 := if _ && _ then evict c else c). assert (Hc1 : slots c1 = slots c) by (unfold c1; by destruct (_ && _)).
  eexists _, _. split; [done|]. rewrite Hc1. split.
  - apply Forall_insert; [by apply coherent_age|]. intros _. pose proof (page_of_length (files k) p).
    cbn [pdata plength key page]. split_and!; [rewrite length_app, length_take, length_replicate; lia| |done].
    rewrite take_app_length'; [done|]. rewrite length_take. lia.
  - cbn. intros Hnil%(f_equal length). rewrite length_insert, length_fmap in Hnil. by destruct (slots c).
Qed.

Lemma sub_window (out : list Z) copied chunk :
  (copied + chunk ≤ length out)%nat → sub out copied chunk = Some (take chunk (drop copied out)).
Proof. intros H. unfold sub. by rewrite (proj2 (Nat.leb_le _ _)). Qed.

(** Copying into a window of the buffer and putting the window back is copying into it. *)
Lemma copy_window (out piece : list Z) copied chunk :
  (copied + chunk ≤ length out)%nat → (length piece ≤ chunk)%nat →
  copy_at 0 piece (take chunk (drop copied out)) = Some (piece ++ drop (length piece) (take chunk (drop copied out))) ∧
  copy_at copied (piece ++ drop (length piece) (take chunk (drop copied out))) out = copy_at copied piece out.
Proof.
  intros H1 H2. assert (Hw : length (take chunk (drop copied out)) = chunk) by (rewrite length_take, length_drop; lia).
  assert (Hl : length (piece ++ drop (length piece) (take chunk (drop copied out))) = chunk)
    by (rewrite length_app, length_drop, Hw; lia).
  unfold copy_at. rewrite Hw, Hl. rewrite !(proj2 (Nat.leb_le _ _)) by lia. cbn [take app]. split; [done|].
  do 2 f_equal. rewrite <-app_assoc. f_equal. set (l := drop (copied + length piece) out).
  assert (H3 : drop (copied + chunk) out = drop (chunk - length piece) l) by (unfold l; rewrite drop_drop; f_equal; lia).
  rewrite H3, skipn_firstn_comm, drop_drop. fold l. apply take_drop.
Qed.

(** What one page of the request gives: the next bytes of the file, or an error. *)
Definition page_read (o : nat) (out0 : list Z) (copied : nat)
    (r : option (PageCache * T * list Z * result (nat * nat) Error)) : Prop :=
  ∃ c' st' out res, r = Some (c', st', out, res) ∧ coherent c' ∧ slots c' ≠ [] ∧ length out = length out0 ∧
    ∀ count len, res = Ok (count, len) → progress (files k) o out0 out (copied + count) ∧
      (count = 0%nat ∨ (len < PAGE_SIZE)%nat → (copied + count)%nat = Nat.min (length out0) (length (files k) - o)).

Lemma disk_page_spec env c st o out0 out copied p within :
  coherent c → slots c ≠ [] → harmless env → progress (files k) o out0 out copied → 0 ≤ p →
  (Z.to_nat p * PAGE_SIZE + within = o + copied)%nat → (within < PAGE_SIZE)%nat →
  page_read o out0 copied
    (disk_page load env c st k p within copied (Nat.min (PAGE_SIZE - within) (length out - copied)) out).
Proof.
  intros Hc Hne Henv Hpr Hp Hpos Hw. pose proof (progress_length _ _ _ _ _ Hpr) as Hlen.
  set (chunk := Nat.min _ _). unfold disk_page. rewrite sub_window by (destruct Hpr; unfold chunk; lia). cbn [mbind option_bind].
  assert (Hcl : (copied + chunk ≤ length out)%nat) by (destruct Hpr; unfold chunk; lia).
  pose proof (page_of_length (files k) p) as Hmax.
  set (count := Nat.min (length (page_of (files k) p) - within) (length out0 - copied)).
  assert (Hcc : count = Nat.min (length (page_of (files k) p) - within) chunk) by (unfold count, chunk; lia).
  destruct (turn_progress _ _ _ _ _ p within count Hpr Hpos Hw eq_refl) as (Hpl & Hcopy & Hpr' & Hdone).
  set (piece := take count (drop within (page_of (files k) p))) in *.
  destruct (copy_window out piece copied chunk Hcl ltac:(lia)) as [Hin Hback].
  unfold read_cached_page. destruct (position _ (slots c)) as [i|] eqn:E.
  - apply position_lookup in E as (s & Hs & (Hv & Hpg & Hk)%holds_page_true).
    pose proof (proj1 (Forall_lookup _ _) Hc i s Hs Hv) as (H1 & H2 & H3). rewrite Hk, Hpg in H2, H3.
    destruct (use_lookup i (hit c) s Hs) as (s' & Hs' & (_ & _ & Hd & Hn & Hv')). rewrite Hs'. cbn [mbind option_bind].
    assert (Hshow : shows s' p) by (unfold shows; rewrite Hd, Hn, Hv'; by split_and!).
    assert (Hcnt : Nat.min (plength s' - within) (length (take chunk (drop copied out))) = count).
    { rewrite length_take, length_drop, Hn, H3, Hcc. lia. }
    rewrite Hcnt. unfold copy_out. rewrite (shown_piece s' p within count Hshow) by (done || lia). cbn [mbind option_bind].
    fold piece. rewrite Hin. cbn [mbind option_bind]. rewrite Hback, Hcopy. cbn [mbind option_bind].
    eexists _, _, _, _. split; [done|]. split_and!; [by apply coherent_use| |by eapply progress_length|].
    + intros Hnil. by rewrite Hnil in Hs'.
    + intros ? ? [= <- <-]. split; [done|]. rewrite Hn, H3. exact Hdone.
  - cbn [mbind option_bind]. destruct (Henv (miss c) Hc Hne) as [Hc1 Hne1]. set (c1 := env (miss c)) in *. clearbody c1.
    pose proof (Hload st p Hp) as Hl. destruct (load st _ _) as [[st' buf] res]. destruct Hl as [Hb Hok].
    assert (Hfail : ∀ c' e, coherent c' → slots c' ≠ [] → page_read o out0 copied (Some (c', st', out, Err e))).
    { intros c' e ? ?. eexists _, _, _, _. split; [done|]. by split_and!. }
    destruct res as [n|e]; [|by apply Hfail]. case_match; [by apply Hfail|]. destruct (Hok n eq_refl) as [Hn Ht].
    destruct (publish_spec c1 p buf n (epoch (miss c)) Hc1 Hne1 Hb Hn Ht) as (c2 & pub & -> & Hc2 & Hne2).
    cbn [mbind option_bind]. destruct pub as [[]|e]; [|by apply Hfail..].
    assert (Hshow : shows (mkSlot k p buf n true 0) p) by (by split_and!).
    replace (Nat.min (n - within) chunk) with count by (rewrite Hn; lia).
    pose proof (shown_piece _ p within count Hshow Hw ltac:(cbn [plength]; lia)) as Hpiece. cbn [pdata] in Hpiece.
    rewrite Hpiece. cbn [mbind option_bind]. fold piece. rewrite Hcopy.
    cbn [mbind option_bind]. eexists _, _, _, _. split; [done|]. split_and!; [done..|by eapply progress_length|].
    intros ? ? [= <- <-]. split; [done|]. rewrite Hn. exact Hdone.
Qed.

Lemma disk_loop_spec fuel env c st o out0 out copied :
  coherent c → slots c ≠ [] → (∀ n, harmless (env n)) → progress (files k) o out0 out copied →
  (length out0 - copied < fuel)%nat →
  reads o out0 (disk_loop load fuel env c st k (Z.of_nat o) out copied).
Proof.
  revert c st out copied. induction fuel as [|fuel IH]; intros c st out copied Hc Hne Henv Hpr Hf; [lia|].
  cbn [disk_loop]. pose proof (progress_length _ _ _ _ _ Hpr) as Hlen. destruct (Nat.leb_spec (length out) copied) as [Hend|Hmore].
  { eexists _, _, _, _. split; [done|]. split_and!; [done..|]. intros ? [= <-]. destruct Hpr. split; [lia|done]. }
  destruct (position_parts o copied) as (Hp & Hpos & Hw). cbv zeta in *.
  destruct (disk_page_spec (env fuel) c st o out0 out copied _ _ Hc Hne (Henv fuel) Hpr Hp Hpos Hw)
    as (c1 & st1 & out1 & res & -> & Hc1 & Hne1 & Hl1 & Hok). cbn [mbind option_bind].
  destruct res as [[count len]|e]; [|eexists _, _, _, _; split; [done|]; by split_and!].
  destruct (Hok count len eq_refl) as [Hpr1 Hdone].
  destruct (Nat.eqb_spec count 0) as [Hz|Hnz]; cbn [orb].
  - eexists _, _, _, _. split; [done|]. split_and!; [done..|]. intros ? [= <-]. specialize (Hdone (or_introl Hz)). destruct Hpr1. done.
  - destruct (Nat.ltb_spec len PAGE_SIZE) as [Hs|Hs].
    + eexists _, _, _, _. split; [done|]. split_and!; [done..|]. intros ? [= <-]. specialize (Hdone (or_intror Hs)). destruct Hpr1. done.
    + apply IH; [done..|]. destruct Hpr1. lia.
Qed.

End reading.

End coherence.

(** ** Claims *)

(** Reading through the page cache is reading the file. With a loader that returns
    the file's pages when it succeeds, a cache whose pages are the file's, and any request:
    [read] returns without panicking, keeps the cache coherent, and when it returns [Ok n],
    [n] is the number of bytes of the request that exist in the file and the first [n] bytes
    of the buffer are exactly those, the rest of the buffer being untouched. *)
Theorem page_cache_read_exact {T} (files : list Z → list Z)
    (load : T → Z → list Z → T * list Z * result nat Error) (k : list Z) (c : PageCache) (st : T) (o : nat) (out : list Z) :
  faithful files load k → coherent files c →
  ∃ c' st' out' res, read load c st k (Z.of_nat o) out = Some (c', st', out', res) ∧ coherent files c' ∧
    length out' = length out ∧
    ∀ n, res = Ok n → n = Nat.min (length out) (length (files k) - o) ∧ out' = take n (drop o (files k)) ++ drop n out.
Proof.
  intros Hl Hc. unfold read. destruct (bad_read _ _ _ _) eqn:Hbad.
  { eexists _, _, _, _. split; [done|]. by split_and!. }
  unfold bad_read in Hbad. reflect_bools. assert (Hne : slots c ≠ []) by (intros Hnil; by rewrite Hnil in *).
  destruct (read_loop_spec files load k Hl (2 + length out) c st o out out 0 Hc Hne) as (c' & st' & out' & res & H' & ? & _ & ? & ?).
  - split; [by rewrite take_0, drop_0|lia..].
  - lia.
  - exists c', st', out', res. by split_and!.
Qed.

(** [read_disk_file] returns file contents under interference. While the cache is
    unlocked for the physical read the other CPUs may invalidate it, publish other pages or
    evict, as long as what they publish is coherent; the call still returns, keeps the cache
    coherent, and on [Ok n] has put exactly the existing bytes of the request into the buffer
    and left the rest alone. *)
Theorem read_disk_file_exact {T} (files : list Z → list Z)
    (load : T → Z → list Z → T * list Z * result nat Error) (path : list Z) (mounted present : bool)
    (env : nat → PageCache → PageCache) (c : PageCache) (st : T) (o : nat) (out : list Z) :
  faithful files load path → (∀ n, harmless files (env n)) → coherent files c →
  ∃ c' st' out' res, read_disk_file load mounted present env c st path (Z.of_nat o) out = Some (c', st', out', res) ∧
    coherent files c' ∧ length out' = length out ∧
    ∀ n, res = Ok n → n = Nat.min (length out) (length (files path) - o) ∧ out' = take n (drop o (files path)) ++ drop n out.
Proof.
  intros Hl Henv Hc. unfold read_disk_file.
  assert (Hfail : ∀ e : Error, ∃ c' st' out' res, Some (c, st, out, @Err nat Error e) = Some (c', st', out', res) ∧
    coherent files c' ∧ length out' = length out ∧ ∀ n, res = Ok n →
      n = Nat.min (length out) (length (files path) - o) ∧ out' = take n (drop o (files path)) ++ drop n out).
  { intros e. eexists _, _, _, _. split; [done|]. by split_and!. }
  destruct (negb mounted); [apply Hfail|]. destruct (negb (starts_with _ _)); [apply Hfail|].
  destruct (negb present); [apply Hfail|]. unfold validate_read. destruct (bad_read _ _ _ _) eqn:Hbad; [apply Hfail|].
  unfold bad_read in Hbad. reflect_bools. assert (Hne : slots c ≠ []) by (intros Hnil; by rewrite Hnil in *).
  destruct (disk_loop_spec files load path Hl (2 + length out) env c st o out out 0 Hc Hne Henv)
    as (c' & st' & out' & res & H' & ? & _ & ? & ?).
  - split; [by rewrite take_0, drop_0|lia..].
  - lia.
  - exists c', st', out', res. by split_and!.
Qed.

(** *** A file of 4107 bytes *)
Definition sample_path : list Z := bytes "/mnt/a".
Definition sample_file : list Z := replicate PAGE_SIZE 1 ++ replicate 11 2.
Definition sample_files (k : list Z) : list Z := if bool_decide (k = sample_path) then sample_file else [].

Definition sample_load (st : unit) (offset : Z) (buf : list Z) : unit * list Z * result nat Error :=
  let piece := take PAGE_SIZE (drop (Z.to_nat offset) sample_file) in
  (st, piece ++ drop (length piece) buf, Ok (length piece)).

Lemma sample_faithful : faithful sample_files sample_load sample_path.
Proof.
  intros st p Hp. unfold sample_load. cbv zeta.
  assert (Hf : sample_files sample_path = sample_file) by (unfold sample_files; by rewrite bool_decide_true).
  assert (Hpg : take PAGE_SIZE (drop (Z.to_nat (p * Z.of_nat PAGE_SIZE)) sample_file) = page_of (sample_files sample_path) p).
  { unfold page_of. rewrite Hf. do 2 f_equal. rewrite Z2Nat.inj_mul by lia. by rewrite Nat2Z.id. }
  rewrite Hpg. pose proof (page_of_length (sample_files sample_path) p). split.
  - rewrite length_app, length_drop, length_replicate. lia.
  - intros n [= <-]. split; [done|]. by rewrite take_app_length.
Qed.

Lemma new_coherent files n : coherent files (pages_new n).
Proof. apply Forall_replicate. intros [=]. Qed.

Lemma page_cache_read_exact_witness :
  ∃ c' out', read sample_load (pages_new 2) tt sample_path 4088 (replicate 32 0) = Some (c', tt, out', Ok 19%nat)
    ∧ out' = replicate 8 1 ++ replicate 11 2 ++ replicate 13 0.
Proof.
  destruct (page_cache_read_exact sample_files sample_load sample_path (pages_new 2) tt 4088 (replicate 32 0)
    sample_faithful (new_coherent _ 2)) as (c' & [] & out' & res & Hr & _ & _ & Hok).
  assert (Hres : res = Ok 19%nat).
  { assert (Hv : snd <$> read sample_load (pages_new 2) tt sample_path 4088 (replicate 32 0) = Some (Ok 19%nat)) by (vm_compute; reflexivity).
    change (Z.of_nat 4088) with 4088 in Hr. rewrite Hr in Hv. by injection Hv as ->. }
  subst res. exists c', out'. destruct (Hok 19%nat eq_refl) as [_ ->]. split; [exact Hr|vm_compute; reflexivity].
Defined.

(** Another CPU reads a page that is resident. *)
Definition other_reader (n : nat) (c : PageCache) : PageCache := use 0 (hit c).

Lemma other_reader_harmless n : harmless sample_files (other_reader n).
Proof.
  intros c Hc Hne. split; [by apply coherent_use|]. unfold other_reader, use. cbn [slots set_slots hit].
  intros Hnil%(f_equal length). rewrite length_alter, length_fmap in Hnil. by destruct (slots c).
Qed.

Lemma read_disk_file_exact_witness :
  ∃ c' out', read_disk_file sample_load true true other_reader (pages_new 2) tt sample_path 4088 (replicate 32 0)
      = Some (c', tt, out', Ok 19%nat)
    ∧ out' = replicate 8 1 ++ replicate 11 2 ++ replicate 13 0.
Proof.
  destruct (read_disk_file_exact sample_files sample_load sample_path true true other_reader (pages_new 2) tt 4088
    (replicate 32 0) sample_faithful other_reader_harmless (new_coherent _ 2)) as (c' & [] & out' & res & Hr & _ & _ & Hok).
  assert (Hres : res = Ok 19%nat).
  { assert (Hv : snd <$> read_disk_file sample_load true true other_reader (pages_new 2) tt sample_path 4088 (replicate 32 0)
      = Some (Ok 19%nat)) by (vm_compute; reflexivity).
    change (Z.of_nat 4088) with 4088 in Hr. rewrite Hr in Hv. by injection Hv as ->. }
  subst res. exists c', out'. destruct (Hok 19%nat eq_refl) as [_ ->]. split; [exact Hr|vm_compute; reflexivity].
Defined.

End PagesProofs.
