(* ===== verification/Heap.v ===== *)
(** * The kernel heap (kernel/src/heap.rs)

    [HeapState]: a bump pointer with an address-ordered, coalescing free list whose nodes
    live in the freed spans, and a 32-byte header in front of every allocation. The
    mapped memory is a map from the addresses of 8-byte words to their values; all the
    allocator's accesses are to aligned words. [grow_begin] and [grow_finish] are the two
    halves of [grow_one_chunk], between which other CPUs run. [None] is a panic or an
    exhausted walk; address 0 is the null pointer. *)
From stdpp Require Import gmap.
From S2P Require Import Prelude.
Module Heap.

Definition START : Z := 0x444450000000.
Definition MIN_SIZE : Z := 256 * 1024.
Definition MAX_BOOT_SIZE : Z := 8 * 1024 * 1024.
Definition MAX_SIZE : Z := 64 * 1024 * 1024 * 1024.
Definition PAGE_SIZE : Z := 4096.
Definition GROW_CHUNK : Z := 256 * 1024.
Definition LOW_WATER : Z := 1024 * 1024.

Definition HEADER_MAGIC : Z := 0x5748484541504C49.
Definition METADATA_ALIGN : Z := 8.
Definition HEADER_SIZE : Z := 32.
Definition FREE_NODE_SIZE : Z := 16.

Record AllocHeader := mkHeader {
  magic : Z;
  block_start : Z;
  block_size : Z;
  requested_size : Z
}.

Record FreeNode := mkNode {
  nsize : Z;
  nnext : Z
}.

Record Placement := mkPlacement {
  payload : Z;
  pend : Z
}.

(** [core::alloc::Layout] *)
Record Layout := mkLayout {
  lsize : Z;
  lalign : Z
}.

#[export] Instance Layout_eq_dec : EqDecision Layout.
Proof. solve_decision. Defined.

Inductive InitError := Paging | AlreadyInitialized | AddressOverflow.

#[export] Instance InitError_eq_dec : EqDecision InitError.
Proof. solve_decision. Defined.

(** The heap's fields and the memory behind it. *)
Record HeapState := mkHeap {
  start : Z;
  hend : Z;
  next : Z;
  total_allocations : Z;
  total_allocated_bytes : Z;
  free_bytes : Z;
  free_head : Z;
  mem : gmap Z Z
}.

Definition empty (m : gmap Z Z) : HeapState := mkHeap 0 0 0 0 0 0 0 m.

Definition set_mem (m : gmap Z Z) (h : HeapState) : HeapState :=
  mkHeap (start h) (hend h) (next h) (total_allocations h) (total_allocated_bytes h) (free_bytes h) (free_head h) m.
Definition set_head (a : Z) (h : HeapState) : HeapState :=
  mkHeap (start h) (hend h) (next h) (total_allocations h) (total_allocated_bytes h) (free_bytes h) a (mem h).
Definition set_next (a : Z) (h : HeapState) : HeapState :=
  mkHeap (start h) (hend h) a (total_allocations h) (total_allocated_bytes h) (free_bytes h) (free_head h) (mem h).
Definition set_counts (n b f : Z) (h : HeapState) : HeapState :=
  mkHeap (start h) (hend h) (next h) n b f (free_head h) (mem h).

(** A 64-bit word of memory. *)
Definition word (m : gmap Z Z) (a : Z) : Z := default 0 (m !! a).

(** ** Initialisation and growth *)
Definition bad_size (size : Z) : bool :=
  negb ((MIN_SIZE <=? size) && (size <=? MAX_BOOT_SIZE)) || negb (size mod PAGE_SIZE =? 0).

Definition init_at (h : HeapState) (a size : Z) : HeapState * result () InitError :=
  if negb (start h =? 0) then (h, Err AlreadyInitialized)
  else if bad_size size || negb (a mod PAGE_SIZE =? 0) then (h, Err AddressOverflow)
  else match checked_add64 a size with
  | None => (h, Err AddressOverflow)
  | Some e =>
      (mkHeap a e a (total_allocations h) (total_allocated_bytes h) size (free_head h) (mem h), Ok ())
  end.

Definition init (h : HeapState) (size : Z) : HeapState * result () InitError :=
  if negb (start h =? 0) then (h, Err AlreadyInitialized)
  else if bad_size size then (h, Err AddressOverflow)
  else init_at h START size.

(** The boot size: a sixteenth of the remaining frames, clamped and rounded to pages. *)
Definition boot_size (frames : Z) : Z :=
  let budget := Z.min (frames * PAGE_SIZE) u64_max / 16 in
  Z.land (Z.max MIN_SIZE (Z.min budget MAX_BOOT_SIZE)) (not64 (PAGE_SIZE - 1)).

Definition extend_mapped (h : HeapState) (size : Z) : HeapState * bool :=
  if (start h =? 0) || (size =? 0) || negb (size mod PAGE_SIZE =? 0) then (h, false)
  else match checked_add64 (hend h) size with
  | None => (h, false)
  | Some new_end =>
      if MAX_SIZE <? new_end - start h then (h, false)
      else (mkHeap (start h) new_end (next h) (total_allocations h) (total_allocated_bytes h)
              (free_bytes h + size) (free_head h) (mem h), true)
  end.

(** ** Placement *)
Definition align_up (value alignment : Z) : option Z :=
  if (alignment =? 0) || negb (is_power_of_two alignment) then None
  else (λ address, Z.land address (not64 (alignment - 1))) <$> checked_add64 value (alignment - 1).

Definition place (a : Z) (l : Layout) : option Placement :=
  header_end ← checked_add64 a HEADER_SIZE;
  payload ← align_up header_end (Z.max (lalign l) METADATA_ALIGN);
  last ← checked_add64 payload (Z.max (lsize l) 1);
  e ← align_up last METADATA_ALIGN;
  Some (mkPlacement payload e).

(** ** The free list in memory *)
Definition read_free (m : gmap Z Z) (a : Z) : FreeNode := mkNode (word m a) (word m (a + 8)).

Definition write_free (a : Z) (n : FreeNode) (h : HeapState) : HeapState :=
  set_mem (<[a + 8 := nnext n]> (<[a := nsize n]> (mem h))) h.

Definition link_after (previous next_ : Z) (h : HeapState) : HeapState :=
  if previous =? 0 then set_head next_ h
  else
    let node := read_free (mem h) previous in
    write_free previous (mkNode (nsize node) next_) h.

Definition read_header (m : gmap Z Z) (a : Z) : AllocHeader :=
  mkHeader (word m a) (word m (a + 8)) (word m (a + 16)) (word m (a + 24)).

Definition write_header (a : Z) (x : AllocHeader) (m : gmap Z Z) : gmap Z Z :=
  <[a + 24 := requested_size x]> (<[a + 16 := block_size x]> (<[a + 8 := block_start x]> (<[a := magic x]> m))).

Definition record_allocation (bstart e p : Z) (l : Layout) (h : HeapState) : HeapState * Z :=
  let header := mkHeader HEADER_MAGIC bstart (e - bstart) (lsize l) in
  let h := set_mem (write_header (p - HEADER_SIZE) header (mem h)) h in
  (set_counts (total_allocations h + 1) (total_allocated_bytes h + lsize l) (free_bytes h - (e - bstart)) h, p).

(** ** Allocation *)

(** First fit over the free list: the outer option is the walk's fuel. *)
Fixpoint alloc_walk (fuel : nat) (l : Layout) (previous current : Z) (h : HeapState)
    : option (HeapState * option Z) :=
  match fuel with
  | O => None
  | S fuel =>
      if current =? 0 then Some (h, None)
      else
        let node := read_free (mem h) current in
        match checked_add64 current (nsize node) with
        | None => Some (h, None)
        | Some block_end =>
            match place current l with
            | Some p =>
                if pend p <=? block_end then
                  let remaining := block_end - pend p in
                  let e := if remaining <? FREE_NODE_SIZE then block_end else pend p in
                  let h :=
                    if e <? block_end
                    then link_after previous e (write_free e (mkNode (block_end - e) (nnext node)) h)
                    else link_after previous (nnext node) h in
                  let '(h, pointer) := record_allocation current e (payload p) l h in
                  Some (h, Some pointer)
                else alloc_walk fuel l current (nnext node) h
            | None => alloc_walk fuel l current (nnext node) h
            end
        end
  end.

(** A free span takes at least 16 bytes, so the list has at most this many nodes. *)
Definition walk_fuel (h : HeapState) : nat := S (Z.to_nat ((next h - start h) / FREE_NODE_SIZE)).

Definition alloc_from_free (h : HeapState) (l : Layout) : option (HeapState * option Z) :=
  alloc_walk (walk_fuel h) l 0 (free_head h) h.

Definition alloc (h : HeapState) (l : Layout) : option (HeapState * Z) :=
  if start h =? 0 then Some (h, 0)
  else
    found ← alloc_from_free h l;
    match found with
    | (h, Some pointer) => Some (h, pointer)
    | (h, None) =>
        match place (next h) l with
        | None => Some (h, 0)
        | Some p =>
            if hend h <? pend p then Some (h, 0)
            else Some (record_allocation (next h) (pend p) (payload p) l (set_next (pend p) h))
        end
    end.

(** ** Deallocation *)

(** The walk of [insert_free]: the two nodes before [a] and the first one at or after it. *)
Fixpoint insert_walk (fuel : nat) (m : gmap Z Z) (a before_previous previous current : Z) : option (Z * Z * Z) :=
  match fuel with
  | O => None
  | S fuel =>
      if negb (current =? 0) && (current <? a)
      then insert_walk fuel m a previous current (nnext (read_free m current))
      else Some (before_previous, previous, current)
  end.

Definition insert_free (a size : Z) (h : HeapState) : option HeapState :=
  let e := a + size in
  walked ← insert_walk (walk_fuel h) (mem h) a 0 0 (free_head h);
  let '(before_previous, previous, current) := walked in
  let '(merged_size, merged_next) :=
    if negb (current =? 0) && (e =? current)
    then let node := read_free (mem h) current in (size + nsize node, nnext node)
    else (size, current) in
  let '(merged_start, merged_size, merged_previous) :=
    if negb (previous =? 0) then
      let node := read_free (mem h) previous in
      if previous + nsize node =? a
      then (previous, merged_size + nsize node, before_previous)
      else (a, merged_size, previous)
    else (a, merged_size, previous) in
  if merged_size <? FREE_NODE_SIZE then None
  else if merged_start + merged_size =? next h
  then Some (link_after merged_previous merged_next (set_next merged_start h))
  else Some (link_after merged_previous merged_start (write_free merged_start (mkNode merged_size merged_next) h)).

Definition dealloc (h : HeapState) (ptr : Z) (l : Layout) : option HeapState :=
  if (ptr <? saturating_add64 (start h) HEADER_SIZE) || (next h <=? ptr) then Some h
  else
    let header := read_header (mem h) (ptr - HEADER_SIZE) in
    if negb (magic header =? HEADER_MAGIC) || negb (requested_size header =? lsize l)
       || (block_start header <? start h) || (next h <=? block_start header)
       || (next h - block_start header <? block_size header)
    then Some h
    else
      let h := set_mem (<[ptr - HEADER_SIZE := 0]> (mem h)) h in
      let h := set_counts (saturating_sub (total_allocations h) 1)
                 (saturating_sub (total_allocated_bytes h) (requested_size header))
                 (free_bytes h + block_size header) h in
      insert_free (block_start header) (block_size header) h.

Record Stats := mkStats {
  s_start : Z; s_size : Z; s_allocated_bytes : Z; s_free_bytes : Z; s_allocations : Z
}.

Definition stats (h : HeapState) : Stats :=
  mkStats START (saturating_sub (hend h) (start h)) (total_allocated_bytes h) (free_bytes h) (total_allocations h).

(** ** Growth: [GROW_OWNER] and the two locked sections of [grow_one_chunk] *)
Inductive GrowthStep := Grew | Busy | Failed.

#[export] Instance GrowthStep_eq_dec : EqDecision GrowthStep.
Proof. solve_decision. Defined.

(** [GrowthClaim::acquire]: the owner word holds the claiming CPU's number plus one. *)
Definition acquire (owner cpu : Z) : Z * result () Z :=
  if owner =? 0 then (cpu + 1, Ok ()) else (owner, Err owner).

(** Up to the call of [map_range]: the claim and the chunk [(end, size)] to map, or an
    early return, which drops the claim. *)
Definition grow_begin (owner cpu : Z) (h : HeapState) : Z * result (Z * Z) GrowthStep :=
  match acquire owner cpu with
  | (_, Err o) => (owner, Err (if o =? cpu + 1 then Failed else Busy))
  | (claimed, Ok _) =>
      if (start h =? 0) || (hend h =? 0) then (0, Err Failed)
      else match checked_add64 (start h) MAX_SIZE with
      | None => (0, Err Failed)
      | Some limit =>
          let size := Z.min (saturating_sub limit (hend h)) GROW_CHUNK in
          if size =? 0 then (0, Err Failed) else (claimed, Ok (hend h, size))
      end
  end.

(** From the answer of [map_range] on; both assertions are [None]. The claim is dropped. *)
Definition grow_finish (mapped : bool) (snapshot size : Z) (h : HeapState) : option (HeapState * GrowthStep) :=
  if negb mapped then Some (h, Failed)
  else if negb (hend h =? snapshot) then None
  else match extend_mapped h size with
  | (h, true) => Some (h, Grew)
  | (_, false) => None
  end.

(** The allocator's globals: the locked heap, [GROW_OWNER] and [GROW_PRESSURE]. *)
Record Globals := mkGlobals {
  gheap : HeapState;
  gowner : Z;
  gpressure : bool
}.

Definition set_gheap (h : HeapState) (g : Globals) : Globals := mkGlobals h (gowner g) (gpressure g).
Definition raise (b : bool) (g : Globals) : Globals := mkGlobals (gheap g) (gowner g) (gpressure g || b).
Definition set_pressure (b : bool) (g : Globals) : Globals := mkGlobals (gheap g) (gowner g) b.

Section growth.
(** [map_range(end, size)]'s answers, the CPU, and how a wait for another CPU's growth
    ends: with the globals that CPU left, or in the timeout. *)
Context (map_range : Z → Z → bool) (cpu : Z) (wait : Globals → option Globals).

(** Both halves with no other CPU in between. *)
Definition grow_one_chunk (g : Globals) : option (Globals * GrowthStep) :=
  match grow_begin (gowner g) cpu (gheap g) with
  | (o, Err r) => Some (mkGlobals (gheap g) o (gpressure g), r)
  | (_, Ok (e, size)) =>
      match grow_finish (map_range e size) e size (gheap g) with
      | Some (h, r) => Some (mkGlobals h 0 (gpressure g), r)
      | None => None
      end
  end.

(** [low_water]: the condition that raises the flag for the idle task. *)
Definition low_water (h : HeapState) : bool :=
  (free_bytes h <? LOW_WATER) || (saturating_sub (hend h) (next h) <? LOW_WATER).

(** Could the request ever fit at the tail? *)
Definition feasible (h : HeapState) (l : Layout) : bool :=
  negb (start h =? 0) &&
  match checked_add64 (start h) MAX_SIZE with
  | Some limit => match place (next h) l with Some p => pend p <=? limit | None => false end
  | None => false
  end.

Fixpoint growth_loop (turns : nat) (l : Layout) (g : Globals) : option (Globals * Z) :=
  match turns with
  | O => Some (g, 0)
  | S turns =>
      allocated ← alloc (gheap g) l;
      let '(h, pointer) := allocated in
      let g := set_gheap h g in
      if negb (pointer =? 0) then Some (raise (low_water h) g, pointer)
      else
        grown ← grow_one_chunk g;
        match grown with
        | (g, Grew) => growth_loop turns l g
        | (g, Failed) => Some (g, 0)
        | (g, Busy) => match wait g with Some g => growth_loop turns l g | None => Some (g, 0) end
        end
  end.

Definition alloc_with_growth (l : Layout) (g : Globals) : option (Globals * Z) :=
  if negb (feasible (gheap g) l) then Some (g, 0)
  else growth_loop (Z.to_nat (MAX_SIZE / GROW_CHUNK)) l g.

(** [GlobalAlloc::alloc]; [pager_entry] is [irq_lock::pager_entry_allowed()]. *)
Definition tracked_alloc (pager_entry : bool) (l : Layout) (g : Globals) : option (Globals * Z) :=
  allocated ← alloc (gheap g) l;
  let '(h, pointer) := allocated in
  let g := raise (low_water h) (set_gheap h g) in
  if negb (pointer =? 0) then Some (g, pointer)
  else if negb pager_entry then Some (raise true g, 0)
  else alloc_with_growth l g.

(** One of the four turns of [maintain_capacity]; [raced] is the heap as the recheck finds it
    and [true] a [return]. *)
Definition maintain_turn (raced : HeapState → HeapState) (g : Globals) : option (Globals * bool) :=
  let h := gheap g in
  let tail := saturating_sub (hend h) (next h) in
  if (LOW_WATER <=? tail) && (LOW_WATER <=? free_bytes h) || (MAX_SIZE <=? saturating_sub (hend h) (start h)) then
    let g := set_gheap (raced h) (set_pressure false g) in
    let h := gheap g in
    Some (raise (low_water h && (saturating_sub (hend h) (start h) <? MAX_SIZE)) g, true)
  else
    grown ← grow_one_chunk g;
    match grown with
    | (g, Grew) => Some (g, false)
    | (g, Busy) => Some (g, true)
    | (g, Failed) => Some (set_pressure false g, true)
    end.

Fixpoint maintain_loop (turns : nat) (raced : HeapState → HeapState) (g : Globals) : option Globals :=
  match turns with
  | O => Some g
  | S turns =>
      turned ← maintain_turn raced g;
      match turned with
      | (g, true) => Some g
      | (g, false) => maintain_loop turns raced g
      end
  end.

Definition maintain_capacity (pager_entry : bool) (raced : HeapState → HeapState) (g : Globals) : option Globals :=
  if negb (cpu =? 0) || negb (gpressure g) || negb pager_entry then Some g
  else maintain_loop 4 raced g.

End growth.

End Heap.

(** * Proofs about the kernel heap

    The heap is described by the list of its tiles, free spans and allocated blocks in
    address order, which cover [start, next) without gaps. [seg] ties the tiles to the
    words in memory: the free list threads the free tiles and every block has its header. *)
Module HeapProofs.
Import Heap.

(** ** Placement *)
Definition layout_ok (l : Layout) : Prop :=
  0 ≤ lsize l ∧ is_power_of_two (lalign l) = true ∧ lalign l ≤ u64_max.

Lemma pow_divide_le a b x :
  is_power_of_two a = true → is_power_of_two b = true → a ≤ b → x mod b = 0 → x mod a = 0.
Proof.
  intros (j & Hj & ->)%is_power_of_two_pow (k & Hk & ->)%is_power_of_two_pow Hle Hx.
  apply Z.pow_le_mono_r_iff in Hle; [|lia..].
  apply Z.mod_divide in Hx; [|pose proof (Z.pow_pos_nonneg 2 k); lia].
  apply Z.mod_divide; [pose proof (Z.pow_pos_nonneg 2 j); lia|].
  etrans; [|done]. exists (2 ^ (k - j)). rewrite <-Z.pow_add_r by lia. f_equal. lia.
Qed.

Lemma heap_align_up_spec v a r :
  0 ≤ v → a ≤ u64_max → align_up v a = Some r → v ≤ r < v + a ∧ r mod a = 0 ∧ is_power_of_two a = true.
Proof.
  unfold align_up. intros Hv Ha. case_match eqn:E; [done|]. apply orb_false_iff in E as [_ E]. apply negb_false_iff in E.
  unfold checked_add64. case_match eqn:E'; [|done]. apply Z.leb_le in E'. intros [= <-].
  pose proof (land_round_up v a Hv E Ha E') as [??]. done.
Qed.

Lemma place_spec a l p :
  0 ≤ a → layout_ok l → place a l = Some p →
  a + HEADER_SIZE ≤ payload p ∧ payload p mod lalign l = 0 ∧ payload p mod 8 = 0 ∧
  payload p + Z.max (lsize l) 1 ≤ pend p ∧ pend p mod 8 = 0.
Proof.
  intros Ha (Hs & Hp & Hmax). unfold place. destruct (checked_add64 a HEADER_SIZE) as [h|] eqn:Eh; [|done].
  unfold checked_add64 in Eh. case_match; [|done]. injection Eh as <-. cbn [mbind option_bind].
  unfold HEADER_SIZE, METADATA_ALIGN in *.
  destruct (align_up _ (Z.max _ _)) as [q|] eqn:Eq; [|done]. apply heap_align_up_spec in Eq as (Hq & Hqm & Hpw); [|lia|unfold u64_max in *; lia].
  cbn [mbind option_bind]. destruct (checked_add64 q _) as [t|] eqn:Et; [|done]. unfold checked_add64 in Et. case_match; [|done]. injection Et as <-.
  cbn [mbind option_bind]. destruct (align_up _ 8) as [e|] eqn:Ee; [|done]. apply heap_align_up_spec in Ee as (He & Hem & _); [|lia|done].
  intros [= <-]. cbn [payload pend]. split_and!; [lia|..|lia|done].
  - eapply pow_divide_le; [done| |..|exact Hqm]; [done|lia].
  - eapply (pow_divide_le 8); [done| |..|exact Hqm]; [done|lia].
Qed.

(** ** Tiles *)
Record Block := mkBlock {
  bstart : Z;
  bsize : Z;
  bptr : Z;
  blay : Layout
}.

Inductive tile := Free (s n : Z) | Used (b : Block).

#[export] Instance Block_eq_dec : EqDecision Block.
Proof. solve_decision. Defined.
#[export] Instance tile_eq_dec : EqDecision tile.
Proof. solve_decision. Defined.

Definition tstart (t : tile) : Z := match t with Free s _ => s | Used b => bstart b end.
Definition tsize (t : tile) : Z := match t with Free _ n => n | Used b => bsize b end.

Definition block_ok (b : Block) : Prop :=
  bstart b + HEADER_SIZE ≤ bptr b ∧ bptr b + Z.max (lsize (blay b)) 1 ≤ bstart b + bsize b ∧
  bptr b mod lalign (blay b) = 0 ∧ bptr b mod 8 = 0 ∧ layout_ok (blay b).

Definition tile_ok (t : tile) : Prop :=
  FREE_NODE_SIZE ≤ tsize t ∧ tstart t mod 8 = 0 ∧ tsize t mod 8 = 0 ∧
  match t with Free _ _ => True | Used b => block_ok b end.

Fixpoint tiled (a : Z) (ts : list tile) (b : Z) : Prop :=
  match ts with
  | [] => a = b
  | t :: ts => tstart t = a ∧ tile_ok t ∧ tiled (a + tsize t) ts b
  end.

(** The blocks, and the sums the heap's counters keep. *)
Definition block_of (t : tile) : option Block := match t with Free _ _ => None | Used b => Some b end.
Definition blocks (ts : list tile) : list Block := omap block_of ts.

Fixpoint free_sum (ts : list tile) : Z :=
  match ts with
  | [] => 0
  | Free _ n :: ts => n + free_sum ts
  | Used _ :: ts => free_sum ts
  end.

Fixpoint size_sum (bs : list Block) : Z :=
  match bs with [] => 0 | b :: bs => lsize (blay b) + size_sum bs end.

(** No two free tiles touch: [coal p ts] for tiles after a free one ([p]) or not. *)
Fixpoint coal (p : bool) (ts : list tile) : Prop :=
  match ts with
  | [] => True
  | Free _ _ :: ts => p = false ∧ coal true ts
  | Used _ :: ts => coal false ts
  end.
Fixpoint ends (p : bool) (ts : list tile) : bool :=
  match ts with
  | [] => p
  | Free _ _ :: ts => ends true ts
  | Used _ :: ts => ends false ts
  end.

(** The last two free tiles: [before_previous] and [previous] of the walks. *)
Fixpoint back (bp p : Z) (ts : list tile) : Z * Z :=
  match ts with
  | [] => (bp, p)
  | Free s _ :: ts => back p s ts
  | Used _ :: ts => back bp p ts
  end.

Definition header_at (m : gmap Z Z) (b : Block) : Prop :=
  read_header m (bptr b - HEADER_SIZE) = mkHeader HEADER_MAGIC (bstart b) (bsize b) (lsize (blay b)).

(** The free list from [hd] through the free tiles of [ts] to [tl]. *)
Fixpoint seg (m : gmap Z Z) (hd : Z) (ts : list tile) (tl : Z) : Prop :=
  match ts with
  | [] => hd = tl
  | Used b :: ts => header_at m b ∧ seg m hd ts tl
  | Free s n :: ts => hd = s ∧ word m s = n ∧ seg m (word m (s + 8)) ts tl
  end.

(** *** Concatenation *)
Lemma tiled_app a ts us b : tiled a (ts ++ us) b ↔ ∃ c, tiled a ts c ∧ tiled c us b.
Proof.
  revert a. induction ts as [|t ts IH]; intros a; simpl.
  - split; [intros H; by exists a|by intros (c & -> & H)].
  - rewrite IH. split; [intros (? & ? & c & ? & ?); by exists c|intros (c & (? & ? & ?) & ?); eauto].
Qed.

Lemma tiled_le a ts b : tiled a ts b → a ≤ b.
Proof.
  revert a. induction ts as [|t ts IH]; intros a; simpl; [lia|]. intros (_ & [Hsz _] & H). apply IH in H.
  unfold FREE_NODE_SIZE in *. lia.
Qed.

Lemma tiled_elem a ts b t : tiled a ts b → t ∈ ts → tile_ok t ∧ a ≤ tstart t ∧ tstart t + tsize t ≤ b.
Proof.
  intros H (ts1 & ts2 & ->)%list_elem_of_split. apply tiled_app in H as (c & H1 & Hs & Hok & H2).
  apply tiled_le in H1, H2. split; [done|]. lia.
Qed.

Lemma tiled_disjoint a ts1 t ts2 t' b :
  tiled a (ts1 ++ t :: ts2) b → t' ∈ ts1 ++ ts2 →
  tstart t' + tsize t' ≤ tstart t ∨ tstart t + tsize t ≤ tstart t'.
Proof.
  intros H Hin. apply tiled_app in H as (c & H1 & <- & Hok & H2). apply elem_of_app in Hin as [Hin|Hin].
  - left. destruct (tiled_elem _ _ _ _ H1 Hin) as (_ & _ & ?). lia.
  - right. destruct (tiled_elem _ _ _ _ H2 Hin) as (_ & ? & _). lia.
Qed.

Lemma blocks_app ts us : blocks (ts ++ us) = blocks ts ++ blocks us.
Proof. apply omap_app. Qed.

Lemma elem_of_blocks b ts : b ∈ blocks ts ↔ Used b ∈ ts.
Proof.
  unfold blocks. rewrite list_elem_of_omap. split; [|by eexists].
  intros (t & Ht & He). destruct t; simplify_eq/=. done.
Qed.

Lemma free_sum_app ts us : free_sum (ts ++ us) = free_sum ts + free_sum us.
Proof. induction ts as [|[] ts IH]; simpl; lia. Qed.

Lemma free_sum_nonneg a ts b : tiled a ts b → 0 ≤ free_sum ts.
Proof.
  revert a. induction ts as [|t ts IH]; intros a; [done|]. cbn [tiled]. intros (_ & [Ht _] & Hts). apply IH in Hts.
  unfold FREE_NODE_SIZE in Ht. destruct t; cbn [free_sum tsize] in *; lia.
Qed.

Lemma size_sum_app bs cs : size_sum (bs ++ cs) = size_sum bs + size_sum cs.
Proof. induction bs as [|b bs IH]; simpl; lia. Qed.

Lemma coal_app p ts us : coal p (ts ++ us) ↔ coal p ts ∧ coal (ends p ts) us.
Proof. revert p. induction ts as [|[] ts IH]; intros p; simpl; [tauto|rewrite IH; tauto|apply IH]. Qed.

Lemma ends_app p ts us : ends p (ts ++ us) = ends (ends p ts) us.
Proof. revert p. induction ts as [|[] ts IH]; intros p; simpl; [done|apply IH..]. Qed.

Lemma back_app bp p ts us : back bp p (ts ++ us) = back (back bp p ts).1 (back bp p ts).2 us.
Proof. revert bp p. induction ts as [|[] ts IH]; intros bp p; simpl; [done|apply IH..]. Qed.

Lemma seg_app m hd ts us tl : seg m hd (ts ++ us) tl ↔ ∃ c, seg m hd ts c ∧ seg m c us tl.
Proof.
  revert hd. induction ts as [|[s n|b] ts IH]; intros hd; simpl.
  - split; [intros H; by exists hd|by intros (c & -> & H)].
  - rewrite IH. split; [intros (? & ? & c & ? & ?); by exists c|intros (c & (? & ? & ?) & ?); eauto].
  - rewrite IH. split; [intros (? & c & ? & ?); by exists c|intros (c & (? & ?) & ?); eauto].
Qed.

(** *** What the segment depends on: the nodes and the headers *)
Definition meta (t : tile) (x : Z) : Prop :=
  match t with
  | Free s _ => x = s ∨ x = s + 8
  | Used b => bptr b - HEADER_SIZE ≤ x < bptr b
  end.

Lemma meta_inside t x : tile_ok t → meta t x → tstart t ≤ x < tstart t + tsize t.
Proof.
  unfold tile_ok, block_ok, FREE_NODE_SIZE. destruct t as [s n|b]; cbn [meta tstart tsize]; lia.
Qed.

Lemma header_frame m m' b :
  (∀ x, bptr b - HEADER_SIZE ≤ x < bptr b → word m' x = word m x) → header_at m b → header_at m' b.
Proof.
  unfold header_at, read_header, HEADER_SIZE. intros H Hh. by rewrite !H by lia.
Qed.

Lemma seg_frame m m' hd ts tl :
  (∀ t x, t ∈ ts → meta t x → word m' x = word m x) → seg m hd ts tl → seg m' hd ts tl.
Proof.
  revert hd. induction ts as [|[s n|b] ts IH]; intros hd H; cbn [seg]; [done|..].
  - intros (-> & Hw & Hs). rewrite (H (Free s n) s), (H (Free s n) (s + 8)) by (cbn; set_solver).
    split_and!; [done..|]. apply IH; [|done]. intros t x Ht. apply H. set_solver.
  - intros (Hb & Hs). split.
    + eapply header_frame; [|done]. intros x Hx. apply (H (Used b)); [set_solver|done].
    + apply IH; [|done]. intros t x Ht. apply H. set_solver.
Qed.

(** Memory that agrees on the span of the tiles carries the same segment. *)
Lemma seg_frame_span m m' a ts b hd tl :
  tiled a ts b → (∀ x, a ≤ x < b → word m' x = word m x) → seg m hd ts tl → seg m' hd ts tl.
Proof.
  intros Ht H. apply seg_frame. intros t x Hin Hx. apply H.
  pose proof (tiled_elem _ _ _ _ Ht Hin) as (Hok & ? & ?). pose proof (meta_inside t x Hok Hx). lia.
Qed.

Lemma word_insert m a v x : word (<[a := v]> m) x = if decide (x = a) then v else word m x.
Proof. unfold word. case_decide; [subst; by rewrite lookup_insert_eq|by rewrite lookup_insert_ne]. Qed.

Ltac words := repeat (rewrite word_insert; case_decide); try lia; try done.

(** The address of a node in the walk is that of a free tile. *)
Lemma back_free a ts b :
  tiled a ts b → (back 0 0 ts).2 = 0 ∧ (∀ s n, Free s n ∉ ts) ∨
    ∃ ts1 n ts2, ts = ts1 ++ Free (back 0 0 ts).2 n :: ts2 ∧ (∀ s n, Free s n ∉ ts2) ∧ a ≤ (back 0 0 ts).2.
Proof.
  revert b. induction ts as [|t ts IH] using rev_ind; intros b H; [left; set_solver|].
  apply tiled_app in H as (c & H & <- & Hok & _). rewrite back_app. destruct t as [s n|x]; cbn [back].
  - right. exists ts, n, []. split; [done|]. split; [set_solver|]. by apply tiled_le in H.
  - destruct (IH _ H) as [[Hz Hno]|(ts1 & n & ts2 & He & Hno & Hlt)].
    + left. split; [by destruct (back 0 0 ts)|]. intros s n [Hin|Hin]%elem_of_app; [by eapply Hno|set_solver].
    + right. exists ts1, n, (ts2 ++ [Used x]). split; [|split; [|by destruct (back 0 0 ts)]].
      * destruct (back 0 0 ts) as [q1 q2]. cbn [fst snd] in *. rewrite He. by rewrite <-app_assoc.
      * intros s' n' [Hin|Hin]%elem_of_app; [by eapply Hno|set_solver].
Qed.

Lemma seg_no_free m hd ts tl : (∀ s n, Free s n ∉ ts) → seg m hd ts tl → hd = tl ∧ ∀ x, seg m x ts x.
Proof.
  revert hd. induction ts as [|[s n|b] ts IH]; intros hd Hno; cbn [seg]; [done|..].
  - exfalso. apply (Hno s n). set_solver.
  - intros [? Hs]. apply IH in Hs as [-> Hs]; [done|]. intros s n Hin. apply (Hno s n). set_solver.
Qed.

(** The fields [link_after] and [write_free] leave alone. *)
Definition same_fields (h h' : HeapState) : Prop :=
  start h' = start h ∧ hend h' = hend h ∧ next h' = next h ∧ total_allocations h' = total_allocations h ∧
  total_allocated_bytes h' = total_allocated_bytes h ∧ free_bytes h' = free_bytes h.

(** [link_after] redirects the end of a segment; besides it writes only inside the last
    free tile of the segment. *)
Lemma link_after_spec h a ts b tl next_ :
  0 < a → tiled a ts b → seg (mem h) (free_head h) ts tl →
  let h' := link_after (back 0 0 ts).2 next_ h in
  seg (mem h') (free_head h') ts next_ ∧
  (∀ x, (∀ s n, Free s n ∈ ts → ¬ (s ≤ x < s + n)) → word (mem h') x = word (mem h) x) ∧
  same_fields h h'.
Proof.
  intros Ha Ht Hs. cbv zeta. unfold same_fields. destruct (back_free a ts b Ht) as [[Hz Hno]|(ts1 & n & ts2 & He & Hno & Hle)].
  { rewrite Hz. unfold link_after. rewrite Z.eqb_refl. apply seg_no_free in Hs as [_ Hs]; [|done]. by split_and!. }
  set (p := (back 0 0 ts).2) in *. clearbody p. subst ts. unfold link_after. rewrite (proj2 (Z.eqb_neq p 0)) by lia.
  cbn [write_free set_mem mem free_head nnext nsize read_free start hend next total_allocations total_allocated_bytes free_bytes].
  split; [|split; [|done]].
  - apply tiled_app in Ht as (c & H1 & <- & Hok & H2). cbn [tstart tsize] in *.
    apply seg_app in Hs as (c & Hs1 & -> & Hw & Hs2). apply seg_app. exists p.
    unfold tile_ok, FREE_NODE_SIZE in Hok. cbn [tsize] in Hok. split.
    + eapply seg_frame_span; [exact H1| |exact Hs1]. intros x Hx. words.
    + cbn [seg]. split_and!; [done|words|]. rewrite word_insert, decide_True by done.
      eapply (seg_frame_span (mem h)); [exact H2|intros x Hx; words|]. by apply seg_no_free in Hs2 as [_ Hs2].
  - intros x Hx. apply tiled_app in Ht as (c & H1 & _ & Hok & H2). unfold tile_ok, FREE_NODE_SIZE in Hok. cbn [tsize] in Hok.
    specialize (Hx p n ltac:(set_solver)). words.
Qed.

(** ** The invariant *)
Record Inv (h : HeapState) (ts : list tile) : Prop := {
  inv_base : 0 < start h ∧ start h mod PAGE_SIZE = 0 ∧ start h + MAX_SIZE ≤ u64_max;
  inv_end : next h ≤ hend h ∧ hend h mod PAGE_SIZE = 0 ∧ hend h ≤ start h + MAX_SIZE ∧ MIN_SIZE ≤ hend h - start h;
  inv_tiled : tiled (start h) ts (next h);
  inv_seg : seg (mem h) (free_head h) ts 0;
  inv_coal : coal false ts ∧ ends false ts = false;
  inv_count : total_allocations h = Z.of_nat (length (blocks ts));
  inv_bytes : total_allocated_bytes h = size_sum (blocks ts);
  inv_free : free_bytes h = hend h - next h + free_sum ts
}.

(** [m'] leaves every word of the blocks [bs] as it was in [m]. *)
Definition keeps (bs : list Block) (m m' : gmap Z Z) : Prop :=
  ∀ b x, b ∈ bs → bstart b ≤ x < bstart b + bsize b → word m' x = word m x.

Lemma mod_page_8 x : x mod PAGE_SIZE = 0 → x mod 8 = 0.
Proof. unfold PAGE_SIZE. intros H. Z.to_euclidean_division_equations; lia. Qed.

Lemma mod_add_8 x y : x mod 8 = 0 → y mod 8 = 0 → (x + y) mod 8 = 0.
Proof. intros. Z.to_euclidean_division_equations; lia. Qed.

Lemma mod_sub_8 x y : x mod 8 = 0 → y mod 8 = 0 → (x - y) mod 8 = 0.
Proof. intros. Z.to_euclidean_division_equations; lia. Qed.

Lemma tiled_mod a ts b : tiled a ts b → a mod 8 = 0 → b mod 8 = 0.
Proof.
  revert a. induction ts as [|t ts IH]; intros a; cbn [tiled]; [by intros ->|].
  intros (<- & (_ & ? & ? & _) & Hts) _. apply (IH _ Hts). by apply mod_add_8.
Qed.

(** The block a placement makes. *)
Lemma placed_ok s l p e :
  0 ≤ s → s mod 8 = 0 → layout_ok l → place s l = Some p → pend p ≤ e → e mod 8 = 0 →
  tile_ok (Used (mkBlock s (e - s) (payload p) l)).
Proof.
  intros Hs Hs8 Hl Hp Hle He. pose proof (place_spec s l p Hs Hl Hp) as (? & ? & ? & ? & ?).
  unfold tile_ok, block_ok, HEADER_SIZE, FREE_NODE_SIZE in *. cbn [tsize tstart bstart bsize bptr blay].
  split_and!; try done; try lia. by apply mod_sub_8.
Qed.

(** [record_allocation] writes the header and nothing else. *)
Lemma record_spec h ts1 us nx b a z :
  tiled a (ts1 ++ Used b :: us) z →
  seg (mem h) (free_head h) ts1 nx → seg (mem h) nx us 0 →
  let r := record_allocation (bstart b) (bstart b + bsize b) (bptr b) (blay b) h in
  r.2 = bptr b ∧ seg (mem r.1) (free_head r.1) (ts1 ++ Used b :: us) 0 ∧
  (∀ x, ¬ (bstart b ≤ x < bstart b + bsize b) → word (mem r.1) x = word (mem h) x).
Proof.
  intros Ht H1 H2. unfold record_allocation. cbv zeta.
  cbn [fst snd set_counts set_mem mem free_head]. unfold write_header. cbn [magic block_start block_size requested_size].
  replace (bstart b + bsize b - bstart b) with (bsize b) by lia.
  set (m' := <[_ := _]> _).
  apply tiled_app in Ht as (c & Ht1 & <- & Hok & Ht2). unfold tile_ok, block_ok, HEADER_SIZE in Hok.
  cbn [tsize tstart] in *. destruct Hok as (_ & _ & _ & ? & ? & _).
  assert (Hout : ∀ x, ¬ (bstart b ≤ x < bstart b + bsize b) → word m' x = word (mem h) x).
  { intros x Hx. unfold m', HEADER_SIZE. words. }
  split_and!; [done| |done]. apply seg_app. exists nx. split.
  - eapply (seg_frame_span (mem h)); [exact Ht1| |exact H1]. intros x Hx. apply Hout. lia.
  - cbn [seg]. split.
    + unfold header_at, read_header, m', HEADER_SIZE. f_equal; words.
    + eapply (seg_frame_span (mem h)); [exact Ht2| |exact H2]. intros x Hx. apply Hout. lia.
Qed.

(** A new block in the heap, everything else kept. *)
Definition allocated (h : HeapState) (ts : list tile) (l : Layout) (h' : HeapState) (p : Z) : Prop :=
  ∃ ts1 ts2 b ts', blocks ts = blocks ts1 ++ blocks ts2 ∧ blocks ts' = blocks ts1 ++ b :: blocks ts2 ∧
    bptr b = p ∧ blay b = l ∧ Inv h' ts' ∧ keeps (blocks ts) (mem h) (mem h') ∧
    start h' = start h ∧ hend h' = hend h.

Definition fits (s n : Z) (l : Layout) : Prop := ∃ p, place s l = Some p ∧ pend p ≤ s + n.

Lemma coal_weaken ts : coal true ts → coal false ts.
Proof. destruct ts as [|[] ts]; cbn [coal]; tauto. Qed.

Lemma ends_weaken ts : ends true ts = false → ends false ts = false.
Proof. destruct ts as [|[] ts]; done. Qed.

(** Words of the blocks lie outside a free tile, and outside the tile in the middle. *)
Lemma block_outside a ts1 t ts2 z b x :
  tiled a (ts1 ++ t :: ts2) z → b ∈ blocks (ts1 ++ ts2) → bstart b ≤ x < bstart b + bsize b →
  ¬ (tstart t ≤ x < tstart t + tsize t).
Proof.
  intros Ht Hb%elem_of_blocks Hx. pose proof (tiled_disjoint _ _ _ _ _ _ Ht Hb) as Hd. cbn [tstart tsize] in Hd. lia.
Qed.

Lemma block_not_free a ts z b s n x :
  tiled a ts z → Free s n ∈ ts → b ∈ blocks ts → bstart b ≤ x < bstart b + bsize b → ¬ (s ≤ x < s + n).
Proof.
  intros Ht (ts1 & ts2 & ->)%list_elem_of_split Hb. apply (block_outside _ _ (Free s n) _ _ _ _ Ht).
  rewrite !blocks_app in *. done.
Qed.

(** The common end of both ways to carve a block out of a free tile. *)
Lemma carve_finish h h1 ts1 s n ts2 nx rest e p l :
  Inv h (ts1 ++ Free s n :: ts2) → layout_ok l → place s l = Some p → pend p ≤ e → e mod 8 = 0 →
  tiled e rest (s + n) → rest = [] ∨ (∃ n', rest = [Free e n']) →
  seg (mem h1) (free_head h1) ts1 nx → seg (mem h1) nx (rest ++ ts2) 0 → same_fields h h1 →
  keeps (blocks (ts1 ++ ts2)) (mem h) (mem h1) →
  let r := record_allocation s e (payload p) l h1 in
  r.2 = payload p ∧ allocated h (ts1 ++ Free s n :: ts2) l r.1 (payload p).
Proof.
  intros [Hb He Ht Hs [Hc Hends] Hn Hby Hf] Hl Hp Hpe He8 Hrest Hshape Hs1 Hs2 (E1 & E2 & E3 & E4 & E5 & E6) Hk r.
  pose proof Ht as Ht'. apply tiled_app in Ht' as (c & Ht1 & <- & Hfree & Ht2). cbn [tstart tsize] in *.
  pose proof (tiled_le _ _ _ Hrest) as Hle. pose proof (tiled_le _ _ _ Ht1) as Hle1.
  set (b := mkBlock s (e - s) (payload p) l).
  assert (Hbok : tile_ok (Used b)) by (apply placed_ok; [lia|apply Hfree|done..]).
  assert (Hnew : tiled (start h) (ts1 ++ Used b :: rest ++ ts2) (next h)).
  { apply tiled_app. exists s. split; [done|]. cbn [tiled tstart tsize bstart bsize b]. split_and!; [done..|].
    replace (s + (e - s)) with e by lia. apply tiled_app. by exists (s + n). }
  pose proof (record_spec h1 ts1 (rest ++ ts2) nx b _ _ Hnew Hs1 Hs2) as (Hr & Hseg & Hout).
  cbn [b bstart bsize bptr blay] in Hr, Hseg, Hout. replace (s + (e - s)) with e in Hr, Hseg, Hout by lia.
  split; [done|]. exists ts1, ts2, b, (ts1 ++ Used b :: rest ++ ts2).
  assert (Hbl : blocks (ts1 ++ Used b :: rest ++ ts2) = blocks ts1 ++ b :: blocks ts2).
  { rewrite blocks_app. cbn [blocks omap list_omap block_of]. rewrite blocks_app. by destruct Hshape as [->|[n' ->]]. }
  assert (Hbl0 : blocks (ts1 ++ Free s n :: ts2) = blocks ts1 ++ blocks ts2) by (by rewrite blocks_app).
  split_and!; [done..| | | |].
  - apply coal_app in Hc as [Hc1 [Hc2 Hc3]]. rewrite ends_app in Hends. cbn [ends] in Hends.
    assert (Hfs : free_sum rest = s + n - e).
    { destruct Hshape as [->|[n' ->]]; cbn [tiled free_sum tsize] in *; [lia|]. destruct Hrest as (_ & _ & <-). lia. }
    split; subst r; unfold record_allocation;
      cbn [fst start hend next total_allocations total_allocated_bytes free_bytes set_counts set_mem];
      rewrite ?E1, ?E2, ?E3, ?E4, ?E5, ?E6; try done.
    + split; [apply coal_app|rewrite ends_app]; cbn [coal ends].
      * split; [done|]. destruct Hshape as [->|[n' ->]]; [by apply coal_weaken|done].
      * destruct Hshape as [->|[n' ->]]; [by apply ends_weaken|done].
    + rewrite Hbl, Hn, Hbl0, !length_app. cbn [length]. lia.
    + rewrite Hbl, Hby, Hbl0, !size_sum_app. cbn [size_sum b blay]. lia.
    + rewrite Hf, !free_sum_app. cbn [free_sum]. rewrite free_sum_app. lia.
  - intros b' x Hb' Hx. rewrite Hbl0, <-blocks_app in Hb'. subst r. rewrite Hout; [by eapply Hk|].
    pose proof (block_outside _ _ _ _ _ _ _ Ht Hb' Hx) as Hn'. cbn [tstart tsize] in Hn'. lia.
  - subst r. unfold record_allocation. done.
  - subst r. unfold record_allocation. done.
Qed.

(** What [link_after] writes lies in free tiles, so the blocks keep their words. *)
Lemma link_keeps h a ts b ts0 tl next_ :
  0 < a → tiled a (ts ++ ts0) b → seg (mem h) (free_head h) ts tl →
  keeps (blocks (ts ++ ts0)) (mem h) (mem (link_after (back 0 0 ts).2 next_ h)).
Proof.
  intros Ha Ht Hs b' x Hb Hx. pose proof Ht as Ht'. apply tiled_app in Ht' as (c & Ht1 & _).
  pose proof (link_after_spec h a ts c tl next_ Ha Ht1 Hs) as (_ & Hw & _). apply Hw.
  intros s n Hin. eapply block_not_free; [exact Ht| |done..]. set_solver.
Qed.

Lemma carve_spec h ts1 s n ts2 p l :
  Inv h (ts1 ++ Free s n :: ts2) → layout_ok l → place s l = Some p → pend p ≤ s + n →
  let e := if s + n - pend p <? FREE_NODE_SIZE then s + n else pend p in
  let previous := (back 0 0 ts1).2 in
  let nx := word (mem h) (s + 8) in
  let h1 := if e <? s + n then link_after previous e (write_free e (mkNode (s + n - e) nx) h)
            else link_after previous nx h in
  let r := record_allocation s e (payload p) l h1 in
  r.2 = payload p ∧ allocated h (ts1 ++ Free s n :: ts2) l r.1 (payload p).
Proof.
  intros HI Hl Hp Hfit e previous nx h1. pose proof HI as [Hb He Ht Hs _ _ _ _].
  pose proof Ht as Ht'. apply tiled_app in Ht' as (c & Ht1 & <- & Hfree & Ht2). cbn [tstart tsize] in *.
  pose proof (tiled_le _ _ _ Ht1) as Hle1. pose proof Hfree as (Hn & Hs8 & Hn8 & _). cbn [tstart tsize] in Hn, Hs8, Hn8.
  pose proof (place_spec s l p ltac:(lia) Hl Hp) as (Hpp & _ & _ & Hpp' & Hpe8). unfold HEADER_SIZE, FREE_NODE_SIZE in *.
  apply seg_app in Hs as (c & Hs1 & -> & Hw & Hs2). fold nx in Hs2.
  assert (Hout : ∀ b x, b ∈ blocks (ts1 ++ ts2) → bstart b ≤ x < bstart b + bsize b → ¬ (s ≤ x < s + n)).
  { intros b x Hbb Hx. exact (block_outside _ _ _ _ _ _ _ Ht Hbb Hx). }
  subst h1 e. destruct (Z.ltb_spec (s + n - pend p) 16) as [Hrem|Hrem].
  - rewrite Z.ltb_irrefl. pose proof (link_after_spec h _ ts1 s s nx (proj1 Hb) Ht1 Hs1) as (Hl1 & Hl2 & Hl3).
    eapply (carve_finish h _ ts1 s n ts2 nx []); try done.
    + by apply mod_add_8.
    + by left.
    + eapply (seg_frame_span (mem h)); [exact Ht2| |exact Hs2]. intros x Hx. apply Hl2.
      intros s' n' Hin. pose proof (tiled_elem _ _ _ _ Ht1 Hin) as (_ & _ & Hb'). cbn [tstart tsize] in Hb'. lia.
    + intros b x Hbb Hx. apply Hl2. intros s' n' Hin. eapply (block_not_free _ _ _ _ s' n' _ Ht); [set_solver| |done].
      rewrite blocks_app in *. done.
  - rewrite (proj2 (Z.ltb_lt (pend p) (s + n))) by lia. set (e := pend p) in *.
    set (h0 := write_free e _ h).
    assert (Hm0 : ∀ x, ¬ (s ≤ x < s + n) → word (mem h0) x = word (mem h) x).
    { intros x Hx. unfold h0, write_free. cbn [mem set_mem nnext nsize]. words. }
    assert (Hs0 : seg (mem h0) (free_head h0) ts1 s).
    { eapply (seg_frame_span (mem h)); [exact Ht1| |exact Hs1]. intros x Hx. apply Hm0. lia. }
    pose proof (link_after_spec h0 _ ts1 s s e (proj1 Hb) Ht1 Hs0) as (Hl1 & Hl2 & Hl3).
    assert (Hbeyond : ∀ x, s ≤ x → word (mem (link_after previous e h0)) x = word (mem h0) x).
    { intros x Hx. apply Hl2. intros s' n' Hin. pose proof (tiled_elem _ _ _ _ Ht1 Hin) as (_ & _ & Hb'). cbn [tstart tsize] in Hb'. lia. }
    eapply (carve_finish h _ ts1 s n ts2 e [Free e (s + n - e)]); try done.
    + cbn [tiled tstart tsize]. split_and!; [done| |lia]. unfold tile_ok, FREE_NODE_SIZE. cbn [tstart tsize].
      split_and!; [lia|done| |done]. apply mod_sub_8; [by apply mod_add_8|done].
    + right. by eexists.
    + assert (word (mem h0) e = s + n - e ∧ word (mem h0) (e + 8) = nx) as [Hn1 Hn2].
      { unfold h0, write_free. cbn [mem set_mem nnext nsize]. split; words. }
      cbn [app seg]. rewrite !Hbeyond, Hn1, Hn2 by lia. split_and!; [done..|].
      eapply (seg_frame_span (mem h)); [exact Ht2| |exact Hs2]. intros x Hx. rewrite Hbeyond by lia. apply Hm0. lia.
    + intros b x Hbb Hx. transitivity (word (mem h0) x); [|apply Hm0; by eapply Hout].
      apply Hl2. intros s' n' Hin. eapply (block_not_free _ _ _ _ s' n' _ Ht); [set_solver| |done].
      rewrite blocks_app in *. done.
Qed.

(** The number of free tiles bounds the walks. *)
Definition free_count (ts : list tile) : nat := count_if (λ t, match t with Free _ _ => true | _ => false end) ts.

Lemma free_count_app ts us : free_count (ts ++ us) = (free_count ts + free_count us)%nat.
Proof. unfold free_count, count_if. by rewrite filter_app, length_app. Qed.

Lemma free_count_bound a ts b : tiled a ts b → Z.of_nat (free_count ts) * FREE_NODE_SIZE ≤ b - a.
Proof.
  revert a. induction ts as [|t ts IH]; intros a; [cbn; lia|]. cbn [tiled]. intros (_ & [Hsz _] & Hts). apply IH in Hts.
  unfold free_count, FREE_NODE_SIZE in *. rewrite count_if_cons. destruct t; cbn [Nat.b2n tsize] in *; lia.
Qed.

Lemma walk_fuel_enough h ts : Inv h ts → (free_count ts < walk_fuel h)%nat.
Proof.
  intros HI. pose proof (free_count_bound _ _ _ (inv_tiled _ _ HI)). unfold walk_fuel, FREE_NODE_SIZE in *.
  assert (Z.of_nat (free_count ts) ≤ (next h - start h) / 16); [|lia]. apply Z.div_le_lower_bound; lia.
Qed.

(** First fit: the first free tile that holds the request is carved, or none does. *)
Lemma alloc_walk_spec fuel l h ts1 ts2 c :
  Inv h (ts1 ++ ts2) → layout_ok l → (free_count ts2 < fuel)%nat →
  seg (mem h) (free_head h) ts1 c → seg (mem h) c ts2 0 →
  (alloc_walk fuel l (back 0 0 ts1).2 c h = Some (h, None) ∧ ∀ s n, Free s n ∈ ts2 → ¬ fits s n l) ∨
  ∃ h' p, alloc_walk fuel l (back 0 0 ts1).2 c h = Some (h', Some p) ∧ allocated h (ts1 ++ ts2) l h' p.
Proof.
  intros HI Hl. revert fuel ts1 c HI. induction ts2 as [|[s n|b] ts2 IH]; intros fuel ts1 c HI Hfuel Hs1 Hs2.
  - destruct fuel as [|fuel]; [lia|]. cbn [seg] in Hs2. subst c. left. split; [done|]. set_solver.
  - destruct fuel as [|fuel]; [lia|]. unfold free_count in Hfuel. rewrite count_if_cons in Hfuel. cbn [Nat.b2n] in Hfuel.
    pose proof (inv_tiled _ _ HI) as Ht. pose proof (inv_base _ _ HI) as (Hb & _ & Hbu). pose proof (inv_end _ _ HI) as (He & _ & He').
    pose proof (tiled_elem _ _ _ (Free s n) Ht ltac:(set_solver)) as (_ & Hlo & Hhi). cbn [tstart tsize] in Hlo, Hhi.
    destruct Hs2 as (-> & Hw & Hs2). cbn [alloc_walk]. rewrite (proj2 (Z.eqb_neq s 0)) by lia.
    cbn [read_free nsize nnext]. rewrite Hw. unfold checked_add64. rewrite (proj2 (Z.leb_le (s + n) u64_max)) by lia.
    assert (Hnext : ¬ fits s n l → ∀ r, r = alloc_walk fuel l s (word (mem h) (s + 8)) h →
      (r = Some (h, None) ∧ ∀ s' n', Free s' n' ∈ Free s n :: ts2 → ¬ fits s' n' l) ∨
      ∃ h' p, r = Some (h', Some p) ∧ allocated h (ts1 ++ Free s n :: ts2) l h' p).
    { intros Hno r ->. specialize (IH fuel (ts1 ++ [Free s n]) (word (mem h) (s + 8))).
      rewrite <-app_assoc in IH. cbn [app] in IH. rewrite back_app in IH. cbn [back snd] in IH.
      destruct IH as [[H1 H2]|H]; [done|unfold free_count; lia| |done| |by right].
      - apply seg_app. exists s. split; [done|]. by cbn [seg].
      - left. split; [done|]. intros s' n' [[= -> ->]|Hin]%elem_of_cons; [done|by apply H2]. }
    destruct (place s l) as [p|] eqn:Hp; [|apply Hnext; [|done]; by intros (p & Hp' & _); rewrite Hp in Hp'].
    destruct (Z.leb_spec (pend p) (s + n)) as [Hfit|Hfit].
    + right. pose proof (carve_spec h ts1 s n ts2 p l HI Hl Hp Hfit) as Hcarve. cbv zeta in Hcarve.
      destruct (record_allocation _ _ _ _ _) as [h' q] eqn:Er. destruct Hcarve as [Hq Ha]. cbn [fst snd] in Hq, Ha. subst q.
      by exists h', (payload p).
    + apply Hnext; [|done]. intros (p' & Hp' & Hle). rewrite Hp in Hp'. injection Hp' as <-. lia.
  - destruct Hs2 as [Hh Hs2]. specialize (IH fuel (ts1 ++ [Used b]) c). rewrite <-app_assoc in IH. cbn [app] in IH.
    rewrite back_app in IH. cbn [back] in IH. destruct (back 0 0 ts1) as [bp pv] eqn:Eb. cbn [fst snd] in *.
    destruct IH as [[H1 H2]|H]; [done|done| |done| |by right].
    + apply seg_app. exists c. split; [done|]. by cbn [seg].
    + left. split; [done|]. intros s' n' [[=]|Hin]%elem_of_cons. by apply H2.
Qed.

Lemma alloc_spec h ts l :
  Inv h ts → layout_ok l →
  ∃ h' p, alloc h l = Some (h', p) ∧
    (p = 0 ∧ h' = h ∧ ¬ fits (next h) (hend h - next h) l ∧ (∀ s n, Free s n ∈ ts → ¬ fits s n l) ∨
     p ≠ 0 ∧ allocated h ts l h' p).
Proof.
  intros HI Hl. pose proof HI as [(Hb & Hb' & Hb3) He Ht Hs [Hc Hends] Hn Hby Hf]. pose proof (tiled_le _ _ _ Ht) as Hle.
  unfold alloc. rewrite (proj2 (Z.eqb_neq (start h) 0)) by lia.
  assert (Hnz : ∀ h' p, allocated h ts l h' p → p ≠ 0).
  { intros h' p (ts1 & ts2 & b & ts' & _ & Hbl & <- & _ & HI' & _ & E & _).
    assert (Hin : Used b ∈ ts') by (apply elem_of_blocks; rewrite Hbl; set_solver).
    pose proof (tiled_elem _ _ _ _ (inv_tiled _ _ HI') Hin) as ((_ & _ & _ & Hok) & Hlo & _).
    unfold block_ok, HEADER_SIZE in Hok. cbn [tstart] in Hlo. lia. }
  destruct (alloc_walk_spec (walk_fuel h) l h [] ts (free_head h) HI Hl (walk_fuel_enough _ _ HI) eq_refl Hs)
    as [[Hw Hno]|(h' & p & Hw & Ha)]; unfold alloc_from_free; cbn [back snd] in Hw; rewrite Hw; cbn [mbind option_bind];
    [|exists h', p; split; [done|]; right; eauto].
  assert (Hfail : ¬ fits (next h) (hend h - next h) l → ∃ h' p, Some (h, 0) = Some (h', p) ∧
    (p = 0 ∧ h' = h ∧ ¬ fits (next h) (hend h - next h) l ∧ (∀ s n, Free s n ∈ ts → ¬ fits s n l) ∨
     p ≠ 0 ∧ allocated h ts l h' p)).
  { intros Hnf. exists h, 0. split; [done|]. by left. }
  destruct (place (next h) l) as [p|] eqn:Hp; [|apply Hfail; intros (? & Hp' & _); congruence].
  destruct (Z.ltb_spec (hend h) (pend p)) as [Hbig|Hfit]; [apply Hfail; intros (? & Hp' & ?); simplify_eq; lia|].
  pose proof (tiled_mod _ _ _ Ht (mod_page_8 _ Hb')) as Hn8.
  pose proof (place_spec (next h) l p ltac:(lia) Hl Hp) as (Hpp & _ & _ & Hpp' & Hpe8). unfold HEADER_SIZE in *.
  set (b := mkBlock (next h) (pend p - next h) (payload p) l).
  assert (Hbok : tile_ok (Used b)) by (apply placed_ok; [lia|done..]).
  assert (Hnew : tiled (start h) (ts ++ [Used b]) (pend p)).
  { apply tiled_app. exists (next h). split; [done|]. cbn [tiled tstart tsize bstart bsize b]. split_and!; [done..|lia]. }
  pose proof (record_spec (set_next (pend p) h) ts [] 0 b _ _ Hnew Hs eq_refl) as (Hr & Hseg & Hout).
  cbn [b bstart bsize bptr blay] in Hr, Hseg, Hout. replace (next h + (pend p - next h)) with (pend p) in Hr, Hseg, Hout by lia.
  destruct (record_allocation _ _ _ _ _) as [h' q] eqn:Er. cbn [fst snd] in Hr, Hseg, Hout. subst q.
  exists h', (payload p). split; [done|]. right. assert (Ha : allocated h ts l h' (payload p)); [|by eauto].
  exists ts, [], b, (ts ++ [Used b]). rewrite blocks_app, app_nil_r. unfold record_allocation in Er. injection Er as <-.
  split_and!; try done.
  - split; cbn [start hend next total_allocations total_allocated_bytes free_bytes set_counts set_mem set_next mem free_head] in *; try done.
    + by split_and!; [lia|apply He..].
    + split; [by apply coal_app|by rewrite ends_app].
    + rewrite blocks_app, length_app. cbn [blocks omap list_omap block_of length]. lia.
    + rewrite blocks_app, size_sum_app. cbn [blocks omap list_omap block_of size_sum b blay]. lia.
    + rewrite free_sum_app. cbn [free_sum]. lia.
  - intros b' x Hb2 Hx. apply Hout. apply elem_of_blocks in Hb2.
    pose proof (tiled_elem _ _ _ _ Ht Hb2) as (_ & _ & Hhi). cbn [tstart tsize] in Hhi. lia.
Qed.

(** ** Deallocation *)
Lemma insert_walk_spec fuel m a x ts t bp p cur :
  0 < x → tiled x ts a → seg m cur ts t → t = 0 ∨ a ≤ t → (free_count ts < fuel)%nat →
  insert_walk fuel m a bp p cur = Some (back bp p ts, t).
Proof.
  revert fuel x bp p cur. induction ts as [|[s n|b] ts IH]; intros fuel x bp p cur Hx Ht Hs Hend Hfuel; (destruct fuel as [|fuel]; [lia|]).
  - cbn [seg] in Hs. subst cur. cbn [insert_walk back]. destruct (Z.eqb_spec t 0); [done|].
    rewrite (proj2 (Z.ltb_ge t a)) by lia. done.
  - unfold free_count in Hfuel. rewrite count_if_cons in Hfuel. cbn [Nat.b2n] in Hfuel.
    destruct Hs as (-> & Hw & Hs), Ht as (<- & (Hsz & _) & Ht). cbn [tstart tsize] in *. pose proof (tiled_le _ _ _ Ht) as Hle.
    unfold FREE_NODE_SIZE in Hsz. cbn [insert_walk]. rewrite (proj2 (Z.eqb_neq s 0)), (proj2 (Z.ltb_lt s a)) by lia.
    cbn [negb andb back]. eapply (IH fuel (s + n)); [lia|done..|unfold free_count; lia].
  - destruct Hs as (_ & Hs), Ht as (<- & (Hsz & _) & Ht). cbn [tstart tsize back] in *. unfold FREE_NODE_SIZE in Hsz.
    eapply (IH (S fuel) (bstart b + bsize b)); [lia|done..].
Qed.

(** The first node of a segment is its first tile, or lies beyond. *)
Lemma seg_head m c ts x z :
  tiled x ts z → seg m c ts 0 →
  match ts with Free s _ :: _ => c = s ∧ s = x | _ => c = 0 ∨ x < c end.
Proof.
  revert x. induction ts as [|[s n|b] ts IH]; intros x Ht Hs; [by left|..].
  - destruct Ht as [? _], Hs as [-> _]. done.
  - destruct Ht as (<- & (Hsz & _) & Ht), Hs as [_ Hs]. unfold FREE_NODE_SIZE in Hsz. cbn [tstart tsize] in *.
    specialize (IH _ Ht Hs). destruct ts as [|[s n|b'] ts]; lia.
Qed.

Lemma seg_free m hd ts tl s n : seg m hd ts tl → Free s n ∈ ts → word m s = n.
Proof. intros Hs (ts1 & ts2 & ->)%list_elem_of_split. by apply seg_app in Hs as (c & _ & _ & ? & _). Qed.

(** The two merges of [insert_free]: [k] bytes are taken over from the neighbour. *)
Definition right_part (m : gmap Z Z) (current e size : Z) : Z * Z :=
  if negb (current =? 0) && (e =? current)
  then let node := read_free m current in (size + nsize node, nnext node)
  else (size, current).

Definition left_part (m : gmap Z Z) (a before_previous previous merged_size : Z) : Z * Z * Z :=
  if negb (previous =? 0) then
    let node := read_free m previous in
    if previous + nsize node =? a
    then (previous, merged_size + nsize node, before_previous)
    else (a, merged_size, previous)
  else (a, merged_size, previous).

Lemma right_merge m c ts e z size :
  0 < e → tiled e ts z → seg m c ts 0 → coal false ts → ends false ts = false →
  ∃ k us nx, right_part m c e size = (size + k, nx) ∧ 0 ≤ k ∧ k mod 8 = 0 ∧ tiled (e + k) us z ∧ seg m nx us 0 ∧
    blocks us = blocks ts ∧ free_sum ts = k + free_sum us ∧ coal true us ∧ (us = [] ∨ ends true us = false).
Proof.
  intros He Ht Hs Hc Hends. pose proof (seg_head m c ts e z Ht Hs) as Hh. unfold right_part.
  destruct ts as [|[s n|b] ts].
  - exists 0, [], c. rewrite Z.add_0_r. cbn [seg] in Hs. subst c. cbn [negb andb Z.eqb tiled] in *. rewrite Z.add_0_r. by split_and!; [..|left].
  - destruct Hh as [-> ->], Ht as (_ & (Hsz & _ & Hsz8 & _) & Ht), Hs as (_ & Hw & Hs), Hc as [_ Hc].
    cbn [tstart tsize ends] in *. unfold FREE_NODE_SIZE in Hsz. rewrite (proj2 (Z.eqb_neq e 0)), Z.eqb_refl by lia. cbn [negb andb nsize nnext read_free].
    exists n, ts, (word m (e + 8)). rewrite Hw. by split_and!; [..|right]; try done; lia.
  - exists 0, (Used b :: ts), c. rewrite !Z.add_0_r.
    assert (negb (c =? 0) && (e =? c) = false) as ->.
    { destruct Hh as [->|Hlt]; [done|]. rewrite (proj2 (Z.eqb_neq e c)) by lia. apply andb_false_r. }
    by split_and!; [..|right].
Qed.

Lemma left_merge m hd ts c a x size :
  0 < x → tiled x ts a → seg m hd ts c → coal false ts →
  ∃ k vs c', left_part m a (back 0 0 ts).1 (back 0 0 ts).2 size = (a - k, size + k, (back 0 0 vs).2) ∧ 0 ≤ k ∧ k mod 8 = 0 ∧
    tiled x vs (a - k) ∧ seg m hd vs c' ∧ blocks vs = blocks ts ∧ free_sum ts = k + free_sum vs ∧
    coal false vs ∧ ends false vs = false.
Proof.
  intros Hx Ht Hs Hc. unfold left_part. destruct ts as [|t ts _] using rev_ind.
  { exists 0, [], c. cbn [back fst snd]. rewrite Z.sub_0_r, Z.add_0_r. by split_and!. }
  apply tiled_app in Ht as (y & Ht & <- & Hok & Ha). apply seg_app in Hs as (c' & Hs & Hst). pose proof Hok as (Hsz & _ & Hsz8 & _).
  apply coal_app in Hc as [Hc Hct]. rewrite back_app, blocks_app, free_sum_app. unfold FREE_NODE_SIZE in Hsz.
  pose proof (tiled_le _ _ _ Ht) as Hle. destruct t as [s n|b]; cbn [tiled tstart tsize coal seg back fst snd] in *.
  - destruct Hst as (-> & Hw & _), Hct as [Hends _]. rewrite (proj2 (Z.eqb_neq s 0)) by lia. cbn [negb nsize read_free].
    rewrite Hw, (proj2 (Z.eqb_eq _ _) Ha). exists n, ts, s. cbn [free_sum blocks omap list_omap block_of]. rewrite app_nil_r.
    replace (a - n) with s by lia. by split_and!; try done; lia.
  - assert (Hp : negb ((back 0 0 ts).2 =? 0) = true → (back 0 0 ts).2 + word m (back 0 0 ts).2 <> a).
    { intros Hnz. reflect_bools. destruct (back_free _ _ _ Ht) as [[Hz _]|(ts1 & n & ts2 & He & _ & _)]; [done|].
      assert (Hin : Free (back 0 0 ts).2 n ∈ ts) by (rewrite He at 2; set_solver).
      rewrite (seg_free _ _ _ _ _ _ Hs Hin). destruct (tiled_elem _ _ _ _ Ht Hin) as (_ & _ & Hhi). cbn [tstart tsize] in Hhi. lia. }
    exists 0, (ts ++ [Used b]), c'. rewrite back_app, Z.sub_0_r, Z.add_0_r, blocks_app, free_sum_app, ends_app. cbn [back fst snd].
    assert (∀ T (u v w : T), (if negb ((back 0 0 ts).2 =? 0) then if (back 0 0 ts).2 + nsize (read_free m (back 0 0 ts).2) =? a then u else v else w)
      = if negb ((back 0 0 ts).2 =? 0) then v else w) as Hif.
    { intros T u v w. destruct (negb _) eqn:En; [|done]. cbn [nsize read_free]. by rewrite (proj2 (Z.eqb_neq _ _) (Hp eq_refl)). }
    rewrite Hif. split_and!; try done.
    + by destruct (negb _).
    + apply tiled_app. exists (bstart b). split; [done|]. cbn [tiled tstart tsize]. by split_and!.
    + apply seg_app. exists c'. by split; [|split; [apply Hst|]].
    + by apply coal_app.
Qed.

(** [insert_free] makes the block's tile free, merged with its free neighbours, or gives
    it back to the tail. *)
Lemma insert_free_spec h ts1 b ts2 c :
  0 < start h → tiled (start h) (ts1 ++ Used b :: ts2) (next h) →
  seg (mem h) (free_head h) ts1 c → seg (mem h) c ts2 0 →
  coal false (ts1 ++ Used b :: ts2) → ends false (ts1 ++ Used b :: ts2) = false →
  (free_count (ts1 ++ Used b :: ts2) < walk_fuel h)%nat →
  ∃ h' ts', insert_free (bstart b) (bsize b) h = Some h' ∧ blocks ts' = blocks (ts1 ++ ts2) ∧
    tiled (start h) ts' (next h') ∧ seg (mem h') (free_head h') ts' 0 ∧ coal false ts' ∧ ends false ts' = false ∧
    keeps (blocks (ts1 ++ ts2)) (mem h) (mem h') ∧ next h' ≤ next h ∧
    free_sum ts' - next h' = free_sum (ts1 ++ ts2) + bsize b - next h ∧ same_fields (set_next (next h') h) h'.
Proof.
  intros Hb Ht Hs1 Hs2 Hc Hends Hfuel. pose proof Ht as Ht'.
  apply tiled_app in Ht' as (y & Ht1 & <- & Hok & Ht2). apply coal_app in Hc as [Hc1 Hc2]. rewrite ends_app in Hends.
  cbn [coal ends tstart tsize] in *. pose proof Hok as (Hsz & Ha8 & Hsz8 & _). cbn [tstart tsize] in Hsz, Ha8, Hsz8. unfold FREE_NODE_SIZE in Hsz.
  pose proof (tiled_le _ _ _ Ht1) as Hle1. set (a := bstart b) in *. set (n := bsize b) in *.
  destruct (right_merge (mem h) c ts2 (a + n) (next h) n ltac:(lia) Ht2 Hs2 Hc2 Hends)
    as (k & us & nx & Hr & Hk & Hk8 & Htu & Hsu & Hbu & Hfu & Hcu & Heu).
  destruct (left_merge (mem h) (free_head h) ts1 c a (start h) (n + k) Hb Ht1 Hs1 Hc1)
    as (j & vs & c' & Hl & Hj & Hj8 & Htv & Hsv & Hbv & Hfv & Hcv & Hev).
  assert (Hw : insert_walk (walk_fuel h) (mem h) a 0 0 (free_head h) = Some (back 0 0 ts1, c)).
  { eapply insert_walk_spec; [exact Hb|exact Ht1|exact Hs1| |rewrite free_count_app in Hfuel; lia].
    pose proof (seg_head _ _ _ _ _ Ht2 Hs2) as Hh. destruct ts2 as [|[]]; lia. }
  assert (Hbl : blocks (vs ++ us) = blocks (ts1 ++ ts2)) by (rewrite !blocks_app; by rewrite Hbv, Hbu).
  unfold insert_free. rewrite Hw. cbn [mbind option_bind]. rewrite (surjective_pairing (back 0 0 ts1)).
  fold (right_part (mem h) c (a + n) n). rewrite Hr.
  fold (left_part (mem h) a (back 0 0 ts1).1 (back 0 0 ts1).2 (n + k)). rewrite Hl.
  unfold FREE_NODE_SIZE. rewrite (proj2 (Z.ltb_ge (n + k + j) 16)) by lia.
  set (s := a - j) in *. pose proof (tiled_le _ _ _ Htv) as Hles. pose proof (tiled_le _ _ _ Htu) as Hleu.
  assert (Hfs : tile_ok (Free s (n + k + j))).
  { unfold tile_ok, FREE_NODE_SIZE. cbn [tstart tsize]. split_and!; [lia| | |done].
    - by apply mod_sub_8. - apply mod_add_8; [by apply mod_add_8|done]. }
  assert (Hall : tiled (start h) (vs ++ Free s (n + k + j) :: us) (next h)).
  { apply tiled_app. exists s. split; [done|]. cbn [tiled tstart tsize]. split_and!; [done..|]. by replace (s + (n + k + j)) with (a + n + k) by lia. }
  destruct (Z.eqb_spec (s + (n + k + j)) (next h)) as [Hlast|Hmid].
  - assert (us = []) as ->.
    { destruct us as [|t us]; [done|]. destruct Htu as (_ & (? & _) & Htu). apply tiled_le in Htu. unfold FREE_NODE_SIZE in *. lia. }
    cbn [seg] in Hsu. subst nx.
    pose proof (link_after_spec (set_next s h) _ vs s c' 0 Hb Htv Hsv) as (Hl1 & Hl2 & Hl3).
    pose proof Hl3 as (E1 & E2 & E3 & _). cbn [set_next next start hend] in E1, E2, E3. rewrite app_nil_r in Hbl.
    eexists _, vs. split; [done|]. rewrite E3. split_and!; try done.
    + rewrite <-Hbl. rewrite <-(app_nil_r vs) at 1. apply (link_keeps (set_next s h) _ vs s [] c' 0 Hb); [by rewrite app_nil_r|done].
    + lia.
    + rewrite free_sum_app. cbn [free_sum] in *. lia.
  - destruct Heu as [->|Heu]; [cbn [tiled] in Htu; lia|].
    set (h0 := write_free s _ h).
    assert (Hm0 : ∀ x, ¬ (s ≤ x < s + (n + k + j)) → word (mem h0) x = word (mem h) x).
    { intros x Hx. unfold h0, write_free. cbn [mem set_mem nnext nsize]. words. }
    assert (Hs0 : seg (mem h0) (free_head h0) vs c').
    { eapply (seg_frame_span (mem h)); [exact Htv| |exact Hsv]. intros x Hx. apply Hm0. lia. }
    pose proof (link_after_spec h0 _ vs s c' s Hb Htv Hs0) as (Hl1 & Hl2 & Hl3).
    set (h1 := link_after _ s h0) in *. pose proof Hl3 as (E1 & E2 & E3 & _). cbn [h0 write_free set_mem next start hend] in E1, E2, E3.
    assert (Hbeyond : ∀ x, s ≤ x → word (mem h1) x = word (mem h0) x).
    { intros x Hx. apply Hl2. intros s' n' Hin. pose proof (tiled_elem _ _ _ _ Htv Hin) as (_ & _ & Hb'). cbn [tstart tsize] in Hb'. lia. }
    exists h1, (vs ++ Free s (n + k + j) :: us). split; [done|]. rewrite E3. split_and!; try done.
    + rewrite blocks_app. cbn [blocks omap list_omap block_of]. by rewrite <-blocks_app.
    + apply seg_app. exists s. split; [done|]. cbn [seg]. rewrite !Hbeyond by lia.
      assert (word (mem h0) s = n + k + j ∧ word (mem h0) (s + 8) = nx) as [-> ->].
      { unfold h0, write_free. cbn [mem set_mem nnext nsize]. split; words. }
      split_and!; [done..|]. eapply (seg_frame_span (mem h)); [exact Htu| |exact Hsu]. intros x Hx. rewrite Hbeyond by lia. apply Hm0. lia.
    + apply coal_app. split; [done|]. by rewrite Hev.
    + rewrite ends_app. by cbn [ends].
    + rewrite <-Hbl. intros b' x Hb' Hx. transitivity (word (mem h0) x).
      * apply Hl2. intros s' n' Hin. eapply (block_not_free _ _ _ b' s' n' x Hall); [set_solver| |done]. by rewrite blocks_app in *.
      * apply Hm0. apply (block_outside _ _ _ _ _ _ _ Hall Hb' Hx).
    + rewrite !free_sum_app. cbn [free_sum] in *. lia.
Qed.

Lemma size_sum_nonneg a ts z : tiled a ts z → 0 ≤ size_sum (blocks ts).
Proof.
  revert a. induction ts as [|[s n|b] ts IH]; intros a; [done|..]; cbn [tiled].
  - intros (_ & _ & H). exact (IH _ H).
  - intros (_ & (_ & _ & _ & Hok) & H). apply IH in H. cbn [blocks omap list_omap block_of size_sum].
    destruct Hok as (_ & _ & _ & _ & ? & _). fold (blocks ts). lia.
Qed.

(** Freeing a block: it leaves the list of blocks, and the other blocks keep their words. *)
Lemma dealloc_spec h ts1 b ts2 :
  Inv h (ts1 ++ Used b :: ts2) →
  ∃ h' ts', dealloc h (bptr b) (blay b) = Some h' ∧ Inv h' ts' ∧ blocks ts' = blocks (ts1 ++ ts2) ∧
    keeps (blocks (ts1 ++ ts2)) (mem h) (mem h') ∧ start h' = start h ∧ hend h' = hend h.
Proof.
  intros HI. pose proof HI as [(Hb & Hb' & Hb3) He Ht Hs [Hc Hends] Hn Hby Hf].
  pose proof (tiled_elem _ _ _ (Used b) Ht ltac:(set_solver)) as (Hok & Hlo & Hhi). cbn [tstart tsize] in Hlo, Hhi.
  pose proof Hok as (_ & _ & _ & Hp1 & Hp2 & _). unfold HEADER_SIZE in Hp1.
  pose proof Hs as Hs'. apply seg_app in Hs' as (c & Hs1 & Hh & Hs2).
  unfold dealloc. unfold saturating_add64, HEADER_SIZE at 1.
  rewrite (proj2 (Z.ltb_ge _ _)), (proj2 (Z.leb_gt (next h) (bptr b))) by lia. cbn [orb].
  rewrite Hh. cbn [magic requested_size block_start block_size]. rewrite !Z.eqb_refl. cbn [negb orb].
  rewrite (proj2 (Z.ltb_ge (bstart b) (start h))), (proj2 (Z.leb_gt (next h) (bstart b))), (proj2 (Z.ltb_ge (next h - bstart b) (bsize b))) by lia.
  cbn [orb]. set (h0 := set_counts _ _ _ _).
  assert (Hm0 : ∀ x, ¬ (bstart b ≤ x < bstart b + bsize b) → word (mem h0) x = word (mem h) x).
  { intros x Hx. unfold h0, HEADER_SIZE. cbn [set_counts set_mem mem]. words. }
  pose proof Ht as Ht'. apply tiled_app in Ht' as (y & Ht1 & Hy & _ & Ht2). cbn [tstart tsize] in Hy, Ht2. subst y.
  destruct (insert_free_spec h0 ts1 b ts2 c) as (h' & ts' & Hi & Hbl & Ht' & Hs' & Hc' & Hends' & Hk & Hle & Hsum & (E1 & E2 & E3 & E4 & E5 & E6)); try done.
  - eapply (seg_frame_span (mem h)); [exact Ht1| |exact Hs1]. intros x Hx. apply Hm0. lia.
  - eapply (seg_frame_span (mem h)); [exact Ht2| |exact Hs2]. intros x Hx. apply Hm0. lia.
  - exact (walk_fuel_enough _ _ HI).
  - cbn [h0 set_counts set_mem set_next start hend next total_allocations total_allocated_bytes free_bytes] in *.
    exists h', ts'. rewrite Hbl. split_and!; try done.
    + assert (Hlen : length (blocks (ts1 ++ Used b :: ts2)) = S (length (blocks (ts1 ++ ts2)))).
      { rewrite !blocks_app, !length_app. cbn [blocks omap list_omap block_of length]. fold (blocks ts2). lia. }
      assert (Hsz : size_sum (blocks (ts1 ++ Used b :: ts2)) = lsize (blay b) + size_sum (blocks (ts1 ++ ts2))).
      { rewrite !blocks_app, !size_sum_app. cbn [blocks omap list_omap block_of size_sum]. fold (blocks ts2). lia. }
      pose proof (size_sum_nonneg _ _ _ Ht') as Hnn. rewrite Hbl in Hnn. rewrite free_sum_app in Hf. cbn [free_sum] in Hf. rewrite free_sum_app in Hsum.
      split; rewrite ?Hbl, ?E1, ?E2, ?E4, ?E5, ?E6; try done.
      * by split_and!; [lia|apply He..].
      * unfold saturating_sub. rewrite Hn, Hlen. lia.
      * unfold saturating_sub. rewrite Hby, Hsz. lia.
      * lia.
    + intros b' x Hb2 Hx. rewrite (Hk b' x Hb2 Hx). apply Hm0. exact (block_outside _ _ _ _ _ _ _ Ht Hb2 Hx).
Qed.

(** A word written inside a block's payload leaves the heap's own data alone. *)
Lemma write_spec h ts b x v :
  Inv h ts → b ∈ blocks ts → bptr b ≤ x < bstart b + bsize b → Inv (set_mem (<[x := v]> (mem h)) h) ts.
Proof.
  intros HI Hb Hx. pose proof HI as [? ? Ht Hs ? ? ? ?]. split; try done. cbn [set_mem mem free_head].
  eapply seg_frame; [|exact Hs]. intros t y Hin Hy. rewrite word_insert, decide_False; [done|]. intros ->.
  pose proof (tiled_elem _ _ _ _ Ht Hin) as (Hok & _). pose proof (meta_inside _ _ Hok Hy) as Hin'.
  apply elem_of_blocks in Hb as Hb'. pose proof (tiled_elem _ _ _ _ Ht Hb') as (Hokb & _). destruct Hokb as (_ & _ & _ & Hb1 & _).
  unfold HEADER_SIZE in Hb1. destruct t as [s n|b2].
  - apply (block_not_free _ _ _ _ _ _ x Ht Hin Hb); [lia|done].
  - destruct (decide (Used b2 = Used b)) as [[= ->]|Hne]; [cbn [meta] in Hy; lia|].
    apply list_elem_of_split in Hin as (ts1 & ts2 & ->). apply (block_outside _ _ _ _ _ b x Ht); [|lia|done].
    apply elem_of_blocks. set_solver.
Qed.

(** Growth adds room at the tail. *)
Lemma extend_spec h ts size :
  Inv h ts → 0 < size → size mod PAGE_SIZE = 0 → hend h + size ≤ start h + MAX_SIZE →
  ∃ h', extend_mapped h size = (h', true) ∧ Inv h' ts ∧ hend h' = hend h + size ∧ start h' = start h ∧ mem h' = mem h.
Proof.
  intros [(Hb & Hb' & Hb3) (He1 & He2 & He3) Ht Hs Hc Hn Hby Hf] Hsz Hmod Hlim. unfold extend_mapped, checked_add64.
  rewrite (proj2 (Z.eqb_neq (start h) 0)), (proj2 (Z.eqb_neq size 0)), (proj2 (Z.eqb_eq (size mod PAGE_SIZE) 0)) by lia. cbn [orb negb].
  rewrite (proj2 (Z.leb_le _ _)), (proj2 (Z.ltb_ge MAX_SIZE _)) by lia.
  eexists. split; [done|]. split_and!; [|done..]. split; cbn [start hend next mem free_head total_allocations total_allocated_bytes free_bytes]; try done.
  - split_and!; [lia| |lia|lia]. unfold PAGE_SIZE in *. Z.to_euclidean_division_equations; lia.
  - lia.
Qed.

Lemma init_spec m size h :
  init (empty m) size = (h, Ok ()) → Inv h [] ∧ start h = START ∧ hend h = START + size ∧ MIN_SIZE ≤ size.
Proof.
  unfold init, init_at, bad_size. cbn [empty start]. rewrite Z.eqb_refl. cbn [negb].
  destruct (negb (_ && _) || _) eqn:Ebad; [done|]. change (START mod PAGE_SIZE =? 0) with true. cbn [negb orb].
  reflect_bools. unfold checked_add64. destruct (_ <=? u64_max) eqn:E; [|done]. intros [= <-]. reflect_bools.
  cbn [start hend]. split_and!; [|done..].
  assert (Hs : MIN_SIZE ≤ size ≤ MAX_BOOT_SIZE) by done.
  split; cbn [start hend next mem free_head total_allocations total_allocated_bytes free_bytes blocks omap list_omap size_sum length free_sum]; try done.
  - unfold START, MIN_SIZE, MAX_BOOT_SIZE, MAX_SIZE, PAGE_SIZE in *. split_and!; [lia| |lia|lia]. Z.to_euclidean_division_equations; lia.
  - lia.
Qed.

End HeapProofs.
