(* ===== verification/HeapSafety.v ===== *)
(** * The heap under its clients: interleavings, claims and witnesses

    A machine of CPUs that allocate, free, write into their allocations and grow the heap,
    each locked section of heap.rs being one step; [live] records what the clients hold. *)
From stdpp Require Import gmap.
From S2P Require Import Prelude Heap.

Module HeapMachine.
Import Heap HeapProofs.

Record Machine := mkMachine {
  heap : HeapState;
  live : list (Z * Layout);
  owner : Z;
  phase : gmap Z (Z * Z)
}.

Definition hold (p : Z) (l : Layout) (live : list (Z * Layout)) : list (Z * Layout) :=
  if p =? 0 then live else (p, l) :: live.

Inductive step : Machine → Machine → Prop :=
  | step_alloc h live o ph l h' p :
      layout_ok l → alloc h l = Some (h', p) →
      step (mkMachine h live o ph) (mkMachine h' (hold p l live) o ph)
  | step_dealloc h live live' o ph p l h' :
      live ≡ₚ (p, l) :: live' → dealloc h p l = Some h' →
      step (mkMachine h live o ph) (mkMachine h' live' o ph)
  | step_write h live o ph p l x v :
      (p, l) ∈ live → p ≤ x < p + lsize l →
      step (mkMachine h live o ph) (mkMachine (set_mem (<[x := v]> (mem h)) h) live o ph)
  | step_grow_begin h live o ph cpu o' e size :
      0 ≤ cpu → ph !! cpu = None → grow_begin o cpu h = (o', Ok (e, size)) →
      step (mkMachine h live o ph) (mkMachine h live o' (<[cpu := (e, size)]> ph))
  | step_grow_refused h live o ph cpu o' r :
      0 ≤ cpu → grow_begin o cpu h = (o', Err r) →
      step (mkMachine h live o ph) (mkMachine h live o' ph)
  | step_grow_finish h live o ph cpu mapped e size h' r :
      ph !! cpu = Some (e, size) → grow_finish mapped e size h = Some (h', r) →
      step (mkMachine h live o ph) (mkMachine h' live 0 (delete cpu ph)).

(** The kernel's heap just after [init] succeeded. *)
Definition booted (m : gmap Z Z) (size : Z) (w : Machine) : Prop :=
  ∃ h, init (empty m) size = (h, Ok ()) ∧ w = mkMachine h [] 0 ∅.

Definition reachable (w : Machine) : Prop := ∃ m size w0, booted m size w0 ∧ rtc step w0 w.

(** ** The machine's invariant *)
Definition grant (b : Block) : Z * Layout := (bptr b, blay b).

Definition growing (w : Machine) : Prop :=
  ∀ cpu e size, phase w !! cpu = Some (e, size) →
    0 ≤ cpu ∧ owner w = cpu + 1 ∧ e = hend (heap w) ∧ 0 < size ∧ size mod PAGE_SIZE = 0 ∧
    e + size ≤ start (heap w) + MAX_SIZE.

Definition MInv (w : Machine) : Prop :=
  ∃ ts, Inv (heap w) ts ∧ live w ≡ₚ grant <$> blocks ts ∧ growing w.

Lemma grow_chunk_page s e :
  s mod PAGE_SIZE = 0 → e mod PAGE_SIZE = 0 → e ≤ s + MAX_SIZE →
  Z.min (saturating_sub (s + MAX_SIZE) e) GROW_CHUNK mod PAGE_SIZE = 0.
Proof.
  intros Hs He Hle. unfold saturating_sub, GROW_CHUNK, MAX_SIZE, PAGE_SIZE in *.
  destruct (Z.min_spec (Z.max (s + 64 * 1024 * 1024 * 1024 - e) 0) (256 * 1024)) as [[_ ->]|[_ ->]]; [|done].
  rewrite Z.max_l by lia. Z.to_euclidean_division_equations; lia.
Qed.

Lemma grow_begin_spec h ts o cpu :
  Inv h ts → 0 ≤ cpu →
  match grow_begin o cpu h with
  | (o', Ok (e, size)) => o = 0 ∧ o' = cpu + 1 ∧ e = hend h ∧ 0 < size ∧ size mod PAGE_SIZE = 0 ∧ e + size ≤ start h + MAX_SIZE
  | (o', Err _) => o' = o
  end.
Proof.
  intros [(Hb & Hb' & Hb3) (He1 & He2 & He3 & He4) Ht _ _ _ _ _] Hcpu. unfold grow_begin, acquire.
  pose proof (tiled_le _ _ _ Ht). destruct (Z.eqb_spec o 0) as [->|Ho]; [|done].
  rewrite (proj2 (Z.eqb_neq (start h) 0)), (proj2 (Z.eqb_neq (hend h) 0)) by lia. cbn [orb].
  unfold checked_add64. rewrite (proj2 (Z.leb_le (start h + MAX_SIZE) u64_max)) by lia.
  pose proof (grow_chunk_page _ _ Hb' He2 He3) as Hpg. cbv zeta. destruct (Z.eqb_spec (Z.min (saturating_sub (start h + MAX_SIZE) (hend h)) GROW_CHUNK) 0) as [|Hnz]; [done|].
  unfold saturating_sub in *. split_and!; try done; unfold GROW_CHUNK in *; lia.
Qed.

Lemma grow_finish_spec h ts mapped e size :
  Inv h ts → e = hend h → 0 < size → size mod PAGE_SIZE = 0 → e + size ≤ start h + MAX_SIZE →
  ∃ h' r, grow_finish mapped e size h = Some (h', r) ∧ Inv h' ts ∧ mem h' = mem h ∧ start h' = start h.
Proof.
  intros HI -> Hsz Hmod Hlim. unfold grow_finish. destruct mapped; cbn [negb].
  - rewrite Z.eqb_refl. cbn [negb]. destruct (extend_spec h ts size HI Hsz Hmod Hlim) as (h' & -> & HI' & _ & ? & ?).
    by exists h', Grew.
  - by exists h, Failed.
Qed.

Lemma allocated_live h ts l h' p :
  allocated h ts l h' p → ∃ ts', Inv h' ts' ∧ grant <$> blocks ts' ≡ₚ (p, l) :: (grant <$> blocks ts).
Proof.
  intros (ts1 & ts2 & b & ts' & Hbl & Hbl' & <- & <- & HI & _). exists ts'. split; [done|].
  rewrite Hbl', Hbl, !fmap_app. cbn [fmap list_fmap]. by rewrite <-Permutation_middle.
Qed.

(** A live allocation is a block. *)
Lemma live_block ts live p l live' :
  live ≡ₚ grant <$> blocks ts → live ≡ₚ (p, l) :: live' →
  ∃ ts1 b ts2, ts = ts1 ++ Used b :: ts2 ∧ bptr b = p ∧ blay b = l ∧ live' ≡ₚ grant <$> blocks (ts1 ++ ts2).
Proof.
  intros Hl Hp. rewrite Hp in Hl.
  assert (Hin : (p, l) ∈ grant <$> blocks ts) by (rewrite <-Hl; set_solver).
  apply list_elem_of_fmap in Hin as (b & [= -> ->] & Hb%elem_of_blocks). apply list_elem_of_split in Hb as (ts1 & ts2 & ->).
  exists ts1, b, ts2. split_and!; try done. rewrite !blocks_app, !fmap_app in *.
  cbn [blocks omap list_omap block_of fmap list_fmap] in Hl. fold (blocks ts2) in Hl.
  rewrite <-Permutation_middle in Hl. by apply Permutation_cons_inv in Hl.
Qed.

Lemma live_elem ts live p l : live ≡ₚ grant <$> blocks ts → (p, l) ∈ live → ∃ b, b ∈ blocks ts ∧ bptr b = p ∧ blay b = l.
Proof. intros -> (b & [= -> ->] & Hb)%list_elem_of_fmap. eauto. Qed.

Lemma alloc_same h ts l h' p : Inv h ts → layout_ok l → alloc h l = Some (h', p) → start h' = start h ∧ hend h' = hend h.
Proof.
  intros HI Hl Ha. destruct (alloc_spec h ts l HI Hl) as (h2 & p2 & Ha2 & [(-> & -> & _)|(_ & Hal)]); simplify_eq; [done|].
  by destruct Hal as (? & ? & ? & ? & _ & _ & _ & _ & _ & _ & ? & ?).
Qed.

Lemma step_MInv w w' : MInv w → step w w' → MInv w'.
Proof.
  intros (ts & HI & Hl & Hg) Hst.
  destruct Hst as [h live o ph l h' p Hok Ha|h live live' o ph p l h' Hp Hd|h live o ph p l x v Hin Hx
    |h live o ph cpu o' e size Hcpu Hph Hb|h live o ph cpu o' r Hcpu Hb|h live o ph cpu mapped e size h' r Hph Hf];
    cbn [heap HeapMachine.live] in *.
  - pose proof (alloc_same _ _ _ _ _ HI Hok Ha) as [Es Ee].
    assert (Hg' : growing (mkMachine h' (hold p l live) o ph)) by (intros c e s Hc; cbn [heap phase owner]; rewrite Es, Ee; by apply Hg).
    destruct (alloc_spec h ts l HI Hok) as (h2 & p2 & Ha2 & [(-> & -> & _)|(Hnz & Hal)]); simplify_eq; [by exists ts|].
    apply allocated_live in Hal as (ts' & HI' & Hbl). exists ts'. split_and!; [done| |done].
    cbn [HeapMachine.live]. unfold hold. rewrite (proj2 (Z.eqb_neq p 0)) by done. by rewrite Hbl, Hl.
  - destruct (live_block _ _ _ _ _ Hl Hp) as (ts1 & b & ts2 & -> & <- & <- & Hl').
    destruct (dealloc_spec h ts1 b ts2 HI) as (h2 & ts' & Hd2 & HI' & Hbl & _ & Es & Ee). simplify_eq.
    exists ts'. split_and!; [done|by rewrite Hbl|]. intros c e s Hc. cbn [heap phase owner]. rewrite Es, Ee. by apply Hg.
  - destruct (live_elem _ _ _ _ Hl Hin) as (b & Hb & <- & <-). exists ts. split_and!; [|done|by intros c; apply Hg].
    eapply write_spec; [done|done|]. apply elem_of_blocks in Hb.
    pose proof (tiled_elem _ _ _ _ (inv_tiled _ _ HI) Hb) as ((_ & _ & _ & _ & ? & _) & _). lia.
  - exists ts. split_and!; [done..|]. pose proof (grow_begin_spec h ts o cpu HI Hcpu) as Hs. rewrite Hb in Hs.
    destruct Hs as (-> & -> & Hs). intros c e' s'. cbn [phase owner heap]. rewrite lookup_insert_Some.
    intros [[<- [= <- <-]]|[Hne Hc]]; [by split_and!; try apply Hs|]. destruct (Hg c e' s' Hc) as (? & Ho & _). cbn [owner] in Ho. lia.
  - exists ts. split_and!; [done..|]. pose proof (grow_begin_spec h ts o cpu HI Hcpu) as Hs. rewrite Hb in Hs. subst o'. done.
  - destruct (Hg cpu e size Hph) as (Hcpu & Ho & He & Hs & Hm & Hlim). cbn [owner heap] in *.
    destruct (grow_finish_spec h ts mapped e size HI He Hs Hm Hlim) as (h2 & r2 & Hf2 & HI' & _). simplify_eq.
    exists ts. split_and!; [done..|]. intros c e' s'. cbn [phase owner heap]. rewrite lookup_delete_Some. intros [Hne Hc].
    destruct (Hg c e' s' Hc) as (? & Ho' & _). cbn [owner] in *. lia.
Qed.

Lemma booted_MInv m size w : booted m size w → MInv w.
Proof.
  intros (h & Hi & ->). apply init_spec in Hi as (HI & _). exists []. split_and!; [done|done|]. intros c e s. cbn [phase]. by rewrite lookup_empty.
Qed.

Lemma reachable_MInv w : reachable w → MInv w.
Proof.
  intros (m & size & w0 & Hb & Hst). apply booted_MInv in Hb. induction Hst as [|w1 w2 w3 Hs _ IH]; [done|].
  apply IH. by eapply step_MInv.
Qed.

(** ** Claims *)

(** The bytes the clients hold are the same in both memories. *)
Definition contents_kept (live : list (Z * Layout)) (m m' : gmap Z Z) : Prop :=
  ∀ p l x, (p, l) ∈ live → p ≤ x < p + lsize l → word m' x = word m x.

Lemma keeps_contents a ts z live m m' :
  tiled a ts z → live ≡ₚ grant <$> blocks ts → keeps (blocks ts) m m' → contents_kept live m m'.
Proof.
  intros Ht Hl Hk p l x Hin Hx. destruct (live_elem _ _ _ _ Hl Hin) as (b & Hb & <- & <-). apply (Hk b); [done|].
  apply elem_of_blocks in Hb. pose proof (tiled_elem _ _ _ _ Ht Hb) as ((_ & _ & _ & ? & ? & _) & _).
  unfold HEADER_SIZE in *. lia.
Qed.

Lemma size_sum_live bs : size_sum bs = foldr (λ r s, lsize r.2 + s) 0 (grant <$> bs).
Proof. induction bs as [|b bs IH]; [done|]. cbn [size_sum fmap list_fmap foldr grant snd]. by rewrite IH. Qed.

#[local] Instance sum_perm : Proper ((≡ₚ) ==> (=)) (foldr (λ (r : Z * Layout) s, lsize r.2 + s) 0).
Proof. apply (foldr_permutation_proper (=)); [intros r s s' ->; done|intros; lia]. Qed.

Lemma free_sum_le a ts z : tiled a ts z → free_sum ts ≤ z - a.
Proof.
  revert a. induction ts as [|t ts IH]; intros a; cbn [tiled]; [intros ->; cbn; lia|]. intros (_ & (Hsz & _) & Ht). apply IH in Ht.
  unfold FREE_NODE_SIZE in Hsz. destruct t; cbn [free_sum tsize] in *; lia.
Qed.

(** C9. The kernel heap keeps its allocations apart. From the moment [init] succeeded, under
    any interleaving of allocations, deallocations of live pointers with their layout, writes
    by the owners into their allocations, and growth by any CPUs: every live allocation is
    aligned as requested and lies inside the heap's mapped span; two live allocations are
    separated by at least a header; the statistics are the number and the total size of the
    live allocations, and the free bytes stay within the heap; every further [alloc] and
    [dealloc] returns (the walks end, no assertion fails) and leaves the contents of the
    remaining allocations untouched; and a growing CPU finds the heap's end where it left it,
    so neither assertion of [grow_one_chunk] fires. *)
Theorem heap_allocations_exclusive (w : Machine) :
  reachable w →
  (∀ p l live', live w ≡ₚ (p, l) :: live' →
     p mod lalign l = 0 ∧ start (heap w) + HEADER_SIZE ≤ p ∧ p + lsize l ≤ next (heap w) ∧ next (heap w) ≤ hend (heap w) ∧
     (∀ q k, (q, k) ∈ live' → p + lsize l + HEADER_SIZE ≤ q ∨ q + lsize k + HEADER_SIZE ≤ p) ∧
     ∃ h', dealloc (heap w) p l = Some h' ∧ contents_kept live' (mem (heap w)) (mem h')) ∧
  total_allocations (heap w) = Z.of_nat (length (live w)) ∧
  total_allocated_bytes (heap w) = foldr (λ r s, lsize r.2 + s) 0 (live w) ∧
  0 ≤ free_bytes (heap w) ≤ hend (heap w) - start (heap w) ∧
  (∀ l, layout_ok l → ∃ h' p, alloc (heap w) l = Some (h', p) ∧ contents_kept (live w) (mem (heap w)) (mem h')) ∧
  (∀ cpu e size mapped, phase w !! cpu = Some (e, size) → is_Some (grow_finish mapped e size (heap w))).
Proof.
  intros (ts & HI & Hl & Hg)%reachable_MInv. pose proof HI as [_ (He & _) Ht _ _ Hn Hby Hf].
  pose proof (tiled_le _ _ _ Ht). pose proof (free_sum_nonneg _ _ _ Ht). pose proof (free_sum_le _ _ _ Ht).
  split_and!; [|by rewrite Hn, Hl, length_fmap|by rewrite Hby, size_sum_live, Hl|lia|lia|..].
  - intros p l live' Hp. destruct (live_block _ _ _ _ _ Hl Hp) as (ts1 & b & ts2 & -> & <- & <- & Hl').
    pose proof (tiled_elem _ _ _ (Used b) Ht ltac:(set_solver)) as ((_ & _ & _ & Hb1 & Hb2 & Hb3 & _) & Hlo & Hhi).
    cbn [tstart tsize] in Hlo, Hhi. unfold HEADER_SIZE in *. split_and!; [done|lia|lia|lia|..].
    + intros q k Hq. destruct (live_elem _ _ _ _ Hl' Hq) as (b' & Hb' & <- & <-). apply elem_of_blocks in Hb'.
      pose proof (tiled_disjoint _ _ _ _ _ _ Ht Hb') as Hd. cbn [tstart tsize] in Hd.
      pose proof (tiled_elem _ _ _ (Used b') Ht ltac:(set_solver)) as ((_ & _ & _ & Hb1' & Hb2' & _) & _). unfold HEADER_SIZE in *. lia.
    + destruct (dealloc_spec (heap w) ts1 b ts2 HI) as (h' & ts' & Hd & HI' & Hbl & Hk & _). exists h'. split; [done|].
      eapply keeps_contents; [exact (inv_tiled _ _ HI')|by rewrite Hbl|by rewrite Hbl].
  - intros l Hok. destruct (alloc_spec _ ts l HI Hok) as (h' & p & Ha & [(_ & -> & _)|(_ & Hal)]); eexists _, p; (split; [exact Ha|]); [done|].
    destruct Hal as (_ & _ & _ & _ & _ & _ & _ & _ & _ & Hk & _). by eapply keeps_contents.
  - intros cpu e size mapped Hph. destruct (Hg cpu e size Hph) as (_ & _ & He' & Hs & Hm & Hlim).
    destruct (grow_finish_spec _ ts mapped e size HI He' Hs Hm Hlim) as (h' & r & -> & _). done.
Qed.

Lemma all_free_empty ts : blocks ts = [] → coal false ts → ends false ts = false → ts = [].
Proof.
  destruct ts as [|[s n|b] ts]; [done|..|done]. cbn [coal ends]. intros Hb [_ Hc] He.
  destruct ts as [|[s' n'|b] ts]; [done|..|done]. by destruct Hc.
Qed.

(** The heap recovers completely. When the clients have freed everything, whatever the
    order and the interleaving, the free list is empty, the bump pointer is back at the start,
    the free bytes are the whole heap, and any request that fits the heap is served. *)
Theorem heap_recovers (w : Machine) :
  reachable w → live w = [] →
  next (heap w) = start (heap w) ∧ free_head (heap w) = 0 ∧
  s_free_bytes (stats (heap w)) = s_size (stats (heap w)) ∧
  ∀ l p, layout_ok l → place (start (heap w)) l = Some p → pend p ≤ hend (heap w) →
    ∃ h', alloc (heap w) l = Some (h', payload p).
Proof.
  intros (ts & HI & Hl & _)%reachable_MInv Hnil. rewrite Hnil in Hl. apply Permutation_nil_l in Hl.
  symmetry in Hl. apply fmap_nil_inv in Hl. pose proof HI as [(Hb & _) (He & _) Ht Hs [Hc Hends] _ _ Hf].
  pose proof (all_free_empty ts Hl Hc Hends) as ->. cbn [tiled seg free_sum] in Ht, Hs, Hf.
  split_and!; [done..| |].
  - cbn [stats s_free_bytes s_size]. unfold saturating_sub. lia.
  - intros l p Hok Hp Hle. unfold alloc, alloc_from_free, walk_fuel. rewrite (proj2 (Z.eqb_neq _ _)) by lia.
    rewrite Hs. cbn [alloc_walk Z.eqb mbind option_bind]. rewrite <-Ht, Hp, (proj2 (Z.ltb_ge _ _)) by lia. by eexists.
Qed.

(** ** Growth on demand *)
Lemma idle_phase w : MInv w → owner w = 0 → phase w = ∅.
Proof.
  intros (ts & _ & _ & Hg) Ho. apply map_empty. intros cpu. destruct (phase w !! cpu) as [[e n]|] eqn:E; [|done].
  destruct (Hg cpu e n E) as (? & Ho' & _). lia.
Qed.

Lemma reachable_step w w' : reachable w → step w w' → reachable w'.
Proof. intros (m & size & w0 & Hb & Hst) Hs. exists m, size, w0. split; [done|]. by eapply rtc_r. Qed.

(** A mapped chunk: the heap's end moves, nothing else does. *)
Lemma grow_one_chunk_spec map_range cpu h live pr ts :
  (∀ e n, map_range e n = true) → 0 ≤ cpu → reachable (mkMachine h live 0 ∅) → Inv h ts → hend h < start h + MAX_SIZE →
  ∃ h', grow_one_chunk map_range cpu (mkGlobals h 0 pr) = Some (mkGlobals h' 0 pr, Grew) ∧
    reachable (mkMachine h' live 0 ∅) ∧ Inv h' ts ∧ start h' = start h ∧ next h' = next h ∧
    hend h' = Z.min (start h + MAX_SIZE) (hend h + GROW_CHUNK).
Proof.
  intros Hmap Hcpu Hr HI Hlt. pose proof HI as [(Hb & Hb' & Hb3) (He1 & He2 & He3 & He4) _ _ _ _ _ _].
  unfold grow_one_chunk. cbn [gowner gheap gpressure]. pose proof (grow_begin_spec h ts 0 cpu HI Hcpu) as Hs.
  destruct (grow_begin 0 cpu h) as [o [[e size]|r]] eqn:Eb.
  2:{ exfalso. unfold grow_begin, acquire in Eb. rewrite Z.eqb_refl in Eb. rewrite (proj2 (Z.eqb_neq (start h) 0)), (proj2 (Z.eqb_neq (hend h) 0)) in Eb by (unfold MIN_SIZE in *; lia).
      unfold checked_add64 in Eb. rewrite (proj2 (Z.leb_le (start h + MAX_SIZE) u64_max)) in Eb by lia. cbn [orb] in Eb. cbv zeta in Eb.
      unfold saturating_sub, GROW_CHUNK in Eb. rewrite (proj2 (Z.eqb_neq _ 0)) in Eb by lia. done. }
  destruct Hs as (_ & -> & -> & Hsz & Hmod & Hlim). rewrite Hmap. cbn [fst snd].
  assert (size = Z.min (start h + MAX_SIZE - hend h) GROW_CHUNK) as Hsize.
  { unfold grow_begin, acquire in Eb. rewrite Z.eqb_refl in Eb. destruct (_ || _); [done|]. destruct (checked_add64 _ _) eqn:Ec; [|done].
    unfold checked_add64 in Ec. rewrite (proj2 (Z.leb_le (start h + MAX_SIZE) u64_max)) in Ec by lia. injection Ec as <-. cbv zeta in Eb. destruct (_ =? 0); [done|]. injection Eb as <-.
    unfold saturating_sub, GROW_CHUNK. lia. }
  destruct (extend_spec h ts size HI Hsz Hmod Hlim) as (h' & Hx & HI' & Hend & Hst & Hmem).
  assert (Hf : grow_finish true (hend h) size h = Some (h', Grew)).
  { unfold grow_finish. cbn [negb]. rewrite Z.eqb_refl. cbn [negb]. by rewrite Hx. }
  rewrite Hf. exists h'. split; [done|]. split_and!; [|done|done| |rewrite Hend, Hsize; unfold GROW_CHUNK; lia].
  - eapply reachable_step; [eapply reachable_step; [exact Hr|]|].
    + by apply (step_grow_begin h live 0 ∅ cpu (cpu + 1) (hend h) size).
    + pose proof (step_grow_finish h live (cpu + 1) (<[cpu := (hend h, size)]> ∅) cpu true (hend h) size h' Grew (lookup_insert_eq _ _ _) Hf) as Hstep.
      rewrite delete_insert_id in Hstep by (by rewrite lookup_empty). exact Hstep.
  - unfold extend_mapped in Hx. destruct (_ || _); [by injection Hx as <-|]. destruct (checked_add64 _ _); [|by injection Hx as <-].
    destruct (_ <? _); by injection Hx as <-.
Qed.

Lemma growth_loop_spec map_range cpu wait l p turns : ∀ h live pr ts,
  (∀ e n, map_range e n = true) → 0 ≤ cpu → layout_ok l → reachable (mkMachine h live 0 ∅) → Inv h ts →
  place (next h) l = Some p → pend p ≤ start h + MAX_SIZE → (0 < turns)%nat →
  start h + MAX_SIZE ≤ hend h + (Z.of_nat turns - 1) * GROW_CHUNK →
  ∃ g' q, growth_loop map_range cpu wait turns l (mkGlobals h 0 pr) = Some (g', q) ∧ q ≠ 0 ∧ gowner g' = 0 ∧
    reachable (mkMachine (gheap g') ((q, l) :: live) 0 ∅).
Proof.
  induction turns as [|turns IH]; intros h live pr ts Hmap Hcpu Hl Hr HI Hp Hle Hpos Henough; [lia|].
  cbn [growth_loop gheap]. destruct (alloc_spec h ts l HI Hl) as (h' & q & Ha & Hcase). rewrite Ha. cbn [mbind option_bind].
  destruct Hcase as [(-> & -> & Hno & _)|(Hq & _)].
  - cbn [Z.eqb negb]. unfold set_gheap. cbn [gowner gpressure].
    assert (Hfull : hend h < pend p) by (apply Z.nle_gt; intros ?; apply Hno; exists p; split; [done|lia]).
    destruct (grow_one_chunk_spec map_range cpu h live pr ts Hmap Hcpu Hr HI ltac:(lia)) as (h2 & -> & Hr2 & HI2 & Es & En & Ee).
    cbn [mbind option_bind]. apply (IH h2 live pr ts); rewrite ?Es, ?En; try done; unfold GROW_CHUNK in *; lia.
  - rewrite (proj2 (Z.eqb_neq q 0)) by done. cbn [negb set_gheap raise gowner gpressure gheap].
    eexists _, q. split; [done|]. split_and!; [done..|]. cbn [gheap]. eapply reachable_step; [exact Hr|].
    replace ((q, l) :: live) with (hold q l live) by (unfold hold; by rewrite (proj2 (Z.eqb_neq q 0))). by apply step_alloc.
Qed.

(** Growth serves every feasible request. In a reachable state in which no CPU is growing
    the heap, if the request would fit at the tail of the largest heap and every chunk can be
    mapped, [alloc_with_growth] returns a non-null pointer within its 262144 turns, without
    tripping an assertion and with the growth claim released; the heap it leaves is again a
    reachable one, with the new allocation live. *)
Theorem growth_serves_feasible (w : Machine) map_range cpu wait l pressure :
  reachable w → owner w = 0 → 0 ≤ cpu → layout_ok l → feasible (heap w) l = true → (∀ e n, map_range e n = true) →
  ∃ g' p, alloc_with_growth map_range cpu wait l (mkGlobals (heap w) 0 pressure) = Some (g', p) ∧ p ≠ 0 ∧ gowner g' = 0 ∧
    reachable (mkMachine (gheap g') ((p, l) :: live w) 0 (phase w)).
Proof.
  intros Hr Ho Hcpu Hl Hf Hmap. pose proof (reachable_MInv _ Hr) as HM. pose proof (idle_phase w HM Ho) as Hph.
  destruct HM as (ts & HI & _). unfold alloc_with_growth. cbn [gheap]. rewrite Hf. cbn [negb]. rewrite Hph.
  unfold feasible in Hf. apply andb_true_iff in Hf as [_ Hf]. destruct (checked_add64 _ _) as [limit|] eqn:Ec; [|done].
  unfold checked_add64 in Ec. destruct (start (heap w) + MAX_SIZE <=? u64_max) eqn:?; [|done]. injection Ec as <-. destruct (place (next (heap w)) l) as [p|] eqn:Hp; [|done]. apply Z.leb_le in Hf.
  pose proof (inv_end _ _ HI) as (_ & _ & _ & Hmin). destruct w as [h lv o ph]. cbn [heap live owner phase] in *. subst o ph.
  assert (Hn : Z.of_nat (Z.to_nat (MAX_SIZE / GROW_CHUNK)) = 262144) by (rewrite Z2Nat.id; [reflexivity|discriminate]).
  revert Hn. generalize (Z.to_nat (MAX_SIZE / GROW_CHUNK)). intros turns Hn.
  apply (growth_loop_spec map_range cpu wait l p turns h lv pressure ts); try done; [lia|].
  unfold MAX_SIZE, GROW_CHUNK, MIN_SIZE in *. lia.
Qed.

(** The boot size is always one [init] accepts. *)
Lemma boot_size_accepted m frames : 0 ≤ frames → (init (empty m) (boot_size frames)).2 = Ok ().
Proof.
  intros Hf. unfold boot_size. set (b := Z.max _ _).
  assert (Hb : MIN_SIZE ≤ b ≤ MAX_BOOT_SIZE) by (unfold b, MIN_SIZE, MAX_BOOT_SIZE; lia).
  change (PAGE_SIZE - 1) with (2 ^ 12 - 1). rewrite land_not64_low by (unfold in_u64, u64_max, MIN_SIZE, MAX_BOOT_SIZE in *; lia).
  change (2 ^ 12) with 4096. set (x := 4096 * (b / 4096)).
  assert (Hx : MIN_SIZE ≤ x ≤ MAX_BOOT_SIZE ∧ x mod PAGE_SIZE = 0).
  { unfold x, MIN_SIZE, MAX_BOOT_SIZE, PAGE_SIZE in *. split; Z.to_euclidean_division_equations; lia. }
  destruct Hx as [Hx Hm]. unfold init, init_at, bad_size. cbn [empty start].
  rewrite Z.eqb_refl, (proj2 (Z.leb_le MIN_SIZE x)), (proj2 (Z.leb_le x MAX_BOOT_SIZE)), (proj2 (Z.eqb_eq _ _) Hm) by lia.
  cbn [negb andb orb]. change (START mod PAGE_SIZE =? 0) with true. cbn [negb].
  unfold checked_add64. rewrite (proj2 (Z.leb_le _ _)); [done|]. unfold START, MAX_BOOT_SIZE, u64_max in *. lia.
Qed.

End HeapMachine.

Module HeapDemo.
Import Heap HeapProofs HeapMachine.

(** ** The source's unit test [aligned_reuse_returns_all_reserved_bytes] *)
Definition do_alloc (h : HeapState) (l : Layout) : HeapState * Z := default (h, 0) (alloc h l).
Definition do_free (h : HeapState) (p : Z) (l : Layout) : HeapState := default h (dealloc h p l).

Definition byte_layout : Layout := mkLayout 1 1.
Definition middle_layout : Layout := mkLayout 127 1.
Definition aligned_layout : Layout := mkLayout 8 64.

Definition fresh : HeapState := (init (empty ∅) MIN_SIZE).1.

Definition aligned_reuse_returns_all_reserved_bytes : bool :=
  let '(h, first) := do_alloc fresh byte_layout in
  let '(h, middle) := do_alloc h middle_layout in
  let '(h, last) := do_alloc h byte_layout in
  let h := do_free h middle middle_layout in
  let '(h, reused) := do_alloc h aligned_layout in
  let aligned := reused mod 64 =? 0 in
  let h := do_free h reused aligned_layout in
  let h := do_free h last byte_layout in
  let h := do_free h first byte_layout in
  aligned && (next h =? start h) && (free_head h =? 0) && (s_free_bytes (stats h) =? MIN_SIZE).

(** The unit test [mapped_extension_preserves_live_data_and_recovers_capacity], its byte
    patterns being one word of each allocation. *)
Definition mapped_extension_preserves_live_data : bool :=
  let small := mkLayout 64 16 in
  let large := mkLayout MIN_SIZE 8 in
  let '(h, first) := do_alloc fresh small in
  let h := set_mem (<[first := 0x3c]> (mem h)) h in
  let before := s_free_bytes (stats h) in
  let '(h, refused) := do_alloc h large in
  let unchanged := (refused =? 0) && (s_free_bytes (stats h) =? before) in
  let '(h, extended) := extend_mapped h MIN_SIZE in
  let '(h, second) := do_alloc h large in
  let kept := word (mem h) first =? 0x3c in
  let h := do_free (do_free h second large) first small in
  negb (first =? 0) && unchanged && extended && negb (second =? 0) && kept && (s_free_bytes (stats h) =? 2 * MIN_SIZE).

Lemma heap_unit_tests_pass :
  aligned_reuse_returns_all_reserved_bytes = true ∧ mapped_extension_preserves_live_data = true.
Proof. split; vm_compute; reflexivity. Qed.

(** ** A run of the machine: two allocations, then both are freed *)
Definition h1 : HeapState := (do_alloc fresh byte_layout).1.
Definition h2 : HeapState := (do_alloc h1 aligned_layout).1.
Definition p1 : Z := START + 32.
Definition p2 : Z := START + 128.
Definition h3 : HeapState := do_free h2 p1 byte_layout.
Definition h4 : HeapState := do_free h3 p2 aligned_layout.

Definition holding_two : Machine := mkMachine h2 [(p2, aligned_layout); (p1, byte_layout)] 0 ∅.
Definition holding_none : Machine := mkMachine h4 [] 0 ∅.

Lemma byte_ok : layout_ok byte_layout.
Proof. by split_and!. Qed.
Lemma aligned_ok : layout_ok aligned_layout.
Proof. by split_and!. Qed.

Lemma holding_two_reachable : reachable holding_two.
Proof.
  exists ∅, MIN_SIZE, (mkMachine fresh [] 0 ∅). split; [by exists fresh|].
  eapply rtc_l; [apply (step_alloc fresh [] 0 ∅ byte_layout h1 p1 byte_ok); vm_compute; reflexivity|].
  eapply rtc_l; [apply (step_alloc h1 _ 0 ∅ aligned_layout h2 p2 aligned_ok); vm_compute; reflexivity|].
  apply rtc_refl.
Qed.

Lemma holding_none_reachable : reachable holding_none.
Proof.
  destruct holding_two_reachable as (m & size & w0 & Hb & Hst). exists m, size, w0. split; [done|].
  eapply rtc_r; [eapply rtc_r; [exact Hst|]|].
  - apply (step_dealloc h2 _ [(p2, aligned_layout)] 0 ∅ p1 byte_layout h3); [apply Permutation_swap|vm_compute; reflexivity].
  - apply (step_dealloc h3 _ [] 0 ∅ p2 aligned_layout h4); [done|vm_compute; reflexivity].
Qed.

Lemma heap_allocations_exclusive_witness :
  total_allocations h2 = 2 ∧ p2 mod 64 = 0 ∧ (p1 + 1 + HEADER_SIZE ≤ p2 ∨ p2 + 8 + HEADER_SIZE ≤ p1).
Proof.
  destruct (heap_allocations_exclusive holding_two holding_two_reachable) as (Hl & Hn & _).
  split; [exact Hn|]. destruct (Hl p2 aligned_layout [(p1, byte_layout)] (reflexivity _)) as (Ha & _ & _ & _ & Hd & _).
  split; [exact Ha|]. destruct (Hd p1 byte_layout) as [H|H]; [apply list_elem_of_here|right; exact H|left; exact H].
Defined.

Lemma heap_recovers_witness :
  next h4 = START ∧ ∃ h', alloc h4 aligned_layout = Some (h', START + 64).
Proof.
  destruct (heap_recovers holding_none holding_none_reachable eq_refl) as (Hn & _ & _ & Ha).
  split; [exact Hn|]. apply (Ha aligned_layout (mkPlacement (START + 64) (START + 72)) aligned_ok).
  - vm_compute; reflexivity.
  - vm_compute. discriminate.
Defined.

Lemma growth_serves_feasible_witness :
  ∃ g' p, alloc_with_growth (λ _ _, true) 0 (λ _, None) (mkLayout (1024 * 1024) 8) (mkGlobals h2 0 false) = Some (g', p) ∧ p ≠ 0.
Proof.
  destruct (growth_serves_feasible holding_two (λ _ _, true) 0 (λ _, None) (mkLayout (1024 * 1024) 8) false
    holding_two_reachable eq_refl) as (g' & p & He & Hp & _).
  - lia.
  - split_and!; cbn; unfold u64_max; lia || reflexivity.
  - vm_compute; reflexivity.
  - reflexivity.
  - exists g', p. split; [exact He|exact Hp].
Defined.

End HeapDemo.
