(* ===== verification/Frames.v ===== *)
(** * The physical frame allocator (kernel/src/memory.rs)

    Usable ranges with a bump pointer and an allocation bitmap each, a 4096-entry cache of
    returned frames, and a per-range hint for the returns beyond the cache. The bitmaps live
    in the direct-mapped physical memory, [phys], a map from byte addresses to bytes. The
    arrays with their counts ([ranges]/[range_count], [reclaimed_*]/[reclaimed_count]) are
    lists; a frame is its address. *)
From stdpp Require Import gmap.
From S2P Require Import Prelude.
Module Frames.

Definition FRAME_SIZE : Z := 4096.
Definition MAX_USABLE_REGIONS : nat := 128.
Definition MAX_RECLAIMED_FRAMES : nat := 4096.

Record FrameRange := mkRange {
  rstart : Z;
  rnext : Z;
  rend : Z;
  rdomain : Z;
  rbitmap : Z;
  overflow_hint : Z
}.

Inductive InitError :=
  | AlreadyInitialized
  | MissingPhysicalMemoryMapping
  | TooManyUsableRegions
  | AddressOverflow
  | NoUsableFrames.

#[export] Instance InitError_eq_dec : EqDecision InitError.
Proof. solve_decision. Defined.

Record PhysicalFrameAllocator := mkAlloc {
  ranges : list FrameRange;
  current_range : nat;
  total_frames : Z;
  allocated_frames : Z;
  reclaimed : list (Z * Z);
  reclaimed_untracked : Z;
  numa_enabled : bool;
  initialized : bool;
  phys : gmap Z Z
}.

Definition empty (m : gmap Z Z) : PhysicalFrameAllocator := mkAlloc [] 0 0 0 [] 0 false false m.

(** The bootloader's regions and the ACPI memory affinities. *)
Record MemoryRegion := mkRegion { region_start : Z; region_end : Z; usable : bool }.
Record MemoryAffinity := mkAffinity { adomain : Z; abase : Z; alength : Z }.

Definition set_ranges (rs : list FrameRange) (s : PhysicalFrameAllocator) : PhysicalFrameAllocator :=
  mkAlloc rs (current_range s) (total_frames s) (allocated_frames s) (reclaimed s) (reclaimed_untracked s)
    (numa_enabled s) (initialized s) (phys s).
Definition set_current (i : nat) (s : PhysicalFrameAllocator) : PhysicalFrameAllocator :=
  mkAlloc (ranges s) i (total_frames s) (allocated_frames s) (reclaimed s) (reclaimed_untracked s)
    (numa_enabled s) (initialized s) (phys s).
Definition set_allocated (n : Z) (s : PhysicalFrameAllocator) : PhysicalFrameAllocator :=
  mkAlloc (ranges s) (current_range s) (total_frames s) n (reclaimed s) (reclaimed_untracked s)
    (numa_enabled s) (initialized s) (phys s).
Definition set_reclaimed (l : list (Z * Z)) (s : PhysicalFrameAllocator) : PhysicalFrameAllocator :=
  mkAlloc (ranges s) (current_range s) (total_frames s) (allocated_frames s) l (reclaimed_untracked s)
    (numa_enabled s) (initialized s) (phys s).
Definition set_untracked (n : Z) (s : PhysicalFrameAllocator) : PhysicalFrameAllocator :=
  mkAlloc (ranges s) (current_range s) (total_frames s) (allocated_frames s) (reclaimed s) n
    (numa_enabled s) (initialized s) (phys s).
Definition set_phys (m : gmap Z Z) (s : PhysicalFrameAllocator) : PhysicalFrameAllocator :=
  mkAlloc (ranges s) (current_range s) (total_frames s) (allocated_frames s) (reclaimed s) (reclaimed_untracked s)
    (numa_enabled s) (initialized s) m.

Definition set_rnext (a : Z) (r : FrameRange) : FrameRange :=
  mkRange (rstart r) a (rend r) (rdomain r) (rbitmap r) (overflow_hint r).
Definition set_hint (a : Z) (r : FrameRange) : FrameRange :=
  mkRange (rstart r) (rnext r) (rend r) (rdomain r) (rbitmap r) a.

Definition set_range (i : nat) (r : FrameRange) (s : PhysicalFrameAllocator) : PhysicalFrameAllocator :=
  set_ranges (<[i := r]> (ranges s)) s.

(** ** Bits *)
Definition byte (m : gmap Z Z) (a : Z) : Z := default 0 (m !! a).

Definition frame_index (r : FrameRange) (address : Z) : Z := (address - rstart r) / FRAME_SIZE.

Definition bitmap_get (m : gmap Z Z) (r : FrameRange) (address : Z) : bool :=
  let index := frame_index r address in
  negb (Z.land (byte m (rbitmap r + index / 8)) (Z.shiftl 1 (index mod 8)) =? 0).

Definition not8 (x : Z) : Z := u8_max - x.

Definition bitmap_set (r : FrameRange) (address : Z) (allocated : bool) (m : gmap Z Z) : gmap Z Z :=
  let index := frame_index r address in
  let pointer := rbitmap r + index / 8 in
  let previous := byte m pointer in
  let mask := Z.shiftl 1 (index mod 8) in
  <[pointer := if allocated then Z.lor previous mask else Z.land previous (not8 mask)]> m.

(** ** Initialisation *)
Definition align_down (address alignment : Z) : Z := Z.land address (not64 (alignment - 1)).
Definition align_up (address alignment : Z) : option Z :=
  (λ value, align_down value alignment) <$> checked_add64 address (alignment - 1).

(** [u64::div_ceil] *)
Definition div_ceil (x y : Z) : Z := if x mod y =? 0 then x / y else x / y + 1.

Definition memory_domain (start stop : Z) (affinities : list MemoryAffinity) : Z :=
  match list_find (λ a, (abase a <=? start) &&
      match checked_add64 (abase a) (alength a) with Some e => stop <=? e | None => false end = true) affinities with
  | Some (_, a) => adomain a
  | None => 0
  end.

(** [ptr::write_bytes(address, 0, size)] *)
Fixpoint zero_bytes (address : Z) (size : nat) (m : gmap Z Z) : gmap Z Z :=
  match size with
  | O => m
  | S n => zero_bytes (address + 1) n (<[address := 0]> m)
  end.

(** One region of the loop: [continue] and a registered range both return the state. *)
Definition add_region (affinities : list MemoryAffinity) (offset : Z) (region : MemoryRegion) (s : PhysicalFrameAllocator)
    : PhysicalFrameAllocator * result () InitError :=
  if negb (usable region) then (s, Ok ())
  else match align_up (Z.max (region_start region) 0x100000) FRAME_SIZE with
  | None => (s, Err AddressOverflow)
  | Some start =>
      let stop := align_down (region_end region) FRAME_SIZE in
      if stop <=? start then (s, Ok ())
      else if (length (ranges s) =? MAX_USABLE_REGIONS)%nat then (s, Err TooManyUsableRegions)
      else
        let frames := (stop - start) / FRAME_SIZE in
        let bitmap_bytes := div_ceil frames 8 in
        let bitmap_pages := div_ceil bitmap_bytes FRAME_SIZE in
        match checked_mul64 bitmap_pages FRAME_SIZE with
        | None => (s, Err AddressOverflow)
        | Some bitmap_size =>
            match checked_add64 start bitmap_size with
            | None => (s, Err AddressOverflow)
            | Some alloc_start =>
                if stop <=? alloc_start then (s, Ok ())
                else match checked_add64 offset start with
                | None => (s, Err AddressOverflow)
                | Some bitmap_address =>
                    let s := set_phys (zero_bytes bitmap_address (Z.to_nat bitmap_size) (phys s)) s in
                    let frames := (stop - alloc_start) / FRAME_SIZE in
                    match checked_add64 (total_frames s) frames with
                    | None => (s, Err AddressOverflow)
                    | Some total =>
                        let r := mkRange alloc_start alloc_start stop (memory_domain start stop affinities)
                                   bitmap_address u64_max in
                        (mkAlloc (ranges s ++ [r]) (current_range s) total (allocated_frames s) (reclaimed s)
                           (reclaimed_untracked s) (numa_enabled s) (initialized s) (phys s), Ok ())
                    end
                end
            end
        end
  end.

Fixpoint add_regions (affinities : list MemoryAffinity) (offset : Z) (regions : list MemoryRegion)
    (s : PhysicalFrameAllocator) : PhysicalFrameAllocator * result () InitError :=
  match regions with
  | [] => (s, Ok ())
  | region :: regions =>
      match add_region affinities offset region s with
      | (s, Ok _) => add_regions affinities offset regions s
      | (s, Err e) => (s, Err e)
      end
  end.

Definition initialize (regions : list MemoryRegion) (affinities : list MemoryAffinity) (offset : Z)
    (s : PhysicalFrameAllocator) : PhysicalFrameAllocator * result () InitError :=
  if initialized s then (s, Err AlreadyInitialized)
  else match add_regions affinities offset regions s with
  | (s, Err e) => (s, Err e)
  | (s, Ok _) =>
      if total_frames s =? 0 then (s, Err NoUsableFrames)
      else (mkAlloc (ranges s) (current_range s) (total_frames s) (allocated_frames s) (reclaimed s)
              (reclaimed_untracked s) (bool_decide (affinities ≠ [])) true (phys s), Ok ())
  end.

(** ** Statistics *)
Fixpoint count_domains_from (seen : list Z) (rs : list FrameRange) : nat :=
  match rs with
  | [] => length seen
  | r :: rs => count_domains_from (if bool_decide (rdomain r ∈ seen) then seen else seen ++ [rdomain r]) rs
  end.
Definition count_domains (rs : list FrameRange) : nat := count_domains_from [] rs.

Record Stats := mkStats {
  usable_regions : nat; s_total : Z; s_allocated : Z; s_remaining : Z; numa_domains : nat
}.
Definition stats (s : PhysicalFrameAllocator) : Stats :=
  mkStats (length (ranges s)) (total_frames s) (allocated_frames s)
    (saturating_sub (total_frames s) (allocated_frames s)) (count_domains (ranges s)).

Definition contains (s : PhysicalFrameAllocator) (address : Z) : bool :=
  existsb (λ r, (rstart r <=? address) && (address <? rend r)) (ranges s).

(** ** Returning a frame *)
Definition deallocate_frame (s : PhysicalFrameAllocator) (address : Z) : PhysicalFrameAllocator * bool :=
  match list_find (λ r, (rstart r <=? address) && (address <? rnext r) = true) (ranges s) with
  | None => (s, false)
  | Some (i, r) =>
      if negb (bitmap_get (phys s) r address) || (allocated_frames s =? 0) then (s, false)
      else
        let s := set_phys (bitmap_set r address false (phys s)) s in
        let s :=
          if (length (reclaimed s) <? MAX_RECLAIMED_FRAMES)%nat
          then set_reclaimed (reclaimed s ++ [(address, rdomain r)]) s
          else set_range i (set_hint (Z.min (overflow_hint r) address) r)
                 (set_untracked (reclaimed_untracked s + 1) s) in
        (set_allocated (allocated_frames s - 1) s, true)
  end.

(** ** Handing out frames *)

(** [PhysFrame::from_start_address(PhysAddr::new(address)).ok()]: 52-bit, aligned. *)
Definition phys_frame (address : Z) : option Z :=
  if (address <? 2 ^ 52) && (address mod FRAME_SIZE =? 0) then Some address else None.

(** The ranges in the order of the two passes: those of the preferred domain first. *)
Definition rotation (s : PhysicalFrameAllocator) : list nat :=
  (λ offset, (current_range s + offset) mod length (ranges s))%nat <$> seq 0 (length (ranges s)).

Definition in_domain (s : PhysicalFrameAllocator) (preferred : option Z) (i : nat) : bool :=
  match preferred, ranges s !! i with
  | Some d, Some r => rdomain r =? d
  | _, _ => true
  end.

Definition order (s : PhysicalFrameAllocator) (preferred : option Z) : list nat :=
  filter (λ i, in_domain s preferred i = true) (rotation s) ++ rotation s.

(** The newest cached frame of the preferred domain, or the newest of all. *)
Definition pick_reclaimed (s : PhysicalFrameAllocator) (preferred : option Z) : nat :=
  let last := (length (reclaimed s) - 1)%nat in
  match preferred with
  | Some d =>
      match list_find (λ e, (e.2 =? d) = true) (reverse (reclaimed s)) with
      | Some (i, _) => (last - i)%nat
      | None => last
      end
  | None => last
  end.

(** Entry [i] out of the cache, the last entry taking its place. *)
Definition swap_remove (i : nat) (l : list (Z * Z)) : list (Z * Z) :=
  let last := (length l - 1)%nat in
  match l !! last with
  | Some e => take last (<[i := e]> l)
  | None => l
  end.

Definition take_reclaimed (s : PhysicalFrameAllocator) (preferred : option Z)
    : PhysicalFrameAllocator * option Z :=
  let i := pick_reclaimed s preferred in
  match reclaimed s !! i with
  | None => (s, None)
  | Some (address, _) =>
      let s := set_reclaimed (swap_remove i (reclaimed s)) s in
      match list_find (λ r, (rstart r <=? address) && (address <? rend r) = true) (ranges s) with
      | None => (s, None)
      | Some (_, r) =>
          let s := set_phys (bitmap_set r address true (phys s)) s in
          (set_allocated (allocated_frames s + 1) s, phys_frame address)
      end
  end.

(** The scan of one range for a clear bit, from the hint. *)
Fixpoint scan_bits (fuel : nat) (m : gmap Z Z) (r : FrameRange) (address : Z) : option Z :=
  match fuel with
  | O => None
  | S fuel =>
      if address <? rnext r then
        if negb (bitmap_get m r address) then Some address
        else scan_bits fuel m r (address + FRAME_SIZE)
      else None
  end.

Definition scan_fuel (r : FrameRange) : nat := Z.to_nat (div_ceil (rnext r - rstart r) FRAME_SIZE).

(** [Some] is a [return] out of the loops. *)
Fixpoint take_untracked (is_ : list nat) (s : PhysicalFrameAllocator) : PhysicalFrameAllocator * option (option Z) :=
  match is_ with
  | [] => (s, None)
  | i :: is_ =>
      match ranges s !! i with
      | None => (s, None)
      | Some r =>
          match scan_bits (scan_fuel r) (phys s) r (overflow_hint r) with
          | Some address =>
              let s := set_phys (bitmap_set r address true (phys s)) s in
              let s := set_range i (set_hint (address + FRAME_SIZE) r) s in
              let s := set_untracked (reclaimed_untracked s - 1) s in
              (set_allocated (allocated_frames s + 1) s, Some (phys_frame address))
          | None => take_untracked is_ (set_range i (set_hint u64_max r) s)
          end
      end
  end.

Fixpoint take_fresh (is_ : list nat) (s : PhysicalFrameAllocator) : PhysicalFrameAllocator * option Z :=
  match is_ with
  | [] => (s, None)
  | i :: is_ =>
      match ranges s !! i with
      | None => (s, None)
      | Some r =>
          if rnext r <? rend r then
            let address := rnext r in
            let r := set_rnext (rnext r + FRAME_SIZE) r in
            let s := set_range i r (set_phys (bitmap_set r address true (phys s)) s) in
            let s := set_current (if rend r <=? rnext r then ((i + 1) mod length (ranges s))%nat else i) s in
            (set_allocated (allocated_frames s + 1) s, phys_frame address)
          else take_fresh is_ s
      end
  end.

Definition allocate_frame_for_domain (s : PhysicalFrameAllocator) (preferred : option Z)
    : PhysicalFrameAllocator * option Z :=
  if negb (initialized s) then (s, None)
  else if negb (length (reclaimed s) =? 0)%nat then take_reclaimed s preferred
  else
    let '(s, found) :=
      if negb (reclaimed_untracked s =? 0) then take_untracked (order s preferred) s else (s, None) in
    match found with
    | Some frame => (s, frame)
    | None => take_fresh (order s preferred) s
    end.

(** [domain] is [smp::cpu_domain(smp::cpu_index())]. *)
Definition allocate_frame (s : PhysicalFrameAllocator) (domain : Z) : PhysicalFrameAllocator * option Z :=
  allocate_frame_for_domain s (if numa_enabled s then Some domain else None).

(** ** Contiguous runs *)
Fixpoint set_run (r : FrameRange) (address : Z) (count : nat) (m : gmap Z Z) : gmap Z Z :=
  match count with
  | O => m
  | S n => set_run r (address + FRAME_SIZE) n (bitmap_set r address true m)
  end.

Fixpoint take_run (is_ : list nat) (s : PhysicalFrameAllocator) (count : nat) (size : Z)
    : PhysicalFrameAllocator * option Z :=
  match is_ with
  | [] => (s, None)
  | i :: is_ =>
      match ranges s !! i with
      | None => (s, None)
      | Some r =>
          if saturating_sub (rend r) (rnext r) <? size then take_run is_ s count size
          else match checked_add64 (rnext r) size with
          | None => (s, None)
          | Some stop =>
              let address := rnext r in
              let r := set_rnext stop r in
              let s := set_range i r (set_phys (set_run r address count (phys s)) s) in
              let s := set_current (if rend r <=? rnext r then ((i + 1) mod length (ranges s))%nat else i) s in
              match checked_add64 (allocated_frames s) (Z.of_nat count) with
              | None => (s, None)
              | Some n => (set_allocated n s, phys_frame address)
              end
          end
      end
  end.

Definition allocate_contiguous_frames (s : PhysicalFrameAllocator) (domain : Z) (count : nat)
    : PhysicalFrameAllocator * option Z :=
  if negb (initialized s) || (count =? 0)%nat then (s, None)
  else match checked_mul64 FRAME_SIZE (Z.of_nat count) with
  | None => (s, None)
  | Some size => take_run (order s (if numa_enabled s then Some domain else None)) s count size
  end.

End Frames.

(** * Proofs about the physical frame allocator

    [FInv off s live lost] describes a state by the set of outstanding frames and the set of
    returned frames that did not fit the cache: the two, with the cache, are exactly the
    frames below the bump pointers; the bitmaps say which are outstanding; every hint is at
    or below the lost frames of its range. *)
Module FramesProofs.
Import Frames.

Definition aligned (a : Z) : Prop := a mod FRAME_SIZE = 0.

(** ** Bits *)
Lemma land_bit_test x k : 0 ≤ k → negb (Z.land x (Z.shiftl 1 k) =? 0) = Z.testbit x k.
Proof.
  intros Hk. rewrite Z.shiftl_1_l. destruct (Z.testbit x k) eqn:E.
  - apply negb_true_iff, Z.eqb_neq. intros Hz. apply (f_equal (λ z, Z.testbit z k)) in Hz.
    rewrite Z.land_spec, E, Z.pow2_bits_true, Z.bits_0 in Hz by done. done.
  - apply negb_false_iff, Z.eqb_eq. apply Z.bits_inj'. intros n Hn. rewrite Z.land_spec, Z.bits_0.
    destruct (decide (n = k)) as [->|Hne]; [by rewrite E|]. rewrite Z.pow2_bits_false by done. apply andb_false_r.
Qed.

Lemma not8_bit k n : 0 ≤ k < 8 → 0 ≤ n < 8 → Z.testbit (not8 (Z.shiftl 1 k)) n = negb (n =? k).
Proof.
  intros Hk Hn. assert (k = 0 ∨ k = 1 ∨ k = 2 ∨ k = 3 ∨ k = 4 ∨ k = 5 ∨ k = 6 ∨ k = 7) as Hk' by lia.
  assert (n = 0 ∨ n = 1 ∨ n = 2 ∨ n = 3 ∨ n = 4 ∨ n = 5 ∨ n = 6 ∨ n = 7) as Hn' by lia. clear Hk Hn.
  destruct_or! Hk'; subst k; destruct_or! Hn'; subst n; reflexivity.
Qed.

Lemma set_bit_test x k n (b : bool) :
  0 ≤ k < 8 → 0 ≤ n < 8 →
  Z.testbit (if b then Z.lor x (Z.shiftl 1 k) else Z.land x (not8 (Z.shiftl 1 k))) n =
  if decide (n = k) then b else Z.testbit x n.
Proof.
  intros Hk Hn. destruct b.
  - rewrite Z.lor_spec, Z.shiftl_1_l. case_decide; [subst; by rewrite Z.pow2_bits_true, orb_true_r by lia|].
    by rewrite Z.pow2_bits_false, orb_false_r by done.
  - rewrite Z.land_spec, not8_bit by done. case_decide; [subst; by rewrite Z.eqb_refl, andb_false_r|].
    by rewrite (proj2 (Z.eqb_neq n k)), andb_true_r by done.
Qed.

Lemma bitmap_get_testbit m r a : bitmap_get m r a = Z.testbit (byte m (rbitmap r + frame_index r a / 8)) (frame_index r a mod 8).
Proof. unfold bitmap_get. apply land_bit_test. apply Z.mod_pos_bound. lia. Qed.

Lemma byte_insert m a v x : byte (<[a := v]> m) x = if decide (x = a) then v else byte m x.
Proof. unfold byte. case_decide; [subst; by rewrite lookup_insert_eq|by rewrite lookup_insert_ne]. Qed.

(** ** Ranges *)

(** The bitmap starts at [base] in physical memory and has a bit for every frame. *)
Definition base (off : Z) (r : FrameRange) : Z := rbitmap r - off.

Record range_ok (off : Z) (r : FrameRange) : Prop := {
  r_aligned : aligned (rstart r) ∧ aligned (rnext r) ∧ aligned (rend r);
  r_order : 0x100000 ≤ base off r ∧ base off r < rstart r ∧ rstart r ≤ rnext r ∧ rnext r ≤ rend r ∧ rend r ≤ 2 ^ 52;
  r_bits : rend r - rstart r ≤ 8 * FRAME_SIZE * (rstart r - base off r);
  r_hint : rstart r ≤ overflow_hint r ∧ (overflow_hint r = u64_max ∨ aligned (overflow_hint r))
}.

Definition shape (r : FrameRange) : Z * Z * Z * Z := (rstart r, rend r, rdomain r, rbitmap r).

Definition apart (off : Z) (rs : list FrameRange) : Prop :=
  ∀ i j r r', rs !! i = Some r → rs !! j = Some r' → i ≠ j → rend r ≤ base off r' ∨ rend r' ≤ base off r.

(** A frame of the range [r] (below [rend r]); a frame it has issued (below [rnext r]). *)
Definition frame_of (r : FrameRange) (a : Z) : Prop := rstart r ≤ a < rend r ∧ aligned a.
Definition issued_of (r : FrameRange) (a : Z) : Prop := rstart r ≤ a < rnext r ∧ aligned a.

Definition pool (s : PhysicalFrameAllocator) (a : Z) : Prop := ∃ i r, ranges s !! i = Some r ∧ frame_of r a.
Definition issued (s : PhysicalFrameAllocator) (a : Z) : Prop := ∃ i r, ranges s !! i = Some r ∧ issued_of r a.

Lemma index_of r a : aligned (rstart r) → aligned a → rstart r ≤ a →
  a = rstart r + FRAME_SIZE * frame_index r a ∧ 0 ≤ frame_index r a.
Proof.
  unfold aligned, frame_index, FRAME_SIZE. intros. split; Z.to_euclidean_division_equations; lia.
Qed.

(** The bitmap's bytes lie between the bitmap's start and the first frame. *)
Lemma bitmap_byte off r a :
  range_ok off r → frame_of r a → base off r + off ≤ rbitmap r + frame_index r a / 8 < off + rstart r.
Proof.
  intros [(Ha1 & _ & Ha3) (Hb & Hb' & Ho & Ho' & _) Hbits _] [Hr Ha]. destruct (index_of r a Ha1 Ha ltac:(lia)) as [He Hi].
  unfold base, FRAME_SIZE in *. set (x := frame_index r a) in *. assert (x < 8 * (rstart r - (rbitmap r - off))) by lia.
  Z.to_euclidean_division_equations; lia.
Qed.

Lemma div_mod_8_inj x y : x / 8 = y / 8 → x mod 8 = y mod 8 → x = y.
Proof. intros. Z.to_euclidean_division_equations; lia. Qed.

(** Setting a bit changes that frame's bit and no other, in any range. *)
Lemma bitmap_get_set off rs i j r rj a a' b m :
  (∀ i r, rs !! i = Some r → range_ok off r) → apart off rs →
  rs !! i = Some r → rs !! j = Some rj → frame_of r a → frame_of rj a' →
  bitmap_get (bitmap_set r a b m) rj a' = if decide (a' = a) then b else bitmap_get m rj a'.
Proof.
  intros Hok Hap Hi Hj Ha Ha'. pose proof (Hok i r Hi) as Hr. pose proof (Hok j rj Hj) as Hrj.
  rewrite !bitmap_get_testbit. unfold bitmap_set. rewrite byte_insert.
  pose proof (bitmap_byte off r a Hr Ha) as Hb1. pose proof (bitmap_byte off rj a' Hrj Ha') as Hb2.
  pose proof (r_order _ _ Hr) as Ho1. pose proof (r_order _ _ Hrj) as Ho2.
  destruct (decide (i = j)) as [->|Hne].
  - rewrite Hi in Hj. injection Hj as <-.
    destruct (index_of r a (proj1 (r_aligned _ _ Hr)) (proj2 Ha) ltac:(apply Ha)) as [He Hx].
    destruct (index_of r a' (proj1 (r_aligned _ _ Hr)) (proj2 Ha') ltac:(apply Ha')) as [He' Hx'].
    unfold FRAME_SIZE in *. case_decide as Hptr.
    + rewrite set_bit_test by (apply Z.mod_pos_bound; lia).
      assert (Heq : frame_index r a' mod 8 = frame_index r a mod 8 ↔ a' = a).
      { split; [|by intros ->]. intros Hm. assert (frame_index r a' = frame_index r a) by (apply div_mod_8_inj; [lia|done]). lia. }
      repeat case_decide; try tauto. by rewrite Hptr.
    + rewrite decide_False; [done|]. by intros ->.
  - pose proof (Hap i j r rj Hi Hj Hne) as Hd. destruct Ha as [Ha _], Ha' as [Ha' _]. rewrite !decide_False; [done|unfold base in *; lia..].
Qed.

(** Bitmap writes never touch the contents of a frame. *)
Lemma set_keeps_frames off rs i j r rj a b m x :
  (∀ i r, rs !! i = Some r → range_ok off r) → apart off rs →
  rs !! i = Some r → rs !! j = Some rj → frame_of r a → rstart rj ≤ x < rend rj →
  byte (bitmap_set r a b m) (off + x) = byte m (off + x).
Proof.
  intros Hok Hap Hi Hj Ha Hx. pose proof (Hok i r Hi) as Hr. pose proof (Hok j rj Hj) as Hrj.
  pose proof (bitmap_byte off r a Hr Ha) as Hb. unfold bitmap_set. rewrite byte_insert, decide_False; [done|].
  pose proof (r_order _ _ Hr) as Ho1. pose proof (r_order _ _ Hrj) as Ho2. unfold base in *.
  destruct (decide (i = j)) as [->|Hne]; [rewrite Hi in Hj; injection Hj as <-; lia|].
  pose proof (Hap i j r rj Hi Hj Hne) as Hd. unfold base in *. lia.
Qed.

(** A frame has one range. *)
Lemma frame_unique off rs i j r rj a :
  (∀ i r, rs !! i = Some r → range_ok off r) → apart off rs →
  rs !! i = Some r → rs !! j = Some rj → rstart r ≤ a < rend r → rstart rj ≤ a < rend rj → i = j ∧ r = rj.
Proof.
  intros Hok Hap Hi Hj Ha Ha'. pose proof (r_order _ _ (Hok i r Hi)) as Ho1. pose proof (r_order _ _ (Hok j rj Hj)) as Ho2.
  destruct (decide (i = j)) as [->|Hne]; [split; congruence|]. pose proof (Hap i j r rj Hi Hj Hne). unfold base in *. lia.
Qed.

(** ** The invariant *)
Definition frames_total (rs : list FrameRange) : Z := foldr (λ r n, (rend r - rstart r) / FRAME_SIZE + n) 0 rs.

(** The cached addresses. *)
Definition cached (s : PhysicalFrameAllocator) : list Z := (reclaimed s).*1.

Record FInv (off : Z) (s : PhysicalFrameAllocator) (live lost : gset Z) : Prop := {
  f_ok : ∀ i r, ranges s !! i = Some r → range_ok off r;
  f_apart : apart off (ranges s);
  f_current : (current_range s < length (ranges s))%nat;
  f_issued : ∀ a, issued s a ↔ a ∈ live ∨ a ∈ lost ∨ a ∈ cached s;
  f_live : ∀ a, a ∈ live → a ∉ lost ∧ a ∉ cached s;
  f_lost : ∀ a, a ∈ lost → a ∉ cached s;
  f_nodup : NoDup (cached s);
  f_cap : (length (reclaimed s) ≤ MAX_RECLAIMED_FRAMES)%nat;
  f_bits : ∀ i r a, ranges s !! i = Some r → issued_of r a → bitmap_get (phys s) r a = bool_decide (a ∈ live);
  f_hint : ∀ i r a, ranges s !! i = Some r → issued_of r a → a ∈ lost → overflow_hint r ≤ a;
  f_live_count : allocated_frames s = Z.of_nat (size live);
  f_lost_count : reclaimed_untracked s = Z.of_nat (size lost);
  f_total : total_frames s = frames_total (ranges s);
  f_init : initialized s = true;
  f_max : total_frames s ≤ u64_max
}.

Definition marked (b : bool) (a : Z) (live : gset Z) : gset Z := if b then {[a]} ∪ live else live ∖ {[a]}.

Lemma shape_inj r r' : shape r' = shape r → rstart r' = rstart r ∧ rend r' = rend r ∧ rbitmap r' = rbitmap r.
Proof. unfold shape. by intros [= -> -> _ ->]. Qed.

Lemma shape_get m r r' a : shape r' = shape r → bitmap_get m r' a = bitmap_get m r a.
Proof. intros (E1 & _ & E3)%shape_inj. unfold bitmap_get, frame_index. by rewrite E1, E3. Qed.

Lemma apart_insert off rs i r r' : rs !! i = Some r → shape r' = shape r → apart off rs → apart off (<[i := r']> rs).
Proof.
  intros Hi (E1 & E2 & E3)%shape_inj Hap j k rj rk Hj Hk Hne.
  apply list_lookup_insert_Some in Hj as [(<- & <- & _)|[Hj' Hj]];
    apply list_lookup_insert_Some in Hk as [(<- & <- & _)|[Hk' Hk]]; [done|..]; unfold base; rewrite ?E2, ?E3; by eapply Hap.
Qed.

Lemma frames_total_insert rs i r r' : rs !! i = Some r → shape r' = shape r → frames_total (<[i := r']> rs) = frames_total rs.
Proof.
  intros Hi (E1 & E2 & _)%shape_inj. revert i Hi. induction rs as [|r0 rs IH]; intros [|i] Hi; try done; cbn in *.
  - injection Hi as ->. by rewrite E1, E2.
  - by rewrite IH.
Qed.

Lemma frame_of_shape r r' a : shape r' = shape r → frame_of r' a ↔ frame_of r a.
Proof. intros (E1 & E2 & _)%shape_inj. unfold frame_of. by rewrite E1, E2. Qed.

(** Marking one frame [a] of range [i], the range's cursor and hint moving along. *)
Lemma FInv_mark off s live lost i r r' a (b : bool) s' lost' :
  FInv off s live lost → ranges s !! i = Some r → shape r' = shape r → range_ok off r' → frame_of r a →
  rnext r ≤ rnext r' → (∀ x, rnext r ≤ x < rnext r' → aligned x → x = a) → a < rnext r' →
  ranges s' = <[i := r']> (ranges s) → phys s' = bitmap_set r a b (phys s) →
  (current_range s' < length (ranges s))%nat → total_frames s' = total_frames s → initialized s' = initialized s →
  (∀ x, x ≠ a → x ∈ lost' ↔ x ∈ lost) → (∀ x, x ≠ a → x ∈ cached s' ↔ x ∈ cached s) →
  (if b then a ∉ lost' ∧ a ∉ cached s' else a ∈ lost' ∨ a ∈ cached s') → (a ∈ lost' → a ∉ cached s') →
  NoDup (cached s') → (length (reclaimed s') ≤ MAX_RECLAIMED_FRAMES)%nat →
  (∀ x, issued_of r' x → x ∈ lost' → overflow_hint r' ≤ x) →
  allocated_frames s' = Z.of_nat (size (marked b a live)) → reclaimed_untracked s' = Z.of_nat (size lost') →
  FInv off s' (marked b a live) lost'.
Proof.
  intros [Hok Hap Hcur His Hlive Hlost Hnd Hcap Hbits Hhint Hlc Hoc Htot Hin Hmax] Hi Hsh Hr' Ha Hle Hnew Hlt Er Ep Hc Et Ei
    Hl' Hc' Hab Haa Hnd' Hcap' Hh' Hcount Hcount'.
  pose proof (shape_inj _ _ Hsh) as (E1 & E2 & E3). pose proof (Hok i r Hi) as Hr.
  assert (Hlook : ∀ j rj, ranges s' !! j = Some rj → j = i ∧ rj = r' ∨ j ≠ i ∧ ranges s !! j = Some rj).
  { intros j rj. rewrite Er. intros [(-> & <- & _)|[? ?]]%list_lookup_insert_Some; [by left|right]. by split. }
  assert (Hi' : ranges s' !! i = Some r') by (rewrite Er; apply list_lookup_insert_eq; by eapply lookup_lt_Some).
  assert (Ha' : issued_of r' a) by (destruct Ha as [[? ?] ?]; unfold issued_of; rewrite E1; done).
  assert (Hissued : ∀ x, x ≠ a → issued s' x ↔ issued s x).
  { intros x Hx. split; intros (j & rj & Hj & Hxj).
    - destruct (Hlook j rj Hj) as [[-> ->]|[Hne Hj']]; [|by exists j, rj]. exists i, r. split; [done|].
      destruct Hxj as [Hxj Hal]. split; [|done]. rewrite E1 in Hxj.
      destruct (decide (rnext r ≤ x)); [|lia]. exfalso. apply Hx, Hnew; [lia|done].
    - destruct (decide (j = i)) as [->|Hne].
      + exists i, r'. split; [done|]. rewrite Hi in Hj. injection Hj as <-. destruct Hxj. split; [rewrite E1; lia|done].
      + exists j, rj. split; [|done]. rewrite Er, list_lookup_insert_ne by done. done. }
  assert (Hmem : ∀ x, x ≠ a → x ∈ marked b a live ↔ x ∈ live) by (intros x Hx; unfold marked; destruct b; set_solver).
  assert (Hmema : a ∈ marked b a live ↔ b = true) by (unfold marked; destruct b; set_solver).
  split.
  - intros j rj Hj. destruct (Hlook j rj Hj) as [[-> ->]|[_ Hj']]; [done|by eapply Hok].
  - rewrite Er. by eapply apart_insert.
  - by rewrite Er, length_insert.
  - intros x. destruct (decide (x = a)) as [->|Hx]; [|rewrite Hissued, Hmem, Hl', Hc' by done; apply His].
    split; [|by intros _; exists i, r']. intros _. rewrite Hmema. destruct b; [by left|right]. done.
  - intros x Hxl. destruct (decide (x = a)) as [->|Hx].
    + rewrite Hmema in Hxl. subst b. done.
    + rewrite Hmem in Hxl by done. rewrite Hl', Hc' by done. by apply Hlive.
  - intros x Hxl. destruct (decide (x = a)) as [->|Hx]; [by apply Haa|]. rewrite Hc' by done. apply Hlost. by apply Hl'.
  - done.
  - done.
  - intros j rj x Hj Hx. assert (Hfx : ∃ r0, ranges s !! j = Some r0 ∧ shape rj = shape r0 ∧ frame_of r0 x ∧ (x ≠ a → issued_of r0 x)) .
    { destruct (Hlook j rj Hj) as [[-> ->]|[Hne Hj']].
      - exists r. split_and!; [done..| |].
        + destruct Hx as [Hx ?]. pose proof (r_order _ _ Hr'). split; [|done]. lia.
        + intros Hxa. destruct Hx as [Hx Hal]. split; [|done]. rewrite E1 in Hx.
          destruct (decide (rnext r ≤ x)); [|lia]. exfalso. apply Hxa, Hnew; [lia|done].
      - exists rj. split_and!; [done..| |done]. destruct Hx as [Hx ?]. pose proof (r_order _ _ (Hok _ _ Hj')). split; [lia|done]. }
    destruct Hfx as (r0 & Hj0 & Hs0 & Hf0 & Hi0). rewrite (shape_get _ _ _ _ Hs0), Ep.
    rewrite (bitmap_get_set off (ranges s) i j r r0 a x b) by done. case_decide as Hxa.
    + subst x. destruct b; symmetry; [by apply bool_decide_eq_true, Hmema|apply bool_decide_eq_false; by rewrite Hmema].
    + rewrite (Hbits j r0 x Hj0 (Hi0 Hxa)). apply bool_decide_ext. symmetry. by apply Hmem.
  - intros j rj x Hj Hx Hxl. destruct (Hlook j rj Hj) as [[-> ->]|[Hne Hj']]; [by apply Hh'|].
    destruct (decide (x = a)) as [->|Hxa]; [|apply (Hhint j rj x Hj' Hx); by apply Hl'].
    exfalso. apply Hne. pose proof (r_order _ _ (Hok _ _ Hj')). destruct Hx as [Hx _].
    destruct (frame_unique off (ranges s) j i rj r a Hok Hap Hj' Hi ltac:(lia) (proj1 Ha)). done.
  - done.
  - done.
  - rewrite Et, Htot, Er. symmetry. by eapply frames_total_insert.
  - by rewrite Ei.
  - by rewrite Et.
Qed.

(** ** Handing out a frame *)

(** What an operation leaves behind: the shapes of the ranges, and the contents of all frames. *)
Definition quiet (off : Z) (s s' : PhysicalFrameAllocator) : Prop :=
  shape <$> ranges s' = shape <$> ranges s ∧
  ∀ i r x, ranges s !! i = Some r → rstart r ≤ x < rend r → byte (phys s') (off + x) = byte (phys s) (off + x).

Lemma quiet_refl off s : quiet off s s.
Proof. done. Qed.

Lemma shapes_lookup (rs rs' : list FrameRange) i r : shape <$> rs' = shape <$> rs → rs !! i = Some r → ∃ r', rs' !! i = Some r' ∧ shape r' = shape r.
Proof.
  intros He Hi. apply (f_equal (.!! i)) in He. rewrite !list_lookup_fmap, Hi in He. cbn in He.
  destruct (rs' !! i) as [r'|]; [|done]. injection He as He1 He2 He3 He4. exists r'. split; [done|]. unfold shape. congruence.
Qed.

Lemma quiet_trans off s1 s2 s3 : quiet off s1 s2 → quiet off s2 s3 → quiet off s1 s3.
Proof.
  intros [E1 H1] [E2 H2]. split; [congruence|]. intros i r x Hi Hx. destruct (shapes_lookup _ _ i r E1 Hi) as (r' & Hi' & Hs).
  pose proof (shape_inj _ _ Hs) as (Ha & Hb & _). rewrite (H2 i r' x Hi') by lia. by eapply H1.
Qed.

Lemma quiet_pool off s s' a : quiet off s s' → pool s' a ↔ pool s a.
Proof.
  intros [E _]. split; intros (i & r & Hi & Ha).
  - symmetry in E. destruct (shapes_lookup _ _ i r E Hi) as (r' & Hi' & Hs). exists i, r'. split; [done|]. by eapply frame_of_shape.
  - destruct (shapes_lookup _ _ i r E Hi) as (r' & Hi' & Hs). exists i, r'. split; [done|]. by eapply frame_of_shape.
Qed.

(** Writing range [i] back with the same shape and marking a bit of it is quiet. *)
Lemma quiet_mark off s live lost i r r' a b s' :
  FInv off s live lost → ranges s !! i = Some r → shape r' = shape r → frame_of r a →
  ranges s' = <[i := r']> (ranges s) → phys s' = bitmap_set r a b (phys s) → quiet off s s'.
Proof.
  intros HI Hi Hsh Ha Er Ep. split.
  - rewrite Er, list_fmap_insert, Hsh. apply list_insert_id. by rewrite list_lookup_fmap, Hi.
  - intros j rj x Hj Hx. rewrite Ep. eapply set_keeps_frames; [apply HI|apply HI|exact Hi|exact Hj|done|done].
Qed.

Lemma issued_frame off s live lost i r a : FInv off s live lost → ranges s !! i = Some r → issued_of r a → frame_of r a.
Proof. intros HI Hi [Ha Hal]. pose proof (r_order _ _ (f_ok _ _ _ _ HI i r Hi)). split; [lia|done]. Qed.

Lemma frame_address off s live lost a : FInv off s live lost → pool s a → phys_frame a = Some a ∧ a ∉ (∅ : gset Z).
Proof.
  intros HI (i & r & Hi & Ha & Hal). pose proof (r_order _ _ (f_ok _ _ _ _ HI i r Hi)). unfold phys_frame.
  rewrite (proj2 (Z.ltb_lt a (2 ^ 52))), (proj2 (Z.eqb_eq _ _) Hal) by lia. split; [done|set_solver].
Qed.

Lemma size_mark_true a live : a ∉ live → size (marked true a live) = S (size live).
Proof. intros Ha. unfold marked. rewrite size_union by set_solver. by rewrite size_singleton. Qed.

Lemma size_mark_false a live : a ∈ live → S (size (marked false a live)) = size live.
Proof.
  intros Ha. unfold marked. rewrite size_difference by set_solver. rewrite size_singleton.
  assert (size live ≠ 0%nat); [|lia]. rewrite size_non_empty_iff. set_solver.
Qed.

(** A frame was handed out: new, from the pool. *)
Definition handed (off : Z) (s : PhysicalFrameAllocator) (live : gset Z) (s' : PhysicalFrameAllocator) (a : Z) : Prop :=
  pool s a ∧ a ∉ live ∧ (∃ lost', FInv off s' (marked true a live) lost') ∧ quiet off s s'.

Lemma swap_remove_perm i l e : l !! i = Some e → e :: swap_remove i l ≡ₚ l.
Proof.
  intros Hi. unfold swap_remove. pose proof (lookup_lt_Some _ _ _ Hi) as Hlt.
  destruct l as [|x l _] using rev_ind; [done|]. rewrite length_app. cbn [length]. replace (length l + 1 - 1)%nat with (length l) by lia.
  rewrite lookup_app_r, Nat.sub_diag by lia. cbn [lookup list_lookup]. rewrite length_app in Hlt. cbn [length] in Hlt.
  destruct (decide (i = length l)) as [->|Hne].
  - rewrite lookup_app_r, Nat.sub_diag in Hi by lia. injection Hi as ->.
    rewrite list_insert_id by (by rewrite lookup_app_r, Nat.sub_diag by lia). rewrite take_app_length. by rewrite Permutation_app_comm.
  - rewrite lookup_app_l in Hi by lia. rewrite insert_app_l by lia. rewrite take_app_le, take_ge by (rewrite ?length_insert; lia).
    rewrite insert_take_drop by lia. rewrite <-(take_drop_middle l i e Hi) at 3. rewrite <-app_assoc. cbn [app].
    rewrite <-(Permutation_middle _ (_ ++ [x])). apply Permutation_skip, Permutation_app_head, Permutation_cons_append.
Qed.

(** *** From the cache *)
Lemma pick_reclaimed_lt s p : reclaimed s ≠ [] → (pick_reclaimed s p < length (reclaimed s))%nat.
Proof.
  intros Hne. unfold pick_reclaimed. assert (0 < length (reclaimed s))%nat by (by destruct (reclaimed s); [|cbn; lia]).
  destruct p as [d|]; [|lia]. destruct (list_find _ _) as [[i e]|]; lia.
Qed.

Lemma find_range off s live lost i r a (bound : FrameRange → Z) :
  FInv off s live lost → ranges s !! i = Some r → rstart r ≤ a < bound r → (∀ r', range_ok off r' → bound r' ≤ rend r') →
  list_find (λ r, (rstart r <=? a) && (a <? bound r) = true) (ranges s) = Some (i, r).
Proof.
  intros HI Hi Ha Hb. pose proof (f_ok _ _ _ _ HI) as Hok. apply list_find_Some. split_and!; [done|apply andb_true_iff; lia|].
  intros j r' Hj Hlt Hc. apply andb_true_iff in Hc as [H1%Z.leb_le H2%Z.ltb_lt].
  pose proof (Hb _ (Hok _ _ Hi)). pose proof (Hb _ (Hok _ _ Hj)).
  destruct (frame_unique off _ i j r r' a Hok (f_apart _ _ _ _ HI) Hi Hj ltac:(lia) ltac:(lia)). lia.
Qed.

Lemma take_reclaimed_spec off s live lost p :
  FInv off s live lost → reclaimed s ≠ [] →
  ∃ s' a, take_reclaimed s p = (s', Some a) ∧ handed off s live s' a.
Proof.
  intros HI Hne. unfold take_reclaimed. destruct (lookup_lt_is_Some_2 _ _ (pick_reclaimed_lt s p Hne)) as [[a d] Hi]. rewrite Hi.
  pose proof (swap_remove_perm _ _ _ Hi) as Hperm. set (l' := swap_remove _ _) in *.
  assert (Hc : a :: l'.*1 ≡ₚ cached s) by (unfold cached; by rewrite <-Hperm).
  assert (Hac : a ∈ cached s) by (rewrite <-Hc; set_solver).
  destruct (proj2 (f_issued _ _ _ _ HI a) ltac:(by right; right)) as (i & r & Hr & Ha).
  pose proof (issued_frame _ _ _ _ _ _ _ HI Hr Ha) as Hf.
  change (ranges (set_reclaimed l' s)) with (ranges s).
  rewrite (find_range off s live lost i r a rend HI Hr (proj1 Hf)) by done.
  assert (Hp : pool s a) by (by exists i, r). rewrite (proj1 (frame_address _ _ _ _ _ HI Hp)).
  assert (Hnl : a ∉ live) by (intros Hl; by apply (f_live _ _ _ _ HI) in Hl as [_ []]).
  assert (Hnd : NoDup (a :: l'.*1)) by (rewrite Hc; apply HI). apply NoDup_cons in Hnd as [Hnin Hnd].
  eexists _, a. split; [done|]. split_and!; [done|done| |].
  - exists lost. eapply (FInv_mark off s live lost i r r a true); try done; cbn [set_allocated set_phys set_reclaimed ranges phys current_range total_frames initialized reclaimed allocated_frames reclaimed_untracked cached].
    + by eapply (f_ok _ _ _ _ HI).
    + intros x Hx Hal. lia.
    + by destruct Ha as [[? ?] ?].
    + symmetry. by apply list_insert_id.
    + by apply HI.
    + intros x Hx. unfold cached at 1. cbn [reclaimed]. rewrite <-Hc. set_solver.
    + split; [|done]. intros Hl. by apply (f_lost _ _ _ _ HI) in Hl.
    + apply Permutation_length in Hperm. pose proof (f_cap _ _ _ _ HI). cbn [length] in Hperm. lia.
    + intros x Hx Hl. by eapply (f_hint _ _ _ _ HI i r).
    + rewrite size_mark_true, (f_live_count _ _ _ _ HI) by done. lia.
    + apply HI.
  - eapply (quiet_mark off s live lost i r r a true); try done. cbn. symmetry. by apply list_insert_id.
Qed.

(** *** The order of the ranges *)
Lemma rotation_lt s i : i ∈ rotation s → (i < length (ranges s))%nat.
Proof.
  unfold rotation. intros (k & -> & Hk%elem_of_seq)%list_elem_of_fmap. apply Nat.mod_upper_bound. lia.
Qed.

Lemma rotation_all s i : (current_range s < length (ranges s))%nat → (i < length (ranges s))%nat → i ∈ rotation s.
Proof.
  intros Hc Hi. set (n := length (ranges s)) in *. unfold rotation. fold n. apply list_elem_of_fmap.
  destruct (decide (current_range s ≤ i)%nat) as [Hle|Hlt].
  - exists (i - current_range s)%nat. rewrite elem_of_seq. split; [|lia].
    replace (current_range s + (i - current_range s))%nat with i by lia. by rewrite Nat.mod_small.
  - exists (n - current_range s + i)%nat. rewrite elem_of_seq. split; [|lia].
    replace (current_range s + (n - current_range s + i))%nat with (i + 1 * n)%nat by lia. by rewrite Nat.Div0.mod_add, Nat.mod_small.
Qed.

Lemma order_lt s p i : i ∈ order s p → (i < length (ranges s))%nat.
Proof. unfold order. rewrite elem_of_app, list_elem_of_filter. intros [[_ H]|H]; by apply rotation_lt. Qed.

Lemma order_all off s live lost p i : FInv off s live lost → (i < length (ranges s))%nat → i ∈ order s p.
Proof. intros HI Hi. unfold order. apply elem_of_app. right. by apply rotation_all; [apply HI|]. Qed.

(** *** Fresh frames *)

(** The next frame of range [i] is taken: the cursor moves on, the bit is set. *)
Definition bump (i : nat) (r : FrameRange) (s : PhysicalFrameAllocator) : PhysicalFrameAllocator :=
  set_allocated (allocated_frames s + 1)
    (set_range i (set_rnext (rnext r + FRAME_SIZE) r) (set_phys (bitmap_set r (rnext r) true (phys s)) s)).

Lemma set_current_inv off s live lost c : FInv off s live lost → (c < length (ranges s))%nat → FInv off (set_current c s) live lost.
Proof. intros [] Hc. by split. Qed.

Lemma bump_spec off s live lost i r :
  FInv off s live lost → ranges s !! i = Some r → rnext r < rend r →
  frame_of r (rnext r) ∧ rnext r ∉ live ∧ FInv off (bump i r s) (marked true (rnext r) live) lost ∧ quiet off s (bump i r s).
Proof.
  intros HI Hi Hlt. pose proof (f_ok _ _ _ _ HI i r Hi) as Hr. destruct Hr as [(Hal1 & Hal2 & Hal3) Ho Hb Hh] eqn:Heq. clear Heq.
  assert (Hf : frame_of r (rnext r)) by (split; [lia|done]).
  assert (Hni : ¬ issued s (rnext r)).
  { intros (j & rj & Hj & Hx & _). pose proof (r_order _ _ (f_ok _ _ _ _ HI j rj Hj)).
    destruct (frame_unique off _ i j r rj (rnext r) (f_ok _ _ _ _ HI) (f_apart _ _ _ _ HI) Hi Hj) as [_ <-]; lia. }
  rewrite (f_issued _ _ _ _ HI) in Hni. assert (Hnl : rnext r ∉ live) by tauto. assert (Hlim : rnext r + FRAME_SIZE ≤ rend r).
  { unfold aligned, FRAME_SIZE in *. Z.to_euclidean_division_equations; lia. }
  split_and!; [done|done| |].
  - eapply (FInv_mark off s live lost i r (set_rnext (rnext r + FRAME_SIZE) r) (rnext r) true); try done;
      cbn [bump set_allocated set_range set_ranges set_phys ranges phys current_range total_frames initialized reclaimed allocated_frames reclaimed_untracked set_rnext rnext].
    + split; cbn [set_rnext rstart rnext rend rbitmap overflow_hint base]; [|unfold base in *; cbn [set_rnext rbitmap]; unfold FRAME_SIZE in *; lia|done|done].
      split_and!; [done| |done]. unfold aligned, FRAME_SIZE in *. Z.to_euclidean_division_equations; lia.
    + unfold FRAME_SIZE. lia.
    + intros x Hx Hax. unfold aligned, FRAME_SIZE in *. Z.to_euclidean_division_equations; lia.
    + unfold FRAME_SIZE. lia.
    + apply HI.
    + unfold cached. cbn [reclaimed]. split; tauto.
    + tauto.
    + apply HI.
    + apply HI.
    + intros x [Hx Hax] Hl. cbn [set_rnext rstart rnext overflow_hint] in *. apply (f_hint _ _ _ _ HI i r x Hi); [|done]. split; [|done].
      assert (x ≠ rnext r) by (intros ->; tauto). unfold aligned, FRAME_SIZE in *. Z.to_euclidean_division_equations; lia.
    + rewrite size_mark_true, (f_live_count _ _ _ _ HI) by done. lia.
    + apply HI.
  - eapply (quiet_mark off s live lost i r (set_rnext (rnext r + FRAME_SIZE) r) (rnext r) true); try done.
Qed.

Lemma take_fresh_spec off s live lost is_ :
  FInv off s live lost → (∀ i, i ∈ is_ → (i < length (ranges s))%nat) →
  (take_fresh is_ s = (s, None) ∧ ∀ i r, i ∈ is_ → ranges s !! i = Some r → rend r ≤ rnext r) ∨
  ∃ s' a, take_fresh is_ s = (s', Some a) ∧ handed off s live s' a.
Proof.
  intros HI. induction is_ as [|i is_ IH]; intros Hlt; [left; split; [done|set_solver]|].
  destruct (lookup_lt_is_Some_2 (ranges s) i (Hlt i ltac:(set_solver))) as [r Hi]. cbn [take_fresh]. rewrite Hi.
  destruct (Z.ltb_spec (rnext r) (rend r)) as [Hroom|Hfull].
  - right. destruct (bump_spec off s live lost i r HI Hi Hroom) as (Hf & Hnl & HI' & Hq).
    assert (Hp : pool s (rnext r)) by (by exists i, r). rewrite (proj1 (frame_address _ _ _ _ _ HI Hp)).
    eexists _, (rnext r). split; [done|]. split_and!; [done|done| |exact Hq].
    exists lost. set (c := if _ <=? _ then _ else i).
    match goal with |- FInv _ ?x _ _ => change x with (set_current c (bump i r s)) end. apply set_current_inv; [exact HI'|]. subst c. cbn [bump set_allocated set_range set_ranges set_phys ranges]. rewrite length_insert.
    pose proof (lookup_lt_Some _ _ _ Hi). destruct (_ <=? _); [apply Nat.mod_upper_bound; lia|done].
  - destruct IH as [[H1 H2]|H]; [set_solver| |by right]. left. split; [done|].
    intros j rj [->|Hj]%elem_of_cons Hrj; [|by eapply H2]. rewrite Hi in Hrj. by injection Hrj as <-.
Qed.

(** *** Frames the cache had no room for *)
Lemma scan_bits_spec off s live lost i r fuel address :
  FInv off s live lost → ranges s !! i = Some r → reclaimed s = [] → aligned address → rstart r ≤ address →
  rnext r - address ≤ Z.of_nat fuel * FRAME_SIZE → (∀ x, issued_of r x → x ∈ lost → address ≤ x) →
  match scan_bits fuel (phys s) r address with
  | Some a => issued_of r a ∧ a ∈ lost ∧ ∀ x, issued_of r x → x ∈ lost → a ≤ x
  | None => ∀ x, issued_of r x → x ∉ lost
  end.
Proof.
  intros HI Hi Hrec. revert address. induction fuel as [|fuel IH]; intros address Hal Hge Hfuel Hlow; cbn [scan_bits].
  { intros x Hx Hl. specialize (Hlow x Hx Hl). destruct Hx. lia. }
  destruct (Z.ltb_spec address (rnext r)) as [Hlt|Hend]; [|intros x Hx Hl; specialize (Hlow x Hx Hl); destruct Hx; lia].
  assert (Hia : issued_of r address) by (split; [lia|done]). rewrite (f_bits _ _ _ _ HI i r address Hi Hia).
  destruct (bool_decide_reflect (address ∈ live)) as [Hl|Hl]; cbn [negb].
  - apply IH; [| |unfold FRAME_SIZE in *; lia|].
    + unfold aligned, FRAME_SIZE in *. Z.to_euclidean_division_equations; lia.
    + unfold FRAME_SIZE. lia.
    + intros x Hx Hxl. specialize (Hlow x Hx Hxl). destruct Hx as [Hx Hax].
      assert (x ≠ address) by (intros ->; by apply (f_live _ _ _ _ HI) in Hl as [? _]).
      unfold aligned, FRAME_SIZE in *. Z.to_euclidean_division_equations; lia.
  - split_and!; [done| |done]. assert (Hiss : issued s address) by (by exists i, r).
    apply (f_issued _ _ _ _ HI) in Hiss as [?|[?|Hc]]; [done..|]. unfold cached in Hc. rewrite Hrec in Hc. set_solver.
Qed.

Lemma scan_range_spec off s live lost i r :
  FInv off s live lost → ranges s !! i = Some r → reclaimed s = [] →
  match scan_bits (scan_fuel r) (phys s) r (overflow_hint r) with
  | Some a => issued_of r a ∧ a ∈ lost ∧ ∀ x, issued_of r x → x ∈ lost → a ≤ x
  | None => ∀ x, issued_of r x → x ∉ lost
  end.
Proof.
  intros HI Hi Hrec. pose proof (f_ok _ _ _ _ HI i r Hi) as Hr. pose proof (r_hint _ _ Hr) as [Hge Hh]. pose proof (r_order _ _ Hr) as Ho.
  assert (Hlow : ∀ x, issued_of r x → x ∈ lost → overflow_hint r ≤ x) by (intros x Hx Hl; by eapply (f_hint _ _ _ _ HI)).
  destruct Hh as [Hmax|Hal].
  - assert (Hno : ∀ x, issued_of r x → x ∉ lost).
    { intros x Hx Hl. specialize (Hlow x Hx Hl). destruct Hx. unfold u64_max in Hmax. lia. }
    rewrite Hmax. destruct (scan_fuel r); cbn [scan_bits]; [done|]. rewrite (proj2 (Z.ltb_ge _ _)) by (unfold u64_max; lia). done.
  - apply (scan_bits_spec off s live lost i r); try done. unfold scan_fuel, div_ceil, FRAME_SIZE.
    case_match; reflect_bools; Z.to_euclidean_division_equations; lia.
Qed.

(** Giving up on a range without lost frames. *)
Lemma drop_hint_inv off s live lost i r :
  FInv off s live lost → ranges s !! i = Some r → (∀ x, issued_of r x → x ∉ lost) →
  FInv off (set_range i (set_hint u64_max r) s) live lost ∧ quiet off s (set_range i (set_hint u64_max r) s).
Proof.
  intros HI Hi Hno. pose proof HI as [Hok Hap Hcur His Hlive Hlost Hnd Hcap Hbits Hhint Hlc Hoc Htot Hin Hmax].
  assert (Hlook : ∀ j rj, <[i := set_hint u64_max r]> (ranges s) !! j = Some rj →
    ∃ r0, ranges s !! j = Some r0 ∧ shape rj = shape r0 ∧ rnext rj = rnext r0 ∧ (rj = r0 ∨ j = i ∧ rj = set_hint u64_max r)).
  { intros j rj [(-> & <- & _)|[? ?]]%list_lookup_insert_Some; [exists r; by split_and!; [..|right]|exists rj; by split_and!; [..|left]]. }
  assert (Hsh : shape <$> <[i := set_hint u64_max r]> (ranges s) = shape <$> ranges s).
  { rewrite list_fmap_insert. apply list_insert_id. by rewrite list_lookup_fmap, Hi. }
  split; [|by split]. split; cbn [set_range set_ranges ranges phys current_range total_frames initialized reclaimed allocated_frames reclaimed_untracked]; try done.
  - intros j rj Hj. destruct (Hlook j rj Hj) as (r0 & H0 & _ & _ & [->|[-> ->]]); [by eapply Hok|].
    destruct (Hok i r Hi) as [? Ho ? ?]. split; [done|done|done|]. cbn [set_hint rstart overflow_hint].
    split; [unfold u64_max; lia|by left].
  - by eapply apart_insert.
  - by rewrite length_insert.
  - intros a. rewrite <-His. split; intros (j & rj & Hj & Ha).
    + destruct (Hlook j rj Hj) as (r0 & H0 & (E1 & _)%shape_inj & E2 & _). exists j, r0. split; [done|]. unfold issued_of in *. by rewrite <-E1, <-E2.
    + destruct (decide (j = i)) as [->|Hne]; [|exists j, rj; split; [|done]; cbn; by rewrite list_lookup_insert_ne].
      rewrite Hi in Hj. injection Hj as <-. exists i, (set_hint u64_max r). split; [|done].
      cbn. apply list_lookup_insert_eq. by eapply lookup_lt_Some.
  - intros j rj a Hj Ha. destruct (Hlook j rj Hj) as (r0 & H0 & Hs & E2 & _). rewrite (shape_get _ _ _ _ Hs).
    apply (Hbits j r0 a H0). apply shape_inj in Hs as (E1 & _). unfold issued_of in *. by rewrite <-E1, <-E2.
  - intros j rj a Hj Ha Hl. destruct (Hlook j rj Hj) as (r0 & H0 & _ & _ & [->|[-> ->]]); [by eapply Hhint|].
    exfalso. by eapply Hno.
  - rewrite Htot. symmetry. by eapply frames_total_insert.
Qed.

Lemma take_lost_spec off s live lost i r a :
  FInv off s live lost → ranges s !! i = Some r → reclaimed s = [] →
  issued_of r a → a ∈ lost → (∀ x, issued_of r x → x ∈ lost → a ≤ x) →
  handed off s live
    (set_allocated (allocated_frames s + 1) (set_untracked (reclaimed_untracked s - 1)
      (set_range i (set_hint (a + FRAME_SIZE) r) (set_phys (bitmap_set r a true (phys s)) s)))) a.
Proof.
  intros HI Hi Hrec Ha Hl Hmin. pose proof (issued_frame _ _ _ _ _ _ _ HI Hi Ha) as Hf. pose proof (f_ok _ _ _ _ HI i r Hi) as Hr.
  pose proof (r_order _ _ Hr) as Ho. assert (Hnl : a ∉ live) by (intros H; by apply (f_live _ _ _ _ HI) in H as [? _]).
  split_and!; [by exists i, r|done| |].
  - exists (lost ∖ {[a]}). eapply (FInv_mark off s live lost i r (set_hint (a + FRAME_SIZE) r) a true); try done;
      cbn [set_allocated set_untracked set_range set_ranges set_phys ranges phys current_range total_frames initialized reclaimed allocated_frames reclaimed_untracked set_hint rnext].
    + destruct Hr as [? ? ? ?]. split; [done|done|done|]. cbn [set_hint rstart overflow_hint]. destruct Hf as [Hf Hal].
      split; [unfold FRAME_SIZE; lia|right]. unfold aligned, FRAME_SIZE in *. Z.to_euclidean_division_equations; lia.
    + intros x Hx. lia.
    + by destruct Ha as [[? ?] ?].
    + apply HI.
    + set_solver.
    + split; [set_solver|]. by apply (f_lost _ _ _ _ HI).
    + set_solver.
    + apply HI.
    + apply HI.
    + intros x Hx Hxl. cbn [set_hint overflow_hint]. apply elem_of_difference in Hxl as [Hxl Hne].
      specialize (Hmin x Hx Hxl). destruct Hx as [_ Hax], Ha as [_ Hal]. assert (x ≠ a) by set_solver.
      unfold aligned, FRAME_SIZE in *. Z.to_euclidean_division_equations; lia.
    + rewrite size_mark_true, (f_live_count _ _ _ _ HI) by done. lia.
    + rewrite (f_lost_count _ _ _ _ HI). pose proof (size_mark_false a lost Hl) as Hs. unfold marked in Hs. lia.
  - by eapply (quiet_mark off s live lost i r (set_hint (a + FRAME_SIZE) r) a true).
Qed.

Lemma take_untracked_spec off s live lost is_ :
  FInv off s live lost → reclaimed s = [] → (∀ i, i ∈ is_ → (i < length (ranges s))%nat) →
  (∃ s', take_untracked is_ s = (s', None) ∧ ∀ i r x, i ∈ is_ → ranges s !! i = Some r → issued_of r x → x ∉ lost) ∨
  ∃ s' a, take_untracked is_ s = (s', Some (Some a)) ∧ handed off s live s' a.
Proof.
  revert s. induction is_ as [|i is_ IH]; intros s HI Hrec Hlt; [left; exists s; split; [done|set_solver]|].
  destruct (lookup_lt_is_Some_2 (ranges s) i (Hlt i ltac:(set_solver))) as [r Hi]. cbn [take_untracked]. rewrite Hi.
  pose proof (scan_range_spec off s live lost i r HI Hi Hrec) as Hscan.
  destruct (scan_bits _ _ _ _) as [a|].
  - right. destruct Hscan as (Ha & Hl & Hmin). pose proof (take_lost_spec off s live lost i r a HI Hi Hrec Ha Hl Hmin) as Hh.
    rewrite (proj1 (frame_address _ _ _ _ _ HI (proj1 Hh))). eexists _, a. split; [done|exact Hh].
  - destruct (drop_hint_inv off s live lost i r HI Hi Hscan) as [HI' Hq]. set (s1 := set_range i _ s) in *.
    destruct (IH s1 HI' Hrec) as [(s' & He & Hno)|(s' & a & He & Hp & Hnl & HI2 & Hq2)].
    + intros j Hj. cbn [s1 set_range set_ranges ranges]. rewrite length_insert. apply Hlt. set_solver.
    + left. exists s'. split; [done|]. intros j rj x Hj Hrj Hx. destruct (decide (j = i)) as [->|Hne].
      * rewrite Hi in Hrj. injection Hrj as <-. by apply Hscan.
      * apply (Hno j rj x); [set_solver| |done]. cbn [s1 set_range set_ranges ranges]. by rewrite list_lookup_insert_ne.
    + right. exists s', a. split; [done|]. split_and!; [by apply (quiet_pool off s s1 a Hq)|done|done|by eapply quiet_trans].
Qed.

(** *** The allocator *)
Lemma frame_allocate_spec off s live lost p :
  FInv off s live lost →
  (allocate_frame_for_domain s p = (s, None) ∧ ∀ a, pool s a → a ∈ live) ∨
  ∃ s' a, allocate_frame_for_domain s p = (s', Some a) ∧ handed off s live s' a.
Proof.
  intros HI. unfold allocate_frame_for_domain. rewrite (f_init _ _ _ _ HI). cbn [negb].
  destruct (Nat.eqb_spec (length (reclaimed s)) 0) as [Hz|Hnz]; cbn [negb].
  2:{ right. apply (take_reclaimed_spec off s live lost); [done|]. by intros Hn; rewrite Hn in Hnz. }
  apply nil_length_inv in Hz. destruct (Z.eqb_spec (reclaimed_untracked s) 0) as [Hu|Hu]; cbn [negb].
  - assert (lost = ∅) as ->.
    { apply leibniz_equiv, size_empty_inv. pose proof (f_lost_count _ _ _ _ HI). lia. }
    destruct (take_fresh_spec off s live ∅ (order s p) HI (order_lt s p)) as [[He Hfull]|Hh]; [left|by right].
    split; [done|]. intros a (i & r & Hi & Ha & Hal).
    specialize (Hfull i r (order_all _ _ _ _ p i HI (lookup_lt_Some _ _ _ Hi)) Hi).
    assert (Hiss : issued s a) by (exists i, r; split; [done|]; split; [lia|done]).
    apply (f_issued _ _ _ _ HI) in Hiss as [?|[?|Hc]]; [done|set_solver|]. unfold cached in Hc. rewrite Hz in Hc. set_solver.
  - right. destruct (take_untracked_spec off s live lost (order s p) HI Hz (order_lt s p)) as [(s' & He & Hno)|(s' & a & -> & Hh)];
      [exfalso|by exists s', a].
    apply Hu. rewrite (f_lost_count _ _ _ _ HI). assert (lost = ∅) as ->; [|done].
    apply leibniz_equiv, set_equiv. intros a. split; [|set_solver]. intros Hl. exfalso.
    destruct (proj2 (f_issued _ _ _ _ HI a) ltac:(by right; left)) as (i & r & Hi & Ha).
    eapply (Hno i r a); [|done..]. apply (order_all _ _ _ _ p i HI). by eapply lookup_lt_Some.
Qed.

(** ** Returning a frame *)
Lemma find_range_none s a (bound : FrameRange → Z) :
  (∀ i r, ranges s !! i = Some r → ¬ (rstart r ≤ a < bound r)) →
  list_find (λ r, (rstart r <=? a) && (a <? bound r) = true) (ranges s) = None.
Proof.
  intros H. apply list_find_None, Forall_lookup. intros i r Hi Hc.
  apply andb_true_iff in Hc as [H1%Z.leb_le H2%Z.ltb_lt]. by apply (H i r Hi).
Qed.

Lemma deallocate_spec off s live lost a :
  FInv off s live lost → aligned a →
  (a ∉ live ∧ deallocate_frame s a = (s, false)) ∨
  (a ∈ live ∧ ∃ s' lost', deallocate_frame s a = (s', true) ∧ FInv off s' (marked false a live) lost' ∧ quiet off s s').
Proof.
  intros HI Hal. unfold deallocate_frame. destruct (decide (a ∈ live)) as [Hl|Hl].
  2:{ left. split; [done|]. destruct (list_find _ _) as [[i r]|] eqn:E; [|done].
      apply list_find_Some in E as (Hi & Hc & _). apply andb_true_iff in Hc as [H1%Z.leb_le H2%Z.ltb_lt].
      rewrite (f_bits _ _ _ _ HI i r a Hi) by (by split). by rewrite bool_decide_false. }
  right. split; [done|]. destruct (proj2 (f_issued _ _ _ _ HI a) ltac:(by left)) as (i & r & Hi & Ha).
  pose proof (issued_frame _ _ _ _ _ _ _ HI Hi Ha) as Hf. pose proof (f_ok _ _ _ _ HI i r Hi) as Hr.
  rewrite (find_range off s live lost i r a rnext HI Hi (proj1 Ha)) by (intros r' Hr'; apply Hr').
  rewrite (f_bits _ _ _ _ HI i r a Hi Ha), bool_decide_true by done. cbn [negb orb].
  pose proof (size_mark_false a live Hl) as Hsize. pose proof (f_live_count _ _ _ _ HI) as Hcount.
  destruct (f_live _ _ _ _ HI a Hl) as [Hnlost Hncached].
  rewrite (proj2 (Z.eqb_neq (allocated_frames s) 0)) by lia.
  change (reclaimed (set_phys _ s)) with (reclaimed s).
  destruct (Nat.ltb_spec (length (reclaimed s)) MAX_RECLAIMED_FRAMES) as [Hroom|Hfull].
  - eexists _, lost. split; [done|]. split.
    + eapply (FInv_mark off s live lost i r r a false); try done;
        cbn [set_allocated set_reclaimed set_phys ranges phys current_range total_frames initialized reclaimed allocated_frames reclaimed_untracked].
      * intros x Hx. lia.
      * by destruct Ha as [[? ?] ?].
      * symmetry. by apply list_insert_id.
      * apply HI.
      * intros x Hx. unfold cached. cbn [set_allocated set_reclaimed set_phys reclaimed]. rewrite fmap_app. set_solver.
      * right. unfold cached. cbn [set_allocated set_reclaimed set_phys reclaimed]. rewrite fmap_app. set_solver.
      * unfold cached. cbn [set_allocated set_reclaimed set_phys reclaimed]. rewrite fmap_app. cbn. apply NoDup_app. split_and!; [apply HI| |apply NoDup_singleton].
        intros x Hx. rewrite list_elem_of_singleton. intros ->. done.
      * rewrite length_app. cbn [length]. lia.
      * intros x Hx Hxl. by eapply (f_hint _ _ _ _ HI i r).
      * lia.
      * apply HI.
    + eapply (quiet_mark off s live lost i r r a false); try done. cbn. symmetry. by apply list_insert_id.
  - eexists _, ({[a]} ∪ lost). split; [done|]. split.
    + eapply (FInv_mark off s live lost i r (set_hint (Z.min (overflow_hint r) a) r) a false); try done;
        cbn [set_allocated set_untracked set_range set_ranges set_phys ranges phys current_range total_frames initialized reclaimed allocated_frames reclaimed_untracked set_hint rnext].
      * destruct Hr as [? ? ? [Hh1 Hh2]]. split; [done|done|done|]. cbn [set_hint rstart overflow_hint].
        destruct Hf as [Hf _]. split; [lia|].
        destruct (Z.min_spec (overflow_hint r) a) as [[_ ->]|[_ ->]]; [done|by right].
      * intros x Hx. lia.
      * by destruct Ha as [[? ?] ?].
      * apply HI.
      * set_solver.
      * left. set_solver.
      * apply HI.
      * apply HI.
      * intros x Hx Hxl. cbn [set_hint overflow_hint]. apply elem_of_union in Hxl as [->%elem_of_singleton|Hxl]; [lia|].
        pose proof (f_hint _ _ _ _ HI i r x Hi Hx Hxl). lia.
      * lia.
      * rewrite (f_lost_count _ _ _ _ HI). pose proof (size_mark_true a lost Hnlost) as Hs. unfold marked in Hs. lia.
    + by eapply (quiet_mark off s live lost i r (set_hint (Z.min (overflow_hint r) a) r) a false).
Qed.

(** ** Contiguous runs *)
Fixpoint add_run (a : Z) (n : nat) (live : gset Z) : gset Z :=
  match n with O => live | S n => add_run (a + FRAME_SIZE) n (marked true a live) end.

Lemma elem_of_add_run x a n live :
  x ∈ add_run a n live ↔ x ∈ live ∨ ∃ k, 0 ≤ k < Z.of_nat n ∧ x = a + k * FRAME_SIZE.
Proof.
  revert a live. induction n as [|n IH]; intros a live; cbn [add_run].
  - split; [by left|]. intros [?|(k & ? & _)]; [done|lia].
  - rewrite IH. unfold marked. split.
    + intros [[->%elem_of_singleton|?]%elem_of_union|(k & Hk & ->)]; [right; exists 0; lia|by left|right; exists (k + 1); lia].
    + intros [?|(k & Hk & ->)]; [left; set_solver|]. destruct (decide (k = 0)) as [->|]; [left; set_solver by lia|right; exists (k - 1); lia].
Qed.

Definition run_state (i : nat) (r : FrameRange) (n : nat) (s : PhysicalFrameAllocator) : PhysicalFrameAllocator :=
  set_allocated (allocated_frames s + Z.of_nat n)
    (set_range i (set_rnext (rnext r + Z.of_nat n * FRAME_SIZE) r) (set_phys (set_run r (rnext r) n (phys s)) s)).

Lemma set_run_rnext c r a n m : set_run (set_rnext c r) a n m = set_run r a n m.
Proof. revert a m. induction n as [|n IH]; intros a m; [done|]. cbn [set_run]. apply IH. Qed.

Lemma run_state_S i r n s :
  ranges s !! i = Some r →
  run_state i r (S n) s = run_state i (set_rnext (rnext r + FRAME_SIZE) r) n (bump i r s).
Proof.
  intros Hi. unfold run_state, bump, set_allocated, set_range, set_ranges, set_phys, set_rnext.
  cbn [ranges current_range total_frames allocated_frames reclaimed reclaimed_untracked numa_enabled initialized phys
       rstart rnext rend rdomain rbitmap overflow_hint].
  f_equal.
  - rewrite list_insert_insert_eq. do 2 f_equal. lia.
  - lia.
  - cbn [set_run]. symmetry. apply (set_run_rnext (rnext r + FRAME_SIZE) r).
Qed.

Lemma run_spec off n : ∀ s live lost i r,
  FInv off s live lost → ranges s !! i = Some r → rnext r + Z.of_nat n * FRAME_SIZE ≤ rend r →
  (∀ k, 0 ≤ k < Z.of_nat n → pool s (rnext r + k * FRAME_SIZE) ∧ rnext r + k * FRAME_SIZE ∉ live) ∧
  FInv off (run_state i r n s) (add_run (rnext r) n live) lost ∧ quiet off s (run_state i r n s).
Proof.
  induction n as [|n IH]; intros s live lost i r HI Hi Hle.
  - split_and!; [lia|..].
    + assert (Heq : run_state i r 0 s = s); [|by rewrite Heq]. destruct s. unfold run_state, set_allocated, set_range, set_ranges, set_phys, set_rnext. cbn in *.
      rewrite Z.add_0_r. f_equal; [|lia]. apply list_insert_id. rewrite Hi. by destruct r.
    + split; [|done]. cbn [run_state set_allocated set_range set_ranges ranges]. rewrite list_fmap_insert. apply list_insert_id. by rewrite list_lookup_fmap, Hi.
  - pose proof (r_order _ _ (f_ok _ _ _ _ HI i r Hi)) as Ho. unfold FRAME_SIZE in Hle.
    destruct (bump_spec off s live lost i r HI Hi ltac:(lia)) as (Hf & Hnl & HI' & Hq).
    set (r1 := set_rnext (rnext r + FRAME_SIZE) r).
    assert (Hi1 : ranges (bump i r s) !! i = Some r1) by (cbn; apply list_lookup_insert_eq; by eapply lookup_lt_Some).
    destruct (IH (bump i r s) _ lost i r1 HI' Hi1) as (H1 & H2 & H3); [cbn [r1 set_rnext rnext rend]; unfold FRAME_SIZE; lia|].
    rewrite run_state_S by done. split_and!; [|exact H2|by eapply quiet_trans].
    intros k Hk. destruct (decide (k = 0)) as [->|Hk0]; [rewrite Z.mul_0_l, Z.add_0_r; split; [by exists i, r|done]|].
    destruct (H1 (k - 1) ltac:(lia)) as [Hp Hn]. cbn [r1 set_rnext rnext] in Hp, Hn.
    replace (rnext r + FRAME_SIZE + (k - 1) * FRAME_SIZE) with (rnext r + k * FRAME_SIZE) in Hp, Hn by lia.
    split; [by apply (quiet_pool off s _ _ Hq)|]. unfold marked in Hn. set_solver.
Qed.

(** ** Counting *)
Definition range_frames (r : FrameRange) : list Z := (λ k, rstart r + k * FRAME_SIZE) <$> seqZ 0 ((rend r - rstart r) / FRAME_SIZE).
Definition all_frames (rs : list FrameRange) : list Z := rs ≫= range_frames.

Lemma elem_of_range_frames off r a : range_ok off r → a ∈ range_frames r ↔ frame_of r a.
Proof.
  intros [(Ha1 & _ & Ha3) Ho _ _]. unfold range_frames. rewrite list_elem_of_fmap. unfold frame_of, aligned, FRAME_SIZE in *. split.
  - intros (k & -> & Hk%elem_of_seqZ). split; Z.to_euclidean_division_equations; lia.
  - intros [Ha Hal]. exists ((a - rstart r) / 4096). rewrite elem_of_seqZ. Z.to_euclidean_division_equations; lia.
Qed.

Lemma elem_of_all_frames off s live lost a : FInv off s live lost → a ∈ all_frames (ranges s) ↔ pool s a.
Proof.
  intros HI. unfold all_frames, pool. rewrite list_elem_of_bind. split.
  - intros (r & Ha & (i & Hi)%list_elem_of_lookup). exists i, r. split; [done|]. eapply elem_of_range_frames; [by eapply (f_ok _ _ _ _ HI)|done].
  - intros (i & r & Hi & Ha). exists r. split; [eapply elem_of_range_frames; [by eapply (f_ok _ _ _ _ HI)|done]|by eapply list_elem_of_lookup_2].
Qed.

Lemma length_all_frames rs off : (∀ i r, rs !! i = Some r → range_ok off r) → Z.of_nat (length (all_frames rs)) = frames_total rs.
Proof.
  induction rs as [|r rs IH]; intros Hok; [done|]. change (all_frames (r :: rs)) with (range_frames r ++ all_frames rs). rewrite length_app.
  change (frames_total (r :: rs)) with ((rend r - rstart r) / FRAME_SIZE + frames_total rs). unfold range_frames. rewrite length_fmap, length_seqZ. pose proof (Hok 0%nat r eq_refl) as [_ Ho _ _].
  rewrite Nat2Z.inj_add, IH by (intros i; apply (Hok (S i))). rewrite Z2Nat.id; [done|]. apply Z.div_pos; unfold FRAME_SIZE; lia.
Qed.

Lemma NoDup_all_frames rs off : (∀ i r, rs !! i = Some r → range_ok off r) → apart off rs → NoDup (all_frames rs).
Proof.
  induction rs as [|r rs IH]; intros Hok Hap; [constructor|].
  change (all_frames (r :: rs)) with (range_frames r ++ all_frames rs). apply NoDup_app. split_and!.
  - unfold range_frames. apply NoDup_fmap_2; [|apply NoDup_seqZ]. intros x y. unfold FRAME_SIZE. lia.
  - intros a Ha%(elem_of_range_frames off) (r' & Ha' & (i & Hi)%list_elem_of_lookup)%list_elem_of_bind; [|by apply (Hok 0%nat)].
    apply (elem_of_range_frames off) in Ha'; [|by apply (Hok (S i))].
    destruct (frame_unique off (r :: rs) 0 (S i) r r' a Hok Hap eq_refl Hi (proj1 Ha) (proj1 Ha')); done.
  - apply IH; [intros i; apply (Hok (S i))|]. intros i j r1 r2 Hi Hj Hne. by apply (Hap (S i) (S j)); [..|congruence].
Qed.

(** The allocated count never exceeds the total. *)
Lemma live_bound off s live lost : FInv off s live lost → allocated_frames s ≤ total_frames s.
Proof.
  intros HI. rewrite (f_live_count _ _ _ _ HI), (f_total _ _ _ _ HI), <-(length_all_frames _ off) by apply HI.
  apply inj_le. rewrite <-(size_list_to_set (C := gset Z)) by (eapply NoDup_all_frames; apply HI).
  apply subseteq_size. intros a Ha. apply elem_of_list_to_set, (elem_of_all_frames _ _ _ _ _ HI).
  destruct (proj2 (f_issued _ _ _ _ HI a) ltac:(by left)) as (i & r & Hi & Hia). exists i, r. split; [done|].
  by eapply issued_frame.
Qed.

Lemma take_run_spec off s live lost count is_ :
  FInv off s live lost → (∀ i, i ∈ is_ → (i < length (ranges s))%nat) → (0 < count)%nat →
  let size := FRAME_SIZE * Z.of_nat count in
  (take_run is_ s count size = (s, None) ∧ ∀ i r, i ∈ is_ → ranges s !! i = Some r → rend r - rnext r < size) ∨
  ∃ s' a, take_run is_ s count size = (s', Some a) ∧
    (∀ k, 0 ≤ k < Z.of_nat count → pool s (a + k * FRAME_SIZE) ∧ a + k * FRAME_SIZE ∉ live) ∧
    FInv off s' (add_run a count live) lost ∧ quiet off s s'.
Proof.
  intros HI Hlt Hc size. induction is_ as [|i is_ IH]; [left; split; [done|set_solver]|].
  destruct (lookup_lt_is_Some_2 (ranges s) i (Hlt i ltac:(set_solver))) as [r Hi]. cbn [take_run]. rewrite Hi.
  pose proof (r_order _ _ (f_ok _ _ _ _ HI i r Hi)) as Ho. unfold saturating_sub.
  destruct (Z.ltb_spec (Z.max (rend r - rnext r) 0) size) as [Hsmall|Hroom].
  - destruct IH as [[H1 H2]|H]; [set_solver| |by right]. left. split; [done|].
    intros j rj [->|Hj]%elem_of_cons Hrj; [|by eapply H2]. rewrite Hi in Hrj. injection Hrj as <-. lia.
  - right. destruct (run_spec off count s live lost i r HI Hi ltac:(unfold size, FRAME_SIZE in *; lia)) as (H1 & H2 & H3).
    unfold checked_add64. rewrite (proj2 (Z.leb_le (rnext r + size) u64_max)) by (unfold size, FRAME_SIZE, u64_max in *; lia).
    pose proof (live_bound _ _ _ _ H2) as Hb. pose proof (f_max _ _ _ _ H2) as Hm.
    cbn [run_state set_allocated allocated_frames set_range set_ranges set_phys total_frames set_current] in Hb, Hm |- *.
    rewrite (proj2 (Z.leb_le (allocated_frames s + Z.of_nat count) u64_max)) by lia.
    assert (Hp : pool s (rnext r)) by (destruct (H1 0 ltac:(lia)) as [Hp _]; by rewrite Z.mul_0_l, Z.add_0_r in Hp).
    rewrite (proj1 (frame_address _ _ _ _ _ HI Hp)). eexists _, (rnext r). split; [done|]. split_and!; [done| |].
    + set (c := if _ <=? _ then _ else i). rewrite set_run_rnext. replace size with (Z.of_nat count * FRAME_SIZE) by (unfold size; lia).
      match goal with |- FInv _ ?x _ _ => change x with (set_current c (run_state i r count s)) end. apply set_current_inv; [exact H2|].
      subst c. cbn [run_state set_allocated set_range set_ranges set_phys ranges]. rewrite !length_insert.
      pose proof (lookup_lt_Some _ _ _ Hi). destruct (_ <=? _); [apply Nat.mod_upper_bound; lia|done].
    + rewrite set_run_rnext. replace size with (Z.of_nat count * FRAME_SIZE) by (unfold size; lia). exact H3.
Qed.

End FramesProofs.
