(* ===== verification/FramesSafety.v ===== *)
(** * The frame allocator under its clients: boot, steps, claims and witnesses

    The allocator's operations as the steps of a machine whose clients also write into the
    frames they hold, through the direct map the bitmaps live in. *)
From stdpp Require Import gmap.
From S2P Require Import Prelude Frames.

Module FramesMachine.
Import Frames FramesProofs.

(** ** Boot *)

(** The bootloader's memory map: usable regions are disjoint and within 52 bits. *)
Definition sound_map (regions : list MemoryRegion) : Prop :=
  (∀ i a, regions !! i = Some a → usable a = true → 0 ≤ region_start a ∧ 0 ≤ region_end a ≤ 2 ^ 52) ∧
  ∀ i j a b, regions !! i = Some a → regions !! j = Some b → i ≠ j → usable a = true → usable b = true →
    region_end a ≤ region_start b ∨ region_end b ≤ region_start a.

(** Range [r] was carved out of [region]: bitmap first, then the frames. *)
Definition carved (off : Z) (region : MemoryRegion) (r : FrameRange) : Prop :=
  usable region = true ∧ region_start region ≤ base off r ∧ rend r ≤ region_end region.

Record Booting (off : Z) (regions : list MemoryRegion) (n : nat) (s : PhysicalFrameAllocator) : Prop := {
  b_ok : ∀ i r, ranges s !! i = Some r → range_ok off r ∧ rnext r = rstart r;
  b_from : ∀ i r, ranges s !! i = Some r → ∃ j region, (j < n)%nat ∧ regions !! j = Some region ∧ carved off region r;
  b_apart : apart off (ranges s);
  b_total : total_frames s = frames_total (ranges s) ∧ total_frames s ≤ u64_max;
  b_fresh : current_range s = 0%nat ∧ allocated_frames s = 0 ∧ reclaimed s = [] ∧ reclaimed_untracked s = 0
}.

Lemma align_down_spec a : in_u64 a → align_down a FRAME_SIZE ≤ a ∧ aligned (align_down a FRAME_SIZE).
Proof.
  intros Ha. unfold align_down, aligned, FRAME_SIZE. change (4096 - 1) with (2 ^ 12 - 1). rewrite land_not64_low by (done || lia).
  change (2 ^ 12) with 4096. split; Z.to_euclidean_division_equations; lia.
Qed.

Lemma align_up_frame a r : 0 ≤ a → align_up a FRAME_SIZE = Some r → a ≤ r ∧ aligned r.
Proof.
  unfold align_up, checked_add64. intros Ha. case_match eqn:E; [|done]. cbn. intros [= <-]. apply Z.leb_le in E.
  pose proof (land_round_up a FRAME_SIZE Ha eq_refl ltac:(done) E) as [? ?]. unfold align_down, aligned. split; [lia|done].
Qed.

Lemma div_ceil_ge x y : 0 ≤ x → 0 < y → x ≤ y * div_ceil x y ∧ 0 ≤ div_ceil x y.
Proof.
  intros Hx Hy. unfold div_ceil. pose proof (Z.div_mod x y ltac:(lia)). pose proof (Z.mod_pos_bound x y Hy).
  pose proof (Z.div_pos x y Hx Hy). destruct (Z.eqb_spec (x mod y) 0); lia.
Qed.

Lemma frames_total_app rs r : frames_total (rs ++ [r]) = frames_total rs + (rend r - rstart r) / FRAME_SIZE.
Proof.
  unfold frames_total. induction rs as [|r0 rs IH]; cbn [app foldr]; [lia|]. rewrite IH. lia.
Qed.

(** The range [add_region] registers. *)
Lemma new_range_ok off start stop size d :
  aligned start → aligned stop → 0x100000 ≤ start → stop ≤ 2 ^ 52 → 0 ≤ off → start < stop →
  size = div_ceil (div_ceil ((stop - start) / FRAME_SIZE) 8) FRAME_SIZE * FRAME_SIZE → start + size < stop →
  range_ok off (mkRange (start + size) (start + size) stop d (off + start) u64_max).
Proof.
  intros Ha1 Ha2 Hlo Hhi Hoff Hlt Hsize Hroom. set (n := (stop - start) / FRAME_SIZE) in *.
  assert (Hn : stop - start = FRAME_SIZE * n ∧ 0 < n).
  { unfold n, aligned, FRAME_SIZE in *. split; Z.to_euclidean_division_equations; lia. }
  pose proof (div_ceil_ge n 8 ltac:(lia) ltac:(lia)) as [Hb Hb']. set (b := div_ceil n 8) in *.
  pose proof (div_ceil_ge b FRAME_SIZE Hb' ltac:(done)) as [Hp Hp']. set (p := div_ceil b FRAME_SIZE) in *.
  unfold FRAME_SIZE in *. split; cbn [rstart rnext rend rbitmap overflow_hint]; unfold base, FRAME_SIZE; cbn [rbitmap].
  - assert (aligned (start + size)) by (unfold aligned, FRAME_SIZE in *; subst size; Z.to_euclidean_division_equations; lia). done.
  - lia.
  - lia.
  - split; [unfold u64_max; lia|by left].
Qed.

Lemma add_region_spec off regions n region affinities s s' :
  0 ≤ off → sound_map regions → regions !! n = Some region → Booting off regions n s →
  add_region affinities off region s = (s', Ok ()) → Booting off regions (S n) s'.
Proof.
  intros Hoff [Hbound Hdis] Hreg HB. assert (Hskip : Booting off regions (S n) s).
  { destruct HB as [Hok Hfrom Hap Htot Hf]. split; try done. intros i r Hi. destruct (Hfrom i r Hi) as (j & a & Hj & ?). exists j, a. split; [lia|done]. }
  unfold add_region. destruct (usable region) eqn:Hu; cbn [negb]; [|by intros [= <-]].
  destruct (Hbound n region Hreg Hu) as [Hlo Hhi].
  destruct (align_up _ _) as [start|] eqn:Hst; [|done]. apply align_up_frame in Hst as [Hs1 Hs2]; [|lia].
  set (stop := align_down _ _). destruct (Z.leb_spec stop start) as [|Hlt]; [by intros [= <-]|].
  destruct (_ =? _)%nat; [done|].
  assert (Hstop : stop ≤ region_end region ∧ aligned stop) by (apply align_down_spec; unfold in_u64, u64_max; lia).
  destruct Hstop as [Hstop Hstopa]. cbv zeta.
  destruct (checked_mul64 _ _) as [size|] eqn:Hsize; [|done]. unfold checked_mul64 in Hsize. case_match; [|done].
  apply (inj Some) in Hsize. symmetry in Hsize.
  destruct (checked_add64 start size) as [alloc_start|] eqn:Hal; [|done]. unfold checked_add64 in Hal. case_match; [|done]. injection Hal as <-.
  destruct (Z.leb_spec stop (start + size)) as [|Hroom]; [by intros [= <-]|].
  destruct (checked_add64 off start) as [bm|] eqn:Hbm; [|done]. unfold checked_add64 in Hbm. case_match; [|done]. injection Hbm as <-.
  destruct (checked_add64 _ _) as [total|] eqn:Htot; [|done]. unfold checked_add64 in Htot. case_match eqn:Hmax; [|done]. injection Htot as <-.
  intros [= <-]. cbn [set_phys total_frames ranges current_range allocated_frames reclaimed reclaimed_untracked numa_enabled initialized phys] in *.
  apply Z.leb_le in Hmax. set (r := mkRange _ _ _ _ _ _).
  assert (Hr : range_ok off r) by (by apply new_range_ok; [..|lia|lia|lia|lia| |]).
  assert (Hc : carved off region r) by (unfold carved, base; cbn [r rbitmap rend]; split_and!; [done|lia|lia]).
  destruct Hskip as [Hok Hfrom Hap [Htot Htot'] Hf]. destruct HB as [_ Hfrom' _ _ _].
  assert (Hlook : ∀ i r0, (ranges s ++ [r]) !! i = Some r0 → ranges s !! i = Some r0 ∨ i = length (ranges s) ∧ r0 = r).
  { intros i r0 [Hi|[Hge Hi]]%lookup_app_Some; [by left|right]. apply list_lookup_singleton_Some in Hi as [Hi <-]. split; [lia|done]. }
  assert (Hnew : ∀ i r0, ranges s !! i = Some r0 → rend r0 ≤ base off r ∨ rend r ≤ base off r0).
  { intros i r0 Hi. destruct (Hfrom' i r0 Hi) as (j & a & Hj & Ha & Hau & Ha1 & Ha2). destruct Hc as (_ & Hc1 & Hc2).
    destruct (Hdis j n a region Ha Hreg ltac:(lia) Hau Hu); lia. }
  split; cbn [ranges total_frames current_range allocated_frames reclaimed reclaimed_untracked].
  - intros i r0 Hi. destruct (Hlook i r0 Hi) as [Hi'|[_ ->]]; [by eapply Hok|done].
  - intros i r0 Hi. destruct (Hlook i r0 Hi) as [Hi'|[_ ->]]; [by eapply Hfrom|]. exists n, region. split_and!; [lia|done|done].
  - intros i j r1 r2 Hi Hj Hne. destruct (Hlook i r1 Hi) as [Hi'|[-> ->]], (Hlook j r2 Hj) as [Hj'|[-> ->]]; [by eapply Hap|by eapply Hnew| |done].
    destruct (Hnew j r2 Hj'); [by right|by left].
  - rewrite frames_total_app. cbn [r rend rstart]. lia.
  - done.
Qed.

Lemma add_regions_spec off regions affinities rest : ∀ n s s',
  0 ≤ off → sound_map regions → drop n regions = rest → Booting off regions n s →
  add_regions affinities off rest s = (s', Ok ()) → ∃ m, Booting off regions m s'.
Proof.
  induction rest as [|region rest IH]; intros n s s' Hoff Hmap Hdrop HB; cbn [add_regions].
  { intros [= <-]. by exists n. }
  assert (Hreg : regions !! n = Some region) by (by rewrite <-(Nat.add_0_r n), <-lookup_drop, Hdrop).
  destruct (add_region _ _ _ _) as [s1 [[]|e]] eqn:Ha; [|done]. intros Hrest.
  eapply (IH (S n) s1); [done|done| |by eapply add_region_spec|done].
  rewrite <-Nat.add_1_r, <-drop_drop, Hdrop. by cbn [drop].
Qed.

(** A successful [initialize] establishes the invariant with nothing outstanding. *)
Lemma initialize_spec off regions affinities m s :
  0 ≤ off → sound_map regions → initialize regions affinities off (empty m) = (s, Ok ()) →
  FInv off s ∅ ∅ ∧ ∀ i r, ranges s !! i = Some r → ∃ region, region ∈ regions ∧ carved off region r.
Proof.
  intros Hoff Hmap. unfold initialize. cbn [empty initialized].
  destruct (add_regions _ _ _ _) as [s1 [[]|e]] eqn:Ha; [|done].
  destruct (Z.eqb_spec (total_frames s1) 0) as [|Hnz]; [done|]. intros [= <-].
  destruct (add_regions_spec off regions affinities regions 0 (empty m) s1 Hoff Hmap eq_refl) as [n [Hok Hfrom Hap [Htot Hmax] (F1 & F2 & F3 & F4)]]; [|done|].
  { split; cbn [empty ranges]; try (intros i; set_solver); done. }
  assert (Hnone : ∀ a, ¬ issued s1 a).
  { intros a (i & r & Hi & Hr & _). destruct (Hok i r Hi) as [_ He]. lia. }
  split.
  - split; cbn [ranges current_range phys reclaimed allocated_frames reclaimed_untracked total_frames initialized]; rewrite ?F1, ?F2, ?F3, ?F4; try done.
    + intros i r Hi. by eapply Hok.
    + rewrite Htot in Hnz. destruct (ranges s1); [done|cbn; lia].
    + intros a. unfold cached. cbn [reclaimed]. split; [by intros ?%Hnone|set_solver].
    + constructor.
    + cbn. lia.
    + intros i r a Hi Hr. exfalso. apply (Hnone a). by exists i, r.
  - intros i r Hi. destruct (Hfrom i r Hi) as (j & region & _ & Hj & Hc). exists region. split; [by eapply list_elem_of_lookup_2|done].
Qed.

(** ** The machine: the allocator and the frames its clients hold *)
Section machine.
Context (off : Z).

Definition held (o : option Z) (count : nat) (live : gset Z) : gset Z :=
  match o with Some a => add_run a count live | None => live end.

Inductive step : PhysicalFrameAllocator * gset Z → PhysicalFrameAllocator * gset Z → Prop :=
  | step_allocate s live domain s' o :
      allocate_frame s domain = (s', o) → step (s, live) (s', held o 1 live)
  | step_contiguous s live domain count s' o :
      allocate_contiguous_frames s domain count = (s', o) → step (s, live) (s', held o count live)
  | step_deallocate s live a s' ok :
      aligned a → deallocate_frame s a = (s', ok) →
      step (s, live) (s', if ok then live ∖ {[a]} else live)
  | step_write s live a x v :
      a ∈ live → a ≤ x < a + FRAME_SIZE → step (s, live) (set_phys (<[off + x := v]> (phys s)) s, live).

(** After a successful [initialize] over the bootloader's map. *)
Definition reachable (regions : list MemoryRegion) (affinities : list MemoryAffinity)
    (s : PhysicalFrameAllocator) (live : gset Z) : Prop :=
  ∃ m s0, initialize regions affinities off (empty m) = (s0, Ok ()) ∧ rtc step (s0, ∅) (s, live).

Definition MInv (regions : list MemoryRegion) (w : PhysicalFrameAllocator * gset Z) : Prop :=
  (∃ lost, FInv off w.1 w.2 lost) ∧ ∀ i r, ranges w.1 !! i = Some r → ∃ region, region ∈ regions ∧ carved off region r.

Lemma carved_quiet (regions : list MemoryRegion) s s' :
  quiet off s s' → (∀ i r, ranges s !! i = Some r → ∃ region, region ∈ regions ∧ carved off region r) →
  ∀ i r, ranges s' !! i = Some r → ∃ region, region ∈ regions ∧ carved off region r.
Proof.
  intros [E _] H i r Hi. symmetry in E. destruct (shapes_lookup _ _ i r E Hi) as (r' & Hi' & Hs).
  destruct (H i r' Hi') as (region & Hin & Hc). exists region. split; [done|]. apply shape_inj in Hs as (_ & E2 & E3).
  unfold carved, base in *. by rewrite <-E2, <-E3.
Qed.

Lemma write_inv s live lost a x v :
  FInv off s live lost → pool s a → a ≤ x < a + FRAME_SIZE →
  FInv off (set_phys (<[off + x := v]> (phys s)) s) live lost.
Proof.
  intros HI (i & r & Hi & Ha & Hal) Hx. pose proof HI as [Hok Hap Hcur His Hlive Hlost Hnd Hcap Hbits Hhint Hlc Hoc Htot Hin Hmax].
  split; try done. cbn [set_phys ranges phys]. intros j rj b Hj Hb. rewrite <-(Hbits j rj b Hj Hb).
  rewrite !bitmap_get_testbit, byte_insert, decide_False; [done|].
  pose proof (bitmap_byte off rj b (Hok j rj Hj) (issued_frame _ _ _ _ _ _ _ HI Hj Hb)) as Hbyte.
  pose proof (r_order _ _ (Hok i r Hi)) as Ho1. pose proof (r_order _ _ (Hok j rj Hj)) as Ho2. destruct (Hok i r Hi) as [(Hs & _ & He) _ _ _].
  assert (Hend : x < rend r) by (unfold aligned, FRAME_SIZE in *; Z.to_euclidean_division_equations; lia).
  destruct (decide (i = j)) as [->|Hne]; [rewrite Hi in Hj; injection Hj as <-; lia|].
  pose proof (Hap i j r rj Hi Hj Hne). unfold base in *. lia.
Qed.

Lemma live_pool s live lost a : FInv off s live lost → a ∈ live → pool s a.
Proof.
  intros HI Ha. destruct (proj2 (f_issued _ _ _ _ HI a) ltac:(by left)) as (i & r & Hi & Hia). exists i, r. split; [done|]. by eapply issued_frame.
Qed.

Lemma contiguous_spec s live lost domain count :
  FInv off s live lost →
  (allocate_contiguous_frames s domain count = (s, None) ∧
     (count = 0%nat ∨ u64_max < FRAME_SIZE * Z.of_nat count ∨
      ∀ i r, ranges s !! i = Some r → rend r - rnext r < FRAME_SIZE * Z.of_nat count)) ∨
  ∃ s' a, allocate_contiguous_frames s domain count = (s', Some a) ∧
    (∀ k, 0 ≤ k < Z.of_nat count → pool s (a + k * FRAME_SIZE) ∧ a + k * FRAME_SIZE ∉ live) ∧
    FInv off s' (add_run a count live) lost ∧ quiet off s s'.
Proof.
  intros HI. unfold allocate_contiguous_frames. rewrite (f_init _ _ _ _ HI). cbn [negb orb].
  destruct (Nat.eqb_spec count 0) as [->|Hc]; [left; split; [done|by left]|].
  unfold checked_mul64. destruct (Z.leb_spec (FRAME_SIZE * Z.of_nat count) u64_max) as [Hfit|Hbig]; [|left; split; [done|right; by left]].
  set (p := if numa_enabled s then _ else _).
  destruct (take_run_spec off s live lost count (order s p) HI (order_lt s p) ltac:(lia)) as [[He Hno]|H]; [left|by right].
  split; [done|]. right; right. intros i r Hi. apply (Hno i r); [|done]. apply (order_all _ _ _ _ p i HI). by eapply lookup_lt_Some.
Qed.

Lemma frames_step_MInv regions w w' : MInv regions w → step w w' → MInv regions w'.
Proof.
  intros [[lost HI] Hc] Hst. destruct Hst as [s live domain s' o Ha|s live domain count s' o Ha|s live a s' ok Hal Hd|s live a x v Ha Hx]; cbn [fst snd] in *.
  - unfold allocate_frame in Ha. destruct (frame_allocate_spec off s live lost (if numa_enabled s then Some domain else None) HI)
      as [[He _]|(s2 & a & He & _ & _ & (lost' & HI') & Hq)]; rewrite He in Ha; injection Ha as <- <-; [by split; [exists lost|]|].
    split; [exists lost'; exact HI'|by eapply carved_quiet].
  - destruct (contiguous_spec s live lost domain count HI) as [[He _]|(s2 & a & He & _ & HI' & Hq)]; rewrite He in Ha; injection Ha as <- <-; [by split; [exists lost|]|].
    split; [by exists lost|by eapply carved_quiet].
  - destruct (deallocate_spec off s live lost a HI Hal) as [[_ He]|(_ & s2 & lost' & He & HI' & Hq)]; rewrite He in Hd; injection Hd as <- <-; [by split; [exists lost|]|].
    split; [exists lost'; exact HI'|by eapply carved_quiet].
  - split; [exists lost; eapply write_inv; [done|by eapply live_pool|done]|done].
Qed.

Lemma frames_reachable_MInv regions affinities s live :
  0 ≤ off → sound_map regions → reachable regions affinities s live → MInv regions (s, live).
Proof.
  intros Hoff Hmap (m & s0 & Hi & Hst). apply initialize_spec in Hi as [HI Hc]; [|done..].
  assert (H0 : MInv regions (s0, ∅)) by (split; [by exists ∅|done]). clear HI Hc.
  induction Hst as [|w1 w2 w3 Hs _ IH]; [done|]. apply IH. by eapply frames_step_MInv.
Qed.

(** ** Claims *)

(** All frames' contents are as before. *)
Definition frames_kept (s s' : PhysicalFrameAllocator) : Prop :=
  ∀ a x, pool s a → a ≤ x < a + FRAME_SIZE → byte (phys s') (off + x) = byte (phys s) (off + x).

Lemma quiet_kept s s' live lost : FInv off s live lost → quiet off s s' → frames_kept s s'.
Proof.
  intros HI [_ Hq] a x (i & r & Hi & Ha & Hal) Hx. apply (Hq i r); [done|]. destruct (f_ok _ _ _ _ HI i r Hi) as [(Hs & _ & He) _ _ _].
  unfold aligned, FRAME_SIZE in *. Z.to_euclidean_division_equations; lia.
Qed.

(** C10. Physical frames are exclusive. Over a memory map whose usable regions are disjoint,
    after a successful [initialize] and any sequence of allocations, contiguous allocations,
    returns of arbitrary frames, and writes of the clients into the frames they hold: every
    frame of the pool lies above 1 MiB inside a usable region; a frame handed out, alone or in
    a run, is of the pool and not outstanding; an operation changes no frame's contents (the
    bitmaps are elsewhere); a return is accepted exactly for the outstanding frames; and the
    statistics count the outstanding frames and the frames of the pool. *)
Theorem frames_exclusive regions affinities s live :
  0 ≤ off → sound_map regions → reachable regions affinities s live →
  (∀ a, pool s a → aligned a ∧ 0x100000 ≤ a ∧
     ∃ region, region ∈ regions ∧ usable region = true ∧ region_start region ≤ a ∧ a + FRAME_SIZE ≤ region_end region) ∧
  (∀ domain s' a, allocate_frame s domain = (s', Some a) → pool s a ∧ a ∉ live ∧ frames_kept s s') ∧
  (∀ domain count s' a, allocate_contiguous_frames s domain count = (s', Some a) →
     (∀ k, 0 ≤ k < Z.of_nat count → pool s (a + k * FRAME_SIZE) ∧ a + k * FRAME_SIZE ∉ live) ∧ frames_kept s s') ∧
  (∀ a, aligned a → ∃ s', deallocate_frame s a = (s', bool_decide (a ∈ live)) ∧ frames_kept s s') ∧
  (∀ a, a ∈ live → pool s a) ∧
  allocated_frames s = Z.of_nat (size live) ∧
  (∃ frames, NoDup frames ∧ (∀ a, a ∈ frames ↔ pool s a) ∧ total_frames s = Z.of_nat (length frames)).
Proof.
  intros Hoff Hmap Hr. destruct (frames_reachable_MInv _ _ _ _ Hoff Hmap Hr) as [[lost HI] Hc]. cbn [fst snd] in *.
  split_and!; [| | | | |apply HI|].
  - intros a (i & r & Hi & Ha & Hal). pose proof (f_ok _ _ _ _ HI i r Hi) as [(Hs & _ & He) Ho _ _].
    destruct (Hc i r Hi) as (region & Hin & Hu & H1 & H2). split_and!; [done|lia|]. exists region. split_and!; [done|done|lia|].
    unfold aligned, FRAME_SIZE in *. Z.to_euclidean_division_equations; lia.
  - intros domain s' a Ha. unfold allocate_frame in Ha. destruct (frame_allocate_spec off s live lost (if numa_enabled s then Some domain else None) HI)
      as [[He _]|(s2 & a2 & He & Hp & Hn & _ & Hq)]; rewrite He in Ha; [done|]. injection Ha as <- <-. split_and!; [done|done|by eapply quiet_kept].
  - intros domain count s' a Ha. destruct (contiguous_spec s live lost domain count HI) as [[He _]|(s2 & a2 & He & Hp & _ & Hq)]; rewrite He in Ha; [done|].
    injection Ha as <- <-. split; [done|by eapply quiet_kept].
  - intros a Hal. destruct (deallocate_spec off s live lost a HI Hal) as [[Hn He]|(Hl & s2 & lost' & He & _ & Hq)]; rewrite He.
    + exists s. by rewrite bool_decide_false.
    + exists s2. rewrite bool_decide_true by done. split; [done|by eapply quiet_kept].
  - intros a Ha. by eapply live_pool.
  - exists (all_frames (ranges s)). split_and!; [eapply NoDup_all_frames; apply HI| |].
    + intros a. by eapply elem_of_all_frames.
    + rewrite (f_total _ _ _ _ HI). symmetry. eapply length_all_frames. apply HI.
Qed.

(** No frame is ever lost. However the frames were returned, through the cache, beyond its
    capacity, in any order and from any NUMA domain: as long as the allocated count is below
    the total, [allocate_frame] hands out a frame, whatever the CPU's domain; and a refused
    contiguous request means that no range has that many untouched frames left. *)
Theorem frames_never_lost regions affinities s live :
  0 ≤ off → sound_map regions → reachable regions affinities s live →
  (∀ domain, allocated_frames s < total_frames s → ∃ s' a, allocate_frame s domain = (s', Some a)) ∧
  (∀ domain count, (0 < count)%nat → FRAME_SIZE * Z.of_nat count ≤ u64_max →
     (∃ i r, ranges s !! i = Some r ∧ FRAME_SIZE * Z.of_nat count ≤ rend r - rnext r) →
     ∃ s' a, allocate_contiguous_frames s domain count = (s', Some a)).
Proof.
  intros Hoff Hmap Hr. destruct (frames_reachable_MInv _ _ _ _ Hoff Hmap Hr) as [[lost HI] _]. cbn [fst snd] in *. split.
  - intros domain Hlt. unfold allocate_frame. destruct (frame_allocate_spec off s live lost (if numa_enabled s then Some domain else None) HI)
      as [[_ Hall]|(s2 & a2 & He & _)]; [|eauto]. exfalso.
    rewrite (f_live_count _ _ _ _ HI), (f_total _ _ _ _ HI), <-(length_all_frames _ off) in Hlt by apply HI.
    rewrite <-(size_list_to_set (C := gset Z)) in Hlt by (eapply NoDup_all_frames; apply HI).
    apply Nat2Z.inj_lt in Hlt. assert (list_to_set (all_frames (ranges s)) ⊆ live) as Hsub; [|apply subseteq_size in Hsub; lia].
    intros a. rewrite elem_of_list_to_set, (elem_of_all_frames _ _ _ _ _ HI). apply Hall.
  - intros domain count Hc Hfit (i & r & Hi & Hroom).
    destruct (contiguous_spec s live lost domain count HI) as [[_ [?|[?|Hno]]]|(s2 & a2 & He & _)]; [lia|lia| |eauto].
    specialize (Hno i r Hi). lia.
Qed.

End machine.

End FramesMachine.

Module FramesDemo.
Import Frames FramesProofs FramesMachine.

(** A machine with two usable regions in two NUMA domains, direct-mapped at [offset]. *)
Definition offset : Z := 0x18000000000.
Definition memory_map : list MemoryRegion :=
  [mkRegion 0 0xA0000 true; mkRegion 0x100000 0x104000 true; mkRegion 0x104000 0x200000 false; mkRegion 0x200000 0x203000 true].
Definition affinities : list MemoryAffinity := [mkAffinity 7 0x200000 0x100000].

Definition s0 : PhysicalFrameAllocator := (initialize memory_map affinities offset (empty ∅)).1.
Definition s1 : PhysicalFrameAllocator := (allocate_frame s0 7).1.
Definition s2 : PhysicalFrameAllocator := (allocate_frame s1 0).1.
Definition s3 : PhysicalFrameAllocator := (deallocate_frame s2 0x201000).1.

Lemma memory_map_sound : sound_map memory_map.
Proof.
  split.
  - intros i a Hi _. destruct i as [|[|[|[|i]]]]; [injection Hi as <-..|done]; cbn; lia.
  - intros i j a b Hi Hj Hne Ha Hb. destruct i as [|[|[|[|i]]]]; [injection Hi as <-..|done];
      (destruct j as [|[|[|[|j]]]]; [injection Hj as <-..|done]); cbn in *; try done; try lia.
Qed.

(** Only the small second component is evaluated. *)
Lemma with_first {A B} (p : A * B) (b : B) : p.2 = b → p = (p.1, b).
Proof. destruct p. by intros <-. Qed.

Lemma s3_reachable : reachable offset memory_map affinities s3 {[0x101000]}.
Proof.
  exists ∅, s0. split; [apply with_first; vm_compute; reflexivity|].
  eapply rtc_l; [apply (step_allocate offset s0 ∅ 7 s1 (Some 0x201000)), with_first; vm_compute; reflexivity|].
  eapply rtc_l; [apply (step_allocate offset s1 _ 0 s2 (Some 0x101000)), with_first; vm_compute; reflexivity|].
  eapply rtc_l; [apply (step_deallocate offset s2 _ 0x201000 s3 true); [done|apply with_first; vm_compute; reflexivity]|].
  assert (held (Some 0x101000) 1 (held (Some 0x201000) 1 ∅) ∖ {[0x201000]} = ({[0x101000]} : gset Z)) as ->.
  { apply leibniz_equiv, set_equiv. intros x. unfold held. cbn [add_run marked]. set_solver. }
  apply rtc_refl.
Qed.

Lemma frames_exclusive_witness :
  allocated_frames s3 = 1 ∧ ∃ s', deallocate_frame s3 0x201000 = (s', false).
Proof.
  destruct (frames_exclusive offset memory_map affinities s3 {[0x101000]} ltac:(done) memory_map_sound s3_reachable)
    as (_ & _ & _ & Hd & _ & Hn & _).
  split; [rewrite Hn; by rewrite size_singleton|]. destruct (Hd 0x201000 eq_refl) as (s' & He & _). exists s'. rewrite He.
  rewrite bool_decide_false; [done|]. rewrite elem_of_singleton. done.
Defined.

Lemma frames_never_lost_witness : ∃ s' a, allocate_frame s3 0 = (s', Some a).
Proof.
  destruct (frames_never_lost offset memory_map affinities s3 {[0x101000]} ltac:(done) memory_map_sound s3_reachable) as [Ha _].
  apply Ha. vm_compute. reflexivity.
Defined.

End FramesDemo.
