(* ===== verification/Elf.v ===== *)
(** * The ELF loader's parser (kernel/src/elf.rs)

    Parsing a user program image: header checks, the program-header loop with its
    segment checks, and relocation of a parsed image. A [usize] equals a [u64] on this
    target; file offsets are [Z] so that hostile values are represented before they
    are rejected. The segment array with its count is the list of its first entries. *)
From S2P Require Import Prelude.

Module Elf.

Definition MAX_LOAD_SEGMENTS : nat := 8.
Definition ELF_HEADER_SIZE : Z := 64.
Definition PROGRAM_HEADER_SIZE : Z := 56.
Definition PT_LOAD : Z := 1.
Definition PF_EXECUTE : Z := 1.
Definition PF_WRITE : Z := 2.
Definition ELF_MACHINE_X86_64 : Z := 0x3e.
Definition USER_ADDRESS_LIMIT : Z := 0x800000000000.
Definition PAGE_SIZE : Z := 4096.

Record LoadSegment := mkSegment {
  file_offset : Z;
  file_size : Z;
  virtual_address : Z;
  memory_size : Z;
  mapping_start : Z;
  mapping_size : Z;
  writable : bool;
  executable : bool
}.

Record Image := mkImage {
  entry : Z;
  segments : list LoadSegment
}.

Definition segment_count (i : Image) : nat := length (segments i).

Inductive Error :=
  | Truncated | InvalidHeader | Unsupported | InvalidSegment
  | OverlappingSegments | InvalidEntry | TooManySegments.

#[export] Instance Error_eq_dec : EqDecision Error.
Proof. solve_decision. Defined.

(** [bytes.get(offset..offset + n)] *)
Definition get (bs : list Z) (off : Z) (n : nat) : option (list Z) :=
  if (0 <=? off) && (off + Z.of_nat n <=? Z.of_nat (length bs))
  then Some (take n (drop (Z.to_nat off) bs)) else None.

Definition read_u16 (bs : list Z) (off : Z) : result Z Error :=
  let? v := ok_or (get bs off 2) Truncated in Ok (from_le_bytes v).
Definition read_u32 (bs : list Z) (off : Z) : result Z Error :=
  let? v := ok_or (get bs off 4) Truncated in Ok (from_le_bytes v).
Definition read_u64 (bs : list Z) (off : Z) : result Z Error :=
  let? v := ok_or (get bs off 8) Truncated in Ok (from_le_bytes v).

Definition align_down (v : Z) : Z := Z.land v (not64 (PAGE_SIZE - 1)).
Definition align_up (v : Z) : option Z := align_down <$> checked_add64 v (PAGE_SIZE - 1).

Definition mapping_end (s : LoadSegment) : Z := mapping_start s + mapping_size s.

(** [mapping_start < other_end && other.mapping_start < end] *)
Definition overlaps (start stop : Z) (s : LoadSegment) : bool :=
  (start <? mapping_end s) && (mapping_start s <? stop).

(** The checks on one [PT_LOAD] header at [offset]: the segment it describes. *)
Definition read_segment (bs : list Z) (offset : Z) (loaded : list LoadSegment) : result LoadSegment Error :=
  let? flags := read_u32 bs (offset + 4) in
  let? foff := read_u64 bs (offset + 8) in
  let? va := read_u64 bs (offset + 16) in
  let? fsize := read_u64 bs (offset + 32) in
  let? msize := read_u64 bs (offset + 40) in
  let? alignment := read_u64 bs (offset + 48) in
  let w := negb (Z.land flags PF_WRITE =? 0) in
  let x := negb (Z.land flags PF_EXECUTE =? 0) in
  if (msize =? 0) || (msize <? fsize) || (w && x) || (alignment =? 0)
     || negb (is_power_of_two alignment) || negb (va mod alignment =? foff mod alignment)
  then Err InvalidSegment
  else
    let? _ := ok_or (e ← checked_add64 foff fsize;
                     if e <=? Z.of_nat (length bs) then Some e else None) Truncated in
    let? memory_end := ok_or (e ← checked_add64 va msize;
                              if e <? USER_ADDRESS_LIMIT then Some e else None) InvalidSegment in
    let start := align_down va in
    let? stop := ok_or (align_up memory_end) InvalidSegment in
    if existsb (overlaps start stop) loaded then Err OverlappingSegments
    else Ok (mkSegment foff fsize va msize start (stop - start) w x).

(** [executable && entry >= virtual_address && entry < memory_end] *)
Definition holds_entry (e : Z) (s : LoadSegment) : bool :=
  executable s && (virtual_address s <=? e) && (e <? virtual_address s + memory_size s).

(** The loop over the program headers; [found] is [entry_is_executable]. *)
Fixpoint load_headers (bs : list Z) (ent poff psize : Z) (ids : list nat)
    (loaded : list LoadSegment) (found : bool) : result (list LoadSegment * bool) Error :=
  match ids with
  | [] => Ok (loaded, found)
  | i :: ids =>
      let offset := poff + Z.of_nat i * psize in
      let? kind := read_u32 bs offset in
      if negb (kind =? PT_LOAD) then load_headers bs ent poff psize ids loaded found
      else if (length loaded =? MAX_LOAD_SEGMENTS)%nat then Err TooManySegments
      else
        let? s := read_segment bs offset loaded in
        load_headers bs ent poff psize ids (loaded ++ [s]) (found || holds_entry ent s)
  end.

Definition magic_ok (bs : list Z) : bool :=
  bool_decide (take 4 bs = [0x7f; 0x45; 0x4c; 0x46]) && bool_decide (bs !! 4%nat = Some 2)
  && bool_decide (bs !! 5%nat = Some 1) && bool_decide (bs !! 6%nat = Some 1).

(** A short-circuit [read != expected] test in the header condition. *)
Definition expect (r : result Z Error) (v : Z) (k : result Image Error) : result Image Error :=
  let? x := r in if x =? v then k else Err InvalidHeader.

Definition parse (bs : list Z) : result Image Error :=
  if Z.of_nat (length bs) <? ELF_HEADER_SIZE then Err Truncated
  else if negb (magic_ok bs) then Err InvalidHeader
  else expect (read_u16 bs 16) 2 (expect (read_u16 bs 18) ELF_MACHINE_X86_64
    (expect (read_u32 bs 20) 1 (expect (read_u16 bs 52) ELF_HEADER_SIZE (
    let? ent := read_u64 bs 24 in
    let? poff := read_u64 bs 32 in
    let? psize := read_u16 bs 54 in
    let? pcount := read_u16 bs 56 in
    if (psize <? PROGRAM_HEADER_SIZE) || (pcount =? 0) then Err Unsupported
    else
      let? table := ok_or (checked_mul64 psize pcount) Truncated in
      let? _ := ok_or (e ← checked_add64 poff table;
                       if e <=? Z.of_nat (length bs) then Some e else None) Truncated in
      let? loaded := load_headers bs ent poff psize (seq 0 (Z.to_nat pcount)) [] false in
      let (segs, found) := loaded : list LoadSegment * bool in
      if (length segs =? 0)%nat || negb found then Err InvalidEntry
      else Ok (mkImage ent segs))))).

(** ** Relocation *)

Definition shift (delta : Z) (s : LoadSegment) : option LoadSegment :=
  va ← checked_add64 (virtual_address s) delta;
  start ← checked_add64 (mapping_start s) delta;
  memory_end ← checked_add64 va (memory_size s);
  stop ← checked_add64 start (mapping_size s);
  if (start <? USER_ADDRESS_LIMIT) && (memory_end <? USER_ADDRESS_LIMIT) && (stop <=? USER_ADDRESS_LIMIT)
  then Some (mkSegment (file_offset s) (file_size s) va (memory_size s) start (mapping_size s)
               (writable s) (executable s))
  else None.

(** The second pass: every segment against the ones before it. *)
Fixpoint disjoint_from (before after : list LoadSegment) : bool :=
  match after with
  | [] => true
  | s :: after =>
      negb (existsb (overlaps (mapping_start s) (mapping_end s)) before)
      && disjoint_from (before ++ [s]) after
  end.

Definition relocated (img : Image) (delta : Z) : option Image :=
  ent ← checked_add64 (entry img) delta;
  segs ← mapM (shift delta) (segments img);
  if disjoint_from [] segs then Some (mkImage ent segs) else None.

End Elf.

Module ElfProofs.
Import Elf.

(** *** The promise of the parser to the loader *)

(** One segment of an image of [n] bytes. *)
Record seg_ok (n : Z) (s : LoadSegment) : Prop := {
  so_file : 0 ≤ file_offset s ∧ 0 ≤ file_size s ∧ file_offset s + file_size s ≤ n;
  so_size : file_size s ≤ memory_size s ∧ 0 < memory_size s;
  so_wx : writable s && executable s = false;
  so_align : mapping_start s mod PAGE_SIZE = 0 ∧ mapping_size s mod PAGE_SIZE = 0;
  so_cover : 0 ≤ mapping_start s ∧ mapping_start s ≤ virtual_address s
             ∧ virtual_address s + memory_size s ≤ mapping_end s;
  so_user : virtual_address s + memory_size s < USER_ADDRESS_LIMIT
            ∧ mapping_end s ≤ USER_ADDRESS_LIMIT
}.

(** Mappings of two segments share no address. *)
Definition apart (s t : LoadSegment) : Prop :=
  mapping_end s ≤ mapping_start t ∨ mapping_end t ≤ mapping_start s.

Fixpoint all_apart (l : list LoadSegment) : Prop :=
  match l with
  | [] => True
  | s :: l => Forall (apart s) l ∧ all_apart l
  end.

Record image_ok (n : Z) (i : Image) : Prop := {
  io_count : (1 ≤ segment_count i ≤ MAX_LOAD_SEGMENTS)%nat;
  io_segs : Forall (seg_ok n) (segments i);
  io_apart : all_apart (segments i);
  io_entry : ∃ s, s ∈ segments i ∧ executable s = true
             ∧ virtual_address s ≤ entry i < virtual_address s + memory_size s
}.

(** *** Alignment *)

Lemma align_down_eq v : in_u64 v → align_down v = PAGE_SIZE * (v / PAGE_SIZE).
Proof.
  intros Hv. exact (land_not64_low v 12 Hv ltac:(lia)).
Qed.

Lemma align_up_spec v e :
  0 ≤ v → align_up v = Some e → v ≤ e ∧ e mod PAGE_SIZE = 0 ∧ e < v + PAGE_SIZE.
Proof.
  unfold align_up, checked_add64. intros Hv. case_match eqn:E; [|done]. apply Z.leb_le in E.
  cbn [fmap option_fmap option_map]. rewrite align_down_eq by (unfold in_u64, PAGE_SIZE in *; lia).
  intros [= <-]. unfold PAGE_SIZE in *. Z.to_euclidean_division_equations. lia.
Qed.

(** *** Reading words *)

Lemma get_bytes bs off n v : Forall is_byte bs → get bs off n = Some v → Forall is_byte v ∧ length v = n.
Proof.
  unfold get. intros Hbs. case_match eqn:E; [|done]. reflect_bools. intros [= <-]. split.
  - by apply Forall_take, Forall_drop.
  - rewrite length_take, length_drop. lia.
Qed.

Lemma read_u64_range bs off v : Forall is_byte bs → read_u64 bs off = Ok v → in_u64 v.
Proof.
  unfold read_u64. intros Hbs. destruct (get bs off 8) as [l|] eqn:E; [|done].
  cbn. intros [= <-]. apply get_bytes in E as [Hl Hn]; [|done].
  pose proof (from_le_bytes_bound l Hl). rewrite Hn in *. unfold in_u64, u64_max. lia.
Qed.

(** *** One program header *)

Lemma read_segment_ok bs off loaded s :
  Forall is_byte bs → read_segment bs off loaded = Ok s →
  seg_ok (Z.of_nat (length bs)) s ∧ Forall (apart s) loaded.
Proof.
  intros Hbs. unfold read_segment.
  destruct (read_u32 bs (off + 4)) as [flags|]; [|done].
  destruct (read_u64 bs (off + 8)) as [foff|] eqn:E1; [|done].
  destruct (read_u64 bs (off + 16)) as [va|] eqn:E2; [|done].
  destruct (read_u64 bs (off + 32)) as [fsize|] eqn:E3; [|done].
  destruct (read_u64 bs (off + 40)) as [msize|] eqn:E4; [|done].
  destruct (read_u64 bs (off + 48)) as [al|] eqn:E5; [|done]. cbn [rbind].
  apply read_u64_range in E1, E2, E3, E4; try done. clear E5.
  set (w := negb _). set (x := negb (Z.land flags PF_EXECUTE =? 0)). clearbody w x.
  case_match eqn:Hc; [done|]. reflect_bools.
  unfold checked_add64. destruct (Z.leb_spec (foff + fsize) u64_max); [|done].
  cbn [mbind option_bind ok_or rbind]. destruct (Z.leb_spec (foff + fsize) (Z.of_nat (length bs))); [|done].
  destruct (Z.leb_spec (va + msize) u64_max); [|done]. cbn [mbind option_bind ok_or rbind].
  destruct (Z.ltb_spec (va + msize) USER_ADDRESS_LIMIT); [|done]. cbn [mbind option_bind ok_or rbind].
  destruct (align_up (va + msize)) as [stop|] eqn:Ea; [|done]. cbn [ok_or rbind].
  case_match eqn:Ho; [done|]. intros [= <-].
  unfold in_u64 in *. apply align_up_spec in Ea; [|lia]. pose proof (align_down_eq va ltac:(unfold in_u64; lia)) as Hd.
  rewrite Hd in *. unfold PAGE_SIZE, USER_ADDRESS_LIMIT in *. split.
  - split; unfold mapping_end, PAGE_SIZE, USER_ADDRESS_LIMIT; cbn; repeat split; try done;
      Z.to_euclidean_division_equations; lia.
  - apply Forall_forall. intros t Ht. unfold apart, mapping_end at 1. cbn.
    assert (Hn : overlaps (4096 * (va / 4096)) stop t = false).
    { apply not_true_iff_false. intros Hx. apply not_true_iff_false in Ho. apply Ho.
      apply existsb_exists. exists t. split; [by apply list_elem_of_In|done]. }
    unfold overlaps in Hn. apply andb_false_iff in Hn as [Hn|Hn]; apply Z.ltb_ge in Hn; lia.
Qed.

(** *** The loop *)

Lemma all_apart_snoc l s : all_apart l → Forall (apart s) l → all_apart (l ++ [s]).
Proof.
  induction l as [|t l IH]; cbn [all_apart app]; [by repeat constructor|].
  intros [H1 H2] H3. apply Forall_cons in H3 as [Ht H3]. split; [|by apply IH].
  apply Forall_app. split; [done|]. apply Forall_singleton. unfold apart in *. lia.
Qed.

Record loaded_ok (n e : Z) (l : list LoadSegment) (found : bool) : Prop := {
  lo_count : (length l ≤ MAX_LOAD_SEGMENTS)%nat;
  lo_segs : Forall (seg_ok n) l;
  lo_apart : all_apart l;
  lo_entry : found = true → ∃ s, s ∈ l ∧ holds_entry e s = true
}.

Lemma load_headers_ok bs e poff psize ids loaded found segs found' :
  Forall is_byte bs → loaded_ok (Z.of_nat (length bs)) e loaded found →
  load_headers bs e poff psize ids loaded found = Ok (segs, found') →
  loaded_ok (Z.of_nat (length bs)) e segs found'.
Proof.
  intros Hbs. revert loaded found. induction ids as [|i ids IH]; intros loaded found Hl; cbn [load_headers].
  { by intros [= -> ->]. }
  destruct (read_u32 bs _) as [kind|]; [|done]. cbn [rbind].
  case_match; [by apply IH|]. case_match eqn:Hn; [done|]. apply Nat.eqb_neq in Hn.
  destruct (read_segment bs _ loaded) as [s|] eqn:Hs; [|done]. cbn [rbind]. apply IH.
  apply read_segment_ok in Hs as [Hs Ha]; [|done]. destruct Hl. split.
  - rewrite length_app. cbn. lia.
  - apply Forall_app. auto.
  - by apply all_apart_snoc.
  - intros [Hf|Hf]%orb_true_iff.
    + destruct (lo_entry0 Hf) as (t & Ht & He). exists t. split; [apply elem_of_app; auto|done].
    + exists s. split; [apply elem_of_app; right; by apply list_elem_of_singleton|done].
Qed.

Lemma expect_Ok r v k i : expect r v k = Ok i → k = Ok i.
Proof. unfold expect. destruct r; cbn; [|done]. by case_match. Qed.

(** Whatever bytes [parse] is given, an image it accepts is safe to map: between
    one and eight segments, each reading a range of the file no longer than its memory,
    never writable and executable at once, covered by a page-aligned mapping below the
    user address limit; no two mappings share an address; and the entry point lies in an
    executable segment. *)
Theorem elf_parse_safe bs img :
  Forall is_byte bs → parse bs = Ok img → image_ok (Z.of_nat (length bs)) img.
Proof.
  intros Hbs. unfold parse. case_match; [done|]. case_match; [done|].
  intros H1%expect_Ok%expect_Ok%expect_Ok%expect_Ok. revert H1.
  destruct (read_u64 bs 24) as [e|]; [|done]. destruct (read_u64 bs 32) as [poff|]; [|done].
  destruct (read_u16 bs 54) as [psize|]; [|done]. destruct (read_u16 bs 56) as [pcount|]; [|done]. cbn [rbind].
  case_match; [done|]. destruct (checked_mul64 psize pcount) as [table|]; [|done]. cbn [ok_or rbind].
  destruct (_ ≫= _); [|done]. cbn [ok_or rbind].
  destruct (load_headers bs _ _ _ _ _ _) as [[segs found]|] eqn:Hl; [|done]. cbn [rbind].
  apply load_headers_ok in Hl; [|done|split; try by repeat constructor; lia].
  case_match eqn:Hf; [done|]. reflect_bools. intros [= <-]. destruct Hl. split; try done.
  - unfold segment_count. cbn [segments]. destruct segs; cbn [length] in *; [done|lia].
  - destruct (lo_entry0 ltac:(done)) as (s & Hs & He). exists s. split; [done|].
    unfold holds_entry in He. reflect_bools. cbn [entry]. split; [done|lia].
Qed.

(** *** Relocation *)

Definition moved (delta : Z) (s : LoadSegment) : LoadSegment :=
  mkSegment (file_offset s) (file_size s) (virtual_address s + delta) (memory_size s)
    (mapping_start s + delta) (mapping_size s) (writable s) (executable s).

(** The placement leaves the segment below the user limit. *)
Definition fits (delta : Z) (s : LoadSegment) : bool :=
  (virtual_address s + memory_size s + delta <? USER_ADDRESS_LIMIT)
  && (mapping_end s + delta <=? USER_ADDRESS_LIMIT).

Lemma shift_spec n delta s :
  seg_ok n s → 0 ≤ delta → shift delta s = if fits delta s then Some (moved delta s) else None.
Proof.
  intros [] Hd. unfold shift, fits, checked_add64, mapping_end, u64_max, USER_ADDRESS_LIMIT in *.
  repeat (case_match; cbn [mbind option_bind] in *; reflect_bools); try done; exfalso;
    repeat match goal with
    | H : (_ && _)%bool = false |- _ => apply andb_false_iff in H as [H|H]
    end; reflect_bools; lia.
Qed.

Lemma shift_all n delta l :
  Forall (seg_ok n) l → 0 ≤ delta →
  mapM (shift delta) l = if forallb (fits delta) l then Some (moved delta <$> l) else None.
Proof.
  intros Hl Hd. induction Hl as [|s l Hs _ IH]; [done|].
  cbn [mapM forallb]. rewrite (shift_spec n), IH by done. by destruct (fits delta s), (forallb _ l).
Qed.

Lemma moved_ok n delta s :
  seg_ok n s → 0 ≤ delta → delta mod PAGE_SIZE = 0 → fits delta s = true → seg_ok n (moved delta s).
Proof.
  intros [] Hd Ha Hf. unfold fits in Hf. reflect_bools. unfold mapping_end in *.
  split; unfold mapping_end; cbn; try done; [|lia|lia]. split; [|tauto].
  rewrite Z.add_mod, (proj1 so_align0), Ha by done. done.
Qed.

Lemma moved_apart delta l : all_apart l → all_apart (moved delta <$> l).
Proof.
  induction l as [|s l IH]; [done|]. intros [H1 H2]. split; [|by apply IH].
  apply Forall_fmap. eapply Forall_impl; [done|]. intros t. unfold apart, mapping_end. cbn. lia.
Qed.

Lemma disjoint_from_apart before after :
  all_apart (before ++ after) → Forall (λ s, 0 < mapping_size s) (before ++ after) →
  disjoint_from before after = true.
Proof.
  revert before. induction after as [|s after IH]; intros before Ha Hp; [done|].
  cbn [disjoint_from]. apply andb_true_iff. split.
  - apply negb_true_iff, not_true_iff_false. intros (t & Ht & Ho)%existsb_exists.
    apply list_elem_of_In in Ht. apply list_elem_of_split in Ht as (l1 & l2 & ->).
    unfold overlaps in Ho. reflect_bools.
    clear IH Hp. induction l1 as [|u l1 IH1]; cbn in Ha; [|apply IH1, Ha].
    destruct Ha as [Ha _]. apply Forall_app in Ha as [_ Ha]. apply Forall_cons in Ha as [Ha _].
    unfold apart in Ha. lia.
  - apply IH; by rewrite <-app_assoc.
Qed.

(** Relocating an image the parser accepted by a page-aligned delta moves the entry
    and every segment by exactly that delta when all of them stay below the user limit,
    and is refused otherwise: the second overlap pass never rejects; the result has
    every guarantee of the parsed image. *)
Theorem relocation_exact n img delta :
  image_ok n img → 0 ≤ delta → delta mod PAGE_SIZE = 0 →
  relocated img delta =
    (if forallb (fits delta) (segments img)
     then Some (mkImage (entry img + delta) (moved delta <$> segments img)) else None)
  ∧ ∀ img', relocated img delta = Some img' → image_ok n img'.
Proof.
  intros [Hc Hs Ha (t & Ht & Hx & He)] Hd Hp.
  assert (Heq : relocated img delta = if forallb (fits delta) (segments img)
     then Some (mkImage (entry img + delta) (moved delta <$> segments img)) else None).
  { unfold relocated. rewrite (shift_all n) by done. destruct (forallb _ _) eqn:Hf.
    - assert (Hft : fits delta t = true) by (rewrite forallb_forall in Hf; by apply Hf, list_elem_of_In).
      unfold fits in Hft. reflect_bools. unfold checked_add64.
      destruct (Z.leb_spec (entry img + delta) u64_max); [|unfold u64_max, USER_ADDRESS_LIMIT in *; lia].
      cbn [mbind option_bind]. rewrite disjoint_from_apart; [done|by apply moved_apart|].
      cbn [app]. apply Forall_fmap. eapply Forall_impl; [done|]. intros s []. unfold mapping_end in *. cbn. lia.
    - by destruct (checked_add64 _ _). }
  split; [done|]. rewrite Heq. destruct (forallb _ _) eqn:Hf; [|done]. intros img' [= <-].
  rewrite forallb_forall in Hf. split; cbn.
  - unfold segment_count in *. cbn. by rewrite length_fmap.
  - apply Forall_fmap, Forall_forall. intros s Hs'. apply moved_ok; try done.
    + by apply (proj1 (Forall_forall _ _) Hs).
    + by apply Hf, list_elem_of_In.
  - by apply moved_apart.
  - exists (moved delta t). split; [by apply list_elem_of_fmap_2|]. cbn. split; [done|lia].
Qed.

(** *** A two-segment program *)

Definition le (n : nat) (x : Z) : list Z := to_le_bytes n x.

Definition sample_phdr (flags foff va fsize msize : Z) : list Z :=
  le 4 1 ++ le 4 flags ++ le 8 foff ++ le 8 va ++ le 8 0 ++ le 8 fsize ++ le 8 msize ++ le 8 4096.

(** Code at 0x400000 read from the file, zeroed data at 0x402000. *)
Definition sample_elf : list Z :=
  [0x7f; 0x45; 0x4c; 0x46; 2; 1; 1; 0] ++ replicate 8 0 ++ le 2 2 ++ le 2 0x3e ++ le 4 1
  ++ le 8 0x400010 ++ le 8 64 ++ le 8 0 ++ le 4 0 ++ le 2 64 ++ le 2 56 ++ le 2 2 ++ replicate 6 0
  ++ sample_phdr 5 0 0x400000 176 176 ++ sample_phdr 6 0 0x402000 0 5000.

Definition sample_image : Image :=
  mkImage 0x400010 [mkSegment 0 176 0x400000 176 0x400000 4096 false true;
                    mkSegment 0 0 0x402000 5000 0x402000 8192 true false].

Lemma elf_parse_safe_witness : parse sample_elf = Ok sample_image ∧ image_ok 176 sample_image.
Proof.
  split; [vm_compute; reflexivity|].
  apply (elf_parse_safe sample_elf); [apply Forall_forall, Forall_forall|]; [|vm_compute; reflexivity].
  apply (bool_decide_unpack _). vm_compute. exact I.
Defined.

Lemma relocation_exact_witness :
  relocated sample_image 0x10000 =
    Some (mkImage 0x410010 (moved 0x10000 <$> segments sample_image)).
Proof.
  assert (Hok : image_ok 176 sample_image).
  { split.
    - vm_compute. lia.
    - repeat constructor; vm_compute; repeat split; (discriminate || reflexivity || lia).
    - cbn. repeat constructor; vm_compute; discriminate.
    - exists (mkSegment 0 176 0x400000 176 0x400000 4096 false true). split; [apply list_elem_of_here|].
      cbn. split; [reflexivity|lia]. }
  destruct (relocation_exact 176 sample_image 0x10000 Hok ltac:(lia) ltac:(reflexivity)) as [H _].
  exact H.
Defined.

End ElfProofs.
