(* ===== verification/Ipc.v ===== *)
(** * IPC objects, handles and services (kernel/src/ipc.rs, the [State] machine)

    Processes own a table of generation-tagged handles to reference-counted kernel
    objects: message endpoints and shared-memory objects. References are held by
    handles, by capabilities in escrow inside queued messages, by published services,
    by shared-memory mappings and by calls in flight.

    The state is the code's: tables of options, scanned in order. An array with a
    length field is the list of its first entries; a payload is the slice a message
    exposes. Every operation runs under the one IPC lock, so it is a function of the
    whole world: the tables, the lineage registry with the security ledger, and the
    frames handed back to the page layer. *)
From S2P Require Import Prelude Capability WovenGuard SecurityLedger Lineage LineageService.

Module Ipc.

Definition MAX_ENDPOINTS : nat := 32.
Definition MAX_OBJECTS : nat := 64.
Definition MAX_HANDLES : nat := 16.
Definition MAX_SERVICES : nat := 32.
Definition MAX_SERVICE_NAME : nat := 32.
Definition MAX_SHM_OBJECTS : nat := 32.
Definition MAX_SHM_PAGES : nat := 16.
Definition MAX_SHM_MAPPINGS : nat := 32.
Definition QUEUE_DEPTH : nat := 16.
Definition MAX_MESSAGE_SIZE : nat := 256.
Definition MAX_WAITERS : nat := MAX_HANDLES.

(** ** Handles: slot plus one in the low byte, generation above. *)
Definition from_parts (slot : nat) (generation : Z) : Z :=
  Z.lor (as_u32 (Z.shiftl generation 8)) (Z.of_nat slot + 1).

Definition handle_slot (h : Z) : option nat :=
  let encoded := Z.to_nat (Z.land h 0xff) in
  if (encoded =? 0)%nat then None
  else if (encoded - 1 <? MAX_HANDLES)%nat then Some (encoded - 1)%nat else None.

Definition handle_generation (h : Z) : Z := Z.shiftr h 8.

(** ** Rights *)
Definition SEND : Z := 1.
Definition RECEIVE : Z := 2.
Definition TRANSFER : Z := 4.
Definition INSPECT : Z := 8.
Definition SHM_READ : Z := 16.
Definition SHM_WRITE : Z := 32.
Definition SHM_MAP : Z := 64.
Definition PUBLISH_SERVICE : Z := 128.
Definition ENDPOINT_OWNER : Z :=
  Z.lor (Z.lor (Z.lor (Z.lor SEND RECEIVE) TRANSFER) INSPECT) PUBLISH_SERVICE.
Definition SERVICE_CLIENT : Z := Z.lor (Z.lor SEND TRANSFER) INSPECT.
Definition SHARED_MEMORY_OWNER : Z :=
  Z.lor (Z.lor (Z.lor (Z.lor TRANSFER INSPECT) SHM_READ) SHM_WRITE) SHM_MAP.

(** [!x] on a [u8]; [rights & mask != 0]; [rights & !mask != 0]. *)
Definition not8 (x : Z) : Z := u8_max - x.
Definition has (rights mask : Z) : bool := negb (Z.land rights mask =? 0).
Definition exceeds (rights mask : Z) : bool := has rights (not8 mask).

(** ** Data *)
Inductive HandleObjectKind := Endpoint | SharedMemory.

#[export] Instance HandleObjectKind_eq_dec : EqDecision HandleObjectKind.
Proof. solve_decision. Defined.

Record ObjectRef := mkRef { ref_id : Z; kind : HandleObjectKind }.

#[export] Instance ObjectRef_eq_dec : EqDecision ObjectRef.
Proof. solve_decision. Defined.

Definition allowed_rights (k : HandleObjectKind) : Z :=
  match k with Endpoint => ENDPOINT_OWNER | SharedMemory => SHARED_MEMORY_OWNER end.

Record Message := mkMessage {
  sender : Z;
  payload : list Z;
  transferred_handle : option Z
}.

Inductive Error :=
  | EndpointExists | NoEndpoint | RegistryFull | QueueFull | QueueEmpty | MessageTooLarge
  | NoHandleSpace | HandleTableFull | ObjectTableFull | InvalidHandle | AccessDenied
  | WaiterTableFull | InvalidSize | MappingTableFull | AlreadyMapped | NotMapped
  | MappingFailed | MappingBusy | InvalidServiceName | ServiceExists | ServiceNotFound
  | ServiceTableFull.

#[export] Instance Error_eq_dec : EqDecision Error.
Proof. solve_decision. Defined.

Record LegacyEndpoint := mkLegacy {
  le_owner : Z;
  le_messages : list Message
}.

Record Waiter := mkWaiter { w_owner : Z; w_handle : Z; w_task : Z }.

#[export] Instance Waiter_eq_dec : EqDecision Waiter.
Proof. solve_decision. Defined.

Record TransferEscrow := mkEscrow {
  te_object : ObjectRef;
  te_rights : Z;
  te_lineage : option Z;
  te_class : option Guard.ServiceClass
}.

Record QueuedMessage := mkQueued {
  message : Message;
  transfer : option TransferEscrow
}.

Record EndpointObject := mkEndpoint {
  eo_id : Z;
  eo_owner : Z;
  eo_references : Z;
  eo_messages : list QueuedMessage;
  receive_waiters : list (option Waiter);
  send_waiters : list (option Waiter);
  eo_lineage : option Z
}.

Record SharedMapping := mkMapping { m_owner : Z; m_space : Z; m_start : Z }.

Record SharedMemoryObject := mkShared {
  so_id : Z;
  so_owner : Z;
  so_references : Z;
  page_count : nat;
  frames : list Z;
  mappings : list (option SharedMapping);
  so_lineage : option Z
}.

Record HandleEntry := mkEntry {
  he_object : ObjectRef;
  he_rights : Z;
  he_generation : Z;
  he_lineage : option Z;
  he_class : option Guard.ServiceClass
}.

Record HandleSpace := mkSpace {
  hs_owner : Z;
  entries : list (option HandleEntry);
  generations : list Z
}.

Record ServiceEntry := mkService {
  sv_name : list Z;
  sv_owner : Z;
  sv_object : ObjectRef;
  client_rights : Z;
  sv_lineage : option Z;
  sv_class : Guard.ServiceClass
}.

Record State := mkState {
  legacy_endpoints : list (option LegacyEndpoint);
  objects : list (option EndpointObject);
  shared_memory : list (option SharedMemoryObject);
  services : list (option ServiceEntry);
  handle_spaces : list (option HandleSpace);
  next_object_id : Z
}.

Definition state_new : State :=
  mkState (replicate MAX_ENDPOINTS None) (replicate MAX_OBJECTS None) (replicate MAX_SHM_OBJECTS None)
    (replicate MAX_SERVICES None) (replicate MAX_ENDPOINTS None) 1.

(** The IPC tables with what the operations call: the lineage service and the page
    layer, which is handed the frames of a dead shared-memory object. *)
Record World := mkWorld {
  state : State;
  sys : Service.Sys;
  released_frames : list Z
}.

Definition upd (f : State → State) (w : World) : World :=
  mkWorld (f (state w)) (sys w) (released_frames w).
Definition set_legacy (l : list (option LegacyEndpoint)) (s : State) : State :=
  mkState l (objects s) (shared_memory s) (services s) (handle_spaces s) (next_object_id s).
Definition set_objects (l : list (option EndpointObject)) (s : State) : State :=
  mkState (legacy_endpoints s) l (shared_memory s) (services s) (handle_spaces s) (next_object_id s).
Definition set_shared (l : list (option SharedMemoryObject)) (s : State) : State :=
  mkState (legacy_endpoints s) (objects s) l (services s) (handle_spaces s) (next_object_id s).
Definition set_services (l : list (option ServiceEntry)) (s : State) : State :=
  mkState (legacy_endpoints s) (objects s) (shared_memory s) l (handle_spaces s) (next_object_id s).
Definition set_spaces (l : list (option HandleSpace)) (s : State) : State :=
  mkState (legacy_endpoints s) (objects s) (shared_memory s) (services s) l (next_object_id s).
Definition set_next (n : Z) (s : State) : State :=
  mkState (legacy_endpoints s) (objects s) (shared_memory s) (services s) (handle_spaces s) n.

Definition registry (w : World) : Lin.Registry := Service.lineages (sys w).

(** A call of the audited lineage service. *)
Definition lineage_call {A} (m : ST Service.Sys A) (w : World) : World * A :=
  let '(a, s) := m (sys w) in (mkWorld (state w) s (released_frames w), a).

(** [Result]-returning code over the world. *)
Definition M (A : Type) : Type := World → World * result A Error.
Definition bindM {A B} (m : M A) (k : A → M B) : M B :=
  λ w, match m w with (w, Ok a) => k a w | (w, Err e) => (w, Err e) end.
Definition ret {A} (a : A) : M A := λ w, (w, Ok a).
Definition throw {A} (e : Error) : M A := λ w, (w, Err e).
(** A read of the state that may fail, and a guard. *)
Definition ask {A} (f : World → result A Error) : M A := λ w, (w, f w).
Definition guard (b : bool) (e : Error) : M () := if b then throw e else ret ().
Definition act (f : World → World) : M () := λ w, (f w, Ok ()).

#[local] Notation "'let*' x ':=' m 'in' k" := (bindM m (λ x, k))
  (at level 10, x name, m at level 100, k at level 200).

(** ** Tables *)

(** [table.iter().flatten().find(p)] with its slot. *)
Definition find_slot {A} (p : A → bool) (l : list (option A)) : option (nat * A) :=
  i ← position (λ o, match o with Some x => p x | None => false end) l;
  o ← l !! i; x ← o; Some (i, x).

Definition is_none {A} (o : option A) : bool := match o with None => true | Some _ => false end.

(** [table.iter().position(Option::is_none)] *)
Definition free_slot {A} (l : list (option A)) : option nat := position is_none l.

Definition legacy_endpoint (o : Z) (s : State) : option (nat * LegacyEndpoint) :=
  find_slot (λ e, le_owner e =? o) (legacy_endpoints s).
Definition handle_space (o : Z) (s : State) : option (nat * HandleSpace) :=
  find_slot (λ sp, hs_owner sp =? o) (handle_spaces s).
Definition object (o : ObjectRef) (s : State) : option (nat * EndpointObject) :=
  match kind o with
  | SharedMemory => None
  | Endpoint => find_slot (λ e, eo_id e =? ref_id o) (objects s)
  end.
Definition shared_object (o : ObjectRef) (s : State) : option (nat * SharedMemoryObject) :=
  match kind o with
  | Endpoint => None
  | SharedMemory => find_slot (λ e, so_id e =? ref_id o) (shared_memory s)
  end.

Definition put_legacy (i : nat) (e : LegacyEndpoint) : World → World :=
  upd (λ s, set_legacy (<[i := Some e]> (legacy_endpoints s)) s).
Definition put_object (i : nat) (e : option EndpointObject) : World → World :=
  upd (λ s, set_objects (<[i := e]> (objects s)) s).
Definition put_shared (i : nat) (e : option SharedMemoryObject) : World → World :=
  upd (λ s, set_shared (<[i := e]> (shared_memory s)) s).
Definition put_service (i : nat) (e : option ServiceEntry) : World → World :=
  upd (λ s, set_services (<[i := e]> (services s)) s).
Definition put_space (i : nat) (e : option HandleSpace) : World → World :=
  upd (λ s, set_spaces (<[i := e]> (handle_spaces s)) s).

(** ** Waiter queues *)
Definition waiter_array (l : list Waiter) : list (option Waiter) :=
  (Some <$> l) ++ replicate (MAX_WAITERS - length l) None.

Definition push_waiter (slots : list (option Waiter)) (x : Waiter) : result (list (option Waiter)) Error :=
  if bool_decide (x ∈ flatten slots) then Ok slots
  else let? i := ok_or (free_slot slots) WaiterTableFull in Ok (<[i := Some x]> slots).

Definition take_waiter (slots : list (option Waiter)) : list (option Waiter) * option Waiter :=
  match slots with
  | Some x :: rest => (rest ++ [None], Some x)
  | _ => (slots, None)
  end.

Definition remove_waiters_for_handle (slots : list (option Waiter)) (o h : Z)
    : list (option Waiter) * list Z :=
  let mine x := (w_owner x =? o) && (w_handle x =? h) in
  (waiter_array (filter (λ x, mine x = false) (flatten slots)),
   take MAX_WAITERS (w_task <$> filter (λ x, mine x = true) (flatten slots))).

Definition remove_waiters_for_owner (slots : list (option Waiter)) (o : Z) : list (option Waiter) :=
  waiter_array (filter (λ x, (w_owner x =? o) = false) (flatten slots)).

(** ** Endpoint objects *)
Definition set_eo_references (n : Z) (e : EndpointObject) : EndpointObject :=
  mkEndpoint (eo_id e) (eo_owner e) n (eo_messages e) (receive_waiters e) (send_waiters e) (eo_lineage e).
Definition set_eo_messages (l : list QueuedMessage) (e : EndpointObject) : EndpointObject :=
  mkEndpoint (eo_id e) (eo_owner e) (eo_references e) l (receive_waiters e) (send_waiters e) (eo_lineage e).
Definition set_waiters (r s : list (option Waiter)) (e : EndpointObject) : EndpointObject :=
  mkEndpoint (eo_id e) (eo_owner e) (eo_references e) (eo_messages e) r s (eo_lineage e).
Definition set_eo_lineage (l : option Z) (e : EndpointObject) : EndpointObject :=
  mkEndpoint (eo_id e) (eo_owner e) (eo_references e) (eo_messages e) (receive_waiters e) (send_waiters e) l.

Definition enqueue (e : EndpointObject) (m : QueuedMessage) : result EndpointObject Error :=
  if (length (eo_messages e) =? QUEUE_DEPTH)%nat then Err QueueFull
  else Ok (set_eo_messages (eo_messages e ++ [m]) e).

Definition head (e : EndpointObject) : result QueuedMessage Error :=
  match eo_messages e with [] => Err QueueEmpty | m :: _ => Ok m end.

Definition dequeue (e : EndpointObject) : result (EndpointObject * QueuedMessage) Error :=
  let? m := head e in Ok (set_eo_messages (tail (eo_messages e)) e, m).

Definition legacy_enqueue (e : LegacyEndpoint) (m : Message) : result LegacyEndpoint Error :=
  if (length (le_messages e) =? QUEUE_DEPTH)%nat then Err QueueFull
  else Ok (mkLegacy (le_owner e) (le_messages e ++ [m])).

Definition legacy_dequeue (e : LegacyEndpoint) : result (LegacyEndpoint * Message) Error :=
  match le_messages e with
  | [] => Err QueueEmpty
  | m :: rest => Ok (mkLegacy (le_owner e) rest, m)
  end.

(** ** Shared-memory objects *)
Definition set_so_references (n : Z) (e : SharedMemoryObject) : SharedMemoryObject :=
  mkShared (so_id e) (so_owner e) n (page_count e) (frames e) (mappings e) (so_lineage e).
Definition set_mappings (l : list (option SharedMapping)) (e : SharedMemoryObject) : SharedMemoryObject :=
  mkShared (so_id e) (so_owner e) (so_references e) (page_count e) (frames e) l (so_lineage e).
Definition set_so_lineage (l : option Z) (e : SharedMemoryObject) : SharedMemoryObject :=
  mkShared (so_id e) (so_owner e) (so_references e) (page_count e) (frames e) (mappings e) l.

(** ** Handle spaces *)
Definition set_entries (l : list (option HandleEntry)) (sp : HandleSpace) : HandleSpace :=
  mkSpace (hs_owner sp) l (generations sp).

Definition space_empty (o : Z) : HandleSpace :=
  mkSpace o (replicate MAX_HANDLES None) (replicate MAX_HANDLES 0).

Definition allocate_tagged (sp : HandleSpace) (o : ObjectRef) (rights : Z) (lineage : option Z)
    (class : option Guard.ServiceClass) : result (HandleSpace * Z) Error :=
  let? slot := ok_or (free_slot (entries sp)) HandleTableFull in
  let bumped := Z.land (as_u32 (default 0 (generations sp !! slot) + 1)) 0xffffff in
  let generation := if bumped =? 0 then 1 else bumped in
  Ok (mkSpace (hs_owner sp)
        (<[slot := Some (mkEntry o rights generation lineage class)]> (entries sp))
        (<[slot := generation]> (generations sp)),
      from_parts slot generation).

Definition allocate (sp : HandleSpace) (o : ObjectRef) (rights : Z) (lineage : option Z)
    : result (HandleSpace * Z) Error :=
  allocate_tagged sp o rights lineage None.

Definition lookup_raw (sp : HandleSpace) (h : Z) : result HandleEntry Error :=
  let? slot := ok_or (handle_slot h) InvalidHandle in
  let? e := ok_or (mjoin (entries sp !! slot)) InvalidHandle in
  if he_generation e =? handle_generation h then Ok e else Err InvalidHandle.

(** [lineage.is_some_and(|l| !lineage_authorizes(l, Ipc))] *)
Definition unauthorized (r : Lin.Registry) (lineage : option Z) : bool :=
  match lineage with
  | Some l => negb (Lin.lineage_authorizes r l Cap.Ipc)
  | None => false
  end.

Definition lookup (r : Lin.Registry) (sp : HandleSpace) (h : Z) : result HandleEntry Error :=
  let? e := lookup_raw sp h in
  if unauthorized r (he_lineage e) then Err AccessDenied else Ok e.

Definition remove (sp : HandleSpace) (h : Z) : result (HandleSpace * HandleEntry) Error :=
  let? slot := ok_or (handle_slot h) InvalidHandle in
  let? e := lookup_raw sp h in
  Ok (set_entries (<[slot := None]> (entries sp)) sp, e).

(** [self.handle_space(owner).ok_or(NoHandleSpace)?.lookup(handle)?] *)
Definition lookup_handle (o h : Z) (w : World) : result HandleEntry Error :=
  let? sp := ok_or (handle_space o (state w)) NoHandleSpace in lookup (registry w) sp.2 h.

(** [self.handle_space_mut(owner).ok_or(NoHandleSpace).and_then(|s| s.allocate_tagged(..))] *)
Definition install (o : Z) (obj : ObjectRef) (rights : Z) (lineage : option Z)
    (class : option Guard.ServiceClass) : M Z :=
  let* sp := ask (λ w, ok_or (handle_space o (state w)) NoHandleSpace) in
  let* r := ask (λ _, allocate_tagged sp.2 obj rights lineage class) in
  let* _ := act (put_space sp.1 (Some r.1)) in
  ret r.2.

(** ** Reference counts *)
Definition retain_object_reference (o : ObjectRef) : M () :=
  match kind o with
  | Endpoint =>
      let* e := ask (λ w, ok_or (object o (state w)) InvalidHandle) in
      let* _ := guard (eo_references e.2 =? u16_max) ObjectTableFull in
      act (put_object e.1 (Some (set_eo_references (eo_references e.2 + 1) e.2)))
  | SharedMemory =>
      let* e := ask (λ w, ok_or (shared_object o (state w)) InvalidHandle) in
      let* _ := guard (so_references e.2 =? u16_max) ObjectTableFull in
      act (put_shared e.1 (Some (set_so_references (so_references e.2 + 1) e.2)))
  end.

Definition release_lineage (o : Z) (l : option Z) (w : World) : World :=
  match l with
  | Some l => fst (lineage_call (Service.release_lineage o l) w)
  | None => w
  end.

Definition escrowed (l : list QueuedMessage) : list ObjectRef :=
  te_object <$> omap transfer l.

Definition free_frames (l : list Z) (w : World) : World :=
  mkWorld (state w) (sys w) (released_frames w ++ l).

(** Freeing an endpoint releases what its queue holds in escrow; every level of the
    recursion has removed an endpoint from the table. *)
Fixpoint release (fuel : nat) (o : ObjectRef) (w : World) : World :=
  match fuel with
  | O => w
  | S fuel =>
      match kind o with
      | Endpoint =>
          match object o (state w) with
          | None => w
          | Some (i, e) =>
              let n := saturating_sub (eo_references e) 1 in
              if n =? 0 then
                let w := put_object i None w in
                let w := release_lineage (eo_owner e) (eo_lineage e) w in
                foldl (λ w o, release fuel o w) w (escrowed (eo_messages e))
              else put_object i (Some (set_eo_references n e)) w
          end
      | SharedMemory =>
          match shared_object o (state w) with
          | None => w
          | Some (i, e) =>
              let n := saturating_sub (so_references e) 1 in
              if n =? 0 then
                let w := put_shared i None w in
                let w := release_lineage (so_owner e) (so_lineage e) w in
                free_frames (take (page_count e) (frames e)) w
              else put_shared i (Some (set_so_references n e)) w
          end
      end
  end.

Definition release_object_reference (o : ObjectRef) (w : World) : World :=
  release (S MAX_OBJECTS) o w.

(** ** Process namespaces *)
Definition register (o : Z) : M () :=
  let* s := ask (λ w, Ok (state w)) in
  let* _ := guard (bool_decide (is_Some (legacy_endpoint o s)) || bool_decide (is_Some (handle_space o s)))
              EndpointExists in
  let* i := ask (λ _, ok_or (free_slot (legacy_endpoints s)) RegistryFull) in
  let* j := ask (λ _, ok_or (free_slot (handle_spaces s)) RegistryFull) in
  let* _ := act (put_legacy i (mkLegacy o [])) in
  act (put_space j (Some (space_empty o))).

Definition maps_for (o : Z) (s : State) : bool :=
  any (λ so, any (λ m, m_owner m =? o) (flatten (mappings so))) (flatten (shared_memory s)).

(** One turn of the loop over the services of a leaving process. *)
Definition drop_service (o : Z) (w : World) (i : nat) : World :=
  match mjoin (services (state w) !! i) with
  | Some sv =>
      if sv_owner sv =? o then release_object_reference (sv_object sv) (put_service i None w) else w
  | None => w
  end.

Definition without_waiters (o : Z) (e : EndpointObject) : EndpointObject :=
  set_waiters (remove_waiters_for_owner (receive_waiters e) o)
              (remove_waiters_for_owner (send_waiters e) o) e.

Definition drop_waiters (o : Z) : World → World :=
  upd (λ s, set_objects ((λ x : option EndpointObject, without_waiters o <$> x) <$> objects s) s).

Definition unregister (o : Z) : M () :=
  let* s := ask (λ w, Ok (state w)) in
  let* _ := guard (maps_for o s) MappingBusy in
  let* le := ask (λ _, ok_or (legacy_endpoint o s) NoEndpoint) in
  let* sp := ask (λ _, ok_or (handle_space o s) NoHandleSpace) in
  let* _ := act (λ w, foldl (drop_service o) w (seq 0 MAX_SERVICES)) in
  let* _ := act (put_space sp.1 None) in
  let* _ := act (drop_waiters o) in
  let* _ := act (λ w, foldl (λ w e, release_object_reference (he_object e) w) w (flatten (entries sp.2))) in
  act (upd (λ s, set_legacy (<[le.1 := None]> (legacy_endpoints s)) s)).

(** ** The PID-addressed queue *)
Definition send (from to : Z) (bytes : list Z) : M () :=
  let* _ := guard (MAX_MESSAGE_SIZE <? length bytes)%nat MessageTooLarge in
  let* _ := ask (λ w, ok_or (legacy_endpoint from (state w)) NoEndpoint) in
  let* e := ask (λ w, ok_or (legacy_endpoint to (state w)) NoEndpoint) in
  let* e' := ask (λ _, legacy_enqueue e.2 (mkMessage from bytes None)) in
  act (put_legacy e.1 e').

Definition receive (to : Z) : M Message :=
  let* e := ask (λ w, ok_or (legacy_endpoint to (state w)) NoEndpoint) in
  let* r := ask (λ _, legacy_dequeue e.2) in
  let* _ := act (put_legacy e.1 r.1) in
  ret r.2.

Definition peek (to : Z) : M Message :=
  let* e := ask (λ w, ok_or (legacy_endpoint to (state w)) NoEndpoint) in
  ask (λ _, ok_or (hd_error (le_messages e.2)) QueueEmpty).

(** ** Objects *)

(** [id.wrapping_add(1).max(1)] *)
Definition next_id (n : Z) : Z := Z.max (wrapping_add64 n 1) 1.

Definition new_endpoint (i o : Z) : EndpointObject :=
  mkEndpoint i o 1 [] (replicate MAX_WAITERS None) (replicate MAX_WAITERS None) None.

(** [match allocation { Ok(h) => Ok(h), Err(e) => { rollback; Err(e) } }] *)
Definition or_else {A} (m : M A) (rollback : World → World) : M A :=
  λ w, match m w with (w, Ok a) => (w, Ok a) | (w, Err e) => (rollback w, Err e) end.

Definition create_endpoint_object (o : Z) : M Z :=
  let* s := ask (λ w, Ok (state w)) in
  let* _ := ask (λ _, ok_or (handle_space o s) NoHandleSpace) in
  let* i := ask (λ _, ok_or (free_slot (objects s)) ObjectTableFull) in
  let* _ := act (upd (set_next (next_id (next_object_id s)))) in
  let* _ := act (put_object i (Some (new_endpoint (next_object_id s) o))) in
  or_else (install o (mkRef (next_object_id s) Endpoint) ENDPOINT_OWNER None None) (put_object i None).

Definition install_shared_memory (o : Z) (fr : list Z) (pages : nat) : M Z :=
  let* _ := guard ((pages =? 0)%nat || (MAX_SHM_PAGES <? pages)%nat) InvalidSize in
  let* s := ask (λ w, Ok (state w)) in
  let* _ := ask (λ _, ok_or (handle_space o s) NoHandleSpace) in
  let* i := ask (λ _, ok_or (free_slot (shared_memory s)) ObjectTableFull) in
  let* _ := act (upd (set_next (next_id (next_object_id s)))) in
  let* _ := act (put_shared i (Some (mkShared (next_object_id s) o 1 pages fr
                                       (replicate MAX_SHM_MAPPINGS None) None))) in
  or_else (install o (mkRef (next_object_id s) SharedMemory) SHARED_MEMORY_OWNER None None) (put_shared i None).

(** The delegation root of an object: reuse a live one or issue a new one. *)
Definition root_for (o : Z) (current : option Z) (store : option Z → World → World) : M Z :=
  λ w, match current with
  | Some l =>
      if Lin.lineage_authorizes (registry w) l Cap.Ipc then (w, Ok l)
      else
        let w := store None w in
        let '(w, r) := lineage_call (Service.issue_lineage_root o (Cap.only Cap.Ipc)) w in
        match r with Ok l => (store (Some l) w, Ok l) | Err _ => (w, Err AccessDenied) end
  | None =>
      let '(w, r) := lineage_call (Service.issue_lineage_root o (Cap.only Cap.Ipc)) w in
      match r with Ok l => (store (Some l) w, Ok l) | Err _ => (w, Err AccessDenied) end
  end.

Definition delegation_lineage_for (o : Z) (entry : HandleEntry) : M Z :=
  match he_lineage entry with
  | Some l => ask (λ w, if Lin.lineage_authorizes (registry w) l Cap.Ipc then Ok l else Err AccessDenied)
  | None =>
      match kind (he_object entry) with
      | Endpoint =>
          let* e := ask (λ w, ok_or (object (he_object entry) (state w)) InvalidHandle) in
          let* _ := guard (negb (eo_owner e.2 =? o)) AccessDenied in
          root_for o (eo_lineage e.2) (λ l, put_object e.1 (Some (set_eo_lineage l e.2)))
      | SharedMemory =>
          let* e := ask (λ w, ok_or (shared_object (he_object entry) (state w)) InvalidHandle) in
          let* _ := guard (negb (so_owner e.2 =? o)) AccessDenied in
          root_for o (so_lineage e.2) (λ l, put_shared e.1 (Some (set_so_lineage l e.2)))
      end
  end.

Definition grant_handle (o h target rights : Z) : M Z :=
  let* _ := guard (rights =? 0) AccessDenied in
  let* source := ask (lookup_handle o h) in
  let* _ := guard (exceeds rights (allowed_rights (kind (he_object source)))
                   || negb (has (he_rights source) TRANSFER) || exceeds rights (he_rights source))
              AccessDenied in
  let* l := delegation_lineage_for o source in
  let* _ := retain_object_reference (he_object source) in
  or_else (install target (he_object source) rights (Some l) (he_class source))
    (release_object_reference (he_object source)).

(** ** Shared memory *)
Record SharedMemoryInfo := mkShmInfo {
  si_object : Z; si_owner : Z; si_rights : Z; si_pages : nat; si_mappings : nat
}.

Definition shared_memory_info (o h : Z) : M SharedMemoryInfo :=
  let* e := ask (lookup_handle o h) in
  let* _ := guard (negb (bool_decide (kind (he_object e) = SharedMemory)) || negb (has (he_rights e) INSPECT))
              AccessDenied in
  let* so := ask (λ w, ok_or (shared_object (he_object e) (state w)) InvalidHandle) in
  ret (mkShmInfo (so_id so.2) (so_owner so.2) (he_rights e) (page_count so.2)
         (length (flatten (mappings so.2)))).

Definition prepare_shared_io (o h : Z) (write : bool) : M (ObjectRef * list Z * nat) :=
  let* e := ask (lookup_handle o h) in
  let* _ := guard (negb (bool_decide (kind (he_object e) = SharedMemory))) InvalidHandle in
  let* _ := guard (negb (has (he_rights e) (if write then SHM_WRITE else SHM_READ))) AccessDenied in
  let* so := ask (λ w, ok_or (shared_object (he_object e) (state w)) InvalidHandle) in
  let* _ := retain_object_reference (he_object e) in
  ret (he_object e, frames so.2, page_count so.2).

Definition maps_at (o space start : Z) (m : SharedMapping) : bool :=
  (m_owner m =? o) && (m_space m =? space) && (m_start m =? start).

Definition prepare_shared_mapping (o h space start : Z) (writable : bool) : M (ObjectRef * list Z * nat) :=
  let* e := ask (lookup_handle o h) in
  let* _ := guard (negb (bool_decide (kind (he_object e) = SharedMemory))
                   || negb (has (he_rights e) SHM_MAP) || negb (has (he_rights e) SHM_READ)
                   || (writable && negb (has (he_rights e) SHM_WRITE))) AccessDenied in
  let* so := ask (λ w, ok_or (shared_object (he_object e) (state w)) InvalidHandle) in
  let* _ := guard (any (maps_at o space start) (flatten (mappings so.2))) AlreadyMapped in
  let* _ := guard (forallb (λ m, negb (is_none m)) (mappings so.2)) MappingTableFull in
  let* _ := retain_object_reference (he_object e) in
  ret (he_object e, frames so.2, page_count so.2).

(** [finish_shared_mapping] and [restore_shared_mapping]: record a mapping whose
    reference the caller already holds. *)
Definition store_mapping (obj : ObjectRef) (m : SharedMapping) : M () :=
  let* so := ask (λ w, ok_or (shared_object obj (state w)) InvalidHandle) in
  let* i := ask (λ _, ok_or (free_slot (mappings so.2)) MappingTableFull) in
  act (put_shared so.1 (Some (set_mappings (<[i := Some m]> (mappings so.2)) so.2))).

Definition finish_shared_mapping (obj : ObjectRef) (o space start : Z) (writable : bool) : M () :=
  store_mapping obj (mkMapping o space start).

Definition restore_shared_mapping (obj : ObjectRef) (m : SharedMapping) : M () := store_mapping obj m.

Definition cancel_shared_mapping (obj : ObjectRef) (w : World) : World := release_object_reference obj w.

Definition take_shared_mapping (o space start : Z) : M (ObjectRef * SharedMapping * nat) :=
  let* so := ask (λ w, ok_or (find_slot (λ so, any (maps_at o space start) (flatten (mappings so)))
                                (shared_memory (state w))) NotMapped) in
  let* m := ask (λ _, ok_or (find_slot (maps_at o space start) (mappings so.2)) NotMapped) in
  let* _ := act (put_shared so.1 (Some (set_mappings (<[m.1 := None]> (mappings so.2)) so.2))) in
  ret (mkRef (so_id so.2) SharedMemory, m.2, page_count so.2).

(** ** Messages and transfer of capabilities *)
Fixpoint push_edges (visited stack next : list ObjectRef) : option (list ObjectRef) :=
  match next with
  | [] => Some stack
  | o :: next =>
      if negb (bool_decide (kind o = Endpoint)) || bool_decide (o ∈ visited)
      then push_edges visited stack next
      else if (length stack =? MAX_OBJECTS)%nat then None
      else push_edges visited (o :: stack) next
  end.

(** The depth-first search; [None] is fuel exhaustion. *)
Fixpoint search (fuel : nat) (s : State) (destination : ObjectRef) (stack visited : list ObjectRef)
    : option bool :=
  match fuel with
  | O => None
  | S fuel =>
      match stack with
      | [] => Some false
      | current :: stack =>
          if bool_decide (current = destination) then Some true
          else if bool_decide (current ∈ visited) then search fuel s destination stack visited
          else if (length visited =? MAX_OBJECTS)%nat then Some true
          else
            let visited := visited ++ [current] in
            match object current s with
            | None => search fuel s destination stack visited
            | Some (_, e) =>
                match push_edges visited stack (escrowed (eo_messages e)) with
                | None => Some true
                | Some stack => search fuel s destination stack visited
                end
            end
      end
  end.

(** Every iteration pops one entry, and at most [MAX_OBJECTS] iterations push at most
    [QUEUE_DEPTH] entries each. *)
Definition SEARCH_FUEL : nat := 2 + MAX_OBJECTS * QUEUE_DEPTH.

Definition would_create_endpoint_transfer_cycle (destination tr : ObjectRef) (s : State) : bool :=
  if negb (bool_decide (kind tr = Endpoint)) then false
  else if bool_decide (destination = tr) then true
  else default true (search SEARCH_FUEL s destination [tr] []).

Definition send_handle_with_optional_transfer (from h : Z) (tr : option TransferEscrow) (bytes : list Z)
    : M (option Z) :=
  let* _ := guard (MAX_MESSAGE_SIZE <? length bytes)%nat MessageTooLarge in
  let* entry := ask (lookup_handle from h) in
  let* _ := guard (negb (has (he_rights entry) SEND)) AccessDenied in
  let* o := ask (λ w, ok_or (object (he_object entry) (state w)) InvalidHandle) in
  let* e := ask (λ _, enqueue o.2 (mkQueued (mkMessage from bytes None) tr)) in
  let r := take_waiter (receive_waiters e) in
  let* _ := act (put_object o.1 (Some (set_waiters r.1 (send_waiters e) e))) in
  ret (w_task <$> r.2).

Definition send_handle (from h : Z) (bytes : list Z) : M (option Z) :=
  send_handle_with_optional_transfer from h None bytes.

Definition send_handle_with_transfer (from endpoint_h transfer_h rights : Z) (bytes : list Z)
    : M (option Z) :=
  let* _ := guard (rights =? 0) AccessDenied in
  let* tr := ask (lookup_handle from transfer_h) in
  let* _ := guard (negb (has (he_rights tr) TRANSFER)
                   || exceeds rights (allowed_rights (kind (he_object tr)))
                   || exceeds rights (he_rights tr)) AccessDenied in
  let* l := delegation_lineage_for from tr in
  let* ep := ask (lookup_handle from endpoint_h) in
  let* _ := guard (negb (has (he_rights ep) SEND)) AccessDenied in
  let* _ := guard (negb (bool_decide (kind (he_object ep) = Endpoint))) InvalidHandle in
  let* cyclic := ask (λ w, Ok (would_create_endpoint_transfer_cycle (he_object ep) (he_object tr) (state w))) in
  let* _ := guard cyclic AccessDenied in
  let* _ := retain_object_reference (he_object tr) in
  or_else (send_handle_with_optional_transfer from endpoint_h
             (Some (mkEscrow (he_object tr) rights (Some l) (he_class tr))) bytes)
    (release_object_reference (he_object tr)).

Definition receive_handle (to h : Z) : M (Message * option Z) :=
  let* entry := ask (lookup_handle to h) in
  let* _ := guard (negb (has (he_rights entry) RECEIVE)) AccessDenied in
  let* queued := ask (λ w, let? o := ok_or (object (he_object entry) (state w)) InvalidHandle in head o.2) in
  let* installed :=
    match transfer queued with
    | Some tr =>
        let* h := install to (te_object tr) (te_rights tr) (te_lineage tr) (te_class tr) in ret (Some h)
    | None => ret None
    end in
  let* o := ask (λ w, ok_or (object (he_object entry) (state w)) InvalidHandle) in
  let* d := ask (λ _, dequeue o.2) in
  let r := take_waiter (send_waiters d.1) in
  let* _ := act (put_object o.1 (Some (set_waiters (receive_waiters d.1) r.1 d.1))) in
  ret (mkMessage (sender (message d.2)) (payload (message d.2)) installed, w_task <$> r.2).

Definition register_receive_waiter (to h task : Z) : M () :=
  let* entry := ask (lookup_handle to h) in
  let* _ := guard (negb (has (he_rights entry) RECEIVE)) AccessDenied in
  let* o := ask (λ w, ok_or (object (he_object entry) (state w)) InvalidHandle) in
  if negb (length (eo_messages o.2) =? 0)%nat then ret ()
  else
    let* l := ask (λ _, push_waiter (receive_waiters o.2) (mkWaiter to h task)) in
    act (put_object o.1 (Some (set_waiters l (send_waiters o.2) o.2))).

Definition register_send_waiter (from h task : Z) : M () :=
  let* entry := ask (lookup_handle from h) in
  let* _ := guard (negb (has (he_rights entry) SEND)) AccessDenied in
  let* o := ask (λ w, ok_or (object (he_object entry) (state w)) InvalidHandle) in
  if negb (length (eo_messages o.2) =? QUEUE_DEPTH)%nat then ret ()
  else
    let* l := ask (λ _, push_waiter (send_waiters o.2) (mkWaiter from h task)) in
    act (put_object o.1 (Some (set_waiters (receive_waiters o.2) l o.2))).

Definition waiter_counts (o h : Z) : M (nat * nat) :=
  let* entry := ask (lookup_handle o h) in
  let* _ := guard (negb (has (he_rights entry) INSPECT)) AccessDenied in
  let* e := ask (λ w, ok_or (object (he_object entry) (state w)) InvalidHandle) in
  ret (length (flatten (receive_waiters e.2)), length (flatten (send_waiters e.2))).

(** ** Services *)
Definition is_alphanumeric (b : Z) : bool :=
  ((48 <=? b) && (b <=? 57)) || ((65 <=? b) && (b <=? 90)) || ((97 <=? b) && (b <=? 122)).
Definition name_byte (b : Z) : bool := is_alphanumeric b || (b =? 46) || (b =? 45) || (b =? 95).

Definition parse_name (name : list Z) : result (list Z) Error :=
  if (length name =? 0)%nat || (MAX_SERVICE_NAME <? length name)%nat then Err InvalidServiceName
  else if negb (forallb name_byte name) then Err InvalidServiceName
  else Ok name.

Definition matches (name : list Z) (sv : ServiceEntry) : bool := bool_decide (sv_name sv = name).

Definition publish_service (o : Z) (name : list Z) (h rights : Z) : M () :=
  let* service_name := ask (λ _, parse_name name) in
  let* _ := guard ((rights =? 0) || exceeds rights SERVICE_CLIENT) AccessDenied in
  let* s := ask (λ w, Ok (state w)) in
  let* _ := guard (any (matches name) (flatten (services s))) ServiceExists in
  let* source := ask (lookup_handle o h) in
  let* _ := guard (negb (bool_decide (kind (he_object source) = Endpoint))
                   || negb (has (he_rights source) PUBLISH_SERVICE) || exceeds rights (he_rights source))
              AccessDenied in
  let* l := delegation_lineage_for o source in
  let* i := ask (λ w, ok_or (free_slot (services (state w))) ServiceTableFull) in
  let* _ := retain_object_reference (he_object source) in
  act (put_service i (Some (mkService service_name o (he_object source) rights (Some l)
                              (Guard.classify_service name)))).

Definition unpublish_service (o : Z) (name : list Z) : M () :=
  let* _ := ask (λ _, parse_name name) in
  let* sv := ask (λ w, ok_or (find_slot (matches name) (services (state w))) ServiceNotFound) in
  let* _ := guard (negb (sv_owner sv.2 =? o)) AccessDenied in
  let* _ := act (put_service sv.1 None) in
  act (release_object_reference (sv_object sv.2)).

Definition discover_service (client : Z) (name : list Z) : M Z :=
  let* _ := ask (λ _, parse_name name) in
  let* _ := ask (λ w, ok_or (handle_space client (state w)) NoHandleSpace) in
  let* sv := ask (λ w, ok_or (find_slot (matches name) (services (state w))) ServiceNotFound) in
  let* denied := ask (λ w, Ok (unauthorized (registry w) (sv_lineage sv.2))) in
  let* _ := guard denied AccessDenied in
  let* _ := retain_object_reference (sv_object sv.2) in
  or_else (install client (sv_object sv.2) (client_rights sv.2) (sv_lineage sv.2) (Some (sv_class sv.2)))
    (release_object_reference (sv_object sv.2)).

Record ServiceInfo := mkServiceInfo {
  vi_object : Z; vi_owner : Z; vi_rights : Z; vi_length : nat
}.

Definition service_info (name : list Z) : M ServiceInfo :=
  let* _ := ask (λ _, parse_name name) in
  let* sv := ask (λ w, ok_or (find_slot (matches name) (services (state w))) ServiceNotFound) in
  ret (mkServiceInfo (ref_id (sv_object sv.2)) (sv_owner sv.2) (client_rights sv.2) (length (sv_name sv.2))).

(** ** Revocation, closing, inspection *)

(** The owner and delegation root of the object behind a handle. *)
Definition object_authority (o : ObjectRef) (s : State) : result (Z * option Z) Error :=
  match kind o with
  | Endpoint => let? e := ok_or (object o s) InvalidHandle in Ok (eo_owner e.2, eo_lineage e.2)
  | SharedMemory => let? e := ok_or (shared_object o s) InvalidHandle in Ok (so_owner e.2, so_lineage e.2)
  end.

Definition revoke_object_delegations (o h : Z) : M nat :=
  let* entry := ask (λ w, let? sp := ok_or (handle_space o (state w)) NoHandleSpace in lookup_raw sp.2 h) in
  let* a := ask (λ w, object_authority (he_object entry) (state w)) in
  let* _ := guard (negb (a.1 =? o)) AccessDenied in
  let* l := ask (λ _, ok_or a.2 AccessDenied) in
  λ w, let '(w, r) := lineage_call (Service.revoke_lineage_subtree o l) w in
       match r with Ok n => (w, Ok n) | Err _ => (w, Err AccessDenied) end.

(** The tasks to wake: those waiting through the closed handle. *)
Definition close_waiters (o h : Z) (obj : ObjectRef) (w : World) : World * list Z :=
  match object obj (state w) with
  | None => (w, [])
  | Some (i, e) =>
      let r := remove_waiters_for_handle (receive_waiters e) o h in
      let s := remove_waiters_for_handle (send_waiters e) o h in
      (put_object i (Some (set_waiters r.1 s.1 e)) w, take (MAX_WAITERS * 2) (r.2 ++ s.2))
  end.

Definition close_handle (o h : Z) : M (list Z) :=
  let* sp := ask (λ w, ok_or (handle_space o (state w)) NoHandleSpace) in
  let* r := ask (λ _, remove sp.2 h) in
  let* _ := act (put_space sp.1 (Some r.1)) in
  λ w, let '(w, wake) := close_waiters o h (he_object r.2) w in
       (release_object_reference (he_object r.2) w, Ok wake).

Record HandleInfo := mkHandleInfo {
  hi_object : Z; hi_owner : Z; hi_rights : Z; hi_kind : HandleObjectKind
}.

Definition handle_info (o h : Z) : M HandleInfo :=
  let* entry := ask (lookup_handle o h) in
  let* a := ask (λ w, object_authority (he_object entry) (state w)) in
  ret (mkHandleInfo (ref_id (he_object entry)) a.1 (he_rights entry) (kind (he_object entry))).

Definition handle_service_class (o h : Z) : M (option Guard.ServiceClass) :=
  let* entry := ask (lookup_handle o h) in ret (he_class entry).

Definition object_count (s : State) : nat :=
  (length (flatten (objects s)) + length (flatten (shared_memory s)))%nat.
Definition shared_memory_count (s : State) : nat := length (flatten (shared_memory s)).
Definition service_count (s : State) : nat := length (flatten (services s)).
Definition handle_count (o : Z) (s : State) : nat :=
  match handle_space o s with Some (_, sp) => length (flatten (entries sp)) | None => 0%nat end.

End Ipc.
