(* ===== verification/IpcInv.v ===== *)
(** * Reference accounting of IPC objects

    The invariant of the IPC tables: the reference count of every object is exactly
    the number of handles, escrowed capabilities, services and mappings that name it,
    plus the references held by calls in flight (the ghost list of [pins]); the escrow
    graph between endpoints has no cycle. Every operation keeps it. *)
From stdpp Require Import relations.
From S2P Require Import Prelude Capability WovenGuard SecurityLedger Lineage LineageService Ipc.

Module IpcInv.
Import Ipc.

(** ** Sums over tables *)
Fixpoint tally {A} (f : A → Z) (l : list (option A)) : Z :=
  match l with
  | [] => 0
  | x :: l => from_option f 0 x + tally f l
  end.

Fixpoint sum_by {A} (f : A → Z) (l : list A) : Z :=
  match l with
  | [] => 0
  | x :: l => f x + sum_by f l
  end.

Lemma tally_insert {A} (f : A → Z) l i x y :
  l !! i = Some x → tally f (<[i := y]> l) = tally f l - from_option f 0 x + from_option f 0 y.
Proof.
  revert i. induction l as [|z l IH]; intros [|i] Hi; simpl in *; simplify_eq; [lia|].
  rewrite (IH i Hi). lia.
Qed.

Lemma tally_flatten {A} (f : A → Z) l : tally f l = sum_by f (flatten l).
Proof. induction l as [|[x|] l IH]; simpl; [done|lia..]. Qed.

Lemma sum_by_app {A} (f : A → Z) l k : sum_by f (l ++ k) = sum_by f l + sum_by f k.
Proof. induction l as [|x l IH]; cbn; [done|rewrite IH; lia]. Qed.

Lemma sum_by_fmap {A B} (f : B → Z) (g : A → B) l : sum_by f (g <$> l) = sum_by (λ x, f (g x)) l.
Proof. induction l as [|x l IH]; cbn; [done|rewrite IH; lia]. Qed.

Lemma sum_by_nonneg {A} (f : A → Z) l : (∀ x, x ∈ l → 0 ≤ f x) → 0 ≤ sum_by f l.
Proof.
  induction l as [|x l IH]; simpl; intros H; [lia|].
  pose proof (H x (list_elem_of_here _ _)). assert (0 ≤ sum_by f l); [|lia].
  apply IH. intros y Hy. apply H. by right.
Qed.

Lemma sum_by_elem {A} (f : A → Z) l x : (∀ x, 0 ≤ f x) → x ∈ l → f x ≤ sum_by f l.
Proof.
  intros Hf. induction 1 as [x l|x y l _ IH]; simpl.
  - pose proof (sum_by_nonneg f l (λ y _, Hf y)). lia.
  - pose proof (Hf y). lia.
Qed.

Lemma sum_by_pos {A} (f : A → Z) l : 0 < sum_by f l → ∃ x, x ∈ l ∧ 0 < f x.
Proof.
  induction l as [|x l IH]; simpl; intros H; [lia|].
  destruct (Z.lt_ge_cases 0 (f x)).
  - exists x. split; [left|done].
  - destruct IH as (y & Hy & ?); [lia|]. exists y. split; [by right|done].
Qed.

Lemma sum_by_perm {A} (f : A → Z) l k : l ≡ₚ k → sum_by f l = sum_by f k.
Proof. induction 1; simpl; lia. Qed.

Lemma tally_nonneg {A} (f : A → Z) l : (∀ x, Some x ∈ l → 0 ≤ f x) → 0 ≤ tally f l.
Proof. intros H. rewrite tally_flatten. apply sum_by_nonneg. intros x Hx. by apply H, elem_of_flatten. Qed.

Lemma tally_elem {A} (f : A → Z) l i x : (∀ x, 0 ≤ f x) → l !! i = Some (Some x) → f x ≤ tally f l.
Proof.
  intros Hf Hi. rewrite tally_flatten. apply sum_by_elem; [done|].
  apply elem_of_flatten. by eapply list_elem_of_lookup_2.
Qed.

Lemma tally_pos {A} (f : A → Z) l : 0 < tally f l → ∃ i x, l !! i = Some (Some x) ∧ 0 < f x.
Proof.
  rewrite tally_flatten. intros (x & Hx%elem_of_flatten & Hp)%sum_by_pos.
  apply list_elem_of_lookup_1 in Hx as [i Hi]. eauto.
Qed.

Lemma tally_replicate {A} (f : A → Z) n : tally f (replicate n None) = 0.
Proof. induction n; simpl; lia. Qed.

Lemma tally_fmap {A} (f : A → Z) (g : A → A) (l : list (option A)) :
  (∀ x, f (g x) = f x) → tally f ((λ o : option A, g <$> o) <$> l) = tally f l.
Proof.
  intros H. rewrite !tally_flatten, flatten_fmap, sum_by_fmap.
  induction (flatten l) as [|x k IH]; cbn; [done|]. by rewrite H, IH.
Qed.

(** ** Table scans *)
Lemma find_slot_Some {A} (p : A → bool) l i x :
  find_slot p l = Some (i, x) →
  l !! i = Some (Some x) ∧ p x = true
  ∧ ∀ j y, (j < i)%nat → l !! j = Some (Some y) → p y = false.
Proof.
  unfold find_slot. destruct (position _ l) as [k|] eqn:E; [|done]. simpl.
  apply position_Some in E as (o & Hk & Hp & Hbefore). rewrite Hk. simpl.
  destruct o as [y|]; [|done]. simpl. intros [= <- <-]. split_and!; [done..|].
  intros j z Hj Hz. by apply (Hbefore j (Some z)).
Qed.

Lemma find_slot_None {A} (p : A → bool) l :
  find_slot p l = None → ∀ i x, l !! i = Some (Some x) → p x = false.
Proof.
  unfold find_slot. destruct (position _ l) as [k|] eqn:E; simpl.
  - apply position_Some in E as (o & Hk & Hp & _). rewrite Hk. destruct o; done.
  - intros _ i x Hi. rewrite position_None in E.
    by apply (E i (Some x)).
Qed.

Lemma free_slot_Some {A} (l : list (option A)) i : free_slot l = Some i → l !! i = Some None.
Proof. intros (o & Hi & Hp & _)%position_Some. by destruct o. Qed.

(** ** Occupied slots *)
Definition slots {A} (P : A → Prop) (l : list (option A)) : Prop := ∀ i x, l !! i = Some (Some x) → P x.

Definition unique_by {A} (key : A → Z) (l : list (option A)) : Prop :=
  ∀ i j x y, l !! i = Some (Some x) → l !! j = Some (Some y) → key x = key y → i = j.

(** [k] is not the key of a slot other than [i]. *)
Definition fresh_at {A} (key : A → Z) (l : list (option A)) (i : nat) (k : Z) : Prop :=
  ∀ j y, j ≠ i → l !! j = Some (Some y) → key y ≠ k.

Lemma slots_insert {A} (P : A → Prop) l i x :
  slots P l → (∀ y, x = Some y → P y) → slots P (<[i := x]> l).
Proof.
  intros Hl Hx j y Hj. apply list_lookup_insert_Some in Hj as [(-> & Hy & _)|[_ Hj]]; eauto.
Qed.

Lemma unique_insert {A} (key : A → Z) l i x :
  unique_by key l → (∀ y, x = Some y → fresh_at key l i (key y)) → unique_by key (<[i := x]> l).
Proof.
  intros Hl Hx j k y z Hj Hk Hkey.
  apply list_lookup_insert_Some in Hj as [(-> & Hy & _)|[? Hj]];
    apply list_lookup_insert_Some in Hk as [(<- & Hz & _)|[? Hk]]; [done|..|eauto].
  - exfalso. by apply (Hx y Hy k z).
  - exfalso. by apply (Hx z Hz j y).
Qed.

Lemma unique_fresh {A} (key : A → Z) l i x : unique_by key l → l !! i = Some (Some x) → fresh_at key l i (key x).
Proof. intros Hl Hi j y Hj Hy Hk. by apply Hj, (Hl j i y x). Qed.

Lemma fresh_None {A} (key : A → Z) l i x : fresh_at key l i x → l !! i = Some None → ∀ j y, l !! j = Some (Some y) → key y ≠ x.
Proof. intros Hf Hi j y Hy. apply (Hf j y); [congruence|done]. Qed.

Lemma find_slot_unique {A} (key : A → Z) l i x :
  unique_by key l → l !! i = Some (Some x) → find_slot (λ y, key y =? key x) l = Some (i, x).
Proof.
  intros Hu Hi. destruct (find_slot _ l) as [[j y]|] eqn:E.
  - apply find_slot_Some in E as (Hj & Hk%Z.eqb_eq & _). assert (j = i) as -> by eauto. congruence.
  - apply (find_slot_None _ _) with (i := i) (x := x) in E; [|done]. by rewrite Z.eqb_refl in E.
Qed.

(** ** References *)
Definition is_ref (o o' : ObjectRef) : Z := if bool_decide (o = o') then 1 else 0.
Definition ep_ref (e : EndpointObject) : ObjectRef := mkRef (eo_id e) Endpoint.
Definition shm_ref (so : SharedMemoryObject) : ObjectRef := mkRef (so_id so) SharedMemory.

(** References to [o] in a slot, less the count the slot keeps if it is [o] itself. *)
Definition space_holds (o : ObjectRef) (sp : HandleSpace) : Z :=
  tally (λ e, is_ref o (he_object e)) (entries sp).
Definition ep_balance (o : ObjectRef) (e : EndpointObject) : Z :=
  sum_by (is_ref o) (escrowed (eo_messages e)) - (if bool_decide (o = ep_ref e) then eo_references e else 0).
Definition service_holds (o : ObjectRef) (sv : ServiceEntry) : Z := is_ref o (sv_object sv).
Definition shm_balance (o : ObjectRef) (so : SharedMemoryObject) : Z :=
  if bool_decide (o = shm_ref so) then tally (λ _, 1) (mappings so) - so_references so else 0.

Definition balance (o : ObjectRef) (s : State) : Z :=
  tally (space_holds o) (handle_spaces s) + tally (ep_balance o) (objects s)
  + tally (service_holds o) (services s) + tally (shm_balance o) (shared_memory s).

Definition pinned (o : ObjectRef) (pins : list ObjectRef) : Z := sum_by (is_ref o) pins.

(** ** The escrow graph *)
Definition edge (s : State) (a b : ObjectRef) : Prop :=
  ∃ i e, objects s !! i = Some (Some e) ∧ a = ep_ref e ∧ b ∈ escrowed (eo_messages e).

Definition acyclic {A} (R : A → A → Prop) : Prop := ∀ x, ¬ tc R x x.

(** ** The invariant *)
Record space_ok (sp : HandleSpace) : Prop := {
  sk_entries : length (entries sp) = MAX_HANDLES;
  sk_generations : length (generations sp) = MAX_HANDLES
}.

Record ep_ok (next : Z) (e : EndpointObject) : Prop := {
  ek_id : 0 < eo_id e < next;
  ek_references : 0 < eo_references e ≤ u16_max;
  ek_queue : (length (eo_messages e) ≤ QUEUE_DEPTH)%nat
}.

Record shm_ok (next : Z) (so : SharedMemoryObject) : Prop := {
  mk_id : 0 < so_id so < next;
  mk_references : 0 < so_references so ≤ u16_max;
  mk_mappings : length (mappings so) = MAX_SHM_MAPPINGS;
  mk_pages : (1 ≤ page_count so ≤ MAX_SHM_PAGES)%nat
}.

Record Inv (pins : list ObjectRef) (s : State) : Prop := {
  inv_spaces : slots space_ok (handle_spaces s);
  inv_owners : unique_by hs_owner (handle_spaces s);
  inv_eps : slots (ep_ok (next_object_id s)) (objects s);
  inv_ep_ids : unique_by eo_id (objects s);
  inv_shms : slots (shm_ok (next_object_id s)) (shared_memory s);
  inv_shm_ids : unique_by so_id (shared_memory s);
  inv_table : length (objects s) = MAX_OBJECTS;
  inv_next : 0 < next_object_id s;
  inv_balance : ∀ o, balance o s + pinned o pins = 0;
  inv_acyclic : acyclic (edge s)
}.

Lemma is_ref_same o : is_ref o o = 1.
Proof. unfold is_ref. by rewrite bool_decide_true. Qed.

Lemma is_ref_if o o' : is_ref o o' = if bool_decide (o = o') then 1 else 0.
Proof. done. Qed.

Lemma is_ref_nonneg o o' : 0 ≤ is_ref o o'.
Proof. unfold is_ref. case_bool_decide; lia. Qed.

Lemma pinned_cons o o' pins : pinned o (o' :: pins) = is_ref o o' + pinned o pins.
Proof. done. Qed.

Lemma pinned_app o l k : pinned o (l ++ k) = pinned o l + pinned o k.
Proof. apply sum_by_app. Qed.

Lemma acyclic_mono {A} (R R' : A → A → Prop) : (∀ x y, R' x y → R x y) → acyclic R → acyclic R'.
Proof.
  intros H Ha x Hx. apply (Ha x). revert Hx. generalize x at 2 4 as y. intros y.
  induction 1 as [x y Hxy|x y z Hxy _ IH]; [by apply tc_once, H|eapply tc_l; [by apply H|done]].
Qed.

(** A new edge from [a] to [b] closes no cycle when [a] is not reachable from [b]. *)
Lemma acyclic_add {A} (R R' : A → A → Prop) a b :
  acyclic R → (∀ x y, R' x y → R x y ∨ (x = a ∧ y = b)) → ¬ rtc R b a → acyclic R'.
Proof.
  intros Ha HR Hab.
  assert (Hpath : ∀ x y, tc R' x y → tc R x y ∨ (rtc R x a ∧ rtc R b y)).
  { intros x y. induction 1 as [x y H|x y z H _ IH].
    - destruct (HR x y H) as [|[-> ->]]; [left; by apply tc_once|right; split; apply rtc_refl].
    - destruct (HR x y H) as [Hr|[-> ->]].
      + destruct IH as [|[? ?]]; [left; by eapply tc_l|right; split; [by eapply rtc_l|done]].
      + destruct IH as [IH|[IH ?]]; [|by destruct Hab].
        right. split; [apply rtc_refl|by apply tc_rtc]. }
  intros x [Hx|[H1 H2]]%Hpath; [by apply (Ha x)|]. apply Hab. by etrans.
Qed.

(** ** One slot changes *)
Section updates.
Context (pins pins' : list ObjectRef) (s : State).
Hypothesis (HI : Inv pins s).

Lemma inv_put_space i x x' :
  handle_spaces s !! i = Some x →
  (∀ sp, x' = Some sp → space_ok sp ∧ fresh_at hs_owner (handle_spaces s) i (hs_owner sp)) →
  (∀ o, from_option (space_holds o) 0 x' + pinned o pins' = from_option (space_holds o) 0 x + pinned o pins) →
  Inv pins' (set_spaces (<[i := x']> (handle_spaces s)) s).
Proof.
  intros Hi Hx Hb. destruct HI. split; simpl; try done.
  - apply slots_insert; [done|]. intros y Hy. by apply Hx.
  - apply unique_insert; [done|]. intros y Hy. by apply Hx.
  - intros o. specialize (inv_balance0 o). unfold balance in *. simpl.
    rewrite (tally_insert _ _ _ _ _ Hi). specialize (Hb o). lia.
Qed.

Lemma inv_put_service i x x' :
  services s !! i = Some x →
  (∀ o, from_option (service_holds o) 0 x' + pinned o pins' = from_option (service_holds o) 0 x + pinned o pins) →
  Inv pins' (set_services (<[i := x']> (services s)) s).
Proof.
  intros Hi Hb. destruct HI. split; simpl; try done.
  intros o. specialize (inv_balance0 o). unfold balance in *. simpl.
  rewrite (tally_insert _ _ _ _ _ Hi). specialize (Hb o). lia.
Qed.

Lemma inv_put_object i x x' :
  objects s !! i = Some x →
  (∀ e, x' = Some e → ep_ok (next_object_id s) e ∧ fresh_at eo_id (objects s) i (eo_id e)) →
  (∀ o, from_option (ep_balance o) 0 x' + pinned o pins' = from_option (ep_balance o) 0 x + pinned o pins) →
  acyclic (edge (set_objects (<[i := x']> (objects s)) s)) →
  Inv pins' (set_objects (<[i := x']> (objects s)) s).
Proof.
  intros Hi Hx Hb Ha. destruct HI. split; simpl; try done.
  - apply slots_insert; [done|]. intros y Hy. by apply Hx.
  - apply unique_insert; [done|]. intros y Hy. by apply Hx.
  - by rewrite length_insert.
  - intros o. specialize (inv_balance0 o). unfold balance in *. simpl.
    rewrite (tally_insert _ _ _ _ _ Hi). specialize (Hb o). lia.
Qed.

Lemma inv_put_shared i x x' :
  shared_memory s !! i = Some x →
  (∀ e, x' = Some e → shm_ok (next_object_id s) e ∧ fresh_at so_id (shared_memory s) i (so_id e)) →
  (∀ o, from_option (shm_balance o) 0 x' + pinned o pins' = from_option (shm_balance o) 0 x + pinned o pins) →
  Inv pins' (set_shared (<[i := x']> (shared_memory s)) s).
Proof.
  intros Hi Hx Hb. destruct HI. split; simpl; try done.
  - apply slots_insert; [done|]. intros y Hy. by apply Hx.
  - apply unique_insert; [done|]. intros y Hy. by apply Hx.
  - intros o. specialize (inv_balance0 o). unfold balance in *. simpl.
    rewrite (tally_insert _ _ _ _ _ Hi). specialize (Hb o). lia.
Qed.

Lemma inv_set_next n : next_object_id s ≤ n → Inv pins (set_next n s).
Proof.
  intros Hn. destruct HI. split; simpl; try done; [..|lia].
  - intros i e He. destruct (inv_eps0 i e He). split; (done || lia).
  - intros i e He. destruct (inv_shms0 i e He). split; (done || lia).
Qed.

Lemma inv_set_legacy l : Inv pins (set_legacy l s).
Proof. destruct HI. by split. Qed.

Lemma inv_pins : (∀ o, pinned o pins' = pinned o pins) → Inv pins' s.
Proof. intros H. destruct HI. split; try done. intros o. by rewrite H. Qed.

(** *** What a reference means *)

Lemma slot_edge i e o : objects s !! i = Some (Some e) → o ∈ escrowed (eo_messages e) → edge s (ep_ref e) o.
Proof. intros Hi Ho. by exists i, e. Qed.

(** The graph only loses edges when no queue grows. *)
Lemma edges_shrink i x x' :
  objects s !! i = Some x →
  (∀ e', x' = Some e' → ∃ e, x = Some e ∧ eo_id e' = eo_id e ∧ escrowed (eo_messages e') ⊆ escrowed (eo_messages e)) →
  acyclic (edge (set_objects (<[i := x']> (objects s)) s)).
Proof.
  intros Hi Hx. apply (acyclic_mono (edge s)); [|apply HI]. intros a b (j & e & Hj & -> & Hb). simpl in Hj.
  apply list_lookup_insert_Some in Hj as [(<- & He & _)|[_ Hj]]; [|by exists j, e].
  destruct (Hx e He) as (e0 & -> & Hid & Hsub). exists i, e0. split_and!; [done| |by apply Hsub].
  unfold ep_ref. by rewrite Hid.
Qed.

(** The same endpoint with the same queue. *)
Lemma inv_touch_object i e e' :
  objects s !! i = Some (Some e) → eo_id e' = eo_id e → eo_messages e' = eo_messages e →
  0 < eo_references e' ≤ u16_max →
  (∀ o, pinned o pins' - (if bool_decide (o = ep_ref e) then eo_references e' else 0)
        = pinned o pins - (if bool_decide (o = ep_ref e) then eo_references e else 0)) →
  Inv pins' (set_objects (<[i := Some e']> (objects s)) s).
Proof.
  intros Hi Hid Hm Hr Hb. pose proof (inv_eps _ _ HI i e Hi) as []. eapply inv_put_object; [done|..].
  - intros ? [= <-]. split; [split; rewrite ?Hid, ?Hm; done|]. rewrite Hid. eapply unique_fresh; [apply HI|done].
  - intros o. specialize (Hb o). cbn. unfold ep_balance, ep_ref in *. rewrite Hm, Hid. lia.
  - apply (edges_shrink i (Some e)); [done|]. intros ? [= <-]. exists e. by rewrite Hm.
Qed.

Lemma inv_touch_shared i e e' :
  shared_memory s !! i = Some (Some e) → so_id e' = so_id e → length (mappings e') = length (mappings e) →
  page_count e' = page_count e → 0 < so_references e' ≤ u16_max →
  (∀ o, pinned o pins' + (if bool_decide (o = shm_ref e) then tally (λ _, 1) (mappings e') - so_references e' else 0)
        = pinned o pins + (if bool_decide (o = shm_ref e) then tally (λ _, 1) (mappings e) - so_references e else 0)) →
  Inv pins' (set_shared (<[i := Some e']> (shared_memory s)) s).
Proof.
  intros Hi Hid Hl Hp Hr Hb. pose proof (inv_shms _ _ HI i e Hi) as []. eapply inv_put_shared; [done|..].
  - intros ? [= <-]. split; [split; rewrite ?Hid, ?Hl, ?Hp; done|]. rewrite Hid. eapply unique_fresh; [apply HI|done].
  - intros o. specialize (Hb o). cbn. unfold shm_balance, shm_ref in *. rewrite Hid. lia.
Qed.

End updates.

(** ** A reference names a live object *)
Lemma object_Some o s i e : object o s = Some (i, e) → objects s !! i = Some (Some e) ∧ o = ep_ref e.
Proof.
  unfold object. destruct o as [n []]; simpl; [|done]. intros (Hi & Hn & _)%find_slot_Some.
  apply Z.eqb_eq in Hn. unfold ep_ref. by rewrite Hn.
Qed.

Lemma shared_Some o s i e : shared_object o s = Some (i, e) → shared_memory s !! i = Some (Some e) ∧ o = shm_ref e.
Proof.
  unfold shared_object. destruct o as [n []]; simpl; [done|]. intros (Hi & Hn & _)%find_slot_Some.
  apply Z.eqb_eq in Hn. unfold shm_ref. by rewrite Hn.
Qed.

Lemma space_Some o s i sp :
  handle_space o s = Some (i, sp) → handle_spaces s !! i = Some (Some sp) ∧ hs_owner sp = o.
Proof. intros (Hi & Hn%Z.eqb_eq & _)%find_slot_Some. done. Qed.

Lemma object_at pins s i e : Inv pins s → objects s !! i = Some (Some e) → object (ep_ref e) s = Some (i, e).
Proof. intros HI Hi. unfold object. simpl. apply (find_slot_unique eo_id); [apply HI|done]. Qed.

Lemma shared_at pins s i e : Inv pins s → shared_memory s !! i = Some (Some e) → shared_object (shm_ref e) s = Some (i, e).
Proof. intros HI Hi. unfold shared_object. simpl. apply (find_slot_unique so_id); [apply HI|done]. Qed.

Definition live (o : ObjectRef) (s : State) : Prop :=
  match kind o with
  | Endpoint => is_Some (object o s)
  | SharedMemory => is_Some (shared_object o s)
  end.

#[export] Instance live_dec o s : Decision (live o s).
Proof. unfold live. destruct (kind o); apply _. Defined.

Lemma live_cases o s :
  live o s ↔ (∃ i e, object o s = Some (i, e)) ∨ (∃ i e, shared_object o s = Some (i, e)).
Proof.
  unfold live, object, shared_object. destruct (kind o); split.
  - intros [[i e] H]. left. eauto.
  - intros [(i & e & H)|(i & e & H)]; [rewrite H; eauto|done].
  - intros [[i e] H]. right. eauto.
  - intros [(i & e & H)|(i & e & H)]; [done|rewrite H; eauto].
Qed.

(** Where references are held, per table. *)
Definition in_spaces (o : ObjectRef) (s : State) : Z := tally (space_holds o) (handle_spaces s).
Definition in_services (o : ObjectRef) (s : State) : Z := tally (service_holds o) (services s).
Definition in_queues (o : ObjectRef) (s : State) : Z :=
  tally (λ e, sum_by (is_ref o) (escrowed (eo_messages e))) (objects s).
Definition in_mappings (o : ObjectRef) (s : State) : Z :=
  tally (λ so, if bool_decide (o = shm_ref so) then tally (λ _, 1) (mappings so) else 0) (shared_memory s).
Definition references (o : ObjectRef) (s : State) : Z :=
  tally (λ e, if bool_decide (o = ep_ref e) then eo_references e else 0) (objects s)
  + tally (λ so, if bool_decide (o = shm_ref so) then so_references so else 0) (shared_memory s).

Lemma tally_sub {A} (f g h : A → Z) l : (∀ x, f x = g x - h x) → tally f l = tally g l - tally h l.
Proof. intros H. induction l as [|[x|] l IH]; cbn [tally from_option]; [done|rewrite H; lia|lia]. Qed.

Lemma balance_split o s :
  balance o s = in_spaces o s + in_queues o s + in_services o s + in_mappings o s - references o s.
Proof.
  unfold balance, references, in_queues, in_mappings.
  rewrite (tally_sub (ep_balance o) (λ e, sum_by (is_ref o) (escrowed (eo_messages e)))
             (λ e, if bool_decide (o = ep_ref e) then eo_references e else 0)) by done.
  rewrite (tally_sub (shm_balance o) (λ so, if bool_decide (o = shm_ref so) then tally (λ _, 1) (mappings so) else 0)
             (λ so, if bool_decide (o = shm_ref so) then so_references so else 0)).
  2:{ intros so. unfold shm_balance. case_bool_decide; lia. }
  unfold in_spaces, in_services. lia.
Qed.

Lemma holds_nonneg o s :
  0 ≤ in_spaces o s ∧ 0 ≤ in_queues o s ∧ 0 ≤ in_services o s ∧ 0 ≤ in_mappings o s.
Proof.
  split_and!; apply tally_nonneg; intros x _; unfold space_holds, service_holds;
    try case_bool_decide; try lia; try apply is_ref_nonneg;
    (apply tally_nonneg || apply sum_by_nonneg); intros; (apply is_ref_nonneg || lia).
Qed.

Lemma pinned_nonneg o pins : 0 ≤ pinned o pins.
Proof. apply sum_by_nonneg. intros. apply is_ref_nonneg. Qed.

Lemma tally_zero {A} (f : A → Z) l : slots (λ x, f x = 0) l → tally f l = 0.
Proof.
  intros H. induction l as [|[x|] l IH]; cbn [tally from_option]; [done|..].
  - rewrite IH by (intros i y Hy; apply (H (S i) y Hy)). rewrite (H 0%nat x eq_refl). lia.
  - apply IH. intros i y Hy. apply (H (S i) y Hy).
Qed.

Lemma tally_one {A} (f : A → Z) l i x :
  l !! i = Some (Some x) → (∀ j y, j ≠ i → l !! j = Some (Some y) → f y = 0) → tally f l = f x.
Proof.
  intros Hi Hz. rewrite <-(list_insert_id l i (Some x) Hi). rewrite <-(list_insert_insert_eq l i (Some x) None).
  rewrite (tally_insert _ _ i None).
  - rewrite tally_zero; [cbn; lia|]. intros j y [(<- & Hy & _)|[Hne Hy]]%list_lookup_insert_Some; [done|]. eauto.
  - apply list_lookup_insert_eq. eauto using lookup_lt_Some.
Qed.

Lemma references_dead o s : ¬ live o s → references o s = 0.
Proof.
  intros Hd. unfold references. rewrite !tally_zero; [done|..]; intros i e Hi; case_bool_decide as Ho; try done;
    exfalso; apply Hd, live_cases; subst o.
  - right. unfold shared_object. simpl. destruct (find_slot _ _) as [[j e']|] eqn:E; [eauto|].
    apply (find_slot_None _ _) with (i := i) (x := e) in E; [|done]. by rewrite Z.eqb_refl in E.
  - left. unfold object. simpl. destruct (find_slot _ _) as [[j e']|] eqn:E; [eauto|].
    apply (find_slot_None _ _) with (i := i) (x := e) in E; [|done]. by rewrite Z.eqb_refl in E.
Qed.

Lemma references_endpoint pins s i e :
  Inv pins s → objects s !! i = Some (Some e) → references (ep_ref e) s = eo_references e.
Proof.
  intros HI Hi. unfold references. rewrite (tally_one _ _ i e Hi).
  - rewrite tally_zero; [by rewrite bool_decide_true; [lia|]|]. intros j y _. by rewrite bool_decide_false by done.
  - intros j y Hj Hy. case_bool_decide as Heq; [|done]. injection Heq as Hid.
    exfalso.
    by apply (unique_fresh eo_id _ _ _ (inv_ep_ids _ _ HI) Hi j y).
Qed.

Lemma references_shared pins s i e :
  Inv pins s → shared_memory s !! i = Some (Some e) → references (shm_ref e) s = so_references e.
Proof.
  intros HI Hi. unfold references. rewrite (tally_one _ (shared_memory s) i e Hi).
  - rewrite tally_zero; [by rewrite bool_decide_true; [lia|]|]. intros j y _. by rewrite bool_decide_false by done.
  - intros j y Hj Hy. case_bool_decide as Heq; [|done]. injection Heq as Hid.
    exfalso.
    by apply (unique_fresh so_id _ _ _ (inv_shm_ids _ _ HI) Hi j y).
Qed.

(** Nothing names a dead object. *)
Lemma dead_unreferenced pins s o :
  Inv pins s → ¬ live o s →
  in_spaces o s = 0 ∧ in_queues o s = 0 ∧ in_services o s = 0 ∧ in_mappings o s = 0 ∧ pinned o pins = 0.
Proof.
  intros HI Hd. pose proof (inv_balance _ _ HI o) as Hb. rewrite balance_split, references_dead in Hb by done.
  pose proof (holds_nonneg o s). pose proof (pinned_nonneg o pins). lia.
Qed.

Lemma pin_live o pins s : Inv (o :: pins) s → live o s.
Proof.
  intros HI. destruct (decide (live o s)) as [|Hd]; [done|].
  destruct (dead_unreferenced _ _ _ HI Hd) as (_ & _ & _ & _ & Hp).
  rewrite pinned_cons, is_ref_same in Hp. pose proof (pinned_nonneg o pins). lia.
Qed.

Lemma handle_live pins s i sp k e :
  Inv pins s → handle_spaces s !! i = Some (Some sp) → entries sp !! k = Some (Some e) → live (he_object e) s.
Proof.
  intros HI Hi Hk. destruct (decide (live (he_object e) s)) as [|Hd]; [done|].
  destruct (dead_unreferenced _ _ _ HI Hd) as (Hs & _). unfold in_spaces in Hs.
  assert (Hn : ∀ sp', 0 ≤ space_holds (he_object e) sp').
  { intros sp'. apply tally_nonneg. intros. apply is_ref_nonneg. }
  pose proof (tally_elem _ _ _ _ Hn Hi) as Hle.
  assert (Hn' : ∀ e', 0 ≤ is_ref (he_object e) (he_object e')) by (intros; apply is_ref_nonneg).
  pose proof (tally_elem _ _ _ _ Hn' Hk) as Hle'. cbv beta in Hle'. rewrite is_ref_same in Hle'.
  unfold space_holds in Hle, Hs. lia.
Qed.

(** ** Releasing a reference *)
Lemma state_release_lineage o l w : state (release_lineage o l w) = state w.
Proof. destruct l as [l|]; [|done]. unfold release_lineage, lineage_call. by destruct (Service.release_lineage _ _ _). Qed.

(** The tables that releasing does not touch. *)
Record frame (s s' : State) : Prop := {
  fr_spaces : handle_spaces s' = handle_spaces s;
  fr_services : services s' = services s;
  fr_legacy : legacy_endpoints s' = legacy_endpoints s;
  fr_next : next_object_id s' = next_object_id s
}.

#[export] Instance frame_preorder : PreOrder frame.
Proof.
  split; [by split|]. intros s1 s2 s3 [] []. split; congruence.
Qed.

Lemma release_frame fuel o w : frame (state w) (state (release fuel o w)).
Proof.
  revert o w. induction fuel as [|fuel IH]; intros o w; cbn [release]; [done|].
  destruct (kind o).
  - destruct (object o (state w)) as [[i e]|]; [|done]. case_match; [|by split].
    set (w0 := release_lineage _ _ _).
    assert (H0 : frame (state w) (state w0)) by (unfold w0; rewrite state_release_lineage; by split).
    clearbody w0. revert w0 H0. induction (escrowed (eo_messages e)) as [|o' l IHl]; intros w0 H0; [done|].
    cbn [foldl]. apply IHl. etrans; [done|apply IH].
  - destruct (shared_object o (state w)) as [[i e]|]; [|done].
    case_match; cbn; rewrite ?state_release_lineage; by split.
Qed.

Definition live_count (s : State) : nat := length (flatten (objects s)).

Lemma live_count_bound pins s : Inv pins s → (live_count s ≤ MAX_OBJECTS)%nat.
Proof. intros HI. rewrite <-(inv_table _ _ HI). pose proof (flatten_length (objects s)). unfold live_count. lia. Qed.

Lemma live_count_drop s i e :
  objects s !! i = Some (Some e) → S (live_count (set_objects (<[i := None]> (objects s)) s)) = live_count s.
Proof. intros Hi. unfold live_count. cbn. by rewrite <-(flatten_clear _ _ _ Hi). Qed.

Lemma live_count_touch s i e e' :
  objects s !! i = Some (Some e) → live_count (set_objects (<[i := Some e']> (objects s)) s) = live_count s.
Proof.
  intros Hi. unfold live_count. cbn. destruct (flatten_replace _ _ _ e' Hi) as (rest & H1 & H2 & _).
  by rewrite H1, H2.
Qed.

(** Freeing an endpoint turns its escrows into references in flight. *)
Lemma inv_free_object pins s i e :
  Inv (ep_ref e :: pins) s → objects s !! i = Some (Some e) → eo_references e = 1 →
  Inv (escrowed (eo_messages e) ++ pins) (set_objects (<[i := None]> (objects s)) s).
Proof.
  intros HI Hi Hr. eapply inv_put_object; [done|done| |..]; [done|..].
  - intros o. rewrite pinned_app, pinned_cons. cbn. rewrite (is_ref_if o (ep_ref e)). unfold ep_balance, pinned. case_bool_decide; lia.
  - by apply (edges_shrink _ _ HI i (Some e)).
Qed.

Lemma inv_unpin_object pins s i e :
  Inv (ep_ref e :: pins) s → objects s !! i = Some (Some e) → 1 < eo_references e →
  Inv pins (set_objects (<[i := Some (set_eo_references (eo_references e - 1) e)]> (objects s)) s).
Proof.
  intros HI Hi Hr. pose proof (inv_eps _ _ HI i e Hi) as []. eapply inv_touch_object; try done; [cbn; lia|].
  intros o. rewrite pinned_cons, is_ref_if. cbn. case_bool_decide; lia.
Qed.

Lemma inv_free_shared pins s i e :
  Inv (shm_ref e :: pins) s → shared_memory s !! i = Some (Some e) → so_references e = 1 →
  tally (λ _, 1) (mappings e) = 0 ∧ Inv pins (set_shared (<[i := None]> (shared_memory s)) s).
Proof.
  intros HI Hi Hr.
  assert (Hm : tally (λ _, 1) (mappings e) = 0).
  { pose proof (inv_balance _ _ HI (shm_ref e)) as Hb.
    rewrite balance_split, (references_shared _ _ _ _ HI Hi), Hr, pinned_cons, is_ref_same in Hb.
    pose proof (holds_nonneg (shm_ref e) s). pose proof (pinned_nonneg (shm_ref e) pins).
    assert (Hz : in_mappings (shm_ref e) s = 0) by lia. unfold in_mappings in Hz.
    assert (Hn : ∀ so, 0 ≤ (if bool_decide (shm_ref e = shm_ref so) then tally (λ _, 1) (mappings so) else 0)).
    { intros so. case_bool_decide; [|lia]. apply tally_nonneg. lia. }
    pose proof (tally_elem _ _ _ _ Hn Hi) as Hle. cbv beta in Hle. rewrite bool_decide_true in Hle by done.
    pose proof (tally_nonneg (λ _ : SharedMapping, 1) (mappings e) ltac:(lia)). lia. }
  split; [done|]. eapply inv_put_shared; [done|done|done|].
  intros o. rewrite pinned_cons. cbn. rewrite (is_ref_if o (shm_ref e)). unfold shm_balance. rewrite Hm, Hr. case_bool_decide; lia.
Qed.

Lemma inv_unpin_shared pins s i e :
  Inv (shm_ref e :: pins) s → shared_memory s !! i = Some (Some e) → 1 < so_references e →
  Inv pins (set_shared (<[i := Some (set_so_references (so_references e - 1) e)]> (shared_memory s)) s).
Proof.
  intros HI Hi Hr. pose proof (inv_shms _ _ HI i e Hi) as []. eapply inv_touch_shared; try done; [cbn; lia|].
  intros o. rewrite pinned_cons, is_ref_if. cbn. case_bool_decide; lia.
Qed.

Lemma release_inv fuel o pins w :
  Inv (o :: pins) (state w) → (live_count (state w) < fuel)%nat →
  Inv pins (state (release fuel o w)) ∧ (live_count (state (release fuel o w)) ≤ live_count (state w))%nat.
Proof.
  revert o pins w. induction fuel as [|fuel IH]; intros o pins w HI Hf; [lia|]. cbn [release].
  pose proof (pin_live _ _ _ HI) as [(i & e & Ho)|(i & e & Ho)]%live_cases.
  - assert (Hk : kind o = Endpoint) by (unfold object in Ho; by destruct (kind o)). rewrite Hk, Ho.
    apply object_Some in Ho as [Hi ->]. pose proof (ek_references _ _ (inv_eps _ _ HI i e Hi)) as Hr.
    unfold saturating_sub. destruct (Z.eqb_spec (Z.max (eo_references e - 1) 0) 0) as [Hz|Hz].
    + assert (H0 := inv_free_object _ _ _ _ HI Hi ltac:(lia)). pose proof (live_count_drop _ _ _ Hi) as Hc.
      set (w0 := release_lineage _ _ _). assert (Hs : state w0 = set_objects (<[i := None]> (objects (state w))) (state w)).
      { unfold w0. by rewrite state_release_lineage. }
      rewrite <-Hs in H0, Hc. assert (Hb : (live_count (state w0) < fuel)%nat) by lia.
      assert (Hle : (live_count (state w0) ≤ live_count (state w))%nat) by lia. clearbody w0. clear Hs Hc.
      revert w0 H0 Hb Hle. induction (escrowed (eo_messages e)) as [|o' l IHl]; intros w0 H0 Hb Hle; [done|].
      cbn [foldl]. destruct (IH o' (l ++ pins) w0 H0 Hb). apply IHl; [done|lia..].
    + rewrite Z.max_l by lia. split; [by apply inv_unpin_object; [..|lia]|]. exact (Nat.eq_le_incl _ _ (live_count_touch _ _ _ _ Hi)).
  - assert (Hk : kind o = SharedMemory) by (unfold shared_object in Ho; by destruct (kind o)). rewrite Hk, Ho.
    apply shared_Some in Ho as [Hi ->]. pose proof (mk_references _ _ (inv_shms _ _ HI i e Hi)) as Hr.
    unfold saturating_sub. destruct (Z.eqb_spec (Z.max (so_references e - 1) 0) 0) as [Hz|Hz].
    + cbn. rewrite state_release_lineage. split; [|done]. by apply (inv_free_shared _ _ _ _ HI Hi ltac:(lia)).
    + rewrite Z.max_l by lia. split; [by apply inv_unpin_shared; [..|lia]|done].
Qed.

(** Dropping a reference that is held keeps the accounting; the recursion depth of
    [release_object_reference] always suffices. *)
Lemma inv_release o pins w :
  Inv (o :: pins) (state w) → Inv pins (state (release_object_reference o w)).
Proof.
  intros HI. apply release_inv; [done|]. pose proof (live_count_bound _ _ HI). lia.
Qed.

Lemma inv_release_all pins l w :
  Inv (l ++ pins) (state w) → Inv pins (state (foldl (λ w o, release_object_reference o w) w l)).
Proof. revert w. induction l as [|o l IH]; intros w HI; [done|]. cbn [foldl]. apply IH, inv_release, HI. Qed.

End IpcInv.
