(* ===== verification/IpcOps.v ===== *)
(** * The IPC operations keep the reference accounting

    Triples over the [Result]-returning operations of [Ipc]: a precondition, a
    postcondition for [Ok] and one for [Err]. A reference that a call holds between two
    table updates is a pin, so retaining adds a pin, and installing a handle, queueing
    an escrow, publishing a service or recording a mapping consumes one. *)
From stdpp Require Import relations.
From S2P Require Import Prelude Capability WovenGuard SecurityLedger Lineage LineageService Ipc IpcInv.

Module IpcOps.
Import Ipc IpcInv.

Definition triple {A} (P : World → Prop) (m : M A) (Q : A → World → Prop) (E : World → Prop) : Prop :=
  ∀ w, P w → match m w with (w', Ok a) => Q a w' | (w', Err _) => E w' end.

Section rules.
Context {A B : Type}.
Implicit Types (P E : World → Prop).

Lemma triple_bind P (m : M A) R (k : A → M B) Q E :
  triple P m R E → (∀ a, triple (R a) (k a) Q E) → triple P (bindM m k) Q E.
Proof.
  intros Hm Hk w HP. unfold bindM. specialize (Hm w HP). destruct (m w) as [w' [a|e]]; [|done].
  by apply Hk.
Qed.

Lemma triple_conseq P P' (m : M A) Q Q' E E' :
  triple P m Q E → (∀ w, P' w → P w) → (∀ a w, Q a w → Q' a w) → (∀ w, E w → E' w) → triple P' m Q' E'.
Proof. intros Hm HP HQ HE w Hw. specialize (Hm w (HP w Hw)). destruct (m w) as [w' []]; auto. Qed.

Lemma triple_or_else P (m : M A) Q E E' rb :
  triple P m Q E → (∀ w, E w → E' (rb w)) → triple P (or_else m rb) Q E'.
Proof. intros Hm Hr w HP. unfold or_else. specialize (Hm w HP). destruct (m w) as [w' []]; auto. Qed.
End rules.

(** Reads and guards at the head of a sequence. *)
Lemma triple_ask {A B} (P : World → Prop) (f : World → result A Error) (k : A → M B) Q E :
  (∀ w, P w → E w) → (∀ a, triple (λ w, P w ∧ f w = Ok a) (k a) Q E) → triple P (bindM (ask f) k) Q E.
Proof.
  intros HE Hk. eapply triple_bind; [|exact Hk]. intros w HP. unfold ask. destruct (f w) eqn:Hf; auto.
Qed.

Lemma triple_guard {B} (P : World → Prop) b e (k : () → M B) Q E :
  (∀ w, P w → E w) → (b = false → triple P (k ()) Q E) → triple P (bindM (guard b e) k) Q E.
Proof. intros HE Hk w HP. unfold bindM, guard. destruct b; [by apply HE|]. by apply Hk. Qed.

Lemma triple_act {B} (P R : World → Prop) f (k : () → M B) Q E :
  (∀ w, P w → R (f w)) → triple R (k ()) Q E → triple P (bindM (act f) k) Q E.
Proof. intros Hf Hk w HP. by apply Hk, Hf. Qed.

Lemma triple_ret {A} (P : World → Prop) (a : A) (Q : A → World → Prop) E : (∀ w, P w → Q a w) → triple P (ret a) Q E.
Proof. intros H w HP. by apply H. Qed.

Lemma triple_last {A} (P : World → Prop) (f : World → result A Error) (Q : A → World → Prop) E :
  (∀ w, P w → E w) → (∀ a w, P w → f w = Ok a → Q a w) → triple P (ask f) Q E.
Proof. intros HE HQ w HP. unfold ask. destruct (f w) eqn:Hf; auto. Qed.

Lemma triple_do (P R : World → Prop) f (Q : () → World → Prop) E : (∀ w, P w → Q () (f w)) → triple P (act f) Q E.
Proof. intros H w HP. by apply H. Qed.

Lemma ok_or_Ok {A E} (o : option A) (e : E) a : ok_or o e = Ok a → o = Some a.
Proof. destruct o; simpl; congruence. Qed.

(** Drop what was learnt since the first conjunct. *)
Ltac weaken :=
  intros;
  repeat match goal with H : _ ∧ _ |- _ => let H' := fresh in destruct H as [H' _]; rename H' into H end;
  try done.

(** Walk over the reads and guards that open an operation. *)
Ltac walk :=
  repeat first
    [ apply triple_ask; [by weaken|intros ?]
    | apply triple_guard; [by weaken|intros ?] ].

(** [Inv] of the tables in a world. *)
Definition inv (pins : list ObjectRef) (w : World) : Prop := Inv pins (state w).

(** ** Handles *)
Lemma lookup_raw_Ok sp h e :
  lookup_raw sp h = Ok e → ∃ k, handle_slot h = Some k ∧ entries sp !! k = Some (Some e) ∧ he_generation e = handle_generation h.
Proof.
  unfold lookup_raw. destruct (handle_slot h) as [k|]; [|done]. cbn [ok_or rbind].
  destruct (entries sp !! k) as [[e'|]|] eqn:Hk; simpl; try done. case_match eqn:E; [|done]. intros [= <-].
  exists k. split_and!; [done..|]. by apply Z.eqb_eq.
Qed.

Lemma lookup_Ok r sp h e : lookup r sp h = Ok e → lookup_raw sp h = Ok e ∧ unauthorized r (he_lineage e) = false.
Proof.
  unfold lookup. destruct (lookup_raw sp h) as [e'|] eqn:E; [|done]. cbn [rbind].
  destruct (unauthorized r (he_lineage e')) eqn:Hu; [done|]. by intros [= <-].
Qed.

Lemma lookup_handle_Ok o h w e :
  lookup_handle o h w = Ok e →
  ∃ i sp k, handle_space o (state w) = Some (i, sp) ∧ handle_spaces (state w) !! i = Some (Some sp)
    ∧ handle_slot h = Some k ∧ entries sp !! k = Some (Some e).
Proof.
  unfold lookup_handle. destruct (handle_space o (state w)) as [[i sp]|] eqn:E; [|done]. cbn.
  intros [(k & ? & ? & _)%lookup_raw_Ok _]%lookup_Ok. exists i, sp, k.
  by apply space_Some in E as [? _].
Qed.

Lemma lookup_handle_live pins o h w e : inv pins w → lookup_handle o h w = Ok e → live (he_object e) (state w).
Proof. intros HI (i & sp & k & _ & Hi & _ & Hk)%lookup_handle_Ok. by eapply handle_live. Qed.

Lemma allocate_Ok sp o r l c sp' h :
  allocate_tagged sp o r l c = Ok (sp', h) →
  ∃ k g, entries sp !! k = Some None
    ∧ sp' = mkSpace (hs_owner sp) (<[k := Some (mkEntry o r g l c)]> (entries sp)) (<[k := g]> (generations sp))
    ∧ h = from_parts k g ∧ 0 < g < 2 ^ 24.
Proof.
  unfold allocate_tagged. destruct (free_slot (entries sp)) as [k|] eqn:E; [|done]. cbn [ok_or rbind].
  set (b := Z.land _ _). set (g := if b =? 0 then 1 else b). intros [= <- <-].
  exists k, g. split_and!; [by apply free_slot_Some|done..| |].
  all: assert (0 ≤ b < 2 ^ 24) by (unfold b; change 0xffffff with (2 ^ 24 - 1); rewrite land_low by lia; by apply Z.mod_pos_bound).
  all: unfold g; destruct (Z.eqb_spec b 0); lia.
Qed.

(** A refused installation changes nothing; an accepted one fills one slot. *)
Lemma install_spec o obj r l c w :
  match install o obj r l c w with
  | (w', Ok h) => ∃ i sp k g,
      handle_space o (state w) = Some (i, sp) ∧ entries sp !! k = Some None ∧ 0 < g < 2 ^ 24
      ∧ h = from_parts k g
      ∧ w' = put_space i (Some (mkSpace (hs_owner sp) (<[k := Some (mkEntry obj r g l c)]> (entries sp))
                                  (<[k := g]> (generations sp)))) w
  | (w', Err _) => w' = w
  end.
Proof.
  unfold install, bindM, ask, act, ret.
  destruct (handle_space o (state w)) as [[i sp]|] eqn:Hsp; cbn [ok_or]; [|done]. cbn [fst snd].
  destruct (allocate_tagged sp obj r l c) as [[sp' h]|] eqn:Ha; [|done].
  apply allocate_Ok in Ha as (k & g & Hk & -> & -> & Hg). cbn [fst snd]. eauto 10.
Qed.

(** Filling a free handle slot consumes a pin. *)
Lemma inv_fill_slot pins s i sp k e g :
  Inv (he_object e :: pins) s → handle_spaces s !! i = Some (Some sp) → entries sp !! k = Some None →
  Inv pins (set_spaces (<[i := Some (mkSpace (hs_owner sp) (<[k := Some e]> (entries sp))
                                       (<[k := g]> (generations sp)))]> (handle_spaces s)) s).
Proof.
  intros HI Hi Hk. destruct (inv_spaces _ _ HI i sp Hi). eapply inv_put_space; [done..| |].
  - intros ? [= <-]. split; [split; cbn; by rewrite length_insert|]. cbn. eapply unique_fresh; [apply HI|done].
  - intros o'. rewrite pinned_cons. cbn. unfold space_holds. cbn. rewrite (tally_insert _ _ _ _ _ Hk). cbn. lia.
Qed.

Lemma install_inv o obj r l c pins :
  triple (inv (obj :: pins)) (install o obj r l c) (λ _, inv pins) (inv (obj :: pins)).
Proof.
  intros w HI. pose proof (install_spec o obj r l c w) as Hs.
  destruct (install o obj r l c w) as [w' [h|e]]; [|by subst].
  destruct Hs as (i & sp & k & g & Hsp & Hk & _ & _ & ->). apply space_Some in Hsp as [Hi _].
  exact (inv_fill_slot pins (state w) i sp k (mkEntry obj r g l c) g HI Hi Hk).
Qed.

Lemma install_inv_with o obj r l c pins (R : World → Prop) :
  triple (λ w, inv (obj :: pins) w ∧ R w) (install o obj r l c) (λ _, inv pins)
    (λ w, inv (obj :: pins) w ∧ R w).
Proof.
  intros w [HI Hw]. pose proof (install_inv o obj r l c pins w HI) as H. pose proof (install_spec o obj r l c w) as Hs.
  destruct (install o obj r l c w) as [w' []]; [done|by subst].
Qed.

(** ** Retaining a reference *)

(** The messages waiting at an endpoint. *)
Definition queue (o : ObjectRef) (s : State) : list QueuedMessage :=
  match object o s with Some (_, e) => eo_messages e | None => [] end.

(** Replacing an occupant by one with the same key does not change what a scan finds. *)
Lemma find_slot_replace {A} (p : A → bool) l i x y :
  l !! i = Some (Some x) → p y = p x →
  find_slot p (<[i := Some y]> l) =
    match find_slot p l with Some (j, z) => Some (j, if bool_decide (j = i) then y else z) | None => None end.
Proof.
  intros Hi Hp. assert (Hlt : (i < length l)%nat) by eauto using lookup_lt_Some. unfold find_slot.
  set (f := λ o : option A, match o with Some x => p x | None => false end).
  assert (Heq : position f (<[i := Some y]> l) = position f l).
  { destruct (position f l) as [j|] eqn:E.
    - apply position_Some in E as (o & Hj & Hf & Hb). apply position_Some. destruct (decide (j = i)) as [->|Hne].
      + exists (Some y). simplify_eq. rewrite list_lookup_insert_eq by done. split_and!; [done|by cbn; rewrite Hp|].
        intros k z Hk Hlt'. rewrite list_lookup_insert_ne in Hk by lia. eauto.
      + exists o. rewrite list_lookup_insert_ne by done. split_and!; [done..|]. intros k z Hk Hlt'.
        apply list_lookup_insert_Some in Hk as [(<- & <- & _)|[_ Hk]]; [cbn; rewrite Hp; by apply (Hb i (Some x))|eauto].
    - apply position_None. intros k z [(<- & <- & _)|[_ Hk]]%list_lookup_insert_Some.
      + cbn. rewrite Hp. by apply (proj1 (position_None _ _) E i (Some x)).
      + by apply (proj1 (position_None _ _) E k). }
  rewrite Heq. destruct (position f l) as [j|] eqn:E; [|done]. cbn. destruct (decide (j = i)) as [->|Hj].
  - rewrite list_lookup_insert_eq, Hi by done. cbn. by rewrite bool_decide_true.
  - rewrite list_lookup_insert_ne by done. destruct (l !! j) as [[z|]|]; cbn; [|done..]. by rewrite bool_decide_false.
Qed.

Lemma object_replace s i e e' o :
  objects s !! i = Some (Some e) → eo_id e' = eo_id e →
  object o (set_objects (<[i := Some e']> (objects s)) s) =
    match object o s with Some (j, z) => Some (j, if bool_decide (j = i) then e' else z) | None => None end.
Proof. intros Hi Hid. unfold object. destruct (kind o); [|done]. apply (find_slot_replace _ _ _ e); [done|]. by rewrite Hid. Qed.

(** What retaining, or recording a delegation root, leaves alone. *)
Record touch (w w' : World) : Prop := {
  to_spaces : handle_spaces (state w') = handle_spaces (state w);
  to_services : services (state w') = services (state w);
  to_next : next_object_id (state w') = next_object_id (state w);
  to_edges : ∀ a b, edge (state w') a b → edge (state w) a b;
  to_queues : ∀ o, queue o (state w') = queue o (state w)
}.

Lemma touch_object w i e e' :
  objects (state w) !! i = Some (Some e) → eo_id e' = eo_id e → eo_messages e' = eo_messages e →
  touch w (put_object i (Some e') w).
Proof.
  intros Hi Hid Hm. split; try done.
  - intros a b (j & x & Hj & -> & Hb). cbn in Hj.
    apply list_lookup_insert_Some in Hj as [(<- & [= <-] & _)|[_ Hj]]; [|by exists j, x].
    exists i, e. split_and!; [done|unfold ep_ref; by rewrite Hid|by rewrite <-Hm].
  - intros o. unfold queue. cbn. rewrite (object_replace _ _ _ _ _ Hi Hid).
    destruct (object o (state w)) as [[j z]|] eqn:Ho; [|done]. case_bool_decide; [|done]. subst j.
    apply object_Some in Ho as [Hz _]. rewrite Hm. congruence.
Qed.

Lemma retain_spec o pins w :
  inv pins w →
  match retain_object_reference o w with
  | (w', Ok _) => inv (o :: pins) w' ∧ touch w w' ∧ sys w' = sys w
  | (w', Err _) => w' = w
  end.
Proof.
  intros HI. unfold retain_object_reference, bindM, ask, act. destruct (kind o).
  - destruct (object o (state w)) as [[i e]|] eqn:Ho; cbn [ok_or]; [|done]. cbn [fst snd].
    unfold guard. destruct (Z.eqb_spec (eo_references e) u16_max); [done|]. unfold ret. apply object_Some in Ho as [Hi ->].
    pose proof (ek_references _ _ (inv_eps _ _ HI i e Hi)). split_and!; [|by eapply touch_object|done].
    eapply inv_touch_object; try done; [cbn; lia|]. intros o'. rewrite pinned_cons, is_ref_if. cbn. case_bool_decide; lia.
  - destruct (shared_object o (state w)) as [[i e]|] eqn:Ho; cbn [ok_or]; [|done]. cbn [fst snd].
    unfold guard. destruct (Z.eqb_spec (so_references e) u16_max); [done|]. unfold ret. apply shared_Some in Ho as [Hi ->].
    pose proof (mk_references _ _ (inv_shms _ _ HI i e Hi)). split_and!; [|by split|done].
    eapply inv_touch_shared; try done; [cbn; lia|]. intros o'. rewrite pinned_cons, is_ref_if. cbn. case_bool_decide; lia.
Qed.

Lemma retain_inv o pins (R : World → Prop) :
  (∀ w w', R w → touch w w' → sys w' = sys w → R w') →
  triple (λ w, inv pins w ∧ R w) (retain_object_reference o) (λ _ w, inv (o :: pins) w ∧ R w) (inv pins).
Proof.
  intros HR w [HI Hw]. pose proof (retain_spec o pins w HI) as Hs.
  destruct (retain_object_reference o w) as [w' []]; [|by subst]. destruct Hs as (? & ? & ?). eauto.
Qed.

(** ** Delegation roots *)
Lemma root_for_keeps (J : World → Prop) o cur store w :
  (∀ l w, J w → J (store l w)) → (∀ w s, J w → J (mkWorld (state w) s (released_frames w))) →
  J w → J (root_for o cur store w).1.
Proof.
  intros Hstore Hsys Hw. unfold root_for, lineage_call.
  assert (Hissue : ∀ w, J w →
    J (let '(w, r) := let '(a, s) := Service.issue_lineage_root o (Cap.only Cap.Ipc) (sys w) in
                      (mkWorld (state w) s (released_frames w), a) in
       match r with Ok l => (store (Some l) w, Ok l) | Err _ => (w, Err AccessDenied) end).1).
  { intros w' Hw'. destruct (Service.issue_lineage_root _ _ _) as [[l|e] s]; cbn; auto. }
  destruct cur as [l|]; [|by apply Hissue]. case_match; [done|]. by apply Hissue, Hstore.
Qed.

Lemma touch_refl w : touch w w.
Proof. by split. Qed.

Lemma touch_sys w sy : touch w (mkWorld (state w) sy (released_frames w)).
Proof. by split. Qed.

Lemma touch_trans w1 w2 w3 : touch w1 w2 → touch w2 w3 → touch w1 w3.
Proof. intros [? ? ? ? H1] [? ? ? ? H2]. split; [congruence..|auto|]. intros o. by rewrite H2, H1. Qed.

(** [m] ends in [K] whatever it returns. *)
Definition ends {A} (P : World → Prop) (m : M A) (K : World → Prop) : Prop := triple P m (λ _, K) K.

Lemma ends_fst {A} (P : World → Prop) (m : M A) K : (∀ w, P w → K (m w).1) → ends P m K.
Proof. intros H w HP. specialize (H w HP). by destruct (m w) as [w' []]. Qed.

Lemma delegation_spec o entry pins w :
  inv pins w → ends (λ w', w' = w) (delegation_lineage_for o entry) (λ w', inv pins w' ∧ touch w w').
Proof.
  intros HI. assert (Hw : inv pins w ∧ touch w w) by (split; [done|apply touch_refl]).
  unfold delegation_lineage_for. destruct (he_lineage entry) as [l|]; [by apply triple_last; intros; subst|].
  destruct (kind (he_object entry)); (apply triple_ask; [by intros ? ->|]); intros [i e];
    (apply triple_guard; [by intros ? [-> _]|]); intros _; apply ends_fst; intros w0 [-> Ho%ok_or_Ok]; cbn [fst snd].
  - apply object_Some in Ho as [Hi _].
    apply (root_for_keeps (λ w', (inv pins w' ∧ touch w w') ∧ ∃ l, objects (state w') !! i = Some (Some (set_eo_lineage l e)))).
    + intros l w' ([HI' Ht] & l0 & Hl0). pose proof (ek_references _ _ (inv_eps _ _ HI' i _ Hl0)).
      split_and!; [by eapply inv_touch_object| |exists l; cbn; apply list_lookup_insert_eq; eauto using lookup_lt_Some].
      eapply touch_trans; [done|]. by eapply touch_object.
    + intros w' s ([? Ht] & ?). split_and!; [done| |done]. exact (touch_trans _ _ _ Ht (touch_sys w' s)).
    + split; [done|]. exists (eo_lineage e). by destruct e.
  - apply shared_Some in Ho as [Hi _].
    apply (root_for_keeps (λ w', (inv pins w' ∧ touch w w') ∧ ∃ l, shared_memory (state w') !! i = Some (Some (set_so_lineage l e)))).
    + intros l w' ([HI' Ht] & l0 & Hl0). pose proof (mk_references _ _ (inv_shms _ _ HI' i _ Hl0)).
      split_and!; [by eapply inv_touch_shared| |exists l; cbn; apply list_lookup_insert_eq; eauto using lookup_lt_Some].
      eapply touch_trans; [done|by split].
    + intros w' s ([? Ht] & ?). split_and!; [done| |done]. exact (touch_trans _ _ _ Ht (touch_sys w' s)).
    + split; [done|]. exists (so_lineage e). by destruct e.
Qed.

Lemma delegation_inv o entry pins : ends (inv pins) (delegation_lineage_for o entry) (inv pins).
Proof.
  intros w HI. pose proof (delegation_spec o entry pins w HI w eq_refl) as Hs.
  by destruct (delegation_lineage_for o entry w) as [w' []]; destruct Hs.
Qed.

(** Install a handle for a retained reference, or give the reference back. *)
Lemma retain_install_inv o obj r l c pins :
  triple (inv pins)
    (bindM (retain_object_reference obj) (λ _, or_else (install o obj r l c) (release_object_reference obj)))
    (λ _, inv pins) (inv pins).
Proof.
  eapply triple_bind.
  - eapply triple_conseq; [apply (retain_inv obj pins (λ _, True)); done|..]; [done|by intros a w [H _]; exact H|done].
  - intros []. eapply triple_or_else; [apply install_inv|]. intros w HI. by apply inv_release.
Qed.

Lemma grant_inv o h target rights pins : ends (inv pins) (grant_handle o h target rights) (inv pins).
Proof.
  unfold grant_handle, ends. walk. eapply triple_bind; [|intros l; apply retain_install_inv].
  eapply triple_conseq; [apply delegation_inv|by weaken|done..].
Qed.

(** ** Creating objects *)
Definition ids_left (w : World) : Prop := next_object_id (state w) < u64_max.

Lemma next_id_succ n : 0 < n < u64_max → next_id n = n + 1.
Proof. intros Hn. unfold next_id, wrapping_add64, wrap64. rewrite Z.mod_small by lia. lia. Qed.

(** A fresh object is referenced by the call that creates it. *)
Lemma inv_new_object pins s i o n :
  Inv pins s → objects s !! i = Some None → 0 < n < next_object_id s →
  slots (λ e, eo_id e < n) (objects s) →
  Inv (mkRef n Endpoint :: pins) (set_objects (<[i := Some (new_endpoint n o)]> (objects s)) s).
Proof.
  intros HI Hi Hn Hold. eapply inv_put_object; [done..| | |].
  - intros ? [= <-]. split; [split; cbn; unfold u16_max; lia|]. intros j y _ Hy. cbn. specialize (Hold j y Hy). cbv beta in Hold. lia.
  - intros o'. rewrite pinned_cons, is_ref_if. cbn. unfold ep_balance, ep_ref. cbn. case_bool_decide; lia.
  - apply (acyclic_mono (edge s)); [|apply HI]. intros a b (j & e & Hj & -> & Hb). cbn in Hj.
    apply list_lookup_insert_Some in Hj as [(<- & [= <-] & _)|[_ Hj]]; [cbn in Hb; by apply not_elem_of_nil in Hb|by exists j, e].
Qed.

Lemma inv_new_shared pins s i o n fr pages :
  Inv pins s → shared_memory s !! i = Some None → 0 < n < next_object_id s →
  slots (λ e, so_id e < n) (shared_memory s) → (1 ≤ pages ≤ MAX_SHM_PAGES)%nat →
  Inv (mkRef n SharedMemory :: pins) (set_shared
    (<[i := Some (mkShared n o 1 pages fr (replicate MAX_SHM_MAPPINGS None) None)]> (shared_memory s)) s).
Proof.
  intros HI Hi Hn Hold Hp. eapply inv_put_shared; [done..| |].
  - intros ? [= <-]. split; [split; cbn; unfold u16_max; (lia || done)|]. intros j y _ Hy. cbn.
    specialize (Hold j y Hy). cbv beta in Hold. lia.
  - intros o'. rewrite pinned_cons, is_ref_if. cbn [from_option]. unfold shm_balance, shm_ref. cbn [so_id so_references mappings].
    rewrite tally_replicate. case_bool_decide; lia.
Qed.

Lemma create_endpoint_inv o pins :
  triple (λ w, inv pins w ∧ ids_left w) (create_endpoint_object o) (λ _, inv pins) (inv pins).
Proof.
  unfold create_endpoint_object. apply triple_ask; [by weaken|]. intros s.
  apply triple_ask; [by weaken|]. intros sp. apply triple_ask; [by weaken|]. intros i.
  set (n := next_object_id s).
  apply (triple_act _ (λ w, inv pins w ∧ objects (state w) !! i = Some None ∧ 0 < n < next_object_id (state w)
    ∧ slots (λ e, eo_id e < n) (objects (state w)))).
  { intros w ((([HI Hl] & [= <-]) & _) & Hf%ok_or_Ok%free_slot_Some). cbn. pose proof (inv_next _ _ HI).
    rewrite next_id_succ by done. unfold n. split_and!; [apply inv_set_next; [done|lia]|done|lia..|].
    intros j e He. apply (ek_id _ _ (inv_eps _ _ HI j e He)). }
  apply (triple_act _ (λ w, inv (mkRef n Endpoint :: pins) w ∧ objects (state w) !! i = Some (Some (new_endpoint n o)))).
  { intros w (HI & Hi & Hn & Hold). split; [by apply inv_new_object|]. cbn.
    apply list_lookup_insert_eq. eauto using lookup_lt_Some. }
  eapply triple_or_else; [apply install_inv_with|]. intros w [HI Hi]. by apply (inv_free_object pins (state w) i (new_endpoint n o)).
Qed.

Lemma install_shared_inv o fr pages pins :
  triple (λ w, inv pins w ∧ ids_left w) (install_shared_memory o fr pages) (λ _, inv pins) (inv pins).
Proof.
  unfold install_shared_memory. apply triple_guard; [by weaken|]. intros Hp. apply triple_ask; [by weaken|]. intros s.
  apply triple_ask; [by weaken|]. intros sp. apply triple_ask; [by weaken|]. intros i.
  set (n := next_object_id s).
  apply (triple_act _ (λ w, inv pins w ∧ shared_memory (state w) !! i = Some None ∧ 0 < n < next_object_id (state w)
    ∧ slots (λ e, so_id e < n) (shared_memory (state w)))).
  { intros w ((([HI Hl] & [= <-]) & _) & Hf%ok_or_Ok%free_slot_Some). cbn. pose proof (inv_next _ _ HI).
    rewrite next_id_succ by done. unfold n. split_and!; [apply inv_set_next; [done|lia]|done|lia..|].
    intros j e He. apply (mk_id _ _ (inv_shms _ _ HI j e He)). }
  set (so := mkShared n o 1 pages fr (replicate MAX_SHM_MAPPINGS None) None).
  apply (triple_act _ (λ w, inv (mkRef n SharedMemory :: pins) w ∧ shared_memory (state w) !! i = Some (Some so))).
  { intros w (HI & Hi & Hn & Hold). apply orb_false_iff in Hp as [Hp1%Nat.eqb_neq Hp2%Nat.ltb_ge].
    split; [apply inv_new_shared; (done || lia)|]. cbn. apply list_lookup_insert_eq. eauto using lookup_lt_Some. }
  eapply triple_or_else; [apply install_inv_with|]. intros w [HI Hi]. by apply (inv_free_shared pins (state w) i so).
Qed.

(** ** Processes enter and leave *)
Lemma handle_space_None o s j sp : handle_space o s = None → handle_spaces s !! j = Some (Some sp) → hs_owner sp ≠ o.
Proof. intros Hn Hj. by apply Z.eqb_neq, (find_slot_None _ _ Hn j). Qed.

Lemma register_inv o pins : ends (inv pins) (register o) (inv pins).
Proof.
  unfold register, ends. apply triple_ask; [by weaken|]. intros s. apply triple_guard; [by weaken|]. intros Hfree.
  apply triple_ask; [by weaken|]. intros i. apply triple_ask; [by weaken|]. intros j.
  apply (triple_act _ (λ w, inv pins w ∧ handle_space o (state w) = None ∧ handle_spaces (state w) !! j = Some None)).
  { intros w (((HI & [= <-]) & _) & Hj%ok_or_Ok%free_slot_Some). split_and!; [apply inv_set_legacy, HI| |done].
    apply orb_false_iff in Hfree as [_ Hfree%bool_decide_eq_false]. by apply eq_None_not_Some. }
  intros w (HI & Hn & Hj). eapply inv_put_space; [done..| |].
  - intros ? [= <-]. split; [by split|]. intros k sp _ Hk. by eapply handle_space_None.
  - intros o'. cbn [from_option]. unfold space_holds, space_empty. cbn [entries]. by rewrite tally_replicate.
Qed.

Lemma release_ref_frame o w : frame (state w) (state (release_object_reference o w)).
Proof. apply release_frame. Qed.

Lemma drop_service_inv o i pins w : inv pins w → inv pins (drop_service o w i) ∧ handle_spaces (state (drop_service o w i)) = handle_spaces (state w).
Proof.
  intros HI. unfold drop_service. destruct (services (state w) !! i) as [[sv|]|] eqn:Hi; simpl; [|done..].
  case_match; [|done]. split.
  - apply inv_release. eapply inv_put_service; [done..|]. intros o'. rewrite pinned_cons. cbn. unfold service_holds. lia.
  - by rewrite (fr_spaces _ _ (release_ref_frame _ _)).
Qed.

Lemma drop_services_inv o l pins w :
  inv pins w → inv pins (foldl (drop_service o) w l)
    ∧ handle_spaces (state (foldl (drop_service o) w l)) = handle_spaces (state w).
Proof.
  revert w. induction l as [|i l IH]; intros w HI; [done|]. cbn [foldl].
  destruct (drop_service_inv o i pins w HI) as [HI' Hs]. rewrite <-Hs. by apply IH.
Qed.

Lemma lookup_fmap_slot {A} (g : A → A) (l : list (option A)) i y :
  ((λ x : option A, g <$> x) <$> l) !! i = Some (Some y) → ∃ x, l !! i = Some (Some x) ∧ y = g x.
Proof. rewrite list_lookup_fmap. destruct (l !! i) as [[x|]|]; simpl; intros; simplify_eq. eauto. Qed.

Lemma drop_waiters_inv o pins w : inv pins w → inv pins (drop_waiters o w).
Proof.
  intros []. unfold drop_waiters. split; cbn; try done.
  - intros i e (x & Hx & ->)%lookup_fmap_slot. by destruct (inv_eps0 i x Hx).
  - intros i j x y (x' & Hx & ->)%lookup_fmap_slot (y' & Hy & ->)%lookup_fmap_slot. by apply (inv_ep_ids0 i j x' y').
  - by rewrite length_fmap.
  - intros o'. specialize (inv_balance0 o'). unfold balance in *. cbn. by rewrite (tally_fmap (ep_balance o') (without_waiters o)).
  - eapply acyclic_mono; [|exact inv_acyclic0]. intros a b (i & e & (x & Hx & ->)%lookup_fmap_slot & -> & Hb). by exists i, x.
Qed.

(** Taking a handle table away leaves its references to be released. *)
Lemma inv_take_space pins s i sp :
  Inv pins s → handle_spaces s !! i = Some (Some sp) →
  Inv ((he_object <$> flatten (entries sp)) ++ pins) (set_spaces (<[i := None]> (handle_spaces s)) s).
Proof.
  intros HI Hi. eapply inv_put_space; [done..|]. intros o'. rewrite pinned_app. cbn.
  unfold space_holds, pinned. rewrite tally_flatten, sum_by_fmap. lia.
Qed.

Lemma foldl_fmap {A B C} (f : C → B → C) (g : A → B) l c : foldl f c (g <$> l) = foldl (λ c x, f c (g x)) c l.
Proof. revert c. induction l as [|x l IH]; intros c; [done|]. cbn. apply IH. Qed.

Lemma unregister_inv o pins : ends (inv pins) (unregister o) (inv pins).
Proof.
  unfold unregister, ends. apply triple_ask; [by weaken|]. intros s. apply triple_guard; [by weaken|]. intros Hbusy.
  apply triple_ask; [by weaken|]. intros le. apply triple_ask; [by weaken|]. intros [j sp].
  apply (triple_act _ (λ w, inv pins w ∧ handle_spaces (state w) !! j = Some (Some sp))).
  { intros w (((HI & [= <-]) & _) & [Hj _]%ok_or_Ok%space_Some).
    destruct (drop_services_inv o (seq 0 MAX_SERVICES) pins w HI) as [? ->]. done. }
  apply (triple_act _ (inv ((he_object <$> flatten (entries sp)) ++ pins))).
  { intros w [HI Hj]. by apply inv_take_space. }
  apply (triple_act _ (inv ((he_object <$> flatten (entries sp)) ++ pins))).
  { intros w HI. by apply drop_waiters_inv. }
  apply (triple_act _ (inv pins)).
  { intros w HI. cbn [snd]. rewrite <-(foldl_fmap (λ w o, release_object_reference o w) he_object).
    by apply inv_release_all. }
  intros w HI. by apply inv_set_legacy.
Qed.

(** ** Shared memory *)
Lemma retain_then {A} obj (a : A) pins :
  triple (inv pins) (bindM (retain_object_reference obj) (λ _, ret a))
    (λ x w, x = a ∧ inv (obj :: pins) w) (inv pins).
Proof.
  eapply triple_bind.
  - eapply triple_conseq; [apply (retain_inv obj pins (λ _, True)); done|..]; [done|by intros ? w [H _]; exact H|done].
  - intros []. by apply triple_ret.
Qed.

(** A prepared transfer pins the object it returns. *)
Lemma prepare_io_inv o h write pins :
  triple (inv pins) (prepare_shared_io o h write) (λ r, inv (r.1.1 :: pins)) (inv pins).
Proof.
  unfold prepare_shared_io. walk. eapply triple_conseq; [apply retain_then|by weaken| |done].
  by intros r w [-> Hw].
Qed.

Lemma prepare_mapping_inv o h space start writable pins :
  triple (inv pins) (prepare_shared_mapping o h space start writable) (λ r, inv (r.1.1 :: pins)) (inv pins).
Proof.
  unfold prepare_shared_mapping. walk. eapply triple_conseq; [apply retain_then|by weaken| |done].
  by intros r w [-> Hw].
Qed.

(** Recording a mapping hands the pin over to it; a refusal leaves it with the caller. *)
Lemma store_mapping_inv obj m pins :
  triple (inv (obj :: pins)) (store_mapping obj m) (λ _, inv pins) (inv (obj :: pins)).
Proof.
  unfold store_mapping. walk. intros w ((HI & Hso%ok_or_Ok) & Hf%ok_or_Ok%free_slot_Some). cbn.
  destruct a as [i so]. apply shared_Some in Hso as [Hi ->]. cbn [fst snd] in *.
  pose proof (mk_references _ _ (inv_shms _ _ HI i so Hi)). eapply inv_touch_shared; try done; [cbn; by rewrite length_insert|].
  intros o'. rewrite pinned_cons, is_ref_if. cbn. rewrite (tally_insert _ _ _ _ _ Hf). cbn. case_bool_decide; lia.
Qed.

Lemma cancel_mapping_inv obj pins w : inv (obj :: pins) w → inv pins (cancel_shared_mapping obj w).
Proof. apply inv_release. Qed.

(** Detaching a mapping gives its reference to the caller. *)
Lemma take_mapping_inv o space start pins :
  triple (inv pins) (take_shared_mapping o space start) (λ r, inv (r.1.1 :: pins)) (inv pins).
Proof.
  unfold take_shared_mapping. walk. destruct a as [i so], a0 as [k m]. cbn [fst snd].
  eapply triple_act; [|apply triple_ret; by intros w Hw; exact Hw]. cbn [fst].
  intros w ((HI & (Hi & _)%ok_or_Ok%find_slot_Some) & (Hk & _)%ok_or_Ok%find_slot_Some).
  pose proof (mk_references _ _ (inv_shms _ _ HI i so Hi)). eapply inv_touch_shared; try done; [cbn; by rewrite length_insert|].
  intros o'. rewrite pinned_cons, is_ref_if. change (mkRef (so_id so) SharedMemory) with (shm_ref so).
  cbn. rewrite (tally_insert _ _ _ _ _ Hk). cbn. case_bool_decide; lia.
Qed.

(** ** The cycle check *)
Lemma push_edges_spec visited stack next stack' :
  push_edges visited stack next = Some stack' →
  stack ⊆ stack' ∧ (length stack' ≤ length stack + length next)%nat
  ∧ ∀ b, b ∈ next → kind b = Endpoint → b ∈ visited ∨ b ∈ stack'.
Proof.
  revert stack. induction next as [|o next IH]; intros stack; cbn [push_edges].
  { intros [= <-]. split_and!; [done|cbn; lia|]. intros b Hb. by apply not_elem_of_nil in Hb. }
  destruct (negb _ || _) eqn:Hskip.
  - intros (Hs & Hl & Hb)%IH. split_and!; [done|cbn; lia|]. intros b [->|Hin]%elem_of_cons Hk; [|by apply Hb].
    left. rewrite bool_decide_true in Hskip by done. by apply bool_decide_eq_true in Hskip.
  - case_match; [done|]. intros (Hs & Hl & Hb)%IH. split_and!; [set_solver|cbn in *; lia|].
    intros b [->|Hin]%elem_of_cons Hk; [right; apply Hs; left|by apply Hb].
Qed.

(** Edges into endpoints leave [l] only towards [l'], and [l] avoids [d]. *)
Definition explored (s : State) (d : ObjectRef) (l l' : list ObjectRef) : Prop :=
  ∀ a, a ∈ l → a ≠ d ∧ ∀ b, edge s a b → kind b = Endpoint → b ∈ l ∨ b ∈ l'.

Lemma search_closed pins s d fuel stack visited :
  Inv pins s → search fuel s d stack visited = Some false → explored s d visited stack →
  ∃ final, visited ⊆ final ∧ stack ⊆ final ∧ explored s d final [].
Proof.
  intros HI. revert stack visited. induction fuel as [|fuel IH]; intros stack visited; [done|].
  cbn [search]. destruct stack as [|c stack].
  { intros _ He. exists visited. split_and!; [done|set_solver|done]. }
  destruct (decide (c = d)) as [->|Hcd]; [by rewrite bool_decide_true|rewrite (bool_decide_false (c = d)) by done].
  destruct (decide (c ∈ visited)) as [Hin|Hnin].
  { rewrite bool_decide_true by done. intros Hs He. destruct (IH stack visited Hs) as (f & H1 & H2 & H3).
    - intros a Ha. destruct (He a Ha) as [Hne Hb]. split; [done|]. intros b Hab Hk. specialize (Hb b Hab Hk). set_solver.
    - exists f. split_and!; [done|set_solver|done]. }
  rewrite bool_decide_false by done. case_match; [done|].
  assert (Hgo : ∀ st, search fuel s d st (visited ++ [c]) = Some false → stack ⊆ st →
    (∀ b, edge s c b → kind b = Endpoint → b ∈ visited ++ [c] ∨ b ∈ st) → explored s d visited (c :: stack) →
    ∃ final, visited ⊆ final ∧ c :: stack ⊆ final ∧ explored s d final []).
  { intros st Hs Hsub Hc He. destruct (IH st _ Hs) as (f & H1 & H2 & H3); [|exists f; split_and!; [set_solver..|done]].
    intros a [Ha|Ha]%elem_of_app.
    - destruct (He a Ha) as [Hne Hb]. split; [done|]. intros b Hab Hk. specialize (Hb b Hab Hk). set_solver.
    - apply list_elem_of_singleton in Ha as ->. auto. }
  destruct (object c s) as [[i e]|] eqn:Ho.
  - destruct (push_edges _ _ _) as [st|] eqn:Hp; [|done]. apply push_edges_spec in Hp as (Hsub & _ & Hb).
    intros Hs. apply (Hgo st Hs Hsub). intros b (j & e' & Hj & Hc & Hb') Hk. apply Hb; [|done].
    pose proof (object_at _ _ _ _ HI Hj) as Ho'. rewrite <-Hc in Ho'. congruence.
  - intros Hs. apply (Hgo stack Hs); [done|]. intros b (j & e' & Hj & Hc & _) _.
    pose proof (object_at _ _ _ _ HI Hj) as Ho'. rewrite <-Hc in Ho'. congruence.
Qed.

(** A negative answer means the destination cannot be reached from the capability. *)
Lemma no_cycle pins s d t :
  Inv pins s → kind d = Endpoint → would_create_endpoint_transfer_cycle d t s = false → ¬ rtc (edge s) t d.
Proof.
  intros HI Hd. unfold would_create_endpoint_transfer_cycle. destruct (decide (kind t = Endpoint)) as [Ht|Ht].
  - rewrite bool_decide_true by done. cbn [negb]. case_bool_decide; [done|].
    destruct (search _ _ _ _ _) as [[]|] eqn:Hs; try done. intros _ Hp.
    apply (search_closed _ _ _ _ _ _ HI) in Hs as (f & _ & Hf & He); [|intros a Ha; by apply not_elem_of_nil in Ha].
    assert (Hin : t ∈ f) by (apply Hf; left).
    assert (Hclosed : ∀ x y, rtc (edge s) x y → y = d → x ∈ f → False); [|by apply (Hclosed t d)]. clear Hp Hin.
    intros x y Hx. induction Hx as [x|x y z Hxy Hyz IH]; intros -> Hin.
    + by destruct (He d Hin).
    + assert (Hk : kind y = Endpoint).
      { inversion Hyz as [|? y' ? (j & e & _ & -> & _)]; subst; done. }
      apply IH; [done|]. destruct (proj2 (He x Hin) y Hxy Hk) as [|Hn]; [done|by apply not_elem_of_nil in Hn].
  - intros _ Hp. inversion Hp as [|? y ? (j & e & _ & -> & _)]; subst; [by apply Ht|by apply Ht].
Qed.

Lemma omap_length_le {A B} (f : A → option B) l : (length (omap f l) ≤ length l)%nat.
Proof.
  induction l as [|x l IH]; [done|]. change (omap f (x :: l)) with (match f x with Some y => y :: omap f l | None => omap f l end).
  destruct (f x); cbn [length]; lia.
Qed.

(** The search always answers within its fuel. *)
Lemma search_total pins s d fuel stack visited :
  Inv pins s → (length visited ≤ MAX_OBJECTS)%nat →
  (length stack + QUEUE_DEPTH * (MAX_OBJECTS - length visited) < fuel)%nat → is_Some (search fuel s d stack visited).
Proof.
  intros HI. unfold QUEUE_DEPTH. revert stack visited. induction fuel as [|fuel IH]; intros stack visited Hv Hf; [lia|].
  cbn [search]. destruct stack as [|c stack]; [done|]. cbn [length] in Hf.
  case_bool_decide; [done|]. case_bool_decide; [apply IH; lia|]. case_match eqn:Hfull; [done|].
  apply Nat.eqb_neq in Hfull. assert (Hv' : (length (visited ++ [c]) ≤ MAX_OBJECTS)%nat) by (rewrite length_app; cbn; lia).
  destruct (object c s) as [[i e]|] eqn:Ho.
  - destruct (push_edges _ _ _) as [st|] eqn:Hp; [|done]. apply push_edges_spec in Hp as (_ & Hl & _).
    apply object_Some in Ho as [Hi _]. pose proof (ek_queue _ _ (inv_eps _ _ HI i e Hi)) as Hq.
    assert (He : (length (escrowed (eo_messages e)) ≤ 16)%nat).
    { unfold escrowed. rewrite length_fmap. etrans; [apply omap_length_le|]. exact Hq. }
    apply IH; [done|]. rewrite length_app in *. cbn [length] in *. lia.
  - apply IH; [done|]. rewrite length_app in *. cbn [length] in *. lia.
Qed.

Lemma cycle_check_total pins s d t : Inv pins s → is_Some (search SEARCH_FUEL s d [t] []).
Proof. intros HI. apply (search_total pins); [done|cbn; lia|]. unfold SEARCH_FUEL. cbn [length]. lia. Qed.

(** ** Sending and receiving *)
#[local] Arguments escrowed : simpl never.
Definition escrow_of (t : option TransferEscrow) : list ObjectRef := te_object <$> option_list t.

Lemma escrowed_snoc l m : escrowed (l ++ [m]) = escrowed l ++ escrow_of (transfer m).
Proof. unfold escrowed, escrow_of. rewrite omap_app, fmap_app. cbn. by destruct (transfer m). Qed.

Lemma escrowed_cons m l : escrowed (m :: l) = escrow_of (transfer m) ++ escrowed l.
Proof. unfold escrowed, escrow_of. cbn. by destruct (transfer m). Qed.

(** Queueing a message consumes the pin of its escrow, if the receiving endpoint is
    out of reach of the escrowed one. *)
Lemma inv_enqueue pins s i e m r q :
  Inv (escrow_of (transfer m) ++ pins) s → objects s !! i = Some (Some e) →
  (length (eo_messages e) < QUEUE_DEPTH)%nat →
  (∀ o, o ∈ escrow_of (transfer m) → ¬ rtc (edge s) o (ep_ref e)) →
  Inv pins (set_objects (<[i := Some (set_waiters r q (set_eo_messages (eo_messages e ++ [m]) e))]> (objects s)) s).
Proof.
  intros HI Hi Hlen Hpath. pose proof (inv_eps _ _ HI i e Hi) as []. eapply inv_put_object; [done..| | |].
  - intros ? [= <-]. split; [split; cbn; [done..|rewrite length_app; cbn [length]; lia]|]. cbn. eapply unique_fresh; [apply HI|done].
  - intros o. rewrite pinned_app. cbn. unfold ep_balance, ep_ref. cbn. rewrite escrowed_snoc, sum_by_app. unfold pinned. lia.
  - destruct (transfer m) as [t|] eqn:Ht.
    + apply (acyclic_add (edge s) _ (ep_ref e) (te_object t)); [apply HI| |apply Hpath; left].
      intros a b (j & e' & Hj & -> & Hb). cbn in Hj.
      apply list_lookup_insert_Some in Hj as [(<- & [= <-] & _)|[_ Hj]]; [|left; by exists j, e'].
      cbn in Hb. rewrite escrowed_snoc, Ht in Hb. apply elem_of_app in Hb as [Hb|Hb]; [left; by exists i, e|].
      right. apply list_elem_of_singleton in Hb as ->. done.
    + apply (edges_shrink _ _ HI i (Some e)); [done|]. intros ? [= <-]. exists e. split_and!; [done..|].
      cbn. rewrite escrowed_snoc, Ht. cbn. by rewrite app_nil_r.
Qed.

Lemma inv_dequeue pins s i e m rest r q :
  Inv pins s → objects s !! i = Some (Some e) → eo_messages e = m :: rest →
  Inv (escrow_of (transfer m) ++ pins)
    (set_objects (<[i := Some (set_waiters r q (set_eo_messages rest e))]> (objects s)) s).
Proof.
  intros HI Hi Hm. pose proof (inv_eps _ _ HI i e Hi) as []. rewrite Hm in *. cbn [length] in *. eapply inv_put_object; [done..| | |].
  - intros ? [= <-]. split; [split; cbn; [done..|lia]|]. cbn. eapply unique_fresh; [apply HI|done].
  - intros o. rewrite pinned_app. cbn. unfold ep_balance, ep_ref. cbn. rewrite Hm, escrowed_cons, sum_by_app. unfold pinned. lia.
  - apply (edges_shrink _ _ HI i (Some e)); [done|]. intros ? [= <-]. exists e. split_and!; [done..|].
    cbn. rewrite Hm, escrowed_cons. set_solver.
Qed.

(** What an accepted message does to its endpoint. *)
Definition delivered (e : EndpointObject) (m : QueuedMessage) : EndpointObject :=
  set_waiters (take_waiter (receive_waiters e)).1 (send_waiters e) (set_eo_messages (eo_messages e ++ [m]) e).

Lemma send_spec from h tr bytes w :
  match send_handle_with_optional_transfer from h tr bytes w with
  | (w', Ok wake) => ∃ entry i e,
      lookup_handle from h w = Ok entry ∧ has (he_rights entry) SEND = true
      ∧ object (he_object entry) (state w) = Some (i, e) ∧ length (eo_messages e) ≠ QUEUE_DEPTH
      ∧ (length bytes ≤ MAX_MESSAGE_SIZE)%nat ∧ wake = w_task <$> (take_waiter (receive_waiters e)).2
      ∧ w' = put_object i (Some (delivered e (mkQueued (mkMessage from bytes None) tr))) w
  | (w', Err _) => w' = w
  end.
Proof.
  unfold send_handle_with_optional_transfer, bindM, ask, guard, ret, throw, act.
  destruct (Nat.ltb_spec MAX_MESSAGE_SIZE (length bytes)); [done|].
  destruct (lookup_handle from h w) as [entry|] eqn:Hl; [|done].
  destruct (has (he_rights entry) SEND) eqn:Hr; cbn [negb]; [|done].
  destruct (object (he_object entry) (state w)) as [[i e]|] eqn:Ho; cbn [ok_or]; [|done].
  unfold enqueue. cbn [fst snd]. destruct (Nat.eqb_spec (length (eo_messages e)) QUEUE_DEPTH); [done|].
  exists entry, i, e. split_and!; try done.
Qed.

Lemma send_inv from h tr bytes pins :
  triple (λ w, inv (escrow_of tr ++ pins) w ∧ ∀ entry, lookup_handle from h w = Ok entry →
            ∀ o, o ∈ escrow_of tr → ¬ rtc (edge (state w)) o (he_object entry))
    (send_handle_with_optional_transfer from h tr bytes)
    (λ _, inv pins) (inv (escrow_of tr ++ pins)).
Proof.
  intros w [HI Hp]. pose proof (send_spec from h tr bytes w) as Hs.
  destruct (send_handle_with_optional_transfer from h tr bytes w) as [w' [wake|err]]; [|by subst].
  destruct Hs as (entry & i & e & Hl & _ & Ho & Hlen & _ & _ & ->). apply object_Some in Ho as [Hi Hr].
  pose proof (ek_queue _ _ (inv_eps _ _ HI i e Hi)).
  apply inv_enqueue; [done..|lia|]. intros o Hin. rewrite <-Hr. by apply (Hp entry).
Qed.

Lemma send_plain_inv from h bytes pins : ends (inv pins) (send_handle from h bytes) (inv pins).
Proof.
  eapply triple_conseq; [apply (send_inv from h None bytes pins)|..]; [|done..].
  intros w HI. split; [done|]. intros entry _ o Ho. by apply not_elem_of_nil in Ho.
Qed.

Lemma lookup_touch o h w w' : touch w w' → sys w' = sys w → lookup_handle o h w' = lookup_handle o h w.
Proof.
  intros [Hs _ _] Hsys. unfold lookup_handle, handle_space, registry. by rewrite Hs, Hsys.
Qed.

Lemma rtc_mono {A} (R R' : A → A → Prop) x y : (∀ a b, R a b → R' a b) → rtc R x y → rtc R' x y.
Proof. intros H. induction 1; [apply rtc_refl|eapply rtc_l; eauto]. Qed.

Lemma send_transfer_inv from eh th rights bytes pins :
  ends (inv pins) (send_handle_with_transfer from eh th rights bytes) (inv pins).
Proof.
  unfold send_handle_with_transfer, ends. apply triple_guard; [done|]. intros _. apply triple_ask; [by weaken|]. intros tr.
  apply triple_guard; [by weaken|]. intros _. eapply triple_bind.
  { eapply triple_conseq; [apply (delegation_inv from tr pins)|by weaken|intros a w H; exact H|done]. }
  intros l. apply triple_ask; [by weaken|]. intros ep. apply triple_guard; [by weaken|]. intros _.
  apply triple_guard; [by weaken|]. intros Hk. apply triple_ask; [by weaken|]. intros cyclic.
  apply triple_guard; [by weaken|]. intros ->. apply negb_false_iff, bool_decide_eq_true in Hk.
  set (path w := ∀ entry, lookup_handle from eh w = Ok entry → ¬ rtc (edge (state w)) (he_object tr) (he_object entry)).
  eapply triple_bind.
  { eapply triple_conseq; [apply (retain_inv (he_object tr) pins path)|..]; [|..|done].
    - intros w w' Hp Ht Hs entry Hl Hr. rewrite (lookup_touch _ _ _ _ Ht Hs) in Hl. apply (Hp entry Hl).
      eapply rtc_mono; [|done]. apply Ht.
    - intros w ((HI & Hl) & [= Hc]). split; [done|]. intros entry Hl'. rewrite Hl in Hl'. injection Hl' as <-.
      by eapply no_cycle.
    - intros a w Hw. exact Hw. }
  intros []. eapply triple_or_else.
  - eapply triple_conseq; [apply (send_inv _ _ _ _ pins)|..]; [|intros a w H; exact H|intros w H; exact H].
    intros w [HI Hp]. split; [done|]. intros entry Hl o Ho. apply list_elem_of_singleton in Ho as ->. by apply Hp.
  - intros w HI. by apply inv_release.
Qed.

(** What a received message leaves of its endpoint. *)
Definition drained (e : EndpointObject) (rest : list QueuedMessage) : EndpointObject :=
  set_waiters (receive_waiters e) (take_waiter (send_waiters e)).1 (set_eo_messages rest e).

(** Receiving takes the oldest message; the handle for its escrow goes into the
    receiver's table. A refusal changes nothing. *)
Lemma receive_spec to h w :
  match receive_handle to h w with
  | (w', Ok (msg, wake)) => ∃ entry i e m rest w0,
      lookup_handle to h w = Ok entry ∧ has (he_rights entry) RECEIVE = true
      ∧ object (he_object entry) (state w) = Some (i, e) ∧ eo_messages e = m :: rest
      ∧ sender msg = sender (message m) ∧ payload msg = payload (message m)
      ∧ wake = w_task <$> (take_waiter (send_waiters e)).2
      ∧ match transfer m with
        | None => w0 = w ∧ transferred_handle msg = None
        | Some t => ∃ h', install to (te_object t) (te_rights t) (te_lineage t) (te_class t) w = (w0, Ok h')
                          ∧ transferred_handle msg = Some h'
        end
      ∧ w' = put_object i (Some (drained e rest)) w0
  | (w', Err _) => w' = w
  end.
Proof.
  unfold receive_handle. unfold bindM at 1, ask at 1.
  destruct (lookup_handle to h w) as [entry|] eqn:Hl; [|done].
  unfold bindM at 1, guard. destruct (has (he_rights entry) RECEIVE) eqn:Hr; cbn [negb]; unfold ret at 1, throw; [|done].
  unfold bindM at 1, ask at 1. destruct (object (he_object entry) (state w)) as [[i e]|] eqn:Ho; cbn [ok_or rbind snd]; [|done].
  unfold head. destruct (eo_messages e) as [|m rest] eqn:Hm; [done|].
  set (w1 := match transfer m with Some t => install to (te_object t) (te_rights t) (te_lineage t) (te_class t) w | None => (w, Ok 0) end).
  assert (Hi : ∀ w0 x, w1 = (w0, Ok x) → object (he_object entry) (state w0) = Some (i, e)).
  { unfold w1. intros w0 x. destruct (transfer m) as [t|]; [|by intros [= <- _]].
    pose proof (install_spec to (te_object t) (te_rights t) (te_lineage t) (te_class t) w) as Hs. intros Hw1. rewrite Hw1 in Hs.
    destruct Hs as (? & ? & ? & ? & _ & _ & _ & _ & ->). exact Ho. }
  assert (Hdone : ∀ w0 x inst, w1 = (w0, Ok x) →
    bindM (ask (λ w, ok_or (object (he_object entry) (state w)) InvalidHandle)) (λ o,
      bindM (ask (λ _, dequeue o.2)) (λ d, bindM (act (put_object o.1 (Some (set_waiters (receive_waiters d.1)
        (take_waiter (send_waiters d.1)).1 d.1)))) (λ _, ret (mkMessage (sender (message d.2)) (payload (message d.2)) inst,
           w_task <$> (take_waiter (send_waiters d.1)).2)))) w0
    = (put_object i (Some (drained e rest)) w0, Ok (mkMessage (sender (message m)) (payload (message m)) inst,
         w_task <$> (take_waiter (send_waiters e)).2))).
  { intros w0 x inst Hw. unfold bindM, ask, act, ret. rewrite (Hi w0 x Hw). cbn [ok_or snd fst].
    unfold dequeue, head. rewrite Hm. cbn [rbind]. done. }
  unfold bindM at 1. destruct (transfer m) as [t|] eqn:Ht.
  - unfold bindM at 1. destruct (install _ _ _ _ _ w) as [w0 [h'|err]] eqn:Hw.
    + unfold ret at 1. rewrite (Hdone w0 h' (Some h')) by done. exists entry, i, e, m, rest, w0. rewrite Ht. split_and!; eauto.
    + pose proof (install_spec to (te_object t) (te_rights t) (te_lineage t) (te_class t) w) as Hs. by rewrite Hw in Hs.
  - unfold ret at 1. rewrite (Hdone w 0 None) by done. exists entry, i, e, m, rest, w. rewrite Ht. split_and!; eauto.
Qed.

Lemma receive_inv to h pins : ends (inv pins) (receive_handle to h) (inv pins).
Proof.
  intros w HI. pose proof (receive_spec to h w) as Hs. destruct (receive_handle to h w) as [w' [[msg wake]|err]]; [|by subst].
  destruct Hs as (entry & i & e & m & rest & w0 & _ & _ & Ho & Hm & _ & _ & _ & Hw0 & ->). apply object_Some in Ho as [Hi _].
  pose proof (inv_dequeue pins (state w) i e m rest (receive_waiters e) (take_waiter (send_waiters e)).1 HI Hi Hm) as Hd.
  destruct (transfer m) as [t|]; [|by destruct Hw0 as [-> _]]. destruct Hw0 as (h' & Hin & _).
  pose proof (install_spec to (te_object t) (te_rights t) (te_lineage t) (te_class t) w) as Hs. rewrite Hin in Hs.
  destruct Hs as (i' & sp & k & g & Hsp & Hk & _ & _ & ->). apply space_Some in Hsp as [Hi' _].
  exact (inv_fill_slot _ _ i' sp k (mkEntry (te_object t) (te_rights t) g (te_lineage t) (te_class t)) _ Hd Hi' Hk).
Qed.

(** ** Waiters *)
Lemma inv_set_waiters pins s i e r q :
  Inv pins s → objects s !! i = Some (Some e) →
  Inv pins (set_objects (<[i := Some (set_waiters r q e)]> (objects s)) s).
Proof. intros HI Hi. pose proof (inv_eps _ _ HI i e Hi) as []. by eapply inv_touch_object. Qed.

Lemma receive_waiter_inv to h t pins : ends (inv pins) (register_receive_waiter to h t) (inv pins).
Proof.
  unfold register_receive_waiter, ends. walk. destruct a0 as [i e]. cbn [fst snd].
  destruct (negb (length (eo_messages e) =? 0)%nat); [apply triple_ret; by weaken|]. walk.
  intros w (([HI _] & Ho%ok_or_Ok) & _). apply object_Some in Ho as [Hi _]. by apply inv_set_waiters.
Qed.

Lemma send_waiter_inv from h t pins : ends (inv pins) (register_send_waiter from h t) (inv pins).
Proof.
  unfold register_send_waiter, ends. walk. destruct a0 as [i e]. cbn [fst snd].
  destruct (negb (length (eo_messages e) =? QUEUE_DEPTH)%nat); [apply triple_ret; by weaken|]. walk.
  intros w (([HI _] & Ho%ok_or_Ok) & _). apply object_Some in Ho as [Hi _]. by apply inv_set_waiters.
Qed.

(** ** Services *)
Lemma publish_inv o name h rights pins : ends (inv pins) (publish_service o name h rights) (inv pins).
Proof.
  unfold publish_service, ends. walk. eapply triple_bind.
  { eapply triple_conseq; [apply (delegation_inv o a1 pins)|by weaken|intros x w Hw; exact Hw|done]. }
  intros l. apply triple_ask; [by weaken|]. intros i. eapply triple_bind.
  { eapply triple_conseq; [apply (retain_inv (he_object a1) pins (λ w, services (state w) !! i = Some None))|..]; [| |..|done].
    - intros w w' Hi Ht _. by rewrite (to_services _ _ Ht).
    - intros w [HI Hi%ok_or_Ok%free_slot_Some]. done.
    - intros x w Hw. exact Hw. }
  intros [] w [HI Hi]. eapply inv_put_service; [done..|]. intros o'. rewrite pinned_cons. cbn. unfold service_holds. cbn. lia.
Qed.

Lemma unpublish_inv o name pins : ends (inv pins) (unpublish_service o name) (inv pins).
Proof.
  unfold unpublish_service, ends. walk. destruct a0 as [i sv]. cbn [fst snd].
  apply (triple_act _ (inv (sv_object sv :: pins))).
  - intros w ([HI _] & (Hi & _)%ok_or_Ok%find_slot_Some). eapply inv_put_service; [done..|].
    intros o'. rewrite pinned_cons. cbn. unfold service_holds. lia.
  - intros w HI. by apply inv_release.
Qed.

Lemma discover_inv client name pins : ends (inv pins) (discover_service client name) (inv pins).
Proof.
  unfold discover_service, ends. walk. eapply triple_conseq; [apply retain_install_inv|by weaken|done..].
Qed.

(** ** Revocation and closing *)
Lemma revoke_state o h w : state (revoke_object_delegations o h w).1 = state w.
Proof.
  unfold revoke_object_delegations, bindM, ask, guard, throw, ret, lineage_call.
  destruct (rbind _ _) as [entry|]; [|done]. destruct (object_authority _ _) as [[own [l|]]|]; cbn [fst snd]; try done;
    destruct (negb _); cbn [ok_or]; try done.
  by destruct (Service.revoke_lineage_subtree _ _ _) as [[] ?].
Qed.

Lemma revoke_inv o h pins : ends (inv pins) (revoke_object_delegations o h) (inv pins).
Proof. apply ends_fst. intros w HI. unfold inv. by rewrite revoke_state. Qed.

Lemma remove_Ok sp h sp' e :
  remove sp h = Ok (sp', e) → ∃ k, handle_slot h = Some k ∧ entries sp !! k = Some (Some e)
    ∧ sp' = set_entries (<[k := None]> (entries sp)) sp.
Proof.
  unfold remove. destruct (handle_slot h) as [k|] eqn:Hk; [|done]. cbn [ok_or rbind].
  destruct (lookup_raw sp h) as [e'|] eqn:Hl; [|done]. cbn [rbind]. intros [= <- <-].
  apply lookup_raw_Ok in Hl as (k' & Hk' & He & _). simplify_eq. eauto.
Qed.

(** Emptying a handle slot turns it into a pin. *)
Lemma inv_empty_slot pins s i sp k e :
  Inv pins s → handle_spaces s !! i = Some (Some sp) → entries sp !! k = Some (Some e) →
  Inv (he_object e :: pins) (set_spaces (<[i := Some (set_entries (<[k := None]> (entries sp)) sp)]> (handle_spaces s)) s).
Proof.
  intros HI Hi Hk. destruct (inv_spaces _ _ HI i sp Hi). eapply inv_put_space; [done..| |].
  - intros ? [= <-]. split; [split; cbn; by rewrite ?length_insert|]. cbn. eapply unique_fresh; [apply HI|done].
  - intros o'. rewrite pinned_cons. cbn. unfold space_holds. cbn. rewrite (tally_insert _ _ _ _ _ Hk). cbn. lia.
Qed.

Lemma close_waiters_inv o h obj pins w : inv pins w → inv pins (close_waiters o h obj w).1.
Proof.
  intros HI. unfold close_waiters. destruct (object obj (state w)) as [[i e]|] eqn:Ho; [|done].
  apply object_Some in Ho as [Hi _]. by apply inv_set_waiters.
Qed.

Lemma close_inv o h pins : ends (inv pins) (close_handle o h) (inv pins).
Proof.
  unfold close_handle, ends. walk. destruct a as [i sp], a0 as [sp' e]. cbn [fst snd].
  apply (triple_act _ (inv (he_object e :: pins))).
  - intros w ([HI [Hi _]%ok_or_Ok%space_Some] & (k & _ & Hk & ->)%remove_Ok). by apply inv_empty_slot.
  - intros w HI. pose proof (close_waiters_inv o h (he_object e) _ w HI) as H.
    destruct (close_waiters o h (he_object e) w) as [w' wake]. by apply inv_release.
Qed.

(** ** The PID-addressed queue does not touch objects *)
Lemma legacy_send_inv from to bytes pins : ends (inv pins) (send from to bytes) (inv pins).
Proof. unfold send, ends. walk. intros w Hw. apply inv_set_legacy. by weaken. Qed.

Lemma legacy_receive_inv to pins : ends (inv pins) (receive to) (inv pins).
Proof.
  unfold receive, ends. walk. apply (triple_act _ (inv pins)); [|by apply triple_ret].
  intros w Hw. apply inv_set_legacy. by weaken.
Qed.

Lemma inv_new : Inv [] state_new.
Proof.
  split; cbn [handle_spaces objects shared_memory next_object_id state_new]; try (intros ? ? H; apply lookup_replicate in H as [? _]; done).
  - intros i j x y H; apply lookup_replicate in H as [? _]; done.
  - intros i j x y H; apply lookup_replicate in H as [? _]; done.
  - intros i j x y H; apply lookup_replicate in H as [? _]; done.
  - done.
  - lia.
  - intros o. unfold balance, state_new. cbn [handle_spaces objects services shared_memory].
    by rewrite !tally_replicate.
  - intros x Hx. assert (He : ∃ y, edge state_new x y) by (inversion Hx; eauto).
    destruct He as (y & i & e & Hi & _). cbn [objects state_new] in Hi. by apply lookup_replicate in Hi as [? _].
Qed.

End IpcOps.
