(* ===== verification/IpcTransfer.v ===== *)
(** * What the IPC subsystem guarantees

    The system is the IPC world with the references held by calls in flight; each step
    is one critical section of the code, in any order. *)
From stdpp Require Import relations.
From S2P Require Import Prelude Capability WovenGuard SecurityLedger Lineage LineageService Ipc IpcInv IpcOps.
Module IpcSafety.
Import Ipc IpcInv IpcOps.

(** ** The system *)

(** Operations that hold the lock from start to end. *)
Inductive call :=
  | CRegister (o : Z)
  | CUnregister (o : Z)
  | CLegacySend (from to : Z) (bytes : list Z)
  | CLegacyReceive (to : Z)
  | CCreateEndpoint (o : Z)
  | CInstallShared (o : Z) (fr : list Z) (pages : nat)
  | CGrant (o h target rights : Z)
  | CSend (from h : Z) (bytes : list Z)
  | CSendTransfer (from eh th rights : Z) (bytes : list Z)
  | CReceive (to h : Z)
  | CWaitReceive (to h task : Z)
  | CWaitSend (from h task : Z)
  | CPublish (o : Z) (name : list Z) (h rights : Z)
  | CUnpublish (o : Z) (name : list Z)
  | CDiscover (client : Z) (name : list Z)
  | CRevoke (o h : Z)
  | CClose (o h : Z).

Definition run (c : call) (w : World) : World :=
  match c with
  | CRegister o => (register o w).1
  | CUnregister o => (unregister o w).1
  | CLegacySend f t b => (send f t b w).1
  | CLegacyReceive t => (receive t w).1
  | CCreateEndpoint o => (create_endpoint_object o w).1
  | CInstallShared o fr n => (install_shared_memory o fr n w).1
  | CGrant o h t r => (grant_handle o h t r w).1
  | CSend f h b => (send_handle f h b w).1
  | CSendTransfer f e t r b => (send_handle_with_transfer f e t r b w).1
  | CReceive t h => (receive_handle t h w).1
  | CWaitReceive t h k => (register_receive_waiter t h k w).1
  | CWaitSend f h k => (register_send_waiter f h k w).1
  | CPublish o n h r => (publish_service o n h r w).1
  | CUnpublish o n => (unpublish_service o n w).1
  | CDiscover c n => (discover_service c n w).1
  | CRevoke o h => (revoke_object_delegations o h w).1
  | CClose o h => (close_handle o h w).1
  end.

(** Critical sections that return with a reference: shared-memory I/O, mapping and
    unmapping drop the lock while they touch pages. *)
Inductive begin :=
  | BIo (o h : Z) (write : bool)
  | BMap (o h space start : Z) (writable : bool)
  | BUnmap (o space start : Z).

Definition open (b : begin) : M ObjectRef :=
  match b with
  | BIo o h wr => bindM (prepare_shared_io o h wr) (λ r, ret r.1.1)
  | BMap o h sp st wr => bindM (prepare_shared_mapping o h sp st wr) (λ r, ret r.1.1)
  | BUnmap o sp st => bindM (take_shared_mapping o sp st) (λ r, ret r.1.1)
  end.

(** One critical section. [step_store] covers [finish_shared_mapping] and
    [restore_shared_mapping]; [step_release] the end of an I/O or an unmap, and
    [cancel_shared_mapping]. Object identifiers are not exhausted. *)
Inductive step : World * list ObjectRef → World * list ObjectRef → Prop :=
  | step_call c w pins : ids_left w → step (w, pins) (run c w, pins)
  | step_open b w w' o pins : open b w = (w', Ok o) → step (w, pins) (w', o :: pins)
  | step_open_refused b w w' e pins : open b w = (w', Err e) → step (w, pins) (w', pins)
  | step_store o m w w' pins rest :
      pins ≡ₚ o :: rest → store_mapping o m w = (w', Ok ()) → step (w, pins) (w', rest)
  | step_store_refused o m w w' e pins rest :
      pins ≡ₚ o :: rest → store_mapping o m w = (w', Err e) → step (w, pins) (w', pins)
  | step_release o w pins rest :
      pins ≡ₚ o :: rest → step (w, pins) (release_object_reference o w, rest).

Definition initial (sy : Service.Sys) : World := mkWorld state_new sy [].
Definition reachable (sy : Service.Sys) (w : World) (pins : list ObjectRef) : Prop :=
  rtc step (initial sy, []) (w, pins).

(** ** The invariant holds *)
Lemma ends_run {A} pins (m : M A) w : ends (inv pins) m (inv pins) → inv pins w → inv pins (m w).1.
Proof. intros Hm HI. specialize (Hm w HI). by destruct (m w) as [w' []]. Qed.

Lemma triple_run {A} pins (m : M A) w :
  triple (λ w, inv pins w ∧ ids_left w) m (λ _, inv pins) (inv pins) → inv pins w → ids_left w → inv pins (m w).1.
Proof. intros Hm HI Hi. specialize (Hm w (conj HI Hi)). by destruct (m w) as [w' []]. Qed.

Lemma run_inv c w pins : inv pins w → ids_left w → inv pins (run c w).
Proof.
  intros HI Hids. destruct c; cbn [run];
    first [ by apply triple_run; [apply create_endpoint_inv|..]
          | by apply triple_run; [apply install_shared_inv|..]
          | apply ends_run; [|done] ];
    auto using register_inv, unregister_inv, legacy_send_inv, legacy_receive_inv, grant_inv, send_plain_inv,
      send_transfer_inv, receive_inv, receive_waiter_inv, send_waiter_inv, publish_inv, unpublish_inv,
      discover_inv, revoke_inv, close_inv.
Qed.

Lemma open_inv b pins : triple (inv pins) (open b) (λ o, inv (o :: pins)) (inv pins).
Proof.
  destruct b; cbn [open]; (eapply triple_bind;
    [first [apply prepare_io_inv|apply prepare_mapping_inv|apply take_mapping_inv]|]); intros r; by apply triple_ret.
Qed.

Lemma inv_perm pins pins' s : pins ≡ₚ pins' → Inv pins s → Inv pins' s.
Proof. intros Hp HI. eapply inv_pins; [done|]. intros o. unfold pinned. symmetry. by apply sum_by_perm. Qed.

Lemma step_inv w pins w' pins' : step (w, pins) (w', pins') → inv pins w → inv pins' w'.
Proof.
  intros Hs HI. inversion Hs as [c ? ? Hids|b ? ? o ? Hb|b ? ? e ? Hb|o m ? ? ? rest Hp Hm|o m ? ? e ? rest Hp Hm|o ? ? rest Hp]; subst.
  - by apply run_inv.
  - pose proof (open_inv b pins w HI) as H. by rewrite Hb in H.
  - pose proof (open_inv b pins' w HI) as H. by rewrite Hb in H.
  - pose proof (store_mapping_inv o m pins' w (inv_perm _ _ _ Hp HI)) as H. by rewrite Hm in H.
  - pose proof (store_mapping_inv o m rest w (inv_perm _ _ _ Hp HI)) as H. rewrite Hm in H. by apply (inv_perm (o :: rest)).
  - apply inv_release. by apply (inv_perm pins).
Qed.

Lemma reachable_inv sy w pins : reachable sy w pins → Inv pins (state w).
Proof.
  intros Hr. refine (rtc_ind_r (λ p, Inv p.2 (state p.1)) (initial sy, []) inv_new _ (w, pins) Hr).
  intros [w1 p1] [w2 p2] _ Hs HI. by eapply step_inv.
Qed.

(** C6. Reference counts are exact in every reachable state of the IPC subsystem:
    the count of an object is the number of handles, escrowed capabilities, services
    and mappings that name it plus the references of calls in flight; every handle
    names a live object; a live object has a positive count; and the escrow graph
    between endpoints has no cycle. *)
Theorem ipc_references_exact sy w pins :
  reachable sy w pins →
  let s := state w in
  (∀ o, references o s = in_spaces o s + in_queues o s + in_services o s + in_mappings o s + pinned o pins) ∧
  (∀ o, live o s ↔ 0 < references o s) ∧
  (∀ i sp k e, handle_spaces s !! i = Some (Some sp) → entries sp !! k = Some (Some e) → live (he_object e) s) ∧
  acyclic (edge s).
Proof.
  intros HI%reachable_inv. cbv zeta. split_and!.
  - intros o. pose proof (inv_balance _ _ HI o) as Hb. rewrite balance_split in Hb. lia.
  - intros o. split.
    + intros [(i & e & [Hi ->]%object_Some)|(i & e & [Hi ->]%shared_Some)]%live_cases.
      * rewrite (references_endpoint _ _ _ _ HI Hi). apply (ek_references _ _ (inv_eps _ _ HI i e Hi)).
      * rewrite (references_shared _ _ _ _ HI Hi). apply (mk_references _ _ (inv_shms _ _ HI i e Hi)).
    + intros Hr. destruct (decide (live o (state w))) as [|Hd]; [done|]. rewrite references_dead in Hr by done. lia.
  - intros. by eapply handle_live.
  - apply HI.
Qed.

(** ** Nothing leaks *)

(** Named from outside the queues. *)
Definition rooted (pins : list ObjectRef) (s : State) (o : ObjectRef) : Prop :=
  0 < in_spaces o s + in_services o s + in_mappings o s + pinned o pins.

#[export] Instance rooted_dec pins s o : Decision (rooted pins s o).
Proof. unfold rooted. apply _. Defined.

Lemma tc_flip_swap {A} (R : A → A → Prop) x y : tc (flip R) x y → tc R y x.
Proof. induction 1 as [x y H|x y z H _ IH]; [by apply tc_once|]. eapply tc_r; [exact IH|exact H]. Qed.

Lemma escrow_sn pins s o : Inv pins s → sn (flip (edge s)) o.
Proof.
  intros HI. apply tc_finite_sn.
  - intros x Hx%tc_flip_swap. by apply (inv_acyclic _ _ HI x).
  - exists (ep_ref <$> flatten (objects s)). intros x Hx%tc_flip_swap.
    assert (He : ∃ y, edge s x y) by (inversion Hx; eauto). destruct He as (y & i & e & Hi & -> & _).
    apply list_elem_of_fmap_2, elem_of_flatten. by eapply list_elem_of_lookup_2.
Qed.

Lemma queued_edge s o : 0 < in_queues o s → ∃ i e, objects s !! i = Some (Some e) ∧ edge s (ep_ref e) o.
Proof.
  intros (i & e & Hi & (o' & Ho' & Hp)%sum_by_pos)%tally_pos. exists i, e. split; [done|].
  unfold is_ref in Hp. case_bool_decide; [|lia]. subst o'. by exists i, e.
Qed.

Lemma held_reference pins s o :
  Inv pins s → live o s → 0 < in_spaces o s + in_queues o s + in_services o s + in_mappings o s + pinned o pins.
Proof.
  intros HI Hl. pose proof (inv_balance _ _ HI o) as Hb. rewrite balance_split in Hb.
  assert (0 < references o s); [|lia].
  apply live_cases in Hl as [(i & e & [Hi ->]%object_Some)|(i & e & [Hi ->]%shared_Some)].
  - rewrite (references_endpoint _ _ _ _ HI Hi). apply (ek_references _ _ (inv_eps _ _ HI i e Hi)).
  - rewrite (references_shared _ _ _ _ HI Hi). apply (mk_references _ _ (inv_shms _ _ HI i e Hi)).
Qed.

Lemma live_rooted pins s o : Inv pins s → live o s → ∃ r, rtc (edge s) r o ∧ live r s ∧ rooted pins s r.
Proof.
  intros HI. pose proof (escrow_sn _ _ o HI) as Hsn. induction Hsn as [o _ IH]. intros Hl.
  destruct (decide (rooted pins s o)) as [Hr|Hr]; [by exists o; split_and!; [apply rtc_refl|..]|].
  pose proof (held_reference _ _ _ HI Hl) as Hh. unfold rooted in Hr.
  destruct (queued_edge s o) as (i & e & Hi & Hedge); [lia|].
  destruct (IH (ep_ref e) Hedge) as (r & Hp & Hlr & Hroot).
  { apply live_cases. left. exists i, e. by eapply object_at. }
  exists r. split_and!; [by eapply rtc_r|done..].
Qed.

Lemma flatten_nil {A} (l : list (option A)) : (∀ i x, l !! i ≠ Some (Some x)) → flatten l = [].
Proof.
  intros H. destruct (flatten l) as [|x k] eqn:E; [done|]. exfalso.
  assert (Hx : Some x ∈ l) by (apply elem_of_flatten; rewrite E; left).
  apply list_elem_of_lookup_1 in Hx as [i Hi]. by apply (H i x).
Qed.

(** C7. Nothing leaks: every live object can be reached, through capabilities queued
    in endpoints, from an object that a handle, a service, a mapping or a call in
    flight names; so once none of these is left, no object is left, however the
    queues were filled. *)
Theorem ipc_no_leak sy w pins :
  reachable sy w pins →
  (∀ o, live o (state w) → ∃ r, rtc (edge (state w)) r o ∧ live r (state w) ∧ rooted pins (state w) r) ∧
  ((∀ o, ¬ rooted pins (state w) o) → object_count (state w) = 0%nat).
Proof.
  intros HI%reachable_inv. assert (Hroot := λ o, live_rooted _ _ o HI). split; [done|]. intros Hnone.
  assert (Hdead : ∀ o, ¬ live o (state w)) by (intros o (r & _ & _ & Hr)%Hroot; by apply (Hnone r)).
  unfold object_count. rewrite !flatten_nil; [done|..]; intros i e Hi.
  - apply (Hdead (shm_ref e)), live_cases. right. exists i, e. by eapply shared_at.
  - apply (Hdead (ep_ref e)), live_cases. left. exists i, e. by eapply object_at.
Qed.

End IpcSafety.

(** * Transferring and revoking capabilities over IPC

    A capability sent in a message arrives as a handle with exactly the rights the
    sender chose, within those it holds; revoking the delegations of an object closes
    every delegated handle and no other. *)
Module IpcTransfer.
Import Ipc IpcInv IpcOps.

(** ** Handles round trip *)
Lemma handle_roundtrip k g :
  (k < MAX_HANDLES)%nat → 0 < g < 2 ^ 24 →
  handle_slot (from_parts k g) = Some k ∧ handle_generation (from_parts k g) = g.
Proof.
  intros Hk Hg. change (from_parts k g) with (Lin.from_parts k g). unfold MAX_HANDLES in *.
  rewrite LinProofs.from_parts_eq by lia. unfold handle_slot, handle_generation.
  change 0xff with (2 ^ 8 - 1). rewrite land_low, Z.shiftr_div_pow2 by lia. change (2 ^ 8) with 256.
  replace ((g * 256 + (Z.of_nat k + 1)) mod 256) with (Z.of_nat k + 1) by (apply (Z.mod_unique _ _ g); lia).
  replace ((g * 256 + (Z.of_nat k + 1)) / 256) with g by (apply (Z.div_unique _ _ _ (Z.of_nat k + 1)); lia).
  split; [|done]. replace (Z.to_nat (Z.of_nat k + 1)) with (S k) by lia. cbn [Nat.eqb]. unfold MAX_HANDLES.
  destruct (Nat.ltb_spec (S k - 1) 16); [f_equal; lia|lia].
Qed.

(** A handle just installed looks up to what was installed. *)
Lemma install_lookup pins o obj r l c w w' h :
  inv pins w → install o obj r l c w = (w', Ok h) → unauthorized (registry w) l = false →
  ∃ g, lookup_handle o h w' = Ok (mkEntry obj r g l c).
Proof.
  intros HI Hin Hauth. pose proof (install_spec o obj r l c w) as Hs. rewrite Hin in Hs.
  destruct Hs as (i & sp & k & g & Hsp & Hk & Hg & -> & ->). exists g.
  pose proof (space_Some _ _ _ _ Hsp) as [Hi Ho]. destruct (inv_spaces _ _ HI i sp Hi) as [He _].
  assert (Hlt : (k < MAX_HANDLES)%nat) by (rewrite <-He; eauto using lookup_lt_Some).
  unfold lookup_handle, handle_space. cbn [state put_space upd set_spaces handle_spaces].
  rewrite (find_slot_replace _ _ i sp) by done. fold (handle_space o (state w)). rewrite Hsp, bool_decide_true by done.
  cbn [ok_or rbind snd]. destruct (handle_roundtrip k g Hlt Hg) as [Hslot Hgen].
  unfold lookup, lookup_raw. rewrite Hslot. cbn [ok_or rbind entries].
  rewrite list_lookup_insert_eq by (by rewrite He). cbn [mjoin option_join ok_or rbind he_generation]. rewrite Hgen, Z.eqb_refl.
  cbn [rbind he_lineage]. unfold registry, put_space, upd in *. cbn [sys]. by rewrite Hauth.
Qed.

(** ** The delegation root is authorised *)
Lemma issue_authorizes sy o l sy' :
  LinProofs.wf (Service.lineages sy) → Service.issue_lineage_root o (Cap.only Cap.Ipc) sy = (Ok l, sy') →
  Lin.lineage_authorizes (Service.lineages sy') l Cap.Ipc = true.
Proof.
  intros Hwf. unfold Service.issue_lineage_root, mbind, ST_bind, Service.with_lineages.
  assert (Hp : Cap.proper (Cap.only Cap.Ipc)) by (vm_compute; split; congruence).
  destruct (LinProofs.issue_root_spec (Service.lineages sy) o _ Hwf Hp) as [[err Hr]|(r' & n & new & Hr & Hg & _ & Hrt & _)];
    rewrite Hr; cbn; [done|]. intros [= <- <-]. cbn.
  pose proof (LinProofs.grown_wf _ _ _ _ _ Hwf Hg) as Hwf'. pose proof (LinProofs.grown_live_new _ _ _ _ _ Hg) as Hl.
  unfold Lin.lineage_authorizes. rewrite (LinProofs.info_live _ Hwf' _ _ Hl). cbn. by rewrite Hrt.
Qed.

Lemma root_for_authorizes o cur store w w' l :
  (∀ l w, sys (store l w) = sys w) → LinProofs.wf (registry w) → root_for o cur store w = (w', Ok l) →
  Lin.lineage_authorizes (registry w') l Cap.Ipc = true.
Proof.
  intros Hsys Hwf. unfold root_for, lineage_call.
  assert (Hissue : ∀ w0, registry w0 = registry w →
    (let '(w, r) := let '(a, s) := Service.issue_lineage_root o (Cap.only Cap.Ipc) (sys w0) in
                    (mkWorld (state w0) s (released_frames w0), a) in
     match r with Ok l => (store (Some l) w, Ok l) | Err _ => (w, Err AccessDenied) end) = (w', Ok l) →
    Lin.lineage_authorizes (registry w') l Cap.Ipc = true).
  { intros w0 Hw0. destruct (Service.issue_lineage_root _ _ (sys w0)) as [[l'|e] sy'] eqn:Hi; [|done]. intros [= <- <-].
    unfold registry. rewrite Hsys. cbn. eapply issue_authorizes; [|done]. unfold registry in *. by rewrite Hw0. }
  destruct cur as [l0|]; [|by apply Hissue]. case_match eqn:Ha; [by intros [= <- <-]|].
  apply Hissue. unfold registry. by rewrite Hsys.
Qed.

Lemma delegation_authorizes o entry w w' l :
  LinProofs.wf (registry w) → delegation_lineage_for o entry w = (w', Ok l) →
  Lin.lineage_authorizes (registry w') l Cap.Ipc = true.
Proof.
  intros Hwf. unfold delegation_lineage_for. destruct (he_lineage entry) as [l0|].
  { unfold ask. case_match eqn:Ha; [|done]. by intros [= <- <-]. }
  destruct (kind (he_object entry)); unfold bindM, ask, guard.
  - destruct (object _ _) as [[i e]|]; [|done]. cbn [ok_or]. destruct (negb _); [done|]. unfold ret.
    by apply root_for_authorizes.
  - destruct (shared_object _ _) as [[i e]|]; [|done]. cbn [ok_or]. destruct (negb _); [done|]. unfold ret.
    by apply root_for_authorizes.
Qed.

(** ** Sending a capability *)
Definition attached (from : Z) (bytes : list Z) (tr : HandleEntry) (rights l : Z) : QueuedMessage :=
  mkQueued (mkMessage from bytes None) (Some (mkEscrow (he_object tr) rights (Some l) (he_class tr))).

Lemma send_transfer_Ok pins from eh th rights bytes w w1 wake :
  inv pins w → send_handle_with_transfer from eh th rights bytes w = (w1, Ok wake) →
  ∃ tr ep l wd wr i e,
    lookup_handle from th w = Ok tr
    ∧ has (he_rights tr) TRANSFER = true ∧ exceeds rights (allowed_rights (kind (he_object tr))) = false
    ∧ exceeds rights (he_rights tr) = false
    ∧ delegation_lineage_for from tr w = (wd, Ok l) ∧ lookup_handle from eh wd = Ok ep
    ∧ has (he_rights ep) SEND = true
    ∧ retain_object_reference (he_object tr) wd = (wr, Ok ())
    ∧ object (he_object ep) (state wr) = Some (i, e)
    ∧ w1 = put_object i (Some (delivered e (attached from bytes tr rights l))) wr.
Proof.
  intros HI. unfold send_handle_with_transfer. unfold bindM at 1, guard at 1. destruct (rights =? 0); [done|]. unfold ret at 1.
  unfold bindM at 1, ask at 1. destruct (lookup_handle from th w) as [tr|] eqn:Hth; [|done].
  unfold bindM at 1, guard at 1. destruct (_ || _ || _) eqn:Hg; [done|]. unfold ret at 1.
  apply orb_false_iff in Hg as [[Ht%negb_false_iff Ha]%orb_false_iff Hr].
  unfold bindM at 1. destruct (delegation_lineage_for from tr w) as [wd [l|]] eqn:Hd; [|done].
  pose proof (delegation_inv from tr pins w HI) as HId. rewrite Hd in HId.
  unfold bindM at 1, ask at 1. destruct (lookup_handle from eh wd) as [ep|] eqn:Hep; [|done].
  unfold bindM at 1, guard at 1. destruct (has (he_rights ep) SEND) eqn:Hs; cbn [negb]; [|done]. unfold ret at 1.
  unfold bindM at 1, guard at 1. case_bool_decide; cbn [negb]; [|done]. unfold ret at 1.
  unfold bindM at 1, ask at 1. unfold bindM at 1, guard at 1. destruct (would_create_endpoint_transfer_cycle _ _ _); [done|].
  unfold ret at 1. unfold bindM at 1. pose proof (retain_spec (he_object tr) pins wd HId) as Hret.
  destruct (retain_object_reference (he_object tr) wd) as [wr [[]|]] eqn:Hre; [|done].
  destruct Hret as (_ & Htouch & Hsys). unfold or_else.
  pose proof (send_spec from eh (Some (mkEscrow (he_object tr) rights (Some l) (he_class tr))) bytes wr) as Hsend.
  destruct (send_handle_with_optional_transfer _ _ _ _ wr) as [w' [wk|]]; [|done]. intros [= <- <-].
  destruct Hsend as (ep' & i & e & Hl & _ & Ho & _ & _ & _ & ->). rewrite (lookup_touch _ _ _ _ Htouch Hsys), Hep in Hl. simplify_eq.
  exists tr, ep', l, wd, wr, i, e. split_and!; done.
Qed.

Lemma object_delivered s i e o x :
  object o s = Some (i, e) → eo_id x = eo_id e → object o (set_objects (<[i := Some x]> (objects s)) s) = Some (i, x).
Proof.
  intros Ho Hx. pose proof (object_Some _ _ _ _ Ho) as [Hi _]. rewrite (object_replace _ _ _ _ _ Hi Hx), Ho.
  by rewrite bool_decide_true.
Qed.

(** C8. A capability sent in a message arrives intact and never amplified. Sending
    needs TRANSFER on a handle of the sender, and appends the message with the capability
    in escrow to the endpoint's queue. The rights chosen are within the source handle's
    and within those of the object's kind. When the queue was empty, whoever receives from
    that endpoint next gets the sender and payload that were sent and a new handle of its
    own that looks up to the same object with exactly the chosen rights. *)
Theorem transfer_round_trip pins w w1 from eh th rights bytes wake :
  inv pins w → LinProofs.wf (registry w) →
  send_handle_with_transfer from eh th rights bytes w = (w1, Ok wake) →
  ∃ tr ep l,
    lookup_handle from th w = Ok tr ∧ has (he_rights tr) TRANSFER = true
    ∧ lookup_handle from eh w1 = Ok ep ∧ has (he_rights ep) SEND = true
    ∧ exceeds rights (he_rights tr) = false ∧ exceeds rights (allowed_rights (kind (he_object tr))) = false
    ∧ queue (he_object ep) (state w1) = queue (he_object ep) (state w) ++ [attached from bytes tr rights l]
    ∧ ∀ to rh re w2 msg wake2,
        queue (he_object ep) (state w) = [] → lookup_handle to rh w1 = Ok re → he_object re = he_object ep →
        receive_handle to rh w1 = (w2, Ok (msg, wake2)) →
        sender msg = from ∧ payload msg = bytes ∧ queue (he_object ep) (state w2) = []
        ∧ ∃ h e, transferred_handle msg = Some h ∧ lookup_handle to h w2 = Ok e
                 ∧ he_object e = he_object tr ∧ he_rights e = rights ∧ he_lineage e = Some l.
Proof.
  intros HI Hwf Hsend. pose proof (send_transfer_inv from eh th rights bytes pins w HI) as HI1. rewrite Hsend in HI1.
  destruct (send_transfer_Ok _ _ _ _ _ _ _ _ _ HI Hsend) as (tr & ep & l & wd & wr & i & e & Hth & Ht & Ha & Hr & Hd & Hep & Hsend' & Hre & Ho & ->).
  pose proof (delegation_authorizes _ _ _ _ _ Hwf Hd) as Hauth.
  pose proof (delegation_spec from tr pins w HI w eq_refl) as Hdt. rewrite Hd in Hdt. destruct Hdt as [HId Htd].
  pose proof (retain_spec (he_object tr) pins wd HId) as Hrt. rewrite Hre in Hrt. destruct Hrt as (HIr & Htr & Hsys).
  set (m := attached from bytes tr rights l) in *.
  assert (Ho1 : object (he_object ep) (state (put_object i (Some (delivered e m)) wr)) = Some (i, delivered e m)).
  { by apply object_delivered with e. }
  assert (Hq : queue (he_object ep) (state w) = eo_messages e).
  { rewrite <-(to_queues _ _ Htd), <-(to_queues _ _ Htr). unfold queue. by rewrite Ho. }
  assert (Hep1 : lookup_handle from eh (put_object i (Some (delivered e m)) wr) = Ok ep).
  { rewrite <-Hep. exact (lookup_touch _ _ _ _ Htr Hsys). }
  exists tr, ep, l. split_and!; [done..| |].
  { unfold queue at 1. rewrite Ho1, Hq. done. }
  intros to rh re w2 msg wake2 Hempty Hre' Hsame Hrecv.
  pose proof (receive_spec to rh (put_object i (Some (delivered e m)) wr)) as Hs. rewrite Hrecv in Hs.
  destruct Hs as (re' & i' & e' & m' & rest & w0 & Hl & _ & Hob & Hm & Hsnd & Hpay & _ & Hw0 & ->).
  rewrite Hre' in Hl. injection Hl as <-. rewrite Hsame, Ho1 in Hob. injection Hob as <- <-.
  cbn [eo_messages delivered set_waiters set_eo_messages] in Hm. rewrite <-Hq, Hempty in Hm. injection Hm as <- <-.
  cbn [transfer m attached] in Hw0. destruct Hw0 as (h & Hin & Hh).
  cbn [te_object te_rights te_lineage te_class] in Hin.
  assert (Hun : unauthorized (registry (put_object i (Some (delivered e m)) wr)) (Some l) = false).
  { unfold unauthorized, registry. cbn [sys put_object upd]. rewrite Hsys. fold (registry wd). by rewrite Hauth. }
  destruct (install_lookup pins _ _ _ _ _ _ _ _ HI1 Hin Hun) as [g Hlk].
  pose proof (install_spec to (he_object tr) rights (Some l) (he_class tr) (put_object i (Some (delivered e m)) wr)) as Hs.
  rewrite Hin in Hs. destruct Hs as (j & sp & k & g' & _ & _ & _ & _ & ->).
  split_and!; [done..| |exists h; eexists; split_and!; [done|exact Hlk|done..]].
  unfold queue. cbn [state put_object put_space upd]. by rewrite (object_delivered _ i (delivered e m)).
Qed.

(** ** Revoking the delegations of an object *)
Lemma authorizes_by_authority r id c :
  Lin.lineage_authorizes r id c =
    match LinProofs.authority r id with Some (_, _, rts) => Cap.contains rts c | None => false end.
Proof. unfold Lin.lineage_authorizes, LinProofs.authority. by destruct (Lin.info r id). Qed.

Lemma controls_dec r actor i e :
  LinProofs.wf r → LinProofs.live r i e → LinProofs.controls r actor i ∨ ¬ LinProofs.controls r actor i.
Proof.
  intros Hwf He. destruct (LinProofs.wf_depth _ Hwf _ _ He) as [n Hn].
  destruct (LinProofs.authorized_spec r Hwf actor i n Hn e Lin.MAX_CAPABILITY_LINEAGES He) as (b & _ & Hb).
  { by apply (LinProofs.Depth_bound _ Hwf i). }
  unfold LinProofs.controls. rewrite <-Hb. destruct b; [by left|by right].
Qed.

(** A successful revocation removes the target and its descendants. *)
Lemma revoked_authority r actor target r' n id :
  LinProofs.wf r → in_u32 target → in_u32 id → Lin.revoke_subtree r actor target = (r', Ok n) →
  LinProofs.authority r' id =
    if (id =? target) || Lin.is_descendant_of r id target then None else LinProofs.authority r id.
Proof.
  intros Hwf Ht Hid Hr. destruct (LinProofs.resolve r target Hwf Ht) as [(i & e & He & -> & _)|[Hn _]].
  2:{ by rewrite (LinProofs.revoke_subtree_stale _ actor _ Hn) in Hr. }
  destruct (LinProofs.revoke_subtree_live r actor i e Hwf He) as [Hno Hyes].
  destruct (controls_dec r actor i e Hwf He) as [Hc|Hc]; [|by rewrite (Hno Hc) in Hr].
  destruct (Hyes Hc) as [Heq Hpr]. cbn zeta in *. rewrite Heq in Hr. injection Hr as <- <-.
  rewrite (LinProofs.pruned_authority _ _ _ _ _ _ Hwf Hpr Hid), (LinProofs.in_subtree _ _ _ _ Hwf He Hid).
  destruct (Lin.lookup_index r id) as [j|] eqn:E; [done|]. unfold LinProofs.authority, Lin.info. by rewrite E.
Qed.

(** Lineage identifiers are 32-bit. *)
Definition typed_lineages (w : World) : Prop :=
  (∀ o h e l, lookup_handle o h w = Ok e → he_lineage e = Some l → in_u32 l) ∧
  (∀ o a l, object_authority o (state w) = Ok (a, Some l) → in_u32 l).

(** The outcome of revoking lineage [l] for an authority bound to [bound]. *)
Definition cut_off (r : Lin.Registry) (l : Z) (bound : option Z) : bool :=
  match bound with Some l' => (l' =? l) || Lin.is_descendant_of r l' l | None => false end.

(** Revoking an object's delegations is exact: only the object's owner can do it, no
    IPC table changes, every usable handle in any process whose authority is the object's
    delegation root or was derived from it stops working with AccessDenied, and every
    other handle, the owner's own included, keeps working unchanged. *)
Theorem revoke_delegations_exact o h w w' n :
  LinProofs.wf (registry w) → typed_lineages w →
  revoke_object_delegations o h w = (w', Ok n) →
  ∃ sp entry l,
    handle_space o (state w) = Some sp ∧ lookup_raw sp.2 h = Ok entry
    ∧ object_authority (he_object entry) (state w) = Ok (o, Some l)
    ∧ state w' = state w
    ∧ ∀ p h' e, lookup_handle p h' w = Ok e →
        lookup_handle p h' w' = if cut_off (registry w) l (he_lineage e) then Err AccessDenied else Ok e.
Proof.
  intros Hwf [Hth Hto] Hr. pose proof (revoke_state o h w) as Hst. rewrite Hr in Hst. cbn [fst] in Hst. revert Hr.
  unfold revoke_object_delegations, bindM, ask, guard, throw, ret, lineage_call.
  destruct (handle_space o (state w)) as [sp|] eqn:Hsp; [|done]. cbn [ok_or rbind].
  destruct (lookup_raw sp.2 h) as [entry|] eqn:Hraw; [|done].
  destruct (object_authority (he_object entry) (state w)) as [[a lo]|] eqn:Hoa; [|done]. cbn [fst snd].
  destruct (Z.eqb_spec a o) as [->|]; cbn [negb]; [|done]. destruct lo as [l|]; [|done]. cbn [ok_or].
  pose proof (Hto _ _ _ Hoa) as Hl32.
  unfold Service.revoke_lineage_subtree, mbind, ST_bind, Service.with_lineages.
  fold (registry w). destruct (Lin.revoke_subtree (registry w) o l) as [r' [k|err]] eqn:Hrev; cbn; [|done]. intros [= <- <-].
  exists sp, entry, l. split_and!; [done..|]. intros p h' e Hlk.
  unfold lookup_handle in *. cbn [state]. destruct (handle_space p (state w)) as [sp'|] eqn:Hsp'; [|done]. cbn [ok_or rbind] in *.
  apply lookup_Ok in Hlk as [Hraw' Hun]. unfold lookup. rewrite Hraw'. cbn [rbind]. unfold registry at 1. cbn [sys Service.lineages].
  unfold cut_off, unauthorized in *. destruct (he_lineage e) as [l'|] eqn:Hle; [|done]. apply negb_false_iff in Hun.
  assert (Hl' : in_u32 l').
  { refine (Hth p h' e l' _ Hle). unfold lookup_handle. rewrite Hsp'. cbn [ok_or rbind]. unfold lookup. rewrite Hraw'. cbn [rbind].
    unfold unauthorized. by rewrite Hle, Hun. }
  rewrite authorizes_by_authority, (revoked_authority _ _ _ _ _ _ Hwf Hl32 Hl' Hrev).
  destruct ((l' =? l) || _); [done|]. by rewrite <-authorizes_by_authority, Hun.
Qed.

End IpcTransfer.

(** ** A concrete run *)
Module IpcDemo.
Import Ipc IpcInv IpcOps IpcSafety IpcTransfer.

Definition sys0 : Service.Sys := Service.mkSys Lin.new Ledger.new 0 0.

(** Process 1 makes endpoints A and B and lets process 2 receive from A. *)
Definition demo_calls : list call :=
  [CRegister 1; CRegister 2; CCreateEndpoint 1; CCreateEndpoint 1; CGrant 1 257 2 RECEIVE].
Definition play (l : list call) : World := foldl (λ w c, run c w) (initial sys0) l.
Definition demo : World := play demo_calls.

(** B travels to process 2 through A. *)
Definition sent_calls : list call := demo_calls ++ [CSendTransfer 1 257 258 SEND [104; 105]].
Definition demo_sent : World := play sent_calls.
Definition demo_received : World := run (CReceive 2 257) demo_sent.

Definition ids_left_b (w : World) : bool := next_object_id (state w) <? u64_max.

Fixpoint all_ids (w : World) (l : list call) : bool :=
  match l with [] => true | c :: l => ids_left_b w && all_ids (run c w) l end.

Lemma calls_reachable w l : all_ids w l = true → rtc step (w, []) (foldl (λ w c, run c w) w l, []).
Proof.
  revert w. induction l as [|c l IH]; intros w; cbn [all_ids foldl]; [intros; apply rtc_refl|].
  intros [H1%Z.ltb_lt H2]%andb_true_iff. eapply rtc_l; [by apply step_call|]. by apply IH.
Qed.

Lemma play_reachable l : all_ids (initial sys0) l = true → reachable sys0 (play l) [].
Proof. apply calls_reachable. Qed.

Lemma demo_sent_reachable : reachable sys0 demo_sent [].
Proof. exact (play_reachable sent_calls ltac:(vm_compute; reflexivity)). Qed.

Lemma ipc_references_exact_witness :
  references (mkRef 1 Endpoint) (state demo_sent) = 2 ∧ references (mkRef 2 Endpoint) (state demo_sent) = 2
  ∧ in_queues (mkRef 2 Endpoint) (state demo_sent) = 1 ∧ live (mkRef 2 Endpoint) (state demo_sent).
Proof.
  destruct (ipc_references_exact sys0 demo_sent [] demo_sent_reachable) as (_ & Hlive & _).
  split_and!; [vm_compute; reflexivity..|]. apply Hlive. vm_compute. reflexivity.
Defined.

(** Both processes leave while B sits in the queue of A: everything is reclaimed. *)
Definition left_calls : list call := sent_calls ++ [CUnregister 1; CUnregister 2].
Definition demo_left : World := play left_calls.

Lemma demo_left_reachable : reachable sys0 demo_left [].
Proof. exact (play_reachable left_calls ltac:(vm_compute; reflexivity)). Qed.

Lemma demo_left_holds o : rooted [] (state demo_left) o → False.
Proof.
  unfold rooted, in_spaces, in_services, in_mappings.
  replace (handle_spaces (state demo_left)) with (replicate MAX_ENDPOINTS (@None HandleSpace)) by (vm_compute; reflexivity).
  replace (services (state demo_left)) with (replicate MAX_SERVICES (@None ServiceEntry)) by (vm_compute; reflexivity).
  replace (shared_memory (state demo_left)) with (replicate MAX_SHM_OBJECTS (@None SharedMemoryObject)) by (vm_compute; reflexivity).
  rewrite !tally_replicate. cbn. lia.
Qed.

Lemma ipc_no_leak_witness : object_count (state demo_sent) = 2%nat ∧ object_count (state demo_left) = 0%nat.
Proof.
  split; [vm_compute; reflexivity|].
  destruct (ipc_no_leak sys0 demo_left [] demo_left_reachable) as [_ H]. apply H. exact demo_left_holds.
Defined.

Lemma demo_inv : inv [] demo.
Proof. exact (reachable_inv sys0 demo [] (play_reachable demo_calls ltac:(vm_compute; reflexivity))). Qed.

Lemma demo_registry : LinProofs.wf (registry demo).
Proof.
  replace (registry demo) with (LinProofs.run_op Lin.new (LinProofs.OpIssue 1 (Cap.only Cap.Ipc))) by (vm_compute; reflexivity).
  apply LinProofs.run_op_wf; [apply LinProofs.wf_new|]. vm_compute. split; congruence.
Qed.

Lemma transfer_round_trip_witness :
  ∃ e, lookup_handle 2 258 demo_received = Ok e ∧ he_object e = mkRef 2 Endpoint ∧ he_rights e = SEND.
Proof.
  destruct (transfer_round_trip [] demo demo_sent 1 257 258 SEND [104; 105] None demo_inv demo_registry)
    as (tr & ep & l & Htr & _ & Hep & _ & _ & _ & _ & Hrecv); [vm_compute; reflexivity|].
  assert (Ho : he_object ep = mkRef 1 Endpoint) by (revert Hep; vm_compute; by intros [= <-]).
  assert (Hb : he_object tr = mkRef 2 Endpoint) by (revert Htr; vm_compute; by intros [= <-]).
  destruct (Hrecv 2 257 (mkEntry (mkRef 1 Endpoint) RECEIVE 1 (Some 257) None) demo_received
    (mkMessage 1 [104; 105] (Some 258)) None) as (_ & _ & _ & h & e & Hh & He & Hobj & Hr & _);
    [rewrite Ho; vm_compute; reflexivity|vm_compute; reflexivity|by rewrite Ho|vm_compute; reflexivity|].
  injection Hh as <-. exists e. exact (conj He (conj (eq_trans Hobj Hb) Hr)).
Defined.

(** A check of [typed_lineages] on concrete tables. *)
Definition u32_b (l : option Z) : bool := match l with Some l => (0 <=? l) && (l <=? u32_max) | None => true end.
Definition typed_b (s : State) : bool :=
  forallb (λ sp, forallb (λ e, u32_b (he_lineage e)) (flatten (entries sp))) (flatten (handle_spaces s))
  && forallb (λ e, u32_b (eo_lineage e)) (flatten (objects s))
  && forallb (λ so, u32_b (so_lineage so)) (flatten (shared_memory s)).

Lemma forallb_slot {A} (p : A → bool) l i x : forallb p (flatten l) = true → l !! i = Some (Some x) → p x = true.
Proof.
  intros Hp Hi. rewrite forallb_forall in Hp. apply Hp, list_elem_of_In, elem_of_flatten. by eapply list_elem_of_lookup_2.
Qed.

Lemma u32_b_spec l : u32_b (Some l) = true → in_u32 l.
Proof. cbn. intros H. reflect_bools. done. Qed.

Lemma typed_sound w : typed_b (state w) = true → typed_lineages w.
Proof.
  unfold typed_b. intros H. reflect_bools. split.
  - intros o h e l (i & sp & k & _ & Hi & _ & Hk)%lookup_handle_Ok Hl.
    pose proof (forallb_slot _ _ _ _ H Hi) as Hs. pose proof (forallb_slot _ _ _ _ Hs Hk) as He. cbv beta in He.
    rewrite Hl in He. by apply u32_b_spec.
  - intros o a l. unfold object_authority. destruct (kind o).
    + destruct (object o (state w)) as [[i e]|] eqn:Ho; [|done]. intros [= _ Hl]. apply object_Some in Ho as [Hi _].
      match goal with Hx : forallb _ (flatten (objects _)) = true |- _ => pose proof (forallb_slot _ _ _ _ Hx Hi) as He end.
      cbv beta in He. cbn [snd] in Hl. rewrite Hl in He. by apply u32_b_spec.
    + destruct (shared_object o (state w)) as [[i e]|] eqn:Ho; [|done]. intros [= _ Hl]. apply shared_Some in Ho as [Hi _].
      match goal with Hx : forallb _ (flatten (shared_memory _)) = true |- _ => pose proof (forallb_slot _ _ _ _ Hx Hi) as He end.
      cbv beta in He. cbn [snd] in Hl. rewrite Hl in He. by apply u32_b_spec.
Qed.

(** After the revocation process 2 can no longer use its handle to A. *)
Lemma revoke_delegations_exact_witness :
  is_ok (lookup_handle 2 257 demo) = true
  ∧ lookup_handle 2 257 (run (CRevoke 1 257) demo) = Err AccessDenied.
Proof.
  split; [vm_compute; reflexivity|].
  assert (Ht : typed_lineages demo) by (apply typed_sound; vm_compute; reflexivity).
  destruct (revoke_delegations_exact 1 257 demo (run (CRevoke 1 257) demo) 1 demo_registry Ht)
    as (sp & entry & l & Hsp & Hraw & Hoa & _ & Hall); [vm_compute; reflexivity|].
  assert (Hl : l = 257).
  { revert Hsp Hraw Hoa. vm_compute. intros [= <-] [= <-]. vm_compute. by intros [= <-]. }
  subst l. rewrite (Hall 2 257 (mkEntry (mkRef 1 Endpoint) RECEIVE 1 (Some 257) None)); [|vm_compute; reflexivity].
  vm_compute. reflexivity.
Defined.

End IpcDemo.
