(* ===== verification/DeviceIo.v ===== *)
(** * Fallible code over a block device

    The storage code takes [device: &mut impl BlockDevice] and returns
    [Result<T, Error>]: a computation from a device to a device and a result, with [?]
    as its bind. This file holds that monad, its proof rules over the laws of the
    device, and the view of a disk as one array of bytes that the clients share. *)
From S2P Require Import Prelude Block.
Import Block.

Module Io.

Definition io (D E A : Type) : Type := D → D * result A E.

Definition iret {D E A} (a : A) : io D E A := λ d, (d, Ok a).
Definition ierr {D E A} (e : E) : io D E A := λ d, (d, Err e).
Definition ibind {D E A B} (m : io D E A) (k : A → io D E B) : io D E B := λ d,
  let '(d, r) := m d in
  match r with Ok a => k a d | Err e => (d, Err e) end.
Definition iresult {D E A} (r : result A E) : io D E A := λ d, (d, r).

(** Running [m] and looking at its result instead of propagating an error. *)
Definition itry {D E A} (m : io D E A) : io D E (result A E) := λ d,
  let '(d, r) := m d in (d, Ok r).

Notation "'let!' x ':=' m 'in' k" := (ibind m (λ x, k))
  (at level 10, x pattern, m at level 100, k at level 200) : woven_scope.

Section ops.
Context {D : Type} `{BlockDevice D} {E : Type} (wrap : Error → E).

(** [device.read_sector(lba, &mut sector).map_err(wrap)?] *)
Definition dread (lba : Z) (sector : list Z) : io D E (list Z) := λ d,
  let '(d, sector, r) := read_sector d lba sector in
  match r with Ok _ => (d, Ok sector) | Err e => (d, Err (wrap e)) end.

Definition dwrite (lba : Z) (sector : list Z) : io D E () := λ d,
  let '(d, r) := write_sector d lba sector in
  match r with Ok _ => (d, Ok ()) | Err e => (d, Err (wrap e)) end.

Definition dcount : io D E Z := λ d, (d, Ok (sector_count d)).

(** [for x in xs { .. }] with an accumulator. *)
Fixpoint ifold {A B} (f : B → A → io D E B) (xs : list A) (b : B) : io D E B :=
  match xs with
  | [] => iret b
  | x :: xs => let! b := f b x in ifold f xs b
  end.
End ops.

(** A fresh sector buffer. *)
Definition zeros : list Z := replicate SECTOR_SIZE 0.

(** [dst[off..off + src.len()].copy_from_slice(src)] where the callers' bounds hold. *)
Definition splice (off : nat) (src dst : list Z) : list Z :=
  take off dst ++ src ++ drop (off + length src) dst.
Definition slice (off n : nat) (s : list Z) : list Z := take n (drop off s).

(** ** Proof rules *)
Definition wp {D E A} (m : io D E A) (d : D) (Q : D → result A E → Prop) : Prop :=
  let '(d', r) := m d in Q d' r.

(** Case analysis on the next branch of a computation. *)
Ltac wp_case E := cbv zeta;
  lazymatch goal with |- wp (if ?b then _ else _) _ _ => destruct b eqn:E end.

Section rules.
Context {D E : Type}.

Lemma wp_mono {A} (m : io D E A) d (Q Q' : D → result A E → Prop) :
  wp m d Q → (∀ d' r, Q d' r → Q' d' r) → wp m d Q'.
Proof. unfold wp. destruct (m d). eauto. Qed.

Lemma wp_run {A} (m : io D E A) d Q d' r : wp m d Q → m d = (d', r) → Q d' r.
Proof. unfold wp. intros H E'. by rewrite E' in H. Qed.

(** The result alone. *)
Lemma wp_snd {A} (m : io D E A) d Q r : wp m d Q → snd (m d) = r → ∃ d', Q d' r.
Proof. unfold wp. destruct (m d) as [d' r']. simpl. intros Hq ->. eauto. Qed.
Lemma wp_value {A} (m : io D E A) d (P : D → Prop) x y :
  wp m d (λ d' r, P d' ∧ r = x) → wp m d (λ _ r, r = y) ↔ x = y.
Proof. unfold wp. destruct (m d) as [d' r]. intros [_ ->]. done. Qed.

Lemma wp_bind {A B} (m : io D E A) (k : A → io D E B) d Q :
  wp m d (λ d' r, match r with Ok a => wp (k a) d' Q | Err e => Q d' (Err e) end) →
  wp (ibind m k) d Q.
Proof. unfold wp, ibind. by destruct (m d) as [d' [a|e]]. Qed.

Lemma wp_try {A} (m : io D E A) d (Q : D → result (result A E) E → Prop) :
  wp m d (λ d' r, Q d' (Ok r)) → wp (itry m) d Q.
Proof. unfold wp, itry. by destruct (m d). Qed.

Lemma wp_ret {A} (a : A) d (Q : D → result A E → Prop) : Q d (Ok a) → wp (iret a) d Q.
Proof. done. Qed.
Lemma wp_err {A} (e : E) d (Q : D → result A E → Prop) : Q d (Err e) → wp (ierr e) d Q.
Proof. done. Qed.
Lemma wp_result {A} (r : result A E) (d : D) Q : Q d r → wp (iresult r) d Q.
Proof. done. Qed.
(** [o.ok_or(e)?] *)
Lemma wp_ok_or {A B} (o : option A) (e : E) (k : A → io D E B) d Q :
  (o = None → Q d (Err e)) → (∀ x, o = Some x → wp (k x) d Q) → wp (ibind (iresult (ok_or o e)) k) d Q.
Proof. intros Hn Hs. destruct o as [x|]; [by apply Hs|by apply Hn]. Qed.
End rules.

Section laws.
Context {D : Type} `{BlockDevice D} (ok : D → Prop) (disk : D → Z → list Z) `{!Lawful ok disk}.
Context {E : Type} (wrap : Error → E).

(** Two states of a device that no reader can tell apart. *)
Definition same (d d' : D) : Prop :=
  ok d' ∧ sector_count d' = sector_count d ∧ is_read_only d' = is_read_only d ∧
  ∀ k, 0 ≤ k < sector_count d → disk d' k = disk d k.

Lemma io_same_refl d : ok d → same d d.
Proof. intros. unfold same. by split_and!. Qed.
Lemma same_trans d1 d2 d3 : same d1 d2 → same d2 d3 → same d1 d3.
Proof.
  intros (O1 & C1 & R1 & D1) (O2 & C2 & R2 & D2). unfold same. split_and!; [done|congruence|congruence|].
  intros k Hk. rewrite D2 by (rewrite C1; lia). by apply D1.
Qed.
Lemma same_ok d d' : same d d' → ok d'.
Proof. by intros [? _]. Qed.
Lemma same_count d d' : same d d' → sector_count d' = sector_count d.
Proof. by intros (_ & ? & _). Qed.
Lemma same_disk d d' k : same d d' → 0 ≤ k < sector_count d → disk d' k = disk d k.
Proof. intros (_ & _ & _ & H'). apply H'. Qed.

(** A read leaves the device as it was and gives the sector or an error. *)
Lemma wp_read lba sector d Q :
  ok d → 0 ≤ lba →
  (∀ d' e, same d d' → Q d' (Err (wrap e))) →
  (∀ d', same d d' → lba < sector_count d → Q d' (Ok (disk d lba))) →
  wp (dread wrap lba sector) d Q.
Proof.
  intros Hok Hl He Hq. unfold wp, dread. pose proof (law_read d lba sector Hok Hl) as Hr.
  destruct (read_sector d lba sector) as [[d' out] [[]|e]].
  - destruct Hr as (? & ? & ? & ? & ? & Hx). destruct (Hx eq_refl) as (? & ? & ->).
    apply Hq; [unfold same; by split_and!|done].
  - apply He. destruct Hr as (? & ? & ? & ? & ? & _). unfold same. by split_and!.
Qed.

Lemma wp_count d (Q : D → result Z E → Prop) : Q d (Ok (sector_count d)) → wp dcount d Q.
Proof. done. Qed.

(** A write changes at most its own sector. *)
Definition written (lba : Z) (d d' : D) : Prop :=
  ok d' ∧ sector_count d' = sector_count d ∧ is_read_only d' = is_read_only d ∧
  ∀ k, 0 ≤ k < sector_count d → k ≠ lba → disk d' k = disk d k.

Lemma wp_write lba sector d Q :
  ok d → 0 ≤ lba →
  (∀ d' e, written lba d d' → Q d' (Err (wrap e))) →
  (∀ d', written lba d d' → lba < sector_count d → disk d' lba = sector → Q d' (Ok ())) →
  wp (dwrite wrap lba sector) d Q.
Proof.
  intros Hok Hl He Hq. unfold wp, dwrite. pose proof (law_write d lba sector Hok Hl) as Hr.
  destruct (write_sector d lba sector) as [d' [[]|e]].
  - destruct Hr as (? & ? & ? & ? & Hx). destruct (Hx eq_refl) as (? & ? & ?).
    apply Hq; [unfold written; by split_and!|done..].
  - apply He. destruct Hr as (? & ? & ? & ? & _). unfold written. by split_and!.
Qed.
End laws.

(** ** Devices that do not fault: every access in range succeeds *)
Class Reliable {D} `{BlockDevice D} (ok : D → Prop) : Prop := {
  reliable_read d l out : ok d → 0 ≤ l < sector_count d → length out = SECTOR_SIZE →
    snd (read_sector d l out) = Ok ();
  reliable_write d l data : ok d → is_read_only d = false → 0 ≤ l < sector_count d →
    length data = SECTOR_SIZE → snd (write_sector d l data) = Ok ()
}.

#[export] Instance ram_reliable : Reliable ram_ok.
Proof.
  split.
  - intros d l out _ Hl Hlen. simpl in *. unfold ram_read_sector. rewrite Hlen, Nat.eqb_refl. simpl.
    destruct (sectors d !! Z.to_nat l) eqn:E; [done|]. apply lookup_ge_None in E. lia.
  - intros d l data _ Hro Hl Hlen. simpl in *. unfold ram_write_sector. rewrite Hlen, Nat.eqb_refl, Hro. simpl.
    destruct (sectors d !! Z.to_nat l) eqn:E; [done|]. apply lookup_ge_None in E. lia.
Qed.

Section reliable.
Context {D : Type} `{BlockDevice D} (ok : D → Prop) (disk : D → Z → list Z) `{!Lawful ok disk}.
Context {E : Type} (wrap : Error → E).

(** Accesses in range: only a device that is not reliable fails them. *)
Lemma wp_read_in lba sector d Q :
  ok d → 0 ≤ lba < sector_count d → length sector = SECTOR_SIZE →
  (∀ d' e, same ok disk d d' → ¬ Reliable ok → Q d' (Err (wrap e))) →
  (∀ d', same ok disk d d' → Q d' (Ok (disk d lba))) →
  wp (dread wrap lba sector) d Q.
Proof.
  intros Hok Hl Hs He Hq. pose proof (law_read d lba sector Hok ltac:(lia)) as Hx. unfold wp, dread.
  destruct (read_sector d lba sector) as [[d' out] [[]|e]] eqn:Er.
  - destruct Hx as (? & ? & ? & ? & ? & Hx). destruct (Hx eq_refl) as (? & ? & ->).
    apply Hq. unfold same. by split_and!.
  - destruct Hx as (? & ? & ? & ? & ? & _). apply He; [unfold same; by split_and!|].
    intros HR. pose proof (reliable_read d lba sector Hok Hl Hs) as Hr. by rewrite Er in Hr.
Qed.

Lemma wp_write_in lba sector d Q :
  ok d → 0 ≤ lba < sector_count d → length sector = SECTOR_SIZE →
  (∀ d' e, written ok disk lba d d' → ¬ Reliable ok ∨ is_read_only d = true → Q d' (Err (wrap e))) →
  (∀ d', written ok disk lba d d' → disk d' lba = sector → Q d' (Ok ())) →
  wp (dwrite wrap lba sector) d Q.
Proof.
  intros Hok Hl Hs He Hq. pose proof (law_write d lba sector Hok ltac:(lia)) as Hx. unfold wp, dwrite.
  destruct (write_sector d lba sector) as [d' [[]|e]] eqn:Er.
  - destruct Hx as (? & ? & ? & ? & Hx). destruct (Hx eq_refl) as (? & ? & ?).
    apply Hq; [unfold written; by split_and!|done].
  - destruct Hx as (? & ? & ? & ? & _). apply He; [unfold written; by split_and!|].
    destruct (is_read_only d) eqn:Hro; [by right|left]. intros HR.
    pose proof (reliable_write d lba sector Hok Hro Hl Hs) as Hr. by rewrite Er in Hr.
Qed.
End reliable.

(** ** The disk as one array of bytes *)
Section bytes.
Context (sector : Z → list Z).

(** [count] bytes from byte address [start], for sectors of [SECTOR_SIZE] bytes. *)
Definition disk_byte (a : Z) : Z :=
  default 0 (sector (a / Z.of_nat SECTOR_SIZE) !! Z.to_nat (a mod Z.of_nat SECTOR_SIZE)).
Definition disk_bytes (start : Z) (count : nat) : list Z :=
  (λ i : nat, disk_byte (start + Z.of_nat i)) <$> seq 0 count.

Lemma length_disk_bytes start count : length (disk_bytes start count) = count.
Proof. unfold disk_bytes. by rewrite length_fmap, length_seq. Qed.

Lemma disk_bytes_app start n m :
  disk_bytes start (n + m) = disk_bytes start n ++ disk_bytes (start + Z.of_nat n) m.
Proof.
  unfold disk_bytes. rewrite seq_app, fmap_app. f_equal. simpl.
  rewrite <-(Nat.add_0_r n) at 1. rewrite <-fmap_add_seq, <-list_fmap_compose.
  apply list_fmap_ext. intros i x _. simpl. f_equal. lia.
Qed.

(** A slice of one sector. *)
Lemma disk_bytes_slice a n :
  0 ≤ a → length (sector (a / Z.of_nat SECTOR_SIZE)) = SECTOR_SIZE →
  (Z.to_nat (a mod Z.of_nat SECTOR_SIZE) + n ≤ SECTOR_SIZE)%nat →
  take n (drop (Z.to_nat (a mod Z.of_nat SECTOR_SIZE)) (sector (a / Z.of_nat SECTOR_SIZE))) =
  disk_bytes a n.
Proof.
  intros Ha Hlen Hn. change (Z.of_nat SECTOR_SIZE) with 512 in *. apply list_eq. intros i.
  unfold disk_bytes, disk_byte. change (Z.of_nat SECTOR_SIZE) with 512.
  rewrite list_lookup_fmap. destruct (decide (i < n)%nat) as [Hi|Hi].
  - rewrite lookup_take_lt by done. rewrite lookup_drop, lookup_seq_lt by done. simpl.
    pose proof (Z.mod_pos_bound a 512 ltac:(lia)).
    assert (Hd : (a + Z.of_nat i) / 512 = a / 512) by (unfold SECTOR_SIZE in *; Z.to_euclidean_division_equations; lia).
    assert (Hm : (a + Z.of_nat i) mod 512 = a mod 512 + Z.of_nat i)
      by (unfold SECTOR_SIZE in *; Z.to_euclidean_division_equations; lia).
    rewrite Hd, Hm, Z2Nat.inj_add, Nat2Z.id by lia.
    destruct (lookup_lt_is_Some_2 (sector (a / 512)) (Z.to_nat (a mod 512) + i)) as [x Hx]; [lia|].
    by rewrite Hx.
  - rewrite lookup_take_ge by lia. rewrite lookup_seq_ge by lia. done.
Qed.
End bytes.

Lemma disk_bytes_ext f g start n :
  (∀ i, (i < n)%nat → f ((start + Z.of_nat i) / 512) = g ((start + Z.of_nat i) / 512)) →
  disk_bytes f start n = disk_bytes g start n.
Proof.
  intros He. unfold disk_bytes. apply list_fmap_ext. intros i x Hx.
  apply lookup_seq in Hx as [-> Hx]. unfold disk_byte. change (Z.of_nat SECTOR_SIZE) with 512.
  rewrite Nat.add_0_l. by rewrite (He _ Hx).
Qed.

End Io.
