(* ===== verification/Bytes.v ===== *)
(** * Byte buffers

    Slices, in-place copies, big-endian words and chunks of byte buffers, as the on-disk
    and on-air formats of the kernel use them. *)
From S2P Require Import Prelude Block DeviceIo.
Import Block Io.

Module Bytes.

(** ** Slices and copies *)
Lemma byte_at_splice off src dst i :
  (off + length src ≤ length dst)%nat →
  byte_at (splice off src dst) i =
    if decide (off ≤ i < off + length src)%nat then byte_at src (i - off) else byte_at dst i.
Proof.
  intros Hl. unfold byte_at, splice. case_decide as Hi.
  - rewrite lookup_app_r by (rewrite length_take; lia). rewrite length_take, Nat.min_l by lia.
    by rewrite lookup_app_l by lia.
  - destruct (decide (i < off)%nat).
    + rewrite lookup_app_l by (rewrite length_take; lia). by rewrite lookup_take_lt by lia.
    + rewrite lookup_app_r by (rewrite length_take; lia). rewrite length_take, Nat.min_l by lia.
      rewrite lookup_app_r by lia. rewrite lookup_drop. f_equal. f_equal. lia.
Qed.

Lemma length_splice off src dst : (off + length src ≤ length dst)%nat → length (splice off src dst) = length dst.
Proof. intros Hl. unfold splice. rewrite !length_app, length_take, length_drop. lia. Qed.

Lemma byte_at_slice s off n i : (i < n)%nat → byte_at (slice off n s) i = byte_at s (off + i).
Proof. intros Hi. unfold byte_at, slice. by rewrite lookup_take_lt, lookup_drop by lia. Qed.

Lemma slice_splice_eq off src dst n :
  length src = n → (off + n ≤ length dst)%nat → slice off n (splice off src dst) = src.
Proof.
  intros <- Hl. unfold slice, splice. rewrite drop_app_length' by (rewrite length_take; lia). by rewrite take_app_length.
Qed.

Lemma slice_splice_ne off off' src dst n :
  (off + length src ≤ length dst)%nat → (off' + n ≤ off ∨ off + length src ≤ off')%nat →
  slice off' n (splice off src dst) = slice off' n dst.
Proof.
  intros Hl Hd. apply list_eq. intros i. unfold slice. destruct (decide (i < n)%nat).
  - rewrite !lookup_take_lt, !lookup_drop by done. unfold splice. destruct Hd as [Hd|Hd].
    + rewrite lookup_app_l by (rewrite length_take; lia). by rewrite lookup_take_lt by lia.
    + rewrite lookup_app_r by (rewrite length_take; lia). rewrite length_take, Nat.min_l by lia.
      rewrite lookup_app_r by lia. rewrite lookup_drop. f_equal. lia.
  - by rewrite !lookup_take_ge by lia.
Qed.

Lemma slice_app_l a n m (l : list Z) :
  slice a n l ++ slice (a + n) m l = slice a (n + m) l.
Proof.
  unfold slice. rewrite <-drop_drop. apply take_take_drop.
Qed.

Lemma length_slice a n (l : list Z) : (a + n ≤ length l)%nat → length (slice a n l) = n.
Proof. intros. unfold slice. rewrite length_take, length_drop. lia. Qed.

Lemma slice_splice_in off n i src dst :
  (i + length src ≤ n)%nat → (off + n ≤ length dst)%nat →
  slice off n (splice (off + i) src dst) = splice i src (slice off n dst).
Proof.
  intros Hi Hl. apply list_eq. intros j. unfold slice, splice. destruct (decide (j < n)%nat) as [Hj|Hj].
  - rewrite lookup_take_lt, lookup_drop by done. destruct (decide (j < i)%nat).
    { rewrite !lookup_app_l by (rewrite !length_take, ?length_drop; lia).
      by rewrite !lookup_take_lt, lookup_drop by lia. }
    rewrite lookup_app_r by (rewrite length_take; lia). rewrite length_take, Nat.min_l by lia.
    rewrite (lookup_app_r (take i _)) by (rewrite !length_take, length_drop; lia). rewrite !length_take, length_drop.
    replace (off + j - (off + i))%nat with (j - i)%nat by lia.
    replace (j - Nat.min i (Nat.min n (length dst - off)))%nat with (j - i)%nat by lia.
    destruct (decide (j - i < length src)%nat).
    + by rewrite !lookup_app_l by lia.
    + rewrite !lookup_app_r by lia. rewrite !lookup_drop, lookup_take_lt, lookup_drop by lia. f_equal. lia.
  - rewrite !lookup_ge_None_2; [done|..]; rewrite ?length_app, ?length_take, ?length_drop, ?length_app, ?length_take, ?length_drop; lia.
Qed.

Lemma byte_at_bound s i : Forall is_byte s → 0 ≤ byte_at s i < 256.
Proof.
  intros Hs. unfold byte_at. destruct (s !! i) eqn:E; simpl; [|lia].
  pose proof (Forall_lookup_1 _ _ _ _ Hs E) as Hz. unfold is_byte, u8_max in Hz. lia.
Qed.

(** [bytes.get(off..off + n)]. *)
Definition get (off n : nat) (s : list Z) : option (list Z) :=
  if (off + n <=? length s)%nat then Some (slice off n s) else None.

Lemma get_Some off n s : (off + n ≤ length s)%nat → get off n s = Some (slice off n s).
Proof. intros. unfold get. by rewrite (proj2 (Nat.leb_le _ _)). Qed.

Lemma get_inv off n s x : get off n s = Some x → x = slice off n s ∧ (off + n ≤ length s)%nat.
Proof. unfold get. destruct (Nat.leb_spec (off + n) (length s)); [|done]. by intros [= <-]. Qed.

Lemma splice_prefix n src dst : (length src ≤ length dst)%nat → length src = n → take n (splice 0 src dst) = src.
Proof. intros _ <-. unfold splice. by rewrite take_0, app_nil_l, take_app_length. Qed.

Lemma splice_nil off dst : splice off [] dst = dst.
Proof. unfold splice. cbn [length]. rewrite Nat.add_0_r. apply take_drop. Qed.

Lemma splice_app off x y dst :
  (off + length x + length y ≤ length dst)%nat → splice (off + length x) y (splice off x dst) = splice off (x ++ y) dst.
Proof.
  intros Hl. unfold splice. rewrite length_app.
  rewrite (app_assoc (take off dst) x), take_app_length' by (rewrite length_app, length_take; lia).
  rewrite drop_app_ge by (rewrite length_app, length_take; lia).
  rewrite length_app, length_take, Nat.min_l by lia. rewrite drop_drop, <-!app_assoc. do 4 f_equal. lia.
Qed.

Lemma splice_mid off a x y b :
  length a = off → length x = length y → splice off x (a ++ y ++ b) = a ++ x ++ b.
Proof.
  intros <- Hxy. unfold splice. rewrite take_app_length. f_equal. f_equal.
  rewrite Hxy, app_assoc. apply drop_app_length'. by rewrite length_app.
Qed.

(** A copy inside the front part that was copied before. *)
Lemma splice_front off src x dst :
  (off + length src ≤ length x)%nat → (length x ≤ length dst)%nat →
  splice off src (splice 0 x dst) = splice 0 (splice off src x) dst.
Proof.
  intros Hs Hx. unfold splice. rewrite !take_0, !app_nil_l. rewrite take_app_le, drop_app_le by lia.
  rewrite !length_app, length_take, length_drop.
  replace (0 + (off `min` length x + (length src + (length x - (off + length src)))))%nat with (0 + length x)%nat by lia.
  by rewrite <-!app_assoc.
Qed.

Lemma insert_front i v x dst :
  (i < length x)%nat → (length x ≤ length dst)%nat → <[i := v]> (splice 0 x dst) = splice 0 (<[i := v]> x) dst.
Proof. intros Hi Hx. unfold splice. rewrite !take_0, !app_nil_l, length_insert. by apply insert_app_l. Qed.

Lemma slice_all n (s : list Z) : length s = n → slice 0 n s = s.
Proof. intros <-. unfold slice. rewrite drop_0. by apply take_ge. Qed.

Lemma slice_take off n m (s : list Z) : (off + n ≤ m)%nat → slice off n (take m s) = slice off n s.
Proof. intros. unfold slice. rewrite skipn_firstn_comm, take_take. f_equal. lia. Qed.

Lemma Forall_slice (P : Z → Prop) off n s : Forall P s → Forall P (slice off n s).
Proof. intros. unfold slice. by apply Forall_take, Forall_drop. Qed.

Lemma Forall_splice (P : Z → Prop) off src dst : Forall P src → Forall P dst → Forall P (splice off src dst).
Proof. intros. unfold splice. rewrite !Forall_app. split_and!; [by apply Forall_take|done|by apply Forall_drop]. Qed.

(** ** Bits of bytes *)
Lemma lxor_bound k x y : 0 ≤ k → 0 ≤ x < 2 ^ k → 0 ≤ y < 2 ^ k → 0 ≤ Z.lxor x y < 2 ^ k.
Proof.
  intros Hk Hx Hy. assert (Hxy : 0 ≤ Z.lxor x y) by (apply Z.lxor_nonneg; lia). split; [done|].
  destruct (decide (Z.lxor x y = 0)) as [->|Hne]; [lia|]. apply Z.log2_lt_pow2; [lia|].
  eapply Z.le_lt_trans; [apply Z.log2_lxor; lia|].
  assert (Hl : ∀ z, 0 ≤ z < 2 ^ k → z ≠ 0 → Z.log2 z < k) by (intros z Hz Hne'; apply Z.log2_lt_pow2; lia).
  destruct (decide (x = 0)) as [->|], (decide (y = 0)) as [->|]; try done; apply Z.max_lub_lt; (by apply Hl) || (cbn; destruct (decide (k = 0)); [subst; lia|lia]).
Qed.

Lemma lxor_byte x y : is_byte x → is_byte y → is_byte (Z.lxor x y).
Proof. unfold is_byte, u8_max. intros Hx Hy. pose proof (lxor_bound 8 x y). lia. Qed.

Lemma lor_byte x y : is_byte x → is_byte y → is_byte (Z.lor x y).
Proof.
  unfold is_byte, u8_max. intros Hx Hy. assert (Hm : ∀ z, 0 ≤ z ≤ 255 ↔ z = Z.land z (Z.ones 8)).
  { intros z. rewrite Z.land_ones by lia. pose proof (Z.mod_pos_bound z (2 ^ 8)). split; [intros; symmetry; apply Z.mod_small|]; lia. }
  apply Hm. rewrite Z.land_lor_distr_l. by rewrite <-!(proj1 (Hm _)) by done.
Qed.

Lemma lxor_cancel x y : Z.lxor (Z.lxor x y) y = x.
Proof. by rewrite Z.lxor_assoc, Z.lxor_nilpotent, Z.lxor_0_r. Qed.

Lemma lxor_interchange a b c d : Z.lxor (Z.lxor a b) (Z.lxor c d) = Z.lxor (Z.lxor a c) (Z.lxor b d).
Proof. by rewrite !Z.lxor_assoc, <-(Z.lxor_assoc b), (Z.lxor_comm b c), Z.lxor_assoc. Qed.

(** Two buffers, byte by byte. *)
Definition xor_bytes (a b : list Z) : list Z := zip_with Z.lxor a b.

Lemma length_xor_bytes a b : (length a ≤ length b)%nat → length (xor_bytes a b) = length a.
Proof. intros. unfold xor_bytes. rewrite length_zip_with. lia. Qed.

Lemma xor_bytes_cancel a b : (length a ≤ length b)%nat → xor_bytes (xor_bytes a b) b = a.
Proof.
  revert b. induction a as [|x a IH]; intros [|y b] Hl; try done; simpl in Hl; [lia|].
  unfold xor_bytes in *. simpl. rewrite lxor_cancel. f_equal. apply IH. lia.
Qed.

Lemma xor_bytes_byte a b : Forall is_byte a → Forall is_byte b → Forall is_byte (xor_bytes a b).
Proof.
  intros Ha. revert b. induction Ha as [|x a Hx Ha IH]; intros b Hb; [done|].
  destruct Hb as [|y b Hy Hb]; [done|]. constructor; [by apply lxor_byte|by apply IH].
Qed.

(** ** Big-endian words *)
Definition to_be_bytes (n : nat) (x : Z) : list Z := reverse (to_le_bytes n x).
Definition from_be_bytes (bs : list Z) : Z := from_le_bytes (reverse bs).

Lemma length_to_be_bytes n x : length (to_be_bytes n x) = n.
Proof. unfold to_be_bytes. by rewrite length_reverse, length_to_le_bytes. Qed.

Lemma from_to_be_bytes n x : 0 ≤ x < 256 ^ Z.of_nat n → from_be_bytes (to_be_bytes n x) = x.
Proof.
  intros Hx. unfold from_be_bytes, to_be_bytes. rewrite reverse_involutive, from_to_le_bytes by lia.
  by apply Z.mod_small.
Qed.

Lemma to_from_le_bytes bs : Forall is_byte bs → to_le_bytes (length bs) (from_le_bytes bs) = bs.
Proof.
  induction 1 as [|b bs Hb _ IH]; [done|]. cbn [from_le_bytes to_le_bytes length]. unfold is_byte, u8_max in Hb.
  rewrite Z.mul_comm, Z.mod_add, Z.div_add by lia. by rewrite Z.mod_small, Z.div_small, Z.add_0_l, IH by lia.
Qed.

Lemma to_from_be_bytes n bs : length bs = n → Forall is_byte bs → to_be_bytes n (from_be_bytes bs) = bs.
Proof.
  intros <- Hb. unfold to_be_bytes, from_be_bytes. rewrite <-length_reverse, to_from_le_bytes by by apply Forall_reverse.
  by rewrite reverse_involutive.
Qed.

Lemma to_le_bytes_byte n x : 0 ≤ x → Forall is_byte (to_le_bytes n x).
Proof.
  revert x. induction n as [|n IH]; intros x Hx; [done|]. cbn [to_le_bytes]. constructor.
  - unfold is_byte, u8_max. pose proof (Z.mod_pos_bound x 256). lia.
  - apply IH. by apply Z.div_pos.
Qed.

Lemma to_be_bytes_byte n x : 0 ≤ x → Forall is_byte (to_be_bytes n x).
Proof. intros. by apply Forall_reverse, to_le_bytes_byte. Qed.

Lemma from_be_bytes_bound bs : Forall is_byte bs → 0 ≤ from_be_bytes bs < 256 ^ Z.of_nat (length bs).
Proof. intros Hb. unfold from_be_bytes. rewrite <-length_reverse. by apply from_le_bytes_bound, Forall_reverse. Qed.

(** Steps that are undone in the opposite order. *)
Lemma foldl_inverse {S X} (P : S → Prop) (Q : X → Prop) (f g : S → X → S) :
  (∀ s x, P s → Q x → P (f s x) ∧ g (f s x) x = s) →
  ∀ l s, P s → Forall Q l → P (foldl f s l) ∧ foldl g (foldl f s l) (reverse l) = s.
Proof.
  intros Hfg l. induction l as [|x l IH]; intros s Hs Hl; [done|]. apply Forall_cons in Hl as [Hx Hl]. cbn [foldl].
  destruct (Hfg s x Hs Hx) as [Hf Hg]. destruct (IH _ Hf Hl) as [IH1 IH2]. split; [done|].
  by rewrite reverse_cons, foldl_app, IH2.
Qed.

(** ** Words assembled with shifts *)
Lemma lor_step a b k : 0 ≤ k → 0 ≤ b < 256 → Z.lor (Z.shiftl a (k + 8)) (Z.shiftl b k) = Z.shiftl (a * 256 + b) k.
Proof.
  intros Hk Hb. replace (k + 8) with (8 + k) by lia. rewrite <-Z.shiftl_shiftl by lia. rewrite <-Z.shiftl_lor. f_equal.
  assert (H0 : Z.land (Z.shiftl a 8) b = 0).
  { apply Z.bits_inj'. intros n Hn. rewrite Z.land_spec, Z.bits_0.
    destruct (Z.lt_ge_cases n 8) as [Hlt|Hge]; [by rewrite Z.shiftl_spec_low|].
    rewrite <-(Z.mod_small b (2 ^ 8)) by lia. rewrite Z.mod_pow2_bits_high by lia. apply andb_false_r. }
  rewrite <-Z.lxor_lor by done. rewrite <-Z.add_nocarry_lxor by done.
  rewrite Z.shiftl_mul_pow2 by lia. change (2 ^ 8) with 256. lia.
Qed.

(** ** [chunks(16)] *)
Fixpoint chunks_loop (fuel : nat) (s : list Z) : list (list Z) :=
  match fuel, s with
  | S fuel, _ :: _ => take 16 s :: chunks_loop fuel (drop 16 s)
  | _, _ => []
  end.
Definition chunks (s : list Z) : list (list Z) := chunks_loop (length s) s.

Lemma chunks_loop_spec fuel s :
  (length s ≤ fuel)%nat → concat (chunks_loop fuel s) = s ∧ Forall (λ c, length c ≤ 16)%nat (chunks_loop fuel s).
Proof.
  revert s. induction fuel as [|fuel IH]; intros [|x s] Hl; try done; simpl in Hl; [lia|].
  cbn [chunks_loop concat]. destruct (IH (drop 16 (x :: s))) as [Hc HF]; [rewrite length_drop; cbn [length]; lia|].
  split.
  - rewrite Hc. apply take_drop.
  - constructor; [rewrite length_take; lia|done].
Qed.

(** Chunks transformed in place, one at a time, keep their boundaries. *)
Lemma chunks_loop_imap (f : nat → list Z → list Z) fuel s k :
  (∀ i c, (length c ≤ 16)%nat → length (f i c) = length c) → (length s ≤ fuel)%nat →
  chunks_loop fuel (concat (imap (λ i, f (k + i)%nat) (chunks_loop fuel s))) = imap (λ i, f (k + i)%nat) (chunks_loop fuel s) ∧
  length (concat (imap (λ i, f (k + i)%nat) (chunks_loop fuel s))) = length s.
Proof.
  intros Hf. revert s k. induction fuel as [|fuel IH]; intros [|x s] k Hl; try done; simpl in Hl; [lia|].
  set (c := take 16 (x :: s)). set (t := drop 16 (x :: s)).
  assert (Hc : (1 ≤ length c ≤ 16)%nat) by (subst c; rewrite length_take; cbn [length]; lia).
  assert (Ht : (length t ≤ fuel)%nat) by (subst t; rewrite length_drop; cbn [length]; lia).
  assert (Hct : (length c + length t = S (length s))%nat).
  { subst c t. change (S (length s)) with (length (x :: s)). rewrite <-(take_drop 16 (x :: s)) at 3. by rewrite length_app. }
  assert (Ht0 : (length c < 16)%nat → t = []).
  { intros Hlt. apply length_zero_iff_nil. subst c t. rewrite length_take in Hlt. rewrite length_drop. lia. }
  destruct (IH t (S k) Ht) as [IH1 IH2]. cbn [chunks_loop]. fold c t.
  assert (Himap : imap (λ i, f (k + i)%nat) (c :: chunks_loop fuel t) = f k c :: imap (λ i, f (S k + i)%nat) (chunks_loop fuel t)).
  { cbn [imap]. rewrite Nat.add_0_r. f_equal. apply imap_ext. intros i y _. simpl. f_equal. lia. }
  rewrite Himap. cbn [concat]. set (rest := concat _) in *. rewrite length_app, Hf, IH2 by lia. split; [|cbn [length]; lia].
  destruct (f k c ++ rest) as [|y l] eqn:E.
  { apply (f_equal length) in E. rewrite length_app, Hf in E by lia. cbn [length] in E. lia. }
  rewrite <-E. clear E y l. assert (Hlen : length (f k c) = length c) by (apply Hf; lia). f_equal.
  - destruct (decide (length c = 16)%nat) as [H16|H16].
    + rewrite take_app_le, take_ge by lia. done.
    + rewrite (Ht0 ltac:(lia)) in IH2. apply length_zero_iff_nil in IH2. rewrite IH2, app_nil_r. apply take_ge. lia.
  - rewrite <-IH1. f_equal. destruct (decide (length c = 16)%nat) as [H16|H16].
    + by rewrite drop_app_length' by lia.
    + rewrite (Ht0 ltac:(lia)) in IH2. apply length_zero_iff_nil in IH2. rewrite IH2, app_nil_r. apply drop_ge. lia.
Qed.

End Bytes.
