(* ===== verification/VolumeCrypto.v ===== *)
(** * Encrypted volume records: volume_crypto.rs

    ChaCha20 with a detached tag, and the vault that keeps the keys behind handles.
    Poly1305, which comes from a crate, is a parameter: the tag of the padded blocks under
    a one-time key. *)
From S2P Require Import Prelude Block DeviceIo Bytes.
Import Block Io Bytes.

Module VolumeCrypto.

Definition KEY_SIZE : nat := 32.
Definition TAG_SIZE : nat := 16.
Definition MAX_KEYS : nat := 8.

Definition constant_time_eq (left right : list Z) : bool :=
  if negb (length left =? length right)%nat then false else foldl Z.lor 0 (xor_bytes left right) =? 0.

(** ** ChaCha20 *)
Definition wrapping_add32 (x y : Z) : Z := as_u32 (x + y).
Definition rotate_left (n x : Z) : Z := Z.lor (as_u32 (Z.shiftl x n)) (Z.shiftr x (32 - n)).
Definition load32 (bytes : list Z) : Z := from_le_bytes (take 4 bytes).
Definition word (state : list Z) (i : nat) : Z := default 0 (state !! i).

(** [state[a] = state[a].wrapping_add(state[b]); state[d] ^= state[a]; state[d] = ..rotate_left(n)] *)
Definition mix_words (a b d : nat) (n : Z) (state : list Z) : list Z :=
  let state := <[a := wrapping_add32 (word state a) (word state b)]> state in
  <[d := rotate_left n (Z.lxor (word state d) (word state a))]> state.

Definition quarter_round (state : list Z) (abcd : nat * nat * nat * nat) : list Z :=
  let '(a, b, c, d) := abcd in
  mix_words c d b 7 (mix_words a b d 8 (mix_words c d b 12 (mix_words a b d 16 state))).

Definition double_round (state : list Z) : list Z :=
  foldl quarter_round state
    [(0, 4, 8, 12); (1, 5, 9, 13); (2, 6, 10, 14); (3, 7, 11, 15); (0, 5, 10, 15); (1, 6, 11, 12); (2, 7, 8, 13); (3, 4, 9, 14)]%nat.

Definition CONSTANTS : list Z := [0x61707865; 0x3320646e; 0x79622d32; 0x6b206574].
Definition initial_state (key nonce : list Z) (counter : Z) : list Z :=
  CONSTANTS ++ ((λ i, load32 (drop (i * 4) key)) <$> seq 0 8) ++ [counter] ++ ((λ i, load32 (drop (i * 4) nonce)) <$> seq 0 3).

Definition chacha_block (key nonce : list Z) (counter : Z) : list Z :=
  let original := initial_state key nonce counter in
  let state := Nat.iter 10 double_round original in
  mjoin ((λ i, to_le_bytes 4 (wrapping_add32 (word state i) (word original i))) <$> seq 0 16).

(** [data.chunks_mut(64)] in order, each with the block of its index. *)
Fixpoint xor_loop (fuel : nat) (key nonce : list Z) (counter : Z) (block_index : nat) (data : list Z) : list Z :=
  match fuel, data with
  | S fuel, _ :: _ =>
      let stream := chacha_block key nonce (wrapping_add32 counter (as_u32 (Z.of_nat block_index))) in
      xor_bytes (take 64 data) stream ++ xor_loop fuel key nonce counter (S block_index) (drop 64 data)
  | _, _ => []
  end.
Definition xor_stream (key nonce : list Z) (counter : Z) (data : list Z) : list Z := xor_loop (length data) key nonce counter 0 data.

(** ** The vault *)
Record KeySlot := mkSlot { generation : Z; in_use : bool; owner : Z; slot_key : list Z }.
Definition EMPTY : KeySlot := mkSlot 0 false 0 (replicate KEY_SIZE 0).
Definition wipe (s : KeySlot) : KeySlot := mkSlot (generation s) false (owner s) (replicate KEY_SIZE 0).

Record KeyVault := mkVault { slots : list KeySlot; next_generation : Z }.
Definition vault_new : KeyVault := mkVault (replicate MAX_KEYS EMPTY) 1.

(** [KeyHandle]: the generation above the slot number. *)
Abbreviation KeyHandle := Z.
Definition handle_of (slot : nat) (generation : Z) : KeyHandle := Z.lor (Z.shiftl generation 8) (Z.of_nat slot).
Definition handle_slot (h : KeyHandle) : nat := Z.to_nat (Z.land h 0xff).
Definition handle_generation (h : KeyHandle) : Z := as_u32 (Z.shiftr h 8).

Definition provision (o : Z) (key : list Z) (v : KeyVault) : option (KeyHandle * KeyVault) :=
  if negb (any (λ b, negb (b =? 0)) key) then None
  else
  slot ← position (λ s, negb (in_use s)) (slots v);
  let g := next_generation v in
  let '(g, next) := if g =? 0 then (1, 2) else (g, wrapping_add32 g 1) in
  Some (handle_of slot g, mkVault (<[slot := mkSlot g true o key]> (slots v)) next).

Definition lookup (o : Z) (h : KeyHandle) (v : KeyVault) : option (list Z) :=
  entry ← slots v !! handle_slot h;
  if in_use entry && (owner entry =? o) && (generation entry =? handle_generation h) then Some (slot_key entry) else None.

Definition revoke (o : Z) (h : KeyHandle) (v : KeyVault) : KeyVault * bool :=
  match slots v !! handle_slot h with
  | None => (v, false)
  | Some entry =>
      if negb (in_use entry) || negb (owner entry =? o) || negb (generation entry =? handle_generation h) then (v, false)
      else
      let e := wipe entry in
      (mkVault (<[handle_slot h := mkSlot (generation e) (in_use e) 0 (slot_key e)]> (slots v)) (next_generation v), true)
  end.

(** ** Sealing *)
Definition nonce_bytes (nonce : Z) : list Z := replicate 4 0 ++ to_le_bytes 8 nonce.

Section sealing.
Context (poly1305 : list Z → list Z → list Z).

(** [update_padded]: zeros up to a full block of 16 bytes. *)
Definition pad16 (bs : list Z) : list Z := bs ++ replicate ((16 - length bs mod 16) mod 16) 0.

Definition authentication_tag (key nonce aad ciphertext : list Z) : list Z :=
  let block0 := chacha_block key nonce 0 in
  poly1305 (take 32 block0)
    (pad16 aad ++ pad16 ciphertext ++ to_le_bytes 8 (Z.of_nat (length aad)) ++ to_le_bytes 8 (Z.of_nat (length ciphertext))).

(** The data after the call, and the tag. *)
Definition seal (key : list Z) (nonce : Z) (aad data : list Z) : list Z * option (list Z) :=
  let n := nonce_bytes nonce in
  let data := xor_stream key n 1 data in
  (data, Some (authentication_tag key n aad data)).

Definition open (key : list Z) (nonce : Z) (aad data tag : list Z) : list Z * bool :=
  let n := nonce_bytes nonce in
  let expected := authentication_tag key n aad data in
  if negb (constant_time_eq expected tag) then (data, false) else (xor_stream key n 1 data, true).

Definition seal_with_owner (o : Z) (h : KeyHandle) (nonce : Z) (aad data : list Z) (v : KeyVault) : list Z * option (list Z) :=
  match lookup o h v with None => (data, None) | Some key => seal key nonce aad data end.
Definition open_with_owner (o : Z) (h : KeyHandle) (nonce : Z) (aad data tag : list Z) (v : KeyVault) : list Z * bool :=
  match lookup o h v with None => (data, false) | Some key => open key nonce aad data tag end.
Definition seal_with_handle := seal_with_owner 0.
Definition open_with_handle := open_with_owner 0.

(** ** The self test *)
Definition rfc_key : list Z := (λ i, 0x80 + Z.of_nat i) <$> seq 0 32.
Definition rfc_nonce : list Z := [0x07; 0; 0; 0; 0x40; 0x41; 0x42; 0x43; 0x44; 0x45; 0x46; 0x47].
Definition rfc_aad : list Z := [0x50; 0x51; 0x52; 0x53; 0xc0; 0xc1; 0xc2; 0xc3; 0xc4; 0xc5; 0xc6; 0xc7].
Definition rfc_data : list Z := bytes "Ladies and Gentlemen of the class of '99: If I could offer you only one tip for the future, sunscreen would be it.".
Definition rfc_tag : list Z := [0x1a; 0xe1; 0x0b; 0x59; 0x4f; 0x09; 0xe2; 0x6a; 0x7e; 0x90; 0x2e; 0xcb; 0xd0; 0x60; 0x06; 0x91].

Definition test_key : list Z := replicate KEY_SIZE 0x42.
Definition original : list Z := bytes "volume metadata and payload".
Definition header : list Z := bytes "header".

Definition seal_part : bool :=
  match seal test_key 9 header original with
  | (data, Some tag) =>
      let wrong_tag := <[0%nat := Z.lxor (byte_at tag 0) 1]> tag in
      let '(data1, r1) := open test_key 9 header data wrong_tag in
      let '(data2, r2) := open test_key 9 (bytes "wrong") data1 tag in
      let '(data3, r3) := open test_key 9 header data2 tag in
      negb (bool_decide (data = original)) && negb r1 && negb r2 && r3 && bool_decide (data3 = original)
  | _ => false
  end.

Definition vault_part (v : KeyVault) : bool :=
  match provision 1000 test_key v with
  | None => false
  | Some (handle, v) =>
      match seal_with_owner 1000 handle 10 header original v with
      | (data, Some tag) =>
          let '(data1, r1) := open_with_owner 999 handle 10 header data tag v in
          let '(data2, r2) := open_with_owner 1000 handle 10 header data1 tag v in
          let '(v, revoked) := revoke 1000 handle v in
          negb r1 && r2 && bool_decide (data2 = original) && revoked && negb (open_with_owner 1000 handle 10 header data2 tag v).2
      | _ => false
      end
  end.

Definition structural_self_test (v : KeyVault) : bool :=
  let data := xor_stream rfc_key rfc_nonce 1 rfc_data in
  bool_decide (authentication_tag rfc_key rfc_nonce rfc_aad data = rfc_tag) && seal_part && vault_part v.

End sealing.

(** The published definition of the authenticator, for the evaluated tests only. *)
Definition P1305 : Z := 2 ^ 130 - 5.
Definition CLAMP : Z := 0x0ffffffc0ffffffc0ffffffc0fffffff.
Definition rfc_poly1305 (key msg : list Z) : list Z :=
  let r := Z.land (from_le_bytes (take 16 key)) CLAMP in
  let s := from_le_bytes (drop 16 key) in
  let acc := foldl (λ a c, ((a + from_le_bytes c + 2 ^ (8 * Z.of_nat (length c))) * r) mod P1305) 0 (chunks msg) in
  to_le_bytes 16 ((acc + s) mod 2 ^ 128).

Lemma volume_crypto_self_test_passes : structural_self_test rfc_poly1305 vault_new = true.
Proof. vm_compute. reflexivity. Qed.

End VolumeCrypto.
