(* ===== verification/VolumeCryptoProofs.v ===== *)
(** * What sealing and the key vault promise (volume_crypto.rs)

    The key stream by position, tags compared in constant time, records that open exactly
    when they are untouched; and the vault as a map from handles to owners and keys. *)
From stdpp Require Import gmap relations.
From S2P Require Import Prelude Block DeviceIo Bytes VolumeCrypto.
Import Block Io Bytes VolumeCrypto.

Module VolumeProofs.

(** ** The key stream *)
Lemma length_chacha_block key nonce counter : length (chacha_block key nonce counter) = 64%nat.
Proof. reflexivity. Qed.

Definition block_of (counter : Z) (j : nat) : Z := wrapping_add32 counter (as_u32 (Z.of_nat j)).

Lemma xor_loop_lookup fuel key nonce counter j data i :
  (length data ≤ fuel)%nat →
  xor_loop fuel key nonce counter j data !! i =
    (λ b, Z.lxor b (byte_at (chacha_block key nonce (block_of counter (j + i / 64))) (i mod 64))) <$> data !! i.
Proof.
  revert j data i. induction fuel as [|fuel IH]; intros j [|x data] i Hl; try done; simpl in Hl; [lia|]. cbn [xor_loop]. fold (block_of counter j).
  set (l := x :: data) in *. assert (Hc : length (xor_bytes (take 64 l) (chacha_block key nonce (block_of counter j))) = (64 `min` length l)%nat).
  { rewrite length_xor_bytes, length_take; [done|]. rewrite length_take, length_chacha_block. lia. }
  assert (Hs : length l = S (length data)) by done. destruct (decide (i < 64)%nat) as [Hi|Hi].
  - rewrite Nat.div_small, Nat.mod_small, Nat.add_0_r by done. destruct (l !! i) as [b|] eqn:Eb.
    + apply lookup_lt_Some in Eb as Hlt. rewrite lookup_app_l by (rewrite Hc; lia). unfold xor_bytes. rewrite lookup_zip_with, lookup_take_lt by done. rewrite Eb. simpl.
      unfold byte_at. destruct (chacha_block key nonce (block_of counter j) !! i) as [k|] eqn:Ek; [done|].
      apply lookup_ge_None in Ek. rewrite length_chacha_block in Ek. lia.
    + apply lookup_ge_None in Eb. rewrite lookup_app_r by (rewrite Hc; lia). rewrite drop_ge by lia. by destruct fuel.
  - rewrite lookup_app_r by (rewrite Hc; lia). rewrite Hc. destruct (decide (length l ≤ 64)%nat).
    { rewrite (drop_ge l) by done. rewrite (lookup_ge_None_2 l i) by lia. by destruct fuel. }
    rewrite Nat.min_l, IH by (rewrite ?length_drop; lia). rewrite lookup_drop. replace (64 + (i - 64))%nat with i by lia.
    replace (i / 64)%nat with (S ((i - 64) / 64))%nat by (pose proof (Nat.div_add (i - 64) 1 64 ltac:(done)) as Hd; replace (i - 64 + 1 * 64)%nat with i in Hd by lia; lia).
    replace (i mod 64)%nat with ((i - 64) mod 64)%nat by (rewrite <- (Nat.Div0.mod_add (i - 64) 1 64); f_equal; lia).
    by rewrite Nat.add_succ_r.
Qed.

Lemma xor_stream_lookup key nonce counter data i :
  xor_stream key nonce counter data !! i =
    (λ b, Z.lxor b (byte_at (chacha_block key nonce (block_of counter (i / 64))) (i mod 64))) <$> data !! i.
Proof. unfold xor_stream. by rewrite xor_loop_lookup. Qed.

Lemma length_xor_stream key nonce counter data : length (xor_stream key nonce counter data) = length data.
Proof.
  apply Nat.le_antisymm; apply Nat.nlt_ge; intros Hl.
  - apply lookup_lt_is_Some_2 in Hl as [b Hb]. rewrite xor_stream_lookup, lookup_ge_None_2 in Hb by lia. done.
  - apply lookup_lt_is_Some_2 in Hl as [b Hb]. pose proof (xor_stream_lookup key nonce counter data (length (xor_stream key nonce counter data))) as H.
    rewrite Hb, lookup_ge_None_2 in H by lia. done.
Qed.

Lemma xor_stream_involutive key nonce counter data : xor_stream key nonce counter (xor_stream key nonce counter data) = data.
Proof.
  apply list_eq. intros i. rewrite !xor_stream_lookup. destruct (data !! i); [|done]. simpl. by rewrite lxor_cancel.
Qed.

(** ** Comparing tags *)
Lemma foldl_lor_zero l acc : foldl Z.lor acc l = 0 ↔ acc = 0 ∧ Forall (λ x, x = 0) l.
Proof.
  revert acc. induction l as [|x l IH]; intros acc; simpl.
  - split; [by split|by intros [? _]].
  - rewrite IH, Z.lor_eq_0_iff, Forall_cons. tauto.
Qed.

Lemma constant_time_eq_spec a b : constant_time_eq a b = bool_decide (a = b).
Proof.
  unfold constant_time_eq. destruct (Nat.eqb_spec (length a) (length b)) as [He|Hn]; simpl.
  - apply eq_true_iff_eq. rewrite bool_decide_eq_true, Z.eqb_eq, foldl_lor_zero. split.
    + intros [_ Hz]. apply list_eq_same_length with (length b); [done|done|]. intros i x y _ Hx Hy.
      apply (Forall_lookup_1 _ _ i (Z.lxor x y)) in Hz; [by apply Z.lxor_eq|]. unfold xor_bytes. by rewrite lookup_zip_with, Hx, Hy.
    + intros ->. split; [done|]. apply Forall_lookup_2. intros i x. unfold xor_bytes. rewrite lookup_zip_with. destruct (b !! i); [|done].
      simpl. intros [= <-]. apply Z.lxor_nilpotent.
  - symmetry. apply bool_decide_eq_false. by intros ->.
Qed.

(** Sealed records: sealing keeps the length, opening what was sealed gives the data back, and opening
    succeeds exactly for the tag of the bytes at hand; a refused record is left as it
    was. What a record looks like is the counter-mode stream: byte [i] is xored with byte
    [i mod 64] of block [1 + i / 64], the counter wrapping at 32 bits. *)
Theorem sealed_records_open_exactly poly1305 key nonce aad data :
  let n := nonce_bytes nonce in
  let '(record, tag) := seal poly1305 key nonce aad data in
  tag = Some (authentication_tag poly1305 key n aad record) ∧ length record = length data ∧
  (∀ i, record !! i = (λ b, Z.lxor b (byte_at (chacha_block key n (as_u32 (1 + as_u32 (Z.of_nat (i / 64))))) (i mod 64))) <$> data !! i) ∧
  (∀ t, tag = Some t → open poly1305 key nonce aad record t = (data, true)) ∧
  ∀ other t, open poly1305 key nonce aad other t =
    if decide (t = authentication_tag poly1305 key n aad other) then (xor_stream key n 1 other, true) else (other, false).
Proof.
  intros n. unfold seal. fold n.
  assert (Ho : ∀ other t, open poly1305 key nonce aad other t =
    if decide (t = authentication_tag poly1305 key n aad other) then (xor_stream key n 1 other, true) else (other, false)).
  { intros other t. unfold open. fold n. rewrite constant_time_eq_spec. case_decide as Ht.
    - rewrite bool_decide_true by done. done.
    - rewrite bool_decide_false by congruence. done. }
  split_and!; [done|apply length_xor_stream| | |done].
  - intros i. apply xor_stream_lookup.
  - intros t [= <-]. rewrite Ho, decide_True by done. by rewrite xor_stream_involutive.
Qed.

(** ** Handles *)
Lemma handle_parts slot g : (slot < 256)%nat → 0 ≤ g ≤ u32_max → handle_slot (handle_of slot g) = slot ∧ handle_generation (handle_of slot g) = g.
Proof.
  intros Hs Hg. unfold handle_of, handle_slot, handle_generation. rewrite Z.shiftl_mul_pow2 by lia.
  rewrite (lor_disjoint_add (g * 2 ^ 8) (Z.of_nat slot) 8) by (try apply Z.mod_mul; lia). change 0xff with (2 ^ 8 - 1). rewrite land_low by lia.
  rewrite Z.shiftr_div_pow2 by lia. unfold as_u32, u32_max in *. split.
  - rewrite Z.add_comm, Z.mod_add by lia. rewrite Z.mod_small by lia. lia.
  - rewrite Z.add_comm, Z.div_add by lia. rewrite Z.div_small by lia. rewrite Z.mod_small; lia.
Qed.

(** ** The vault against a map

    What a caller may rely on: a map from handles to the owner and the key, with the
    handles given out so far. *)
Record Spec := mkSpec { issued : list KeyHandle; live : gmap Z (Z * list Z) }.
Definition spec_new : Spec := mkSpec [] ∅.

Definition spec_lookup (o : Z) (h : KeyHandle) (s : Spec) : option (list Z) :=
  '(o', key) ← live s !! h; if o' =? o then Some key else None.

Inductive step : KeyVault * Spec → KeyVault * Spec → Prop :=
  | step_provision o key h v v' s :
      provision o key v = Some (h, v') → step (v, s) (v', mkSpec (h :: issued s) (<[h := (o, key)]> (live s)))
  | step_revoke o h v v' s :
      0 ≤ h < 2 ^ 40 → revoke o h v = (v', true) → step (v, s) (v', mkSpec (issued s) (delete h (live s))).

Definition entry_handle (i : nat) (e : KeySlot) : KeyHandle := handle_of i (generation e).

Record inv (v : KeyVault) (s : Spec) : Prop := mkInv {
  inv_len : length (slots v) = MAX_KEYS;
  inv_next : next_generation v = as_u32 (1 + Z.of_nat (length (issued s)));
  inv_gen : ∀ i e, slots v !! i = Some e → in_use e = true → 1 ≤ generation e ≤ u32_max;
  inv_slot : ∀ i e, slots v !! i = Some e → in_use e = true → live s !! entry_handle i e = Some (owner e, slot_key e);
  inv_live : ∀ h p, live s !! h = Some p → ∃ i e, slots v !! i = Some e ∧ in_use e = true ∧ h = entry_handle i e ∧ p = (owner e, slot_key e);
  inv_issued : ∀ h, h ∈ issued s → 1 ≤ handle_generation h ≤ Z.of_nat (length (issued s));
  inv_fresh : NoDup (issued s);
}.

Lemma slot_small v s i e : inv v s → slots v !! i = Some e → (i < 256)%nat.
Proof. intros Hi Hl%lookup_lt_Some. rewrite (inv_len _ _ Hi) in Hl. unfold MAX_KEYS in Hl. lia. Qed.

Lemma handle_compose h : 0 ≤ h < 2 ^ 40 → handle_of (handle_slot h) (handle_generation h) = h.
Proof.
  intros Hh. unfold handle_of, handle_slot, handle_generation. change 0xff with (2 ^ 8 - 1). rewrite land_low by lia.
  rewrite Z.shiftr_div_pow2, Z.shiftl_mul_pow2 by lia. pose proof (Z.mod_pos_bound h (2 ^ 8) ltac:(lia)).
  assert (0 ≤ h / 2 ^ 8 < 2 ^ 32) by (split; [apply Z.div_pos; lia|apply Z.div_lt_upper_bound; lia]).
  unfold as_u32, u32_max. rewrite (Z.mod_small (h / 2 ^ 8)) by lia. rewrite Z2Nat.id by lia.
  rewrite (lor_disjoint_add (h / 2 ^ 8 * 2 ^ 8) (h mod 2 ^ 8) 8) by (try apply Z.mod_mul; lia).
  pose proof (Z.div_mod h (2 ^ 8) ltac:(lia)). lia.
Qed.

Lemma entry_parts v s i e : inv v s → slots v !! i = Some e → in_use e = true → handle_slot (entry_handle i e) = i ∧ handle_generation (entry_handle i e) = generation e.
Proof. intros Hi He Hu. pose proof (inv_gen _ _ Hi _ _ He Hu). apply handle_parts; [by eapply slot_small|lia]. Qed.

(** The slot that a handle addresses. *)
Lemma vault_entry v s h e :
  inv v s → 0 ≤ h < 2 ^ 40 → slots v !! handle_slot h = Some e → in_use e = true → generation e = handle_generation h → live s !! h = Some (owner e, slot_key e).
Proof.
  intros Hi Hh He Hu Hg. pose proof (inv_slot _ _ Hi _ _ He Hu) as Hl. unfold entry_handle in Hl. by rewrite Hg, handle_compose in Hl.
Qed.

Lemma vault_lookup v s o h : inv v s → 0 ≤ h < 2 ^ 40 → lookup o h v = spec_lookup o h s.
Proof.
  intros Hi Hh. unfold lookup, spec_lookup. destruct (live s !! h) as [[o' key]|] eqn:El; simpl.
  - destruct (inv_live _ _ Hi _ _ El) as (i & e & He & Hu & -> & [= -> ->]). destruct (entry_parts _ _ _ _ Hi He Hu) as [-> Hg].
    rewrite He. simpl. rewrite Hu, Hg, Z.eqb_refl. simpl. by rewrite andb_true_r.
  - destruct (slots v !! handle_slot h) as [e|] eqn:He; [|done]. simpl. destruct (in_use e) eqn:Hu; [|done]. simpl.
    destruct (Z.eqb_spec (generation e) (handle_generation h)) as [Hg|]; [|by rewrite andb_false_r].
    by rewrite (vault_entry v s h e) in El.
Qed.

Lemma vault_revoke v s o h : inv v s → 0 ≤ h < 2 ^ 40 → (revoke o h v).2 = bool_decide (is_Some (spec_lookup o h s)).
Proof.
  intros Hi Hh. rewrite <- (vault_lookup v s o h) by done. unfold revoke, lookup. destruct (slots v !! handle_slot h) as [e|]; simpl; [|done].
  by destruct (in_use e), (owner e =? o), (generation e =? handle_generation h).
Qed.

Lemma vault_new_inv : inv vault_new spec_new.
Proof.
  split; [done|done|by intros i e [-> _]%lookup_replicate_1..| |by intros h ?%not_elem_of_nil|constructor].
  intros h p Hp. simpl in Hp. by rewrite lookup_empty in Hp.
Qed.

Lemma vault_provision_inv v s o key h v' :
  inv v s → Z.of_nat (length (issued s)) < u32_max → provision o key v = Some (h, v') →
  inv v' (mkSpec (h :: issued s) (<[h := (o, key)]> (live s))).
Proof.
  intros Hi Hn. pose proof Hi as [Hlen Hnext Hgen Hslot Hlive Hiss Hfresh]. unfold provision. destruct (any _ key); [|done]. simpl.
  destruct (position _ (slots v)) as [i|] eqn:Ep; [|done]. apply position_Some in Ep as (e & He & Hfree & _). apply negb_true_iff in Hfree. simpl.
  set (n := Z.of_nat (length (issued s))) in *. assert (Hg : next_generation v = 1 + n).
  { rewrite Hnext. unfold as_u32, u32_max in *. apply Z.mod_small. lia. }
  rewrite Hg. replace (1 + n =? 0) with false by lia. intros [= <- <-]. assert (Hi8 : (i < 256)%nat) by by eapply slot_small.
  destruct (handle_parts i (1 + n) Hi8 ltac:(lia)) as [Hhs Hhg]. set (h := handle_of i (1 + n)) in *.
  assert (Hnew : h ∉ issued s) by (intros Hin; specialize (Hiss _ Hin); lia).
  assert (Hother : ∀ j e', slots v !! j = Some e' → in_use e' = true → j ≠ i ∧ entry_handle j e' ≠ h).
  { intros j e' He' Hu. split; [intros ->; congruence|]. intros Heq. destruct (entry_parts _ _ _ _ Hi He' Hu) as [Hjs _]. rewrite Heq, Hhs in Hjs. congruence. }
  assert (Hlt : (i < length (slots v))%nat) by by eapply lookup_lt_Some.
  split; simpl.
  - by rewrite length_insert.
  - unfold wrapping_add32. f_equal. unfold n. lia.
  - intros j e'. rewrite list_lookup_insert. case_decide; [intros [= <-] _; simpl; lia|by apply Hgen].
  - intros j e'. rewrite list_lookup_insert. case_decide as Hj.
    + destruct Hj as [<- _]. intros [= <-] _. unfold entry_handle. simpl. fold h. apply lookup_insert_eq.
    + intros He' Hu. destruct (Hother _ _ He' Hu) as [_ Hne]. rewrite lookup_insert_ne by done. by apply Hslot.
  - intros h' p. rewrite lookup_insert. case_decide as Hh.
    + intros [= <-]. exists i, (mkSlot (1 + n) true o key). rewrite list_lookup_insert_eq by done. by split_and!.
    + intros Hp. destruct (Hlive _ _ Hp) as (j & e' & He' & Hu & -> & ->). exists j, e'. destruct (Hother _ _ He' Hu) as [Hji _].
      by rewrite list_lookup_insert_ne.
  - intros h' [->|Hin]%elem_of_cons; [lia|]. specialize (Hiss _ Hin). lia.
  - by constructor.
Qed.

Lemma vault_revoke_inv v s o h v' :
  inv v s → 0 ≤ h < 2 ^ 40 → revoke o h v = (v', true) → inv v' (mkSpec (issued s) (delete h (live s))).
Proof.
  intros Hi Hh. pose proof Hi as [Hlen Hnext Hgen Hslot Hlive Hiss Hfresh]. unfold revoke. destruct (slots v !! handle_slot h) as [e|] eqn:He; [|done].
  destruct (in_use e) eqn:Hu; [|done]. destruct (owner e =? o); [|done]. simpl. destruct (Z.eqb_spec (generation e) (handle_generation h)) as [Hg|]; [|done].
  intros [= <-]. assert (Heq : entry_handle (handle_slot h) e = h) by (unfold entry_handle; rewrite Hg; by apply handle_compose).
  assert (Hlt : (handle_slot h < length (slots v))%nat) by by eapply lookup_lt_Some.
  split; simpl; try done.
  - by rewrite length_insert.
  - intros j e'. rewrite list_lookup_insert. case_decide; [by intros [= <-]|by apply Hgen].
  - intros j e'. rewrite list_lookup_insert. case_decide as Hj; [by intros [= <-]|]. intros He' Hu'. rewrite lookup_delete_ne; [by apply Hslot|].
    intros ->. destruct (entry_parts _ _ _ _ Hi He' Hu') as [Hjs _]. apply Hj. by rewrite Hjs in Hlt |- *.
  - intros h' p [Hne Hp]%lookup_delete_Some. destruct (Hlive _ _ Hp) as (j & e' & He' & Hu' & -> & ->). exists j, e'.
    rewrite list_lookup_insert_ne; [done|]. intros Hj. rewrite Hj in He. simplify_eq.
Qed.

Lemma steps_grow x y : rtc step x y → (length (issued x.2) ≤ length (issued y.2))%nat.
Proof. induction 1 as [|x y z Hs _ IH]; [done|]. destruct Hs; simpl in *; lia. Qed.

Lemma vault_steps_inv x y : rtc step x y → Z.of_nat (length (issued y.2)) ≤ u32_max → inv x.1 x.2 → inv y.1 y.2.
Proof.
  induction 1 as [|x y z Hs Hr IH]; [done|]. intros Hn Hi. apply IH; [done|]. pose proof (steps_grow _ _ Hr). destruct Hs; simpl in *.
  - eapply vault_provision_inv; [done|lia|done].
  - by eapply vault_revoke_inv.
Qed.


(** ** Instances *)
Definition one_key : KeyVault := mkVault (<[0%nat := mkSlot 1 true 1000 test_key]> (slots vault_new)) 2.
Definition no_key : KeyVault := (revoke 1000 256 one_key).1.

Definition spec_one : Spec := mkSpec (256 :: issued spec_new) (<[256 := (1000, test_key)]> (live spec_new)).
Definition spec_none : Spec := mkSpec (issued spec_one) (delete 256 (live spec_one)).

Lemma sealed_records_open_exactly_witness :
  open rfc_poly1305 test_key 9 header (seal rfc_poly1305 test_key 9 header original).1
    (authentication_tag rfc_poly1305 test_key (nonce_bytes 9) header (seal rfc_poly1305 test_key 9 header original).1) = (original, true).
Proof. by apply (sealed_records_open_exactly rfc_poly1305 test_key 9 header original). Defined.


End VolumeProofs.
