(* ===== verification/Pci.v ===== *)
(** * PCI configuration space: hal/pci.rs, hal/pci/msi.rs

    Discovery of functions, base address registers, the capability list and the
    programming of message-signalled interrupts, over an arbitrary configuration space:
    the port pair and the memory-mapped windows are a class, since what a register
    answers is up to the hardware. *)
From S2P Require Import Prelude Block DeviceIo.
Import Io.

Module Pci.

Definition MAX_DEVICES : nat := 64.
Definition MAX_ECAM_REGIONS : nat := 8.
Definition MAX_CAPABILITY_STEPS : nat := 48.

Definition bits (x mask : Z) : bool := negb (Z.land x mask =? 0).
Definition as_u8 (x : Z) : Z := x mod 256.
Definition not32 (x : Z) : Z := u32_max - x.
Definition not16 (x : Z) : Z := u16_max - x.

Record Address := mkAddress { segment : Z; bus : Z; dev : Z; fn : Z }.

Inductive BarKind := Memory32 | Memory64 | IoSpace.
#[export] Instance bar_kind_eq_dec : EqDecision BarKind.
Proof. solve_decision. Defined.

Record Bar := mkBar { valid : bool; kind : BarKind; address : Z; prefetchable : bool }.
Definition bar_default : Bar := mkBar false Memory32 0 false.

Record Capabilities := mkCaps {
  power_management : bool; msi : bool; msix : bool; pcie : bool; malformed : bool; msi_offset : Z; msix_offset : Z;
}.
Definition caps_default : Capabilities := mkCaps false false false false false 0 0.

Record Device := mkDevice {
  d_segment : Z; d_bus : Z; d_device : Z; d_function : Z;
  vendor_id : Z; device_id : Z; revision : Z; prog_if : Z; class : Z; subclass : Z; header_type : Z;
  command : Z; status : Z;
  bars : list Bar;
  capabilities : Capabilities;
}.
Definition device_default : Device := mkDevice 0 0 0 0 0 0 0 0 0 0 0 0 0 (replicate 6 bar_default) caps_default.
Definition address_of (d : Device) : Address := mkAddress (d_segment d) (d_bus d) (d_device d) (d_function d).

(** ** Configuration accesses *)
Record McfgAllocation := mkMcfg { base_address : Z; segment_group : Z; start_bus : Z; end_bus : Z }.

Definition configure (allocations : list McfgAllocation) : list McfgAllocation := take MAX_ECAM_REGIONS allocations.

Definition in_allocation (a : Address) (m : McfgAllocation) : bool :=
  (segment_group m =? segment a) && (start_bus m <=? bus a) && (bus a <=? end_bus m).

Definition ecam_offset (m : McfgAllocation) (a : Address) (offset : Z) : option Z :=
  x ← checked_add64 (base_address m) (Z.shiftl (bus a - start_bus m) 20);
  x ← checked_add64 x (Z.shiftl (dev a) 15);
  x ← checked_add64 x (Z.shiftl (fn a) 12);
  checked_add64 x offset.

Definition ecam_physical (ecam : list McfgAllocation) (a : Address) (offset : Z) : option Z :=
  m ← List.find (in_allocation a) ecam; ecam_offset m a offset.

Definition ecam_address_for (m : McfgAllocation) (a : Address) (offset : Z) : option Z :=
  if negb (in_allocation a m) || (32 <=? dev a) || (8 <=? fn a) || (0xfff <? offset) then None else ecam_offset m a offset.

Definition config_address (bus device function offset : Z) : Z :=
  Z.lor (Z.lor (Z.lor (Z.lor (Z.shiftl 1 31) (Z.shiftl bus 16)) (Z.shiftl device 11)) (Z.shiftl function 8)) (Z.land offset 0xfc).

(** The registers behind a window page (which may fail to be mapped) and behind the port
    pair, selected by the address word. *)
Class ConfigSpace (C : Type) := {
  window_read : Z → C → C * option Z;
  window_write : Z → Z → C → C * bool;
  port_read : Z → C → C * Z;
  port_write : Z → Z → C → C;
}.

Section space.
Context {C : Type} `{ConfigSpace C} (ecam : list McfgAllocation).

Definition bad_access (a : Address) (offset : Z) : bool :=
  negb (Z.land offset 3 =? 0) || (0xffc <? offset) || (32 <=? dev a) || (8 <=? fn a).
Definition legacy (a : Address) (offset : Z) : bool := (segment a =? 0) && (offset <=? 0xfc).

Definition read_config (a : Address) (offset : Z) : io C () Z :=
  if bad_access a offset then ierr ()
  else
  match ecam_physical ecam a offset with
  | Some physical => λ c, let '(c, v) := window_read physical c in (c, ok_or v ())
  | None =>
      if negb (legacy a offset) then ierr ()
      else λ c, let '(c, v) := port_read (config_address (bus a) (dev a) (fn a) (as_u8 offset)) c in (c, Ok v)
  end.

Definition write_config (a : Address) (offset value : Z) : C → C * bool := λ c,
  if bad_access a offset then (c, false)
  else
  match ecam_physical ecam a offset with
  | Some physical => window_write physical value c
  | None =>
      if negb (legacy a offset) then (c, false)
      else (port_write (config_address (bus a) (dev a) (fn a) (as_u8 offset)) value c, true)
  end.

Definition enable_memory_bus_master (a : Address) : C → C * bool := λ c,
  match read_config a 0x04 c with
  | (c, Err _) => (c, false)
  | (c, Ok value) => write_config a 0x04 (Z.lor value 6) c
  end.

Definition enable_io_bus_master (b d f : Z) : C → C := λ c,
  let a := mkAddress 0 b d f in
  match read_config a 0x04 c with
  | (c, Err _) => c
  | (c, Ok value) => (write_config a 0x04 (Z.lor value 5) c).1
  end.

Definition bar0_io_base (b d f : Z) : io C () Z :=
  let! bar := read_config (mkAddress 0 b d f) 0x10 in
  if Z.land bar 1 =? 0 then ierr ()
  else
  let base := Z.land bar 0xfffffffc in
  if (u16_max <? base) || (base =? 0) then ierr () else iret base.

(** ** Base address registers *)
Definition bar_count (header_type : Z) : nat :=
  let t := Z.land header_type 0x7f in if t =? 0 then 6 else if t =? 1 then 2 else 0.

Fixpoint bars_loop (fuel : nat) (a : Address) (count index : nat) (bs : list Bar) : C → C * list Bar := λ c,
  match fuel with
  | O => (c, bs)
  | S fuel =>
      if (count <=? index)%nat then (c, bs)
      else
      let offset := 0x10 + Z.of_nat index * 4 in
      match read_config a offset c with
      | (c, Err _) => (c, bs)
      | (c, Ok low) =>
          if (low =? 0) || (low =? u32_max) then bars_loop fuel a count (S index) bs c
          else if negb (Z.land low 1 =? 0)
          then bars_loop fuel a count (S index) (<[index := mkBar true IoSpace (Z.land low (not32 3)) false]> bs) c
          else
          let memory_type := Z.land (Z.shiftr low 1) 3 in
          let pre := negb (Z.land low 8 =? 0) in
          let narrow c :=
            let bs := if memory_type =? 0 then <[index := mkBar true Memory32 (Z.land low (not32 0xf)) pre]> bs else bs in
            bars_loop fuel a count (S index) bs c in
          if (memory_type =? 2) && (index + 1 <? count)%nat then
            match read_config a (offset + 4) c with
            | (c, Ok high) =>
                bars_loop fuel a count (index + 2)
                  (<[index := mkBar true Memory64 (Z.lor (Z.shiftl high 32) (Z.land low (not32 0xf))) pre]> bs) c
            | (c, Err _) => narrow c
            end
          else narrow c
      end
  end.
Definition read_bars (a : Address) (header_type : Z) : C → C * list Bar := bars_loop 6 a (bar_count header_type) 0 (replicate 6 bar_default).

(** ** The capability list *)
Definition note_capability (value pointer : Z) (k : Capabilities) : Capabilities :=
  let id := as_u8 value in
  if id =? 0x01 then mkCaps true (msi k) (msix k) (pcie k) (malformed k) (msi_offset k) (msix_offset k)
  else if id =? 0x05 then mkCaps (power_management k) true (msix k) (pcie k) (malformed k) pointer (msix_offset k)
  else if id =? 0x10 then mkCaps (power_management k) (msi k) (msix k) true (malformed k) (msi_offset k) (msix_offset k)
  else if id =? 0x11 then mkCaps (power_management k) (msi k) true (pcie k) (malformed k) (msi_offset k) pointer
  else k.
Definition set_malformed (k : Capabilities) : Capabilities :=
  mkCaps (power_management k) (msi k) (msix k) (pcie k) true (msi_offset k) (msix_offset k).

Definition bad_pointer (pointer : Z) (visited : list Z) : bool :=
  negb ((0x40 <=? pointer) && (pointer <=? 0xfc)) || negb (Z.land pointer 3 =? 0) || any (Z.eqb pointer) visited.

Definition next_pointer (value : Z) : Z := Z.land (Z.shiftr value 8) 0xfc.

Fixpoint capability_loop (fuel : nat) (a : Address) (pointer : Z) (visited : list Z) (k : Capabilities) : C → C * option Capabilities := λ c,
  match fuel with
  | O => (c, None)
  | S fuel =>
      if pointer =? 0 then (c, Some k)
      else if bad_pointer pointer visited then (c, Some (set_malformed k))
      else if (length visited =? MAX_CAPABILITY_STEPS)%nat then (c, Some (set_malformed k))
      else
      match read_config a pointer c with
      | (c, Err _) => (c, Some (set_malformed k))
      | (c, Ok value) =>
          capability_loop fuel a (next_pointer value) (visited ++ [pointer]) (note_capability value pointer k) c
      end
  end.

Definition CAPABILITY_FUEL : nat := S MAX_CAPABILITY_STEPS.

Definition read_capabilities (a : Address) (status header_type : Z) : C → C * option Capabilities := λ c,
  if Z.land status (Z.shiftl 1 4) =? 0 then (c, Some caps_default)
  else
  let pointer_register := if Z.land header_type 0x7f =? 0x02 then 0x14 else 0x34 in
  match read_config a pointer_register c with
  | (c, Err _) => (c, Some (set_malformed caps_default))
  | (c, Ok value) => capability_loop CAPABILITY_FUEL a (Z.land value 0xfc) [] caps_default c
  end.

(** ** Discovery *)
Definition high16 (x : Z) : Z := as_u16 (Z.shiftr x 16).

Definition probe (a : Address) : io C () Device :=
  let! identity := read_config a 0 in
  if as_u16 identity =? 0xffff then ierr ()
  else
  let! class_revision := read_config a 0x08 in
  let! header := read_config a 0x0c in
  let! command_status := read_config a 0x04 in
  let header_type := as_u8 (Z.shiftr header 16) in
  let! bs := (λ c, let '(c, bs) := read_bars a header_type c in (c, Ok bs)) in
  let! caps := (λ c, let '(c, k) := read_capabilities a (high16 command_status) header_type c in (c, ok_or k ())) in
  iret (mkDevice (segment a) (bus a) (dev a) (fn a) (as_u16 identity) (high16 identity) (as_u8 class_revision) (as_u8 (Z.shiftr class_revision 8))
          (as_u8 (Z.shiftr class_revision 24)) (as_u8 (Z.shiftr class_revision 16)) header_type (as_u16 command_status) (high16 command_status) bs caps).

Record Summary := mkSummary {
  discovered : Z; recorded : Z; storage : Z; network : Z; display : Z; bridges : Z; segments : Z; s_ecam : bool; truncated : bool;
}.
Record Inventory := mkInventory { devices : list (option Device); summary : Summary }.
Definition summary_new (e : bool) : Summary := mkSummary 0 0 0 0 0 0 0 e false.
Definition inventory_new (e : bool) : Inventory := mkInventory (replicate MAX_DEVICES None) (summary_new e).

Definition saturating_succ (max x : Z) : Z := Z.min (x + 1) max.

Definition count_class (k : Z) (s : Summary) : Summary :=
  let up (b : bool) (x : Z) := if b then saturating_succ u16_max x else x in
  mkSummary (saturating_succ u16_max (discovered s)) (recorded s) (up (k =? 1) (storage s)) (up (k =? 2) (network s)) (up (k =? 3) (display s))
    (up (k =? 6) (bridges s)) (segments s) (s_ecam s) (truncated s).

Definition record (d : Device) (i : Inventory) : Inventory :=
  let s := count_class (class d) (summary i) in
  match position (λ o : option Device, bool_decide (o = None)) (devices i) with
  | Some slot =>
      mkInventory (<[slot := Some d]> (devices i))
        (mkSummary (discovered s) (saturating_succ u8_max (recorded s)) (storage s) (network s) (display s) (bridges s) (segments s) (s_ecam s) (truncated s))
  | None => mkInventory (devices i)
        (mkSummary (discovered s) (recorded s) (storage s) (network s) (display s) (bridges s) (segments s) (s_ecam s) true)
  end.

Definition try_record (a : Address) (i : Inventory) : C → C * Inventory := λ c,
  match probe a c with (c, Ok found) => (c, record found i) | (c, Err _) => (c, i) end.

(** [for x in xs] over the configuration space and the inventory. *)
Fixpoint each {X} (f : X → Inventory → C → C * Inventory) (xs : list X) (i : Inventory) (c : C) : C * Inventory :=
  match xs with [] => (c, i) | x :: xs => let '(c, i) := f x i c in each f xs i c end.

Definition scan_device (seg b d : Z) (i : Inventory) (c : C) : C * Inventory :=
  let a := mkAddress seg b d 0 in
  match read_config a 0 c with
  | (c, Err _) => (c, i)
  | (c, Ok identity) =>
      if as_u16 identity =? 0xffff then (c, i)
      else
      let '(c, r) := read_config a 0x0c c in
      let header := match r with Ok h => h | Err _ => u32_max end in
      let functions := if Z.land (as_u8 (Z.shiftr header 16)) 0x80 =? 0 then 1 else 8 in
      each (λ f, try_record (mkAddress seg b d f)) (seqZ 0 functions) i c
  end.

Definition scan_bus_range (seg start stop : Z) (i : Inventory) (c : C) : C * Inventory :=
  each (λ b, each (λ d, scan_device seg b d) (seqZ 0 32)) (seqZ start (stop + 1 - start)) i c.

Definition set_segments (n : Z) (i : Inventory) : Inventory :=
  let s := summary i in
  mkInventory (devices i) (mkSummary (discovered s) (recorded s) (storage s) (network s) (display s) (bridges s) n (s_ecam s) (truncated s)).

(** The segment groups in the order of their first allocation. *)
Definition seen_segments (ms : list McfgAllocation) : list Z :=
  foldl (λ seen m, if any (Z.eqb (segment_group m)) seen then seen else seen ++ [segment_group m]) [] ms.

Definition discover (c : C) : C * Inventory :=
  let i := inventory_new (negb (length ecam =? 0)%nat) in
  if (length ecam =? 0)%nat then
    let '(c, i) := scan_bus_range 0 0 u8_max i c in (c, set_segments 1 i)
  else
    let '(c, i) := each (λ m, scan_bus_range (segment_group m) (start_bus m) (end_bus m)) ecam i c in
    (c, set_segments (Z.min (Z.of_nat (length (seen_segments ecam))) u8_max) i).

Definition device (index : nat) (i : Inventory) : option Device := mjoin (devices i !! index).

(** ** Message-signalled interrupts *)
Definition PCI_CAP_ID_MSI : Z := 0x05.
Definition PCI_MSI_ENABLE : Z := 1.
Definition PCI_MSI_64BIT_CAPABLE : Z := 128.
Definition PCI_MSI_PER_VECTOR_MASKING : Z := 256.
Definition X86_MSI_ADDRESS_BASE : Z := 0xfee00000.
Definition X86_MSI_DESTINATION_SHIFT : Z := 12.

Inductive MsiError := NoCapability | MalformedCapability | UnsupportedDestination | ConfigRead | ConfigWrite.
#[export] Instance msi_error_eq_dec : EqDecision MsiError.
Proof. solve_decision. Defined.

Record MsiCapability := mkMsiCap { offset : Z; control : Z; is_64_bit : bool; per_vector_masking : bool }.
Record MsiMessage := mkMessage { address_low : Z; address_high : Z; data : Z }.
#[export] Instance msi_message_eq_dec : EqDecision MsiMessage.
Proof. solve_decision. Defined.

Definition fixed (destination_apic_id vector : Z) : result MsiMessage MsiError :=
  if u8_max <? destination_apic_id then Err UnsupportedDestination
  else Ok (mkMessage (Z.lor X86_MSI_ADDRESS_BASE (Z.shiftl destination_apic_id X86_MSI_DESTINATION_SHIFT)) 0 vector).

(** [read(..).ok_or(ConfigRead)?] and [if !write(..) { return Err(ConfigWrite) }] *)
Definition cread (a : Address) (off : Z) : io C MsiError Z := λ c,
  match read_config a off c with (c, Ok v) => (c, Ok v) | (c, Err _) => (c, Err ConfigRead) end.
Definition cwrite (a : Address) (off value : Z) : io C MsiError () := λ c,
  let '(c, b) := write_config a off value c in (c, if b then Ok () else Err ConfigWrite).

Definition msi_capability (d : Device) : io C MsiError MsiCapability :=
  let k := capabilities d in
  if negb (msi k) || (msi_offset k =? 0) then ierr NoCapability
  else
  let! header := cread (address_of d) (msi_offset k) in
  if negb (as_u8 header =? PCI_CAP_ID_MSI) then ierr MalformedCapability
  else
  let control := high16 header in
  iret (mkMsiCap (msi_offset k) control (bits control PCI_MSI_64BIT_CAPABLE) (bits control PCI_MSI_PER_VECTOR_MASKING)).

Definition with_control (header control : Z) : Z := Z.lor (Z.land header 0xffff) (Z.shiftl control 16).

Definition program_msi (d : Device) (destination_apic_id vector : Z) : io C MsiError MsiCapability :=
  let! capability := msi_capability d in
  let! message := iresult (fixed destination_apic_id vector) in
  let a := address_of d in
  let base := offset capability in
  let! header := cread a base in
  let control := Z.land (Z.land (high16 header) (not16 PCI_MSI_ENABLE)) (not16 (Z.shiftl 7 4)) in
  let! _ := cwrite a base (with_control header control) in
  let! _ := cwrite a (base + 4) (address_low message) in
  let! data_dword_offset :=
    (if is_64_bit capability then let! _ := cwrite a (base + 8) (address_high message) in iret (base + 12) else iret (base + 8)) in
  let! old_data_dword := cread a data_dword_offset in
  let! _ := cwrite a data_dword_offset (Z.lor (Z.land old_data_dword 0xffff0000) (data message)) in
  let control := Z.lor control PCI_MSI_ENABLE in
  let! _ := cwrite a base (with_control header control) in
  iret (mkMsiCap (offset capability) control (is_64_bit capability) (per_vector_masking capability)).

Definition disable_msi (d : Device) : io C MsiError () :=
  let! capability := msi_capability d in
  let a := address_of d in
  let! header := cread a (offset capability) in
  let! _ := cwrite a (offset capability) (with_control header (Z.land (high16 header) (not16 PCI_MSI_ENABLE))) in
  iret ().

End space.

(** ** The self tests *)
Definition WIFI_DEVICE_VECTOR : Z := 0xd0.

Definition stage13_10aa_msi_self_test : bool :=
  match fixed 0x2a WIFI_DEVICE_VECTOR with
  | Ok m =>
      (address_low m =? 0xfee2a000) && (address_high m =? 0) && (data m =? WIFI_DEVICE_VECTOR) &&
      bool_decide (fixed 0x100 WIFI_DEVICE_VECTOR = Err UnsupportedDestination)
  | Err _ => false
  end.

Definition self_test (i : Inventory) : bool :=
  let allocation := mkMcfg 0xe0000000 0 0x20 0x2f in
  (config_address 2 3 4 0x0b =? 0x80021c08) &&
  bool_decide (ecam_address_for allocation (mkAddress 0 0x21 3 4) 0x100 = Some (0xe0000000 + Z.shiftl 1 20 + Z.shiftl 3 15 + Z.shiftl 4 12 + 0x100)) &&
  (recorded (summary i) <=? Z.of_nat MAX_DEVICES) && match device MAX_DEVICES i with None => true | Some _ => false end.

End Pci.
