(* ===== verification/PciProofs.v ===== *)
(** * The capability list of a PCI function, as its registers hold it (hal/pci.rs)

    The linked list in configuration space as a relation, against the walk that reads it. *)
From S2P Require Import Prelude Block DeviceIo Pci.
Import Io Pci.

Module PciProofs.

(** ** The capability list *)
Definition pointer_ok (p : Z) : Prop := 0x40 ≤ p ≤ 0xfc ∧ Z.land p 3 = 0.

(** Nodes of a list: where each is and what its first word says, starting at [p] and ending with
    the pointer [q]. *)
Inductive nodes (r : Z → option Z) : Z → list (Z * Z) → Z → Prop :=
  | nodes_nil p : nodes r p [] p
  | nodes_cons p v l q : p ≠ 0 → pointer_ok p → r p = Some v → nodes r (next_pointer v) l q → nodes r p ((p, v) :: l) q.

Definition id_of (n : Z * Z) : Z := as_u8 n.2.
Definition offset_of (id : Z) (l : list (Z * Z)) (start : Z) : Z := foldl (λ o n, if id_of n =? id then n.1 else o) start l.
Definition has_id (id : Z) (l : list (Z * Z)) : bool := any (λ n, id_of n =? id) l.

Definition found (l : list (Z * Z)) (bad : bool) : Capabilities :=
  mkCaps (has_id 0x01 l) (has_id 0x05 l) (has_id 0x11 l) (has_id 0x10 l) bad (offset_of 0x05 l 0) (offset_of 0x11 l 0).

Lemma nodes_snoc r p l q v : nodes r p l q → q ≠ 0 → pointer_ok q → r q = Some v → nodes r p (l ++ [(q, v)]) (next_pointer v).
Proof. induction 1 as [q|p w l q Hp Hok Hr _ IH]; intros Hq Hqok Hv; simpl; econstructor; try done; [by constructor|by apply IH]. Qed.

Lemma found_snoc l p v : note_capability v p (found l false) = found (l ++ [(p, v)]) false.
Proof.
  unfold note_capability, found, has_id, any, offset_of. rewrite !existsb_app, !foldl_app. simpl. unfold id_of. simpl.
  generalize (as_u8 v) as k. intros k.
  destruct (Z.eqb_spec k 1) as [->|]; [by rewrite ?orb_true_r, ?orb_false_r|].
  destruct (Z.eqb_spec k 5) as [->|]; [by rewrite ?orb_true_r, ?orb_false_r|].
  destruct (Z.eqb_spec k 16) as [->|]; [by rewrite ?orb_true_r, ?orb_false_r|].
  destruct (Z.eqb_spec k 17) as [->|]; [by rewrite ?orb_true_r, ?orb_false_r|]. by rewrite !orb_false_r.
Qed.

Lemma pointer_index p : pointer_ok p → ∃ k : nat, (k < 48)%nat ∧ p = 0x40 + 4 * Z.of_nat k.
Proof.
  intros [Hr Ha]. change 3 with (2 ^ 2 - 1) in Ha. rewrite land_low in Ha by lia. exists (Z.to_nat ((p - 0x40) / 4)).
  pose proof (Z.div_mod p 4 ltac:(lia)) as Hd. change (2 ^ 2) with 4 in Ha. assert (Hq : (p - 0x40) / 4 = p / 4 - 16).
  { replace (p - 0x40) with (p + (-16) * 4) by lia. rewrite Z.div_add by lia. lia. }
  rewrite Hq. assert (16 ≤ p / 4 ≤ 63) by lia. lia.
Qed.

(** There are only as many places for capabilities as the code has steps. *)
Lemma pointers_bounded ps : NoDup ps → Forall pointer_ok ps → (length ps ≤ 48)%nat.
Proof.
  intros Hn Hok. change 48%nat with (length ((λ k : nat, 0x40 + 4 * Z.of_nat k) <$> seq 0 48)). apply submseteq_length, NoDup_submseteq; [done|].
  intros p Hp. eapply Forall_forall in Hp; [|exact Hok]. destruct (pointer_index p Hp) as (k & Hk & ->).
  apply list_elem_of_fmap. exists k. split; [done|]. apply elem_of_seq. lia.
Qed.

Section walk.
Context {C : Type} `{ConfigSpace C} (ecam : list McfgAllocation) (a : Address) (c : C) (r : Z → option Z).
(** The function's registers do not change while they are read. *)
Hypothesis stable : ∀ off, read_config ecam a off c = (c, ok_or (r off) ()).

(** Where the walk stopped. *)
Definition stops (l : list (Z * Z)) (q : Z) (bad : bool) : Prop :=
  if bad then q ≠ 0 ∧ (¬ pointer_ok q ∨ q ∈ l.*1 ∨ r q = None) else q = 0.

Lemma capability_loop_spec fuel p l q :
  nodes r p l q → NoDup l.*1 → (fuel + length l = CAPABILITY_FUEL)%nat →
  ∃ l' q' bad, capability_loop ecam fuel a q l.*1 (found l false) c = (c, Some (found l' bad)) ∧ nodes r p l' q' ∧ NoDup l'.*1 ∧ stops l' q' bad.
Proof.
  assert (Hall : ∀ p l q, nodes r p l q → Forall pointer_ok l.*1).
  { induction 1; simpl; by constructor. }
  revert l q. induction fuel as [|fuel IH]; intros l q Hn Hd Hf.
  - pose proof (pointers_bounded _ Hd (Hall _ _ _ Hn)) as Hb. rewrite length_fmap in Hb. unfold CAPABILITY_FUEL, MAX_CAPABILITY_STEPS in Hf. lia.
  - cbn [capability_loop]. destruct (Z.eqb_spec q 0) as [->|Hq]; [by exists l, 0, false|].
    assert (Hbadk : ∀ k, set_malformed (found k false) = found k true) by done.
    destruct (bad_pointer q l.*1) eqn:Eb.
    { exists l, q, true. rewrite Hbadk. split_and!; [done..|]. split; [done|]. unfold bad_pointer in Eb. apply orb_true_iff in Eb as [[Eb|Eb]%orb_true_iff|Eb].
      - left. intros [Hr _]. apply negb_true_iff, andb_false_iff in Eb as [Eb|Eb]; apply Z.leb_gt in Eb; lia.
      - left. intros [_ Ha]. by rewrite Ha in Eb.
      - right. left. apply existsb_exists in Eb as (x & Hx & He). apply Z.eqb_eq in He as <-. by apply list_elem_of_In. }
    apply orb_false_iff in Eb as [[Er Ea]%orb_false_iff Ev]. assert (Hok : pointer_ok q).
    { apply negb_false_iff in Er, Ea. apply andb_true_iff in Er as [E1 E2]. apply Z.leb_le in E1, E2. split; [lia|]. by apply Z.eqb_eq in Ea. }
    assert (Hnew : q ∉ l.*1). { intros Hin. assert (any (Z.eqb q) l.*1 = true); [|congruence]. apply existsb_exists. exists q. split; [by apply list_elem_of_In|apply Z.eqb_refl]. }
    assert (Hd' : NoDup (l.*1 ++ [q])) by (apply NoDup_app; split_and!; [done|set_solver|apply NoDup_singleton]).
    destruct (Nat.eqb_spec (length l.*1) MAX_CAPABILITY_STEPS) as [Hfull|_].
    { exfalso. assert (length (l.*1 ++ [q]) ≤ 48)%nat as Hb.
      - apply pointers_bounded; [done|]. apply Forall_app. split; [by eapply Hall|by apply Forall_singleton].
      - rewrite length_app, Hfull in Hb. unfold MAX_CAPABILITY_STEPS in Hb. simpl in Hb. lia. }
    rewrite stable. destruct (r q) as [v|] eqn:Ev'; simpl.
    + rewrite found_snoc. replace (l.*1 ++ [q]) with (l ++ [(q, v)]).*1 by (by rewrite fmap_app). apply IH; [by apply nodes_snoc| |].
      * by rewrite fmap_app.
      * rewrite length_app. simpl. lia.
    + exists l, q, true. rewrite Hbadk. split_and!; [done..|]. split; [done|]. by right; right.
Qed.

(** Reading the capabilities of a function always ends and reports exactly the list in its registers:
    the flags are those of the nodes that the chain from the head pointer visits, each
    offset is that of the last node with the identifier, and [malformed] is set exactly if
    the chain does not end with a zero pointer but at a place outside the range, one that
    it visited before, or one that cannot be read. The 48 steps never cut a chain off. *)
Theorem capability_list_exact status header_type :
  ∃ k, read_capabilities ecam a status header_type c = (c, Some k) ∧
    if Z.land status 16 =? 0 then k = caps_default
    else
      match r (if Z.land header_type 0x7f =? 2 then 0x14 else 0x34) with
      | None => k = set_malformed caps_default
      | Some head =>
          ∃ l q, nodes r (Z.land head 0xfc) l q ∧ NoDup l.*1 ∧ k = found l (malformed k) ∧ stops l q (malformed k)
      end.
Proof.
  unfold read_capabilities. change (Z.shiftl 1 4) with 16. destruct (Z.land status 16 =? 0); [by eexists|].
  rewrite stable. destruct (r _) as [head|]; cbn [ok_or]; [|by eexists].
  destruct (capability_loop_spec CAPABILITY_FUEL (Z.land head 0xfc) [] (Z.land head 0xfc)) as (l & q & bad & He & Hn & Hd & Hs);
    [apply nodes_nil|apply NoDup_nil_2|reflexivity|]. exists (found l bad). split; [exact He|]. by exists l, q.
Qed.

End walk.

End PciProofs.
