(* ===== verification/Gpt.v ===== *)
(** * GUID partition tables (kernel/src/gpt.rs)

    The CRC-32 of the source, the readers of byte ranges, and [find_fat_partition] with
    its boot self test. [Crc] relates the checksum to polynomial division over GF(2) and
    shows which corruptions it detects; [GptProofs] shows which tables are accepted and
    which partition is selected. *)
From S2P Require Import Prelude Block DeviceIo.
Import Block Io.

Module Gpt.

Definition GPT_HEADER_MIN_SIZE : Z := 92.
Definition MAX_PARTITION_ENTRIES : Z := 128.
Definition MAX_PARTITION_ENTRY_SIZE : Z := 256.
Definition EFI_SYSTEM_GUID : list Z :=
  [0x28; 0x73; 0x2a; 0xc1; 0x1f; 0xf8; 0xd2; 0x11; 0xba; 0x4b; 0x00; 0xa0; 0xc9; 0x3e; 0xc9; 0x3b].
Definition BASIC_DATA_GUID : list Z :=
  [0xa2; 0xa0; 0xd0; 0xeb; 0xe5; 0xb9; 0x33; 0x44; 0x87; 0xc0; 0x68; 0xb6; 0xb7; 0x26; 0x99; 0xc7].

Inductive GptError :=
  | GBlock (e : Error)
  | MissingProtectiveMbr
  | InvalidHeader
  | InvalidChecksum
  | Unsupported
  | GOutOfBounds.

#[export] Instance GptError_eq_dec : EqDecision GptError.
Proof. solve_decision. Defined.

(** ** The checksum. [0_u32.wrapping_sub(state & 1)] is the mask of the low bit. *)
Definition crc_shift (state : Z) : Z :=
  Z.lxor (Z.shiftr state 1) (Z.land 0xedb88320 (as_u32 (0 - Z.land state 1))).

Definition crc_byte (state byte : Z) : Z := Nat.iter 8 crc_shift (Z.lxor state byte).
Definition crc32_extend (state : Z) (bs : list Z) : Z := foldl crc_byte state bs.
Definition not32 (x : Z) : Z := u32_max - x.
Definition crc32 (bs : list Z) : Z := not32 (crc32_extend u32_max bs).

Definition read_u64 (s : list Z) (off : nat) : Z := from_le_bytes (byte_at s <$> seq off 8).

Section device.
Context {D : Type} `{BlockDevice D}.

Definition validate_protective_mbr : io D GptError () :=
  let! sector := dread GBlock 0 zeros in
  if negb (byte_at sector 510 =? 0x55) || negb (byte_at sector 511 =? 0xaa)
  then ierr MissingProtectiveMbr
  else if existsb (λ index : nat,
         let offset := (446 + index * 16)%nat in
         (byte_at sector (offset + 4) =? 0xee) && (read_u32 sector (offset + 8) =? 1)) (seq 0 4)
  then iret ()
  else ierr MissingProtectiveMbr.

(** The two loops over a byte range; every turn advances by at least one byte, so
    [length] turns are enough. *)
Fixpoint entries_crc_loop (fuel : nat) (start : Z) (length consumed : nat) (state : Z) (sector : list Z)
    : io D GptError Z :=
  match fuel with
  | O => iret state
  | S fuel =>
      if (consumed <? length)%nat then
        let byte_offset := start + Z.of_nat consumed in
        let lba := byte_offset / Z.of_nat SECTOR_SIZE in
        let offset := Z.to_nat (byte_offset mod Z.of_nat SECTOR_SIZE) in
        let! sector := dread GBlock lba sector in
        let count := Nat.min (SECTOR_SIZE - offset) (length - consumed) in
        let state := crc32_extend state (slice offset count sector) in
        entries_crc_loop fuel start length (consumed + count) state sector
      else iret state
  end.

Definition entries_crc (start : Z) (length : nat) : io D GptError Z :=
  let! state := entries_crc_loop length start length 0 u32_max zeros in
  iret (not32 state).

Fixpoint read_bytes_loop (fuel : nat) (start : Z) (copied : nat) (output sector : list Z)
    : io D GptError (list Z) :=
  match fuel with
  | O => iret output
  | S fuel =>
      if (copied <? length output)%nat then
        let byte_offset := start + Z.of_nat copied in
        let lba := byte_offset / Z.of_nat SECTOR_SIZE in
        let offset := Z.to_nat (byte_offset mod Z.of_nat SECTOR_SIZE) in
        let! sector := dread GBlock lba sector in
        let count := Nat.min (SECTOR_SIZE - offset) (length output - copied) in
        read_bytes_loop fuel start (copied + count)
          (splice copied (slice offset count sector) output) sector
      else iret output
  end.

Definition read_bytes (start : Z) (output : list Z) : io D GptError (list Z) :=
  read_bytes_loop (length output) start 0 output zeros.

(** One turn of the entry loop. [entry] keeps only the [entry_size] bytes that are read. *)
Definition scan_gpt_entry (entries_start first_usable last_usable : Z) (entry_size : nat)
    (selected : option Partition) (index : nat) : io D GptError (option Partition) :=
  let! entry := read_bytes (entries_start + Z.of_nat (index * entry_size)) (replicate entry_size 0) in
  let kind := take 16 entry in
  if forallb (λ byte, byte =? 0) kind then iret selected
  else
    let first_lba := read_u64 entry 32 in
    let last_lba := read_u64 entry 40 in
    if (first_lba <? first_usable) || (last_usable <? last_lba) || (last_lba <? first_lba)
    then ierr GOutOfBounds
    else if bool_decide (selected = None) &&
            (bool_decide (kind = EFI_SYSTEM_GUID) || bool_decide (kind = BASIC_DATA_GUID))
    then iret (Some (mkPartition first_lba (last_lba - first_lba + 1) 0xee))
    else iret selected.

Definition find_fat_partition : io D GptError (option Partition) :=
  let! _ := validate_protective_mbr in
  let! header := dread GBlock 1 zeros in
  if negb (bool_decide (take 8 header = bytes "EFI PART")) || negb (read_u32 header 8 =? 0x00010000)
  then ierr InvalidHeader
  else
  let header_size := read_u32 header 12 in
  if negb ((GPT_HEADER_MIN_SIZE <=? header_size) && (header_size <=? Z.of_nat SECTOR_SIZE))
  then ierr InvalidHeader
  else
  let expected_header_crc := read_u32 header 16 in
  let header := splice 16 (replicate 4 0) header in
  if negb (crc32 (take (Z.to_nat header_size) header) =? expected_header_crc)
  then ierr InvalidChecksum
  else
  let current_lba := read_u64 header 24 in
  let backup_lba := read_u64 header 32 in
  let first_usable := read_u64 header 40 in
  let last_usable := read_u64 header 48 in
  let entries_lba := read_u64 header 72 in
  let entry_count := read_u32 header 80 in
  let entry_size := read_u32 header 84 in
  let expected_entries_crc := read_u32 header 88 in
  let! sector_count := dcount in
  if negb (current_lba =? 1) || (sector_count <=? backup_lba) || (last_usable <? first_usable)
     || (sector_count <=? last_usable) || (entry_count =? 0) || (MAX_PARTITION_ENTRIES <? entry_count)
     || negb ((128 <=? entry_size) && (entry_size <=? MAX_PARTITION_ENTRY_SIZE))
     || negb (entry_size mod 8 =? 0)
  then ierr Unsupported
  else
  let! entries_bytes := iresult (ok_or (checked_mul64 entry_count entry_size) GOutOfBounds) in
  let! entries_start := iresult (ok_or (checked_mul64 entries_lba (Z.of_nat SECTOR_SIZE)) GOutOfBounds) in
  let! disk_bytes := iresult (ok_or (checked_mul64 sector_count (Z.of_nat SECTOR_SIZE)) GOutOfBounds) in
  if match checked_add64 entries_start entries_bytes with
     | None => true
     | Some e => disk_bytes <? e
     end
  then ierr GOutOfBounds
  else
  let! crc := entries_crc entries_start (Z.to_nat entries_bytes) in
  if negb (crc =? expected_entries_crc) then ierr InvalidChecksum
  else
  ifold (scan_gpt_entry entries_start first_usable last_usable (Z.to_nat entry_size))
    (seq 0 (Z.to_nat entry_count)) None.
End device.

(** [gpt::self_test], on a RAM disk of 16 sectors. *)
Definition flip_bit (i : nat) (s : list Z) : list Z := splice i [Z.lxor (byte_at s i) 1] s.

Definition self_test_mbr : list Z :=
  splice 511 [0xaa] (splice 510 [0x55] (splice (446 + 12) (to_le_bytes 4 15)
    (splice (446 + 8) (to_le_bytes 4 1) (splice (446 + 4) [0xee] zeros)))).
Definition self_test_entries : list Z :=
  splice 40 (to_le_bytes 8 7) (splice 32 (to_le_bytes 8 3) (splice 16 [1] (splice 0 EFI_SYSTEM_GUID zeros))).
Definition self_test_header : list Z :=
  let entries_crc := crc32 (take 128 self_test_entries) in
  let header := splice 88 (to_le_bytes 4 entries_crc) (splice 84 (to_le_bytes 4 128)
    (splice 80 (to_le_bytes 4 1) (splice 72 (to_le_bytes 8 2) (splice 48 (to_le_bytes 8 14)
    (splice 40 (to_le_bytes 8 3) (splice 32 (to_le_bytes 8 15) (splice 24 (to_le_bytes 8 1)
    (splice 12 (to_le_bytes 4 GPT_HEADER_MIN_SIZE) (splice 8 (to_le_bytes 4 0x00010000)
    (splice 0 (bytes "EFI PART") zeros)))))))))) in
  splice 16 (to_le_bytes 4 (crc32 (take (Z.to_nat GPT_HEADER_MIN_SIZE) header))) header.

Definition self_test : bool :=
  write_then (new 16) 0 self_test_mbr (λ disk,
  write_then disk 2 self_test_entries (λ disk,
  write_then disk 1 self_test_header (λ disk,
    let '(disk, r) := find_fat_partition disk in
    let valid := match r with
      | Ok (Some p) => (start_lba p =? 3) && (psectors p =? 5)
      | _ => false
      end in
    write_then disk 1 (flip_bit 20 self_test_header) (λ disk,
      let '(disk, r) := find_fat_partition disk in
      let header_corruption_rejected := bool_decide (r = Err InvalidChecksum) in
      write_then disk 1 self_test_header (λ disk,
      write_then disk 2 (flip_bit 20 self_test_entries) (λ disk,
        let '(_, r) := find_fat_partition disk in
        let entries_corruption_rejected := bool_decide (r = Err InvalidChecksum) in
        valid && header_corruption_rejected && entries_corruption_rejected)))))).

End Gpt.

Module GptTest.
Import Gpt.

(** The published check value of CRC-32. *)
Example crc32_check_value : crc32 (bytes "123456789") = 0xcbf43926.
Proof. vm_compute. reflexivity. Qed.

Example gpt_self_test_passes : Gpt.self_test = true.
Proof. vm_compute. reflexivity. Qed.
End GptTest.

(** * Accepted GUID partition tables

    The byte readers return the bytes of the disk; a table is accepted exactly when its
    checksums and bounds hold, and the selected partition is the first EFI-system or
    basic-data entry. *)
Import Block Io Gpt.

Module GptProofs.
Section proofs.
Context {D : Type} `{BlockDevice D} (ok : D → Prop) (disk : D → Z → list Z) `{!Lawful ok disk}.

(** A range of bytes of the disk. *)
Definition in_disk (d : D) (start : Z) (n : nat) : Prop :=
  0 ≤ start ∧ start + Z.of_nat n ≤ sector_count d * 512.

(** Reads of every device state between two writes see the same bytes. *)
Lemma same_bytes d d' start n :
  same ok disk d d' → in_disk d start n →
  disk_bytes (disk d') start n = disk_bytes (disk d) start n.
Proof.
  intros Hs [H0 Hn]. apply disk_bytes_ext. intros i Hi. apply (same_disk ok disk d d'); [done|].
  split; [apply Z.div_pos; lia|]. apply Z.div_lt_upper_bound; lia.
Qed.

(** One turn of both loops: the bytes of one sector. *)
Lemma turn_slice d start n consumed :
  ok d → in_disk d start n → (consumed < n)%nat →
  let byte_offset := start + Z.of_nat consumed in
  let offset := Z.to_nat (byte_offset mod Z.of_nat SECTOR_SIZE) in
  let count := Nat.min (SECTOR_SIZE - offset) (n - consumed) in
  0 ≤ byte_offset / Z.of_nat SECTOR_SIZE < sector_count d ∧ (0 < count)%nat ∧ (consumed + count ≤ n)%nat ∧
  slice offset count (disk d (byte_offset / Z.of_nat SECTOR_SIZE)) = disk_bytes (disk d) byte_offset count.
Proof.
  intros Hok [H0 Hn] Hc byte_offset offset count.
  assert (Hr : 0 ≤ byte_offset / Z.of_nat SECTOR_SIZE < sector_count d).
  { change (Z.of_nat SECTOR_SIZE) with 512. subst byte_offset.
    split; [apply Z.div_pos; lia|]. apply Z.div_lt_upper_bound; lia. }
  pose proof (Z.mod_pos_bound byte_offset (Z.of_nat SECTOR_SIZE) ltac:(done)) as Hm.
  change (Z.of_nat SECTOR_SIZE) with 512 in Hm at 2. subst count offset. unfold SECTOR_SIZE in *.
  split_and!; [lia..|].
  unfold slice. apply disk_bytes_slice; [subst byte_offset; lia|by apply (law_length d)|unfold SECTOR_SIZE; lia].
Qed.

(** Both loops give the bytes of the range; only a faulty device makes them fail. *)
Lemma entries_crc_loop_spec fuel d0 d start n consumed state sector :
  ok d0 → same ok disk d0 d → in_disk d0 start n → (n - consumed ≤ fuel)%nat → (consumed ≤ n)%nat →
  length sector = SECTOR_SIZE →
  wp (entries_crc_loop fuel start n consumed state sector) d (λ d' r,
    same ok disk d0 d' ∧
    match r with
    | Ok s => s = crc32_extend state (disk_bytes (disk d0) (start + Z.of_nat consumed) (n - consumed))
    | Err e => ¬ Reliable ok
    end).
Proof.
  intros Hok. revert d consumed state sector.
  induction fuel as [|fuel IH]; intros d consumed state sector Hs Hin Hf Hc Hsec.
  - simpl. apply wp_ret. split; [done|]. by replace (n - consumed)%nat with 0%nat by lia.
  - cbn [entries_crc_loop]. destruct (Nat.ltb_spec consumed n) as [Hlt|].
    + destruct (turn_slice d0 start n consumed Hok Hin Hlt) as (Hr & Hpos & Hle & Hsl).
      apply wp_bind, (wp_read_in ok disk); [by apply (same_ok ok disk d0)|by rewrite (same_count _ _ _ _ Hs)|done| |].
      * intros d' e Hs' He. split; [by eapply same_trans|done].
      * intros d' Hs'. rewrite (same_disk _ _ _ _ _ Hs Hr), Hsl.
        set (count := Nat.min _ _) in *.
        eapply wp_mono; [apply IH; [by eapply same_trans|done|lia|lia|by apply (law_length d0)]|].
        intros d'' r [Hs'' Hres]. split; [done|]. destruct r as [s|]; [|done]. rewrite Hres.
        replace (n - consumed)%nat with (count + (n - (consumed + count)))%nat by lia.
        rewrite disk_bytes_app. unfold crc32_extend at 3. rewrite foldl_app.
        by rewrite Nat2Z.inj_add, Z.add_assoc.
    + apply wp_ret. split; [done|]. by replace (n - consumed)%nat with 0%nat by lia.
Qed.

Lemma entries_crc_spec d0 d start n :
  ok d0 → same ok disk d0 d → in_disk d0 start n →
  wp (entries_crc start n) d (λ d' r,
    same ok disk d0 d' ∧
    match r with Ok c => c = crc32 (disk_bytes (disk d0) start n) | Err _ => ¬ Reliable ok end).
Proof.
  intros Hok Hs Hin. apply wp_bind.
  eapply wp_mono; [apply (entries_crc_loop_spec n d0 d start n 0); (done || lia)|].
  intros d' [s|e] [Hs' Hr]; [|done]. apply wp_ret. split; [done|]. subst s.
  by rewrite Nat.sub_0_r, Z.add_0_r.
Qed.

Lemma read_bytes_loop_spec fuel d0 d start copied output sector :
  let n := length output in
  ok d0 → same ok disk d0 d → in_disk d0 start n → (n - copied ≤ fuel)%nat → (copied ≤ n)%nat →
  length sector = SECTOR_SIZE → take copied output = disk_bytes (disk d0) start copied →
  wp (read_bytes_loop fuel start copied output sector) d (λ d' r,
    same ok disk d0 d' ∧
    match r with Ok out => out = disk_bytes (disk d0) start n | Err e => ¬ Reliable ok end).
Proof.
  intros n Hok. subst n. revert d copied output sector.
  induction fuel as [|fuel IH]; intros d copied output sector Hs Hin Hf Hc Hsec Htk.
  - simpl. apply wp_ret. split; [done|]. replace copied with (length output) in Htk by lia.
    by rewrite firstn_all in Htk.
  - cbn [read_bytes_loop]. destruct (Nat.ltb_spec copied (length output)) as [Hlt|].
    + destruct (turn_slice d0 start (length output) copied Hok Hin Hlt) as (Hr & Hpos & Hle & Hsl).
      apply wp_bind, (wp_read_in ok disk); [by apply (same_ok ok disk d0)|by rewrite (same_count _ _ _ _ Hs)|done| |].
      * intros d' e Hs' He. split; [by eapply same_trans|done].
      * intros d' Hs'. rewrite (same_disk _ _ _ _ _ Hs Hr), Hsl.
        set (count := Nat.min _ _) in *. set (part := disk_bytes _ _ count).
        assert (Hp : length part = count) by apply length_disk_bytes.
        assert (Hlen : length (splice copied part output) = length output).
        { unfold splice. rewrite !length_app, length_take, length_drop. lia. }
        eapply wp_mono; [apply IH; [by eapply same_trans|by rewrite Hlen|lia|lia|by apply (law_length d0)|]|].
        -- unfold splice. rewrite app_assoc, take_app_length' by (rewrite length_app, length_take; lia).
           by rewrite Htk, disk_bytes_app.
        -- intros d'' r. by rewrite Hlen.
    + apply wp_ret. split; [done|]. replace copied with (length output) in Htk by lia.
      by rewrite firstn_all in Htk.
Qed.

Lemma read_bytes_spec d0 d start n :
  ok d0 → same ok disk d0 d → in_disk d0 start n →
  wp (read_bytes start (replicate n 0)) d (λ d' r,
    same ok disk d0 d' ∧
    match r with Ok out => out = disk_bytes (disk d0) start n | Err e => ¬ Reliable ok end).
Proof.
  intros Hok Hs Hin. unfold read_bytes.
  pose proof (read_bytes_loop_spec (length (replicate n 0)) d0 d start 0 (replicate n 0) zeros) as Hl.
  rewrite !length_replicate in *. apply Hl; (done || lia).
Qed.

(** ** The table *)
(** What a valid table says, as a function of the disk. *)
Definition header_of (f : Z → list Z) : list Z := splice 16 (replicate 4 0) (f 1).
Definition mbr_valid (f : Z → list Z) : Prop :=
  byte_at (f 0) 510 = 0x55 ∧ byte_at (f 0) 511 = 0xaa ∧
  ∃ i, (i < 4)%nat ∧ byte_at (f 0) (446 + i * 16 + 4) = 0xee ∧ read_u32 (f 0) (446 + i * 16 + 8) = 1.

(** Entry [i] of the array. *)
Definition entry_of (f : Z → list Z) (i : nat) : list Z :=
  let size := read_u32 (header_of f) 84 in
  disk_bytes f (read_u64 (header_of f) 72 * 512 + Z.of_nat i * size) (Z.to_nat size).
Definition unused (e : list Z) : Prop := Forall (λ b, b = 0) (take 16 e).
Definition is_fat_kind (e : list Z) : Prop := take 16 e = EFI_SYSTEM_GUID ∨ take 16 e = BASIC_DATA_GUID.

#[export] Instance unused_dec e : Decision (unused e).
Proof. unfold unused. apply _. Defined.
#[export] Instance is_fat_kind_dec e : Decision (is_fat_kind e).
Proof. unfold is_fat_kind. apply _. Defined.

Definition usable (f : Z → list Z) (e : list Z) : Prop :=
  read_u64 (header_of f) 40 ≤ read_u64 e 32 ∧ read_u64 e 40 ≤ read_u64 (header_of f) 48 ∧
  read_u64 e 32 ≤ read_u64 e 40.

(** The checks before the entries are looked at. *)
Record header_valid (f : Z → list Z) (n : Z) : Prop := {
  hv_disk : 1 < n;
  hv_magic : take 8 (f 1) = bytes "EFI PART";
  hv_revision : read_u32 (f 1) 8 = 0x00010000;
  hv_size : 92 ≤ read_u32 (f 1) 12 ≤ 512;
  hv_crc : crc32 (take (Z.to_nat (read_u32 (f 1) 12)) (header_of f)) = read_u32 (f 1) 16;
  hv_current : read_u64 (header_of f) 24 = 1;
  hv_backup : read_u64 (header_of f) 32 < n;
  hv_usable : read_u64 (header_of f) 40 ≤ read_u64 (header_of f) 48 < n;
  hv_count : 0 < read_u32 (header_of f) 80 ≤ 128;
  hv_entry : 128 ≤ read_u32 (header_of f) 84 ≤ 256;
  hv_align : read_u32 (header_of f) 84 mod 8 = 0;
  hv_inside : read_u64 (header_of f) 72 * 512 +
              read_u32 (header_of f) 80 * read_u32 (header_of f) 84 ≤ n * 512 ≤ u64_max;
  hv_entries_crc : crc32 (disk_bytes f (read_u64 (header_of f) 72 * 512)
      (Z.to_nat (read_u32 (header_of f) 80 * read_u32 (header_of f) 84))) = read_u32 (header_of f) 88
}.

Definition entries_of (f : Z → list Z) : list (list Z) :=
  entry_of f <$> seq 0 (Z.to_nat (read_u32 (header_of f) 80)).

Definition table_valid (f : Z → list Z) (n : Z) : Prop :=
  mbr_valid f ∧ header_valid f n ∧ Forall (λ e, unused e ∨ usable f e) (entries_of f).

(** The selection: the first entry in use with one of the two kinds. *)
Definition selection (es : list (list Z)) : option Partition :=
  e ← head (filter (λ e, ¬ unused e ∧ is_fat_kind e) es);
  Some (mkPartition (read_u64 e 32) (read_u64 e 40 - read_u64 e 32 + 1) 0xee).

(** ** The stages of the search *)
Lemma read_sector_spec d0 d lba (P : Prop) :
  ok d0 → same ok disk d0 d → 0 ≤ lba → (P → lba < sector_count d0) →
  wp (dread GBlock lba zeros) d (λ d' r,
    same ok disk d0 d' ∧
    match r with Ok s => s = disk d0 lba ∧ lba < sector_count d0 | Err _ => ¬ Reliable ok ∨ ¬ P end).
Proof.
  intros Hok Hs Hl HP. destruct (Z.lt_ge_cases lba (sector_count d0)) as [Hlt|Hge].
  - apply (wp_read_in ok disk); [by eapply same_ok|rewrite (same_count _ _ _ _ Hs); lia|done| |].
    + intros d' e Hs' Hr. split; [by eapply same_trans|by left].
    + intros d' Hs'. split; [by eapply same_trans|]. split; [|done]. by rewrite (same_disk _ _ _ _ _ Hs (conj Hl Hlt)).
  - apply (wp_read ok disk); [by eapply same_ok|done| |].
    + intros d' e Hs'. split; [by eapply same_trans|]. right. intros HP'. specialize (HP HP'). lia.
    + intros d' _. rewrite (same_count _ _ _ _ Hs). lia.
Qed.

Lemma validate_protective_mbr_spec d :
  ok d → 0 < sector_count d →
  wp validate_protective_mbr d (λ d' r,
    same ok disk d d' ∧
    match r with Ok _ => mbr_valid (disk d) | Err _ => ¬ Reliable ok ∨ ¬ mbr_valid (disk d) end).
Proof.
  intros Hok Hn. apply wp_bind.
  eapply wp_mono; [apply (read_sector_spec d d 0 True); [done|by apply io_same_refl|lia|done]|].
  intros d' [sector|e] [Hs Hr]; [|split; [done|left; tauto]]. destruct Hr as [-> _].
  destruct (negb _ || negb _) eqn:E1; [|destruct (existsb _ _) eqn:E2].
  - apply wp_err. split; [done|]. right. intros (H1 & H2 & _). rewrite H1, H2 in E1. done.
  - apply wp_ret. split; [done|]. reflect_bools. split_and!; [done..|].
    apply existsb_exists in E2 as (i & Hi & E2). apply in_seq in Hi.
    cbv beta zeta in E2. reflect_bools. exists i. split_and!; [lia|done..].
  - apply wp_err. split; [done|]. right. intros (_ & _ & i & Hi & H1 & H2).
    apply not_true_iff_false in E2. apply E2.
    apply existsb_exists. exists i. split; [apply in_seq; lia|].
    cbv beta zeta. by rewrite H1, H2.
Qed.

Lemma selection_snoc es e :
  selection (es ++ [e]) =
    match selection es with
    | Some p => Some p
    | None => if decide (¬ unused e ∧ is_fat_kind e)
              then Some (mkPartition (read_u64 e 32) (read_u64 e 40 - read_u64 e 32 + 1) 0xee) else None
    end.
Proof.
  unfold selection. rewrite filter_app, filter_cons. destruct (filter _ es); [|done]. simpl.
  by case_decide.
Qed.

Lemma forallb_unused e : forallb (λ byte, byte =? 0) (take 16 e) = bool_decide (unused e).
Proof.
  apply eq_iff_eq_true. rewrite bool_decide_eq_true. unfold unused.
  induction (take 16 e) as [|b l IH]; [done|]. cbn [forallb].
  by rewrite Forall_cons, andb_true_iff, Z.eqb_eq, IH.
Qed.

Section table.
Context (d0 : D) (Hok : ok d0) (Hbytes : ∀ l, 0 ≤ l < sector_count d0 → Forall is_byte (disk d0 l)).
Local Abbreviation f := (disk d0).
Local Abbreviation hdr := (header_of (disk d0)).

Lemma read_u64_nonneg s off : Forall is_byte s → 0 ≤ read_u64 s off.
Proof.
  intros Hs. apply from_le_bytes_bound. apply Forall_fmap, Forall_forall. intros i _. simpl.
  unfold byte_at. destruct (s !! i) eqn:E; [by eapply Forall_lookup_1|]. done.
Qed.

Lemma header_bytes : 1 < sector_count d0 → Forall is_byte hdr.
Proof.
  intros Hn. pose proof (Hbytes 1 ltac:(lia)) as Hb. unfold header_of, splice. rewrite !Forall_app.
  split_and!; [by apply Forall_take|by repeat constructor|by apply Forall_drop].
Qed.

(** The entry loop from entry [i]. *)
Lemma scan_entries_spec m i d :
  header_valid f (sector_count d0) → same ok disk d0 d →
  (i + m = Z.to_nat (read_u32 hdr 80))%nat →
  Forall (λ e, unused e ∨ usable f e) (entry_of f <$> seq 0 i) →
  wp (ifold (scan_gpt_entry (read_u64 hdr 72 * 512) (read_u64 hdr 40) (read_u64 hdr 48)
        (Z.to_nat (read_u32 hdr 84))) (seq i m) (selection (entry_of f <$> seq 0 i))) d (λ d' r,
    same ok disk d0 d' ∧
    match r with
    | Ok p => Forall (λ e, unused e ∨ usable f e) (entries_of f) ∧ p = selection (entries_of f)
    | Err _ => ¬ Reliable ok ∨ ¬ Forall (λ e, unused e ∨ usable f e) (entries_of f)
    end).
Proof.
  intros Hv. revert i d. induction m as [|m IH]; intros i d Hs Hi Hall.
  - apply wp_ret. split; [done|]. unfold entries_of.
    replace (Z.to_nat (read_u32 hdr 80)) with i by lia. done.
  - assert (Hstep : entry_of f <$> seq 0 (S i) = (entry_of f <$> seq 0 i) ++ [entry_of f i]).
    { rewrite seq_S, fmap_app. done. }
    assert (Hin : in_disk d0 (read_u64 hdr 72 * 512 + Z.of_nat (i * Z.to_nat (read_u32 hdr 84)))
                    (Z.to_nat (read_u32 hdr 84))).
    { pose proof (hv_entry _ _ Hv). pose proof (hv_inside _ _ Hv). pose proof (hv_count _ _ Hv).
      pose proof (read_u64_nonneg hdr 72 (header_bytes (hv_disk _ _ Hv))).
      unfold in_disk. rewrite Nat2Z.inj_mul, Z2Nat.id by lia. split; [nia|].
      assert (Z.of_nat i + 1 ≤ read_u32 hdr 80) by lia. nia. }
    assert (Hbad : ∀ e, ¬ (unused e ∨ usable f e) → e = entry_of f i →
      ¬ Forall (λ e, unused e ∨ usable f e) (entries_of f)).
    { intros e He -> HF. apply He. apply (Forall_lookup_1 _ _ i (entry_of f i)) in HF; [done|].
      unfold entries_of. rewrite list_lookup_fmap, lookup_seq_lt by lia. done. }
    cbn [seq ifold]. unfold scan_gpt_entry at 1. apply wp_bind, wp_bind.
    eapply wp_mono; [by apply read_bytes_spec|]. intros d' [e|] [Hs' He]; [|split; [done|by left]].
    assert (Hentry : e = entry_of f i).
    { rewrite He. unfold entry_of. f_equal. pose proof (hv_entry _ _ Hv). lia. }
    clear He. rewrite forallb_unused. destruct (bool_decide (unused e)) eqn:Hu; reflect_bools.
    + apply wp_ret. specialize (IH (S i) d' Hs' ltac:(lia)). rewrite Hstep in IH.
      rewrite selection_snoc in IH. rewrite <-Hentry in IH. rewrite decide_False in IH by tauto.
      replace (match selection (entry_of f <$> seq 0 i) with Some p => Some p | None => None end)
        with (selection (entry_of f <$> seq 0 i)) in IH by by destruct (selection _).
      apply IH. apply Forall_app. split; [done|]. apply Forall_singleton. by left.
    + destruct ((read_u64 e 32 <? _) || _ || _) eqn:Hrange.
      { apply wp_err. split; [done|]. right. apply (Hbad e); [|done]. intros [?|(H1 & H2 & H3)]; [done|].
        rewrite (proj2 (Z.ltb_ge _ _) H1), (proj2 (Z.ltb_ge _ _) H2), (proj2 (Z.ltb_ge _ _) H3) in Hrange. done. }
      assert (Huse : usable f e) by (reflect_bools; by split_and!).
      specialize (IH (S i) d' Hs' ltac:(lia)). rewrite Hstep, selection_snoc in IH. rewrite <-Hentry in IH.
      assert (Hall' : Forall (λ e, unused e ∨ usable f e) ((entry_of f <$> seq 0 i) ++ [e])).
      { apply Forall_app. split; [done|]. apply Forall_singleton. by right. }
      specialize (IH Hall'). destruct (selection (entry_of f <$> seq 0 i)) as [p|]; [by apply wp_ret|].
      rewrite bool_decide_eq_true_2 by done. rewrite <-bool_decide_or. cbn [andb].
      fold (is_fat_kind e). destruct (decide (is_fat_kind e)) as [Hk|Hk].
      * rewrite decide_True in IH by done. rewrite bool_decide_eq_true_2 by done. by apply wp_ret.
      * rewrite decide_False in IH by tauto. rewrite bool_decide_eq_false_2 by done. by apply wp_ret.
Qed.

(** After the protective MBR. *)
Definition accepted (d' : D) (r : result (option Partition) GptError) : Prop :=
  same ok disk d0 d' ∧
  match r with
  | Ok p => table_valid f (sector_count d0) ∧ p = selection (entries_of f)
  | Err _ => ¬ Reliable ok ∨ ¬ table_valid f (sector_count d0)
  end.

Lemma accepted_refuse d e :
  same ok disk d0 d → ¬ header_valid f (sector_count d0) → accepted d (Err e).
Proof. intros Hs Hn. split; [done|]. right. intros (_ & Hv & _). done. Qed.

Lemma checked_mul64_cases a b :
  checked_mul64 a b = if decide (a * b ≤ u64_max) then Some (a * b) else None.
Proof. unfold checked_mul64. case_decide; [by rewrite (proj2 (Z.leb_le _ _))|by rewrite (proj2 (Z.leb_gt _ _)) by lia]. Qed.

Lemma entries_stage d :
  mbr_valid f → same ok disk d0 d → header_valid f (sector_count d0) →
  wp (ifold (scan_gpt_entry (read_u64 hdr 72 * 512) (read_u64 hdr 40) (read_u64 hdr 48)
        (Z.to_nat (read_u32 hdr 84))) (seq 0 (Z.to_nat (read_u32 hdr 80))) None) d accepted.
Proof.
  intros Hm Hs Hv. eapply wp_mono; [apply (scan_entries_spec (Z.to_nat (read_u32 hdr 80)) 0 d); done|].
  intros d' [p|e] [Hs' Hr].
  - destruct Hr as [HF ->]. split; [done|]. by split_and!.
  - split; [done|]. destruct Hr as [?|Hr]; [by left|right]. intros (_ & _ & HF). done.
Qed.

Lemma find_fat_partition_spec : 0 < sector_count d0 → wp find_fat_partition d0 accepted.
Proof.
  intros Hn. apply wp_bind. eapply wp_mono; [by apply validate_protective_mbr_spec|].
  intros d1 [_u|e] [Hs1 Hm]; [|split; [done|]; destruct Hm as [?|Hm]; [by left|right; intros (? & _); done]].
  apply wp_bind. eapply wp_mono.
  { apply (read_sector_spec d0 d1 1 (header_valid f (sector_count d0))); [done..|apply hv_disk]. }
  intros d2 [header|e] [Hs2 Hh]; [|split; [done|]; destruct Hh as [?|Hh]; [by left|right; intros (_ & ? & _); done]].
  destruct Hh as [-> Hd]. pose proof (header_bytes Hd) as Hhb.
  assert (Hrefuse : ∀ P : Prop, (header_valid f (sector_count d0) → P) → ¬ P → ∀ d e,
    same ok disk d0 d → accepted d (Err e)) by (intros P HP HnP d e Hs; apply accepted_refuse; tauto).
  wp_case E1.
  { apply wp_err, (Hrefuse _ (λ v, conj (hv_magic _ _ v) (hv_revision _ _ v))); [|done]. intros [H1 H2].
    rewrite bool_decide_eq_true_2, H2 in E1 by done. done. }
  wp_case E2.
  { apply wp_err, (Hrefuse _ (hv_size _ _)); [|done]. intros H1. unfold GPT_HEADER_MIN_SIZE in E2.
    change (Z.of_nat SECTOR_SIZE) with 512 in E2. by rewrite !(proj2 (Z.leb_le _ _)) in E2 by lia. }
  cbv zeta. change (splice 16 (replicate 4 0) (disk d0 1)) with hdr. wp_case E3.
  { apply wp_err, (Hrefuse _ (hv_crc _ _)); [|done]. intros H1. by rewrite H1, Z.eqb_refl in E3. }
  apply wp_bind, wp_count.
  rewrite (same_count _ _ _ _ Hs2). set (n := sector_count d0) in *.
  wp_case E4.
  { apply wp_err, (Hrefuse _ (λ v, conj (hv_current _ _ v) (conj (hv_backup _ _ v) (conj (hv_usable _ _ v)
      (conj (hv_count _ _ v) (conj (hv_entry _ _ v) (hv_align _ _ v))))))); [|done].
    intros (H1 & H2 & H3 & H4 & H5 & H6). unfold MAX_PARTITION_ENTRIES, MAX_PARTITION_ENTRY_SIZE in E4.
    rewrite H1, H6, (proj2 (Z.leb_gt _ _) H2), (proj2 (Z.leb_gt _ _) (proj2 H3)), (proj2 (Z.ltb_ge _ _) (proj1 H3)) in E4.
    rewrite (proj2 (Z.eqb_neq (read_u32 _ 80) 0)), (proj2 (Z.ltb_ge 128 _)), !(proj2 (Z.leb_le _ _)) in E4 by lia. done. }
  unfold GPT_HEADER_MIN_SIZE, MAX_PARTITION_ENTRIES, MAX_PARTITION_ENTRY_SIZE in *.
  change (Z.of_nat SECTOR_SIZE) with 512 in *. reflect_bools.
  assert (H64 : 0 ≤ read_u64 hdr 72) by by apply read_u64_nonneg.
  assert (H80 : 0 ≤ read_u32 hdr 80).
  { apply read_u32_range. eapply Forall_impl; [exact Hhb|]. unfold is_byte, u8_max. lia. }
  rewrite !checked_mul64_cases. assert (read_u32 hdr 80 * read_u32 hdr 84 ≤ 128 * 256) by nia.
  rewrite decide_True by (unfold u64_max; lia). apply wp_bind, wp_result.
  destruct (decide (read_u64 hdr 72 * 512 ≤ u64_max)) as [H72|H72]; apply wp_bind, wp_result; cbn [ok_or].
  2: { apply (Hrefuse _ (hv_inside _ _)); [|done]. intros [Hi1 Hi2]. nia. }
  destruct (decide (n * 512 ≤ u64_max)) as [Hnb|Hnb]; apply wp_bind, wp_result; cbn [ok_or].
  2: { apply (Hrefuse _ (hv_inside _ _)); [|done]. intros [Hi1 Hi2]. lia. }
  unfold checked_add64. wp_case E5.
  { apply wp_err, (Hrefuse _ (hv_inside _ _)); [|done]. intros [Hi1 Hi2].
    rewrite (proj2 (Z.leb_le _ _)) in E5 by lia. apply Z.ltb_lt in E5. lia. }
  destruct (Z.leb_spec (read_u64 hdr 72 * 512 + read_u32 hdr 80 * read_u32 hdr 84) u64_max); [|done].
  apply Z.ltb_ge in E5. apply wp_bind. eapply wp_mono.
  { apply (entries_crc_spec d0 d2); [done..|]. unfold in_disk. fold n. rewrite Z2Nat.id by nia. lia. }
  intros d3 [crc|e] [Hs3 Hc]; [|split; [done|by left]]. subst crc.
  wp_case E6.
  { apply wp_err, (Hrefuse _ (hv_entries_crc _ _)); [|done]. intros Hi1. by rewrite Hi1, Z.eqb_refl in E6. }
  apply entries_stage; [done..|]. reflect_bools. by split; (done || lia).
Qed.
End table.

Lemma selection_inside f n p :
  table_valid f n → selection (entries_of f) = Some p → 0 < psectors p ∧ start_lba p + psectors p ≤ n.
Proof.
  intros (_ & Hv & HF). unfold selection. destruct (filter _ (entries_of f)) as [|e l] eqn:E; [done|].
  simpl. intros [= <-]. simpl.
  assert (Hin : e ∈ filter (λ e, ¬ unused e ∧ is_fat_kind e) (entries_of f)) by (rewrite E; left).
  apply list_elem_of_filter in Hin as [[Hu _] Hin]. rewrite Forall_forall in HF.
  destruct (HF e Hin) as [?|(H1 & H2 & H3)]; [done|]. pose proof (hv_usable _ _ Hv). lia.
Qed.

(** On a device whose accesses in range succeed, a table is accepted exactly when
    its MBR, header, checksums and entries are valid, and the result is then the first
    FAT-like entry; the disk is not changed and the partition lies inside it. *)
Theorem gpt_selection_exact d :
  Reliable ok → ok d → 0 < sector_count d → (∀ l, 0 ≤ l < sector_count d → Forall is_byte (disk d l)) →
  let '(d', r) := find_fat_partition d in
  same ok disk d d' ∧
  (∀ p, r = Ok p ↔ table_valid (disk d) (sector_count d) ∧ p = selection (entries_of (disk d))) ∧
  (∀ p, r = Ok (Some p) → 0 < psectors p ∧ start_lba p + psectors p ≤ sector_count d).
Proof.
  intros HR Hok Hn Hb. pose proof (find_fat_partition_spec d Hok Hb Hn) as Hs. unfold wp in Hs.
  destruct (find_fat_partition d) as [d' r]. destruct Hs as [Hs Hr]. split; [done|]. destruct r as [q|e].
  - destruct Hr as [Hv ->]. split.
    + intros p. split; [by intros [= <-]|by intros [_ ->]].
    + intros p [= Hp]. by apply (selection_inside (disk d)).
  - split; [|done]. intros p. split; [done|]. intros [Hv _]. destruct Hr; [done|]. by exfalso.
Qed.
End proofs.
End GptProofs.

Module GptDemo.
Import GptProofs.

Definition demo_disk : RamDisk :=
  mkRamDisk ([self_test_mbr; self_test_header; self_test_entries] ++ replicate 13 zeros) false.

Lemma gpt_selection_exact_witness :
  table_valid (ram_disk demo_disk) 16 ∧ selection (entries_of (ram_disk demo_disk)) = Some (mkPartition 3 5 0xee).
Proof.
  assert (Hs : forallb (λ s, bool_decide (length s = SECTOR_SIZE ∧ Forall is_byte s)) (sectors demo_disk) = true)
    by (vm_compute; reflexivity).
  assert (Hall : Forall (λ s, length s = SECTOR_SIZE ∧ Forall is_byte s) (sectors demo_disk)).
  { apply Forall_forall. intros s Hin. apply list_elem_of_In in Hin.
    rewrite forallb_forall in Hs. exact (bool_decide_eq_true_1 _ (Hs s Hin)). }
  assert (Hf : snd (find_fat_partition demo_disk) = Ok (Some (mkPartition 3 5 0xee)))
    by (vm_compute; reflexivity).
  pose proof (gpt_selection_exact ram_ok ram_disk demo_disk ram_reliable) as Ht.
  destruct (find_fat_partition demo_disk) as [d' r]. simpl in Hf. subst r.
  destruct Ht as (_ & Ht & _).
  - split; [vm_compute; done|]. eapply Forall_impl; [exact Hall|]. by intros s [? _].
  - done.
  - intros l Hl. unfold ram_disk. destruct (sectors demo_disk !! Z.to_nat l) as [s|] eqn:E; [|by constructor].
    by eapply (Forall_lookup_1 _ _ _ _ Hall).
  - destruct (proj1 (Ht _) eq_refl) as [Hv He]. split; [exact Hv|by symmetry].
Defined.
End GptDemo.
