(* ===== verification/Crc.v ===== *)
(** * The CRC-32 of kernel/src/gpt.rs against polynomial division

    The reference: the message as a bit string, its first 32 bits complemented, extended
    by 32 zeros, divided over GF(2) by the generator of degree 32; the remainder is
    reflected and complemented. The byte-at-a-time loop of the source computes exactly
    this, and it detects every corruption confined to four consecutive bytes. *)
From S2P Require Import Prelude Block DeviceIo Bytes Gpt.
Import Gpt.

Module Crc.

Definition GENERATOR : Z := 0x104c11db7.

(** Long division: bring down the next bit, subtract the generator if it fits. *)
Definition div_step (r : Z) (b : bool) : Z :=
  let r := 2 * r + Z.b2z b in
  if Z.testbit r 32 then Z.lxor r GENERATOR else r.
Definition remainder_from (r : Z) (l : list bool) : Z := foldl div_step r l.

(** The [n] low bits, least significant first, and their mirror image. *)
Fixpoint low_bits (n : nat) (x : Z) : list bool :=
  match n with O => [] | S n => Z.odd x :: low_bits n (x / 2) end.
Fixpoint reflect (n : nat) (x : Z) : Z :=
  match n with O => 0 | S n => 2 ^ Z.of_nat n * Z.b2z (Z.odd x) + reflect n (x / 2) end.

Definition message_bits (bs : list Z) : list bool := bs ≫= low_bits 8.
Definition flip32 (l : list bool) : list bool := (negb <$> take 32 l) ++ drop 32 l.

Definition crc_reference (bs : list Z) : Z :=
  Z.lxor (reflect 32 (remainder_from 0 (flip32 (message_bits bs ++ replicate 32 false)))) u32_max.

Definition is_u32 (x : Z) : Prop := 0 ≤ x < 2 ^ 32.

(** ** Bits *)
Lemma testbit_double a (b : bool) i :
  0 ≤ i → Z.testbit (2 * a + Z.b2z b) i = if i =? 0 then b else Z.testbit a (i - 1).
Proof.
  intros Hi. destruct (Z.eqb_spec i 0) as [->|]; [apply Z.testbit_0_r|].
  replace i with (Z.succ (i - 1)) at 1 by lia. apply Z.testbit_succ_r. lia.
Qed.

Lemma testbit_even a i : 0 ≤ i → Z.testbit (2 * a) i = if i =? 0 then false else Z.testbit a (i - 1).
Proof. intros Hi. by rewrite <-(testbit_double a false i Hi), Z.add_0_r. Qed.

Lemma double_lxor a b c d :
  2 * Z.lxor a b + Z.b2z (xorb c d) = Z.lxor (2 * a + Z.b2z c) (2 * b + Z.b2z d).
Proof.
  apply Z.bits_inj_iff'. intros i Hi. rewrite Z.lxor_spec, !testbit_double by done.
  destruct (i =? 0); [done|]. by rewrite Z.lxor_spec.
Qed.

Lemma lxor_shuffle a b c d : Z.lxor (Z.lxor a b) (Z.lxor c d) = Z.lxor (Z.lxor a c) (Z.lxor b d).
Proof.
  rewrite !Z.lxor_assoc. f_equal. rewrite <-!Z.lxor_assoc. f_equal. apply Z.lxor_comm.
Qed.

Lemma div_step_lxor r s b c :
  div_step (Z.lxor r s) (xorb b c) = Z.lxor (div_step r b) (div_step s c).
Proof.
  unfold div_step. rewrite double_lxor, Z.lxor_spec.
  destruct (Z.testbit (2 * r + _) 32), (Z.testbit (2 * s + _) 32); simpl xorb; cbv iota.
  - by rewrite lxor_shuffle, Z.lxor_nilpotent, Z.lxor_0_r.
  - rewrite !Z.lxor_assoc. f_equal. apply Z.lxor_comm.
  - by rewrite Z.lxor_assoc.
  - done.
Qed.

Lemma remainder_lxor r s l k :
  length l = length k →
  remainder_from (Z.lxor r s) (zip_with xorb l k) = Z.lxor (remainder_from r l) (remainder_from s k).
Proof.
  revert r s k. induction l as [|b l IH]; intros r s [|c k] Hl; try done. simpl.
  rewrite div_step_lxor. apply IH. by injection Hl.
Qed.

Lemma remainder_app r l k : remainder_from r (l ++ k) = remainder_from (remainder_from r l) k.
Proof. apply foldl_app. Qed.

Lemma zip_xorb_false l : zip_with xorb l (replicate (length l) false) = l.
Proof. induction l as [|b l IH]; simpl; [done|]. by rewrite xorb_false_r, IH. Qed.

Lemma zip_false_xorb l : zip_with xorb (replicate (length l) false) l = l.
Proof. induction l as [|b l IH]; simpl; [done|]. by rewrite IH; destruct b. Qed.

(** ** The shift register: division with the 32 zeros already brought down *)
Definition FEEDBACK : Z := 0x04c11db7.
Definition reg_step (s : Z) (b : bool) : Z := Z.lxor (div_step s false) (if b then FEEDBACK else 0).
Definition reg_run (s : Z) (l : list bool) : Z := foldl reg_step s l.

Lemma feedback_is_remainder b :
  remainder_from (Z.b2z b) (replicate 32 false) = if b then FEEDBACK else 0.
Proof. destruct b; vm_compute; reflexivity. Qed.

Lemma reg_run_division s l :
  reg_run s l = Z.lxor (remainder_from s (replicate (length l) false))
                       (remainder_from 0 (l ++ replicate 32 false)).
Proof.
  revert s. induction l as [|b l IH]; intros s.
  - change (reg_run s []) with s. change (remainder_from s (replicate (length []) false)) with s.
    change (remainder_from 0 ([] ++ replicate 32 false)) with (remainder_from (Z.b2z false) (replicate 32 false)).
    by rewrite feedback_is_remainder, Z.lxor_0_r.
  - change (reg_run s (b :: l)) with (reg_run (reg_step s b) l). rewrite IH.
    change (remainder_from 0 ((b :: l) ++ replicate 32 false))
      with (remainder_from (div_step 0 b) (l ++ replicate 32 false)).
    replace (div_step 0 b) with (Z.lxor (Z.b2z b) 0) by (destruct b; reflexivity).
    rewrite <-(zip_false_xorb (l ++ replicate 32 false)) at 2.
    rewrite remainder_lxor by by rewrite length_replicate.
    rewrite length_app, length_replicate.
    rewrite (Nat.add_comm (length l) 32), (replicate_add 32), (remainder_app (Z.b2z b)), feedback_is_remainder.
    unfold reg_step. rewrite <-(zip_xorb_false (replicate (length l) false)) at 1.
    rewrite length_replicate, remainder_lxor by done.
    change (remainder_from s (replicate (length (b :: l)) false))
      with (remainder_from (div_step s false) (replicate (length l) false)).
    by rewrite Z.lxor_assoc.
Qed.

(** Complementing the first 32 bits is starting from the all-ones register. *)
Lemma flip32_xor l :
  (32 ≤ length l)%nat →
  flip32 l = zip_with xorb l (replicate 32 true ++ replicate (length l - 32) false).
Proof.
  intros Hl. unfold flip32. rewrite <-(take_drop 32 l) at 3.
  rewrite zip_with_app by (rewrite length_take, length_replicate; lia). f_equal.
  - assert (H : length (take 32 l) = 32%nat) by (rewrite length_take; lia).
    revert H. generalize (take 32 l) as k. intros k <-. clear. induction k as [|b k IH]; simpl; [done|].
    f_equal; try apply IH; by destruct b.
  - rewrite <-length_drop. by rewrite zip_xorb_false.
Qed.

Lemma reg_run_reference l :
  reg_run u32_max l = remainder_from 0 (flip32 (l ++ replicate 32 false)).
Proof.
  rewrite flip32_xor by (rewrite length_app, length_replicate; lia).
  change 0 with (Z.lxor 0 0) at 1.
  rewrite remainder_lxor by (rewrite !length_app, !length_replicate; lia).
  rewrite reg_run_division, Z.lxor_comm. f_equal.
  rewrite length_app, length_replicate. replace (length l + 32 - 32)%nat with (length l) by lia.
  rewrite remainder_app. f_equal.
Qed.

(** ** The reflected register of the source *)
Lemma crc_shift_spec s :
  crc_shift s = Z.lxor (Z.shiftr s 1) (if Z.odd s then 0xedb88320 else 0).
Proof.
  unfold crc_shift. f_equal. change 1 with (Z.ones 1) at 1. rewrite Z.land_ones by lia.
  change (2 ^ 1) with 2. rewrite Zmod_odd. by destruct (Z.odd s).
Qed.

Lemma crc_shift_lxor a b : crc_shift (Z.lxor a b) = Z.lxor (crc_shift a) (crc_shift b).
Proof.
  rewrite !crc_shift_spec, Z.shiftr_lxor, <-!Z.bit0_odd, Z.lxor_spec, lxor_shuffle. f_equal.
  by destruct (Z.testbit a 0), (Z.testbit b 0).
Qed.

Lemma crc_shift_double a : crc_shift (2 * a) = a.
Proof.
  rewrite crc_shift_spec, Z.odd_mul. simpl. rewrite Z.lxor_0_r, Z.shiftr_div_pow2 by lia.
  change (2 ^ 1) with 2. rewrite Z.mul_comm. by apply Z.div_mul.
Qed.

Lemma crc_shift_u32 s : is_u32 s → is_u32 (crc_shift s).
Proof.
  intros Hs. rewrite crc_shift_spec. apply Bytes.lxor_bound; [lia| |].
  - rewrite Z.shiftr_div_pow2 by lia. unfold is_u32 in Hs. Z.to_euclidean_division_equations; lia.
  - destruct (Z.odd s); lia.
Qed.

Lemma iter_shift_lxor n a b :
  Nat.iter n crc_shift (Z.lxor a b) = Z.lxor (Nat.iter n crc_shift a) (Nat.iter n crc_shift b).
Proof. induction n as [|n IH]; simpl; [done|]. by rewrite IH, crc_shift_lxor. Qed.

Lemma iter_shift_pow n a : Nat.iter n crc_shift (2 ^ Z.of_nat n * a) = a.
Proof.
  induction n as [|n IH]; [simpl; lia|]. rewrite Nat.iter_succ_r.
  rewrite Nat2Z.inj_succ, Z.pow_succ_r, <-Z.mul_assoc, crc_shift_double by lia. apply IH.
Qed.

Lemma iter_shift_u32 n s : is_u32 s → is_u32 (Nat.iter n crc_shift s).
Proof. intros Hs. induction n; simpl; [done|]. by apply crc_shift_u32. Qed.

(** A byte is eight one-bit turns. *)
Definition bit_turn (s : Z) (b : bool) : Z := crc_shift (Z.lxor s (Z.b2z b)).

Lemma lxor_low_bit x : x = Z.lxor (Z.b2z (Z.odd x)) (2 * (x / 2)).
Proof.
  pose proof (double_lxor 0 (x / 2) (Z.odd x) false) as E. rewrite Z.lxor_0_l, xorb_false_r in E.
  change (Z.b2z false) with 0 in E. rewrite Z.mul_0_r, Z.add_0_l, Z.add_0_r in E. rewrite <-E.
  rewrite (Z.div_mod x 2) at 1 by lia. rewrite Zmod_odd. by destruct (Z.odd x).
Qed.

Lemma iter_shift_bits n s x :
  0 ≤ x < 2 ^ Z.of_nat n → Nat.iter n crc_shift (Z.lxor s x) = foldl bit_turn s (low_bits n x).
Proof.
  revert s x. induction n as [|n IH]; intros s x Hx.
  - simpl in *. replace x with 0 by lia. apply Z.lxor_0_r.
  - rewrite Nat.iter_succ_r. rewrite Nat2Z.inj_succ, Z.pow_succ_r in Hx by lia.
    rewrite (lxor_low_bit x) at 1. rewrite <-Z.lxor_assoc, crc_shift_lxor, crc_shift_double.
    rewrite IH by (Z.to_euclidean_division_equations; lia). done.
Qed.

Lemma bit_turn_u32 s b : is_u32 s → is_u32 (bit_turn s b).
Proof. intros. apply crc_shift_u32. apply Bytes.lxor_bound; [lia|done|]. destruct b; simpl; lia. Qed.

Lemma crc_extend_bits s bs :
  Forall is_byte bs → crc32_extend s bs = foldl bit_turn s (message_bits bs).
Proof.
  intros Hb. revert s. induction Hb as [|b bs Hx Hb IH]; intros s; [done|].
  change (message_bits (b :: bs)) with (low_bits 8 b ++ message_bits bs).
  rewrite foldl_app, <-iter_shift_bits by (unfold is_byte, u8_max in Hx; simpl; lia). cbn [foldl]. apply IH.
Qed.

(** ** Mirror images *)
Lemma reflect_bound n x : 0 ≤ reflect n x < 2 ^ Z.of_nat n.
Proof.
  revert x. induction n as [|n IH]; intros x; [simpl; lia|].
  change (reflect (S n) x) with (2 ^ Z.of_nat n * Z.b2z (Z.odd x) + reflect n (x / 2)).
  rewrite Nat2Z.inj_succ, Z.pow_succ_r by lia. specialize (IH (x / 2)). destruct (Z.odd x); simpl Z.b2z; lia.
Qed.

Lemma testbit_top n (b : bool) y i :
  0 ≤ n → 0 ≤ y < 2 ^ n → 0 ≤ i →
  Z.testbit (2 ^ n * Z.b2z b + y) i = if i =? n then b else Z.testbit y i.
Proof.
  intros Hn Hy Hi. assert (Hl : Z.land (2 ^ n * Z.b2z b) y = 0).
  { apply Z.bits_inj_iff'. intros j Hj. rewrite Z.land_spec, Z.bits_0, Z.mul_comm.
    destruct (Z.le_gt_cases n j).
    - rewrite (proj1 (Z.bounded_iff_bits_nonneg n y Hn ltac:(lia)) ltac:(lia) j ltac:(done)). apply andb_false_r.
    - by rewrite Z.mul_pow2_bits_low by lia. }
  rewrite Z.add_nocarry_lxor, Z.lxor_spec by done. rewrite Z.mul_comm, Z.mul_pow2_bits by done.
  destruct (Z.eqb_spec i n) as [->|Hne].
  - rewrite Z.sub_diag. rewrite (proj1 (Z.bounded_iff_bits_nonneg n y Hn ltac:(lia)) ltac:(lia) n ltac:(lia)).
    destruct b; reflexivity.
  - destruct (Z.le_gt_cases i n); [by rewrite Z.testbit_neg_r by lia|].
    replace (Z.testbit (Z.b2z b) (i - n)) with false; [done|].
    destruct b; simpl; [|by rewrite Z.bits_0]. symmetry. apply Z.bits_above_log2; [lia|]. simpl. lia.
Qed.

Lemma testbit_reflect n x i :
  0 ≤ i < Z.of_nat n → Z.testbit (reflect n x) i = Z.testbit x (Z.of_nat n - 1 - i).
Proof.
  revert x. induction n as [|n IH]; intros x Hi; [lia|].
  change (reflect (S n) x) with (2 ^ Z.of_nat n * Z.b2z (Z.odd x) + reflect n (x / 2)).
  rewrite testbit_top by (lia || apply reflect_bound). destruct (Z.eqb_spec i (Z.of_nat n)) as [->|].
  - replace (Z.of_nat (S n) - 1 - Z.of_nat n) with 0 by lia. by rewrite Z.bit0_odd.
  - rewrite IH by lia. change (x / 2) with (x / 2 ^ 1). rewrite Z.div_pow2_bits by lia. f_equal. lia.
Qed.

Lemma testbit_reflect_high n x i : Z.of_nat n ≤ i → Z.testbit (reflect n x) i = false.
Proof.
  intros Hi. pose proof (reflect_bound n x). by apply (Z.bounded_iff_bits_nonneg (Z.of_nat n)); [lia..|].
Qed.

Lemma reflect_involutive x : is_u32 x → reflect 32 (reflect 32 x) = x.
Proof.
  intros Hx. apply Z.bits_inj_iff'. intros i Hi. destruct (Z.lt_ge_cases i 32).
  - rewrite !testbit_reflect by lia. f_equal. lia.
  - rewrite testbit_reflect_high by lia. symmetry.
    by apply (Z.bounded_iff_bits_nonneg 32); [lia|unfold is_u32 in Hx; lia..|].
Qed.

Lemma reflect_lxor n x y : reflect n (Z.lxor x y) = Z.lxor (reflect n x) (reflect n y).
Proof.
  apply Z.bits_inj_iff'. intros i Hi. rewrite Z.lxor_spec. destruct (Z.lt_ge_cases i (Z.of_nat n)).
  - by rewrite !testbit_reflect, Z.lxor_spec by lia.
  - by rewrite !testbit_reflect_high by lia.
Qed.

(** One reflected turn is one turn of the register. *)
Lemma reflect_shift s : is_u32 s → reflect 32 (crc_shift s) = div_step (reflect 32 s) false.
Proof.
  intros Hs. assert (Hhalf : reflect 32 (Z.shiftr s 1) = 2 * reflect 32 s - 2 ^ 32 * Z.b2z (Z.odd s)).
  { rewrite Z.shiftr_div_pow2 by lia. change (2 ^ 1) with 2.
    change (reflect 32 s) with (2 ^ Z.of_nat 31 * Z.b2z (Z.odd s) + reflect 31 (s / 2)).
    replace (reflect 32 (s / 2)) with (2 * reflect 31 (s / 2)); [change (2 ^ Z.of_nat 31) with (2 ^ 31); lia|].
    apply Z.bits_inj_iff'. intros i Hi. rewrite testbit_even by done. destruct (Z.lt_ge_cases i 32).
    - rewrite (testbit_reflect 32) by lia. destruct (Z.eqb_spec i 0) as [->|].
      + symmetry. apply (Z.bounded_iff_bits_nonneg 31); unfold is_u32 in Hs;
          Z.to_euclidean_division_equations; lia.
      + rewrite testbit_reflect by lia. f_equal. lia.
    - rewrite testbit_reflect_high by lia. rewrite (proj2 (Z.eqb_neq i 0)) by lia.
      symmetry. apply testbit_reflect_high. lia. }
  rewrite crc_shift_spec, reflect_lxor, Hhalf. unfold div_step. rewrite Z.add_0_r.
  pose proof (reflect_bound 32 s) as Hb.
  assert (Ht : Z.testbit (2 * reflect 32 s) 32 = Z.odd s).
  { rewrite testbit_even by lia. change (32 =? 0) with false. cbv iota. rewrite testbit_reflect by lia. apply Z.bit0_odd. }
  rewrite Ht. destruct (Z.odd s).
  - change (reflect 32 0xedb88320) with FEEDBACK. change (Z.b2z true) with 1.
    assert (Hg : GENERATOR = Z.lxor (2 ^ 32 * 1) FEEDBACK) by reflexivity. rewrite Hg, <-Z.lxor_assoc. f_equal.
    replace (2 * reflect 32 s) with (2 ^ 32 * Z.b2z true + (2 * reflect 32 s - 2 ^ 32 * 1)) at 2 by (simpl Z.b2z; lia).
    set (y := 2 * reflect 32 s - 2 ^ 32 * 1).
    assert (0 ≤ y < 2 ^ 32).
    { subst y. change (Z.of_nat 32) with 32 in Hb. split; [|lia].
      assert (2 ^ 31 ≤ reflect 32 s); [|lia].
      destruct (Z.lt_ge_cases (reflect 32 s) (2 ^ 31)) as [Hlt|]; [exfalso|done].
      rewrite testbit_even in Ht by lia. change (32 =? 0) with false in Ht. cbv iota in Ht.
      rewrite (proj1 (Z.bounded_iff_bits_nonneg 31 (reflect 32 s) ltac:(lia) ltac:(lia)) Hlt) in Ht; [done|lia]. }
    apply Z.bits_inj_iff'. intros i Hi. rewrite Z.lxor_spec, testbit_top by lia.
    change (2 ^ 32 * 1) with (2 ^ 32). rewrite Z.pow2_bits_eqb by lia.
    destruct (Z.eqb_spec i 32) as [->|Hne].
    + rewrite Z.eqb_refl. apply (Z.bounded_iff_bits_nonneg 32); lia.
    + rewrite (proj2 (Z.eqb_neq 32 i)) by lia. by rewrite xorb_false_r.
  - change (reflect 32 0) with 0. rewrite Z.lxor_0_r. simpl Z.b2z. lia.
Qed.

Lemma reflect_turn s b : is_u32 s → reflect 32 (bit_turn s b) = reg_step (reflect 32 s) b.
Proof.
  intros Hs. unfold bit_turn, reg_step. rewrite crc_shift_lxor, reflect_lxor, (reflect_shift s Hs). f_equal.
  destruct b; vm_compute; reflexivity.
Qed.

Lemma reflect_run s l : is_u32 s → reflect 32 (foldl bit_turn s l) = reg_run (reflect 32 s) l.
Proof.
  unfold reg_run. revert s. induction l as [|b l IH]; intros s Hs; cbn [foldl]; [reflexivity|].
  rewrite (IH _ (bit_turn_u32 s b Hs)), (reflect_turn s b Hs). reflexivity.
Qed.

Lemma foldl_turn_u32 s l : is_u32 s → is_u32 (foldl bit_turn s l).
Proof. revert s. induction l; intros s Hs; simpl; [done|]. auto using bit_turn_u32. Qed.

Lemma not32_lxor x : is_u32 x → not32 x = Z.lxor x u32_max.
Proof.
  intros Hx. unfold not32. change u32_max with (Z.ones 32). symmetry.
  assert (Hl : Z.lxor x (Z.ones 32) = Z.ldiff (Z.ones 32) x).
  { apply Z.bits_inj_iff'. intros i Hi. rewrite Z.lxor_spec, Z.ldiff_spec. destruct (Z.lt_ge_cases i 32).
    - by rewrite Z.ones_spec_low by lia; destruct (Z.testbit x i).
    - rewrite Z.ones_spec_high by lia. unfold is_u32 in Hx.
      by rewrite (proj1 (Z.bounded_iff_bits_nonneg 32 x ltac:(lia) ltac:(lia)) ltac:(lia) i ltac:(lia)). }
  rewrite Hl, Z.sub_nocarry_ldiff; [done|]. apply Z.bits_inj_iff'. intros i Hi.
  rewrite Z.ldiff_spec, Z.bits_0. destruct (Z.lt_ge_cases i 32).
  - rewrite Z.ones_spec_low by lia. apply andb_false_r.
  - unfold is_u32 in Hx.
    by rewrite (proj1 (Z.bounded_iff_bits_nonneg 32 x ltac:(lia) ltac:(lia)) ltac:(lia) i ltac:(lia)).
Qed.

(** On every byte string the checksum of the source is the CRC-32 of the standard:
    the reflected, complemented remainder of the polynomial division. *)
Theorem crc32_is_polynomial_remainder bs :
  Forall is_byte bs → crc32 bs = crc_reference bs.
Proof.
  intros Hb. unfold crc32, crc_reference. rewrite crc_extend_bits by done.
  assert (Hu : is_u32 u32_max) by (unfold is_u32, u32_max; lia).
  rewrite not32_lxor by by apply foldl_turn_u32. f_equal.
  rewrite <-reg_run_reference. change (reg_run u32_max) with (reg_run (reflect 32 u32_max)).
  rewrite <-reflect_run by done. by rewrite reflect_involutive by by apply foldl_turn_u32.
Qed.

Lemma crc32_is_polynomial_remainder_witness : crc32 [0x31; 0x00; 0xff] = crc_reference [0x31; 0x00; 0xff].
Proof. apply crc32_is_polynomial_remainder. repeat constructor; done. Defined.

(** ** What it detects *)
Lemma crc_shift_inj a b : is_u32 a → is_u32 b → crc_shift a = crc_shift b → a = b.
Proof.
  intros Ha Hb He. apply Z.lxor_eq. assert (Hz : crc_shift (Z.lxor a b) = 0)
    by (rewrite crc_shift_lxor, He; apply Z.lxor_nilpotent).
  assert (Hx : is_u32 (Z.lxor a b)) by by apply Bytes.lxor_bound.
  revert Hx Hz. generalize (Z.lxor a b). clear. intros x Hx Hz. rewrite crc_shift_spec in Hz.
  destruct (Z.odd x) eqn:Ho.
  - exfalso. apply Z.lxor_eq in Hz. rewrite Z.shiftr_div_pow2 in Hz by lia. unfold is_u32 in Hx.
    Z.to_euclidean_division_equations; lia.
  - rewrite Z.lxor_0_r, Z.shiftr_div_pow2 in Hz by lia. pose proof (Z.div_mod x 2 ltac:(lia)) as E.
    rewrite Zmod_odd, Ho in E. change (2 ^ 1) with 2 in Hz. lia.
Qed.

Lemma iter_shift_inj n a b : is_u32 a → is_u32 b → Nat.iter n crc_shift a = Nat.iter n crc_shift b → a = b.
Proof.
  intros Ha Hb. induction n as [|n IH]; simpl; [done|]. intros He. apply IH.
  apply crc_shift_inj; auto using iter_shift_u32.
Qed.

Lemma lxor_word b w : is_byte b → b + 256 * w = Z.lxor b (2 ^ Z.of_nat 8 * w).
Proof.
  intros Hb. change (2 ^ Z.of_nat 8) with (2 ^ 8). change 256 with (2 ^ 8). apply Z.add_nocarry_lxor.
  apply Z.bits_inj_iff'. intros i Hi. rewrite Z.land_spec, Z.bits_0. unfold is_byte, u8_max in Hb.
  destruct (Z.lt_ge_cases i 8).
  - rewrite (Z.mul_comm (2 ^ 8)), Z.mul_pow2_bits_low by lia. apply andb_false_r.
  - by rewrite (proj1 (Z.bounded_iff_bits_nonneg 8 b ltac:(lia) ltac:(lia)) ltac:(lia) i ltac:(lia)).
Qed.

(** Bytes enter the register as one little-endian word. *)
Lemma extend_word s u :
  Forall is_byte u → crc32_extend s u = Nat.iter (8 * length u) crc_shift (Z.lxor s (from_le_bytes u)).
Proof.
  intros Hu. revert s. induction Hu as [|b u Hb Hu IH]; intros s; [by rewrite Z.lxor_0_r|].
  change (crc32_extend s (b :: u)) with (crc32_extend (crc_byte s b) u). rewrite IH.
  change (length (b :: u)) with (S (length u)).
  replace (8 * S (length u))%nat with (8 * length u + 8)%nat by lia. rewrite Nat.iter_add. f_equal.
  change (from_le_bytes (b :: u)) with (b + 256 * from_le_bytes u). rewrite lxor_word by done.
  by rewrite <-Z.lxor_assoc, iter_shift_lxor, iter_shift_pow.
Qed.

Lemma extend_u32 s u : is_u32 s → Forall is_byte u → is_u32 (crc32_extend s u).
Proof. intros Hs Hu. rewrite crc_extend_bits by done. by apply foldl_turn_u32. Qed.

Lemma lxor_byte_u32 s b : is_u32 s → is_byte b → is_u32 (Z.lxor s b).
Proof. unfold is_byte, u8_max. intros Hs Hb. apply Bytes.lxor_bound; [lia|done|lia]. Qed.

Lemma lxor_inj_l a b c : Z.lxor a c = Z.lxor b c → a = b.
Proof.
  intros He. apply (f_equal (λ z, Z.lxor z c)) in He.
  by rewrite !Z.lxor_assoc, Z.lxor_nilpotent, !Z.lxor_0_r in He.
Qed.

Lemma crc_byte_u32 s b : is_u32 s → is_byte b → is_u32 (crc_byte s b).
Proof. intros. unfold crc_byte. by apply iter_shift_u32, lxor_byte_u32. Qed.

Lemma crc_byte_inj s t b : is_u32 s → is_u32 t → is_byte b → crc_byte s b = crc_byte t b → s = t.
Proof.
  unfold crc_byte. generalize 8%nat as n. intros n Hs Ht Hb He.
  apply iter_shift_inj in He; [by eapply lxor_inj_l|by apply lxor_byte_u32..].
Qed.

Lemma extend_inj s t u :
  is_u32 s → is_u32 t → Forall is_byte u → crc32_extend s u = crc32_extend t u → s = t.
Proof.
  unfold crc32_extend. intros Hs Ht Hu. revert s t Hs Ht.
  induction Hu as [|b u Hb Hu IH]; intros s t Hs Ht He; cbn [foldl] in He; [done|].
  apply (crc_byte_inj s t b Hs Ht Hb). apply IH; [by apply crc_byte_u32..|exact He].
Qed.

Lemma from_le_bytes_inj u v :
  Forall is_byte u → Forall is_byte v → length u = length v → from_le_bytes u = from_le_bytes v → u = v.
Proof.
  intros Hu. revert v. induction Hu as [|a u Ha Hu IH]; intros v Hv Hl He; destruct Hv as [|b v Hb Hv]; try done.
  simpl in He. unfold is_byte, u8_max in *. assert (a = b ∧ from_le_bytes u = from_le_bytes v) as [-> He'] by lia.
  f_equal. apply IH; [done|by injection Hl|done].
Qed.

(** A corruption confined to four consecutive bytes never goes unnoticed: if two
    strings of bytes agree outside such a window and have the same checksum, they are
    the same. *)
Theorem crc_detects_bursts pre u v post :
  Forall is_byte (pre ++ u ++ post) → Forall is_byte v → length u = length v → (length u ≤ 4)%nat →
  crc32 (pre ++ u ++ post) = crc32 (pre ++ v ++ post) → u = v.
Proof.
  rewrite !Forall_app. intros (Hp & Hu & Hs) Hv Hl H4 He.
  assert (Hm : is_u32 u32_max) by (unfold is_u32, u32_max; lia).
  unfold crc32, crc32_extend in He. rewrite !foldl_app in He.
  assert (He' : crc32_extend (crc32_extend (crc32_extend u32_max pre) u) post =
                crc32_extend (crc32_extend (crc32_extend u32_max pre) v) post) by (unfold not32, crc32_extend in *; lia).
  apply extend_inj in He'; [|by repeat apply extend_u32..|done]. rewrite !extend_word, Hl in He' by done.
  assert (Hw : ∀ w, Forall is_byte w → length w = length v → is_u32 (from_le_bytes w)).
  { intros w Hw Hlw. pose proof (from_le_bytes_bound w Hw) as Hb. unfold is_u32. split; [lia|].
    eapply Z.lt_le_trans; [apply Hb|]. change (2 ^ 32) with (256 ^ 4). apply Z.pow_le_mono_r; lia. }
  apply iter_shift_inj in He'; [|apply Bytes.lxor_bound; [lia| |by apply Hw]..];
    [|rewrite <-extend_word by done; by apply extend_u32..].
  apply from_le_bytes_inj; [done..|]. apply (f_equal (Z.lxor (Nat.iter (8 * length pre) crc_shift
    (Z.lxor u32_max (from_le_bytes pre))))) in He'.
  by rewrite <-!Z.lxor_assoc, !Z.lxor_nilpotent, !Z.lxor_0_l in He'.
Qed.

Lemma crc_detects_bursts_witness :
  crc32 ([7] ++ [1; 2; 3; 4] ++ [9]) ≠ crc32 ([7] ++ [1; 2; 3; 5] ++ [9]).
Proof.
  intros He. assert ([1; 2; 3; 4] = [1; 2; 3; 5]) as [=].
  apply (crc_detects_bursts [7] [1; 2; 3; 4] [1; 2; 3; 5] [9]); [..|exact He];
    repeat constructor; done.
Defined.

End Crc.
