(* ===== verification/IrqLock.v ===== *)
(** * Ranked spin locks (kernel/src/irq_lock.rs)

    The per-CPU lock-order tracker and the two mutexes built on it, [IrqMutex] and
    [PreemptMutex], on a machine of CPUs that interleave the critical steps: taking the
    tracker, spinning on the inner mutex, dropping a guard. The inner [spin::Mutex] is a
    parameter: a class of operations with the laws of a mutual exclusion flag. *)
From S2P Require Import Prelude.
Module IrqLock.

Definition MAX_DEPTH : nat := 8.

(** ** [mod lock_order]: one CPU's row of the static arrays *)
Record Tracker := mkTracker {
  DEPTH : nat;
  HIGHEST_RANK : Z;
  HELD : list Z;
  HELD_LINE : list Z
}.
Definition tracker_new : Tracker := mkTracker 0 0 (replicate MAX_DEPTH 0) (replicate MAX_DEPTH 0).

Record Token := mkToken {
  tk_cpu : nat;
  tk_address : Z;
  previous_rank : Z;
  tk_line : Z
}.

Inductive Panic :=
  | LockOrderInversion
  | DepthExceeded
  | RecursiveAcquisition
  | OrderUnderflow
  | NotNestingOrder
  | PreemptUnderflow.

#[export] Instance Panic_eq_dec : EqDecision Panic.
Proof. solve_decision. Defined.

Definition enter (cpu : nat) (line address rank : Z) (t : Tracker) : result (Token * Tracker) Panic :=
  let prev := HIGHEST_RANK t in
  if negb (rank =? 0) && negb (prev =? 0) && (rank <? prev) then Err LockOrderInversion
  else
    let depth := DEPTH t in
    if (MAX_DEPTH <=? depth)%nat then Err DepthExceeded
    else if existsb (λ held, held =? address) (take depth (HELD t)) then Err RecursiveAcquisition
    else Ok (mkToken cpu address prev line,
             mkTracker (depth + 1) (if prev <? rank then rank else prev)
               (<[depth := address]> (HELD t)) (<[depth := line]> (HELD_LINE t))).

Definition exit (token : Token) (t : Tracker) : result Tracker Panic :=
  let depth := DEPTH t in
  if (depth =? 0)%nat then Err OrderUnderflow
  else
    let held := default 0 (HELD t !! (depth - 1)%nat) in
    if negb (held =? tk_address token) then Err NotNestingOrder
    else Ok (mkTracker (depth - 1) (previous_rank token)
               (<[(depth - 1)%nat := 0]> (HELD t)) (<[(depth - 1)%nat := 0]> (HELD_LINE t))).

(** ** [spin::Mutex], by its documented behaviour *)
Class SpinMutex (M : Type) := {
  is_locked : M → Z → bool;
  acquire : M → Z → M;
  unlock : M → Z → M
}.

Class SpinLaws (M : Type) `{SpinMutex M} : Prop := {
  locked_acquire m a b : is_locked (acquire m a) b = bool_decide (a = b) || is_locked m b;
  locked_unlock m a b : is_locked (unlock m a) b = negb (bool_decide (a = b)) && is_locked m b
}.

(** ** Guards: one frame per [lock] in progress, innermost first. A frame is spinning
    until the inner mutex is acquired. *)
Inductive Kind :=
  | KIrq (restore_interrupts : bool)
  | KPreempt.

#[export] Instance Kind_eq_dec : EqDecision Kind.
Proof. solve_decision. Defined.

Record Frame := mkFrame {
  f_lock : Z;
  f_kind : Kind;
  f_token : Token;
  f_held : bool
}.

(** [interrupts] is the CPU's IF flag, [preempt_depth] its [LOCAL_PREEMPT_DEPTH]. *)
Record Cpu := mkCpu {
  tracker : Tracker;
  interrupts : bool;
  preempt_depth : Z;
  frames : list Frame
}.

Section machine.
Context {M : Type} `{SpinMutex M} (rank : Z → Z).

Record Machine := mkMachine {
  mutexes : M;
  cpus : list Cpu
}.

(** [local_preemption_guard] and its drop: the flag is put back, the depth changes. *)
Definition preempt_enter (c : Cpu) : Cpu :=
  mkCpu (tracker c) (interrupts c) (preempt_depth c + 1) (frames c).
Definition preempt_exit (c : Cpu) : result Cpu Panic :=
  if preempt_depth c <=? 0 then Err PreemptUnderflow
  else Ok (mkCpu (tracker c) (interrupts c) (preempt_depth c - 1) (frames c)).

(** [IrqMutex::lock] and [PreemptMutex::lock] up to the spin. *)
Definition irq_lock_begin (id : nat) (line a : Z) (c : Cpu) : result Cpu Panic :=
  let restore_interrupts := interrupts c in
  let? r := enter id line a (rank a) (tracker c) in
  Ok (mkCpu r.2 false (preempt_depth c) (mkFrame a (KIrq restore_interrupts) r.1 false :: frames c)).

Definition preempt_lock_begin (id : nat) (line a : Z) (c : Cpu) : result Cpu Panic :=
  let c := preempt_enter c in
  let? r := enter id line a (rank a) (tracker c) in
  Ok (mkCpu r.2 (interrupts c) (preempt_depth c) (mkFrame a KPreempt r.1 false :: frames c)).

(** One turn of the spin of the innermost frame. *)
Definition spin (m : M) (c : Cpu) : option (M * Cpu) :=
  match frames c with
  | f :: fs =>
      if f_held f then None
      else if is_locked m (f_lock f) then Some (m, c)
      else Some (acquire m (f_lock f),
                 mkCpu (tracker c) (interrupts c) (preempt_depth c)
                   (mkFrame (f_lock f) (f_kind f) (f_token f) true :: fs))
  | [] => None
  end.

(** [IrqMutex::try_lock]. *)
Definition try_lock (id : nat) (line a : Z) (m : M) (c : Cpu) : result (M * Cpu) Panic :=
  let restore_interrupts := interrupts c in
  let? r := enter id line a (rank a) (tracker c) in
  if is_locked m a then
    let? t := exit r.1 r.2 in
    Ok (m, mkCpu t (if restore_interrupts then true else false) (preempt_depth c) (frames c))
  else
    Ok (acquire m a,
        mkCpu r.2 false (preempt_depth c) (mkFrame a (KIrq restore_interrupts) r.1 true :: frames c)).

(** [Drop] of the guard at position [i] of the frames. *)
Definition drop_guard (i : nat) (m : M) (c : Cpu) : option (result (M * Cpu) Panic) :=
  f ← frames c !! i;
  if negb (f_held f) then None else
  let m := unlock m (f_lock f) in
  Some (
    let? t := exit (f_token f) (tracker c) in
    let fs := delete i (frames c) in
    match f_kind f with
    | KIrq restore_interrupts =>
        Ok (m, mkCpu t (if restore_interrupts then true else interrupts c) (preempt_depth c) fs)
    | KPreempt =>
        let? c := preempt_exit (mkCpu t (interrupts c) (preempt_depth c) fs) in
        Ok (m, c)
    end).

Definition pager_entry_allowed (c : Cpu) : bool := interrupts c && (HIGHEST_RANK (tracker c) =? 0).

(** What a CPU does next. Its program runs unless the innermost frame spins; an
    interrupt handler may run in a spin whose kind leaves interrupts on. Code outside
    every guard may change the flag. *)
Inductive op :=
  | OLock (line a : Z)
  | OPreemptLock (line a : Z)
  | OTryLock (line a : Z)
  | OSpin
  | ODrop (i : nat)
  | OSetInterrupts (b : bool).

Definition spinning (c : Cpu) : bool :=
  match frames c with f :: _ => negb (f_held f) | [] => false end.
Definition can_run (c : Cpu) : bool := negb (spinning c) || interrupts c.

(** The guards above the innermost spinning frame: what the running code owns. *)
Fixpoint owned (fs : list Frame) : nat :=
  match fs with f :: fs => if f_held f then S (owned fs) else 0 | [] => 0 end.

Definition cpu_step (id : nat) (o : op) (m : M) (c : Cpu) : option (result (M * Cpu) Panic) :=
  match o with
  | OLock line a => if can_run c then Some (let? c := irq_lock_begin id line a c in Ok (m, c)) else None
  | OPreemptLock line a => if can_run c then Some (let? c := preempt_lock_begin id line a c in Ok (m, c)) else None
  | OTryLock line a => if can_run c then Some (try_lock id line a m c) else None
  | OSpin => r ← spin m c; Some (Ok r)
  | ODrop i => if (i <? owned (frames c))%nat then drop_guard i m c else None
  | OSetInterrupts b =>
      match frames c with
      | [] => Some (Ok (m, mkCpu (tracker c) b (preempt_depth c) []))
      | _ => None
      end
  end.

Definition step (s : Machine) (id : nat) (o : op) : option (result Machine Panic) :=
  c ← cpus s !! id;
  r ← cpu_step id o (mutexes s) c;
  Some (match r with
        | Ok (m, c) => Ok (mkMachine m (<[id := c]> (cpus s)))
        | Err p => Err p
        end).

Definition cpu_new : Cpu := mkCpu tracker_new true 0 [].

Inductive reachable (m0 : M) (n : nat) : Machine → Prop :=
  | reach_boot : reachable m0 n (mkMachine m0 (replicate n cpu_new))
  | reach_step s id o s' : reachable m0 n s → step s id o = Some (Ok s') → reachable m0 n s'.

Fixpoint run (s : Machine) (os : list (nat * op)) : option (result Machine Panic) :=
  match os with
  | [] => Some (Ok s)
  | (id, o) :: os =>
      match step s id o with
      | Some (Ok s) => run s os
      | r => r
      end
  end.
End machine.
Arguments Machine M : clear implicits.

End IrqLock.

(** * What the ranked locks guarantee

    The tracker mirrors the guards of its CPU in every interleaving, so exactly the
    documented misuses panic; locks are exclusive; and when no two locks share a rank the
    CPUs can never wait for each other in a circle. With equal ranks they can. *)
Import IrqLock.

Module LockProofs.
Section proofs.
Context {M : Type} `{SpinLaws M} (rank : Z → Z) (rank_u8 : ∀ a, 0 ≤ rank a ≤ u8_max).

Local Abbreviation locks fs := (f_lock <$> fs).

Fixpoint max_rank (fs : list Frame) : Z :=
  match fs with f :: fs => Z.max (rank (f_lock f)) (max_rank fs) | [] => 0 end.

(** The frames of a CPU: distinct locks, taken in rank order, tokens that remember the
    rank below, and the interrupt flag every guard found. *)
Fixpoint frames_wf (fs : list Frame) : Prop :=
  match fs with
  | [] => True
  | f :: fs =>
      tk_address (f_token f) = f_lock f ∧ previous_rank (f_token f) = max_rank fs ∧
      (f_lock f ∉ locks fs) ∧ (rank (f_lock f) = 0 ∨ max_rank fs ≤ rank (f_lock f)) ∧ frames_wf fs
  end.

Fixpoint flag_chain (flag : bool) (fs : list Frame) : Prop :=
  match fs with
  | [] => True
  | f :: fs =>
      match f_kind f with
      | KIrq restore => flag = false ∧ flag_chain restore fs
      | KPreempt => flag_chain flag fs
      end
  end.

Definition tracks (t : Tracker) (fs : list Frame) : Prop :=
  DEPTH t = length fs ∧ (length fs ≤ MAX_DEPTH)%nat ∧
  HELD t = reverse (locks fs) ++ replicate (MAX_DEPTH - length fs) 0 ∧
  HIGHEST_RANK t = max_rank fs.

Fixpoint preempt_guards (fs : list Frame) : Z :=
  match fs with
  | [] => 0
  | f :: fs => match f_kind f with KPreempt => 1 + preempt_guards fs | KIrq _ => preempt_guards fs end
  end.

Lemma preempt_guards_nonneg fs : 0 ≤ preempt_guards fs.
Proof. induction fs as [|f fs IH]; simpl; [done|]. destruct (f_kind f); lia. Qed.

Definition cpu_wf (c : Cpu) : Prop :=
  tracks (tracker c) (frames c) ∧ frames_wf (frames c) ∧ flag_chain (interrupts c) (frames c) ∧
  preempt_depth c = preempt_guards (frames c).

Definition cpu_locks (c : Cpu) : list Z := locks (filter (λ f, f_held f = true) (frames c)).
Definition held_locks (s : Machine M) : list Z := cpus s ≫= cpu_locks.

Definition wf (s : Machine M) : Prop :=
  Forall cpu_wf (cpus s) ∧ NoDup (held_locks s) ∧
  ∀ a, is_locked (mutexes s) a = true ↔ a ∈ held_locks s.

Lemma max_rank_u8 fs : 0 ≤ max_rank fs.
Proof. induction fs as [|f fs IH]; simpl; [done|]. pose proof (rank_u8 (f_lock f)). lia. Qed.

Lemma max_rank_elem fs f : f ∈ fs → rank (f_lock f) ≤ max_rank fs.
Proof.
  induction fs as [|g fs IH]; intros Hf; [by apply not_elem_of_nil in Hf|].
  simpl. apply elem_of_cons in Hf as [->|Hf]; [lia|]. specialize (IH Hf). lia.
Qed.

(** ** The tracker *)
Lemma held_prefix t fs : tracks t fs → take (DEPTH t) (HELD t) = reverse (locks fs).
Proof.
  intros (-> & _ & -> & _). by rewrite take_app_length' by (by rewrite length_reverse, length_fmap).
Qed.

Lemma existsb_held a l : existsb (λ held, held =? a) l = bool_decide (a ∈ l).
Proof.
  apply eq_iff_eq_true. rewrite bool_decide_eq_true, existsb_exists. split.
  - intros (x & Hx & E). apply Z.eqb_eq in E as ->. by apply list_elem_of_In.
  - intros Hx. exists a. split; [by apply list_elem_of_In|apply Z.eqb_refl].
Qed.

(** [enter] refuses exactly an inversion, a ninth lock and a recursive acquisition. *)
Definition may_enter (a : Z) (fs : list Frame) : Prop :=
  (rank a = 0 ∨ max_rank fs ≤ rank a) ∧ (length fs < MAX_DEPTH)%nat ∧ a ∉ locks fs.

Lemma enter_spec id line a t fs :
  tracks t fs →
  match enter id line a (rank a) t with
  | Ok (tok, t') =>
      may_enter a fs ∧ tk_address tok = a ∧ previous_rank tok = max_rank fs ∧
      ∀ k h, tracks t' (mkFrame a k tok h :: fs)
  | Err _ => ¬ may_enter a fs
  end.
Proof.
  intros Ht. pose proof Ht as (Hd & Hle & Hh & Hr). unfold enter. rewrite (held_prefix t fs Ht), existsb_held, Hr, Hd.
  pose proof (max_rank_u8 fs). pose proof (rank_u8 a). unfold may_enter.
  destruct (negb _ && negb _ && _) eqn:E1; [reflect_bools; lia|].
  assert (Hrank : rank a = 0 ∨ max_rank fs ≤ rank a).
  { destruct (Z.eq_dec (rank a) 0); [by left|right]. apply not_true_iff_false in E1.
    destruct (Z.le_gt_cases (max_rank fs) (rank a)); [done|]. exfalso. apply E1.
    rewrite (proj2 (Z.eqb_neq _ _)), (proj2 (Z.eqb_neq (max_rank fs) _)), (proj2 (Z.ltb_lt _ _)) by lia. done. }
  destruct (Nat.leb_spec MAX_DEPTH (length fs)); [lia|].
  rewrite (bool_decide_ext _ (a ∈ locks fs)) by by rewrite elem_of_reverse.
  destruct (bool_decide (a ∈ locks fs)) eqn:E3; reflect_bools; [tauto|].
  split_and!; [done..|]. intros k h. unfold tracks. simpl. split_and!; [lia|lia| |].
  - rewrite Hh. destruct (MAX_DEPTH - length fs)%nat as [|n] eqn:En; [lia|].
    rewrite reverse_cons, <-app_assoc. simpl.
    rewrite insert_app_r_alt by (rewrite length_reverse, length_fmap; lia).
    rewrite length_reverse, length_fmap, Nat.sub_diag.
    by replace (7 - length fs)%nat with n by (unfold MAX_DEPTH in *; lia).
  - destruct (Z.ltb_spec (max_rank fs) (rank a)); lia.
Qed.

(** [exit] accepts exactly the innermost frame's token. *)
Lemma exit_innermost t f fs :
  tracks t (f :: fs) → frames_wf (f :: fs) →
  ∃ t', exit (f_token f) t = Ok t' ∧ tracks t' fs.
Proof.
  intros (Hd & Hle & Hh & Hr) (Ha & Hp & _). simpl in Hd, Hle, Hh. unfold exit. rewrite Hd, Hh. simpl.
  rewrite Nat.sub_0_r, reverse_cons, <-app_assoc.
  rewrite lookup_app_r by (rewrite length_reverse, length_fmap; lia).
  rewrite length_reverse, length_fmap, Nat.sub_diag. simpl. rewrite Ha, Z.eqb_refl. simpl.
  eexists. split; [done|]. unfold tracks. simpl. split_and!; [done|lia| |done].
  rewrite insert_app_r_alt by (rewrite length_reverse, length_fmap; lia).
  rewrite length_reverse, length_fmap, Nat.sub_diag. simpl.
  replace (MAX_DEPTH - length fs)%nat with (S (MAX_DEPTH - S (length fs))) by (unfold MAX_DEPTH in *; lia). done.
Qed.

Lemma exit_inner t f fs tok :
  tracks t (f :: fs) → tk_address tok ≠ f_lock f → exit tok t = Err NotNestingOrder.
Proof.
  intros (Hd & Hle & Hh & Hr) Hne. simpl in Hd, Hle, Hh. unfold exit. rewrite Hd, Hh. simpl.
  rewrite Nat.sub_0_r, reverse_cons, <-app_assoc.
  rewrite lookup_app_r by (rewrite length_reverse, length_fmap; lia).
  rewrite length_reverse, length_fmap, Nat.sub_diag. simpl. by rewrite (proj2 (Z.eqb_neq _ _)) by done.
Qed.

Lemma frames_wf_lookup fs i f :
  frames_wf fs → fs !! i = Some f → tk_address (f_token f) = f_lock f.
Proof.
  revert i. induction fs as [|g fs IH]; intros [|i] Hwf Hi; try done.
  - injection Hi as ->. apply Hwf.
  - destruct Hwf as (_ & _ & _ & _ & Hwf). by eapply IH.
Qed.

Lemma frames_wf_inner f fs i g :
  frames_wf (f :: fs) → fs !! i = Some g → f_lock g ≠ f_lock f.
Proof.
  intros (_ & _ & Hn & _) Hi He. apply Hn. rewrite <-He.
  by apply list_elem_of_fmap_2, (list_elem_of_lookup_2 _ i).
Qed.

(** ** One CPU's step *)
(** What a step of a CPU does to the inner mutexes and to the locks it holds. *)
Inductive effect (m : M) (c : Cpu) : M → Cpu → Prop :=
  | eff_none c' : cpu_locks c' = cpu_locks c → effect m c m c'
  | eff_acquire a c' :
      is_locked m a = false → cpu_locks c' = a :: cpu_locks c → effect m c (acquire m a) c'
  | eff_release a c' : cpu_locks c = a :: cpu_locks c' → effect m c (unlock m a) c'.

Lemma irq_begin_wf id line a c c' :
  cpu_wf c → irq_lock_begin rank id line a c = Ok c' → cpu_wf c' ∧ cpu_locks c' = cpu_locks c.
Proof.
  intros (Ht & Hf & Hg & Hp). unfold irq_lock_begin. pose proof (enter_spec id line a _ _ Ht) as He.
  destruct (enter _ _ _ _ _) as [[tok t']|p]; [|done]. destruct He as ((Hr & _ & Hn) & Ha & Hpr & Htr).
  simpl. intros [= <-]. split; [|done]. split; [apply Htr|]. by split_and!.
Qed.

Lemma preempt_begin_wf id line a c c' :
  cpu_wf c → preempt_lock_begin rank id line a c = Ok c' → cpu_wf c' ∧ cpu_locks c' = cpu_locks c.
Proof.
  intros (Ht & Hf & Hg & Hp). unfold preempt_lock_begin. pose proof (enter_spec id line a _ _ Ht) as He. simpl.
  destruct (enter _ _ _ _ _) as [[tok t']|p]; [|done]. destruct He as ((Hr & _ & Hn) & Ha & Hpr & Htr).
  simpl. intros [= <-]. split; [|done]. split; [apply Htr|]. split_and!; try done.
  simpl. lia.
Qed.

Lemma try_lock_wf id line a m c m' c' :
  cpu_wf c → try_lock rank id line a m c = Ok (m', c') → cpu_wf c' ∧ effect m c m' c'.
Proof.
  intros (Ht & Hf & Hg & Hp). unfold try_lock. pose proof (enter_spec id line a _ _ Ht) as He.
  destruct (enter _ _ _ _ _) as [[tok t']|p]; [|done]. destruct He as ((Hr & _ & Hn) & Ha & Hpr & Htr). simpl.
  destruct (is_locked m a) eqn:Hl.
  - destruct (exit_innermost t' (mkFrame a KPreempt tok false) (frames c)) as (t'' & He' & Ht''); [done|by split_and!|].
    cbn [f_token] in He'. rewrite He'. simpl. intros [= <- <-]. split; [|by constructor]. split; [done|]. split_and!; try done.
    simpl. by destruct (interrupts c).
  - intros [= <- <-]. split; [|by apply eff_acquire]. split; [apply Htr|]. by split_and!.
Qed.

Lemma spin_wf m c m' c' : cpu_wf c → spin m c = Some (m', c') → cpu_wf c' ∧ effect m c m' c'.
Proof.
  intros (Ht & Hf & Hg & Hp). unfold spin. destruct c as [t i pd fs]; simpl in *. destruct fs as [|f fs]; [done|].
  destruct (f_held f) eqn:Eh; [done|]. destruct (is_locked m (f_lock f)) eqn:Hl; intros [= <- <-].
  - split; [by split_and!|by constructor].
  - split; [|apply eff_acquire; [done|]; unfold cpu_locks; cbn [frames];
      rewrite filter_cons_True, filter_cons_False by (by rewrite ?Eh); done].
    by split_and!; [apply Ht|apply Hf|apply Hg|].
Qed.

(** Only the innermost guard can be dropped; anything else is caught. *)
Lemma drop_innermost m c f fs :
  cpu_wf c → frames c = f :: fs → f_held f = true →
  ∃ c', drop_guard 0 m c = Some (Ok (unlock m (f_lock f), c')) ∧ cpu_wf c' ∧ frames c' = fs ∧
        (∀ r, f_kind f = KIrq r → interrupts c' = r) ∧
        (f_kind f = KPreempt → interrupts c' = interrupts c).
Proof.
  intros (Ht & Hf & Hg & Hp) Hfs Hh. unfold drop_guard. rewrite Hfs in *. simpl. rewrite Hh. simpl.
  destruct (exit_innermost _ _ _ Ht Hf) as (t' & -> & Ht'). simpl.
  destruct Hf as (_ & _ & _ & _ & Hf). simpl in Hg. destruct (f_kind f) as [r|] eqn:Ek.
  - destruct Hg as [Hflag Hg]. simpl in Hp. rewrite Ek in Hp.
    eexists. split; [done|]. unfold cpu_wf. simpl. rewrite Hflag.
    split_and!; [done..| |done|done|intros r' [= ->]; by destruct r'|done]. by destruct r.
  - simpl in Hp. rewrite Ek in Hp. pose proof (preempt_guards_nonneg fs). unfold preempt_exit. simpl.
    destruct (Z.leb_spec (preempt_depth c) 0); [lia|]. simpl. eexists. split; [done|].
    unfold cpu_wf. simpl. split_and!; try done. lia.
Qed.

Lemma drop_inner m c i f :
  cpu_wf c → frames c !! S i = Some f → f_held f = true →
  drop_guard (S i) m c = Some (Err NotNestingOrder).
Proof.
  intros (Ht & Hf & _) Hi Hh. unfold drop_guard. rewrite Hi. simpl. rewrite Hh. simpl.
  destruct (frames c) as [|g fs] eqn:Efs; [done|]. simpl in Hi.
  rewrite (exit_inner _ g fs); [done|done|]. pose proof Hf as (_ & _ & _ & _ & Hf').
  rewrite (frames_wf_lookup fs i f Hf' Hi). by eapply frames_wf_inner.
Qed.

Lemma drop_wf i m c m' c' :
  cpu_wf c → drop_guard i m c = Some (Ok (m', c')) → cpu_wf c' ∧ effect m c m' c'.
Proof.
  intros Hc Hd. destruct (frames c !! i) as [f|] eqn:Hi; [|unfold drop_guard in Hd; by rewrite Hi in Hd].
  destruct (f_held f) eqn:Hh; [|unfold drop_guard in Hd; rewrite Hi in Hd; simpl in Hd; by rewrite Hh in Hd].
  destruct i as [|i]; [|by rewrite (drop_inner m c i f Hc Hi Hh) in Hd].
  destruct (frames c) as [|g fs] eqn:Hfs; [done|]. injection Hi as ->.
  destruct (drop_innermost m c f fs Hc Hfs Hh) as (c'' & Hd' & Hwf & Hfs' & _).
  rewrite Hd' in Hd. injection Hd as <- <-. split; [done|]. apply eff_release.
  unfold cpu_locks. by rewrite Hfs, Hfs', filter_cons_True.
Qed.

Lemma cpu_step_wf id o m c m' c' :
  cpu_wf c → cpu_step rank id o m c = Some (Ok (m', c')) → cpu_wf c' ∧ effect m c m' c'.
Proof.
  intros Hc. destruct o as [line a|line a|line a| |i|b]; simpl; [destruct (can_run c); [|done]..| | |].
  - destruct (irq_lock_begin _ _ _ _ _) as [c1|] eqn:E; simpl; [|done]. intros [= <- <-].
    destruct (irq_begin_wf _ _ _ _ _ Hc E). split; [done|by constructor].
  - destruct (preempt_lock_begin _ _ _ _ _) as [c1|] eqn:E; simpl; [|done]. intros [= <- <-].
    destruct (preempt_begin_wf _ _ _ _ _ Hc E). split; [done|by constructor].
  - intros [= E]. by eapply try_lock_wf.
  - destruct (spin m c) as [[m1 c1]|] eqn:E; simpl; [|done]. intros [= <- <-]. by apply spin_wf.
  - destruct (_ <? _)%nat; [|done]. apply drop_wf, Hc.
  - destruct (frames c) as [|f fs] eqn:E; [|done]. intros [= <- <-]. destruct Hc as (Ht & Hf & Hg & Hp).
    rewrite E in *. split; [by split_and!|]. constructor. unfold cpu_locks. by rewrite E.
Qed.

Lemma held_split s id c :
  cpus s !! id = Some c →
  ∃ rest, held_locks s ≡ₚ cpu_locks c ++ rest ∧
    ∀ m c', held_locks (mkMachine m (<[id := c']> (cpus s))) ≡ₚ cpu_locks c' ++ rest.
Proof.
  intros Hi. exists ((take id (cpus s) ++ drop (S id) (cpus s)) ≫= cpu_locks). split.
  - unfold held_locks. rewrite <-(take_drop_middle (cpus s) id c Hi) at 1.
    rewrite !bind_app, bind_cons. solve_Permutation.
  - intros m c'. unfold held_locks. simpl. rewrite insert_take_drop by by eapply lookup_lt_Some.
    rewrite !bind_app, bind_cons. solve_Permutation.
Qed.

Lemma effect_wf s id c m c' :
  wf s → cpus s !! id = Some c → cpu_wf c' → effect (mutexes s) c m c' →
  wf (mkMachine m (<[id := c']> (cpus s))).
Proof.
  intros (HF & HN & HL) Hi Hc' He. destruct (held_split s id c Hi) as (rest & Hs & Hs').
  split; [by apply Forall_insert|]. simpl mutexes. setoid_rewrite (Hs' m c'). setoid_rewrite Hs in HL.
  rewrite Hs in HN. destruct He as [c' Heq|a c' Hfree Heq|a c' Heq]; rewrite Heq in *; [done| |].
  - split.
    + simpl. apply NoDup_cons. split; [|done]. intros Hin. apply HL in Hin. congruence.
    + intros b. rewrite locked_acquire, orb_true_iff, bool_decide_eq_true, HL. simpl. rewrite elem_of_cons. naive_solver.
  - simpl in HN. apply NoDup_cons in HN as [Hn HN]. split; [done|]. intros b.
    rewrite locked_unlock, andb_true_iff, negb_true_iff, bool_decide_eq_false, HL. simpl. rewrite elem_of_cons.
    split; [naive_solver|]. intros Hb. split; [intros ->; done|by right].
Qed.

Lemma step_wf s id o s' : wf s → step rank s id o = Some (Ok s') → wf s'.
Proof.
  intros Hwf. unfold step. destruct (cpus s !! id) as [c|] eqn:Hi; [|done]. simpl.
  destruct (cpu_step _ _ _ _ _) as [[[m c']|p]|] eqn:E; simpl; [|done|done]. intros [= <-].
  pose proof Hwf as [HF _]. pose proof (Forall_lookup_1 _ _ _ _ HF Hi) as Hc.
  destruct (cpu_step_wf _ _ _ _ _ _ Hc E) as [Hc' He]. by eapply effect_wf.
Qed.

Lemma boot_wf m0 n : (∀ a, is_locked m0 a = false) → wf (mkMachine m0 (replicate n cpu_new)).
Proof.
  intros Hm. assert (Hh : held_locks (mkMachine m0 (replicate n cpu_new)) = []).
  { unfold held_locks. simpl. by induction n. }
  split_and!.
  - simpl. apply Forall_replicate. unfold cpu_wf, tracks. simpl. unfold MAX_DEPTH. split_and!; (done || lia).
  - rewrite Hh. constructor.
  - intros a. rewrite Hh, Hm. split; [done|]. by intros ?%not_elem_of_nil.
Qed.

Lemma reachable_wf m0 n s : (∀ a, is_locked m0 a = false) → reachable rank m0 n s → wf s.
Proof. intros Hm Hr. induction Hr; [by apply boot_wf|by eapply step_wf]. Qed.

(** ** The checks *)
(** In every reachable state an acquisition is refused exactly when its rank is
    below a held one, the CPU already has eight locks, or it already has this lock; a
    release is refused exactly when the guard is not the innermost; no other step
    panics. *)
Theorem lock_order_checked_exactly m0 n s id o c r :
  (∀ a, is_locked m0 a = false) → reachable rank m0 n s → cpus s !! id = Some c →
  step rank s id o = Some r →
  (∃ s', r = Ok s') ↔
    match o with
    | OLock _ a | OPreemptLock _ a | OTryLock _ a => may_enter a (frames c)
    | ODrop i => i = 0%nat
    | OSpin | OSetInterrupts _ => True
    end.
Proof.
  intros Hm Hr Hi Hs. destruct (reachable_wf _ _ _ Hm Hr) as [HF _].
  pose proof (Forall_lookup_1 _ _ _ _ HF Hi) as Hc. pose proof Hc as (Ht & Hf & _).
  unfold step in Hs. rewrite Hi in Hs. simpl in Hs.
  destruct (cpu_step rank id o (mutexes s) c) as [q|] eqn:E; [|done]. simpl in Hs. injection Hs as <-.
  transitivity (∃ mc, q = Ok mc).
  { destruct q as [[m c']|p]; split; intros [? ?]; (done || eauto). }
  destruct o as [line a|line a|line a| |i|b]; simpl in E; [destruct (can_run c); [|done]..| | |].
  - injection E as <-. unfold irq_lock_begin. pose proof (enter_spec id line a _ _ Ht) as He.
    destruct (enter _ _ _ _ _) as [[tok t']|p]; simpl; [|split; [by intros [? ?]|tauto]].
    split; [tauto|eauto].
  - injection E as <-. unfold preempt_lock_begin. simpl. pose proof (enter_spec id line a _ _ Ht) as He.
    destruct (enter _ _ _ _ _) as [[tok t']|p]; simpl; [|split; [by intros [? ?]|tauto]].
    split; [tauto|eauto].
  - injection E as <-. unfold try_lock. pose proof (enter_spec id line a _ _ Ht) as He.
    destruct (enter _ _ _ _ _) as [[tok t']|p]; simpl; [|split; [by intros [? ?]|tauto]].
    destruct He as (He & Ha & Hp & Htr). split; [tauto|]. intros _. destruct (is_locked _ _); [|eauto].
    destruct (exit_innermost t' (mkFrame a KPreempt tok false) (frames c)) as (t'' & He' & _);
      [done|by destruct He as (? & ? & ?); split_and!|].
    cbn [f_token] in He'. rewrite He'. simpl. eauto.
  - destruct (spin _ _) as [mc|]; [|done]. injection E as <-. split; eauto.
  - destruct (Nat.ltb_spec i (owned (frames c))) as [Ho|]; [|done].
    destruct (frames c !! i) as [f|] eqn:Hfi; [|unfold drop_guard in E; by rewrite Hfi in E].
    destruct (f_held f) eqn:Hh; [|unfold drop_guard in E; rewrite Hfi in E; simpl in E; by rewrite Hh in E].
    destruct i as [|i].
    + destruct (frames c) as [|g fs] eqn:Hfs; [done|]. injection Hfi as ->.
      destruct (drop_innermost (mutexes s) c f fs Hc Hfs Hh) as (c' & Hd & _). rewrite Hd in E. injection E as <-. split; eauto.
    + rewrite (drop_inner _ c i f Hc Hfi Hh) in E. injection E as <-. split; [by intros [? ?]|done].
  - destruct (frames c); [|done]. injection E as <-. split; eauto.
Qed.

(** ** No circular waits *)
Definition busy (c : Cpu) : bool := match frames c with [] => false | _ => true end.
Definition blocked (m : M) (c : Cpu) : bool :=
  match frames c with f :: _ => negb (f_held f) && is_locked m (f_lock f) | [] => false end.

(** The locks that are held or waited for have distinct nonzero ranks. *)
Definition used_locks (s : Machine M) : list Z := cpus s ≫= (λ c, locks (frames c)).
Definition distinct_ranks (s : Machine M) : Prop :=
  ∀ a b, a ∈ used_locks s → b ∈ used_locks s → rank a ≠ 0 ∧ (rank a = rank b → a = b).

Lemma used_lookup s id c f : cpus s !! id = Some c → f ∈ frames c → f_lock f ∈ used_locks s.
Proof.
  intros Hi Hf. apply list_elem_of_bind. exists c. split; [by apply list_elem_of_fmap_2|].
  by eapply list_elem_of_lookup_2.
Qed.

Lemma used_insert s id c m c' :
  cpus s !! id = Some c → locks (frames c') ⊆ locks (frames c) →
  used_locks (mkMachine m (<[id := c']> (cpus s))) ⊆ used_locks s.
Proof.
  intros Hi Hsub a Ha. apply list_elem_of_bind in Ha as (c'' & Ha & Hc'').
  apply list_elem_of_lookup in Hc'' as [j Hj]. simpl in Hj.
  apply list_lookup_insert_Some in Hj as [(-> & -> & _)|[_ Hj]]; apply list_elem_of_bind.
  - exists c. split; [by apply Hsub|by eapply list_elem_of_lookup_2].
  - exists c''. split; [done|by eapply list_elem_of_lookup_2].
Qed.

(** The holder of a lock that somebody waits for, if blocked itself, waits for a
    higher-ranked one. *)
Lemma wait_climbs s f :
  wf s → distinct_ranks s → (∀ id c, cpus s !! id = Some c → busy c = true → blocked (mutexes s) c = true) →
  is_locked (mutexes s) (f_lock f) = true →
  ∃ id c g gs, cpus s !! id = Some c ∧ frames c = g :: gs ∧ is_locked (mutexes s) (f_lock g) = true ∧
    rank (f_lock f) < rank (f_lock g).
Proof.
  intros (HF & HN & HL) Hdis Hall Hl. apply HL in Hl. unfold held_locks in Hl.
  apply list_elem_of_bind in Hl as (c & Hin & Hc). unfold cpu_locks in Hin.
  apply list_elem_of_fmap in Hin as (h & Hlk & Hh). apply list_elem_of_filter in Hh as [Hheld Hh].
  apply list_elem_of_lookup in Hc as [id Hid]. specialize (Hall id c Hid). unfold busy, blocked in Hall.
  destruct (Forall_lookup_1 _ _ _ _ HF Hid) as (_ & Hwf & _).
  destruct (frames c) as [|g gs] eqn:Hgs; [by apply not_elem_of_nil in Hh|].
  specialize (Hall eq_refl). apply andb_true_iff in Hall as [Hg Hgl]. apply negb_true_iff in Hg.
  exists id, c, g, gs. split_and!; [done..|].
  apply elem_of_cons in Hh as [->|Hh]; [congruence|].
  destruct Hwf as (_ & _ & Hn & Hr & _). pose proof (max_rank_elem gs h Hh). rewrite Hlk.
  assert (Hg' : f_lock g ∈ used_locks s) by (eapply used_lookup; [done|rewrite Hgs; left]).
  assert (Hh' : f_lock h ∈ used_locks s) by (eapply used_lookup; [done|rewrite Hgs; by right]).
  destruct (Hdis _ _ Hg' Hh') as [Hpos Hinj]. destruct Hr as [Hr|Hr]; [done|].
  assert (rank (f_lock h) ≠ rank (f_lock g)); [|lia]. intros E. apply Hn.
  rewrite (Hinj (eq_sym E)). by apply list_elem_of_fmap_2.
Qed.

Lemma rank_bound (s : Machine M) : ∃ B, ∀ id c f, cpus s !! id = Some c → f ∈ frames c → rank (f_lock f) ≤ B.
Proof.
  exists (foldr (λ c B, Z.max (max_rank (frames c)) B) 0 (cpus s)). intros id c f Hid Hf.
  apply max_rank_elem in Hf. revert id Hid. induction (cpus s) as [|c' cs IH]; intros [|id] Hid; [done..| |]; simpl.
  - injection Hid as ->. lia.
  - specialize (IH id Hid). lia.
Qed.

Lemma not_all_blocked s id c :
  wf s → distinct_ranks s → cpus s !! id = Some c → busy c = true →
  ∃ id' c', cpus s !! id' = Some c' ∧ busy c' = true ∧ blocked (mutexes s) c' = false.
Proof.
  intros Hwf Hdis Hi Hb.
  destruct (list_find (λ c, busy c && negb (blocked (mutexes s) c) = true) (cpus s)) as [[id' c']|] eqn:E.
  { apply list_find_Some in E as (Hi' & E & _). apply andb_true_iff in E as [? ?%negb_true_iff]. eauto. }
  exfalso. apply list_find_None in E. rewrite Forall_lookup in E.
  assert (Hall : ∀ id c, cpus s !! id = Some c → busy c = true → blocked (mutexes s) c = true).
  { intros j c' Hj Hb'. specialize (E j c' Hj). rewrite Hb' in E. simpl in E. by destruct (blocked _ _). }
  clear E. destruct (rank_bound s) as [B HB].
  assert (Hclimb : ∀ k id c f fs, cpus s !! id = Some c → frames c = f :: fs →
    is_locked (mutexes s) (f_lock f) = true → B - rank (f_lock f) < Z.of_nat k → False).
  { induction k as [|k IH]; intros j c' f fs Hj Hfs Hl Hk.
    - specialize (HB j c' f Hj). rewrite Hfs in HB. specialize (HB (list_elem_of_here _ _)). lia.
    - destruct (wait_climbs s f Hwf Hdis Hall Hl) as (j' & c'' & g & gs & Hj' & Hgs & Hg & Hlt).
      eapply (IH j' c'' g gs); [done..|lia]. }
  specialize (Hall id c Hi Hb). unfold busy, blocked in *. destruct (frames c) as [|f fs] eqn:Hfs; [done|].
  apply andb_true_iff in Hall as [_ Hl].
  by apply (Hclimb (Z.to_nat (B - rank (f_lock f) + 1)) id c f fs Hi Hfs Hl); lia.
Qed.

(** Work left: two turns for a spinning frame, one for a held one. *)
Definition frame_work (f : Frame) : nat := if f_held f then 1 else 2.
Definition cpu_work (c : Cpu) : nat := sum_list_with frame_work (frames c).
Definition work (s : Machine M) : nat := sum_list_with cpu_work (cpus s).

Lemma work_insert s id c m c' :
  cpus s !! id = Some c → (cpu_work c' < cpu_work c)%nat →
  (work (mkMachine m (<[id := c']> (cpus s))) < work s)%nat.
Proof.
  intros Hi Hlt. unfold work. simpl. rewrite <-(take_drop_middle (cpus s) id c Hi) at 2.
  rewrite insert_take_drop by by eapply lookup_lt_Some. rewrite !sum_list_with_app. simpl. lia.
Qed.

(** Somebody can always go on: release its innermost guard, or acquire what it spins on. *)
Lemma progress s id c :
  wf s → distinct_ranks s → cpus s !! id = Some c → busy c = true →
  ∃ id' o s', (o = OSpin ∨ o = ODrop 0) ∧ step rank s id' o = Some (Ok s') ∧ (work s' < work s)%nat ∧
    used_locks s' ⊆ used_locks s.
Proof.
  intros Hwf Hdis Hi Hb. destruct (not_all_blocked s id c Hwf Hdis Hi Hb) as (id' & c' & Hi' & Hb' & Hnb).
  destruct Hwf as [HF _]. pose proof (Forall_lookup_1 _ _ _ _ HF Hi') as Hc.
  unfold busy, blocked in *. destruct (frames c') as [|f fs] eqn:Hfs; [done|]. destruct (f_held f) eqn:Hh.
  - destruct (drop_innermost (mutexes s) c' f fs Hc Hfs Hh) as (c'' & Hd & _ & Hfs'' & _).
    exists id', (ODrop 0). eexists. split; [by right|]. unfold step. rewrite Hi'. simpl. rewrite Hfs. simpl.
    rewrite Hh. simpl. rewrite Hd. simpl. split; [done|]. split.
    + apply (work_insert _ _ c'); [done|].
      unfold cpu_work. rewrite Hfs, Hfs''. simpl. unfold frame_work. destruct (f_held f); lia.
    + apply (used_insert s id' c'); [done|]. rewrite Hfs, Hfs''. rewrite fmap_cons. set_solver.
  - simpl in Hnb. exists id', OSpin. eexists. split; [by left|]. unfold step. rewrite Hi'. simpl. unfold spin.
    rewrite Hfs, Hh, Hnb. simpl. split; [done|]. split.
    + apply (work_insert _ _ c'); [done|].
      unfold cpu_work. rewrite Hfs. simpl. unfold frame_work. simpl. rewrite Hh. lia.
    + apply (used_insert s id' c'); [done|]. by rewrite Hfs.
Qed.

Lemma drain k s :
  wf s → distinct_ranks s → (work s < k)%nat →
  ∃ os s', Forall (λ x, x.2 = OSpin ∨ x.2 = ODrop 0) os ∧ run rank s os = Some (Ok s') ∧
    Forall (λ c, frames c = []) (cpus s').
Proof.
  revert s. induction k as [|k IH]; intros s Hwf Hdis Hk; [lia|].
  destruct (list_find (λ c, busy c = true) (cpus s)) as [[id c]|] eqn:E.
  - apply list_find_Some in E as (Hi & Hb & _).
    destruct (progress s id c Hwf Hdis Hi Hb) as (id' & o & s' & Ho & Hs & Hw & Hu).
    assert (Hdis' : distinct_ranks s') by (intros x y Hx Hy; apply Hdis; by apply Hu).
    destruct (IH s' (step_wf _ _ _ _ Hwf Hs) Hdis' ltac:(lia)) as (os & s'' & Hos & Hrun & Hdone).
    exists ((id', o) :: os), s''. split_and!; [by constructor| |done]. simpl. by rewrite Hs.
  - exists [], s. split_and!; [constructor|done|]. apply list_find_None in E.
    eapply Forall_impl; [exact E|]. intros c Hc. unfold busy in Hc. by destruct (frames c).
Qed.

(** C16. With distinct nonzero ranks the locks cannot deadlock: from every reachable
    state in which the locks held or waited for have such ranks, the CPUs can all finish,
    by spinning and by releasing their guards in nesting order. *)
Theorem ranked_locks_deadlock_free m0 n s :
  (∀ a, is_locked m0 a = false) → reachable rank m0 n s → distinct_ranks s →
  ∃ os s', Forall (λ x, x.2 = OSpin ∨ x.2 = ODrop 0) os ∧ run rank s os = Some (Ok s') ∧
    Forall (λ c, frames c = []) (cpus s').
Proof. intros Hm Hr Hd. apply (drain (S (work s))); [by eapply reachable_wf|done|lia]. Qed.

(** In every reachable state a lock is held by at most one guard of the whole
    machine, the tracker of each CPU lists exactly its guards and their highest rank,
    and while an [IrqMutex] guard is the innermost interrupts are off. *)
Theorem tracker_exact m0 n s :
  (∀ a, is_locked m0 a = false) → reachable rank m0 n s →
  NoDup (held_locks s) ∧
  ∀ id c, cpus s !! id = Some c →
    take (DEPTH (tracker c)) (HELD (tracker c)) = reverse (f_lock <$> frames c) ∧
    HIGHEST_RANK (tracker c) = max_rank (frames c) ∧
    preempt_depth c = preempt_guards (frames c) ∧
    (∀ f fs r, frames c = f :: fs → f_kind f = KIrq r → interrupts c = false).
Proof.
  intros Hm Hr. destruct (reachable_wf _ _ _ Hm Hr) as (HF & HN & _). split; [done|]. intros id c Hi.
  destruct (Forall_lookup_1 _ _ _ _ HF Hi) as (Ht & _ & Hg & Hp). split_and!; [by apply held_prefix|apply Ht|done|].
  intros f fs r Hfs Hk. rewrite Hfs in Hg. simpl in Hg. rewrite Hk in Hg. apply Hg.
Qed.
End proofs.
End LockProofs.

Module LockDemo.
Import LockProofs.

(** A set of locked addresses implements the mutexes. *)
#[export] Instance list_mutex : SpinMutex (list Z) := {|
  is_locked m a := bool_decide (a ∈ m);
  acquire m a := a :: m;
  unlock m a := filter (λ b, b ≠ a) m
|}.

#[export] Instance list_mutex_laws : SpinLaws (list Z).
Proof.
  split.
  - intros m a b. simpl. apply eq_iff_eq_true. rewrite orb_true_iff, !bool_decide_eq_true, elem_of_cons. naive_solver.
  - intros m a b. simpl. apply eq_iff_eq_true.
    rewrite andb_true_iff, negb_true_iff, bool_decide_eq_false, !bool_decide_eq_true, list_elem_of_filter. naive_solver.
Qed.

Lemma boot_free a : is_locked (M := list Z) [] a = false.
Proof. done. Qed.

(** Reachability by execution. *)
Lemma run_reachable {M} `{SpinMutex M} rank m0 n s os s' :
  reachable rank m0 n s → run rank s os = Some (Ok s') → reachable rank m0 n s'.
Proof.
  revert s. induction os as [|[id o] os IH]; intros s Hr; simpl; [by intros [= <-]|].
  destruct (step rank s id o) as [[s1|p]|] eqn:E; [|done..]. intros Hrun.
  by eapply IH, Hrun; eapply reach_step.
Qed.

Definition boot (n : nat) : Machine (list Z) := mkMachine [] (replicate n cpu_new).
Definition final (r : option (result (Machine (list Z)) Panic)) : Machine (list Z) :=
  match r with Some (Ok s) => s | _ => boot 0 end.

(** The first CPU takes lock 1 then wants 2, the second takes 2 then wants 1. *)
Definition crossing : list (nat * op) :=
  [(0%nat, OLock 100 1); (0%nat, OSpin); (1%nat, OLock 200 2); (1%nat, OSpin);
   (0%nat, OLock 101 2); (1%nat, OLock 201 1)].

(** C38. Two locks of the same rank taken in opposite orders pass every check and leave
    both CPUs spinning for ever: a state is reachable in which locks are held and every
    possible step leaves it as it is. *)
Theorem equal_ranks_deadlock :
  ∃ s, reachable (λ _, 10) (M := list Z) [] 2 s ∧ held_locks s = [1; 2] ∧
    (∃ r, step (λ _, 10) s 0 OSpin = Some r) ∧
    ∀ id o r, step (λ _, 10) s id o = Some r → r = Ok s.
Proof.
  exists (final (run (λ _, 10) (boot 2) crossing)). split_and!.
  - eapply (run_reachable _ _ _ (boot 2) crossing); [constructor|]. vm_compute. reflexivity.
  - vm_compute. reflexivity.
  - eexists. vm_compute. reflexivity.
  - intros [|[|id]] o r; destruct o as [l a|l a|l a| |[|i]|b]; vm_compute; intros E; simplify_eq; done.
Qed.

(** Ranks of the demonstration: the low byte of the address. *)
Definition low_byte (a : Z) : Z := a mod 256.
Lemma low_byte_u8 a : 0 ≤ low_byte a ≤ u8_max.
Proof. unfold low_byte, u8_max. pose proof (Z.mod_pos_bound a 256). lia. Qed.

Lemma reachable_crossing k :
  match run low_byte (boot 2) (take k crossing) with Some (Ok _) => True | _ => False end →
  reachable low_byte [] 2 (final (run low_byte (boot 2) (take k crossing))).
Proof.
  intros Hk. destruct (run low_byte _ _) as [[s|p]|] eqn:E; [|done..].
  by eapply (run_reachable _ _ _ (boot 2) (take k crossing)); [constructor|].
Qed.

(** The same crossing with distinct ranks is caught. *)
Lemma lock_order_checked_exactly_witness :
  ¬ may_enter low_byte 1 (frames (default cpu_new (cpus (final (run low_byte (boot 2) (take 4 crossing))) !! 1%nat))).
Proof.
  intros Hm. pose (s := final (run low_byte (boot 2) (take 4 crossing))).
  assert (E : step low_byte s 1 (OLock 201 1) = Some (Err LockOrderInversion)) by (vm_compute; reflexivity).
  assert (Hc : cpus s !! 1%nat = Some (default cpu_new (cpus s !! 1%nat))) by (vm_compute; reflexivity).
  destruct (proj2 (lock_order_checked_exactly low_byte low_byte_u8 [] 2 s 1 (OLock 201 1) _ _
    boot_free (reachable_crossing 4 I) Hc E) Hm) as [s' Hs']. done.
Defined.

Lemma tracker_exact_witness : NoDup (held_locks (final (run low_byte (boot 2) (take 4 crossing)))).
Proof. apply (tracker_exact low_byte low_byte_u8 [] 2); [exact boot_free|]. by apply (reachable_crossing 4). Defined.

Lemma ranked_locks_deadlock_free_witness :
  ∃ os s', Forall (λ x, x.2 = OSpin ∨ x.2 = ODrop 0) os ∧
    run low_byte (final (run low_byte (boot 2) (take 5 crossing))) os = Some (Ok s') ∧
    Forall (λ c, frames c = []) (cpus s').
Proof.
  apply (ranked_locks_deadlock_free low_byte low_byte_u8) with (m0 := []) (n := 2%nat).
  - exact boot_free.
  - by apply (reachable_crossing 5).
  - assert (Hu : used_locks (final (run low_byte (boot 2) (take 5 crossing))) = [2; 1; 2]) by (vm_compute; reflexivity).
    intros a b. rewrite Hu, !elem_of_cons.
    intros [->|[->|[->|?%not_elem_of_nil]]] [->|[->|[->|?%not_elem_of_nil]]]; done.
Defined.
End LockDemo.
