(* ===== verification/Journal.v ===== *)
(** * The write-ahead intent log (kernel/src/journal.rs)

    A bounded table of intents and a token counter. [recover] clears the table and
    reports how many intents were begun and not committed; [recover_exact] relates that
    number to the history of calls. *)
From S2P Require Import Prelude.

Module Journal.

Definition MAX : nat := 32.

Record Entry := mkEntry {
  token : Z;
  entry_path_hash : Z;
  entry_checksum : Z;
  committed : bool
}.

(** [LOG] and [NEXT]. *)
Record State := mkState {
  log : list (option Entry);
  next : Z
}.
Definition boot : State := mkState (replicate MAX None) 1.

(** FNV-1a over the bytes of the path. *)
Definition path_hash (path : list Z) : Z :=
  foldl (λ h b, wrap64 (Z.lxor h b * 1099511628211)) 1469598103934665603 path.

Definition is_none (e : option Entry) : bool := match e with None => true | Some _ => false end.

Definition begin (path_hash checksum : Z) (s : State) : State * option Z :=
  match position is_none (log s) with
  | None => (s, None)
  | Some slot =>
      let token := next s in
      (mkState (<[slot := Some (mkEntry token path_hash checksum false)]> (log s)) (saturating_add64 (next s) 1),
       Some token)
  end.

Definition has_token (t : Z) (e : option Entry) : bool :=
  match e with Some e => token e =? t | None => false end.
Definition set_committed (e : option Entry) : option Entry :=
  (λ e, mkEntry (token e) (entry_path_hash e) (entry_checksum e) true) <$> e.

Definition commit (t : Z) (s : State) : State * bool :=
  match position (has_token t) (log s) with
  | None => (s, false)
  | Some i => (mkState (alter set_committed i (log s)) (next s), true)
  end.

Definition uncommitted (e : option Entry) : bool :=
  match e with Some e => negb (committed e) | None => false end.

(** Every turn of the loop clears its slot; the count is of the uncommitted ones. *)
Definition recover_turn (recovered : Z) (e : option Entry) : option Entry * Z :=
  if uncommitted e then (None, recovered + 1)
  else if match e with Some e => committed e | None => false end then (None, recovered)
  else (e, recovered).

Fixpoint recover_loop (recovered : Z) (l : list (option Entry)) : list (option Entry) * Z :=
  match l with
  | [] => ([], recovered)
  | e :: l =>
      let '(e, recovered) := recover_turn recovered e in
      let '(l, recovered) := recover_loop recovered l in
      (e :: l, recovered)
  end.

Definition recover (s : State) : State * Z :=
  let '(l, n) := recover_loop 0 (log s) in (mkState l (next s), n).

Definition structural_self_test (s : State) : bool :=
  let '(s, _) := recover s in
  match begin 11 22 s with
  | (s, Some a) =>
      match begin 33 44 s with
      | (s, Some b) =>
          let '(s, c1) := commit b s in
          if negb c1 then false else
          let '(s, n) := recover s in
          if negb (n =? 1) then false else negb (snd (commit a s))
      | (_, None) => false
      end
  | (_, None) => false
  end.

(** ** Histories *)
Inductive call := CBegin (path_hash checksum : Z) | CCommit (t : Z).

Definition exec (c : call) (s : State) : State :=
  match c with CBegin p k => fst (begin p k s) | CCommit t => fst (commit t s) end.

(** The tokens begun and not committed yet, as the callers see them. *)
Definition pending_after (c : call) (s : State) (pending : list Z) : list Z :=
  match c with
  | CBegin p k => match snd (begin p k s) with Some t => t :: pending | None => pending end
  | CCommit t => filter (λ x, x ≠ t) pending
  end.

Fixpoint history (cs : list call) (s : State) (pending : list Z) : State * list Z :=
  match cs with
  | [] => (s, pending)
  | c :: cs => history cs (exec c s) (pending_after c s pending)
  end.

Definition tokens (l : list (option Entry)) : list Z := token <$> flatten l.
Definition pending_of (l : list (option Entry)) : list Z :=
  token <$> filter (λ e, committed e = false) (flatten l).

Definition wf (s : State) (pending : list Z) : Prop :=
  length (log s) = MAX ∧ NoDup (tokens (log s)) ∧ Forall (λ t, t < next s) (tokens (log s)) ∧
  pending ≡ₚ pending_of (log s).

Lemma pending_of_cons e l :
  pending_of (Some e :: l) = if committed e then pending_of l else token e :: pending_of l.
Proof.
  unfold pending_of, flatten. cbn [omap list_omap id]. destruct (committed e) eqn:E.
  - by rewrite filter_cons_False by congruence.
  - by rewrite filter_cons_True by done.
Qed.

Lemma recover_loop_spec n l :
  recover_loop n l = (replicate (length l) None, n + Z.of_nat (length (pending_of l))).
Proof.
  revert n. induction l as [|e l IH]; intros n; simpl; [f_equal; lia|].
  unfold recover_turn. destruct e as [e|]; simpl.
  - rewrite pending_of_cons. destruct (committed e); simpl; rewrite IH; [done|]. f_equal. cbn [length]. lia.
  - rewrite IH. done.
Qed.

Lemma flatten_insert_none (l : list (option Entry)) i e :
  l !! i = Some None → flatten (<[i := Some e]> l) ≡ₚ e :: flatten l.
Proof.
  intros Hi. unfold flatten. rewrite insert_take_drop by by eapply lookup_lt_Some.
  rewrite <-(take_drop_middle l i None Hi) at 3. rewrite !omap_app. simpl. solve_Permutation.
Qed.

Lemma log_split (l : list (option Entry)) i e :
  l !! i = Some (Some e) → ∃ pre post, flatten l = pre ++ e :: post ∧
    ∀ e', flatten (<[i := Some e']> l) = pre ++ e' :: post.
Proof.
  intros Hi. exists (flatten (take i l)), (flatten (drop (S i) l)). unfold flatten. split.
  - rewrite <-(take_drop_middle l i _ Hi) at 1. by rewrite omap_app.
  - intros e'. rewrite insert_take_drop by by eapply lookup_lt_Some. by rewrite omap_app.
Qed.

Lemma begin_wf p k s pending :
  next s < u64_max → wf s pending → wf (exec (CBegin p k) s) (pending_after (CBegin p k) s pending).
Proof.
  intros Hn (Hl & HN & HF & HP). simpl. unfold begin. destruct (position is_none (log s)) as [i|] eqn:E; simpl; [|by split_and!].
  apply position_lookup in E as (x & Hi & Hx). destruct x; [done|].
  pose proof (flatten_insert_none (log s) i (mkEntry (next s) p k false) Hi) as Hf.
  assert (Hsat : saturating_add64 (next s) 1 = next s + 1) by (unfold saturating_add64; lia).
  assert (Ht : tokens (<[i := Some (mkEntry (next s) p k false)]> (log s)) ≡ₚ next s :: tokens (log s)).
  { unfold tokens. by rewrite Hf. }
  unfold wf. cbn [log next]. rewrite Hsat, length_insert. split_and!; [done| | |].
  - rewrite Ht. apply NoDup_cons. split; [|done]. intros Hin. rewrite Forall_forall in HF.
    specialize (HF _ Hin). simpl in HF. lia.
  - rewrite Ht. constructor; [simpl; lia|]. eapply Forall_impl; [exact HF|]. simpl. lia.
  - unfold pending_of in *. rewrite Hf, filter_cons_True by done. rewrite fmap_cons. by rewrite HP.
Qed.

Lemma commit_wf t s pending :
  wf s pending → wf (exec (CCommit t) s) (pending_after (CCommit t) s pending).
Proof.
  intros (Hl & HN & HF & HP). simpl. unfold commit. destruct (position (has_token t) (log s)) as [i|] eqn:E; simpl.
  - apply position_lookup in E as (x & Hi & Hx). destruct x as [e|]; [|done]. apply Z.eqb_eq in Hx. subst t.
    destruct (log_split (log s) i e Hi) as (pre & post & Hf & Hf').
    assert (Ha : alter set_committed i (log s) =
      <[i := Some (mkEntry (token e) (entry_path_hash e) (entry_checksum e) true)]> (log s)).
    { apply list_eq. intros j. destruct (decide (i = j)) as [<-|].
      - rewrite list_lookup_alter_eq, Hi, list_lookup_insert_eq by by eapply lookup_lt_Some. done.
      - by rewrite list_lookup_alter_ne, list_lookup_insert_ne by done. }
    unfold wf, tokens, pending_of in *. cbn [log next]. rewrite Ha, Hf', length_insert. rewrite Hf in HN, HF, HP.
    rewrite fmap_app, fmap_cons in HN, HF. rewrite !fmap_app, !fmap_cons. cbn [token] in *. split_and!; [done..|].
    rewrite HP. rewrite !filter_app, (filter_cons_False _ (mkEntry _ _ _ true)) by done. rewrite !fmap_app.
    assert (Hkeep : ∀ l : list Entry, token e ∉ token <$> l →
      filter (λ x, x ≠ token e) (token <$> filter (λ e, committed e = false) l) =
      token <$> filter (λ e, committed e = false) l).
    { intros l Hnl. apply filter_all. intros x Hx Heq. apply list_elem_of_fmap in Hx as (y & -> & Hy).
      apply list_elem_of_filter in Hy as [_ Hy]. apply Hnl. rewrite <-Heq. by apply list_elem_of_fmap_2. }
    apply NoDup_app in HN as (_ & Hd & HN). apply NoDup_cons in HN as [Hn2 _].
    rewrite filter_app, Hkeep.
    2: { intros Hin. apply (Hd _ Hin). left. }
    rewrite filter_cons. case_decide; simpl; rewrite ?filter_cons_False, Hkeep by (done || tauto); done.
  - assert (Hno : t ∉ pending).
    { rewrite HP. unfold pending_of. intros Hin. apply list_elem_of_fmap in Hin as (e & -> & He).
      apply list_elem_of_filter in He as [_ He]. unfold flatten in He. apply list_elem_of_omap in He as (x & Hx & Hid).
      apply list_elem_of_lookup in Hx as [i Hi]. rewrite position_None in E. specialize (E i x Hi).
      unfold id in Hid. subst x. simpl in E. by rewrite Z.eqb_refl in E. }
    split_and!; [done..|]. rewrite <-HP. rewrite filter_all; [done|]. intros x Hx ->. done.
Qed.

(** [recover] after any history of calls from boot clears the table and reports exactly
    the intents that were begun and never committed. *)
Lemma recover_exact cs :
  Z.of_nat (length cs) < u64_max - 1 →
  let '(s, pending) := history cs boot [] in
  recover s = (mkState (replicate MAX None) (next s), Z.of_nat (length pending)).
Proof.
  assert (Hgen : ∀ s pending, wf s pending → next s + Z.of_nat (length cs) < u64_max →
    let '(s', pending') := history cs s pending in wf s' pending').
  { induction cs as [|c cs IH]; intros s pending Hw Hn; simpl; [done|].
    apply IH.
    - destruct c as [p k|t]; [apply begin_wf; [simpl in Hn; lia|done]|by apply commit_wf].
    - destruct c as [p k|t]; simpl in *.
      + unfold begin. destruct (position _ _); simpl; unfold saturating_add64; lia.
      + unfold commit. destruct (position _ _); simpl; lia. }
  intros Hc. specialize (Hgen boot []). destruct (history cs boot []) as [s pending].
  destruct Hgen as (Hl & _ & _ & HP); [|simpl; lia|].
  { unfold wf, boot, tokens, pending_of. simpl log.
    replace (flatten (replicate MAX None)) with ([] : list Entry) by reflexivity.
    split_and!; [done|constructor|constructor|done]. }
  unfold recover. rewrite recover_loop_spec, Hl, <-HP. done.
Qed.

Example journal_self_test_passes : structural_self_test boot = true.
Proof. vm_compute. reflexivity. Qed.

End Journal.
