(* ===== verification/Fat32.v ===== *)
(** * FAT32 volumes: allocation and file data (kernel/src/fat32.rs)

    Mounting, the file allocation table and its copies, cluster chains and their cycle
    guard, the free-space hints of the FSInfo sector, allocation with rollback, and the
    reading and writing of file contents. Directories are in [Fat32Dir]. *)
From S2P Require Import Prelude Block DeviceIo.
Import Block Io.

Module Fat.

Definition FAT32_MIN_CLUSTERS : Z := 65525.
Definition FAT32_ENTRY_MASK : Z := 0x0fffffff.
Definition FAT32_BAD_CLUSTER : Z := 0x0ffffff7.
Definition FAT32_END_MIN : Z := 0x0ffffff8.
Definition FSINFO_UNKNOWN : Z := 0xffffffff.
Definition FSINFO_LEAD_SIGNATURE : Z := 0x41615252.
Definition FSINFO_STRUCT_SIGNATURE : Z := 0x61417272.
Definition FSINFO_TRAIL_SIGNATURE : Z := 0xaa550000.
Definition FSINFO_FREE_COUNT_OFFSET : nat := 488.
Definition FSINFO_NEXT_FREE_OFFSET : nat := 492.

Inductive FatError :=
  | EBlock (e : Error)
  | InvalidBootSector
  | UnsupportedGeometry
  | CorruptDirectory
  | DirectoryFull
  | CorruptChain
  | ChainLoop
  | ChainTooLong
  | TruncatedFile
  | NotFound
  | NoSpace
  | NameTooLong
  | AlreadyExists
  | DirectoryNotEmpty
  | EReadOnly
  | InvalidPath
  | WriteFailed.

#[export] Instance FatError_eq_dec : EqDecision FatError.
Proof. solve_decision. Defined.

Record Volume := mkVolume {
  total_sectors : Z;
  sectors_per_cluster : Z;
  fat_count : Z;
  fat_size : Z;
  root_cluster : Z;
  first_fat_sector : Z;
  first_data_sector : Z;
  fs_info_sector : option Z;
  backup_fs_info_sector : option Z;
  cluster_count : Z
}.

Record DirectoryEntry := mkDirectoryEntry {
  short_name : list Z;
  first_cluster : Z;
  size : Z;
  attributes : Z
}.

#[export] Instance DirectoryEntry_eq_dec : EqDecision DirectoryEntry.
Proof. solve_decision. Defined.

Record FsInfo := mkFsInfo {
  free_count : Z;
  next_free : Z
}.

Record DirectoryExtension := mkDirectoryExtension {
  parent_cluster : Z;
  ext_cluster : Z
}.

Record DirectorySlotReservation := mkReservation {
  slot_lba : Z;
  slot_offset : nat;
  existing : option DirectoryEntry;
  extension : option DirectoryExtension
}.

Inductive ClusterLink := Next (c : Z) | End.

Record SpaceInfo := mkSpaceInfo {
  total_clusters : Z;
  free_clusters : Z;
  bytes_per_cluster : Z;
  fs_info_free_count : option Z;
  fs_info_next_free : option Z;
  fs_info_matches : bool
}.

(** 32-bit arithmetic. *)
Definition saturating_add32 (x y : Z) : Z := Z.min (x + y) u32_max.
Definition checked_add32 (x y : Z) : option Z := if x + y <=? u32_max then Some (x + y) else None.
Definition checked_mul32 (x y : Z) : option Z := if x * y <=? u32_max then Some (x * y) else None.
Definition checked_sub32 (x y : Z) : option Z := if y <=? x then Some (x - y) else None.

Definition read_u16 (s : list Z) (off : nat) : Z := from_le_bytes [byte_at s off; byte_at s (off + 1)].
Definition write_u16 (s : list Z) (off : nat) (v : Z) : list Z := splice off (to_le_bytes 2 v) s.
Definition write_u32 (s : list Z) (off : nat) (v : Z) : list Z := splice off (to_le_bytes 4 v) s.

Definition cluster_lba (v : Volume) (cluster : Z) : result Z FatError :=
  if (cluster <? 2) || (saturating_add32 (cluster_count v) 2 <=? cluster) then Err CorruptChain
  else ok_or (checked_add64 (first_data_sector v) ((cluster - 2) * sectors_per_cluster v)) UnsupportedGeometry.

Definition is_allocatable_cluster (v : Volume) (cluster : Z) : bool :=
  (2 <=? cluster) && (cluster <? saturating_add32 (cluster_count v) 2).

Definition next_cluster_hint (v : Volume) (cluster : Z) : Z :=
  let next := saturating_add32 cluster 1 in
  if is_allocatable_cluster v next then next else 2.

Definition fs_info_signatures_valid (s : list Z) : bool :=
  (length s =? SECTOR_SIZE)%nat && (read_u32 s 0 =? FSINFO_LEAD_SIGNATURE) &&
  (read_u32 s 484 =? FSINFO_STRUCT_SIGNATURE) && (read_u32 s 508 =? FSINFO_TRAIL_SIGNATURE).

Definition sanitize_fs_info_value (value max : Z) : Z :=
  if (value =? FSINFO_UNKNOWN) || (value <=? max) then value else FSINFO_UNKNOWN.
Definition sanitize_next_free (v : Volume) (value : Z) : Z :=
  if is_allocatable_cluster v value then value else FSINFO_UNKNOWN.

(** [ChainCycleGuard]: Floyd's tortoise and hare. *)
Record ChainCycleGuard := mkGuard {
  tortoise : Z;
  hare : Z;
  active : bool;
  steps : Z
}.
Definition guard_new (start : Z) : ChainCycleGuard := mkGuard start start true 0.

Section device.
Context {D : Type} `{BlockDevice D}.
Abbreviation fio := (io D FatError).

Definition valid_fs_info_sector (sector_lba reserved_sectors : Z) : fio (option Z) :=
  if (sector_lba =? 0) || (reserved_sectors <=? sector_lba) then iret None
  else
    let! r := itry (dread EBlock sector_lba zeros) in
    match r with
    | Err _ => iret None
    | Ok sector => iret (if fs_info_signatures_valid sector then Some sector_lba else None)
    end.

Definition mount : fio Volume :=
  let! sector := dread EBlock 0 zeros in
  if negb (byte_at sector 510 =? 0x55) || negb (byte_at sector 511 =? 0xaa) then ierr InvalidBootSector
  else
  let bytes_per_sector := read_u16 sector 11 in
  let spc := byte_at sector 13 in
  let reserved_sectors := read_u16 sector 14 in
  let fats := byte_at sector 16 in
  let root_entries := read_u16 sector 17 in
  let total_sectors_16 := read_u16 sector 19 in
  let fat_size_16 := read_u16 sector 22 in
  let total := read_u32 sector 32 in
  let fat_sz := read_u32 sector 36 in
  let root := read_u32 sector 44 in
  let fs_info_sector_field := read_u16 sector 48 in
  let backup_boot_sector := read_u16 sector 50 in
  if negb (bytes_per_sector =? Z.of_nat SECTOR_SIZE) || (spc =? 0) || negb (is_power_of_two spc)
     || (128 <? spc) || (reserved_sectors =? 0) || negb ((fats =? 1) || (fats =? 2))
     || negb (root_entries =? 0) || negb (total_sectors_16 =? 0) || negb (fat_size_16 =? 0)
     || (total =? 0) || (fat_sz =? 0) || (root <? 2)
  then ierr UnsupportedGeometry
  else
  let! count := dcount in
  if count <? total then ierr UnsupportedGeometry
  else
  let! fat_sectors := iresult (ok_or (checked_mul32 fats fat_sz) UnsupportedGeometry) in
  let! first_data := iresult (ok_or (checked_add32 reserved_sectors fat_sectors) UnsupportedGeometry) in
  let! data_sectors := iresult (ok_or (checked_sub32 total first_data) UnsupportedGeometry) in
  let clusters := data_sectors / spc in
  if (clusters <? FAT32_MIN_CLUSTERS) || (saturating_add32 clusters 2 <=? root) then ierr UnsupportedGeometry
  else
  let! fs_info := valid_fs_info_sector fs_info_sector_field reserved_sectors in
  let! backup_fs_info :=
    (if backup_boot_sector =? 0 then iret None
     else match checked_add32 backup_boot_sector 1 with
          | None => iret None
          | Some sector => valid_fs_info_sector sector reserved_sectors
          end) in
  iret (mkVolume total spc fats fat_sz root reserved_sectors first_data fs_info backup_fs_info clusters).

Section volume.
Context (v : Volume).

(** ** The file allocation table *)

(** The sector of the first copy of the table that holds the entry of a cluster. *)
Definition fat_sector_of (cluster : Z) : result Z FatError :=
  let? fat_offset := ok_or (checked_mul64 cluster 4) CorruptChain in
  let? fat_sector := ok_or (checked_add64 (first_fat_sector v) (fat_offset / Z.of_nat SECTOR_SIZE)) CorruptChain in
  if first_data_sector v <=? fat_sector then Err CorruptChain else Ok fat_sector.
Definition fat_entry_offset (cluster : Z) : nat := Z.to_nat ((cluster * 4) mod Z.of_nat SECTOR_SIZE).

Definition read_fat_entry (cluster : Z) : fio Z :=
  let! _ := iresult (cluster_lba v cluster) in
  let! fat_sector := iresult (fat_sector_of cluster) in
  let! sector := dread EBlock fat_sector zeros in
  iret (Z.land (read_u32 sector (fat_entry_offset cluster)) FAT32_ENTRY_MASK).

(** One copy of the table; [!FAT32_ENTRY_MASK] is the reserved top nibble. *)
Definition write_fat_copy (cluster masked : Z) (fat : Z) : fio () :=
  let! fat_sector := iresult (ok_or (base ← checked_add64 (first_fat_sector v) (fat * fat_size v);
    checked_add64 base ((cluster * 4) / Z.of_nat SECTOR_SIZE)) CorruptChain) in
  if first_data_sector v <=? fat_sector then ierr CorruptChain
  else
  let! sector := dread EBlock fat_sector zeros in
  let existing := read_u32 sector (fat_entry_offset cluster) in
  let new_value := Z.lor (Z.land existing (u32_max - FAT32_ENTRY_MASK)) masked in
  dwrite EBlock fat_sector (write_u32 sector (fat_entry_offset cluster) new_value).

Definition write_fat_entry (cluster value : Z) : fio () :=
  let! _ := iresult (cluster_lba v cluster) in
  let! _ := iresult (ok_or (checked_mul64 cluster 4) CorruptChain) in
  let masked := Z.land value FAT32_ENTRY_MASK in
  ifold (λ _ fat, write_fat_copy cluster masked (Z.of_nat fat)) (seq 0 (Z.to_nat (fat_count v))) ().

Definition next_cluster (cluster : Z) : fio ClusterLink :=
  let! _ := iresult (cluster_lba v cluster) in
  let! fat_sector := iresult (fat_sector_of cluster) in
  let! sector := dread EBlock fat_sector zeros in
  let value := Z.land (read_u32 sector (fat_entry_offset cluster)) FAT32_ENTRY_MASK in
  if FAT32_END_MIN <=? value then iret End
  else if (value <? 2) || (value =? FAT32_BAD_CLUSTER) then ierr CorruptChain
  else
  let! _ := iresult (cluster_lba v value) in
  iret (Next value).

(** ** Chains *)
Definition advance_chain_once (cluster : Z) : fio (option Z) :=
  let! link := next_cluster cluster in
  match link with Next next => iret (Some next) | End => iret None end.

Definition advance (g : ChainCycleGuard) : fio ChainCycleGuard :=
  if negb (active g) then iret g
  else
  let! steps := iresult (ok_or (checked_add32 (steps g) 1) ChainTooLong) in
  if cluster_count v <? steps then ierr ChainTooLong
  else
  let! t := advance_chain_once (tortoise g) in
  match t with
  | None => iret (mkGuard (tortoise g) (hare g) false steps)
  | Some t =>
      let! h1 := advance_chain_once (hare g) in
      match h1 with
      | None => iret (mkGuard t (hare g) false steps)
      | Some h1 =>
          let! h := advance_chain_once h1 in
          match h with
          | None => iret (mkGuard t h1 false steps)
          | Some h => if t =? h then ierr ChainLoop else iret (mkGuard t h true steps)
          end
      end
  end.

(** The loops that count [traversed] (or [freed]) up to the cluster count recurse on
    what is left of it: running out is the code's [ChainTooLong]. *)
Definition chain_bound : nat := Z.to_nat (cluster_count v).

Fixpoint validate_loop (budget : nat) (cluster : Z) (chain : ChainCycleGuard) : fio () :=
  match budget with
  | O => ierr ChainTooLong
  | S budget =>
      let! link := next_cluster cluster in
      match link with
      | Next next => let! chain := advance chain in validate_loop budget next chain
      | End => iret ()
      end
  end.

Definition validate_cluster_chain (start : Z) : fio () :=
  validate_loop chain_bound start (guard_new start).

(** ** The FSInfo hints *)
Definition read_fs_info : fio (option FsInfo) :=
  match fs_info_sector v with
  | None => iret None
  | Some lba =>
      let! sector := dread EBlock lba zeros in
      if negb (fs_info_signatures_valid sector) then iret None
      else iret (Some (mkFsInfo
        (sanitize_fs_info_value (read_u32 sector FSINFO_FREE_COUNT_OFFSET) (cluster_count v))
        (sanitize_next_free v (read_u32 sector FSINFO_NEXT_FREE_OFFSET))))
  end.

Definition write_fs_info_sector (lba : Z) (info : FsInfo) : fio () :=
  let! sector := dread EBlock lba zeros in
  if negb (fs_info_signatures_valid sector) then iret ()
  else
  let sector := write_u32 sector FSINFO_FREE_COUNT_OFFSET (free_count info) in
  let sector := write_u32 sector FSINFO_NEXT_FREE_OFFSET (next_free info) in
  dwrite EBlock lba sector.

Definition write_fs_info (info : FsInfo) : fio () :=
  let! _ := (match fs_info_sector v with Some lba => write_fs_info_sector lba info | None => iret () end) in
  match backup_fs_info_sector v with Some lba => write_fs_info_sector lba info | None => iret () end.

Definition fs_info_next_free_hint : fio Z :=
  let! r := itry read_fs_info in
  match r with
  | Ok (Some info) => iret (if is_allocatable_cluster v (next_free info) then next_free info else 2)
  | _ => iret 2
  end.

Definition update_fs_info_after_alloc (allocated_cluster : Z) : fio () :=
  let! info := read_fs_info in
  match info with
  | None => iret ()
  | Some info =>
      let count := if free_count info =? FSINFO_UNKNOWN then free_count info else saturating_sub (free_count info) 1 in
      write_fs_info (mkFsInfo count (next_cluster_hint v allocated_cluster))
  end.

Definition update_fs_info_after_free (freed_count first_freed : Z) : fio () :=
  let! info := read_fs_info in
  match info with
  | None => iret ()
  | Some info =>
      let count := if free_count info =? FSINFO_UNKNOWN then free_count info
                   else Z.min (saturating_add32 (free_count info) freed_count) (cluster_count v) in
      let next := if is_allocatable_cluster v first_freed then first_freed else next_free info in
      write_fs_info (mkFsInfo count next)
  end.

(** ** Freeing and allocating *)
Fixpoint free_loop (budget : nat) (start cluster freed : Z) : fio () :=
  match budget with
  | O => ierr ChainTooLong
  | S budget =>
      let freed := freed + 1 in
      let! link := next_cluster cluster in
      let! _ := write_fat_entry cluster 0 in
      match link with
      | Next next => free_loop budget start next freed
      | End => let! _ := itry (update_fs_info_after_free freed start) in iret ()
      end
  end.

Definition free_cluster_chain (start : Z) : fio () :=
  if start <? 2 then iret ()
  else
  let! _ := validate_cluster_chain start in
  free_loop chain_bound start start 0.

Fixpoint allocate_loop (n : nat) (cluster : Z) : fio Z :=
  match n with
  | O => ierr NoSpace
  | S n =>
      let! entry := read_fat_entry cluster in
      if entry =? 0 then
        let! _ := write_fat_entry cluster FAT32_END_MIN in
        let! _ := itry (update_fs_info_after_alloc cluster) in
        iret cluster
      else allocate_loop n (cluster + 1)
  end.

Definition allocate_cluster_in_range (start end_ : Z) : fio Z := allocate_loop (Z.to_nat (end_ - start)) start.

Definition allocate_cluster : fio Z :=
  let! max := iresult (ok_or (checked_add32 (cluster_count v) 2) UnsupportedGeometry) in
  let! start := fs_info_next_free_hint in
  let start := if is_allocatable_cluster v start then start else 2 in
  let! r := itry (allocate_cluster_in_range start max) in
  match r with
  | Ok cluster => iret cluster
  | Err NoSpace => if 2 <? start then allocate_cluster_in_range 2 start else ierr NoSpace
  | Err e => ierr e
  end.

(** [allocate_file_chain] from index [index]; [n] clusters are still needed. *)
Fixpoint allocate_file_loop (n : nat) (index : nat) (first previous : Z) : fio Z :=
  match n with
  | O => iret first
  | S n =>
      let! r := itry allocate_cluster in
      match r with
      | Err e =>
          let! _ := (if 2 <=? first then itry (free_cluster_chain first) else iret (Ok ())) in
          ierr e
      | Ok cluster =>
          if (index =? 0)%nat then allocate_file_loop n (S index) cluster cluster
          else
            let! w := itry (write_fat_entry previous cluster) in
            match w with
            | Err e =>
                let! _ := itry (free_cluster_chain cluster) in
                let! _ := (if 2 <=? first then itry (free_cluster_chain first) else iret (Ok ())) in
                ierr e
            | Ok _ => allocate_file_loop n (S index) first cluster
            end
      end
  end.

Definition allocate_file_chain (needed_clusters : nat) : fio Z := allocate_file_loop needed_clusters 0 0 0.

(** ** File data *)
(** The sectors of one cluster, from [lba] on; the result is what remains to write. *)
Fixpoint write_cluster_sectors (n : nat) (lba : Z) (remaining : list Z) : fio (list Z) :=
  match n with
  | O => iret remaining
  | S n =>
      let part := take SECTOR_SIZE remaining in
      let! _ := dwrite EBlock lba (splice 0 part zeros) in
      write_cluster_sectors n (lba + 1) (drop SECTOR_SIZE remaining)
  end.

Fixpoint write_chain_loop (budget : nat) (cluster : Z) (remaining : list Z) : fio () :=
  match remaining with
  | [] => iret ()
  | _ =>
      match budget with
      | O => ierr ChainTooLong
      | S budget =>
          let! lba := iresult (cluster_lba v cluster) in
          let! remaining := write_cluster_sectors (Z.to_nat (sectors_per_cluster v)) lba remaining in
          match remaining with
          | [] => iret ()
          | _ =>
              let! link := next_cluster cluster in
              match link with
              | Next next => write_chain_loop budget next remaining
              | End => ierr TruncatedFile
              end
          end
      end
  end.

Definition write_file_data_chain (first : Z) (data : list Z) : fio () :=
  match data with
  | [] => iret ()
  | _ => if first <? 2 then ierr CorruptChain else write_chain_loop chain_bound first data
  end.

(** The reader's position in the file, how much is copied, the caller's buffer and the
    sector buffer. *)
Record Reader := mkReader {
  position : nat;
  copied : nat;
  buffer : list Z;
  rsector : list Z
}.

Fixpoint read_cluster_sectors (n : nat) (lba : Z) (offset target : nat) (r : Reader) : fio Reader :=
  match n with
  | O => iret r
  | S n =>
      if (copied r =? target)%nat then iret r
      else if (offset <? position r + SECTOR_SIZE)%nat then
        let! sector := dread EBlock lba (rsector r) in
        let start := (offset - position r)%nat in
        let count := Nat.min (SECTOR_SIZE - start) (target - copied r) in
        read_cluster_sectors n (lba + 1) offset target
          (mkReader (position r + SECTOR_SIZE) (copied r + count)
             (splice (copied r) (slice start count sector) (buffer r)) sector)
      else read_cluster_sectors n (lba + 1) offset target
             (mkReader (position r + SECTOR_SIZE) (copied r) (buffer r) (rsector r))
  end.

Fixpoint read_chain_loop (budget : nat) (cluster : Z) (chain : ChainCycleGuard) (offset target : nat) (r : Reader)
    : fio (nat * list Z) :=
  if (copied r <? target)%nat then
    match budget with
    | O => ierr ChainTooLong
    | S budget =>
        let! lba := iresult (cluster_lba v cluster) in
        let! r := read_cluster_sectors (Z.to_nat (sectors_per_cluster v)) lba offset target r in
        if (copied r =? target)%nat then iret (copied r, buffer r)
        else
        let! link := next_cluster cluster in
        match link with
        | Next next => let! chain := advance chain in read_chain_loop budget next chain offset target r
        | End => ierr TruncatedFile
        end
    end
  else iret (copied r, buffer r).

(** The count of bytes copied and the caller's buffer. *)
Definition read_file_at (entry : DirectoryEntry) (offset : nat) (output : list Z) : fio (nat * list Z) :=
  let target := Nat.min (Z.to_nat (size entry) - offset) (length output) in
  if (target =? 0)%nat then iret (0%nat, output)
  else read_chain_loop chain_bound (first_cluster entry) (guard_new (first_cluster entry)) offset target
         (mkReader 0 0 output zeros).

Definition read_file (entry : DirectoryEntry) (output : list Z) : fio (nat * list Z) := read_file_at entry 0 output.

(** ** Free space *)
(** The entries of one sector of the table, from [index] on, below the last cluster. *)
Fixpoint count_free (n : nat) (sector : list Z) (index : nat) (current end_ free : Z) : Z :=
  match n with
  | O => free
  | S n =>
      if end_ <=? current then free
      else
        let entry := Z.land (read_u32 sector (index * 4)) FAT32_ENTRY_MASK in
        count_free n sector (S index) (current + 1) end_ (if entry =? 0 then saturating_add32 free 1 else free)
  end.

Definition ENTRIES_PER_SECTOR : nat := 128.

(** Every turn moves to the next sector of the table, so [end] turns are enough. *)
Fixpoint space_loop (fuel : nat) (cluster end_ free : Z) (sector : list Z) : fio Z :=
  match fuel with
  | O => iret free
  | S fuel =>
      if cluster <? end_ then
        let! _ := iresult (cluster_lba v cluster) in
        let! fat_sector := iresult (fat_sector_of cluster) in
        let! sector := dread EBlock fat_sector sector in
        let sector_first_cluster := as_u32 ((fat_sector - first_fat_sector v) * Z.of_nat ENTRIES_PER_SECTOR) in
        let first_index := Z.to_nat (cluster - sector_first_cluster) in
        let free := count_free (ENTRIES_PER_SECTOR - first_index) sector first_index
          (sector_first_cluster + Z.of_nat first_index) end_ free in
        let next := saturating_add32 sector_first_cluster (Z.of_nat ENTRIES_PER_SECTOR) in
        if next <=? cluster then ierr CorruptChain
        else space_loop fuel next end_ free sector
      else iret free
  end.

Definition space_info : fio SpaceInfo :=
  let total := cluster_count v in
  let! end_ := iresult (ok_or (checked_add32 total 2) UnsupportedGeometry) in
  let! free := space_loop (Z.to_nat end_) 2 end_ 0 zeros in
  let! fs_info := read_fs_info in
  let hint_count := info ← fs_info; if free_count info =? FSINFO_UNKNOWN then None else Some (free_count info) in
  let hint_next := info ← fs_info;
    if (next_free info =? FSINFO_UNKNOWN) || negb (is_allocatable_cluster v (next_free info)) then None
    else Some (next_free info) in
  let matches := match hint_count with None => true | Some hint => hint =? free end in
  iret (mkSpaceInfo total free (sectors_per_cluster v * Z.of_nat SECTOR_SIZE) hint_count hint_next matches).

(** ** Growing a directory *)
Fixpoint zero_sectors (n : nat) (lba : Z) : fio () :=
  match n with
  | O => iret ()
  | S n => let! _ := dwrite EBlock lba zeros in zero_sectors n (lba + 1)
  end.

Definition zero_cluster (cluster : Z) : fio () :=
  let! base := iresult (cluster_lba v cluster) in
  zero_sectors (Z.to_nat (sectors_per_cluster v)) base.

Definition extend_directory_chain (last_cluster : Z) : fio DirectorySlotReservation :=
  let! new_cluster := allocate_cluster in
  let! z := itry (zero_cluster new_cluster) in
  match z with
  | Err e => let! _ := itry (free_cluster_chain new_cluster) in ierr e
  | Ok _ =>
      let! w := itry (write_fat_entry last_cluster new_cluster) in
      match w with
      | Err e => let! _ := itry (free_cluster_chain new_cluster) in ierr e
      | Ok _ =>
          let! lba := iresult (cluster_lba v new_cluster) in
          iret (mkReservation lba 0 None (Some (mkDirectoryExtension last_cluster new_cluster)))
      end
  end.

Definition rollback_directory_extension (x : DirectoryExtension) : fio () :=
  let! _ := write_fat_entry (parent_cluster x) FAT32_END_MIN in
  free_cluster_chain (ext_cluster x).

Definition rollback_reserved_slot (slot : DirectorySlotReservation) : fio () :=
  match extension slot with
  | Some x => let! _ := itry (rollback_directory_extension x) in iret ()
  | None => iret ()
  end.
End volume.
End device.
End Fat.
