(* ===== verification/Fat32Table.v ===== *)
(** * The file allocation table as a function

    On a volume whose table covers its clusters, the table of the source (read from its
    first copy) is a function from clusters to entries. This file gives that view, the
    frame of an operation that only touches the table and the FSInfo hints, and the
    specifications of reading, writing and following entries. *)
From S2P Require Import Prelude Block DeviceIo Bytes Fat32.
Import Block Io Fat.

Module FatTable.
Export Bytes.

(** ** Words inside a sector *)
Lemma read_u32_write_eq s off x :
  (off + 4 ≤ length s)%nat → 0 ≤ x ≤ u32_max → read_u32 (write_u32 s off x) off = x.
Proof.
  intros Hl Hx. unfold read_u32, write_u32.
  rewrite !byte_at_splice by (rewrite length_to_le_bytes; lia). rewrite length_to_le_bytes.
  rewrite !decide_True by lia.
  replace (off - off)%nat with 0%nat by lia. replace (off + 1 - off)%nat with 1%nat by lia.
  replace (off + 2 - off)%nat with 2%nat by lia. replace (off + 3 - off)%nat with 3%nat by lia.
  transitivity (from_le_bytes (to_le_bytes 4 x)); [done|]. rewrite from_to_le_bytes by lia.
  apply Z.mod_small. unfold u32_max in Hx. change (256 ^ Z.of_nat 4) with 4294967296. lia.
Qed.

Lemma read_u32_write_ne s off off' x :
  (off + 4 ≤ length s)%nat → (off' + 4 ≤ off ∨ off + 4 ≤ off')%nat →
  read_u32 (write_u32 s off x) off' = read_u32 s off'.
Proof.
  intros Hl Hd. unfold read_u32, write_u32.
  rewrite !byte_at_splice by (rewrite length_to_le_bytes; lia). rewrite length_to_le_bytes.
  by rewrite !decide_False by lia.
Qed.

Lemma length_write_u32 s off x : (off + 4 ≤ length s)%nat → length (write_u32 s off x) = length s.
Proof. intros. apply length_splice. rewrite length_to_le_bytes. lia. Qed.

(** ** Geometry *)
(** What mounting establishes, and the two conditions of the format it does not check:
    the table has an entry for every cluster, and cluster numbers stay below the marks. *)
Record geometry (v : Volume) (n : Z) : Prop := {
  g_spc : 1 ≤ sectors_per_cluster v ≤ 128;
  g_fats : fat_count v = 1 ∨ fat_count v = 2;
  g_fat_size : 0 < fat_size v;
  g_reserved : 0 < first_fat_sector v;
  g_data : first_data_sector v = first_fat_sector v + fat_count v * fat_size v;
  g_end : first_data_sector v + cluster_count v * sectors_per_cluster v ≤ n;
  g_count : 0 < cluster_count v;
  g_info : ∀ s, fs_info_sector v = Some s ∨ backup_fs_info_sector v = Some s → 0 < s < first_fat_sector v;
  g_cover : cluster_count v + 2 ≤ fat_size v * 128;
  g_limit : cluster_count v + 2 ≤ FAT32_BAD_CLUSTER
}.

Definition in_range (v : Volume) (c : Z) : Prop := 2 ≤ c < cluster_count v + 2.
#[export] Instance in_range_dec v c : Decision (in_range v c).
Proof. unfold in_range. apply _. Defined.

Definition is_info (v : Volume) (k : Z) : Prop := fs_info_sector v = Some k ∨ backup_fs_info_sector v = Some k.

Section geo.
Context (v : Volume) (n : Z) (G : geometry v n) (Hn : n ≤ u64_max).

Lemma saturating_clusters : saturating_add32 (cluster_count v) 2 = cluster_count v + 2.
Proof. pose proof (g_limit _ _ G). unfold saturating_add32, FAT32_BAD_CLUSTER, u32_max in *. lia. Qed.

Lemma cluster_span c :
  in_range v c →
  first_data_sector v ≤ first_data_sector v + (c - 2) * sectors_per_cluster v ∧
  first_data_sector v + (c - 2) * sectors_per_cluster v + sectors_per_cluster v ≤ n.
Proof. intros [H1 H2]. pose proof (g_end _ _ G). pose proof (g_spc _ _ G). nia. Qed.

Lemma cluster_lba_spec c :
  cluster_lba v c =
    if decide (in_range v c) then Ok (first_data_sector v + (c - 2) * sectors_per_cluster v) else Err CorruptChain.
Proof.
  unfold cluster_lba. rewrite saturating_clusters. case_decide as Hc.
  - pose proof (cluster_span c Hc). pose proof (g_spc _ _ G). destruct Hc as [H1 H2].
    rewrite (proj2 (Z.ltb_ge _ _) H1), (proj2 (Z.leb_gt _ _) H2). simpl. unfold checked_add64.
    by rewrite (proj2 (Z.leb_le _ _)) by lia.
  - unfold in_range in Hc. destruct (Z.ltb_spec c 2); [done|]. destruct (Z.leb_spec (cluster_count v + 2) c); [done|].
    exfalso. lia.
Qed.

Lemma allocatable_spec c : is_allocatable_cluster v c = bool_decide (in_range v c).
Proof.
  unfold is_allocatable_cluster, in_range. rewrite saturating_clusters. apply eq_iff_eq_true.
  rewrite andb_true_iff, Z.leb_le, Z.ltb_lt, bool_decide_eq_true. done.
Qed.

(** Where the entry of a cluster is. *)
Definition entry_sector (c : Z) : Z := first_fat_sector v + c * 4 / 512.

Lemma entry_sector_bound c :
  in_range v c → first_fat_sector v ≤ entry_sector c < first_fat_sector v + fat_size v.
Proof.
  intros [H1 H2]. pose proof (g_cover _ _ G). unfold entry_sector.
  assert (0 ≤ c * 4 / 512 < fat_size v); [|lia].
  split; [apply Z.div_pos; lia|]. apply Z.div_lt_upper_bound; lia.
Qed.

Lemma table_end : first_fat_sector v + fat_size v ≤ first_data_sector v ∧ first_data_sector v ≤ n.
Proof.
  pose proof (g_data _ _ G). pose proof (g_fat_size _ _ G). pose proof (g_end _ _ G).
  pose proof (g_count _ _ G). pose proof (g_spc _ _ G). destruct (g_fats _ _ G) as [E|E]; rewrite E in *; nia.
Qed.

Lemma fat_sector_of_spec c : in_range v c → fat_sector_of v c = Ok (entry_sector c).
Proof.
  intros Hc. pose proof (entry_sector_bound c Hc). pose proof table_end. destruct Hc as [H1 H2].
  pose proof (g_limit _ _ G). unfold fat_sector_of, checked_mul64, checked_add64, FAT32_BAD_CLUSTER in *.
  change (Z.of_nat SECTOR_SIZE) with 512. rewrite (proj2 (Z.leb_le (c * 4) _)) by (unfold u64_max; lia). simpl.
  fold (entry_sector c). rewrite (proj2 (Z.leb_le (entry_sector c) _)) by lia. simpl.
  by rewrite (proj2 (Z.leb_gt _ _)) by lia.
Qed.

Lemma entry_offset_spec c : 0 ≤ c → fat_entry_offset c = (4 * Z.to_nat (c mod 128))%nat.
Proof.
  intros Hc. unfold fat_entry_offset. change (Z.of_nat SECTOR_SIZE) with 512.
  pose proof (Z.mod_pos_bound c 128 ltac:(lia)).
  replace ((c * 4) mod 512) with (4 * (c mod 128)) by (Z.to_euclidean_division_equations; lia). lia.
Qed.

Lemma entry_offset_bound c : 0 ≤ c → (fat_entry_offset c + 4 ≤ SECTOR_SIZE)%nat.
Proof.
  intros Hc. rewrite entry_offset_spec by done. pose proof (Z.mod_pos_bound c 128 ltac:(lia)). unfold SECTOR_SIZE. lia.
Qed.

(** Two clusters share a sector of the table at different offsets, or not at all. *)
Lemma entry_apart c c' :
  0 ≤ c → 0 ≤ c' → c ≠ c' → entry_sector c = entry_sector c' →
  (fat_entry_offset c' + 4 ≤ fat_entry_offset c ∨ fat_entry_offset c + 4 ≤ fat_entry_offset c')%nat.
Proof.
  intros H1 H2 Hne He. rewrite !entry_offset_spec by done. unfold entry_sector in He.
  assert (c / 128 = c' / 128) by (Z.to_euclidean_division_equations; lia).
  assert (c mod 128 ≠ c' mod 128) by (Z.to_euclidean_division_equations; lia).
  pose proof (Z.mod_pos_bound c 128 ltac:(lia)). pose proof (Z.mod_pos_bound c' 128 ltac:(lia)). lia.
Qed.
End geo.

(** ** The view *)
Section view.
Context {D : Type} `{BlockDevice D} (ok : D → Prop) (disk : D → Z → list Z) `{!Lawful ok disk}.
Context (v : Volume).

Definition fat (d : D) (c : Z) : Z :=
  Z.land (read_u32 (disk d (entry_sector v c)) (fat_entry_offset c)) FAT32_ENTRY_MASK.

(** An operation on the table and the hints: the data area and the rest of the reserved
    area stay as they are. *)
Definition frame (d d' : D) : Prop :=
  ok d' ∧ sector_count d' = sector_count d ∧ is_read_only d' = is_read_only d ∧
  (∀ k, first_data_sector v ≤ k < sector_count d → disk d' k = disk d k) ∧
  (∀ k, 0 ≤ k < first_fat_sector v → ¬ is_info v k → disk d' k = disk d k).

(** The table holds bytes. *)
Definition table_ok (d : D) : Prop :=
  ∀ k, first_fat_sector v ≤ k < first_data_sector v → Forall is_byte (disk d k).

Definition evolve (d d' : D) (f : Z → Z) : Prop :=
  frame d d' ∧ table_ok d' ∧ ∀ c, in_range v c → fat d' c = f c.

Definition faulty (d : D) : Prop := ¬ Reliable ok ∨ is_read_only d = true.

(** A fault: the device refused an access; the table may be damaged, nothing else is. *)
Definition failed (d d' : D) (e : FatError) : Prop := (∃ b, e = EBlock b) ∧ faulty d ∧ frame d d'.

Definition update (f : Z → Z) (c x : Z) : Z → Z := λ k, if decide (k = c) then x else f k.

Lemma frame_refl d : ok d → frame d d.
Proof. intros. unfold frame. by split_and!. Qed.
Lemma frame_trans d1 d2 d3 : frame d1 d2 → frame d2 d3 → frame d1 d3.
Proof.
  intros (O1 & C1 & R1 & D1 & S1) (O2 & C2 & R2 & D2 & S2). unfold frame.
  split_and!; [done|congruence|congruence| |].
  - intros k Hk. rewrite D2 by (rewrite C1; lia). by apply D1.
  - intros k Hk Hi. by rewrite S2, S1.
Qed.
Lemma evolve_trans d1 d2 d3 f g : evolve d1 d2 f → evolve d2 d3 g → evolve d1 d3 g.
Proof. intros [F1 _] [F2 H2]. split; [by eapply frame_trans|done]. Qed.
Lemma evolve_refl d : ok d → table_ok d → evolve d d (fat d).
Proof. intros. split; [by apply frame_refl|done]. Qed.
Lemma evolve_ext d d' f g : evolve d d' f → (∀ c, in_range v c → f c = g c) → evolve d d' g.
Proof. intros (F & T & Hf) He. split; [done|]. split; [done|]. intros c Hc. rewrite Hf by done. by apply He. Qed.
Lemma frame_ok d d' : frame d d' → ok d'.
Proof. by intros [? _]. Qed.
Lemma frame_count d d' : frame d d' → sector_count d' = sector_count d.
Proof. by intros (_ & ? & _). Qed.
Lemma frame_faulty d d' : frame d d' → faulty d' → faulty d.
Proof. intros (_ & _ & Hr & _). unfold faulty. by rewrite Hr. Qed.

Lemma failed_after d1 d2 d3 e : frame d1 d2 → failed d2 d3 e → failed d1 d3 e.
Proof. intros F (Hb & Hf & F'). split_and!; [done|by eapply frame_faulty|by eapply frame_trans]. Qed.

Section ops.
Context (d0 : D) (G : geometry v (sector_count d0)) (Hok0 : ok d0).

Lemma count_u64 : sector_count d0 ≤ u64_max.
Proof. by apply (law_count d0). Qed.

(** States of the device on the same volume. *)
Definition on_volume (d : D) : Prop := ok d ∧ sector_count d = sector_count d0 ∧ table_ok d.

Lemma same_frame d d' : on_volume d → same ok disk d d' → frame d d'.
Proof.
  intros (Hok & Hc & _) (O & C & R & Hd). pose proof (table_end _ _ G). pose proof (g_reserved _ _ G).
  pose proof (g_fat_size _ _ G). unfold frame. split_and!; [done..| |]; intros k Hk; [apply Hd; lia|].
  intros _. apply Hd. lia.
Qed.

Lemma same_evolve d d' : on_volume d → same ok disk d d' → evolve d d' (fat d).
Proof.
  intros Hv Hs. pose proof (table_end _ _ G). pose proof (g_reserved _ _ G).
  split; [by apply same_frame|]. destruct Hv as (_ & Hcnt & Ht). split.
  - intros k Hk. rewrite (same_disk ok disk d d') by (done || lia). by apply Ht.
  - intros c Hc. unfold fat. f_equal. f_equal. apply (same_disk ok disk d d'); [done|].
    pose proof (entry_sector_bound v _ G c Hc). lia.
Qed.

Lemma evolve_on d d' f : on_volume d → evolve d d' f → on_volume d'.
Proof.
  intros (_ & Hc & _) (F & T & _). split_and!; [by eapply frame_ok| |done]. by rewrite (frame_count _ _ F).
Qed.

Lemma on_volume_refl d : on_volume d → evolve d d (fat d).
Proof. intros (? & _ & ?). by apply evolve_refl. Qed.

(** ** Reading and following an entry *)
(** What the source makes of an entry. *)
Definition link_of (f : Z → Z) (c : Z) : result ClusterLink FatError :=
  if decide (in_range v c) then
    if decide (FAT32_END_MIN ≤ f c) then Ok End
    else if decide (in_range v (f c)) then Ok (Next (f c)) else Err CorruptChain
  else Err CorruptChain.

Lemma read_entry_sector d c (A : Type) (k : list Z → io D FatError A) Q :
  on_volume d → in_range v c →
  (∀ d' e, same ok disk d d' → ¬ Reliable ok → Q d' (Err (EBlock e))) →
  (∀ d', same ok disk d d' → wp (k (disk d (entry_sector v c))) d' Q) →
  wp (let! fat_sector := iresult (fat_sector_of v c) in
      let! sector := dread EBlock fat_sector zeros in k sector) d Q.
Proof.
  intros Hv Hc He Hk. pose proof (entry_sector_bound v _ G c Hc). pose proof (table_end _ _ G).
  pose proof (g_reserved _ _ G). pose proof Hv as (Hok & Hcnt & _).
  apply wp_bind, wp_result. rewrite (fat_sector_of_spec v (sector_count d0)) by (done || apply count_u64).
  apply wp_bind, (wp_read_in ok disk); [done|rewrite Hcnt; lia|done| |].
  - intros d' e Hs Hr. by apply He.
  - intros d' Hs. by apply Hk.
Qed.

Lemma read_fat_entry_spec d c :
  on_volume d → in_range v c →
  wp (read_fat_entry v c) d (λ d' r,
    same ok disk d d' ∧ match r with Ok x => x = fat d c | Err e => (∃ b, e = EBlock b) ∧ ¬ Reliable ok end).
Proof.
  intros Hv Hc. unfold read_fat_entry. apply wp_bind, wp_result.
  rewrite (cluster_lba_spec v _ G count_u64), decide_True by done.
  apply read_entry_sector; [done..| |]; intros; [by eauto|]. by apply wp_ret.
Qed.

Lemma next_cluster_spec d c :
  on_volume d →
  wp (next_cluster v c) d (λ d' r, same ok disk d d' ∧ (r = link_of (fat d) c ∨ (∃ b, r = Err (EBlock b)) ∧ ¬ Reliable ok)).
Proof.
  intros Hv. unfold next_cluster, link_of. apply wp_bind, wp_result.
  rewrite (cluster_lba_spec v _ G count_u64). case_decide as Hc.
  2: { split; [by apply io_same_refl, Hv|by left]. }
  apply read_entry_sector; [done..| |]; [intros; split; [done|by eauto]|]. intros d' He.
  change (Z.land (read_u32 (disk d (entry_sector v c)) (fat_entry_offset c)) FAT32_ENTRY_MASK) with (fat d c).
  pose proof (g_limit _ _ G). unfold FAT32_BAD_CLUSTER, FAT32_END_MIN, in_range in *.
  destruct (Z.leb_spec 0x0ffffff8 (fat d c)).
  { rewrite decide_True by done. apply wp_ret. split; [done|by left]. }
  rewrite decide_False by lia. destruct ((fat d c <? 2) || _) eqn:E.
  - apply wp_err. split; [done|]. left. rewrite decide_False; [done|]. apply orb_true_iff in E as [E|E]; reflect_bools; lia.
  - apply wp_bind, wp_result. rewrite (cluster_lba_spec v _ G count_u64). unfold in_range. case_decide.
    + apply wp_ret. split; [done|by left].
    + split; [done|by left].
Qed.

(** ** Writing an entry *)
Definition copy_sector (i : Z) (c : Z) : Z := first_fat_sector v + i * fat_size v + c * 4 / 512.

Lemma copy_sector_bound i c :
  in_range v c → 0 ≤ i < fat_count v →
  first_fat_sector v + i * fat_size v ≤ copy_sector i c < first_fat_sector v + (i + 1) * fat_size v ∧
  copy_sector i c < first_data_sector v.
Proof.
  intros Hc Hi. pose proof (entry_sector_bound v _ G c Hc). unfold entry_sector, copy_sector in *.
  pose proof (g_data _ _ G). pose proof (g_fat_size _ _ G). nia.
Qed.

Lemma land_mask_bound x : 0 ≤ x → 0 ≤ Z.land x FAT32_ENTRY_MASK ≤ FAT32_ENTRY_MASK.
Proof.
  intros Hx. change FAT32_ENTRY_MASK with (Z.ones 28). rewrite Z.land_ones by lia.
  pose proof (Z.mod_pos_bound x (2 ^ 28) ltac:(lia)). change (Z.ones 28) with (2 ^ 28 - 1). lia.
Qed.

(** The reserved nibble does not show. *)
Lemma masked_value existing x :
  0 ≤ existing ≤ u32_max → 0 ≤ x →
  let y := Z.lor (Z.land existing (u32_max - FAT32_ENTRY_MASK)) (Z.land x FAT32_ENTRY_MASK) in
  0 ≤ y ≤ u32_max ∧ Z.land y FAT32_ENTRY_MASK = Z.land x FAT32_ENTRY_MASK.
Proof.
  intros He Hx y. pose proof (land_mask_bound x Hx) as Hm.
  assert (Ha : 0 ≤ Z.land existing (u32_max - FAT32_ENTRY_MASK)) by (apply Z.land_nonneg; lia).
  assert (Hy : 0 ≤ y) by (apply Z.lor_nonneg; lia). split.
  - split; [done|]. enough (y < 2 ^ 32) by (unfold u32_max; lia).
    apply Z.bounded_iff_bits_nonneg; [lia|done|]. intros l Hl. subst y. rewrite Z.lor_spec, !Z.land_spec.
    assert (Hb : ∀ z, 0 ≤ z < 2 ^ 32 → Z.testbit z l = false).
    { intros z Hz. by apply (Z.bounded_iff_bits_nonneg 32); [lia..|]. }
    rewrite (Hb existing), (Hb FAT32_ENTRY_MASK) by (unfold u32_max, FAT32_ENTRY_MASK in *; lia).
    by rewrite andb_false_r.
  - subst y. rewrite Z.land_lor_distr_l, <-!Z.land_assoc.
    change (Z.land (u32_max - FAT32_ENTRY_MASK) FAT32_ENTRY_MASK) with 0. by rewrite Z.land_0_r, Z.land_diag.
Qed.

Lemma read_u32_bytes s off : Forall is_byte s → 0 ≤ read_u32 s off ≤ u32_max.
Proof.
  intros Hs. assert (Hs' : Forall (λ b, 0 ≤ b < 256) s).
  { eapply Forall_impl; [exact Hs|]. unfold is_byte, u8_max. lia. }
  pose proof (read_u32_range s off Hs'). unfold u32_max. lia.
Qed.

Lemma written_frame d d' k :
  on_volume d → first_fat_sector v ≤ k < first_data_sector v → written ok disk k d d' → frame d d'.
Proof.
  intros (Hok & Hc & _) Hk (O & C & R & Hd). pose proof (table_end _ _ G). pose proof (g_reserved _ _ G).
  pose proof (g_fat_size _ _ G). unfold frame. split_and!; [done..| |]; intros j Hj; [apply Hd; lia|].
  intros _. apply Hd; lia.
Qed.

Lemma Forall_le_bytes m x : Forall is_byte (to_le_bytes m x).
Proof.
  revert x. induction m as [|m IH]; intros x; constructor; [|apply IH]. unfold is_byte, u8_max.
  pose proof (Z.mod_pos_bound x 256 ltac:(lia)). lia.
Qed.

Lemma write_fat_copy_spec d c x i :
  on_volume d → in_range v c → 0 ≤ i < fat_count v → 0 ≤ x →
  wp (write_fat_copy v c (Z.land x FAT32_ENTRY_MASK) i) d (λ d' r,
    match r with
    | Ok _ => evolve d d' (if decide (i = 0) then update (fat d) c (Z.land x FAT32_ENTRY_MASK) else fat d)
    | Err e => failed d d' e
    end).
Proof.
  intros Hv Hc Hi Hx. pose proof (copy_sector_bound i c Hc Hi) as [Hb1 Hb2]. pose proof count_u64.
  pose proof (table_end _ _ G) as [Hend0 Hend]. pose proof (g_reserved _ _ G). pose proof (g_fat_size _ _ G).
  pose proof Hv as (Hok & Hcnt & Ht).
  assert (Hr : first_fat_sector v ≤ copy_sector i c < first_data_sector v) by (split; [nia|done]).
  unfold write_fat_copy. apply wp_bind, wp_result. unfold checked_add64.
  change (Z.of_nat SECTOR_SIZE) with 512.
  assert (0 ≤ c * 4 / 512) by (apply Z.div_pos; destruct Hc; lia).
  rewrite (proj2 (Z.leb_le _ _)) by (unfold copy_sector in *; lia). simpl. fold (copy_sector i c).
  rewrite (proj2 (Z.leb_le _ _)) by lia. simpl. rewrite (proj2 (Z.leb_gt _ _)) by lia.
  apply wp_bind, (wp_read_in ok disk); [done|rewrite Hcnt; lia|done| |].
  { intros d' e Hs Hrel. split_and!; [by eauto|by left|by apply same_frame]. }
  intros d1 Hs1. pose proof (same_evolve d d1 Hv Hs1) as He1. pose proof (evolve_on _ _ _ Hv He1) as Hv1.
  pose proof (entry_offset_bound c ltac:(destruct Hc; lia)) as Hoff.
  assert (Hlen : length (disk d (copy_sector i c)) = SECTOR_SIZE) by (apply (law_length d); [done|lia]).
  pose proof (read_u32_bytes _ (fat_entry_offset c) (Ht _ Hr)) as Hex.
  destruct (masked_value _ _ Hex Hx) as [Hy Hym]. set (y := Z.lor _ _) in *.
  apply (wp_write_in ok disk); [apply Hv1|destruct Hv1 as (_ & -> & _); lia|rewrite length_write_u32; lia| |].
  { intros d' e Hw Hf. apply (failed_after d d1); [apply He1|]. split_and!; [by eauto|done|by eapply written_frame]. }
  intros d' Hw Hwr. eapply evolve_trans; [exact He1|].
  assert (Hframe : frame d1 d') by by eapply written_frame.
  assert (Hsame : ∀ k, 0 ≤ k < sector_count d0 → k ≠ copy_sector i c → disk d' k = disk d k).
  { intros k Hk Hne. destruct Hw as (_ & _ & _ & Hd). destruct Hv1 as (_ & Hc1 & _). rewrite Hd by (done || lia).
    apply (same_disk ok disk d d1); [done|lia]. }
  split; [done|]. split.
  - intros k Hk. destruct (decide (k = copy_sector i c)) as [->|Hne].
    + rewrite Hwr. apply Bytes.Forall_splice; [apply Forall_le_bytes|by apply Ht].
    + rewrite Hsame by (done || lia). by apply Ht.
  - intros c' Hc'. pose proof (entry_sector_bound v _ G c' Hc') as Hb'.
    destruct (decide (entry_sector v c' = copy_sector i c)) as [Heq|Hne].
    + assert (i = 0) as -> by (unfold entry_sector, copy_sector in *; nia). rewrite decide_True by done.
      assert (Hsec : copy_sector 0 c = entry_sector v c) by (unfold copy_sector, entry_sector; lia).
      unfold fat at 1. rewrite Heq, Hwr. unfold update. case_decide as Hcc.
      * subst c'. by rewrite read_u32_write_eq by lia.
      * rewrite read_u32_write_ne; [unfold fat; by rewrite Heq|lia|].
        apply (entry_apart v); [destruct Hc; lia|destruct Hc'; lia|done|congruence].
    + unfold fat at 1. rewrite Hsame by (done || lia). fold (fat d c'). case_decide as Hi0; [|done].
      unfold update. rewrite decide_False; [done|]. intros ->. apply Hne. subst i. unfold entry_sector, copy_sector. lia.
Qed.

Lemma write_fat_entry_spec d c x :
  on_volume d → in_range v c → 0 ≤ x →
  wp (write_fat_entry v c x) d (λ d' r,
    match r with
    | Ok _ => evolve d d' (update (fat d) c (Z.land x FAT32_ENTRY_MASK))
    | Err e => failed d d' e
    end).
Proof.
  intros Hv Hc Hx. unfold write_fat_entry. apply wp_bind, wp_result.
  rewrite (cluster_lba_spec v _ G count_u64), decide_True by done. apply wp_bind, wp_result.
  assert (Hm : checked_mul64 c 4 = Some (c * 4)).
  { unfold checked_mul64. rewrite (proj2 (Z.leb_le _ _)); [done|]. pose proof (g_limit _ _ G).
    unfold in_range, FAT32_BAD_CLUSTER, u64_max in *. lia. }
  rewrite Hm. simpl. destruct (g_fats _ _ G) as [Ef|Ef]; rewrite Ef; simpl.
  - apply wp_bind. eapply wp_mono; [apply write_fat_copy_spec; (done || lia)|]. intros d1 [[]|e]; [|done].
    intros He. by apply wp_ret.
  - apply wp_bind. eapply wp_mono; [apply write_fat_copy_spec; (done || lia)|]. intros d1 [[]|e]; [|done].
    intros He1. apply wp_bind. pose proof (evolve_on _ _ _ Hv He1) as Hv1.
    eapply wp_mono; [apply write_fat_copy_spec; (done || lia)|]. intros d2 [[]|e] He2.
    + apply wp_ret. eapply evolve_trans; [exact He1|]. eapply evolve_ext; [exact He2|].
      intros c' Hc'. simpl. apply He1, Hc'.
    + by eapply failed_after; [apply He1|].
Qed.

(** ** Operations that stay in their area, whatever the device does *)
Definition calm (d : D) : Prop := ok d ∧ sector_count d = sector_count d0.
Definition framed {A} (m : io D FatError A) : Prop := ∀ d, calm d → wp m d (λ d' _, frame d d').

Lemma calm_frame d d' : calm d → frame d d' → calm d'.
Proof. intros [_ Hc] F. split; [by eapply frame_ok|]. by rewrite (frame_count _ _ F). Qed.

Lemma framed_ret {A} (a : A) : framed (iret a).
Proof. intros d [Hok _]. by apply frame_refl. Qed.
Lemma framed_err {A} e : framed (ierr (A := A) e).
Proof. intros d [Hok _]. by apply frame_refl. Qed.
Lemma framed_bind {A B} (m : io D FatError A) (k : A → io D FatError B) :
  framed m → (∀ a, framed (k a)) → framed (ibind m k).
Proof.
  intros Hm Hk d Hd. apply wp_bind. eapply wp_mono; [by apply Hm|]. intros d1 [a|e] F; [|done].
  eapply wp_mono; [apply Hk; by eapply calm_frame|]. intros d2 r F2. by eapply frame_trans.
Qed.
Lemma framed_result {A B} (r : result A FatError) (k : A → io D FatError B) :
  (∀ a, r = Ok a → framed (k a)) → framed (ibind (iresult r) k).
Proof.
  intros Hk d Hd. apply wp_bind, wp_result. destruct r as [a|e]; [by apply Hk|]. destruct Hd. by apply frame_refl.
Qed.
Lemma framed_try {A} (m : io D FatError A) : framed m → framed (itry m).
Proof. intros Hm d Hd. apply wp_try. eapply wp_mono; [by apply Hm|]. done. Qed.
Lemma framed_read k sector : 0 ≤ k → framed (dread EBlock k sector).
Proof.
  intros Hk d [Hok Hc].
  assert (Hs : ∀ d', same ok disk d d' → frame d d').
  { intros d' (O & C & R & Hd). pose proof (table_end _ _ G). pose proof (g_reserved _ _ G).
    pose proof (g_fat_size _ _ G). unfold frame. split_and!; [done..| |]; intros j Hj; [apply Hd; lia|].
    intros _. apply Hd. lia. }
  apply (wp_read ok disk); [done..| |]; intros; by apply Hs.
Qed.
Lemma framed_write k sector :
  first_fat_sector v ≤ k < first_data_sector v ∨ is_info v k → framed (dwrite EBlock k sector).
Proof.
  intros Hk d [Hok Hc]. pose proof (table_end _ _ G). pose proof (g_reserved _ _ G). pose proof (g_fat_size _ _ G).
  assert (0 ≤ k) by (destruct Hk as [?|Hk]; [lia|]; pose proof (g_info _ _ G k Hk); lia).
  assert (Hs : ∀ d', written ok disk k d d' → frame d d').
  { intros d' (O & C & R & Hd). unfold frame. split_and!; [done..| |]; intros j Hj.
    - apply Hd; [lia|]. destruct Hk as [?|Hk]; [lia|]. pose proof (g_info _ _ G k Hk). lia.
    - intros Hi. apply Hd; [lia|]. destruct Hk as [?|Hk]; [lia|]. intros ->. done. }
  apply (wp_write ok disk); [done..| |]; intros; by apply Hs.
Qed.

Lemma cluster_lba_Ok c x : cluster_lba v c = Ok x → in_range v c.
Proof. rewrite (cluster_lba_spec v _ G count_u64). by case_decide. Qed.

Lemma framed_next c : framed (next_cluster v c).
Proof.
  apply framed_result. intros x Hc%cluster_lba_Ok. apply framed_result. intros k Hk.
  rewrite (fat_sector_of_spec v _ G count_u64 c Hc) in Hk. injection Hk as <-.
  pose proof (entry_sector_bound v _ G c Hc). pose proof (g_reserved _ _ G).
  apply framed_bind; [apply framed_read; lia|]. intros sector.
  cbv zeta. destruct (_ <=? _); [apply framed_ret|]. destruct (_ || _); [apply framed_err|].
  apply framed_result. intros. apply framed_ret.
Qed.

Lemma framed_write_entry c x : framed (write_fat_entry v c x).
Proof.
  apply framed_result. intros y Hc%cluster_lba_Ok. apply framed_result. intros _ _.
  generalize (seq 0 (Z.to_nat (fat_count v))). intros l. generalize (). induction l as [|i l IH]; intros u.
  - apply framed_ret.
  - cbn [ifold]. apply framed_bind; [|apply IH]. apply framed_result. intros k Hk.
    destruct (Z.leb_spec (first_data_sector v) k) as [|Hlt]; [apply framed_err|].
    assert (first_fat_sector v ≤ k).
    { unfold checked_add64 in Hk. pose proof (g_fat_size _ _ G).
      assert (0 ≤ c * 4 / Z.of_nat SECTOR_SIZE) by (apply Z.div_pos; [destruct Hc; lia|done]).
      destruct (_ <=? _); simpl in Hk; [|done]. destruct (_ <=? _); simpl in Hk; [|done]. injection Hk as <-. nia. }
    pose proof (g_reserved _ _ G). apply framed_bind; [apply framed_read; lia|]. intros s. apply framed_write. by left.
Qed.
End ops.
End view.
End FatTable.
