(* ===== verification/Fat32Chains.v ===== *)
(** * Cluster chains: validation, freeing, allocation

    A chain is a list of clusters that the entries link from a start to an end mark.
    Validation accepts exactly the starts of chains and always returns; freeing a chain
    clears exactly its entries; allocation builds a chain out of free clusters or leaves
    the table as it was. *)
From S2P Require Import Prelude Block DeviceIo Fat32 Fat32Table.
Import Block Io Fat FatTable.

Module FatChains.

(** ** Chains in a table *)
Section chains.
Context (v : Volume).

Inductive chain (f : Z → Z) : Z → list Z → Prop :=
  | chain_end c : link_of v f c = Ok End → chain f c [c]
  | chain_next c c' l : link_of v f c = Ok (Next c') → chain f c' l → chain f c (c :: l).

Lemma link_range f c r : link_of v f c = Ok r → in_range v c.
Proof. unfold link_of. by case_decide. Qed.
Lemma link_next_range f c c' : link_of v f c = Ok (Next c') → in_range v c' ∧ c' = f c.
Proof. unfold link_of. repeat case_decide; intros E; simplify_eq; done. Qed.

Lemma link_ext f g c : (∀ k, in_range v k → f k = g k) → link_of v f c = link_of v g c.
Proof. intros He. unfold link_of. case_decide as Hc; [|done]. by rewrite (He c Hc). Qed.
Lemma chain_ext f g c l : (∀ k, in_range v k → f k = g k) → chain f c l → chain g c l.
Proof. intros He. induction 1; [apply chain_end|eapply chain_next; [|done]]; by rewrite <-(link_ext f g). Qed.

Lemma chain_head f c l : chain f c l → ∃ l', l = c :: l'.
Proof. destruct 1; eauto. Qed.

Lemma chain_det f c l l' : chain f c l → chain f c l' → l = l'.
Proof.
  intros Hl. revert l'. induction Hl as [c E|c c' l E Hl IH]; intros l' Hl'; inversion Hl'; subst;
    try congruence. f_equal. apply IH. congruence.
Qed.

Lemma chain_suffix f c l x : chain f c l → x ∈ l → ∃ l', chain f x l' ∧ (length l' ≤ length l)%nat.
Proof.
  induction 1 as [c E|c c' l E Hl IH]; intros Hx; apply elem_of_cons in Hx as [->|Hx].
  - exists [c]. split; [by apply chain_end|done].
  - by apply not_elem_of_nil in Hx.
  - exists (c :: l). split; [by eapply chain_next|done].
  - destruct (IH Hx) as (l' & ? & ?). exists l'. split; [done|]. simpl. lia.
Qed.

Lemma chain_NoDup f c l : chain f c l → NoDup l.
Proof.
  induction 1 as [c E|c c' l E Hl IH]; [apply NoDup_singleton|]. apply NoDup_cons. split; [|done]. intros Hin.
  destruct (chain_suffix f c' l c Hl Hin) as (l' & Hl' & Hlen).
  pose proof (chain_det f c _ _ Hl' (chain_next f c c' l E Hl)) as ->. simpl in Hlen. lia.
Qed.

Lemma chain_range f c l : chain f c l → Forall (in_range v) l.
Proof.
  induction 1 as [c E|c c' l E Hl IH].
  - apply Forall_singleton. by eapply link_range.
  - apply Forall_cons. split; [by eapply link_range|done].
Qed.

Lemma clusters_bound l : NoDup l → Forall (in_range v) l → (length l ≤ Z.to_nat (cluster_count v))%nat.
Proof.
  intros HN HF. assert (Hs : l ⊆+ seqZ 2 (cluster_count v)).
  { apply NoDup_submseteq; [done|]. intros x Hx. rewrite Forall_forall in HF. specialize (HF x Hx).
    apply elem_of_seqZ. unfold in_range in HF. lia. }
  apply submseteq_length in Hs. by rewrite length_seqZ in Hs.
Qed.

Lemma chain_length f c l : chain f c l → (length l ≤ Z.to_nat (cluster_count v))%nat.
Proof. intros Hc. apply clusters_bound; [by eapply chain_NoDup|by eapply chain_range]. Qed.

(** The links along a chain. *)
Lemma chain_lookup f c l i x :
  chain f c l → l !! i = Some x →
  link_of v f x = match l !! S i with Some y => Ok (Next y) | None => Ok End end.
Proof.
  intros Hc. revert i. induction Hc as [c E|c c' l E Hl IH]; intros [|i] Hi; simpl in *; try done.
  - by injection Hi as <-.
  - injection Hi as <-. destruct (chain_head _ _ _ Hl) as [l' ->]. done.
  - by apply IH.
Qed.

Lemma link_update_ne f c x k : k ≠ c → link_of v (update f c x) k = link_of v f k.
Proof. intros Hne. unfold link_of, update. by rewrite (decide_False (P := k = c)). Qed.

Lemma chain_update f c l k x : k ∉ l → chain f c l → chain (update f k x) c l.
Proof.
  intros Hk Hc. induction Hc as [c E|c c' l E Hl IH].
  - apply chain_end. rewrite link_update_ne; [done|]. intros ->. apply Hk. left.
  - apply not_elem_of_cons in Hk as [? Hk]. eapply chain_next; [|by apply IH].
    by rewrite link_update_ne.
Qed.

(** ** Tables after freeing and after linking *)
Definition zeroed (f : Z → Z) (l : list Z) : Z → Z := λ k, if decide (k ∈ l) then 0 else f k.

Fixpoint linked (f : Z → Z) (l : list Z) : Z → Z :=
  match l with
  | [] => f
  | x :: l' => match l' with
               | [] => update f x FAT32_END_MIN
               | y :: _ => update (linked f l') x y
               end
  end.

Lemma zeroed_cons f c l k : zeroed (update f c 0) l k = zeroed f (c :: l) k.
Proof.
  unfold zeroed, update. destruct (decide (k = c)) as [->|Hne].
  - rewrite (decide_True (P := c ∈ c :: l)) by left. by case_decide.
  - destruct (decide (k ∈ l)).
    + by rewrite decide_True by (by right).
    + by rewrite decide_False by (by rewrite elem_of_cons; naive_solver).
Qed.

Lemma linked_outside f l k : k ∉ l → linked f l k = f k.
Proof.
  induction l as [|x l IH]; intros Hk; [done|]. apply not_elem_of_cons in Hk as [Hne Hk].
  destruct l as [|y l]; simpl; unfold update; rewrite decide_False by done; [done|]. by apply IH.
Qed.

Lemma linked_nonzero f l k : Forall (in_range v) l → NoDup l → k ∈ l → linked f l k ≠ 0.
Proof.
  induction l as [|x l IH]; intros HF HN Hk; [by apply not_elem_of_nil in Hk|].
  apply NoDup_cons in HN as [Hx HN]. apply Forall_cons in HF as [Hrx HF].
  destruct l as [|y l]; simpl; unfold update; case_decide as E; try done.
  - apply list_elem_of_singleton in Hk. done.
  - apply Forall_cons in HF as [Hry _]. unfold in_range in Hry. lia.
  - apply elem_of_cons in Hk as [->|Hk]; [done|]. by apply IH.
Qed.

Lemma linked_zeroed f l k : (k ∈ l → f k = 0) → zeroed (linked f l) l k = f k.
Proof. intros H0. unfold zeroed. case_decide as Hk; [by rewrite H0|by apply linked_outside]. Qed.

Lemma linked_chain f c l (n : Z) :
  geometry v n → Forall (in_range v) (c :: l) → NoDup (c :: l) → chain (linked f (c :: l)) c (c :: l).
Proof.
  intros G. pose proof (g_limit _ _ G) as Hlim. revert c. induction l as [|y l IH]; intros c HF HN.
  - apply Forall_cons in HF as [Hc _]. apply chain_end. unfold link_of. rewrite decide_True by done.
    simpl. unfold update. rewrite (decide_True (P := c = c)) by done. by rewrite decide_True by lia.
  - pose proof HF as HF0. apply Forall_cons in HF as [Hc HF]. apply NoDup_cons in HN as [Hn HN].
    pose proof (proj1 (proj1 (Forall_cons _ _ _) HF)) as Hy.
    apply chain_next with y.
    + unfold link_of. rewrite decide_True by done. simpl. unfold update. rewrite !(decide_True (P := c = c)) by done.
      unfold in_range, FAT32_END_MIN, FAT32_BAD_CLUSTER in *. rewrite decide_False by lia. by rewrite decide_True.
    + apply chain_update; [done|]. by apply IH.
Qed.

(** Appending a cluster: mark it as the end, then link the former last one to it. *)
Lemma linked_snoc f l p x k :
  NoDup (l ++ [p; x]) → update (update (linked f (l ++ [p])) x FAT32_END_MIN) p x k = linked f (l ++ [p; x]) k.
Proof.
  induction l as [|y l IH]; intros HN.
  - simpl. unfold update. apply NoDup_cons in HN as [Hp _].
    destruct (decide (k = p)) as [->|]; [done|]. by destruct (decide (k = x)).
  - simpl in HN. apply NoDup_cons in HN as [Hy HN]. specialize (IH HN).
    destruct l as [|z l]; simpl in *.
    + unfold update in *. rewrite !elem_of_cons in Hy.
      destruct (decide (k = y)) as [->|]; [|done]. rewrite !decide_False by naive_solver. done.
    + unfold update in *. rewrite !elem_of_cons, elem_of_app, !elem_of_cons in Hy.
      destruct (decide (k = y)) as [->|]; [|done]. rewrite !decide_False by naive_solver. done.
Qed.
End chains.

Section ops.
Context {D : Type} `{BlockDevice D} (ok : D → Prop) (disk : D → Z → list Z) `{!Lawful ok disk}.
Context (v : Volume) (d0 : D) (G : geometry v (sector_count d0)) (Hok0 : ok d0).
Local Abbreviation on_volume := (FatTable.on_volume ok disk v d0).
Local Abbreviation evolve := (FatTable.evolve ok disk v).
Local Abbreviation frame := (FatTable.frame ok disk v).
Local Abbreviation failed := (FatTable.failed ok disk v).
Local Abbreviation fat := (FatTable.fat disk v).
Local Abbreviation chain := (FatChains.chain v).

(** Following a link while the table is [f]. *)
Lemma next_spec f d c :
  on_volume d → (∀ k, in_range v k → fat d k = f k) →
  wp (next_cluster v c) d (λ d' r,
    evolve d d' f ∧ (r = link_of v f c ∨ (∃ b, r = Err (EBlock b)) ∧ ¬ Reliable ok)).
Proof.
  intros Hv Hf. eapply wp_mono; [by apply (next_cluster_spec ok disk v d0 G Hok0)|].
  intros d' r [Hs Hr]. pose proof (same_evolve ok disk v d0 G d d' Hv Hs) as He.
  split; [by eapply evolve_ext|]. by rewrite <-(link_ext v (fat d) f).
Qed.

(** Reads keep the table. *)
Lemma same_keeps f d d' :
  on_volume d → (∀ k, in_range v k → fat d k = f k) → same ok disk d d' →
  on_volume d' ∧ (∀ k, in_range v k → fat d' k = f k) ∧ evolve d d' f.
Proof.
  intros Hv Hf Hs. pose proof (same_evolve ok disk v d0 G d d' Hv Hs) as He.
  assert (Hf' : evolve d d' f) by by eapply evolve_ext.
  split_and!; [by eapply (evolve_on ok disk v d0)|apply Hf'|done].
Qed.

(** ** The cycle guard and validation *)
(** Where the guard stands after [k] turns on the chain [l]. *)
Definition guard_at (l : list Z) (k : nat) (g : ChainCycleGuard) : Prop :=
  active g = false ∨
  steps g = Z.of_nat k ∧ l !! k = Some (tortoise g) ∧ l !! (2 * k)%nat = Some (hare g).

Lemma advance_once_spec f d c l i :
  on_volume d → (∀ k, in_range v k → fat d k = f k) → chain f c l → ∀ x, l !! i = Some x →
  wp (advance_chain_once v x) d (λ d' r,
    same ok disk d d' ∧ (r = Ok (l !! S i) ∨ (∃ b, r = Err (EBlock b)) ∧ ¬ Reliable ok)).
Proof.
  intros Hv Hf Hc x Hx. apply wp_bind. eapply wp_mono; [by apply (next_cluster_spec ok disk v d0 G Hok0)|].
  intros d' r [He Hr]. rewrite (link_ext v (fat d) f) in Hr by done. rewrite (chain_lookup v f c l i x Hc Hx) in Hr. destruct r as [[y|]|e].
  - apply wp_ret. split; [done|]. left. destruct Hr as [Hr|[[? ?] _]]; [|done]. by destruct (l !! S i); simplify_eq.
  - apply wp_ret. split; [done|]. left. destruct Hr as [Hr|[[? ?] _]]; [|done]. by destruct (l !! S i); simplify_eq.
  - split; [done|]. right. destruct Hr as [Hr|[[b [= ->]] ?]]; [by destruct (l !! S i)|eauto].
Qed.

(** On a chain the guard never complains. *)
Lemma advance_spec f d c l k g :
  on_volume d → (∀ x, in_range v x → fat d x = f x) → chain f c l → guard_at l k g → (S k < length l)%nat →
  wp (advance v g) d (λ d' r,
    same ok disk d d' ∧ match r with Ok g' => guard_at l (S k) g' | Err e => (∃ b, e = EBlock b) ∧ ¬ Reliable ok end).
Proof.
  intros Hv Hf Hc Hg Hk. unfold advance.
  assert (Hself : same ok disk d d) by (apply io_same_refl, Hv).
  destruct (active g) eqn:Ha; simpl.
  2: { apply wp_ret. split; [done|by left]. }
  destruct Hg as [?|(Hst & Ht & Hh)]; [congruence|].
  pose proof (chain_length v f c l Hc) as Hlen. pose proof (g_limit _ _ G). pose proof (g_count _ _ G).
  apply wp_bind, wp_result. unfold checked_add32.
  rewrite (proj2 (Z.leb_le _ _)) by (unfold FAT32_BAD_CLUSTER, u32_max in *; lia). simpl.
  rewrite (proj2 (Z.ltb_ge _ _)) by lia.
  assert (Hstep : ∀ d1, same ok disk d d1 → on_volume d1 ∧ ∀ x, in_range v x → fat d1 x = f x).
  { intros d1 He. by destruct (same_keeps f d d1 Hv Hf He) as (? & ? & _). }
  apply wp_bind. eapply wp_mono; [by apply (advance_once_spec f d c l k)|]. intros d1 r1 [He1 Hr1].
  destruct (Hstep d1 He1) as [Hv1 Hf1].
  destruct r1 as [[t|]|e1]; [| |split; [done|]; destruct Hr1 as [?|[[? [= ->]] ?]]; [done|by eauto]].
  2: { destruct Hr1 as [Hr1|[[? ?] _]]; [|done]. injection Hr1 as Hr1. symmetry in Hr1.
       apply lookup_ge_None in Hr1. lia. }
  destruct Hr1 as [Hr1|[[? ?] _]]; [|done]. injection Hr1 as Hr1.
  apply wp_bind. eapply wp_mono; [by apply (advance_once_spec f d1 c l (2 * k))|]. intros d2 r2 [He2 Hr2].
  assert (He2' : same ok disk d d2) by (by eapply same_trans). destruct (Hstep d2 He2') as [Hv2 Hf2].
  destruct r2 as [[h1|]|e2]; [| |split; [done|]; destruct Hr2 as [?|[[? [= ->]] ?]]; [done|by eauto]].
  2: { apply wp_ret. split; [done|by left]. }
  destruct Hr2 as [Hr2|[[? ?] _]]; [|done]. injection Hr2 as Hr2.
  apply wp_bind. eapply wp_mono; [by apply (advance_once_spec f d2 c l (S (2 * k)))|]. intros d3 r3 [He3 Hr3].
  assert (He3' : same ok disk d d3) by (by eapply same_trans).
  destruct r3 as [[h|]|e3]; [| |split; [done|]; destruct Hr3 as [?|[[? [= ->]] ?]]; [done|by eauto]].
  2: { apply wp_ret. split; [done|by left]. }
  destruct Hr3 as [Hr3|[[? ?] _]]; [|done]. injection Hr3 as Hr3.
  rewrite (proj2 (Z.eqb_neq t h)).
  - apply wp_ret. split; [done|]. right. simpl. split_and!; [lia|done|].
    by replace (S (k + S (k + 0)))%nat with (S (S (2 * k)))%nat by lia.
  - intros ->. symmetry in Hr1, Hr3.
    pose proof (NoDup_lookup l _ _ _ (chain_NoDup v f c l Hc) Hr1 Hr3). lia.
Qed.

Lemma validate_loop_chain f d c l k budget cluster g :
  on_volume d → (∀ x, in_range v x → fat d x = f x) → chain f c l → guard_at l k g →
  l !! k = Some cluster → (length l ≤ k + budget)%nat →
  wp (validate_loop v budget cluster g) d (λ d' r,
    evolve d d' f ∧ match r with Ok _ => True | Err _ => ¬ Reliable ok end).
Proof.
  intros Hv Hf Hc. revert d k cluster g Hv Hf. induction budget as [|budget IH]; intros d k cluster g Hv Hf Hg Hk Hb.
  - apply lookup_lt_Some in Hk. lia.
  - cbn [validate_loop]. apply wp_bind. eapply wp_mono; [by apply (next_spec f)|]. intros d1 r [He Hr].
    assert (Hv1 : on_volume d1) by by eapply (evolve_on ok disk v d0).
    rewrite (chain_lookup v f c l k cluster Hc Hk) in Hr.
    destruct r as [[next|]|e]; [| |by split; [done|]; destruct Hr as [?|[_ ?]]; [destruct (l !! S k)|]].
    2: { by apply wp_ret. }
    destruct Hr as [Hr|[[? ?] _]]; [|done]. destruct (l !! S k) as [y|] eqn:Hy; [|done]. injection Hr as ->.
    apply wp_bind. eapply wp_mono.
    { eapply (advance_spec f d1 c l k); [done|apply He|done..|]. by eapply lookup_lt_Some. }
    intros d2 rg [Hs2 Hg2]. destruct (same_keeps f d1 d2 Hv1 ltac:(apply He) Hs2) as (_ & _ & He2).
    destruct rg as [g'|e]; [|by split; [by eapply evolve_trans|destruct Hg2]].
    eapply wp_mono; [apply (IH d2 (S k)); [by eapply (evolve_on ok disk v d0)|apply He2|done..|lia]|].
    intros d3 r [He3 Hr3]. split; [|done]. eapply evolve_trans; [exact He|by eapply evolve_trans].
Qed.

(** Whatever it returns, an acceptance means a chain. *)
Lemma validate_loop_sound f d budget cluster g :
  on_volume d → (∀ x, in_range v x → fat d x = f x) →
  wp (validate_loop v budget cluster g) d (λ d' r,
    evolve d d' f ∧ match r with Ok _ => ∃ l, chain f cluster l | Err _ => True end).
Proof.
  revert d cluster g. induction budget as [|budget IH]; intros d cluster g Hv Hf.
  - apply wp_err. split; [|done]. eapply evolve_ext; [by apply (on_volume_refl ok disk v d0)|done].
  - cbn [validate_loop]. apply wp_bind. eapply wp_mono; [by apply (next_spec f)|]. intros d1 r [He Hr].
    assert (Hv1 : on_volume d1) by by eapply (evolve_on ok disk v d0).
    destruct r as [[next|]|e]; [| |done]; (destruct Hr as [Hr|[[? ?] _]]; [|done]).
    + apply wp_bind. assert (Hadv : wp (advance v g) d1 (λ d' r, evolve d1 d' f)).
      { clear IH. unfold advance. assert (Hself : evolve d1 d1 f)
          by (eapply evolve_ext; [by apply (on_volume_refl ok disk v d0)|apply He]).
        destruct (negb (active g)); [done|]. apply wp_bind, wp_result.
        destruct (checked_add32 _ _); simpl; [|done]. destruct (_ <? _); [done|].
        assert (Honce : ∀ d2 x, evolve d1 d2 f → wp (advance_chain_once v x) d2 (λ d' r, evolve d1 d' f)).
        { intros d2 x He2. apply wp_bind. eapply wp_mono.
          { apply (next_spec f); [by eapply (evolve_on ok disk v d0)|apply He2]. }
          intros d3 [[y|]|e] [He3 _]; [apply wp_ret|apply wp_ret|]; by eapply evolve_trans. }
        apply wp_bind. eapply wp_mono; [by apply Honce|]. intros d2 [[t|]|e] He2; [|by apply wp_ret|done].
        apply wp_bind. eapply wp_mono; [by apply Honce|]. intros d3 [[h1|]|e] He3; [|by apply wp_ret|done].
        apply wp_bind. eapply wp_mono; [by apply Honce|]. intros d4 [[h|]|e] He4; [|by apply wp_ret|done].
        by destruct (t =? h). }
      eapply wp_mono; [exact Hadv|]. intros d2 [g'|e] He2; [|by split; [by eapply evolve_trans|]].
      eapply wp_mono; [apply (IH d2); [by eapply (evolve_on ok disk v d0)|apply He2]|].
      intros d3 r [He3 Hr3]. split; [eapply evolve_trans; [exact He|by eapply evolve_trans]|].
      destruct r; [|done]. destruct Hr3 as [l Hl]. exists (cluster :: l). by eapply chain_next.
    + apply wp_ret. split; [done|]. exists [cluster]. by apply chain_end.
Qed.

Lemma validate_spec d start :
  on_volume d →
  wp (validate_cluster_chain v start) d (λ d' r,
    evolve d d' (fat d) ∧
    match r with
    | Ok _ => ∃ l, chain (fat d) start l
    | Err _ => Reliable ok → ¬ ∃ l, chain (fat d) start l
    end).
Proof.
  intros Hv. pose proof (validate_loop_sound (fat d) d (chain_bound v) start (guard_new start) Hv ltac:(done)) as Hs.
  unfold validate_cluster_chain in *. unfold wp in *.
  destruct (validate_loop v (chain_bound v) start (guard_new start) d) as [d' r] eqn:E.
  destruct Hs as [He Hr]. split; [done|]. destruct r as [[]|e]; [done|].
  intros HR [l Hl]. pose proof (validate_loop_chain (fat d) d start l 0 (chain_bound v) start (guard_new start)) as Hc.
  destruct (chain_head _ _ _ _ Hl) as [l' ->].
  unfold wp in Hc. rewrite E in Hc. apply Hc; try done; [by right|]. by apply (chain_length v (fat d) start).
Qed.

(** ** The hints: they never matter to the table or the data *)
Lemma info_write_evolve d d' k :
  on_volume d → is_info v k → written ok disk k d d' → evolve d d' (fat d).
Proof.
  intros (Hok & Hc & Ht) Hk (O & C & R & Hd). pose proof (table_end _ _ G). pose proof (g_reserved _ _ G).
  pose proof (g_fat_size _ _ G). pose proof (g_info _ _ G k Hk).
  split; [|split].
  - unfold FatTable.frame. split_and!; [done..| |].
    + intros j Hj. apply Hd; lia.
    + intros j Hj Hni. apply Hd; [lia|]. intros ->. done.
  - intros j Hj. rewrite Hd by lia. by apply Ht.
  - intros c Hin. pose proof (entry_sector_bound v _ G c Hin). unfold FatTable.fat. by rewrite Hd by lia.
Qed.

Lemma info_range k : is_info v k → 0 ≤ k < sector_count d0.
Proof.
  intros Hk. pose proof (g_info _ _ G k Hk). pose proof (table_end _ _ G). pose proof (g_fat_size _ _ G). lia.
Qed.

Lemma read_info_spec d : on_volume d → wp (read_fs_info v) d (λ d' _, evolve d d' (fat d)).
Proof.
  intros Hv. unfold read_fs_info. destruct (fs_info_sector v) as [k|] eqn:Ek.
  2: { apply wp_ret. by apply (on_volume_refl ok disk v d0). }
  pose proof (info_range k ltac:(by left)) as Hk. pose proof Hv as (Hok & Hc & _).
  apply wp_bind, (wp_read ok disk); [done|lia| |].
  - intros d' e Hs. by apply (same_evolve ok disk v d0 G).
  - intros d' Hs _. destruct (negb _); apply wp_ret; by apply (same_evolve ok disk v d0 G).
Qed.

Lemma write_info_sector_spec d k info :
  on_volume d → is_info v k → wp (write_fs_info_sector k info) d (λ d' _, evolve d d' (fat d)).
Proof.
  intros Hv Hk. pose proof (info_range k Hk) as Hr. pose proof Hv as (Hok & Hc & _).
  apply wp_bind, (wp_read ok disk); [done|lia| |].
  - intros d' e Hs. by apply (same_evolve ok disk v d0 G).
  - intros d1 Hs _. pose proof (same_evolve ok disk v d0 G d d1 Hv Hs) as He.
    assert (Hv1 : on_volume d1) by by eapply (evolve_on ok disk v d0).
    destruct (negb _); [by apply wp_ret|]. apply (wp_write ok disk); [apply Hv1|lia| |].
    + intros d' e Hw. eapply evolve_trans; [exact He|]. eapply evolve_ext; [by eapply info_write_evolve|apply He].
    + intros d' Hw _ _. eapply evolve_trans; [exact He|]. eapply evolve_ext; [by eapply info_write_evolve|apply He].
Qed.

Lemma write_info_spec d info : on_volume d → wp (write_fs_info v info) d (λ d' _, evolve d d' (fat d)).
Proof.
  intros Hv. unfold write_fs_info. apply wp_bind.
  assert (H1 : wp (match fs_info_sector v with Some lba => write_fs_info_sector lba info | None => iret () end) d
    (λ d' _, evolve d d' (fat d))).
  { destruct (fs_info_sector v) as [k|] eqn:Ek; [apply write_info_sector_spec; [done|by left]|].
    apply wp_ret. by apply (on_volume_refl ok disk v d0). }
  eapply wp_mono; [exact H1|]. intros d1 [[]|e] He1; [|done].
  assert (Hv1 : on_volume d1) by by eapply (evolve_on ok disk v d0).
  destruct (backup_fs_info_sector v) as [k|] eqn:Ek; [|by apply wp_ret].
  eapply wp_mono; [apply write_info_sector_spec; [done|by right]|]. intros d2 r He2.
  eapply evolve_trans; [exact He1|]. eapply evolve_ext; [exact He2|apply He1].
Qed.

Lemma update_info_spec d (g : FsInfo → FsInfo) :
  on_volume d →
  wp (let! info := read_fs_info v in match info with None => iret () | Some info => write_fs_info v (g info) end) d
    (λ d' _, evolve d d' (fat d)).
Proof.
  intros Hv. apply wp_bind. eapply wp_mono; [by apply read_info_spec|]. intros d1 [[info|]|e] He1; [|by apply wp_ret|done].
  eapply wp_mono; [apply write_info_spec; by eapply (evolve_on ok disk v d0)|]. intros d2 r He2.
  eapply evolve_trans; [exact He1|]. eapply evolve_ext; [exact He2|apply He1].
Qed.

(** ** Freeing *)
Lemma free_loop_spec f d c l start freed budget :
  on_volume d → (∀ x, in_range v x → fat d x = f x) → chain f c l → (length l ≤ budget)%nat →
  wp (free_loop v budget start c freed) d (λ d' r,
    match r with Ok _ => evolve d d' (zeroed f l) | Err e => failed d d' e end).
Proof.
  revert d f c freed budget. induction l as [|x l IH]; intros d f c freed budget Hv Hf Hc Hb.
  { by destruct (chain_head _ _ _ _ Hc). }
  destruct budget as [|budget]; [simpl in Hb; lia|]. cbn [free_loop].
  destruct (chain_head _ _ _ _ Hc) as [l' [= -> ->]].
  pose proof (proj1 (proj1 (Forall_cons _ _ _) (chain_range _ _ _ _ Hc))) as Hrange.
  pose proof (proj1 (proj1 (NoDup_cons _ _) (chain_NoDup _ _ _ _ Hc))) as Hfresh.
  apply wp_bind. eapply wp_mono; [by apply (next_spec f)|]. intros d1 r [He1 Hr].
  assert (Hv1 : on_volume d1) by by eapply (evolve_on ok disk v d0).
  assert (Hlink : is_ok (link_of v f c) = true).
  { rewrite (chain_lookup v f c (c :: l') 0 c Hc eq_refl). by destruct ((c :: l') !! 1%nat). }
  destruct r as [link|e].
  2: { destruct Hr as [Hr|[[b [= ->]] Hr]]; [by rewrite <-Hr in Hlink|]. split_and!; [by eauto|by left|apply He1]. }
  destruct Hr as [Hr|[[? ?] _]]; [|done].
  apply wp_bind. eapply wp_mono; [by apply (write_fat_entry_spec ok disk v d0 G Hok0)|].
  intros d2 [[]|e] He2.
  2: { by eapply failed_after; [apply He1|]. }
  assert (Hv2 : on_volume d2) by by eapply (evolve_on ok disk v d0).
  assert (Hf2 : ∀ k, in_range v k → fat d2 k = update f c 0 k).
  { intros k Hk. destruct He2 as (_ & _ & He2). rewrite He2 by done. unfold update. case_decide; [done|]. by apply He1. }
  assert (He12 : evolve d d2 (update f c 0)).
  { split; [eapply frame_trans; [apply He1|apply He2]|]. split; [apply He2|done]. }
  destruct link as [next|].
  - inversion Hc as [? E1|? c' l'' E1 Hl]; subst; [congruence|]. rewrite E1 in Hr. injection Hr as ->.
    eapply wp_mono; [apply (IH d2 (update f c 0) c' (freed + 1)); [done..|by apply chain_update|simpl in Hb; lia]|].
    intros d3 [[]|e] He3.
    + eapply evolve_trans; [exact He12|]. eapply evolve_ext; [exact He3|]. intros k _. apply zeroed_cons.
    + by eapply failed_after; [apply He12|].
  - apply wp_bind, wp_try. eapply wp_mono; [by apply (update_info_spec d2 (λ info, _))|].
    intros d3 r He3. apply wp_ret. eapply evolve_trans; [exact He12|]. eapply evolve_ext; [exact He3|].
    intros k Hk. rewrite Hf2 by done. inversion Hc as [|? c' l'' E1 Hl]; subst; [|congruence].
    rewrite <-zeroed_cons. unfold zeroed. rewrite decide_False; [done|]. apply not_elem_of_nil.
Qed.

(** A chain is cleared, exactly; anything else is refused and left alone. *)
Lemma free_spec d start :
  on_volume d →
  wp (free_cluster_chain v start) d (λ d' r,
    match r with
    | Ok _ => start < 2 ∧ evolve d d' (fat d) ∨ ∃ l, chain (fat d) start l ∧ evolve d d' (zeroed (fat d) l)
    | Err e => failed d d' e ∨ (Reliable ok → ¬ ∃ l, chain (fat d) start l) ∧ evolve d d' (fat d)
    end).
Proof.
  intros Hv. unfold free_cluster_chain. destruct (Z.ltb_spec start 2).
  { apply wp_ret. left. split; [done|]. by apply (on_volume_refl ok disk v d0). }
  apply wp_bind. eapply wp_mono; [by apply validate_spec|]. intros d1 [[]|e] [He Hr]; [|by right].
  destruct Hr as [l Hl]. eapply wp_mono.
  { eapply (free_loop_spec (fat d) d1 start l); [by eapply (evolve_on ok disk v d0)|apply He|done|].
    by eapply chain_length. }
  intros d2 [[]|e] He2.
  - right. exists l. split; [done|by eapply evolve_trans].
  - left. by eapply failed_after; [apply He|].
Qed.

(** On a reliable device a chain is always freed. *)
Lemma free_chain_spec d start l :
  on_volume d → chain (fat d) start l →
  wp (free_cluster_chain v start) d (λ d' r,
    match r with
    | Ok _ => evolve d d' (zeroed (fat d) l)
    | Err e => (¬ Reliable ok ∨ is_read_only d = true) ∧ frame d d'
    end).
Proof.
  intros Hv Hl. unfold free_cluster_chain.
  assert (Hs : 2 ≤ start).
  { destruct (chain_head _ _ _ _ Hl) as [l' ->]. pose proof (chain_range _ _ _ _ Hl) as HF.
    apply Forall_cons in HF as [[? _] _]. done. }
  rewrite (proj2 (Z.ltb_ge _ _)) by done. apply wp_bind.
  eapply wp_mono; [by apply validate_spec|]. intros d1 [[]|e] [He Hr].
  2: { split; [|apply He]. left. intros HR. apply Hr; eauto. }
  eapply wp_mono.
  { eapply (free_loop_spec (fat d) d1 start l); [by eapply (evolve_on ok disk v d0)|apply He|done|].
    by eapply chain_length. }
  intros d2 [[]|e] He2; [by eapply evolve_trans|].
  destruct (failed_after ok disk v d d1 d2 e) as (_ & ? & ?); [apply He|done..].
Qed.

(** ** Allocating *)
Lemma allocate_loop_spec d n c :
  on_volume d → 2 ≤ c → c + Z.of_nat n ≤ cluster_count v + 2 →
  wp (allocate_loop v n c) d (λ d' r,
    match r with
    | Ok x => c ≤ x < c + Z.of_nat n ∧ fat d x = 0 ∧ evolve d d' (update (fat d) x FAT32_END_MIN)
    | Err e => failed d d' e ∨
               e = NoSpace ∧ evolve d d' (fat d) ∧ ∀ x, c ≤ x < c + Z.of_nat n → fat d x ≠ 0
    end).
Proof.
  revert d c. induction n as [|n IH]; intros d c Hv Hc Hn.
  { apply wp_err. right. split_and!; [done|by apply (on_volume_refl ok disk v d0)|lia]. }
  assert (Hrange : in_range v c) by (unfold in_range; lia).
  cbn [allocate_loop]. apply wp_bind. eapply wp_mono; [by apply (read_fat_entry_spec ok disk v d0 G Hok0)|].
  intros d1 r1 [Hs1 Hr]. pose proof (same_evolve ok disk v d0 G d d1 Hv Hs1) as He1. destruct r1 as [x|e].
  2: { left. destruct Hr as [? ?]. split_and!; [done|by left|apply He1]. }
  subst x. assert (Hv1 : on_volume d1) by by eapply (evolve_on ok disk v d0). destruct (Z.eqb_spec (fat d c) 0) as [H0|H0].
  - apply wp_bind. eapply wp_mono; [by apply (write_fat_entry_spec ok disk v d0 G Hok0)|]. intros d2 [[]|e] He2.
    2: { left. by eapply failed_after; [apply He1|]. }
    assert (Hv2 : on_volume d2) by by eapply (evolve_on ok disk v d0).
    apply wp_bind, wp_try. eapply wp_mono; [by apply (update_info_spec d2 (λ info, _))|]. intros d3 r He3.
    apply wp_ret. split_and!; [lia|lia|done|]. eapply evolve_trans; [exact He1|]. eapply evolve_trans; [exact He2|].
    eapply evolve_ext; [exact He3|]. intros k Hk. destruct He2 as (_ & _ & He2). rewrite He2 by done.
    unfold update. case_decide; [done|]. by apply He1.
  - eapply wp_mono; [apply (IH d1 (c + 1)); [done|lia|lia]|]. destruct He1 as (F1 & T1 & He1).
    intros d2 [x|e] Hres.
    + destruct Hres as (Hx & H0x & He2). assert (in_range v x) by (unfold in_range in *; lia).
      split_and!; [lia|lia|by rewrite <-He1|]. eapply evolve_trans; [by split|]. eapply evolve_ext; [exact He2|].
      intros k Hk. unfold update. case_decide; [done|]. by apply He1.
    + destruct Hres as [Hfl|(-> & He2 & Hno)].
      * left. by eapply failed_after.
      * right. split_and!; [done| |].
        -- eapply evolve_trans; [by split|]. eapply evolve_ext; [exact He2|done].
        -- intros x Hx. destruct (decide (x = c)) as [->|]; [done|].
           rewrite <-He1 by (unfold in_range in *; lia). apply Hno. lia.
Qed.

Lemma hint_spec d : on_volume d → wp (fs_info_next_free_hint v) d (λ d' r, evolve d d' (fat d) ∧ is_ok r = true).
Proof.
  intros Hv. apply wp_bind, wp_try. eapply wp_mono; [by apply read_info_spec|].
  intros d1 [[info|]|e] He; by apply wp_ret.
Qed.

(** A free cluster is found and marked, or there is none. *)
Lemma allocate_cluster_spec d :
  on_volume d →
  wp (allocate_cluster v) d (λ d' r,
    match r with
    | Ok x => in_range v x ∧ fat d x = 0 ∧ evolve d d' (update (fat d) x FAT32_END_MIN)
    | Err e => failed d d' e ∨
               e = NoSpace ∧ evolve d d' (fat d) ∧ ∀ x, in_range v x → fat d x ≠ 0
    end).
Proof.
  intros Hv. pose proof (g_limit _ _ G). pose proof (g_count _ _ G).
  unfold allocate_cluster. apply wp_bind, wp_result. unfold checked_add32.
  rewrite (proj2 (Z.leb_le _ _)) by (unfold FAT32_BAD_CLUSTER, u32_max in *; lia). simpl.
  apply wp_bind. eapply wp_mono; [by apply hint_spec|]. intros d1 [hint|e] [He1 Hi]; [|done].
  assert (Hv1 : on_volume d1) by by eapply (evolve_on ok disk v d0).
  rewrite (allocatable_spec v _ G). set (start := if bool_decide (in_range v hint) then hint else 2).
  assert (Hs : in_range v start).
  { subst start. case_bool_decide; [done|]. unfold in_range. lia. }
  pose proof He1 as (F1 & T1 & Hf1). unfold allocate_cluster_in_range.
  apply wp_bind, wp_try. unfold in_range in Hs.
  eapply wp_mono; [apply (allocate_loop_spec d1 (Z.to_nat (cluster_count v + 2 - start)) start); [done|lia|lia]|].
  intros d2 [x|e] Hr.
  - apply wp_ret. destruct Hr as (Hx & Hz & He2). assert (in_range v x) by (unfold in_range; lia).
    split_and!; [done|by rewrite <-Hf1|]. eapply evolve_trans; [exact He1|]. eapply evolve_ext; [exact He2|].
    intros k Hk. unfold update. case_decide; [done|]. by apply Hf1.
  - destruct Hr as [Hfl|(-> & He2 & Hno)].
    { pose proof (failed_after ok disk v d d1 d2 e F1 Hfl) as Hres. destruct Hfl as ([b ->] & _). by left. }
    assert (He12 : evolve d d2 (fat d)).
    { eapply evolve_trans; [exact He1|]. eapply evolve_ext; [exact He2|done]. }
    assert (Hv2 : on_volume d2) by by eapply (evolve_on ok disk v d0). destruct He12 as (F2 & T2 & Hf2).
    destruct (Z.ltb_spec 2 start).
    + eapply wp_mono; [apply (allocate_loop_spec d2 (Z.to_nat (start - 2)) 2); [done|lia|lia]|].
      intros d3 [x|e] Hr3.
      * destruct Hr3 as (Hx & Hz & He3). assert (in_range v x) by (unfold in_range; lia).
        split_and!; [done|by rewrite <-Hf2|]. eapply evolve_trans; [by split|]. eapply evolve_ext; [exact He3|].
        intros k Hk. unfold update. case_decide; [done|]. by apply Hf2.
      * destruct Hr3 as [Hfl|(-> & He3 & Hno3)]; [left; by eapply failed_after|right].
        split_and!; [done| |].
        -- eapply evolve_trans; [by split|]. eapply evolve_ext; [exact He3|done].
        -- intros x Hx. destruct (Z.lt_ge_cases x start).
           ++ rewrite <-Hf2 by done. apply Hno3. unfold in_range in Hx. lia.
           ++ rewrite <-Hf1 by done. apply Hno. unfold in_range in Hx. lia.
    + apply wp_err. right. split_and!; [done|by split|]. intros x Hx. rewrite <-Hf1 by done. apply Hno. unfold in_range in Hx. lia.
Qed.

(** ** Frames of the chain operations on a damaged table *)
Local Abbreviation framed := (FatTable.framed ok disk v d0).

Lemma framed_advance g : framed (advance v g).
Proof.
  unfold advance, advance_chain_once. destruct (negb _); [by apply framed_ret|]. apply framed_result. intros st _.
  destruct (_ <? _); [by apply framed_err|].
  assert (Honce : ∀ c, framed (let! link := next_cluster v c in
    match link with Next next => iret (Some next) | End => iret None end)).
  { intros c. apply framed_bind; [by apply framed_next|]. intros [y|]; by apply framed_ret. }
  apply framed_bind; [apply Honce|]. intros [t|]; [|by apply framed_ret].
  apply framed_bind; [apply Honce|]. intros [h1|]; [|by apply framed_ret].
  apply framed_bind; [apply Honce|]. intros [h|]; [|by apply framed_ret].
  destruct (_ =? _); [by apply framed_err|by apply framed_ret].
Qed.

Lemma framed_validate_loop budget c g : framed (validate_loop v budget c g).
Proof.
  revert c g. induction budget as [|budget IH]; intros c g; [by apply framed_err|]. cbn [validate_loop].
  apply framed_bind; [by apply framed_next|]. intros [y|]; [|by apply framed_ret].
  apply framed_bind; [apply framed_advance|]. intros g'. apply IH.
Qed.

Lemma framed_info_read : framed (read_fs_info v).
Proof.
  unfold read_fs_info. destruct (fs_info_sector v) as [k|] eqn:E; [|by apply framed_ret].
  pose proof (g_info _ _ G k ltac:(by left)). apply framed_bind; [apply framed_read; (done || lia)|]. intros s.
  destruct (negb _); by apply framed_ret.
Qed.

Lemma framed_info_sector k info : is_info v k → framed (write_fs_info_sector k info).
Proof.
  intros Hk. pose proof (g_info _ _ G k Hk). apply framed_bind; [apply framed_read; (done || lia)|]. intros s.
  destruct (negb _); [by apply framed_ret|]. apply framed_write; [done|done|by right].
Qed.

Lemma framed_info_write info : framed (write_fs_info v info).
Proof.
  apply framed_bind.
  - destruct (fs_info_sector v) eqn:E; [apply framed_info_sector; by left|by apply framed_ret].
  - intros _. destruct (backup_fs_info_sector v) eqn:E; [apply framed_info_sector; by right|by apply framed_ret].
Qed.

Lemma framed_free_loop budget start c freed : framed (free_loop v budget start c freed).
Proof.
  revert c freed. induction budget as [|budget IH]; intros c freed; [by apply framed_err|]. cbn [free_loop].
  apply framed_bind; [by apply framed_next|]. intros link.
  apply framed_bind; [by apply framed_write_entry|]. intros _. destruct link as [y|]; [apply IH|].
  apply framed_bind; [|intros; by apply framed_ret]. apply framed_try.
  apply framed_bind; [apply framed_info_read|]. intros [info|]; [apply framed_info_write|by apply framed_ret].
Qed.

Lemma framed_free start : framed (free_cluster_chain v start).
Proof.
  unfold free_cluster_chain. destruct (_ <? _); [by apply framed_ret|].
  apply framed_bind; [apply framed_validate_loop|]. intros _. apply framed_free_loop.
Qed.

(** ** Chains for files *)
(** The clusters allocated so far, in order: free before, distinct, in range. *)
Definition fresh (f : Z → Z) (l : list Z) : Prop :=
  Forall (in_range v) l ∧ NoDup l ∧ Forall (λ c, f c = 0) l.

(** What a failed allocation leaves behind. *)
Definition not_enough (f : Z → Z) (n : nat) : Prop :=
  ∃ l, (length l < n)%nat ∧ ∀ c, in_range v c → f c = 0 → c ∈ l.

Definition gave_up (d d' : D) (f : Z → Z) (n : nat) (e : FatError) : Prop :=
  (FatTable.faulty ok d ∧ frame d d') ∨ (e = NoSpace ∧ evolve d d' f ∧ not_enough f n).

Lemma rollback_spec f d db l first e :
  on_volume d → evolve db d (linked f l) → fresh f l → first = default 0 (head l) →
  wp (let! _ := (if 2 <=? first then itry (free_cluster_chain v first) else iret (Ok ())) in ierr (A := Z) e) d
    (λ d' r, r = Err e ∧ ((FatTable.faulty ok db ∧ frame db d') ∨ evolve db d' f)).
Proof.
  intros Hv He (HF & HN & HZ) ->. destruct l as [|c l]; simpl.
  - apply wp_bind, wp_ret, wp_err. split; [done|]. by right.
  - pose proof (proj1 (proj1 (Forall_cons _ _ _) HF)) as [Hc _]. rewrite (proj2 (Z.leb_le _ _)) by done.
    apply wp_bind, wp_try. eapply wp_mono.
    { apply (free_chain_spec d c (c :: l)); [done|]. destruct He as (_ & _ & Hfat).
      eapply chain_ext; [|by eapply linked_chain]. intros k Hk. by rewrite Hfat. }
    intros d' [[]|e'] Hr; apply wp_err; split; [done| |done|].
    + right. eapply evolve_trans; [exact He|]. eapply evolve_ext; [exact Hr|]. intros k Hk.
      destruct He as (_ & _ & Hfat). rewrite <-(linked_zeroed f (c :: l) k).
      * unfold zeroed. case_decide; [done|]. by rewrite Hfat.
      * intros Hin. by rewrite Forall_forall in HZ; apply HZ.
    + left. destruct Hr as [Hfl F]. split; [|by eapply frame_trans; [apply He|]].
      eapply frame_faulty; [apply He|done].
Qed.

Lemma land_mask_range x : in_range v x → Z.land x FAT32_ENTRY_MASK = x.
Proof.
  intros [H1 H2]. pose proof (g_limit _ _ G) as Hl. unfold FAT32_BAD_CLUSTER in Hl.
  change FAT32_ENTRY_MASK with (Z.ones 28). rewrite Z.land_ones by lia. apply Z.mod_small. lia.
Qed.

Lemma fresh_snoc f l x : fresh f l → in_range v x → x ∉ l → f x = 0 → fresh f (l ++ [x]).
Proof.
  intros (HF & HN & HZ) Hx Hn H0. unfold fresh. rewrite !Forall_app, !Forall_singleton, NoDup_app.
  split_and!; try done; [|apply NoDup_singleton]. intros y Hy ->%list_elem_of_singleton. done.
Qed.

(** One more cluster on the chain being built. *)
Lemma linked_push f l p x k :
  NoDup (l ++ [p] ++ [x]) →
  update (update (linked f (l ++ [p])) x FAT32_END_MIN) p x k = linked f ((l ++ [p]) ++ [x]) k.
Proof. intros HN. rewrite <-app_assoc. by apply linked_snoc. Qed.

(** Rolling back on a damaged table still stays in its area. *)
Lemma rollback_frame first e d :
  calm ok d0 d →
  wp (let! _ := (if 2 <=? first then itry (free_cluster_chain v first) else iret (Ok ())) in ierr (A := Z) e) d
    (λ d' r, frame d d' ∧ r = Err e).
Proof.
  intros Hc. destruct (2 <=? first).
  - apply wp_bind, wp_try. eapply wp_mono; [by apply framed_free|]. intros d' r F. by apply wp_err.
  - apply wp_bind, wp_ret, wp_err. split; [|done]. destruct Hc. by apply frame_refl.
Qed.

Lemma on_volume_calm d : on_volume d → calm ok d0 d.
Proof. by intros (? & ? & _). Qed.

Lemma allocate_file_loop_spec f db d n l first previous :
  on_volume d → evolve db d (linked f l) → fresh f l →
  first = default 0 (head l) → previous = default 0 (last l) →
  wp (allocate_file_loop v n (length l) first previous) d (λ d' r,
    match r with
    | Ok x => ∃ l', length l' = n ∧ fresh f (l ++ l') ∧ evolve db d' (linked f (l ++ l')) ∧
                    x = default 0 (head (l ++ l'))
    | Err e => gave_up db d' f (length l + n) e
    end).
Proof.
  revert d l first previous. induction n as [|n IH]; intros d l first previous Hv He Hfr Hfirst Hprev.
  { apply wp_ret. exists []. by rewrite app_nil_r. }
  cbn [allocate_file_loop]. pose proof He as (F0 & T0 & Hfat). pose proof Hfr as (HF & HN & HZ).
  apply wp_bind, wp_try. eapply wp_mono; [by apply allocate_cluster_spec|]. intros d1 [x|e] Hr.
  2: { destruct Hr as [Hfl|(-> & He1 & Hno)].
    - pose proof (failed_after ok disk v db d d1 e F0 Hfl) as (_ & Hf & F1).
      eapply wp_mono; [apply rollback_frame; eapply calm_frame; [by apply on_volume_calm|apply Hfl]|].
      intros d2 r [F2 ->]. left. split; [done|by eapply frame_trans].
    - eapply wp_mono.
      { apply (rollback_spec f d1 db l); [by eapply (evolve_on ok disk v d0)| |done..].
        eapply evolve_trans; [exact He|]. eapply evolve_ext; [exact He1|done]. }
      intros d2 r [-> [?|He2]]; [by left|right]. split_and!; [done..|]. exists l. split; [lia|].
      intros c Hc H0. destruct (decide (c ∈ l)); [done|]. exfalso. apply (Hno c Hc).
      rewrite Hfat by done. by rewrite linked_outside. }
  destruct Hr as (Hx & H0 & He1).
  assert (Hxl : x ∉ l). { intros Hin. rewrite Hfat in H0 by done. by apply (linked_nonzero v f l x). }
  assert (Hfx : f x = 0). { rewrite Hfat in H0 by done. by rewrite linked_outside in H0. }
  pose proof (fresh_snoc f l x Hfr Hx Hxl Hfx) as Hfr'.
  assert (Hv1 : on_volume d1) by by eapply (evolve_on ok disk v d0).
  destruct l as [|c0 l0] eqn:El.
  - simpl. eapply wp_mono; [apply (IH d1 [x] x x); try done|].
    + eapply evolve_trans; [exact He|]. eapply evolve_ext; [exact He1|]. intros k Hk. simpl. unfold update.
      case_decide; [done|]. by rewrite Hfat.
    + intros d2 [y|e] Hr2.
      * destruct Hr2 as (l' & Hl' & ? & ? & ?). exists (x :: l'). simpl. split; [lia|]. done.
      * exact Hr2.
  - rewrite <-El in *. assert (Hlen : (length l =? 0)%nat = false) by (rewrite El; done). rewrite Hlen.
    destruct (exists_last (l := l)) as (l1 & p & Hl1); [by rewrite El|].
    assert (previous = p) as -> by (rewrite Hprev, Hl1, last_snoc; done).
    assert (Hp : in_range v p) by (eapply Forall_forall; [exact HF|]; rewrite Hl1; apply elem_of_app; right; left).
    assert (Hpush : ∀ k, in_range v k → update (fat d1) p x k = linked f (l ++ [x]) k).
    { intros k Hk. rewrite Hl1, <-linked_push.
      - unfold update at 1 2. case_decide; [done|]. destruct He1 as (_ & _ & ->); [|done].
        unfold update. case_decide; [done|]. by rewrite Hfat, Hl1.
      - destruct Hfr' as (_ & HN' & _). by rewrite Hl1, <-app_assoc in HN'. }
    apply wp_bind, wp_try. eapply wp_mono; [apply (write_fat_entry_spec ok disk v d0 G Hok0); [done..|destruct Hx; lia]|].
    rewrite (land_mask_range x Hx). intros d2 [[]|e] Hr2.
    + assert (He2 : evolve db d2 (linked f (l ++ [x]))).
      { eapply evolve_trans; [exact He|]. eapply evolve_trans; [exact He1|]. eapply evolve_ext; [exact Hr2|done]. }
      replace (S (length l)) with (length (l ++ [x])) by (rewrite length_app; simpl; lia).
      eapply wp_mono; [apply (IH d2 (l ++ [x])); [by eapply (evolve_on ok disk v d0)|done..| |]|].
      * rewrite Hfirst, El. done.
      * by rewrite last_snoc.
      * intros d3 [y|e] Hr3.
        -- destruct Hr3 as (l' & Hl' & Ha & Hb & Hc'). exists (x :: l'). rewrite <-app_assoc in Ha, Hb, Hc'. simpl. auto with lia.
        -- rewrite length_app in Hr3. simpl in Hr3. by replace (length l + S n)%nat with (length l + 1 + n)%nat by lia.
    + assert (F01 : frame db d1) by (eapply frame_trans; [exact F0|apply He1]).
      pose proof (failed_after ok disk v db d1 d2 e F01 Hr2) as (_ & Hf & F2).
      assert (Hcalm : calm ok d0 d2) by (eapply calm_frame; [by apply on_volume_calm|apply Hr2]).
      apply wp_bind, wp_try. eapply wp_mono; [by apply framed_free|]. intros d3 r3 F3.
      eapply wp_mono; [apply rollback_frame; eapply calm_frame; [exact Hcalm|exact F3]|]. intros d4 r [F4 ->]. left. split; [done|].
      eapply frame_trans; [exact F2|eapply frame_trans; [exact F3|exact F4]].
Qed.

(** Allocating a chain for a file: all of it, out of free clusters, or nothing. *)
Lemma allocate_file_spec d n :
  on_volume d →
  wp (allocate_file_chain v n) d (λ d' r,
    match r with
    | Ok x => ∃ l, length l = n ∧ fresh (fat d) l ∧ evolve d d' (linked (fat d) l) ∧ x = default 0 (head l)
    | Err e => gave_up d d' (fat d) n e
    end).
Proof.
  intros Hv. apply (allocate_file_loop_spec (fat d) d d n []); try done.
  - by apply (on_volume_refl ok disk v d0).
  - split_and!; constructor.
Qed.
End ops.
End FatChains.
