(* ===== verification/Fat32Data.v ===== *)
(** * File contents

    The bytes of a chain are the sectors of its clusters in order. Writing a chain stores
    the data and touches only its clusters; reading a range returns exactly those bytes,
    or reports a truncated file. *)
From S2P Require Import Prelude Block DeviceIo Fat32 Fat32Table Fat32Chains.
Import Block Io Fat FatTable FatChains.

Module FatData.

(** ** Concatenations of equal chunks *)
Lemma length_concat_chunks (ss : list (list Z)) m :
  Forall (λ s, length s = m) ss → length (concat ss) = (length ss * m)%nat.
Proof. induction 1 as [|s ss Hs _ IH]; simpl; [done|]. rewrite length_app, Hs, IH. lia. Qed.

Lemma slice_concat (ss : list (list Z)) m i s a n :
  Forall (λ s, length s = m) ss → ss !! i = Some s → (a + n ≤ m)%nat →
  slice (i * m + a) n (concat ss) = slice a n s.
Proof.
  intros HF. revert i. induction HF as [|x ss Hx HF IH]; intros [|i] Hi Han; try done.
  - injection Hi as ->. unfold slice. simpl. rewrite drop_app_le by lia. by rewrite take_app_le by (rewrite length_drop; lia).
  - simpl in *. rewrite <-(IH i Hi Han). unfold slice. rewrite drop_app_ge by lia. f_equal. f_equal. lia.
Qed.

Section data.
Context {D : Type} `{BlockDevice D} (ok : D → Prop) (disk : D → Z → list Z) `{!Lawful ok disk}.
Context (v : Volume) (d0 : D) (G : geometry v (sector_count d0)) (Hok0 : ok d0).
Local Abbreviation on_volume := (FatTable.on_volume ok disk v d0).
Local Abbreviation fat := (FatTable.fat disk v).
Local Abbreviation chain := (FatChains.chain v).
Local Abbreviation faulty := (FatTable.faulty ok).
Local Abbreviation spc := (sectors_per_cluster v).

(** ** Clusters on the disk *)
Definition lba (c : Z) : Z := first_data_sector v + (c - 2) * spc.
Definition span (c : Z) (k : Z) : Prop := lba c ≤ k < lba c + spc.

Definition lbas (l : list Z) : list Z := l ≫= (λ c, seqZ (lba c) spc).
Definition file_sectors (d : D) (l : list Z) : list (list Z) := disk d <$> lbas l.
Definition file_bytes (d : D) (l : list Z) : list Z := concat (file_sectors d l).

Lemma span_range c k : in_range v c → span c k → first_data_sector v ≤ k < sector_count d0.
Proof. intros Hc Hk. pose proof (cluster_span v _ G c Hc). unfold span, lba in *. lia. Qed.

Lemma span_disjoint c c' k : span c k → span c' k → c = c'.
Proof. pose proof (g_spc _ _ G). unfold span, lba. intros. nia. Qed.

Lemma cluster_lba_ok c : in_range v c → cluster_lba v c = Ok (lba c).
Proof. intros Hc. rewrite (cluster_lba_spec v _ G (count_u64 ok disk d0 Hok0)). by rewrite decide_True. Qed.

(** A change confined to the clusters of [l]. *)
Definition touched (l : list Z) (d d' : D) : Prop :=
  ok d' ∧ sector_count d' = sector_count d ∧ is_read_only d' = is_read_only d ∧
  ∀ k, 0 ≤ k < sector_count d → (∀ c, c ∈ l → ¬ span c k) → disk d' k = disk d k.

Lemma touched_refl l d : ok d → touched l d d.
Proof. intros. unfold touched. by split_and!. Qed.
Lemma touched_trans l d1 d2 d3 : touched l d1 d2 → touched l d2 d3 → touched l d1 d3.
Proof.
  intros (O1 & C1 & R1 & D1) (O2 & C2 & R2 & D2). unfold touched. split_and!; [done|congruence|congruence|].
  intros k Hk Hn. rewrite D2 by (rewrite ?C1; done). by apply D1.
Qed.
Lemma touched_mono l l' d d' : l ⊆ l' → touched l d d' → touched l' d d'.
Proof. intros Hs (O & C & R & Hd). unfold touched. split_and!; [done..|]. intros k Hk Hn. apply Hd; [done|]. eauto. Qed.
Lemma same_touched l d d' : same ok disk d d' → touched l d d'.
Proof. intros (O & C & R & Hd). unfold touched. split_and!; [done..|]. auto. Qed.
Lemma written_touched c k d d' : span c k → written ok disk k d d' → touched [c] d d'.
Proof.
  intros Hs (O & C & R & Hd). unfold touched. split_and!; [done..|]. intros j Hj Hn. apply Hd; [done|].
  intros ->. apply (Hn c); [left|done].
Qed.

Lemma touched_faulty l d d' : touched l d d' → faulty d' → faulty d.
Proof. intros (_ & _ & Hr & _). unfold FatTable.faulty. by rewrite Hr. Qed.

(** The table is not touched. *)
Lemma touched_table l d d' :
  on_volume d → Forall (in_range v) l → touched l d d' →
  on_volume d' ∧ ∀ c, in_range v c → fat d' c = fat d c.
Proof.
  intros (Hok & Hc & Ht) HF (O & C & R & Hd). pose proof (table_end _ _ G). pose proof (g_reserved _ _ G).
  assert (Hsame : ∀ k, first_fat_sector v ≤ k < first_data_sector v → disk d' k = disk d k).
  { intros k Hk. apply Hd; [lia|]. intros c Hin Hs. rewrite Forall_forall in HF.
    pose proof (span_range c k (HF c Hin) Hs). lia. }
  split; [split_and!; [done|congruence|]|].
  - intros k Hk. rewrite Hsame by done. by apply Ht.
  - intros c Hr. pose proof (entry_sector_bound v _ G c Hr). unfold FatTable.fat. by rewrite Hsame by lia.
Qed.

Lemma touched_link l d d' c :
  on_volume d → Forall (in_range v) l → touched l d d' → link_of v (fat d') c = link_of v (fat d) c.
Proof. intros Hv HF Ht. apply link_ext. by apply (touched_table l). Qed.

Lemma touched_chain l d d' c k :
  on_volume d → Forall (in_range v) l → touched l d d' → chain (fat d) c k → chain (fat d') c k.
Proof.
  intros Hv HF Ht. apply chain_ext. intros x Hx. symmetry. by apply (proj2 (touched_table l d d' Hv HF Ht)).
Qed.

(** ** Writing *)
(** [bytes] padded to whole sectors, as the code stores them. *)
Fixpoint padded (n : nat) (bytes : list Z) : list (list Z) :=
  match n with O => [] | S n => splice 0 (take SECTOR_SIZE bytes) zeros :: padded n (drop SECTOR_SIZE bytes) end.

Lemma length_padded_sector bytes : length (splice 0 (take SECTOR_SIZE bytes) zeros) = SECTOR_SIZE.
Proof. rewrite length_splice; [done|]. change (length zeros) with SECTOR_SIZE. rewrite length_take. lia. Qed.

Lemma write_sectors_spec d c n k rem :
  on_volume d → in_range v c → lba c ≤ k → k + Z.of_nat n = lba c + spc →
  wp (write_cluster_sectors n k rem) d (λ d' r,
    touched [c] d d' ∧
    match r with
    | Ok rem' => rem' = drop (n * SECTOR_SIZE) rem ∧
                 disk d' <$> seqZ k (Z.of_nat n) = padded n rem ∧
                 ∀ j, lba c ≤ j < k → disk d' j = disk d j
    | Err e => (∃ b, e = EBlock b) ∧ faulty d
    end).
Proof.
  intros Hv Hc. revert d k rem Hv. induction n as [|n IH]; intros d k rem Hv Hk Hn.
  { apply wp_ret. destruct Hv as [Hok _]. by split_and!; [apply touched_refl|..]. }
  assert (Hs : span c k) by (unfold span; lia). pose proof (span_range c k Hc Hs) as Hr.
  pose proof (table_end _ _ G). pose proof (g_reserved _ _ G). pose proof (g_fat_size _ _ G).
  pose proof Hv as (Hok & Hcnt & _). cbn [write_cluster_sectors].
  apply wp_bind, (wp_write_in ok disk); [done|lia|apply length_padded_sector| |].
  { intros d' e Hw Hf. split; [by eapply written_touched|]. eauto. }
  intros d1 Hw Hd1. assert (Ht1 : touched [c] d d1) by by eapply written_touched.
  assert (Hin : Forall (in_range v) [c]) by by apply Forall_singleton.
  destruct (touched_table [c] d d1 Hv Hin Ht1) as [Hv1 _].
  eapply wp_mono; [apply (IH d1 (k + 1)); [done|lia|lia]|]. intros d2 r [Ht2 Hr2].
  split; [by eapply touched_trans|]. destruct r as [rem'|e].
  - destruct Hr2 as (-> & Hs2 & Hold). split_and!.
    + by rewrite drop_drop.
    + rewrite Nat2Z.inj_succ, seqZ_cons by lia. rewrite fmap_cons. cbn [padded]. f_equal.
      * rewrite Hold by lia. done.
      * rewrite <-Hs2. f_equal. f_equal; lia.
    + intros j Hj. rewrite Hold by lia. destruct Hw as (_ & _ & _ & Hd). apply Hd; [|lia].
      pose proof (span_range c j Hc ltac:(unfold span; lia)). lia.
  - destruct Hr2 as [Hb Hf]. split; [done|by eapply touched_faulty].
Qed.

(** The bytes a padded list of sectors starts with. *)
Lemma concat_padded n bytes :
  take (length bytes) (concat (padded n bytes)) = take (n * SECTOR_SIZE) bytes.
Proof.
  revert bytes. induction n as [|n IH]; intros bytes; [by destruct bytes|]. cbn [padded concat].
  assert (Hp : splice 0 (take SECTOR_SIZE bytes) zeros =
    take SECTOR_SIZE bytes ++ replicate (SECTOR_SIZE - length (take SECTOR_SIZE bytes)) 0).
  { unfold splice, zeros. simpl take at 1. rewrite app_nil_l. by rewrite drop_replicate. }
  rewrite Hp. rewrite length_take. destruct (decide (length bytes ≤ SECTOR_SIZE)%nat) as [Hle|Hgt].
  - rewrite (take_ge bytes) by done. rewrite <-app_assoc, take_app_length. rewrite take_ge; [done|].
    change (S n * SECTOR_SIZE)%nat with (SECTOR_SIZE + n * SECTOR_SIZE)%nat. lia.
  - rewrite Nat.min_l, Nat.sub_diag by lia. simpl replicate. rewrite app_nil_r.
    rewrite <-(take_drop SECTOR_SIZE bytes) at 1. rewrite length_app, take_app_add, IH.
    change (S n * SECTOR_SIZE)%nat with (SECTOR_SIZE + n * SECTOR_SIZE)%nat. apply take_take_drop.
Qed.

(** Bytes of one cluster. *)
Definition cluster_size : nat := Z.to_nat spc * SECTOR_SIZE.
Definition cluster_bytes (d : D) (c : Z) : list Z := concat (disk d <$> seqZ (lba c) spc).

Lemma cluster_size_pos : (0 < cluster_size)%nat.
Proof. pose proof (g_spc _ _ G). unfold cluster_size, SECTOR_SIZE. lia. Qed.

Lemma file_bytes_cons d c l : file_bytes d (c :: l) = cluster_bytes d c ++ file_bytes d l.
Proof. unfold file_bytes, file_sectors, lbas. by rewrite bind_cons, fmap_app, concat_app. Qed.

Lemma length_padded n bytes : length (padded n bytes) = n.
Proof. revert bytes. induction n as [|n IH]; intros; simpl; [done|]. by rewrite IH. Qed.
Lemma padded_sectors n bytes : Forall (λ s, length s = SECTOR_SIZE) (padded n bytes).
Proof. revert bytes. induction n as [|n IH]; intros; constructor; [apply length_padded_sector|apply IH]. Qed.

(** Whole sectors in range have their length. *)
Lemma cluster_sectors_length d c :
  on_volume d → in_range v c → Forall (λ s, length s = SECTOR_SIZE) (disk d <$> seqZ (lba c) spc).
Proof.
  intros (Hok & Hcnt & _) Hc. apply Forall_fmap, Forall_forall. intros k Hk. apply elem_of_seqZ in Hk. simpl.
  pose proof (span_range c k Hc Hk). pose proof (table_end _ _ G). pose proof (g_reserved _ _ G).
  pose proof (g_fat_size _ _ G). apply (law_length d); [done|lia].
Qed.

Lemma length_cluster_bytes d c : on_volume d → in_range v c → length (cluster_bytes d c) = cluster_size.
Proof.
  intros Hv Hc. unfold cluster_bytes. rewrite (length_concat_chunks _ SECTOR_SIZE).
  - by rewrite length_fmap, length_seqZ.
  - by apply cluster_sectors_length.
Qed.

Lemma length_file_bytes d l :
  on_volume d → Forall (in_range v) l → length (file_bytes d l) = (length l * cluster_size)%nat.
Proof.
  intros Hv HF. induction HF as [|c l Hc HF IH]; [done|].
  rewrite file_bytes_cons, length_app, length_cluster_bytes, IH by done. done.
Qed.

(** Clusters outside a change keep their bytes. *)
Lemma touched_cluster d d' c l :
  on_volume d → in_range v c → c ∉ l → touched l d d' → cluster_bytes d' c = cluster_bytes d c.
Proof.
  intros (Hok & Hcnt & _) Hc Hn (O & C & R & Hd). unfold cluster_bytes. f_equal. apply list_fmap_ext.
  intros i k Hk. apply list_elem_of_lookup_2, elem_of_seqZ in Hk. pose proof (span_range c k Hc Hk).
  pose proof (table_end _ _ G). pose proof (g_reserved _ _ G). pose proof (g_fat_size _ _ G).
  apply Hd; [lia|]. intros c' Hin Hs. pose proof (span_disjoint c c' k Hk Hs). subst c'. done.
Qed.

Lemma touched_file d d' l l' :
  on_volume d → Forall (in_range v) l' → (∀ c, c ∈ l' → c ∉ l) → touched l d d' → file_bytes d' l' = file_bytes d l'.
Proof.
  intros Hv HF. induction HF as [|c l' Hc HF IH]; intros Hn Ht; [done|].
  rewrite !file_bytes_cons, (touched_cluster d d' c l), IH; try done.
  - intros x Hx. apply Hn. by right.
  - apply Hn. left.
Qed.

Lemma write_chain_loop_spec d c l rem budget :
  on_volume d → chain (fat d) c l → rem ≠ [] → (length rem ≤ length l * cluster_size)%nat → (length l ≤ budget)%nat →
  wp (write_chain_loop v budget c rem) d (λ d' r,
    touched l d d' ∧
    match r with
    | Ok _ => take (length rem) (file_bytes d' l) = rem
    | Err e => (∃ b, e = EBlock b) ∧ faulty d
    end).
Proof.
  revert d c rem budget. induction l as [|x l IH]; intros d c rem budget Hv Hc Hrem Hlen Hb.
  { by destruct (chain_head _ _ _ _ Hc). }
  destruct (chain_head _ _ _ _ Hc) as [l' [= <- <-]]. destruct budget as [|budget]; [simpl in Hb; lia|].
  pose proof (chain_range _ _ _ _ Hc) as HF. pose proof (proj1 (proj1 (Forall_cons _ _ _) HF)) as Hx.
  pose proof (proj2 (proj1 (Forall_cons _ _ _) HF)) as HFl.
  pose proof (proj1 (proj1 (NoDup_cons _ _) (chain_NoDup _ _ _ _ Hc))) as Hfresh. pose proof (g_spc _ _ G) as Hspc.
  destruct rem as [|b rem0] eqn:Erem; [done|]. rewrite <-Erem in *. cbn [write_chain_loop]. rewrite Erem at 1.
  apply wp_bind, wp_result. rewrite (cluster_lba_ok x Hx).
  apply wp_bind. eapply wp_mono; [apply (write_sectors_spec d x); [done..|lia|lia]|].
  intros d1 r1 [Ht1 Hr1]. assert (Hin : Forall (in_range v) [x]) by by apply Forall_singleton.
  assert (Hsub : [x] ⊆ x :: l) by (intros y Hy; apply list_elem_of_singleton in Hy as ->; left).
  destruct r1 as [rem'|e]; [|split; [by eapply touched_mono|done]].
  destruct Hr1 as (Hrem' & Hsec & _). fold cluster_size in Hrem'. rewrite Z2Nat.id in Hsec by lia.
  destruct (touched_table [x] d d1 Hv Hin Ht1) as [Hv1 Hfat1].
  assert (Hc1 : chain (fat d1) x (x :: l)) by exact (touched_chain [x] d d1 _ _ Hv Hin Ht1 Hc).
  assert (Hcb : take (length rem) (cluster_bytes d1 x) = take cluster_size rem)
    by (unfold cluster_bytes; rewrite Hsec; apply concat_padded).
  destruct rem' as [|b' rem0'] eqn:Erem'.
  - apply wp_ret. split; [by eapply touched_mono|]. symmetry in Hrem'.
    assert (Hsmall : (length rem ≤ cluster_size)%nat).
    { apply (f_equal length) in Hrem'. rewrite length_drop in Hrem'. simpl in Hrem'. lia. }
    rewrite file_bytes_cons, take_app_le by (rewrite length_cluster_bytes; done).
    rewrite Hcb. by apply take_ge.
  - rewrite <-Erem' in *. assert (Hbig : length rem = (cluster_size + length rem')%nat).
    { rewrite Hrem', length_drop. assert (length rem' ≠ 0%nat) by by rewrite Erem'.
      rewrite Hrem', length_drop in *. lia. }
    destruct l as [|y l2].
    { exfalso. simpl in Hlen. assert (length rem' ≠ 0%nat) by by rewrite Erem'. lia. }
    assert (Hlink : link_of v (fat d1) x = Ok (Next y)) by apply (chain_lookup v _ _ _ 0 x Hc1 eq_refl).
    assert (Hcy : chain (fat d1) y (y :: l2)).
    { inversion Hc1 as [|? c' ? E Hl]; subst. rewrite Hlink in E. injection E as <-. done. }
    apply wp_bind. eapply wp_mono; [by apply (next_cluster_spec ok disk v d0 G Hok0)|]. intros d2 r2 [Hs2 Hr2].
    rewrite Hlink in Hr2. destruct Hr2 as [->|[[b'' ->] Hrel]].
    2: { split; [|split; [by eauto|by left]]. apply (touched_trans _ d d1 d2); [by apply (touched_mono [x])|by apply same_touched]. }
    assert (Ht2 : touched [] d1 d2) by by apply same_touched.
    destruct (touched_table [] d1 d2 Hv1 (Forall_nil_2 _) Ht2) as [Hv2 Hfat2].
    eapply wp_mono; [apply (IH d2 y rem' budget); [done| |by rewrite Erem'|simpl in *; lia|simpl in *; lia]|].
    { exact (touched_chain [] d1 d2 _ _ Hv1 (Forall_nil_2 _) Ht2 Hcy). }
    intros d3 r3 [Ht3 Hr3]. assert (Hsub' : y :: l2 ⊆ x :: y :: l2) by (intros z Hz; by right).
    assert (Hall : touched (x :: y :: l2) d d3).
    { apply (touched_trans _ d d1 d3); [by apply (touched_mono [x])|].
      apply (touched_trans _ d1 d2 d3); [by apply same_touched|by apply (touched_mono (y :: l2))]. }
    split; [done|]. destruct r3 as [[]|e].
    + rewrite file_bytes_cons. rewrite (touched_cluster d2 d3 x (y :: l2)) by done.
      rewrite (touched_cluster d1 d2 x []) by (done || apply not_elem_of_nil).
      rewrite Hbig. rewrite <-(length_cluster_bytes d1 x) by done. rewrite take_app_add, Hr3, Hrem'.
      rewrite Hbig in Hcb. rewrite (take_ge (cluster_bytes d1 x)) in Hcb by (rewrite length_cluster_bytes by done; lia).
      rewrite Hcb. apply take_drop.
    + destruct Hr3 as [Hb3 Hf]. split; [done|]. eapply touched_faulty; [|exact Hf].
      apply (touched_trans (x :: y :: l2) d d1 d2); [by apply (touched_mono [x])|by apply same_touched].
Qed.

Lemma write_file_data_spec d l data :
  on_volume d → (data ≠ [] → chain (fat d) (default 0 (head l)) l) → (length data ≤ length l * cluster_size)%nat →
  wp (write_file_data_chain v (default 0 (head l)) data) d (λ d' r,
    touched l d d' ∧
    match r with
    | Ok _ => take (length data) (file_bytes d' l) = data
    | Err e => (∃ b, e = EBlock b) ∧ faulty d
    end).
Proof.
  intros Hv Hc Hlen. destruct data as [|b data'] eqn:E.
  { apply wp_ret. split; [by apply touched_refl, Hv|done]. }
  rewrite <-E in *. unfold write_file_data_chain. rewrite E at 1.
  specialize (Hc ltac:(by rewrite E)). destruct (chain_head _ _ _ _ Hc) as [l' Hl'].
  assert (2 ≤ default 0 (head l)).
  { pose proof (chain_range _ _ _ _ Hc) as HF. rewrite Hl' in HF at 1. apply Forall_cons in HF as [[? _] _]. done. }
  rewrite (proj2 (Z.ltb_ge _ _)) by done.
  eapply wp_mono; [apply (write_chain_loop_spec d _ l); [done..|by rewrite E|done|by eapply chain_length]|]. done.
Qed.

(** ** Reading *)
Lemma lbas_lookup l k c i :
  l !! k = Some c → (i < Z.to_nat spc)%nat → lbas l !! (k * Z.to_nat spc + i)%nat = Some (lba c + Z.of_nat i).
Proof.
  revert k. induction l as [|x l IH]; intros [|k] Hk Hi; try done; unfold lbas; rewrite bind_cons; simpl in *.
  - injection Hk as ->. rewrite lookup_app_l by (rewrite length_seqZ; lia). apply lookup_seqZ. lia.
  - rewrite lookup_app_r by (rewrite length_seqZ; lia). rewrite length_seqZ. rewrite <-(IH k Hk Hi). unfold lbas. f_equal. lia.
Qed.

Lemma file_sectors_length d l :
  on_volume d → Forall (in_range v) l → Forall (λ s, length s = SECTOR_SIZE) (file_sectors d l).
Proof.
  intros Hv HF. unfold file_sectors, lbas. induction HF as [|c l Hc HF IH]; [constructor|].
  rewrite bind_cons, fmap_app. apply Forall_app. split; [by apply cluster_sectors_length|done].
Qed.

Lemma splice_extend (part a out : list Z) :
  (length a + length part ≤ length out)%nat → splice (length a) part (splice 0 a out) = splice 0 (a ++ part) out.
Proof.
  intros Hl. unfold splice. simpl. rewrite take_app_length, <-app_assoc. f_equal. f_equal.
  rewrite drop_app_ge by lia. rewrite drop_drop, length_app. f_equal. lia.
Qed.

Section read.
Context (db : D) (Hvb : on_volume db) (l : list Z) (HF : Forall (in_range v) l) (offset target : nat) (out : list Z).
Context (Htgt : (target ≤ length out)%nat).
Local Abbreviation F := (file_bytes db l).

(** The reader after [m] sectors of the file. *)
Definition reader_at (m : nat) (r : Reader) : Prop :=
  Fat.position r = (m * SECTOR_SIZE)%nat ∧ copied r = Nat.min target (m * SECTOR_SIZE - offset) ∧
  buffer r = splice 0 (slice offset (copied r) F) out ∧ length (rsector r) = SECTOR_SIZE ∧
  (m * SECTOR_SIZE ≤ length F)%nat.

Lemma reader_turn m r k :
  reader_at m r → copied r ≠ target → lbas l !! m = Some k →
  reader_at (S m)
    (if (offset <? Fat.position r + SECTOR_SIZE)%nat then
       let start := (offset - Fat.position r)%nat in
       let count := Nat.min (SECTOR_SIZE - start) (target - copied r) in
       mkReader (Fat.position r + SECTOR_SIZE) (copied r + count)
         (splice (copied r) (slice start count (disk db k)) (buffer r)) (disk db k)
     else mkReader (Fat.position r + SECTOR_SIZE) (copied r) (buffer r) (rsector r)).
Proof.
  intros (Hp & Hc & Hb & Hs & Hm) Hne Hk.
  assert (Hsec : file_sectors db l !! m = Some (disk db k)) by (unfold file_sectors; by rewrite list_lookup_fmap, Hk).
  pose proof (file_sectors_length db l Hvb HF) as HFs. pose proof (Forall_lookup_1 _ _ _ _ HFs Hsec) as Hlk. simpl in Hlk.
  assert (HlF : length F = (length (file_sectors db l) * SECTOR_SIZE)%nat) by by apply length_concat_chunks.
  apply lookup_lt_Some in Hsec as Hlt. assert (S m * SECTOR_SIZE ≤ length F)%nat by (rewrite HlF; nia).
  change (S m * SECTOR_SIZE)%nat with (SECTOR_SIZE + m * SECTOR_SIZE)%nat in *.
  destruct (Nat.ltb_spec offset (Fat.position r + SECTOR_SIZE)) as [Hin|Hout].
  - cbv zeta. set (start := (offset - Fat.position r)%nat). set (count := Nat.min _ _).
    assert (Hcnt : (copied r + count = Nat.min target (S m * SECTOR_SIZE - offset))%nat).
    { subst count start. change (S m * SECTOR_SIZE)%nat with (SECTOR_SIZE + m * SECTOR_SIZE)%nat. lia. }
    assert (Hstart : (m * SECTOR_SIZE + start = offset + copied r)%nat) by (subst start; lia).
    assert (Hfit : (start + count ≤ SECTOR_SIZE)%nat) by (subst count start; lia).
    assert (Hlen : length (slice offset (copied r) F) = copied r).
    { destruct (decide (copied r = 0%nat)) as [->|]; [by unfold slice; rewrite take_0|]. apply length_slice. lia. }
    unfold reader_at. cbn [Fat.position copied buffer rsector].
    change (S m * SECTOR_SIZE)%nat with (SECTOR_SIZE + m * SECTOR_SIZE)%nat in *.
    split_and!; [lia|done| |done|done].
    rewrite Hb. rewrite <-Hlen at 1. rewrite splice_extend.
    + f_equal. rewrite <-(slice_concat (file_sectors db l) SECTOR_SIZE m (disk db k) start count) by done.
      rewrite Hstart. apply slice_app_l.
    + rewrite Hlen, length_slice by lia. lia.
  - unfold reader_at. cbn [Fat.position copied buffer rsector].
    change (S m * SECTOR_SIZE)%nat with (SECTOR_SIZE + m * SECTOR_SIZE)%nat. split_and!; [lia|lia|done|done|done].
Qed.

Lemma read_sectors_spec d n k m r :
  same ok disk db d → (∀ i, (i < n)%nat → lbas l !! (m + i)%nat = Some (k + Z.of_nat i)) → reader_at m r →
  wp (read_cluster_sectors n k offset target r) d (λ d' res,
    same ok disk db d' ∧
    match res with
    | Ok r' => ∃ m', reader_at m' r' ∧ (copied r' = target ∨ m' = (m + n)%nat)
    | Err e => (∃ b, e = EBlock b) ∧ ¬ Reliable ok
    end).
Proof.
  revert d k m r. induction n as [|n IH]; intros d k m r Hs Hk Hr.
  { apply wp_ret. split; [done|]. exists m. split; [done|right; lia]. }
  cbn [read_cluster_sectors]. destruct (Nat.eqb_spec (copied r) target) as [Heq|Hne].
  { apply wp_ret. split; [done|]. exists m. split; [done|by left]. }
  pose proof (Hk 0%nat ltac:(lia)) as Hk0. rewrite Nat.add_0_r, Z.add_0_r in Hk0.
  pose proof (reader_turn m r k Hr Hne Hk0) as Hr'.
  assert (Hnext : ∀ i, (i < n)%nat → lbas l !! (S m + i)%nat = Some (k + 1 + Z.of_nat i)).
  { intros i Hi. replace (S m + i)%nat with (m + S i)%nat by lia. rewrite Hk by lia. f_equal. lia. }
  assert (Hrange : 0 ≤ k < sector_count db).
  { unfold lbas in Hk0. apply list_elem_of_lookup_2, list_elem_of_bind in Hk0 as (c & Hin & Hc).
    apply elem_of_seqZ in Hin. rewrite Forall_forall in HF.
    pose proof (span_range c k (HF c Hc) Hin). destruct Hvb as (_ & -> & _).
    pose proof (table_end _ _ G). pose proof (g_reserved _ _ G). pose proof (g_fat_size _ _ G). lia. }
  destruct (offset <? _)%nat.
  - apply wp_bind, (wp_read_in ok disk); [by eapply same_ok|by rewrite (same_count _ _ _ _ Hs)|apply Hr| |].
    + intros d1 e Hs1 Hrel. split; [by eapply same_trans|]. eauto.
    + intros d1 Hs1. rewrite (same_disk _ _ _ _ _ Hs Hrange).
      eapply wp_mono; [apply (IH d1 (k + 1) (S m)); [by eapply same_trans|done|exact Hr']|].
      intros d2 [r2|e] [Hs2 Hr2]; split; try done. destruct Hr2 as (m' & ? & [?|?]); exists m'; (split; [done|]); [by left|right; lia].
  - eapply wp_mono; [apply (IH d (k + 1) (S m)); [done|done|exact Hr']|].
    intros d2 [r2|e] [Hs2 Hr2]; split; try done. destruct Hr2 as (m' & ? & [?|?]); exists m'; (split; [done|]); [by left|right; lia].
Qed.

Lemma read_chain_spec d first k cluster g budget r :
  chain (fat db) first l → same ok disk db d → l !! k = Some cluster → guard_at l k g →
  (length l ≤ k + budget)%nat → reader_at (k * Z.to_nat spc) r → (copied r < target)%nat →
  wp (read_chain_loop v budget cluster g offset target r) d (λ d' res,
    same ok disk db d' ∧
    match res with
    | Ok (n, b) => n = target ∧ b = splice 0 (slice offset target F) out
    | Err e => (e = TruncatedFile ∧ (length F < offset + target)%nat) ∨ (∃ b, e = EBlock b) ∧ ¬ Reliable ok
    end).
Proof.
  intros Hc. revert d k cluster g r. induction budget as [|budget IH]; intros d k cluster g r Hs Hk Hg Hb Hr Hlt.
  { apply lookup_lt_Some in Hk. lia. }
  cbn [read_chain_loop]. rewrite (proj2 (Nat.ltb_lt _ _)) by done.
  assert (Hcl : in_range v cluster) by by eapply (Forall_lookup_1 _ _ _ _ HF).
  apply wp_bind, wp_result. rewrite (cluster_lba_ok cluster Hcl).
  apply wp_bind. eapply wp_mono; [apply (read_sectors_spec d _ _ (k * Z.to_nat spc)); [done| |done]|].
  { intros i Hi. by apply lbas_lookup. }
  intros d1 [r1|e] [Hs1 Hr1]; [|by split; [done|right]].
  destruct Hr1 as (m' & Hr1 & Hm'). destruct (Nat.eqb_spec (copied r1) target) as [Heq|Hne].
  { apply wp_ret. split; [done|]. split; [done|]. destruct Hr1 as (_ & _ & -> & _). by rewrite Heq. }
  destruct Hm' as [?| ->]; [done|].
  assert (Hv1 : on_volume d1).
  { destruct (touched_table [] db d1 Hvb (Forall_nil_2 _) (same_touched _ _ _ Hs1)) as [? _]. done. }
  assert (Hfat1 : ∀ x, in_range v x → fat d1 x = fat db x).
  { apply (touched_table [] db d1 Hvb (Forall_nil_2 _) (same_touched _ _ _ Hs1)). }
  apply wp_bind. eapply wp_mono; [by apply (next_cluster_spec ok disk v d0 G Hok0)|]. intros d2 r2 [Hs2 Hr2].
  rewrite (link_ext v (fat d1) (fat db)), (chain_lookup v _ _ _ k cluster Hc Hk) in Hr2 by done.
  assert (Hs2' : same ok disk db d2) by by eapply same_trans.
  destruct Hr2 as [->|[[b ->] Hrel]]; [|split; [done|right; eauto]].
  destruct (l !! S k) as [y|] eqn:Hy.
  - assert (Hv2 : on_volume d2).
    { destruct (touched_table [] db d2 Hvb (Forall_nil_2 _) (same_touched _ _ _ Hs2')) as [? _]. done. }
    assert (Hfat2 : ∀ x, in_range v x → fat d2 x = fat db x).
    { apply (touched_table [] db d2 Hvb (Forall_nil_2 _) (same_touched _ _ _ Hs2')). }
    apply wp_bind. eapply wp_mono.
    { apply (advance_spec ok disk v d0 G Hok0 (fat db) d2 first l k g); try done. by eapply lookup_lt_Some. }
    intros d3 [g'|e] [Hs3 Hg3]; [|by split; [by eapply same_trans|right]].
    apply (IH d3 (S k)); [by eapply same_trans|done|done|lia| |].
    + by replace (S k * Z.to_nat spc)%nat with (k * Z.to_nat spc + Z.to_nat spc)%nat by lia.
    + destruct Hr1 as (_ & Hcp & _). lia.
  - apply wp_err. split; [done|]. left. split; [done|]. destruct Hr1 as (_ & Hcp & _).
    apply lookup_lt_Some in Hk as Hk'. apply lookup_ge_None in Hy.
    rewrite (length_file_bytes db l Hvb HF). unfold cluster_size. nia.
Qed.
End read.

(** A range of a file whose clusters form the chain [l]. *)
Definition read_target (entry : DirectoryEntry) (offset : nat) (out : list Z) : nat :=
  Nat.min (Z.to_nat (size entry) - offset) (length out).

Lemma read_file_at_spec d entry l offset out :
  on_volume d → chain (fat d) (first_cluster entry) l →
  wp (read_file_at v entry offset out) d (λ d' r,
    same ok disk d d' ∧
    match r with
    | Ok (n, b) => n = read_target entry offset out ∧
                   b = splice 0 (slice offset (read_target entry offset out) (file_bytes d l)) out
    | Err e => (e = TruncatedFile ∧ (length (file_bytes d l) < offset + read_target entry offset out)%nat) ∨
               (∃ b, e = EBlock b) ∧ ¬ Reliable ok
    end).
Proof.
  intros Hv Hc. unfold read_file_at. fold (read_target entry offset out).
  set (target := read_target entry offset out). cbv zeta. destruct (Nat.eqb_spec target 0) as [E|Hne].
  - apply wp_ret. split; [by apply io_same_refl, Hv|]. rewrite E. split; [done|]. unfold slice, splice. by rewrite take_0.
  - destruct (chain_head _ _ _ _ Hc) as [l' Hl'].
    assert (Htgt : (target ≤ length out)%nat) by (subst target; unfold read_target; lia).
    apply (read_chain_spec d Hv l (chain_range _ _ _ _ Hc) offset target out Htgt d (first_cluster entry) 0).
    + done.
    + by apply io_same_refl, Hv.
    + by rewrite Hl'.
    + right. rewrite Hl'. done.
    + simpl. by eapply chain_length.
    + unfold reader_at. cbn [Fat.position copied buffer rsector]. split_and!; try done; try lia.
    + simpl. lia.
Qed.
End data.
End FatData.
