(* ===== verification/Fat32Volume.v ===== *)
(** * FAT32 volumes: what mounting, allocation and file data promise

    The theorems of the table, the chains and the file data put together: what a mounted
    volume satisfies, that validation accepts exactly the finite chains, that allocation
    is all or nothing and freeing exact, that a file written to a new chain is read back
    while every other file keeps its bytes, and that the scan of the table counts exactly
    the free clusters. *)
From S2P Require Import Prelude Block DeviceIo Fat32 Fat32Table Fat32Chains Fat32Data.
Import Block Io Fat FatTable FatChains FatData.

Module FatVolume.

(** ** Mounting *)
(** The table has an entry for every cluster, and no cluster number is a mark. *)
Definition covered (v : Volume) : Prop :=
  cluster_count v + 2 ≤ fat_size v * 128 ∧ cluster_count v + 2 ≤ FAT32_BAD_CLUSTER.

(** The arithmetic of [mount]. *)
(** A well-formed volume on a device of [n] sectors: what mounting checks. *)
Record well_formed (v : Volume) (n : Z) : Prop := {
  wf_spc : 1 ≤ sectors_per_cluster v ≤ 128;
  wf_power : is_power_of_two (sectors_per_cluster v) = true;
  wf_fats : fat_count v = 1 ∨ fat_count v = 2;
  wf_fat_size : 0 < fat_size v;
  wf_reserved : 0 < first_fat_sector v;
  wf_data : first_data_sector v = first_fat_sector v + fat_count v * fat_size v;
  wf_fit : first_data_sector v + cluster_count v * sectors_per_cluster v ≤ total_sectors v <
           first_data_sector v + (cluster_count v + 1) * sectors_per_cluster v;
  wf_total : total_sectors v ≤ n;
  wf_info : ∀ s, fs_info_sector v = Some s ∨ backup_fs_info_sector v = Some s → 0 < s < first_fat_sector v;
  wf_count : FAT32_MIN_CLUSTERS ≤ cluster_count v;
  wf_root : in_range v (root_cluster v)
}.

Lemma mounted_geometry total spc fats fat_sz root reserved info backup n :
  1 ≤ spc ≤ 128 → is_power_of_two spc = true → fats = 1 ∨ fats = 2 → 0 < fat_sz → 0 < reserved → total ≤ n → 0 < total ≤ u32_max →
  reserved + fats * fat_sz ≤ total →
  (∀ k, info = Some k ∨ backup = Some k → 0 < k < reserved) →
  let clusters := (total - (reserved + fats * fat_sz)) / spc in
  let v := mkVolume total spc fats fat_sz root reserved (reserved + fats * fat_sz) info backup clusters in
  FAT32_MIN_CLUSTERS ≤ clusters → 2 ≤ root < saturating_add32 clusters 2 →
  well_formed v n ∧ (geometry v n ↔ covered v).
Proof.
  intros Hspc Hpow Hf Hsz Hr Htn Ht Hend Hinfo clusters v Hmin Hroot.
  assert (Hc : clusters * spc ≤ total - (reserved + fats * fat_sz) < (clusters + 1) * spc).
  { subst clusters. pose proof (Z.mul_div_le (total - (reserved + fats * fat_sz)) spc).
    pose proof (Z.mul_succ_div_gt (total - (reserved + fats * fat_sz)) spc). lia. }
  assert (0 < clusters) by (unfold FAT32_MIN_CLUSTERS in Hmin; lia).
  split.
  - constructor; simpl; try done; [lia|]. unfold in_range, saturating_add32 in *. simpl. lia.
  - split; [by intros []|]. intros [Hcov Hlim]. simpl in *. constructor; simpl; try done; nia.
Qed.

Section mounting.
Context {D : Type} `{BlockDevice D} (ok : D → Prop) (disk : D → Z → list Z) `{!Lawful ok disk}.

Lemma info_sector_spec k reserved d :
  ok d → 0 ≤ k → wp (valid_fs_info_sector k reserved) d (λ d' r,
    same ok disk d d' ∧ match r with Ok (Some s) => 0 < s < reserved | Ok None => True | Err _ => False end).
Proof.
  intros Hok Hk. unfold valid_fs_info_sector. wp_case E; [apply wp_ret; split; [by apply io_same_refl|done]|].
  apply orb_false_iff in E as [E1 E2]. reflect_bools. apply wp_bind, wp_try.
  apply (wp_read ok disk); [done..| |].
  - intros d' e Hs. by apply wp_ret.
  - intros d' Hs _. apply wp_ret. split; [done|]. destruct (fs_info_signatures_valid _); [lia|done].
Qed.

Lemma read_u16_bound s off : Forall is_byte s → 0 ≤ read_u16 s off ≤ 65535.
Proof.
  intros Hs. unfold read_u16. pose proof (byte_at_bound s off Hs). pose proof (byte_at_bound s (off + 1) Hs).
  cbn [from_le_bytes]. lia.
Qed.

(** C14. [mount] reads the device without changing it, and whatever bytes the boot sector
    holds, a volume it accepts is well formed: clusters of a power of two from 1 to 128
    sectors, one or two copies of the table after the reserved area, a data area after them
    inside the device that holds exactly the clusters that fit, hint sectors inside the
    reserved area, at least 65,525 clusters with the root among them. Two conditions are
    left for the table to be a function of the clusters, that it covers them and that no
    cluster number is one of the marks, and mounting checks neither. *)
Theorem mount_well_formed d :
  ok d → Forall is_byte (disk d 0) →
  wp mount d (λ d' r,
    same ok disk d d' ∧
    match r with
    | Ok v => well_formed v (sector_count d) ∧ (geometry v (sector_count d) ↔ covered v)
    | Err _ => True
    end).
Proof.
  intros Hok Hb. unfold mount. apply wp_bind, (wp_read ok disk); [done..| |].
  { intros d' e Hs. by split. }
  intros d1 Hs1 _. set (s := disk d 0) in *. cbn zeta.
  destruct (_ || _); [apply wp_err; by split|]. wp_case E; [apply wp_err; by split|].
  rewrite !orb_false_iff, !negb_false_iff in E. reflect_bools. destruct_and!. reflect_bools.
  apply wp_bind, wp_count.  rewrite (same_count _ _ _ _ Hs1). wp_case E; [apply wp_err; by split|]. reflect_bools.
  pose proof (read_u16_bound s 14 Hb). pose proof (read_u32_bytes s 36 Hb). pose proof (read_u32_bytes s 44 Hb).
  pose proof (read_u32_bytes s 32 Hb). pose proof (read_u16_bound s 48 Hb). pose proof (read_u16_bound s 50 Hb).
  pose proof (byte_at_bound s 13 Hb). pose proof (byte_at_bound s 16 Hb).
  apply wp_ok_or; [by split|]. intros fats Em. apply wp_ok_or; [by split|]. intros first Ea.
  apply wp_ok_or; [by split|]. intros data Es.
  unfold checked_mul32, checked_add32, checked_sub32 in Em, Ea, Es.
  destruct (_ <=? _) eqn:E1 in Em; [|done]. destruct (_ <=? _) eqn:E2 in Ea; [|done].
  destruct (_ <=? _) eqn:E3 in Es; [|done]. simplify_eq. reflect_bools.
  wp_case E4; [apply wp_err; by split|]. reflect_bools. apply wp_bind.
  eapply wp_mono; [apply (info_sector_spec (read_u16 s 48) (read_u16 s 14) d1); [by eapply same_ok|lia]|].
  intros d2 [info|e] [Hs2 Hi]; [|done]. apply wp_bind.
  eapply (wp_mono _ _ (λ d' r, same ok disk d2 d' ∧
    match r with Ok (Some k) => 0 < k < read_u16 s 14 | Ok None => True | Err _ => False end)).
  { destruct (read_u16 s 50 =? 0); [apply wp_ret; split; [by eapply io_same_refl, same_ok|done]|].
    destruct (checked_add32 (read_u16 s 50) 1) eqn:Eb; [|apply wp_ret; split; [by eapply io_same_refl, same_ok|done]].
    unfold checked_add32 in Eb. case_match; simplify_eq. apply info_sector_spec; [by eapply same_ok|lia]. }
  intros d3 [info'|e] [Hs3 Hi']; [|done]. apply wp_ret.
  split; [eapply same_trans; [exact Hs1|by eapply same_trans]|]. cbn [total_sectors].
  apply mounted_geometry; try done; try (cbn [total_sectors]; lia).
  intros k [->| ->]; [exact Hi|exact Hi'].
Qed.
End mounting.

(** ** Chains and files *)
(** A range within the first bytes of a longer sequence. *)
Lemma slice_prefix (data long : list Z) off m :
  take (length data) long = data → (m ≤ length data - off)%nat → slice off m long = slice off m data.
Proof.
  intros Hd Hm. rewrite <-Hd. unfold slice. by rewrite skipn_firstn_comm, take_take, Nat.min_l by lia.
Qed.

Section volume.
Context {D : Type} `{BlockDevice D} (ok : D → Prop) (disk : D → Z → list Z) `{!Lawful ok disk} `{!Reliable ok}.
Context (v : Volume) (d0 : D) (G : geometry v (sector_count d0)) (Hok0 : ok d0).
Local Abbreviation on_volume := (FatTable.on_volume ok disk v d0).
Local Abbreviation fat := (FatTable.fat disk v).
Local Abbreviation evolve := (FatTable.evolve ok disk v).
Local Abbreviation chain := (FatChains.chain v).
Local Abbreviation file_bytes := (FatData.file_bytes disk v).
Local Abbreviation cluster_size := (FatData.cluster_size v).

(** C13. The walk with the tortoise-and-hare guard decides whether a chain is finite: on a
    device that does not fault [validate_cluster_chain] ends with success exactly when
    the entries from the start lead to an end mark through allocated clusters; a cycle,
    a free or bad entry, and a link outside the volume are all errors. The table and the
    data stay as they are. *)
Theorem validate_exact d start :
  on_volume d →
  wp (validate_cluster_chain v start) d (λ d' r,
    evolve d d' (fat d) ∧ (r = Ok () ↔ ∃ l, chain (fat d) start l)).
Proof.
  intros Hv. eapply wp_mono; [by eapply (validate_spec ok disk v d0)|]. intros d' [[]|e] [He Hr]; (split; [done|]).
  - by split.
  - split; [done|]. intros Hl. by destruct (Hr _ Hl).
Qed.

(** Freeing a file's chain on a writable device succeeds, clears the entries of exactly
    its clusters in the table, and leaves every other entry, the data and the rest of
    the reserved area alone. *)
Lemma free_exact d start l :
  on_volume d → is_read_only d = false → chain (fat d) start l →
  wp (free_cluster_chain v start) d (λ d' r, r = Ok () ∧ evolve d d' (zeroed (fat d) l)).
Proof.
  intros Hv Hro Hl. eapply wp_mono; [by eapply (free_chain_spec ok disk v d0)|].
  intros d' [[]|e]; [done|]. intros [[?|?] _]; [done|congruence].
Qed.

(** [allocate_file_chain] is all or nothing: it returns the head of a chain of exactly
    the clusters asked for, all of them free before, and changes no other entry; or it
    fails with [NoSpace], only when fewer clusters are free than asked for, and the
    table is as it was, the clusters taken on the way given back. *)
Lemma allocate_all_or_nothing d n :
  on_volume d → is_read_only d = false →
  wp (allocate_file_chain v n) d (λ d' r,
    match r with
    | Ok x => ∃ l, length l = n ∧ fresh v (fat d) l ∧ x = default 0 (head l) ∧
                   evolve d d' (linked (fat d) l) ∧ (n ≠ 0%nat → chain (fat d') x l)
    | Err e => e = NoSpace ∧ evolve d d' (fat d) ∧ not_enough v (fat d) n
    end).
Proof.
  intros Hv Hro. eapply wp_mono; [by eapply (allocate_file_spec ok disk v d0)|].
  intros d' [x|e].
  - intros (l & Hn & Hf & He & ->). exists l. split_and!; try done. intros Hne.
    destruct l as [|c l]; [done|]. destruct Hf as (HF & HN & _). simpl.
    eapply chain_ext; [|by eapply linked_chain]. intros k Hk. symmetry. by apply He.
  - intros [[[?|?] _]|?]; [done|congruence|done].
Qed.

(** What the volume holds besides the new clusters is kept. *)
Definition others_kept (d d' : D) : Prop :=
  ∀ c l, chain (fat d) c l → chain (fat d') c l ∧ file_bytes d' l = file_bytes d l.

Lemma chain_nonzero f c l x : chain f c l → x ∈ l → f x ≠ 0.
Proof.
  pose proof (g_limit _ _ G) as Hlim.
  assert (Hlink : ∀ y r, link_of v f y = Ok r → f y ≠ 0).
  { intros y r. unfold link_of, in_range, FAT32_END_MIN. repeat case_decide; intros ?; simplify_eq; lia. }
  induction 1 as [c Hc|c c' l Hc Hl IH]; rewrite ?list_elem_of_singleton, ?elem_of_cons.
  - intros ->. by eapply Hlink.
  - intros [->|?]; [by eapply Hlink|by apply IH].
Qed.

Lemma fresh_disjoint f l c k : fresh v f l → chain f c k → ∀ x, x ∈ k → x ∉ l.
Proof.
  intros (_ & _ & HZ) Hc x Hx Hin. rewrite Forall_forall in HZ. by apply (chain_nonzero f c k x Hc Hx), HZ.
Qed.

Lemma link_at f g c : f c = g c → link_of v g c = link_of v f c.
Proof. unfold link_of. by intros ->. Qed.
Lemma chain_local f g c l : (∀ x, x ∈ l → f x = g x) → chain f c l → chain g c l.
Proof.
  intros He Hc. induction Hc as [c Hc|c c' l Hc Hl IH].
  - apply chain_end. rewrite <-Hc. apply link_at, He. left.
  - apply chain_next with c'; [rewrite <-Hc; apply link_at, He; left|]. apply IH. intros x Hx. apply He. by right.
Qed.

Lemma frame_file d d' l :
  on_volume d → Forall (in_range v) l → FatTable.frame ok disk v d d' → file_bytes d' l = file_bytes d l.
Proof.
  intros (_ & Hc & _) HF (_ & _ & _ & Hd & _). unfold FatData.file_bytes, file_sectors. f_equal.
  apply list_fmap_ext. intros i k Hk. apply list_elem_of_lookup_2 in Hk. unfold lbas in Hk.
  apply list_elem_of_bind in Hk as (c & Hk & Hin). rewrite Forall_forall in HF. apply elem_of_seqZ in Hk.
  apply Hd. rewrite Hc. apply (span_range v d0 G c); [by apply HF|exact Hk].
Qed.

(** Linking a fresh chain keeps the other files, and so does writing into it. *)
Lemma linked_others d d1 l :
  on_volume d → fresh v (fat d) l → evolve d d1 (linked (fat d) l) → others_kept d d1.
Proof.
  intros Hv Hf (F & _ & He) c k Hc. split.
  - apply (chain_ext v (linked (fat d) l)); [intros x Hx; by rewrite He|].
    apply (chain_local (fat d)); [|done]. intros x Hx. symmetry. apply linked_outside. by eapply fresh_disjoint.
  - apply frame_file; [done|by eapply chain_range|done].
Qed.

Lemma touched_others d d1 d2 l :
  on_volume d1 → fresh v (fat d) l → others_kept d d1 → touched ok disk v l d1 d2 → others_kept d d2.
Proof.
  intros Hv1 Hf Ho Ht c k Hc. destruct (Ho c k Hc) as [Hc1 Hb]. destruct Hf as (HF & HN & HZ). split.
  - by eapply touched_chain.
  - rewrite <-Hb. apply (touched_file ok disk v d0 G d1 d2 l k); [done|by eapply chain_range| |done].
    by eapply fresh_disjoint.
Qed.

Lemma others_same d d1 d2 :
  on_volume d1 → others_kept d d1 → same ok disk d1 d2 → others_kept d d2.
Proof.
  intros Hv Ho Hs c k Hc. destruct (Ho c k Hc) as [Hc1 Hb]. split.
  - eapply (touched_chain ok disk v d0 G []); [done|constructor|by apply same_touched|done].
  - rewrite <-Hb. apply (touched_file ok disk v d0 G d1 d2 [] k); [done|by eapply chain_range|set_solver|].
    by apply same_touched.
Qed.

(** Reading any range of the bytes a chain starts with. *)
Lemma read_back d name attr first l data offset out :
  on_volume d → (data ≠ [] → chain (fat d) first l) → take (length data) (file_bytes d l) = data →
  (length data ≤ length l * cluster_size)%nat →
  wp (read_file_at v (mkDirectoryEntry name first (Z.of_nat (length data)) attr) offset out) d (λ d' r,
    same ok disk d d' ∧ let m := Nat.min (length data - offset) (length out) in r = Ok (m, splice 0 (slice offset m data) out)).
Proof.
  intros Hv Hc Hw Hlen. cbv zeta.
  destruct (decide (Nat.min (length data - offset) (length out) = 0)%nat) as [E|E].
  { unfold read_file_at. cbn [size]. rewrite Nat2Z.id, E. apply wp_ret. split; [by apply io_same_refl, Hv|done]. }
  assert (Hd : data ≠ []) by (intros ->; done). specialize (Hc Hd).
  eapply wp_mono; [by apply (read_file_at_spec ok disk v d0 G Hok0 d _ l)|].
  intros d' r [Hs Hr]. split; [done|]. unfold read_target in Hr. cbn [size] in Hr. rewrite Nat2Z.id in Hr.
  destruct r as [[m b]|e].
  - destruct Hr as [-> ->]. do 3 f_equal. apply slice_prefix; [done|lia].
  - destruct Hr as [[-> Hr]|[_ ?]]; [|done]. exfalso.
    rewrite (length_file_bytes ok disk v d0 G d l Hv (chain_range _ _ _ _ Hc)) in Hr. lia.
Qed.

(** C11. The life of a new file, on a writable device that never faults and a volume whose
    table covers its clusters, which mounting does not check: allocating a chain long enough
    for the bytes, writing them and reading any range of them back gives the bytes
    written. Then only a volume with fewer free clusters than the chain needs prevents it.
    Every file that was on the volume keeps its chain and its bytes, on success and on
    failure. *)
Theorem file_round_trip d n data name attr offset out :
  on_volume d → is_read_only d = false → (length data ≤ n * cluster_size)%nat →
  wp (let! first := allocate_file_chain v n in
      let! _ := write_file_data_chain v first data in
      read_file_at v (mkDirectoryEntry name first (Z.of_nat (length data)) attr) offset out) d (λ d' r,
    others_kept d d' ∧
    match r with
    | Ok (m, b) => m = Nat.min (length data - offset) (length out) ∧ b = splice 0 (slice offset m data) out
    | Err e => e = NoSpace ∧ not_enough v (fat d) n
    end).
Proof.
  intros Hv Hro Hlen. apply wp_bind. eapply wp_mono; [by apply allocate_all_or_nothing|].
  intros d1 [first|e]; [intros (l & Hn & Hf & -> & He & Hc)|].
  2: { intros (-> & He & Hn). split; [|done]. intros c k Hk. split.
       - eapply chain_ext; [|done]. intros x Hx. symmetry. by apply He.
       - apply frame_file; [done|by eapply chain_range|apply He]. }
  pose proof (evolve_on ok disk v d0 _ _ _ Hv He) as Hv1.
  assert (Hne : data ≠ [] → n ≠ 0%nat) by (destruct data, n; simpl in *; lia || done).
  apply wp_bind. eapply wp_mono.
  { apply (write_file_data_spec ok disk v d0 G Hok0 d1 l data Hv1); [auto|by rewrite Hn]. }
  intros d2 [[]|e] [Ht Hw].
  2: { destruct Hw as (_ & [?|Hr]); [done|]. destruct He as ((_ & _ & Hro' & _) & _). congruence. }
  pose proof (touched_others d d1 d2 l Hv1 Hf (linked_others d d1 l Hv Hf He) Ht) as Ho.
  destruct (touched_table ok disk v d0 G l d1 d2 Hv1 (proj1 Hf) Ht) as [Hv2 _].
  eapply wp_mono.
  { apply (read_back d2 name attr (default 0 (head l)) l data offset out); [done| |done|by rewrite Hn].
    intros Hd. apply (touched_chain ok disk v d0 G l d1); [done|apply Hf|exact Ht|]. by apply Hc, Hne. }
  intros d3 r [Hs ->]. split; [by eapply others_same|done].
Qed.

(** ** Free space *)
(** The free clusters from [lo] below [hi]. *)
Definition free_in (f : Z → Z) (lo hi : Z) : list Z := filter (λ c, f c = 0) (seqZ lo (hi - lo)).

Lemma free_in_app f lo mid hi : lo ≤ mid ≤ hi → free_in f lo hi = free_in f lo mid ++ free_in f mid hi.
Proof.
  intros Hm. unfold free_in. rewrite <-filter_app. f_equal.
  replace (hi - lo) with ((mid - lo) + (hi - mid)) by lia. rewrite seqZ_app by lia. f_equal. f_equal. lia.
Qed.

Lemma free_in_length f lo hi : lo ≤ hi → 0 ≤ Z.of_nat (length (free_in f lo hi)) ≤ hi - lo.
Proof.
  intros Hh. unfold free_in. pose proof (length_filter (λ c, f c = 0) (seqZ lo (hi - lo))) as Hf.
  rewrite length_seqZ in Hf. lia.
Qed.

Lemma free_in_cons f lo hi :
  lo < hi → free_in f lo hi = (if decide (f lo = 0) then [lo] else []) ++ free_in f (lo + 1) hi.
Proof.
  intros Hl. unfold free_in. rewrite seqZ_cons by lia. rewrite filter_cons.
  replace (Z.pred (hi - lo)) with (hi - (lo + 1)) by lia. unfold Z.succ. by case_decide.
Qed.

Lemma entry_at d q i :
  0 ≤ q → (i < 128)%nat →
  fat d (q * 128 + Z.of_nat i) =
    Z.land (read_u32 (disk d (first_fat_sector v + q)) (i * 4)) FAT32_ENTRY_MASK.
Proof.
  intros Hq Hi. unfold FatTable.fat. f_equal. f_equal.
  - unfold entry_sector. f_equal. f_equal. Z.to_euclidean_division_equations; lia.
  - rewrite entry_offset_spec by lia. rewrite Z.add_comm, Z.mod_add, Z.mod_small by lia. lia.
Qed.

Lemma count_free_spec d q hi n i free :
  0 ≤ q → (i + n = 128)%nat → 0 ≤ free → free + Z.of_nat n ≤ u32_max → q * 128 + Z.of_nat i ≤ hi →
  count_free n (disk d (first_fat_sector v + q)) i (q * 128 + Z.of_nat i) hi free =
    free + Z.of_nat (length (free_in (fat d) (q * 128 + Z.of_nat i) (Z.min hi (q * 128 + 128)))).
Proof.
  intros Hq. revert i free. induction n as [|n IH]; intros i free Hn Hf Hb Hhi; cbn [count_free].
  - replace (Z.min hi (q * 128 + 128)) with (q * 128 + Z.of_nat i) by lia.
    unfold free_in. rewrite Z.sub_diag. simpl. lia.
  - destruct (Z.leb_spec hi (q * 128 + Z.of_nat i)).
    { replace (Z.min hi (q * 128 + 128)) with (q * 128 + Z.of_nat i) by lia.
      unfold free_in. rewrite Z.sub_diag. simpl. lia. }
    rewrite <-entry_at by lia. rewrite free_in_cons, length_app by lia.
    replace (q * 128 + Z.of_nat i + 1) with (q * 128 + Z.of_nat (S i)) by lia.
    destruct (Z.eqb_spec (fat d (q * 128 + Z.of_nat i)) 0) as [E|E].
    + rewrite decide_True by done. unfold saturating_add32. rewrite IH by lia. simpl. lia.
    + rewrite decide_False by done. rewrite IH by lia. simpl. lia.
Qed.

Lemma space_loop_spec db d fuel cluster free sector :
  on_volume db → same ok disk db d → length sector = SECTOR_SIZE →
  let hi := cluster_count v + 2 in
  2 ≤ cluster → cluster = 2 ∨ cluster mod 128 = 0 → hi ≤ cluster + Z.of_nat fuel →
  free = Z.of_nat (length (free_in (fat db) 2 (Z.min cluster hi))) →
  wp (space_loop v fuel cluster hi free sector) d (λ d' r,
    same ok disk db d' ∧ r = Ok (Z.of_nat (length (free_in (fat db) 2 hi)))).
Proof.
  intros Hv. revert d cluster free sector.
  induction fuel as [|fuel IH]; intros d cluster free sector Hs Hlen hi H2 Hal Hfuel Hfree; cbn [space_loop].
  { apply wp_ret. split; [done|]. subst free. by rewrite Z.min_r by lia. }
  destruct (Z.ltb_spec cluster hi) as [Hlt|Hge].
  2: { apply wp_ret. split; [done|]. subst free. by rewrite Z.min_r by lia. }
  rewrite Z.min_l in Hfree by lia.
  assert (Hr : in_range v cluster) by (unfold in_range; lia). pose proof (g_limit _ _ G) as Hlim. unfold FAT32_BAD_CLUSTER in Hlim.
  apply wp_bind, wp_result. rewrite (cluster_lba_ok ok disk v d0 G Hok0) by done.
  apply wp_bind, wp_result. rewrite (fat_sector_of_spec v _ G) by (done || by eapply (count_u64 ok disk)).
  pose proof (entry_sector_bound v _ G cluster Hr) as Hsec. pose proof (table_end _ _ G). pose proof (g_reserved _ _ G).
  pose proof Hv as (_ & Hcnt & _). pose proof Hs as (Hok & Hc' & _).
  apply wp_bind, (wp_read_in ok disk); [done|rewrite Hc', Hcnt; lia|done|by intros|].
  intros d1 Hs1. rewrite (same_disk ok disk db d) by (done || lia). set (q := cluster / 128).
  assert (Hq : entry_sector v cluster = first_fat_sector v + q).
  { unfold entry_sector, q. f_equal. Z.to_euclidean_division_equations; lia. }
  pose proof (Z.mod_pos_bound cluster 128 ltac:(lia)) as Hm. pose proof (Z.div_mod cluster 128 ltac:(lia)) as Hdm.
  fold q in Hdm. assert (0 ≤ q) by (apply Z.div_pos; lia).
  rewrite Hq. replace (first_fat_sector v + q - first_fat_sector v) with q by lia.
  change (Z.of_nat ENTRIES_PER_SECTOR) with 128.
  assert (Hu : as_u32 (q * 128) = q * 128) by (unfold as_u32; apply Z.mod_small; unfold u32_max; lia). rewrite Hu. cbv zeta.
  replace (Z.to_nat (cluster - q * 128)) with (Z.to_nat (cluster mod 128)) by lia.
  assert (free + 128 ≤ u32_max).
  { pose proof (free_in_length (fat db) 2 cluster ltac:(lia)). unfold u32_max. lia. }
  rewrite (count_free_spec db q hi) by (unfold ENTRIES_PER_SECTOR; lia).
  assert (Hnext : saturating_add32 (q * 128) 128 = q * 128 + 128) by (unfold saturating_add32, u32_max; lia).
  rewrite Hnext. rewrite (proj2 (Z.leb_gt _ _)) by lia.
  apply IH; [by eapply same_trans| |lia|right|lia|].
  - apply (law_length db); [by apply Hv|]. lia.
  - by replace (q * 128 + 128) with ((q + 1) * 128) by lia; apply Z.mod_mul.
  - replace (q * 128 + Z.of_nat (Z.to_nat (cluster mod 128))) with cluster by lia.
    rewrite Z.min_comm. rewrite (free_in_app _ 2 cluster (Z.min (q * 128 + 128) hi)), length_app by lia. lia.
Qed.

Lemma read_info_same d :
  on_volume d → wp (read_fs_info v) d (λ d' r, same ok disk d d' ∧ ∃ info, r = Ok info).
Proof.
  intros Hv. unfold read_fs_info. destruct (fs_info_sector v) as [k|] eqn:E; [|by apply wp_ret; split; [apply io_same_refl, Hv|eauto]].
  pose proof Hv as (Hok & Hc & _).
  apply wp_bind, (wp_read_in ok disk); [done|rewrite Hc; apply (info_range v d0 G); by left|done|by intros|].
  intros d' Hs. destruct (negb _); apply wp_ret; eauto.
Qed.

(** [space_info] is exact: the scan of the table, sector by sector, counts every cluster
    of the volume whose entry is free, once, whatever part of the last sector is used;
    it reports the FSInfo count and whether it matches; it writes nothing. *)
Theorem space_info_exact d :
  on_volume d →
  wp (space_info v) d (λ d' r, same ok disk d d' ∧ ∃ info, r = Ok info ∧
    total_clusters info = cluster_count v ∧
    free_clusters info = Z.of_nat (length (filter (λ c, fat d c = 0) (seqZ 2 (cluster_count v)))) ∧
    fs_info_matches info = bool_decide (fs_info_free_count info ∈ [None; Some (free_clusters info)])).
Proof.
  intros Hv. unfold space_info. pose proof (g_limit _ _ G) as Hlim. pose proof (g_count _ _ G).
  unfold FAT32_BAD_CLUSTER in Hlim. apply wp_ok_or; unfold checked_add32;
    rewrite (proj2 (Z.leb_le _ _)) by (unfold u32_max; lia); [done|]. intros hi [= <-].
  apply wp_bind. eapply wp_mono.
  { apply (space_loop_spec d d); [done|by apply io_same_refl, Hv|done|done|by left|lia|].
    by rewrite Z.min_l by lia. }
  intros d1 r [Hs ->]. apply wp_bind. eapply wp_mono.
  { apply read_info_same. destruct (touched_table ok disk v d0 G [] d d1 Hv) as [? _]; [constructor|by apply same_touched|done]. }
  intros d2 r [Hs2 [info ->]]. apply wp_ret. split; [by eapply same_trans|]. eexists. split; [done|]. cbn.
  split; [done|]. split; [unfold free_in; by rewrite Z.add_simpl_r|].
  set (n := Z.of_nat _). destruct (info ≫= _) as [c|]; [|by rewrite bool_decide_true by set_solver].
  symmetry. destruct (Z.eqb_spec c n) as [->|Hn]; [rewrite bool_decide_true by set_solver; done|].
  rewrite bool_decide_false; [done|]. rewrite !elem_of_cons, elem_of_nil. naive_solver.
Qed.
End volume.
End FatVolume.

(** ** Examples *)
Module FatDemo.
Import FatVolume.

Definition all_bytes (s : list Z) : bool := forallb (λ b, (0 <=? b) && (b <=? u8_max)) s.
Lemma all_bytes_spec s : all_bytes s = true → Forall is_byte s.
Proof.
  unfold all_bytes. rewrite forallb_forall. intros Hs. apply Forall_forall. intros b Hb.
  apply list_elem_of_In, Hs, andb_true_iff in Hb as [H1 H2]. reflect_bools. by split.
Qed.

(** A RAM disk of whole sectors of bytes. *)
Definition plain (d : RamDisk) : bool :=
  forallb (λ s, (length s =? SECTOR_SIZE)%nat && all_bytes s) (sectors d).

Lemma plain_sector d k : plain d = true → Forall is_byte (ram_disk d k).
Proof.
  unfold plain, ram_disk. intros Hp. destruct (sectors d !! Z.to_nat k) as [s|] eqn:E; [|constructor]. simpl.
  rewrite forallb_forall in Hp. apply list_elem_of_lookup_2, list_elem_of_In, Hp in E.
  apply andb_true_iff in E as [_ E]. by apply all_bytes_spec.
Qed.

Lemma plain_ok d : plain d = true → Z.of_nat (length (sectors d)) ≤ u64_max → ram_ok d.
Proof.
  intros Hp Hl. split; [done|]. apply Forall_forall. intros s Hs. unfold plain in Hp. rewrite forallb_forall in Hp.
  apply list_elem_of_In, Hp, andb_true_iff in Hs as [Hs _]. by apply Nat.eqb_eq.
Qed.

(** Four clusters of one sector, two tables of one sector, hints in sector 1; the first
    cluster is in use. *)
Definition small : Volume := mkVolume 8 1 2 1 2 2 4 (Some 1) None 4.
Definition table_sector : list Z := write_u32 (write_u32 (write_u32 zeros 0 0x0ffffff8) 4 0x0fffffff) 8 0x0ffffff8.
Definition info_sector : list Z :=
  write_u32 (write_u32 (write_u32 (write_u32 (write_u32 zeros 0 FSINFO_LEAD_SIGNATURE) 484 FSINFO_STRUCT_SIGNATURE)
    488 3) 492 3) 508 FSINFO_TRAIL_SIGNATURE.
Definition small_disk : RamDisk :=
  mkRamDisk [zeros; info_sector; table_sector; table_sector; zeros; zeros; zeros; zeros] false.

Lemma small_geometry : geometry small (sector_count small_disk).
Proof.
  constructor; simpl; unfold FAT32_BAD_CLUSTER; try lia. intros s [E|E]; simplify_eq. lia.
Qed.
Lemma small_ok : ram_ok small_disk.
Proof. apply plain_ok; [by vm_compute|]. simpl. unfold u64_max. lia. Qed.
Lemma small_on_volume : on_volume ram_ok ram_disk small small_disk small_disk.
Proof. split_and!; [apply small_ok|done|]. intros k _. apply plain_sector. by vm_compute. Qed.

(** A volume of 65,542 clusters with two tables of 513 sectors. *)
Definition boot_sector : list Z :=
  splice 510 [0x55; 0xaa] (write_u16 (write_u16 (write_u32 (write_u32 (write_u32
    (splice 13 [1; 32; 0; 2] (write_u16 zeros 11 512)) 32 66600) 36 513) 44 2) 48 1) 50 6).
Definition volume_disk : RamDisk := mkRamDisk (boot_sector :: info_sector :: replicate (Z.to_nat 66598) zeros) false.

Lemma volume_ok : ram_ok volume_disk.
Proof.
  split.
  - unfold volume_disk. cbn [sectors length]. rewrite length_replicate. unfold u64_max. lia.
  - unfold volume_disk. cbn [sectors].
    apply Forall_cons; split; [by vm_compute|]. apply Forall_cons; split; [by vm_compute|]. by apply Forall_replicate.
Qed.

Definition volume : Volume := mkVolume 66600 1 2 513 2 32 1058 (Some 1) None 65542.

Lemma volume_bytes : Forall is_byte (ram_disk volume_disk 0).
Proof. apply (all_bytes_spec boot_sector). by vm_compute. Qed.
Lemma volume_mounts : snd (mount volume_disk) = Ok volume.
Proof. vm_compute. reflexivity. Qed.

Lemma mount_well_formed_witness :
  snd (mount volume_disk) = Ok volume ∧ geometry volume (sector_count volume_disk).
Proof.
  split; [exact volume_mounts|].
  destruct (wp_snd _ _ _ _ (mount_well_formed ram_ok ram_disk volume_disk volume_ok volume_bytes) volume_mounts)
    as (d' & _ & _ & Hg).
  apply Hg. split; vm_compute; discriminate.
Defined.

Lemma validate_exact_witness :
  on_volume ram_ok ram_disk small small_disk small_disk ∧
  wp (validate_cluster_chain small 2) small_disk (λ d' r,
    evolve ram_ok ram_disk small small_disk d' (fat ram_disk small small_disk) ∧
    (r = Ok () ↔ ∃ l, chain small (fat ram_disk small small_disk) 2 l)).
Proof.
  split; [apply small_on_volume|]. apply (validate_exact ram_ok ram_disk small small_disk small_geometry small_ok).
  apply small_on_volume.
Defined.

Lemma file_round_trip_witness :
  wp (let! first := allocate_file_chain small 2 in
      let! _ := write_file_data_chain small first (replicate 600 7) in
      read_file_at small (mkDirectoryEntry [] first 600 0) 510 [0; 0; 0; 0]) small_disk (λ d' r,
    r = Ok (4%nat, [7; 7; 7; 7])).
Proof.
  eapply wp_mono.
  - apply (file_round_trip ram_ok ram_disk small small_disk small_geometry small_ok small_disk 2 (replicate 600 7) [] 0 510 [0; 0; 0; 0]).
    + apply small_on_volume.
    + reflexivity.
    + apply Nat.leb_le. vm_compute. reflexivity.
  - intros d' [[m b]|e] [_ Hr]; [by destruct Hr as [-> ->]|]. destruct Hr as [_ (l & Hl & Hin)]. exfalso.
    assert (Hsub : [3; 4; 5] ⊆ l).
    { intros x Hx. apply Hin; revert x Hx; apply Forall_forall; repeat constructor; vm_compute; done. }
    assert (Hnd : NoDup [3; 4; 5]) by (repeat constructor; set_solver).
    pose proof (submseteq_length _ _ (NoDup_submseteq _ _ Hnd Hsub)) as Hlen. simpl in Hlen. lia.
Defined.

Lemma space_info_exact_witness :
  wp (space_info small) small_disk (λ d' r, ∃ info, r = Ok info ∧
    free_clusters info = 3 ∧ fs_info_matches info = true) ∧
  wp (space_info small) small_disk (λ d' r, ∃ info, r = Ok info ∧ total_clusters info = 4).
Proof.
  split; [vm_compute; eauto|]. eapply wp_mono.
  - apply (space_info_exact ram_ok ram_disk small small_disk small_geometry small_ok small_disk). apply small_on_volume.
  - intros d' r (_ & info & -> & Ht & _). exists info. split; [done|]. exact Ht.
Defined.
End FatDemo.
