(* ===== verification/Fat32Names.v ===== *)
(** * FAT file names (kernel/src/fat32.rs)

    Short 8.3 names, long names in UTF-16 records with their checksum, and the handling
    of paths. A [&str] is the list of its Unicode scalar values, [utf8] its bytes. The
    normalisation of [unicode_normalization] is a parameter [nfc]. *)
From S2P Require Import Prelude Block DeviceIo Fat32 Fat32Table.
Import Block Io.

Module Names.

Definition MAX_LONG_NAME : nat := 255.
Definition LFN_CHARS_PER_ENTRY : nat := 13.
Definition MAX_LFN_ENTRIES : nat := 20.
Definition DIRECTORY_ENTRY_SIZE : nat := 32.
Definition LONG_NAME_ATTRIBUTE : Z := 0x0f.

(** ** Text *)
Definition utf8_char (c : Z) : list Z :=
  if c <=? 0x7f then [c]
  else if c <=? 0x7ff then [0xc0 + c / 64; 0x80 + c mod 64]
  else if c <=? 0xffff then [0xe0 + c / 4096; 0x80 + (c / 64) mod 64; 0x80 + c mod 64]
  else [0xf0 + c / 262144; 0x80 + (c / 4096) mod 64; 0x80 + (c / 64) mod 64; 0x80 + c mod 64].
Definition utf8 (s : list Z) : list Z := s ≫= utf8_char.

(** The code points of an ASCII literal. *)
Definition lit (s : string) : list Z := bytes s.

Definition SLASH : Z := 47.
Definition DOT : Z := 46.

Fixpoint split (sep : Z) (s : list Z) : list (list Z) :=
  match s with
  | [] => [[]]
  | c :: s =>
      if c =? sep then [] :: split sep s
      else match split sep s with
           | part :: parts => (c :: part) :: parts
           | [] => [[c]]
           end
  end.

Fixpoint trim_start (sep : Z) (s : list Z) : list Z :=
  match s with c :: s' => if c =? sep then trim_start sep s' else s | [] => [] end.
Definition trim_matches (sep : Z) (s : list Z) : list Z :=
  reverse (trim_start sep (reverse (trim_start sep s))).

(** [bytes.eq_ignore_ascii_case] *)
Definition to_ascii_lowercase (b : Z) : Z := if (65 <=? b) && (b <=? 90) then b + 32 else b.
Definition eq_ignore_ascii_case (a b : list Z) : bool :=
  bool_decide (to_ascii_lowercase <$> a = to_ascii_lowercase <$> b).

(** [name.find('.')], splitting there. *)
Fixpoint split_at_first (sep : Z) (s : list Z) : option (list Z * list Z) :=
  match s with
  | [] => None
  | c :: s => if c =? sep then Some ([], s) else (λ p, (c :: p.1, p.2)) <$> split_at_first sep s
  end.
Definition rsplit_once (sep : Z) (s : list Z) : option (list Z * list Z) :=
  (λ p, (reverse p.2, reverse p.1)) <$> split_at_first sep (reverse s).

(** ** Short names *)
Definition to_fat_char (byte : Z) : option Z :=
  if (97 <=? byte) && (byte <=? 122) then Some (byte - 32)
  else if ((65 <=? byte) && (byte <=? 90)) || ((48 <=? byte) && (byte <=? 57)) || (byte =? 95) || (byte =? 45)
  then Some byte else None.

Definition pad (n : nat) (s : list Z) : list Z := s ++ replicate (n - length s) 32.

Definition encode_short_name (name : list Z) : option (list Z) :=
  let name := utf8 name in
  if bool_decide (name = []) || (12 <? length name)%nat then None
  else
  let '(base, ext) := default (name, []) (split_at_first DOT name) in
  if bool_decide (base = []) || (8 <? length base)%nat || (3 <? length ext)%nat then None
  else if bool_decide (DOT ∈ base) || bool_decide (DOT ∈ ext) then None
  else
    base ← mapM to_fat_char base;
    ext ← mapM to_fat_char ext;
    Some (pad 8 base ++ pad 3 ext).

(** ** Long names *)
(** [(((checksum & 1) << 7) | (checksum >> 1)).wrapping_add(byte)] *)
Definition checksum_step (checksum byte : Z) : Z :=
  (Z.lor (Z.shiftl (Z.land checksum 1) 7) (Z.shiftr checksum 1) + byte) mod 256.
Definition long_name_checksum (short : list Z) : Z := foldl checksum_step 0 short.

Section nfc.
Context (nfc : list Z → list Z).

(** The scratch buffer holds the bytes of the normalised name; [from_utf8] reads them
    back as the same text. *)
Definition normalize_name (name : list Z) : option (list Z) :=
  let out := nfc name in
  let written := length (utf8 out) in
  if (MAX_LONG_NAME <? written)%nat || (written =? 0)%nat then None else Some out.

(** The UTF-16 code units of one character; [None] refuses it. *)
Definition encode_char (c : Z) : option (list Z) :=
  if (c =? SLASH) || (c =? 92) || (c <? 32) then None
  else if c <=? 0xffff then (if (0xd800 <=? c) && (c <=? 0xdfff) then None else Some [c])
  else if c <=? 0x10ffff then
    let value := c - 0x10000 in
    Some [0xd800 + value / 1024; 0xdc00 + value mod 1024]
  else None.

Fixpoint encode_units (s units : list Z) : option (list Z) :=
  match s with
  | [] => Some units
  | c :: s =>
      us ← encode_char c;
      if (MAX_LONG_NAME <? length units + length us)%nat then None else encode_units s (units ++ us)
  end.

(** Byte offset of the [i]-th code unit in a record. *)
Definition unit_offset (i : nat) : nat :=
  if (i <? 5)%nat then (1 + i * 2)%nat
  else if (i <? 11)%nat then (14 + (i - 5) * 2)%nat
  else (28 + (i - 11) * 2)%nat.

Fixpoint put_units (i : nat) (us record : list Z) : list Z :=
  match us with
  | [] => record
  | u :: us => put_units (S i) us (splice (unit_offset i) (to_le_bytes 2 u) record)
  end.

(** The record of one ordinal, for the code units of that record. *)
Definition long_record (ordinal count : nat) (checksum : Z) (part : list Z) : list Z :=
  let record := replicate DIRECTORY_ENTRY_SIZE 0xff in
  let record := splice 0 [Z.lor (Z.of_nat ordinal) (if (ordinal =? count)%nat then 0x40 else 0)] record in
  let record := splice 11 [LONG_NAME_ATTRIBUTE; 0; checksum] record in
  let record := splice 26 [0; 0] record in
  let record := put_units 0 part record in
  if (length part <? LFN_CHARS_PER_ENTRY)%nat
  then splice (unit_offset (length part)) (to_le_bytes 2 0) record else record.

(** The records in disk order, the highest ordinal first. *)
Definition encode_long_name (name short : list Z) : option (list (list Z)) :=
  name ← normalize_name name;
  units ← encode_units name [];
  let count := Nat.div (length units + LFN_CHARS_PER_ENTRY - 1) LFN_CHARS_PER_ENTRY in
  if (MAX_LFN_ENTRIES <? count)%nat then None
  else
    let checksum := long_name_checksum short in
    let record ordinal := long_record ordinal count checksum
      (slice ((ordinal - 1) * LFN_CHARS_PER_ENTRY) LFN_CHARS_PER_ENTRY units) in
    Some (reverse (record <$> seq 1 count)).
End nfc.

(** The code units of one record up to its terminator: [None] for an invalid record;
    otherwise the units so far and whether the name ended. *)
Fixpoint record_units (n i : nat) (record units : list Z) : option (list Z * bool) :=
  match n with
  | O => Some (units, false)
  | S n =>
      let word := from_le_bytes [byte_at record (unit_offset i); byte_at record (unit_offset i + 1)] in
      if word =? 0 then Some (units, true)
      else if (word =? 0xffff) || (length units =? MAX_LONG_NAME)%nat then None
      else record_units n (S i) record (units ++ [word])
  end.

Fixpoint collect_units (ordinals : list nat) (records : list (list Z)) (checksum : Z) (units : list Z)
    : option (list Z) :=
  match ordinals with
  | [] => Some units
  | ordinal :: ordinals =>
      let record := default [] (records !! (ordinal - 1)%nat) in
      if negb (Z.land (byte_at record 0) 0x1f =? Z.of_nat ordinal) ||
         negb (byte_at record 11 =? LONG_NAME_ATTRIBUTE) || negb (byte_at record 13 =? checksum)
      then None
      else
        r ← record_units LFN_CHARS_PER_ENTRY 0 record units;
        let '(units, terminated) := r in
        if (terminated : bool) then Some units else collect_units ordinals records checksum units
  end.

(** Code units to bytes, bounded by the output buffer. *)
Fixpoint decode_units (units : list Z) (capacity : nat) (out : list Z) : option (list Z) :=
  match units with
  | [] => Some out
  | unit :: rest =>
      let emit scalar rest :=
        let bytes := utf8_char scalar in
        if (capacity <? length out + length bytes)%nat then None
        else decode_units rest capacity (out ++ bytes) in
      if (0xd800 <=? unit) && (unit <=? 0xdbff) then
        match rest with
        | next :: rest' =>
            if (0xdc00 <=? next) && (next <=? 0xdfff)
            then let scalar := 0x10000 + (unit - 0xd800) * 1024 + (next - 0xdc00) in
                 let bytes := utf8_char scalar in
                 if (capacity <? length out + length bytes)%nat then None
                 else decode_units rest' capacity (out ++ bytes)
            else None
        | [] => None
        end
      else if (0xdc00 <=? unit) && (unit <=? 0xdfff) then None
      else emit unit rest
  end.

(** [records] are in logical order; the result is the bytes of the name. The scan past
    the last unit of the array reads zeros, so a lone high surrogate at the end is refused
    either way. *)
Definition decode_long_name (records : list (list Z)) (count : nat) (checksum : Z) (capacity : nat)
    : option (list Z) :=
  if (count =? 0)%nat || (MAX_LFN_ENTRIES <? count)%nat || (capacity =? 0)%nat then None
  else
    units ← collect_units (seq 1 count) records checksum [];
    decode_units units capacity [].

(** ** Paths *)
(** [path_is_descendant] compares the bytes of the two paths. *)
Definition path_is_descendant (parent child : list Z) : bool :=
  let parent := utf8 (trim_matches SLASH parent) in
  let child := utf8 (trim_matches SLASH child) in
  negb (bool_decide (parent = [])) && (length parent <? length child)%nat &&
  starts_with parent child && (byte_at child (length parent) =? SLASH).

(** The components of a path: empty ones and [.] are skipped, [..] and more than [limit]
    are refused. *)
Fixpoint components (parts : list (list Z)) (limit : nat) (acc : list (list Z)) : option (list (list Z)) :=
  match parts with
  | [] => Some acc
  | part :: parts =>
      if bool_decide (part = []) || bool_decide (part = [DOT]) then components parts limit acc
      else if bool_decide (part = [DOT; DOT]) || (length acc =? limit)%nat then None
      else components parts limit (acc ++ [part])
  end.

End Names.

(** * Long file names survive their directory records

    [encode_long_name] cuts the UTF-16 form of a name into records of thirteen units;
    [decode_long_name] puts them together again. *)
Import Block Io Fat FatTable Names.

Module LongNames.

(** ** Units of a record *)
Definition unit_at (record : list Z) (i : nat) : Z :=
  from_le_bytes [byte_at record (unit_offset i); byte_at record (unit_offset i + 1)].

Lemma unit_offset_bound i : (i < 13)%nat → (1 ≤ unit_offset i ∧ unit_offset i + 2 ≤ 32)%nat.
Proof. unfold unit_offset. intros. repeat case_match; reflect_bools; lia. Qed.

Lemma unit_offset_apart i j :
  (i < 13)%nat → (j < 13)%nat → i ≠ j →
  (unit_offset i + 2 ≤ unit_offset j ∨ unit_offset j + 2 ≤ unit_offset i)%nat.
Proof.
  unfold unit_offset. intros Hi Hj Hne.
  destruct (Nat.ltb_spec i 5), (Nat.ltb_spec j 5), (Nat.ltb_spec i 11), (Nat.ltb_spec j 11); lia.
Qed.

(** The bytes that hold no unit. *)
Definition FIXED : list nat := [0; 11; 12; 13; 26; 27]%nat.

Lemma unit_offset_fixed i k :
  (i < 13)%nat → k ∈ FIXED → (k < unit_offset i ∨ unit_offset i + 2 ≤ k)%nat.
Proof.
  intros Hi Hk. unfold FIXED in Hk. rewrite !elem_of_cons, elem_of_nil in Hk. unfold unit_offset.
  destruct (Nat.ltb_spec i 5), (Nat.ltb_spec i 11); lia.
Qed.

Definition is_unit (u : Z) : Prop := 0 ≤ u < 65536.

Lemma unit_splice_eq record i u :
  length record = 32%nat → (i < 13)%nat → is_unit u →
  unit_at (splice (unit_offset i) (to_le_bytes 2 u) record) i = u.
Proof.
  intros Hl Hi Hu. pose proof (unit_offset_bound i Hi). unfold unit_at.
  rewrite !byte_at_splice by (rewrite length_to_le_bytes; lia). rewrite length_to_le_bytes, !decide_True by lia.
  rewrite Nat.sub_diag. replace (unit_offset i + 1 - unit_offset i)%nat with 1%nat by lia.
  transitivity (from_le_bytes (to_le_bytes 2 u)); [done|]. rewrite from_to_le_bytes by (unfold is_unit in Hu; lia).
  apply Z.mod_small. unfold is_unit in Hu. simpl. lia.
Qed.

Lemma unit_splice_ne record i j u :
  length record = 32%nat → (i < 13)%nat → (j < 13)%nat → i ≠ j →
  unit_at (splice (unit_offset i) (to_le_bytes 2 u) record) j = unit_at record j.
Proof.
  intros Hl Hi Hj Hne. pose proof (unit_offset_bound i Hi). pose proof (unit_offset_apart i j Hi Hj Hne).
  unfold unit_at. rewrite !byte_at_splice by (rewrite length_to_le_bytes; lia).
  by rewrite length_to_le_bytes, !decide_False by lia.
Qed.

Lemma fixed_splice record i u k :
  length record = 32%nat → (i < 13)%nat → k ∈ FIXED →
  byte_at (splice (unit_offset i) (to_le_bytes 2 u) record) k = byte_at record k.
Proof.
  intros Hl Hi Hk. pose proof (unit_offset_bound i Hi). pose proof (unit_offset_fixed i k Hi Hk).
  rewrite byte_at_splice by (rewrite length_to_le_bytes; lia). by rewrite length_to_le_bytes, decide_False by lia.
Qed.

Lemma put_units_spec us i record :
  length record = 32%nat → (i + length us ≤ 13)%nat → Forall is_unit us →
  length (put_units i us record) = 32%nat ∧
  (∀ j u, us !! j = Some u → unit_at (put_units i us record) (i + j) = u) ∧
  (∀ j, (j < i)%nat → unit_at (put_units i us record) j = unit_at record j) ∧
  (∀ k, k ∈ FIXED → byte_at (put_units i us record) k = byte_at record k).
Proof.
  revert i record. induction us as [|u us IH]; intros i record Hl Hi HF; [by split_and!|].
  apply Forall_cons in HF as [Hu HF]. simpl in *.
  set (r := splice (unit_offset i) (to_le_bytes 2 u) record).
  assert (Hr : length r = 32%nat).
  { pose proof (unit_offset_bound i ltac:(lia)). subst r. rewrite length_splice; [done|]. rewrite length_to_le_bytes. lia. }
  destruct (IH (S i) r Hr ltac:(lia) HF) as (Hl' & Hu' & Hlow & Hfix). split_and!; [done|..].
  - intros [|j] w Hj; simpl in Hj.
    + simplify_eq. rewrite Nat.add_0_r, Hlow by lia. by apply unit_splice_eq; [..|lia|].
    + rewrite Nat.add_succ_r. by apply (Hu' j).
  - intros j Hj. rewrite Hlow by lia. apply unit_splice_ne; [done|lia..].
  - intros k Hk. rewrite Hfix by done. by apply fixed_splice; [..|lia|].
Qed.

Lemma ordinal_mask (o : nat) (m : Z) :
  (1 ≤ o ≤ 20)%nat → m ∈ [0x40; 0] → Z.land (Z.lor (Z.of_nat o) m) 0x1f = Z.of_nat o.
Proof.
  intros Ho Hm. assert (Hin : o ∈ seq 1 20) by (apply elem_of_seq; lia). clear Ho; revert o Hin.
  rewrite <-Forall_forall. revert m Hm. rewrite <-Forall_forall. repeat constructor.
Qed.

(** A record as the directory scan of any FAT driver sees it. *)
Record long_entry (checksum : Z) (record : list Z) : Prop := {
  le_length : length record = DIRECTORY_ENTRY_SIZE;
  le_attribute : byte_at record 11 = LONG_NAME_ATTRIBUTE;
  le_type : byte_at record 12 = 0;
  le_checksum : byte_at record 13 = checksum;
  le_cluster : byte_at record 26 = 0 ∧ byte_at record 27 = 0
}.

(** The units of a record and its terminator leave the fixed bytes alone. *)
Lemma filled_spec part base :
  length base = 32%nat → (length part ≤ 13)%nat → Forall is_unit part →
  let r := put_units 0 part base in
  let record := if (length part <? LFN_CHARS_PER_ENTRY)%nat
                then splice (unit_offset (length part)) (to_le_bytes 2 0) r else r in
  length record = 32%nat ∧ (∀ k, k ∈ FIXED → byte_at record k = byte_at base k) ∧
  (∀ j u, part !! j = Some u → unit_at record j = u) ∧
  ((length part < 13)%nat → unit_at record (length part) = 0).
Proof.
  intros Hl Hp HF r. destruct (put_units_spec part 0 base Hl Hp HF) as (Hl' & Hu & _ & Hfix).
  fold r in Hl', Hu, Hfix. clearbody r. destruct (Nat.ltb_spec (length part) LFN_CHARS_PER_ENTRY) as [Hlt|Hge].
  - unfold LFN_CHARS_PER_ENTRY in Hlt. pose proof (unit_offset_bound _ Hlt). split_and!.
    + rewrite length_splice; [done|]. rewrite length_to_le_bytes. lia.
    + intros k Hk. by rewrite fixed_splice, Hfix.
    + intros j u Hj. apply lookup_lt_Some in Hj as Hj'. rewrite unit_splice_ne by lia. by apply (Hu j).
    + intros _. by apply unit_splice_eq.
  - unfold LFN_CHARS_PER_ENTRY in Hge. split_and!; [done|done| |lia]. intros j u Hj. by apply (Hu j).
Qed.

Lemma long_record_spec ordinal count checksum part :
  (1 ≤ ordinal ≤ 20)%nat → (length part ≤ 13)%nat → Forall is_unit part →
  let record := long_record ordinal count checksum part in
  long_entry checksum record ∧ Z.land (byte_at record 0) 0x1f = Z.of_nat ordinal ∧
  (∀ j u, part !! j = Some u → unit_at record j = u) ∧
  ((length part < 13)%nat → unit_at record (length part) = 0).
Proof.
  intros Ho Hp HF. unfold long_record. set (b := Z.lor _ _).
  assert (Hb : Z.land b 0x1f = Z.of_nat ordinal).
  { subst b. destruct (ordinal =? count)%nat; apply ordinal_mask; done || set_solver. }
  set (base := splice 26 [0; 0] _).
  assert (Hbase : length base = 32%nat ∧ byte_at base 0 = b ∧ long_entry checksum base) by done.
  clearbody base. destruct Hbase as (Hl & H0 & E).
  destruct (filled_spec part base Hl Hp HF) as (Hl' & Hfix & Hu & Hz).
  split_and!; [|by rewrite Hfix, H0 by (unfold FIXED; set_solver)|done|done].
  destruct E. split; [done|by rewrite Hfix by (unfold FIXED; set_solver)..|].
  by rewrite !Hfix by (unfold FIXED; set_solver).
Qed.

(** ** Reading the records *)
(** Units that a record can hold: neither the terminator nor the filler. *)
Definition plain_unit (u : Z) : Prop := 0 < u < 0xffff.

Lemma plain_is_unit u : plain_unit u → is_unit u.
Proof. unfold plain_unit, is_unit. lia. Qed.

Lemma record_units_spec record part n i units :
  (n + i = 13)%nat → (i ≤ length part ≤ 13)%nat →
  (∀ j u, part !! j = Some u → unit_at record j = u) →
  ((length part < 13)%nat → unit_at record (length part) = 0) →
  Forall plain_unit part → (length units + (length part - i) ≤ MAX_LONG_NAME)%nat →
  record_units n i record units = Some (units ++ drop i part, (length part <? 13)%nat).
Proof.
  intros Hn Hi Hu Hz HF. revert i units Hn Hi. induction n as [|n IH]; intros i units Hn Hi Hlen; cbn [record_units].
  - assert (length part = 13%nat) as E by lia. rewrite drop_ge, app_nil_r, E by lia. done.
  - fold (unit_at record i). destruct (decide (i < length part)%nat) as [Hlt|Hge].
    + destruct (lookup_lt_is_Some_2 part i Hlt) as [u Hpu]. rewrite (Hu i u Hpu).
      pose proof (Forall_lookup_1 _ _ _ _ HF Hpu) as Hp. unfold plain_unit in Hp.
      rewrite !(proj2 (Z.eqb_neq _ _)) by lia. unfold MAX_LONG_NAME in *.
      rewrite (proj2 (Nat.eqb_neq _ _)) by lia. simpl. rewrite IH by (rewrite ?length_app; simpl; lia).
      by rewrite <-app_assoc, (drop_S _ _ _ Hpu).
    + assert (i = length part) as -> by lia. rewrite Hz by lia. simpl.
      rewrite drop_ge, app_nil_r by lia. by rewrite (proj2 (Nat.ltb_lt _ _)) by lia.
Qed.

(** The units of the record with this ordinal. *)
Definition part_of (U : list Z) (k : nat) : list Z := slice (k * 13) 13 U.

Lemma part_length U k : length (part_of U k) = Nat.min 13 (length U - k * 13).
Proof. unfold part_of, slice. by rewrite length_take, length_drop. Qed.

Lemma part_plain U k : Forall plain_unit U → Forall plain_unit (part_of U k).
Proof. intros HF. unfold part_of, slice. by apply Forall_take, Forall_drop. Qed.

Lemma part_next U k : take (k * 13) U ++ part_of U k = take (S k * 13) U.
Proof. unfold part_of, slice. rewrite take_take_drop. f_equal. lia. Qed.

Lemma collect_units_spec records checksum U count k m :
  (length U ≤ MAX_LONG_NAME)%nat → Forall plain_unit U → (count ≤ 20)%nat →
  (length U ≤ count * 13)%nat → (k + m = count)%nat → (m ≠ 0 → k * 13 < length U)%nat →
  (count ≠ 0 → (count - 1) * 13 < length U)%nat →
  (∀ j, (j < count)%nat → records !! j = Some (long_record (S j) count checksum (part_of U j))) →
  collect_units (seq (S k) m) records checksum (take (k * 13) U) = Some U.
Proof.
  intros HU HF Hc Hlen. revert k. induction m as [|m IH]; intros k Hk Hm Hlast Hrec; cbn [seq collect_units].
  - by rewrite take_ge by lia.
  - rewrite Nat.sub_succ, Nat.sub_0_r, Hrec by lia. cbv [default from_option id].
    destruct (long_record_spec (S k) count checksum (part_of U k)) as ([_ H11 _ H13 _] & H0 & Hu & Hz).
    { lia. } { rewrite part_length. lia. } { eapply Forall_impl; [by apply part_plain|apply plain_is_unit]. }
    rewrite H0, H11, H13, !Z.eqb_refl. simpl negb. cbn [orb].
    rewrite (record_units_spec _ (part_of U k)); try done.
    + cbn [mbind option_bind]. rewrite drop_0, part_next. rewrite part_length.
      destruct (Nat.ltb_spec (Nat.min 13 (length U - k * 13)) 13).
      * by rewrite take_ge by lia.
      * apply IH; try done; lia.
    + rewrite part_length. lia.
    + by apply part_plain.
    + rewrite part_length, length_take. lia.
Qed.

(** ** Text and its units *)
Definition is_scalar (c : Z) : Prop := 0 ≤ c ≤ 0x10ffff.

Lemma encode_units_spec s units us :
  encode_units s units = Some us →
  (s ≠ [] → (length us ≤ MAX_LONG_NAME)%nat) ∧ ∃ l, mapM encode_char s = Some l ∧ us = units ++ concat l.
Proof.
  revert units us. induction s as [|c s IH]; intros units us; cbn [encode_units].
  - intros [= <-]. split; [done|]. exists []. by rewrite app_nil_r.
  - intros Hb. apply bind_Some in Hb as (u & Hu & Hb). case_match; [done|]. reflect_bools.
    apply IH in Hb as (Hl & l & Hm & ->). split.
    + intros _. destruct s; [|by apply Hl]. injection Hm as <-. simpl.
      rewrite app_nil_r, length_app. apply Nat.ltb_ge. done.
    + exists (u :: l). cbn [mapM]. rewrite Hu, Hm. simpl. by rewrite <-app_assoc.
Qed.

Lemma encode_char_plain c u : c ≠ 0xffff → encode_char c = Some u → Forall plain_unit u ∧ u ≠ [].
Proof.
  intros Hne. unfold encode_char, plain_unit. repeat case_match; intros ?; simplify_eq.
  - split; [|done]. repeat constructor; reflect_bools; unfold SLASH in *; lia.
  - assert (0 ≤ (c - 65536) / 1024 < 1024) by (reflect_bools; Z.to_euclidean_division_equations; lia).
    assert (0 ≤ (c - 65536) mod 1024 < 1024) by (apply Z.mod_pos_bound; lia).
    split; [|done]. repeat constructor; lia.
Qed.

Lemma encode_plain s l : 0xffff ∉ s → mapM encode_char s = Some l → Forall plain_unit (concat l).
Proof.
  revert l. induction s as [|c s IH]; intros l Hn Hm; [by injection Hm as <-|]. simpl in Hm.
  apply bind_Some in Hm as (u & Hu & Hm). apply bind_Some in Hm as (l' & Hl & [= <-]). simpl.
  apply not_elem_of_cons in Hn as [Hc Hn]. apply Forall_app. split; [|by apply IH].
  by apply (encode_char_plain c).
Qed.

Lemma utf8_cons c s : utf8 (c :: s) = utf8_char c ++ utf8 s.
Proof. done. Qed.

Lemma decode_units_spec s l cap out :
  mapM encode_char s = Some l → (length out + length (utf8 s) ≤ cap)%nat →
  decode_units (concat l) cap out = Some (out ++ utf8 s).
Proof.
  revert l out. induction s as [|c s IH]; intros l out Hm Hlen.
  { injection Hm as <-. simpl. by rewrite app_nil_r. }
  simpl in Hm.
  apply bind_Some in Hm as (u & Hu & Hm). apply bind_Some in Hm as (l' & Hl & [= <-]). cbn [concat].
  rewrite utf8_cons, length_app in Hlen. unfold encode_char in Hu.
  destruct (_ || _ || _) eqn:E0; [done|]. destruct (Z.leb_spec c 0xffff) as [Hc|Hc].
  - destruct (_ && _) eqn:Es; [done|]. simplify_eq. cbn [app decode_units].
    assert (Hs : ¬ (0xd800 ≤ c ≤ 0xdfff)).
    { intros [? ?]. rewrite !(proj2 (Z.leb_le _ _)) in Es by lia. done. }
    assert ((0xd800 <=? c) && (c <=? 0xdbff) = false) as -> by (apply andb_false_iff; rewrite !Z.leb_gt; lia).
    assert ((0xdc00 <=? c) && (c <=? 0xdfff) = false) as -> by (apply andb_false_iff; rewrite !Z.leb_gt; lia).
    cbv zeta. rewrite (proj2 (Nat.ltb_ge _ _)) by lia. rewrite (IH l') by (done || rewrite length_app; lia).
    by rewrite utf8_cons, <-app_assoc.
  - destruct (Z.leb_spec c 0x10ffff) as [Hc'|]; [|done]. simplify_eq. cbn [app decode_units].
    assert (Hq : 0 ≤ (c - 65536) / 1024 < 1024) by (Z.to_euclidean_division_equations; lia).
    pose proof (Z.mod_pos_bound (c - 65536) 1024 ltac:(lia)) as Hr.
    assert (Hdm := Z.div_mod (c - 65536) 1024 ltac:(lia)).
    rewrite !(proj2 (Z.leb_le _ _)) by lia. cbn [andb]. cbv zeta.
    replace (65536 + (55296 + (c - 65536) / 1024 - 55296) * 1024 + (56320 + (c - 65536) mod 1024 - 56320)) with c by lia.
    rewrite (proj2 (Nat.ltb_ge _ _)) by lia. rewrite (IH l') by (done || rewrite length_app; lia).
    by rewrite utf8_cons, <-app_assoc.
Qed.

(** What an accepted name went through. *)
Lemma encode_long_name_inv nfc name short records :
  0xffff ∉ nfc name → encode_long_name nfc name short = Some records →
  ∃ l count, mapM encode_char (nfc name) = Some l ∧ (length (concat l) ≤ MAX_LONG_NAME)%nat ∧
    (count ≤ MAX_LFN_ENTRIES)%nat ∧ (length (concat l) ≤ count * 13 ∧ (count - 1) * 13 < length (concat l) ∧ count ≠ 0)%nat ∧
    (length (utf8 (nfc name)) ≤ MAX_LONG_NAME)%nat ∧
    records = reverse ((λ ordinal, long_record ordinal count (long_name_checksum short)
        (slice ((ordinal - 1) * LFN_CHARS_PER_ENTRY) LFN_CHARS_PER_ENTRY (concat l))) <$> seq 1 count).
Proof.
  intros Hn He. unfold encode_long_name in He. apply bind_Some in He as (s & Hs & He).
  unfold normalize_name in Hs. destruct (_ || _) eqn:Ew; [done|]. simplify_eq.
  apply orb_false_iff in Ew as [Ew1 Ew2]. apply Nat.ltb_ge in Ew1. apply Nat.eqb_neq in Ew2.
  apply bind_Some in He as (U & HU & He). apply encode_units_spec in HU as (HlU & l & Hm & HU).
  simpl in HU. cbv zeta in He. set (count := Nat.div _ _) in He.
  destruct (Nat.ltb_spec MAX_LFN_ENTRIES count) as [|Hcount]; [done|]. simplify_eq.
  assert (Hne : nfc name ≠ []) by (intros E; by rewrite E in Ew2). specialize (HlU Hne).
  assert (Hpos : (length (concat l) ≠ 0)%nat).
  { destruct (nfc name) as [|c s]; [done|]. simpl in Hm. apply bind_Some in Hm as (u & Hu & Hm).
    apply bind_Some in Hm as (l' & _ & [= <-]). apply not_elem_of_cons in Hn as [Hc _].
    destruct (encode_char_plain c u) as [_ Hu']; [done..|]. simpl. rewrite length_app. destruct u; [done|]. simpl. lia. }
  exists l, count. split_and!; try done; subst count; unfold LFN_CHARS_PER_ENTRY;
    pose proof (Nat.div_mod (length (concat l) + 13 - 1) 13 ltac:(lia));
    pose proof (Nat.mod_upper_bound (length (concat l) + 13 - 1) 13 ltac:(lia)); nia.
Qed.

(** C15. Long names survive their records: whenever [encode_long_name] accepts a name, every
    record is a 32-byte long-name entry with the checksum of the alias and a zero cluster
    field, and reading the records back in logical order with that checksum gives exactly
    the bytes of the normalised name, whatever follows them in the buffer. The one
    character that does not survive is U+FFFF, which the reader takes for filler. *)
Theorem long_name_round_trip (nfc : list Z → list Z) name short records junk :
  0xffff ∉ nfc name →
  encode_long_name nfc name short = Some records →
  Forall (long_entry (long_name_checksum short)) records ∧
  decode_long_name (reverse records ++ junk) (length records) (long_name_checksum short) MAX_LONG_NAME =
    Some (utf8 (nfc name)).
Proof.
  intros Hn He. apply encode_long_name_inv in He as (l & count & Hm & HlU & Hcount & Hcnt & Hne & ->); [|done].
  pose proof (encode_plain _ _ Hn Hm) as Hplain. unfold MAX_LFN_ENTRIES in Hcount. split.
  - apply Forall_reverse, Forall_fmap, Forall_forall. intros o Ho%elem_of_seq. apply long_record_spec; [lia| |].
    + change (slice _ _ _) with (part_of (concat l) (o - 1)). rewrite part_length. lia.
    + eapply Forall_impl; [by apply (part_plain _ (o - 1))|apply plain_is_unit].
  - rewrite reverse_involutive, length_reverse, length_fmap, length_seq. unfold decode_long_name, MAX_LFN_ENTRIES.
    rewrite (proj2 (Nat.eqb_neq count 0)), (proj2 (Nat.ltb_ge _ _)) by lia. cbn [orb Nat.eqb].
    change ([] : list Z) with (take (0 * 13) (concat l)). rewrite (collect_units_spec _ _ (concat l) count 0 count); try done; try lia.
    + cbn [mbind option_bind]. by rewrite (decode_units_spec _ _ _ _ Hm).
    + intros j Hj. rewrite lookup_app_l by (rewrite length_fmap, length_seq; lia).
      rewrite list_lookup_fmap, lookup_seq_lt by lia. simpl. by rewrite Nat.sub_0_r.
Qed.

Definition sample_records : list (list Z) :=
  default [] (encode_long_name id (lit "quarterly report" ++ [0x1f600]) (lit "WOVEN~1 TXT")).

Lemma long_name_round_trip_witness :
  length sample_records = 2%nat ∧ Forall (long_entry (long_name_checksum (lit "WOVEN~1 TXT"))) sample_records ∧
  decode_long_name (reverse sample_records ++ []) 2 (long_name_checksum (lit "WOVEN~1 TXT")) MAX_LONG_NAME =
    Some (utf8 (lit "quarterly report" ++ [0x1f600])).
Proof.
  split; [reflexivity|].
  apply (long_name_round_trip id (lit "quarterly report" ++ [0x1f600]) (lit "WOVEN~1 TXT") sample_records []).
  - intros Hin. apply (bool_decide_pack _) in Hin. vm_compute in Hin. exact Hin.
  - vm_compute. reflexivity.
Defined.
End LongNames.
