(* ===== verification/Fat32Dir.v ===== *)
(** * FAT32 directories and paths (kernel/src/fat32.rs)

    Directory clusters are walked by one loop shape: a list of the clusters seen, at most
    [MAX_DIRECTORY_CLUSTERS] of them, and a scan of the sixteen entries of every sector.
    [walk] is that loop, and every function of the source that has it is an instance: it
    gives what to do with a sector or an entry and what to do at the end of the chain. *)
From S2P Require Import Prelude Block DeviceIo Fat32 Fat32Names.
Import Block Io Fat Names.

Module Dir.

Definition DIRECTORY_ENTRIES_PER_SECTOR : nat := 16.
Definition READ_ONLY_ATTRIBUTE : Z := 0x01.
Definition VOLUME_ID_ATTRIBUTE : Z := 0x08.
Definition DIRECTORY_ATTRIBUTE : Z := 0x10.
Definition MAX_LFN_EXTENSIONS : nat := 2.
Definition MAX_DIRECTORY_CLUSTERS : nat := 128.
Definition MAX_FS_CHECK_DEPTH : nat := 4.

Definition has_attribute (attributes flag : Z) : bool := negb (Z.land attributes flag =? 0).

Record NamedDirectoryEntry := mkNamed {
  named_entry : DirectoryEntry;
  long_name : list Z;
  long_name_length : nat
}.

Record DirectorySlot := mkSlot {
  dslot_lba : Z;
  dslot_offset : nat;
  dslot_entry : DirectoryEntry;
  dslot_raw : list Z
}.

Record CheckReport := mkReport {
  files : Z;
  directories : Z;
  report_total_clusters : Z;
  report_free_clusters : Z;
  report_fs_info_free_count : option Z;
  report_fs_info_matches : bool
}.

Record LongDirectoryReservation := mkLongReservation {
  slots : list (Z * nat);
  extensions : list DirectoryExtension
}.

Inductive DirectoryScan := Found (e : DirectoryEntry) | Continue | ScanEnd.

(** ** Entries *)
Definition entry_cluster (sector : list Z) (offset : nat) : Z :=
  Z.lor (Z.shiftl (read_u16 sector (offset + 20)) 16) (read_u16 sector (offset + 26)).

Definition directory_entry_from_sector (sector : list Z) (offset : nat) : result DirectoryEntry FatError :=
  let first := entry_cluster sector offset in
  let sz := read_u32 sector (offset + 28) in
  let attrs := byte_at sector (offset + 11) in
  if (first <? 2) && (negb (sz =? 0) || has_attribute attrs DIRECTORY_ATTRIBUTE) then Err CorruptDirectory
  else Ok (mkDirectoryEntry (slice offset 11 sector) first sz attrs).

Definition scan_directory_entry (sector short : list Z) (offset : nat) : option (result DirectoryScan FatError) :=
  let first := byte_at sector offset in
  if first =? 0 then Some (Ok ScanEnd)
  else
  let attrs := byte_at sector (offset + 11) in
  if (first =? 0xe5) || (attrs =? LONG_NAME_ATTRIBUTE) || has_attribute attrs VOLUME_ID_ATTRIBUTE then None
  else if negb (bool_decide (slice offset 11 sector = short)) then None
  else
  let cluster := entry_cluster sector offset in
  if (cluster <? 2) && negb (read_u32 sector (offset + 28) =? 0) then Some (Err CorruptDirectory)
  else Some (Ok (Found (mkDirectoryEntry (slice offset 11 sector) cluster (read_u32 sector (offset + 28)) attrs))).

Fixpoint scan_directory_loop (n index : nat) (sector short : list Z) : result DirectoryScan FatError :=
  match n with
  | O => Ok Continue
  | S n =>
      match scan_directory_entry sector short (index * DIRECTORY_ENTRY_SIZE) with
      | Some r => r
      | None => scan_directory_loop n (S index) sector short
      end
  end.
Definition scan_directory_sector (sector short : list Z) : result DirectoryScan FatError :=
  scan_directory_loop DIRECTORY_ENTRIES_PER_SECTOR 0 sector short.

Definition is_dot_directory_short_name (short : list Z) : bool :=
  ((byte_at short 0 =? DOT) && forallb (λ b, b =? 32) (drop 1 short)) ||
  ((byte_at short 0 =? DOT) && (byte_at short 1 =? DOT) && forallb (λ b, b =? 32) (drop 2 short)).

(** The long-name records collected while entries are walked. *)
Record LfnState := mkLfn {
  lfn_records : list (list Z);
  record_count : nat;
  expected_checksum : Z
}.
Definition lfn_empty : LfnState := mkLfn (replicate MAX_LFN_ENTRIES (replicate DIRECTORY_ENTRY_SIZE 0)) 0 0.
Definition lfn_reset (s : LfnState) : LfnState := mkLfn (lfn_records s) 0 (expected_checksum s).

Definition lfn_push (sector : list Z) (offset : nat) (s : LfnState) : LfnState :=
  let first := byte_at sector offset in
  let ordinal := Z.to_nat (Z.land first 0x1f) in
  if (ordinal =? 0)%nat || (MAX_LFN_ENTRIES <? ordinal)%nat then lfn_reset s
  else mkLfn (<[(ordinal - 1)%nat := slice offset DIRECTORY_ENTRY_SIZE sector]> (lfn_records s))
         (Nat.max (record_count s) ordinal)
         (if has_attribute first 0x40 then byte_at sector (offset + 13) else expected_checksum s).

(** What one step of a walk decides. *)
Inductive visit (S R : Type) := Stop (r : R) | Go (s : S).
Arguments Stop {S R} r.
Arguments Go {S R} s.

Section device.
Context {D : Type} `{BlockDevice D}.
Abbreviation fio := (io D FatError).

(** [if let Err(err) = m { cleanup; return Err(err); }] *)
Definition or_cleanup {A} (m : fio A) (cleanup : fio ()) : fio A :=
  let! r := itry m in
  match r with
  | Ok a => iret a
  | Err e => let! _ := cleanup in ierr e
  end.
Definition ignore {A} (m : fio A) : fio () := let! _ := itry m in iret ().

Section volume.
Context (v : Volume).

(** ** The walk over a directory *)
Section walk.
Context {S R : Type}.
Context (scan : Z → list Z → S → fio (visit S R)) (at_end : Z → S → fio (visit (Z * S) R)).

Fixpoint scan_sectors (n : nat) (lba : Z) (s : S) : fio (visit S R) :=
  match n with
  | O => iret (Go s)
  | Datatypes.S n =>
      let! sector := dread EBlock lba zeros in
      let! r := scan lba sector s in
      match r with
      | Stop r => iret (Stop r)
      | Go s => scan_sectors n (lba + 1) s
      end
  end.

Fixpoint walk (budget : nat) (visited : list Z) (cluster : Z) (s : S) : fio R :=
  match budget with
  | O => ierr ChainTooLong
  | Datatypes.S budget =>
      if bool_decide (cluster ∈ visited) then ierr ChainLoop
      else
      let visited := visited ++ [cluster] in
      let! lba := iresult (cluster_lba v cluster) in
      let! r := scan_sectors (Z.to_nat (sectors_per_cluster v)) lba s in
      match r with
      | Stop r => iret r
      | Go s =>
          let! link := next_cluster v cluster in
          match link with
          | Next next => walk budget visited next s
          | End =>
              let! r := at_end cluster s in
              match r with
              | Stop r => iret r
              | Go (next, s) => walk budget visited next s
              end
          end
      end
  end.
Definition walk_directory (dir_cluster : Z) (s : S) : fio R := walk MAX_DIRECTORY_CLUSTERS [] dir_cluster s.

(** [for index in 0..DIRECTORY_ENTRIES_PER_SECTOR] *)
Context (entry : Z → list Z → nat → S → fio (visit S R)).
Fixpoint each_entry_loop (n index : nat) (lba : Z) (sector : list Z) (s : S) : fio (visit S R) :=
  match n with
  | O => iret (Go s)
  | Datatypes.S n =>
      let! r := entry lba sector (index * DIRECTORY_ENTRY_SIZE)%nat s in
      match r with
      | Stop r => iret (Stop r)
      | Go s => each_entry_loop n (Datatypes.S index) lba sector s
      end
  end.
Definition each_entry : Z → list Z → S → fio (visit S R) := each_entry_loop DIRECTORY_ENTRIES_PER_SECTOR 0.
End walk.

(** ** Lookup and listing *)
Definition find_in_directory (dir_cluster : Z) (short : list Z) : fio DirectoryEntry :=
  walk_directory
    (λ _ sector _,
       let! r := iresult (scan_directory_sector sector short) in
       match r with
       | Found e => iret (Stop e)
       | ScanEnd => ierr NotFound
       | Continue => iret (Go ())
       end)
    (λ _ _, ierr NotFound) dir_cluster ().

Definition find_root (short : list Z) : fio DirectoryEntry := find_in_directory (root_cluster v) short.

(** [visitor] has its captured state as an argument and result. On an error the entries
    it has stored stay in the caller's buffer, which the callers then drop. *)
Definition for_each_directory_entry_named {A} (dir_cluster : Z)
    (visitor : A → DirectoryEntry → option (list Z) → result A FatError) (a : A) : fio A :=
  walk_directory
    (each_entry (λ _ sector offset s,
       let '(lfn, a) := s in
       let first := byte_at sector offset in
       if first =? 0 then iret (Stop a)
       else
       let attrs := byte_at sector (offset + 11) in
       if first =? 0xe5 then iret (Go (lfn_reset lfn, a))
       else if attrs =? LONG_NAME_ATTRIBUTE then iret (Go (lfn_push sector offset lfn, a))
       else if has_attribute attrs VOLUME_ID_ATTRIBUTE then iret (Go (lfn_reset lfn, a))
       else
       let! entry := iresult (directory_entry_from_sector sector offset) in
       let display := decode_long_name (lfn_records lfn) (record_count lfn) (expected_checksum lfn) MAX_LONG_NAME in
       let! a := iresult (visitor a entry display) in
       iret (Go (lfn_reset lfn, a))))
    (λ _ s, iret (Stop (snd s))) dir_cluster (lfn_empty, a).

Definition for_each_directory_entry {A} (dir_cluster : Z) (visitor : A → DirectoryEntry → result A FatError) (a : A)
    : fio A := for_each_directory_entry_named dir_cluster (λ a entry _, visitor a entry) a.

(** [output] and the count of entries stored in it. *)
Definition store {A} (st : list (option A) * nat) (x : A) : result (list (option A) * nat) FatError :=
  let '(output, count) := st in
  if (length output <=? count)%nat then Err DirectoryFull else Ok (<[count := Some x]> output, S count).

Definition list_directory (dir_cluster : Z) (output : list (option DirectoryEntry))
    : fio (list (option DirectoryEntry) * nat) := for_each_directory_entry dir_cluster store (output, 0%nat).
Definition list_root (output : list (option DirectoryEntry)) := list_directory (root_cluster v) output.

Definition list_directory_named (dir_cluster : Z) (output : list (option NamedDirectoryEntry))
    : fio (list (option NamedDirectoryEntry) * nat) :=
  for_each_directory_entry_named dir_cluster
    (λ st entry display,
       let empty := replicate MAX_LONG_NAME 0 in
       store st (match display with
                 | Some name => mkNamed entry (splice 0 name empty) (length name)
                 | None => mkNamed entry empty 0
                 end)) (output, 0%nat).
Definition list_root_named (output : list (option NamedDirectoryEntry)) := list_directory_named (root_cluster v) output.

Section names.
Context (nfc : list Z → list Z).

Definition name_matches (lfn : LfnState) (short : option (list Z)) (name : list Z) (entry : DirectoryEntry) : bool :=
  let alias_matches := bool_decide (short = Some (short_name entry)) in
  let lfn_matches := negb (record_count lfn =? 0)%nat &&
    match decode_long_name (lfn_records lfn) (record_count lfn) (expected_checksum lfn) MAX_LONG_NAME with
    | Some decoded => eq_ignore_ascii_case decoded (utf8 name) || bool_decide (decoded = utf8 name)
    | None => false
    end in
  alias_matches || lfn_matches.

Definition find_in_directory_name (dir_cluster : Z) (name : list Z) : fio DirectoryEntry :=
  let! name := iresult (ok_or (normalize_name nfc name) NameTooLong) in
  let short := encode_short_name name in
  walk_directory
    (each_entry (λ _ sector offset lfn,
       let first := byte_at sector offset in
       if first =? 0 then ierr NotFound
       else if first =? 0xe5 then iret (Go (lfn_reset lfn))
       else
       let attrs := byte_at sector (offset + 11) in
       if attrs =? LONG_NAME_ATTRIBUTE then iret (Go (lfn_push sector offset lfn))
       else if has_attribute attrs VOLUME_ID_ATTRIBUTE then iret (Go (lfn_reset lfn))
       else
       let! entry := iresult (directory_entry_from_sector sector offset) in
       if name_matches lfn short name entry then iret (Stop entry) else iret (Go (lfn_reset lfn))))
    (λ _ _, ierr NotFound) dir_cluster lfn_empty.

(** The components of a path below the root, each a directory but the last. *)
Fixpoint resolve_loop (cluster : Z) (parts : list (list Z)) (current : option DirectoryEntry) : fio DirectoryEntry :=
  match parts with
  | [] => iresult (ok_or current NotFound)
  | part :: rest =>
      let! entry := find_in_directory_name cluster part in
      if bool_decide (rest = []) then resolve_loop cluster rest (Some entry)
      else if negb (has_attribute (attributes entry) DIRECTORY_ATTRIBUTE) || (first_cluster entry <? 2)
      then ierr NotFound
      else resolve_loop (first_cluster entry) rest (Some entry)
  end.

Definition resolve_path (path : list Z) : fio DirectoryEntry :=
  let path := trim_start SLASH path in
  if bool_decide (path = []) then ierr NotFound
  else
  match components (split SLASH path) 8 [] with
  | None | Some [] => ierr NotFound
  | Some parts => resolve_loop (root_cluster v) parts None
  end.

(** ** Slots *)
Definition find_directory_slot (dir_cluster : Z) (short : list Z) : fio DirectorySlotReservation :=
  walk_directory
    (each_entry (λ lba sector off deleted,
       let first := byte_at sector off in
       if first =? 0 then
         let '(lba, offset) := default (lba, off) deleted in iret (Stop (mkReservation lba offset None None))
       else if first =? 0xe5 then
         iret (Go (match deleted with None => Some (lba, off) | Some _ => deleted end))
       else
       let attr := byte_at sector (off + 11) in
       if (attr =? LONG_NAME_ATTRIBUTE) || has_attribute attr VOLUME_ID_ATTRIBUTE then iret (Go deleted)
       else if bool_decide (slice off 11 sector = short) then
         iret (Stop (mkReservation lba off
           (Some (mkDirectoryEntry (slice off 11 sector) (entry_cluster sector off) (read_u32 sector (off + 28)) attr))
           None))
       else iret (Go deleted)))
    (λ cluster deleted,
       match deleted with
       | Some (lba, offset) => iret (Stop (mkReservation lba offset None None))
       | None => let! r := extend_directory_chain v cluster in iret (Stop r)
       end) dir_cluster None.

Definition find_existing_directory_slot (dir_cluster : Z) (short : list Z) : fio DirectorySlot :=
  walk_directory
    (each_entry (λ lba sector offset _,
       let first := byte_at sector offset in
       if first =? 0 then ierr NotFound
       else if first =? 0xe5 then iret (Go ())
       else
       let attrs := byte_at sector (offset + 11) in
       if (attrs =? LONG_NAME_ATTRIBUTE) || has_attribute attrs VOLUME_ID_ATTRIBUTE then iret (Go ())
       else if bool_decide (slice offset 11 sector = short) then
         let! entry := iresult (directory_entry_from_sector sector offset) in
         iret (Stop (mkSlot lba offset entry (slice offset DIRECTORY_ENTRY_SIZE sector)))
       else iret (Go ())))
    (λ _ _, ierr NotFound) dir_cluster ().

Definition find_existing_directory_slot_name (dir_cluster : Z) (name : list Z) : fio DirectorySlot :=
  let! entry := find_in_directory_name dir_cluster name in
  find_existing_directory_slot dir_cluster (short_name entry).

Definition mark_directory_entry_deleted (lba : Z) (offset : nat) : fio () :=
  let! sector := dread EBlock lba zeros in
  dwrite EBlock lba (splice offset [0xe5] sector).

(** The long-name records just before [cursor] in the same sector; [n] entries fit there. *)
Fixpoint clear_lfn_prefix (n cursor : nat) (sector : list Z) (changed : bool) : list Z * bool :=
  match n with
  | O => (sector, changed)
  | S n =>
      let cursor := (cursor - DIRECTORY_ENTRY_SIZE)%nat in
      if (byte_at sector cursor =? 0xe5) || negb (byte_at sector (cursor + 11) =? LONG_NAME_ATTRIBUTE)
      then (sector, changed)
      else clear_lfn_prefix n cursor (splice cursor [0xe5] sector) true
  end.

Definition mark_lfn_prefix_deleted (lba : Z) (offset : nat) : fio () :=
  if (offset =? 0)%nat then iret ()
  else
  let! sector := dread EBlock lba zeros in
  let '(sector, changed) := clear_lfn_prefix (offset / DIRECTORY_ENTRY_SIZE) offset sector false in
  if changed then dwrite EBlock lba sector else iret ().

Definition write_short_name (lba : Z) (offset : nat) (short : list Z) : fio () :=
  let! sector := dread EBlock lba zeros in
  dwrite EBlock lba (splice offset short sector).

Definition write_raw_directory_slot (lba : Z) (offset : nat) (raw : list Z) : fio () :=
  let! sector := dread EBlock lba zeros in
  dwrite EBlock lba (splice offset raw sector).

Definition dot_name : list Z := pad 11 [DOT].
Definition dotdot_name : list Z := pad 11 [DOT; DOT].

Definition directory_is_empty (dir_cluster : Z) : fio bool :=
  walk_directory
    (each_entry (λ _ sector offset _,
       let first := byte_at sector offset in
       if first =? 0 then iret (Stop true)
       else if first =? 0xe5 then iret (Go ())
       else
       let attrs := byte_at sector (offset + 11) in
       if (attrs =? LONG_NAME_ATTRIBUTE) || has_attribute attrs VOLUME_ID_ATTRIBUTE then iret (Go ())
       else
       let name := slice offset 11 sector in
       if bool_decide (name = dot_name) || bool_decide (name = dotdot_name) then iret (Go ())
       else iret (Stop false)))
    (λ _ _, iret (Stop true)) dir_cluster ().

(** [write_u16(sector, offset + 20, cluster >> 16); write_u16(sector, offset + 26, cluster)] *)
Definition put_cluster (sector : list Z) (offset : nat) (cluster : Z) : list Z :=
  write_u16 (write_u16 sector (offset + 20) (Z.shiftr cluster 16)) (offset + 26) (as_u16 cluster).

Fixpoint dotdot_loop (n index : nat) (base : Z) (sector : list Z) (parent : Z) : fio () :=
  match n with
  | O => ierr CorruptDirectory
  | S n =>
      let offset := (index * DIRECTORY_ENTRY_SIZE)%nat in
      let first := byte_at sector offset in
      if first =? 0 then ierr CorruptDirectory
      else if first =? 0xe5 then dotdot_loop n (S index) base sector parent
      else if bool_decide (slice offset 11 sector = dotdot_name) then
        dwrite EBlock base (put_cluster sector offset parent)
      else dotdot_loop n (S index) base sector parent
  end.

Definition update_dotdot (dir_cluster parent : Z) : fio () :=
  let! base := iresult (cluster_lba v dir_cluster) in
  let! sector := dread EBlock base zeros in
  dotdot_loop DIRECTORY_ENTRIES_PER_SECTOR 0 base sector parent.

(** The 32 bytes of an entry. *)
Definition entry_bytes (short : list Z) (attrs cluster sz : Z) : list Z :=
  write_u32 (put_cluster (splice 11 [attrs] (splice 0 short (replicate DIRECTORY_ENTRY_SIZE 0))) 0 cluster) 28 sz.

Definition write_directory_entry (lba : Z) (offset : nat) (short : list Z) (attrs cluster sz : Z) : fio () :=
  let! sector := dread EBlock lba zeros in
  let sector := splice offset (replicate DIRECTORY_ENTRY_SIZE 0) sector in
  let sector := splice offset short sector in
  let sector := splice (offset + 11) [attrs] sector in
  let sector := put_cluster sector offset cluster in
  dwrite EBlock lba (write_u32 sector (offset + 28) sz).

(** ** Creating files *)
Definition bytes_per_cluster_of : nat := Z.to_nat (sectors_per_cluster v) * SECTOR_SIZE.
Definition needed_clusters (data : list Z) : nat :=
  match data with
  | [] => 0%nat
  | _ => Nat.div (length data + bytes_per_cluster_of - 1) bytes_per_cluster_of
  end.

Definition free_if_allocated (first : Z) : fio () :=
  if 2 <=? first then ignore (free_cluster_chain v first) else iret ().

(** One alias: [WOVEN~] and the serial number, with the extension. *)
Definition alias_digits (serial : Z) : list Z :=
  if 10 <=? serial then [48 + serial / 10; 48 + serial mod 10] else [48 + serial].
Definition alias_extension (name : list Z) : option (list Z) :=
  p ← rsplit_once DOT name;
  let ext := utf8 p.2 in
  if negb (bool_decide (ext = [])) && (length ext <=? 3)%nat then Some ext else None.

Fixpoint alias_loop (n : nat) (serial : Z) (dir_cluster : Z) (ext : option (list Z)) : fio (list Z) :=
  match n with
  | O => ierr DirectoryFull
  | S n =>
      let! ext_bytes := iresult (match ext with
                                 | Some ext => ok_or (mapM to_fat_char ext) NameTooLong
                                 | None => Ok []
                                 end) in
      let alias := pad 8 (lit "WOVEN~" ++ alias_digits serial) ++ pad 3 ext_bytes in
      let! r := itry (find_in_directory dir_cluster alias) in
      match r with
      | Err NotFound => iret alias
      | Ok _ => alias_loop n (serial + 1) dir_cluster ext
      | Err e => ierr e
      end
  end.

Definition generate_short_alias (dir_cluster : Z) (name : list Z) : fio (list Z) :=
  alias_loop 99 1 dir_cluster (alias_extension name).

(** The run of free slots and the extensions made so far. *)
Definition find_long_directory_slots (dir_cluster : Z) (count : nat) : fio LongDirectoryReservation :=
  if (count =? 0)%nat || (MAX_LFN_ENTRIES + 1 <? count)%nat then ierr NameTooLong
  else
  walk_directory
    (each_entry (λ lba sector offset s,
       let '(run, exts) := s in
       let first := byte_at sector offset in
       if (first =? 0) || (first =? 0xe5) then
         let run := if (length run <? MAX_LFN_ENTRIES + 1)%nat then run ++ [(lba, offset)] else run in
         if (length run =? count)%nat then iret (Stop (mkLongReservation run exts)) else iret (Go (run, exts))
       else iret (Go ([], exts))))
    (λ cluster s,
       let '(run, exts) := s in
       if (length exts =? MAX_LFN_EXTENSIONS)%nat then ierr DirectoryFull
       else
       let! x := extend_directory_chain v cluster in
       match extension x with
       | None => ierr CorruptChain
       | Some link => iret (Go (ext_cluster link, (run, exts ++ [link])))
       end) dir_cluster ([], []).

Definition each {A} (f : A → fio ()) (xs : list A) : fio () := ifold (λ _ x, f x) xs ().

Definition rollback_long_directory_reservation (r : LongDirectoryReservation) (used_slots : nat) : fio () :=
  let! _ := each (λ slot, ignore (mark_directory_entry_deleted slot.1 slot.2)) (take used_slots (slots r)) in
  each (λ x, ignore (rollback_directory_extension v x)) (reverse (extensions r)).

Definition slot_at (r : LongDirectoryReservation) (i : nat) : Z * nat := default (0, 0%nat) (slots r !! i).

(** The records from [index] on; [cleanup] is what follows the rollback of the slots. *)
Fixpoint write_records (records : list (list Z)) (index : nat) (r : LongDirectoryReservation) (cleanup : fio ())
    : fio () :=
  match records with
  | [] => iret ()
  | record :: records =>
      let! _ := or_cleanup (write_raw_directory_slot (slot_at r index).1 (slot_at r index).2 record)
        (let! _ := rollback_long_directory_reservation r (S index) in cleanup) in
      write_records records (S index) r cleanup
  end.

Definition create_long_file_in_directory (dir_cluster : Z) (name data : list Z) : fio () :=
  if u32_max <? Z.of_nat (length data) then ierr NoSpace
  else
  let! short := generate_short_alias dir_cluster name in
  let! records := iresult (ok_or (encode_long_name nfc name short) NameTooLong) in
  let count := length records in
  let! reservation := find_long_directory_slots dir_cluster (count + 1) in
  let! first := or_cleanup (allocate_file_chain v (needed_clusters data))
    (rollback_long_directory_reservation reservation 0) in
  let! _ := or_cleanup (write_file_data_chain v first data) (free_if_allocated first) in
  let! _ := write_records records 0 reservation (free_if_allocated first) in
  or_cleanup (write_directory_entry (slot_at reservation count).1 (slot_at reservation count).2 short 0x20 first
                (as_u32 (Z.of_nat (length data))))
    (let! _ := rollback_long_directory_reservation reservation (count + 1) in free_if_allocated first).

Definition create_file_in_directory (dir_cluster : Z) (name data : list Z) : fio () :=
  match encode_short_name name with
  | None => create_long_file_in_directory dir_cluster name data
  | Some short =>
      if u32_max <? Z.of_nat (length data) then ierr NoSpace
      else
      let! slot := find_directory_slot dir_cluster short in
      let! existing_first :=
        (match existing slot with
         | Some entry =>
             if has_attribute (attributes entry) DIRECTORY_ATTRIBUTE then ierr WriteFailed
             else
             let! _ := (if 2 <=? first_cluster entry then validate_cluster_chain v (first_cluster entry) else iret ()) in
             iret (Some (first_cluster entry))
         | None => iret None
         end) in
      let! first := or_cleanup (allocate_file_chain v (needed_clusters data)) (rollback_reserved_slot v slot) in
      let undo := let! _ := free_if_allocated first in rollback_reserved_slot v slot in
      let! _ := or_cleanup (write_file_data_chain v first data) undo in
      let! _ := or_cleanup (write_directory_entry (slot_lba slot) (slot_offset slot) short 0x20 first
        (as_u32 (Z.of_nat (length data)))) undo in
      match existing_first with
      | Some cluster => if 2 <=? cluster then free_cluster_chain v cluster else iret ()
      | None => iret ()
      end
  end.

Definition create_root_file (name data : list Z) : fio () := create_file_in_directory (root_cluster v) name data.

(** ** Directories *)
Definition directory_sector (cluster dotdot : Z) : list Z :=
  let first := splice 0 dot_name zeros in
  let first := splice 11 [DIRECTORY_ATTRIBUTE] first in
  let first := put_cluster first 0 cluster in
  let first := splice 32 dotdot_name first in
  let first := splice 43 [DIRECTORY_ATTRIBUTE] first in
  put_cluster first 32 dotdot.

Definition create_directory_in (parent : Z) (name : list Z) : fio Z :=
  let! short := iresult (ok_or (encode_short_name name) NameTooLong) in
  let! slot := find_directory_slot parent short in
  match existing slot with
  | Some entry =>
      if has_attribute (attributes entry) DIRECTORY_ATTRIBUTE && (2 <=? first_cluster entry)
      then iret (first_cluster entry) else ierr WriteFailed
  | None =>
      let! cluster := or_cleanup (allocate_cluster v) (rollback_reserved_slot v slot) in
      let undo := let! _ := ignore (free_cluster_chain v cluster) in rollback_reserved_slot v slot in
      let! _ := or_cleanup (zero_cluster v cluster) undo in
      let! base := or_cleanup (iresult (cluster_lba v cluster)) undo in
      let dotdot := if parent =? root_cluster v then root_cluster v else parent in
      let! _ := or_cleanup (dwrite EBlock base (directory_sector cluster dotdot)) undo in
      let! _ := or_cleanup (write_directory_entry (slot_lba slot) (slot_offset slot) short DIRECTORY_ATTRIBUTE cluster 0) undo in
      iret cluster
  end.

Fixpoint mkdir_loop (cluster : Z) (parts : list (list Z)) : fio () :=
  match parts with
  | [] => iret ()
  | component :: parts =>
      if bool_decide (component = []) || bool_decide (component = [DOT]) then mkdir_loop cluster parts
      else if bool_decide (component = [DOT; DOT]) then ierr NameTooLong
      else
      let! short := iresult (ok_or (encode_short_name component) NameTooLong) in
      let! r := itry (find_in_directory cluster short) in
      match r with
      | Ok entry =>
          if has_attribute (attributes entry) DIRECTORY_ATTRIBUTE && (2 <=? first_cluster entry)
          then mkdir_loop (first_cluster entry) parts else ierr WriteFailed
      | Err NotFound => let! cluster := create_directory_in cluster component in mkdir_loop cluster parts
      | Err e => ierr e
      end
  end.

Definition mkdir_path (path : list Z) : fio () :=
  let path := trim_matches SLASH path in
  if bool_decide (path = []) then iret () else mkdir_loop (root_cluster v) (split SLASH path).

(** ** Paths *)
Fixpoint parent_loop (cluster : Z) (parts : list (list Z)) (create_missing : bool) : fio Z :=
  match parts with
  | [] => iret cluster
  | component :: parts =>
      let! r := itry (find_in_directory_name cluster component) in
      match r with
      | Ok entry =>
          if negb (has_attribute (attributes entry) DIRECTORY_ATTRIBUTE) || (first_cluster entry <? 2)
          then ierr NotFound
          else parent_loop (first_cluster entry) parts create_missing
      | Err NotFound =>
          if create_missing then
            let! cluster := create_directory_in cluster component in parent_loop cluster parts create_missing
          else ierr NotFound
      | Err e => ierr e
      end
  end.

(** The directory of the last component, and that component. *)
Definition resolve_parent_cluster (path : list Z) (create_missing : bool) : fio (Z * list Z) :=
  let path := trim_matches SLASH path in
  if bool_decide (path = []) then ierr NameTooLong
  else
  match components (split SLASH path) 16 [] with
  | None => ierr NameTooLong
  | Some parts =>
      match last parts with
      | None => ierr NameTooLong
      | Some leaf =>
          if (MAX_LONG_NAME <? length (utf8 leaf))%nat then ierr NameTooLong
          else
          let! cluster := parent_loop (root_cluster v) (take (length parts - 1) parts) create_missing in
          iret (cluster, leaf)
      end
  end.

Definition create_path_file (path data : list Z) : fio () :=
  let! (parent, leaf) := resolve_parent_cluster path true in
  create_file_in_directory parent leaf data.

Definition delete_path (path : list Z) : fio () :=
  let path := trim_matches SLASH path in
  if bool_decide (path = []) then ierr InvalidPath
  else
  let! (parent, leaf) := resolve_parent_cluster path false in
  let! slot := find_existing_directory_slot_name parent leaf in
  let entry := dslot_entry slot in
  if has_attribute (attributes entry) READ_ONLY_ATTRIBUTE then ierr EReadOnly
  else
  let! _ :=
    (if has_attribute (attributes entry) DIRECTORY_ATTRIBUTE then
       let! empty := directory_is_empty (first_cluster entry) in
       if negb empty then ierr DirectoryNotEmpty else validate_cluster_chain v (first_cluster entry)
     else if 2 <=? first_cluster entry then validate_cluster_chain v (first_cluster entry) else iret ()) in
  let! _ := mark_directory_entry_deleted (dslot_lba slot) (dslot_offset slot) in
  let! _ := mark_lfn_prefix_deleted (dslot_lba slot) (dslot_offset slot) in
  if 2 <=? first_cluster entry then free_cluster_chain v (first_cluster entry) else iret ().

(** Moving an entry to a slot found for its short name. *)
Definition rename_to_short (old_slot : DirectorySlot) (is_directory : bool) (old_parent new_parent : Z)
    (short : list Z) : fio () :=
  let entry := dslot_entry old_slot in
  if old_parent =? new_parent then
    let! _ := write_short_name (dslot_lba old_slot) (dslot_offset old_slot) short in
    mark_lfn_prefix_deleted (dslot_lba old_slot) (dslot_offset old_slot)
  else
  let! new_slot := find_directory_slot new_parent short in
  match existing new_slot with
  | Some _ => ierr AlreadyExists
  | None =>
      let raw := splice 0 short (dslot_raw old_slot) in
      let! _ := or_cleanup (write_raw_directory_slot (slot_lba new_slot) (slot_offset new_slot) raw)
        (rollback_reserved_slot v new_slot) in
      let drop_new := ignore (mark_directory_entry_deleted (slot_lba new_slot) (slot_offset new_slot)) in
      let! _ := or_cleanup (if is_directory then update_dotdot (first_cluster entry) new_parent else iret ())
        (let! _ := drop_new in rollback_reserved_slot v new_slot) in
      let! _ := or_cleanup (mark_directory_entry_deleted (dslot_lba old_slot) (dslot_offset old_slot))
        (let! _ := drop_new in
         let! _ := (if is_directory then ignore (update_dotdot (first_cluster entry) old_parent) else iret ()) in
         rollback_reserved_slot v new_slot) in
      mark_lfn_prefix_deleted (dslot_lba old_slot) (dslot_offset old_slot)
  end.

(** Moving an entry under a long name with the alias [short]. *)
Definition rename_to_long (old_slot : DirectorySlot) (is_directory : bool) (old_parent new_parent : Z)
    (new_leaf short : list Z) : fio () :=
  let entry := dslot_entry old_slot in
  let! records := iresult (ok_or (encode_long_name nfc new_leaf short) NameTooLong) in
  let count := length records in
  let! reservation := find_long_directory_slots new_parent (count + 1) in
  let! _ := write_records records 0 reservation (iret ()) in
  let raw := splice 0 short (dslot_raw old_slot) in
  let rollback := rollback_long_directory_reservation reservation (count + 1) in
  let! _ := or_cleanup (write_raw_directory_slot (slot_at reservation count).1 (slot_at reservation count).2 raw)
    rollback in
  let! _ := or_cleanup (if is_directory then update_dotdot (first_cluster entry) new_parent else iret ()) rollback in
  let! _ := or_cleanup (mark_directory_entry_deleted (dslot_lba old_slot) (dslot_offset old_slot))
    (let! _ := rollback in
     if is_directory then ignore (update_dotdot (first_cluster entry) old_parent) else iret ()) in
  mark_lfn_prefix_deleted (dslot_lba old_slot) (dslot_offset old_slot).

Definition rename_path (old new : list Z) : fio () :=
  let old_path := trim_matches SLASH old in
  let new_path := trim_matches SLASH new in
  if bool_decide (old_path = []) || bool_decide (new_path = []) then ierr InvalidPath
  else
  let! (old_parent, old_leaf) := resolve_parent_cluster old_path false in
  let! old_slot := find_existing_directory_slot_name old_parent old_leaf in
  let entry := dslot_entry old_slot in
  if has_attribute (attributes entry) READ_ONLY_ATTRIBUTE then ierr EReadOnly
  else
  let is_directory := has_attribute (attributes entry) DIRECTORY_ATTRIBUTE in
  if is_directory && path_is_descendant old_path new_path then ierr InvalidPath
  else if is_directory && (first_cluster entry <? 2) then ierr CorruptDirectory
  else
  let! (new_parent, new_leaf) := resolve_parent_cluster new_path false in
  if (old_parent =? new_parent) && eq_ignore_ascii_case (utf8 old_leaf) (utf8 new_leaf) then iret ()
  else
  let! new_short := (match encode_short_name new_leaf with
                     | Some short => iret short
                     | None => generate_short_alias new_parent new_leaf
                     end) in
  if (old_parent =? new_parent) && bool_decide (short_name entry = new_short) then iret ()
  else
  let! r := itry (find_existing_directory_slot new_parent new_short) in
  match r with
  | Ok _ => ierr AlreadyExists
  | Err NotFound =>
      match encode_short_name new_leaf with
      | Some short => rename_to_short old_slot is_directory old_parent new_parent short
      | None => rename_to_long old_slot is_directory old_parent new_parent new_leaf new_short
      end
  | Err e => ierr e
  end.
End names.

(** ** Checking a volume *)
Definition add_directory (r : CheckReport) : CheckReport :=
  mkReport (files r) (saturating_add64 (directories r) 1) (report_total_clusters r) (report_free_clusters r)
    (report_fs_info_free_count r) (report_fs_info_matches r).
Definition add_file (r : CheckReport) : CheckReport :=
  mkReport (saturating_add64 (files r) 1) (directories r) (report_total_clusters r) (report_free_clusters r)
    (report_fs_info_free_count r) (report_fs_info_matches r).

(** [levels] is [MAX_FS_CHECK_DEPTH - depth]. *)
Fixpoint check_directory_tree (levels : nat) (dir_cluster : Z) (report : CheckReport) : fio CheckReport :=
  walk_directory
    (each_entry (λ _ sector offset report,
       let first := byte_at sector offset in
       if first =? 0 then iret (Stop report)
       else if first =? 0xe5 then iret (Go report)
       else
       let attrs := byte_at sector (offset + 11) in
       if (attrs =? LONG_NAME_ATTRIBUTE) || has_attribute attrs VOLUME_ID_ATTRIBUTE then iret (Go report)
       else
       let! entry := iresult (directory_entry_from_sector sector offset) in
       if is_dot_directory_short_name (short_name entry) then iret (Go report)
       else if has_attribute (attributes entry) DIRECTORY_ATTRIBUTE then
         let! _ := validate_cluster_chain v (first_cluster entry) in
         let report := add_directory report in
         let! report := (match levels with
                         | O => iret report
                         | S levels => check_directory_tree levels (first_cluster entry) report
                         end) in
         iret (Go report)
       else
         let! _ := (if 2 <=? first_cluster entry then validate_cluster_chain v (first_cluster entry) else iret ()) in
         iret (Go (add_file report))))
    (λ _ report, iret (Stop report)) dir_cluster report.

Definition check_volume : fio CheckReport :=
  let! _ := iresult (cluster_lba v (root_cluster v)) in
  let! _ := validate_cluster_chain v (root_cluster v) in
  let! space := space_info v in
  check_directory_tree MAX_FS_CHECK_DEPTH (root_cluster v)
    (mkReport 0 1 (total_clusters space) (free_clusters space) (fs_info_free_count space) (fs_info_matches space)).
End volume.
End device.
End Dir.
