(* ===== verification/Fat32Meta.v ===== *)
(** * Ownership metadata and transaction intents of a FAT32 volume (kernel/src/fat32.rs)

    Three tables live in the last sectors of the reserved area: file metadata by path key
    ([WMD1]), inode metadata by first cluster ([WMD2]) and journal intents ([WJR1]). Each
    is a few sectors of fixed-size records with a byte that marks a live one, and the
    functions of the source repeat the same two loops for each: [table_find] looks for the
    first live record of a key, [table_select] for the record to write. *)
From S2P Require Import Prelude Block DeviceIo Fat32 Fat32Names Fat32Table.
Import Block Io Fat Names.

Module Meta.

Definition METADATA_MAGIC : list Z := lit "WMD1".
Definition METADATA_HEADER_SIZE : nat := 8.
Definition METADATA_RECORD_SIZE : nat := 24.
Definition METADATA_CAPACITY : nat := 21.
Definition METADATA_SECTOR_COUNT : nat := 4.
Definition METADATA_STATE_PENDING : Z := 1.
Definition METADATA_STATE_COMMITTED : Z := 2.
Definition INODE_METADATA_MAGIC : list Z := lit "WMD2".
Definition INODE_METADATA_SECTOR_COUNT : nat := 4.
Definition JOURNAL_MAGIC : list Z := lit "WJR1".
Definition JOURNAL_HEADER_SIZE : nat := 8.
Definition JOURNAL_RECORD_SIZE : nat := 32.
Definition JOURNAL_CAPACITY : nat := 15.
Definition JOURNAL_SECTOR_COUNT : nat := 2.

Record FileMetadata := mkMetadata {
  uid : Z;
  gid : Z;
  mode : Z
}.
#[export] Instance FileMetadata_eq_dec : EqDecision FileMetadata.
Proof. solve_decision. Defined.

Record JournalIntent := mkIntent {
  path_hash : Z;
  path_tag : Z;
  intent_checksum : Z;
  intent_metadata : FileMetadata
}.
#[export] Instance JournalIntent_eq_dec : EqDecision JournalIntent.
Proof. solve_decision. Defined.

(** FNV-1a over the bytes of the path; the tag runs over them backwards. *)
Definition metadata_path_hash (path : list Z) : Z :=
  foldl (λ hash byte, (Z.lxor hash byte * 0x1000000001b3) mod (u64_max + 1)) 0xcbf29ce484222325 (utf8 path).
Definition metadata_path_tag (path : list Z) : Z :=
  foldl (λ hash byte, as_u32 (Z.lxor hash byte * 0x01000193))
    (Z.lxor 0x811c9dc5 (as_u32 (Z.of_nat (length (utf8 path))))) (reverse (utf8 path)).

Definition read_u64 (s : list Z) (off : nat) : Z := from_le_bytes ((λ i, byte_at s (off + i)) <$> seq 0 8).

Definition below_fat (v : Volume) (count index back : nat) : result Z FatError :=
  if (count <=? index)%nat then Err UnsupportedGeometry
  else if first_fat_sector v <? Z.of_nat back then Err UnsupportedGeometry
  else Ok (first_fat_sector v - Z.of_nat back).
Definition metadata_sector (v : Volume) (index : nat) : result Z FatError :=
  below_fat v METADATA_SECTOR_COUNT index (METADATA_SECTOR_COUNT - index).
Definition journal_sector (v : Volume) (index : nat) : result Z FatError :=
  below_fat v JOURNAL_SECTOR_COUNT index (METADATA_SECTOR_COUNT + JOURNAL_SECTOR_COUNT - index).
Definition inode_metadata_sector (v : Volume) (index : nat) : result Z FatError :=
  below_fat v INODE_METADATA_SECTOR_COUNT index
    (METADATA_SECTOR_COUNT + JOURNAL_SECTOR_COUNT + INODE_METADATA_SECTOR_COUNT - index).

(** ** Tables of records *)
Record Table := mkTable {
  t_sector : Volume → nat → result Z FatError;
  t_sectors : nat;
  t_magic : list Z;
  t_version : Z;
  t_capacity : nat;
  t_record : nat;
  t_live : nat
}.
Definition metadata_table : Table :=
  mkTable metadata_sector METADATA_SECTOR_COUNT METADATA_MAGIC 1 METADATA_CAPACITY METADATA_RECORD_SIZE 18.
Definition inode_table : Table :=
  mkTable inode_metadata_sector INODE_METADATA_SECTOR_COUNT INODE_METADATA_MAGIC 2 METADATA_CAPACITY METADATA_RECORD_SIZE 18.
Definition journal_table : Table :=
  mkTable journal_sector JOURNAL_SECTOR_COUNT JOURNAL_MAGIC 1 JOURNAL_CAPACITY JOURNAL_RECORD_SIZE 31.

Definition record_offset (t : Table) (index : nat) : nat := METADATA_HEADER_SIZE + index * t_record t.
Definition is_live (t : Table) (sector : list Z) (offset : nat) : bool := negb (byte_at sector (offset + t_live t) =? 0).
Definition has_magic (t : Table) (sector : list Z) : bool := bool_decide (take 4 sector = t_magic t).

(** The first live record of the key in a sector. *)
Fixpoint record_loop (t : Table) (matches : list Z → nat → bool) (n index : nat) (sector : list Z) : option nat :=
  match n with
  | O => None
  | S n =>
      let offset := record_offset t index in
      if is_live t sector offset && matches sector offset then Some offset
      else record_loop t matches n (S index) sector
  end.

(** The record to write: the first live one of the key, else the first free one. *)
Fixpoint select_loop (t : Table) (matches : list Z → nat → bool) (n index : nat) (sector : list Z) (free : option nat)
    : option nat :=
  match n with
  | O => free
  | S n =>
      let offset := record_offset t index in
      if negb (is_live t sector offset) then
        select_loop t matches n (S index) sector (match free with None => Some offset | Some _ => free end)
      else if matches sector offset then Some offset
      else select_loop t matches n (S index) sector free
  end.

(** A sector without the magic is started anew. *)
Definition formatted (t : Table) (sector : list Z) : list Z :=
  if has_magic t sector then sector
  else splice 4 (to_le_bytes 2 (t_version t)) (splice 0 (t_magic t) zeros).

Section device.
Context {D : Type} `{BlockDevice D} (v : Volume).
Abbreviation fio := (io D FatError).

Definition read_table_sector (t : Table) (index : nat) : fio (list Z) :=
  let! lba := iresult (t_sector t v index) in dread EBlock lba zeros.
Definition write_table_sector (t : Table) (index : nat) (sector : list Z) : fio () :=
  let! lba := iresult (t_sector t v index) in dwrite EBlock lba sector.

Section key.
Context (t : Table) (matches : list Z → nat → bool).

(** The sector number, the sector and the offset of the record found. *)
Fixpoint find_from (n index : nat) : fio (option (nat * list Z * nat)) :=
  match n with
  | O => iret None
  | S n =>
      let! sector := read_table_sector t index in
      if negb (has_magic t sector) then find_from n (S index)
      else match record_loop t matches (t_capacity t) 0 sector with
           | Some offset => iret (Some (index, sector, offset))
           | None => find_from n (S index)
           end
  end.
Definition table_find : fio (option (nat * list Z * nat)) := find_from (t_sectors t) 0.

Fixpoint select_from (n index : nat) : fio (nat * list Z * nat) :=
  match n with
  | O => ierr DirectoryFull
  | S n =>
      let! sector := read_table_sector t index in
      let sector := formatted t sector in
      match select_loop t matches (t_capacity t) 0 sector None with
      | Some offset => iret (index, sector, offset)
      | None => select_from n (S index)
      end
  end.
Definition table_select : fio (nat * list Z * nat) := select_from (t_sectors t) 0.

Definition table_write (record : list Z) : fio () :=
  let! (index, sector, offset) := table_select in
  write_table_sector t index (splice offset record sector).

Definition table_read {A} (decode : list Z → nat → A) : fio (option A) :=
  let! r := table_find in
  match r with
  | Some (_, sector, offset) => iret (Some (decode sector offset))
  | None => iret None
  end.

Definition table_remove : fio () :=
  let! r := table_find in
  match r with
  | Some (index, sector, offset) => write_table_sector t index (splice (offset + t_live t) [0] sector)
  | None => iret ()
  end.
End key.

(** ** Inode metadata *)
Definition inode_matches (inode : Z) (sector : list Z) (offset : nat) : bool := read_u32 sector offset =? inode.
Definition decode_metadata (sector : list Z) (offset : nat) : FileMetadata :=
  mkMetadata (read_u32 sector (offset + 8)) (read_u32 sector (offset + 12)) (read_u16 sector (offset + 16)).

(** The 24 bytes of a metadata record: key, owner, mode, live mark, state, tag. *)
Definition metadata_record (key : list Z) (m : FileMetadata) (state : Z) (tag : list Z) : list Z :=
  key ++ to_le_bytes 4 (uid m) ++ to_le_bytes 4 (gid m) ++ to_le_bytes 2 (mode m) ++ [1; state] ++ tag.

Definition read_inode_metadata (inode : Z) : fio (option FileMetadata) :=
  if inode <? 2 then iret None else table_read inode_table (inode_matches inode) decode_metadata.

Definition write_inode_metadata (inode : Z) (m : FileMetadata) : fio () :=
  if inode <? 2 then ierr UnsupportedGeometry
  else table_write inode_table (inode_matches inode)
         (metadata_record (to_le_bytes 4 inode ++ [0; 0; 0; 0]) m METADATA_STATE_COMMITTED [0; 0; 0; 0]).

Definition remove_inode_metadata (inode : Z) : fio () :=
  if inode <? 2 then iret () else table_remove inode_table (inode_matches inode).

(** ** Journal intents *)
Definition intent_matches (hash tag : Z) (sector : list Z) (offset : nat) : bool :=
  (read_u64 sector offset =? hash) && (read_u32 sector (offset + 8) =? tag).
Definition decode_intent (hash tag : Z) (sector : list Z) (offset : nat) : JournalIntent :=
  mkIntent hash tag (read_u64 sector (offset + 12))
    (mkMetadata (read_u32 sector (offset + 20)) (read_u32 sector (offset + 24)) (read_u16 sector (offset + 28))).
Definition intent_record (i : JournalIntent) : list Z :=
  to_le_bytes 8 (path_hash i) ++ to_le_bytes 4 (path_tag i) ++ to_le_bytes 8 (intent_checksum i) ++
  to_le_bytes 4 (uid (intent_metadata i)) ++ to_le_bytes 4 (gid (intent_metadata i)) ++
  to_le_bytes 2 (mode (intent_metadata i)) ++ [1; 1].

Definition append_journal_intent (i : JournalIntent) : fio () :=
  table_write journal_table (intent_matches (path_hash i) (path_tag i)) (intent_record i).
Definition read_journal_intent (hash tag : Z) : fio (option JournalIntent) :=
  table_read journal_table (intent_matches hash tag) (decode_intent hash tag).
Definition remove_journal_intent (hash tag : Z) : fio () := table_remove journal_table (intent_matches hash tag).

(** ** File metadata; a record without a tag answers for every tag *)
Definition path_matches (hash tag : Z) (sector : list Z) (offset : nat) : bool :=
  (read_u64 sector offset =? hash) && ((read_u32 sector (offset + 20) =? 0) || (read_u32 sector (offset + 20) =? tag)).

Definition read_file_metadata (hash tag : Z) : fio (option FileMetadata) :=
  table_read metadata_table (path_matches hash tag) decode_metadata.

Definition write_file_metadata_state (hash tag : Z) (m : FileMetadata) (state : Z) : fio () :=
  table_write metadata_table (path_matches hash tag) (metadata_record (to_le_bytes 8 hash) m state (to_le_bytes 4 tag)).
Definition write_file_metadata (hash tag : Z) (m : FileMetadata) : fio () :=
  write_file_metadata_state hash tag m METADATA_STATE_COMMITTED.
Definition write_file_metadata_pending (hash tag : Z) (m : FileMetadata) : fio () :=
  write_file_metadata_state hash tag m METADATA_STATE_PENDING.

Definition finalize_file_metadata (hash tag : Z) : fio bool :=
  let! r := table_find metadata_table (path_matches hash tag) in
  match r with
  | Some (index, sector, offset) =>
      let! _ := (if byte_at sector (offset + 19) =? METADATA_STATE_PENDING
                 then write_table_sector metadata_table index (splice (offset + 19) [METADATA_STATE_COMMITTED] sector)
                 else iret ()) in
      iret true
  | None => iret false
  end.

Definition remove_file_metadata (hash tag : Z) : fio () := table_remove metadata_table (path_matches hash tag).
End device.
End Meta.

(** * The metadata tables as maps

    What a table of records stores for a key is a function of its sectors; reading gives
    it, writing changes it for that key alone. Removing a record is not the inverse of
    writing it: a table can hold two records of one key. *)
Import Block Io Fat FatTable Names Meta.

Module MetaProofs.

Record table_ok (t : Table) : Prop := {
  tok_fit : (METADATA_HEADER_SIZE + t_capacity t * t_record t ≤ SECTOR_SIZE)%nat;
  tok_live : (t_live t < t_record t)%nat;
  tok_magic : length (t_magic t) = 4%nat
}.

Section table.
Context (t : Table) (Ht : table_ok t).
Definition record_at (s : list Z) (i : nat) : list Z := slice (record_offset t i) (t_record t) s.
Definition live (r : list Z) : bool := negb (byte_at r (t_live t) =? 0).

Lemma is_live_record s i : is_live t s (record_offset t i) = live (record_at s i).
Proof. unfold is_live, live, record_at. by rewrite byte_at_slice by apply Ht. Qed.

Lemma offset_fit i : (i < t_capacity t)%nat → (record_offset t i + t_record t ≤ SECTOR_SIZE)%nat.
Proof. intros Hi. pose proof (tok_fit t Ht). unfold record_offset. nia. Qed.

Lemma record_splice_eq s i r :
  length s = SECTOR_SIZE → (i < t_capacity t)%nat → length r = t_record t →
  record_at (splice (record_offset t i) r s) i = r.
Proof. intros Hs Hi Hr. apply slice_splice_eq; [done|]. rewrite Hs. by apply offset_fit. Qed.

Lemma record_splice_ne s i j r :
  length s = SECTOR_SIZE → (i < t_capacity t)%nat → length r = t_record t → i ≠ j →
  record_at (splice (record_offset t i) r s) j = record_at s j.
Proof.
  intros Hs Hi Hr Hne. apply slice_splice_ne; rewrite Hr; [rewrite Hs; by apply offset_fit|].
  unfold record_offset. destruct (decide (i < j)%nat); nia.
Qed.

Lemma magic_splice s i r :
  length s = SECTOR_SIZE → (i < t_capacity t)%nat → length r = t_record t →
  has_magic t (splice (record_offset t i) r s) = has_magic t s.
Proof.
  intros Hs Hi Hr. unfold has_magic. f_equal. change (take 4 ?x) with (slice 0 4 x).
  rewrite slice_splice_ne; [done|rewrite Hr, Hs; by apply offset_fit|]. left. unfold record_offset, METADATA_HEADER_SIZE. lia.
Qed.

(** A predicate on sectors and offsets that looks at the record alone. *)
Definition keyed (matches : list Z → nat → bool) (key : list Z → bool) : Prop :=
  ∀ s i, matches s (record_offset t i) = key (record_at s i).

Definition hit (key : list Z → bool) (s : list Z) (i : nat) : bool := live (record_at s i) && key (record_at s i).

Section key.
Context (matches : list Z → nat → bool) (key : list Z → bool) (Hk : keyed matches key).

Lemma record_loop_spec n i s :
  match record_loop t matches n i s with
  | Some off => ∃ j, off = record_offset t j ∧ (i ≤ j < i + n)%nat ∧ hit key s j = true ∧
                     ∀ k, (i ≤ k < j)%nat → hit key s k = false
  | None => ∀ k, (i ≤ k < i + n)%nat → hit key s k = false
  end.
Proof.
  revert i. induction n as [|n IH]; intros i; cbn [record_loop]; [intros; lia|].
  rewrite is_live_record, (Hk s i). fold (hit key s i). destruct (hit key s i) eqn:E.
  - exists i. split_and!; [done|lia|lia|done|intros; lia].
  - specialize (IH (S i)). destruct (record_loop t matches n (S i) s) as [off|].
    + destruct IH as (j & -> & Hj & Hh & Hb). exists j. split_and!; [done|lia|lia|done|].
      intros k Hk'. destruct (decide (k = i)) as [->|]; [done|]. apply Hb. lia.
    + intros k Hk'. destruct (decide (k = i)) as [->|]; [done|]. apply IH. lia.
Qed.

(** The loop is determined by what it finds. *)
Lemma record_loop_found n i s j :
  (i ≤ j < i + n)%nat → hit key s j = true → (∀ k, (i ≤ k < j)%nat → hit key s k = false) →
  record_loop t matches n i s = Some (record_offset t j).
Proof.
  intros Hj Hh Hb. pose proof (record_loop_spec n i s) as Hs. destruct (record_loop t matches n i s) as [off|].
  - destruct Hs as (j' & -> & Hj' & Hh' & Hb'). destruct (decide (j < j')%nat) as [Hlt|].
    { rewrite Hb' in Hh by lia. done. }
    destruct (decide (j' < j)%nat) as [Hlt|]; [rewrite Hb in Hh' by lia; done|]. do 2 f_equal. lia.
  - rewrite Hs in Hh by lia. done.
Qed.

Lemma record_loop_none n i s :
  (∀ k, (i ≤ k < i + n)%nat → hit key s k = false) → record_loop t matches n i s = None.
Proof.
  intros Hb. pose proof (record_loop_spec n i s) as Hs. destruct (record_loop t matches n i s) as [off|]; [|done].
  destruct Hs as (j & _ & Hj & Hh & _). by rewrite Hb in Hh by lia.
Qed.

Definition free_ok (s : list Z) (i : nat) (free : option nat) : Prop :=
  match free with
  | Some off => ∃ j, off = record_offset t j ∧ (j < i)%nat ∧ live (record_at s j) = false
  | None => True
  end.

(** The record chosen for a key: the first live one of the key, or a free one when the
    sector has none of the key. *)
Lemma select_loop_spec n i s free :
  free_ok s i free → (∀ k, (k < i)%nat → hit key s k = false) →
  match select_loop t matches n i s free with
  | Some off => ∃ j, off = record_offset t j ∧ (j < i + n)%nat ∧ (∀ k, (k < j)%nat → hit key s k = false) ∧
                     (hit key s j = true ∨
                      live (record_at s j) = false ∧ ∀ k, (k < i + n)%nat → hit key s k = false)
  | None => ∀ k, (k < i + n)%nat → hit key s k = false
  end.
Proof.
  revert i free. induction n as [|n IH]; intros i free Hf Hb; cbn [select_loop].
  - rewrite Nat.add_0_r. destruct free as [off|]; [|done]. destruct Hf as (j & -> & Hj & Hl). exists j.
    split_and!; [done|lia| |right; done]. intros k Hk'. apply Hb. lia.
  - rewrite is_live_record, (Hk s i). replace (i + S n)%nat with (S i + n)%nat by lia.
    destruct (live (record_at s i)) eqn:El; simpl.
    + destruct (key (record_at s i)) eqn:Ek.
      * exists i. split_and!; [done|lia|done|]. left. unfold hit. by rewrite El, Ek.
      * apply IH.
        { destruct free as [off|]; [|done]. destruct Hf as (j & -> & Hj & Hl). exists j. split_and!; [done|lia|done]. }
        intros k Hk'. destruct (decide (k = i)) as [->|]; [unfold hit; by rewrite El, Ek|]. apply Hb. lia.
    + apply IH.
      { destruct free as [off|]; [destruct Hf as (j & -> & Hj & Hl); exists j; split_and!; [done|lia|done]|].
        exists i. split_and!; [done|lia|done]. }
      intros k Hk'. destruct (decide (k = i)) as [->|]; [unfold hit; by rewrite El|]. apply Hb. lia.
Qed.
End key.

Lemma length_formatted s : length s = SECTOR_SIZE → length (formatted t s) = SECTOR_SIZE.
Proof.
  intros Hs. unfold formatted. destruct (has_magic t s); [done|].
  rewrite !length_splice; rewrite ?length_splice; rewrite ?length_to_le_bytes, ?(tok_magic t Ht); done || (unfold zeros; rewrite length_replicate; unfold SECTOR_SIZE; lia).
Qed.

Lemma magic_formatted s : length s = SECTOR_SIZE → has_magic t (formatted t s) = true.
Proof.
  intros Hs. unfold formatted. destruct (has_magic t s) eqn:E; [done|]. unfold has_magic. apply bool_decide_eq_true.
  change (take 4 ?x) with (slice 0 4 x).
  assert (Hz : length (splice 0 (t_magic t) zeros) = SECTOR_SIZE) by (rewrite length_splice; rewrite ?(tok_magic t Ht); done || (simpl; lia)).
  rewrite slice_splice_ne by (rewrite ?length_to_le_bytes, ?Hz; unfold SECTOR_SIZE; lia).
  apply slice_splice_eq; [apply Ht|]. simpl. lia.
Qed.

Lemma formatted_empty s i : has_magic t s = false → (i < t_capacity t)%nat → live (record_at (formatted t s) i) = false.
Proof.
  intros Hm Hi. unfold formatted. rewrite Hm. unfold live, record_at. rewrite byte_at_slice by apply Ht.
  pose proof (offset_fit i Hi). pose proof (tok_live t Ht). unfold record_offset, METADATA_HEADER_SIZE, SECTOR_SIZE in *.
  assert (Hz : length (splice 0 (t_magic t) zeros) = SECTOR_SIZE) by (rewrite length_splice; rewrite ?(tok_magic t Ht); done || (simpl; lia)).
  rewrite byte_at_splice by (rewrite ?length_to_le_bytes, ?Hz; unfold SECTOR_SIZE; lia).
  rewrite length_to_le_bytes, decide_False by lia.
  rewrite byte_at_splice by (rewrite (tok_magic t Ht); simpl; lia). rewrite (tok_magic t Ht), decide_False by lia.
  unfold byte_at, zeros. rewrite lookup_replicate_2; [done|]. unfold SECTOR_SIZE. lia.
Qed.

(** ** The table on a disk *)
Section disk.
Context (sector : nat → list Z).

(** The record of a key: the first live one, sector by sector. *)
Fixpoint stored_from (matches : list Z → nat → bool) (n i : nat) : option (list Z) :=
  match n with
  | O => None
  | S n =>
      if has_magic t (sector i) then
        match record_loop t matches (t_capacity t) 0 (sector i) with
        | Some off => Some (slice off (t_record t) (sector i))
        | None => stored_from matches n (S i)
        end
      else stored_from matches n (S i)
  end.
Definition stored (matches : list Z → nat → bool) : option (list Z) := stored_from matches (t_sectors t) 0.

(** The sector has no live record of the key. *)
Definition clear_of (key : list Z → bool) (i : nat) : Prop :=
  ∀ k, (k < t_capacity t)%nat → hit key (formatted t (sector i)) k = false.

Lemma clear_skip matches key n i :
  keyed matches key → clear_of key i → stored_from matches (S n) i = stored_from matches n (S i).
Proof.
  intros Hk Hc. cbn [stored_from]. destruct (has_magic t (sector i)) eqn:E; [|done].
  rewrite (record_loop_none matches key Hk); [done|]. intros k Hk'. specialize (Hc k ltac:(lia)).
  unfold formatted in Hc. by rewrite E in Hc.
Qed.
End disk.

Lemma stored_ext f g matches : (∀ i, (i < t_sectors t)%nat → f i = g i) → stored f matches = stored g matches.
Proof.
  intros He. unfold stored.
  enough (Hn : ∀ n i, (i + n = t_sectors t)%nat → stored_from f matches n i = stored_from g matches n i) by (apply Hn; lia).
  induction n as [|n IH]; intros i Hi; [done|]. cbn [stored_from]. by rewrite He, IH by lia.
Qed.

Lemma stored_clear f matches key :
  keyed matches key → (∀ k, (k < t_sectors t)%nat → clear_of f key k) → stored f matches = None.
Proof.
  intros Hk Hc. unfold stored.
  enough (Hn : ∀ n i, (i + n = t_sectors t)%nat → stored_from f matches n i = None) by (apply Hn; lia).
  induction n as [|n IH]; intros i Hi; [done|]. rewrite (clear_skip f matches key) by (done || apply Hc; lia). apply IH. lia.
Qed.

Definition update_sector (sector : nat → list Z) (i : nat) (s : list Z) : nat → list Z :=
  λ k, if decide (k = i) then s else sector k.

Section written.
Context (sector : nat → list Z) (idx j : nat) (r : list Z).
Context (Hlen : ∀ i, (i < t_sectors t)%nat → length (sector i) = SECTOR_SIZE).
Context (Hidx : (idx < t_sectors t)%nat) (Hj : (j < t_capacity t)%nat) (Hr : length r = t_record t) (Hlive : live r = true).
Local Abbreviation s := (formatted t (sector idx)).
Local Abbreviation sector' := (update_sector sector idx (splice (record_offset t j) r s)).

Lemma s_length : length s = SECTOR_SIZE.
Proof. by apply length_formatted, Hlen. Qed.

Lemma s_magic : has_magic t (sector' idx) = true.
Proof. unfold update_sector. rewrite decide_True, magic_splice by (done || apply s_length). by apply magic_formatted, Hlen. Qed.

(** The key that was written. *)
Lemma stored_written matches key :
  keyed matches key → key r = true →
  (∀ i, (i < idx)%nat → clear_of sector key i) → (∀ k, (k < j)%nat → hit key s k = false) →
  stored sector' matches = Some r.
Proof.
  intros Hk Hkey Hclear Hbefore. unfold stored.
  enough (Hn : ∀ n i, (i + n = t_sectors t)%nat → (i ≤ idx)%nat → stored_from sector' matches n i = Some r)
    by (apply Hn; lia).
  induction n as [|n IH]; intros i Hn Hi; [lia|]. destruct (decide (i = idx)) as [->|Hne].
  - cbn [stored_from]. rewrite s_magic. unfold update_sector. rewrite decide_True by done.
    rewrite (record_loop_found matches key Hk _ _ _ j); [|lia| |].
    + f_equal. by apply record_splice_eq; [apply s_length|..].
    + unfold hit. rewrite record_splice_eq by (done || apply s_length). by rewrite Hlive, Hkey.
    + intros k Hk'. unfold hit. rewrite record_splice_ne by (done || apply s_length || lia). apply Hbefore. lia.
  - rewrite (clear_skip _ matches key); [apply IH; lia|done|]. unfold clear_of, update_sector.
    rewrite decide_False by done. apply Hclear. lia.
Qed.

(** A key that neither the new record nor the one it replaces has. *)
Lemma stored_other matches key :
  keyed matches key → key r = false → hit key s j = false →
  stored sector' matches = stored sector matches.
Proof.
  intros Hk Hkey Hold. unfold stored.
  enough (Hn : ∀ n i, stored_from sector' matches n i = stored_from sector matches n i) by apply Hn.
  induction n as [|n IH]; intros i; [done|].
  cbn [stored_from]. destruct (decide (i = idx)) as [->|Hne].
  2: { unfold update_sector at 1 2 3. rewrite !decide_False by done. by rewrite IH. }
  rewrite s_magic.
  assert (Hsame : ∀ k, hit key (sector' idx) k = hit key s k).
  { intros k. unfold update_sector. rewrite decide_True by done. destruct (decide (k = j)) as [->|].
    - rewrite Hold. unfold hit. rewrite record_splice_eq by (done || apply s_length). by rewrite Hkey, andb_false_r.
    - unfold hit. by rewrite record_splice_ne by (done || apply s_length). }
  destruct (has_magic t (sector idx)) eqn:Em.
  - assert (Es : s = sector idx) by (unfold formatted; by rewrite Em).
    pose proof (record_loop_spec matches key Hk (t_capacity t) 0 (sector idx)) as Hspec.
    destruct (record_loop t matches (t_capacity t) 0 (sector idx)) as [off|].
    + destruct Hspec as (k & -> & Hk' & Hh & Hb).
      rewrite (record_loop_found matches key Hk _ _ _ k); [|lia|by rewrite Hsame, Es|].
      2: { intros k' Hk''. rewrite Hsame, Es. by apply Hb. }
      f_equal. change (record_at (sector' idx) k = record_at (sector idx) k). unfold update_sector.
      rewrite decide_True by done. rewrite record_splice_ne, Es; try done; [apply s_length|].
      intros <-. rewrite Es in Hold. congruence.
    + rewrite (record_loop_none matches key Hk); [apply IH|]. intros k Hk'. rewrite Hsame, Es. by apply Hspec.
  - rewrite (record_loop_none matches key Hk); [apply IH|]. intros k Hk'. rewrite Hsame. unfold hit.
    by rewrite formatted_empty by (done || lia).
Qed.
End written.

(** ** The loops on a device *)
Section device.
Context {D : Type} `{BlockDevice D} (ok : D → Prop) (disk : D → Z → list Z) `{!Lawful ok disk} `{!Reliable ok}.
Context (v : Volume) (lba : nat → Z) (count : Z).
Context (Hlba : ∀ i, (i < t_sectors t)%nat → t_sector t v i = Ok (lba i) ∧ 0 ≤ lba i < count).
Context (Hinj : ∀ i j, (i < t_sectors t)%nat → (j < t_sectors t)%nat → lba i = lba j → i = j).
Local Abbreviation content d := (λ i, disk d (lba i)).

Lemma read_table_spec d i (A : Type) (k : list Z → io D FatError A) Q :
  ok d → sector_count d = count → (i < t_sectors t)%nat →
  (∀ d', same ok disk d d' → wp (k (disk d (lba i))) d' Q) →
  wp (let! s := read_table_sector v t i in k s) d Q.
Proof.
  intros Hok Hc Hi Hk. destruct (Hlba i Hi) as [E Hr]. apply wp_bind. unfold read_table_sector.
  apply wp_bind, wp_result. rewrite E. apply (wp_read_in ok disk); [done|by rewrite Hc|done|by intros|done].
Qed.

Lemma same_content d d' i : sector_count d = count → (i < t_sectors t)%nat → same ok disk d d' → content d' i = content d i.
Proof. intros Hc Hi Hs. apply (same_disk ok disk d d'); [done|]. rewrite Hc. by apply Hlba. Qed.

Lemma find_from_spec db d matches n i :
  ok db → sector_count db = count → same ok disk db d → (i + n = t_sectors t)%nat →
  wp (find_from v t matches n i) d (λ d' r, same ok disk db d' ∧
    ∃ o, r = Ok o ∧ (λ x, slice x.2 (t_record t) x.1.2) <$> o = stored_from (content db) matches n i).
Proof.
  intros Hok Hc. revert d i. induction n as [|n IH]; intros d i Hs Hn; cbn [find_from stored_from].
  { apply wp_ret. split; [done|]. by exists None. }
  apply read_table_spec; [by eapply same_ok|by rewrite (same_count _ _ _ _ Hs)|lia|]. intros d1 Hs1.
  rewrite (same_content db d) by (done || lia). pose proof (same_trans ok disk _ _ _ Hs Hs1).
  destruct (has_magic t (disk db (lba i))); simpl; [|apply IH; [done|lia]].
  destruct (record_loop t matches (t_capacity t) 0 (disk db (lba i))); [|apply IH; [done|lia]].
  apply wp_ret. split; [done|]. by eexists.
Qed.

Lemma table_read_spec d {A} matches (decode : list Z → nat → A) (parse : list Z → A) :
  ok d → sector_count d = count → (∀ s off, decode s off = parse (slice off (t_record t) s)) →
  wp (table_read v t matches decode) d (λ d' r, same ok disk d d' ∧ r = Ok (parse <$> stored (content d) matches)).
Proof.
  intros Hok Hc Hd. unfold table_read. apply wp_bind. eapply wp_mono.
  { apply (find_from_spec d d); [done..|by apply io_same_refl|lia]. }
  intros d' r (Hs & o & -> & Ho). unfold stored. rewrite <-Ho.
  destruct o as [[[idx s] off]|]; apply wp_ret; (split; [done|]); simpl; by rewrite ?Hd.
Qed.

Lemma select_from_spec db d matches key n i :
  keyed matches key → ok db → sector_count db = count → same ok disk db d → (i + n = t_sectors t)%nat →
  (∀ k, (k < i)%nat → clear_of (content db) key k) →
  wp (select_from v t matches n i) d (λ d' r, same ok disk db d' ∧
    match r with
    | Ok (idx, s, off) => (idx < t_sectors t)%nat ∧ s = formatted t (content db idx) ∧
        (∀ k, (k < idx)%nat → clear_of (content db) key k) ∧
        ∃ j, off = record_offset t j ∧ (j < t_capacity t)%nat ∧ (∀ k, (k < j)%nat → hit key s k = false) ∧
             (hit key s j = true ∨ live (record_at s j) = false)
    | Err e => e = DirectoryFull ∧ ∀ k, (k < t_sectors t)%nat → clear_of (content db) key k
    end).
Proof.
  intros Hk Hok Hc. revert d i. induction n as [|n IH]; intros d i Hs Hn Hclear; cbn [select_from].
  { apply wp_err. split; [done|]. split; [done|]. intros k Hk'. apply Hclear. lia. }
  apply read_table_spec; [by eapply same_ok|by rewrite (same_count _ _ _ _ Hs)|lia|]. intros d1 Hs1.
  rewrite (same_content db d) by (done || lia). pose proof (same_trans ok disk _ _ _ Hs Hs1) as Hs'. cbv zeta.
  pose proof (select_loop_spec matches key Hk (t_capacity t) 0 (formatted t (disk db (lba i))) None I ltac:(lia)) as Hsel.
  destruct (select_loop t matches (t_capacity t) 0 (formatted t (disk db (lba i))) None) as [off|].
  - apply wp_ret. split; [done|]. destruct Hsel as (j & -> & Hj & Hb & Hh). split_and!; [lia|done|done|].
    exists j. split_and!; [done|lia|done|]. destruct Hh as [?|[? _]]; [by left|by right].
  - apply IH; [done|lia|]. intros k Hk'. destruct (decide (k = i)) as [->|]; [|apply Hclear; lia]. exact Hsel.
Qed.

(** Writing a record stores it for its key and changes nothing for the others. *)
Lemma table_write_spec d matches key r :
  keyed matches key → ok d → is_read_only d = false → sector_count d = count →
  length r = t_record t → live r = true → key r = true →
  wp (table_write v t matches r) d (λ d' res,
    ok d' ∧ sector_count d' = count ∧ is_read_only d' = false ∧
    match res with
    | Ok _ => stored (content d') matches = Some r ∧
        ∀ matches' key', keyed matches' key' → key' r = false → (∀ x, key x = true → key' x = false) →
          stored (content d') matches' = stored (content d) matches'
    | Err e => e = DirectoryFull ∧ same ok disk d d' ∧ stored (content d) matches = None
    end).
Proof.
  intros Hk Hok Hro Hc Hr Hl Hkey. unfold table_write. apply wp_bind. eapply wp_mono.
  { apply (select_from_spec d d matches key); [done..|by apply io_same_refl|lia|intros; lia]. }
  intros d1 [[[idx s] off]|e] [Hs Hsel]; pose proof Hs as (Hok1 & Hc1 & Hro1 & _).
  2: { destruct Hsel as [-> Hclear]. split_and!; try congruence. by eapply stored_clear. }
  destruct Hsel as (Hidx & -> & Hclear & j & -> & Hj & Hb & Hold). unfold write_table_sector.
  destruct (Hlba idx Hidx) as [E Hrange]. apply wp_bind, wp_result. rewrite E.
  assert (Hlen : ∀ i, (i < t_sectors t)%nat → length (content d i) = SECTOR_SIZE).
  { intros i Hi. apply (law_length d); [done|]. rewrite Hc. by apply Hlba. }
  apply (wp_write_in ok disk); [done|congruence| | |].
  { rewrite length_splice; rewrite length_formatted by (done || by apply Hlen); [done|]. rewrite Hr. by apply offset_fit. }
  { intros d2 e _ [?|?]; [done|congruence]. }
  intros d2 (Hok2 & Hc2 & Hro2 & Hd2) Hw. split_and!; [done|congruence|congruence|..].
  all: assert (Hcont : ∀ i, (i < t_sectors t)%nat → content d2 i =
      update_sector (content d) idx (splice (record_offset t j) r (formatted t (content d idx))) i)
    by (intros i Hi; unfold update_sector; destruct (decide (i = idx)) as [->|Hne]; [done|];
        rewrite Hd2; [by apply (same_content d d1)|rewrite Hc1, Hc; by apply Hlba|intros El; apply Hne; by apply Hinj]).
  - rewrite (stored_ext _ _ _ Hcont). by apply (stored_written _ idx j r Hlen Hidx Hj Hr Hl matches key).
  - intros matches' key' Hk' Hr' Hdis. rewrite (stored_ext _ _ _ Hcont).
    apply (stored_other _ idx j r Hlen Hidx Hj Hr matches' key'); [done..|].
    destruct Hold as [Hh|Hdead]; unfold hit in *; [|by rewrite Hdead].
    apply andb_true_iff in Hh as [_ Hh]. by rewrite (Hdis _ Hh), andb_false_r.
Qed.
End device.
End table.

(** ** Inode metadata *)
Lemma inode_table_ok : table_ok inode_table.
Proof. split; vm_compute; lia || done. Qed.

Definition inode_key (inode : Z) (r : list Z) : bool := read_u32 r 0 =? inode.

Lemma read_u32_slice s off n i : (i + 4 ≤ n)%nat → read_u32 (slice off n s) i = read_u32 s (off + i).
Proof. intros Hi. unfold read_u32. rewrite !byte_at_slice by lia. by rewrite !Nat.add_assoc. Qed.
Lemma read_u16_slice s off n i : (i + 2 ≤ n)%nat → read_u16 (slice off n s) i = read_u16 s (off + i).
Proof. intros Hi. unfold read_u16. rewrite !byte_at_slice by lia. by rewrite !Nat.add_assoc. Qed.

Lemma inode_keyed inode : keyed inode_table (inode_matches inode) (inode_key inode).
Proof. intros s i. unfold inode_matches, inode_key, record_at. rewrite read_u32_slice by (cbv; lia). by rewrite Nat.add_0_r. Qed.

Definition valid_metadata (m : FileMetadata) : Prop :=
  0 ≤ uid m ≤ u32_max ∧ 0 ≤ gid m ≤ u32_max ∧ 0 ≤ mode m ≤ u16_max.

Definition inode_record (inode : Z) (m : FileMetadata) : list Z :=
  metadata_record (to_le_bytes 4 inode ++ [0; 0; 0; 0]) m METADATA_STATE_COMMITTED [0; 0; 0; 0].

Lemma le_word n x : 0 ≤ x < 256 ^ Z.of_nat n → from_le_bytes (to_le_bytes n x) = x.
Proof. intros Hx. rewrite from_to_le_bytes by lia. by apply Z.mod_small. Qed.

Lemma inode_record_spec inode m :
  0 ≤ inode ≤ u32_max → valid_metadata m →
  length (inode_record inode m) = t_record inode_table ∧ live inode_table (inode_record inode m) = true ∧
  read_u32 (inode_record inode m) 0 = inode ∧ decode_metadata (inode_record inode m) 0 = m.
Proof.
  intros Hi (Hu & Hg & Hm). unfold u32_max, u16_max in *. split_and!; [done|done|..].
  - transitivity (from_le_bytes (to_le_bytes 4 inode)); [done|]. apply le_word. simpl. lia.
  - unfold decode_metadata. destruct m as [u g mo]. simpl in Hu, Hg, Hm. f_equal.
    + transitivity (from_le_bytes (to_le_bytes 4 u)); [done|]. apply le_word. simpl. lia.
    + transitivity (from_le_bytes (to_le_bytes 4 g)); [done|]. apply le_word. simpl. lia.
    + transitivity (from_le_bytes (to_le_bytes 2 mo)); [done|]. apply le_word. simpl. lia.
Qed.

Section inodes.
Context {D : Type} `{BlockDevice D} (ok : D → Prop) (disk : D → Z → list Z) `{!Lawful ok disk} `{!Reliable ok}.
Context (v : Volume).

(** The ten table sectors lie between the boot sector and the table of clusters. *)
Definition tables_fit (d : D) : Prop := 10 ≤ first_fat_sector v ≤ sector_count d.

Definition inode_lba (i : nat) : Z := first_fat_sector v - 10 + Z.of_nat i.
Lemma inode_lba_spec d i :
  tables_fit d → (i < t_sectors inode_table)%nat →
  t_sector inode_table v i = Ok (inode_lba i) ∧ 0 ≤ inode_lba i < sector_count d.
Proof.
  intros Hf Hi. unfold tables_fit in Hf. simpl in *. unfold inode_metadata_sector, below_fat, inode_lba.
  unfold INODE_METADATA_SECTOR_COUNT, METADATA_SECTOR_COUNT, JOURNAL_SECTOR_COUNT in *.
  rewrite (proj2 (Nat.leb_gt _ _)) by lia. rewrite (proj2 (Z.ltb_ge _ _)) by lia. split; [f_equal; lia|lia].
Qed.

Definition owner (d : D) (inode : Z) : option FileMetadata :=
  (λ r, decode_metadata r 0) <$> stored inode_table (λ i, disk d (inode_lba i)) (inode_matches inode).

Lemma read_inode_spec d inode :
  ok d → tables_fit d → 2 ≤ inode →
  wp (read_inode_metadata v inode) d (λ d' r, same ok disk d d' ∧ r = Ok (owner d inode)).
Proof.
  intros Hok Hf Hi. unfold read_inode_metadata. rewrite (proj2 (Z.ltb_ge _ _)) by done.
  apply (table_read_spec inode_table ok disk v inode_lba (sector_count d)); [|done|done|].
  - intros i Hi'. by apply inode_lba_spec.
  - intros s off. unfold decode_metadata.
    rewrite !read_u32_slice, read_u16_slice by (cbv; lia). by rewrite !Nat.add_0_l.
Qed.

(** The inode table behaves as a map: recording the owner and mode of an inode makes the
    next read of that inode return exactly them and leaves what is read for every other
    inode unchanged; it fails only when no slot is left, and then the table is unchanged
    and had nothing for the inode. *)
Theorem inode_metadata_exact d inode m :
  ok d → is_read_only d = false → tables_fit d → 2 ≤ inode ≤ u32_max → valid_metadata m →
  wp (write_inode_metadata v inode m) d (λ d' r,
    match r with
    | Ok _ =>
        wp (read_inode_metadata v inode) d' (λ _ r', r' = Ok (Some m)) ∧
        ∀ other x, other ≠ inode → wp (read_inode_metadata v other) d (λ _ r', r' = Ok x) →
          wp (read_inode_metadata v other) d' (λ _ r', r' = Ok x)
    | Err e => e = DirectoryFull ∧ same ok disk d d' ∧ wp (read_inode_metadata v inode) d (λ _ r', r' = Ok None)
    end).
Proof.
  intros Hok Hro Hf Hi Hm. destruct (inode_record_spec inode m ltac:(lia) Hm) as (Hlen & Hlive & Hkey & Hdec).
  unfold write_inode_metadata. rewrite (proj2 (Z.ltb_ge _ _)) by lia. fold (inode_record inode m).
  eapply wp_mono.
  { apply (table_write_spec inode_table inode_table_ok ok disk v inode_lba (sector_count d)
      ltac:(by intros; apply inode_lba_spec) ltac:(unfold inode_lba; lia) d (inode_matches inode) (inode_key inode));
      try done; [apply inode_keyed|]. unfold inode_key. by rewrite Hkey, Z.eqb_refl. }
  intros d' res (Hok' & Hc' & Hro' & Hres).
  assert (Hf' : tables_fit d') by (unfold tables_fit in *; by rewrite Hc').
  destruct res as [[]|e].
  - destruct Hres as [Hs Hother]. split.
    + eapply wp_mono; [by apply read_inode_spec; [..|lia]|]. intros d2 r [_ ->]. unfold owner. rewrite Hs. simpl. by rewrite Hdec.
    + intros other x Hne Hx. destruct (decide (other < 2)) as [Hlt|Hge].
      { unfold read_inode_metadata in *. by rewrite (proj2 (Z.ltb_lt _ _)) in * by done. }
      eapply wp_mono; [by apply read_inode_spec; [..|lia]|]. intros d2 r [_ ->].
      pose proof (read_inode_spec d other Hok Hf ltac:(lia)) as Hr. unfold wp in Hr, Hx.
      destruct (read_inode_metadata v other d) as [d3 r3]. destruct Hr as [_ ->]. rewrite <-Hx. unfold owner.
      rewrite (Hother _ (inode_key other)); [done|apply inode_keyed|..]; unfold inode_key.
      * rewrite Hkey. by apply Z.eqb_neq.
      * intros y Hy. apply Z.eqb_eq in Hy. rewrite Hy. by apply Z.eqb_neq.
  - destruct Hres as (-> & Hs & Hn). split_and!; [done..|].
    eapply wp_mono; [by apply read_inode_spec; [..|lia]|]. intros d2 r [_ ->]. unfold owner. by rewrite Hn.
Qed.
End inodes.
End MetaProofs.

Module MetaDemo.
Import MetaProofs.
(** Twelve reserved sectors and a little more. *)
Definition small : Volume := mkVolume 16 1 1 1 2 12 13 None None 3.
Definition blank : RamDisk := new 16.
Definition owner_m (k : Z) : FileMetadata := mkMetadata k k 0x1a0.

Lemma inode_metadata_exact_witness :
  wp (write_inode_metadata small 5 (owner_m 1000)) blank (λ d' r, r = Ok ()) ∧
  wp (write_inode_metadata small 5 (owner_m 1000)) blank (λ d' r,
    r = Ok () → wp (read_inode_metadata small 5) d' (λ _ r', r' = Ok (Some (owner_m 1000)))).
Proof.
  split; [vm_compute; reflexivity|]. eapply wp_mono.
  - apply (inode_metadata_exact ram_ok ram_disk small blank 5 (owner_m 1000)).
    + split; [vm_compute; discriminate|]. apply Forall_replicate. reflexivity.
    + reflexivity.
    + split; vm_compute; discriminate.
    + split; vm_compute; discriminate.
    + split; [|split]; split; vm_compute; discriminate.
  - intros d' [[]|e]; [|done]. by intros [? _].
Defined.

(** Inodes 10 to 30 fill the first sector of the table, so inode 5 goes to the second. *)
Definition crowd {D} `{BlockDevice D} : io D FatError () :=
  ifold (λ _ i, write_inode_metadata small (Z.of_nat i) (owner_m 1)) (seq 10 21) ().

(** Removing the metadata of an inode can bring an older owner back: when a slot has come
    free in an earlier sector, writing again leaves the old record in place behind the new
    one, and the removal clears only the first. After the owner of inode 5 was recorded
    as 1000, replaced by 2000 and removed, the table still answers 1000. *)
Theorem removed_metadata_resurfaces :
  wp (let! _ := crowd in
      let! _ := write_inode_metadata small 5 (owner_m 1000) in
      let! _ := remove_inode_metadata small 10 in
      let! _ := write_inode_metadata small 5 (owner_m 2000) in
      let! before := read_inode_metadata small 5 in
      let! _ := remove_inode_metadata small 5 in
      let! after := read_inode_metadata small 5 in
      iret (before, after)) blank
    (λ _ r, r = Ok (Some (owner_m 2000), Some (owner_m 1000))).
Proof. vm_compute. reflexivity. Qed.
End MetaDemo.
