(* ===== verification/Fat32Walk.v ===== *)
(** * Walking a directory

    On a directory whose clusters form a chain, the walk of the source is a scan over the
    list of its entries, from the first sector of the first cluster to the last. This file
    proves that once for [walk], and derives what lookup and the search for a slot return. *)
From S2P Require Import Prelude Block DeviceIo Fat32 Fat32Table Fat32Chains Fat32Data Fat32Names Fat32Dir.
Import Block Io Fat FatTable FatChains FatData Names Dir.

Module FatWalk.

(** ** Scans over a list of entries *)
Section scan.
Context {S R : Type} (step : Z → list Z → nat → S → result (visit S R) FatError).

(** The entries at [ps], sector number and offset, read through [sector]. *)
Fixpoint scan_list (sector : Z → list Z) (ps : list (Z * nat)) (s : S) : result (visit S R) FatError :=
  match ps with
  | [] => Ok (Go s)
  | p :: ps =>
      match step p.1 (sector p.1) p.2 s with
      | Ok (Go s) => scan_list sector ps s
      | r => r
      end
  end.

Lemma scan_list_app sector ps qs s :
  scan_list sector (ps ++ qs) s =
    match scan_list sector ps s with
    | Ok (Go s) => scan_list sector qs s
    | r => r
    end.
Proof.
  revert s. induction ps as [|p ps IH]; intros s; [done|]. simpl.
  destruct (step p.1 (sector p.1) p.2 s) as [[r|s']|e]; [done|apply IH|done].
Qed.

Lemma scan_list_ext f g ps s :
  (∀ p, p ∈ ps → f p.1 = g p.1) → scan_list f ps s = scan_list g ps s.
Proof.
  revert s. induction ps as [|p ps IH]; intros s He; [done|]. simpl. rewrite (He p) by left.
  destruct (step p.1 (g p.1) p.2 s) as [[r|s']|e]; [done| |done]. apply IH. intros q Hq. apply He. by right.
Qed.

(** The sixteen entries of one sector. *)
Definition sector_positions (k : Z) : list (Z * nat) := (λ i, (k, (i * DIRECTORY_ENTRY_SIZE)%nat)) <$> seq 0 16.
Definition scan_one (k : Z) (sector : list Z) (s : S) : result (visit S R) FatError :=
  scan_list (λ _, sector) (sector_positions k) s.
End scan.

Section walk.
Context {D : Type} `{BlockDevice D} (ok : D → Prop) (disk : D → Z → list Z) `{!Lawful ok disk} `{!Reliable ok}.
Context (v : Volume) (d0 : D) (G : geometry v (sector_count d0)) (Hok0 : ok d0).
Local Abbreviation on_volume := (FatTable.on_volume ok disk v d0).
Local Abbreviation fat := (FatTable.fat disk v).
Local Abbreviation chain := (FatChains.chain v).
Local Abbreviation spc := (sectors_per_cluster v).
Local Abbreviation lba := (FatData.lba v).
Local Abbreviation lbas := (FatData.lbas v).
Local Abbreviation same := (Io.same ok disk).

Definition positions (l : list Z) : list (Z * nat) := lbas l ≫= sector_positions.

Lemma positions_cons c l : positions (c :: l) = (seqZ (lba c) spc ≫= sector_positions) ++ positions l.
Proof. unfold positions, FatData.lbas. simpl. by rewrite bind_app. Qed.

Lemma positions_app l l' : positions (l ++ l') = positions l ++ positions l'.
Proof. unfold positions, FatData.lbas. by rewrite !bind_app. Qed.

Lemma same_on d d' : on_volume d → same d d' → on_volume d'.
Proof.
  intros Hv Hs. destruct (touched_table ok disk v d0 G [] d d' Hv) as [? _]; [constructor|by apply same_touched|done].
Qed.

Lemma elem_sector_positions p k : p ∈ sector_positions k → p.1 = k.
Proof. unfold sector_positions. intros Hp. by apply list_elem_of_fmap in Hp as (i & -> & _). Qed.

Section instance.
Context {S R : Type} (scan : Z → list Z → S → io D FatError (visit S R)).
Context (at_end : Z → S → io D FatError (visit (Z * S) R)) (step : Z → list Z → nat → S → result (visit S R) FatError).
Context (Hscan : ∀ k sector s d, scan k sector s d = (d, scan_one step k sector s)).

Lemma scan_sectors_spec db d n k s :
  on_volume db → same db d → 0 ≤ k → k + Z.of_nat n ≤ sector_count d0 →
  wp (scan_sectors scan n k s) d (λ d' r,
    same db d' ∧ r = scan_list step (disk db) (seqZ k (Z.of_nat n) ≫= sector_positions) s).
Proof.
  intros Hv. revert d k s. induction n as [|n IH]; intros d k s Hs Hk Hn; cbn [scan_sectors].
  { by apply wp_ret. }
  pose proof Hv as (_ & Hcnt & _). pose proof Hs as (Hok & Hc' & _).
  apply wp_bind, (wp_read_in ok disk); [done|rewrite Hc', Hcnt; lia|done|by intros|].
  intros d1 Hs1. rewrite (same_disk ok disk db d) by (done || lia). pose proof (same_trans ok disk _ _ _ Hs Hs1) as Hs'.
  rewrite seqZ_cons by lia. replace (Z.pred (Z.of_nat (Datatypes.S n))) with (Z.of_nat n) by lia. unfold Z.succ.
  rewrite bind_cons, scan_list_app.
  assert (Hone : scan_list step (disk db) (sector_positions k) s = scan_one step k (disk db k) s).
  { apply scan_list_ext. intros p Hp. by rewrite (elem_sector_positions p k Hp). }
  rewrite Hone. apply wp_bind. unfold wp at 1. rewrite Hscan.
  destruct (scan_one step k (disk db k) s) as [[r|s']|e]; [by apply wp_ret| |done].
  apply IH; [done|lia|lia].
Qed.

Lemma same_fat db d x : on_volume db → same db d → in_range v x → fat d x = fat db x.
Proof. intros Hv Hs. by apply (same_evolve ok disk v d0 G db d). Qed.

(** One cluster of the walk. *)
Lemma walk_step db d c budget visited s (Q : D → result R FatError → Prop) :
  on_volume db → same db d → in_range v c → c ∉ visited →
  (∀ d', same db d' →
    match scan_list step (disk db) (seqZ (lba c) spc ≫= sector_positions) s with
    | Ok (Stop r) => Q d' (Ok r)
    | Err e => Q d' (Err e)
    | Ok (Go s') =>
        wp (match link_of v (fat db) c with
            | Ok (Next next) => walk v scan at_end budget (visited ++ [c]) next s'
            | Ok End =>
                let! r := at_end c s' in
                match r with
                | Stop r => iret r
                | Go (next, s) => walk v scan at_end budget (visited ++ [c]) next s
                end
            | Err e => ierr e
            end) d' Q
    end) →
  wp (walk v scan at_end (Datatypes.S budget) visited c s) d Q.
Proof.
  intros Hv Hs Hr Hc HQ. cbn [walk]. rewrite bool_decide_false by done. cbv zeta. apply wp_bind, wp_result.
  rewrite (cluster_lba_ok ok disk v d0 G Hok0 c Hr). apply wp_bind.
  pose proof (cluster_span v _ G c Hr). pose proof (table_end _ _ G). pose proof (g_reserved _ _ G).
  pose proof (g_spc _ _ G). pose proof (g_fat_size _ _ G).
  eapply wp_mono; [apply (scan_sectors_spec db d); [done|done|unfold FatData.lba; lia|unfold FatData.lba; lia]|].
  intros d1 r [Hs1 ->]. rewrite Z2Nat.id by lia. specialize (HQ d1 Hs1) as HQ1.
  destruct (scan_list step (disk db) (seqZ (lba c) spc ≫= sector_positions) s) as [[r|s']|e]; [by apply wp_ret| |done].
  apply wp_bind. eapply wp_mono; [by apply (next_cluster_spec ok disk v d0 G Hok0), (same_on db)|].
  intros d2 r2 [Hs2 [-> |[_ ?]]]; [|done]. specialize (HQ d2 (same_trans ok disk _ _ _ Hs1 Hs2)).
  rewrite (link_ext v _ (fat db)) by (intros x Hx; by apply same_fat).
  destruct (link_of v (fat db) c) as [[next|]|e]; done.
Qed.

(** The walk over a chain, up to what happens at its end. *)
Lemma walk_spec db d c l budget visited s (Q : D → result R FatError → Prop) :
  on_volume db → same db d → chain (fat db) c l → (length l ≤ budget)%nat → (∀ x, x ∈ l → x ∉ visited) →
  (∀ d', same db d' →
    match scan_list step (disk db) (positions l) s with
    | Ok (Stop r) => Q d' (Ok r)
    | Err e => Q d' (Err e)
    | Ok (Go s') =>
        ∀ c', last l = Some c' →
          wp (let! r := at_end c' s' in
              match r with
              | Stop r => iret r
              | Go (next, s) => walk v scan at_end (budget - length l) (visited ++ l) next s
              end) d' Q
    end) →
  wp (walk v scan at_end budget visited c s) d Q.
Proof.
  intros Hv Hs Hc. revert d visited budget s Hs.
  induction Hc as [c Hc|c c' l Hc Hl IH]; intros d visited budget s Hs Hlen Hvis HQ;
    (destruct budget as [|budget]; [simpl in Hlen; lia|]);
    (apply (walk_step db); [done|done|by eapply link_range|apply Hvis; left|]);
    intros d1 Hs1; rewrite Hc; rewrite positions_cons in HQ; setoid_rewrite scan_list_app in HQ.
  - specialize (HQ d1 Hs1). destruct (scan_list step (disk db) _ s) as [[r|s']|e]; [done| |done].
    cbn [positions] in HQ. simpl in HQ. rewrite Nat.sub_0_r in HQ. by apply HQ.
  - specialize (HQ d1 Hs1) as HQ1. destruct (scan_list step (disk db) (seqZ _ _ ≫= _) s) as [[r|s']|e]; [done| |done].
    apply IH; [done|simpl in Hlen; lia| |].
    + intros x Hx. rewrite elem_of_app, list_elem_of_singleton. intros [Hin| ->].
      * apply (Hvis x); [by right|done].
      * assert (Hd : NoDup (c :: l)) by (eapply chain_NoDup, chain_next; done). by apply NoDup_cons in Hd as [? _].
    + intros d2 Hs2. specialize (HQ d2 Hs2).
      destruct (scan_list step (disk db) (positions l) s') as [[r|s2]|e]; [done| |done].
      intros e He. rewrite <-app_assoc. simpl in HQ. apply HQ. destruct (chain_head _ _ _ _ Hl) as [l' ->]. done.
Qed.
End instance.

(** Scanning entry by entry. *)
Lemma each_entry_spec {S R} (entry : Z → list Z → nat → S → io D FatError (visit S R)) step :
  (∀ k sector off s d, entry k sector off s d = (d, step k sector off s)) →
  ∀ k sector s d, each_entry entry k sector s d = (d, scan_one step k sector s).
Proof.
  intros He k sector s d. unfold each_entry, scan_one, sector_positions.
  enough (Hn : ∀ n i s, each_entry_loop entry n i k sector s d =
    (d, scan_list step (λ _, sector) ((λ i, (k, (i * DIRECTORY_ENTRY_SIZE)%nat)) <$> seq i n) s)) by apply Hn.
  clear s. induction n as [|n IH]; intros i s; [done|].
  cbn [each_entry_loop seq fmap list_fmap scan_list fst snd]. unfold ibind at 1. rewrite He.
  destruct (step k sector (i * DIRECTORY_ENTRY_SIZE)%nat s) as [[r|s']|e]; [done|apply IH|done].
Qed.
End walk.

(** ** Entries as 32 bytes *)
Definition raw (sector : Z → list Z) (p : Z * nat) : list Z := slice p.2 DIRECTORY_ENTRY_SIZE (sector p.1).

Definition raw_cluster (r : list Z) : Z := Z.lor (Z.shiftl (read_u16 r 20) 16) (read_u16 r 26).
Definition raw_entry (r : list Z) : DirectoryEntry :=
  mkDirectoryEntry (take 11 r) (raw_cluster r) (read_u32 r 28) (byte_at r 11).

(** The entry ends the directory; it is in use under a short name; it has this one. *)
Definition is_end (r : list Z) : bool := byte_at r 0 =? 0.
Definition is_deleted (r : list Z) : bool := byte_at r 0 =? 0xe5.
Definition in_use (r : list Z) : bool :=
  negb (is_end r) && negb (is_deleted r) && negb (byte_at r 11 =? LONG_NAME_ATTRIBUTE) &&
  negb (has_attribute (byte_at r 11) VOLUME_ID_ATTRIBUTE).
Definition named (short r : list Z) : bool := in_use r && bool_decide (take 11 r = short).
(** Neither the end nor the name. *)
Definition passed (short r : list Z) : Prop := is_end r = false ∧ named short r = false.
Definition broken (r : list Z) : bool := (raw_cluster r <? 2) && negb (read_u32 r 28 =? 0).

Lemma byte_raw s off i : (i < 32)%nat → byte_at s (off + i) = byte_at (slice off DIRECTORY_ENTRY_SIZE s) i.
Proof. intros Hi. unfold byte_at, slice, DIRECTORY_ENTRY_SIZE. by rewrite lookup_take_lt, lookup_drop by lia. Qed.
Lemma byte_raw_0 s off : byte_at s off = byte_at (slice off DIRECTORY_ENTRY_SIZE s) 0.
Proof. rewrite <-byte_raw by lia. by rewrite Nat.add_0_r. Qed.
Lemma name_raw s off : slice off 11 s = take 11 (slice off DIRECTORY_ENTRY_SIZE s).
Proof. unfold slice. by rewrite take_take. Qed.
Lemma u16_raw s off i : (i + 2 ≤ 32)%nat → read_u16 s (off + i) = read_u16 (slice off DIRECTORY_ENTRY_SIZE s) i.
Proof. intros Hi. unfold read_u16. rewrite <-Nat.add_assoc, !byte_raw by lia. done. Qed.
Lemma u32_raw s off i : (i + 4 ≤ 32)%nat → read_u32 s (off + i) = read_u32 (slice off DIRECTORY_ENTRY_SIZE s) i.
Proof. intros Hi. unfold read_u32. rewrite <-!Nat.add_assoc, !byte_raw by lia. done. Qed.
Lemma cluster_raw s off : entry_cluster s off = raw_cluster (slice off DIRECTORY_ENTRY_SIZE s).
Proof. unfold entry_cluster, raw_cluster. by rewrite !u16_raw by lia. Qed.

(** ** Lookup of a short name *)
Definition find_step (short : list Z) (k : Z) (sector : list Z) (off : nat) (_ : ()) : result (visit () DirectoryEntry) FatError :=
  let r := slice off DIRECTORY_ENTRY_SIZE sector in
  if is_end r then Err NotFound
  else if named short r then if broken r then Err CorruptDirectory else Ok (Stop (raw_entry r))
  else Ok (Go ()).

Lemma scan_entry_raw sector short off :
  scan_directory_entry sector short off =
    let r := slice off DIRECTORY_ENTRY_SIZE sector in
    if is_end r then Some (Ok ScanEnd)
    else if named short r then if broken r then Some (Err CorruptDirectory) else Some (Ok (Found (raw_entry r)))
    else None.
Proof.
  unfold scan_directory_entry. rewrite byte_raw_0, byte_raw, name_raw, cluster_raw, u32_raw by lia.
  set (r := slice off DIRECTORY_ENTRY_SIZE sector). cbv zeta. unfold named, in_use, is_end, is_deleted, broken, raw_entry.
  destruct (byte_at r 0 =? 0); [done|]. destruct (byte_at r 0 =? 229); [done|].
  destruct (byte_at r 11 =? LONG_NAME_ATTRIBUTE); [done|]. destruct (has_attribute _ _); [done|]. simpl.
  destruct (bool_decide (take 11 r = short)); [|done]. simpl. by destruct (_ && _).
Qed.

Lemma scan_sector_raw {D} k sector short (d : D) :
  (let! r := iresult (scan_directory_sector sector short) in
   match r with
   | Found e => iret (Stop e)
   | ScanEnd => ierr NotFound
   | Continue => iret (Go ())
   end) d = (d, scan_one (find_step short) k sector ()).
Proof.
  unfold ibind, iresult, scan_directory_sector, scan_one, sector_positions.
  enough (Hn : ∀ n i,
    (match scan_directory_loop n i sector short with
     | Ok r => match r with
               | Found e => iret (Stop e)
               | ScanEnd => ierr NotFound
               | Continue => iret (Go ())
               end d
     | Err e => (d, Err e)
     end) = (d, scan_list (find_step short) (λ _, sector) ((λ i, (k, (i * DIRECTORY_ENTRY_SIZE)%nat)) <$> seq i n) ()))
    by apply Hn.
  induction n as [|n IH]; intros i; [done|].
  cbn [scan_directory_loop seq fmap list_fmap scan_list fst snd]. rewrite scan_entry_raw. unfold find_step at 1. cbv zeta.
  destruct (is_end _); [done|]. destruct (named short _); [by destruct (broken _)|]. apply IH.
Qed.

(** What a lookup finds, entry by entry. *)
Fixpoint lookup (short : list Z) (rs : list (list Z)) : result DirectoryEntry FatError :=
  match rs with
  | [] => Err NotFound
  | r :: rs =>
      if is_end r then Err NotFound
      else if named short r then if broken r then Err CorruptDirectory else Ok (raw_entry r)
      else lookup short rs
  end.

Lemma find_scan short sector ps :
  match scan_list (find_step short) sector ps () with
  | Ok (Stop e) => Ok e
  | Ok (Go _) => Err NotFound
  | Err e => Err e
  end = lookup short (raw sector <$> ps).
Proof.
  induction ps as [|p ps IH]; [done|]. cbn [scan_list fmap list_fmap lookup]. unfold find_step at 1. cbv zeta.
  change (slice p.2 DIRECTORY_ENTRY_SIZE (sector p.1)) with (raw sector p).
  destruct (is_end (raw sector p)); [done|]. destruct (named short (raw sector p)); [by destruct (broken _)|]. apply IH.
Qed.

Lemma lookup_passed short rs rs' : Forall (passed short) rs → lookup short (rs ++ rs') = lookup short rs'.
Proof. induction 1 as [|r rs [H1 H2] HF IH]; [done|]. simpl. by rewrite H1, H2. Qed.

Lemma lookup_found short rs r rs' :
  Forall (passed short) rs → named short r = true → broken r = false → lookup short (rs ++ r :: rs') = Ok (raw_entry r).
Proof.
  intros HF Hn Hb. rewrite lookup_passed by done. simpl. rewrite Hn, Hb.
  unfold named, in_use in Hn. destruct (is_end r); [done|]. done.
Qed.

(** A name that was found stays found when another entry changes. *)
Lemma lookup_replace short rs r r' rs' e :
  lookup short (rs ++ r :: rs') = Ok e → named short r = false → is_end r' = false → named short r' = false →
  lookup short (rs ++ r' :: rs') = Ok e.
Proof.
  intros Hl Hn He Hn'. induction rs as [|x rs IH]; simpl in *.
  - rewrite He, Hn'. destruct (is_end r); [done|]. by rewrite Hn in Hl.
  - destruct (is_end x); [done|]. destruct (named short x); [done|]. by apply IH.
Qed.

Lemma lookup_app short rs rs' e : lookup short rs = Ok e → lookup short (rs ++ rs') = Ok e.
Proof.
  induction rs as [|x rs IH]; simpl; [done|]. destruct (is_end x); [done|]. destruct (named short x); [done|]. apply IH.
Qed.

(** ** The search for a slot *)
Definition slot_step (short : list Z) (k : Z) (sector : list Z) (off : nat) (deleted : option (Z * nat))
    : result (visit (option (Z * nat)) DirectorySlotReservation) FatError :=
  let r := slice off DIRECTORY_ENTRY_SIZE sector in
  if is_end r then let p := default (k, off) deleted in Ok (Stop (mkReservation p.1 p.2 None None))
  else if is_deleted r then Ok (Go (match deleted with None => Some (k, off) | Some _ => deleted end))
  else if named short r then Ok (Stop (mkReservation k off (Some (raw_entry r)) None))
  else Ok (Go deleted).

(** A slot that may be overwritten: the name's own entry, a deleted one or the end; what
    comes before it is neither the end nor the name. *)
Definition slot_for (short : list Z) (sector : Z → list Z) (ps : list (Z * nat)) (p : Z * nat) (old : option DirectoryEntry)
    : Prop :=
  ∃ a b, ps = a ++ p :: b ∧ Forall (passed short) (raw sector <$> a) ∧
    match old with
    | Some e => named short (raw sector p) = true ∧ e = raw_entry (raw sector p)
    | None => (is_end (raw sector p) = true ∨ is_deleted (raw sector p) = true) ∧
              lookup short (raw sector <$> ps) = Err NotFound
    end.

(** No slot: every entry is in use, and none has the name. *)
Definition is_full (short : list Z) (rs : list (list Z)) : bool :=
  forallb (λ r, negb (is_end r) && negb (named short r) && negb (is_deleted r)) rs.

Lemma slot_not_full short sector ps p old : slot_for short sector ps p old → is_full short (raw sector <$> ps) = false.
Proof.
  intros (a & b & -> & _ & Hp). apply not_true_iff_false. unfold is_full. rewrite forallb_forall. intros Hf.
  specialize (Hf (raw sector p)). rewrite !andb_true_iff, !negb_true_iff in Hf.
  destruct Hf as [[H1 H2] H3]; [apply list_elem_of_In, list_elem_of_fmap; exists p; split; [done|set_solver]|].
  destruct old as [e|]; [destruct Hp as [Hp _]|destruct Hp as [[Hp|Hp] _]]; congruence.
Qed.

Lemma full_passed short rs : is_full short rs = true → Forall (passed short) rs.
Proof.
  unfold is_full. rewrite forallb_forall, Forall_forall. intros Hf r Hr. apply list_elem_of_In, Hf in Hr.
  rewrite !andb_true_iff, !negb_true_iff in Hr. by destruct Hr as [[? ?] _].
Qed.

Definition remembered (sector : Z → list Z) (pre : list (Z * nat)) (deleted : option (Z * nat)) : Prop :=
  match deleted with
  | Some q => ∃ a b, pre = a ++ q :: b ∧ is_deleted (raw sector q) = true
  | None => Forall (λ q, is_deleted (raw sector q) = false) pre
  end.

Lemma remembered_slot short sector pre ps q :
  Forall (passed short) (raw sector <$> pre) → remembered sector pre (Some q) →
  lookup short (raw sector <$> ps) = Err NotFound → slot_for short sector (pre ++ ps) q None.
Proof.
  intros HF (a & b & -> & Hq) Hl. exists a, (b ++ ps). split_and!; [by rewrite <-app_assoc| |by right|].
  - rewrite fmap_app in HF. by apply Forall_app in HF as [? _].
  - by rewrite fmap_app, lookup_passed.
Qed.

Lemma slot_scan short sector pre ps deleted :
  Forall (passed short) (raw sector <$> pre) → remembered sector pre deleted →
  match scan_list (slot_step short) sector ps deleted with
  | Ok (Stop r) => extension r = None ∧ slot_for short sector (pre ++ ps) (slot_lba r, slot_offset r) (existing r)
  | Ok (Go deleted') => Forall (passed short) (raw sector <$> (pre ++ ps)) ∧ remembered sector (pre ++ ps) deleted'
  | Err _ => False
  end.
Proof.
  revert pre deleted. induction ps as [|p ps IH]; intros pre deleted HF Hd; cbn [scan_list].
  { by rewrite app_nil_r. }
  unfold slot_step at 1. cbv zeta. change (slice p.2 DIRECTORY_ENTRY_SIZE (sector p.1)) with (raw sector p).
  replace (pre ++ p :: ps) with ((pre ++ [p]) ++ ps) by (by rewrite <-app_assoc).
  destruct (is_end (raw sector p)) eqn:Ee.
  { split; [done|]. cbn [slot_lba slot_offset existing]. rewrite <-app_assoc.
    assert (Hl : lookup short (raw sector <$> p :: ps) = Err NotFound) by (cbn [fmap list_fmap lookup]; by rewrite Ee).
    destruct deleted as [q|].
    - simpl. rewrite <-surjective_pairing. by apply remembered_slot.
    - simpl. rewrite <-surjective_pairing. exists pre, ps. split_and!; [done|done|by left|].
      change ([p] ++ ps) with (p :: ps). by rewrite fmap_app, lookup_passed. }
  assert (Hext : named short (raw sector p) = false → Forall (passed short) (raw sector <$> (pre ++ [p]))).
  { intros Hn. rewrite fmap_app. apply Forall_app. split; [done|]. repeat constructor; done. }
  destruct (is_deleted (raw sector p)) eqn:Ed.
  - apply IH; [apply Hext; unfold named, in_use; by rewrite Ed, andb_false_r|].
    destruct deleted as [q|].
    + destruct Hd as (a & b & -> & Hq). exists a, (b ++ [p]). split; [by rewrite <-app_assoc|done].
    + exists pre, []. split; [by rewrite <-surjective_pairing|by rewrite <-surjective_pairing].
  - destruct (named short (raw sector p)) eqn:En.
    + split; [done|]. cbn [slot_lba slot_offset existing]. rewrite <-surjective_pairing, <-app_assoc.
      exists pre, ps. by split_and!.
    + apply IH; [by apply Hext|]. destruct deleted as [q|].
      * destruct Hd as (a & b & -> & Hq). exists a, (b ++ [p]). split; [by rewrite <-app_assoc|done].
      * apply Forall_app. split; [done|]. by repeat constructor.
Qed.

(** ** On a device *)
Section device.
Context {D : Type} `{BlockDevice D} (ok : D → Prop) (disk : D → Z → list Z) `{!Lawful ok disk} `{!Reliable ok}.
Context (v : Volume) (d0 : D) (G : geometry v (sector_count d0)) (Hok0 : ok d0).
Local Abbreviation on_volume := (FatTable.on_volume ok disk v d0).
Local Abbreviation fat := (FatTable.fat disk v).
Local Abbreviation chain := (FatChains.chain v).
Local Abbreviation same := (Io.same ok disk).
Local Abbreviation positions := (FatWalk.positions v).

(** The entries of a directory, as 32-byte records. *)
Definition entries (d : D) (l : list Z) : list (list Z) := raw (disk d) <$> positions l.

Lemma find_in_directory_spec d dir l short :
  on_volume d → chain (fat d) dir l → (length l ≤ MAX_DIRECTORY_CLUSTERS)%nat →
  wp (find_in_directory v dir short) d (λ d' r, same d d' ∧ r = lookup short (entries d l)).
Proof.
  intros Hv Hc Hl. unfold find_in_directory, walk_directory.
  eapply (walk_spec ok disk v d0 G Hok0 _ _ (find_step short)); [..|exact Hc|exact Hl|set_solver|].
  - intros k sector [] d'. apply scan_sector_raw.
  - done.
  - by apply io_same_refl, Hv.
  - intros d' Hs. pose proof (find_scan short (disk d) (positions l)) as Hf. unfold entries.
    destruct (scan_list (find_step short) (disk d) (positions l) ()) as [[e|[]]|e]; [done| |done].
    intros c' _. by rewrite <-Hf.
Qed.

(** The slot is in the directory, or the chain is full and grows. *)
Lemma find_directory_slot_spec d dir l short (Q : D → result DirectorySlotReservation FatError → Prop) :
  on_volume d → chain (fat d) dir l → (length l ≤ MAX_DIRECTORY_CLUSTERS)%nat →
  (∀ d' r, same d d' → extension r = None →
     slot_for short (disk d) (positions l) (slot_lba r, slot_offset r) (existing r) → Q d' (Ok r)) →
  (∀ d' c', same d d' → last l = Some c' → is_full short (entries d l) = true →
     wp (extend_directory_chain v c') d' Q) →
  wp (find_directory_slot v dir short) d Q.
Proof.
  intros Hv Hc Hl HQ Hx. unfold find_directory_slot, walk_directory.
  eapply (walk_spec ok disk v d0 G Hok0 _ _ (slot_step short)); [..|exact Hc|exact Hl|set_solver|].
  - apply each_entry_spec. intros k sector off deleted d'. unfold slot_step. cbv zeta.
    rewrite byte_raw_0, byte_raw, name_raw, cluster_raw, u32_raw by lia.
    set (r := slice off DIRECTORY_ENTRY_SIZE sector). unfold named, in_use, is_end, is_deleted, raw_entry.
    destruct (byte_at r 0 =? 0); [by destruct (default _ _)|]. destruct (byte_at r 0 =? 229); [done|].
    destruct (byte_at r 11 =? LONG_NAME_ATTRIBUTE); [done|]. destruct (has_attribute _ _); [done|]. simpl.
    by destruct (bool_decide (take 11 r = short)).
  - done.
  - by apply io_same_refl, Hv.
  - intros d' Hs. pose proof (slot_scan short (disk d) [] (positions l) None (Forall_nil_2 _) (Forall_nil_2 _)) as Hf.
    destruct (scan_list (slot_step short) (disk d) (positions l) None) as [[r|deleted]|e]; [|intros c' Hc'|done].
    + destruct Hf as [He Hslot]. by apply HQ.
    + destruct Hf as [HF Hrem]. destruct deleted as [[k off]|].
      * apply wp_bind, wp_ret, wp_ret. apply HQ; [done|done|]. cbn [slot_lba slot_offset existing].
        rewrite <-(app_nil_r (positions l)). by apply remembered_slot.
      * assert (Hfull : is_full short (entries d l) = true).
        { unfold is_full, entries. apply forallb_forall. intros r [q [-> Hq]]%list_elem_of_In%list_elem_of_fmap.
          rewrite Forall_forall in HF. destruct (HF (raw (disk d) q)) as [-> ->]; [apply list_elem_of_fmap; by exists q|].
          by rewrite (proj1 (Forall_forall _ _) Hrem q Hq). }
        apply wp_bind, wp_bind. eapply wp_mono; [by apply Hx|]. intros d2 [r|e] Hq; [by apply wp_ret, wp_ret|done].
Qed.
End device.
End FatWalk.
