(* ===== verification/Fat32Create.v ===== *)
(** * Creating a file in a directory

    [create_file_in_directory] for short names: the slot, the chain, the data, the entry
    and the release of a replaced file, put together. A change of the volume is described
    by what it does to the table and by the clusters whose sectors it may write. *)
From S2P Require Import Prelude Block DeviceIo Fat32 Fat32Table Fat32Chains Fat32Data Fat32Names Fat32Dir Fat32Walk Fat32Volume.
Import Block Io Fat FatTable FatChains FatData Names Dir FatWalk FatVolume.

Module FatCreate.

(** ** The 32 bytes of an entry *)
Lemma encoded_short name short :
  encode_short_name name = Some short → length short = 11%nat ∧ byte_at short 0 ≠ 0 ∧ byte_at short 0 ≠ 0xe5.
Proof.
  unfold encode_short_name. intros Hs. destruct (bool_decide (utf8 name = []) || _); [done|].
  destruct (default _ _) as [base ext]. destruct (bool_decide (base = []) || _ || _) eqn:E1; [done|].
  destruct (bool_decide (DOT ∈ base) || _); [done|].
  apply bind_Some in Hs as (b & Hb & Hs). apply bind_Some in Hs as (x & Hx & [= <-]).
  apply orb_false_iff in E1 as [E1 E3]. apply orb_false_iff in E1 as [E1 E4]. apply Nat.ltb_ge in E3, E4.
  apply bool_decide_eq_false in E1. pose proof (length_mapM _ _ _ Hb). pose proof (length_mapM _ _ _ Hx).
  split; [unfold pad; rewrite !length_app, !length_replicate; lia|].
  destruct base as [|c base]; [done|]. simpl in Hb. apply bind_Some in Hb as (c' & Hc & Hb).
  apply bind_Some in Hb as (b' & _ & [= <-]). change (byte_at _ 0) with c'. unfold to_fat_char in Hc.
  repeat case_match; simplify_eq; reflect_bools; try lia.
Qed.

Lemma halves_join x : 0 ≤ x → Z.lor (Z.shiftl (Z.shiftr x 16) 16) (x mod 65536) = x.
Proof.
  intros Hx. change 65536 with (2 ^ 16). rewrite <-Z.land_ones by lia. apply Z.bits_inj'. intros n Hn.
  rewrite Z.lor_spec, Z.shiftl_spec, Z.land_spec, Z.testbit_ones_nonneg by lia.
  destruct (Z.ltb_spec n 16).
  - rewrite Z.testbit_neg_r, andb_true_r by lia. done.
  - rewrite Z.shiftr_spec by lia. replace (n - 16 + 16) with n by lia. by rewrite andb_false_r, orb_false_r.
Qed.

Lemma entry_bytes_spec short attrs cluster sz :
  length short = 11%nat → 0 ≤ cluster ≤ u32_max → 0 ≤ sz ≤ u32_max →
  raw_entry (entry_bytes short attrs cluster sz) = mkDirectoryEntry short cluster sz attrs ∧
  byte_at (entry_bytes short attrs cluster sz) 0 = byte_at short 0 ∧ length (entry_bytes short attrs cluster sz) = 32%nat.
Proof.
  intros Hs Hc Hz. unfold u32_max in *.
  destruct short as [|b0 [|b1 [|b2 [|b3 [|b4 [|b5 [|b6 [|b7 [|b8 [|b9 [|b10 [|]]]]]]]]]]]]; try discriminate Hs.
  split; [|done]. unfold raw_entry. f_equal.
  - unfold raw_cluster.
    transitivity (Z.lor (Z.shiftl (from_le_bytes (to_le_bytes 2 (Z.shiftr cluster 16))) 16)
                    (from_le_bytes (to_le_bytes 2 (as_u16 cluster)))); [done|].
    assert (0 ≤ Z.shiftr cluster 16 < 65536).
    { rewrite Z.shiftr_div_pow2 by lia. Z.to_euclidean_division_equations. lia. }
    pose proof (Z.mod_pos_bound cluster 65536 ltac:(lia)). unfold as_u16, u16_max. change (65535 + 1) with 65536.
    rewrite !from_to_le_bytes by lia. change (256 ^ Z.of_nat 2) with 65536. rewrite !(Z.mod_small _ 65536) by lia.
    apply halves_join. lia.
  - unfold read_u32. transitivity (from_le_bytes (to_le_bytes 4 sz)); [done|]. rewrite from_to_le_bytes by lia.
    apply Z.mod_small. simpl. lia.
Qed.

Section create.
Context {D : Type} `{BlockDevice D} (ok : D → Prop) (disk : D → Z → list Z) `{!Lawful ok disk} `{!Reliable ok}.
Context (v : Volume) (d0 : D) (G : geometry v (sector_count d0)) (Hok0 : ok d0).
Local Abbreviation on_volume := (FatTable.on_volume ok disk v d0).
Local Abbreviation fat := (FatTable.fat disk v).
Local Abbreviation evolve := (FatTable.evolve ok disk v).
Local Abbreviation chain := (FatChains.chain v).
Local Abbreviation same := (Io.same ok disk).
Local Abbreviation span := (FatData.span v).
Local Abbreviation lba := (FatData.lba v).
Local Abbreviation positions := (FatWalk.positions v).
Local Abbreviation entries := (FatWalk.entries disk v).
Local Abbreviation file_bytes := (FatData.file_bytes disk v).

(** ** Changes of the volume *)
(** The table becomes [f], and of the data area only sectors of the clusters [X] change. *)
Definition changed (X : list Z) (f : Z → Z) (d d' : D) : Prop :=
  ok d' ∧ sector_count d' = sector_count d ∧ is_read_only d' = is_read_only d ∧ FatTable.table_ok disk v d' ∧
  (∀ c, in_range v c → fat d' c = f c) ∧
  (∀ k, first_data_sector v ≤ k < sector_count d → (∀ c, c ∈ X → ¬ span c k) → disk d' k = disk d k).

Lemma changed_evolve d d' f : evolve d d' f → changed [] f d d'.
Proof.
  intros ((O & C & R & Hd & _) & T & Hf). unfold changed. split_and!; try done. intros k Hk _. by apply Hd.
Qed.

Lemma changed_touched l d d' : on_volume d → Forall (in_range v) l → touched ok disk v l d d' → changed l (fat d) d d'.
Proof.
  intros Hv HF Ht. destruct (touched_table ok disk v d0 G l d d' Hv HF Ht) as [(O & _ & T) Hf].
  destruct Ht as (_ & C & R & Hd). unfold changed. split_and!; try done. intros k Hk Hn. apply Hd; [|done].
  pose proof (table_end _ _ G). pose proof (g_reserved _ _ G). pose proof (g_fat_size _ _ G). lia.
Qed.

Lemma changed_same d d' : on_volume d → same d d' → changed [] (fat d) d d'.
Proof. intros Hv Hs. apply changed_touched; [done|constructor|by apply same_touched]. Qed.

Lemma changed_trans X Y f g d1 d2 d3 : changed X f d1 d2 → changed Y g d2 d3 → changed (X ++ Y) g d1 d3.
Proof.
  intros (O1 & C1 & R1 & T1 & F1 & D1) (O2 & C2 & R2 & T2 & F2 & D2). unfold changed. split_and!; try congruence; try done.
  intros k Hk Hn. rewrite D2; [|by rewrite C1|intros c Hc; apply Hn; set_solver].
  apply D1; [done|]. intros c Hc. apply Hn. set_solver.
Qed.

Lemma changed_weaken X Y f g d d' :
  X ⊆ Y → (∀ c, in_range v c → f c = g c) → changed X f d d' → changed Y g d d'.
Proof.
  intros Hs He (O & C & R & T & F & Hd). unfold changed. split_and!; try done.
  - intros c Hc. by rewrite F, He.
  - intros k Hk Hn. apply Hd; [done|]. auto.
Qed.

Lemma changed_on X f d d' : on_volume d → changed X f d d' → on_volume d'.
Proof. intros (_ & Hc & _) (O & C & _ & T & _). split_and!; [done|congruence|done]. Qed.

Lemma changed_writable X f d d' : changed X f d d' → is_read_only d = false → is_read_only d' = false.
Proof. intros (_ & _ & -> & _). done. Qed.

Lemma changed_sector X f d d' c k :
  on_volume d → changed X f d d' → in_range v c → c ∉ X → span c k → disk d' k = disk d k.
Proof.
  intros (_ & Hcnt & _) (_ & _ & _ & _ & _ & Hd) Hc Hn Hs. apply Hd.
  - rewrite Hcnt. by apply (span_range v d0 G c).
  - intros c' Hin Hs'. by rewrite (span_disjoint v d0 G c c' k Hs Hs') in Hn.
Qed.

Lemma changed_file X f d d' l :
  on_volume d → changed X f d d' → Forall (in_range v) l → l ## X → file_bytes d' l = file_bytes d l.
Proof.
  intros Hv Hch HF Hdis. unfold FatData.file_bytes, file_sectors. f_equal. apply list_fmap_ext. intros i k Hk.
  apply list_elem_of_lookup_2 in Hk. unfold lbas in Hk. apply list_elem_of_bind in Hk as (c & Hk & Hin).
  rewrite Forall_forall in HF. apply elem_of_seqZ in Hk. eapply changed_sector; [done..|by apply HF| |exact Hk].
  intros HX. by apply (Hdis c).
Qed.

Lemma changed_chain X f d d' c l : changed X f d d' → chain f c l → chain (fat d') c l.
Proof. intros (_ & _ & _ & _ & Hf & _). apply chain_ext. intros k Hk. by rewrite Hf. Qed.

(** ** Positions of entries *)
Lemma elem_positions l p :
  p ∈ positions l → ∃ c i, c ∈ l ∧ span c p.1 ∧ (i < 16)%nat ∧ p.2 = (i * DIRECTORY_ENTRY_SIZE)%nat.
Proof.
  unfold FatWalk.positions, FatData.lbas. intros Hp. apply list_elem_of_bind in Hp as (k & Hp & Hk).
  apply list_elem_of_bind in Hk as (c & Hk & Hc). apply elem_of_seqZ in Hk.
  unfold sector_positions in Hp. apply list_elem_of_fmap in Hp as (i & -> & Hi). apply elem_of_seq in Hi.
  exists c, i. split; [done|]. split; [exact Hk|]. split; [lia|done].
Qed.

Lemma positions_NoDup l : NoDup l → NoDup (positions l).
Proof.
  intros Hl. unfold FatWalk.positions, FatData.lbas. apply NoDup_bind.
  - intros x1 x2 y _ _ H1 H2. apply elem_sector_positions in H1, H2. congruence.
  - intros x _. unfold sector_positions. apply NoDup_fmap_2_strong; [|apply NoDup_seq].
    intros i j _ _ [= E]. unfold DIRECTORY_ENTRY_SIZE in E. lia.
  - apply NoDup_bind; [|intros x _; apply NoDup_seqZ|done].
    intros x1 x2 y _ _ H1 H2. apply elem_of_seqZ in H1, H2. by eapply span_disjoint.
Qed.

Lemma changed_entries X f d d' l :
  on_volume d → changed X f d d' → Forall (in_range v) l → l ## X → entries d' l = entries d l.
Proof.
  intros Hv Hch HF Hdis. unfold FatWalk.entries. apply list_fmap_ext. intros i p Hp. apply list_elem_of_lookup_2 in Hp.
  apply elem_positions in Hp as (c & j & Hc & Hs & _). rewrite Forall_forall in HF. unfold raw.
  rewrite (changed_sector X f d d' c); try done; [by apply HF|]. intros HX. by apply (Hdis c).
Qed.

Lemma not_faulty d : is_read_only d = false → ¬ FatTable.faulty ok d.
Proof. intros Hro [?|?]; [done|congruence]. Qed.

(** ** Growing the directory *)
Lemma zero_sectors_spec d n k :
  on_volume d → is_read_only d = false → 0 ≤ k → k + Z.of_nat n ≤ sector_count d0 →
  wp (zero_sectors n k) d (λ d' r, r = Ok () ∧ ok d' ∧ sector_count d' = sector_count d ∧
    is_read_only d' = is_read_only d ∧
    ∀ j, 0 ≤ j < sector_count d → disk d' j = if decide (k ≤ j < k + Z.of_nat n) then zeros else disk d j).
Proof.
  intros (Hok & Hc & _) Hro. revert d k Hok Hc Hro. induction n as [|n IH]; intros d k Hok Hc Hro Hk Hn; cbn [zero_sectors].
  { apply wp_ret. split_and!; try done. intros j _. by rewrite decide_False by lia. }
  apply wp_bind, (wp_write_in ok disk); [done|rewrite Hc; lia|done| |].
  { intros d' e _ Hf. by destruct (not_faulty d Hro). }
  intros d1 (O1 & C1 & R1 & D1) Hz. eapply wp_mono; [apply (IH d1 (k + 1)); [done|congruence|congruence|lia|lia]|].
  intros d2 r (-> & O2 & C2 & R2 & D2). split_and!; try congruence; try done.
  intros j Hj. rewrite D2 by (rewrite C1; done). destruct (decide (j = k)) as [->|Hne].
  - rewrite decide_False by lia. by rewrite decide_True by lia.
  - rewrite D1 by done. destruct (decide (k + 1 ≤ j < k + 1 + Z.of_nat n)).
    + by rewrite decide_True by lia.
    + by rewrite decide_False by lia.
Qed.

Lemma zero_cluster_spec d c :
  on_volume d → is_read_only d = false → in_range v c →
  wp (zero_cluster v c) d (λ d' r, r = Ok () ∧ changed [c] (fat d) d d' ∧ ∀ k, span c k → disk d' k = zeros).
Proof.
  intros Hv Hro Hc. unfold zero_cluster. apply wp_bind, wp_result. rewrite (cluster_lba_ok ok disk v d0 G Hok0 c Hc).
  pose proof (cluster_span v _ G c Hc). pose proof (table_end _ _ G). pose proof (g_reserved _ _ G).
  pose proof (g_spc _ _ G). pose proof (g_fat_size _ _ G).
  eapply wp_mono; [apply zero_sectors_spec; [done|done|unfold FatData.lba; lia|unfold FatData.lba; lia]|].
  intros d' r (-> & O & C & R & Hd). rewrite Z2Nat.id in Hd by lia. pose proof Hv as (_ & Hcnt & _). split_and!; [done| |].
  - apply changed_touched; [done|by constructor|]. unfold touched. split_and!; try done. intros k Hk Hn.
    rewrite Hd by done. rewrite decide_False; [done|]. intros Hs. by apply (Hn c); [left|].
  - intros k Hk. rewrite Hd, decide_True; [done|exact Hk|]. rewrite Hcnt. pose proof (span_range v d0 G c k Hc Hk). lia.
Qed.

(** The table after a cluster was appended to a chain that ended at [last]. *)
Definition appended (f : Z → Z) (last c : Z) : Z → Z := update (update f c FAT32_END_MIN) last c.

Lemma extend_directory_spec d c' :
  on_volume d → is_read_only d = false → in_range v c' → fat d c' ≠ 0 →
  wp (extend_directory_chain v c') d (λ d' r,
    match r with
    | Ok s => ∃ c, in_range v c ∧ fat d c = 0 ∧
        s = mkReservation (lba c) 0 None (Some (mkDirectoryExtension c' c)) ∧
        changed [c] (appended (fat d) c' c) d d' ∧ ∀ k, span c k → disk d' k = zeros
    | Err e => e = NoSpace ∧ changed [] (fat d) d d' ∧ ∀ x, in_range v x → fat d x ≠ 0
    end).
Proof.
  intros Hv Hro Hc' Hused. unfold extend_directory_chain. apply wp_bind.
  eapply wp_mono; [by eapply (allocate_cluster_spec ok disk v d0)|]. intros d1 [c|e].
  2: { intros [(_ & Hf & _)|(-> & He & Hno)]; [by destruct (not_faulty d Hro)|]. split_and!; [done|by apply changed_evolve|done]. }
  intros (Hc & Hz & He). pose proof (changed_evolve _ _ _ He) as Hch1. pose proof (changed_on _ _ _ _ Hv Hch1) as Hv1.
  pose proof (changed_writable _ _ _ _ Hch1 Hro) as Hro1.
  apply wp_bind, wp_try. eapply wp_mono; [by apply zero_cluster_spec|]. intros d2 r (-> & Hch2 & Hzero).
  pose proof (changed_on _ _ _ _ Hv1 Hch2) as Hv2. pose proof (changed_writable _ _ _ _ Hch2 Hro1) as Hro2.
  apply wp_bind, wp_try. eapply wp_mono; [apply (write_fat_entry_spec ok disk v d0 G Hok0 d2 c' c Hv2 Hc'); destruct Hc; lia|].
  intros d3 [[]|e]; [|intros (_ & Hf & _); by destruct (not_faulty d2 Hro2)]. intros He3.
  apply wp_bind, wp_result. rewrite (cluster_lba_ok ok disk v d0 G Hok0 c Hc). apply wp_ret.
  exists c. split_and!; try done.
  - eapply (changed_weaken ([] ++ [c] ++ [])); [set_solver| |].
    2: { eapply changed_trans; [exact Hch1|]. eapply changed_trans; [exact Hch2|by apply changed_evolve]. }
    intros x Hx. rewrite (land_mask_range v d0 G c Hc). unfold appended, update. destruct (decide (x = c')); [done|].
    destruct Hch2 as (_ & _ & _ & _ & Hf2 & _). rewrite Hf2 by done.
    destruct Hch1 as (_ & _ & _ & _ & Hf1 & _). by rewrite Hf1 by done.
  - intros k Hk. rewrite <-(Hzero k Hk). eapply changed_sector; [exact Hv2|by apply changed_evolve|exact Hc|set_solver|done].
Qed.

(** The chain of a directory that grew. *)
Lemma appended_chain f dir l c' c :
  chain f dir l → last l = Some c' → f c = 0 → in_range v c → chain (appended f c' c) dir (l ++ [c]).
Proof.
  pose proof (g_limit _ _ G) as Hlim. intros Hc Hlast Hz Hr.
  assert (Hcl : c ∉ l) by (intros Hin; by apply (chain_nonzero v d0 G f dir l c Hc Hin)).
  induction Hc as [x Hx|x y l Hx Hl IH].
  - simpl in Hlast. simplify_eq. pose proof (link_range v f c' _ Hx).
    assert (c ≠ c') by set_solver.
    apply chain_next with c.
    + unfold link_of, appended, update. rewrite decide_True by done. rewrite (decide_True (P := c' = c')) by done.
      unfold in_range, FAT32_END_MIN, FAT32_BAD_CLUSTER in *. rewrite decide_False by lia. by rewrite decide_True by lia.
    + apply chain_end. unfold link_of, appended, update. rewrite decide_True by done.
      rewrite (decide_False (P := c = c')) by done. rewrite (decide_True (P := c = c)) by done.
      by rewrite decide_True by (unfold FAT32_END_MIN; lia).
  - assert (Hd : NoDup (x :: l)) by (eapply chain_NoDup, chain_next; done). apply NoDup_cons in Hd as [Hxl _].
    assert (Hlast' : last l = Some c') by (destruct (chain_head _ _ _ _ Hl) as [l' ->]; done).
    assert (Hcin : c' ∈ l) by (by apply last_Some_elem_of).
    simpl. apply chain_next with y.
    + rewrite <-Hx. apply link_at. unfold appended, update. rewrite (decide_False (P := x = c')) by (intros ->; done).
      by rewrite decide_False by (intros ->; set_solver).
    + apply IH; [done|set_solver].
Qed.

(** ** Writing an entry *)
Definition patched (sector : list Z) (off : nat) (short : list Z) (attrs cluster sz : Z) : list Z :=
  write_u32 (put_cluster (splice (off + 11) [attrs] (splice off short (splice off (replicate DIRECTORY_ENTRY_SIZE 0) sector)))
    off cluster) (off + 28) sz.

Lemma patched_spec sector off short attrs cluster sz :
  length sector = SECTOR_SIZE → (off + 32 ≤ SECTOR_SIZE)%nat → length short = 11%nat →
  length (patched sector off short attrs cluster sz) = SECTOR_SIZE ∧
  slice off DIRECTORY_ENTRY_SIZE (patched sector off short attrs cluster sz) = entry_bytes short attrs cluster sz ∧
  ∀ off', (off' + 32 ≤ off ∨ off + 32 ≤ off')%nat →
    slice off' DIRECTORY_ENTRY_SIZE (patched sector off short attrs cluster sz) = slice off' DIRECTORY_ENTRY_SIZE sector.
Proof.
  intros Hl Ho Hs. unfold patched, entry_bytes, put_cluster, write_u16, write_u32, DIRECTORY_ENTRY_SIZE in *.
  set (s1 := splice off (replicate 32 0) sector).
  assert (H1 : length s1 = SECTOR_SIZE) by (subst s1; rewrite length_splice; rewrite ?length_replicate; lia).
  set (s2 := splice off short s1).
  assert (H2 : length s2 = SECTOR_SIZE) by (subst s2; rewrite length_splice; lia).
  set (s3 := splice (off + 11) [attrs] s2).
  assert (H3 : length s3 = SECTOR_SIZE) by (subst s3; rewrite length_splice; simpl; lia).
  set (s4 := splice (off + 20) (to_le_bytes 2 (Z.shiftr cluster 16)) s3).
  assert (H4 : length s4 = SECTOR_SIZE) by (subst s4; rewrite length_splice; rewrite ?length_to_le_bytes; lia).
  set (s5 := splice (off + 26) (to_le_bytes 2 (as_u16 cluster)) s4).
  assert (H5 : length s5 = SECTOR_SIZE) by (subst s5; rewrite length_splice; rewrite ?length_to_le_bytes; lia).
  split_and!.
  - rewrite length_splice; rewrite ?length_to_le_bytes; lia.
  - rewrite slice_splice_in by (rewrite ?length_to_le_bytes; lia). subst s5.
    rewrite slice_splice_in by (rewrite ?length_to_le_bytes; lia). subst s4.
    rewrite slice_splice_in by (rewrite ?length_to_le_bytes; lia). subst s3.
    rewrite slice_splice_in by (simpl; lia). subst s2. rewrite <-(Nat.add_0_r off) at 2.
    rewrite slice_splice_in by lia. subst s1. rewrite slice_splice_eq by (rewrite ?length_replicate; lia). done.
  - intros off' Hd. rewrite slice_splice_ne by (rewrite length_to_le_bytes; lia).
    subst s5. rewrite slice_splice_ne by (rewrite length_to_le_bytes; lia).
    subst s4. rewrite slice_splice_ne by (rewrite length_to_le_bytes; lia).
    subst s3. rewrite slice_splice_ne by (simpl; lia).
    subst s2. rewrite slice_splice_ne by lia.
    subst s1. rewrite slice_splice_ne; [done|rewrite length_replicate; lia..].
Qed.

Lemma write_entry_spec d l a p b short attrs cluster sz :
  on_volume d → is_read_only d = false → Forall (in_range v) l → NoDup l → positions l = a ++ p :: b →
  length short = 11%nat →
  wp (write_directory_entry p.1 p.2 short attrs cluster sz) d (λ d' r,
    r = Ok () ∧ changed l (fat d) d d' ∧
    entries d' l = (raw (disk d) <$> a) ++ entry_bytes short attrs cluster sz :: (raw (disk d) <$> b)).
Proof.
  intros Hv Hro HF HN Hps Hs. pose proof (positions_NoDup l HN) as HNp. pose proof Hv as (Hok & Hcnt & _).
  assert (Hp : p ∈ positions l) by (rewrite Hps; set_solver).
  destruct (elem_positions l p Hp) as (c & i & Hc & Hspan & Hi & Hoff). rewrite Forall_forall in HF.
  pose proof (span_range v d0 G c p.1 (HF c Hc) Hspan) as Hr. pose proof (table_end _ _ G). pose proof (g_reserved _ _ G).
  pose proof (g_fat_size _ _ G).
  assert (Hlen : length (disk d p.1) = SECTOR_SIZE) by (apply (law_length d); [done|lia]).
  assert (Hfit : (p.2 + 32 ≤ SECTOR_SIZE)%nat) by (rewrite Hoff; unfold DIRECTORY_ENTRY_SIZE, SECTOR_SIZE; lia).
  destruct (patched_spec (disk d p.1) p.2 short attrs cluster sz Hlen Hfit Hs) as (Hl' & Heq & Hne).
  unfold write_directory_entry. apply wp_bind, (wp_read_in ok disk); [done|lia|done|by intros|].
  intros d1 Hs1. fold (patched (disk d p.1) p.2 short attrs cluster sz). pose proof Hs1 as (O1 & C1 & R1 & D1).
  apply (wp_write_in ok disk); [done|lia|done| |].
  { intros d' e _ [?|?]; [done|congruence]. }
  intros d2 (O2 & C2 & R2 & D2) Hw. split; [done|].
  assert (Hdisk : ∀ k, 0 ≤ k < sector_count d → k ≠ p.1 → disk d2 k = disk d k).
  { intros k Hk Hkp. rewrite D2 by (done || rewrite C1; done). by apply D1. }
  split.
  - apply changed_touched; [done|by apply Forall_forall|]. unfold touched. split_and!; try congruence; try done.
    intros k Hk Hn. apply Hdisk; [done|]. intros ->. by apply (Hn c).
  - unfold FatWalk.entries. rewrite Hps, fmap_app, fmap_cons.
    assert (Hother : ∀ q, q ∈ positions l → q ≠ p → raw (disk d2) q = raw (disk d) q).
    { intros q Hq Hqp. destruct (elem_positions l q Hq) as (c' & j & Hc' & Hspan' & Hj & Hoff').
      pose proof (span_range v d0 G c' q.1 (HF c' Hc') Hspan'). unfold raw. destruct (decide (q.1 = p.1)) as [E|E].
      - rewrite E, Hw. apply Hne. rewrite Hoff, Hoff'. unfold DIRECTORY_ENTRY_SIZE.
        assert (j ≠ i); [|lia]. intros ->. apply Hqp. destruct p, q. simpl in *. congruence.
      - by rewrite Hdisk by (done || lia). }
    rewrite Hps in Hother, HNp. apply NoDup_app in HNp as (_ & Hap & HNp). apply NoDup_cons in HNp as [Hpb _].
    f_equal; [|f_equal].
    + apply list_fmap_ext. intros j q Hq. apply list_elem_of_lookup_2 in Hq. apply Hother; [set_solver|].
      intros ->. by apply (Hap p Hq); left.
    + unfold raw. rewrite Hw. exact Heq.
    + apply list_fmap_ext. intros j q Hq. apply list_elem_of_lookup_2 in Hq. apply Hother; [set_solver|]. by intros ->.
Qed.

(** ** Creating a file in a slot *)
Lemma or_cleanup_ok {A} (m : io D FatError A) cleanup d Q :
  wp m d (λ d' r, match r with Ok a => Q d' (Ok a) | Err e => wp (let! _ := cleanup in ierr e) d' Q end) →
  wp (or_cleanup m cleanup) d Q.
Proof.
  intros Hm. unfold or_cleanup. apply wp_bind, wp_try. eapply wp_mono; [exact Hm|].
  intros d' [a|e] Hq; [by apply wp_ret|done].
Qed.

Lemma needed_enough data :
  (length data ≤ needed_clusters v data * FatData.cluster_size v)%nat ∧ (data ≠ [] → needed_clusters v data ≠ 0%nat).
Proof.
  pose proof (cluster_size_pos v d0 G) as Hpos. change (bytes_per_cluster_of v) with (FatData.cluster_size v) in *.
  unfold needed_clusters. change (bytes_per_cluster_of v) with (FatData.cluster_size v).
  destruct data as [|b data]; [split; [simpl; lia|done]|]. set (n := length (b :: data)). assert (n ≠ 0%nat) by done.
  set (cs := FatData.cluster_size v) in *. clearbody cs n.
  pose proof (Nat.div_mod (n + cs - 1) cs ltac:(lia)). pose proof (Nat.mod_upper_bound (n + cs - 1) cs ltac:(lia)).
  split; [|intros _]; nia.
Qed.

(** The file of [data] under [first], in the clusters [lf]. *)
Definition holds (d : D) (first : Z) (data lf : list Z) : Prop :=
  (data ≠ [] → chain (fat d) first lf) ∧ take (length data) (file_bytes d lf) = data ∧
        (length data ≤ length lf * FatData.cluster_size v)%nat.

(** A file whose clusters the directory and the replaced file do not use. *)
Definition kept (d d' : D) (l : list Z) (old : list Z) : Prop :=
  ∀ c k, chain (fat d) c k → k ## l → k ## old → chain (fat d') c k ∧ file_bytes d' k = file_bytes d k.

Definition release (old : option Z) : io D FatError () :=
  match old with
  | Some cluster => if 2 <=? cluster then free_cluster_chain v cluster else iret ()
  | None => iret ()
  end.

(** The clusters of the file that an entry replaces. *)
Definition replaces (d : D) (old : option Z) (k0 : list Z) : Prop :=
  match old with
  | Some cluster => if 2 <=? cluster then chain (fat d) cluster k0 else k0 = []
  | None => k0 = []
  end.

Lemma release_replaced_spec d old k0 :
  on_volume d → is_read_only d = false → replaces d old k0 →
  wp (release old) d (λ d' r, r = Ok () ∧ changed [] (zeroed (fat d) k0) d d').
Proof.
  intros Hv Hro Hr.
  assert (Hnil : changed [] (zeroed (fat d) []) d d).
  { eapply changed_weaken; [done| |apply changed_same; [done|by apply io_same_refl, Hv]]. intros c _. unfold zeroed. by rewrite decide_False by set_solver. }
  unfold release, replaces in *. destruct old as [cl|]; [|subst k0; by apply wp_ret].
  destruct (2 <=? cl); [|subst k0; by apply wp_ret].
  eapply wp_mono; [by apply (free_exact ok disk v d0 G Hok0 d cl k0)|]. intros d' r [-> He]. split; [done|by apply changed_evolve].
Qed.

(** The data of a new file is on the disk, in clusters [lf] that were free. *)
Record prepared (d d' : D) (lf : list Z) (first : Z) (data : list Z) : Prop := {
  pr_changed : changed lf (linked (fat d) lf) d d';
  pr_fresh : fresh v (fat d) lf;
  pr_chain : data ≠ [] → chain (linked (fat d) lf) first lf;
  pr_bytes : take (length data) (file_bytes d' lf) = data;
  pr_length : length lf = needed_clusters v data;
  pr_fit : (length data ≤ length lf * FatData.cluster_size v)%nat;
  pr_first : first = 0 ∧ lf = [] ∨ first ∈ lf;
  pr_some : data ≠ [] → lf ≠ []
}.

Lemma prepare_spec d data cleanup undo (k : Z → io D FatError ()) (Q : D → result () FatError → Prop) :
  on_volume d → is_read_only d = false →
  (∀ d', evolve d d' (fat d) → not_enough v (fat d) (needed_clusters v data) →
     wp (let! _ := cleanup in ierr (A := ()) NoSpace) d' Q) →
  (∀ d' lf first, prepared d d' lf first data → wp (k first) d' Q) →
  wp (let! first := or_cleanup (allocate_file_chain v (needed_clusters v data)) cleanup in
      let! _ := or_cleanup (write_file_data_chain v first data) (undo first) in k first) d Q.
Proof.
  intros Hv Hro Hfail Hok. destruct (needed_enough data) as [Hfit Hne].
  apply wp_bind, or_cleanup_ok. eapply wp_mono; [by apply (allocate_all_or_nothing ok disk v d0 G Hok0)|].
  intros d1 [first|e].
  2: { intros (-> & He & Hno). specialize (Hfail d1 He Hno). unfold wp, ibind in *. by destruct (cleanup d1) as [d' [u|e]]. }
  intros (lf & Hlen & Hfresh & Hfirst & He & Hchain).
  pose proof (changed_evolve _ _ _ He) as Hch1. pose proof (changed_on _ _ _ _ Hv Hch1) as Hv1.
  pose proof (changed_writable _ _ _ _ Hch1 Hro) as Hro1.
  apply wp_bind, or_cleanup_ok. eapply wp_mono.
  { rewrite Hfirst. apply (write_file_data_spec ok disk v d0 G Hok0 d1 lf data Hv1); [|by rewrite Hlen].
    intros Hd. rewrite <-Hfirst. by apply Hchain, Hne. }
  intros d2 [[]|e] [Ht Hw]; [|destruct Hw as [_ Hf]; by destruct (not_faulty d1 Hro1)].
  pose proof (changed_touched _ _ _ Hv1 (proj1 Hfresh) Ht) as Hch2. apply (Hok d2 lf first). split; try done.
  - eapply changed_weaken; [| |by eapply changed_trans]; [set_solver|]. intros c Hc. by apply He.
  - intros Hd. eapply chain_ext; [|by apply Hchain, Hne]. intros x Hx. by apply He.
  - by rewrite Hlen.
  - rewrite Hfirst. destruct lf as [|x lf]; [by left|right; left].
  - intros Hd ->. by apply (Hne Hd).
Qed.

Section publish.
Context (d d2 : D) (lf : list Z) (first : Z) (data : list Z) (P : prepared d d2 lf first data).
Context (Hv : on_volume d) (Hro : is_read_only d = false).

(** What was on the volume is apart from the new clusters, and still there. *)
Lemma prepared_apart c k : chain (fat d) c k → k ## lf.
Proof. intros Hc x Hx Hx'. exact (fresh_disjoint v d0 G (fat d) lf c k (pr_fresh _ _ _ _ _ P) Hc x Hx Hx'). Qed.

Lemma prepared_chain c k : chain (fat d) c k → chain (linked (fat d) lf) c k.
Proof.
  intros Hc. apply (chain_local v (fat d)); [|done]. intros x Hx. symmetry. apply linked_outside. exact (prepared_apart c k Hc x Hx).
Qed.

Lemma prepared_first : 0 ≤ first ≤ u32_max ∧ (data ≠ [] → 2 ≤ first).
Proof.
  pose proof (g_limit _ _ G). unfold FAT32_BAD_CLUSTER, u32_max in *. destruct (pr_first _ _ _ _ _ P) as [[-> Hlf]|Hin].
  - split; [lia|]. intros Hd. by destruct (pr_some _ _ _ _ _ P Hd).
  - pose proof (proj1 (Forall_forall _ _) (proj1 (pr_fresh _ _ _ _ _ P)) first Hin) as [? ?]. lia.
Qed.

Lemma publish_entry_spec l dir a p b short undo old k0 (Q : D → result () FatError → Prop) :
  chain (fat d) dir l → positions l = a ++ p :: b → length short = 11%nat → Z.of_nat (length data) ≤ u32_max →
  replaces d old k0 → k0 ## l →
  (∀ d', on_volume d' → is_read_only d' = false → chain (fat d') dir l → holds d' first data lf →
     (∀ x, in_range v x → fat d' x = zeroed (linked (fat d) lf) k0 x) →
     entries d' l = (raw (disk d) <$> a) ++ entry_bytes short 0x20 first (Z.of_nat (length data)) :: (raw (disk d) <$> b) →
     kept d d' l k0 → Q d' (Ok ())) →
  wp (let! _ := or_cleanup (write_directory_entry p.1 p.2 short 0x20 first (as_u32 (Z.of_nat (length data)))) undo in
      release old) d2 Q.
Proof.
  intros Hl Hps Hs Hdata Hold Hk0 Hok. pose proof (pr_changed _ _ _ _ _ P) as Hch2.
  pose proof (chain_range _ _ _ _ Hl) as HF. pose proof (chain_NoDup _ _ _ _ Hl) as HN.
  pose proof (changed_on _ _ _ _ Hv Hch2) as Hv2. pose proof (changed_writable _ _ _ _ Hch2 Hro) as Hro2.
  pose proof (proj1 (pr_fresh _ _ _ _ _ P)) as HFlf.
  assert (Hsz : as_u32 (Z.of_nat (length data)) = Z.of_nat (length data)) by (unfold as_u32; apply Z.mod_small; unfold u32_max in *; lia).
  rewrite Hsz. apply wp_bind, or_cleanup_ok. eapply wp_mono; [by apply (write_entry_spec d2 l a p b)|].
  intros d3 r (-> & Hch3 & Hent). pose proof (changed_on _ _ _ _ Hv2 Hch3) as Hv3.
  pose proof (changed_writable _ _ _ _ Hch3 Hro2) as Hro3.
  assert (Hch3' : ∀ c k, chain (linked (fat d) lf) c k → chain (fat d3) c k).
  { intros c k Hc. apply (changed_chain _ _ _ _ _ _ Hch3), (changed_chain _ _ _ _ _ _ Hch2). done. }
  assert (Hk0lf : k0 ## lf).
  { unfold replaces in Hold. destruct old as [cl|]; [|set_solver]. destruct (2 <=? cl); [by eapply prepared_apart|set_solver]. }
  eapply wp_mono; [apply (release_replaced_spec d3 old k0 Hv3 Hro3)|].
  { unfold replaces in *. destruct old as [cl|]; [|done]. destruct (2 <=? cl); [|done]. by apply Hch3', prepared_chain. }
  intros d4 r [-> Hch4].
  assert (Hch4' : ∀ c k, chain (linked (fat d) lf) c k → k ## k0 → chain (fat d4) c k).
  { intros c k Hc Hdis. apply (changed_chain _ _ _ _ _ _ Hch4). apply (chain_local v (fat d3)); [|by apply Hch3'].
    intros x Hx. unfold zeroed. rewrite decide_False; [done|]. intros Hx'. by apply (Hdis x). }
  pose proof (prepared_apart dir l Hl) as Hllf.
  apply (Hok d4); [by eapply changed_on|by eapply changed_writable|apply Hch4'; [by apply prepared_chain|set_solver]|..].
  - split_and!; [intros Hd; apply Hch4'; [by apply P|set_solver]| |apply P].
    rewrite <-(pr_bytes _ _ _ _ _ P) at 2. f_equal. transitivity (file_bytes d3 lf).
    + apply (changed_file _ _ _ _ _ Hv3 Hch4 HFlf). set_solver.
    + apply (changed_file _ _ _ _ _ Hv2 Hch3 HFlf). set_solver.
  - intros x Hx. destruct Hch4 as (_ & _ & _ & _ & Hf4 & _). rewrite Hf4 by done. unfold zeroed. case_decide; [done|].
    destruct Hch3 as (_ & _ & _ & _ & Hf3 & _). rewrite Hf3 by done. destruct Hch2 as (_ & _ & _ & _ & Hf2 & _). by apply Hf2.
  - rewrite (changed_entries _ _ _ _ _ Hv3 Hch4 HF) by set_solver. rewrite Hent.
    assert (Hraw : entries d2 l = entries d l) by (apply (changed_entries _ _ _ _ _ Hv Hch2 HF); set_solver).
    unfold FatWalk.entries in Hraw. rewrite Hps, !fmap_app, !fmap_cons in Hraw.
    apply app_inj_1 in Hraw as [-> Hraw]; [by injection Hraw as _ ->|by rewrite !length_fmap].
  - intros c k Hc Hkl Hkk. split; [apply Hch4'; [by apply prepared_chain|done]|].
    pose proof (changed_trans _ _ _ _ _ _ _ (changed_trans _ _ _ _ _ _ _ Hch2 Hch3) Hch4) as Hall.
    apply (changed_file _ _ _ _ _ Hv Hall (chain_range _ _ _ _ Hc)). pose proof (prepared_apart c k Hc). set_solver.
Qed.
End publish.

(** ** Lookups before and after *)
Lemma find_is d dir l short x :
  on_volume d → chain (fat d) dir l → (length l ≤ MAX_DIRECTORY_CLUSTERS)%nat →
  wp (find_in_directory v dir short) d (λ _ r, r = x) ↔ lookup short (entries d l) = x.
Proof.
  intros Hv Hc Hl. pose proof (find_in_directory_spec ok disk v d0 G Hok0 d dir l short Hv Hc Hl) as Hf.
  exact (wp_value _ _ _ _ x Hf).
Qed.

(** Nothing that a client can see has changed. *)
Definition untouched (d d' : D) : Prop :=
  on_volume d' ∧ (∀ c, in_range v c → fat d' c = 0 ↔ fat d c = 0) ∧
  (∀ c k, chain (fat d) c k → chain (fat d') c k ∧ file_bytes d' k = file_bytes d k).

(** In particular the lookups. *)
Lemma untouched_changed X d d' f :
  on_volume d → changed X f d d' → (∀ x, x ∈ X → fat d x = 0) →
  (∀ x, in_range v x → f x = 0 ↔ fat d x = 0) → (∀ x, fat d x ≠ 0 → link_of v f x = link_of v (fat d) x) →
  untouched d d' ∧ ∀ dir l, chain (fat d) dir l → entries d' l = entries d l.
Proof.
  intros Hv Hch HX Hz Hlink.
  assert (Hdis : ∀ c k, chain (fat d) c k → k ## X).
  { intros c k Hc x Hx Hx'. by apply (chain_nonzero v d0 G (fat d) c k x Hc Hx), HX. }
  split; [split_and!|].
  - by eapply changed_on.
  - intros c Hc. destruct Hch as (_ & _ & _ & _ & Hf & _). rewrite Hf by done. by apply Hz.
  - intros c k Hc. split.
    + apply (changed_chain _ _ _ _ _ _ Hch). pose proof (chain_nonzero v d0 G (fat d) c k) as Hn. specialize (Hn).
      induction Hc as [x Hx|x y l Hx Hl IH].
      * apply chain_end. rewrite <-Hx. apply Hlink. apply (chain_nonzero v d0 G (fat d) x [x]); [by apply chain_end|left].
      * apply chain_next with y; [rewrite <-Hx; apply Hlink|].
        { apply (chain_nonzero v d0 G (fat d) x (x :: l)); [by eapply chain_next|left]. }
        apply IH. intros z Hz' Hz''. by apply (chain_nonzero v d0 G (fat d) y l).
    + apply (changed_file _ _ _ _ _ Hv Hch (chain_range _ _ _ _ Hc)). by eapply Hdis.
  - intros dir l Hc. apply (changed_entries _ _ _ _ _ Hv Hch (chain_range _ _ _ _ Hc)). by eapply Hdis.
Qed.

Lemma untouched_same_table d d' X :
  on_volume d → changed X (fat d) d d' → (∀ x, x ∈ X → fat d x = 0) →
  untouched d d' ∧ ∀ dir l, chain (fat d) dir l → entries d' l = entries d l.
Proof. intros Hv Hch HX. by eapply untouched_changed. Qed.

(** Undoing the growth of a directory. *)
Lemma rollback_growth_spec d d1 d2 c' c :
  on_volume d → is_read_only d = false → in_range v c → in_range v c' → c ≠ c' → fat d c = 0 → link_of v (fat d) c' = Ok End →
  changed [c] (appended (fat d) c' c) d d1 → evolve d1 d2 (fat d1) →
  wp (let! _ := rollback_reserved_slot v (mkReservation (lba c) 0 None (Some (mkDirectoryExtension c' c))) in ierr (A := ()) NoSpace) d2
    (λ d' r, r = Err NoSpace ∧ untouched d d' ∧ ∀ dir l, chain (fat d) dir l → entries d' l = entries d l).
Proof.
  intros Hv Hro Hc Hc' Hne Hz Hend Hch1 He2. pose proof (changed_on _ _ _ _ Hv Hch1) as Hv1.
  pose proof (changed_evolve _ _ _ He2) as Hch2. pose proof (changed_on _ _ _ _ Hv1 Hch2) as Hv2.
  pose proof (changed_writable _ _ _ _ Hch2 (changed_writable _ _ _ _ Hch1 Hro)) as Hro2. pose proof (g_limit _ _ G) as Hlim.
  unfold rollback_reserved_slot. cbn [extension]. apply wp_bind, wp_bind, wp_try. unfold rollback_directory_extension.
  cbn [parent_cluster ext_cluster]. apply wp_bind.
  eapply wp_mono; [by apply (write_fat_entry_spec ok disk v d0 G Hok0 d2 c' FAT32_END_MIN Hv2 Hc')|].
  intros d3 [[]|e]; [|intros (_ & Hf & _); by destruct (not_faulty d2 Hro2)]. intros He3.
  pose proof (changed_evolve _ _ _ He3) as Hch3. pose proof (changed_on _ _ _ _ Hv2 Hch3) as Hv3.
  pose proof (changed_writable _ _ _ _ Hch3 Hro2) as Hro3.
  change (Z.land FAT32_END_MIN FAT32_ENTRY_MASK) with FAT32_END_MIN in *.
  set (g := update (appended (fat d) c' c) c' FAT32_END_MIN).
  assert (Hg : ∀ x, in_range v x → fat d3 x = g x).
  { intros x Hx. destruct Hch3 as (_ & _ & _ & _ & Hf3 & _). rewrite Hf3 by done. unfold g, update at 1 2.
    destruct (decide (x = c')); [done|]. destruct Hch2 as (_ & _ & _ & _ & Hf2 & _). rewrite Hf2 by done.
    destruct Hch1 as (_ & _ & _ & _ & Hf1 & _). by rewrite Hf1 by done. }
  assert (Hgx : ∀ x, g x = if decide (x = c') then FAT32_END_MIN else if decide (x = c) then FAT32_END_MIN else fat d x).
  { intros x. unfold g, appended, update. by repeat case_decide. }
  assert (Hchain : chain (fat d3) c [c]).
  { apply (chain_ext v g); [intros x Hx; by rewrite Hg|]. apply chain_end. unfold link_of. rewrite decide_True by done.
    assert (Hgc : g c = FAT32_END_MIN) by (rewrite Hgx; by repeat case_decide).
    rewrite Hgc. by rewrite decide_True by (unfold FAT32_END_MIN; lia). }
  eapply wp_mono; [by apply (free_exact ok disk v d0 G Hok0 d3 c [c])|]. intros d4 r [-> He4].
  apply wp_ret, wp_err. split; [done|].
  pose proof (changed_trans _ _ _ _ _ _ _ (changed_trans _ _ _ _ _ _ _ (changed_trans _ _ _ _ _ _ _ Hch1 Hch2) Hch3)
    (changed_evolve _ _ _ He4)) as Hall.
  eapply (changed_weaken _ [c] _ (zeroed g [c])) in Hall; [|set_solver|].
  2: { intros x Hx. unfold zeroed. case_decide; [done|]. by apply Hg. }
  assert (Hend' : FAT32_END_MIN ≤ fat d c').
  { unfold link_of in Hend. rewrite decide_True in Hend by done. repeat case_decide; done. }
  apply (untouched_changed [c] d d4 (zeroed g [c]) Hv Hall).
  - intros x Hx%list_elem_of_singleton. by subst x.
  - intros x Hx. unfold zeroed. rewrite Hgx. unfold FAT32_END_MIN in *.
    destruct (decide (x ∈ [c])) as [Hin%list_elem_of_singleton|Hn]; [by subst x|]. rewrite list_elem_of_singleton in Hn.
    destruct (decide (x = c')) as [->|]; [lia|]. by rewrite decide_False.
  - intros x Hx. assert (Hxc : x ≠ c) by (intros ->; done). unfold link_of. destruct (decide (in_range v x)); [|done].
    assert (Hval : zeroed g [c] x = if decide (x = c') then FAT32_END_MIN else fat d x).
    { unfold zeroed. rewrite (decide_False (P := x ∈ [c])) by (by rewrite list_elem_of_singleton). rewrite Hgx.
      destruct (decide (x = c')); [done|]. by rewrite decide_False. }
    rewrite Hval. destruct (decide (x = c')) as [->|]; [|done].
    by rewrite !(decide_True (P := FAT32_END_MIN ≤ _)) by (done || lia).
Qed.

(** ** The theorem *)
(** The files of a directory do not use its own clusters. *)
Definition separate (d : D) (l : list Z) : Prop :=
  ∀ r k, r ∈ entries d l → in_use r = true → chain (fat d) (raw_cluster r) k → k ## l.

(** How many clusters a file needs: its own, and one more for the directory when no entry
    of the directory can be used. *)
Definition growth (short : list Z) (rs : list (list Z)) : nat := if is_full short rs then 1%nat else 0%nat.

(** Why a file may be refused: the volume has too few free clusters, the name is a
    directory's, or the chain of the file it would replace is damaged. *)
Definition refused (d : D) (l : list Z) (short data : list Z) (e : FatError) : Prop :=
  e = NoSpace ∧ not_enough v (fat d) (needed_clusters v data + growth short (entries d l)) ∨
  ∃ r, r ∈ entries d l ∧ named short r = true ∧
    (has_attribute (attributes (raw_entry r)) DIRECTORY_ATTRIBUTE = true ∧ e = WriteFailed ∨
     ¬ ∃ k, chain (fat d) (raw_cluster r) k).

(** The clusters of the file of that name, if there is one. *)
Definition replaced (d : D) (l : list Z) (short k0 : list Z) : Prop :=
  match lookup short (entries d l) with
  | Ok e => replaces d (Some (first_cluster e)) k0
  | Err _ => k0 = []
  end.

(** The file was put into [lf], the directory grew by [g] and the clusters [k0] became free. *)
Definition made (d d' : D) (dir : Z) (l short data lf g k0 : list Z) : Prop :=
  fresh v (fat d) (lf ++ g) ∧ length lf = needed_clusters v data ∧ chain (fat d') dir (l ++ g) ∧
  (∀ x, in_range v x → fat d' x = 0 ↔ x ∈ k0 ∨ fat d x = 0 ∧ x ∉ lf ++ g) ∧
  (∃ e, wp (find_in_directory v dir short) d' (λ _ r, r = Ok e) ∧
     (data ≠ [] → chain (fat d') (first_cluster e) lf) ∧
     ∀ offset out, wp (read_file_at v e offset out) d' (λ _ r,
       let m := Nat.min (length data - offset) (length out) in r = Ok (m, splice 0 (slice offset m data) out))) ∧
  (∀ other e, other ≠ short → wp (find_in_directory v dir other) d (λ _ r, r = Ok e) →
     wp (find_in_directory v dir other) d' (λ _ r, r = Ok e)) ∧
  (∀ c k, chain (fat d) c k → k ## l → k ## k0 → chain (fat d') c k ∧ file_bytes d' k = file_bytes d k).

Definition created (d d' : D) (dir : Z) (l short data : list Z) : Prop :=
  ∃ lf g k0, length g = growth short (entries d l) ∧ replaced d l short k0 ∧ made d d' dir l short data lf g k0.

Lemma holds_read d e data lf offset out :
  on_volume d → holds d (first_cluster e) data lf → size e = Z.of_nat (length data) →
  wp (read_file_at v e offset out) d (λ _ r,
    let m := Nat.min (length data - offset) (length out) in r = Ok (m, splice 0 (slice offset m data) out)).
Proof.
  intros Hv (Hc & Hw & Hlen) Hsz. destruct e as [n first sz at_]. simpl in *. subst sz.
  eapply wp_mono; [by apply (read_back ok disk v d0 G Hok0 d n at_ first lf data)|]. by intros d' r [_ ?].
Qed.

(** What an entry that was just written means for lookups. *)
Lemma new_entry_spec short first (data : list Z) :
  length short = 11%nat → byte_at short 0 ≠ 0 → byte_at short 0 ≠ 0xe5 → 0 ≤ first ≤ u32_max →
  Z.of_nat (length data) ≤ u32_max → (data ≠ [] → 2 ≤ first) →
  let r := entry_bytes short 0x20 first (Z.of_nat (length data)) in
  raw_entry r = mkDirectoryEntry short first (Z.of_nat (length data)) 0x20 ∧
  named short r = true ∧ broken r = false ∧ is_end r = false ∧ ∀ other, other ≠ short → named other r = false.
Proof.
  intros Hs H0 He5 Hf Hd Hne r. destruct (entry_bytes_spec short 0x20 first (Z.of_nat (length data)) Hs Hf ltac:(lia)) as (He & Hb & _).
  fold r in He, Hb. unfold raw_entry in He. injection He as Hn Hcl Hsz Hat.
  assert (Hend : is_end r = false) by (unfold is_end; rewrite Hb; by apply Z.eqb_neq).
  assert (Huse : in_use r = true).
  { unfold in_use, is_deleted. rewrite Hend, Hb, Hat. rewrite (proj2 (Z.eqb_neq _ _)) by done. done. }
  split_and!; [by unfold raw_entry; rewrite Hn, Hcl, Hsz, Hat| | |done|].
  - unfold named. by rewrite Huse, bool_decide_true.
  - unfold broken. rewrite Hcl, Hsz. destruct data as [|b data]; [by rewrite andb_false_r|].
    by rewrite (proj2 (Z.ltb_ge _ _)) by (by apply Hne).
  - intros other Ho. unfold named. by rewrite bool_decide_false, andb_false_r by congruence.
Qed.

Lemma slot_not_named short other (sector : Z → list Z) ps p old :
  other ≠ short →
  match old with
  | Some e => named short (raw sector p) = true ∧ e = raw_entry (raw sector p)
  | None => (is_end (raw sector p) = true ∨ is_deleted (raw sector p) = true) ∧
            lookup short (raw sector <$> ps) = Err NotFound
  end → named other (raw sector p) = false.
Proof.
  intros Ho Hp. unfold named, in_use in *. destruct old as [e|].
  - destruct Hp as [Hp _]. apply andb_true_iff in Hp as [_ Hp]. apply bool_decide_eq_true in Hp.
    by rewrite bool_decide_false, andb_false_r by congruence.
  - by destruct Hp as [[-> | ->] _]; rewrite ?andb_false_r.
Qed.

(** From the slot on, for a slot inside the directory. *)
Lemma create_from_slot d l dir p old short data cleanup undo k0 :
  on_volume d → is_read_only d = false → chain (fat d) dir l → (length l ≤ MAX_DIRECTORY_CLUSTERS)%nat →
  length short = 11%nat → byte_at short 0 ≠ 0 → byte_at short 0 ≠ 0xe5 → Z.of_nat (length data) ≤ u32_max →
  slot_for short (disk d) (positions l) p old → replaces d (first_cluster <$> old) k0 → k0 ## l →
  ∀ (Q : D → result () FatError → Prop),
  (∀ d', evolve d d' (fat d) → not_enough v (fat d) (needed_clusters v data) →
     wp (let! _ := cleanup in ierr (A := ()) NoSpace) d' Q) →
  (∀ d' lf, made d d' dir l short data lf [] k0 → Q d' (Ok ())) →
  wp (let! first := or_cleanup (allocate_file_chain v (needed_clusters v data)) cleanup in
      let! _ := or_cleanup (write_file_data_chain v first data) (undo first) in
      let! _ := or_cleanup (write_directory_entry p.1 p.2 short 0x20 first (as_u32 (Z.of_nat (length data)))) (undo first) in
      release (first_cluster <$> old)) d Q.
Proof.
  intros Hv Hro Hl Hlen Hs H0 He5 Hdata (a & b & Hps & Ha & Hp) Hold Hk0 Q Hfail Hok.
  apply prepare_spec; [done..|]. intros d2 lf first P. destruct (prepared_first d d2 lf first data P) as [Hf Hf2].
  apply (publish_entry_spec d d2 lf first data P Hv Hro l dir a p b short _ (first_cluster <$> old) k0); try done.
  intros d' Hv' Hro' Hl' Hh Hfat Hent Hkept. apply (Hok d' lf).
  pose proof (pr_fresh _ _ _ _ _ P) as Hfresh. pose proof Hfresh as (HFlf & HNlf & _).
  destruct (new_entry_spec short first data Hs H0 He5 Hf Hdata Hf2) as (Hre & Hnm & Hbr & Hend & Hoth).
  set (r := entry_bytes _ _ _ _) in *. unfold made. rewrite !app_nil_r. split_and!; [done|by apply P|done|..].
  - intros x Hx. rewrite Hfat by done. unfold zeroed. case_decide; [tauto|].
    destruct (decide (x ∈ lf)) as [Hin|Hni]; [|rewrite linked_outside by done; tauto].
    pose proof (linked_nonzero v (fat d) lf x HFlf HNlf Hin). tauto.
  - exists (raw_entry r). split_and!; [apply (find_is d' dir l); [done..|]; rewrite Hent; by apply lookup_found|rewrite Hre; apply Hh|].
    intros offset out. apply (holds_read d' _ data lf); [done|by rewrite Hre|by rewrite Hre].
  - intros other e Hne He. apply (find_is d dir l) in He; [|done..]. apply (find_is d' dir l); [done..|]. rewrite Hent.
    unfold FatWalk.entries in He. rewrite Hps, fmap_app, fmap_cons in He.
    eapply lookup_replace; [exact He| |done|by apply Hoth]. by eapply slot_not_named.
  - done.
Qed.

Lemma slot_for_ext short f g ps p old :
  (∀ q, q ∈ ps → f q.1 = g q.1) → slot_for short f ps p old → slot_for short g ps p old.
Proof.
  intros He (a & b & -> & Ha & Hp). assert (Hraw : ∀ q, q ∈ a ++ p :: b → raw f q = raw g q) by (intros q Hq; unfold raw; by rewrite He).
  exists a, b. split_and!; [done| |].
  - rewrite <-(list_fmap_ext (raw f)); [done|]. intros i q Hq. apply Hraw. apply list_elem_of_lookup_2 in Hq. set_solver.
  - rewrite <-(Hraw p) by set_solver. destruct old as [e|]; [done|]. destruct Hp as [Hp Hl]. split; [done|].
    rewrite <-Hl. f_equal. apply list_fmap_ext. intros i q Hq. symmetry. apply Hraw. by eapply list_elem_of_lookup_2.
Qed.

Lemma made_before d d1 d' dir l g short data lf k0 :
  on_volume d → on_volume d1 → chain (fat d) dir l → chain (fat d1) dir (l ++ g) →
  (length l ≤ MAX_DIRECTORY_CLUSTERS)%nat → (length (l ++ g) ≤ MAX_DIRECTORY_CLUSTERS)%nat →
  fresh v (fat d) g → (∀ x, in_range v x → fat d1 x = 0 ↔ fat d x = 0 ∧ x ∉ g) →
  (∀ other e, lookup other (entries d l) = Ok e → lookup other (entries d1 (l ++ g)) = Ok e) →
  (∀ c k, chain (fat d) c k → k ## l → chain (fat d1) c k ∧ file_bytes d1 k = file_bytes d k ∧ k ## g) →
  made d1 d' dir (l ++ g) short data lf [] k0 → made d d' dir l short data lf g k0.
Proof.
  intros Hv Hv1 Hl Hl' Hn Hn' (HFg & HNg & Hg) Hz Hlook Hkeep (Hfr & Hlen & Hc & Hacc & Hnew & Hold & Hk).
  rewrite app_nil_r in *. destruct Hfr as (HF & HN & Hf). rewrite !Forall_forall in HF, Hf.
  assert (Hlf : ∀ x, x ∈ lf → fat d x = 0 ∧ x ∉ g) by (intros x Hx; apply Hz; [by apply HF|by apply Hf]).
  split_and!; try done.
  - split_and!.
    + apply Forall_app. split; [by apply Forall_forall|done].
    + apply NoDup_app. split_and!; [done| |done]. intros x Hx. by apply Hlf.
    + apply Forall_app. split; [|done]. apply Forall_forall. intros x Hx. by apply Hlf.
  - intros x Hx. rewrite Hacc, Hz by done. rewrite not_elem_of_app. tauto.
  - intros other e Hne He. apply Hold; [exact Hne|]. apply (find_is d1 dir (l ++ g) other _ Hv1 Hl' Hn'), Hlook.
    exact (proj1 (find_is d dir l other _ Hv Hl Hn) He).
  - intros c k Hck Hkl Hkk. destruct (Hkeep c k Hck Hkl) as (Hc1 & Hb1 & Hkg). rewrite <-Hb1. apply Hk; [done| |done].
    set_solver.
Qed.

Definition same_lookups (d d' : D) (dir : Z) : Prop :=
  ∀ other x, wp (find_in_directory v dir other) d (λ _ r, r = x) → wp (find_in_directory v dir other) d' (λ _ r, r = x).

Lemma untouched_lookups d d' dir l :
  on_volume d → chain (fat d) dir l → (length l ≤ MAX_DIRECTORY_CLUSTERS)%nat →
  untouched d d' → entries d' l = entries d l → same_lookups d d' dir.
Proof.
  intros Hv Hl Hn (Hv' & _ & Hc) He other x Hx. pose proof (proj1 (find_is d dir l other x Hv Hl Hn) Hx) as Hlook. clear Hx.
  apply (find_is d' dir l other x Hv' (proj1 (Hc dir l Hl)) Hn). by rewrite He.
Qed.

Lemma evolve_untouched d d' dir l :
  on_volume d → chain (fat d) dir l → (length l ≤ MAX_DIRECTORY_CLUSTERS)%nat →
  evolve d d' (fat d) → untouched d d' ∧ same_lookups d d' dir.
Proof.
  intros Hv Hl Hn He. destruct (untouched_same_table d d' [] Hv (changed_evolve _ _ _ He)) as [Hu Hent]; [set_solver|].
  split; [done|]. eapply untouched_lookups; [done..|by eapply Hent].
Qed.

(** The replaced file's chain is examined before anything is written. *)
Definition examine (old : option DirectoryEntry) : io D FatError (option Z) :=
  match old with
  | Some entry =>
      if has_attribute (attributes entry) DIRECTORY_ATTRIBUTE then ierr WriteFailed
      else
      let! _ := (if 2 <=? first_cluster entry then validate_cluster_chain v (first_cluster entry) else iret ()) in
      iret (Some (first_cluster entry))
  | None => iret None
  end.

Lemma examine_spec d l short p old :
  on_volume d → slot_for short (disk d) (positions l) p old →
  wp (examine old) d (λ d' r, evolve d d' (fat d) ∧
    match r with
    | Ok x => x = first_cluster <$> old ∧ ∃ k0, replaces d (first_cluster <$> old) k0
    | Err e => ∀ data, refused d l short data e
    end).
Proof.
  intros Hv (a & b & Hps & Ha & Hp). pose proof (on_volume_refl ok disk v d0 d Hv) as Hrefl. unfold examine.
  destruct old as [e|]; [|apply wp_ret; by split; [|split; [|exists []]]].
  destruct Hp as [Hnm ->]. assert (Hin : raw (disk d) p ∈ entries d l).
  { unfold FatWalk.entries. rewrite Hps, fmap_app, fmap_cons. set_solver. }
  destruct (has_attribute _ _) eqn:Ed.
  { apply wp_err. split; [done|]. intros data. right. exists (raw (disk d) p). split_and!; [done|done|]. by left. }
  unfold replaces. cbn [fmap option_fmap option_map]. destruct (2 <=? _) eqn:E2.
  - apply wp_bind. eapply wp_mono; [by apply (validate_spec ok disk v d0 G Hok0)|]. intros d1 [[]|e] [He Hr].
    + destruct Hr as [k0 Hk0]. apply wp_ret. split; [done|]. split; [done|]. by exists k0.
    + split; [done|]. intros data. right. exists (raw (disk d) p). split_and!; [done|done|]. right. by apply Hr.
  - apply wp_bind, wp_ret, wp_ret. split; [done|]. split; [done|]. by exists [].
Qed.

(** The rest of [create_file_in_directory], from the slot on. *)
Definition finish (slot : DirectorySlotReservation) (short data : list Z) : io D FatError () :=
  let! existing_first := examine (existing slot) in
  let! first := or_cleanup (allocate_file_chain v (needed_clusters v data)) (rollback_reserved_slot v slot) in
  let undo := let! _ := free_if_allocated v first in rollback_reserved_slot v slot in
  let! _ := or_cleanup (write_file_data_chain v first data) undo in
  let! _ := or_cleanup (write_directory_entry (slot_lba slot) (slot_offset slot) short 0x20 first
    (as_u32 (Z.of_nat (length data)))) undo in
  release existing_first.

Lemma still_trans d d1 d2 : changed [] (fat d) d d1 → changed [] (fat d1) d1 d2 → changed [] (fat d) d d2.
Proof.
  intros H1 H2. eapply changed_weaken; [| |by eapply changed_trans]; [set_solver|].
  intros c Hc. destruct H1 as (_ & _ & _ & _ & Hf & _). by apply Hf.
Qed.

Lemma still_entries d d1 dir l : on_volume d → chain (fat d) dir l → changed [] (fat d) d d1 → entries d1 l = entries d l.
Proof. intros Hv Hl Hch. apply (changed_entries _ _ _ _ _ Hv Hch (chain_range _ _ _ _ Hl)). set_solver. Qed.

Lemma still_chain d d1 c k : changed [] (fat d) d d1 → chain (fat d) c k ↔ chain (fat d1) c k.
Proof. intros (_ & _ & _ & _ & Hf & _). split; apply chain_ext; intros x Hx; by rewrite Hf. Qed.

Lemma still_slot d d1 dir l short p old :
  on_volume d → chain (fat d) dir l → changed [] (fat d) d d1 →
  slot_for short (disk d) (positions l) p old → slot_for short (disk d1) (positions l) p old.
Proof.
  intros Hv Hl Hch. apply slot_for_ext. intros q Hq. destruct (elem_positions l q Hq) as (c & j & Hc & Hspan & _).
  symmetry. apply (changed_sector [] (fat d) d d1 c); [done|exact Hch| |set_solver|exact Hspan].
  by apply (proj1 (Forall_forall _ _) (chain_range _ _ _ _ Hl)).
Qed.

Lemma still_made d d1 d' dir l short data lf k0 :
  on_volume d → on_volume d1 → chain (fat d) dir l → (length l ≤ MAX_DIRECTORY_CLUSTERS)%nat → changed [] (fat d) d d1 →
  made d1 d' dir l short data lf [] k0 → made d d' dir l short data lf [] k0.
Proof.
  intros Hv Hv1 Hl Hn Hch. pose proof (still_entries d d1 dir l Hv Hl Hch) as Hent.
  pose proof (app_nil_r l) as Hnil. intros Hm. apply (made_before d d1); rewrite ?Hnil; try done.
  - by apply (still_chain d d1).
  - split_and!; constructor.
  - intros x Hx. destruct Hch as (_ & _ & _ & _ & Hf & _). rewrite Hf by done. set_solver.
  - by rewrite Hent.
  - intros c k Hc Hkl. split_and!; [by apply (still_chain d d1)| |set_solver].
    apply (changed_file _ _ _ _ _ Hv Hch (chain_range _ _ _ _ Hc)). set_solver.
Qed.

(** The replaced file's clusters are those of the name, apart from the directory's. *)
Lemma slot_replaced d dir l short p old k0 :
  chain (fat d) dir l → separate d l → slot_for short (disk d) (positions l) p old → replaces d (first_cluster <$> old) k0 →
  k0 ## l ∧ replaced d l short k0.
Proof.
  intros Hl Hsep (a & b & Hps & Ha & Hp) Hr.
  destruct old as [e|]; cycle 1.
  { cbn in Hr. subst k0. split; [set_solver|]. unfold replaced. by rewrite (proj2 Hp : lookup short (entries d l) = _). }
  destruct Hp as [Hnm ->].
  assert (Hent : entries d l = (raw (disk d) <$> a) ++ raw (disk d) p :: (raw (disk d) <$> b)).
  { unfold FatWalk.entries. by rewrite Hps, fmap_app, fmap_cons. }
  assert (Huse : in_use (raw (disk d) p) = true) by (unfold named in Hnm; by apply andb_true_iff in Hnm as [? _]).
  cbn [fmap option_fmap option_map] in Hr. split.
  - unfold replaces in Hr. cbn [first_cluster raw_entry] in Hr. destruct (2 <=? raw_cluster (raw (disk d) p)); [|set_solver].
    apply (Hsep (raw (disk d) p) k0); [rewrite Hent; set_solver|done|done].
  - unfold replaced. rewrite Hent. destruct (broken (raw (disk d) p)) eqn:Eb; [|by rewrite lookup_found].
    rewrite lookup_passed by done. cbn [lookup]. rewrite Hnm, Eb. unfold in_use in Huse.
    destruct (is_end (raw (disk d) p)); [done|]. unfold replaces in Hr. cbn [first_cluster raw_entry] in Hr.
    unfold broken in Eb. apply andb_true_iff in Eb as [Eb%Z.ltb_lt _]. by rewrite (proj2 (Z.leb_gt _ _)) in Hr by done.
Qed.

(** The slot is one of the directory's. *)
Lemma finish_inside d d1 dir l slot short data :
  on_volume d → is_read_only d = false → chain (fat d) dir l → (length l < MAX_DIRECTORY_CLUSTERS)%nat → separate d l →
  length short = 11%nat → byte_at short 0 ≠ 0 → byte_at short 0 ≠ 0xe5 → Z.of_nat (length data) ≤ u32_max →
  same d d1 → extension slot = None →
  slot_for short (disk d) (positions l) (slot_lba slot, slot_offset slot) (existing slot) →
  wp (finish slot short data) d1 (λ d' r,
    match r with
    | Ok _ => created d d' dir l short data
    | Err e => refused d l short data e ∧ untouched d d' ∧ same_lookups d d' dir
    end).
Proof.
  intros Hv Hro Hl Hn Hsep Hs H0 He5 Hdata Hsame Hext Hslot.
  pose proof (changed_same d d1 Hv Hsame) as Hch1. pose proof (changed_on _ _ _ _ Hv Hch1) as Hv1.
  assert (Hfin : ∀ d2 e, changed [] (fat d) d d2 → refused d l short data e →
    refused d l short data e ∧ untouched d d2 ∧ same_lookups d d2 dir).
  { intros d2 e Hch2 Hr. destruct (untouched_same_table d d2 [] Hv Hch2) as [Hu Hent]; [set_solver|].
    split; [done|]. split; [done|]. eapply untouched_lookups; [done|done|lia|done|by eapply Hent]. }
  unfold finish. apply wp_bind. eapply wp_mono.
  { apply (examine_spec d1 l short (slot_lba slot, slot_offset slot) (existing slot) Hv1). exact (still_slot d d1 dir l short _ _ Hv Hl Hch1 Hslot). }
  intros d2 r [He Hr]. pose proof (still_trans d d1 d2 Hch1 (changed_evolve _ _ _ He)) as Hch2.
  pose proof (changed_on _ _ _ _ Hv Hch2) as Hv2. destruct r as [x|e].
  2: { apply Hfin; [done|]. destruct (Hr data) as [[-> Hno]|(r & Hin & Hnm & Hr')].
       { left. split; [done|]. rewrite <-(still_entries d d1 dir l) by done. destruct Hno as (k & Hk & Hall).
         exists k. split; [done|]. intros c Hc Hz. apply Hall; [done|]. destruct Hch1 as (_ & _ & _ & _ & Hf & _). by rewrite Hf. }
       right. clear Hr. rename Hr' into Hr. rewrite (still_entries d d1 dir l) in Hin by done. exists r. split_and!; [done|done|].
       destruct Hr as [?|Hr]; [by left|right]. intros [k Hk]. apply Hr. exists k. by apply (still_chain d d1). }
  destruct Hr as [-> [k0 Hk0]].
  assert (Hk0d : replaces d (first_cluster <$> existing slot) k0).
  { unfold replaces in *. destruct (first_cluster <$> existing slot) as [cl|]; [|done].
    destruct (2 <=? cl); [|done]. by apply (still_chain d d1). }
  assert (Hk02 : replaces d2 (first_cluster <$> existing slot) k0).
  { unfold replaces in *. destruct (first_cluster <$> existing slot) as [cl|]; [|done].
    destruct (2 <=? cl); [|done]. by apply (still_chain d d2). }
  destruct (slot_replaced d dir l short _ _ k0 Hl Hsep Hslot Hk0d) as [Hkl Hrep].
  assert (Hg : growth short (entries d l) = 0%nat) by (unfold growth, FatWalk.entries; by rewrite (slot_not_full _ _ _ _ _ Hslot)).
  apply (create_from_slot d2 l dir (slot_lba slot, slot_offset slot) (existing slot) short data
    (rollback_reserved_slot v slot) (λ first, let! _ := free_if_allocated v first in rollback_reserved_slot v slot) k0);
    try done.
  - by eapply changed_writable.
  - by apply (still_chain d d2).
  - lia.
  - exact (still_slot d d2 dir l short _ _ Hv Hl Hch2 Hslot).
  - intros d3 He3 Hno. unfold rollback_reserved_slot. rewrite Hext. apply wp_bind, wp_ret, wp_err. apply Hfin.
    { eapply still_trans; [exact Hch2|by apply changed_evolve]. }
    left. split; [done|]. rewrite Hg, Nat.add_0_r. destruct Hno as (k & Hk & Hall). exists k. split; [done|].
    intros c Hc Hz. apply Hall; [done|]. destruct Hch2 as (_ & _ & _ & _ & Hf & _). by rewrite Hf.
  - intros d3 lf Hm. exists lf, [], k0. split_and!; [done|done|]. eapply still_made; [done|exact Hv2|done|lia|done|done].
Qed.

Lemma first_position c : ∃ b, positions [c] = (lba c, 0%nat) :: b.
Proof.
  pose proof (g_spc _ _ G). unfold FatWalk.positions, FatData.lbas. simpl. rewrite app_nil_r, seqZ_cons by lia. simpl. eauto.
Qed.

Lemma link_last f dir l c' : chain f dir l → last l = Some c' → link_of v f c' = Ok End.
Proof.
  induction 1 as [c Hc|c c'' l Hc Hl IH]; intros Hlast; [simpl in Hlast; by simplify_eq|].
  apply IH. destruct (chain_head _ _ _ _ Hl) as [l' ->]. done.
Qed.

(** The directory is full and has grown. *)
Lemma finish_grown d dir l d1 c' c short data :
  on_volume d → is_read_only d = false → chain (fat d) dir l → (length l < MAX_DIRECTORY_CLUSTERS)%nat →
  length short = 11%nat → byte_at short 0 ≠ 0 → byte_at short 0 ≠ 0xe5 → Z.of_nat (length data) ≤ u32_max →
  last l = Some c' → is_full short (entries d l) = true → in_range v c → fat d c = 0 →
  changed [c] (appended (fat d) c' c) d d1 → (∀ k, span c k → disk d1 k = zeros) →
  wp (finish (mkReservation (lba c) 0 None (Some (mkDirectoryExtension c' c))) short data) d1 (λ d' r,
    match r with
    | Ok _ => created d d' dir l short data
    | Err e => refused d l short data e ∧ untouched d d' ∧ same_lookups d d' dir
    end).
Proof.
  intros Hv Hro Hl Hn Hs H0 He5 Hdata Hlast Hfull Hc Hz Hch Hzero. pose proof (full_passed _ _ Hfull) as Hpassed.
  pose proof (changed_on _ _ _ _ Hv Hch) as Hv1. pose proof (chain_range _ _ _ _ Hl) as HF.
  assert (Hcl : c ∉ l) by (intros Hin; by apply (chain_nonzero v d0 G (fat d) dir l c Hl Hin)).
  assert (Hl1 : chain (fat d1) dir (l ++ [c])).
  { apply (changed_chain _ _ _ _ _ _ Hch). by apply appended_chain. }
  assert (Hent1 : entries d1 l = entries d l) by (apply (changed_entries _ _ _ _ _ Hv Hch HF); set_solver).
  destruct (first_position c) as [b Hb].
  assert (Hfirst : raw (disk d1) (lba c, 0%nat) = replicate 32 0).
  { unfold raw. cbn [fst snd]. rewrite Hzero by (unfold FatData.span; pose proof (g_spc _ _ G); lia). done. }
  assert (Hslot : slot_for short (disk d1) (positions (l ++ [c])) (lba c, 0%nat) None).
  { exists (positions l), b. split_and!; [by rewrite positions_app, Hb| |left; by rewrite Hfirst|].
    - change (raw (disk d1) <$> positions l) with (entries d1 l). by rewrite Hent1.
    - rewrite positions_app, fmap_app, Hb, fmap_cons, Hfirst, lookup_passed; [done|].
      change (raw (disk d1) <$> positions l) with (entries d1 l). by rewrite Hent1. }
  assert (Hlook : ∀ other, lookup other (entries d1 (l ++ [c])) = lookup other (entries d l ++ replicate 32 0 :: (raw (disk d1) <$> b))).
  { intros other. f_equal. unfold FatWalk.entries. rewrite positions_app, fmap_app, Hb, fmap_cons, Hfirst. f_equal. exact Hent1. }
  pose proof (link_last _ _ _ _ Hl Hlast) as Hend.
  assert (Hc' : in_range v c' ∧ c ≠ c').
  { split; [by eapply link_range|]. intros ->. apply Hcl. by apply last_Some_elem_of. }
  assert (Hfree : ∀ x, in_range v x → fat d1 x = 0 ↔ fat d x = 0 ∧ x ≠ c).
  { intros x Hx. destruct Hch as (_ & _ & _ & _ & Hf & _). rewrite Hf by done. unfold appended, update.
    pose proof (g_limit _ _ G). destruct (decide (x = c')) as [->|].
    - destruct Hc as [? _]. unfold in_range in *. split; [lia|]. intros [Hzc _]. exfalso.
      apply (chain_nonzero v d0 G (fat d) dir l c' Hl); [by apply last_Some_elem_of|done].
    - destruct (decide (x = c)); [|tauto]. split; [done|tauto]. }
  unfold finish. cbn [existing examine]. apply wp_bind, wp_ret. cbn [slot_lba slot_offset].
  eapply (create_from_slot d1 (l ++ [c]) dir (lba c, 0%nat) None short data _
    (λ first, let! _ := free_if_allocated v first in rollback_reserved_slot v _) []); try done.
  - by eapply changed_writable.
  - rewrite length_app. simpl. lia.
  - set_solver.
  - intros d2 He2 Hno. eapply wp_mono; [apply (rollback_growth_spec d d1 d2 c' c); try done; apply Hc'|].
    intros d3 r (-> & Hu & Hent). split_and!; [|done|eapply untouched_lookups; [done|done|lia|done|by eapply Hent]].
    left. split; [done|]. unfold growth. rewrite Hfull. destruct Hno as (k & Hk & Hall). exists (c :: k).
    split; [simpl; lia|]. intros x Hx Hxz. destruct (decide (x = c)) as [->|Hne]; [left|right]. apply Hall; [done|].
    by apply Hfree.
  - intros d2 lf Hm. exists lf, [c], []. split_and!; [unfold growth; by rewrite Hfull| |].
    { unfold replaced. by rewrite <-(app_nil_r (entries d l)), lookup_passed. }
    eapply (made_before d d1 d2 dir l [c]); try done; [lia|rewrite length_app; simpl; lia|..].
    + unfold fresh. rewrite !Forall_singleton. split_and!; [done|apply NoDup_singleton|done].
    + intros x Hx. rewrite Hfree by done. rewrite list_elem_of_singleton. tauto.
    + intros other e He. rewrite Hlook. by apply lookup_app.
    + intros x k Hx Hkl. assert (Hck : c ∉ k) by (intros Hin; by apply (chain_nonzero v d0 G (fat d) x k c Hx Hin)). split_and!.
      * apply (changed_chain _ _ _ _ _ _ Hch). apply (chain_local v (fat d)); [|done]. intros y Hy. unfold appended, update.
        rewrite !decide_False; [done|intros ->; done|intros ->]. apply (Hkl c' Hy). by apply last_Some_elem_of.
      * apply (changed_file _ _ _ _ _ Hv Hch (chain_range _ _ _ _ Hx)). set_solver.
      * set_solver.
Qed.

End create.
End FatCreate.

(** ** An example: a file in the root of a small volume *)
Module CreateDemo.
Import FatDemo FatCreate.

Lemma root_chain : chain small (fat ram_disk small small_disk) 2 [2].
Proof. apply chain_end. vm_compute. reflexivity. Qed.

Lemma root_separate : separate ram_disk small small_disk [2].
Proof.
  intros r k Hr Huse. exfalso.
  assert (Hall : forallb (λ r, negb (in_use r)) (entries ram_disk small small_disk [2]) = true) by (vm_compute; reflexivity).
  rewrite forallb_forall in Hall. apply list_elem_of_In, Hall in Hr. by rewrite Huse in Hr.
Qed.

End CreateDemo.
