(* ===== verification/Fat32Test.v ===== *)
(** * The FAT32 self test (kernel/src/fat32.rs, [self_test] and what it runs)

    The test disks of the source as devices, and the tests as computations over them: the
    model of the file system runs the scenarios the kernel runs at boot, with the results
    the kernel asserts. *)
From S2P Require Import Prelude Block DeviceIo Fat32 Fat32Names Fat32Dir Fat32Meta.
Import Block Io Fat Names Dir Meta.

Module FatTest.

Definition TOTAL_SECTORS : Z := 70000.
Definition FAT_LBA : Z := 32.
Definition ROOT_LBA : Z := 1232.
Definition FILE_LBA : Z := 1233.

Definition put (off : nat) (src dst : list Z) : list Z := splice off src dst.

(** ** A read-only volume computed from the sector number *)
Record TestDisk := mkTestDisk { valid_signature : bool; cyclic_chain : bool }.

Definition boot_fields (s : list Z) : list Z :=
  write_u32 (write_u32 (write_u32 (splice 13 [1; 32; 0; 2] (write_u16 s 11 512)) 32 TOTAL_SECTORS) 36 600) 44 2.

Definition test_sector (d : TestDisk) (lba : Z) : list Z :=
  if lba =? 0 then
    let s := boot_fields zeros in if valid_signature d then splice 510 [0x55; 0xaa] s else s
  else if lba =? FAT_LBA then
    let s := write_u32 zeros 8 5 in
    let s := if cyclic_chain d then write_u32 s 12 3 else write_u32 (write_u32 s 12 4) 16 FAT32_END_MIN in
    write_u32 s 20 FAT32_END_MIN
  else if lba =? ROOT_LBA then
    foldl (λ s index, splice (index * DIRECTORY_ENTRY_SIZE) [0xe5] s) zeros (seq 0 DIRECTORY_ENTRIES_PER_SECTOR)
  else if lba =? ROOT_LBA + 3 then
    let s := splice 11 [0x20] (splice 0 (lit "KERNEL  BIN") zeros) in
    write_u32 (write_u16 s 26 3) 28 (if cyclic_chain d then 1024 else 600)
  else if lba =? FILE_LBA then replicate SECTOR_SIZE 65
  else if lba =? FILE_LBA + 1 then replicate SECTOR_SIZE 66
  else zeros.

Definition checked_read (len : nat) (lba : Z) (out : list Z) (content : list Z) : list Z * result () Error :=
  if negb (len =? SECTOR_SIZE)%nat || (TOTAL_SECTORS <=? lba) then (out, Err OutOfBounds) else (content, Ok ()).

#[export] Instance test_device : BlockDevice TestDisk := {|
  sector_count _ := TOTAL_SECTORS;
  is_read_only _ := false;
  flush d := (d, Ok ());
  read_sector d lba out := let '(out, r) := checked_read (length out) lba out (test_sector d lba) in (d, out, r);
  write_sector d _ _ := (d, Err ReadOnly)
|}.

(** The same with the root chained to itself. *)
Record RootCycleDisk := mkRootCycle { cycle_inner : TestDisk }.
#[export] Instance root_cycle_device : BlockDevice RootCycleDisk := {|
  sector_count d := sector_count (cycle_inner d);
  is_read_only _ := false;
  flush d := (d, Ok ());
  read_sector d lba out :=
    let '(i, out, r) := read_sector (cycle_inner d) lba out in
    match r with
    | Err e => (mkRootCycle i, out, Err e)
    | Ok _ => (mkRootCycle i, (if lba =? FAT_LBA then write_u32 out 8 2 else out), Ok ())
    end;
  write_sector d lba s := let '(i, r) := write_sector (cycle_inner d) lba s in (mkRootCycle i, r)
|}.

(** A file of 258 clusters whose bytes are their positions modulo 251. *)
Inductive StreamingReadDisk := Streaming.

Definition streaming_sector (lba : Z) : option (list Z) :=
  if lba =? 0 then Some (splice 510 [0x55; 0xaa] (boot_fields zeros))
  else if (FAT_LBA <=? lba) && (lba <? FAT_LBA + 600) then
    Some (seq 0 128 ≫= λ index,
            let cluster := (lba - FAT_LBA) * 128 + Z.of_nat index in
            to_le_bytes 4 (if (3 <=? cluster) && (cluster <? 260) then cluster + 1 else FAT32_END_MIN))
  else if (FILE_LBA <=? lba) && (lba <? FILE_LBA + 258) then
    Some ((λ index : nat, ((lba - FILE_LBA) * Z.of_nat SECTOR_SIZE + Z.of_nat index) mod 251) <$> seq 0 SECTOR_SIZE)
  else None.

#[export] Instance streaming_device : BlockDevice StreamingReadDisk := {|
  sector_count _ := TOTAL_SECTORS;
  is_read_only _ := false;
  flush d := (d, Ok ());
  read_sector d lba out :=
    if negb (length out =? SECTOR_SIZE)%nat || (TOTAL_SECTORS <=? lba) then (d, out, Err OutOfBounds)
    else match streaming_sector lba with
         | Some s => (d, s, Ok ())
         | None => (d, zeros, Err OutOfBounds)
         end;
  write_sector d _ _ := (d, Err ReadOnly)
|}.

(** ** A writable volume that keeps the sectors the tests touch *)
Record MutableFatDisk := mkMutable {
  boot : list Z;
  inode_metadata : list (list Z);
  journal : list (list Z);
  metadata : list (list Z);
  fs_info : list Z;
  backup_fs_info : list Z;
  fat0 : list Z;
  fat1 : list Z;
  root : list Z;
  data : list (list Z)
}.

Definition test_fs_info : list Z :=
  write_u32 (write_u32 (write_u32 (write_u32 (write_u32 zeros 0 FSINFO_LEAD_SIGNATURE) 484 FSINFO_STRUCT_SIGNATURE)
    FSINFO_FREE_COUNT_OFFSET (TOTAL_SECTORS - ROOT_LBA - 1)) FSINFO_NEXT_FREE_OFFSET 3) 508 FSINFO_TRAIL_SIGNATURE.
Definition new_disk : MutableFatDisk :=
  mkMutable (splice 510 [0x55; 0xaa] (write_u16 (write_u16 (boot_fields zeros) 48 1) 50 6))
    (replicate 4 zeros) (replicate 2 zeros) (replicate 4 zeros) test_fs_info test_fs_info
    (write_u32 zeros 8 FAT32_END_MIN) (write_u32 zeros 8 FAT32_END_MIN) zeros (replicate 128 zeros).

(** The places of a sector, in the order of the source's tests. *)
Inductive Place :=
  | AtBoot | AtInode (i : nat) | AtJournal (i : nat) | AtMetadata (i : nat)
  | AtInfo | AtBackup | AtFat0 | AtFat1 | AtRoot | AtData (i : nat) | Nowhere.

Definition place (lba : Z) : Place :=
  let offset base := Z.to_nat (lba - base) in
  if lba =? 0 then AtBoot
  else if (FAT_LBA - 10 <=? lba) && (lba <? FAT_LBA - 6) then AtInode (offset (FAT_LBA - 10))
  else if (FAT_LBA - 6 <=? lba) && (lba <? FAT_LBA - 4) then AtJournal (offset (FAT_LBA - 6))
  else if (FAT_LBA - 4 <=? lba) && (lba <? FAT_LBA) then AtMetadata (offset (FAT_LBA - 4))
  else if lba =? 1 then AtInfo
  else if lba =? 7 then AtBackup
  else if lba =? FAT_LBA then AtFat0
  else if lba =? FAT_LBA + 600 then AtFat1
  else if lba =? ROOT_LBA then AtRoot
  else if (FILE_LBA <=? lba) && (lba <? FILE_LBA + 128) then AtData (offset FILE_LBA)
  else Nowhere.

Definition mutable_sector (d : MutableFatDisk) (lba : Z) : list Z :=
  match place lba with
  | AtBoot => boot d
  | AtInode i => default zeros (inode_metadata d !! i)
  | AtJournal i => default zeros (journal d !! i)
  | AtMetadata i => default zeros (metadata d !! i)
  | AtInfo => fs_info d
  | AtBackup => backup_fs_info d
  | AtFat0 => fat0 d
  | AtFat1 => fat1 d
  | AtRoot => root d
  | AtData i => default zeros (data d !! i)
  | Nowhere => zeros
  end.

Definition mutable_store (d : MutableFatDisk) (lba : Z) (s : list Z) : option MutableFatDisk :=
  let 'mkMutable b im j m fi bi f0 f1 r dt := d in
  match place lba with
  | AtBoot => Some (mkMutable s im j m fi bi f0 f1 r dt)
  | AtInode i => Some (mkMutable b (<[i := s]> im) j m fi bi f0 f1 r dt)
  | AtJournal i => Some (mkMutable b im (<[i := s]> j) m fi bi f0 f1 r dt)
  | AtMetadata i => Some (mkMutable b im j (<[i := s]> m) fi bi f0 f1 r dt)
  | AtInfo => Some (mkMutable b im j m s bi f0 f1 r dt)
  | AtBackup => Some (mkMutable b im j m fi s f0 f1 r dt)
  | AtFat0 => Some (mkMutable b im j m fi bi s f1 r dt)
  | AtFat1 => Some (mkMutable b im j m fi bi f0 s r dt)
  | AtRoot => Some (mkMutable b im j m fi bi f0 f1 s dt)
  | AtData i => Some (mkMutable b im j m fi bi f0 f1 r (<[i := s]> dt))
  | Nowhere => None
  end.

#[export] Instance mutable_device : BlockDevice MutableFatDisk := {|
  sector_count _ := TOTAL_SECTORS;
  is_read_only _ := false;
  flush d := (d, Ok ());
  read_sector d lba out := let '(out, r) := checked_read (length out) lba out (mutable_sector d lba) in (d, out, r);
  write_sector d lba s :=
    if negb (length s =? SECTOR_SIZE)%nat || (TOTAL_SECTORS <=? lba) then (d, Err OutOfBounds)
    else match mutable_store d lba s with Some d => (d, Ok ()) | None => (d, Err OutOfBounds) end
|}.

(** A disk that refuses the first write to one sector. *)
Record FailingWriteDisk := mkFailing { inner : MutableFatDisk; fail_lba : Z; failed : bool }.
#[export] Instance failing_device : BlockDevice FailingWriteDisk := {|
  sector_count d := sector_count (inner d);
  is_read_only _ := false;
  flush d := (d, Ok ());
  read_sector d lba out :=
    let '(i, out, r) := read_sector (inner d) lba out in (mkFailing i (fail_lba d) (failed d), out, r);
  write_sector d lba s :=
    if (lba =? fail_lba d) && negb (failed d) then (mkFailing (inner d) (fail_lba d) true, Err DeviceFault)
    else let '(i, r) := write_sector (inner d) lba s in (mkFailing i (fail_lba d) (failed d), r)
|}.

(** ** The tests *)
Section checks.
Context {D : Type} `{BlockDevice D}.
Abbreviation test := (io D FatError bool).

Definition succeeds {A} (m : io D FatError A) : test := let! r := itry m in iret (is_ok r).
Definition fails {A} (m : io D FatError A) (e : FatError) : test :=
  let! r := itry m in iret (match r with Ok _ => false | Err e' => bool_decide (e' = e) end).
Definition gives {A} (m : io D FatError A) (good : A → bool) : test :=
  let! r := itry m in iret (match r with Ok a => good a | Err _ => false end).
(** [m1 && m2], short-circuiting. *)
Definition both (m1 m2 : test) : test := let! b := m1 in if b then m2 else iret false.
Fixpoint all_of (ms : list test) : test := match ms with [] => iret true | m :: ms => both m (all_of ms) end.

(** The verdict of a test that starts by mounting its disk. *)
Definition mounted (d : D) (k : Volume → test) : bool :=
  match (let! v := mount in k v) d with
  | (_, Ok b) => b
  | (_, Err _) => false
  end.
End checks.

Definition same_bytes (n : nat) (expected : list Z) (r : nat * list Z) : bool :=
  bool_decide (r.1 = n) && bool_decide (take n r.2 = expected).
Definition is_next (l : ClusterLink) : bool := match l with Next _ => true | End => false end.
Definition is_link (l : ClusterLink) (r : ClusterLink) : bool :=
  match l, r with Next a, Next b => a =? b | End, End => true | _, _ => false end.

Definition kernel_name : list Z := lit "KERNEL  BIN".
Definition missing_name : list Z := lit "MISSING TXT".

Definition volume_checks (v : Volume) : io TestDisk FatError bool :=
  let! entry := find_root v kernel_name in
  all_of [
    gives (list_root v [None; None]) (λ r, bool_decide (r.2 = 1%nat) &&
      match r.1 !! 0%nat with Some (Some e) => bool_decide (short_name e = short_name entry) | _ => false end);
    fails (list_root v []) DirectoryFull;
    iret ((total_sectors v =? TOTAL_SECTORS) && (fat_count v =? 2) && (fat_size v =? 600) &&
          bool_decide (cluster_lba v (root_cluster v) = Ok ROOT_LBA));
    gives (next_cluster v (root_cluster v)) (is_link (Next 5));
    iret (bool_decide (entry = mkDirectoryEntry kernel_name 3 600 0x20));
    gives (next_cluster v 3) (is_link (Next 4));
    gives (next_cluster v 4) (is_link End);
    gives (read_file v entry (replicate 600 0)) (same_bytes 600 (replicate 512 65 ++ replicate 88 66));
    fails (find_root v missing_name) NotFound].

(** A name through its records, put back into logical order. *)
Definition logical (records : list (list Z)) : list (list Z) :=
  foldl (λ acc record, <[(Z.to_nat (Z.land (byte_at record 0) 0x1f) - 1)%nat := record]> acc)
    (replicate MAX_LFN_ENTRIES (replicate DIRECTORY_ENTRY_SIZE 0)) records.
Definition lfn_round_trip (nfc : list Z → list Z) (name short : list Z) : bool :=
  match encode_long_name nfc name short with
  | None => false
  | Some records =>
      bool_decide (decode_long_name (logical records) (length records) (long_name_checksum short) MAX_LONG_NAME
                   = Some (utf8 name))
  end.
Definition lfn_valid (nfc : list Z → list Z) : bool :=
  match encode_long_name nfc (lit "A long filename.txt") (lit "ALONGN~1TXT") with
  | Some [r0; r1] =>
      (byte_at r0 0 =? 0x42) && (byte_at r1 0 =? 0x01) && (byte_at r0 11 =? LONG_NAME_ATTRIBUTE) &&
      (byte_at r0 13 =? long_name_checksum (lit "ALONGN~1TXT"))
  | _ => false
  end.

Definition range_self_test : bool :=
  mounted (mkTestDisk true false) (λ v,
    let! entry := find_root v kernel_name in
    all_of [
      gives (read_file_at v entry 500 (replicate 32 0)) (same_bytes 32 (replicate 12 65 ++ replicate 20 66));
      gives (read_file_at v entry 590 (replicate 32 0))
        (λ r, same_bytes 10 (replicate 10 66) r && bool_decide (drop 10 r.2 = replicate 22 0));
      gives (read_file_at v entry 600 (replicate 32 0)) (λ r, bool_decide (r.1 = 0%nat))]).

Definition streaming_read_self_test : bool :=
  mounted Streaming (λ v,
    let offset := (140 * SECTOR_SIZE + 11)%nat in
    gives (read_file_at v (mkDirectoryEntry (lit "STREAM  BIN") 3 (260 * 512) 0x20) offset (replicate 73 0))
      (same_bytes 73 ((λ i : nat, Z.of_nat (offset + i) mod 251) <$> seq 0 73))).

Section names.
Context (nfc : list Z → list Z) {D : Type} `{BlockDevice D} (v : Volume).
Abbreviation test := (io D FatError bool).

Definition read_path_bytes (path out : list Z) : io D FatError (nat * list Z) :=
  let! entry := resolve_path v nfc path in read_file v entry out.
Definition path_holds (path : list Z) (expected : list Z) : test :=
  gives (read_path_bytes path (replicate 8 0)) (same_bytes (length expected) expected).
Definition path_missing (path : list Z) : test := fails (resolve_path v nfc path) NotFound.
Definition entry_free (cluster : Z) : test := gives (read_fat_entry v cluster) (λ x, x =? 0).
Definition free_count_for_test : io D FatError (option Z) :=
  let! r := itry (read_fs_info v) in
  iret (match r with Ok (Some info) => Some (free_count info) | _ => None end).

Definition numbered_leaf (prefix : Z) (index : nat) : list Z :=
  [prefix; 48 + Z.of_nat index / 10; 48 + Z.of_nat index mod 10] ++ lit ".txt".
Definition numbered_child_path (dir : list Z) (prefix : Z) (index : nat) : list Z :=
  dir ++ SLASH :: numbered_leaf prefix index.
Definition create_all (paths : list (list Z)) (content : list Z) : io D FatError () :=
  ifold (λ _ path, create_path_file v nfc path content) paths ().
End names.

Definition mutation_self_test (nfc : list Z → list Z) : bool :=
  mounted new_disk (λ v,
    let! _ := create_path_file v nfc (lit "a.txt") (lit "one") in
    let! _ := create_path_file v nfc (lit "docs/a.txt") (lit "two") in
    let! _ := mkdir_path v (lit "other") in
    all_of [
      succeeds (rename_path v nfc (lit "a.txt") (lit "b.txt"));
      path_missing nfc v (lit "a.txt");
      path_holds nfc v (lit "b.txt") (lit "one");
      fails (rename_path v nfc (lit "docs/a.txt") (lit "b.txt")) AlreadyExists;
      succeeds (rename_path v nfc (lit "docs") (lit "archive"));
      path_missing nfc v (lit "docs/a.txt");
      path_holds nfc v (lit "archive/a.txt") (lit "two");
      succeeds (rename_path v nfc (lit "archive") (lit "other/docs"));
      path_missing nfc v (lit "archive/a.txt");
      path_holds nfc v (lit "other/docs/a.txt") (lit "two");
      fails (delete_path v nfc (lit "other/docs")) DirectoryNotEmpty;
      succeeds (delete_path v nfc (lit "other/docs/a.txt"));
      path_missing nfc v (lit "other/docs/a.txt");
      entry_free v 5;
      succeeds (delete_path v nfc (lit "other/docs"));
      path_missing nfc v (lit "other/docs");
      entry_free v 4]).

Definition unicode_name : list Z := lit "caf" ++ [0xe9; 32; 0x1f600] ++ lit ".txt".
Definition unicode_decomposed : list Z := lit "cafe" ++ [0x301; 32; 0x1f600] ++ lit ".txt".

Definition metadata_test (v : Volume) (name : list Z) : io MutableFatDisk FatError bool :=
  let m := mkMetadata 1000 1000 0x1a0 in
  let hash := metadata_path_hash name in
  let tag := metadata_path_tag name in
  let intent := mkIntent hash tag 0x1234 m in
  let intent2 := mkIntent (Z.lxor hash 0x9e3779b97f4a7c15) (as_u32 (tag + 1)) 0x5678 m in
  all_of [
    succeeds (write_file_metadata_pending v hash tag m);
    gives (read_file_metadata v hash tag) (λ r, bool_decide (r = Some m));
    gives (finalize_file_metadata v hash tag) (λ b, b);
    succeeds (write_file_metadata v hash tag m);
    succeeds (remove_file_metadata v hash tag);
    gives (read_file_metadata v hash tag) (λ r, bool_decide (r = None));
    succeeds (append_journal_intent v intent);
    gives (read_journal_intent v hash tag) (λ r, bool_decide (r = Some intent));
    succeeds (append_journal_intent v intent2);
    succeeds (remove_journal_intent v hash tag);
    gives (read_journal_intent v hash tag) (λ r, bool_decide (r = None));
    gives (read_journal_intent v (path_hash intent2) (path_tag intent2)) (λ r, bool_decide (r = Some intent2));
    succeeds (remove_journal_intent v (path_hash intent2) (path_tag intent2))].

Definition inode_test (nfc : list Z → list Z) (v : Volume) (name : list Z) : io MutableFatDisk FatError bool :=
  let m := mkMetadata 1000 1000 0x1a0 in
  let! entry := resolve_path v nfc name in
  let inode := first_cluster entry in
  all_of [
    iret (2 <=? inode);
    succeeds (write_inode_metadata v inode m);
    gives (read_inode_metadata v inode) (λ r, bool_decide (r = Some m));
    succeeds (remove_inode_metadata v inode);
    gives (read_inode_metadata v inode) (λ r, bool_decide (r = None))].

Definition long_growth_test (nfc : list Z → list Z) : bool :=
  mounted new_disk (λ v,
    let long := lit "A long filename after growth.txt" in
    let! _ := create_all nfc v (numbered_leaf 103 <$> seq 0 DIRECTORY_ENTRIES_PER_SECTOR) (lit "x") in
    all_of [
      succeeds (create_path_file v nfc long (lit "g"));
      gives (next_cluster v (root_cluster v)) is_next;
      succeeds (resolve_path v nfc long)]).

Definition long_filename_self_test (nfc : list Z → list Z) : bool :=
  let name := lit "A long filename.txt" in
  let renamed := lit "Renamed long filename.txt" in
  mounted new_disk (λ v,
    let! metadata_ok := metadata_test v name in
    let! _ := create_path_file v nfc name (lit "lfn") in
    all_of [
      iret metadata_ok;
      inode_test nfc v name;
      path_holds nfc v name (lit "lfn");
      gives (for_each_directory_entry_named v (root_cluster v)
               (λ listed _ display, Ok (listed || bool_decide (display = Some (utf8 name)))) false) (λ b, b);
      gives (list_root_named v [None]) (λ r, bool_decide (r.2 = 1%nat) &&
        match r.1 !! 0%nat with
        | Some (Some e) => (byte_at (short_name (named_entry e)) 0 =? 87) &&
                           bool_decide (take (long_name_length e) (long_name e) = utf8 name)
        | _ => false
        end);
      succeeds (create_path_file v nfc unicode_name (lit "u"));
      succeeds (resolve_path v nfc unicode_name);
      succeeds (resolve_path v nfc unicode_decomposed);
      succeeds (rename_path v nfc name renamed);
      path_missing nfc v name;
      succeeds (resolve_path v nfc renamed);
      succeeds (delete_path v nfc renamed);
      path_missing nfc v renamed;
      succeeds (create_path_file v nfc name (lit "lfn2"))]) && long_growth_test nfc.

Definition directory_growth_self_test (nfc : list Z → list Z) : bool :=
  mounted new_disk (λ v,
    let! initial_free := free_count_for_test v in
    let! _ := create_all nfc v (numbered_leaf 102 <$> seq 0 18) (lit "x") in
    let! grown := all_of [gives (next_cluster v (root_cluster v)) is_next; path_holds nfc v (lit "f17.txt") (lit "x")] in
    let! _ := mkdir_path v (lit "big") in
    let! _ := create_all nfc v (numbered_child_path (lit "big") 103 <$> seq 0 15) (lit "y") in
    let! big := resolve_path v nfc (lit "big") in
    let! grown_big := all_of [gives (next_cluster v (first_cluster big)) is_next; path_holds nfc v (lit "big/g14.txt") (lit "y")] in
    let! _ := mkdir_path v (lit "dst") in
    let! _ := create_all nfc v (numbered_child_path (lit "dst") 100 <$> seq 0 14) (lit "q") in
    let! _ := create_path_file v nfc (lit "move.txt") (lit "z") in
    let! _ := rename_path v nfc (lit "move.txt") (lit "dst/move.txt") in
    let! moved := all_of [path_missing nfc v (lit "move.txt"); path_holds nfc v (lit "dst/move.txt") (lit "z")] in
    let! dst := resolve_path v nfc (lit "dst") in
    let! grown_dst := gives (next_cluster v (first_cluster dst)) is_next in
    let! after_growth := free_count_for_test v in
    let! _ := delete_path v nfc (lit "dst/move.txt") in
    let! final := free_count_for_test v in
    iret (grown && grown_big && moved && grown_dst &&
          match initial_free, after_growth, final with
          | Some i, Some a, Some f => (a =? saturating_sub i 53) && (f =? a + 1)
          | _, _, _ => false
          end)).

(** Running on a disk whose next write to one sector fails. *)
Definition with_failing {A} (lba : Z) (m : io FailingWriteDisk FatError A) : io MutableFatDisk FatError A := λ d,
  let '(f, r) := m (mkFailing d lba false) in (inner f, r).

Definition overwrite_rollback_self_test (nfc : list Z → list Z) : bool :=
  mounted new_disk (λ v,
    let! _ := create_path_file v nfc (lit "keep.txt") (lit "old") in
    let! lba := iresult (cluster_lba v 4) in
    all_of [
      with_failing lba (fails (create_path_file v nfc (lit "keep.txt") (lit "new")) (EBlock DeviceFault));
      path_holds nfc v (lit "keep.txt") (lit "old");
      entry_free v 4]).

Definition directory_extension_rollback_self_test (nfc : list Z → list Z) : bool :=
  mounted new_disk (λ v,
    let! _ := create_all nfc v (numbered_leaf 114 <$> seq 0 16) [] in
    let! lba := iresult (cluster_lba v 4) in
    all_of [
      gives (next_cluster v (root_cluster v)) (is_link End);
      with_failing lba (fails (create_path_file v nfc (lit "boom.txt") (lit "new")) (EBlock DeviceFault));
      path_missing nfc v (lit "boom.txt");
      gives (next_cluster v (root_cluster v)) (is_link End);
      entry_free v 3;
      entry_free v 4]).

Definition self_test (nfc : list Z → list Z) : bool :=
  mounted (mkTestDisk true false) volume_checks &&
  lfn_valid nfc &&
  lfn_round_trip nfc (lit "A long filename.txt") (lit "ALONGN~1TXT") &&
  lfn_round_trip nfc unicode_name (lit "UNICOD~1TXT") &&
  match snd (fails mount InvalidBootSector (mkTestDisk false false)) with Ok b => b | Err _ => false end &&
  mounted (mkTestDisk true true) (λ v,
    let! entry := find_root v kernel_name in fails (read_file v entry (replicate 1024 0)) ChainLoop) &&
  mounted (mkRootCycle (mkTestDisk true false)) (λ v, fails (find_root v missing_name) ChainLoop) &&
  range_self_test && streaming_read_self_test && mutation_self_test nfc && long_filename_self_test nfc &&
  directory_growth_self_test nfc && overwrite_rollback_self_test nfc && directory_extension_rollback_self_test nfc.

(** Composition of the one pair the tests use. *)
Fixpoint compose (s : list Z) : list Z :=
  match s with
  | [] => []
  | c :: s' =>
      match compose s' with
      | 0x301 :: rest => if c =? 101 then 0xe9 :: rest else c :: 0x301 :: rest
      | rest => c :: rest
      end
  end.

(** The boot self test of the driver passes on the model. *)
Example fat32_self_test_passes : self_test compose = true.
Proof. vm_compute. reflexivity. Qed.
End FatTest.

(** ** Long names that go wrong *)
Module FatFlaws.
Import FatTest.

Definition report : list Z := lit "quarterly report.txt".

(** By example: a deleted long name can come back under another file. The records of the name and the
    entry of the file lie in different sectors when the entry is the first of its sector;
    deleting the file then leaves the records, and since a lookup never compares their
    checksum with the alias that follows, the next file created in the freed entry answers
    to the deleted name. Fourteen files, the long name, its deletion and one more file are
    enough: reading the deleted name gives the content of [b.txt]. *)
Lemma deleted_long_name_resolves :
  snd ((let! v := mount in
        let! _ := create_all compose v (numbered_leaf 97 <$> seq 0 14) (lit "x") in
        let! _ := create_path_file v compose report (lit "secret") in
        let! _ := delete_path v compose report in
        let! _ := create_path_file v compose (lit "b.txt") (lit "other") in
        read_path_bytes compose v report (replicate 5 0)) new_disk) = Ok (5%nat, lit "other").
Proof. vm_compute. reflexivity. Qed.

(** Writing to an existing long name does not replace its content: neither creation nor
    renaming looks the long name up. After a second [create_path_file] and after a rename
    onto the name, both of which succeed, the name still reads as the first file, and the
    later contents are out of reach under it. *)
Theorem long_name_not_replaced :
  snd ((let! v := mount in
        let! _ := create_path_file v compose report (lit "one") in
        let! _ := create_path_file v compose report (lit "two") in
        let! first := read_path_bytes compose v report (replicate 3 0) in
        let! _ := create_path_file v compose (lit "b.txt") (lit "new") in
        let! _ := rename_path v compose (lit "b.txt") report in
        let! second := read_path_bytes compose v report (replicate 3 0) in
        iret (first, second)) new_disk) = Ok ((3%nat, lit "one"), (3%nat, lit "one")).
Proof. vm_compute. reflexivity. Qed.
End FatFlaws.
