(* ===== verification/Vfs.v ===== *)
(** * File pages shared by mappings: file_frames.rs

    The cache of physical pages behind file mappings, as the file system sees it: reads lay
    the shared pages over the bytes of the inode, writes go to both. A frame is its contents
    and the number of its references (the cache's own and one per mapping). *)
From S2P Require Import Prelude Block DeviceIo Fat32Names.
Import Block Io.

Module FileFrames.

Definition CAPACITY : nat := 64.
Definition PAGE : Z := 4096.

Record Key := mkKey {
  k_node : nat;
  k_generation : Z;
  k_version : Z;
  k_offset : Z;
  k_count : Z;
  k_shared : bool;
  k_snapshot : Z;
}.

Record Entry := mkEntry {
  key : Key;
  frame : list Z;
  references : Z;
  age : Z;
}.

Definition Cache : Type := list (option Entry).
Definition cache_empty : Cache := replicate CAPACITY None.

#[export] Instance key_eq_dec : EqDecision Key.
Proof. solve_decision. Defined.

(** The pages of a file that its mappings share. *)
Definition shares (node : nat) (generation : Z) (e : Entry) : bool :=
  k_shared (key e) && (k_node (key e) =? node)%nat && (k_generation (key e) =? generation).

(** [paging::read_file_frame] and [write_file_frame] at the part of the range [offset, stop) that
    the page holds. *)
Definition overlay_entry (offset : Z) (bytes : list Z) (e : Entry) : list Z :=
  let start := Z.max offset (k_offset (key e)) in
  let stop := Z.min (offset + Z.of_nat (length bytes)) (k_offset (key e) + k_count (key e)) in
  if start <? stop then
    splice (Z.to_nat (start - offset)) (slice (Z.to_nat (start - k_offset (key e))) (Z.to_nat (stop - start)) (frame e)) bytes
  else bytes.

Definition overlay (node : nat) (generation offset : Z) (bytes : list Z) (cache : Cache) : list Z :=
  foldl (overlay_entry offset) bytes (filter (λ e, shares node generation e = true) (flatten cache)).

Definition set_count (n : Z) (k : Key) : Key :=
  mkKey (k_node k) (k_generation k) (k_version k) (k_offset k) n (k_shared k) (k_snapshot k).

Definition update_entry (offset : Z) (bytes : list Z) (e : Entry) : Entry :=
  let koff := k_offset (key e) in
  let stop := offset + Z.of_nat (length bytes) in
  let k := if (offset <? koff + PAGE) && (koff <? stop)
           then set_count (Z.max (k_count (key e)) (Z.min (saturating_sub stop koff) PAGE)) (key e)
           else key e in
  let start := Z.max offset koff in
  let stop := Z.min stop (koff + k_count k) in
  let page := if start <? stop
              then splice (Z.to_nat (start - koff)) (slice (Z.to_nat (start - offset)) (Z.to_nat (stop - start)) bytes) (frame e)
              else frame e in
  mkEntry k page (references e) (age e).

(** [for entry in cache.iter_mut().flatten().filter(..)] *)
Definition for_shared (node : nat) (generation : Z) (f : Entry → Entry) (cache : Cache) : Cache :=
  (λ slot : option Entry, (λ e, if shares node generation e then f e else e) <$> slot) <$> cache.

Definition update (node : nat) (generation offset : Z) (bytes : list Z) (cache : Cache) : Cache :=
  for_shared node generation (update_entry offset bytes) cache.

Definition replace_entry (bytes : list Z) (e : Entry) : Entry :=
  let koff := k_offset (key e) in
  let count := Z.min (saturating_sub (Z.of_nat (length bytes)) koff) PAGE in
  let page := replicate (Z.to_nat PAGE) 0 in
  let page := if 0 <? count then splice 0 (slice (Z.to_nat koff) (Z.to_nat count) bytes) page else page in
  mkEntry (set_count count (key e)) page (references e) (age e).

Definition replace (node : nat) (generation : Z) (bytes : list Z) (cache : Cache) : Cache :=
  for_shared node generation (replace_entry bytes) cache.

Definition same_page (a b : Key) : bool :=
  (k_node a =? k_node b)%nat && (k_generation a =? k_generation b) && (k_version a =? k_version b) &&
  (k_offset a =? k_offset b) && Bool.eqb (k_shared a) (k_shared b) && (k_snapshot a =? k_snapshot b) &&
  (k_shared a || (k_count a =? k_count b)).

(** Pages that nothing maps are given back; [release] is [paging::release_file_frame]. *)
Definition reclaim_slot (release : Entry → bool) (slot : option Entry) : option Entry :=
  match slot with
  | Some e => if (references e =? 1) && release e then None else Some e
  | None => None
  end.

Definition reclaim_unused (release : Entry → bool) (cache : Cache) : Cache * nat :=
  (reclaim_slot release <$> cache,
   count_if (λ slot, bool_decide (is_Some slot) && negb (bool_decide (is_Some (reclaim_slot release slot)))) cache).

End FileFrames.

(** * The virtual file system: vfs.rs

    A table of 64 nodes addressed by absolute paths, a table of shared open-file
    descriptions, and files whose bytes may still be on disk. An operation is a program of
    critical sections and disk reads: whatever is between two of them may be interleaved
    with other programs ([prog]). Paths and contents are lists of bytes; the array of a node's
    bytes is a list that stands for itself followed by zeros. Paths are copied from [str]s
    and cut at slashes only, so [from_utf8] never fails on them. *)
Import Io Names.

Module Vfs.

Definition PATH_CAPACITY : nat := 512.
Definition MAX_NODES : nat := 64.
Definition MAX_OPEN_FILES : nat := 64.
Definition NODE_CAPACITY : Z := 65536.
Definition MAX_DIR_NAME : nat := 255.

Inductive NodeKind := File | Directory.
#[export] Instance kind_eq_dec : EqDecision NodeKind.
Proof. solve_decision. Defined.

Inductive Error := NotFound | InvalidDescriptor | InvalidPath | AlreadyExists | ReadOnly | Full | NotEmpty | Io.
#[export] Instance vfs_error_eq_dec : EqDecision Error.
Proof. solve_decision. Defined.

(** ** Nodes *)

(** Permission bits, as an octal literal. *)
Definition rwx (u g o : Z) : Z := 64 * u + 8 * g + o.

(** The bytes of a node: [pad] makes the zeros explicit up to an index. *)
Definition pad (n : nat) (d : list Z) : list Z := d ++ replicate (n - length d) 0.
Definition peek (off n : Z) (d : list Z) : list Z := slice (Z.to_nat off) (Z.to_nat n) (pad (Z.to_nat (off + n)) d).
Definition poke (off : Z) (bs d : list Z) : list Z := splice (Z.to_nat off) bs (pad (Z.to_nat off + length bs) d).

Record Node := mkNode {
  path : list Z;
  data : list Z;
  backing : option (list Z);
  size : Z;
  writable : bool;
  uid : Z;
  gid : Z;
  mode : Z;
  kind : NodeKind;
  occupied : bool;
}.

Definition node_empty : Node := mkNode [] [] None 0 false 0 0 0 File false.
Definition with_data (p d : list Z) (w : bool) : Node :=
  mkNode p d None (Z.of_nat (length d)) w 0 0 (if w then rwx 6 6 6 else rwx 4 4 4) File true.
Definition directory (p : list Z) : Node := mkNode p [] None 0 true 0 0 (rwx 7 5 5) Directory true.

Definition matches (n : Node) (p : list Z) : bool := occupied n && bool_decide (path n = p).
Definition is_dir (p : list Z) (n : Node) : bool := matches n p && bool_decide (kind n = Directory).

Record Stat := mkStat { s_kind : NodeKind; s_size : Z; s_writable : bool; s_uid : Z; s_gid : Z; s_mode : Z }.
Record DirEntry := mkDirEntry { name : list Z; d_kind : NodeKind }.

(** ** Credentials (task.rs) *)
Record Credentials := mkCredentials { c_uid : Z; c_gid : Z }.
Definition ROOT : Credentials := mkCredentials 0 0.
Definition is_root (c : Credentials) : bool := c_uid c =? 0.

Definition access_allowed (c : Credentials) (n : Node) (write : bool) : bool :=
  if is_root c then true
  else
  let shift := if c_uid c =? uid n then 6 else if c_gid c =? gid n then 3 else 0 in
  let mask := if write then 2 else 4 in
  negb (Z.land (Z.shiftr (mode n) shift) mask =? 0).

(** ** Paths *)
Definition root_path : list Z := [SLASH].

Fixpoint strip_prefix (pre l : list Z) : option (list Z) :=
  match pre, l with
  | [], _ => Some l
  | x :: pre, y :: l => if x =? y then strip_prefix pre l else None
  | _ :: _, [] => None
  end.

Definition descendant_suffix (dir p : list Z) : option (list Z) :=
  match strip_prefix dir p with
  | Some suffix => if starts_with root_path suffix then Some suffix else None
  | None => None
  end.

Definition trim_end (s : list Z) : list Z := reverse (trim_start SLASH (reverse s)).

Definition parent_path (p : list Z) : option (list Z) :=
  if bool_decide (p = root_path) then None
  else
  match rsplit_once SLASH (trim_end p) with
  | Some ([], _) => Some root_path
  | Some (before, _) => Some before
  | None => None
  end.

Definition immediate_child_name (dir child : list Z) : option (list Z) :=
  if bool_decide (child = dir) then None
  else if bool_decide (dir = root_path) then
    if negb (starts_with root_path child) || (length child <? 2)%nat then None
    else
    let rest := drop 1 child in
    if bool_decide (SLASH ∈ rest) then None else Some rest
  else
  if negb (starts_with dir child) then None
  else
  let rest := drop (length dir) child in
  if negb (starts_with root_path rest) then None
  else
  let nm := drop 1 rest in
  if bool_decide (nm = []) || bool_decide (SLASH ∈ nm) then None else Some nm.

Definition bad_component (part : list Z) : bool :=
  bool_decide (part = []) || bool_decide (part = lit ".") || bool_decide (part = lit "..") || (MAX_DIR_NAME <? length part)%nat.

Section Normalised.

(** [path.nfc()] of the crate unicode_normalization: the normalised characters, each in UTF-8. *)
Context (nfc : list Z → list (list Z)).

Fixpoint nfc_loop (normalized : list Z) (chars : list (list Z)) : option (list Z) :=
  match chars with
  | [] => Some normalized
  | bytes :: chars =>
      if (PATH_CAPACITY <? length normalized + length bytes)%nat then None
      else nfc_loop (normalized ++ bytes) chars
  end.

Definition is_nfc_path (p : list Z) : bool :=
  match nfc_loop [] (nfc p) with Some normalized => bool_decide (normalized = p) | None => false end.

Definition validate_absolute_path (p : list Z) : result () Error :=
  if bool_decide (p = []) || negb (starts_with root_path p) || (PATH_CAPACITY <? length p)%nat then Err InvalidPath
  else if bool_decide (0 ∈ p) then Err InvalidPath
  else if negb (is_nfc_path p) then Err InvalidPath
  else if negb (bool_decide (p = root_path)) && any bad_component (split SLASH (drop 1 p)) then Err InvalidPath
  else Ok tt.

(** ** The registry *)
Record Registry := mkRegistry {
  nodes : list Node;
  versions : list Z;
  generations : list Z;
}.

Definition registry_empty : Registry :=
  mkRegistry (replicate MAX_NODES node_empty) (replicate MAX_NODES 0) (replicate MAX_NODES 0).

Definition boot_nodes : list Node :=
  let tmp := directory (lit "/tmp") in
  [directory (lit "/"); directory (lit "/etc");
   mkNode (path tmp) (data tmp) (backing tmp) (size tmp) (writable tmp) (uid tmp) (gid tmp) (512 + rwx 7 7 7) (kind tmp) (occupied tmp);
   directory (lit "/mnt"); directory (lit "/bin");
   with_data (lit "/etc/motd") (lit "Welcome to WovenHat OS." ++ [10]) false;
   with_data (lit "/etc/version") (lit "WovenHat kernel 0.8.0 Multicore Foundation" ++ [10]) false;
   with_data (lit "/tmp/vfs-self-test") [] true].

Definition registry_boot : Registry :=
  mkRegistry (boot_nodes ++ replicate (MAX_NODES - 8) node_empty) (replicate MAX_NODES 0) (replicate MAX_NODES 0).

Definition node_at (r : Registry) (i : nat) : Node := default node_empty (nodes r !! i).
Definition generation_of (r : Registry) (i : nat) : Z := default 0 (generations r !! i).
Definition version_of (r : Registry) (i : nat) : Z := default 0 (versions r !! i).
Definition set_node (i : nat) (n : Node) (r : Registry) : Registry := mkRegistry (<[i := n]> (nodes r)) (versions r) (generations r).
Definition set_generation (i : nat) (g : Z) (r : Registry) : Registry := mkRegistry (nodes r) (versions r) (<[i := g]> (generations r)).
Definition bump_version (i : nat) (r : Registry) : Registry :=
  mkRegistry (nodes r) (<[i := wrapping_add64 (version_of r i) 1]> (versions r)) (generations r).
Definition find_path (p : list Z) (r : Registry) : option nat := position (λ n, matches n p) (nodes r).

(** The directory that must hold the path, with the access the change needs. *)
Definition check_parent (c : Credentials) (p : list Z) (r : Registry) : result () Error :=
  match parent_path p with
  | None => Err InvalidPath
  | Some parent =>
      match List.find (is_dir parent) (nodes r) with
      | None => Err NotFound
      | Some parent_node => if negb (access_allowed c parent_node true) then Err ReadOnly else Ok tt
      end
  end.

Definition registry_insert (c : Credentials) (p d : list Z) (w : bool) (r : Registry) : result (nat * Registry) Error :=
  let? _ := validate_absolute_path p in
  if NODE_CAPACITY <? Z.of_nat (length d) then Err Full
  else if any (λ n, matches n p) (nodes r) then Err AlreadyExists
  else
  let? _ := if bool_decide (p = root_path) then Ok tt else check_parent c p r in
  let? index := ok_or (position (λ n, negb (occupied n)) (nodes r)) Full in
  let n := node_at r index in
  Ok (index, set_node index
    (mkNode p (poke 0 d (data n)) (backing n) (Z.of_nat (length d)) w (c_uid c) (c_gid c)
       (if w then rwx 6 6 6 else rwx 4 4 4) File true) r).

Definition registry_mkdir (c : Credentials) (p : list Z) (r : Registry) : result (nat * Registry) Error :=
  let? _ := validate_absolute_path p in
  if bool_decide (p = root_path) then Err AlreadyExists
  else if any (λ n, matches n p) (nodes r) then Err AlreadyExists
  else
  let? _ := check_parent c p r in
  let? index := ok_or (position (λ n, negb (occupied n)) (nodes r)) Full in
  let n := directory p in
  Ok (index, set_node index
    (mkNode (path n) (data n) (backing n) (size n) (writable n) (c_uid c) (c_gid c) (mode n) (kind n) (occupied n)) r).

Definition count (r : Registry) : nat := count_if (λ n, occupied n && negb (bool_decide (path n = []))) (nodes r).

Definition removable_index (c : Credentials) (p : list Z) (r : Registry) : result nat Error :=
  let? _ := validate_absolute_path p in
  if bool_decide (p = root_path) then Err ReadOnly
  else
  let? index := ok_or (find_path p r) NotFound in
  let? _ := check_parent c p r in
  let n := node_at r index in
  if bool_decide (kind n = Directory) &&
     any (λ other, occupied other && bool_decide (is_Some (immediate_child_name (path n) (path other)))) (nodes r)
  then Err NotEmpty
  else Ok index.

Definition can_remove (c : Credentials) (p : list Z) (r : Registry) : result () Error :=
  let? _ := removable_index c p r in Ok tt.

(** What is left of a node that is removed. *)
Definition vacated (n : Node) : Node :=
  mkNode [] [] None 0 false (uid n) (gid n) (mode n) (kind n) false.

Definition registry_remove (c : Credentials) (p : list Z) (r : Registry) : result Registry Error :=
  let? index := removable_index c p r in
  let? g := ok_or (checked_add64 (generation_of r index) 1) Full in
  let r := set_generation index g r in
  Ok (set_node index (vacated (node_at r index)) r).

(** The path under the new prefix would not fit. *)
Definition too_long (old new : list Z) (p : list Z) : bool :=
  match descendant_suffix old p with
  | Some suffix => (PATH_CAPACITY <? length new + length suffix)%nat
  | None => false
  end.

Definition rename_overflows (old new : list Z) (dir : bool) (n : Node) : bool :=
  (dir && too_long old new (path n)) ||
  match backing n with
  | Some b => if dir then too_long old new b else bool_decide (b = old) && (PATH_CAPACITY <? length new)%nat
  | None => false
  end.

Definition validate_rename (c : Credentials) (old new : list Z) (r : Registry) : result () Error :=
  let? _ := validate_absolute_path old in
  let? _ := validate_absolute_path new in
  if bool_decide (old = root_path) || bool_decide (new = root_path) then Err ReadOnly
  else
  let? index := ok_or (find_path old r) NotFound in
  if bool_decide (old = new) then Ok tt
  else if any (λ n, matches n new) (nodes r) then Err AlreadyExists
  else if bool_decide (is_Some (descendant_suffix old new)) then Err InvalidPath
  else
  let? _ := check_parent c new r in
  let dir := bool_decide (kind (node_at r index) = Directory) in
  if any (λ n, occupied n && rename_overflows old new dir n) (nodes r) then Err InvalidPath else Ok tt.

Definition moves (old : list Z) (dir : bool) (p : list Z) : bool :=
  bool_decide (p = old) || (dir && bool_decide (is_Some (descendant_suffix old p))).

Definition moved (old new p : list Z) : list Z := new ++ drop (length old) p.

Definition rename_node (old new : list Z) (dir : bool) (n : Node) : Node :=
  if negb (occupied n) then n
  else
  mkNode (if moves old dir (path n) then moved old new (path n) else path n) (data n)
    (match backing n with Some b => Some (if moves old dir b then moved old new b else b) | None => None end)
    (size n) (writable n) (uid n) (gid n) (mode n) (kind n) (occupied n).

Definition rename_changes (old : list Z) (dir : bool) (n : Node) : bool :=
  occupied n && (moves old dir (path n) || match backing n with Some b => moves old dir b | None => false end).

Definition registry_rename (c : Credentials) (old new : list Z) (r : Registry) : result Registry Error :=
  let? _ := validate_rename c old new r in
  if bool_decide (old = new) then Ok r
  else
  let? index := ok_or (find_path old r) NotFound in
  let dir := bool_decide (kind (node_at r index) = Directory) in
  Ok (mkRegistry (rename_node old new dir <$> nodes r)
        (zip_with (λ n v, if rename_changes old dir n then wrapping_add64 v 1 else v) (nodes r) (versions r))
        (generations r)).

Definition stat (c : Credentials) (p : list Z) (r : Registry) : result Stat Error :=
  let? _ := validate_absolute_path p in
  let? n := ok_or (List.find (λ n, matches n p) (nodes r)) NotFound in
  if negb (access_allowed c n false) then Err ReadOnly
  else Ok (mkStat (kind n) (size n) (writable n) (uid n) (gid n) (mode n)).

Fixpoint readdir_loop (dir : list Z) (index seen : nat) (ns : list Node) : result DirEntry Error :=
  match ns with
  | [] => Err NotFound
  | n :: ns =>
      if negb (occupied n) then readdir_loop dir index seen ns
      else
      match immediate_child_name dir (path n) with
      | None => readdir_loop dir index seen ns
      | Some nm =>
          if (seen =? index)%nat then Ok (mkDirEntry (take MAX_DIR_NAME nm) (kind n))
          else readdir_loop dir index (seen + 1) ns
      end
  end.

Definition readdir (c : Credentials) (dir : list Z) (index : nat) (r : Registry) : result DirEntry Error :=
  let? _ := validate_absolute_path dir in
  let? d := ok_or (List.find (is_dir dir) (nodes r)) NotFound in
  if negb (access_allowed c d false) then Err ReadOnly
  else readdir_loop (path d) index 0 (nodes r).

End Normalised.

End Vfs.
