(* ===== verification/VfsOps.v ===== *)
(** * Open files and the operations of the virtual file system: vfs.rs *)
From S2P Require Import Prelude Block DeviceIo Fat32Names Vfs.
Import Names FileFrames Vfs.

Module VfsOps.

(** ** Open-file descriptions *)
Record OpenFileId := mkId { slot : nat; epoch : Z }.
#[export] Instance id_eq_dec : EqDecision OpenFileId.
Proof. solve_decision. Defined.

Record OpenFileDescription := mkOpen {
  o_node : nat;
  o_generation : Z;
  o_epoch : Z;
  o_offset : Z;
  refcount : Z;
  o_occupied : bool;
}.
Definition description_empty : OpenFileDescription := mkOpen 0 0 0 0 0 false.

Record OpenFileTable := mkTable { entries : list OpenFileDescription; slot_generations : list Z }.
Definition table_empty : OpenFileTable := mkTable (replicate MAX_OPEN_FILES description_empty) (replicate MAX_OPEN_FILES 0).

Definition set_entry (i : nat) (e : OpenFileDescription) (t : OpenFileTable) : OpenFileTable :=
  mkTable (<[i := e]> (entries t)) (slot_generations t).
Definition set_offset (o : Z) (e : OpenFileDescription) : OpenFileDescription :=
  mkOpen (o_node e) (o_generation e) (o_epoch e) o (refcount e) (o_occupied e).
Definition set_refcount (n : Z) (e : OpenFileDescription) : OpenFileDescription :=
  mkOpen (o_node e) (o_generation e) (o_epoch e) (o_offset e) n (o_occupied e).

Definition alloc (node : nat) (generation : Z) (t : OpenFileTable) : result (OpenFileId * OpenFileTable) Error :=
  let? i := ok_or (position (λ p : OpenFileDescription * Z, negb (o_occupied p.1) && (p.2 <? u64_max))
                     (zip (entries t) (slot_generations t))) Full in
  let? e := ok_or (checked_add64 (default 0 (slot_generations t !! i)) 1) Full in
  Ok (mkId i e, mkTable (<[i := mkOpen node generation e 0 1 true]> (entries t)) (<[i := e]> (slot_generations t))).

Definition get_mut (id : OpenFileId) (t : OpenFileTable) : result OpenFileDescription Error :=
  match entries t !! slot id with
  | Some e => if o_occupied e && (0 <? refcount e) && (o_epoch e =? epoch id) then Ok e else Err InvalidDescriptor
  | None => Err InvalidDescriptor
  end.

Definition clone_id (id : OpenFileId) (t : OpenFileTable) : result (OpenFileId * OpenFileTable) Error :=
  let? e := get_mut id t in
  if refcount e + 1 <=? u32_max then Ok (id, set_entry (slot id) (set_refcount (refcount e + 1) e) t) else Err Full.

Definition drop_id (id : OpenFileId) (t : OpenFileTable) : result OpenFileTable Error :=
  match entries t !! slot id with
  | Some e =>
      if o_occupied e && (o_epoch e =? epoch id) then
        if refcount e =? 0 then Err InvalidDescriptor
        else if refcount e - 1 =? 0 then Ok (set_entry (slot id) description_empty t)
        else Ok (set_entry (slot id) (set_refcount (refcount e - 1) e) t)
      else Err InvalidDescriptor
  | None => Err InvalidDescriptor
  end.

Definition live_count (t : OpenFileTable) : nat := count_if o_occupied (entries t).
Definition is_open (node : nat) (t : OpenFileTable) : bool :=
  any (λ e, o_occupied e && (o_node e =? node)%nat) (entries t).

(** ** The shared state *)
Record World := mkWorld {
  registry : Registry;
  open_files : OpenFileTable;
  frames : Cache;
  mnt_mounted : bool;
  mnt_dirty : bool;
}.

Definition world_boot : World := mkWorld registry_boot table_empty cache_empty false false.

Definition with_registry (r : Registry) (w : World) : World := mkWorld r (open_files w) (frames w) (mnt_mounted w) (mnt_dirty w).
Definition with_open_files (t : OpenFileTable) (w : World) : World := mkWorld (registry w) t (frames w) (mnt_mounted w) (mnt_dirty w).
Definition with_frames (f : Cache) (w : World) : World := mkWorld (registry w) (open_files w) f (mnt_mounted w) (mnt_dirty w).

(** [storage::mark_mnt_dirty] *)
Definition mark_mnt_dirty (w : World) : World :=
  if mnt_mounted w then mkWorld (registry w) (open_files w) (frames w) (mnt_mounted w) true else w.
Definition under_mnt (p : list Z) : bool := starts_with (lit "/mnt/") p.
Definition mark_if (b : bool) (w : World) : World := if b then mark_mnt_dirty w else w.

(** ** Programs: critical sections with anything in between *)
Inductive prog (A : Type) : Type :=
  | Ret (a : A)
  | Lock (f : World → World) (k : World → prog A)
  | Disk (p : list Z) (offset count : Z) (k : result (list Z) () → prog A)
  | Persist (p : list Z) (k : bool → prog A).
Arguments Ret {A} a.
Arguments Lock {A} f k.
Arguments Disk {A} p offset count k.
Arguments Persist {A} p k.

Fixpoint pbind {A B} (f : A → prog B) (m : prog A) : prog B :=
  match m with
  | Ret a => f a
  | Lock s k => Lock s (λ w, pbind f (k w))
  | Disk p off n k => Disk p off n (λ r, pbind f (k r))
  | Persist p k => Persist p (λ b, pbind f (k b))
  end.
#[export] Instance prog_ret : MRet prog := @Ret.
#[export] Instance prog_bind : MBind prog := λ A B f m, pbind f m.

(** What happens while both locks (or one of them) are held. *)
Definition atomically {A} (m : World → World * A) : prog A := Lock (λ w, (m w).1) (λ w, Ret (m w).2).

(** A program alone, with the disk's answers. *)
Fixpoint run {A} (disk : list Z → Z → Z → result (list Z) ()) (persist : list Z → bool) (m : prog A) (w : World) : World * A :=
  match m with
  | Ret a => (w, a)
  | Lock f k => run disk persist (k w) (f w)
  | Disk p off n k => run disk persist (k (disk p off n)) w
  | Persist p k => run disk persist (k (persist p)) w
  end.

Inductive turn (A P : Type) : Type := Done (a : A) | Pending (p : P).
Arguments Done {A P} a.
Arguments Pending {A P} p.

(** A section that fails leaves the state as it is. *)
Definition on_ok {A B} (w : World) (m : result A Error) (k : A → World * result B Error) : World * result B Error :=
  match m with Ok a => k a | Err e => (w, Err e) end.

Section Normalised.
Context (nfc : list Z → list (list Z)).
Let validate := validate_absolute_path nfc.

(** ** Names *)
Definition create_read_only (c : Credentials) (p d : list Z) (w : World) : World * result () Error :=
  on_ok w (registry_insert nfc c p d false (registry w)) (λ ir, (with_registry ir.2 w, Ok tt)).

Definition create_disk_file_with_writable (c : Credentials) (p : list Z) (length : Z) (wr : bool) (w : World) : World * result () Error :=
  if NODE_CAPACITY <? length then (w, Err Full)
  else
  on_ok w (registry_insert nfc c p [] wr (registry w)) (λ ir,
    let n := node_at ir.2 ir.1 in
    (with_registry (set_node ir.1 (mkNode (path n) (data n) (Some p) length (writable n) (uid n) (gid n) (mode n) (kind n) (occupied n)) ir.2) w, Ok tt)).
Definition create_disk_file (c : Credentials) (p : list Z) (length : Z) (w : World) : World * result () Error :=
  create_disk_file_with_writable c p length false w.

Definition set_metadata (p : list Z) (u g m : Z) (w : World) : World * result () Error :=
  on_ok w (validate p) (λ _,
  on_ok w (ok_or (find_path p (registry w)) NotFound) (λ i,
    let n := node_at (registry w) i in
    (with_registry (set_node i (mkNode (path n) (data n) (backing n) (size n) (negb (Z.land m (rwx 2 2 2) =? 0)) u g m (kind n) (occupied n)) (registry w)) w, Ok tt))).

(** [Registry::write_file], with the shared pages of the file. *)
Definition registry_write_file (c : Credentials) (p d : list Z) (w : World) : World * result () Error :=
  on_ok w (validate p) (λ _,
  if NODE_CAPACITY <? Z.of_nat (length d) then (w, Err Full)
  else
  match find_path p (registry w) with
  | Some i =>
      let n := node_at (registry w) i in
      if negb (bool_decide (kind n = File)) then (w, Err AlreadyExists)
      else if negb (writable n) || negb (access_allowed c n true) then (w, Err ReadOnly)
      else
      let n := mkNode (path n) (poke 0 d []) None (Z.of_nat (length d)) (writable n) (uid n) (gid n) (mode n) (kind n) (occupied n) in
      let r := bump_version i (set_node i n (registry w)) in
      (with_frames (replace i (generation_of r i) d (frames w)) (with_registry r w), Ok tt)
  | None => on_ok w (registry_insert nfc c p d true (registry w)) (λ ir, (with_registry ir.2 w, Ok tt))
  end).

(** Marking the mounted volume for persistence after a change below /mnt. *)
Definition marking {A} (p : bool) (r : World * result A Error) : World * result A Error :=
  match r with (w, Ok a) => (mark_if p w, Ok a) | (w, Err e) => (w, Err e) end.

Definition write_file (c : Credentials) (p d : list Z) (w : World) : World * result () Error :=
  marking (under_mnt p) (registry_write_file c p d w).

Definition rename (c : Credentials) (old new : list Z) (w : World) : World * result () Error :=
  marking (under_mnt old || under_mnt new)
    (on_ok w (registry_rename nfc c old new (registry w)) (λ r, (with_registry r w, Ok tt))).

Definition mkdir (c : Credentials) (p : list Z) (w : World) : World * result () Error :=
  marking (under_mnt p) (on_ok w (registry_mkdir nfc c p (registry w)) (λ ir, (with_registry ir.2 w, Ok tt))).

(** ** Descriptors *)
Definition open (p : list Z) (w : World) : World * result OpenFileId Error :=
  on_ok w (validate p) (λ _,
  on_ok w (ok_or (position (λ n, matches n p && bool_decide (kind n = File)) (nodes (registry w))) NotFound) (λ i,
  on_ok w (alloc i (generation_of (registry w) i) (open_files w)) (λ it, (with_open_files it.2 w, Ok it.1)))).

Definition clone_open_file (id : OpenFileId) (w : World) : World * result OpenFileId Error :=
  on_ok w (clone_id id (open_files w)) (λ it, (with_open_files it.2 w, Ok it.1)).

(** The last reference of an unlinked file gives its node back. *)
Definition retire (i : nat) (w : World) : World * result () Error :=
  let r := registry w in
  let n := node_at r i in
  if occupied n && bool_decide (path n = []) then
    match checked_add64 (generation_of r i) 1 with
    | None => (w, Err Full)
    | Some g =>
        (with_registry (set_node i (mkNode (path n) [] None 0 (writable n) (uid n) (gid n) (mode n) (kind n) false)
           (set_generation i g r)) w, Ok tt)
    end
  else (w, Ok tt).

Definition close_open_file (id : OpenFileId) (w : World) : World * result () Error :=
  on_ok w (get_mut id (open_files w)) (λ e,
  on_ok w (drop_id id (open_files w)) (λ t,
    let w := with_open_files t w in
    if negb (is_open (o_node e) t) then retire (o_node e) w else (w, Ok tt))).

(** The description and its node, whose generation must be the description's. *)
Definition current_node (id : OpenFileId) (w : World) : result (OpenFileDescription * Node) Error :=
  let? e := get_mut id (open_files w) in
  let n := node_at (registry w) (o_node e) in
  if negb (occupied n) || negb (generation_of (registry w) (o_node e) =? o_generation e) then Err InvalidDescriptor else Ok (e, n).

Definition file_identity (id : OpenFileId) (w : World) : result (nat * Z * Z) Error :=
  let? en := current_node id w in
  Ok (o_node en.1, o_generation en.1, version_of (registry w) (o_node en.1)).
Definition file_generation (id : OpenFileId) (w : World) : result Z Error :=
  let? en := current_node id w in Ok (o_generation en.1).

Definition file_size (id : OpenFileId) (w : World) : result Z Error :=
  let? e := get_mut id (open_files w) in
  match nodes (registry w) !! o_node e with
  | Some n => if occupied n && bool_decide (kind n = File) then Ok (size n) else Err InvalidDescriptor
  | None => Err InvalidDescriptor
  end.

Definition open_file_path_starts_with (id : OpenFileId) (prefix : list Z) (w : World) : result bool Error :=
  let? e := get_mut id (open_files w) in
  match nodes (registry w) !! o_node e with
  | Some n => if occupied n then Ok (starts_with prefix (path n)) else Err InvalidDescriptor
  | None => Err InvalidDescriptor
  end.

Definition seek (id : OpenFileId) (offset : Z) (w : World) : World * result Z Error :=
  on_ok w (get_mut id (open_files w)) (λ e,
  match nodes (registry w) !! o_node e with
  | Some n =>
      if occupied n then
        let pos := Z.min offset (size n) in
        (with_open_files (set_entry (slot id) (set_offset pos e) (open_files w)) w, Ok pos)
      else (w, Err NotFound)
  | None => (w, Err NotFound)
  end).

(** ** Files that are still on disk *)
Definition set_contents (d : list Z) (n : Node) : Node :=
  mkNode (path n) d None (size n) (writable n) (uid n) (gid n) (mode n) (kind n) (occupied n).

Record DiskImage := mkImage { i_backing : list Z; i_length : Z; i_version : Z }.

Definition materialize_begin (index : nat) (generation : Z) (w : World) : World * turn (result () Error) DiskImage :=
  let r := registry w in
  match nodes r !! index with
  | None => (w, Done (Err InvalidDescriptor))
  | Some n =>
      if negb (occupied n) || negb (generation_of r index =? generation) then (w, Done (Err InvalidDescriptor))
      else match backing n with
           | None => (w, Done (Ok tt))
           | Some b => (w, Pending (mkImage b (size n) (version_of r index)))
           end
  end.

Definition materialize_finish (index : nat) (generation : Z) (i : DiskImage) (read : result (list Z) ()) (w : World)
    : World * option (result () Error) :=
  let r := registry w in
  let n := node_at r index in
  if negb (occupied n) || negb (generation_of r index =? generation) then (w, Some (Err InvalidDescriptor))
  else if negb (bool_decide (backing n = Some (i_backing i))) || negb (size n =? i_length i) || negb (version_of r index =? i_version i)
  then (w, None)
  else
  match read with
  | Err _ => (w, Some (Err Io))
  | Ok bytes =>
      if negb (Z.of_nat (length bytes) =? i_length i) then (w, Some (Err Io))
      else (with_registry (set_node index (set_contents (poke 0 bytes (data n)) n) r) w, Some (Ok tt))
  end.

Fixpoint materialize_loop (fuel : nat) (index : nat) (generation : Z) : prog (result () Error) :=
  match fuel with
  | O => mret (Err Io)
  | S fuel =>
      t ← atomically (materialize_begin index generation);
      match t with
      | Done r => mret r
      | Pending i =>
          Disk (i_backing i) 0 (i_length i) (λ read,
          r ← atomically (materialize_finish index generation i read);
          match r with Some r => mret r | None => materialize_loop fuel index generation end)
      end
  end.
Definition ATTEMPTS : nat := 8.
Definition materialize_disk_node (index : nat) (generation : Z) : prog (result () Error) := materialize_loop ATTEMPTS index generation.

(** ** Removing *)
Definition open_file_node (w : World) (i : nat) : bool :=
  bool_decide (kind (node_at (registry w) i) = File) && is_open i (open_files w).

Definition prepare_remove_section (c : Credentials) (p : list Z) (w : World) : World * turn (result () Error) (nat * Z) :=
  match removable_index nfc c p (registry w) with
  | Err e => (w, Done (Err e))
  | Ok i =>
      if negb (open_file_node w i) || bool_decide (backing (node_at (registry w) i) = None) then (w, Done (Ok tt))
      else (w, Pending (i, generation_of (registry w) i))
  end.

Fixpoint prepare_remove_loop (fuel : nat) (c : Credentials) (p : list Z) : prog (result () Error) :=
  match fuel with
  | O => mret (Err Io)
  | S fuel =>
      t ← atomically (prepare_remove_section c p);
      match t with
      | Done r => mret r
      | Pending ig =>
          m ← materialize_disk_node ig.1 ig.2;
          match m with Ok _ => prepare_remove_loop fuel c p | Err e => mret (Err e) end
      end
  end.
Definition prepare_remove (c : Credentials) (p : list Z) : prog (result () Error) :=
  match validate p with Err e => mret (Err e) | Ok _ => prepare_remove_loop ATTEMPTS c p end.

Definition unlinked (n : Node) : Node :=
  mkNode [] (data n) (backing n) (size n) (writable n) (uid n) (gid n) (mode n) (kind n) (occupied n).

Definition remove_section (c : Credentials) (p : list Z) (w : World) : World * turn (result () Error) (nat * Z) :=
  match find_path p (registry w) with
  | None => (w, Done (Err NotFound))
  | Some i =>
      let n := node_at (registry w) i in
      if open_file_node w i && bool_decide (is_Some (backing n)) then (w, Pending (i, generation_of (registry w) i))
      else if open_file_node w i then (with_registry (set_node i (unlinked n) (registry w)) w, Done (Ok tt))
      else
      match registry_remove nfc c p (registry w) with
      | Err e => (w, Done (Err e))
      | Ok r => (mark_if (under_mnt p) (with_registry r w), Done (Ok tt))
      end
  end.

Fixpoint remove_loop (fuel : nat) (c : Credentials) (p : list Z) : prog (result () Error) :=
  match fuel with
  | O => mret (Err Io)
  | S fuel =>
      t ← atomically (remove_section c p);
      match t with
      | Done r => mret r
      | Pending ig =>
          m ← materialize_disk_node ig.1 ig.2;
          match m with Ok _ => remove_loop fuel c p | Err e => mret (Err e) end
      end
  end.
Definition remove (c : Credentials) (p : list Z) : prog (result () Error) :=
  match validate p with Err e => mret (Err e) | Ok _ => remove_loop ATTEMPTS c p end.

(** ** Reading *)
Record ReadImage := mkRead {
  rd_node : nat;
  rd_generation : Z;
  rd_offset : Z;
  rd_count : Z;
  rd_backing : list Z;
  rd_version : Z;
  rd_length : Z;
}.

(** [entry.offset = offset + count] unless the read is positional. *)
Definition advance (id : OpenFileId) (position : option Z) (o : Z) (e : OpenFileDescription) (w : World) : World :=
  match position with
  | Some _ => w
  | None => with_open_files (set_entry (slot id) (set_offset o e) (open_files w)) w
  end.

Definition read_begin (c : Credentials) (id : OpenFileId) (position : option Z) (len : Z) (generation : option Z) (w : World)
    : World * turn (result (list Z) Error) ReadImage :=
  match get_mut id (open_files w) with
  | Err e => (w, Done (Err e))
  | Ok e =>
      let r := registry w in
      let i := o_node e in
      let offset := default (o_offset e) position in
      if negb (generation_of r i =? o_generation e) ||
         match generation with Some g => negb (g =? o_generation e) | None => false end
      then (w, Done (Err InvalidDescriptor))
      else
      match nodes r !! i with
      | None => (w, Done (Err InvalidDescriptor))
      | Some n =>
          if negb (occupied n) then (w, Done (Err InvalidDescriptor))
          else if negb (access_allowed c n false) then (w, Done (Err ReadOnly))
          else if size n <? offset then (w, Done (Err InvalidDescriptor))
          else
          let count := Z.min (size n - offset) len in
          match backing n with
          | Some b =>
              if count =? 0 then (advance id position offset e w, Done (Ok []))
              else (w, Pending (mkRead i (o_generation e) offset count b (version_of r i) (size n)))
          | None =>
              (advance id position (offset + count) e w,
               Done (Ok (overlay i (o_generation e) offset (peek offset count (data n)) (frames w))))
          end
      end
  end.

Definition read_finish (c : Credentials) (id : OpenFileId) (position : option Z) (s : ReadImage) (read : result (list Z) ()) (w : World)
    : World * option (result (list Z) Error) :=
  match get_mut id (open_files w) with
  | Err e => (w, Some (Err e))
  | Ok e =>
      let r := registry w in
      let i := rd_node s in
      if negb (o_node e =? i)%nat || negb (o_generation e =? rd_generation s) then (w, Some (Err InvalidDescriptor))
      else
      let n := node_at r i in
      if negb (occupied n) || negb (generation_of r i =? rd_generation s) then (w, Some (Err InvalidDescriptor))
      else if negb (access_allowed c n false) then (w, Some (Err ReadOnly))
      else if negb (version_of r i =? rd_version s) || negb (bool_decide (backing n = Some (rd_backing s))) ||
              negb (size n =? rd_length s) ||
              match position with None => negb (o_offset e =? rd_offset s) | Some _ => false end
      then (w, None)
      else
      match read with
      | Err _ => (w, Some (Err Io))
      | Ok bytes =>
          if negb (Z.of_nat (length bytes) =? rd_count s) then (w, Some (Err Io))
          else
          (advance id position (rd_offset s + rd_count s) e w,
           Some (Ok (overlay i (rd_generation s) (rd_offset s) bytes (frames w))))
      end
  end.

Fixpoint read_loop (fuel : nat) (c : Credentials) (id : OpenFileId) (position : option Z) (len : Z) (generation : option Z)
    : prog (result (list Z) Error) :=
  match fuel with
  | O => mret (Err Io)
  | S fuel =>
      t ← atomically (read_begin c id position len generation);
      match t with
      | Done r => mret r
      | Pending s =>
          Disk (rd_backing s) (rd_offset s) (rd_count s) (λ read,
          r ← atomically (read_finish c id position s read);
          match r with Some r => mret r | None => read_loop fuel c id position len generation end)
      end
  end.

Definition read_from := read_loop ATTEMPTS.
Definition read_at (c : Credentials) (id : OpenFileId) (offset len : Z) : prog (result (list Z) Error) :=
  read_from c id (Some offset) len None.
Definition read (c : Credentials) (id : OpenFileId) (len : Z) : prog (result (list Z) Error) := read_from c id None len None.
Definition read_mapping_at (c : Credentials) (id : OpenFileId) (generation offset len : Z) : prog (result (list Z) Error) :=
  read_from c id (Some offset) len (Some generation).

Definition read_all (c : Credentials) (p : list Z) (len : Z) : prog (result (list Z) Error) :=
  f ← atomically (open p);
  match f with
  | Err e => mret (Err e)
  | Ok id =>
      sz ← atomically (λ w, (w, file_size id w));
      r ← match sz with
          | Err e => mret (Err e)
          | Ok n => if len <? n then mret (Err Full) else read_at c id 0 n
          end;
      _ ← atomically (close_open_file id);
      mret r
  end.

(** ** Writing *)
Definition write_begin (c : Credentials) (id : OpenFileId) (w : World) : World * result (nat * Z) Error :=
  (w, let? en := current_node id w in
      if negb (writable en.2) || negb (access_allowed c en.2 true) then Err ReadOnly else Ok (o_node en.1, o_generation en.1)).

Definition set_bytes (d : list Z) (len : Z) (n : Node) : Node :=
  mkNode (path n) d (backing n) len (writable n) (uid n) (gid n) (mode n) (kind n) (occupied n).

Definition write_finish (c : Credentials) (id : OpenFileId) (position : option Z) (ig : nat * Z) (buffer : list Z) (w : World)
    : World * option (result Z Error) :=
  match get_mut id (open_files w) with
  | Err e => (w, Some (Err e))
  | Ok e =>
      let '(i, generation) := ig in
      let r := registry w in
      if negb (o_node e =? i)%nat || negb (o_generation e =? generation) then (w, Some (Err InvalidDescriptor))
      else
      let offset := default (o_offset e) position in
      if negb (generation_of r i =? generation) then (w, Some (Err InvalidDescriptor))
      else
      match nodes r !! i with
      | None => (w, Some (Err InvalidDescriptor))
      | Some n =>
          if negb (occupied n) then (w, Some (Err InvalidDescriptor))
          else if negb (writable n) || negb (access_allowed c n true) then (w, Some (Err ReadOnly))
          else if bool_decide (is_Some (backing n)) then (w, None)
          else if size n <? offset then (w, Some (Err InvalidDescriptor))
          else
          let count := Z.min (Z.of_nat (length buffer)) (NODE_CAPACITY - offset) in
          let bytes := take (Z.to_nat count) buffer in
          let n := set_bytes (poke offset bytes (data n)) (Z.max (size n) (offset + count)) n in
          let w := with_registry (bump_version i (set_node i n r)) w in
          let w := with_frames (update i generation offset bytes (frames w)) w in
          let w := advance id position (offset + count) e w in
          (w, Some (if count <? Z.of_nat (length buffer) then Err Full else Ok count))
      end
  end.

Fixpoint write_loop (fuel : nat) (c : Credentials) (id : OpenFileId) (position : option Z) (buffer : list Z) : prog (result Z Error) :=
  match fuel with
  | O => mret (Err Io)
  | S fuel =>
      t ← atomically (write_begin c id);
      match t with
      | Err e => mret (Err e)
      | Ok ig =>
          m ← materialize_disk_node ig.1 ig.2;
          match m with
          | Err e => mret (Err e)
          | Ok _ =>
              r ← atomically (write_finish c id position ig buffer);
              match r with Some r => mret r | None => write_loop fuel c id position buffer end
          end
      end
  end.
Definition write_at (c : Credentials) (id : OpenFileId) (offset : Z) (buffer : list Z) : prog (result Z Error) :=
  write_loop ATTEMPTS c id (Some offset) buffer.
Definition write (c : Credentials) (id : OpenFileId) (buffer : list Z) : prog (result Z Error) :=
  write_loop ATTEMPTS c id None buffer.

(** ** Shared mappings *)
Definition prepare_shared_begin (c : Credentials) (id : OpenFileId) (w : World) : World * turn (result () Error) (nat * Z) :=
  match current_node id w with
  | Err e => (w, Done (Err e))
  | Ok (e, n) =>
      if writable n && access_allowed c n true then (w, Done (Ok tt))
      else if bool_decide (backing n = None) then (w, Done (Err ReadOnly))
      else (w, Pending (o_node e, o_generation e))
  end.

Definition set_writable (b : bool) (n : Node) : Node :=
  mkNode (path n) (data n) (backing n) (size n) b (uid n) (gid n) (mode n) (kind n) (occupied n).

Definition prepare_shared_finish (id : OpenFileId) (ig : nat * Z) (w : World) : World * option (result () Error) :=
  match get_mut id (open_files w) with
  | Err e => (w, Some (Err e))
  | Ok e =>
      let '(i, generation) := ig in
      if negb (o_node e =? i)%nat || negb (o_generation e =? generation) then (w, Some (Err InvalidDescriptor))
      else
      let r := registry w in
      let n := node_at r i in
      if negb (occupied n) || negb (generation_of r i =? generation) then (w, Some (Err InvalidDescriptor))
      else if bool_decide (is_Some (backing n)) then (w, None)
      else (with_registry (set_node i (set_writable true n) r) w, Some (Ok tt))
  end.

Fixpoint prepare_shared_loop (fuel : nat) (c : Credentials) (id : OpenFileId) : prog (result () Error) :=
  match fuel with
  | O => mret (Err Io)
  | S fuel =>
      t ← atomically (prepare_shared_begin c id);
      match t with
      | Done r => mret r
      | Pending ig =>
          m ← materialize_disk_node ig.1 ig.2;
          match m with
          | Err e => mret (Err e)
          | Ok _ =>
              r ← atomically (prepare_shared_finish id ig);
              match r with Some r => mret r | None => prepare_shared_loop fuel c id end
          end
      end
  end.
Definition prepare_shared_file (c : Credentials) (id : OpenFileId) : prog (result () Error) := prepare_shared_loop ATTEMPTS c id.

Definition write_mapping_at (c : Credentials) (id : OpenFileId) (offset : Z) (bytes : list Z) (w : World) : World * result () Error :=
  on_ok w (get_mut id (open_files w)) (λ e,
  let i := o_node e in
  let n := node_at (registry w) i in
  if negb (occupied n) || negb (writable n) || negb (access_allowed c n true) then (w, Err ReadOnly)
  else if size n <? offset + Z.of_nat (length bytes) then (w, Err Full)
  else
  let r := bump_version i (set_node i (set_bytes (poke offset bytes (data n)) (size n) n) (registry w)) in
  (with_frames (update i (o_generation e) offset bytes (frames w)) (with_registry r w), Ok tt)).

Definition persist_mapping (id : OpenFileId) : prog (result () Error) :=
  p ← atomically (λ w, (w, let? e := get_mut id (open_files w) in Ok (path (node_at (registry w) (o_node e)))));
  match p with
  | Err e => mret (Err e)
  | Ok p => if under_mnt p then Persist p (λ ok, mret (if ok then Ok tt else Err Io)) else mret (Ok tt)
  end.

(** ** Enumeration *)
Definition files_with_prefix (prefix : list Z) (w : World) : list (list Z) :=
  path <$> filter (λ n, occupied n && bool_decide (kind n = File) && starts_with prefix (path n) = true) (nodes (registry w)).
Definition node_count (w : World) : nat := count (registry w).
Definition open_file_description_count (w : World) : nat := live_count (open_files w).

End Normalised.

End VfsOps.
