(* ===== verification/VfsInv.v ===== *)
(** * Absolute paths of vfs.rs as lists of components

    The byte scans of the source against the tree that paths describe: a valid path is the
    encoding of its components, and the parent, descendant and child tests of the source
    decide the corresponding relations on component lists. *)
From S2P Require Import Prelude Block DeviceIo Fat32Names Vfs.
Import Names Vfs.

Module VfsPaths.

(** A component as the file system accepts it. *)
Definition component (c : list Z) : Prop := c ≠ [] ∧ (SLASH ∉ c) ∧ (length c ≤ MAX_DIR_NAME)%nat.
Definition flat (cs : list (list Z)) : list Z := concat (cons SLASH <$> cs).
Definition join (cs : list (list Z)) : list Z := match cs with [] => root_path | _ => flat cs end.

(** Either nothing, or something after a slash. *)
Definition boundary (s : list Z) : Prop := s = [] ∨ ∃ s', s = SLASH :: s'.

Lemma flat_app cs ds : flat (cs ++ ds) = flat cs ++ flat ds.
Proof. unfold flat. by rewrite fmap_app, concat_app. Qed.
Lemma flat_cons c cs : flat (c :: cs) = SLASH :: c ++ flat cs.
Proof. done. Qed.
Lemma flat_boundary cs : boundary (flat cs).
Proof. destruct cs as [|c cs]; [by left|]. right. by exists (c ++ flat cs). Qed.
Lemma join_flat cs : cs ≠ [] → join cs = flat cs.
Proof. by destruct cs. Qed.
Lemma flat_nil cs : flat cs = [] → cs = [].
Proof. by destruct cs. Qed.
Lemma join_not_nil cs : join cs ≠ [].
Proof. by destruct cs. Qed.
Lemma join_snoc cs c : join (cs ++ [c]) = flat (cs ++ [c]).
Proof. apply join_flat. by destruct cs. Qed.

(** ** Unique readings *)
Lemma cut_unique d c x y :
  SLASH ∉ d → SLASH ∉ c → boundary x → boundary y → d ++ x = c ++ y → d = c ∧ x = y.
Proof.
  revert c. induction d as [|a d IH]; intros c Hd Hc Hx Hy He.
  - destruct c as [|b c]; [done|]. destruct Hx as [->|[x' ->]]; [done|]. simplify_list_eq. by rewrite elem_of_cons in Hc; tauto.
  - destruct c as [|b c]; simpl in He.
    + destruct Hy as [->|[y' ->]]; [done|]. simplify_list_eq. by rewrite elem_of_cons in Hd; tauto.
    + apply not_elem_of_cons in Hd as [_ Hd]. apply not_elem_of_cons in Hc as [_ Hc]. simplify_eq.
      destruct (IH c Hd Hc Hx Hy) as [-> ->]; done.
Qed.

Lemma flat_prefix ds cs rest :
  Forall component ds → Forall component cs → boundary rest → flat ds ++ rest = flat cs → ∃ es, cs = ds ++ es ∧ rest = flat es.
Proof.
  intros Hd. revert cs. induction Hd as [|d ds (_ & Hs & _) _ IH]; intros cs Hc Hr He; [by exists cs|].
  destruct Hc as [|c cs (_ & Hs' & _) Hc]; [done|]. rewrite !flat_cons in He. simpl in He. simplify_eq.
  rewrite <- app_assoc in *.
  assert (Hb : boundary (flat ds ++ rest)) by (destruct (flat_boundary ds) as [->|[s' ->]]; [done|right; eexists; done]).
  destruct (cut_unique d c (flat ds ++ rest) (flat cs)) as [-> Hf]; try done; [by apply flat_boundary|].
  destruct (IH cs Hc Hr Hf) as (es & -> & ->). by exists es.
Qed.

Lemma flat_inj cs ds : Forall component cs → Forall component ds → flat cs = flat ds → cs = ds.
Proof.
  intros Hc Hd He. destruct (flat_prefix cs ds [] Hc Hd) as (es & -> & He'); [by left|by rewrite app_nil_r|].
  symmetry in He'. apply flat_nil in He' as ->. by rewrite app_nil_r.
Qed.

Lemma flat_not_root cs : Forall component cs → flat cs ≠ root_path.
Proof.
  intros Hc He. destruct Hc as [|c cs (Hn & _) _]; [done|]. rewrite flat_cons in He. unfold root_path in He. injection He as He.
  by apply app_eq_nil in He as [-> _].
Qed.

Lemma join_inj cs ds : Forall component cs → Forall component ds → join cs = join ds → cs = ds.
Proof.
  intros Hc Hd He. destruct cs as [|c cs], ds as [|d ds]; [done|..|by apply flat_inj].
  - symmetry in He. by apply flat_not_root in He.
  - by apply flat_not_root in He.
Qed.

Lemma join_root cs : Forall component cs → join cs = root_path → cs = [].
Proof. intros Hc He. by apply (join_inj cs []). Qed.

(** ** The scans *)
Lemma strip_prefix_spec pre l s : strip_prefix pre l = Some s ↔ l = pre ++ s.
Proof.
  revert l. induction pre as [|x pre IH]; intros l; simpl; [split; intros; simplify_eq; done|].
  destruct l as [|y l]; [by split|]. destruct (Z.eqb_spec x y) as [->|Hn]; [|split; intros; simplify_eq; done].
  rewrite IH. split; intros; simplify_eq; done.
Qed.

Lemma starts_with_spec pre l : starts_with pre l = true ↔ ∃ s, l = pre ++ s.
Proof.
  revert l. induction pre as [|x pre IH]; intros l; simpl; [split; [by exists l|done]|].
  destruct l as [|y l]; [by split; [|intros [? ?]]|]. rewrite andb_true_iff, Z.eqb_eq, IH. split.
  - intros [-> [s ->]]. by exists s.
  - intros [s ?]. simplify_eq. eauto.
Qed.

Lemma root_prefix l : starts_with root_path l = true ↔ ∃ s, l = SLASH :: s.
Proof. apply starts_with_spec. Qed.

Lemma descendant_spec ds cs :
  ds ≠ [] → Forall component ds → Forall component cs →
  ∀ s, descendant_suffix (join ds) (join cs) = Some s ↔ ∃ es, es ≠ [] ∧ cs = ds ++ es ∧ s = flat es.
Proof.
  intros Hn Hd Hc s. unfold descendant_suffix. rewrite (join_flat ds Hn). split.
  - destruct (strip_prefix _ _) as [t|] eqn:E; [|done]. apply strip_prefix_spec in E.
    destruct (starts_with root_path t) eqn:Et; [|done]. apply root_prefix in Et as [t' ->]. intros ?; simplify_eq.
    destruct cs as [|c cs]; [apply (f_equal length) in E; destruct ds as [|d ds]; [done|];
      rewrite flat_cons in E; simpl in E; rewrite !length_app in E; simpl in E; lia|].
    destruct (flat_prefix ds (c :: cs) (SLASH :: t') Hd Hc) as (es & E1 & E2); [by right; eexists|done|].
    exists es. split_and!; [by intros ->|done..].
  - intros (es & He & -> & ->). rewrite join_flat by (destruct ds; done). rewrite flat_app.
    destruct (strip_prefix (flat ds) (flat ds ++ flat es)) as [t|] eqn:E.
    + apply strip_prefix_spec in E. apply app_inv_head in E as <-. destruct (flat_boundary es) as [H|[t' Ht]]; [by apply flat_nil in H|].
      by rewrite Ht.
    + assert (strip_prefix (flat ds) (flat ds ++ flat es) = Some (flat es)) by by apply strip_prefix_spec. congruence.
Qed.

Lemma descendant_nil ds : ds ≠ [] → descendant_suffix (join ds) [] = None.
Proof. destruct ds as [|d ds]; [done|]. intros _. done. Qed.

Lemma split_at_first_spec s t : SLASH ∉ s → split_at_first SLASH (s ++ SLASH :: t) = Some (s, t).
Proof.
  induction s as [|a s IH]; intros Hs; [done|]. apply not_elem_of_cons in Hs as [Ha Hs]. simpl.
  destruct (Z.eqb_spec a SLASH); [done|]. by rewrite IH.
Qed.

Lemma trim_end_flat cs c : component c → trim_end (flat (cs ++ [c])) = flat (cs ++ [c]).
Proof.
  intros (Hn & Hs & _). unfold trim_end. rewrite flat_app, flat_cons. simpl. rewrite app_nil_r, reverse_app, reverse_cons.
  destruct (reverse c) as [|a s] eqn:E; [apply (f_equal reverse) in E; rewrite reverse_involutive in E; done|].
  assert (Ha : a ∈ reverse c) by (rewrite E; left). rewrite elem_of_reverse in Ha. simpl.
  destruct (Z.eqb_spec a SLASH) as [Ea|]; [rewrite Ea in Ha; by destruct Hs|].
  change (a :: (s ++ [SLASH]) ++ reverse (flat cs)) with (((a :: s) ++ [SLASH]) ++ reverse (flat cs)). rewrite <- E.
  by rewrite <- reverse_cons, <- reverse_app, reverse_involutive.
Qed.

Lemma parent_snoc cs c : Forall component cs → component c → parent_path (join (cs ++ [c])) = Some (join cs).
Proof.
  intros Hcs Hc. unfold parent_path. rewrite join_snoc.
  rewrite bool_decide_eq_false_2 by (apply flat_not_root, Forall_app; split; [done|by apply Forall_singleton]).
  rewrite trim_end_flat by done. unfold rsplit_once. rewrite flat_app, flat_cons. simpl.
  rewrite app_nil_r, reverse_app, reverse_cons, <- app_assoc. simpl.
  rewrite split_at_first_spec by (rewrite elem_of_reverse; apply Hc). simpl. rewrite !reverse_involutive.
  destruct cs as [|c' cs]; [done|]. by rewrite flat_cons.
Qed.

Lemma child_spec ds cs nm :
  Forall component ds → Forall component cs →
  immediate_child_name (join ds) (join cs) = Some nm ↔ component nm ∧ cs = ds ++ [nm].
Proof.
  intros Hd Hc. unfold immediate_child_name. case_bool_decide as He.
  { apply join_inj in He as ->; [|done..]. split; [done|]. intros [_ H]. apply (f_equal length) in H. rewrite length_app in H. simpl in H. lia. }
  case_bool_decide as Hr.
  - apply join_root in Hr as ->; [|done]. destruct cs as [|c cs]; [done|]. cbn [join]. rewrite flat_cons.
    rewrite (proj2 (root_prefix _)) by eauto. cbn [negb orb].
    destruct (Nat.ltb_spec (length (SLASH :: c ++ flat cs)) 2) as [Hl|_].
    { exfalso. inversion Hc as [|?? (Hn & _) _]. destruct c; [done|]. simpl in Hl. lia. }
    simpl. rewrite drop_0. inversion Hc as [|?? Hcc Hcs]; subst. destruct cs as [|c' cs].
    + change (flat []) with (@nil Z). rewrite app_nil_r. rewrite bool_decide_eq_false_2 by apply Hcc. split.
      * intros ?; simplify_eq. done.
      * intros [_ ?]; simplify_eq. done.
    + rewrite bool_decide_eq_true_2 by (rewrite flat_cons, elem_of_app, elem_of_cons; auto). split; [done|]. intros [_ ?]; simplify_eq.
  - assert (Hn : ds ≠ []) by by intros ->. rewrite (join_flat ds) in * by done. split.
    + destruct (starts_with (flat ds) (join cs)) eqn:Ep; [|done]. apply starts_with_spec in Ep as [s Hs]. cbn [negb].
      rewrite Hs, drop_app_length. destruct (starts_with root_path s) eqn:Es; [|done]. apply root_prefix in Es as [s' ->]. cbn [negb].
      simpl. rewrite drop_0. destruct cs as [|c cs].
      { exfalso. apply (f_equal length) in Hs. destruct ds as [|d ds]; [done|].
        inversion Hd as [|?? (Hdn & _) _]. destruct d; [done|]. cbn in Hs. rewrite !length_app in Hs. simpl in Hs. lia. }
      cbn [join] in Hs. destruct (flat_prefix ds (c :: cs) (SLASH :: s') Hd Hc) as (es & Ecs & Es'); [right; eauto|done|].
      destruct (bool_decide (s' = [])) eqn:E1; [done|]. simpl. destruct (bool_decide (SLASH ∈ s')) eqn:E2; [done|].
      intros ?; simplify_eq. apply bool_decide_eq_false in E2. destruct es as [|e es]; [done|]. rewrite flat_cons in Es'. simplify_eq.
      destruct es as [|e' es]; [|by rewrite flat_cons, elem_of_app, elem_of_cons in E2; destruct E2; auto].
      change (flat []) with (@nil Z). rewrite app_nil_r, Ecs. split; [|done].
      rewrite Ecs in Hc. apply Forall_app in Hc as [_ Hc]. by apply Forall_cons in Hc as [? _].
    + intros [Hcomp ->]. rewrite join_snoc, flat_app, flat_cons. change (flat []) with (@nil Z). rewrite app_nil_r.
      rewrite (proj2 (starts_with_spec (flat ds) _)) by eauto. cbn [negb]. rewrite drop_app_length.
      rewrite (proj2 (root_prefix _)) by eauto. cbn [negb]. simpl. rewrite drop_0. destruct Hcomp as (Hnn & Hns & _).
      by rewrite !bool_decide_eq_false_2.
Qed.

Lemma child_of_nil ds : immediate_child_name (join ds) [] = None.
Proof.
  unfold immediate_child_name. case_bool_decide as He; [done|]. case_bool_decide; [done|].
  destruct ds as [|d ds]; [done|]. done.
Qed.

(** ** Valid paths *)
Lemma split_flat s : SLASH :: s = flat (split SLASH s) ∧ Forall (λ c, not (SLASH ∈ c)) (split SLASH s) ∧ split SLASH s ≠ [].
Proof.
  induction s as [|a s (IH1 & IH2 & IH3)]; [split_and!; [done| |done]; repeat constructor; apply not_elem_of_nil|].
  simpl. destruct (Z.eqb_spec a SLASH) as [->|Ha].
  - split_and!; [|constructor; [apply not_elem_of_nil|done]|done]. rewrite flat_cons, <- IH1. done.
  - destruct (split SLASH s) as [|p ps]; [done|]. rewrite flat_cons in *. injection IH1 as IH1. split_and!; [by rewrite IH1|..|done].
    apply Forall_cons in IH2 as [Hp Hps]. constructor; [|done]. by apply not_elem_of_cons.
Qed.

Lemma bad_component_false c : bad_component c = false → SLASH ∉ c → component c.
Proof.
  unfold bad_component. rewrite !orb_false_iff, bool_decide_eq_false, Nat.ltb_ge. intros [[[Hn _] _] Hl] Hs. done.
Qed.

Section Normalised.
Context (nfc : list Z → list (list Z)).

Lemma path_validate_spec p :
  validate_absolute_path nfc p = Ok tt → ∃ cs, p = join cs ∧ Forall component cs ∧ (length p ≤ PATH_CAPACITY)%nat.
Proof.
  unfold validate_absolute_path.
  destruct (bool_decide (p = [])) eqn:E1; [done|]. destruct (starts_with root_path p) eqn:E2; [|done]. cbn [negb orb].
  destruct (Nat.ltb_spec PATH_CAPACITY (length p)) as [|Hl]; [done|]. destruct (bool_decide (0 ∈ p)); [done|].
  destruct (is_nfc_path nfc p); [|done]. cbn [negb]. destruct (decide (p = root_path)) as [->|Hr]; [intros _; by exists []|].
  rewrite (bool_decide_eq_false_2 (p = root_path)) by done. cbn [negb andb].
  destruct (any bad_component _) eqn:Eb; [done|]. intros _. apply root_prefix in E2 as [s ->]. simpl in Eb. rewrite drop_0 in Eb.
  destruct (split_flat s) as (H1 & H2 & H3). exists (split SLASH s). rewrite (join_flat _ H3). split_and!; [done| |done].
  rewrite Forall_forall in H2. apply Forall_forall. intros c Hc. apply bad_component_false; [|by apply H2].
  unfold any in Eb. destruct (bad_component c) eqn:E; [|done].
  assert (existsb bad_component (split SLASH s) = true); [|congruence].
  apply existsb_exists. exists c. split; [by apply list_elem_of_In|done].
Qed.

End Normalised.

End VfsPaths.

(** * The tree of vfs.rs and what keeps it a tree

    The names and kinds of the occupied nodes ([shape]) form a tree of directories rooted
    at "/"; the lemmas here show which changes of one node keep that. *)
Import Names Vfs VfsPaths.

Module VfsInv.

(** ** Names as a tree *)
Definition Shape : Type := nat → option (list Z * NodeKind).

Record shape_ok (sh : Shape) : Prop := {
  sh_named i p k : sh i = Some (p, k) → p ≠ [] → ∃ cs, p = join cs ∧ Forall component cs;
  sh_unique i j p k k' : sh i = Some (p, k) → sh j = Some (p, k') → p ≠ [] → i = j;
  sh_root : ∃ i, sh i = Some (root_path, Directory);
  sh_parent i cs c k : sh i = Some (join (cs ++ [c]), k) → Forall component (cs ++ [c]) → ∃ j, sh j = Some (join cs, Directory);
  sh_unnamed i k : sh i = Some ([], k) → k = File;
}.

Lemma shape_ext sh sh' : (∀ i, sh' i = sh i) → shape_ok sh → shape_ok sh'.
Proof.
  intros He [H1 H2 H3 H4 H5]. split; setoid_rewrite He; eauto.
Qed.

Lemma prefix_closed sh i cs es k :
  shape_ok sh → sh i = Some (join (cs ++ es), k) → Forall component (cs ++ es) → es ≠ [] → ∃ j, sh j = Some (join cs, Directory).
Proof.
  intros Hok. revert i k. induction es as [|e es IH] using rev_ind; intros i k Hi Hc Hn; [done|].
  rewrite app_assoc in Hi, Hc. destruct (sh_parent _ Hok _ _ _ _ Hi Hc) as [j Hj].
  destruct (decide (es = [])) as [->|Hes]; [rewrite app_nil_r in Hj; eauto|].
  apply Forall_app in Hc as [Hc _]. eauto.
Qed.

Definition updated (sh sh' : Shape) (i : nat) (o : option (list Z * NodeKind)) : Prop :=
  sh' i = o ∧ ∀ j, j ≠ i → sh' j = sh j.

Lemma updated_cases sh sh' i o j x : updated sh sh' i o → sh' j = x → (j = i ∧ x = o) ∨ (j ≠ i ∧ sh j = x).
Proof. intros [H1 H2] Hj. destruct (decide (j = i)) as [->|Hn]; [left; by subst|right; by rewrite <- H2]. Qed.

Lemma shape_add sh sh' i cs c k :
  shape_ok sh → updated sh sh' i (Some (join (cs ++ [c]), k)) → sh i = None → Forall component (cs ++ [c]) →
  (∀ j k', sh j ≠ Some (join (cs ++ [c]), k')) → (∃ j, sh j = Some (join cs, Directory)) → shape_ok sh'.
Proof.
  intros Hok Hu Hfree Hc Hfresh [jp Hp].
  assert (Hkeep : ∀ j x, sh j = Some x → sh' j = Some x).
  { intros j x Hj. destruct Hu as [_ Hu]. rewrite Hu; [done|]. intros ->. congruence. }
  split.
  - intros j p k' Hj Hn. destruct (updated_cases _ _ _ _ _ _ Hu Hj) as [[-> ?]|[_ Ho]]; [simplify_eq; eauto|eapply sh_named; eauto].
  - intros j1 j2 p k1 k2 H1 H2 Hn.
    destruct (updated_cases _ _ _ _ _ _ Hu H1) as [[-> ?]|[_ Ho1]], (updated_cases _ _ _ _ _ _ Hu H2) as [[-> ?]|[_ Ho2]];
      simplify_eq; [done|by destruct (Hfresh _ _ Ho2)|by destruct (Hfresh _ _ Ho1)|by eapply sh_unique].
  - destruct (sh_root _ Hok) as [r Hr]. eauto.
  - intros j ds d k' Hj Hd. destruct (updated_cases _ _ _ _ _ _ Hu Hj) as [[-> Hx]|[_ Ho]].
    + injection Hx as Hx _. apply join_inj in Hx; [|done..]. apply app_inj_tail in Hx as [-> ->]. eauto.
    + destruct (sh_parent _ Hok _ _ _ _ Ho Hd) as [j' Hj']. eauto.
  - intros j k' Hj. destruct (updated_cases _ _ _ _ _ _ Hu Hj) as [[-> Hx]|[_ Ho]]; [|by eapply sh_unnamed].
    injection Hx as Hx _. symmetry in Hx. by apply join_not_nil in Hx.
Qed.

(** A node that is not a directory with children loses its name, or goes. *)
Lemma shape_drop sh sh' i p k o :
  shape_ok sh → updated sh sh' i o → sh i = Some (p, k) → o = None ∨ o = Some ([], File) → p ≠ root_path →
  (k = Directory → ∀ cs c j k', p = join cs → Forall component (cs ++ [c]) → sh j ≠ Some (join (cs ++ [c]), k')) →
  shape_ok sh'.
Proof.
  intros Hok Hu Hi Ho Hr Hleaf.
  assert (Hback : ∀ j q k', sh' j = Some (q, k') → q ≠ [] → j ≠ i ∧ sh j = Some (q, k')).
  { intros j q k' Hj Hq. destruct (updated_cases _ _ _ _ _ _ Hu Hj) as [[-> Hx]|[Hn Hs]]; [|done].
    destruct Ho as [-> | ->]; [done|]. by simplify_eq. }
  assert (Hkeep : ∀ j x, j ≠ i → sh j = x → sh' j = x) by (intros j x Hn <-; by apply Hu).
  split.
  - intros j q k' Hj Hn. destruct (Hback _ _ _ Hj Hn) as [_ Hs]. by eapply sh_named.
  - intros j1 j2 q k1 k2 H1 H2 Hn. destruct (Hback _ _ _ H1 Hn) as [_ Hs1], (Hback _ _ _ H2 Hn) as [_ Hs2]. by eapply sh_unique.
  - destruct (sh_root _ Hok) as [r Hroot]. exists r. apply Hkeep; [|done]. intros ->. simplify_eq.
  - intros j ds d k' Hj Hd. destruct (Hback _ _ _ Hj (join_not_nil _)) as [Hn Hs].
    destruct (sh_parent _ Hok _ _ _ _ Hs Hd) as [j' Hj']. exists j'. apply Hkeep; [|done]. intros ->. simplify_eq.
    by destruct (Hleaf eq_refl ds d j k' eq_refl Hd).
  - intros j k' Hj. destruct (updated_cases _ _ _ _ _ _ Hu Hj) as [[-> Hx]|[_ Hs]]; [|by eapply sh_unnamed].
    destruct Ho as [-> | ->]; by simplify_eq.
Qed.

(** A file has no children. *)
Lemma file_leaf sh i cs c j k' :
  shape_ok sh → sh i = Some (join cs, File) → Forall component (cs ++ [c]) → sh j ≠ Some (join (cs ++ [c]), k').
Proof.
  intros Hok Hi Hc Hj. destruct (sh_parent _ Hok _ _ _ _ Hj Hc) as [j' Hj'].
  assert (i = j') as -> by (eapply sh_unique; eauto using join_not_nil). congruence.
Qed.

(** ** Renaming *)
Section Rename.
Context (os ns : list (list Z)) (dir : bool).
Context (Hos : os ≠ []) (Hns : ns ≠ []) (Hoc : Forall component os) (Hnc : Forall component ns).

Definition renamed (p : list Z) : list Z := if moves (join os) dir p then moved (join os) (join ns) p else p.

Lemma moves_spec cs :
  Forall component cs → moves (join os) dir (join cs) = true ↔ ∃ es, cs = os ++ es ∧ (dir = true ∨ es = []).
Proof.
  intros Hc. unfold moves. rewrite orb_true_iff, andb_true_iff, !bool_decide_eq_true. split.
  - intros [He|[Hd [s Hs]]].
    + apply join_inj in He as ->; [|done..]. exists []. rewrite app_nil_r. auto.
    + apply descendant_spec in Hs as (es & _ & -> & _); [|done..]. eauto.
  - intros (es & -> & Hd). destruct (decide (es = [])) as [->|He]; [left; by rewrite app_nil_r|].
    right. destruct Hd as [->|]; [|done]. split; [done|]. exists (flat es). apply descendant_spec; eauto.
Qed.

Lemma moves_nil : moves (join os) dir [] = false.
Proof.
  unfold moves. rewrite descendant_nil by done. rewrite bool_decide_eq_false_2; [by rewrite andb_false_r|].
  intros He. symmetry in He. by apply join_not_nil in He.
Qed.

Lemma renamed_moved es : Forall component es → dir = true ∨ es = [] → renamed (join (os ++ es)) = join (ns ++ es).
Proof.
  intros He Hd. unfold renamed. rewrite (proj2 (moves_spec (os ++ es) ltac:(by apply Forall_app))) by eauto.
  unfold moved. rewrite !join_flat by (destruct os, ns; done). by rewrite !flat_app, drop_app_length.
Qed.

Lemma renamed_kept cs :
  Forall component cs → (∀ es, cs = os ++ es → dir = false ∧ es ≠ []) → renamed (join cs) = join cs.
Proof.
  intros Hc Hn. unfold renamed. destruct (moves (join os) dir (join cs)) eqn:E; [|done].
  apply moves_spec in E as (es & He & Hd); [|done]. destruct (Hn es He) as [-> ?]. by destruct Hd.
Qed.

(** The two ways a name can be after the move. *)
Lemma renamed_cases cs :
  Forall component cs →
  (∃ es, cs = os ++ es ∧ (dir = true ∨ es = []) ∧ Forall component es ∧ renamed (join cs) = join (ns ++ es)) ∨
  ((∀ es, cs = os ++ es → dir = false ∧ es ≠ []) ∧ renamed (join cs) = join cs).
Proof.
  intros Hc. destruct (moves (join os) dir (join cs)) eqn:E.
  - left. apply moves_spec in E as (es & -> & Hd); [|done]. apply Forall_app in Hc as [_ He].
    exists es. split_and!; [done..|]. by apply renamed_moved.
  - right. assert (Hx : ∀ es, cs = os ++ es → dir = false ∧ es ≠ []).
    { intros es ->. destruct (decide (dir = true ∨ es = [])) as [Hd|Hd].
      - rewrite (proj2 (moves_spec _ Hc)) in E by eauto. done.
      - split; [destruct dir; tauto|tauto]. }
    split; [done|]. by apply renamed_kept.
Qed.

Lemma renamed_nil : renamed [] = [].
Proof. unfold renamed. by rewrite moves_nil. Qed.

Lemma shape_rename sh sh' i k :
  shape_ok sh → (∀ j, sh' j = (λ x, (renamed x.1, x.2)) <$> sh j) →
  sh i = Some (join os, k) → dir = bool_decide (k = Directory) → (∀ j k', sh j ≠ Some (join ns, k')) →
  (∀ es, ns ≠ os ++ es) → (∀ cs c, ns = cs ++ [c] → ∃ j, sh j = Some (join cs, Directory)) →
  shape_ok sh'.
Proof.
  intros Hok Hsh Hi Hdir Hfresh Hinto Hpar.
  assert (Hback : ∀ j q k', sh' j = Some (q, k') → ∃ p, sh j = Some (p, k') ∧ q = renamed p).
  { intros j q k' Hj. rewrite Hsh in Hj. apply fmap_Some in Hj as ([p k0] & Hp & Hq). simpl in Hq. simplify_eq. eauto. }
  assert (Hfwd : ∀ j p k', sh j = Some (p, k') → sh' j = Some (renamed p, k')) by (intros j p k' Hj; by rewrite Hsh, Hj).
  assert (Hcomp : ∀ j p k', sh j = Some (p, k') → renamed p ≠ [] → ∃ cs, p = join cs ∧ Forall component cs).
  { intros j p k' Hj Hr. eapply sh_named; eauto. intros ->. by rewrite renamed_nil in Hr. }
  assert (Hnew : ∀ j es k', sh j = Some (join (ns ++ es), k') → Forall component (ns ++ es) → False).
  { intros j es k' Hj Hc. destruct (decide (es = [])) as [->|He].
    - rewrite app_nil_r in Hj. by eapply Hfresh.
    - destruct (prefix_closed _ _ _ _ _ Hok Hj Hc He) as [j' Hj']. by eapply Hfresh. }
  split.
  - intros j q k' Hj Hn. destruct (Hback _ _ _ Hj) as (p & Hp & ->). destruct (Hcomp _ _ _ Hp Hn) as (cs & -> & Hc).
    destruct (renamed_cases cs Hc) as [(es & _ & _ & He & ->)|[_ ->]]; [|eauto]. exists (ns ++ es). split; [done|by apply Forall_app].
  - intros j1 j2 q k1 k2 H1 H2 Hn. destruct (Hback _ _ _ H1) as (p1 & Hp1 & ->). destruct (Hback _ _ _ H2) as (p2 & Hp2 & He).
    destruct (Hcomp _ _ _ Hp1 Hn) as (c1 & -> & Hc1). rewrite He in Hn. destruct (Hcomp _ _ _ Hp2 Hn) as (c2 & -> & Hc2).
    destruct (renamed_cases c1 Hc1) as [(e1 & -> & _ & Hf1 & R1)|[_ R1]], (renamed_cases c2 Hc2) as [(e2 & -> & _ & Hf2 & R2)|[_ R2]];
      rewrite R1, R2 in He; (apply join_inj in He; [|by rewrite ?Forall_app..]).
    + apply app_inv_head in He as ->. eapply sh_unique; eauto using join_not_nil.
    + subst c2. by destruct (Hnew _ _ _ Hp2 Hc2).
    + subst c1. by destruct (Hnew _ _ _ Hp1 Hc1).
    + subst c2. eapply sh_unique; eauto using join_not_nil.
  - destruct (sh_root _ Hok) as [r Hr]. exists r. rewrite (Hfwd _ _ _ Hr). f_equal. f_equal.
    apply (renamed_kept []); [constructor|]. intros es He. symmetry in He. by apply app_eq_nil in He as [? _].
  - intros j cs c k' Hj Hc. destruct (Hback _ _ _ Hj) as (p & Hp & Hq).
    destruct (Hcomp _ _ _ Hp) as (ds & -> & Hd); [rewrite <- Hq; apply join_not_nil|].
    destruct (renamed_cases ds Hd) as [(es & -> & Hde & He & R)|[Hun R]]; rewrite R in Hq.
    + apply join_inj in Hq; [|done|by apply Forall_app]. destruct es as [|e es _] using rev_ind.
      * rewrite app_nil_r in Hq. destruct (Hpar cs c) as [jp Hjp]; [done|]. exists jp. rewrite (Hfwd _ _ _ Hjp). f_equal. f_equal.
        apply Forall_app in Hc as [Hc _]. apply renamed_kept; [done|]. intros es ->. exfalso. apply (Hinto (es ++ [c])).
        by rewrite app_assoc.
      * rewrite app_assoc in Hq. apply app_inj_tail in Hq as [-> ->]. rewrite app_assoc in Hp, Hd.
        destruct (sh_parent _ Hok _ _ _ _ Hp Hd) as [jp Hjp]. exists jp. rewrite (Hfwd _ _ _ Hjp). f_equal. f_equal.
        apply Forall_app in He as [He _]. apply renamed_moved; [done|]. destruct Hde as [|Hx]; [by left|]. by destruct es.
    + apply join_inj in Hq; [|done..]. subst ds. destruct (sh_parent _ Hok _ _ _ _ Hp Hd) as [jp Hjp]. exists jp.
      rewrite (Hfwd _ _ _ Hjp). f_equal. f_equal. apply Forall_app in Hd as [Hcs _]. apply renamed_kept; [done|].
      intros es ->. destruct (Hun (es ++ [c]) ltac:(by rewrite app_assoc)) as [Hdf _]. split; [done|]. intros ->.
      rewrite app_nil_r in Hjp. assert (i = jp) as -> by (eapply sh_unique; eauto using join_not_nil).
      rewrite Hjp in Hi. injection Hi as <-. rewrite Hdf, bool_decide_eq_true_2 in Hdir; done.
  - intros j k' Hj. destruct (Hback _ _ _ Hj) as (p & Hp & Hq). destruct (decide (p = [])) as [->|Hn]; [by eapply sh_unnamed|].
    exfalso. destruct (sh_named _ Hok _ _ _ Hp Hn) as (cs & -> & Hc).
    destruct (renamed_cases cs Hc) as [(es & _ & _ & _ & R)|[_ R]]; rewrite R in Hq; symmetry in Hq; by apply join_not_nil in Hq.
Qed.

End Rename.

End VfsInv.
