(* ===== verification/VfsWorld.v ===== *)
(** * The invariant of the file system and its operations *)
From S2P Require Import Prelude Block DeviceIo Fat32Names Vfs VfsInv VfsOps Bytes.
Import Io Names FileFrames Vfs VfsPaths VfsInv VfsOps.

Module VfsWorld.

(** ** The registry *)
Definition shape (r : Registry) : Shape := λ i,
  match nodes r !! i with Some n => if occupied n then Some (path n, kind n) else None | None => None end.

Definition node_ok (n : Node) : Prop :=
  Z.of_nat (length (data n)) ≤ size n ≤ NODE_CAPACITY ∧ (length (path n) ≤ PATH_CAPACITY)%nat ∧
  (path n = [] → backing n = None) ∧ (occupied n = false → path n = [] ∧ data n = []).

Record tree (r : Registry) : Prop := {
  t_nodes : length (nodes r) = MAX_NODES;
  t_versions : length (versions r) = MAX_NODES;
  t_generations : length (generations r) = MAX_NODES;
  t_node i n : nodes r !! i = Some n → node_ok n;
  t_shape : shape_ok (shape r);
  t_generation i g : generations r !! i = Some g → in_u64 g;
}.

Lemma shape_Some r i p k : shape r i = Some (p, k) ↔ ∃ n, nodes r !! i = Some n ∧ occupied n = true ∧ path n = p ∧ kind n = k.
Proof.
  unfold shape. split.
  - destruct (nodes r !! i) as [n|] eqn:E; [|done]. destruct (occupied n) eqn:Eo; [|done]. intros ?; simplify_eq. eauto.
  - intros (n & -> & -> & -> & ->). done.
Qed.

Lemma shape_node r i n : nodes r !! i = Some n → occupied n = true → shape r i = Some (path n, kind n).
Proof. intros H1 H2. apply shape_Some. eauto. Qed.

Lemma node_at_lookup r i n : nodes r !! i = Some n → node_at r i = n.
Proof. unfold node_at. by intros ->. Qed.

Lemma shape_set_node i n r :
  (i < length (nodes r))%nat →
  updated (shape r) (shape (set_node i n r)) i (if occupied n then Some (path n, kind n) else None).
Proof.
  intros Hi. split; unfold shape; simpl.
  - by rewrite list_lookup_insert_eq.
  - intros j Hj. by rewrite list_lookup_insert_ne.
Qed.

Lemma matches_true n p : matches n p = true ↔ occupied n = true ∧ path n = p.
Proof. unfold matches. by rewrite andb_true_iff, bool_decide_eq_true. Qed.

Lemma find_path_Some p r i :
  find_path p r = Some i → ∃ n, nodes r !! i = Some n ∧ occupied n = true ∧ path n = p ∧ node_at r i = n.
Proof.
  intros (n & Hn & Hm)%position_lookup. apply matches_true in Hm as [Ho Hp]. exists n. split_and!; [done..|by apply node_at_lookup].
Qed.

Lemma no_match p r : any (λ n, matches n p) (nodes r) = false → ∀ i k, shape r i ≠ Some (p, k).
Proof.
  intros Ha i k (n & Hn & Ho & Hp & _)%shape_Some. unfold any in Ha.
  assert (existsb (λ n, matches n p) (nodes r) = true); [|congruence]. apply existsb_exists. exists n.
  split; [eapply list_elem_of_In, list_elem_of_lookup_2; eauto|by apply matches_true].
Qed.

Lemma check_parent_ok c p r :
  check_parent c p r = Ok tt → ∃ parent, parent_path p = Some parent ∧ ∃ j, shape r j = Some (parent, Directory).
Proof.
  unfold check_parent. destruct (parent_path p) as [parent|]; [|done].
  destruct (List.find _ _) as [n|] eqn:Ef; [|done]. intros _. exists parent. split; [done|].
  apply find_some in Ef as [Hin Hd]. apply list_elem_of_In, list_elem_of_lookup_1 in Hin as [j Hj].
  unfold is_dir in Hd. rewrite andb_true_iff, matches_true, bool_decide_eq_true in Hd. destruct Hd as [[Ho Hp] Hk].
  exists j. apply shape_Some. eauto.
Qed.

(** Changes of a node that keep its name and kind. *)
Lemma tree_update r i n n' :
  tree r → nodes r !! i = Some n → occupied n = true → occupied n' = true → path n' = path n → kind n' = kind n → node_ok n' →
  tree (set_node i n' r) ∧ ∀ j, shape (set_node i n' r) j = shape r j.
Proof.
  intros [H1 H2 H3 H4 H5 H6] Hi Ho Ho' Hp Hk Hok.
  assert (Hs : ∀ j, shape (set_node i n' r) j = shape r j).
  { intros j. assert (Hl : (i < length (nodes r))%nat) by eauto using lookup_lt_Some.
    destruct (shape_set_node i n' r Hl) as [He Hne]. destruct (decide (j = i)) as [->|Hj]; [|by apply Hne].
    rewrite He, Ho', Hp, Hk. symmetry. by apply shape_node. }
  split; [|done]. split; simpl; try done; [by rewrite length_insert| |].
  - intros j m [[-> [-> _]]|[_ Hj]]%list_lookup_insert_Some; [done|eauto].
  - by eapply shape_ext.
Qed.

Lemma shape_bump i r j : shape (bump_version i r) j = shape r j.
Proof. done. Qed.
Lemma tree_bump i r : tree r → tree (bump_version i r).
Proof. intros [H1 H2 H3 H4 H5 H6]. split; simpl; try done. by rewrite length_insert. Qed.

(** A node that was free. *)
Lemma tree_add r i cs c n :
  tree r → position (λ n, negb (occupied n)) (nodes r) = Some i → path n = join (cs ++ [c]) → occupied n = true → node_ok n →
  Forall component (cs ++ [c]) → (∀ j k, shape r j ≠ Some (path n, k)) → (∃ j, shape r j = Some (join cs, Directory)) →
  tree (set_node i n r) ∧ updated (shape r) (shape (set_node i n r)) i (Some (path n, kind n)) ∧ shape r i = None.
Proof.
  intros [H1 H2 H3 H4 H5 H6] Hpos Hp Ho Hok Hc Hfresh Hpar. apply position_lookup in Hpos as (n0 & Hn0 & Hf).
  apply negb_true_iff in Hf. assert (Hl : (i < length (nodes r))%nat) by eauto using lookup_lt_Some.
  pose proof (shape_set_node i n r Hl) as Hu. rewrite Ho in Hu.
  assert (Hfree : shape r i = None) by (unfold shape; by rewrite Hn0, Hf).
  split_and!; [|done..]. split; simpl; try done; [by rewrite length_insert|..].
  - intros j m [[-> [-> _]]|[_ Hj]]%list_lookup_insert_Some; [done|eauto].
  - rewrite Hp in Hu, Hfresh. by eapply shape_add.
Qed.

(** A node that loses its name or is given back, with or without a new generation. *)
Lemma tree_drop r i n n' gs :
  tree r → nodes r !! i = Some n → occupied n = true → path n ≠ root_path → node_ok n' → path n' = [] →
  (occupied n' = true → kind n' = File) → length gs = MAX_NODES → (∀ j g, gs !! j = Some g → in_u64 g) →
  (kind n = Directory → ∀ cs c j k', path n = join cs → Forall component (cs ++ [c]) → shape r j ≠ Some (join (cs ++ [c]), k')) →
  let r' := mkRegistry (<[i := n']> (nodes r)) (versions r) gs in
  tree r' ∧ updated (shape r) (shape r') i (if occupied n' then Some ([], File) else None).
Proof.
  intros [H1 H2 H3 H4 H5 H6] Hi Ho Hroot Hok Hp Hk Hgl Hg Hleaf r'.
  assert (Hl : (i < length (nodes r))%nat) by eauto using lookup_lt_Some.
  assert (Hu : updated (shape r) (shape r') i (if occupied n' then Some ([], File) else None)).
  { destruct (shape_set_node i n' r Hl) as [He Hne]. split; [|done].
    change (shape r' i) with (shape (set_node i n' r) i). rewrite He, Hp. destruct (occupied n'); [|done]. by rewrite Hk. }
  split; [|done]. split; simpl; try done; [by rewrite length_insert|..].
  - intros j m [[-> [-> _]]|[_ Hj]]%list_lookup_insert_Some; [done|eauto].
  - eapply (shape_drop (shape r) (shape r') i (path n) (kind n)); [done|done|by apply shape_node| |done|done].
    destruct (occupied n'); auto.
Qed.

(** ** Open files *)
Record handles (r : Registry) (t : OpenFileTable) : Prop := {
  h_entries : length (entries t) = MAX_OPEN_FILES;
  h_slots : length (slot_generations t) = MAX_OPEN_FILES;
  h_slot s g : slot_generations t !! s = Some g → in_u64 g;
  h_live s e : entries t !! s = Some e → o_occupied e = true →
    0 < refcount e ≤ u32_max ∧ slot_generations t !! s = Some (o_epoch e) ∧ 0 ≤ o_offset e ≤ NODE_CAPACITY ∧
    (∃ p, shape r (o_node e) = Some (p, File)) ∧ generations r !! o_node e = Some (o_generation e);
  h_unnamed i : shape r i = Some ([], File) → is_open i t = true ∨ generations r !! i = Some u64_max;
}.

Lemma is_open_true i t : is_open i t = true ↔ ∃ s e, entries t !! s = Some e ∧ o_occupied e = true ∧ o_node e = i.
Proof.
  unfold is_open, any. rewrite existsb_exists. split.
  - intros (e & Hin & He). apply list_elem_of_In, list_elem_of_lookup_1 in Hin as [s Hs].
    apply andb_true_iff in He as [Ho Hn%Nat.eqb_eq]. eauto.
  - intros (s & e & Hs & Ho & <-). exists e. split; [eapply list_elem_of_In, list_elem_of_lookup_2; eauto|].
    by rewrite Ho, Nat.eqb_refl.
Qed.

(** What the open files need of a changed registry. *)
Lemma handles_registry r r' t :
  handles r t →
  (∀ i, is_open i t = true → (∃ p, shape r i = Some (p, File)) → (∃ p, shape r' i = Some (p, File)) ∧ generations r' !! i = generations r !! i) →
  (∀ i, shape r' i = Some ([], File) →
     is_open i t = true ∨ (shape r i = Some ([], File) ∧ generations r' !! i = generations r !! i)) →
  handles r' t.
Proof.
  intros [H1 H2 H3 H4 H5] Hl Hu. split; try done.
  - intros s e Hs Ho. destruct (H4 s e Hs Ho) as (Hr & Hg & Hoff & Hp & Hgen).
    destruct (Hl (o_node e)) as [Hp' Hg']; [apply is_open_true; eauto|done|]. split_and!; try done; [lia..|by rewrite Hg'].
  - intros i Hi. destruct (Hu i Hi) as [Ho|[Hs Hg]]; [by left|]. rewrite Hg. by apply H5.
Qed.

Lemma handles_same r r' t :
  handles r t → (∀ i, shape r' i = shape r i) → generations r' = generations r → handles r' t.
Proof.
  intros H Hs Hg. eapply handles_registry; [done|..]; intros i; rewrite Hs, Hg; eauto.
Qed.

(** One description changes its offset or its count of references. *)
Lemma handles_entry r t s e e' :
  handles r t → entries t !! s = Some e → o_occupied e = true → o_occupied e' = true → o_node e' = o_node e →
  o_generation e' = o_generation e → o_epoch e' = o_epoch e → 0 < refcount e' ≤ u32_max → 0 ≤ o_offset e' ≤ NODE_CAPACITY →
  handles r (set_entry s e' t).
Proof.
  intros [H1 H2 H3 H4 H5] Hs Ho Ho' Hn Hg He Hr Hoff. split; simpl; try done; [by rewrite length_insert|..].
  - intros s' x [[-> [-> _]]|[_ Hx]]%list_lookup_insert_Some Hox; [|by apply H4].
    destruct (H4 s' e Hs Ho) as (_ & Hsg & _ & Hp & Hgen). rewrite Hn, Hg, He. done.
  - intros i Hi. destruct (H5 i Hi) as [Hopen|]; [|by right]. left. apply is_open_true in Hopen as (s' & x & Hx & Hox & <-).
    apply is_open_true. simpl. destruct (decide (s' = s)) as [->|Hne].
    + exists s, e'. rewrite list_lookup_insert_eq by eauto using lookup_lt_Some. split_and!; [done..|]. congruence.
    + exists s', x. by rewrite list_lookup_insert_ne.
Qed.

Lemma get_mut_ok id t e :
  get_mut id t = Ok e ↔ entries t !! slot id = Some e ∧ o_occupied e = true ∧ 0 < refcount e ∧ o_epoch e = epoch id.
Proof.
  unfold get_mut. destruct (entries t !! slot id) as [x|]; [|split; [done|by intros (? & _)]].
  destruct (o_occupied x) eqn:Ho, (Z.ltb_spec 0 (refcount x)), (Z.eqb_spec (o_epoch x) (epoch id)); simpl;
    (split; [intros ?; by simplify_eq|intros (? & ? & ? & ?); simplify_eq; try done; first [lia|congruence]]).
Qed.

(** The node of an open description. *)
Lemma open_node r t s e :
  handles r t → entries t !! s = Some e → o_occupied e = true →
  ∃ n, nodes r !! o_node e = Some n ∧ occupied n = true ∧ kind n = File ∧ node_at r (o_node e) = n ∧
    generation_of r (o_node e) = o_generation e.
Proof.
  intros Hh Hs Ho. destruct (h_live _ _ Hh s e Hs Ho) as (_ & _ & _ & [p Hp] & Hg). apply shape_Some in Hp as (n & Hn & Hon & _ & Hk).
  exists n. split_and!; try done; [by apply node_at_lookup|]. unfold generation_of. by rewrite Hg.
Qed.

Record inv (w : World) : Prop := {
  iv_tree : tree (registry w);
  iv_handles : handles (registry w) (open_files w);
}.

End VfsWorld.

(** * Every critical section of vfs.rs keeps the invariant *)
Import Io Names FileFrames Vfs VfsPaths VfsInv VfsOps VfsWorld.

Module VfsSections.

(** ** Bytes of a node *)
Lemma length_poke off bs d :
  0 ≤ off → Z.of_nat (length (poke off bs d)) = Z.max (Z.of_nat (length d)) (off + Z.of_nat (length bs)).
Proof.
  intros Ho. unfold poke, splice, pad. rewrite !length_app, length_take, length_drop, length_app, length_replicate. lia.
Qed.

Lemma poke_nil bs : poke 0 bs [] = bs.
Proof.
  unfold poke, splice, pad. simpl. rewrite Nat.sub_0_r. rewrite drop_ge by (rewrite length_replicate; lia). by rewrite app_nil_r.
Qed.

(** ** Changing the registry of a world *)
Lemma inv_add w r' i p k :
  inv w → tree r' → updated (shape (registry w)) (shape r') i (Some (p, k)) → shape (registry w) i = None → p ≠ [] →
  generations r' = generations (registry w) → inv (with_registry r' w).
Proof.
  intros [Ht Hh] Ht' [He Hne] Hfree Hp Hg. split; [done|]. simpl. eapply handles_registry; [done|..]; intros j.
  - intros _ [q Hq]. rewrite Hne by (intros ->; congruence). rewrite Hg. eauto.
  - intros Hj. destruct (decide (j = i)) as [->|Hn]; [congruence|]. rewrite Hne in Hj by done. rewrite Hg. auto.
Qed.

Lemma inv_update w i n n' :
  inv w → nodes (registry w) !! i = Some n → occupied n = true → occupied n' = true → path n' = path n → kind n' = kind n →
  node_ok n' → inv (with_registry (set_node i n' (registry w)) w).
Proof.
  intros [Ht Hh] Hi Ho Ho' Hp Hk Hok. destruct (tree_update _ _ _ _ Ht Hi Ho Ho' Hp Hk Hok) as [Ht' Hs].
  split; [done|]. simpl. by eapply handles_same.
Qed.

Lemma inv_bump w i r : inv (with_registry r w) → inv (with_registry (bump_version i r) w).
Proof. intros [Ht Hh]. split; simpl in *; [by apply tree_bump|]. by eapply handles_same. Qed.

Lemma inv_frames w f : inv w → inv (with_frames f w).
Proof. by intros []. Qed.
Lemma inv_mark b w : inv w → inv (mark_if b w).
Proof. intros []. unfold mark_if, mark_mnt_dirty. by destruct b, (mnt_mounted w). Qed.
Lemma inv_open_files w t : inv w → handles (registry w) t → inv (with_open_files t w).
Proof. by intros []. Qed.

(** The fields an update may change freely. *)
Lemma node_ok_update n n' :
  node_ok n → occupied n = true → occupied n' = true → path n' = path n → (backing n' = None ∨ backing n' = backing n) →
  Z.of_nat (length (data n')) ≤ size n' ≤ NODE_CAPACITY → node_ok n'.
Proof.
  intros (_ & Hp & Hb & _) Ho Ho' Hpp Hbb Hs. rewrite <- Hpp in *. split_and!; [lia..|done| |congruence].
  intros He. destruct Hbb as [->|Hbb]; [done|]. rewrite Hbb. auto.
Qed.

#[local] Hint Resolve inv_mark inv_frames : core.

Section Normalised.
Context (nfc : list Z → list (list Z)).

Lemma validated p : validate_absolute_path nfc p = Ok tt → p ≠ root_path →
  ∃ cs c, p = join (cs ++ [c]) ∧ Forall component (cs ++ [c]) ∧ (length p ≤ PATH_CAPACITY)%nat.
Proof.
  intros (cs & -> & Hc & Hl)%path_validate_spec Hr. destruct cs as [|c cs _] using rev_ind; [by destruct Hr|]. eauto.
Qed.

Lemma parent_present c p cs cc r :
  check_parent c p r = Ok tt → p = join (cs ++ [cc]) → Forall component (cs ++ [cc]) → ∃ j, shape r j = Some (join cs, Directory).
Proof.
  intros (parent & Hp & Hj)%check_parent_ok -> Hc. apply Forall_app in Hc as [Hcs Hcc]. rewrite Forall_singleton in Hcc.
  rewrite parent_snoc in Hp by done. by simplify_eq.
Qed.

(** ** New names *)
Lemma insert_spec c p d wr r i r' :
  tree r → registry_insert nfc c p d wr r = Ok (i, r') →
  ∃ n, r' = set_node i n r ∧ tree r' ∧ updated (shape r) (shape r') i (Some (p, File)) ∧ shape r i = None ∧ p ≠ [] ∧
    nodes r' !! i = Some n ∧ n = mkNode p d None (Z.of_nat (length d)) wr (c_uid c) (c_gid c) (if wr then rwx 6 6 6 else rwx 4 4 4) File true ∧
    node_ok n.
Proof.
  intros Ht. unfold registry_insert. destruct (validate_absolute_path nfc p) as [[]|] eqn:Ev; [|done]. cbn [rbind].
  destruct (Z.ltb_spec NODE_CAPACITY (Z.of_nat (length d))) as [|Hl]; [done|].
  destruct (any _ _) eqn:Ea; [done|]. pose proof (no_match _ _ Ea) as Hfresh.
  destruct (decide (p = root_path)) as [->|Hr].
  { destruct (sh_root _ (t_shape _ Ht)) as [j Hj]. by destruct (Hfresh _ _ Hj). }
  rewrite bool_decide_eq_false_2 by done. destruct (check_parent c p r) as [[]|] eqn:Ec; [|done]. cbn [rbind].
  destruct (position _ (nodes r)) as [i'|] eqn:Epos; [|done]. cbn [ok_or rbind]. intros ?; simplify_eq.
  destruct (validated p Ev Hr) as (cs & cc & Hp & Hcs & Hpl). pose proof (parent_present _ _ _ _ _ Ec Hp Hcs) as Hpar.
  destruct (position_lookup _ _ _ Epos) as (n0 & Hn0 & Hf). apply negb_true_iff in Hf.
  destruct (t_node _ Ht _ _ Hn0) as (_ & _ & Hb & Hfree). destruct (Hfree Hf) as [Hp0 Hd0].
  rewrite (node_at_lookup _ _ _ Hn0), Hd0, (Hb Hp0), poke_nil.
  match goal with |- ∃ n, set_node _ ?m _ = _ ∧ _ => set (n := m) end.
  assert (Hne : p ≠ []) by (rewrite Hp; apply join_not_nil).
  assert (Hok : node_ok n) by (subst n; unfold node_ok; simpl; split_and!; [lia..|done|done|done]).
  destruct (tree_add r i cs cc n Ht Epos Hp eq_refl Hok Hcs Hfresh Hpar) as (Ht' & Hu & Hfree').
  exists n. split_and!; try done. simpl. by rewrite list_lookup_insert_eq by eauto using lookup_lt_Some.
Qed.

Lemma mkdir_spec c p r i r' :
  tree r → registry_mkdir nfc c p r = Ok (i, r') →
  tree r' ∧ updated (shape r) (shape r') i (Some (p, Directory)) ∧ shape r i = None ∧ p ≠ [] ∧ generations r' = generations r.
Proof.
  intros Ht. unfold registry_mkdir. destruct (validate_absolute_path nfc p) as [[]|] eqn:Ev; [|done]. cbn [rbind].
  destruct (decide (p = root_path)) as [->|Hr]; [by rewrite bool_decide_eq_true_2|]. rewrite bool_decide_eq_false_2 by done.
  destruct (any _ _) eqn:Ea; [done|]. pose proof (no_match _ _ Ea) as Hfresh.
  destruct (check_parent c p r) as [[]|] eqn:Ec; [|done]. cbn [rbind].
  destruct (position _ (nodes r)) as [i'|] eqn:Epos; [|done]. cbn [ok_or rbind]. intros ?; simplify_eq.
  destruct (validated p Ev Hr) as (cs & cc & Hp & Hcs & Hpl). pose proof (parent_present _ _ _ _ _ Ec Hp Hcs) as Hpar.
  assert (Hne : p ≠ []) by (rewrite Hp; apply join_not_nil).
  match goal with |- tree (set_node _ ?m _) ∧ _ => set (n := m) end.
  assert (Hok : node_ok n) by (subst n; unfold node_ok, NODE_CAPACITY; simpl; split_and!; [lia..|done|done|done]).
  by destruct (tree_add r i cs cc n Ht Epos Hp eq_refl Hok Hcs Hfresh Hpar) as (Ht' & Hu & Hfree').
Qed.

Lemma create_read_only_inv c p d w : inv w → inv (create_read_only nfc c p d w).1.
Proof.
  intros Hi. unfold create_read_only, on_ok. destruct (registry_insert _ _ _ _ _ _) as [[i r']|] eqn:E; [|done]. simpl.
  destruct (insert_spec _ _ _ _ _ _ _ (iv_tree _ Hi) E) as (n & -> & Ht & Hu & Hf & Hp & _). by eapply inv_add.
Qed.

Lemma create_disk_file_inv c p len wr w : 0 ≤ len → inv w → inv (create_disk_file_with_writable nfc c p len wr w).1.
Proof.
  intros Hlen Hi. unfold create_disk_file_with_writable. destruct (Z.ltb_spec NODE_CAPACITY len) as [|Hl]; [done|].
  unfold on_ok. destruct (registry_insert _ _ _ _ _ _) as [[i r']|] eqn:E; [|done]. cbn [fst snd].
  destruct (insert_spec _ _ _ _ _ _ _ (iv_tree _ Hi) E) as (n & -> & Ht & Hu & Hf & Hp & Hn & Heq & Hok).
  assert (Hi' : inv (with_registry (set_node i n (registry w)) w)) by by eapply inv_add.
  rewrite (node_at_lookup _ _ _ Hn). refine (inv_update _ i n _ Hi' Hn _ _ _ _ _); subst n; try done.
  destruct Hok as (_ & Hpl & _). unfold node_ok; simpl. split_and!; [lia..|done|done|done].
Qed.

Lemma mkdir_inv c p w : inv w → inv (mkdir nfc c p w).1.
Proof.
  intros Hi. unfold mkdir, marking, on_ok. destruct (registry_mkdir _ _ _ _) as [[i r']|] eqn:E; [|done]. simpl.
  destruct (mkdir_spec _ _ _ _ _ (iv_tree _ Hi) E) as (Ht & Hu & Hf & Hp & Hg). apply inv_mark. by eapply inv_add.
Qed.

Lemma find_path_live p w i :
  inv w → find_path p (registry w) = Some i →
  ∃ n, nodes (registry w) !! i = Some n ∧ node_at (registry w) i = n ∧ occupied n = true ∧ path n = p ∧ node_ok n.
Proof.
  intros Hi (n & Hn & Ho & Hp & Hat)%find_path_Some. exists n. split_and!; try done. by eapply t_node, Hn; apply iv_tree.
Qed.

Lemma set_metadata_inv p u g m w : inv w → inv (set_metadata nfc p u g m w).1.
Proof.
  intros Hi. unfold set_metadata, on_ok. destruct (validate_absolute_path nfc p); [|done]. destruct (find_path p (registry w)) as [i|] eqn:E; [|done].
  cbn [ok_or fst]. destruct (find_path_live _ _ _ Hi E) as (n & Hn & -> & Ho & _ & Hok).
  by eapply inv_update.
Qed.

Lemma write_file_inv c p d w : inv w → inv (write_file nfc c p d w).1.
Proof.
  intros Hi. unfold write_file, marking. assert (H : inv (registry_write_file nfc c p d w).1); [|destruct (registry_write_file _ _ _ _ _) as [? []]; simpl in *; auto].
  unfold registry_write_file, on_ok. destruct (validate_absolute_path nfc p); [|done].
  destruct (Z.ltb_spec NODE_CAPACITY (Z.of_nat (length d))) as [|Hl]; [done|].
  destruct (find_path p (registry w)) as [i|] eqn:E.
  - destruct (find_path_live _ _ _ Hi E) as (n & Hn & Hat & Ho & _ & Hok). rewrite Hat.
    destruct (negb (bool_decide (kind n = File))); [done|]. destruct (_ || _); [done|]. cbn [fst]. apply inv_frames, inv_bump.
    eapply inv_update; try done. rewrite poke_nil. eapply (node_ok_update n); simpl; auto; lia.
  - destruct (registry_insert _ _ _ _ _ _) as [[i r']|] eqn:Ei; [|done]. simpl.
    destruct (insert_spec _ _ _ _ _ _ _ (iv_tree _ Hi) Ei) as (n & -> & Ht & Hu & Hf & Hp & _). by eapply inv_add.
Qed.

(** ** Renaming *)
Definition renamed_registry (old new : list Z) (dir : bool) (r : Registry) : Registry :=
  mkRegistry (rename_node old new dir <$> nodes r)
    (zip_with (λ n v, if rename_changes old dir n then wrapping_add64 v 1 else v) (nodes r) (versions r)) (generations r).

Lemma renamed_shape os ns dir r j :
  shape (renamed_registry (join os) (join ns) dir r) j = (λ x, (renamed os ns dir x.1, x.2)) <$> shape r j.
Proof.
  unfold shape; simpl. rewrite list_lookup_fmap. destruct (nodes r !! j) as [n|]; [|done]. simpl.
  unfold rename_node. destruct (occupied n) eqn:Eo; simpl; by rewrite ?Eo.
Qed.

Lemma rename_length os ns dir p :
  os ≠ [] → ns ≠ [] → Forall component os → Forall component ns → (p ≠ [] → ∃ cs, p = join cs ∧ Forall component cs) →
  (length p ≤ PATH_CAPACITY)%nat → (length (join ns) ≤ PATH_CAPACITY)%nat → dir && too_long (join os) (join ns) p = false →
  (length (renamed os ns dir p) ≤ PATH_CAPACITY)%nat.
Proof.
  intros Ho Hn Hoc Hnc Hcs Hp Hl Ht. destruct (decide (p = [])) as [->|Hne]; [by rewrite renamed_nil|].
  destruct (Hcs Hne) as (cs & -> & Hc). destruct (renamed_cases os ns dir Ho Hn Hoc Hnc cs Hc) as [(es & -> & Hd & He & ->)|[_ ->]]; [|done].
  destruct (decide (es = [])) as [->|Hes]; [by rewrite app_nil_r|]. destruct Hd as [-> | ->]; [|done]. simpl in Ht.
  unfold too_long in Ht. rewrite (proj2 (descendant_spec os (os ++ es) Ho Hoc Hc (flat es))) in Ht by eauto.
  apply Nat.ltb_ge in Ht. rewrite !join_flat in * by (by destruct ns). rewrite flat_app, length_app. done.
Qed.

Lemma any_false {A} (p : A → bool) l x i : any p l = false → l !! i = Some x → p x = false.
Proof.
  intros Ha Hl. destruct (p x) eqn:E; [|done]. unfold any in Ha. assert (existsb p l = true); [|congruence].
  apply existsb_exists. exists x. split; [by eapply list_elem_of_In, list_elem_of_lookup_2|done].
Qed.

(** What a successful rename to another name does and has checked. *)
Lemma rename_spec c old new r r' :
  tree r → registry_rename nfc c old new r = Ok r' → old ≠ new →
  ∃ os ns i k, old = join os ∧ new = join ns ∧ os ≠ [] ∧ ns ≠ [] ∧ Forall component os ∧ Forall component ns ∧
    shape r i = Some (old, k) ∧ (∀ j k', shape r j ≠ Some (new, k')) ∧ (∀ es, ns ≠ os ++ es) ∧
    r' = renamed_registry old new (bool_decide (k = Directory)) r ∧ tree r'.
Proof.
  intros Ht. unfold registry_rename, validate_rename.
  destruct (validate_absolute_path nfc old) as [[]|] eqn:Eo; [|done]. destruct (validate_absolute_path nfc new) as [[]|] eqn:En; [|done].
  cbn [rbind]. destruct (bool_decide (old = root_path) || bool_decide (new = root_path)) eqn:Eroot; [done|].
  apply orb_false_iff in Eroot as [Ho%bool_decide_eq_false Hn%bool_decide_eq_false].
  destruct (find_path old r) as [i|] eqn:Ef; [|done]. cbn [ok_or rbind]. intros Hr Hne.
  rewrite (bool_decide_eq_false_2 (old = new)) in Hr by done. destruct (any (λ n, matches n new) (nodes r)) eqn:Ea; [done|].
  destruct (bool_decide (is_Some (descendant_suffix old new))) eqn:Ed; [done|]. apply bool_decide_eq_false in Ed.
  destruct (check_parent c new r) as [[]|] eqn:Ec; [|done]. cbn [rbind] in Hr.
  destruct (any (λ n, occupied n && _) (nodes r)) eqn:Eover; [done|].
  cbn [rbind] in Hr. rewrite ?(bool_decide_eq_false_2 (old = new)) in Hr by done. injection Hr as <-.
  destruct (validated old Eo Ho) as (os' & oc & -> & Hoc & Hol). destruct (validated new En Hn) as (ns' & nc & -> & Hnc & Hnl).
  destruct (find_path_Some _ _ _ Ef) as (n & Hni & Hno & Hnp & Hat). rewrite Hat in *.
  assert (Hos : os' ++ [oc] ≠ []) by (by destruct os'). assert (Hns : ns' ++ [nc] ≠ []) by (by destruct ns').
  assert (Hinto : ∀ es, ns' ++ [nc] ≠ (os' ++ [oc]) ++ es).
  { intros es He. destruct (decide (es = [])) as [->|Hes].
    - rewrite app_nil_r in He. apply Hne. by rewrite He.
    - apply Ed. exists (flat es). apply descendant_spec; try done. exists es. done. }
  exists (os' ++ [oc]), (ns' ++ [nc]), i, (kind n). split_and!; try done.
  { rewrite <- Hnp. by apply shape_node. } { by apply no_match. }
  set (dir := bool_decide (kind n = Directory)) in *. destruct Ht as [H1 H2 H3 H4 H5 H6]. split; simpl.
  - by rewrite length_fmap.
  - rewrite length_zip_with, H1, H2. done.
  - done.
  - intros j m. rewrite list_lookup_fmap. intros (m0 & Hm & ->)%fmap_Some. destruct (H4 _ _ Hm) as (Hs & Hpl & Hb & Hfr).
    unfold rename_node. destruct (occupied m0) eqn:Eom; [|by apply (H4 j)]. simpl. split_and!; simpl; [lia..| | |done].
    + pose proof (any_false _ _ _ _ Eover Hm) as Hover. cbn beta in Hover. rewrite Eom in Hover. apply orb_false_iff in Hover as [Hover _].
      apply (rename_length (os' ++ [oc]) (ns' ++ [nc]) dir); try done. intros Hpne. eapply sh_named; [done|by apply shape_node|done].
    + intros Hpe. change (renamed (os' ++ [oc]) (ns' ++ [nc]) dir (path m0) = []) in Hpe.
      destruct (decide (path m0 = [])) as [Hp0|Hpne]; [by rewrite (Hb Hp0)|]. exfalso.
      destruct (sh_named _ H5 j (path m0) (kind m0)) as (cs & Hcs & Hcc); [by apply shape_node|done|]. rewrite Hcs in Hpe.
      destruct (renamed_cases (os' ++ [oc]) (ns' ++ [nc]) dir Hos Hns Hoc Hnc cs Hcc) as [(es & _ & _ & _ & R)|[_ R]];
        rewrite R in Hpe; by apply join_not_nil in Hpe.
  - eapply (shape_rename (os' ++ [oc]) (ns' ++ [nc]) dir Hos Hns Hoc Hnc (shape r) _ i (kind n)); try done.
    + intros j. apply renamed_shape.
    + rewrite <- Hnp. by apply shape_node.
    + by apply no_match.
    + intros cs cc Heq. apply app_inj_tail in Heq as [<- <-]. by eapply parent_present.
  - done.
Qed.

Lemma rename_inv c old new w : inv w → inv (rename nfc c old new w).1.
Proof.
  intros Hi. unfold rename, marking, on_ok. destruct (registry_rename nfc c old new (registry w)) as [r'|] eqn:E; [|done]. simpl.
  apply inv_mark. destruct (decide (old = new)) as [->|Hne].
  { unfold registry_rename in E. destruct (validate_rename _ _ _ _ _); [|done]. cbn [rbind] in E.
    rewrite bool_decide_eq_true_2 in E by done. simplify_eq. by destruct w, Hi. }
  destruct (rename_spec _ _ _ _ _ (iv_tree _ Hi) E Hne) as (os & ns & i & k & -> & -> & Hos & Hns & Hoc & Hnc & _ & _ & _ & -> & Ht).
  split; [done|]. simpl. eapply handles_registry; [apply Hi|..]; intros j; rewrite renamed_shape.
  - intros _ [p Hp]. rewrite Hp. simpl. eauto.
  - intros Hj. right. split; [|done]. apply fmap_Some in Hj as ([p k'] & Hp & Hq). simpl in Hq. simplify_eq.
    destruct (decide (p = [])) as [->|Hpn]; [done|]. exfalso.
    destruct (sh_named _ (t_shape _ (iv_tree _ Hi)) _ _ _ Hp Hpn) as (cs & -> & Hc).
    destruct (renamed_cases os ns (bool_decide (k = Directory)) Hos Hns Hoc Hnc cs Hc) as [(es & _ & _ & _ & R)|[_ R]];
      rewrite R in H; symmetry in H; by apply join_not_nil in H.
Qed.

(** ** Removing *)
Lemma removable_spec c p r i :
  tree r → removable_index nfc c p r = Ok i →
  ∃ n, nodes r !! i = Some n ∧ occupied n = true ∧ path n = p ∧ node_at r i = n ∧ p ≠ root_path ∧
    (kind n = Directory → ∀ cs cc j k, p = join cs → Forall component (cs ++ [cc]) → shape r j ≠ Some (join (cs ++ [cc]), k)).
Proof.
  intros Ht. unfold removable_index. destruct (validate_absolute_path nfc p) as [[]|]; [|done]. cbn [rbind].
  case_bool_decide as Hr; [done|]. destruct (find_path p r) as [i'|] eqn:Ef; [|done]. cbn [ok_or rbind].
  destruct (check_parent c p r) as [[]|]; [|done]. cbn [rbind]. destruct (find_path_Some _ _ _ Ef) as (n & Hn & Ho & Hp & Hat).
  rewrite Hat. destruct (bool_decide (kind n = Directory) && _) eqn:Ee; [done|]. intros ?; simplify_eq.
  exists (node_at r i). split_and!; try done. intros Hk cs cc j k Hp Hc (m & Hm & Hom & Hpm & _)%shape_Some.
  rewrite bool_decide_eq_true_2 in Ee by done. simpl in Ee. pose proof (any_false _ _ _ _ Ee Hm) as Hx. cbn beta in Hx.
  rewrite Hom, Hpm, Hp in Hx. simpl in Hx. apply bool_decide_eq_false in Hx. apply Hx. exists cc.
  apply Forall_app in Hc as [Hcs Hcc]. apply child_spec; [done|by apply Forall_app|]. split; [by rewrite Forall_singleton in Hcc|done].
Qed.

Lemma in_u64_insert (gs : list Z) i g :
  (∀ j x, gs !! j = Some x → in_u64 x) → in_u64 g → ∀ j x, <[i := g]> gs !! j = Some x → in_u64 x.
Proof. intros Hg Hx j x [[_ [<- _]]|[_ Hj]]%list_lookup_insert_Some; eauto. Qed.

Lemma generation_lookup r i n : tree r → nodes r !! i = Some n → generations r !! i = Some (generation_of r i).
Proof.
  intros Ht Hn. unfold generation_of. destruct (generations r !! i) eqn:E; [done|]. apply lookup_ge_None in E.
  apply lookup_lt_Some in Hn. pose proof (t_nodes _ Ht). pose proof (t_generations _ Ht). lia.
Qed.

Lemma next_generation r i n g : tree r → nodes r !! i = Some n → checked_add64 (generation_of r i) 1 = Some g → in_u64 g.
Proof.
  intros Ht Hn. pose proof (t_generation _ Ht _ _ (generation_lookup _ _ _ Ht Hn)) as Hg. unfold checked_add64, in_u64 in *.
  destruct (Z.leb_spec (generation_of r i + 1) u64_max); [|done]. intros ?; simplify_eq. lia.
Qed.

(** A node nobody has open goes, with the next generation. *)
Lemma inv_vacate w i n n' g :
  inv w → nodes (registry w) !! i = Some n → occupied n = true → path n ≠ root_path → node_ok n' → path n' = [] → occupied n' = false →
  in_u64 g → (kind n = File → is_open i (open_files w) = false) →
  (kind n = Directory → ∀ cs c j k', path n = join cs → Forall component (cs ++ [c]) → shape (registry w) j ≠ Some (join (cs ++ [c]), k')) →
  inv (with_registry (mkRegistry (<[i := n']> (nodes (registry w))) (versions (registry w)) (<[i := g]> (generations (registry w)))) w).
Proof.
  intros [Ht Hh] Hi Ho Hr Hok Hp Hf Hg Hclosed Hleaf.
  destruct (tree_drop (registry w) i n n' (<[i := g]> (generations (registry w))) Ht Hi Ho Hr Hok Hp) as [Ht' Hu]; try done.
  { congruence. } { rewrite length_insert. apply Ht. } { apply in_u64_insert; [apply Ht|done]. }
  rewrite Hf in Hu. destruct Hu as [He Hne].
  split; [done|]. eapply handles_registry; [done|..]; intros j; simpl.
  - intros Hop [p Hs]. assert (j ≠ i).
    { intros ->. rewrite (shape_node _ _ _ Hi Ho) in Hs. simplify_eq. rewrite Hclosed in Hop; done. }
    rewrite list_lookup_insert_ne by done. simpl in Hne. rewrite Hne by done. eauto.
  - intros Hj. destruct (decide (j = i)) as [->|Hn]; [simpl in He; congruence|].
    rewrite list_lookup_insert_ne by done. simpl in Hne. rewrite Hne in Hj by done. auto.
Qed.

Lemma node_ok_free n : occupied n = false → path n = [] → data n = [] → backing n = None → size n = 0 → node_ok n.
Proof.
  intros Ho Hp Hd Hb Hs. unfold node_ok. rewrite Hp, Hd, Hb, Hs. unfold NODE_CAPACITY, PATH_CAPACITY. simpl. split_and!; try done; lia.
Qed.

Lemma inv_remove_named c p w i n :
  inv w → find_path p (registry w) = Some i → nodes (registry w) !! i = Some n →
  (kind n = File → is_open i (open_files w) = false) →
  inv (match registry_remove nfc c p (registry w) with
       | Ok r => (mark_if (under_mnt p) (with_registry r w), @Done (result () Error) (nat * Z) (Ok tt))
       | Err e => (w, Done (Err e))
       end).1.
Proof.
  intros Hi Hf Hn Hclosed. unfold registry_remove. destruct (removable_index nfc c p (registry w)) as [i'|] eqn:Er; [|done]. cbn [rbind].
  destruct (removable_spec _ _ _ _ (iv_tree _ Hi) Er) as (n' & Hn' & Ho & Hp & Hat & Hroot & Hleaf).
  destruct (checked_add64 (generation_of (registry w) i') 1) as [g|] eqn:Eg; [|done]. cbn [ok_or rbind fst]. apply inv_mark.
  destruct (find_path_Some _ _ _ Hf) as (n0 & Hn0 & Ho0 & Hp0 & _). assert (n0 = n) as -> by congruence.
  assert (i' = i) as ->.
  { eapply (sh_unique _ (t_shape _ (iv_tree _ Hi)) i' i p).
    - rewrite <- Hp. by apply shape_node.
    - rewrite <- Hp0. by apply shape_node.
    - intros ->. unfold removable_index in Er. done. }
  assert (n' = n) as -> by congruence. rewrite <- Hp in Hroot, Hleaf.
  refine (inv_vacate w i n (vacated (node_at (set_generation i g (registry w)) i)) g Hi Hn Ho Hroot _ eq_refl eq_refl _ Hclosed Hleaf);
    [by apply node_ok_free|].
  by eapply next_generation; [apply Hi|..].
Qed.

Lemma remove_section_inv c p w : inv w → inv (remove_section nfc c p w).1.
Proof.
  intros Hi. unfold remove_section. destruct (find_path p (registry w)) as [i|] eqn:Ef; [|done].
  destruct (find_path_live _ _ _ Hi Ef) as (n & Hn & Hat & Ho & Hp & Hok). unfold open_file_node. rewrite Hat.
  destruct (decide (kind n = File)) as [Hk|Hk].
  - rewrite (bool_decide_eq_true_2 (kind n = File)) by done. simpl. destruct (is_open i (open_files w)) eqn:Eop; simpl.
    + case_bool_decide as Hb; [done|]. simpl. destruct Hi as [Ht Hh].
      assert (Hnb : backing n = None) by (destruct (backing n); [destruct Hb; eauto|done]).
      assert (Hroot : path n ≠ root_path).
      { intros He. destruct (sh_root _ (t_shape _ Ht)) as [j Hj]. pose proof (shape_node _ _ _ Hn Ho) as Hs. rewrite He, Hk in Hs.
        rewrite (sh_unique _ (t_shape _ Ht) _ _ _ _ _ Hj Hs) in Hj by done. congruence. }
      destruct (tree_drop (registry w) i n (unlinked n) (generations (registry w)) Ht Hn Ho Hroot) as [Ht' Hu]; try done.
      { unfold node_ok, unlinked. simpl. destruct Hok as (? & ? & ? & ?). unfold PATH_CAPACITY. split_and!; simpl; try done; [lia..|congruence]. }
      { apply Ht. } { apply Ht. } { congruence. }
      simpl in Hu. rewrite Ho in Hu. destruct Hu as [He Hne]. split; [done|]. simpl. eapply handles_registry; [done|..]; intros j.
      * intros _ [q Hq]. destruct (decide (j = i)) as [->|Hj]; [by eauto|]. rewrite Hne by done. eauto.
      * intros Hj. destruct (decide (j = i)) as [->|Hjn]; [by left|]. rewrite Hne in Hj by done. auto.
    + apply (inv_remove_named c p w i n); auto.
  - rewrite (bool_decide_eq_false_2 (kind n = File)) by done. simpl. apply (inv_remove_named c p w i n); auto. by intros ?.
Qed.

End Normalised.

End VfsSections.
