(* ===== verification/VfsMachine.v ===== *)
(** * Sections on open files, and any interleaving of all of them *)
From stdpp Require Import relations.
From S2P Require Import Prelude Block DeviceIo Bytes Fat32Names Vfs VfsInv VfsOps VfsWorld.
Import Io Names FileFrames Vfs VfsPaths VfsInv VfsOps VfsWorld VfsSections.

Module VfsFiles.

#[local] Hint Resolve inv_mark inv_frames : core.

(** ** Descriptions *)
Lemma file_get_mut_live id w e :
  inv w → get_mut id (open_files w) = Ok e →
  ∃ n, entries (open_files w) !! slot id = Some e ∧ o_occupied e = true ∧ nodes (registry w) !! o_node e = Some n ∧
    occupied n = true ∧ kind n = File ∧ node_at (registry w) (o_node e) = n ∧ generation_of (registry w) (o_node e) = o_generation e ∧
    node_ok n ∧ 0 < refcount e ≤ u32_max ∧ 0 ≤ o_offset e ≤ NODE_CAPACITY.
Proof.
  intros Hi (Hs & Ho & _ & _)%get_mut_ok. destruct (open_node _ _ _ _ (iv_handles _ Hi) Hs Ho) as (n & Hn & Hon & Hk & Hat & Hg).
  destruct (h_live _ _ (iv_handles _ Hi) _ _ Hs Ho) as (Hr & _ & Hoff & _). exists n. split_and!; try done; try lia.
  by eapply t_node, Hn; apply iv_tree.
Qed.

Lemma zip_position t i :
  position (λ p : OpenFileDescription * Z, negb (o_occupied p.1) && (p.2 <? u64_max)) (zip (entries t) (slot_generations t)) = Some i →
  ∃ e g, entries t !! i = Some e ∧ slot_generations t !! i = Some g ∧ o_occupied e = false ∧ g < u64_max.
Proof.
  intros ([e g] & Hz & Hp)%position_lookup. apply lookup_zip_with_Some in Hz as (e' & g' & He & Hl & Hg). simplify_eq.
  apply andb_true_iff in Hp as [Hf%negb_true_iff Hm%Z.ltb_lt]. eauto 10.
Qed.

Lemma handles_alloc r t node generation id t' p :
  handles r t → alloc node generation t = Ok (id, t') → shape r node = Some (p, File) → generations r !! node = Some generation →
  handles r t' ∧ ∃ e g, entries t !! slot id = Some e ∧ o_occupied e = false ∧ slot_generations t !! slot id = Some g ∧
    epoch id = g + 1 ∧ entries t' = <[slot id := mkOpen node generation (epoch id) 0 1 true]> (entries t) ∧
    slot_generations t' = <[slot id := epoch id]> (slot_generations t).
Proof.
  intros Hh. unfold alloc. destruct (position _ _) as [i|] eqn:Ep; [|done]. cbn [ok_or rbind].
  destruct (zip_position _ _ Ep) as (e & g & He & Hg & Hf & Hm). rewrite Hg. simpl. pose proof (h_slot _ _ Hh _ _ Hg) as Hu.
  unfold checked_add64. destruct (Z.leb_spec (g + 1) u64_max); [|lia]. cbn [ok_or rbind]. intros ? Hs Hgen; simplify_eq. simpl.
  split; [|eauto 10]. destruct Hh as [H1 H2 H3 H4 H5]. unfold in_u64 in *. split; simpl; [by rewrite length_insert..| | |].
  - intros s x [[-> [<- _]]|[_ Hx]]%list_lookup_insert_Some; [unfold in_u64; lia|by eapply H3].
  - intros s x Hx Hox. apply list_lookup_insert_Some in Hx as [[-> [<- _]]|[Hne Hx]].
    + simpl. rewrite list_lookup_insert_eq by eauto using lookup_lt_Some. unfold u32_max, NODE_CAPACITY. split_and!; eauto; lia.
    + rewrite list_lookup_insert_ne by done. eauto.
  - intros j Hj. destruct (H5 j Hj) as [Hop|]; [|by right]. left. apply is_open_true in Hop as (s & x & Hx & Hox & <-).
    apply is_open_true. exists s, x. simpl. rewrite list_lookup_insert_ne; [done|]. intros ->. congruence.
Qed.

Lemma handles_drop r t s e :
  handles r t → entries t !! s = Some e → o_occupied e = true →
  (shape r (o_node e) = Some ([], File) → is_open (o_node e) (set_entry s description_empty t) = true ∨ generations r !! o_node e = Some u64_max) →
  handles r (set_entry s description_empty t).
Proof.
  intros [H1 H2 H3 H4 H5] Hs Ho Hlast. split; simpl; try done; [by rewrite length_insert|..].
  - intros s' x [[-> [<- _]]|[_ Hx]]%list_lookup_insert_Some Hox; [done|eauto].
  - intros j Hj. destruct (decide (j = o_node e)) as [->|Hne]; [auto|]. destruct (H5 j Hj) as [Hop|]; [|by right]. left.
    apply is_open_true in Hop as (s' & x & Hx & Hox & <-). apply is_open_true. exists s', x. simpl.
    rewrite list_lookup_insert_ne; [done|]. intros ->. congruence.
Qed.

Lemma offset_inv id e o w :
  inv w → get_mut id (open_files w) = Ok e → 0 ≤ o ≤ NODE_CAPACITY →
  inv (with_open_files (set_entry (slot id) (set_offset o e) (open_files w)) w).
Proof.
  intros Hi Eg Hoff. destruct (file_get_mut_live _ _ _ Hi Eg) as (n & Hs & Ho & _ & _ & _ & _ & _ & _ & Hr & _).
  apply inv_open_files; [done|]. eapply handles_entry; eauto. apply Hi.
Qed.

Lemma seek_inv id o w : 0 ≤ o → inv w → inv (seek id o w).1.
Proof.
  intros Hoff Hi. unfold seek, on_ok. destruct (get_mut id (open_files w)) as [e|] eqn:Eg; [|done].
  destruct (file_get_mut_live _ _ _ Hi Eg) as (n & _ & _ & Hn & Ho & _ & _ & _ & (Hsz & _) & _). rewrite Hn, Ho. cbn [fst].
  by apply offset_inv; [..|lia].
Qed.

Lemma advance_inv id pos o e w : inv w → get_mut id (open_files w) = Ok e → 0 ≤ o ≤ NODE_CAPACITY → inv (advance id pos o e w).
Proof. intros Hi Eg Hoff. unfold advance. destruct pos; [done|]. by apply offset_inv. Qed.

(** ** Contents *)
Lemma materialize_finish_inv i g im read w : inv w → inv (materialize_finish i g im read w).1.
Proof.
  intros Hi. unfold materialize_finish. destruct (occupied (node_at (registry w) i)) eqn:Ho; [|done]. cbn [negb orb].
  destruct (negb (generation_of _ _ =? g)); [done|]. destruct (_ || _ || _) eqn:Es; [done|]. destruct read as [bytes|]; [|done].
  destruct (Z.eqb_spec (Z.of_nat (length bytes)) (i_length im)) as [Hl|]; [|done]. cbn [negb fst].
  rewrite !orb_false_iff, !negb_false_iff in Es. destruct Es as [[_ Hsz%Z.eqb_eq] _]. unfold node_at in *.
  destruct (nodes (registry w) !! i) as [n|] eqn:Hn; [|done]. simpl in *. pose proof (t_node _ (iv_tree _ Hi) _ _ Hn) as Hok.
  eapply inv_update; eauto. eapply (node_ok_update n); simpl; auto. rewrite length_poke by lia. destruct Hok as (Hs & _). lia.
Qed.

Definition position_ok (position : option Z) : Prop := match position with Some o => 0 ≤ o | None => True end.
Definition image_ok (s : ReadImage) : Prop := 0 ≤ rd_offset s ∧ 0 ≤ rd_count s ∧ rd_offset s + rd_count s ≤ rd_length s ≤ NODE_CAPACITY.

Lemma read_begin_inv c id position len generation w :
  inv w → position_ok position → 0 ≤ len →
  inv (read_begin c id position len generation w).1 ∧
  ∀ s, (read_begin c id position len generation w).2 = Pending s → image_ok s.
Proof.
  intros Hi Hpos Hlen. unfold read_begin. destruct (get_mut id (open_files w)) as [e|] eqn:Eg; [|by split].
  destruct (file_get_mut_live _ _ _ Hi Eg) as (n & _ & _ & Hn & Ho & _ & _ & Hgen & (Hsz & _) & _ & Hoff). rewrite Hn, Ho.
  destruct (_ || _); [by split|]. cbn [negb]. destruct (negb (access_allowed c n false)); [by split|].
  destruct (Z.ltb_spec (size n) (default (o_offset e) position)) as [|Hle]; [by split|].
  assert (0 ≤ default (o_offset e) position) by (destruct position; simpl in *; lia).
  destruct (backing n) as [b|].
  - destruct (Z.eqb_spec (Z.min (size n - default (o_offset e) position) len) 0); cbn [fst snd].
    + split; [|done]. apply advance_inv; [done..|lia].
    + split; [done|]. intros s ?; simplify_eq. unfold image_ok; simpl. lia.
  - cbn [fst snd]. split; [|done]. apply advance_inv; [done..|lia].
Qed.

Lemma read_finish_inv c id position s read w : inv w → image_ok s → inv (read_finish c id position s read w).1.
Proof.
  intros Hi (H1 & H2 & H3). unfold read_finish. destruct (get_mut id (open_files w)) as [e|] eqn:Eg; [|done].
  destruct (_ || _); [done|]. destruct (_ || _); [done|]. destruct (negb (access_allowed _ _ _)); [done|]. destruct (_ || _); [done|].
  destruct read as [bytes|]; [|done]. destruct (negb _); [done|]. cbn [fst]. by apply advance_inv; [..|lia].
Qed.

Lemma write_finish_inv c id position ig buffer w : inv w → position_ok position → inv (write_finish c id position ig buffer w).1.
Proof.
  intros Hi Hpos. unfold write_finish. destruct (get_mut id (open_files w)) as [e|] eqn:Eg; [|done]. destruct ig as [i g].
  destruct (file_get_mut_live _ _ _ Hi Eg) as (n & _ & _ & Hn & Ho & _ & _ & _ & Hok & _ & Hoff).
  destruct (Nat.eqb_spec (o_node e) i) as [<-|]; [|done]. cbn [negb orb]. destruct (negb _); [done|]. destruct (negb _); [done|].
  rewrite Hn, Ho. cbn [negb]. destruct (_ || _); [done|]. destruct (bool_decide (is_Some (backing n))); [done|].
  destruct (Z.ltb_spec (size n) (default (o_offset e) position)) as [|Hle]; [done|]. cbn [fst].
  set (off := default (o_offset e) position) in *. assert (0 ≤ off) by (subst off; destruct position; simpl in *; lia).
  destruct Hok as (Hsz & Hok'). set (cnt := Z.min (Z.of_nat (length buffer)) (NODE_CAPACITY - off)).
  apply advance_inv; [|done|lia]. apply inv_frames, inv_bump. eapply inv_update; eauto.
  eapply (node_ok_update n); simpl; auto; [by split|]. rewrite length_poke, length_take by done. lia.
Qed.

Lemma prepare_shared_finish_inv id ig w : inv w → inv (prepare_shared_finish id ig w).1.
Proof.
  intros Hi. unfold prepare_shared_finish. destruct (get_mut id (open_files w)) as [e|] eqn:Eg; [|done]. destruct ig as [i g].
  destruct (file_get_mut_live _ _ _ Hi Eg) as (n & _ & _ & Hn & Ho & _ & Hat & _ & Hok & _).
  destruct (Nat.eqb_spec (o_node e) i) as [<-|]; [|done]. cbn [negb orb]. destruct (negb _); [done|]. rewrite Hat, Ho. cbn [negb orb].
  destruct (negb _); [done|]. destruct (bool_decide (is_Some (backing n))); [done|]. cbn [fst]. by eapply inv_update.
Qed.

Lemma write_mapping_inv c id off bytes w : 0 ≤ off → inv w → inv (write_mapping_at c id off bytes w).1.
Proof.
  intros Hoff Hi. unfold write_mapping_at, on_ok. destruct (get_mut id (open_files w)) as [e|] eqn:Eg; [|done].
  destruct (file_get_mut_live _ _ _ Hi Eg) as (n & _ & _ & Hn & Ho & _ & Hat & _ & Hok & _). rewrite Hat, Ho. cbn [negb orb].
  destruct (_ || _); [done|]. destruct (Z.ltb_spec (size n) (off + Z.of_nat (length bytes))) as [|Hle]; [done|]. cbn [fst].
  apply inv_frames, inv_bump. eapply inv_update; eauto. pose proof Hok as (Hsz & _).
  eapply (node_ok_update n); simpl; auto. rewrite length_poke by done. lia.
Qed.

Section Normalised.
Context (nfc : list Z → list (list Z)).

Lemma file_open_inv p w : inv w → inv (open nfc p w).1.
Proof.
  intros Hi. unfold open, on_ok. destruct (validate_absolute_path nfc p); [|done]. destruct (position _ _) as [i|] eqn:Ep; [|done]. cbn [ok_or].
  destruct (alloc _ _ _) as [[id t']|] eqn:Ea; [|done]. cbn [fst snd]. apply inv_open_files; [done|].
  destruct (position_lookup _ _ _ Ep) as (n & Hn & Hm). rewrite andb_true_iff, matches_true, bool_decide_eq_true in Hm.
  destruct Hm as [[Ho Hp] Hk]. eapply handles_alloc; [apply Hi|done| |].
  - rewrite <- Hk. by apply shape_node.
  - by eapply generation_lookup; [apply Hi|].
Qed.

Lemma clone_inv id w : inv w → inv (clone_open_file id w).1.
Proof.
  intros Hi. unfold clone_open_file, clone_id, on_ok. destruct (get_mut id (open_files w)) as [e|] eqn:Eg; [|done]. cbn [rbind].
  destruct (Z.leb_spec (refcount e + 1) u32_max); [|done]. cbn [fst snd]. apply inv_open_files; [done|].
  destruct (file_get_mut_live _ _ _ Hi Eg) as (n & Hs & Ho & _ & _ & _ & _ & _ & _ & Hr & Hoff).
  eapply handles_entry; eauto; try apply Hi; simpl; lia.
Qed.

Lemma retire_inv i w :
  tree (registry w) → (∀ r', (∀ j, j ≠ i → shape r' j = shape (registry w) j) → shape r' i = None →
     (∀ j, j ≠ i → generations r' !! j = generations (registry w) !! j) → handles r' (open_files w)) →
  ((shape (registry w) i = Some ([], File) → generations (registry w) !! i = Some u64_max) → handles (registry w) (open_files w)) →
  inv (retire i w).1.
Proof.
  intros Ht Hgone Hstay. unfold retire.
  destruct (occupied (node_at (registry w) i) && bool_decide (path (node_at (registry w) i) = [])) eqn:Eu.
  - apply andb_true_iff in Eu as [Ho Hp%bool_decide_eq_true]. unfold node_at in *.
    destruct (nodes (registry w) !! i) as [n|] eqn:Hn; [|done]. simpl in *.
    assert (Hk : kind n = File) by (eapply (sh_unnamed _ (t_shape _ Ht) i); rewrite <- Hp; by apply shape_node).
    destruct (checked_add64 (generation_of (registry w) i) 1) as [g|] eqn:Eg.
    + cbn [fst]. pose proof (next_generation _ _ _ _ Ht Hn Eg) as Hg.
      destruct (tree_drop (registry w) i n (mkNode (path n) [] None 0 (writable n) (uid n) (gid n) (mode n) (kind n) false)
        (<[i := g]> (generations (registry w))) Ht Hn Ho) as [Ht' [He Hne]]; try done.
      { by rewrite Hp. } { by apply node_ok_free. } { rewrite length_insert. apply Ht. } { apply in_u64_insert; [apply Ht|done]. }
      { congruence. }
      split; [done|]. apply Hgone; [done..|]. intros j Hj. simpl. by rewrite list_lookup_insert_ne.
    + cbn [fst]. split; [done|]. apply Hstay. intros _. rewrite (generation_lookup _ _ _ Ht Hn). f_equal.
      pose proof (t_generation _ Ht _ _ (generation_lookup _ _ _ Ht Hn)). unfold checked_add64, in_u64 in *.
      destruct (Z.leb_spec (generation_of (registry w) i + 1) u64_max); [done|lia].
  - cbn [fst]. split; [done|]. apply Hstay. intros (n & Hn & Ho & Hp & _)%shape_Some. exfalso.
    rewrite (node_at_lookup _ _ _ Hn), Ho, Hp in Eu. done.
Qed.

Lemma file_close_inv id w : inv w → inv (close_open_file id w).1.
Proof.
  intros Hi. unfold close_open_file, on_ok. destruct (get_mut id (open_files w)) as [e|] eqn:Eg; [|done].
  destruct (file_get_mut_live _ _ _ Hi Eg) as (n & Hs & Ho & Hn & Hon & Hk & _ & _ & _ & Hr & Hoff). unfold drop_id. rewrite Hs.
  apply get_mut_ok in Eg as (_ & _ & _ & Hep). rewrite Ho, Hep, Z.eqb_refl. simpl.
  destruct (Z.eqb_spec (refcount e) 0); [lia|]. destruct (Z.eqb_spec (refcount e - 1) 0) as [H1|H1].
  - set (t := set_entry (slot id) description_empty (open_files w)). destruct (is_open (o_node e) t) eqn:Eop; simpl.
    + apply inv_open_files; [done|]. eapply handles_drop; eauto. apply Hi.
    + apply retire_inv; [apply Hi|simpl..].
      * intros r' Hne Hnone Hg. assert (Hall : ∀ s x, entries t !! s = Some x → o_occupied x = true → o_node x ≠ o_node e).
        { intros s x Hx Hox Heq. assert (is_open (o_node e) t = true) by (apply is_open_true; eauto). congruence. }
        destruct (iv_handles _ Hi) as [H2 H3 H4 H5 H6]. split; simpl; try done; [by rewrite length_insert|..].
        { intros s x Hx Hox. pose proof (Hall s x Hx Hox) as Hne'. apply list_lookup_insert_Some in Hx as [[_ [<- _]]|[_ Hx]]; [done|].
          destruct (H5 s x Hx Hox) as (? & ? & ? & ? & ?). rewrite Hne, Hg by done. done. }
        { intros j Hj. assert (Hji : j ≠ o_node e) by congruence. rewrite Hne in Hj by done. rewrite Hg by done.
          destruct (H6 j Hj) as [Hop|]; [|by right]. left. apply is_open_true in Hop as (s & x & Hx & Hox & <-).
          apply is_open_true. exists s, x. simpl. rewrite list_lookup_insert_ne; [done|]. intros <-. congruence. }
      * intros Hlast. eapply handles_drop; eauto. apply Hi.
  - assert (Hh : handles (registry w) (set_entry (slot id) (set_refcount (refcount e - 1) e) (open_files w))).
    { eapply handles_entry; eauto; try apply Hi; simpl; lia. }
    assert (is_open (o_node e) (set_entry (slot id) (set_refcount (refcount e - 1) e) (open_files w)) = true) as ->.
    { apply is_open_true. exists (slot id), (set_refcount (refcount e - 1) e). simpl.
      by rewrite list_lookup_insert_eq by eauto using lookup_lt_Some. }
    simpl. by apply inv_open_files.
Qed.

End Normalised.

End VfsFiles.

(** * Any interleaving of file-system calls

    Threads run the programs of VfsOps; between two of their critical sections and disk
    reads every other thread may run. The invariant holds throughout, and a descriptor
    denotes one file for its whole life and nothing afterwards. *)
Import Io Names FileFrames Vfs VfsPaths VfsInv VfsOps VfsWorld VfsSections VfsFiles.

Module VfsMachine.

(** ** Descriptors over time *)
Definition slot_generation (s : nat) (t : OpenFileTable) : Z := default 0 (slot_generations t !! s).

(** Slots are only ever reused with a higher epoch. *)
Definition table_ext (t t' : OpenFileTable) : Prop := ∀ s,
  slot_generation s t ≤ slot_generation s t' ∧
  ∀ e', entries t' !! s = Some e' → o_occupied e' = true → slot_generation s t' = slot_generation s t →
    ∃ e, entries t !! s = Some e ∧ o_occupied e = true ∧ o_node e = o_node e' ∧ o_generation e = o_generation e' ∧ o_epoch e = o_epoch e'.

Lemma table_ext_refl t : table_ext t t.
Proof. intros s. split; [done|]. eauto 10. Qed.

Lemma table_ext_trans t1 t2 t3 : table_ext t1 t2 → table_ext t2 t3 → table_ext t1 t3.
Proof.
  intros H1 H2 s. destruct (H1 s) as [Hg1 He1], (H2 s) as [Hg2 He2]. split; [lia|]. intros e3 H3 Ho3 Hg.
  destruct (He2 e3 H3 Ho3 ltac:(lia)) as (e2 & Hx2 & Ho2 & Hn2 & Hgn2 & Hep2).
  destruct (He1 e2 Hx2 Ho2 ltac:(lia)) as (e1 & Hx1 & Ho1 & Hn1 & Hgn1 & Hep1). exists e1. split_and!; congruence.
Qed.

Lemma table_ext_entry t s e e' :
  entries t !! s = Some e → o_occupied e = true → (o_occupied e' = true → o_node e' = o_node e ∧ o_generation e' = o_generation e ∧ o_epoch e' = o_epoch e) →
  table_ext t (set_entry s e' t).
Proof.
  intros Hs Ho He s'. split; [done|]. simpl. intros x [[-> [-> _]]|[Hne Hx]]%list_lookup_insert_Some Hox _; [|eauto 10].
  destruct (He Hox) as (? & ? & ?). exists e. split_and!; congruence.
Qed.

(** ** Sections do not touch the table, or extend it *)
Definition extends (w w' : World) : Prop := inv w' ∧ table_ext (open_files w) (open_files w').

Lemma extends_same w w' : inv w' → open_files w' = open_files w → extends w w'.
Proof. intros Hi He. split; [done|]. rewrite He. apply table_ext_refl. Qed.

Lemma same_marking {A} b w (x : World * result A Error) : open_files x.1 = open_files w → open_files (marking b x).1 = open_files w.
Proof. destruct x as [w' []]; simpl; [|done]. intros <-. unfold mark_if, mark_mnt_dirty. by destruct b, (mnt_mounted w'). Qed.

Lemma extends_offset id e o w :
  inv w → get_mut id (open_files w) = Ok e → 0 ≤ o ≤ NODE_CAPACITY →
  extends w (with_open_files (set_entry (slot id) (set_offset o e) (open_files w)) w).
Proof.
  intros Hi Hg Ho. split; [by apply offset_inv|]. apply get_mut_ok in Hg as (Hs & Hoc & _). by eapply table_ext_entry.
Qed.

Lemma advance_table id pos o e w : open_files (advance id pos o e w) = open_files w ∨
  open_files (advance id pos o e w) = set_entry (slot id) (set_offset o e) (open_files w).
Proof. unfold advance. destruct pos; auto. Qed.

Lemma extends_advance id pos o e w w' :
  inv (advance id pos o e w') → open_files w' = open_files w → get_mut id (open_files w) = Ok e → extends w (advance id pos o e w').
Proof.
  intros Hi Ho Hg. split; [done|]. apply get_mut_ok in Hg as (Hs & Hoc & _).
  destruct (advance_table id pos o e w') as [-> | ->]; rewrite Ho; [apply table_ext_refl|]. by eapply table_ext_entry.
Qed.

Lemma extends_open nfc p w : inv w → extends w (open nfc p w).1.
Proof.
  intros Hi. split; [by apply file_open_inv|]. unfold open, on_ok. destruct (validate_absolute_path nfc p); [|apply table_ext_refl].
  destruct (position _ _) as [i|] eqn:Ep; [|apply table_ext_refl]. cbn [ok_or].
  destruct (alloc _ _ _) as [[id t']|] eqn:Ea; [|apply table_ext_refl]. simpl.
  destruct (position_lookup _ _ _ Ep) as (n & Hn & Hm). rewrite andb_true_iff, matches_true, bool_decide_eq_true in Hm.
  destruct Hm as [[Ho Hp] Hk].
  destruct (handles_alloc _ _ _ _ _ _ (path n) (iv_handles _ Hi) Ea) as (_ & e & g & He & Hf & Hg & Hep & Hen & Hsg).
  { rewrite <- Hk. by apply shape_node. } { by eapply generation_lookup; [apply Hi|]. }
  intros s. unfold slot_generation. rewrite Hen, Hsg. destruct (decide (s = slot id)) as [->|Hne].
  - rewrite list_lookup_insert_eq by eauto using lookup_lt_Some. rewrite Hg. simpl. split; [lia|]. intros; lia.
  - rewrite !list_lookup_insert_ne by done. split; [done|]. eauto 10.
Qed.

Lemma extends_clone id w : inv w → extends w (clone_open_file id w).1.
Proof.
  intros Hi. split; [by apply clone_inv|]. unfold clone_open_file, clone_id, on_ok.
  destruct (get_mut id (open_files w)) as [e|] eqn:Eg; [|apply table_ext_refl]. cbn [rbind].
  destruct (_ <=? _); [|apply table_ext_refl]. simpl. apply get_mut_ok in Eg as (Hs & Ho & _). by eapply table_ext_entry.
Qed.

Lemma retire_table i w : open_files (retire i w).1 = open_files w.
Proof. unfold retire. destruct (_ && _); [|done]. by destruct (checked_add64 _ _). Qed.

Lemma extends_close id w : inv w → extends w (close_open_file id w).1.
Proof.
  intros Hi. split; [by apply file_close_inv|]. unfold close_open_file, on_ok.
  destruct (get_mut id (open_files w)) as [e|] eqn:Eg; [|apply table_ext_refl]. apply get_mut_ok in Eg as (Hs & Ho & _).
  destruct (drop_id id (open_files w)) as [t|] eqn:Ed; [|apply table_ext_refl].
  assert (Ht : table_ext (open_files w) t).
  { unfold drop_id in Ed. rewrite Hs in Ed. destruct (_ && _); [|done]. destruct (refcount e =? 0); [done|].
    destruct (refcount e - 1 =? 0); simplify_eq; eapply table_ext_entry; eauto; done. }
  destruct (negb _); [by rewrite retire_table|done].
Qed.

(** ** Programs *)
Fixpoint preserves {A} (m : prog A) : Prop :=
  match m with
  | Ret _ => True
  | Lock f k => ∀ w, inv w → extends w (f w) ∧ preserves (k w)
  | Disk _ _ _ k => ∀ r, preserves (k r)
  | Persist _ k => ∀ b, preserves (k b)
  end.

Lemma preserves_bind {A B} (m : prog A) (f : A → prog B) : preserves m → (∀ a, preserves (f a)) → preserves (m ≫= f).
Proof.
  intros Hm Hf. change (m ≫= f) with (pbind f m). induction m as [a|s k IH|p o n k IH|p k IH]; simpl in *; [done|..].
  - intros w Hi. destruct (Hm w Hi). eauto.
  - eauto.
  - eauto.
Qed.

(** A section whose result matters to what follows. *)
Lemma preserves_then {A B} (m : World → World * A) (f : A → prog B) :
  (∀ w, inv w → extends w (m w).1 ∧ preserves (f (m w).2)) → preserves (atomically m ≫= f).
Proof. intros H w Hi. apply H. done. Qed.

Lemma preserves_section {A} (m : World → World * A) : (∀ w, inv w → extends w (m w).1) → preserves (atomically m).
Proof. intros H w Hi. split; [by apply H|done]. Qed.

Lemma extends_refl w : inv w → extends w w.
Proof. intros Hi. by apply extends_same. Qed.

Lemma materialize_finish_table i g im read w : open_files (materialize_finish i g im read w).1 = open_files w.
Proof.
  unfold materialize_finish. destruct (_ || _); [done|]. destruct (_ || _); [done|]. destruct read; [|done]. by destruct (negb _).
Qed.

Lemma materialize_preserves fuel i g : preserves (materialize_loop fuel i g).
Proof.
  induction fuel as [|fuel IH]; [exact I|]. apply preserves_then. intros w Hi. split.
  - unfold materialize_begin. destruct (nodes _ !! i); [|by apply extends_refl]. destruct (_ || _); [by apply extends_refl|].
    destruct (backing _); by apply extends_refl.
  - destruct (materialize_begin i g w).2 as [r|im]; [exact I|]. intros r. apply preserves_then. intros w' Hi'. split.
    + apply extends_same; [by apply materialize_finish_inv|apply materialize_finish_table].
    + by destruct (materialize_finish i g im r w').2.
Qed.

Lemma read_preserves fuel c id position len generation :
  position_ok position → 0 ≤ len → preserves (read_loop fuel c id position len generation).
Proof.
  intros Hp Hl. induction fuel as [|fuel IH]; [exact I|]. apply preserves_then. intros w Hi.
  destruct (read_begin_inv c id position len generation w Hi Hp Hl) as [Hb Him]. split.
  - split; [done|]. unfold read_begin. destruct (get_mut id (open_files w)) as [e|] eqn:Eg; [|apply table_ext_refl].
    apply get_mut_ok in Eg as (Hs & Ho & _). destruct (_ || _); [apply table_ext_refl|]. destruct (nodes _ !! _); [|apply table_ext_refl].
    destruct (negb _); [apply table_ext_refl|]. destruct (negb _); [apply table_ext_refl|]. destruct (_ <? _); [apply table_ext_refl|].
    destruct (backing _); [destruct (_ =? 0); [|apply table_ext_refl]|]; simpl;
      (unfold advance; destruct position; [apply table_ext_refl|by eapply table_ext_entry]).
  - destruct (read_begin c id position len generation w).2 as [r|s] eqn:Es; [exact I|]. intros r. apply preserves_then. intros w' Hi'. split.
    + split; [by apply read_finish_inv; auto|]. unfold read_finish. destruct (get_mut id (open_files w')) as [e|] eqn:Eg; [|apply table_ext_refl].
      apply get_mut_ok in Eg as (Hs' & Ho' & _). destruct (_ || _); [apply table_ext_refl|]. destruct (_ || _); [apply table_ext_refl|].
      destruct (negb (access_allowed _ _ _)); [apply table_ext_refl|]. destruct (_ || _); [apply table_ext_refl|].
      destruct r; [|apply table_ext_refl]. destruct (negb _); [apply table_ext_refl|]. simpl.
      unfold advance; destruct position; [apply table_ext_refl|by eapply table_ext_entry].
    + by destruct (read_finish c id position s r w').2.
Qed.

Lemma write_preserves fuel c id position buffer : position_ok position → preserves (write_loop fuel c id position buffer).
Proof.
  intros Hp. induction fuel as [|fuel IH]; [exact I|]. apply preserves_then. intros w Hi. split; [by apply extends_refl|].
  destruct (write_begin c id w).2 as [ig|]; [|exact I]. apply preserves_bind; [apply materialize_preserves|]. intros [|]; [|exact I].
  apply preserves_then. intros w' Hi'. split; [|by destruct (write_finish c id position ig buffer w').2].
  split; [by apply write_finish_inv|]. unfold write_finish. destruct (get_mut id (open_files w')) as [e|] eqn:Eg; [|apply table_ext_refl].
  apply get_mut_ok in Eg as (Hs & Ho & _). destruct ig as [i g]. destruct (_ || _); [apply table_ext_refl|].
  destruct (negb _); [apply table_ext_refl|]. destruct (nodes _ !! _); [|apply table_ext_refl]. destruct (negb _); [apply table_ext_refl|].
  destruct (_ || _); [apply table_ext_refl|]. destruct (bool_decide _); [apply table_ext_refl|]. destruct (_ <? _); [apply table_ext_refl|].
  simpl. unfold advance; destruct position; simpl; [apply table_ext_refl|by eapply table_ext_entry].
Qed.

Lemma prepare_shared_preserves fuel c id : preserves (prepare_shared_loop fuel c id).
Proof.
  induction fuel as [|fuel IH]; [exact I|]. apply preserves_then. intros w Hi. split.
  - unfold prepare_shared_begin. destruct (current_node id w) as [[e n]|]; [|by apply extends_refl].
    destruct (_ && _); [by apply extends_refl|]. destruct (bool_decide _); by apply extends_refl.
  - destruct (prepare_shared_begin c id w).2 as [|ig]; [exact I|]. apply preserves_bind; [apply materialize_preserves|].
    intros [|]; [|exact I]. apply preserves_then. intros w' Hi'. split; [|by destruct (prepare_shared_finish id ig w').2].
    apply extends_same; [by apply prepare_shared_finish_inv|]. unfold prepare_shared_finish.
    destruct (get_mut _ _); [|done]. destruct ig. destruct (_ || _); [done|]. destruct (_ || _); [done|]. by destruct (bool_decide _).
Qed.

Lemma prepare_remove_preserves nfc fuel c p : preserves (prepare_remove_loop nfc fuel c p).
Proof.
  induction fuel as [|fuel IH]; [exact I|]. apply preserves_then. intros w Hi. split.
  - unfold prepare_remove_section. destruct (removable_index _ _ _ _); [|by apply extends_refl]. destruct (_ || _); by apply extends_refl.
  - destruct (prepare_remove_section nfc c p w).2 as [|ig]; [exact I|]. apply preserves_bind; [apply materialize_preserves|].
    by intros [|].
Qed.

Lemma remove_section_table nfc c p w : open_files (remove_section nfc c p w).1 = open_files w.
Proof.
  unfold remove_section. destruct (find_path _ _); [|done]. destruct (_ && _); [done|]. destruct (open_file_node _ _); [done|].
  destruct (registry_remove _ _ _ _); [|done]. simpl. unfold mark_if, mark_mnt_dirty. simpl. by destruct (under_mnt p), (mnt_mounted w).
Qed.

Lemma remove_preserves nfc fuel c p : preserves (remove_loop nfc fuel c p).
Proof.
  induction fuel as [|fuel IH]; [exact I|]. apply preserves_then. intros w Hi. split.
  - apply extends_same; [by apply remove_section_inv|apply remove_section_table].
  - destruct (remove_section nfc c p w).2 as [|ig]; [exact I|]. apply preserves_bind; [apply materialize_preserves|]. by intros [|].
Qed.

(** ** Calls *)
Inductive call :=
  | CreateReadOnly (c : Credentials) (p d : list Z)
  | CreateDiskFile (c : Credentials) (p : list Z) (len : Z) (wr : bool)
  | SetMetadata (p : list Z) (u g m : Z)
  | WriteFile (c : Credentials) (p d : list Z)
  | PrepareRemove (c : Credentials) (p : list Z)
  | Remove (c : Credentials) (p : list Z)
  | Rename (c : Credentials) (old new : list Z)
  | Mkdir (c : Credentials) (p : list Z)
  | Open (p : list Z)
  | Clone (id : OpenFileId)
  | Close (id : OpenFileId)
  | Seek (id : OpenFileId) (offset : Z)
  | Read (c : Credentials) (id : OpenFileId) (position : option Z) (len : Z) (generation : option Z)
  | ReadAll (c : Credentials) (p : list Z) (len : Z)
  | Write (c : Credentials) (id : OpenFileId) (position : option Z) (buffer : list Z)
  | PrepareShared (c : Credentials) (id : OpenFileId)
  | WriteMapping (c : Credentials) (id : OpenFileId) (offset : Z) (bytes : list Z)
  | PersistMapping (id : OpenFileId).

(** Sizes and offsets are unsigned. *)
Definition call_typed (x : call) : Prop :=
  match x with
  | CreateDiskFile _ _ len _ => 0 ≤ len
  | Seek _ offset | WriteMapping _ _ offset _ => 0 ≤ offset
  | Read _ _ position len _ => position_ok position ∧ 0 ≤ len
  | ReadAll _ _ len => 0 ≤ len
  | Write _ _ position _ => position_ok position
  | _ => True
  end.

Definition silent {A} (m : prog A) : prog () := m ≫= λ _, mret tt.

Section Normalised.
Context (nfc : list Z → list (list Z)).

Definition program (x : call) : prog () :=
  match x with
  | CreateReadOnly c p d => silent (atomically (create_read_only nfc c p d))
  | CreateDiskFile c p len wr => silent (atomically (create_disk_file_with_writable nfc c p len wr))
  | SetMetadata p u g m => silent (atomically (set_metadata nfc p u g m))
  | WriteFile c p d => silent (atomically (write_file nfc c p d))
  | PrepareRemove c p => silent (prepare_remove nfc c p)
  | Remove c p => silent (remove nfc c p)
  | Rename c old new => silent (atomically (rename nfc c old new))
  | Mkdir c p => silent (atomically (mkdir nfc c p))
  | Open p => silent (atomically (open nfc p))
  | Clone id => silent (atomically (clone_open_file id))
  | Close id => silent (atomically (close_open_file id))
  | Seek id offset => silent (atomically (seek id offset))
  | Read c id position len generation => silent (read_from c id position len generation)
  | ReadAll c p len => silent (read_all nfc c p len)
  | Write c id position buffer => silent (write_loop ATTEMPTS c id position buffer)
  | PrepareShared c id => silent (prepare_shared_file c id)
  | WriteMapping c id offset bytes => silent (atomically (write_mapping_at c id offset bytes))
  | PersistMapping id => silent (persist_mapping id)
  end.

Lemma vfs_names_same {A B} (w : World) (m : result A Error) (k : A → World * result B Error) :
  (∀ a, open_files (k a).1 = open_files w) → open_files (on_ok w m k).1 = open_files w.
Proof. intros Hk. destruct m; [apply Hk|done]. Qed.

Lemma write_file_table c p d w : open_files (write_file nfc c p d w).1 = open_files w.
Proof.
  apply same_marking. unfold registry_write_file. apply vfs_names_same. intros _. destruct (_ <? _); [done|].
  destruct (find_path _ _); [|by apply vfs_names_same]. destruct (negb _); [done|]. by destruct (_ || _).
Qed.

Lemma create_disk_table c p len wr w : open_files (create_disk_file_with_writable nfc c p len wr w).1 = open_files w.
Proof. unfold create_disk_file_with_writable. destruct (_ <? _); [done|]. by apply vfs_names_same. Qed.

Lemma read_all_preserves c p len : 0 ≤ len → preserves (read_all nfc c p len).
Proof.
  intros Hl. apply preserves_then. intros w Hi. split; [by apply extends_open|]. destruct (open nfc p w).2 as [id|]; [|exact I].
  apply preserves_then. intros w' Hi'. split; [by apply extends_refl|]. cbn [snd].
  apply preserves_bind; [|intros r; apply preserves_then; intros w2 Hi2; split; [by apply extends_close|exact I]].
  destruct (file_size id w') as [n|] eqn:Es; [|exact I]. destruct (len <? n) eqn:El; [exact I|].
  apply read_preserves; [simpl; lia|]. unfold file_size in Es. destruct (get_mut id (open_files w')) as [e|] eqn:Eg; [|done]. cbn [rbind] in Es.
  destruct (file_get_mut_live _ _ _ Hi' Eg) as (m & _ & _ & Hm & Ho & Hk & _ & _ & (Hsz & _) & _). rewrite Hm, Ho, bool_decide_eq_true_2 in Es by done.
  simpl in Es. simplify_eq. lia.
Qed.

Lemma program_preserves x : call_typed x → preserves (program x).
Proof.
  intros Ht. destruct x; cbn [call_typed] in Ht; cbn [program]; unfold silent; (apply preserves_bind; [|intros; exact I]);
    try (apply preserves_section; intros w Hi).
  - apply extends_same; [by apply create_read_only_inv|]. by apply vfs_names_same.
  - apply extends_same; [by apply create_disk_file_inv|apply create_disk_table].
  - apply extends_same; [by apply set_metadata_inv|]. apply vfs_names_same. intros _. by apply vfs_names_same.
  - apply extends_same; [by apply write_file_inv|apply write_file_table].
  - unfold prepare_remove. destruct (validate_absolute_path nfc p); [apply prepare_remove_preserves|exact I].
  - unfold remove. destruct (validate_absolute_path nfc p); [apply remove_preserves|exact I].
  - apply extends_same; [by apply rename_inv|]. apply same_marking. by apply vfs_names_same.
  - apply extends_same; [by apply mkdir_inv|]. apply same_marking. by apply vfs_names_same.
  - by apply extends_open.
  - by apply extends_clone.
  - by apply extends_close.
  - split; [by apply seek_inv|]. unfold seek, on_ok. destruct (get_mut id (open_files w)) as [e|] eqn:Eg; [|apply table_ext_refl].
    apply get_mut_ok in Eg as (Hs & Ho & _). destruct (nodes _ !! _) as [n|]; [|apply table_ext_refl].
    destruct (occupied n); [|apply table_ext_refl]. simpl. by eapply table_ext_entry.
  - apply read_preserves; tauto.
  - by apply read_all_preserves.
  - by apply write_preserves.
  - apply prepare_shared_preserves.
  - apply extends_same; [by apply write_mapping_inv|]. unfold write_mapping_at. apply vfs_names_same. intros e. destruct (_ || _); [done|]. by destruct (_ <? _).
  - apply preserves_then. intros w Hi. split; [by apply extends_refl|]. cbn [snd]. destruct (rbind _ _); [|exact I]. destruct (under_mnt _); [by intros|exact I].
Qed.

(** ** Interleavings *)
Definition state : Type := World * list (prog ()).

Inductive step : state → state → Prop :=
  | step_call w ts x : call_typed x → step (w, ts) (w, program x :: ts)
  | step_lock w ts1 ts2 f k : step (w, ts1 ++ Lock f k :: ts2) (f w, ts1 ++ k w :: ts2)
  | step_disk w ts1 ts2 p offset count k r : step (w, ts1 ++ Disk p offset count k :: ts2) (w, ts1 ++ k r :: ts2)
  | step_persist w ts1 ts2 p k b : step (w, ts1 ++ Persist p k :: ts2) (w, ts1 ++ k b :: ts2)
  | step_frames w ts f : step (w, ts) (with_frames f w, ts)
  | step_mount w ts b d : step (w, ts) (mkWorld (registry w) (open_files w) (frames w) b d, ts).

Definition state_ok (s : state) : Prop := inv s.1 ∧ Forall preserves s.2.

Lemma step_ok s s' : step s s' → state_ok s → state_ok s' ∧ table_ext (open_files s.1) (open_files s'.1).
Proof.
  intros Hs [Hi Hf]. destruct Hs as [w ts x Ht|w ts1 ts2 f k|w ts1 ts2 p o n k r|w ts1 ts2 p k b|w ts f|w ts b d]; simpl in *.
  - split; [|apply table_ext_refl]. split; [done|]. constructor; [by apply program_preserves|done].
  - apply Forall_app in Hf as [H1 H2]. apply Forall_cons in H2 as [Hl H2]. destruct (Hl w Hi) as [[Hi' Ht] Hk].
    split; [|done]. split; [done|]. apply Forall_app. split; [done|]. by constructor.
  - apply Forall_app in Hf as [H1 H2]. apply Forall_cons in H2 as [Hl H2]. split; [|apply table_ext_refl]. split; [done|].
    apply Forall_app. split; [done|]. constructor; [apply Hl|done].
  - apply Forall_app in Hf as [H1 H2]. apply Forall_cons in H2 as [Hl H2]. split; [|apply table_ext_refl]. split; [done|].
    apply Forall_app. split; [done|]. constructor; [apply Hl|done].
  - split; [|apply table_ext_refl]. split; [by apply inv_frames|done].
  - split; [|apply table_ext_refl]. split; [|done]. by destruct Hi.
Qed.

Lemma steps_ok s s' : rtc step s s' → state_ok s → state_ok s' ∧ table_ext (open_files s.1) (open_files s'.1).
Proof.
  induction 1 as [s|s1 s2 s3 H12 _ IH]; intros Hok; [split; [done|apply table_ext_refl]|].
  destruct (step_ok _ _ H12 Hok) as [Hok2 Ht]. destruct (IH Hok2) as [Hok3 Ht']. split; [done|]. by eapply table_ext_trans.
Qed.

End Normalised.

End VfsMachine.
