(* ===== verification/VfsTheorems.v ===== *)
(** * Files as byte sequences

    Where its bytes are (in memory, still on disk, laid over by shared pages) makes no
    difference to a file's reader and writer. *)
From stdpp Require Import relations.
From S2P Require Import Prelude Block DeviceIo Bytes Fat32Names Vfs VfsInv VfsOps VfsWorld VfsMachine.
Import Io Bytes Names FileFrames Vfs VfsPaths VfsInv VfsOps VfsWorld VfsSections VfsFiles.

Module VfsContents.

(** ** Padded bytes *)
Lemma lookup_pad n d i :
  pad n d !! i = if decide (i < length d)%nat then d !! i else if decide (i < n)%nat then Some 0 else None.
Proof.
  unfold pad. case_decide as H1; [by rewrite lookup_app_l|]. rewrite lookup_app_r by lia. case_decide.
  - apply lookup_replicate. split; [done|lia].
  - apply lookup_ge_None. rewrite length_replicate. lia.
Qed.

Lemma length_pad n d : length (pad n d) = Nat.max n (length d).
Proof. unfold pad. rewrite length_app, length_replicate. lia. Qed.

Lemma lookup_splice off src dst i :
  (off ≤ length dst)%nat →
  splice off src dst !! i =
    if decide (i < off)%nat then dst !! i else if decide (i < off + length src)%nat then src !! (i - off)%nat else dst !! i.
Proof.
  intros Ho. unfold splice. case_decide as H1; [by rewrite lookup_app_l, lookup_take_lt by (rewrite ?length_take; lia)|].
  rewrite lookup_app_r by (rewrite length_take; lia). rewrite length_take, Nat.min_l by lia.
  case_decide; [by rewrite lookup_app_l by lia|]. rewrite lookup_app_r, lookup_drop by lia. f_equal. lia.
Qed.

Lemma take_pad k n m d : (k ≤ n)%nat → (k ≤ m)%nat → take k (pad n d) = take k (pad m d).
Proof.
  intros Hn Hm. apply list_eq. intros i. destruct (decide (i < k)%nat); [|by rewrite !lookup_take_ge by lia].
  rewrite !lookup_take_lt, !lookup_pad by lia. repeat case_decide; try done; lia.
Qed.

Lemma pad_poke off bs d sz :
  (length d ≤ sz)%nat → (off ≤ sz)%nat →
  pad (Nat.max sz (off + length bs)) (splice off bs (pad (off + length bs) d)) = splice off bs (pad sz d).
Proof.
  intros Hd Ho. apply list_eq. intros i.
  assert (Hl : length (splice off bs (pad (off + length bs) d)) = Nat.max (length d) (off + length bs)).
  { rewrite length_splice; rewrite length_pad; lia. }
  rewrite lookup_pad, Hl, !lookup_splice, !lookup_pad by (rewrite length_pad; lia).
  repeat case_decide; try done; try lia.
Qed.

Lemma peek_all sz d : Z.of_nat (length d) ≤ sz → peek 0 sz d = pad (Z.to_nat sz) d.
Proof. intros Hl. unfold peek. apply slice_all. rewrite length_pad. lia. Qed.

Lemma peek_slice off n sz d :
  0 ≤ off → 0 ≤ n → off + n ≤ sz → Z.of_nat (length d) ≤ sz → peek off n d = slice (Z.to_nat off) (Z.to_nat n) (peek 0 sz d).
Proof.
  intros Ho Hn Hs Hl. rewrite peek_all by done. unfold peek. rewrite <- (slice_take _ _ (Z.to_nat (off + n)) (pad (Z.to_nat sz) d)) by lia.
  rewrite (take_pad _ _ (Z.to_nat (off + n))) by lia. by rewrite slice_take by lia.
Qed.

Lemma peek_poke off bs sz d :
  0 ≤ off ≤ sz → Z.of_nat (length d) ≤ sz →
  peek 0 (Z.max sz (off + Z.of_nat (length bs))) (poke off bs d) = splice (Z.to_nat off) bs (peek 0 sz d).
Proof.
  intros Ho Hl. rewrite !peek_all by (rewrite ?length_poke; lia). unfold poke.
  replace (Z.to_nat (Z.max sz (off + Z.of_nat (length bs)))) with (Nat.max (Z.to_nat sz) (Z.to_nat off + length bs)) by lia.
  apply pad_poke; lia.
Qed.

Lemma poke_all bs d : (length d ≤ length bs)%nat → poke 0 bs d = bs.
Proof.
  intros Hl. unfold poke, splice. simpl. rewrite drop_ge; [by rewrite app_nil_r|]. rewrite length_pad. lia.
Qed.

(** ** Running alone *)
Section Run.
Context (D : list Z → list Z) (persist : list Z → bool).

(** A disk that holds the files [D]. *)
Definition disk (p : list Z) (off n : Z) : result (list Z) () := Ok (slice (Z.to_nat off) (Z.to_nat n) (D p)).

Definition file_bytes (n : Node) : list Z := match backing n with Some b => D b | None => peek 0 (size n) (data n) end.
Definition settled (n : Node) : Prop := ∀ b, backing n = Some b → Z.of_nat (length (D b)) = size n.

Lemma run_bind {A B} (m : prog A) (f : A → prog B) w :
  run disk persist (m ≫= f) w = run disk persist (f (run disk persist m w).2) (run disk persist m w).1.
Proof.
  change (m ≫= f) with (pbind f m). revert w. induction m as [a|s k IH|p o n k IH|p k IH]; intros w; simpl; [done|apply IH..].
Qed.

Lemma run_section {A B} (m : World → World * A) (f : A → prog B) w :
  run disk persist (atomically m ≫= f) w = run disk persist (f (m w).2) (m w).1.
Proof. done. Qed.

Lemma length_contents n : node_ok n → settled n → Z.of_nat (length (file_bytes n)) = size n.
Proof.
  intros (Hs & _) Hd. unfold file_bytes. destruct (backing n) as [b|] eqn:E; [by apply Hd|].
  rewrite peek_all, length_pad by lia. lia.
Qed.

(** Bringing a file into memory keeps its bytes. *)
Definition loaded (n : Node) : Node := match backing n with None => n | Some b => set_contents (D b) n end.

Lemma loaded_bytes n : node_ok n → settled n → file_bytes (loaded n) = file_bytes n.
Proof.
  intros (Hs & _) Hd. unfold loaded, file_bytes. destruct (backing n) as [b|] eqn:E; simpl; [|by rewrite E].
  specialize (Hd b E). rewrite peek_all by lia. unfold pad. replace (Z.to_nat (size n) - length (D b))%nat with 0%nat by lia.
  by rewrite app_nil_r.
Qed.

Lemma set_node_id i n r : nodes r !! i = Some n → set_node i n r = r.
Proof. intros Hn. unfold set_node. rewrite list_insert_id by done. by destruct r. Qed.
Lemma with_registry_id w : with_registry (registry w) w = w.
Proof. by destruct w. Qed.

Lemma materialize_run i n w :
  inv w → nodes (registry w) !! i = Some n → occupied n = true → settled n →
  run disk persist (materialize_disk_node i (generation_of (registry w) i)) w =
    (with_registry (set_node i (loaded n) (registry w)) w, Ok tt).
Proof.
  intros Hi Hn Ho Hd. pose proof (t_node _ (iv_tree _ Hi) _ _ Hn) as (Hs & _). unfold materialize_disk_node. change ATTEMPTS with (S 7).
  cbn [materialize_loop]. rewrite run_section. unfold materialize_begin. rewrite Hn, Ho, Z.eqb_refl. cbn [negb orb].
  unfold loaded. destruct (backing n) as [b|] eqn:Eb; cbn [fst snd].
  - cbn [run i_backing i_length]. rewrite run_section. unfold materialize_finish. rewrite (node_at_lookup _ _ _ Hn), Ho, ?Z.eqb_refl, Eb.
    cbn [negb orb i_backing i_length i_version]. rewrite bool_decide_eq_true_2 by done. rewrite ?Z.eqb_refl. cbn [negb orb]. unfold disk.
    specialize (Hd b Eb). rewrite slice_all by lia. rewrite (proj2 (Z.eqb_eq _ _)) by done. cbn [negb fst snd run].
    rewrite poke_all by lia. done.
  - cbn [run]. rewrite set_node_id by done. by rewrite with_registry_id.
Qed.

(** No mapping shares pages of the file. *)
Definition unshared (i : nat) (g : Z) (f : Cache) : Prop := ∀ e, e ∈ flatten f → shares i g e = false.

Lemma overlay_unshared i g off bs f : unshared i g f → overlay i g off bs f = bs.
Proof.
  intros Hu. unfold overlay. rewrite filter_none; [done|]. intros e He. by rewrite (Hu e He).
Qed.

Lemma read_run c id position len e n w :
  inv w → get_mut id (open_files w) = Ok e → nodes (registry w) !! o_node e = Some n → settled n → access_allowed c n false = true →
  let off := default (o_offset e) position in
  0 ≤ off ≤ size n → 0 ≤ len →
  run disk persist (read_from c id position len None) w =
    (advance id position (off + Z.min (size n - off) len) e w,
     Ok (overlay (o_node e) (o_generation e) off (slice (Z.to_nat off) (Z.to_nat (Z.min (size n - off) len)) (file_bytes n)) (frames w))).
Proof.
  intros Hi Eg Hn Hd Ha off Hoff Hlen. destruct (file_get_mut_live _ _ _ Hi Eg) as (n' & _ & _ & Hn' & Ho & _ & Hat & Hg & (Hs & _) & _). simplify_eq.
  unfold read_from. change ATTEMPTS with (S 7). cbn [read_loop]. rewrite run_section. unfold read_begin.
  rewrite Eg, Hg, Z.eqb_refl, Hn, Ho, Ha. cbn [negb orb]. fold off. rewrite (proj2 (Z.ltb_ge (size (node_at (registry w) (o_node e))) off)) by lia.
  set (n := node_at (registry w) (o_node e)) in *. set (cnt := Z.min (size n - off) len). unfold file_bytes.
  destruct (backing n) as [b|] eqn:Eb.
  - destruct (Z.eqb_spec cnt 0) as [Hz|Hz]; cbn [fst snd].
    + rewrite Hz, Z.add_0_r. change (slice (Z.to_nat off) (Z.to_nat 0) (D b)) with (@nil Z). unfold overlay.
      assert (Hnil : ∀ l, foldl (overlay_entry off) [] l = []); [|by rewrite Hnil].
      intros l. induction l as [|x l IH]; [done|]. simpl. unfold overlay_entry at 2. simpl. rewrite Z.add_0_r.
      destruct (Z.ltb_spec (Z.max off (k_offset (key x))) (Z.min off (k_offset (key x) + k_count (key x)))); [lia|apply IH].
    + cbn [run rd_backing rd_offset rd_count]. rewrite run_section. unfold read_finish. cbn [rd_node rd_generation rd_version rd_backing rd_length rd_offset rd_count].
      rewrite Eg, Nat.eqb_refl, ?Z.eqb_refl. cbn [negb orb]. fold n. rewrite Ho, Hg, ?Z.eqb_refl, Ha, Eb. cbn [negb orb].
      rewrite bool_decide_eq_true_2 by done. cbn [negb orb]. specialize (Hd b Eb).
      assert (match position with Some _ => false | None => negb (o_offset e =? off) end = false) as ->.
      { subst off. destruct position; [done|]. simpl. by rewrite Z.eqb_refl. }
      unfold disk. rewrite length_slice by lia. rewrite Z2Nat.id, Z.eqb_refl by lia. done.
  - cbn [fst snd]. rewrite (peek_slice off cnt (size n)) by lia. done.
Qed.

(** The node after a write of [buf] at [off]. *)
Definition after_write (off : Z) (buf : list Z) (n : Node) : Node :=
  set_bytes (poke off buf (data (loaded n))) (Z.max (size n) (off + Z.of_nat (length buf))) (loaded n).

Lemma loaded_fields n :
  path (loaded n) = path n ∧ size (loaded n) = size n ∧ occupied (loaded n) = occupied n ∧ kind (loaded n) = kind n ∧
  writable (loaded n) = writable n ∧ mode (loaded n) = mode n ∧ uid (loaded n) = uid n ∧ gid (loaded n) = gid n ∧ backing (loaded n) = None.
Proof. unfold loaded. destruct (backing n) eqn:E; simpl; rewrite ?E; done. Qed.

Lemma loaded_access c n b : access_allowed c (loaded n) b = access_allowed c n b.
Proof. destruct (loaded_fields n) as (_ & _ & _ & _ & _ & Hm & Hu & Hg & _). unfold access_allowed. by rewrite Hm, Hu, Hg. Qed.

Lemma after_write_bytes off buf n :
  node_ok n → settled n → 0 ≤ off ≤ size n → file_bytes (after_write off buf n) = splice (Z.to_nat off) buf (file_bytes n).
Proof.
  intros Hok Hd Hoff. rewrite <- (loaded_bytes n Hok Hd). destruct (loaded_fields n) as (_ & Hsz & _ & _ & _ & _ & _ & _ & Hb).
  unfold file_bytes, after_write. simpl. rewrite Hb, <- Hsz. apply peek_poke; [by rewrite Hsz|]. destruct Hok as (Hs & _). rewrite Hsz.
  unfold loaded. destruct (backing n) as [b|] eqn:E; simpl; [|lia]. specialize (Hd b E). lia.
Qed.

Lemma write_run c id position buf e n w :
  inv w → get_mut id (open_files w) = Ok e → nodes (registry w) !! o_node e = Some n → settled n →
  writable n = true → access_allowed c n true = true →
  let off := default (o_offset e) position in
  0 ≤ off ≤ size n → off + Z.of_nat (length buf) ≤ NODE_CAPACITY →
  run disk persist (write_loop ATTEMPTS c id position buf) w =
    (advance id position (off + Z.of_nat (length buf)) e
       (with_frames (update (o_node e) (o_generation e) off buf (frames w))
          (with_registry (bump_version (o_node e) (set_node (o_node e) (after_write off buf n) (registry w))) w)),
     Ok (Z.of_nat (length buf))).
Proof.
  intros Hi Eg Hn Hd Hw Ha off Hoff Hcap. destruct (file_get_mut_live _ _ _ Hi Eg) as (n' & _ & _ & Hn' & Ho & _ & Hat & Hg & _). simplify_eq.
  set (n := node_at (registry w) (o_node e)) in *. change ATTEMPTS with (S 7). cbn [write_loop]. rewrite run_section.
  unfold write_begin, current_node. rewrite Eg. cbn [rbind]. fold n. rewrite Ho, Hg, Z.eqb_refl. cbn [negb orb rbind fst snd]. rewrite Hw, Ha. cbn [negb orb].
  cbn [fst snd]. rewrite run_bind. rewrite <- Hg at 1 2. rewrite (materialize_run (o_node e) n w Hi Hn Ho Hd). cbn [fst snd]. rewrite run_section.
  unfold write_finish. cbn [open_files with_registry registry]. rewrite Eg, Nat.eqb_refl. cbn [negb orb].
  change (generation_of (set_node (o_node e) (loaded n) (registry w)) (o_node e)) with (generation_of (registry w) (o_node e)).
  rewrite Hg, Z.eqb_refl. cbn [negb]. fold off. cbn [nodes set_node].
  rewrite list_lookup_insert_eq by eauto using lookup_lt_Some.
  destruct (loaded_fields n) as (_ & Hsz & Hoc & _ & Hwr & _ & _ & _ & Hb). rewrite Hoc, Ho, Hwr, Hw, loaded_access, Ha, Hb, Hsz. cbn [negb orb].
  rewrite bool_decide_eq_false_2 by (by intros []). rewrite (proj2 (Z.ltb_ge (size n) off)) by lia.
  rewrite Z.min_l by lia. rewrite take_ge by lia. rewrite Z.ltb_irrefl. cbn [fst snd run]. f_equal. unfold after_write.
  f_equal. unfold with_frames, with_registry, bump_version, set_node, version_of. simpl. by rewrite list_insert_insert_eq.
Qed.

End Run.

End VfsContents.

(** * What holds of the file system whatever is called *)
Import Io Names FileFrames Vfs VfsPaths VfsInv VfsOps VfsWorld VfsSections VfsFiles VfsMachine.

Module VfsSafety.

(** ** Boot *)
Definition boot_names : list (list (list Z) * NodeKind) :=
  [([], Directory); ([lit "etc"], Directory); ([lit "tmp"], Directory); ([lit "mnt"], Directory); ([lit "bin"], Directory);
   ([lit "etc"; lit "motd"], File); ([lit "etc"; lit "version"], File); ([lit "tmp"; lit "vfs-self-test"], File)].

Lemma boot_components : Forall (λ x, Forall component x.1) boot_names.
Proof.
  assert (H : forallb (λ x, forallb (λ c, negb (bool_decide (c = [])) && negb (bool_decide (SLASH ∈ c)) && (length c <=? MAX_DIR_NAME)%nat) x.1) boot_names = true)
    by (vm_compute; reflexivity).
  apply Forall_forall. intros x Hx. rewrite forallb_forall in H. apply list_elem_of_In, H in Hx. rewrite forallb_forall in Hx.
  apply Forall_forall. intros c Hc. apply list_elem_of_In, Hx in Hc. rewrite !andb_true_iff, !negb_true_iff, !bool_decide_eq_false, Nat.leb_le in Hc.
  destruct Hc as [[? ?] ?]. done.
Qed.

Lemma boot_shape i : shape registry_boot i = (λ x, (join x.1, x.2)) <$> boot_names !! i.
Proof.
  do 8 (destruct i as [|i]; [vm_compute; reflexivity|]). unfold shape, registry_boot.
  cbn [nodes]. rewrite lookup_app_r by (change (length boot_nodes) with 8%nat; lia).
  destruct (replicate (MAX_NODES - 8) node_empty !! (S (S (S (S (S (S (S (S i))))))) - length boot_nodes)%nat) as [n|] eqn:E; [|done].
  apply lookup_replicate in E as [-> _]. done.
Qed.

Lemma boot_distinct i j x y : boot_names !! i = Some x → boot_names !! j = Some y → x.1 = y.1 → i = j.
Proof.
  assert (Hd : NoDup (boot_names.*1)) by (refine (bool_decide_unpack _ _); vm_compute; exact I).
  intros Hi Hj He. eapply NoDup_lookup; [done|..]; rewrite list_lookup_fmap; [by rewrite Hi|by rewrite Hj, He].
Qed.

Lemma boot_parents i cs c k : boot_names !! i = Some (cs ++ [c], k) → ∃ j, boot_names !! j = Some (cs, Directory).
Proof.
  intros Hi. assert (Hc : forallb (λ x, bool_decide ((removelast x.1, Directory) ∈ boot_names)) boot_names = true) by (vm_compute; reflexivity).
  rewrite forallb_forall in Hc. assert (Hin : In (cs ++ [c], k) boot_names) by (eapply list_elem_of_In, list_elem_of_lookup_2; eauto).
  specialize (Hc _ Hin). apply bool_decide_eq_true in Hc. simpl in Hc. rewrite removelast_last in Hc. by apply list_elem_of_lookup_1 in Hc.
Qed.

Lemma boot_shape_Some i p k : shape registry_boot i = Some (p, k) → ∃ cs, p = join cs ∧ Forall component cs ∧ boot_names !! i = Some (cs, k).
Proof.
  rewrite boot_shape. intros ([cs k'] & Hi & He)%fmap_Some. simpl in He. simplify_eq. exists cs. split_and!; try done.
  pose proof boot_components as H. rewrite Forall_lookup in H. by apply (H i _ Hi).
Qed.

Lemma vfs_inv_boot : inv world_boot.
Proof.
  split; simpl.
  - split; try done.
    + intros i n Hn. assert (Hall : Forall (λ n, (Z.of_nat (length (data n)) <=? size n) && (size n <=? NODE_CAPACITY) && (length (path n) <=? PATH_CAPACITY)%nat &&
        bool_decide (backing n = None) && (occupied n || (bool_decide (path n = []) && bool_decide (data n = []))) = true) (nodes registry_boot)).
      { apply Forall_forall. intros m Hm. apply list_elem_of_In in Hm. revert m Hm. apply forallb_forall. vm_compute. reflexivity. }
      rewrite Forall_lookup in Hall. specialize (Hall i n Hn). cbn beta in Hall.
      rewrite !andb_true_iff, orb_true_iff, andb_true_iff, !bool_decide_eq_true, !Z.leb_le, Nat.leb_le in Hall.
      destruct Hall as [[[[Hd Hs] Hp] Hb] Ho]. split_and!; [done..|]. intros Hf. destruct Ho as [Ho|[? ?]]; [congruence|done].
    + split.
      * intros i p k Hi _. destruct (boot_shape_Some _ _ _ Hi) as (cs & -> & Hc & _). eauto.
      * intros i j p k k' Hi Hj _. destruct (boot_shape_Some _ _ _ Hi) as (cs & -> & Hc & Hx), (boot_shape_Some _ _ _ Hj) as (ds & He & Hd & Hy).
        apply join_inj in He as ->; [|done..]. by eapply boot_distinct.
      * by exists 0%nat.
      * intros i cs c k Hi Hcc. destruct (boot_shape_Some _ _ _ Hi) as (ds & He & Hd & Hx). apply join_inj in He as <-; [|done..].
        destruct (boot_parents _ _ _ _ Hx) as [j Hj]. exists j. rewrite boot_shape, Hj. done.
      * intros i k Hi. destruct (boot_shape_Some _ _ _ Hi) as (cs & He & _). symmetry in He. by apply join_not_nil in He.
    + intros i g [-> _]%lookup_replicate. done.
  - split; try done.
    + intros s g [-> _]%lookup_replicate. done.
    + intros s e [-> _]%lookup_replicate. done.
    + intros i Hi. destruct (boot_shape_Some _ _ _ Hi) as (cs & He & _). symmetry in He. by apply join_not_nil in He.
Qed.

Section Normalised.
Context (nfc : list Z → list (list Z)).

Definition reachable (s : state) : Prop := rtc (step nfc) (world_boot, []) s.

Lemma reachable_ok s : reachable s → state_ok s.
Proof. intros H. destruct (steps_ok _ _ _ H) as [Hok _]; [|done]. split; [apply vfs_inv_boot|constructor]. Qed.

(** C18. The names of the file system stay a tree and descriptors stay valid, whatever calls run
    at the same time and however their critical sections and disk reads interleave: every
    named node has a unique path whose parent is a directory of the table, the root is
    always there, an open descriptor refers to an occupied file of its generation, and a
    node without a name is one that somebody still has open, or one whose generation has
    reached [u64::MAX] so that it cannot be used again. *)
Theorem vfs_stays_a_tree w ts : rtc (step nfc) (world_boot, []) (w, ts) → inv w.
Proof. intros H. by destruct (reachable_ok _ H). Qed.

Lemma get_mut_epoch id w e : inv w → get_mut id (open_files w) = Ok e →
  entries (open_files w) !! slot id = Some e ∧ o_occupied e = true ∧ slot_generation (slot id) (open_files w) = epoch id ∧ o_epoch e = epoch id.
Proof.
  intros Hi (Hs & Ho & _ & He)%get_mut_ok. destruct (h_live _ _ (iv_handles _ Hi) _ _ Hs Ho) as (_ & Hg & _).
  unfold slot_generation. rewrite Hg. simpl. done.
Qed.

(** C20. A descriptor denotes one file: from the time a call returned it, as long as it is valid it
    names the same node in the same generation, an occupied file, however often that file
    is renamed, unlinked or replaced at its path; and once it is invalid it stays invalid
    forever, also after its slot is used again. *)
Theorem descriptor_denotes_one_file w ts w' ts' id :
  rtc (step nfc) (world_boot, []) (w, ts) → rtc (step nfc) (w, ts) (w', ts') →
  (∀ e e', get_mut id (open_files w) = Ok e → get_mut id (open_files w') = Ok e' →
     o_node e' = o_node e ∧ o_generation e' = o_generation e ∧
     ∃ n, nodes (registry w') !! o_node e = Some n ∧ occupied n = true ∧ kind n = File ∧ generation_of (registry w') (o_node e) = o_generation e) ∧
  (epoch id ≤ slot_generation (slot id) (open_files w) →
     get_mut id (open_files w) = Err InvalidDescriptor → get_mut id (open_files w') = Err InvalidDescriptor).
Proof.
  intros Hr Hs. pose proof (reachable_ok _ Hr) as Hok. destruct (steps_ok _ _ _ Hs Hok) as [[Hi' _] Ht]. destruct Hok as [Hi _]. simpl in *.
  destruct (Ht (slot id)) as [Hmono Hlive]. split.
  - intros e e' He He'. destruct (file_get_mut_live _ _ _ Hi' He') as (n & _ & _ & Hn & Ho & Hk & _ & Hg & _).
    destruct (get_mut_epoch _ _ _ Hi He) as (Hx & _ & Hgx & _), (get_mut_epoch _ _ _ Hi' He') as (Hy & Hoy & Hgy & _).
    destruct (Hlive e' Hy Hoy ltac:(lia)) as (e0 & H0 & _ & Hn0 & Hg0 & _). simplify_eq. rewrite Hn0, Hg0. eauto 10.
  - intros Hissued Hdead. destruct (get_mut id (open_files w')) as [e'|x] eqn:Eg.
    + exfalso. destruct (get_mut_epoch _ _ _ Hi' Eg) as (Hy & Hoy & Hgy & Hey).
      destruct (Hlive e' Hy Hoy ltac:(lia)) as (e0 & H0 & Ho0 & _ & _ & He0).
      destruct (h_live _ _ (iv_handles _ Hi) _ _ H0 Ho0) as (Hrc & _).
      assert (get_mut id (open_files w) = Ok e0); [|congruence]. apply get_mut_ok. split_and!; [done..|lia|congruence].
    + unfold get_mut in Eg. destruct (entries (open_files w') !! slot id) as [e|]; [destruct (_ && _)|]; by simplify_eq.
Qed.

End Normalised.

End VfsSafety.

(** * What the file system promises its callers, and where it does not keep it *)
Import Io Bytes Names FileFrames Vfs VfsPaths VfsInv VfsOps VfsWorld VfsSections VfsFiles VfsContents.

Module VfsTheorems.

(** C19. A file is a sequence of bytes to its readers and writers, whether it is in memory or still
    on disk: a positional read returns the bytes from the offset, cut at the end of the
    file, a sequential read does so at the shared offset and advances it; a positional
    write puts its bytes there (making the file longer where needed) and changes nothing
    else of the file, no other file and no descriptor, and a sequential write does so at
    the shared offset and advances it. This is for a call that runs alone, with a disk that
    gives the bytes of the file when asked, offsets within the file, writes within the
    capacity of a node, and a file none of whose pages is mapped shared. *)
Theorem file_is_a_byte_sequence D persist c id e n w :
  inv w → get_mut id (open_files w) = Ok e → nodes (registry w) !! o_node e = Some n → settled D n →
  unshared (o_node e) (o_generation e) (frames w) →
  let f := file_bytes D n in
  let off := o_offset e in
  Z.of_nat (length f) = size n ∧
  (access_allowed c n false = true →
   (∀ pos len, 0 ≤ pos ≤ size n → 0 ≤ len →
      run (disk D) persist (read_at c id pos len) w = (w, Ok (take (Z.to_nat len) (drop (Z.to_nat pos) f)))) ∧
   (∀ len, off ≤ size n → 0 ≤ len →
      let got := take (Z.to_nat len) (drop (Z.to_nat off) f) in
      run (disk D) persist (read c id len) w =
        (with_open_files (set_entry (slot id) (set_offset (off + Z.of_nat (length got)) e) (open_files w)) w, Ok got))) ∧
  (writable n = true → access_allowed c n true = true →
   ∀ position buf, let pos := default off position in 0 ≤ pos ≤ size n → pos + Z.of_nat (length buf) ≤ NODE_CAPACITY →
   ∃ w' n',
     run (disk D) persist (match position with Some pos => write_at c id pos buf | None => write c id buf end) w =
       (w', Ok (Z.of_nat (length buf))) ∧
     nodes (registry w') = <[o_node e := n']> (nodes (registry w)) ∧
     open_files w' = match position with
                     | Some _ => open_files w
                     | None => set_entry (slot id) (set_offset (off + Z.of_nat (length buf)) e) (open_files w)
                     end ∧
     file_bytes D n' = splice (Z.to_nat pos) buf f ∧
     (path n', kind n', writable n', uid n', gid n', mode n', occupied n') = (path n, kind n, writable n, uid n, gid n, mode n, occupied n)).
Proof.
  intros Hi Eg Hn Hd Hu f off. destruct (file_get_mut_live _ _ _ Hi Eg) as (n' & _ & _ & Hn' & Ho & _ & _ & _ & Hok & _ & Hoff). assert (n' = n) as -> by congruence.
  pose proof (length_contents D n Hok Hd) as Hlen. fold f in Hlen. split_and!; [done|intros Ha|intros Hw Ha].
  - assert (Hcut : ∀ pos len, 0 ≤ pos ≤ size n → 0 ≤ len →
      slice (Z.to_nat pos) (Z.to_nat (Z.min (size n - pos) len)) f = take (Z.to_nat len) (drop (Z.to_nat pos) f)).
    { intros pos len Hp Hl. unfold slice. destruct (decide (size n - pos ≤ len)); [|f_equal; lia].
      rewrite !take_ge; [done|..]; rewrite length_drop; lia. }
    split; [intros pos len Hp Hl|intros len Hp Hl got].
    + unfold read_at. rewrite (read_run D persist c id (Some pos) len e n) by done. cbn [default advance].
      rewrite overlay_unshared by done. by rewrite Hcut.
    + unfold read. rewrite (read_run D persist c id None len e n) by (try done; unfold off in *; simpl; lia). cbn [default advance].
      rewrite overlay_unshared, Hcut by (try done; unfold off in *; lia). unfold got. rewrite length_take, length_drop. f_equal. f_equal. f_equal. f_equal.
      unfold off in *. lia.
  - intros position buf pos Hp Hc. destruct (loaded_fields D n) as (F1 & _ & F3 & F4 & F5 & F6 & F7 & F8 & _).
    exists (advance id position (pos + Z.of_nat (length buf)) e (with_frames (update (o_node e) (o_generation e) pos buf (frames w))
      (with_registry (bump_version (o_node e) (set_node (o_node e) (after_write D pos buf n) (registry w))) w))), (after_write D pos buf n).
    split_and!; [|by destruct position|by destruct position|by apply after_write_bytes|].
    + rewrite <-(write_run D persist c id position buf e n) by done. by destruct position.
    + unfold after_write. simpl. by rewrite F1, F3, F4, F5, F6, F7, F8.
Qed.

(** ** Shared pages *)
Definition frame_ok (e : Entry) : Prop :=
  length (frame e) = Z.to_nat PAGE ∧ 0 ≤ k_offset (key e) ∧ 0 ≤ k_count (key e) ≤ PAGE.

Lemma splice_slice_id a n (s : list Z) : (a + n ≤ length s)%nat → splice a (slice a n s) s = s.
Proof.
  intros Hl. apply list_eq. intros i. rewrite lookup_splice, length_slice by lia. repeat case_decide; try done.
  unfold slice. rewrite lookup_take_lt, lookup_drop by lia. f_equal. lia.
Qed.

Lemma update_offset off bs e : k_offset (key (update_entry off bs e)) = k_offset (key e).
Proof. unfold update_entry. simpl. by destruct (_ && _). Qed.

Lemma overlay_update_entry off bs e : 0 ≤ off → frame_ok e → overlay_entry off bs (update_entry off bs e) = bs.
Proof.
  intros Ho (Hf & Hk & Hc). unfold overlay_entry. rewrite update_offset.
  set (koff := k_offset (key e)) in *. set (k' := k_count (key (update_entry off bs e))).
  assert (Hk' : 0 ≤ k' ≤ PAGE).
  { unfold k', update_entry. simpl. fold koff. destruct (_ && _); simpl; [|done]. unfold saturating_sub, PAGE in *. lia. }
  destruct (Z.ltb_spec (Z.max off koff) (Z.min (off + Z.of_nat (length bs)) (koff + k'))) as [Hlt|]; [|done].
  assert (Hfr : frame (update_entry off bs e) = splice (Z.to_nat (Z.max off koff - koff))
     (slice (Z.to_nat (Z.max off koff - off)) (Z.to_nat (Z.min (off + Z.of_nat (length bs)) (koff + k') - Z.max off koff)) bs) (frame e)).
  { unfold update_entry. simpl. fold koff. unfold k', update_entry in Hlt |- *. simpl in Hlt |- *. fold koff in Hlt |- *.
    by rewrite (proj2 (Z.ltb_lt _ _) Hlt). }
  rewrite Hfr, slice_splice_eq; [apply splice_slice_id; lia|apply length_slice; lia|]. rewrite Hf. unfold PAGE in *. lia.
Qed.

Lemma shares_update i g j h off bs e : shares i g (if shares j h e then update_entry off bs e else e) = shares i g e.
Proof.
  destruct (shares j h e); [|done]. unfold shares, update_entry. cbn [key].
  by destruct ((off <? k_offset (key e) + PAGE) && (k_offset (key e) <? off + Z.of_nat (length bs))).
Qed.

Lemma flatten_for_shared i g f (c : Cache) : flatten (for_shared i g f c) = (λ e, if shares i g e then f e else e) <$> flatten c.
Proof. unfold for_shared. by rewrite flatten_fmap. Qed.

Lemma overlay_update i g off bs (c : Cache) :
  0 ≤ off → Forall frame_ok (flatten c) → overlay i g off bs (update i g off bs c) = bs.
Proof.
  intros Ho Hf. unfold overlay, update. rewrite flatten_for_shared.
  induction Hf as [|e l He _ IH]; [done|]. rewrite fmap_cons, filter_cons, shares_update.
  destruct (decide (shares i g e = true)) as [Hs|Hs]; [|done]. cbn [foldl]. rewrite Hs, overlay_update_entry by done. done.
Qed.

(** C21. What is written is read back, also through shared pages: after a successful positional write a
    read of the same range returns exactly the bytes that were written, whatever pages of
    the file are mapped and whether the file was still on disk. *)
Theorem written_bytes_read_back D persist c id e n pos buf w :
  inv w → get_mut id (open_files w) = Ok e → nodes (registry w) !! o_node e = Some n → settled D n →
  Forall frame_ok (flatten (frames w)) → writable n = true → access_allowed c n true = true → access_allowed c n false = true →
  0 ≤ pos ≤ size n → pos + Z.of_nat (length buf) ≤ NODE_CAPACITY →
  (run (disk D) persist (_ ← write_at c id pos buf; read_at c id pos (Z.of_nat (length buf))) w).2 = Ok buf.
Proof.
  intros Hi Eg Hn Hd Hf Hw Haw Har Hp Hc. destruct (file_get_mut_live _ _ _ Hi Eg) as (n' & _ & _ & Hn' & Ho & _ & _ & _ & Hok & _). assert (n' = n) as -> by congruence.
  rewrite run_bind. unfold write_at. rewrite (write_run D persist c id (Some pos) buf e n) by done. cbn [default advance fst snd].
  set (w' := with_frames _ _). destruct (loaded_fields D n) as (F1 & F2 & F3 & F4 & F5 & F6 & F7 & F8 & F9).
  assert (Hi' : inv w').
  { subst w'. apply inv_frames, inv_bump. eapply inv_update; eauto; simpl; try congruence. unfold after_write.
    eapply (node_ok_update n); simpl; auto; [congruence|]. pose proof Hok as (Hs & _). rewrite length_poke by lia.
    assert (Z.of_nat (length (data (loaded D n))) ≤ size n); [|lia].
    unfold loaded. destruct (backing n) as [b|] eqn:E; simpl; [|lia]. by rewrite (Hd b E). }
  assert (Hlook : nodes (registry w') !! o_node e = Some (after_write D pos buf n)).
  { subst w'. simpl. by rewrite list_lookup_insert_eq by eauto using lookup_lt_Some. }
  assert (Hsz : size (after_write D pos buf n) = Z.max (size n) (pos + Z.of_nat (length buf))) by done.
  unfold read_at. rewrite (read_run D persist c id (Some pos) (Z.of_nat (length buf)) e (after_write D pos buf n));
    [|done|done|done| |by unfold access_allowed in *; unfold after_write; simpl; rewrite F6, F7, F8|rewrite Hsz; unfold default; simpl; lia|lia].
  2: { intros b. unfold after_write. simpl. by rewrite F9. }
  change (default (o_offset e) (Some pos)) with pos. cbn [snd]. rewrite after_write_bytes, Hsz by done. rewrite Z.min_r by lia. rewrite Nat2Z.id.
  assert (Hsl : slice (Z.to_nat pos) (length buf) (splice (Z.to_nat pos) buf (file_bytes D n)) = buf).
  { pose proof (length_contents D n Hok Hd). unfold slice, splice. rewrite drop_app_length' by (rewrite length_take; lia). apply take_app_length. }
  rewrite Hsl. subst w'. simpl. by rewrite overlay_update by (done || lia).
Qed.

(** ** Names *)
Lemma find_path_shape r p i : tree r → p ≠ [] → find_path p r = Some i ↔ ∃ k, shape r i = Some (p, k).
Proof.
  intros Ht Hp. split.
  - intros (n & Hn & Ho & Hpp & _)%find_path_Some. exists (kind n). rewrite <- Hpp. by apply shape_node.
  - intros [k Hk]. pose proof Hk as (n & Hn & Ho & Hpp & _)%shape_Some. unfold find_path. eapply position_unique; [done| |].
    + by apply matches_true.
    + intros j m Hm (Hom & Hpm)%matches_true. eapply (sh_unique _ (t_shape _ Ht)); [|done..]. rewrite <- Hpm. by apply shape_node.
Qed.

Lemma find_path_ext r r' p p' :
  tree r → tree r' → p ≠ [] → p' ≠ [] → (∀ i k, shape r i = Some (p, k) ↔ shape r' i = Some (p', k)) → find_path p r = find_path p' r'.
Proof.
  intros Ht Ht' Hp Hp' He. apply option_eq. intros i. rewrite !find_path_shape by done. by setoid_rewrite He.
Qed.

Lemma find_path_none r p : tree r → p ≠ [] → (∀ i k, shape r i ≠ Some (p, k)) → find_path p r = None.
Proof.
  intros Ht Hp Hn. destruct (find_path p r) as [i|] eqn:E; [|done]. apply find_path_shape in E as [k Hk]; [|done..]. by destruct (Hn i k).
Qed.

(** What follows the renamed name in a path that moves with it: nothing, or for a directory
    what is below it. *)
Definition moves_along (d : Node) (rest : list Z) : Prop := rest = [] ∨ kind d = Directory ∧ head rest = Some SLASH.

Lemma moves_iff old (d : Node) b :
  moves old (bool_decide (kind d = Directory)) b = true ↔ ∃ rest, b = old ++ rest ∧ moves_along d rest.
Proof.
  unfold moves, moves_along, descendant_suffix. rewrite orb_true_iff, andb_true_iff, !bool_decide_eq_true. split.
  - intros [->|[Hd [x Hx]]]; [exists []; rewrite app_nil_r; by split; [|left]|].
    destruct (strip_prefix old b) as [s|] eqn:E; [|done]. apply strip_prefix_spec in E as ->. exists s. split; [done|right].
    split; [done|]. destruct (starts_with _ _) eqn:Es; [|done]. apply starts_with_spec in Es as [r ->]. done.
  - intros (rest & -> & [->|[Hd Hr]]); [left; apply app_nil_r|right]. split; [done|].
    rewrite (proj2 (strip_prefix_spec _ _ _) eq_refl). destruct rest as [|x rest]; [done|]. injection Hr as ->.
    rewrite (proj2 (starts_with_spec _ _)) by (by exists rest). by eexists.
Qed.

Section Normalised.
Context (nfc : list Z → list (list Z)).

(** C22. Renaming moves a whole subtree and nothing else: after a successful rename every path below
    (and including) the new name resolves to the node that the corresponding path below
    the old name resolved to, nothing is left at or below the old name, every other path
    resolves as before, and contents, sizes, ownership, generations and open descriptors
    stay with their nodes. A node whose contents are still on disk stays so: the name its
    bytes are loaded from moves along if it is the old name or below it, and is otherwise
    the same. *)
Theorem rename_moves_the_subtree c old new w w' :
  inv w → rename nfc c old new w = (w', Ok tt) → old ≠ new →
  ∃ os ns i0 d, old = join os ∧ new = join ns ∧ find_path old (registry w) = Some i0 ∧ nodes (registry w) !! i0 = Some d ∧
    (∀ es, Forall component es → find_path (join (ns ++ es)) (registry w') = find_path (join (os ++ es)) (registry w)) ∧
    (∀ es, Forall component es → find_path (join (os ++ es)) (registry w') = None) ∧
    (∀ cs, Forall component cs → (∀ es, cs ≠ os ++ es) → (∀ es, cs ≠ ns ++ es) →
       find_path (join cs) (registry w') = find_path (join cs) (registry w)) ∧
    (∀ i n, nodes (registry w) !! i = Some n → ∃ n', nodes (registry w') !! i = Some n' ∧
       (data n', size n', writable n', uid n', gid n', mode n', kind n', occupied n') =
       (data n, size n, writable n, uid n, gid n, mode n, kind n, occupied n) ∧
       if occupied n then
         match backing n with
         | Some b => (∀ rest, b = old ++ rest → moves_along d rest → backing n' = Some (new ++ rest)) ∧
                     ((∀ rest, b = old ++ rest → ¬ moves_along d rest) → backing n' = Some b)
         | None => backing n' = None
         end
       else n' = n) ∧
    generations (registry w') = generations (registry w) ∧ open_files w' = open_files w.
Proof.
  intros Hi He Hne. pose proof (rename_inv nfc c old new w Hi) as Hi'. rewrite He in Hi'. simpl in Hi'.
  unfold rename, marking, on_ok in He. destruct (registry_rename nfc c old new (registry w)) as [r'|] eqn:Er; [|done]. simpl in He.
  assert (Hr : registry w' = r' ∧ open_files w' = open_files w).
  { injection He as <-. unfold mark_if, mark_mnt_dirty. simpl. by destruct (_ || _), (mnt_mounted w). }
  destruct Hr as [Hr Ho]. clear He. rewrite Hr in *. destruct Hi' as [Ht' _]. rewrite Hr in Ht'. pose proof (iv_tree _ Hi) as Ht.
  destruct (rename_spec nfc _ _ _ _ _ Ht Er Hne) as (os & ns & i & k & -> & -> & Hos & Hns & Hoc & Hnc & Hold & Hfresh & Hinto & -> & _).
  set (dir := bool_decide (k = Directory)) in *.
  assert (Hback : ∀ j p k', shape (renamed_registry (join os) (join ns) dir (registry w)) j = Some (p, k') → p ≠ [] →
    ∃ cs, shape (registry w) j = Some (join cs, k') ∧ Forall component cs ∧ p = renamed os ns dir (join cs)).
  { intros j p k' Hj Hp. rewrite renamed_shape in Hj. apply fmap_Some in Hj as ([q k0] & Hq & Hx). simpl in Hx. simplify_eq.
    destruct (decide (q = [])) as [->|Hqn]; [by rewrite (renamed_nil os ns dir Hos) in Hp|].
    destruct (sh_named _ (t_shape _ Ht) _ _ _ Hq Hqn) as (cs & -> & Hc). eauto. }
  assert (Hdown : ∀ j es k', shape (registry w) j = Some (join (os ++ es), k') → Forall component es → dir = true ∨ es = []).
  { intros j es k' Hj Hc. destruct (decide (es = [])) as [->|Hes]; [by right|]. left. subst dir. apply bool_decide_eq_true.
    destruct (prefix_closed _ _ _ _ _ (t_shape _ Ht) Hj) as [j' Hj']; [by apply Forall_app|done|].
    assert (i = j') as -> by (eapply (sh_unique _ (t_shape _ Ht)); eauto using join_not_nil). congruence. }
  assert (Hnot_new : ∀ j es k', Forall component es → shape (registry w) j ≠ Some (join (ns ++ es), k')).
  { intros j es k' Hc Hj. destruct (decide (es = [])) as [->|Hes]; [rewrite app_nil_r in Hj; by eapply Hfresh|].
    destruct (prefix_closed _ _ _ _ _ (t_shape _ Ht) Hj) as [j' Hj']; [by apply Forall_app|done|]. by eapply Hfresh. }
  destruct (proj1 (shape_Some _ _ _ _) Hold) as (d & Hd & Hdo & Hdp & Hdk).
  exists os, ns, i, d. split_and!; try done.
  - apply find_path_shape; [done|apply join_not_nil|by eexists].
  - intros es Hes. apply find_path_ext; try apply join_not_nil; [done..|]. intros j k'. split.
    + intros Hj. destruct (Hback _ _ _ Hj (join_not_nil _)) as (cs & Hcs & Hcc & Hx).
      destruct (renamed_cases os ns dir Hos Hns Hoc Hnc cs Hcc) as [(e' & -> & _ & He' & R)|[_ R]]; rewrite R in Hx.
      * apply join_inj in Hx; [|by apply Forall_app..]. by apply app_inv_head in Hx as ->.
      * apply join_inj in Hx as <-; [|by apply Forall_app|done]. by destruct (Hnot_new _ _ _ Hes Hcs).
    + intros Hj. rewrite renamed_shape, Hj. simpl. rewrite renamed_moved; try done. by eapply Hdown.
  - intros es Hes. apply find_path_none; [done|apply join_not_nil|]. intros j k' Hj.
    destruct (Hback _ _ _ Hj (join_not_nil _)) as (cs & Hcs & Hcc & Hx).
    destruct (renamed_cases os ns dir Hos Hns Hoc Hnc cs Hcc) as [(e' & -> & _ & He' & R)|[Hun R]]; rewrite R in Hx.
    + apply join_inj in Hx; [|by apply Forall_app..]. apply app_eq_app in Hx as [l [[-> _]|[-> _]]].
      * apply Forall_app in Hoc as [_ Hl]. by destruct (Hnot_new _ _ _ Hl Hold).
      * by destruct (Hinto l).
    + apply join_inj in Hx as <-; [|by apply Forall_app|done]. destruct (Hun es eq_refl) as [Hd1 Hd2].
      destruct (Hdown _ _ _ Hcs Hes); congruence.
  - intros cs Hc Hno Hnn. apply find_path_ext; try apply join_not_nil; [done..|]. intros j k'. split.
    + intros Hj. destruct (Hback _ _ _ Hj (join_not_nil _)) as (ds & Hds & Hdc & Hx).
      destruct (renamed_cases os ns dir Hos Hns Hoc Hnc ds Hdc) as [(e' & -> & _ & He' & R)|[_ R]]; rewrite R in Hx.
      * apply join_inj in Hx; [|done|by apply Forall_app]. by destruct (Hnn e').
      * by apply join_inj in Hx as ->.
    + intros Hj. rewrite renamed_shape, Hj. simpl. rewrite renamed_kept; try done. intros es ->. by destruct (Hno es).
  - intros j n Hn. exists (rename_node (join os) (join ns) dir n). split; [simpl; by rewrite list_lookup_fmap, Hn|].
    assert (Hdir : dir = bool_decide (kind d = Directory)) by (unfold dir; by rewrite Hdk).
    unfold rename_node. destruct (occupied n) eqn:Eo; simpl; rewrite ?Eo; [|done]. split; [done|].
    destruct (backing n) as [b|]; [|done]. rewrite Hdir. split.
    + intros rest -> Hm. rewrite (proj2 (moves_iff _ _ _)) by eauto. unfold moved. by rewrite drop_app_length.
    + intros Hno. destruct (moves _ _ b) eqn:Em; [|done]. apply moves_iff in Em as (rest & -> & Hm). by destruct (Hno rest).
Qed.

(** ** Directories *)
Definition child_entry (dir : list Z) (n : Node) : option DirEntry :=
  if occupied n then (λ nm, mkDirEntry (take MAX_DIR_NAME nm) (kind n)) <$> immediate_child_name dir (path n) else None.

Lemma readdir_loop_nth dir index seen ns :
  (seen ≤ index)%nat →
  readdir_loop dir index seen ns = match omap (child_entry dir) ns !! (index - seen)%nat with Some e => Ok e | None => Err NotFound end.
Proof.
  revert seen. induction ns as [|n ns IH]; intros seen Hs; [done|]. cbn [readdir_loop omap list_omap]. unfold child_entry at 1.
  destruct (occupied n); simpl; [|by apply IH]. destruct (immediate_child_name dir (path n)) as [nm|]; simpl; [|by apply IH].
  destruct (Nat.eqb_spec seen index) as [->|Hne]; [by rewrite Nat.sub_diag|]. rewrite IH by lia.
  by replace (index - seen)%nat with (S (index - (seen + 1)))%nat by lia.
Qed.

Lemma NoDup_omap {A B C} (f : A → option B) (g : B → C) (l : list A) :
  (∀ i j x y a b, l !! i = Some x → l !! j = Some y → f x = Some a → f y = Some b → g a = g b → i = j) → NoDup (g <$> omap f l).
Proof.
  induction l as [|x l IH]; intros Hu; [constructor|]. cbn [omap list_omap].
  assert (Htail : NoDup (g <$> omap f l)).
  { apply IH. intros i j y z a b Hy Hz Ha Hb Hg. assert (S i = S j) by (by eapply (Hu (S i) (S j))). lia. }
  destruct (f x) as [a|] eqn:E; [|done]. rewrite fmap_cons. constructor; [|done]. intros (b & Hg & Hb)%list_elem_of_fmap_1.
  apply list_elem_of_omap in Hb as (y & Hy & Hfy). apply list_elem_of_lookup_1 in Hy as [j Hj].
  assert (0%nat = S j) by (by eapply (Hu 0%nat (S j) x y a b)). lia.
Qed.

(** C23. Listing a directory by index enumerates exactly its children: there is a list without
    repeated names that holds an entry for each file and directory directly below it, and
    only for those, with its full name and its kind; the calls return its elements in
    order and then report the end. *)
Theorem readdir_lists_the_children c cs d r :
  tree r → Forall component cs → validate_absolute_path nfc (join cs) = Ok tt →
  List.find (is_dir (join cs)) (nodes r) = Some d → access_allowed c d false = true →
  ∃ children : list DirEntry, NoDup (name <$> children) ∧
    (∀ index, readdir nfc c (join cs) index r = match children !! index with Some e => Ok e | None => Err NotFound end) ∧
    (∀ nm k, mkDirEntry nm k ∈ children ↔ component nm ∧ ∃ i, shape r i = Some (join (cs ++ [nm]), k)).
Proof.
  intros Ht Hc Hv Hf Ha. assert (Hp : path d = join cs).
  { apply find_some in Hf as [_ Hd]. unfold is_dir in Hd. apply andb_true_iff in Hd as [(_ & Hp)%matches_true _]. done. }
  assert (Hchild : ∀ i n e, nodes r !! i = Some n → child_entry (join cs) n = Some e ↔
    occupied n = true ∧ component (name e) ∧ path n = join (cs ++ [name e]) ∧ kind n = d_kind e).
  { intros i n e Hn. unfold child_entry. destruct (occupied n) eqn:Eo; [|by split; [|intros (? & _)]].
    destruct (decide (path n = [])) as [Hp0|Hp0].
    - rewrite Hp0, child_of_nil. split; [done|]. intros (_ & _ & H & _). symmetry in H. by apply join_not_nil in H.
    - destruct (sh_named _ (t_shape _ Ht) i (path n) (kind n)) as (ds & -> & Hds); [by apply shape_node|done|]. rewrite fmap_Some. split.
      + intros (nm & Hnm & ->). apply child_spec in Hnm as [Hcomp ->]; [|done..]. simpl.
        rewrite take_ge by apply Hcomp. done.
      + intros (_ & Hcomp & Hj & Hk). exists (name e). apply join_inj in Hj as ->; [|done|apply Forall_app; split; [done|by apply Forall_singleton]].
        split; [by apply child_spec|]. rewrite take_ge by apply Hcomp. rewrite Hk. by destruct e. }
  exists (omap (child_entry (join cs)) (nodes r)). split_and!.
  - apply NoDup_omap. intros i j x y a b Hx Hy Hax Hby Hg.
    apply (Hchild i x a Hx) in Hax as (Hox & _ & Hpx & _). apply (Hchild j y b Hy) in Hby as (Hoy & _ & Hpy & _).
    eapply (sh_unique _ (t_shape _ Ht) i j (path x)); [by apply shape_node| |rewrite Hpx; apply join_not_nil].
    rewrite Hpx, Hg, <- Hpy. by apply shape_node.
  - intros index. unfold readdir. rewrite Hv. cbn [rbind]. rewrite Hf. cbn [ok_or rbind]. rewrite Ha, Hp. cbn [negb].
    rewrite readdir_loop_nth by lia. by rewrite Nat.sub_0_r.
  - intros nm k. rewrite list_elem_of_omap. split.
    + intros (n & [i Hi]%list_elem_of_lookup_1 & He). apply (Hchild i n _ Hi) in He as (Ho & Hcomp & Hpn & Hk). split; [done|].
      exists i. simpl in *. rewrite <- Hpn, <- Hk. by apply shape_node.
    + intros [Hcomp [i Hi]]. pose proof Hi as (n & Hn & Ho & Hpn & Hk)%shape_Some. exists n.
      split; [by eapply list_elem_of_lookup_2|]. by apply (Hchild i n).
Qed.

(** ** Permissions *)
Lemma check_parent_root c p r : check_parent c p r = Ok tt → check_parent ROOT p r = Ok tt.
Proof.
  unfold check_parent. destruct (parent_path p); [|done]. destruct (List.find _ _) as [n|]; [|done].
  destruct (access_allowed c n true); [|done]. done.
Qed.

Lemma unlink_open_run D persist c p i n w :
  inv w → validate_absolute_path nfc p = Ok tt → find_path p (registry w) = Some i → nodes (registry w) !! i = Some n →
  kind n = File → is_open i (open_files w) = true → backing n = None →
  run (disk D) persist (remove nfc c p) w = (with_registry (set_node i (unlinked n) (registry w)) w, Ok tt) ∧
  find_path p (set_node i (unlinked n) (registry w)) = None.
Proof.
  intros Hi Hv Hf Hn Hk Hop Hb. destruct (find_path_Some _ _ _ Hf) as (n' & Hn' & Ho & Hp & Hat). assert (n' = n) as -> by congruence.
  assert (Hne : p ≠ []) by (intros ->; done). split.
  - unfold remove. rewrite Hv. change ATTEMPTS with (S 7). cbn [remove_loop]. rewrite run_section. unfold remove_section.
    rewrite Hf. unfold open_file_node. by rewrite Hat, Hk, Hop, Hb.
  - destruct (find_path p (set_node i (unlinked n) (registry w))) as [j|] eqn:E; [|done]. exfalso.
    apply find_path_Some in E as (m & Hm & Hmo & Hmp & _). simpl in Hm.
    destruct (decide (j = i)) as [->|Hj].
    + rewrite list_lookup_insert_eq in Hm by eauto using lookup_lt_Some. injection Hm as <-. by subst p.
    + rewrite list_lookup_insert_ne in Hm by done. apply Hj.
      eapply (sh_unique _ (t_shape _ (iv_tree _ Hi)) j i p); [|rewrite <-Hp; by apply shape_node|done].
      rewrite <-Hmp. by apply shape_node.
Qed.

(** C39. Permissions that are not checked. Whoever may not write to a directory is refused
    when removing a file there that nobody has open; but while somebody has it open, and
    its bytes are in memory, the same call by the same user succeeds and the name is gone.
    And moving a file or a whole directory asks only for the directory it goes to: whoever
    may write there gets exactly the effect that the superuser would get, wherever the file
    comes from and whosever it is. *)
Theorem permissions_bypassed D persist c w :
  inv w →
  (∀ p i n, validate_absolute_path nfc p = Ok tt → find_path p (registry w) = Some i → nodes (registry w) !! i = Some n → kind n = File →
     check_parent c p (registry w) = Err ReadOnly →
     let r := run (disk D) persist (remove nfc c p) w in
     if is_open i (open_files w) then backing n = None → r.2 = Ok tt ∧ find_path p (registry r.1) = None
     else r = (w, Err ReadOnly)) ∧
  (∀ old new, check_parent c new (registry w) = Ok tt → rename nfc c old new w = rename nfc ROOT old new w).
Proof.
  intros Hi. split.
  - intros p i n Hv Hf Hn Hk Hc. destruct (is_open i (open_files w)) eqn:Hop; cbv zeta.
    + intros Hb. by destruct (unlink_open_run D persist c p i n w) as [-> ?].
    + destruct (find_path_Some _ _ _ Hf) as (n' & Hn' & Ho & Hp & Hat). assert (n' = n) as -> by congruence.
      unfold remove. rewrite Hv. change ATTEMPTS with (S 7). cbn [remove_loop]. rewrite run_section. unfold remove_section.
      rewrite Hf. unfold open_file_node. rewrite Hat, Hk, Hop. cbn [andb]. rewrite andb_false_r.
      unfold registry_remove, removable_index. rewrite Hv. cbn [rbind].
      destruct (bool_decide (p = root_path)); [done|]. rewrite Hf. cbn [ok_or rbind]. by rewrite Hc.
  - intros old new Hc. unfold rename, registry_rename, validate_rename. by rewrite Hc, (check_parent_root c) by done.
Qed.

(** C40. Bytes stored through a shared mapping are lost. A writable file that is still on disk
    is accepted for a shared mapping without being loaded; the bytes that the mapping
    writes back are put into the node, which keeps loading from the disk; and as soon as no
    cached page of the file is left, every read returns the bytes of the disk, whatever was
    written and wherever. *)
Theorem mapped_bytes_lost D persist c id e n b off bytes w :
  inv w → get_mut id (open_files w) = Ok e → nodes (registry w) !! o_node e = Some n → backing n = Some b → settled D n →
  writable n = true → access_allowed c n true = true → access_allowed c n false = true →
  0 ≤ off → off + Z.of_nat (length bytes) ≤ size n →
  run (disk D) persist (prepare_shared_file c id) w = (w, Ok tt) ∧
  ∃ w', write_mapping_at c id off bytes w = (w', Ok tt) ∧
    ∀ pages pos len, unshared (o_node e) (o_generation e) pages → 0 ≤ pos ≤ size n → 0 ≤ len →
      (run (disk D) persist (read_at c id pos len) (with_frames pages w')).2 = Ok (take (Z.to_nat len) (drop (Z.to_nat pos) (D b))).
Proof.
  intros Hi Eg Hn Eb Hd Hw Haw Har Ho Hlen.
  destruct (file_get_mut_live _ _ _ Hi Eg) as (n' & _ & _ & Hn' & Hoc & _ & Hat & Hg & _). assert (n' = n) as -> by congruence. split.
  { unfold prepare_shared_file. change ATTEMPTS with (S 7). cbn [prepare_shared_loop]. rewrite run_section. unfold prepare_shared_begin, current_node.
    rewrite Eg. cbn [rbind]. rewrite Hat, Hoc, Hg, Z.eqb_refl. cbn [negb orb]. by rewrite Hw, Haw. }
  pose proof (write_mapping_inv c id off bytes w Ho Hi) as Hi'. revert Hi'.
  unfold write_mapping_at. rewrite Eg. cbn [on_ok]. rewrite Hat, Hoc, Hw, Haw, (proj2 (Z.ltb_ge _ _)) by done. cbn [negb orb fst].
  set (w' := with_frames _ _). intros Hi'. exists w'. split; [done|]. intros pages pos len Hu Hp Hl.
  set (n1 := set_bytes (poke off bytes (data n)) (size n) n).
  assert (Hn1 : nodes (registry w') !! o_node e = Some n1) by (simpl; by rewrite list_lookup_insert_eq by eauto using lookup_lt_Some).
  unfold read_at. rewrite (read_run D persist c id (Some pos) len e n1); try done; [|by apply inv_frames].
  cbn [default snd]. change (size n1) with (size n). unfold file_bytes. change (backing n1) with (backing n). rewrite Eb.
  cbn [frames with_frames]. rewrite overlay_unshared by done. f_equal. unfold slice. specialize (Hd b Eb).
  change (Datatypes.id pos) with pos. destruct (Z.min_spec (size n - pos) len) as [[? ->]|[? ->]]; [|done]. rewrite !take_ge; [done|..]; rewrite length_drop; lia.
Qed.

End Normalised.

End VfsTheorems.
