(* ===== verification/VfsTest.v ===== *)
(** * The self tests of vfs.rs and vfs_api.rs

    They run on the model with a normalisation that knows the one composition they use. *)
From stdpp Require Import relations.
From S2P Require Import Prelude Block DeviceIo Fat32Names Vfs VfsOps Bytes VfsInv VfsWorld VfsMachine VfsTheorems.
Import Names FileFrames Vfs VfsOps.

Module VfsTest.

(** The letter e followed by a combining acute accent is composed, all else is kept. *)
Fixpoint sample_nfc (p : list Z) : list (list Z) :=
  match p with
  | 0x65 :: 0xcc :: 0x81 :: p => [0xc3; 0xa9] :: sample_nfc p
  | b :: p => [b] :: sample_nfc p
  | [] => []
  end.

Section Tests.
Context (nfc : list Z → list (list Z)).

Definition fails {A} (e : Error) (r : result A Error) : bool := match r with Err e' => bool_decide (e' = e) | Ok _ => false end.

(** Operations of a scratch registry, with the superuser's credentials. *)
Definition s_mkdir (p : list Z) (r : Registry) : result Registry Error :=
  let? ir := registry_mkdir nfc ROOT p r in Ok ir.2.
Definition s_insert (p d : list Z) (w : bool) (r : Registry) : result (nat * Registry) Error := registry_insert nfc ROOT p d w r.
Definition s_remove := registry_remove nfc ROOT.
Definition s_rename := registry_rename nfc ROOT.
Definition s_stat := stat nfc ROOT.
Definition s_readdir := readdir nfc ROOT.
Definition s_write_file (p d : list Z) (r : Registry) : result Registry Error :=
  let '(w, res) := registry_write_file nfc ROOT p d (with_registry r world_boot) in
  let? _ := res in Ok (registry w).
Definition scratch : Registry := set_node 0 (directory (lit "/")) registry_empty.

Definition set_scratch_backing (p : list Z) (len : Z) (n : Node) : Node :=
  mkNode (path n) (data n) (Some p) len (writable n) (uid n) (gid n) (mode n) (kind n) (occupied n).

(** Nothing is on disk in these tests. *)
Definition alone {A} (m : prog A) (w : World) : World * A := run (λ _ _ _, Err tt) (λ _, true) m w.

Definition invalid_paths : list (list Z) :=
  [[]; lit "relative"; lit "//home"; lit "/home/"; lit "/home//x"; lit "/home/./x"; lit "/home/../x"; lit "/nul" ++ 0 :: lit "x"].

Definition refuses_path (live : World) (fs : Registry) (p : list Z) : bool :=
  fails InvalidPath (s_mkdir p fs) && fails InvalidPath (s_remove p fs) && fails InvalidPath (s_stat p fs) &&
  fails InvalidPath (s_readdir p 0 fs) && fails InvalidPath (s_rename p (lit "/valid") fs) &&
  fails InvalidPath (s_rename (lit "/mnt") p fs) && fails InvalidPath (s_write_file p (lit "x") fs) &&
  fails InvalidPath (open nfc p live).2 && fails InvalidPath (alone (read_all nfc ROOT p 1) live).2.

Definition entry_named (r : result DirEntry Error) (nm : list Z) : bool :=
  match r with Ok e => bool_decide (name e = nm) | Err _ => false end.

Definition no_moves (fs : Registry) (file_index : nat) (count0 : nat) : bool :=
  fails NotEmpty (s_remove (lit "/home/anthony") fs) &&
  fails NotFound (s_rename (lit "/home/anthony") (lit "/missing/user") fs) &&
  fails NotFound (s_rename (lit "/home/anthony") (lit "/mnt/test.txt/user") fs) &&
  fails InvalidPath (s_rename (lit "/home/anthony") (lit "/home/anthony/docs/user") fs) &&
  fails AlreadyExists (s_rename (lit "/home/anthony") (lit "/home/anthony2") fs) &&
  fails ReadOnly (s_rename (lit "/") (lit "/root") fs) && fails ReadOnly (s_rename (lit "/home") (lit "/") fs) &&
  fails NotFound (s_rename (lit "/missing") (lit "/missing") fs) &&
  match s_rename (lit "/home/anthony") (lit "/home/anthony") fs with
  | Ok fs => matches (node_at fs file_index) (lit "/home/anthony/docs/a.txt") && (count fs =? count0)%nat
  | Err _ => false
  end.

Definition after_move (fs : Registry) (file_index : nat) (count0 : nat) : bool :=
  negb (is_ok (s_stat (lit "/home/anthony") fs)) && negb (is_ok (s_stat (lit "/home/anthony/docs") fs)) &&
  negb (is_ok (s_stat (lit "/home/anthony/docs/a.txt") fs)) && is_ok (s_stat (lit "/home/user") fs) &&
  is_ok (s_stat (lit "/home/user/docs") fs) && is_ok (s_stat (lit "/home/anthony2") fs) &&
  matches (node_at fs file_index) (lit "/home/user/docs/a.txt") &&
  bool_decide (peek 0 7 (data (node_at fs file_index)) = lit "payload") && writable (node_at fs file_index) &&
  (count fs =? count0)%nat && entry_named (s_readdir (lit "/home/user") 0 fs) (lit "docs") &&
  entry_named (s_readdir (lit "/home/user/docs") 0 fs) (lit "a.txt").

Definition letters (c : Z) (n : nat) : list Z := replicate n c.

Definition path_semantics_self_test (live : World) (fs : Registry) : bool :=
  is_nfc_path nfc (lit "/caf" ++ [0xc3; 0xa9]) && negb (is_nfc_path nfc (lit "/cafe" ++ [0xcc; 0x81])) &&
  forallb (refuses_path live fs) invalid_paths &&
  is_ok (
    let? fs := s_mkdir (lit "/home") fs in
    let? fs := s_mkdir (lit "/home/anthony") fs in
    let? fs := s_mkdir (lit "/home/anthony/docs") fs in
    let? fs := s_mkdir (lit "/home/anthony2") fs in
    let? ir := s_insert (lit "/home/anthony/docs/a.txt") (lit "payload") true fs in
    let '(file_index, fs) := ir in
    let count0 := count fs in
    if negb (no_moves fs file_index count0) then Err Io
    else
    let? fs := s_rename (lit "/home/anthony") (lit "/home/user") fs in
    if negb (after_move fs file_index count0) then Err Io
    else
    let parent := SLASH :: letters 0x71 MAX_DIR_NAME in
    let destination := parent ++ SLASH :: letters 0x64 MAX_DIR_NAME in
    let? fs := s_mkdir parent fs in
    if negb (fails InvalidPath (s_rename (lit "/home/user") destination fs)) || is_ok (s_stat destination fs) ||
       negb (is_ok (s_stat (lit "/home/user/docs") fs)) || negb (matches (node_at fs file_index) (lit "/home/user/docs/a.txt"))
    then Err Io
    else
    let parent := SLASH :: letters 0x70 MAX_DIR_NAME in
    let child_len := (PATH_CAPACITY - length parent - 1)%nat in
    let boundary := parent ++ SLASH :: letters 0x61 child_len in
    let renamed := parent ++ SLASH :: letters 0x62 child_len in
    let oversized := parent ++ SLASH :: letters 0x63 (child_len + 1) in
    let long_component := SLASH :: letters 0x78 (MAX_DIR_NAME + 1) in
    let? fs := s_mkdir parent fs in
    let? fs := s_mkdir boundary fs in
    let? fs := s_rename boundary renamed fs in
    if negb (fails InvalidPath (s_mkdir oversized fs)) || negb (fails InvalidPath (s_mkdir long_component fs)) ||
       negb (fails InvalidPath (s_rename renamed oversized fs)) || negb (is_ok (s_stat renamed fs))
    then Err Io
    else
    let? fs := s_rename (lit "/home/user/docs") (lit "/mnt/docs") fs in
    let? fs := s_rename (lit "/mnt/docs/a.txt") (lit "/mnt/docs/b.txt") fs in
    let? fs := s_rename (lit "/mnt/docs") (lit "/d") fs in
    if negb (matches (node_at fs file_index) (lit "/d/b.txt")) || negb (fails NotEmpty (s_remove (lit "/d") fs)) then Err Io
    else
    let? fs := s_remove (lit "/d/b.txt") fs in
    let? fs := s_remove (lit "/d") fs in
    s_remove (lit "/home/user") fs).

Definition disk_write_semantics_self_test : bool :=
  is_ok (
    let? fs := s_mkdir (lit "/mnt") scratch in
    let? ir := s_insert (lit "/mnt/ro.txt") [] false fs in
    let '(ro, fs) := ir in
    let fs := set_node ro (set_scratch_backing (lit "/mnt/ro.txt") 5 (node_at fs ro)) fs in
    let ro_protected := fails ReadOnly (s_write_file (lit "/mnt/ro.txt") (lit "new") fs) &&
      bool_decide (is_Some (backing (node_at fs ro))) && (size (node_at fs ro) =? 5) in
    let? ir := s_insert (lit "/mnt/rw.txt") [] true fs in
    let '(rw, fs) := ir in
    let fs := set_node rw (set_scratch_backing (lit "/mnt/rw.txt") 5 (node_at fs rw)) fs in
    let? fs := s_write_file (lit "/mnt/rw.txt") (lit "new") fs in
    let n := node_at fs rw in
    if ro_protected && bool_decide (backing n = None) && (size n =? 3) && bool_decide (peek 0 3 (data n) = lit "new")
    then Ok tt else Err Io).

Definition backing_rename_semantics_self_test : bool :=
  is_ok (
    let? fs := s_mkdir (lit "/mnt") scratch in
    let? fs := s_mkdir (lit "/mnt/docs") fs in
    let? ir := s_insert (lit "/mnt/docs/a.txt") [] true fs in
    let fs := ir.2 in
    let? index := ok_or (find_path (lit "/mnt/docs/a.txt") fs) Io in
    let fs := set_node index (set_scratch_backing (lit "/mnt/docs/a.txt") 7 (node_at fs index)) fs in
    let? fs := s_rename (lit "/mnt/docs") (lit "/mnt/archive") fs in
    if matches (node_at fs index) (lit "/mnt/archive/a.txt") &&
       bool_decide (backing (node_at fs index) = Some (lit "/mnt/archive/a.txt"))
    then Ok tt else Err Io).

(** [while let Ok(entry) = readdir("/", index)], at most 17 entries. *)
Fixpoint listed (fuel : nat) (r : Registry) (index : nat) (nm : list Z) : bool :=
  match fuel with
  | O => false
  | S fuel =>
      match s_readdir (lit "/") index r with
      | Ok e => bool_decide (name e = nm) || listed fuel r (S index) nm
      | Err _ => false
      end
  end.

Definition stat_is (r : result Stat Error) (k : NodeKind) : bool := match r with Ok s => bool_decide (s_kind s = k) | Err _ => false end.

Definition scratch_part (live : World) : bool :=
  let root_ok := negb (is_ok (s_mkdir (lit "/") registry_empty)) in
  match registry_mkdir nfc ROOT (lit "/mnt") scratch with
  | Ok (1%nat, fs) =>
      match s_insert (lit "/mnt/test.txt") (lit "mounted") false fs with
      | Ok (_, fs) =>
          root_ok && fails AlreadyExists (s_insert (lit "/mnt/test.txt") (lit "again") false fs) &&
          fails InvalidPath (s_insert (lit "relative") (lit "bad") false fs) &&
          fails NotFound (s_insert (lit "/missing/file") (lit "x") false fs) && path_semantics_self_test live fs
      | Err _ => false
      end
  | _ => false
  end.

Definition stat_part (r : Registry) : bool :=
  stat_is (s_stat (lit "/") r) Directory && stat_is (s_stat (lit "/etc") r) Directory &&
  match s_stat (lit "/etc/motd") r with
  | Ok s => bool_decide (s_kind s = File) && (s_size s =? 24) && negb (s_writable s) && (s_uid s =? 0) && (s_gid s =? 0) &&
            (s_mode s =? rwx 4 4 4)
  | Err _ => false
  end && listed 17 r 0 (lit "etc") && listed 17 r 0 (lit "tmp").

Definition payload : list Z := lit "wovenhat-vfs".
Definition motd : list Z := lit "Welcome to WovenHat OS." ++ [10].
Definition test_file : list Z := lit "/tmp/vfs-self-test".

Definition returned {A} `{EqDecision A} (r : result A Error) (a : A) : bool :=
  match r with Ok x => bool_decide (x = a) | Err _ => false end.

(** The descriptors of the live part, in the order they are made. *)
Definition live_part (w : World) : bool :=
  match open nfc test_file w with
  | (w, Ok writer) =>
      let '(w, written) := alone (write ROOT writer payload) w in
      match clone_open_file writer w with
      | (w, Ok shared) =>
          let '(w, probe) := alone (read ROOT shared 4) w in
          match open nfc test_file w with
          | (w, Ok reader) =>
              let '(w, got) := alone (read ROOT reader 12) w in
              match open nfc (lit "/etc/motd") w with
              | (w, Ok protected) =>
                  let '(w, refused) := alone (write ROOT protected (lit "x")) w in
                  let '(w, complete) := alone (read_all nfc ROOT (lit "/etc/motd") 32) w in
                  let dir_open_rejected := negb (is_ok (open nfc (lit "/etc") w).2) in
                  let '(w, moved) := rename nfc ROOT (lit "/tmp") (lit "/vfs-moved") w in
                  let '(w, sought) := seek reader 0 w in
                  let '(w, again) := alone (read ROOT reader 12) w in
                  let handle_survives := is_ok moved && returned sought 0 && returned again payload &&
                    negb (is_ok (s_stat test_file (registry w))) && is_ok (s_stat (lit "/vfs-moved/vfs-self-test") (registry w)) in
                  let '(w, restored) := rename nfc ROOT (lit "/vfs-moved") (lit "/tmp") w in
                  let w := foldl (λ w id, (close_open_file id w).1) w [protected; reader; shared; writer] in
                  match open nfc test_file w with
                  | (w, Ok reused) =>
                      let stale_handle_rejected := negb (bool_decide (reused = writer)) &&
                        fails InvalidDescriptor (clone_open_file writer w).2 && fails InvalidDescriptor (file_size writer w) in
                      let w := (close_open_file reused w).1 in
                      returned written 12 && returned probe [] && returned got payload && fails ReadOnly refused &&
                      returned complete motd && dir_open_rejected && handle_survives && is_ok restored &&
                      stale_handle_rejected && (open_file_description_count w =? 0)%nat && (node_count w =? 8)%nat
                  | _ => false
                  end
              | _ => false
              end
          | _ => false
          end
      | _ => false
      end
  | _ => false
  end.

Definition self_test (w : World) : bool :=
  scratch_part w && disk_write_semantics_self_test && backing_rename_semantics_self_test && stat_part (registry w) && live_part w.

(** ** vfs_api.rs *)
Record Metadata := mkMetadata { m_size : Z; m_directory : bool; m_generation : Z }.
Definition api_stat (c : Credentials) (p : list Z) (w : World) : result Metadata Error :=
  let? s := stat nfc c p (registry w) in
  Ok (mkMetadata (s_size s) (bool_decide (s_kind s = Directory)) 1).

Definition structural_self_test (w : World) : bool :=
  let p := lit "/tmp/stage12-vfs.txt" in
  let '(w, _) := alone (remove nfc ROOT p) w in
  match write_file nfc ROOT p (lit "woven") w with
  | (w, Ok _) =>
      match api_stat ROOT p w, open nfc p w with
      | Ok meta, (w, Ok file) =>
          let '(w, got) := alone (read ROOT file 5) w in
          let '(w, closed) := close_open_file file w in
          let '(w, removed) := alone (remove nfc ROOT p) w in
          returned got (lit "woven") && is_ok closed && is_ok removed && (m_size meta =? 5) && negb (m_directory meta) &&
          negb (m_generation meta =? 0)
      | _, _ => false
      end
  | _ => false
  end.

End Tests.

(** The model passes the tests that the kernel runs at boot. *)
Lemma vfs_self_tests_pass : self_test sample_nfc world_boot = true ∧ structural_self_test sample_nfc world_boot = true.
Proof. split; vm_compute; reflexivity. Qed.

End VfsTest.

(** * Witnesses for the file system *)
Import Io Bytes Names FileFrames Vfs VfsPaths VfsInv VfsOps VfsWorld VfsSections VfsFiles VfsMachine VfsContents VfsTest VfsSafety VfsTheorems.

Module VfsDemo.

Abbreviation nfc := sample_nfc.
Definition user : Credentials := mkCredentials 1000 1000.
Definition no_disk : list Z → list Z := λ _, [].

(** ** A run of three calls: open, rename the directory, unlink *)
Definition motd_path : list Z := lit "/etc/motd".
Definition w_open : World := (open nfc motd_path world_boot).1.
Definition motd_id : OpenFileId := mkId 0 1.
Definition w_moved : World := (rename nfc ROOT (lit "/etc") (lit "/cfg") w_open).1.
Definition w_test : World := (open nfc test_file world_boot).1.

Lemma call_once {A} (m : World → World * A) (x : call) w ts :
  program nfc x = silent (atomically m) → call_typed x → rtc (step nfc) (w, ts) ((m w).1, Ret tt :: ts).
Proof.
  intros Hp Ht. eapply rtc_l; [by apply (step_call nfc w ts x)|]. rewrite Hp. apply rtc_once.
  apply (step_lock nfc w [] ts (λ w, (m w).1) (λ w, pbind (λ _, Ret tt) (Ret (m w).2))).
Qed.

Lemma run_open : rtc (step nfc) (world_boot, []) (w_open, [Ret tt]).
Proof. by apply (call_once (open nfc motd_path) (Open motd_path)). Qed.
Lemma run_moved : rtc (step nfc) (w_open, [Ret tt]) (w_moved, [Ret tt; Ret tt]).
Proof. by apply (call_once (rename nfc ROOT (lit "/etc") (lit "/cfg")) (Rename ROOT (lit "/etc") (lit "/cfg"))). Qed.
Lemma run_test : rtc (step nfc) (world_boot, []) (w_test, [Ret tt]).
Proof. by apply (call_once (open nfc test_file) (Open test_file)). Qed.

Lemma inv_test : inv w_test.
Proof. apply (file_open_inv nfc test_file world_boot vfs_inv_boot). Qed.

Lemma vfs_stays_a_tree_witness : inv w_moved.
Proof. refine (vfs_stays_a_tree nfc w_moved _ _). etransitivity; [apply run_open|apply run_moved]. Defined.

Lemma descriptor_denotes_one_file_witness :
  get_mut motd_id (open_files w_moved) = Ok (mkOpen 5 0 1 0 1 true) ∧
  (∃ n, nodes (registry w_moved) !! 5%nat = Some n ∧ occupied n = true ∧ kind n = File ∧ generation_of (registry w_moved) 5 = 0).
Proof.
  split; [vm_compute; reflexivity|].
  destruct (descriptor_denotes_one_file nfc w_open _ w_moved _ motd_id run_open run_moved) as [H _].
  destruct (H (mkOpen 5 0 1 0 1 true) (mkOpen 5 0 1 0 1 true)) as (_ & _ & Hn); [vm_compute; reflexivity..|]. exact Hn.
Defined.

Definition test_node : Node := with_data test_file [] true.
Definition test_entry : OpenFileDescription := mkOpen 7 0 1 0 1 true.

Lemma file_is_a_byte_sequence_witness :
  ∃ w' n', run (disk no_disk) (λ _, true) (write user motd_id (lit "woven")) w_test = (w', Ok 5) ∧
    nodes (registry w') = <[7%nat := n']> (nodes (registry w_test)) ∧ file_bytes no_disk n' = lit "woven" ∧
    get_mut motd_id (open_files w') = Ok (mkOpen 7 0 1 5 1 true).
Proof.
  destruct (file_is_a_byte_sequence no_disk (λ _, true) user motd_id test_entry test_node w_test inv_test) as (_ & _ & H).
  - vm_compute. reflexivity.
  - vm_compute. reflexivity.
  - intros b Hb. discriminate Hb.
  - intros e He. vm_compute in He. inversion He.
  - destruct (H eq_refl eq_refl None (lit "woven")) as (w' & n' & H1 & H2 & H3 & H4 & _); [split; vm_compute; discriminate|vm_compute; discriminate|].
    exists w', n'. split; [exact H1|]. split; [exact H2|]. split; [rewrite H4; vm_compute; reflexivity|].
    rewrite H3. vm_compute. reflexivity.
Defined.

(** A page of the test file that a mapping shares, with stale contents. *)
Definition test_page : Entry := mkEntry (mkKey 7 0 0 0 4096 true 0) (replicate 4096 7) 2 0.
Definition w_mapped : World := with_frames (Some test_page :: replicate 63 None) w_test.

Lemma written_bytes_read_back_witness :
  (run (disk no_disk) (λ _, true) (_ ← write_at user motd_id 0 (lit "woven"); read_at user motd_id 0 5) w_mapped).2 = Ok (lit "woven").
Proof.
  refine (written_bytes_read_back no_disk (λ _, true) user motd_id test_entry test_node 0 (lit "woven") w_mapped _ _ _ _ _ _ _ _ _ _).
  - apply inv_frames, inv_test.
  - vm_compute. reflexivity.
  - vm_compute. reflexivity.
  - intros b Hb. discriminate Hb.
  - change (flatten (frames w_mapped)) with [test_page]. apply Forall_singleton. unfold frame_ok. split; [reflexivity|]. vm_compute. intuition discriminate.
  - reflexivity.
  - vm_compute. reflexivity.
  - vm_compute. reflexivity.
  - split; vm_compute; discriminate.
  - vm_compute. discriminate.
Defined.


Lemma join_below cs c p : join cs = p → p ≠ root_path → join (cs ++ [c]) = p ++ SLASH :: c.
Proof.
  intros <- Hr. destruct cs as [|d cs]; [done|]. rewrite (join_flat (d :: cs)), join_snoc by done. rewrite flat_app.
  change (flat [c]) with (SLASH :: c ++ []). by rewrite app_nil_r.
Qed.

Lemma motd_component : component (lit "motd").
Proof. split; [discriminate|]. split; [refine (bool_decide_unpack _ _); vm_compute; exact I|]. vm_compute. lia. Qed.

Lemma rename_moves_the_subtree_witness :
  find_path (lit "/cfg/motd") (registry w_moved) = Some 5%nat ∧ find_path (lit "/etc/motd") (registry w_moved) = None.
Proof.
  destruct (rename_moves_the_subtree nfc ROOT (lit "/etc") (lit "/cfg") w_open w_moved) as (os & ns & i0 & d & Ho & Hn & _ & _ & H1 & H2 & _).
  - apply (file_open_inv nfc motd_path world_boot vfs_inv_boot).
  - vm_compute. reflexivity.
  - discriminate.
  - assert (Hc : Forall component [lit "motd"]) by (apply Forall_singleton, motd_component).
    specialize (H1 _ Hc). specialize (H2 _ Hc).
    rewrite (join_below ns (lit "motd") (lit "/cfg")), (join_below os (lit "motd") (lit "/etc")) in H1; [|symmetry; assumption|discriminate|symmetry; assumption|discriminate].
    rewrite (join_below os (lit "motd") (lit "/etc")) in H2; [|symmetry; assumption|discriminate].
    split; [exact (eq_trans H1 eq_refl)|exact H2].
Defined.

Lemma readdir_lists_the_children_witness :
  ∃ children : list DirEntry, (∀ index, readdir nfc user (lit "/etc") index registry_boot = match children !! index with Some e => Ok e | None => Err NotFound end) ∧
    mkDirEntry (lit "motd") File ∈ children.
Proof.
  destruct (readdir_lists_the_children nfc user [lit "etc"] (directory (lit "/etc")) registry_boot) as (ch & _ & H1 & H2).
  - apply vfs_inv_boot.
  - apply Forall_singleton. split; [discriminate|]. split; [refine (bool_decide_unpack _ _); vm_compute; exact I|]. vm_compute. lia.
  - vm_compute. reflexivity.
  - vm_compute. reflexivity.
  - vm_compute. reflexivity.
  - exists ch. split; [exact H1|]. apply H2. split; [apply motd_component|]. exists 5%nat. vm_compute. reflexivity.
Defined.

(** ** Flaws *)
Lemma inv_open : inv w_open.
Proof. apply (file_open_inv nfc motd_path world_boot vfs_inv_boot). Qed.

(** An ordinary user in /etc: refused while the file is closed, not while it is open; and
    moving it out needs /tmp only. *)
Lemma permissions_bypassed_witness :
  check_parent user motd_path (registry w_open) = Err ReadOnly ∧
  run (disk no_disk) (λ _, true) (remove nfc user motd_path) world_boot = (world_boot, Err ReadOnly) ∧
  (let r := run (disk no_disk) (λ _, true) (remove nfc user motd_path) w_open in r.2 = Ok tt ∧ find_path motd_path (registry r.1) = None) ∧
  (rename nfc user motd_path (lit "/tmp/motd") w_open).2 = Ok tt.
Proof.
  destruct (permissions_bypassed nfc no_disk (λ _, true) user w_open inv_open) as [H1 H2].
  destruct (permissions_bypassed nfc no_disk (λ _, true) user world_boot vfs_inv_boot) as [H3 _].
  split; [vm_compute; reflexivity|]. split; [|split].
  - apply (H3 motd_path 5%nat (node_at (registry world_boot) 5)); vm_compute; reflexivity.
  - refine (H1 motd_path 5%nat (node_at (registry w_open) 5) _ _ _ _ _ _); vm_compute; reflexivity.
  - rewrite (H2 motd_path (lit "/tmp/motd")); vm_compute; reflexivity.
Defined.

(** A disk file that may be written, imported when the volume is mounted, and its first page as
    a shared mapping that stored "new!" into it. *)
Definition disk_file : list Z := lit "/mnt/a".
Definition with_old : list Z → list Z := λ p, if bool_decide (p = disk_file) then lit "old!" else [].
Definition w_disk : World := (open nfc disk_file (create_disk_file_with_writable nfc ROOT disk_file 4 true world_boot).1).1.
Definition disk_id : OpenFileId := mkId 0 1.
Definition disk_node : Node := node_at (registry w_disk) 8.
Definition disk_entry : OpenFileDescription := mkOpen 8 0 1 0 1 true.

Lemma inv_disk : inv w_disk.
Proof. apply (file_open_inv nfc disk_file), create_disk_file_inv, vfs_inv_boot. lia. Qed.

Lemma mapped_bytes_lost_witness :
  run (disk with_old) (λ _, true) (prepare_shared_file ROOT disk_id) w_disk = (w_disk, Ok tt) ∧
  ∃ w', write_mapping_at ROOT disk_id 0 (lit "new!") w_disk = (w', Ok tt) ∧
    (run (disk with_old) (λ _, true) (read_at ROOT disk_id 0 4) (with_frames (replicate 64 None) w')).2 = Ok (lit "old!").
Proof.
  destruct (mapped_bytes_lost with_old (λ _, true) ROOT disk_id disk_entry disk_node disk_file 0 (lit "new!") w_disk inv_disk)
    as [H1 (w' & H2 & H3)].
  - vm_compute. reflexivity.
  - vm_compute. reflexivity.
  - vm_compute. reflexivity.
  - intros b Hb. vm_compute in Hb. injection Hb as <-. vm_compute. reflexivity.
  - vm_compute. reflexivity.
  - vm_compute. reflexivity.
  - vm_compute. reflexivity.
  - lia.
  - vm_compute. discriminate.
  - split; [exact H1|]. exists w'. split; [exact H2|]. rewrite H3.
    + vm_compute. reflexivity.
    + intros x Hx. vm_compute in Hx. inversion Hx.
    + split; vm_compute; discriminate.
    + lia.
Defined.

End VfsDemo.
