(* ===== verification/Swap.v ===== *)
(** * Swap slots: swap.rs

    Up to 32 pages in memory or in a disk area, behind handles with generations. A page
    that goes to disk is reserved under the lock, written without it, and then published:
    the operations of other CPUs fall in between. *)
From stdpp Require Import relations.
From S2P Require Import Prelude Block DeviceIo Bytes.
Import Block Io Bytes.

Module Swap.

Definition PAGE_SIZE : nat := 4096.
Definition SECTORS_PER_PAGE : Z := 8.
Definition MAX_SWAP_SLOTS : nat := 32.

Record Handle := mkHandle { index : nat; h_generation : Z }.
#[export] Instance handle_eq_dec : EqDecision Handle.
Proof. solve_decision. Defined.

Inductive Backing := Ram | Disk.
#[export] Instance backing_eq_dec : EqDecision Backing.
Proof. solve_decision. Defined.

Record Slot := mkSlot {
  data : list Z;
  refcount : Z;
  generation : Z;
  occupied : bool;
  backing : Backing;
}.
Definition slot_empty : Slot := mkSlot (replicate PAGE_SIZE 0) 0 0 false Ram.
Definition slot_clear (s : Slot) : Slot := mkSlot (data slot_empty) 0 (generation s) false Ram.

Record DiskBacking := mkDisk { start_lba : Z; slots_on_disk : nat }.
Record State := mkState { slots : list Slot; disk : option DiskBacking }.
Definition state_new : State := mkState (replicate MAX_SWAP_SLOTS slot_empty) None.

Definition in_use (s : Slot) : bool := occupied s && (0 <? refcount s).
Definition used (st : State) : nat := count_if in_use (slots st).

Definition configure_disk (start sectors : Z) (st : State) : State * option nat :=
  if negb (used st =? 0)%nat || (sectors <? SECTORS_PER_PAGE) then (st, None)
  else
  let n := Nat.min MAX_SWAP_SLOTS (Z.to_nat (sectors / SECTORS_PER_PAGE)) in
  if (n =? 0)%nat then (st, None) else (mkState (slots st) (Some (mkDisk start n)), Some n).

Definition free_slot (st : State) : option nat := position (λ s, negb (occupied s)) (slots st).

Definition disk_lba (i : nat) (st : State) : option Z :=
  d ← disk st;
  if (slots_on_disk d <=? i)%nat then None
  else offset ← checked_mul64 (Z.of_nat i) SECTORS_PER_PAGE; checked_add64 (start_lba d) offset.

Definition slot_at (i : nat) (st : State) : Slot := default slot_empty (slots st !! i).
Definition set_slot (i : nat) (s : Slot) (st : State) : State := mkState (<[i := s]> (slots st)) (disk st).

Definition next_generation (i : nat) (st : State) : Z :=
  let g := as_u16 (generation (slot_at i st) + 1) in if g =? 0 then 1 else g.

Definition occupy (i : nat) (b : Backing) (bytes : option (list Z)) (st : State) : State * Handle :=
  let g := next_generation i st in
  let d := match bytes with Some bytes => bytes | None => data slot_empty end in
  (set_slot i (mkSlot d 1 g true b) st, mkHandle i g).

Definition reserve_disk (st : State) : State * option (nat * Z * Z) :=
  match free_slot st with
  | None => (st, None)
  | Some i =>
      match disk_lba i st with
      | None => (st, None)
      | Some lba => let g := next_generation i st in (set_slot i (mkSlot (data slot_empty) 0 g true Disk) st, Some (i, g, lba))
      end
  end.

Definition reserved (g : Z) (s : Slot) : bool := occupied s && (refcount s =? 0) && (generation s =? g).

Definition publish_reserved_disk (i : nat) (g : Z) (st : State) : State * option Handle :=
  match slots st !! i with
  | None => (st, None)
  | Some s =>
      if negb (reserved g s) then (st, None)
      else (set_slot i (mkSlot (data s) 1 (generation s) (occupied s) Disk) st, Some (mkHandle i g))
  end.

Definition cancel_reserved (i : nat) (g : Z) (st : State) : State :=
  match slots st !! i with
  | None => st
  | Some s => if reserved g s then set_slot i (slot_clear s) st else st
  end.

Definition allocate_ram (bytes : list Z) (st : State) : State * option Handle :=
  match free_slot st with
  | None => (st, None)
  | Some i => let '(st, h) := occupy i Ram (Some bytes) st in (st, Some h)
  end.

Definition get (h : Handle) (st : State) : option Slot :=
  s ← slots st !! index h;
  if in_use s && (generation s =? h_generation h) then Some s else None.

Definition read_ram (h : Handle) (st : State) : option (list Z) :=
  s ← get h st; if bool_decide (backing s = Ram) then Some (data s) else None.

Definition disk_read_lba (h : Handle) (st : State) : option Z :=
  s ← get h st; if bool_decide (backing s = Disk) then disk_lba (index h) st else None.

Definition set_refcount (n : Z) (s : Slot) : Slot := mkSlot (data s) n (generation s) (occupied s) (backing s).

Definition share (h : Handle) (st : State) : State * bool :=
  match get h st with
  | None => (st, false)
  | Some s => if refcount s + 1 <=? u16_max then (set_slot (index h) (set_refcount (refcount s + 1) s) st, true) else (st, false)
  end.

Definition release (h : Handle) (st : State) : State * bool :=
  match get h st with
  | None => (st, false)
  | Some s =>
      let n := saturating_sub (refcount s) 1 in
      (set_slot (index h) (if n =? 0 then slot_clear (set_refcount n s) else set_refcount n s) st, true)
  end.

Record Stats := mkStats { s_used : nat; ram_used : nat; disk_used : nat; disk_slots : nat }.
Definition stats (st : State) : Stats :=
  mkStats (used st) (count_if (λ s, in_use s && bool_decide (backing s = Ram)) (slots st))
    (count_if (λ s, in_use s && bool_decide (backing s = Disk)) (slots st))
    (match disk st with Some d => slots_on_disk d | None => 0 end).

(** ** Pages on a device *)
Section device.
Context {D : Type} `{BlockDevice D}.

Definition sector_lba (start : Z) (k : nat) : io D Error Z := iresult (ok_or (checked_add64 start (Z.of_nat k)) OutOfBounds).

Definition write_page_to_device (start : Z) (bytes : list Z) : io D Error () :=
  ifold (λ _ k, let! lba := sector_lba start k in dwrite id lba (slice (k * SECTOR_SIZE) SECTOR_SIZE bytes)) (seq 0 8) ().

Definition read_page_from_device (start : Z) (bytes : list Z) : io D Error (list Z) :=
  ifold (λ bytes k,
    let! lba := sector_lba start k in
    let! s := dread id lba (slice (k * SECTOR_SIZE) SECTOR_SIZE bytes) in
    iret (splice (k * SECTOR_SIZE) s bytes)) (seq 0 8) bytes.

(** [write_page_to_device(..).is_ok() && device.flush().is_ok()] *)
Definition write_and_flush (lba : Z) (bytes : list Z) (d : D) : D * bool :=
  match write_page_to_device lba bytes d with
  | (d, Err _) => (d, false)
  | (d, Ok _) => let '(d, r) := flush d in (d, is_ok r)
  end.

Definition allocate_disk (bytes : list Z) (st : State) (d : D) : State * D * option Handle :=
  match reserve_disk st with
  | (st, None) => (st, d, None)
  | (st, Some (i, g, lba)) =>
      match write_and_flush lba bytes d with
      | (d, false) => (cancel_reserved i g st, d, None)
      | (d, true) => let '(st, h) := publish_reserved_disk i g st in (st, d, h)
      end
  end.

Definition read_disk (h : Handle) (bytes : list Z) (st : State) (d : D) : D * option (list Z) :=
  match disk_read_lba h st with
  | None => (d, None)
  | Some lba => match read_page_from_device lba bytes d with (d, Ok bytes) => (d, Some bytes) | (d, Err _) => (d, None) end
  end.

(** The public functions: what happens under the lock, with the disk transfer in between.
    [present] is [block_io::primary_ata_present]. *)
Definition allocate_finish (i : nat) (g : Z) (wrote : bool) (bytes : list Z) (st : State) : State * option Handle :=
  let '(st, h) := if wrote then publish_reserved_disk i g st else (st, None) in
  match h with
  | Some h => (st, Some h)
  | None => allocate_ram bytes (cancel_reserved i g st)
  end.

Definition allocate_page (present : bool) (bytes : list Z) (st : State) (d : D) : State * D * option Handle :=
  match reserve_disk st with
  | (st, Some (i, g, lba)) =>
      let '(d, wrote) := if present then write_and_flush lba bytes d else (d, false) in
      let '(st, h) := allocate_finish i g wrote bytes st in (st, d, h)
  | (st, None) => let '(st, h) := allocate_ram bytes st in (st, d, h)
  end.

Definition read_page (present : bool) (h : Handle) (bytes : list Z) (st : State) (d : D) : D * option (list Z) :=
  match read_ram h st with
  | Some page => (d, Some page)
  | None =>
      match disk_read_lba h st with
      | None => (d, None)
      | Some lba =>
          if negb present then (d, None)
          else match read_page_from_device lba bytes d with (d, Ok bytes) => (d, Some bytes) | (d, Err _) => (d, None) end
      end
  end.

End device.

(** ** The self test *)
Definition first_page : list Z := (λ k, (Z.of_nat k mod 256 * 3 + 7) mod 256) <$> seq 0 PAGE_SIZE.
Definition second_page : list Z := (λ k, 255 - Z.of_nat k mod 256) <$> seq 0 PAGE_SIZE.
Definition blank : list Z := replicate PAGE_SIZE 0.

Definition reads (h : Handle) (page : list Z) (st : State) (d : RamDisk) : bool :=
  match (read_disk h blank st d).2 with Some out => bool_decide (out = page) | None => false end.
Definition unreadable (h : Handle) (st : State) (d : RamDisk) : bool := negb (bool_decide (is_Some (read_disk h blank st d).2)).

Definition ram_part : bool :=
  match allocate_ram first_page state_new with
  | (st, Some h) => bool_decide (read_ram h st = Some first_page) && (release h st).2
  | _ => false
  end.

Definition self_test : bool :=
  match configure_disk 8 16 state_new with
  | (st, Some 2%nat) =>
      match allocate_disk first_page st (new 32) with
      | (st, d, Some h1) =>
          match allocate_disk second_page st d with
          | (st, d, Some h2) =>
              let '(st, d, h3) := allocate_disk first_page st d in
              let '(st1, shared) := share h1 st in
              let '(st2, released) := release h1 st1 in
              let '(st3, released') := release h1 st2 in
              match allocate_disk second_page st3 d with
              | (st4, d', Some reused) =>
                  let '(st5, r1) := release h2 st4 in
                  let '(st6, r2) := release reused st5 in
                  let '(st7, d7, h7) := allocate_disk first_page st6 (set_read_only true d') in
                  bool_decide (h3 = None) && reads h1 first_page st d && shared && released && reads h1 first_page st2 d &&
                  released' && unreadable h1 st3 d && negb (bool_decide (reused = h1)) && unreadable h1 st4 d' &&
                  r1 && r2 && (used st6 =? 0)%nat && ram_part && bool_decide (h7 = None) && (used st7 =? 0)%nat
              | _ => false
              end
          | _ => false
          end
      | _ => false
      end
  | _ => false
  end.

Lemma swap_self_test_passes : self_test = true.
Proof. vm_compute. reflexivity. Qed.

End Swap.

(** * Swapped pages come back as they were *)
Import Block Io Bytes Swap.

Module SwapProofs.

Section device.
Context {D : Type} `{BlockDevice D} (ok : D → Prop) (sector : D → Z → list Z) `{!Lawful ok sector}.

(** ** Pages on the device *)
Definition page_upto (d : D) (lba : Z) (k : nat) : list Z := mjoin ((λ i : nat, sector d (lba + Z.of_nat i)) <$> seq 0 k).
Definition page (d : D) (lba : Z) : list Z := page_upto d lba 8.

Lemma page_upto_S d lba k : page_upto d lba (S k) = page_upto d lba k ++ sector d (lba + Z.of_nat k).
Proof. unfold page_upto. rewrite seq_S, fmap_app, join_app. simpl. by rewrite app_nil_r. Qed.

Lemma page_upto_ext d d' lba k : (∀ i : nat, (i < k)%nat → sector d' (lba + Z.of_nat i) = sector d (lba + Z.of_nat i)) → page_upto d' lba k = page_upto d lba k.
Proof.
  intros He. unfold page_upto. f_equal. apply list_fmap_ext. intros i x Hx. apply lookup_seq in Hx as [-> Hx]. by apply He.
Qed.

(** Nothing outside the sectors from [lo] below [hi] changed. *)
Definition outside (lo hi : Z) (d d' : D) : Prop :=
  ok d' ∧ sector_count d' = sector_count d ∧ ∀ k, 0 ≤ k < sector_count d → ¬ (lo ≤ k < hi) → sector d' k = sector d k.

Lemma outside_refl lo hi d : ok d → outside lo hi d d.
Proof. intros Hok. unfold outside. by split_and!. Qed.

Lemma outside_trans lo hi lo' hi' d1 d2 d3 :
  lo ≤ lo' → hi' ≤ hi → outside lo hi d1 d2 → outside lo' hi' d2 d3 → outside lo hi d1 d3.
Proof.
  intros Hl Hh (O1 & C1 & S1) (O2 & C2 & S2). unfold outside. split_and!; [done|congruence|]. intros k Hk Hn. rewrite S2, S1; [done|done|done|lia|lia].
Qed.

Definition ends (lba : Z) : Z := lba + SECTORS_PER_PAGE.

(** The page of [lba] is on the device. *)
Definition stored (lba : Z) (bytes : list Z) (d : D) : Prop := ends lba ≤ sector_count d ∧ page d lba = bytes.

Lemma stored_outside lba lo hi bytes d d' :
  0 ≤ lba → ends lba ≤ lo ∨ hi ≤ lba → outside lo hi d d' → stored lba bytes d → stored lba bytes d'.
Proof.
  intros Hl Hd (_ & Hc & Hs) [Hin Hp]. split; [by rewrite Hc|]. rewrite <- Hp. apply page_upto_ext. intros i Hi.
  unfold ends, SECTORS_PER_PAGE in *. apply Hs; lia.
Qed.

Lemma slices_of_page (bytes : list Z) k :
  (k * SECTOR_SIZE ≤ length bytes)%nat → mjoin ((λ i : nat, slice (i * SECTOR_SIZE) SECTOR_SIZE bytes) <$> seq 0 k) = take (k * SECTOR_SIZE) bytes.
Proof.
  unfold SECTOR_SIZE. induction k as [|k IH]; intros Hl; [done|]. rewrite seq_S, fmap_app, join_app, IH by lia. simpl. rewrite app_nil_r.
  unfold slice. rewrite take_take_drop. f_equal. lia.
Qed.

Lemma write_loop_spec start bytes k j d :
  (j + k = 8)%nat → ok d → 0 ≤ start →
  wp (ifold (λ _ k, let! lba := sector_lba start k in dwrite id lba (slice (k * SECTOR_SIZE) SECTOR_SIZE bytes)) (seq j k) () : io D Error ()) d
    (λ d' r, outside (start + Z.of_nat j) (ends start) d d' ∧
       (r = Ok () → (k = 0%nat ∨ ends start ≤ sector_count d) ∧
          ∀ i : nat, (j ≤ i < 8)%nat → sector d' (start + Z.of_nat i) = slice (i * SECTOR_SIZE) SECTOR_SIZE bytes)).
Proof.
  revert j d. induction k as [|k IH]; intros j d Hk Hok Hs.
  - apply wp_ret. split; [by apply outside_refl|]. intros _. split; [by left|]. intros i Hi. lia.
  - cbn [seq ifold]. apply wp_bind, wp_bind. unfold sector_lba. apply wp_result. unfold checked_add64.
    destruct (Z.leb_spec (start + Z.of_nat j) u64_max); simpl; [|split; [by apply outside_refl|done]].
    apply (wp_write ok sector); [done|lia|..].
    + intros d' e (Ho & Hc & _ & Hd). split; [|done]. unfold outside. split_and!; try done. intros i Hi Hn.
      apply Hd; [done|]. unfold ends, SECTORS_PER_PAGE in Hn. lia.
    + intros d' (Ho & Hc & _ & Hd) Hlt Hx.
      assert (Hout : outside (start + Z.of_nat j) (ends start) d d').
      { unfold outside. split_and!; try done. intros i Hi Hn. apply Hd; [done|]. unfold ends, SECTORS_PER_PAGE in Hn. lia. }
      eapply wp_mono; [apply (IH (S j) d'); [lia|done..]|]. intros d2 r [Hout2 Hr]. split.
      { eapply outside_trans; [| |done|done]; lia. }
      intros ->. destruct (Hr eq_refl) as [Hcount Hall]. split.
      * right. unfold ends, SECTORS_PER_PAGE in *. destruct Hcount as [->|]; lia.
      * intros i Hi. destruct (decide (i = j)) as [->|Hne]; [|apply Hall; lia]. destruct Hout2 as (_ & Hc2 & Hs2).
        rewrite Hs2; [done|lia|lia].
Qed.

Lemma write_page_spec start bytes d :
  ok d → 0 ≤ start → length bytes = PAGE_SIZE →
  wp (write_page_to_device start bytes) d (λ d' r, outside start (ends start) d d' ∧ (r = Ok () → stored start bytes d')).
Proof.
  intros Hok Hs Hb. unfold write_page_to_device. eapply wp_mono; [by apply (write_loop_spec start bytes 8 0 d)|].
  intros d' r [Hout Hr]. rewrite Z.add_0_r in Hout. split; [done|]. intros Hrk. destruct (Hr Hrk) as [[|Hc] Hall]; [done|].
  split; [by rewrite (proj1 (proj2 Hout))|]. unfold page, page_upto.
  rewrite (list_fmap_ext _ (λ i : nat, slice (i * SECTOR_SIZE) SECTOR_SIZE bytes) (seq 0 8)) by (intros i x Hx; apply lookup_seq in Hx as [-> Hx]; apply Hall; lia).
  rewrite slices_of_page by (rewrite Hb; unfold PAGE_SIZE, SECTOR_SIZE; lia). apply take_ge. rewrite Hb. unfold PAGE_SIZE, SECTOR_SIZE. lia.
Qed.

Lemma write_and_flush_spec start bytes d d' b :
  ok d → 0 ≤ start → length bytes = PAGE_SIZE → write_and_flush start bytes d = (d', b) →
  outside start (ends start) d d' ∧ (b = true → stored start bytes d').
Proof.
  intros Hok Hs Hb. unfold write_and_flush. pose proof (write_page_spec start bytes d Hok Hs Hb) as Hw. unfold wp in Hw.
  destruct (write_page_to_device start bytes d) as [d1 [[]|e]]; [|intros ?; simplify_eq; by split; [apply Hw|]].
  destruct Hw as [Hout Hst]. pose proof (law_flush d1 (proj1 Hout)) as Hf. destruct (flush d1) as [d2 r] eqn:Ef. intros ?; simplify_eq.
  destruct Hf as (Ho & Hc & _ & Hd). destruct (Hst eq_refl) as [Hin Hp].
  assert (Hout2 : outside start (ends start) d1 d') by (unfold outside; split_and!; [done|done|intros; by apply Hd]). split.
  - eapply outside_trans; [| |done|done]; lia.
  - intros _. split; [by rewrite Hc|]. rewrite <- Hp. apply page_upto_ext. intros i Hi. unfold ends, SECTORS_PER_PAGE in Hin. apply Hd. lia.
Qed.

Lemma swap_read_loop_spec start k j bytes d :
  (j + k = 8)%nat → ok d → 0 ≤ start → ends start ≤ sector_count d → length bytes = PAGE_SIZE → take (j * SECTOR_SIZE) bytes = page_upto d start j →
  wp (ifold (λ bytes k, let! lba := sector_lba start k in
        let! s := dread id lba (slice (k * SECTOR_SIZE) SECTOR_SIZE bytes) in iret (splice (k * SECTOR_SIZE) s bytes)) (seq j k) bytes : io D Error (list Z)) d
    (λ d' r, same ok sector d d' ∧ ∀ out, r = Ok out → out = page d start).
Proof.
  revert j bytes d. induction k as [|k IH]; intros j bytes d Hk Hok Hs Hc Hb Ht.
  - apply wp_ret. split; [by apply io_same_refl|]. intros out ?; simplify_eq. replace j with 8%nat in Ht by lia. rewrite take_ge in Ht; [done|].
    rewrite Hb. unfold PAGE_SIZE, SECTOR_SIZE. lia.
  - cbn [seq ifold]. apply wp_bind, wp_bind. unfold sector_lba. apply wp_result. unfold checked_add64.
    destruct (Z.leb_spec (start + Z.of_nat j) u64_max); simpl; [|split; [by apply io_same_refl|done]].
    apply wp_bind. apply (wp_read ok sector); [done|lia|intros d' e Hsame; split; [done|done]|].
    intros d' Hsame Hlt. apply wp_ret.
    assert (Hlen : length (sector d (start + Z.of_nat j)) = SECTOR_SIZE) by (apply law_length; [done|lia]).
    unfold ends, SECTORS_PER_PAGE in *. eapply wp_mono.
    + apply (IH (S j)); [lia|by eapply same_ok|done|by rewrite (same_count _ _ _ _ Hsame)|..].
      * rewrite length_splice; [done|]. rewrite Hlen, Hb. unfold PAGE_SIZE, SECTOR_SIZE. lia.
      * rewrite (page_upto_ext d d' start (S j)) by (intros i Hi; apply (same_disk _ _ _ _ _ Hsame); lia).
        rewrite page_upto_S, <- Ht. unfold splice. rewrite app_assoc, take_app_length'; [done|].
        rewrite length_app, length_take, Hlen, Hb. unfold PAGE_SIZE, SECTOR_SIZE. lia.
    + intros d2 r [Hs2 Hr]. split; [by eapply same_trans|]. intros out Ho. rewrite (Hr out Ho). apply page_upto_ext.
      intros i Hi. apply (same_disk _ _ _ _ _ Hsame). lia.
Qed.

Lemma read_page_spec start bytes page0 d :
  ok d → 0 ≤ start → length bytes = PAGE_SIZE → stored start page0 d →
  wp (read_page_from_device start bytes) d (λ d' r, same ok sector d d' ∧ ∀ out, r = Ok out → out = page0).
Proof.
  intros Hok Hs Hb [Hc <-]. unfold read_page_from_device. by apply (swap_read_loop_spec start 8 0 bytes d).
Qed.


(** ** The machine

    The table and the device of all CPUs, with the pages that are on their way to the disk:
    [Some wrote] once the transfer came back. *)
Record Flight := mkFlight { slot : nat; gen : Z; lba : Z; page_bytes : list Z; came_back : option bool }.
Record Sys := mkSys { table : State; dev : D; flights : list Flight }.

Definition back (b : bool) (f : Flight) : Flight := mkFlight (slot f) (gen f) (lba f) (page_bytes f) (Some b).

(** One critical section of [allocate_page], [share_page] or [release_page], or one transfer
    between them. The handle of a step is the one a caller of [allocate_page] got. *)
Inductive step : option (Handle * list Z) → Sys → Sys → Prop :=
  | step_reserve st st' d fs i g l bytes :
      length bytes = PAGE_SIZE → reserve_disk st = (st', Some (i, g, l)) →
      step None (mkSys st d fs) (mkSys st' d (mkFlight i g l bytes None :: fs))
  | step_absent st d fs fs' f :
      came_back f = None → step None (mkSys st d (fs ++ f :: fs')) (mkSys st d (fs ++ back false f :: fs'))
  | step_write st d d' fs fs' f b :
      came_back f = None → write_and_flush (lba f) (page_bytes f) d = (d', b) →
      step None (mkSys st d (fs ++ f :: fs')) (mkSys st d' (fs ++ back b f :: fs'))
  | step_publish st st' d fs fs' f h :
      came_back f = Some true → publish_reserved_disk (slot f) (gen f) st = (st', Some h) →
      step (Some (h, page_bytes f)) (mkSys st d (fs ++ f :: fs')) (mkSys st' d (fs ++ fs'))
  | step_cancel st d fs fs' f :
      came_back f = Some false → step None (mkSys st d (fs ++ f :: fs')) (mkSys (cancel_reserved (slot f) (gen f) st) d (fs ++ fs'))
  | step_ram st st' d fs bytes h :
      length bytes = PAGE_SIZE → allocate_ram bytes st = (st', Some h) → step (Some (h, bytes)) (mkSys st d fs) (mkSys st' d fs)
  | step_share st d fs h : step None (mkSys st d fs) (mkSys (share h st).1 d fs)
  | step_release st d fs h : step None (mkSys st d fs) (mkSys (release h st).1 d fs).

(** A page that was not published is on a reserved slot, and on the disk once it came back. *)
Definition flying (st : State) (d : D) (f : Flight) : Prop :=
  (∃ s, slots st !! slot f = Some s ∧ reserved (gen f) s = true ∧ disk_lba (slot f) st = Some (lba f)) ∧
  length (page_bytes f) = PAGE_SIZE ∧ (came_back f = Some true → stored (lba f) (page_bytes f) d).

Record inv (s : Sys) : Prop := mkInv {
  inv_slots : length (slots (table s)) = MAX_SWAP_SLOTS;
  inv_disk : ∀ b, disk (table s) = Some b → 0 ≤ start_lba b;
  inv_dev : ok (dev s);
  inv_flights : Forall (flying (table s) (dev s)) (flights s);
  inv_distinct : NoDup (slot <$> flights s);
}.

(** The page of a handle that is valid: in its slot or at the place of its slot. *)
Definition keeps (h : Handle) (bytes : list Z) (s : Sys) : Prop :=
  ∃ sl, get h (table s) = Some sl ∧
    match backing sl with Ram => data sl = bytes | Disk => ∃ l, disk_lba (index h) (table s) = Some l ∧ stored l bytes (dev s) end.

(** *** Places of slots *)
Lemma disk_lba_disk i st st' : disk st' = disk st → disk_lba i st' = disk_lba i st.
Proof. intros He. unfold disk_lba. by rewrite He. Qed.

Lemma disk_lba_value i st l : disk_lba i st = Some l → ∃ b, disk st = Some b ∧ l = start_lba b + Z.of_nat i * SECTORS_PER_PAGE.
Proof.
  unfold disk_lba. destruct (disk st) as [b|]; [|done]. simpl. case_match; [done|]. intros Hl. exists b. split; [done|].
  unfold checked_mul64, checked_add64 in Hl. repeat (case_match; simplify_option_eq; try done). all: by simplify_eq/=.
Qed.

Lemma disk_lba_apart i j st l l' :
  disk_lba i st = Some l → disk_lba j st = Some l' → i ≠ j → ends l ≤ l' ∨ ends l' ≤ l.
Proof.
  intros (b & Hb & ->)%disk_lba_value (b' & Hb' & ->)%disk_lba_value Hn. simplify_eq. unfold ends, SECTORS_PER_PAGE. lia.
Qed.

Lemma disk_lba_nonneg i s l : inv s → disk_lba i (table s) = Some l → 0 ≤ l.
Proof. intros Hi (b & Hb & ->)%disk_lba_value. pose proof (inv_disk _ Hi _ Hb). unfold SECTORS_PER_PAGE. lia. Qed.

(** *** One slot changes *)
Lemma set_slot_ne i j sl st : i ≠ j → slots (set_slot i sl st) !! j = slots st !! j.
Proof. intros Hn. by apply list_lookup_insert_ne. Qed.

Lemma set_slot_eq i sl s st : slots st !! i = Some s → slots (set_slot i sl st) !! i = Some sl.
Proof. intros Hl. apply list_lookup_insert_eq. by eapply lookup_lt_Some. Qed.

Lemma flying_set st d f i sl : slot f ≠ i → flying st d f → flying (set_slot i sl st) d f.
Proof.
  intros Hn ((s & Hs & Hr & Hl) & Hb & Hst). split; [|done]. exists s. rewrite set_slot_ne by done. by split_and!.
Qed.

Lemma swap_get_set h i sl st : index h ≠ i → get h (set_slot i sl st) = get h st.
Proof. intros Hn. unfold get. by rewrite set_slot_ne. Qed.

Lemma keeps_set h bytes st d fs fs' i sl : index h ≠ i → keeps h bytes (mkSys st d fs) → keeps h bytes (mkSys (set_slot i sl st) d fs').
Proof.
  intros Hn (s & Hg & Hk). exists s. simpl in *. rewrite swap_get_set by done. split; [done|]. destruct (backing s); [done|].
  destruct Hk as (l & Hl & Hst). exists l. split; [by rewrite <- Hl; apply disk_lba_disk|done].
Qed.

Lemma keeps_flights h bytes st d fs fs' : keeps h bytes (mkSys st d fs) → keeps h bytes (mkSys st d fs').
Proof. done. Qed.

Lemma inv_set st d fs fs' i sl :
  inv (mkSys st d fs) → NoDup (slot <$> fs') → Forall (λ f, f ∈ fs ∧ slot f ≠ i) fs' → inv (mkSys (set_slot i sl st) d fs').
Proof.
  intros [Hl Hd Ho Hf Hn] Hn' Hf'. split; simpl in *; [by rewrite length_insert|done|done| |done].
  eapply Forall_impl; [exact Hf'|]. intros f [Hin Hne]. apply flying_set; [done|]. by eapply Forall_forall in Hf.
Qed.

(** A slot that is free is not in flight, and one that is in flight is no page of a handle. *)
Lemma swap_free_slot_spec st i : free_slot st = Some i → ∃ s, slots st !! i = Some s ∧ occupied s = false.
Proof. intros (s & Hs & Hp & _)%position_Some. exists s. split; [done|]. by apply negb_true_iff. Qed.

Lemma flying_slot st d f : flying st d f → ∃ s, slots st !! slot f = Some s ∧ occupied s = true ∧ refcount s = 0 ∧ generation s = gen f.
Proof.
  intros ((s & Hs & Hr & _) & _). exists s. unfold reserved in Hr. apply andb_true_iff in Hr as [Hr Hg]. apply andb_true_iff in Hr as [Ho Hr].
  split_and!; try done; lia.
Qed.

Lemma get_slot h st s : get h st = Some s → slots st !! index h = Some s ∧ occupied s = true ∧ 0 < refcount s ∧ generation s = h_generation h.
Proof.
  unfold get. destruct (slots st !! index h) as [s0|] eqn:Es; [|done]. simpl. case_match eqn:E; [|done]. intros ?; simplify_eq.
  apply andb_true_iff in E as [E Hg]. unfold in_use in E. apply andb_true_iff in E as [Ho Hr]. split_and!; try done; lia.
Qed.

Lemma get_intro h st s : slots st !! index h = Some s → occupied s = true → 0 < refcount s → generation s = h_generation h → get h st = Some s.
Proof.
  intros Hs Ho Hr Hg. unfold get. rewrite Hs. simpl. unfold in_use. rewrite Ho, Hg, Z.eqb_refl.
  by rewrite (proj2 (Z.ltb_lt 0 (refcount s)) Hr).
Qed.

Lemma flight_not_free st d f i : flying st d f → free_slot st = Some i → slot f ≠ i.
Proof. intros (s & Hs & Ho & _)%flying_slot (s' & Hs' & Ho')%swap_free_slot_spec He. rewrite He in Hs. congruence. Qed.

Lemma flight_not_used st d f h s : flying st d f → get h st = Some s → slot f ≠ index h.
Proof. intros (s' & Hs' & _ & Hr & _)%flying_slot (Hs & _ & Hr' & _)%get_slot He. rewrite He in Hs'. simplify_eq. lia. Qed.

Lemma used_not_free st h s i : get h st = Some s → free_slot st = Some i → index h ≠ i.
Proof. intros (Hs & Ho & _)%get_slot (s' & Hs' & Ho')%swap_free_slot_spec He. rewrite He in Hs. congruence. Qed.

Lemma NoDup_remove {A B} (g : A → B) (l l' : list A) x : NoDup (g <$> (l ++ x :: l')) → NoDup (g <$> (l ++ l')) ∧ Forall (λ y, g y ≠ g x) (l ++ l').
Proof.
  rewrite !fmap_app, fmap_cons. intros Hn. apply (NoDup_Permutation_proper _ (g x :: (g <$> l) ++ (g <$> l'))) in Hn; [|by rewrite Permutation_middle].
  apply NoDup_cons in Hn as [Hx Hn]. split; [done|]. apply Forall_forall. intros y Hy He. apply Hx. rewrite <- He, <- fmap_app. by apply list_elem_of_fmap_2.
Qed.

Lemma Forall_without (l l' : list Flight) x : Forall (λ f, f ∈ l ++ x :: l') (l ++ l').
Proof. apply Forall_forall. intros f. set_solver. Qed.

(** *** What the steps do *)
Lemma inv_push st d fs i sl f :
  inv (mkSys st d fs) → free_slot st = Some i → slot f = i → flying (set_slot i sl st) d f → inv (mkSys (set_slot i sl st) d (f :: fs)).
Proof.
  intros Hi Hfree <- Hf. pose proof Hi as [Hl Hd Ho Hfl Hn]. simpl in *.
  assert (Hne : Forall (λ f', f' ∈ fs ∧ slot f' ≠ slot f) fs).
  { apply Forall_forall. intros f' Hin. split; [done|]. eapply Forall_forall in Hfl; [|exact Hin]. by eapply flight_not_free. }
  pose proof (inv_set st d fs fs (slot f) sl Hi Hn Hne) as [Hl' _ _ Hfl' _]. split; simpl in *; [done|done|done|by constructor|].
  apply NoDup_cons. split; [|done]. intros (f' & He & Hin)%list_elem_of_fmap. rewrite Forall_forall in Hne. by destruct (Hne f' Hin).
Qed.

Lemma inv_land st d fs f fs' sl :
  inv (mkSys st d (fs ++ f :: fs')) → inv (mkSys (set_slot (slot f) sl st) d (fs ++ fs')).
Proof.
  intros Hi. destruct (NoDup_remove slot fs fs' f (inv_distinct _ Hi)) as [Hn Hne]. apply (inv_set st d (fs ++ f :: fs')); [done|done|].
  apply Forall_and. split; [apply Forall_without|done].
Qed.

Lemma swap_inv_same st d fs f fs' : inv (mkSys st d (fs ++ f :: fs')) → inv (mkSys st d (fs ++ fs')).
Proof.
  intros [Hl Hd Ho Hfl Hn]. simpl in *. destruct (NoDup_remove slot fs fs' f Hn) as [Hn' _]. split; simpl; try done.
  apply Forall_app in Hfl as [? [_ ?]%Forall_cons]. by apply Forall_app.
Qed.

Lemma inv_landed st d fs f fs' b d' :
  inv (mkSys st d (fs ++ f :: fs')) → outside (lba f) (ends (lba f)) d d' → (b = true → stored (lba f) (page_bytes f) d') →
  inv (mkSys st d' (fs ++ back b f :: fs')).
Proof.
  intros Hi Hout Hst. pose proof Hi as [Hl Hd Ho Hfl Hn]. simpl in *. destruct (NoDup_remove slot fs fs' f Hn) as [_ Hne].
  assert (Hother : ∀ f', f' ∈ fs ++ fs' → flying st d' f').
  { intros f' Hin. assert (Hf' : flying st d f') by (eapply Forall_forall in Hfl; [exact Hfl|set_solver]).
    assert (Hf : flying st d f) by (eapply Forall_forall in Hfl; [exact Hfl|set_solver]). rewrite Forall_forall in Hne.
    destruct Hf' as ((s' & Hs' & Hr' & Hl') & Hb' & Hst'), Hf as ((s0 & Hs0 & Hr0 & Hl0) & _). split; [eauto|]. split; [done|]. intros Hc.
    eapply stored_outside; [|by eapply (disk_lba_apart (slot f') (slot f)); eauto|exact Hout|by apply Hst'].
    by eapply (disk_lba_nonneg _ (mkSys st d (fs ++ f :: fs'))). }
  split; simpl; [done|done|apply Hout| |by rewrite fmap_app, fmap_cons in *].
  apply Forall_app. split; [apply Forall_forall; intros; apply Hother; set_solver|]. constructor; [|apply Forall_forall; intros; apply Hother; set_solver].
  apply Forall_app in Hfl as [_ [(Hslot & Hb & _) _]%Forall_cons]. split; [done|]. split; [done|]. simpl. intros [=]. by apply Hst.
Qed.

Lemma reserve_spec st st' i g l :
  reserve_disk st = (st', Some (i, g, l)) →
  free_slot st = Some i ∧ disk_lba i st = Some l ∧ st' = set_slot i (mkSlot (data slot_empty) 0 g true Disk) st.
Proof. unfold reserve_disk. destruct (free_slot st) as [k|]; [|done]. destruct (disk_lba k st) eqn:El; [|done]. intros ?; by simplify_eq. Qed.

Lemma allocate_ram_spec st st' bytes h :
  allocate_ram bytes st = (st', Some h) →
  free_slot st = Some (index h) ∧ st' = set_slot (index h) (mkSlot bytes 1 (h_generation h) true Ram) st.
Proof. unfold allocate_ram, occupy. destruct (free_slot st) as [k|]; [|done]. intros ?; by simplify_eq/=. Qed.

Lemma swap_publish_spec i g st st' h :
  publish_reserved_disk i g st = (st', Some h) →
  h = mkHandle i g ∧ ∃ s, slots st !! i = Some s ∧ reserved g s = true ∧ st' = set_slot i (mkSlot (data s) 1 (generation s) (occupied s) Disk) st.
Proof. unfold publish_reserved_disk. destruct (slots st !! i) as [s|]; [|done]. destruct (reserved g s) eqn:E; [|done]. intros ?; simplify_eq/=. eauto 7. Qed.

Lemma cancel_spec i g st : cancel_reserved i g st = st ∨ ∃ sl, cancel_reserved i g st = set_slot i sl st.
Proof. unfold cancel_reserved. destruct (slots st !! i) as [s|]; [|by left]. case_match; [right; eauto|by left]. Qed.

(** [share] and [release] change a slot that is in use. *)
Lemma share_spec h st : (share h st).1 = st ∨ ∃ s n, get h st = Some s ∧ 0 < n ∧ (share h st).1 = set_slot (index h) (set_refcount n s) st.
Proof.
  unfold share. destruct (get h st) as [s|] eqn:E; [|by left]. apply get_slot in E as (_ & _ & Hr & _). case_match; [|by left].
  right. exists s, (refcount s + 1). split_and!; [done|lia|done].
Qed.

Lemma swap_release_spec h st :
  (release h st).1 = st ∨
  ∃ s, get h st = Some s ∧ ((release h st).1 = set_slot (index h) (slot_clear (set_refcount 0 s)) st ∨
                            ∃ n, 0 < n ∧ (release h st).1 = set_slot (index h) (set_refcount n s) st).
Proof.
  unfold release. destruct (get h st) as [s|] eqn:E; [|by left]. apply get_slot in E as (_ & _ & Hr & _). right. exists s. split; [done|]. simpl.
  unfold saturating_sub. destruct (Z.eqb_spec (Z.max (refcount s - 1) 0) 0) as [->|Hn]; [by left|]. right. eexists. split; [|done]. lia.
Qed.

Lemma keeps_used h bytes s : keeps h bytes s → ∃ sl, get h (table s) = Some sl.
Proof. intros (sl & Hg & _). by exists sl. Qed.

(** A step on another slot or on the device leaves a page where it is. *)
Lemma keeps_refcount h h' bytes st d fs s n :
  get h' st = Some s → 0 < n → keeps h bytes (mkSys st d fs) → keeps h bytes (mkSys (set_slot (index h') (set_refcount n s) st) d fs).
Proof.
  intros Hg Hn Hk. destruct (decide (index h = index h')) as [He|Hne]; [|by eapply keeps_set]. destruct Hk as (s' & Hg' & Hk). simpl in *.
  pose proof (get_slot _ _ _ Hg) as (Hs & Ho & _ & _). pose proof (get_slot _ _ _ Hg') as (Hs' & _ & _ & Hgen). rewrite <- He in *. simplify_eq.
  exists (set_refcount n s). simpl. split; [apply get_intro; [by eapply set_slot_eq|done..]|]. destruct (backing s); [done|].
  destruct Hk as (l & Hl & Hst). exists l. split; [by rewrite <- Hl; apply disk_lba_disk|done].
Qed.

Lemma keeps_written h bytes st d d' fs f b :
  inv (mkSys st d fs) → f ∈ fs → outside (lba f) (ends (lba f)) d d' → keeps h bytes (mkSys st d fs) → keeps h bytes (mkSys st d' b).
Proof.
  intros Hi Hf Hout (s & Hg & Hk). exists s. simpl in *. split; [done|]. destruct (backing s); [done|]. destruct Hk as (l & Hl & Hst). exists l. split; [done|].
  pose proof (inv_flights _ Hi) as Hfl. eapply Forall_forall in Hfl; [|exact Hf]. simpl in *. pose proof (flight_not_used _ _ _ _ _ Hfl Hg).
  destruct Hfl as ((_ & _ & _ & Hl0) & _). eapply stored_outside; [|eapply (disk_lba_apart (index h) (slot f)); [exact Hl|exact Hl0|done]|exact Hout|exact Hst].
  by eapply (disk_lba_nonneg _ (mkSys st d fs)).
Qed.

Lemma inv_back s fs f fs' b d' :
  inv s → flights s = fs ++ f :: fs' → write_and_flush (lba f) (page_bytes f) (dev s) = (d', b) →
  outside (lba f) (ends (lba f)) (dev s) d' ∧ (b = true → stored (lba f) (page_bytes f) d').
Proof.
  intros Hi Hf Hw. pose proof (inv_flights _ Hi) as Hfl. rewrite Hf in Hfl. apply Forall_app in Hfl as [_ [((_ & _ & _ & Hl) & Hb & _) _]%Forall_cons].
  eapply write_and_flush_spec; [apply inv_dev, Hi|by eapply disk_lba_nonneg|done|done].
Qed.

Lemma inv_slot_refcount st d fs h s sl : get h st = Some s → inv (mkSys st d fs) → inv (mkSys (set_slot (index h) sl st) d fs).
Proof.
  intros Hg Hi. pose proof Hi as [_ _ _ Hf Hn]. simpl in *. apply (inv_set st d fs); [done|done|]. apply Forall_forall. intros f Hin. split; [done|].
  eapply Forall_forall in Hf; [|exact Hin]. by eapply flight_not_used.
Qed.

Lemma swap_step_inv o s s' : step o s s' → inv s → inv s'.
Proof.
  intros Hs Hi. destruct Hs as [st st' d fs i g l bytes Hb (Hfree & Hl & ->)%reserve_spec|st d fs fs' f Hc|st d d' fs fs' f b Hc Hw|
    st st' d fs fs' f h Hc (-> & s & Hs & Hr & ->)%swap_publish_spec|st d fs fs' f Hc|st st' d fs bytes h Hb (Hfree & ->)%allocate_ram_spec|st d fs h|st d fs h].
  - eapply inv_push; [done|done|done|]. destruct (swap_free_slot_spec _ _ Hfree) as (s & Hs & _). split; [|done]. eexists. simpl.
    split; [by eapply set_slot_eq|]. split; [|by rewrite <- Hl; apply disk_lba_disk]. unfold reserved. simpl. apply Z.eqb_refl.
  - eapply inv_landed; [done|by apply outside_refl, (inv_dev _ Hi)|done].
  - destruct (inv_back _ _ _ _ _ _ Hi eq_refl Hw). by eapply inv_landed.
  - by apply inv_land.
  - destruct (cancel_spec (slot f) (gen f) st) as [->|[sl ->]]; [by eapply swap_inv_same|by apply inv_land].
  - pose proof Hi as [_ _ _ Hf Hn]. simpl in *. apply (inv_set st d fs); [done|done|]. apply Forall_forall. intros f Hin. split; [done|].
    eapply Forall_forall in Hf; [|exact Hin]. by eapply flight_not_free.
  - destruct (share_spec h st) as [->|(s & n & Hg & _ & ->)]; [done|]. by eapply inv_slot_refcount.
  - destruct (swap_release_spec h st) as [->|(s & Hg & [->|(n & _ & ->)])]; [done|by eapply inv_slot_refcount..].
Qed.

Lemma swap_step_keeps o s s' h bytes : step o s s' → inv s → keeps h bytes s → is_Some (get h (table s')) → keeps h bytes s'.
Proof.
  intros Hs Hi Hk [sl' Hv]. pose proof (keeps_used _ _ _ Hk) as [sl Hsl]. pose proof (inv_flights _ Hi) as Hf.
  destruct Hs as [st st' d fs i g l bytes' Hb (Hfree & Hl & ->)%reserve_spec|st d fs fs' f Hc|st d d' fs fs' f b Hc Hw|
    st st' d fs fs' f h' Hc (-> & s & Hs & Hr & ->)%swap_publish_spec|st d fs fs' f Hc|st st' d fs bytes' h' Hb (Hfree & ->)%allocate_ram_spec|st d fs h'|st d fs h'];
    simpl in *.
  - eapply keeps_set; [|exact Hk]. by eapply used_not_free.
  - by eapply keeps_flights.
  - destruct (inv_back _ _ _ _ _ _ Hi eq_refl Hw) as [Hout _]. eapply (keeps_written h bytes st d d' (fs ++ f :: fs') f); [done|set_solver|done..].
  - eapply keeps_set; [|exact Hk]. intros He. apply Forall_app in Hf as [_ [Hf _]%Forall_cons]. by apply (flight_not_used _ _ _ h _ Hf Hsl).
  - destruct (cancel_spec (slot f) (gen f) st) as [->|[sl0 ->]]; [by eapply keeps_flights|]. eapply keeps_set; [|exact Hk]. intros He.
    apply Forall_app in Hf as [_ [Hf _]%Forall_cons]. by apply (flight_not_used _ _ _ h _ Hf Hsl).
  - eapply keeps_set; [|exact Hk]. by eapply used_not_free.
  - destruct (share_spec h' st) as [->|(s & n & Hg & Hn & ->)]; [done|]. by eapply keeps_refcount.
  - destruct (swap_release_spec h' st) as [He|(s & Hg & [He|(n & Hn & He)])]; rewrite He in *; [done| |by eapply keeps_refcount].
    destruct (decide (index h = index h')) as [Hx|Hne]; [|by eapply keeps_set]. exfalso. apply get_slot in Hv as (Hv & Ho & _).
    apply get_slot in Hg as (Hs & _). rewrite Hx in Hv. rewrite (set_slot_eq _ _ _ _ Hs) in Hv. by simplify_eq.
Qed.

Lemma step_returns h bytes s s' : step (Some (h, bytes)) s s' → inv s → keeps h bytes s'.
Proof.
  intros Hs Hi. pose proof (inv_flights _ Hi) as Hf. inversion Hs; subst; simpl in *.
  - match goal with H : publish_reserved_disk _ _ _ = _ |- _ => apply swap_publish_spec in H as (-> & sl & Hsl & Hr & ->) end.
    apply Forall_app in Hf as [_ [((s0 & Hs0 & Hr0 & Hl) & _ & Hst) _]%Forall_cons]. unfold reserved in Hr.
    apply andb_true_iff in Hr as [[Ho _]%andb_true_iff Hg]. eexists. simpl. split.
    + apply get_intro; [by eapply set_slot_eq|done|done|simpl; lia].
    + simpl. exists (lba f). split; [by rewrite <- Hl; apply disk_lba_disk|]. by apply Hst.
  - match goal with H : allocate_ram _ _ = _ |- _ => apply allocate_ram_spec in H as (Hfree & ->) end.
    destruct (swap_free_slot_spec _ _ Hfree) as (sl & Hsl & _). eexists. simpl. split; [apply get_intro; simpl; [by eapply set_slot_eq|done..]|done].
Qed.

(** What a reader with the handle gets. *)
Lemma keeps_read h bytes buffer present s :
  keeps h bytes s → inv s → length buffer = PAGE_SIZE → 
  match (read_page present h buffer (table s) (dev s)).2 with
  | Some out => out = bytes
  | None => ∃ l, disk_read_lba h (table s) = Some l ∧ (present = false ∨ ∃ d e, read_page_from_device l buffer (dev s) = (d, Err e))
  end.
Proof.
  intros (sl & Hg & Hk) Hi Hb. unfold read_page, read_ram, disk_read_lba. rewrite Hg. simpl. destruct (backing sl); simpl; [done|].
  destruct Hk as (l & Hl & Hst). rewrite Hl. destruct present; simpl; [|by eauto].
  pose proof (read_page_spec l buffer bytes (dev s) (inv_dev _ Hi) (disk_lba_nonneg _ _ _ Hi Hl) Hb Hst) as Hr. unfold wp in Hr.
  destruct (read_page_from_device l buffer (dev s)) as [d [out|e]] eqn:Er; simpl; [by apply Hr|]. exists l. split; [done|]. right. by exists d, e.
Qed.

(** ** The promise *)
Definition boot (start : Z) (n : nat) (d : D) : Sys := mkSys (mkState (slots state_new) (Some (mkDisk start n))) d [].
Definition some_step (s s' : Sys) : Prop := ∃ o, step o s s'.
Definition held_step (h : Handle) (s s' : Sys) : Prop := some_step s s' ∧ is_Some (get h (table s')).

Lemma boot_inv start n d : ok d → 0 ≤ start → inv (boot start n d).
Proof. intros Hok Hs. split; simpl; [done|by intros b [= <-]|done|done|constructor]. Qed.

Lemma steps_inv s s' : rtc some_step s s' → inv s → inv s'.
Proof. induction 1 as [|s1 s2 s3 [o Hs] _ IH]; [done|]. intros Hi. by eapply IH, swap_step_inv. Qed.

Lemma held_keeps h bytes s s' : rtc (held_step h) s s' → inv s → keeps h bytes s → inv s' ∧ keeps h bytes s'.
Proof. induction 1 as [|s1 s2 s3 [[o Hs] Hv] _ IH]; [done|]. intros Hi Hk. apply IH; [by eapply swap_step_inv|by eapply swap_step_keeps]. Qed.

(** C24. A swapped page comes back as it was: let [allocate_page] hand out a handle for a page,
    at any moment after boot and with the reservations, transfers and releases of other CPUs in
    between; as long as the handle is not released for the last time, whatever else is swapped
    in and out, [read_page] answers the bytes that were given, or fails because the disk does. *)
Theorem swapped_page_kept start n d s1 s2 s3 h bytes buffer present :
  ok d → 0 ≤ start → rtc some_step (boot start n d) s1 → step (Some (h, bytes)) s1 s2 → rtc (held_step h) s2 s3 → length buffer = PAGE_SIZE →
  match (read_page present h buffer (table s3) (dev s3)).2 with
  | Some out => out = bytes
  | None => ∃ l, disk_read_lba h (table s3) = Some l ∧ (present = false ∨ ∃ d e, read_page_from_device l buffer (dev s3) = (d, Err e))
  end.
Proof.
  intros Hok Hst H1 H2 H3 Hb. pose proof (steps_inv _ _ H1 (boot_inv start n d Hok Hst)) as Hi1.
  destruct (held_keeps h bytes _ _ H3 (swap_step_inv _ _ _ H2 Hi1) (step_returns _ _ _ _ H2 Hi1)) as [Hi3 Hk3]. by apply keeps_read.
Qed.

End device.

End SwapProofs.

(** * A page on a disk of 32 sectors *)
Import Block Io Bytes Swap SwapProofs.

Module SwapDemo.

(** One page goes out while another CPU reserves a slot, is shared, and is released once. *)
Definition h0 : Handle := mkHandle 0 1.
Definition w0 : Sys := boot 8 2 (new 32).
Definition f0 : Flight := mkFlight 0 1 8 first_page None.
Definition f1 : Flight := mkFlight 1 1 16 second_page None.
Definition t1 : State := (reserve_disk (table w0)).1.
Definition t2 : State := (reserve_disk t1).1.
Definition d3 : RamDisk := (write_and_flush 8 first_page (new 32)).1.
Definition t4 : State := (publish_reserved_disk 0 1 t2).1.
Definition t5 : State := (share h0 t4).1.
Definition t6 : State := (release h0 t5).1.
Definition d7 : RamDisk := (write_and_flush 16 second_page d3).1.
Definition before : Sys := mkSys t2 d3 [f1; back true f0].
Definition published : Sys := mkSys t4 d3 [f1].
Definition later : Sys := mkSys t6 d7 [back true f1].

Lemma pair_of {A B} (p : A * B) b : p.2 = b → p = (p.1, b).
Proof. destruct p. simpl. by intros ->. Qed.

Lemma reach_before : rtc some_step w0 before.
Proof.
  eapply rtc_l; [exists None; apply (step_reserve (table w0) t1 (new 32) [] 0 1 8 first_page); [vm_compute; reflexivity|apply pair_of; vm_compute; reflexivity]|].
  eapply rtc_l; [exists None; apply (step_reserve t1 t2 (new 32) [f0] 1 1 16 second_page); [vm_compute; reflexivity|apply pair_of; vm_compute; reflexivity]|].
  apply rtc_once. exists None. apply (step_write t2 (new 32) d3 [f1] [] f0 true); [done|]. apply (pair_of (write_and_flush 8 first_page (new 32))). vm_compute. reflexivity.
Qed.

Lemma publish_before : step (Some (h0, first_page)) before published.
Proof. apply (step_publish t2 t4 d3 [f1] [] (back true f0) h0); [done|]. apply (pair_of (publish_reserved_disk 0 1 t2)). vm_compute. reflexivity. Qed.

Lemma held_later : rtc (held_step h0) published later.
Proof.
  eapply rtc_l; [split; [exists None; apply (step_share t4 d3 [f1] h0)|eexists; vm_compute; reflexivity]|].
  eapply rtc_l; [split; [exists None; apply (step_release t5 d3 [f1] h0)|eexists; vm_compute; reflexivity]|].
  apply rtc_once. split; [|eexists; vm_compute; reflexivity]. exists None. apply (step_write t6 d3 d7 [] [] f1 true); [done|].
  apply (pair_of (write_and_flush 16 second_page d3)). vm_compute. reflexivity.
Qed.

Lemma swapped_page_kept_witness :
  bool_decide (is_Some (read_page true h0 blank (table later) (dev later)).2) = true ∧
  match (read_page true h0 blank (table later) (dev later)).2 with
  | Some out => out = first_page
  | None => ∃ l, disk_read_lba h0 (table later) = Some l ∧ (true = false ∨ ∃ d e, read_page_from_device l blank (dev later) = (d, Err e))
  end.
Proof.
  split; [vm_compute; reflexivity|].
  apply (swapped_page_kept ram_ok ram_disk 8 2 (new 32) before published later h0 first_page blank true);
    [split; [by vm_compute|by apply Forall_replicate]|lia|exact reach_before|exact publish_before|exact held_later|vm_compute; reflexivity].
Defined.

End SwapDemo.
