(* ===== verification/Aes.v ===== *)
(** * The AES-128 of the Wi-Fi stack (kernel/src/wifi_gtk.rs, kernel/src/wifi_ccmp.rs)

    The kernel carries its own table-based AES, twice: with decryption for the key wrap
    of group keys, and once more for the protection of data frames. A block is a list of
    sixteen bytes. This file translates both, shows that decryption inverts encryption for
    every key and that both copies compute the same cipher. *)
From S2P Require Import Prelude Block DeviceIo Bytes.
Import Block Io Bytes.

Module Aes.

Definition SBOX : list Z :=
  [0x63; 0x7c; 0x77; 0x7b; 0xf2; 0x6b; 0x6f; 0xc5; 0x30; 0x01; 0x67; 0x2b; 0xfe; 0xd7; 0xab; 0x76;
   0xca; 0x82; 0xc9; 0x7d; 0xfa; 0x59; 0x47; 0xf0; 0xad; 0xd4; 0xa2; 0xaf; 0x9c; 0xa4; 0x72; 0xc0;
   0xb7; 0xfd; 0x93; 0x26; 0x36; 0x3f; 0xf7; 0xcc; 0x34; 0xa5; 0xe5; 0xf1; 0x71; 0xd8; 0x31; 0x15;
   0x04; 0xc7; 0x23; 0xc3; 0x18; 0x96; 0x05; 0x9a; 0x07; 0x12; 0x80; 0xe2; 0xeb; 0x27; 0xb2; 0x75;
   0x09; 0x83; 0x2c; 0x1a; 0x1b; 0x6e; 0x5a; 0xa0; 0x52; 0x3b; 0xd6; 0xb3; 0x29; 0xe3; 0x2f; 0x84;
   0x53; 0xd1; 0x00; 0xed; 0x20; 0xfc; 0xb1; 0x5b; 0x6a; 0xcb; 0xbe; 0x39; 0x4a; 0x4c; 0x58; 0xcf;
   0xd0; 0xef; 0xaa; 0xfb; 0x43; 0x4d; 0x33; 0x85; 0x45; 0xf9; 0x02; 0x7f; 0x50; 0x3c; 0x9f; 0xa8;
   0x51; 0xa3; 0x40; 0x8f; 0x92; 0x9d; 0x38; 0xf5; 0xbc; 0xb6; 0xda; 0x21; 0x10; 0xff; 0xf3; 0xd2;
   0xcd; 0x0c; 0x13; 0xec; 0x5f; 0x97; 0x44; 0x17; 0xc4; 0xa7; 0x7e; 0x3d; 0x64; 0x5d; 0x19; 0x73;
   0x60; 0x81; 0x4f; 0xdc; 0x22; 0x2a; 0x90; 0x88; 0x46; 0xee; 0xb8; 0x14; 0xde; 0x5e; 0x0b; 0xdb;
   0xe0; 0x32; 0x3a; 0x0a; 0x49; 0x06; 0x24; 0x5c; 0xc2; 0xd3; 0xac; 0x62; 0x91; 0x95; 0xe4; 0x79;
   0xe7; 0xc8; 0x37; 0x6d; 0x8d; 0xd5; 0x4e; 0xa9; 0x6c; 0x56; 0xf4; 0xea; 0x65; 0x7a; 0xae; 0x08;
   0xba; 0x78; 0x25; 0x2e; 0x1c; 0xa6; 0xb4; 0xc6; 0xe8; 0xdd; 0x74; 0x1f; 0x4b; 0xbd; 0x8b; 0x8a;
   0x70; 0x3e; 0xb5; 0x66; 0x48; 0x03; 0xf6; 0x0e; 0x61; 0x35; 0x57; 0xb9; 0x86; 0xc1; 0x1d; 0x9e;
   0xe1; 0xf8; 0x98; 0x11; 0x69; 0xd9; 0x8e; 0x94; 0x9b; 0x1e; 0x87; 0xe9; 0xce; 0x55; 0x28; 0xdf;
   0x8c; 0xa1; 0x89; 0x0d; 0xbf; 0xe6; 0x42; 0x68; 0x41; 0x99; 0x2d; 0x0f; 0xb0; 0x54; 0xbb; 0x16].

Definition INV_SBOX : list Z :=
  [0x52; 0x09; 0x6a; 0xd5; 0x30; 0x36; 0xa5; 0x38; 0xbf; 0x40; 0xa3; 0x9e; 0x81; 0xf3; 0xd7; 0xfb;
   0x7c; 0xe3; 0x39; 0x82; 0x9b; 0x2f; 0xff; 0x87; 0x34; 0x8e; 0x43; 0x44; 0xc4; 0xde; 0xe9; 0xcb;
   0x54; 0x7b; 0x94; 0x32; 0xa6; 0xc2; 0x23; 0x3d; 0xee; 0x4c; 0x95; 0x0b; 0x42; 0xfa; 0xc3; 0x4e;
   0x08; 0x2e; 0xa1; 0x66; 0x28; 0xd9; 0x24; 0xb2; 0x76; 0x5b; 0xa2; 0x49; 0x6d; 0x8b; 0xd1; 0x25;
   0x72; 0xf8; 0xf6; 0x64; 0x86; 0x68; 0x98; 0x16; 0xd4; 0xa4; 0x5c; 0xcc; 0x5d; 0x65; 0xb6; 0x92;
   0x6c; 0x70; 0x48; 0x50; 0xfd; 0xed; 0xb9; 0xda; 0x5e; 0x15; 0x46; 0x57; 0xa7; 0x8d; 0x9d; 0x84;
   0x90; 0xd8; 0xab; 0x00; 0x8c; 0xbc; 0xd3; 0x0a; 0xf7; 0xe4; 0x58; 0x05; 0xb8; 0xb3; 0x45; 0x06;
   0xd0; 0x2c; 0x1e; 0x8f; 0xca; 0x3f; 0x0f; 0x02; 0xc1; 0xaf; 0xbd; 0x03; 0x01; 0x13; 0x8a; 0x6b;
   0x3a; 0x91; 0x11; 0x41; 0x4f; 0x67; 0xdc; 0xea; 0x97; 0xf2; 0xcf; 0xce; 0xf0; 0xb4; 0xe6; 0x73;
   0x96; 0xac; 0x74; 0x22; 0xe7; 0xad; 0x35; 0x85; 0xe2; 0xf9; 0x37; 0xe8; 0x1c; 0x75; 0xdf; 0x6e;
   0x47; 0xf1; 0x1a; 0x71; 0x1d; 0x29; 0xc5; 0x89; 0x6f; 0xb7; 0x62; 0x0e; 0xaa; 0x18; 0xbe; 0x1b;
   0xfc; 0x56; 0x3e; 0x4b; 0xc6; 0xd2; 0x79; 0x20; 0x9a; 0xdb; 0xc0; 0xfe; 0x78; 0xcd; 0x5a; 0xf4;
   0x1f; 0xdd; 0xa8; 0x33; 0x88; 0x07; 0xc7; 0x31; 0xb1; 0x12; 0x10; 0x59; 0x27; 0x80; 0xec; 0x5f;
   0x60; 0x51; 0x7f; 0xa9; 0x19; 0xb5; 0x4a; 0x0d; 0x2d; 0xe5; 0x7a; 0x9f; 0x93; 0xc9; 0x9c; 0xef;
   0xa0; 0xe0; 0x3b; 0x4d; 0xae; 0x2a; 0xf5; 0xb0; 0xc8; 0xeb; 0xbb; 0x3c; 0x83; 0x53; 0x99; 0x61;
   0x17; 0x2b; 0x04; 0x7e; 0xba; 0x77; 0xd6; 0x26; 0xe1; 0x69; 0x14; 0x63; 0x55; 0x21; 0x0c; 0x7d].

Definition RCON : list Z := [0x01; 0x02; 0x04; 0x08; 0x10; 0x20; 0x40; 0x80; 0x1b; 0x36].

(** [x << 1] on a [u8], reduced by the field polynomial. *)
Definition xtime (x : Z) : Z :=
  Z.lxor (Z.shiftl x 1 mod 256) (if Z.land x 0x80 =? 0 then 0 else 0x1b).

(** The loop halves [b], so eight turns are enough for a byte. *)
Fixpoint mul_loop (fuel : nat) (a b r : Z) : Z :=
  match fuel with
  | O => r
  | S fuel =>
      if b =? 0 then r
      else mul_loop fuel (xtime a) (Z.shiftr b 1) (if Z.land b 1 =? 0 then r else Z.lxor r a)
  end.
Definition mul (a b : Z) : Z := mul_loop 8 a b 0.

Definition add_round_key (s rk : list Z) : list Z := xor_bytes s rk.
Definition sbox (x : Z) : Z := byte_at SBOX (Z.to_nat x).
Definition inv_sbox (x : Z) : Z := byte_at INV_SBOX (Z.to_nat x).
Definition sub_bytes (s : list Z) : list Z := sbox <$> s.
Definition inv_sub_bytes (s : list Z) : list Z := inv_sbox <$> s.

Definition shift_rows (t : list Z) : list Z :=
  byte_at t <$> [0; 5; 10; 15; 4; 9; 14; 3; 8; 13; 2; 7; 12; 1; 6; 11]%nat.
Definition inv_shift_rows (t : list Z) : list Z :=
  byte_at t <$> [0; 13; 10; 7; 4; 1; 14; 11; 8; 5; 2; 15; 12; 9; 6; 3]%nat.

Definition xor4 (a b c d : Z) : Z := Z.lxor (Z.lxor (Z.lxor a b) c) d.

(** One column; the loops run over the four columns of a block. *)
Definition mix_column (a : list Z) : list Z :=
  let a0 := byte_at a 0 in let a1 := byte_at a 1 in let a2 := byte_at a 2 in let a3 := byte_at a 3 in
  [xor4 (mul a0 2) (mul a1 3) a2 a3; xor4 a0 (mul a1 2) (mul a2 3) a3;
   xor4 a0 a1 (mul a2 2) (mul a3 3); xor4 (mul a0 3) a1 a2 (mul a3 2)].
Definition inv_mix_column (a : list Z) : list Z :=
  let a0 := byte_at a 0 in let a1 := byte_at a 1 in let a2 := byte_at a 2 in let a3 := byte_at a 3 in
  [xor4 (mul a0 14) (mul a1 11) (mul a2 13) (mul a3 9); xor4 (mul a0 9) (mul a1 14) (mul a2 11) (mul a3 13);
   xor4 (mul a0 13) (mul a1 9) (mul a2 14) (mul a3 11); xor4 (mul a0 11) (mul a1 13) (mul a2 9) (mul a3 14)].
Definition columns (f : list Z → list Z) (s : list Z) : list Z :=
  f (slice 0 4 s) ++ f (slice 4 4 s) ++ f (slice 8 4 s) ++ f (slice 12 4 s).
Definition mix_columns : list Z → list Z := columns mix_column.
Definition inv_mix_columns : list Z → list Z := columns inv_mix_column.

(** [w] holds the bytes of the schedule written so far, [r] counts the round constants
    used: one turn per word. *)
Definition expand_word (w : list Z) (r : nat) : list Z * nat :=
  let n := length w in
  let t := slice (n - 4) 4 w in
  let '(t, r) :=
    if (n mod 16 =? 0)%nat
    then ([Z.lxor (sbox (byte_at t 1)) (byte_at RCON r); sbox (byte_at t 2); sbox (byte_at t 3); sbox (byte_at t 0)], S r)
    else (t, r) in
  (w ++ xor_bytes (slice (n - 16) 4 w) t, r).
Fixpoint expand_loop (turns : nat) (w : list Z) (r : nat) : list Z :=
  match turns with
  | O => w
  | S turns => let '(w, r) := expand_word w r in expand_loop turns w r
  end.
Definition expand_key (key : list Z) : list Z := expand_loop 40 key 0.

Definition round_key (w : list Z) (r : nat) : list Z := slice (16 * r) 16 w.

Definition encrypt_round (w block : list Z) (r : nat) : list Z :=
  add_round_key (mix_columns (shift_rows (sub_bytes block))) (round_key w r).
Definition aes_encrypt (key block : list Z) : list Z :=
  let w := expand_key key in
  let block := add_round_key block (round_key w 0) in
  let block := foldl (encrypt_round w) block (seq 1 9) in
  add_round_key (shift_rows (sub_bytes block)) (round_key w 10).

Definition decrypt_round (w block : list Z) (r : nat) : list Z :=
  inv_mix_columns (add_round_key (inv_sub_bytes (inv_shift_rows block)) (round_key w r)).
Definition aes_decrypt (key block : list Z) : list Z :=
  let w := expand_key key in
  let block := add_round_key block (round_key w 10) in
  let block := foldl (decrypt_round w) block (reverse (seq 1 9)) in
  add_round_key (inv_sub_bytes (inv_shift_rows block)) (round_key w 0).

End Aes.

(** ** The second copy, of wifi_ccmp.rs: encryption only, with its own multiplications,
    the same tables and the same key schedule. *)
Module CcmpAes.
Import Aes.

Definition mul2 (x : Z) : Z := xtime x.
Definition mul3 (x : Z) : Z := Z.lxor (xtime x) x.

Definition mix1 (a : list Z) : list Z :=
  let a0 := byte_at a 0 in let a1 := byte_at a 1 in let a2 := byte_at a 2 in let a3 := byte_at a 3 in
  [xor4 (mul2 a0) (mul3 a1) a2 a3; xor4 a0 (mul2 a1) (mul3 a2) a3;
   xor4 a0 a1 (mul2 a2) (mul3 a3); xor4 (mul3 a0) a1 a2 (mul2 a3)].
Definition mix (s : list Z) : list Z := columns mix1 s.
Definition sub (s : list Z) : list Z := (λ x, byte_at SBOX (Z.to_nat x)) <$> s.
Definition shift (t : list Z) : list Z :=
  byte_at t <$> [0; 5; 10; 15; 4; 9; 14; 3; 8; 13; 2; 7; 12; 1; 6; 11]%nat.
Definition expand (k : list Z) : list Z := expand_loop 40 k 0.

Definition aes_round (w block : list Z) (r : nat) : list Z :=
  xor_bytes (mix (shift (sub block))) (slice (16 * r) 16 w).
Definition aes (k b : list Z) : list Z :=
  let w := expand k in
  let b := xor_bytes b (slice 0 16 w) in
  let b := foldl (aes_round w) b (seq 1 9) in
  xor_bytes (shift (sub b)) (slice 160 16 w).

End CcmpAes.

(** * The Wi-Fi AES is a permutation of blocks

    Every layer of a round is inverted by its counterpart: substitution by its table,
    the mixing of a column because multiplication by a constant is linear over [xor]. *)
Import Block Io Bytes Aes CcmpAes.

Module AesProofs.

(** A block: sixteen bytes. *)
Definition block_of (n : nat) (s : list Z) : Prop := length s = n ∧ Forall is_byte s.
Abbreviation block := (block_of 16).

Definition all_bytes : list Z := seqZ 0 256.

Lemma byte_in x : is_byte x ↔ x ∈ all_bytes.
Proof. unfold all_bytes, is_byte, u8_max. rewrite elem_of_seqZ. lia. Qed.

(** A check of all bytes proves it of every byte. *)
Lemma bytes_check (p : Z → bool) : forallb p all_bytes = true → ∀ x, is_byte x → p x = true.
Proof. intros H x Hx. rewrite forallb_forall in H. by apply H, list_elem_of_In, byte_in. Qed.

(** ** Substitution *)
Lemma tables_check :
  forallb (λ x, (inv_sbox (sbox x) =? x) && (sbox (inv_sbox x) =? x) && bool_decide (is_byte (sbox x)) && bool_decide (is_byte (inv_sbox x))) all_bytes = true.
Proof. vm_compute. reflexivity. Qed.

Lemma tables x : is_byte x → inv_sbox (sbox x) = x ∧ sbox (inv_sbox x) = x ∧ is_byte (sbox x) ∧ is_byte (inv_sbox x).
Proof. intros Hx. pose proof (bytes_check _ tables_check x Hx) as H. cbn beta in H. reflect_bools. done. Qed.

Lemma sub_block s n : block_of n s → block_of n (sub_bytes s) ∧ inv_sub_bytes (sub_bytes s) = s.
Proof.
  intros [Hl Hb]. unfold sub_bytes, inv_sub_bytes. split; [split|].
  - by rewrite length_fmap.
  - apply Forall_fmap. eapply Forall_impl; [done|]. intros x Hx. by apply tables.
  - rewrite <-list_fmap_compose. rewrite <-(list_fmap_id s) at 2. apply list_fmap_ext. intros i x Hi. simpl.
    apply tables. by eapply Forall_lookup_1.
Qed.

Lemma inv_sub_block s n : block_of n s → block_of n (inv_sub_bytes s) ∧ sub_bytes (inv_sub_bytes s) = s.
Proof.
  intros [Hl Hb]. unfold sub_bytes, inv_sub_bytes. split; [split|].
  - by rewrite length_fmap.
  - apply Forall_fmap. eapply Forall_impl; [done|]. intros x Hx. by apply tables.
  - rewrite <-list_fmap_compose. rewrite <-(list_fmap_id s) at 2. apply list_fmap_ext. intros i x Hi. simpl.
    apply tables. by eapply Forall_lookup_1.
Qed.

(** ** Rows *)
(** A list of a known length, by its elements. *)
Lemma length_S_inv {A} n (l : list A) : length l = S n → ∃ x l', l = x :: l' ∧ length l' = n.
Proof. destruct l as [|x l]; [done|]. intros [= <-]. by exists x, l. Qed.

Ltac explode H :=
  repeat (let x := fresh "x" in let l := fresh "l" in apply length_S_inv in H as (x & l & -> & H));
  apply length_zero_iff_nil in H; subst.

Lemma rows_block s : block s → block (shift_rows s) ∧ inv_shift_rows (shift_rows s) = s.
Proof.
  intros [Hl Hb]. split; [split; [done|]|by explode Hl].
  apply Forall_fmap, Forall_forall. intros i _. simpl. pose proof (byte_at_bound s i Hb). unfold is_byte, u8_max. lia.
Qed.

Lemma inv_rows_block s : block s → block (inv_shift_rows s) ∧ shift_rows (inv_shift_rows s) = s.
Proof.
  intros [Hl Hb]. split; [split; [done|]|by explode Hl].
  apply Forall_fmap, Forall_forall. intros i _. simpl. pose proof (byte_at_bound s i Hb). unfold is_byte, u8_max. lia.
Qed.

(** ** Columns *)
Lemma testbit_byte x i : is_byte x → 8 ≤ i → Z.testbit x i = false.
Proof.
  unfold is_byte, u8_max. intros Hx Hi. destruct (decide (x = 0)) as [->|]; [apply Z.testbit_0_l|].
  apply Z.bits_above_log2; [lia|]. apply Z.log2_lt_pow2; [lia|]. eapply Z.lt_le_trans; [|by apply (Z.pow_le_mono_r 2 8)]. lia.
Qed.

Lemma xtime_reduce x : is_byte x → xtime x = Z.lxor (Z.shiftl x 1 mod 256) (if Z.testbit x 7 then 0x1b else 0).
Proof.
  intros Hx. unfold xtime. f_equal. assert (H : forallb (λ x, Bool.eqb (Z.land x 0x80 =? 0) (negb (Z.testbit x 7))) all_bytes = true) by by vm_compute.
  pose proof (bytes_check _ H x Hx) as E. cbn beta in E. apply Bool.eqb_prop in E. rewrite E. by destruct (Z.testbit x 7).
Qed.

Lemma xtime_byte x : is_byte x → is_byte (xtime x).
Proof.
  intros Hx. apply lxor_byte; [|by case_match].
  unfold is_byte, u8_max. pose proof (Z.mod_pos_bound (Z.shiftl x 1) 256). lia.
Qed.

Lemma mod256_lxor x y : (Z.lxor x y) mod 256 = Z.lxor (x mod 256) (y mod 256).
Proof.
  change 256 with (2 ^ 8). apply Z.bits_inj'. intros i Hi. rewrite Z.lxor_spec.
  destruct (decide (i < 8)).
  - by rewrite !Z.mod_pow2_bits_low, Z.lxor_spec by lia.
  - by rewrite !Z.mod_pow2_bits_high by lia.
Qed.

Lemma xtime_lxor x y : is_byte x → is_byte y → xtime (Z.lxor x y) = Z.lxor (xtime x) (xtime y).
Proof.
  intros Hx Hy. rewrite !xtime_reduce by auto using lxor_byte. rewrite Z.shiftl_lxor, mod256_lxor, Z.lxor_spec, lxor_interchange.
  f_equal. by destruct (Z.testbit x 7), (Z.testbit y 7).
Qed.

Lemma mul_loop_lxor n a a' b r r' :
  is_byte a → is_byte a' →
  mul_loop n (Z.lxor a a') b (Z.lxor r r') = Z.lxor (mul_loop n a b r) (mul_loop n a' b r').
Proof.
  revert a a' b r r'. induction n as [|n IH]; intros a a' b r r' Ha Ha'; [done|]. cbn [mul_loop].
  destruct (b =? 0); [done|]. rewrite xtime_lxor by done. rewrite <-IH by by apply xtime_byte.
  f_equal. destruct (Z.land b 1 =? 0); [done|]. apply lxor_interchange.
Qed.

Lemma mul_lxor a a' c : is_byte a → is_byte a' → mul (Z.lxor a a') c = Z.lxor (mul a c) (mul a' c).
Proof. intros. unfold mul. by rewrite <-mul_loop_lxor. Qed.

Lemma mul_byte a c : is_byte a → is_byte (mul a c).
Proof.
  enough (Hgo : ∀ n a c r, is_byte a → is_byte r → is_byte (mul_loop n a c r)) by (intros; by apply Hgo).
  intros n. induction n as [|n IH]; intros b d r Hb Hr; [done|]. cbn [mul_loop].
  destruct (d =? 0); [done|]. apply IH; [by apply xtime_byte|]. case_match; [done|by apply lxor_byte].
Qed.

Lemma xor4_lxor a b c d a' b' c' d' :
  xor4 (Z.lxor a a') (Z.lxor b b') (Z.lxor c c') (Z.lxor d d') = Z.lxor (xor4 a b c d) (xor4 a' b' c' d').
Proof. unfold xor4. rewrite (lxor_interchange a a'), (lxor_interchange (Z.lxor a b)). apply lxor_interchange. Qed.

Lemma xor4_byte a b c d : is_byte a → is_byte b → is_byte c → is_byte d → is_byte (xor4 a b c d).
Proof. intros. unfold xor4. by repeat apply lxor_byte. Qed.

Abbreviation column := (block_of 4).

(** Functions on columns that keep bytes and are linear. *)
Record linear (f : list Z → list Z) : Prop := {
  lin_column c : column c → column (f c);
  lin_xor c c' : column c → column c' → f (xor_bytes c c') = xor_bytes (f c) (f c')
}.

Lemma linear_compose f g : linear f → linear g → linear (λ c, g (f c)).
Proof.
  intros [Hf Hf'] [Hg Hg']. split; [by auto|]. intros c c' Hc Hc'. rewrite Hf' by done. apply Hg'; by apply Hf.
Qed.

Lemma column_byte c i : column c → is_byte (byte_at c i).
Proof. intros [_ Hc]. pose proof (byte_at_bound c i Hc). unfold is_byte, u8_max. lia. Qed.

#[local] Hint Resolve column_byte mul_byte xor4_byte lxor_byte : woven.

Lemma mix_linear : linear mix_column.
Proof.
  split.
  - intros c Hc. split; [done|]. unfold mix_column. repeat constructor; apply xor4_byte; eauto with woven.
  - intros c c' [Hl Hb] [Hl' Hb']. explode Hl. explode Hl'. rewrite !Forall_cons in Hb, Hb'. destruct_and!.
    cbv [mix_column xor_bytes zip_with byte_at lookup list_lookup default from_option id]. by rewrite !mul_lxor, !xor4_lxor by done.
Qed.

Lemma inv_mix_linear : linear inv_mix_column.
Proof.
  split.
  - intros c Hc. split; [done|]. unfold inv_mix_column. repeat constructor; apply xor4_byte; eauto with woven.
  - intros c c' [Hl Hb] [Hl' Hb']. explode Hl. explode Hl'. rewrite !Forall_cons in Hb, Hb'. destruct_and!.
    cbv [inv_mix_column xor_bytes zip_with byte_at lookup list_lookup default from_option id]. by rewrite !mul_lxor, !xor4_lxor by done.
Qed.

(** A linear function that fixes the columns with one byte is the identity. *)
Definition fixes_units (f : list Z → list Z) : bool :=
  forallb (λ x, bool_decide (f [x; 0; 0; 0] = [x; 0; 0; 0]) && bool_decide (f [0; x; 0; 0] = [0; x; 0; 0]) &&
                bool_decide (f [0; 0; x; 0] = [0; 0; x; 0]) && bool_decide (f [0; 0; 0; x] = [0; 0; 0; x])) all_bytes.

Lemma linear_id f c : linear f → fixes_units f = true → column c → f c = c.
Proof.
  intros [_ Hx] Hu [Hl Hb]. explode Hl. rewrite !Forall_cons in Hb. destruct_and!.
  assert (Hun : ∀ x, is_byte x → f [x; 0; 0; 0] = [x; 0; 0; 0] ∧ f [0; x; 0; 0] = [0; x; 0; 0] ∧
    f [0; 0; x; 0] = [0; 0; x; 0] ∧ f [0; 0; 0; x] = [0; 0; 0; x]).
  { intros y Hy. pose proof (bytes_check _ Hu y Hy) as E. cbn beta in E. reflect_bools. done. }
  assert (Hz : is_byte 0) by done.
  assert (E : [x; x0; x1; x2] = xor_bytes (xor_bytes [x; 0; 0; 0] [0; x0; 0; 0]) (xor_bytes [0; 0; x1; 0] [0; 0; 0; x2])).
  { unfold xor_bytes. cbn [zip_with]. by rewrite !Z.lxor_0_r, !Z.lxor_0_l. }
  assert (Hcol : ∀ a b c d, is_byte a → is_byte b → is_byte c → is_byte d → column [a; b; c; d]).
  { intros. split; [done|]. by rewrite !Forall_cons. }
  assert (Hxor : ∀ c c', column c → column c' → column (xor_bytes c c')).
  { intros c c' [Hc ?] [Hc' ?]. split; [by rewrite length_xor_bytes; lia|by apply xor_bytes_byte]. }
  pose proof (Hun x ltac:(done)) as (U0 & _). pose proof (Hun x0 ltac:(done)) as (_ & U1 & _).
  pose proof (Hun x1 ltac:(done)) as (_ & _ & U2 & _). pose proof (Hun x2 ltac:(done)) as (_ & _ & _ & U3).
  rewrite E, (Hx (xor_bytes [x; 0; 0; 0] _)), (Hx [x; 0; 0; 0]), (Hx [0; 0; x1; 0]), U0, U1, U2, U3 by auto. done.
Qed.

Lemma unmix_check : fixes_units (λ c, inv_mix_column (mix_column c)) = true.
Proof. vm_compute. reflexivity. Qed.
Lemma mix_unmix_check : fixes_units (λ c, mix_column (inv_mix_column c)) = true.
Proof. vm_compute. reflexivity. Qed.

Lemma columns_block f s : linear f → block s → block (columns f s).
Proof.
  intros Hf [Hl Hb]. unfold columns.
  assert (Hc : ∀ i, (i + 4 ≤ 16)%nat → column (f (slice i 4 s))).
  { intros i Hi. apply Hf. split; [by rewrite length_slice by lia|by apply Forall_slice]. }
  assert (Hcl : ∀ i, (i + 4 ≤ 16)%nat → length (f (slice i 4 s)) = 4%nat) by (intros i Hi; by apply Hc).
  split; [by rewrite !length_app, !Hcl by lia|]. rewrite !Forall_app. split_and!; apply Hc; lia.
Qed.

Lemma columns_inverse f g s :
  linear f → (∀ c, column c → g (f c) = c) → block s → columns g (columns f s) = s.
Proof.
  intros Hf Hg [Hl Hb]. assert (Hc : ∀ i, (i + 4 ≤ 16)%nat → column (slice i 4 s)).
  { intros i Hi. split; [by rewrite length_slice by lia|by apply Forall_slice]. }
  assert (Hfl : ∀ i, (i + 4 ≤ 16)%nat → length (f (slice i 4 s)) = 4%nat) by (intros i Hi; by apply Hf, Hc).
  assert (Hcut : slice 0 4 (columns f s) = f (slice 0 4 s) ∧ slice 4 4 (columns f s) = f (slice 4 4 s) ∧
    slice 8 4 (columns f s) = f (slice 8 4 s) ∧ slice 12 4 (columns f s) = f (slice 12 4 s)).
  { unfold columns. pose proof (Hfl 0%nat ltac:(lia)) as E0. pose proof (Hfl 4%nat ltac:(lia)) as E1.
    pose proof (Hfl 8%nat ltac:(lia)) as E2. pose proof (Hfl 12%nat ltac:(lia)) as E3.
    explode E0. explode E1. explode E2. explode E3. done. }
  destruct Hcut as (E0 & E1 & E2 & E3). unfold columns at 1. rewrite E0, E1, E2, E3, !Hg by (apply Hc; lia).
  rewrite !slice_app_l. by apply slice_all.
Qed.

Lemma mix_block s : block s → block (mix_columns s) ∧ inv_mix_columns (mix_columns s) = s.
Proof.
  intros Hs. split; [by apply columns_block; [apply mix_linear|]|].
  apply columns_inverse; [apply mix_linear| |done]. intros c Hc.
  by apply (linear_id (λ c, inv_mix_column (mix_column c)) c (linear_compose _ _ mix_linear inv_mix_linear) unmix_check).
Qed.

Lemma inv_mix_block s : block s → block (inv_mix_columns s) ∧ mix_columns (inv_mix_columns s) = s.
Proof.
  intros Hs. split; [by apply columns_block; [apply inv_mix_linear|]|].
  apply columns_inverse; [apply inv_mix_linear| |done]. intros c Hc.
  by apply (linear_id (λ c, mix_column (inv_mix_column c)) c (linear_compose _ _ inv_mix_linear mix_linear) mix_unmix_check).
Qed.

(** ** The key schedule *)
Lemma add_key_block s k : block s → block k → block (add_round_key s k) ∧ add_round_key (add_round_key s k) k = s.
Proof.
  intros [Hl Hb] [Hk Hkb]. unfold add_round_key. split; [split|].
  - by rewrite length_xor_bytes by lia.
  - by apply xor_bytes_byte.
  - apply xor_bytes_cancel. lia.
Qed.

Lemma rcon_byte r : is_byte (byte_at RCON r).
Proof.
  assert (Hb : Forall is_byte RCON) by (by apply (bool_decide_unpack _)). pose proof (byte_at_bound RCON r Hb).
  unfold is_byte, u8_max. lia.
Qed.

Lemma expand_word_spec w r :
  (16 ≤ length w)%nat → Forall is_byte w →
  length (expand_word w r).1 = (length w + 4)%nat ∧ Forall is_byte (expand_word w r).1.
Proof.
  intros Hl Hb. unfold expand_word. set (t := slice (length w - 4) 4 w).
  assert (Ht : column t) by (split; [subst t; rewrite length_slice; lia|by apply Forall_slice]).
  assert (Hp : column (slice (length w - 16) 4 w)) by (split; [rewrite length_slice; lia|by apply Forall_slice]).
  assert (Hgo : ∀ u, column u → length (w ++ xor_bytes (slice (length w - 16) 4 w) u) = (length w + 4)%nat ∧
    Forall is_byte (w ++ xor_bytes (slice (length w - 16) 4 w) u)).
  { intros u [Hu Hu']. destruct Hp as [Hp Hp']. rewrite length_app, length_xor_bytes by lia. split; [lia|].
    apply Forall_app. split; [done|by apply xor_bytes_byte]. }
  destruct (_ =? _)%nat; [|by apply Hgo]. cbn [fst]. apply Hgo. split; [done|].
  pose proof (rcon_byte r). repeat constructor; try apply lxor_byte; try done; apply tables; by apply column_byte.
Qed.

Lemma expand_loop_spec n w r :
  (16 ≤ length w)%nat → Forall is_byte w →
  length (expand_loop n w r) = (length w + 4 * n)%nat ∧ Forall is_byte (expand_loop n w r).
Proof.
  revert w r. induction n as [|n IH]; intros w r Hl Hb; [split; [simpl; lia|done]|]. cbn [expand_loop].
  destruct (expand_word_spec w r Hl Hb) as [Hl' Hb']. destruct (expand_word w r) as [w' r']. cbn [fst] in *.
  destruct (IH w' r') as [IH1 IH2]; [lia|done|]. split; [lia|done].
Qed.

Lemma round_key_block key r : block key → (r ≤ 10)%nat → block (round_key (expand_key key) r).
Proof.
  intros [Hl Hb] Hr. destruct (expand_loop_spec 40 key 0) as [Hw Hwb]; [lia|done|].
  unfold round_key, expand_key. split; [rewrite length_slice; lia|by apply Forall_slice].
Qed.

(** ** Rounds *)
Section rounds.
Context (key : list Z) (Hkey : block key).
Abbreviation w := (expand_key key).

Definition core (s : list Z) : list Z := shift_rows (sub_bytes s).
Definition uncore (s : list Z) : list Z := inv_sub_bytes (inv_shift_rows s).

Lemma core_block s : block s → block (core s) ∧ uncore (core s) = s.
Proof.
  intros Hs. unfold core, uncore. destruct (sub_block s 16 Hs) as [H1 E1]. destruct (rows_block _ H1) as [H2 E2].
  by rewrite E2, E1.
Qed.

Lemma uncore_block s : block s → block (uncore s) ∧ core (uncore s) = s.
Proof.
  intros Hs. unfold core, uncore. destruct (inv_rows_block _ Hs) as [H1 E1]. destruct (inv_sub_block _ 16 H1) as [H2 E2].
  by rewrite E2, E1.
Qed.

Lemma round_inverse s r :
  block s → (r ≤ 10)%nat → block (encrypt_round w s r) ∧ decrypt_round w (core (encrypt_round w s r)) r = core s.
Proof.
  intros Hs Hr. unfold encrypt_round. fold (core s). destruct (core_block s Hs) as [H1 E1].
  destruct (mix_block _ H1) as [H2 E2]. destruct (add_key_block _ _ H2 (round_key_block key r Hkey Hr)) as [H3 E3].
  split; [done|]. unfold decrypt_round. fold (uncore (core (add_round_key (mix_columns (core s)) (round_key w r)))).
  destruct (core_block _ H3) as [_ ->]. by rewrite E3.
Qed.

Lemma unround_inverse s r :
  block s → (r ≤ 10)%nat → block (decrypt_round w s r) ∧ encrypt_round w (uncore (decrypt_round w s r)) r = uncore s.
Proof.
  intros Hs Hr. unfold decrypt_round. fold (uncore s). destruct (uncore_block s Hs) as [H1 E1].
  destruct (add_key_block _ _ H1 (round_key_block key r Hkey Hr)) as [H2 E2]. destruct (inv_mix_block _ H2) as [H3 E3].
  split; [done|]. unfold encrypt_round. fold (core (uncore (inv_mix_columns (add_round_key (uncore s) (round_key w r))))).
  destruct (uncore_block _ H3) as [_ ->]. by rewrite E3.
Qed.

Lemma rounds_inverse l s :
  block s → Forall (λ r, r ≤ 10)%nat l →
  block (foldl (encrypt_round w) s l) ∧
  foldl (decrypt_round w) (core (foldl (encrypt_round w) s l)) (reverse l) = core s.
Proof.
  revert s. induction l as [|r l IH]; intros s Hs Hl; [done|]. apply Forall_cons in Hl as [Hr Hl]. cbn [foldl].
  destruct (round_inverse s r Hs Hr) as [Hb Hi]. destruct (IH _ Hb Hl) as [IH1 IH2]. split; [done|].
  by rewrite reverse_cons, foldl_app, IH2.
Qed.

Lemma unrounds_inverse l s :
  block s → Forall (λ r, r ≤ 10)%nat l →
  block (foldl (decrypt_round w) s l) ∧
  foldl (encrypt_round w) (uncore (foldl (decrypt_round w) s l)) (reverse l) = uncore s.
Proof.
  revert s. induction l as [|r l IH]; intros s Hs Hl; [done|]. apply Forall_cons in Hl as [Hr Hl]. cbn [foldl].
  destruct (unround_inverse s r Hs Hr) as [Hb Hi]. destruct (IH _ Hb Hl) as [IH1 IH2]. split; [done|].
  by rewrite reverse_cons, foldl_app, IH2.
Qed.

Lemma ten_rounds : Forall (λ r, r ≤ 10)%nat (seq 1 9).
Proof. apply Forall_forall. intros r Hr%elem_of_seq. lia. Qed.

Lemma decrypt_encrypt s : block s → block (aes_encrypt key s) ∧ aes_decrypt key (aes_encrypt key s) = s.
Proof.
  intros Hs. unfold aes_encrypt, aes_decrypt.
  destruct (add_key_block s _ Hs (round_key_block key 0 Hkey ltac:(lia))) as [H1 E1].
  destruct (rounds_inverse (seq 1 9) _ H1 ten_rounds) as [H2 E2]. set (t := foldl _ _ _) in *. fold (core t).
  destruct (core_block t H2) as [H3 _].
  destruct (add_key_block _ _ H3 (round_key_block key 10 Hkey ltac:(lia))) as [H4 E4]. split; [done|].
  rewrite E4, E2. fold (uncore (core (add_round_key s (round_key w 0)))). destruct (core_block _ H1) as [_ ->]. done.
Qed.

Lemma encrypt_decrypt s : block s → block (aes_decrypt key s) ∧ aes_encrypt key (aes_decrypt key s) = s.
Proof.
  intros Hs. unfold aes_encrypt, aes_decrypt.
  destruct (add_key_block s _ Hs (round_key_block key 10 Hkey ltac:(lia))) as [H1 E1].
  destruct (unrounds_inverse (reverse (seq 1 9)) _ H1) as [H2 E2]; [by apply Forall_reverse, ten_rounds|].
  rewrite reverse_involutive in E2. set (t := foldl _ _ _) in *. fold (uncore t).
  destruct (uncore_block t H2) as [H3 _].
  destruct (add_key_block _ _ H3 (round_key_block key 0 Hkey ltac:(lia))) as [H4 E4]. split; [done|].
  rewrite E4, E2. fold (core (uncore (add_round_key s (round_key w 10)))). destruct (uncore_block _ H1) as [_ ->]. done.
Qed.
End rounds.

(** ** The copies agree *)
Lemma mul_2_3 a : mul a 2 = mul2 a ∧ mul a 3 = mul3 a.
Proof.
  split; [reflexivity|]. unfold mul3. rewrite Z.lxor_comm. reflexivity.
Qed.

Lemma mix_same s : mix s = mix_columns s.
Proof.
  unfold mix, mix_columns, columns, mix1, mix_column. pose proof (λ a, proj1 (mul_2_3 a)) as E2. pose proof (λ a, proj2 (mul_2_3 a)) as E3.
  by rewrite !E2, !E3.
Qed.

Lemma ccmp_aes_same key s : aes key s = aes_encrypt key s.
Proof.
  assert (Hr : ∀ w l t, foldl (aes_round w) t l = foldl (encrypt_round w) t l).
  { intros w l. induction l as [|r l IH]; intros t; [done|]. cbn [foldl]. rewrite IH. f_equal.
    unfold aes_round, encrypt_round. by rewrite mix_same. }
  unfold aes, aes_encrypt. cbv zeta. rewrite Hr. reflexivity.
Qed.

(** The cipher that the kernel carries for Wi-Fi is a permutation of the 16-byte blocks under
    every key, decryption being its inverse in both directions; and the second copy, which
    protects data frames, computes the same blocks as the first, which unwraps keys. *)
Theorem aes_inverse key s :
  block key → block s →
  aes_decrypt key (aes_encrypt key s) = s ∧ aes_encrypt key (aes_decrypt key s) = s ∧ aes key s = aes_encrypt key s.
Proof.
  intros Hk Hs. split_and!; [by apply decrypt_encrypt|by apply encrypt_decrypt|apply ccmp_aes_same].
Qed.

(** The FIPS-197 example. *)
Definition fips_key : list Z := seqZ 0 16.
Definition fips_block : list Z := (λ i, 17 * i) <$> seqZ 0 16.

Lemma fips_vector :
  aes_encrypt fips_key fips_block =
    [0x69; 0xc4; 0xe0; 0xd8; 0x6a; 0x7b; 0x04; 0x30; 0xd8; 0xcd; 0xb7; 0x80; 0x70; 0xb4; 0xc5; 0x5a].
Proof. vm_compute. reflexivity. Qed.

Lemma aes_inverse_witness :
  aes_decrypt fips_key (aes_encrypt fips_key fips_block) = fips_block ∧
  aes_encrypt fips_key (aes_decrypt fips_key fips_block) = fips_block ∧
  aes fips_key fips_block = aes_encrypt fips_key fips_block.
Proof.
  apply (aes_inverse fips_key fips_block); (split; [reflexivity|]);
    apply (bool_decide_unpack _); vm_compute; exact I.
Defined.
End AesProofs.
