(* ===== verification/GroupKeys.v ===== *)
(** * Encrypted group keys (kernel/src/wifi_gtk.rs)

    The RFC 3394 key wrap over the kernel's AES, the search for the group key in the
    unwrapped key data, and the store that installs a key at most once per replay
    counter. Wiping of secrets is modelled where the result can be observed. *)
From S2P Require Import Prelude Block DeviceIo Bytes Aes.
Import Block Io Bytes Aes.

Module Gtk.

Definition WRAP_IV : list Z := replicate 8 0xa6.
Definition MAX_KEY_DATA : nat := 64.
Definition GTK_LEN : nat := 16.
Definition RSN_OUI : list Z := [0x00; 0x0f; 0xac].
Definition GTK_KDE_TYPE : Z := 1.

Inductive GtkError :=
  | InvalidKek
  | InvalidWrappedLength
  | Integrity
  | KeyDataTooLarge
  | MalformedKde
  | MissingGtk
  | InvalidGtkLength
  | Replay
  | ConflictingRetransmission.

#[export] Instance GtkError_eq_dec : EqDecision GtkError.
Proof. solve_decision. Defined.

Inductive InstallOutcome := Installed | Retransmission.

#[export] Instance InstallOutcome_eq_dec : EqDecision InstallOutcome.
Proof. solve_decision. Defined.

Record GroupTemporalKey := mkGtk {
  gtk_key : list Z;
  gtk_index : Z
}.

#[export] Instance GroupTemporalKey_eq_dec : EqDecision GroupTemporalKey.
Proof. solve_decision. Defined.

(** ** The store *)
Record GroupKeyStore := mkStore {
  gtk : option GroupTemporalKey;
  replay_counter : Z;
  installed : bool;
  installs : Z
}.

Definition store_new : GroupKeyStore := mkStore None 0 false 0.

Definition install_verified (replay : Z) (candidate : GroupTemporalKey) (st : GroupKeyStore)
    : result InstallOutcome GtkError * GroupKeyStore :=
  let install := (Ok Installed, mkStore (Some candidate) replay true (saturating_add64 (installs st) 1)) in
  if installed st then
    if replay <? replay_counter st then (Err Replay, st)
    else if replay =? replay_counter st then
      let same := match gtk st with
        | Some g => (gtk_index g =? gtk_index candidate) && bool_decide (gtk_key g = gtk_key candidate)
        | None => false
        end in
      (if same then Ok Retransmission else Err ConflictingRetransmission, st)
    else install
  else install.

Definition clear (st : GroupKeyStore) : GroupKeyStore := mkStore None 0 false (installs st).

(** ** The key wrap *)
Definition key16 (kek : list Z) : result (list Z) GtkError :=
  if (length kek =? 16)%nat then Ok kek else Err InvalidKek.

(** The integrity register [a] and the [8 * n] bytes of key data. *)
Definition Registers : Type := list Z * list Z.

(** [(u64::from_be_bytes(a) ^ t).to_be_bytes()]. *)
Definition count_in (a : list Z) (t : Z) : list Z := to_be_bytes 8 (Z.lxor (from_be_bytes a) t).

(** The turns of the loops, [(j, i)] in the order in which wrapping takes them. *)
Definition turns (n : nat) : list (nat * nat) :=
  j ← seq 0 6; (λ i, (j, i)) <$> seq 1 n.
Definition turn_number (n : nat) (ji : nat * nat) : Z := Z.of_nat (n * ji.1 + ji.2).

Definition unwrap_turn (key : list Z) (n : nat) (st : Registers) (ji : nat * nat) : Registers :=
  let '(a, r) := st in
  let off := ((ji.2 - 1) * 8)%nat in
  let b := aes_decrypt key (count_in a (turn_number n ji) ++ slice off 8 r) in
  (slice 0 8 b, splice off (slice 8 8 b) r).

Definition unwrap_key_data (kek wrapped output : list Z) : result nat GtkError * list Z :=
  if (length wrapped <? 24)%nat || negb (length wrapped mod 8 =? 0)%nat then (Err InvalidWrappedLength, output)
  else
  let plen := (length wrapped - 8)%nat in
  if (MAX_KEY_DATA <? plen)%nat || (length output <? plen)%nat then (Err KeyDataTooLarge, output)
  else
  let n := (plen / 8)%nat in
  match key16 kek with
  | Err e => (Err e, output)
  | Ok key =>
      let '(a, r) := foldl (unwrap_turn key n) (slice 0 8 wrapped, slice 8 plen wrapped) (reverse (turns n)) in
      if bool_decide (a = WRAP_IV) then (Ok plen, splice 0 r output)
      else (Err Integrity, splice 0 (replicate plen 0) output)
  end.

Definition wrap_turn (key : list Z) (n : nat) (st : Registers) (ji : nat * nat) : Registers :=
  let '(a, r) := st in
  let off := ((ji.2 - 1) * 8)%nat in
  let b := aes_encrypt key (a ++ slice off 8 r) in
  (count_in (slice 0 8 b) (turn_number n ji), splice off (slice 8 8 b) r).

(** [out[8..]] holds the key data during the loop. *)
Definition wrap_test (kek plain out : list Z) : result nat GtkError * list Z :=
  if (length plain <? 16)%nat || negb (length plain mod 8 =? 0)%nat then (Err InvalidWrappedLength, out)
  else if (MAX_KEY_DATA <? length plain)%nat || (length out <? length plain + 8)%nat then (Err KeyDataTooLarge, out)
  else
  let n := (length plain / 8)%nat in
  match key16 kek with
  | Err e => (Err e, out)
  | Ok key =>
      let '(a, r) := foldl (wrap_turn key n) (WRAP_IV, plain) (turns n) in
      (Ok (length plain + 8)%nat, splice 0 a (splice 8 r out))
  end.

(** ** Key data elements *)
Fixpoint parse_loop (fuel o : nat) (data : list Z) : result GroupTemporalKey GtkError :=
  match fuel with
  | O => Err MissingGtk
  | S fuel =>
      if (length data <=? o)%nat then Err MissingGtk
      else if byte_at data o =? 0 then parse_loop fuel (o + 1) data
      else
      let id := byte_at data o in
      let? len := ok_or (data !! (o + 1)%nat) MalformedKde in
      let len := Z.to_nat len in
      let? b := ok_or (get (o + 2) len data) MalformedKde in
      if (id =? 0xdd) && (6 <=? length b)%nat && bool_decide (slice 0 3 b = RSN_OUI) && (byte_at b 3 =? GTK_KDE_TYPE)
      then
        let key := drop 6 b in
        if (length key =? GTK_LEN)%nat then Ok (mkGtk key (Z.land (byte_at b 4) 3)) else Err InvalidGtkLength
      else parse_loop fuel (o + 2 + len) data
  end.

(** Every turn moves on, so a turn per byte and one to stop are enough. *)
Definition parse_gtk_kde (data : list Z) : result GroupTemporalKey GtkError := parse_loop (S (length data)) 0 data.

Definition unwrap_gtk (kek wrapped : list Z) : result GroupTemporalKey GtkError :=
  let '(r, p) := unwrap_key_data kek wrapped (replicate MAX_KEY_DATA 0) in
  let? len := r in
  parse_gtk_kde (take len p).

(** The key data element of a group key. *)
Definition gtk_kde (index : Z) (key : list Z) : list Z :=
  [0xdd; 22] ++ RSN_OUI ++ [GTK_KDE_TYPE; Z.land index 3; 0] ++ key.

Definition wrap_gtk_for_test (kek : list Z) (index : Z) (key out : list Z) : result nat GtkError * list Z :=
  wrap_test kek (gtk_kde index key) out.

(** ** [self_test] *)
Definition test_key : list Z := seqZ 0 16.
Definition test_block : list Z := (λ i, 17 * i) <$> seqZ 0 16.
Definition test_wrapped : list Z :=
  [0x1f; 0xa6; 0x8b; 0x0a; 0x81; 0x12; 0xb4; 0x47; 0xae; 0xf3; 0x4b; 0xd8; 0xfb; 0x5a; 0x7b; 0x82; 0x9d; 0x3e;
   0x86; 0x23; 0x71; 0xd2; 0xcf; 0xe5].
Definition flip_low (i : nat) (s : list Z) : list Z := <[i := Z.lxor (byte_at s i) 1]> s.

(** The contents of a buffer up to the returned length. *)
Definition written (r : result nat GtkError * list Z) : option (list Z) :=
  match r with (Ok n, out) => Some (take n out) | (Err _, _) => None end.

Definition self_test : bool :=
  bool_decide (aes_encrypt test_key test_block =
    [0x69; 0xc4; 0xe0; 0xd8; 0x6a; 0x7b; 0x04; 0x30; 0xd8; 0xcd; 0xb7; 0x80; 0x70; 0xb4; 0xc5; 0x5a]) &&
  bool_decide (aes_decrypt test_key (aes_encrypt test_key test_block) = test_block) &&
  bool_decide (written (unwrap_key_data test_key test_wrapped (replicate MAX_KEY_DATA 0)) = Some test_block) &&
  let tk := replicate 16 0x33 in
  let key := replicate GTK_LEN 0x5a in
  let kde := gtk_kde 1 key in
  match written (wrap_test tk kde (replicate 40 0)), written (wrap_test tk (flip_low 8 kde) (replicate 40 0)) with
  | Some enc, Some enc' =>
      match unwrap_gtk tk enc, unwrap_gtk tk enc' with
      | Ok first, Ok conflict =>
          let '(r1, st) := install_verified 7 first store_new in
          let '(r2, st2) := install_verified 7 first st in
          let '(r3, st3) := install_verified 7 conflict st2 in
          bool_decide (first = mkGtk key 1) && bool_decide (r1 = Ok Installed) && (installs st =? 1) &&
          bool_decide (r2 = Ok Retransmission) && (installs st2 =? 1) &&
          bool_decide (r3 = Err ConflictingRetransmission) && (installs st3 =? 1)
      | _, _ => false
      end
  | _, _ => false
  end &&
  bool_decide ((unwrap_key_data test_key (flip_low 0 test_wrapped) (replicate MAX_KEY_DATA 0)).1 = Err Integrity).

End Gtk.

Module GtkTest.
Import Gtk.
Example gtk_self_test_passes : self_test = true.
Proof. vm_compute. reflexivity. Qed.
End GtkTest.

(** * The key wrap is exact

    Unwrapping runs the turns of wrapping backwards, so it accepts a ciphertext exactly
    when it is the wrapping of the key data that it returns. *)
Import Block Io Bytes Aes AesProofs Gtk.

Module GtkProofs.

(** ** One turn *)
Record registers (n : nat) (st : Registers) : Prop := {
  reg_a : block_of 8 st.1;
  reg_r : block_of (8 * n) st.2
}.

Definition in_turns (n : nat) (ji : nat * nat) : Prop := (ji.1 < 6 ∧ 1 ≤ ji.2 ≤ n)%nat.

Lemma turns_in n : Forall (in_turns n) (turns n).
Proof.
  apply Forall_forall. intros ji Hin. unfold turns in Hin. apply list_elem_of_bind in Hin as (j & Hin & Hj%elem_of_seq).
  apply list_elem_of_fmap in Hin as (i & -> & Hi%elem_of_seq). split; cbn; lia.
Qed.

Lemma count_in_spec a t :
  block_of 8 a → 0 ≤ t < 2 ^ 64 → block_of 8 (count_in a t) ∧ count_in (count_in a t) t = a.
Proof.
  intros [Hl Hb] Ht. unfold count_in. pose proof (from_be_bytes_bound a Hb) as Hf. rewrite Hl in Hf.
  change (256 ^ Z.of_nat 8) with (2 ^ 64) in Hf. pose proof (lxor_bound 64 _ _ ltac:(lia) Hf Ht) as Hx.
  split; [split; [apply length_to_be_bytes|apply to_be_bytes_byte; lia]|].
  rewrite from_to_be_bytes by (change (256 ^ Z.of_nat 8) with (2 ^ 64); lia). rewrite lxor_cancel.
  by apply to_from_be_bytes.
Qed.

Lemma halves (a b : list Z) : length a = 8%nat → length b = 8%nat → slice 0 8 (a ++ b) = a ∧ slice 8 8 (a ++ b) = b.
Proof.
  intros Ha Hb. unfold slice. rewrite drop_0, take_app_length' by done. rewrite drop_app_length' by done. by rewrite take_ge by lia.
Qed.

Lemma registers_join (b : list Z) : length b = 16%nat → slice 0 8 b ++ slice 8 8 b = b.
Proof. intros Hb. rewrite (slice_app_l 0 8 8). by apply slice_all. Qed.

Lemma splice_same off n (r : list Z) : (off + n ≤ length r)%nat → splice off (slice off n r) r = r.
Proof.
  intros Hl. unfold splice. rewrite length_slice by done. unfold slice. rewrite <-drop_drop, take_drop. apply take_drop.
Qed.

Lemma splice_splice off (x y r : list Z) :
  length x = length y → (off + length x ≤ length r)%nat → splice off x (splice off y r) = splice off x r.
Proof.
  intros Hxy Hl. unfold splice. rewrite Hxy, take_app_length' by (rewrite length_take; lia). f_equal. f_equal.
  by rewrite (app_assoc (take off r)), drop_app_length' by (rewrite length_app, length_take; lia).
Qed.

Section turn.
Context (key : list Z) (Hkey : block key) (n : nat) (Hn : (n ≤ 8)%nat).

(** A turn over the joined block. *)
Lemma join_block a r off :
  block_of 8 a → block_of (8 * n) r → (off + 8 ≤ 8 * n)%nat → block (a ++ slice off 8 r).
Proof.
  intros [Ha Hab] [Hr Hrb] Hoff. split; [rewrite length_app, length_slice; lia|]. apply Forall_app. by split; [|apply Forall_slice].
Qed.

Lemma cut_block b : block b → block_of 8 (slice 0 8 b) ∧ block_of 8 (slice 8 8 b).
Proof. intros [Hb Hbb]. split; (split; [rewrite length_slice; lia|by apply Forall_slice]). Qed.

Lemma put_block r off x :
  block_of (8 * n) r → block_of 8 x → (off + 8 ≤ 8 * n)%nat → block_of (8 * n) (splice off x r).
Proof. intros [Hr Hrb] [Hx Hxb] Hoff. split; [rewrite length_splice; lia|by apply Forall_splice]. Qed.

Lemma turn_bound ji : in_turns n ji → 0 ≤ turn_number n ji < 2 ^ 64 ∧ ((ji.2 - 1) * 8 + 8 ≤ 8 * n)%nat.
Proof. intros [Hj Hi]. unfold turn_number. split; [nia|lia]. Qed.

Lemma wrap_turn_inverse st ji :
  registers n st → in_turns n ji →
  registers n (wrap_turn key n st ji) ∧ unwrap_turn key n (wrap_turn key n st ji) ji = st.
Proof.
  destruct st as [a r]. intros [Ha Hr] Hin. cbn [fst snd] in *. destruct (turn_bound ji Hin) as [Ht Hoff].
  unfold wrap_turn. set (off := ((ji.2 - 1) * 8)%nat) in *. set (t := turn_number n ji) in *.
  destruct (decrypt_encrypt key Hkey _ (join_block a r off Ha Hr Hoff)) as [Hb Eb].
  set (b := aes_encrypt key _) in *. destruct (cut_block b Hb) as [Hb0 Hb1].
  destruct (count_in_spec _ t Hb0 Ht) as [Hc Ec]. split; [split; [done|by apply put_block]|].
  unfold unwrap_turn. fold off t. rewrite Ec, slice_splice_eq by (apply Hb1 || (rewrite (proj1 Hr); lia)).
  rewrite registers_join, Eb by apply Hb. destruct Hr as [Hr _].
  destruct (halves a (slice off 8 r)) as [E0 E1]; [apply Ha|by rewrite length_slice by lia|].
  rewrite E0, E1. f_equal. rewrite splice_splice.
  - apply splice_same. lia.
  - rewrite length_slice by lia. symmetry. apply Hb1.
  - rewrite length_slice by lia. lia.
Qed.

Lemma unwrap_turn_inverse st ji :
  registers n st → in_turns n ji →
  registers n (unwrap_turn key n st ji) ∧ wrap_turn key n (unwrap_turn key n st ji) ji = st.
Proof.
  destruct st as [a r]. intros [Ha Hr] Hin. cbn [fst snd] in *. destruct (turn_bound ji Hin) as [Ht Hoff].
  unfold unwrap_turn. set (off := ((ji.2 - 1) * 8)%nat) in *. set (t := turn_number n ji) in *.
  destruct (count_in_spec a t Ha Ht) as [Hc Ec].
  destruct (encrypt_decrypt key Hkey _ (join_block _ r off Hc Hr Hoff)) as [Hb Eb].
  set (b := aes_decrypt key _) in *. destruct (cut_block b Hb) as [Hb0 Hb1]. split; [split; [done|by apply put_block]|].
  unfold wrap_turn. fold off t. rewrite slice_splice_eq by (apply Hb1 || (rewrite (proj1 Hr); lia)).
  rewrite registers_join, Eb by apply Hb. destruct Hr as [Hr _].
  destruct (halves (count_in a t) (slice off 8 r)) as [E0 E1]; [apply Hc|by rewrite length_slice by lia|].
  rewrite E0, E1, Ec. f_equal. rewrite splice_splice.
  - apply splice_same. lia.
  - rewrite length_slice by lia. symmetry. apply Hb1.
  - rewrite length_slice by lia. lia.
Qed.
End turn.

(** ** The whole wrap *)
(** Key data that can be wrapped. *)
Definition wrappable (plain : list Z) : Prop := (16 ≤ length plain ≤ 64 ∧ length plain mod 8 = 0)%nat.

Definition wrapping (kek plain : list Z) : Registers :=
  foldl (wrap_turn kek (length plain / 8)) (WRAP_IV, plain) (turns (length plain / 8)).

Lemma words_of plain : wrappable plain → length plain = (8 * (length plain / 8))%nat ∧ (length plain / 8 ≤ 8)%nat.
Proof.
  intros [Hl Hm]. pose proof (Nat.div_mod (length plain) 8 ltac:(lia)) as Hd. rewrite Hm in Hd. lia.
Qed.

Lemma wrapped_words (l : nat) : (24 ≤ l ≤ 72 ∧ l mod 8 = 0)%nat → (l - 8 = 8 * ((l - 8) / 8) ∧ (l - 8) / 8 ≤ 8)%nat.
Proof.
  intros [Hl Hm]. assert (E : (l = (l - 8) + 1 * 8)%nat) by lia.
  assert (Hm' : ((l - 8) mod 8 = 0)%nat) by (rewrite <-(Nat.Div0.mod_add _ 1 8), <-E; done).
  pose proof (Nat.div_mod (l - 8) 8 ltac:(lia)). lia.
Qed.

Lemma iv_block : block_of 8 WRAP_IV.
Proof. split; [done|]. apply (bool_decide_unpack _). by vm_compute. Qed.

Lemma wrap_runs kek plain out :
  block kek → wrappable plain → Forall is_byte plain → (length plain + 8 ≤ length out)%nat →
  registers (length plain / 8) (wrapping kek plain) ∧
  written (wrap_test kek plain out) = Some ((wrapping kek plain).1 ++ (wrapping kek plain).2).
Proof.
  intros Hk Hw Hb Hout. pose proof (words_of plain Hw) as [Hlen Hn]. destruct Hw as [Hl Hm].
  assert (Hr : registers (length plain / 8) (wrapping kek plain)).
  { apply (foldl_inverse (registers _) (in_turns _) _ _ (wrap_turn_inverse kek Hk _ Hn)); [|apply turns_in].
    split; [apply iv_block|by split]. }
  split; [done|]. unfold wrap_test.
  rewrite (proj2 (Nat.ltb_ge (length plain) 16)), Hm, (proj2 (Nat.ltb_ge (length out) _)) by lia.
  rewrite (proj2 (Nat.ltb_ge MAX_KEY_DATA _)) by (unfold MAX_KEY_DATA; lia). cbn [orb Nat.eqb negb].
  unfold key16. rewrite (proj1 Hk). cbn [Nat.eqb]. fold (wrapping kek plain).
  destruct (wrapping kek plain) as [a r]. destruct Hr as [[Ha _] [Hr _]]. cbn [fst snd written] in *. f_equal.
  unfold splice. rewrite Ha, Hr, !Nat.add_0_l, take_0, app_nil_l.
  rewrite drop_app_length' by (rewrite length_take; lia).
  rewrite app_assoc. apply take_app_length'. rewrite length_app. lia.
Qed.

Lemma unwrap_runs kek wrapped buf :
  block kek → Forall is_byte wrapped → (64 ≤ length buf)%nat →
  written (unwrap_key_data kek wrapped buf) =
    if bool_decide (24 ≤ length wrapped ≤ 72 ∧ length wrapped mod 8 = 0)%nat then
      let n := ((length wrapped - 8) / 8)%nat in
      let st := foldl (unwrap_turn kek n) (slice 0 8 wrapped, slice 8 (length wrapped - 8) wrapped) (reverse (turns n)) in
      if bool_decide (st.1 = WRAP_IV) then Some st.2 else None
    else None.
Proof.
  intros Hk Hb Hbuf. unfold unwrap_key_data, MAX_KEY_DATA.
  destruct (Nat.ltb_spec (length wrapped) 24); [by rewrite bool_decide_false by lia|].
  destruct (Nat.eqb_spec (length wrapped mod 8) 0); cbn [orb negb]; [|by rewrite bool_decide_false by lia].
  destruct (Nat.ltb_spec 64 (length wrapped - 8)); cbn [orb]; [by rewrite bool_decide_false by lia|].
  rewrite (proj2 (Nat.ltb_ge (length buf) _)), bool_decide_true by lia. unfold key16. rewrite (proj1 Hk). cbn [Nat.eqb].
  pose proof (wrapped_words (length wrapped) ltac:(lia)) as Hn. set (n := ((length wrapped - 8) / 8)%nat) in *.
  clearbody n. assert (Hr : registers n (foldl (unwrap_turn kek n) (slice 0 8 wrapped, slice 8 (length wrapped - 8) wrapped) (reverse (turns n)))).
  { apply (foldl_inverse (registers n) (in_turns n) _ _ (unwrap_turn_inverse kek Hk n (proj2 Hn))); [|by apply Forall_reverse, turns_in].
    split; (split; [cbn; rewrite length_slice; lia|by apply Forall_slice]). }
  cbv zeta. destruct (foldl _ _ _) as [a r]. destruct Hr as [_ [Hr _]]. cbn [fst snd] in *.
  case_bool_decide; [|done]. cbn [written]. f_equal. apply splice_prefix; lia.
Qed.

Lemma unwrapped_is_wrapping kek plain wrapped buf out :
  block kek → Forall is_byte plain → Forall is_byte wrapped → (64 ≤ length buf)%nat → (72 ≤ length out)%nat →
  written (unwrap_key_data kek wrapped buf) = Some plain → written (wrap_test kek plain out) = Some wrapped.
Proof.
  intros Hk Hp Hw Hbuf Hout. rewrite unwrap_runs by done.
  case_bool_decide as Hl; [|done]. cbv zeta. set (n := ((length wrapped - 8) / 8)%nat).
  pose proof (wrapped_words _ Hl) as Hn. fold n in Hn. clearbody n.
  destruct (foldl_inverse (registers n) (in_turns n) _ _ (unwrap_turn_inverse kek Hk n (proj2 Hn)) (reverse (turns n))
    (slice 0 8 wrapped, slice 8 (length wrapped - 8) wrapped)) as [[_ Hr] Hi].
  { split; (split; [cbn; rewrite length_slice; lia|by apply Forall_slice]). }
  { by apply Forall_reverse, turns_in. }
  rewrite reverse_involutive in Hi. destruct (foldl _ _ _) as [a r]. cbn [fst snd] in *.
  case_bool_decide as Ha; [|done]. intros [= ->]. subst a. destruct Hr as [Hr _].
  assert (Hw' : wrappable plain) by (split; [lia|]; rewrite Hr, Nat.mul_comm; apply Nat.Div0.mod_mul).
  destruct (wrap_runs kek plain out Hk Hw' Hp ltac:(lia)) as [_ ->].
  assert (E : (length plain / 8)%nat = n) by (rewrite Hr, Nat.mul_comm; by apply Nat.div_mul).
  unfold wrapping. rewrite E, Hi. cbn [fst snd]. rewrite (slice_app_l 0 8). f_equal. apply slice_all. lia.
Qed.

Lemma wrapping_unwraps kek plain wrapped buf out :
  block kek → Forall is_byte plain → Forall is_byte wrapped → (64 ≤ length buf)%nat → (72 ≤ length out)%nat →
  written (wrap_test kek plain out) = Some wrapped → written (unwrap_key_data kek wrapped buf) = Some plain.
Proof.
  intros Hk Hp Hw Hbuf Hout. rewrite unwrap_runs by done.
  intros Hwr. assert (Hw' : wrappable plain).
  { unfold wrap_test in Hwr. destruct (Nat.ltb_spec (length plain) 16); [done|].
    destruct (Nat.eqb_spec (length plain mod 8) 0); [|done]. unfold MAX_KEY_DATA in Hwr.
    destruct (Nat.ltb_spec 64 (length plain)); [done|]. split; [lia|done]. }
  pose proof (words_of plain Hw') as [Hlen Hn].
  destruct (wrap_runs kek plain out Hk Hw' Hp) as [[[Ha _] [Hr _]] E]; [destruct Hw'; lia|].
  rewrite E in Hwr. injection Hwr as <-. rewrite length_app, Ha, Hr.
  rewrite bool_decide_true.
  2: { destruct Hw' as [? Hm]. split; [lia|]. replace (8 + 8 * (length plain / 8))%nat with ((1 + length plain / 8) * 8)%nat by lia.
       apply Nat.Div0.mod_mul. }
  replace (8 + 8 * (length plain / 8) - 8)%nat with (8 * (length plain / 8))%nat by lia.
  rewrite (Nat.mul_comm 8), Nat.div_mul by lia. rewrite Nat.mul_comm, <-Hlen. cbv zeta.
  assert (Hs : slice 0 8 ((wrapping kek plain).1 ++ (wrapping kek plain).2) = (wrapping kek plain).1 ∧
    slice 8 (length plain) ((wrapping kek plain).1 ++ (wrapping kek plain).2) = (wrapping kek plain).2).
  { unfold slice. rewrite drop_0, take_app_length' by done. rewrite drop_app_length' by done. by rewrite take_ge by lia. }
  destruct Hs as [-> ->]. rewrite <-surjective_pairing.
  destruct (foldl_inverse (registers (length plain / 8)) (in_turns _) _ _ (wrap_turn_inverse kek Hk _ Hn) (turns (length plain / 8))
    (WRAP_IV, plain)) as [_ Hi].
  { split; [apply iv_block|by split]. }
  { apply turns_in. }
  unfold wrapping. rewrite Hi. cbn [fst snd]. by rewrite bool_decide_true.
Qed.

(** The key wrap of group keys is exact: under every 16-byte key-encryption key, unwrapping
    a ciphertext succeeds with some key data if and only if the ciphertext is the wrapping
    of that key data. So honest wrappings of 16 to 64 bytes are always recovered, nothing
    else is accepted, and two key data never share a wrapping. *)
Theorem key_wrap_exact kek plain wrapped buf out :
  block kek → Forall is_byte plain → Forall is_byte wrapped → (64 ≤ length buf)%nat → (72 ≤ length out)%nat →
  written (unwrap_key_data kek wrapped buf) = Some plain ↔ written (wrap_test kek plain out) = Some wrapped.
Proof. intros. split; [by apply unwrapped_is_wrapping|by apply wrapping_unwraps]. Qed.

Lemma key_wrap_exact_witness :
  written (unwrap_key_data test_key test_wrapped (replicate 64 0)) = Some test_block.
Proof.
  apply (key_wrap_exact test_key test_block test_wrapped (replicate 64 0) (replicate 72 0)).
  - split; [reflexivity|]. apply (bool_decide_unpack _). vm_compute. exact I.
  - apply (bool_decide_unpack _). vm_compute. exact I.
  - apply (bool_decide_unpack _). vm_compute. exact I.
  - rewrite length_replicate. lia.
  - rewrite length_replicate. lia.
  - vm_compute. reflexivity.
Defined.

(** ** Group keys *)
Lemma parse_gtk index key :
  length key = GTK_LEN → parse_gtk_kde (gtk_kde index key) = Ok (mkGtk key (Z.land (Z.land index 3) 3)).
Proof.
  intros Hl. assert (Hk : length (gtk_kde index key) = 24%nat) by (unfold gtk_kde; rewrite !length_app, Hl; done).
  unfold parse_gtk_kde. generalize (length (gtk_kde index key)) at 1 as fuel. intros fuel. cbn [parse_loop]. rewrite Hk. change (24 <=? 0)%nat with false. cbv iota.
  change (byte_at (gtk_kde index key) 0) with 0xdd. change (gtk_kde index key !! (0 + 1)%nat) with (Some 22).
  cbn [Z.eqb ok_or rbind]. change (Z.to_nat 22) with 22%nat. rewrite get_Some by lia. cbn [ok_or rbind].
  assert (Hs : slice (0 + 2) 22 (gtk_kde index key) = RSN_OUI ++ [GTK_KDE_TYPE; Z.land index 3; 0] ++ key).
  { unfold slice, gtk_kde. cbn [drop app RSN_OUI]. apply take_ge. cbn [length]. rewrite Hl. done. }
  rewrite Hs. change (slice 0 3 (RSN_OUI ++ ?x)) with RSN_OUI. rewrite bool_decide_true by done.
  cbn [app RSN_OUI length drop]. rewrite drop_0, Hl. reflexivity.
Qed.

Lemma gtk_kde_bytes index key : length key = GTK_LEN → Forall is_byte key → Forall is_byte (gtk_kde index key).
Proof.
  intros Hl Hk. unfold gtk_kde. rewrite !Forall_app. split_and!; [by apply (bool_decide_unpack _)..| |done].
  rewrite !Forall_cons. split_and!; try done. unfold is_byte, u8_max. change 3 with (Z.ones 2). rewrite Z.land_ones by lia.
  pose proof (Z.mod_pos_bound index (2 ^ 2)). lia.
Qed.

(** What an access point wraps for a station, the station unwraps. *)
Lemma unwrap_gtk_of_wrapped kek index key wrapped out :
  block kek → length key = GTK_LEN → Forall is_byte key → Forall is_byte wrapped → (72 ≤ length out)%nat →
  written (wrap_gtk_for_test kek index key out) = Some wrapped →
  unwrap_gtk kek wrapped = Ok (mkGtk key (Z.land (Z.land index 3) 3)).
Proof.
  intros Hk Hl Hb Hw Hout Hwr.
  assert (Hu : written (unwrap_key_data kek wrapped (replicate MAX_KEY_DATA 0)) = Some (gtk_kde index key)).
  { apply (wrapping_unwraps kek _ wrapped _ out); try done. by apply gtk_kde_bytes. }
  unfold unwrap_gtk. destruct (unwrap_key_data _ _ _) as [[n|e] p]; [|done]. cbn [written rbind] in *.
  injection Hu as ->. by apply parse_gtk.
Qed.

(** ** The store *)
(** A key goes into the store only with a higher counter than every key before it, or
    into an empty store; a repetition leaves the store alone. *)
Lemma install_verified_spec replay g st r st' :
  install_verified replay g st = (r, st') →
  match r with
  | Ok Installed => gtk st' = Some g ∧ replay_counter st' = replay ∧ installed st' = true ∧
      (installed st = true → replay_counter st < replay)
  | Ok Retransmission => st' = st ∧ installed st = true ∧ replay = replay_counter st ∧ gtk st = Some g
  | Err _ => st' = st ∧ installed st = true ∧ replay ≤ replay_counter st
  end.
Proof.
  unfold install_verified. intros H. destruct (installed st) eqn:Ei; [|by simplify_eq].
  destruct (Z.ltb_spec replay (replay_counter st)); [simplify_eq; split_and!; done || lia|].
  destruct (Z.eqb_spec replay (replay_counter st)) as [->|]; [|simplify_eq; split_and!; done || (intros; lia)].
  destruct (gtk st) as [[k i]|] eqn:Eg; cbn in H; [|simplify_eq; split_and!; done || lia].
  destruct g as [k' i']. cbn in H. destruct (Z.eqb_spec i i'); cbn in H; [|simplify_eq; split_and!; done || lia].
  case_bool_decide; simplify_eq; split_and!; done || lia.
Qed.
End GtkProofs.
