(* ===== verification/Wifi80211.v ===== *)
(** * IEEE 802.11 frames (kernel/src/wifi80211.rs)

    Frame control, management and data headers, and the iterator over information
    elements with the summary that scanning makes of them. *)
From S2P Require Import Prelude Block DeviceIo Bytes.
Import Block Io Bytes.

Module Dot11.

Definition MAC_LEN : nat := 6.
Definition MGMT_HEADER_LEN : nat := 24.
Definition DATA_HEADER_LEN : nat := 24.
Definition MAX_INFORMATION_ELEMENTS : nat := 32.
Definition MAX_SSID_LEN : nat := 32.
Definition IE_SSID : Z := 0.
Definition IE_SUPPORTED_RATES : Z := 1.
Definition IE_DS_PARAMETER_SET : Z := 3.
Definition IE_EXTENDED_SUPPORTED_RATES : Z := 50.
Definition IE_RSN : Z := 48.

Inductive FrameType := Management | Control | Data | Extension.

#[export] Instance FrameType_eq_dec : EqDecision FrameType.
Proof. solve_decision. Defined.

Inductive ManagementSubtype :=
  | AssociationRequest
  | AssociationResponse
  | ReassociationRequest
  | ReassociationResponse
  | ProbeRequest
  | ProbeResponse
  | Beacon
  | Atim
  | Disassociation
  | Authentication
  | Deauthentication
  | Action
  | Unknown (other : Z).

#[export] Instance ManagementSubtype_eq_dec : EqDecision ManagementSubtype.
Proof. solve_decision. Defined.

(** ** The frame control word [raw] *)
Definition protocol_version (raw : Z) : Z := Z.land raw 3.
Definition frame_type (raw : Z) : FrameType :=
  match Z.land (Z.shiftr raw 2) 3 with
  | 0 => Management
  | 1 => Control
  | 2 => Data
  | _ => Extension
  end.
Definition subtype (raw : Z) : Z := Z.land (Z.shiftr raw 4) 0x0f.
Definition flag (raw bit : Z) : bool := negb (Z.land raw (Z.shiftl 1 bit) =? 0).
Definition to_ds (raw : Z) : bool := flag raw 8.
Definition is_from_ds (raw : Z) : bool := flag raw 9.
Definition more_fragments (raw : Z) : bool := flag raw 10.
Definition retry (raw : Z) : bool := flag raw 11.
Definition protected (raw : Z) : bool := flag raw 14.
Definition management_subtype (raw : Z) : option ManagementSubtype :=
  if bool_decide (frame_type raw = Management) then
    Some (match subtype raw with
          | 0 => AssociationRequest
          | 1 => AssociationResponse
          | 2 => ReassociationRequest
          | 3 => ReassociationResponse
          | 4 => ProbeRequest
          | 5 => ProbeResponse
          | 8 => Beacon
          | 9 => Atim
          | 10 => Disassociation
          | 11 => Authentication
          | 12 => Deauthentication
          | 13 => Action
          | other => Unknown other
          end)
  else None.

(** ** Headers *)
Record ManagementHeader := mkManagementHeader {
  control : Z;
  duration : Z;
  receiver : list Z;
  transmitter : list Z;
  bssid : list Z;
  sequence_control : Z
}.

Record DataHeader := mkDataHeader {
  d_control : Z;
  d_duration : Z;
  address1 : list Z;
  address2 : list Z;
  address3 : list Z;
  d_sequence_control : Z
}.

Inductive ParseError :=
  | Truncated
  | InvalidProtocolVersion
  | WrongFrameType
  | TooManyInformationElements
  | InvalidSsid.

#[export] Instance ParseError_eq_dec : EqDecision ParseError.
Proof. solve_decision. Defined.

Definition read_u16_le (bytes : list Z) (off : nat) : result Z ParseError :=
  let? chunk := ok_or (get off 2 bytes) Truncated in Ok (from_le_bytes chunk).
Definition read_mac (bytes : list Z) (off : nat) : result (list Z) ParseError :=
  ok_or (get off MAC_LEN bytes) Truncated.

Definition parse_management_header (bytes : list Z) : result ManagementHeader ParseError :=
  if (length bytes <? MGMT_HEADER_LEN)%nat then Err Truncated
  else
  let? control := read_u16_le bytes 0 in
  if negb (protocol_version control =? 0) then Err InvalidProtocolVersion
  else if negb (bool_decide (frame_type control = Management)) then Err WrongFrameType
  else
  let? duration := read_u16_le bytes 2 in
  let? receiver := read_mac bytes 4 in
  let? transmitter := read_mac bytes 10 in
  let? bssid := read_mac bytes 16 in
  let? sequence_control := read_u16_le bytes 22 in
  Ok (mkManagementHeader control duration receiver transmitter bssid sequence_control).

Definition parse_data_header (bytes : list Z) : result DataHeader ParseError :=
  if (length bytes <? DATA_HEADER_LEN)%nat then Err Truncated
  else
  let? control := read_u16_le bytes 0 in
  if negb (protocol_version control =? 0) then Err InvalidProtocolVersion
  else if negb (bool_decide (frame_type control = Data)) then Err WrongFrameType
  else
  let? duration := read_u16_le bytes 2 in
  let? address1 := read_mac bytes 4 in
  let? address2 := read_mac bytes 10 in
  let? address3 := read_mac bytes 16 in
  let? sequence_control := read_u16_le bytes 22 in
  Ok (mkDataHeader control duration address1 address2 address3 sequence_control).

(** ** Information elements *)
Record InformationElement := mkElement {
  ie_id : Z;
  ie_body : list Z
}.

Record InformationElements := mkElements {
  ie_bytes : list Z;
  ie_offset : nat;
  ie_count : nat;
  malformed : bool
}.

Definition elements_new (bytes : list Z) : InformationElements := mkElements bytes 0 0 false.
Definition spoiled (it : InformationElements) : InformationElements :=
  mkElements (ie_bytes it) (ie_offset it) (ie_count it) true.

Definition next (it : InformationElements) : option InformationElement * InformationElements :=
  if malformed it || (ie_offset it =? length (ie_bytes it))%nat then (None, it)
  else if (MAX_INFORMATION_ELEMENTS <=? ie_count it)%nat then (None, spoiled it)
  else
  match get (ie_offset it) 2 (ie_bytes it) with
  | None => (None, spoiled it)
  | Some header =>
      let len := Z.to_nat (byte_at header 1) in
      let body_start := (ie_offset it + 2)%nat in
      match get body_start len (ie_bytes it) with
      | None => (None, spoiled it)
      | Some body =>
          (Some (mkElement (byte_at header 0) body),
           mkElements (ie_bytes it) (body_start + len) (ie_count it + 1) false)
      end
  end.

Record ParsedElements := mkParsed {
  p_ssid : list Z;
  p_ssid_len : Z;
  p_channel : option Z;
  rsn_present : bool;
  supported_rate_elements : Z
}.

#[export] Instance ParsedElements_eq_dec : EqDecision ParsedElements.
Proof. solve_decision. Defined.

Definition parsed_empty : ParsedElements := mkParsed (replicate MAX_SSID_LEN 0) 0 None false 0.

(** The body of the loop for one element. *)
Definition apply_element (p : ParsedElements) (e : InformationElement) : result ParsedElements ParseError :=
  if ie_id e =? IE_SSID then
    if (MAX_SSID_LEN <? length (ie_body e))%nat then Err InvalidSsid
    else Ok (mkParsed (splice 0 (ie_body e) (replicate MAX_SSID_LEN 0)) (Z.of_nat (length (ie_body e)))
               (p_channel p) (rsn_present p) (supported_rate_elements p))
  else if (ie_id e =? IE_DS_PARAMETER_SET) && (length (ie_body e) =? 1)%nat then
    Ok (mkParsed (p_ssid p) (p_ssid_len p) (Some (byte_at (ie_body e) 0)) (rsn_present p) (supported_rate_elements p))
  else if ie_id e =? IE_RSN then
    Ok (mkParsed (p_ssid p) (p_ssid_len p) (p_channel p) true (supported_rate_elements p))
  else if (ie_id e =? IE_SUPPORTED_RATES) || (ie_id e =? IE_EXTENDED_SUPPORTED_RATES) then
    Ok (mkParsed (p_ssid p) (p_ssid_len p) (p_channel p) (rsn_present p)
          (Z.min (supported_rate_elements p + 1) u8_max))
  else Ok p.

(** The iterator stops after [MAX_INFORMATION_ELEMENTS] elements by itself. *)
Fixpoint elements_loop (fuel : nat) (it : InformationElements) (p : ParsedElements) : result ParsedElements ParseError :=
  match fuel with
  | O => Err TooManyInformationElements
  | S fuel =>
      match next it with
      | (Some e, it) => let? p := apply_element p e in elements_loop fuel it p
      | (None, it) => if malformed it then Err TooManyInformationElements else Ok p
      end
  end.

Definition parse_elements (bytes : list Z) : result ParsedElements ParseError :=
  elements_loop (S MAX_INFORMATION_ELEMENTS) (elements_new bytes) parsed_empty.

Definition build_management_header (output : list Z) (subtype : Z) (receiver transmitter bssid : list Z)
    (sequence_control : Z) : result (nat * list Z) ParseError :=
  if (length output <? MGMT_HEADER_LEN)%nat then Err Truncated
  else
  let frame_control := Z.shiftl (Z.land subtype 0x0f) 4 in
  let output := splice 0 (replicate MGMT_HEADER_LEN 0) output in
  let output := splice 0 (to_le_bytes 2 frame_control) output in
  let output := splice 4 receiver output in
  let output := splice 10 transmitter output in
  let output := splice 16 bssid output in
  let output := splice 22 (to_le_bytes 2 sequence_control) output in
  Ok (MGMT_HEADER_LEN, output).

Definition self_test : bool :=
  let receiver := replicate 6 0xff in
  let transmitter := [0x02; 0x57; 0x48; 0x13; 0x09; 0x02] in
  let bssid := [0x02; 0x57; 0x48; 0x13; 0x09; 0x01] in
  match build_management_header (replicate MGMT_HEADER_LEN 0) 8 receiver transmitter bssid 0x1230 with
  | Ok (n, header) =>
      bool_decide (n = MGMT_HEADER_LEN) &&
      match parse_management_header header with
      | Ok h =>
          bool_decide (management_subtype (control h) = Some Beacon) && bool_decide (Dot11.receiver h = receiver) &&
          bool_decide (Dot11.transmitter h = transmitter) && bool_decide (Dot11.bssid h = bssid) &&
          (Dot11.sequence_control h =? 0x1230)
      | Err _ => false
      end
  | Err _ => false
  end &&
  let ies := [IE_SSID; 8; 87; 111; 118; 101; 110; 76; 97; 98; IE_SUPPORTED_RATES; 2; 0x82; 0x84; IE_DS_PARAMETER_SET; 1; 6;
              IE_RSN; 2; 1; 0] in
  match parse_elements ies with
  | Ok p => (p_ssid_len p =? 8) && bool_decide (take 8 (p_ssid p) = bytes "WovenLab") &&
            bool_decide (p_channel p = Some 6) && rsn_present p && (supported_rate_elements p =? 1)
  | Err _ => false
  end &&
  match parse_data_header ([0x08; 0x01] ++ replicate 22 0) with
  | Ok h => bool_decide (frame_type (d_control h) = Data) && to_ds (d_control h)
  | Err _ => false
  end &&
  bool_decide (parse_elements [IE_SSID; 4; 97; 98] = Err TooManyInformationElements) &&
  match parse_management_header [1; 0] with Err Truncated => true | _ => false end.

End Dot11.

(** ** Elements are read as they were written *)
Module Dot11Proofs.
Import Dot11.

Example dot11_self_test_passes : self_test = true.
Proof. vm_compute. reflexivity. Qed.

(** The encoding of elements on the air. *)
Definition element_ok (e : InformationElement) : Prop :=
  is_byte (ie_id e) ∧ (length (ie_body e) ≤ 255)%nat ∧ Forall is_byte (ie_body e).
Definition serialize (es : list InformationElement) : list Z :=
  es ≫= (λ e, ie_id e :: Z.of_nat (length (ie_body e)) :: ie_body e).

(** The elements in order, each applied to the summary. *)
Fixpoint summarize (p : ParsedElements) (es : list InformationElement) : result ParsedElements ParseError :=
  match es with
  | [] => Ok p
  | e :: es => let? p := apply_element p e in summarize p es
  end.

(** One step of the iterator over an element. *)
Lemma next_element pre e post count :
  element_ok e → (count < MAX_INFORMATION_ELEMENTS)%nat →
  let bytes := pre ++ (ie_id e :: Z.of_nat (length (ie_body e)) :: ie_body e) ++ post in
  next (mkElements bytes (length pre) count false) =
    (Some e, mkElements bytes (length pre + 2 + length (ie_body e)) (count + 1) false).
Proof.
  intros (_ & Hl & _) Hc. cbv zeta. set (bytes := pre ++ _). unfold next. cbn [malformed ie_offset ie_bytes ie_count orb].
  assert (Hb : length bytes = (length pre + (2 + length (ie_body e) + length post))%nat).
  { subst bytes. rewrite !length_app. cbn [length]. lia. }
  rewrite (proj2 (Nat.eqb_neq _ _)), (proj2 (Nat.leb_gt _ _)) by lia. rewrite get_Some by lia.
  assert (Hh : slice (length pre) 2 bytes = [ie_id e; Z.of_nat (length (ie_body e))]).
  { subst bytes. unfold slice. by rewrite drop_app_length. }
  rewrite Hh. change (byte_at [_; ?x] 1) with x. change (byte_at [?x; _] 0) with x. rewrite Nat2Z.id.
  rewrite get_Some by lia. f_equal. f_equal. destruct e as [id body]. cbn [ie_id ie_body] in *. f_equal.
  subst bytes. unfold slice. rewrite <-drop_drop, drop_app_length. cbn [drop app]. rewrite drop_0. apply take_app_length.
Qed.

(** Conversely, what a step returns is what was there. *)
Lemma next_Some it e it' :
  next it = (Some e, it') → Forall is_byte (ie_bytes it) →
  element_ok e ∧ ie_bytes it' = ie_bytes it ∧ malformed it' = false ∧ ie_count it' = (ie_count it + 1)%nat ∧
  (ie_count it < MAX_INFORMATION_ELEMENTS)%nat ∧ (ie_offset it' ≤ length (ie_bytes it))%nat ∧
  take (ie_offset it') (ie_bytes it) =
    take (ie_offset it) (ie_bytes it) ++ ie_id e :: Z.of_nat (length (ie_body e)) :: ie_body e.
Proof.
  unfold next. intros H Hb. destruct (_ || _); [done|]. destruct (Nat.leb_spec MAX_INFORMATION_ELEMENTS (ie_count it)); [done|].
  destruct (get (ie_offset it) 2 _) as [header|] eqn:Eh; [|done]. apply get_inv in Eh as [-> Hh].
  destruct (get _ _ (ie_bytes it)) as [body|] eqn:Eb; [|done]. apply get_inv in Eb as [-> Hl]. simplify_eq. cbn in *.
  set (b := ie_bytes it) in *. set (o := ie_offset it) in *.
  assert (Hd : ∃ x y t, drop o b = x :: y :: t).
  { destruct (drop o b) as [|x [|y t]] eqn:E; [..|by eauto]; apply (f_equal length) in E; rewrite length_drop in E; cbn in E; lia. }
  destruct Hd as (x & y & t & Hd).
  assert (Hx : is_byte x ∧ is_byte y ∧ Forall is_byte t).
  { assert (HF : Forall is_byte (drop o b)) by by apply Forall_drop. rewrite Hd, !Forall_cons in HF. done. }
  unfold slice in *. rewrite Hd in *. cbn [take] in *. rewrite take_0 in *. change (byte_at [x; y] 1) with y in *. change (byte_at [x; y] 0) with x in *.
  assert (Hy : 0 ≤ y ≤ 255) by apply Hx.
  assert (Ht : drop (o + 2) b = t) by (rewrite <-drop_drop, Hd; done). rewrite Ht in *.
  assert (Hlen : length t = (length b - (o + 2))%nat) by (rewrite <-Ht, length_drop; done).
  assert (Hty : length (take (Z.to_nat y) t) = Z.to_nat y) by (rewrite length_take; lia).
  split_and!; try done; [..|].
  - split; [apply Hx|]. split; [cbn; rewrite Hty; lia|]. apply Forall_take, Hx.
  - rewrite Hty, Z2Nat.id by lia.
    rewrite <-(take_drop o b) at 1. rewrite Hd, take_app_ge by (rewrite length_take; lia).
    rewrite length_take, Nat.min_l by lia. f_equal.
    replace (o + 2 + Z.to_nat y - o)%nat with (S (S (Z.to_nat y))) by lia. done.
Qed.

Lemma loop_reads es p pre count fuel :
  Forall element_ok es → (count + length es ≤ MAX_INFORMATION_ELEMENTS)%nat → (length es < fuel)%nat →
  elements_loop fuel (mkElements (pre ++ serialize es) (length pre) count false) p = summarize p es.
Proof.
  revert p pre count fuel. induction es as [|e es IH]; intros p pre count [|fuel] HF Hc Hf; try (cbn in Hf; lia).
  - cbn [serialize mbind list_bind elements_loop]. unfold next. cbn [malformed ie_offset ie_bytes].
    rewrite app_nil_r, Nat.eqb_refl. done.
  - apply Forall_cons in HF as [He HF]. cbn [length] in *. cbn [serialize mbind list_bind elements_loop]. fold (serialize es).
    rewrite (next_element pre e (serialize es) count He ltac:(lia)).
    cbn [summarize]. destruct (apply_element p e) as [p'|]; [|done]. cbn [rbind].
    rewrite <-(IH p' (pre ++ ie_id e :: Z.of_nat (length (ie_body e)) :: ie_body e) (count + 1)%nat fuel HF); [|lia..].
    f_equal. f_equal; [by rewrite <-!app_assoc|]. rewrite length_app. cbn [length]. lia.
Qed.

Lemma loop_explains fuel it p r :
  elements_loop fuel it p = Ok r → malformed it = false → Forall is_byte (ie_bytes it) →
  ∃ es, Forall element_ok es ∧ (ie_count it + length es ≤ MAX_INFORMATION_ELEMENTS ∨ es = [])%nat ∧
    ie_bytes it = take (ie_offset it) (ie_bytes it) ++ serialize es ∧ summarize p es = Ok r.
Proof.
  revert it p. induction fuel as [|fuel IH]; intros it p H Hm Hb; [done|]. cbn [elements_loop] in H.
  destruct (next it) as [[e|] it'] eqn:En.
  - destruct (next_Some _ _ _ En Hb) as (He & Hbs & Hm' & Hc & Hlt & Ho & Ht).
    destruct (apply_element p e) as [p'|] eqn:Ep; [|done]. cbn [rbind] in H.
    destruct (IH it' p' H Hm') as (es & HF & Hes & Hsplit & Hs); [by rewrite Hbs|].
    exists (e :: es). split_and!.
    + by constructor.
    + left. cbn [length]. destruct Hes as [Hes | ->]; [lia|cbn; lia].
    + rewrite Hbs, Ht in Hsplit. rewrite Hsplit at 1. cbn [serialize mbind list_bind]. fold (serialize es).
      by rewrite <-app_assoc.
    + cbn [summarize]. by rewrite Ep.
  - exists []. assert (Hend : ie_offset it = length (ie_bytes it)).
    { unfold next in En. rewrite Hm in En. cbn [orb] in En.
      destruct (Nat.eqb_spec (ie_offset it) (length (ie_bytes it))); [done|].
      repeat case_match; simplify_eq; done. }
    destruct (malformed it'); [done|]. simplify_eq. split_and!; [done|by right| |done].
    cbn [serialize mbind list_bind]. by rewrite Hend, take_ge, app_nil_r.
Qed.

(** Information elements are read as the standard writes them: on any body of bytes the
    parser succeeds with a summary exactly when the body is the encoding of at most 32
    elements and the summary is the one they make in order; every other body (truncated,
    overlong, an SSID of more than 32 bytes) is an error. *)
Theorem elements_exact bytes p :
  Forall is_byte bytes →
  parse_elements bytes = Ok p ↔
  ∃ es, Forall element_ok es ∧ (length es ≤ MAX_INFORMATION_ELEMENTS)%nat ∧ bytes = serialize es ∧
    summarize parsed_empty es = Ok p.
Proof.
  intros Hb. unfold parse_elements, elements_new. split.
  - intros H. destruct (loop_explains _ _ _ _ H eq_refl Hb) as (es & HF & Hes & Hsplit & Hs).
    exists es. split_and!; try done. destruct Hes as [Hes | ->]; [done|cbn; lia].
  - intros (es & HF & Hl & -> & Hs). rewrite <-Hs. by apply (loop_reads es parsed_empty [] 0); [..|lia].
Qed.

Definition beacon_elements : list InformationElement :=
  [mkElement IE_SSID (Prelude.bytes "WovenLab"); mkElement IE_SUPPORTED_RATES [0x82; 0x84];
   mkElement IE_DS_PARAMETER_SET [6]; mkElement IE_RSN [1; 0]].

Lemma elements_exact_witness :
  parse_elements (serialize beacon_elements) =
    Ok (mkParsed (Prelude.bytes "WovenLab" ++ replicate 24 0) 8 (Some 6) true 1).
Proof.
  apply elements_exact.
  - apply (bool_decide_unpack _). vm_compute. exact I.
  - exists beacon_elements. split_and!; [|apply (bool_decide_unpack _); vm_compute; exact I|reflexivity|reflexivity].
    unfold beacon_elements. repeat (apply Forall_cons; split; [|]); [..|apply Forall_nil; exact I];
      (split_and!; [apply (bool_decide_unpack _); vm_compute; exact I|vm_compute; lia|apply (bool_decide_unpack _); vm_compute; exact I]).
Defined.

(** ** Headers *)
Lemma subtype_of (x : Z) : 0 ≤ x < 16 → frame_type (x * 16) = Management ∧ subtype (x * 16) = x ∧ protocol_version (x * 16) = 0.
Proof.
  intros Hx. assert (Hin : x ∈ seqZ 0 16) by (apply elem_of_seqZ; lia). clear Hx. revert x Hin. apply Forall_forall.
  by apply (bool_decide_unpack _).
Qed.

(** Looking past the last copy into a buffer named by a local definition. *)
Ltac skip_splice :=
  match goal with
  | |- slice _ _ ?o = _ => unfold o; rewrite slice_splice_ne by (rewrite ?length_to_le_bytes; lia)
  end.

(** A header that was built is parsed with the fields it was built from. *)
Lemma header_round_trip out sub rx tx bs seq :
  (24 ≤ length out)%nat → length rx = 6%nat → length tx = 6%nat → length bs = 6%nat → 0 ≤ seq ≤ u16_max →
  ∃ out', build_management_header out sub rx tx bs seq = Ok (24%nat, out') ∧
    length out' = length out ∧ drop 24 out' = drop 24 out ∧
    parse_management_header out' = Ok (mkManagementHeader (Z.land sub 0x0f * 16) 0 rx tx bs seq).
Proof.
  intros Hout Hrx Htx Hbs Hseq. unfold build_management_header, MGMT_HEADER_LEN. rewrite (proj2 (Nat.ltb_ge _ _)) by lia.
  eexists. split; [reflexivity|]. rewrite Z.shiftl_mul_pow2 by lia. change (2 ^ 4) with 16. set (fc := Z.land sub 15 * 16).
  assert (Hfc : 0 ≤ Z.land sub 15 < 16).
  { change 15 with (Z.ones 4). rewrite Z.land_ones by lia. apply Z.mod_pos_bound. lia. }
  set (o0 := splice 0 (replicate 24 0) out). set (o1 := splice 0 (to_le_bytes 2 fc) o0). set (o2 := splice 4 rx o1).
  set (o3 := splice 10 tx o2). set (o4 := splice 16 bs o3). set (o5 := splice 22 (to_le_bytes 2 seq) o4).
  assert (L0 : length o0 = length out) by (apply length_splice; rewrite length_replicate; lia).
  assert (L1 : length o1 = length out) by (unfold o1; rewrite length_splice; rewrite ?length_to_le_bytes; lia).
  assert (L2 : length o2 = length out) by (unfold o2; rewrite length_splice; lia).
  assert (L3 : length o3 = length out) by (unfold o3; rewrite length_splice; lia).
  assert (L4 : length o4 = length out) by (unfold o4; rewrite length_splice; lia).
  assert (L5 : length o5 = length out) by (unfold o5; rewrite length_splice; rewrite ?length_to_le_bytes; lia).
  assert (S1 : slice 0 2 o5 = to_le_bytes 2 fc).
  { do 4 skip_splice.
    apply slice_splice_eq; [apply length_to_le_bytes|lia]. }
  assert (S2 : slice 2 2 o5 = [0; 0]).
  { do 5 skip_splice.
    unfold o0, slice, splice. rewrite take_0, app_nil_l. reflexivity. }
  assert (S3 : slice 4 6 o5 = rx).
  { do 3 skip_splice. apply slice_splice_eq; lia. }
  assert (S4 : slice 10 6 o5 = tx).
  { do 2 skip_splice. apply slice_splice_eq; lia. }
  assert (S5 : slice 16 6 o5 = bs).
  { do 1 skip_splice. apply slice_splice_eq; lia. }
  assert (S6 : slice 22 2 o5 = to_le_bytes 2 seq) by (apply slice_splice_eq; [apply length_to_le_bytes|lia]).
  split_and!; [done| |].
  - assert (Hd : ∀ off src dst, (off + length src ≤ 24)%nat → (24 ≤ length dst)%nat → drop 24 (splice off src dst) = drop 24 dst).
    { intros off src dst H1 H2. unfold splice. rewrite drop_app_ge by (rewrite length_take; lia).
      rewrite length_take, Nat.min_l by lia. rewrite drop_app_ge by lia. rewrite drop_drop. f_equal. lia. }
    do 6 (match goal with
          | |- drop 24 ?o = _ => unfold o; rewrite Hd by (rewrite ?length_to_le_bytes, ?length_replicate; lia)
          end). done.
  - unfold parse_management_header, MGMT_HEADER_LEN, read_u16_le, read_mac, MAC_LEN.
    rewrite (proj2 (Nat.ltb_ge _ _)) by lia. rewrite !get_Some by lia. rewrite S1, S2, S3, S4, S5, S6. cbn [ok_or rbind].
    rewrite !from_to_le_bytes by (subst fc; lia). change (256 ^ Z.of_nat 2) with 65536.
    unfold u16_max in Hseq. rewrite !Z.mod_small by (subst fc; lia).
    destruct (subtype_of _ Hfc) as (E1 & E2 & E3). fold fc in E1, E2, E3. rewrite E3, bool_decide_true by done. reflexivity.
Qed.
End Dot11Proofs.
