(* ===== verification/Ccmp.v ===== *)
(** * Protected data frames (kernel/src/wifi_ccmp.rs)

    AES-CCM protection of ordinary data frames: packet numbers, the CCMP header, nonce and
    additional data, the CBC-MAC, counter mode, and the two operations on whole frames.
    The cipher itself is in Aes.v. A buffer that the code fills in place is an argument
    and a result, next to the state of the direction. *)
From S2P Require Import Prelude Block DeviceIo Bytes Aes Wifi80211.
Import Block Io Bytes.

Module Ccmp.
Import CcmpAes.
Import Dot11.

Definition MIC_LEN : nat := 8.
Definition CCMP_HEADER_LEN : nat := 8.
Definition MAX_PAYLOAD : nat := 1536.
Definition PN_MAX : Z := 2 ^ 48 - 1.

Inductive CcmpError :=
  | InvalidKey
  | InvalidFrame
  | UnsupportedHeader
  | BufferTooSmall
  | PayloadTooLarge
  | PacketNumberExhausted
  | Replay
  | Authentication.

#[export] Instance CcmpError_eq_dec : EqDecision CcmpError.
Proof. solve_decision. Defined.

(** [TemporalKey::new]. *)
Definition temporal_key (bytes : list Z) : result (list Z) CcmpError :=
  if negb (length bytes =? 16)%nat then Err InvalidKey else Ok bytes.

Record TxState := mkTx { tx_pn : Z }.
Record RxState := mkRx { last_pn : Z }.

Definition tx_new : TxState := mkTx 0.
Definition rx_new : RxState := mkRx 0.
Definition packet_number (tx : TxState) : Z := tx_pn tx.
Definition last_packet_number (rx : RxState) : Z := last_pn rx.

Definition tx_next (tx : TxState) : TxState * result Z CcmpError :=
  if PN_MAX <=? tx_pn tx then (tx, Err PacketNumberExhausted)
  else (mkTx (tx_pn tx + 1), Ok (tx_pn tx + 1)).

(** ** Packet numbers, nonce and additional data *)
Definition as_u8 (x : Z) : Z := Z.land x 0xff.
Definition as_u16 (x : Z) : Z := Z.land x 0xffff.

Definition pn_bytes (pn : Z) : list Z :=
  [as_u8 (Z.shiftr pn 40); as_u8 (Z.shiftr pn 32); as_u8 (Z.shiftr pn 24);
   as_u8 (Z.shiftr pn 16); as_u8 (Z.shiftr pn 8); as_u8 pn].

Definition write_ccmp_header (pn key_id : Z) : list Z :=
  let p := pn_bytes pn in
  [byte_at p 5; byte_at p 4; 0; Z.lor 0x20 (Z.shiftl (Z.land key_id 3) 6);
   byte_at p 3; byte_at p 2; byte_at p 1; byte_at p 0].

Definition read_pn (h : list Z) : result Z CcmpError :=
  if (length h <? 8)%nat || negb (byte_at h 2 =? 0) || (Z.land (byte_at h 3) 0x20 =? 0) then Err InvalidFrame
  else Ok (Z.lor (Z.lor (Z.lor (Z.lor (Z.lor (Z.shiftl (byte_at h 7) 40) (Z.shiftl (byte_at h 6) 32))
             (Z.shiftl (byte_at h 5) 24)) (Z.shiftl (byte_at h 4) 16)) (Z.shiftl (byte_at h 1) 8)) (byte_at h 0)).

Definition nonce (header : list Z) (pn : Z) : list Z :=
  splice 7 (pn_bytes pn) (splice 1 (slice 10 6 header) (replicate 13 0)).

Definition aad (header : list Z) : list Z :=
  let a := replicate 22 0 in
  let a := <[0%nat := Z.land (byte_at header 0) 0x8f]> a in
  let a := <[1%nat := Z.land (byte_at header 1) 0xc7]> a in
  let a := splice 2 (slice 4 18 header) a in
  let a := <[20%nat := Z.land (byte_at header 22) 0x0f]> a in
  <[21%nat := 0]> a.

(** ** CBC-MAC and counter mode *)
Definition mac_block (key x block : list Z) : list Z := aes key (xor_bytes x block).

Definition cbc_mac (key n a msg : list Z) : list Z :=
  let b := <[0%nat := 0x59]> (replicate 16 0) in
  let b := splice 14 (to_be_bytes 2 (as_u16 (Z.of_nat (length msg)))) (splice 1 n b) in
  let x := mac_block key (replicate 16 0) b in
  let b := splice 2 (take 14 a) (splice 0 (to_be_bytes 2 (as_u16 (Z.of_nat (length a)))) (replicate 16 0)) in
  let x := mac_block key x b in
  let b := splice 0 (slice 14 8 a) (replicate 16 0) in
  let x := mac_block key x b in
  let x := foldl (λ x chunk, mac_block key x (splice 0 chunk (replicate 16 0))) x (chunks msg) in
  take 8 x.

Definition ctr (key n : list Z) (counter : Z) : list Z :=
  aes key (splice 14 (to_be_bytes 2 counter) (splice 1 n (<[0%nat := 1]> (replicate 16 0)))).

(** The loops over [chunks(16).enumerate()]: the [i]-th chunk goes to [off + 16 * i] of the
    output, combined with the [i + 1]-st counter block. *)
Definition crypt (key n : list Z) (off : nat) (src out : list Z) : list Z :=
  foldl (λ out '(i, chunk), splice (off + i * 16) (xor_bytes chunk (ctr key n (as_u16 (Z.of_nat (i + 1))))) out)
    out (imap pair (chunks src)).

(** The headers both directions take: three addresses, no quality-of-service field. *)
Definition plain_header (header : list Z) : result DataHeader CcmpError :=
  match parse_data_header header with
  | Err _ => Err UnsupportedHeader
  | Ok parsed =>
      if (to_ds (d_control parsed) && is_from_ds (d_control parsed)) || (8 <=? subtype (d_control parsed))
      then Err UnsupportedHeader else Ok parsed
  end.

(** ** Frames *)
Definition protect (key : list Z) (tx : TxState) (header payload : list Z) (key_id : Z) (out : list Z)
    : TxState * list Z * result nat CcmpError :=
  if negb (length header =? DATA_HEADER_LEN)%nat then (tx, out, Err UnsupportedHeader)
  else
  match plain_header header with
  | Err e => (tx, out, Err e)
  | Ok _ =>
      if (MAX_PAYLOAD <? length payload)%nat then (tx, out, Err PayloadTooLarge)
      else
      let total := (DATA_HEADER_LEN + CCMP_HEADER_LEN + length payload + MIC_LEN)%nat in
      if (length out <? total)%nat then (tx, out, Err BufferTooSmall)
      else
      match tx_next tx with
      | (tx, Err e) => (tx, out, Err e)
      | (tx, Ok pn) =>
          let out := splice 0 header out in
          let out := <[1%nat := Z.lor (byte_at out 1) 0x40]> out in
          let out := splice DATA_HEADER_LEN (write_ccmp_header pn key_id) out in
          let n := nonce (take DATA_HEADER_LEN out) pn in
          let a := aad (take DATA_HEADER_LEN out) in
          let tag := cbc_mac key n a payload in
          let out := crypt key n (DATA_HEADER_LEN + 8) payload out in
          let s0 := ctr key n 0 in
          let out := splice (total - 8) (xor_bytes tag (take 8 s0)) out in
          (tx, out, Ok total)
      end
  end.

(** [diff |= a[i] ^ b[i]] over the eight bytes of the tag. *)
Definition tag_diff (a b : list Z) : Z := foldl Z.lor 0 (xor_bytes a b).

Definition unprotect (key : list Z) (rx : RxState) (frame out : list Z) : RxState * list Z * result nat CcmpError :=
  if (length frame <? DATA_HEADER_LEN + CCMP_HEADER_LEN + MIC_LEN)%nat then (rx, out, Err InvalidFrame)
  else
  let h := take DATA_HEADER_LEN frame in
  match plain_header h with
  | Err e => (rx, out, Err e)
  | Ok parsed =>
      if negb (protected (d_control parsed)) then (rx, out, Err InvalidFrame)
      else
      match read_pn (slice DATA_HEADER_LEN 8 frame) with
      | Err e => (rx, out, Err e)
      | Ok pn =>
          if pn <=? last_pn rx then (rx, out, Err Replay)
          else
          let clen := (length frame - DATA_HEADER_LEN - 8 - 8)%nat in
          if (MAX_PAYLOAD <? clen)%nat || (length out <? clen)%nat then (rx, out, Err BufferTooSmall)
          else
          let n := nonce h pn in
          let out := crypt key n 0 (slice (DATA_HEADER_LEN + 8) clen frame) out in
          let a := aad h in
          let tag := cbc_mac key n a (take clen out) in
          let s0 := ctr key n 0 in
          if negb (tag_diff (xor_bytes tag (take 8 s0)) (slice (length frame - 8) 8 frame) =? 0) then
            (rx, splice 0 (replicate clen 0) out, Err Authentication)
          else (mkRx pn, out, Ok clen)
      end
  end.

Definition self_test : bool :=
  match temporal_key (replicate 16 0x11), temporal_key (replicate 16 0x22) with
  | Ok key, Ok wrong =>
      let h := splice 16 [12; 13; 14; 15; 16; 17] (splice 10 [6; 7; 8; 9; 10; 11]
                 (splice 4 [0; 1; 2; 3; 4; 5] (<[0%nat := 0x08]> (replicate 24 0)))) in
      let msg := bytes "WovenHat CCMP protected payload" in
      match protect key tx_new h msg 0 (replicate 1600 0) with
      | (tx, enc, Ok n) =>
          (packet_number tx =? 1) && negb (Z.land (byte_at enc 1) 0x40 =? 0) &&
          match unprotect key rx_new (take n enc) (replicate 1536 0) with
          | (rx, plain, Ok p) =>
              bool_decide (take p plain = msg) && (last_packet_number rx =? 1) &&
              let '(rx, plain, r) := unprotect key rx (take n enc) plain in
              bool_decide (r = Err Replay) &&
              let bad := <[(n - 1)%nat := Z.lxor (byte_at enc (n - 1)) 1]> enc in
              let '(fresh, plain, r) := unprotect key rx_new (take n bad) plain in
              bool_decide (r = Err Authentication) && (last_packet_number fresh =? 0) &&
              let '(fresh, plain, r) := unprotect wrong fresh (take n enc) plain in
              bool_decide (r = Err Authentication)
          | _ => false
          end
      | _ => false
      end
  | _, _ => false
  end.

End Ccmp.

(** * Protected frames are exactly the sealed ones

    A specification of a sealed frame as a list, the proof that [protect] writes it and
    that [unprotect] accepts it and nothing else, and what follows for replays. *)
Import Block Io Bytes Aes CcmpAes AesProofs.

Module CcmpProofs.
Import Dot11 Ccmp.

Lemma ccmp_self_test_passes : self_test = true.
Proof. vm_compute. reflexivity. Qed.

(** ** Packet numbers *)
Lemma as_u8_mod x : as_u8 x = x mod 256.
Proof. unfold as_u8. change 255 with (Z.ones 8). by rewrite Z.land_ones by lia. Qed.

Lemma as_u8_byte x : is_byte (as_u8 x).
Proof. rewrite as_u8_mod. pose proof (Z.mod_pos_bound x 256). unfold is_byte, u8_max. lia. Qed.

Lemma as_u16_nonneg x : 0 ≤ as_u16 x.
Proof. unfold as_u16. change 65535 with (Z.ones 16). rewrite Z.land_ones by lia. apply Z.mod_pos_bound. lia. Qed.

Lemma pn_bytes_block pn : block_of 6 (pn_bytes pn).
Proof. split; [done|]. repeat (constructor; [apply as_u8_byte|]). constructor. Qed.

Lemma header_byte3 key_id : is_byte (Z.lor 0x20 (Z.shiftl (Z.land key_id 3) 6)) ∧
  Z.land (Z.lor 0x20 (Z.shiftl (Z.land key_id 3) 6)) 0x20 ≠ 0.
Proof.
  assert (H : 0 ≤ Z.land key_id 3 < 4) by (change 3 with (Z.ones 2); rewrite Z.land_ones by lia; apply Z.mod_pos_bound; lia).
  assert (Hin : Z.land key_id 3 ∈ seqZ 0 4) by (apply elem_of_seqZ; lia). revert Hin.
  generalize (Z.land key_id 3). clear H. apply Forall_forall. apply (bool_decide_unpack _). vm_compute. exact I.
Qed.

Lemma ccmp_header_block pn key_id : block_of 8 (write_ccmp_header pn key_id).
Proof.
  split; [done|]. unfold write_ccmp_header.
  repeat (constructor; [first [apply as_u8_byte | apply header_byte3 | done]|]). constructor.
Qed.

Lemma read_pn_value h :
  block_of 8 h →
  read_pn h = if negb (byte_at h 2 =? 0) || (Z.land (byte_at h 3) 0x20 =? 0) then Err InvalidFrame
              else Ok (from_le_bytes [byte_at h 0; byte_at h 1; byte_at h 4; byte_at h 5; byte_at h 6; byte_at h 7]).
Proof.
  intros [Hl Hb]. unfold read_pn. rewrite Hl. cbn [Nat.ltb Nat.leb orb]. destruct (_ || _); [done|]. f_equal.
  pose proof (λ i, byte_at_bound h i Hb) as HB.
  rewrite (lor_step _ _ 32), (lor_step _ _ 24), (lor_step _ _ 16), (lor_step _ _ 8) by (done || apply HB).
  rewrite <-(Z.shiftl_0_r (byte_at h 0)) at 1. rewrite (lor_step _ _ 0) by (done || apply HB). rewrite Z.shiftl_0_r.
  cbn [from_le_bytes]. lia.
Qed.

Lemma read_written_pn pn key_id : 0 ≤ pn ≤ PN_MAX → read_pn (write_ccmp_header pn key_id) = Ok pn.
Proof.
  intros Hpn. rewrite read_pn_value by apply ccmp_header_block.
  change (byte_at (write_ccmp_header pn key_id) 2) with 0.
  change (byte_at (write_ccmp_header pn key_id) 3) with (Z.lor 0x20 (Z.shiftl (Z.land key_id 3) 6)).
  rewrite (proj2 (Z.eqb_neq _ 0) (proj2 (header_byte3 key_id))). cbn [Z.eqb negb orb]. f_equal.
  transitivity (from_le_bytes (to_le_bytes 6 pn)).
  - f_equal. unfold write_ccmp_header. change (byte_at (pn_bytes pn)) with (λ i, byte_at (pn_bytes pn) i). cbn.
    rewrite !as_u8_mod, !Z.shiftr_div_pow2 by lia. rewrite !Z.div_div by lia. reflexivity.
  - unfold PN_MAX in Hpn. rewrite from_to_le_bytes by lia. apply Z.mod_small. change (256 ^ Z.of_nat 6) with (2 ^ 48). lia.
Qed.

(** ** Blocks of the mode of operation *)
Lemma block_splice n off src dst :
  (off + length src ≤ n)%nat → Forall is_byte src → block_of n dst → block_of n (splice off src dst).
Proof. intros Hl Hs [<- Hd]. split; [by apply length_splice|by apply Forall_splice]. Qed.

Lemma block_zero n : block_of n (replicate n 0).
Proof. split; [apply length_replicate|]. by apply Forall_replicate. Qed.

Lemma block_insert n i x dst : is_byte x → block_of n dst → block_of n (<[i := x]> dst).
Proof. intros Hx [<- Hd]. split; [apply length_insert|by apply Forall_insert]. Qed.

Lemma block_slice n off len s : block_of n s → (off + len ≤ n)%nat → block_of len (slice off len s).
Proof. intros [<- Hs] Hl. split; [by apply length_slice|by apply Forall_slice]. Qed.

Lemma block_xor n a b : block_of n a → block_of n b → block_of n (xor_bytes a b).
Proof. intros [La Ha] [Lb Hb]. split; [rewrite length_xor_bytes; lia|by apply xor_bytes_byte]. Qed.

Lemma be16_block x : 0 ≤ x → block_of 2 (to_be_bytes 2 x).
Proof. intros Hx. split; [apply length_to_be_bytes|by apply to_be_bytes_byte]. Qed.

Lemma land_byte x m : is_byte m → is_byte (Z.land x m).
Proof.
  intros Hm. replace m with (as_u8 m) by (rewrite as_u8_mod; apply Z.mod_small; unfold is_byte, u8_max in Hm; lia).
  unfold as_u8. rewrite Z.land_assoc. apply as_u8_byte.
Qed.

#[local] Hint Resolve block_splice block_zero block_insert block_xor be16_block as_u16_nonneg pn_bytes_block : core.

Section Key.
Context (key : list Z) (Hkey : block key).

Lemma aes_block b : block b → block (aes key b).
Proof using Hkey. intros Hb. rewrite ccmp_aes_same. by apply decrypt_encrypt. Qed.

Lemma mac_block_block x b : block x → block b → block (mac_block key x b).
Proof using Hkey. intros Hx Hb. by apply aes_block, block_xor. Qed.

Lemma ctr_block n counter : block_of 13 n → 0 ≤ counter → block (ctr key n counter).
Proof using Hkey.
  intros [Hn Hb] Hc. apply aes_block. destruct (be16_block _ Hc) as [L2 B2].
  apply block_splice; [lia|done|]. apply block_splice; [lia|done|]. by apply block_insert.
Qed.

Lemma cbc_mac_block n a msg :
  block_of 13 n → block_of 22 a → Forall is_byte msg → block_of 8 (cbc_mac key n a msg).
Proof using Hkey.
  intros [Hn Hnb] Ha Hm. unfold cbc_mac. cbv zeta. destruct (be16_block _ (as_u16_nonneg (Z.of_nat (length msg)))) as [L2 B2].
  destruct (be16_block _ (as_u16_nonneg (Z.of_nat (length a)))) as [L3 B3].
  change (take 14 a) with (slice 0 14 a). destruct (block_slice 22 0 14 a Ha) as [L4 B4]; [lia|].
  destruct (block_slice 22 14 8 a Ha) as [L5 B5]; [lia|]. set (x := mac_block key (mac_block _ _ _) _).
  assert (Hx : block x).
  { subst x. apply mac_block_block; [|apply block_splice; [lia|done|apply block_zero]].
    apply mac_block_block; [|apply block_splice; [lia|done|]; apply block_splice; [lia|done|apply block_zero]].
    apply mac_block_block; [apply block_zero|]. apply block_splice; [lia|done|]. apply block_splice; [lia|done|]. by apply block_insert. }
  clearbody x. destruct (chunks_loop_spec (length msg) msg) as [Hc HF]; [done|]. fold (chunks msg) in *.
  assert (HB : Forall (Forall is_byte) (chunks msg)) by (apply Forall_concat; by rewrite Hc).
  clear Hc. revert x Hx HB. induction HF as [|c cs Hlc _ IH]; intros x Hx HB; cbn [foldl].
  - split; [rewrite length_take; destruct Hx; lia|]. by apply Forall_take, Hx.
  - apply Forall_cons in HB as [Hcb HB]. apply IH; [|done]. apply mac_block_block; [done|].
    apply block_splice; [lia|done|apply block_zero].
Qed.

(** The whole key stream, combined with a text. *)
Definition stream (n src : list Z) : list Z :=
  concat (imap (λ i c, xor_bytes c (ctr key n (as_u16 (Z.of_nat (i + 1))))) (chunks src)).

Lemma crypt_loop_spec (f : nat → list Z → list Z) fuel s k off out :
  (∀ i c, (length c ≤ 16)%nat → length (f i c) = length c) → (length s ≤ fuel)%nat → (off + k * 16 + length s ≤ length out)%nat →
  foldl (λ out '(i, chunk), splice (off + i * 16) (f i chunk) out) out (imap (λ i c, (k + i, c)%nat) (chunks_loop fuel s)) =
  splice (off + k * 16) (concat (imap (λ i, f (k + i)%nat) (chunks_loop fuel s))) out.
Proof using.
  intros Hf. revert s k out. induction fuel as [|fuel IH]; intros s k out Hs Ho.
  { destruct s; [|simpl in Hs; lia]. cbn. by rewrite splice_nil. }
  destruct s as [|x s]; [cbn; by rewrite splice_nil|].
  set (c := take 16 (x :: s)). set (t := drop 16 (x :: s)). cbn [length] in Hs, Ho.
  assert (Hc : (1 ≤ length c ≤ 16)%nat) by (subst c; rewrite length_take; cbn [length]; lia).
  assert (Ht : length t = (S (length s) - 16)%nat) by (subst t; by rewrite length_drop).
  assert (Hc' : length c = Nat.min 16 (S (length s))) by (subst c; by rewrite length_take).
  cbn [chunks_loop]. fold c t. cbn [imap foldl concat]. rewrite !Nat.add_0_r.
  rewrite (imap_ext _ (λ i c, (S k + i, c)%nat)) by (intros; simpl; f_equal; lia).
  rewrite (imap_ext ((λ i, f (k + i)%nat) ∘ S) (λ i, f (S k + i)%nat)) by (intros; simpl; f_equal; lia).
  assert (Hlen : length (f k c) = length c) by (apply Hf; lia).
  clearbody c t. destruct (decide (t = [])) as [-> |Hne].
  { assert (E : chunks_loop fuel [] = []) by by destruct fuel. rewrite E. cbn [imap concat foldl]. by rewrite app_nil_r. }
  assert (0 < length t)%nat by (destruct t; [done|cbn; lia]).
  destruct (decide (length c = 16)%nat) as [H16|H16]; [|lia].
  rewrite IH; [|lia|rewrite length_splice by lia; lia].
  destruct (chunks_loop_imap f fuel t (S k) Hf) as [_ HL]; [lia|].
  set (rest := concat (imap (λ i, f (S k + i)%nat) (chunks_loop fuel t))) in *.
  replace (off + S k * 16)%nat with (off + k * 16 + length (f k c))%nat by lia. apply splice_app. lia.
Qed.

Lemma length_stream n src : block_of 13 n → length (stream n src) = length src.
Proof using Hkey.
  intros Hn. unfold stream, chunks.
  apply (chunks_loop_imap (λ i c, xor_bytes c (ctr key n (as_u16 (Z.of_nat (i + 1))))) (length src) src 0); [|done].
  intros i c Hc. apply length_xor_bytes. destruct (ctr_block n (as_u16 (Z.of_nat (i + 1))) Hn) as [-> _]; [apply as_u16_nonneg|lia].
Qed.

Lemma stream_byte n src : block_of 13 n → Forall is_byte src → Forall is_byte (stream n src).
Proof using Hkey.
  intros Hn Hs. unfold stream. apply Forall_concat.
  destruct (chunks_loop_spec (length src) src) as [Hc _]; [done|]. fold (chunks src) in *.
  assert (HB : Forall (Forall is_byte) (chunks src)) by (apply Forall_concat; by rewrite Hc).
  clear Hc. apply Forall_lookup. intros i c Hi. rewrite list_lookup_imap in Hi.
  destruct (chunks src !! i) as [c'|] eqn:E; [|done]. simplify_eq/=. apply xor_bytes_byte; [by eapply Forall_lookup_1|].
  apply ctr_block; [done|apply as_u16_nonneg].
Qed.

(** The stream is its own inverse. *)
Lemma stream_stream n src : block_of 13 n → stream n (stream n src) = src.
Proof using Hkey.
  intros Hn. pose proof (length_stream n src Hn) as HL. unfold stream, chunks in *. rewrite HL.
  set (f := λ (i : nat) c, xor_bytes c (ctr key n (as_u16 (Z.of_nat (i + 1))))) in *.
  assert (Hf : ∀ i c, (length c ≤ 16)%nat → length (f i c) = length c ∧ f i (f i c) = c).
  { intros i c Hc. destruct (ctr_block n (as_u16 (Z.of_nat (i + 1))) Hn) as [Hk _]; [apply as_u16_nonneg|].
    split; [apply length_xor_bytes|apply xor_bytes_cancel]; lia. }
  destruct (chunks_loop_imap f (length src) src 0) as [Hch _]; [intros; by apply Hf|done|].
  change (λ i, f (0 + i)%nat) with f in Hch. rewrite Hch.
  destruct (chunks_loop_spec (length src) src) as [Hc HF]; [done|]. transitivity (concat (chunks_loop (length src) src)); [f_equal|done].
  apply list_eq. intros i. rewrite !list_lookup_imap. destruct (chunks_loop _ _ !! i) as [c|] eqn:E; [|done].
  cbn. f_equal. apply Hf. by apply (Forall_lookup_1 _ _ _ _ HF E).
Qed.

Lemma crypt_spec n off src out :
  block_of 13 n → (off + length src ≤ length out)%nat → crypt key n off src out = splice off (stream n src) out.
Proof using Hkey.
  intros Hn Hl. unfold crypt, chunks.
  set (f := λ (i : nat) c, xor_bytes c (ctr key n (as_u16 (Z.of_nat (i + 1))))).
  pose proof (crypt_loop_spec f (length src) src 0 off out) as H. rewrite Nat.mul_0_l, Nat.add_0_r in H. apply H; [|done..].
  intros i c Hc. destruct (ctr_block n (as_u16 (Z.of_nat (i + 1))) Hn) as [Hk _]; [apply as_u16_nonneg|].
  apply length_xor_bytes. lia.
Qed.
End Key.

Lemma nonce_block h pn : block_of 24 h → block_of 13 (nonce h pn).
Proof.
  intros Hh. unfold nonce. destruct (pn_bytes_block pn) as [L1 B1]. destruct (block_slice 24 10 6 h Hh) as [L2 B2]; [lia|].
  apply block_splice; [lia|done|]. apply block_splice; [lia|done|apply block_zero].
Qed.

Lemma aad_block h : block_of 24 h → block_of 22 (aad h).
Proof.
  intros Hh. unfold aad. cbv zeta. destruct (block_slice 24 4 18 h Hh) as [L2 B2]; [lia|].
  repeat (apply block_insert; [by (done || apply land_byte)|]). apply block_splice; [lia|done|].
  repeat (apply block_insert; [by (done || apply land_byte)|]). apply block_zero.
Qed.

(** The comparison of tags in constant time is equality. *)
Lemma tag_diff_zero a b : length a = length b → tag_diff a b = 0 ↔ a = b.
Proof.
  intros Hl. unfold tag_diff. enough (H : ∀ acc, foldl Z.lor acc (xor_bytes a b) = 0 ↔ acc = 0 ∧ a = b) by (rewrite H; tauto).
  revert b Hl. induction a as [|x a IH]; intros [|y b] Hl acc; try done; [cbn; tauto|].
  cbn in Hl. cbn [xor_bytes zip_with foldl]. fold (xor_bytes a b). rewrite IH by lia. rewrite Z.lor_eq_0_iff, Z.lxor_eq_0_iff.
  split; [intros [[-> ->] ->]; done|intros [-> ?]; simplify_eq; done].
Qed.

(** ** Headers *)
Definition control_word (h : list Z) : Z := from_le_bytes (slice 0 2 h).
Definition control_ok (c : Z) : bool :=
  (protocol_version c =? 0) && bool_decide (frame_type c = Data) && negb (to_ds c && is_from_ds c) && (subtype c <? 8).

Lemma plain_header_spec h :
  (24 ≤ length h)%nat →
  plain_header h =
    if control_ok (control_word h) then
      Ok (mkDataHeader (control_word h) (from_le_bytes (slice 2 2 h)) (slice 4 6 h) (slice 10 6 h) (slice 16 6 h)
            (from_le_bytes (slice 22 2 h)))
    else Err UnsupportedHeader.
Proof.
  intros Hl. unfold plain_header, parse_data_header, DATA_HEADER_LEN, read_u16_le, read_mac, MAC_LEN.
  rewrite (proj2 (Nat.ltb_ge _ _)) by lia. rewrite !get_Some by lia. cbn [ok_or rbind]. fold (control_word h).
  unfold control_ok. destruct (protocol_version _ =? 0); [|done]. destruct (bool_decide _); [|done]. cbn [negb andb rbind d_control].
  destruct (to_ds _ && is_from_ds _); [done|]. cbn [orb negb andb]. rewrite Z.ltb_antisym. by destruct (8 <=? _).
Qed.

(** Setting the Protected flag leaves the rest of the control word alone. *)
Definition with_protected (h : list Z) : list Z := <[1%nat := Z.lor (byte_at h 1) 0x40]> h.

Lemma control_word_protected h : block_of 24 h → control_word (with_protected h) = Z.lor (control_word h) 0x4000.
Proof.
  intros [Hl Hb]. destruct h as [|a [|b h]]; try done. apply Forall_cons in Hb as [Ha Hb]. apply Forall_cons in Hb as [Hb _].
  unfold control_word, with_protected. change (slice 0 2 (<[1%nat := ?x]> (a :: b :: h))) with [a; x].
  change (slice 0 2 (a :: b :: h)) with [a; b]. change (byte_at (a :: b :: h) 1) with b.
  assert (Hw : ∀ y, from_le_bytes [a; y] = Z.lor (Z.shiftl y 8) a).
  { intros y. rewrite <-(Z.shiftl_0_r a) at 2. change 8 with (0 + 8). rewrite lor_step; [rewrite Z.shiftl_0_r; cbn [from_le_bytes]; lia|done|].
    unfold is_byte, u8_max in Ha. lia. }
  rewrite !Hw, Z.shiftl_lor. change (Z.shiftl 64 8) with 0x4000. rewrite <-!Z.lor_assoc. f_equal. apply Z.lor_comm.
Qed.

Lemma control_ok_protected c : control_ok (Z.lor c 0x4000) = control_ok c ∧ protected (Z.lor c 0x4000) = true.
Proof.
  unfold control_ok, protocol_version, frame_type, to_ds, is_from_ds, subtype, protected, flag. rewrite !Z.shiftr_lor, !Z.land_lor_distr_l.
  change (Z.land (Z.shiftr 16384 2) 3) with 0. change (Z.land (Z.shiftr 16384 4) 15) with 0.
  change (Z.land 16384 3) with 0. change (Z.land 16384 (Z.shiftl 1 8)) with 0. change (Z.land 16384 (Z.shiftl 1 9)) with 0.
  rewrite !Z.lor_0_r. split; [done|]. destruct (Z.eqb_spec (Z.lor (Z.land c (Z.shiftl 1 14)) (Z.land 16384 (Z.shiftl 1 14))) 0) as [H|]; [|done].
  apply Z.lor_eq_0_iff in H as [_ H]. done.
Qed.

(** ** Sealed frames *)
Definition mic (key h : list Z) (pn : Z) (payload : list Z) : list Z :=
  xor_bytes (cbc_mac key (nonce h pn) (aad h) payload) (take 8 (ctr key (nonce h pn) 0)).
Definition seal (key h cc : list Z) (pn : Z) (payload : list Z) : list Z :=
  h ++ cc ++ stream key (nonce h pn) payload ++ mic key h pn payload.

Definition sealable (h : list Z) : Prop :=
  block_of 24 h ∧ control_ok (control_word h) = true ∧ protected (control_word h) = true.

Lemma mic_block key h pn payload : block key → block_of 24 h → Forall is_byte payload → block_of 8 (mic key h pn payload).
Proof.
  intros Hk Hh Hp. pose proof (nonce_block h pn Hh) as Hn. apply block_xor.
  - apply cbc_mac_block; try done. by apply aad_block.
  - change (take 8 ?x) with (slice 0 8 x). apply (block_slice 16); [|lia]. by apply ctr_block.
Qed.

Lemma length_seal key h cc pn payload :
  block key → block_of 24 h → length cc = 8%nat → Forall is_byte payload →
  length (seal key h cc pn payload) = (40 + length payload)%nat.
Proof.
  intros Hk Hh Hc Hp. unfold seal. rewrite !length_app, length_stream by (by try apply nonce_block).
  destruct (mic_block key h pn payload) as [-> _]; [done..|]. destruct Hh as [-> _]. lia.
Qed.

(** What [protect] writes at the front of the buffer, for every header it takes. *)
Lemma protect_seals key tx header payload key_id out :
  block key → block_of 24 header → control_ok (control_word header) = true → Forall is_byte payload →
  (length payload ≤ MAX_PAYLOAD)%nat → (40 + length payload ≤ length out)%nat → tx_pn tx < PN_MAX →
  protect key tx header payload key_id out =
    (mkTx (tx_pn tx + 1),
     splice 0 (seal key (with_protected header) (write_ccmp_header (tx_pn tx + 1) key_id) (tx_pn tx + 1) payload) out,
     Ok (40 + length payload)%nat).
Proof.
  intros Hk Hh Hc Hp Hmax Hout Hpn. unfold protect, tx_next. pose proof Hh as [Hl Hb].
  rewrite Hl. change (24 =? DATA_HEADER_LEN)%nat with true. cbn [negb]. rewrite plain_header_spec by lia. rewrite Hc.
  rewrite (proj2 (Nat.ltb_ge _ _)) by lia. unfold DATA_HEADER_LEN, CCMP_HEADER_LEN, MIC_LEN. cbv zeta.
  rewrite (proj2 (Nat.ltb_ge (length out) _)) by lia. rewrite (proj2 (Z.leb_gt _ _)) by lia.
  set (pn := tx_pn tx + 1). set (cc := write_ccmp_header pn key_id).
  assert (Hcc : length cc = 8%nat) by apply ccmp_header_block.
  assert (H1 : <[1%nat := Z.lor (byte_at (splice 0 header out) 1) 64]> (splice 0 header out) = splice 0 (with_protected header) out).
  { rewrite byte_at_splice by lia. rewrite decide_True by lia. unfold splice, with_protected. rewrite take_0, !app_nil_l.
    rewrite insert_app_l by lia. by rewrite length_insert. }
  rewrite H1. clear H1. set (h := with_protected header).
  assert (Hh' : block_of 24 h).
  { apply block_insert; [|done]. pose proof (byte_at_bound header 1 Hb) as B. apply lor_byte; [unfold is_byte, u8_max; lia|done]. }
  pose proof Hh' as [Hl' Hb']. pose proof (nonce_block h pn Hh') as Hn.
  pose proof (length_stream key Hk (nonce h pn) payload Hn) as Hst. pose proof (mic_block key h pn payload Hk Hh' Hp) as [Hm _].
  assert (H2 : splice 24 cc (splice 0 h out) = splice 0 (h ++ cc) out).
  { rewrite <-(splice_app 0 h cc) by lia. by rewrite Hl'. }
  rewrite H2. assert (H3 : take 24 (splice 0 (h ++ cc) out) = h).
  { unfold splice. rewrite take_0, app_nil_l, <-!app_assoc. by apply take_app_length'. }
  rewrite H3, crypt_spec; [|done|done|rewrite length_splice; rewrite ?length_app; lia].
  fold (mic key h pn payload).
  replace (splice (24 + 8) (stream key (nonce h pn) payload) (splice 0 (h ++ cc) out))
    with (splice 0 (h ++ cc ++ stream key (nonce h pn) payload) out).
  2:{ rewrite (app_assoc h). rewrite <-(splice_app 0 (h ++ cc)) by (rewrite length_app; lia). by rewrite length_app, Hl', Hcc. }
  f_equal; [|f_equal; lia]. f_equal. unfold seal.
  replace (h ++ cc ++ stream key (nonce h pn) payload ++ mic key h pn payload)
    with ((h ++ cc ++ stream key (nonce h pn) payload) ++ mic key h pn payload) by by rewrite <-!app_assoc.
  rewrite <-(splice_app 0 (h ++ cc ++ stream key (nonce h pn) payload)) by (rewrite !length_app; lia). f_equal. rewrite !length_app. lia.
Qed.

(** [unprotect] on a frame cut into its four fields. *)
Lemma unprotect_cut key rx h cc ct tg out :
  block key → block_of 24 h → block_of 8 cc → Forall is_byte ct → block_of 8 tg →
  unprotect key rx (h ++ cc ++ ct ++ tg) out =
    if negb (control_ok (control_word h)) then (rx, out, Err UnsupportedHeader)
    else if negb (protected (control_word h)) then (rx, out, Err InvalidFrame)
    else
    match read_pn cc with
    | Err e => (rx, out, Err e)
    | Ok pn =>
        if pn <=? last_pn rx then (rx, out, Err Replay)
        else if (MAX_PAYLOAD <? length ct)%nat || (length out <? length ct)%nat then (rx, out, Err BufferTooSmall)
        else
        let payload := stream key (nonce h pn) ct in
        if bool_decide (mic key h pn payload = tg) then (mkRx pn, splice 0 payload out, Ok (length ct))
        else (rx, splice 0 (replicate (length ct) 0) out, Err Authentication)
    end.
Proof.
  intros Hk Hh [Lc Bc] Hct [Lt Bt]. pose proof Hh as [Lh Bh]. unfold unprotect, DATA_HEADER_LEN, CCMP_HEADER_LEN, MIC_LEN.
  assert (HL : length (h ++ cc ++ ct ++ tg) = (40 + length ct)%nat) by (rewrite !length_app; lia). rewrite HL.
  rewrite (proj2 (Nat.ltb_ge _ _)) by lia. rewrite take_app_length' by done. cbv zeta.
  rewrite plain_header_spec by lia. destruct (control_ok _); [|done]. cbn [negb d_control]. destruct (protected _); [|done]. cbn [negb].
  assert (Sc : slice 24 8 (h ++ cc ++ ct ++ tg) = cc) by (unfold slice; rewrite drop_app_length' by done; by apply take_app_length').
  assert (Sd : slice (24 + 8) (length ct) (h ++ cc ++ ct ++ tg) = ct).
  { unfold slice. rewrite app_assoc, drop_app_length' by (rewrite length_app; lia). by apply take_app_length'. }
  assert (St : slice (40 + length ct - 8) 8 (h ++ cc ++ ct ++ tg) = tg).
  { unfold slice. rewrite !app_assoc, drop_app_length' by (rewrite !length_app; lia). by apply take_ge; lia. }
  rewrite Sc. destruct (read_pn cc) as [pn|e]; [|done]. destruct (pn <=? last_pn rx); [done|].
  replace (40 + length ct - 24 - 8 - 8)%nat with (length ct) by lia.
  destruct (_ || _) eqn:Eb; [done|]. apply orb_false_iff in Eb as [Emax Eout]. apply Nat.ltb_ge in Emax, Eout.
  pose proof (nonce_block h pn Hh) as Hn. pose proof (length_stream key Hk _ ct Hn) as Hst.
  rewrite Sd, St, crypt_spec by (done || lia). rewrite splice_prefix by lia. fold (mic key h pn (stream key (nonce h pn) ct)).
  destruct (mic_block key h pn (stream key (nonce h pn) ct)) as [Lm Bm]; [done..|by apply stream_byte|].
  destruct (Z.eqb_spec (tag_diff (mic key h pn (stream key (nonce h pn) ct)) tg) 0) as [E|E]; rewrite tag_diff_zero in E by lia.
  - by rewrite bool_decide_true by done.
  - rewrite bool_decide_false by done. cbn [negb]. f_equal. f_equal. unfold splice. rewrite !take_0, !app_nil_l.
    rewrite length_replicate, Hst. rewrite drop_app_length' by done. done.
Qed.

Lemma frame_cut frame :
  Forall is_byte frame → (40 ≤ length frame)%nat →
  ∃ h cc ct tg, frame = h ++ cc ++ ct ++ tg ∧ block_of 24 h ∧ block_of 8 cc ∧ Forall is_byte ct ∧ block_of 8 tg.
Proof.
  intros Hb Hl. exists (take 24 frame), (slice 24 8 frame), (slice 32 (length frame - 40) frame), (drop (length frame - 8) frame).
  split_and!.
  - unfold slice. rewrite <-(take_drop 24 frame) at 1. f_equal. rewrite <-(take_drop 8 (drop 24 frame)) at 1. f_equal.
    rewrite drop_drop. change (24 + 8)%nat with 32%nat. rewrite <-(take_drop (length frame - 40) (drop 32 frame)) at 1. f_equal.
    rewrite drop_drop. f_equal. lia.
  - change (take 24 frame) with (slice 0 24 frame). split; [apply length_slice; lia|by apply Forall_slice].
  - split; [apply length_slice; lia|by apply Forall_slice].
  - by apply Forall_slice.
  - split; [rewrite length_drop; lia|by apply Forall_drop].
Qed.

Lemma unprotect_seal key rx h cc pn payload out :
  block key → sealable h → block_of 8 cc → read_pn cc = Ok pn → last_pn rx < pn → Forall is_byte payload →
  (length payload ≤ MAX_PAYLOAD)%nat → (length payload ≤ length out)%nat →
  unprotect key rx (seal key h cc pn payload) out = (mkRx pn, splice 0 payload out, Ok (length payload)).
Proof.
  intros Hk (Hh & Ho & Hp) Hc Hr Hpn Hpb Hmax Hout.
  pose proof (nonce_block h pn Hh) as Hn. pose proof (length_stream key Hk _ payload Hn) as Hst.
  unfold seal. rewrite unprotect_cut; [|done..|by apply stream_byte|by apply mic_block].
  rewrite Ho, Hp, Hr. cbn [negb]. rewrite (proj2 (Z.leb_gt _ _)) by lia. rewrite Hst, !(proj2 (Nat.ltb_ge _ _)) by lia.
  cbn [orb]. cbv zeta. by rewrite stream_stream, bool_decide_true by done.
Qed.

Lemma unprotect_opens key rx frame out rx' out' len :
  block key → Forall is_byte frame → unprotect key rx frame out = (rx', out', Ok len) →
  ∃ h cc pn payload,
    sealable h ∧ block_of 8 cc ∧ read_pn cc = Ok pn ∧ last_pn rx < pn ∧ Forall is_byte payload ∧
    (length payload ≤ MAX_PAYLOAD)%nat ∧ (length payload ≤ length out)%nat ∧
    frame = seal key h cc pn payload ∧ rx' = mkRx pn ∧ out' = splice 0 payload out ∧ len = length payload.
Proof.
  intros Hk Hf H. assert (Hl : (40 ≤ length frame)%nat).
  { unfold unprotect in H. destruct (Nat.ltb_spec (length frame) (DATA_HEADER_LEN + CCMP_HEADER_LEN + MIC_LEN)) as [|Hge]; [done|exact Hge]. }
  destruct (frame_cut frame Hf Hl) as (h & cc & ct & tg & -> & Hh & Hc & Hct & Ht).
  rewrite unprotect_cut in H by done. destruct (control_ok _) eqn:Eo; [|done]. destruct (protected _) eqn:Ep; [|done]. cbn [negb] in H.
  destruct (read_pn cc) as [pn|] eqn:Er; [|done]. destruct (Z.leb_spec pn (last_pn rx)); [done|].
  destruct (_ || _) eqn:Eb; [done|]. apply orb_false_iff in Eb as [Emax Eout]. apply Nat.ltb_ge in Emax, Eout. cbv zeta in H.
  case_bool_decide as Em; [|done]. simplify_eq. pose proof (nonce_block h pn Hh) as Hn.
  pose proof (length_stream key Hk _ ct Hn) as Hst. exists h, cc, pn, (stream key (nonce h pn) ct).
  split_and!; try done; try lia; [by apply stream_byte|]. unfold seal. by rewrite stream_stream.
Qed.

(** C27. The receiver of protected frames accepts exactly the frames that were sealed with its key: it
    returns a payload from a frame if and only if the frame is, byte for byte, that
    payload sealed under this key with a packet number above the last one accepted (and
    payload and buffer sizes allow it); it then writes the payload to the front of the
    buffer and remembers the packet number. *)
Theorem ccmp_exact key rx frame out rx' out' len :
  block key → Forall is_byte frame →
  unprotect key rx frame out = (rx', out', Ok len) ↔
  ∃ h cc pn payload,
    sealable h ∧ length cc = 8%nat ∧ read_pn cc = Ok pn ∧ last_pn rx < pn ∧ Forall is_byte payload ∧
    (length payload ≤ MAX_PAYLOAD)%nat ∧ (length payload ≤ length out)%nat ∧
    frame = seal key h cc pn payload ∧ rx' = mkRx pn ∧ out' = splice 0 payload out ∧ len = length payload.
Proof.
  intros Hk Hf. split.
  - intros H. destruct (unprotect_opens _ _ _ _ _ _ _ Hk Hf H) as (h & cc & pn & payload & Hh & [Lc _] & ?). by exists h, cc, pn, payload.
  - intros (h & cc & pn & payload & Hh & Lc & Hr & Hpn & Hpb & Hmax & Hout & -> & -> & -> & ->).
    apply unprotect_seal; try done. split; [done|]. unfold seal in Hf. rewrite !Forall_app in Hf. apply Hf.
Qed.

(** ** A frame through both ends *)
Definition sample_key : list Z := replicate 16 0x11.
Definition sample_header : list Z := 0x08 :: 0x02 :: 0 :: 0 :: seqZ 1 20.
Definition sample_payload : list Z := seqZ 0 20.
Definition sample_frame : list Z := take 60 (protect sample_key tx_new sample_header sample_payload 0 (replicate 64 0)).1.2.

Lemma ccmp_exact_witness :
  ∃ h cc pn payload,
    sealable h ∧ length cc = 8%nat ∧ read_pn cc = Ok pn ∧ last_pn rx_new < pn ∧ Forall is_byte payload ∧
    (length payload ≤ MAX_PAYLOAD)%nat ∧ (length payload ≤ length (replicate 32 7))%nat ∧
    sample_frame = seal sample_key h cc pn payload ∧ mkRx 1 = mkRx pn ∧
    sample_payload ++ replicate 12 7 = splice 0 payload (replicate 32 7) ∧ 20%nat = length payload.
Proof.
  apply (ccmp_exact sample_key rx_new sample_frame (replicate 32 7) (mkRx 1) (sample_payload ++ replicate 12 7) 20).
  - split; [reflexivity|]. apply (bool_decide_unpack _). vm_compute. exact I.
  - apply (bool_decide_unpack _). vm_compute. exact I.
  - vm_compute. reflexivity.
Defined.

(** A refused frame changes nothing that later frames depend on. *)
Lemma unprotect_err key rx frame out rx' out' e : unprotect key rx frame out = (rx', out', Err e) → rx' = rx.
Proof. unfold unprotect. intros H. repeat case_match; simplify_eq; done. Qed.

Lemma unprotect_ok key rx frame out rx' out' len :
  unprotect key rx frame out = (rx', out', Ok len) → last_pn rx < last_pn rx'.
Proof. unfold unprotect. intros H. repeat case_match; simplify_eq; cbn [last_pn]; by apply Z.leb_gt. Qed.

Lemma sealable_protected h : block_of 24 h → control_ok (control_word h) = true → sealable (with_protected h).
Proof.
  intros Hh Hc. split.
  - apply block_insert; [|done]. apply lor_byte; [|done]. pose proof (byte_at_bound h 1 (proj2 Hh)). unfold is_byte, u8_max. lia.
  - rewrite control_word_protected by done. by destruct (control_ok_protected (control_word h)) as [-> ->].
Qed.

(** What one end seals, the other end opens, when the packet number is new to it. *)
Lemma protect_unprotect key tx header payload key_id out rx plain :
  block key → block_of 24 header → control_ok (control_word header) = true → Forall is_byte payload →
  (length payload ≤ MAX_PAYLOAD)%nat → (40 + length payload ≤ length out)%nat → 0 ≤ tx_pn tx < PN_MAX →
  last_pn rx ≤ tx_pn tx → (length payload ≤ length plain)%nat →
  ∃ tx' out' total,
    protect key tx header payload key_id out = (tx', out', Ok total) ∧ tx' = mkTx (tx_pn tx + 1) ∧
    total = (40 + length payload)%nat ∧
    take total out' = seal key (with_protected header) (write_ccmp_header (tx_pn tx + 1) key_id) (tx_pn tx + 1) payload ∧
    length out' = length out ∧
    unprotect key rx (take total out') plain = (mkRx (tx_pn tx + 1), splice 0 payload plain, Ok (length payload)).
Proof.
  intros Hk Hh Hc Hp Hmax Hout Hpn Hrx Hpl. rewrite protect_seals by (done || lia). do 3 eexists. split; [reflexivity|].
  set (pn := tx_pn tx + 1). set (h := with_protected header). set (cc := write_ccmp_header pn key_id).
  pose proof (sealable_protected header Hh Hc) as Hs. fold h in Hs. assert (Hh' : block_of 24 h) by apply Hs.
  assert (Hlen : length (seal key h cc pn payload) = (40 + length payload)%nat) by (apply length_seal; try done; apply ccmp_header_block).
  assert (Htake : take (40 + length payload) (splice 0 (seal key h cc pn payload) out) = seal key h cc pn payload)
    by (apply splice_prefix; lia).
  split_and!; [done..|by apply length_splice; lia|]. rewrite Htake. apply unprotect_seal; try done; [apply ccmp_header_block|by apply read_written_pn; lia|lia].
Qed.
End CcmpProofs.
