(* ===== verification/WifiNet.v ===== *)
(** * Ethernet over protected Wi-Fi (kernel/src/wifi_net.rs)

    The bridge between the network stack, which speaks Ethernet, and protected 802.11
    data frames: RFC 1042 encapsulation on the way out, authentication, replay and peer
    checks and decapsulation on the way in. *)
From S2P Require Import Prelude Block DeviceIo Bytes Aes Wifi80211 Ccmp.
Import Block Io Bytes.

Module WifiNet.
Import Dot11 Ccmp.

Definition ETH_HEADER_LEN : nat := 14.
Definition LLC_SNAP_LEN : nat := 8.
Definition MAX_ETH_FRAME : nat := 1514.
Definition MAX_WIFI_FRAME : nat := DATA_HEADER_LEN + 8 + (MAX_ETH_FRAME - ETH_HEADER_LEN + LLC_SNAP_LEN) + 8.
Definition RFC1042_PREFIX : list Z := [0xaa; 0xaa; 0x03; 0x00; 0x00; 0x00].

Inductive BridgeError :=
  | EthernetFrame
  | WrongPeer
  | Direction
  | LlcSnap
  | BridgeBufferTooSmall
  | CcmpFailure (e : CcmpError).

#[export] Instance BridgeError_eq_dec : EqDecision BridgeError.
Proof. solve_decision. Defined.

(** [impl From<CcmpError> for BridgeError]. *)
Definition from_ccmp {A} (r : result A CcmpError) : result A BridgeError :=
  match r with Ok a => Ok a | Err e => Err (CcmpFailure e) end.

Record WifiNetBridge := mkBridge {
  station : list Z;
  bssid : list Z;
  pairwise : list Z;
  tx : TxState;
  rx : RxState;
  group : option (Z * list Z * RxState)
}.

Definition set_tx (b : WifiNetBridge) (t : TxState) : WifiNetBridge :=
  mkBridge (station b) (bssid b) (pairwise b) t (rx b) (group b).
Definition set_rx (b : WifiNetBridge) (r : RxState) : WifiNetBridge :=
  mkBridge (station b) (bssid b) (pairwise b) (tx b) r (group b).
Definition set_group (b : WifiNetBridge) (g : option (Z * list Z * RxState)) : WifiNetBridge :=
  mkBridge (station b) (bssid b) (pairwise b) (tx b) (rx b) g.

Definition bridge_new (station bssid tk : list Z) : result WifiNetBridge BridgeError :=
  let? key := from_ccmp (temporal_key tk) in Ok (mkBridge station bssid key tx_new rx_new None).

Definition tx_packet_number (b : WifiNetBridge) : Z := packet_number (tx b).
Definition rx_packet_number (b : WifiNetBridge) : Z := last_packet_number (rx b).

Definition install_group_key (b : WifiNetBridge) (index : Z) (gtk : list Z) : WifiNetBridge * result () BridgeError :=
  match from_ccmp (temporal_key gtk) with
  | Err e => (b, Err e)
  | Ok next => (set_group b (Some (Z.land index 3, next, rx_new)), Ok tt)
  end.

Definition group_rx_packet_number (b : WifiNetBridge) : Z :=
  match group b with None => 0 | Some (_, _, r) => last_packet_number r end.

(** The LLC/SNAP payload of an Ethernet frame, in the fixed buffer of 1508 bytes. *)
Definition llc_payload (ethernet : list Z) : list Z :=
  let payload := replicate (MAX_ETH_FRAME - ETH_HEADER_LEN + LLC_SNAP_LEN) 0 in
  let payload := splice 0 RFC1042_PREFIX payload in
  let payload := splice 6 (slice 12 2 ethernet) payload in
  splice 8 (drop 14 ethernet) payload.

(** A data header with the given second control byte and three addresses. *)
Definition data_header (flags : Z) (a1 a2 a3 : list Z) : list Z :=
  let header := replicate DATA_HEADER_LEN 0 in
  let header := <[0%nat := 0x08]> header in
  let header := <[1%nat := flags]> header in
  let header := splice 4 a1 header in
  let header := splice 10 a2 header in
  splice 16 a3 header.

Definition encapsulate (b : WifiNetBridge) (ethernet out : list Z) : WifiNetBridge * list Z * result nat BridgeError :=
  if (length ethernet <? ETH_HEADER_LEN)%nat || (MAX_ETH_FRAME <? length ethernet)%nat then (b, out, Err EthernetFrame)
  else
  let payload_len := (LLC_SNAP_LEN + length ethernet - ETH_HEADER_LEN)%nat in
  let payload := llc_payload ethernet in
  let header := data_header 0x01 (bssid b) (station b) (take 6 ethernet) in
  let '(tx', out, result) := protect (pairwise b) (tx b) header (take payload_len payload) 0 out in
  (set_tx b tx', out, from_ccmp result).

Definition decapsulate (b : WifiNetBridge) (frame out : list Z) : WifiNetBridge * list Z * result nat BridgeError :=
  if (length frame <? DATA_HEADER_LEN)%nat then (b, out, Err EthernetFrame)
  else
  let h := take DATA_HEADER_LEN frame in
  if negb (Z.land (byte_at h 1) 0x03 =? 0x02) then (b, out, Err Direction)
  else
  let group_address := negb (Z.land (byte_at h 4) 1 =? 0) in
  if (negb group_address && negb (bool_decide (slice 4 6 h = station b))) || negb (bool_decide (slice 10 6 h = bssid b))
  then (b, out, Err WrongPeer)
  else
  let plain := replicate (MAX_ETH_FRAME - ETH_HEADER_LEN + LLC_SNAP_LEN) 0 in
  match drop DATA_HEADER_LEN frame !! 3%nat with
  | None => (b, out, Err EthernetFrame)
  | Some x =>
      let key_id := Z.land (Z.shiftr x 6) 3 in
      let '(b, plain, result) :=
        if group_address then
          match group b with
          | None => (b, plain, Err InvalidKey)
          | Some (installed_id, key, grx) =>
              if negb (key_id =? installed_id) then (b, plain, Err InvalidKey)
              else
              let '(grx, plain, r) := unprotect key grx frame plain in
              (set_group b (Some (installed_id, key, grx)), plain, r)
          end
        else if negb (key_id =? 0) then (b, plain, Err InvalidKey)
        else
        let '(rx', plain, r) := unprotect (pairwise b) (rx b) frame plain in
        (set_rx b rx', plain, r) in
      match result with
      | Err e => (b, out, Err (CcmpFailure e))
      | Ok len =>
          if (len <? LLC_SNAP_LEN)%nat || negb (bool_decide (take 6 plain = RFC1042_PREFIX)) then (b, out, Err LlcSnap)
          else
          let total := (ETH_HEADER_LEN + len - LLC_SNAP_LEN)%nat in
          if (MAX_ETH_FRAME <? total)%nat || (length out <? total)%nat then (b, out, Err BridgeBufferTooSmall)
          else
          let out := splice 0 (slice 4 6 h) out in
          let out := splice 6 (slice 16 6 h) out in
          let out := splice 12 (slice 6 2 plain) out in
          let out := splice 14 (slice 8 (len - 8) plain) out in
          (b, out, Ok total)
      end
  end.

(** The access point's side, as the tests use it. *)
Definition make_downlink (key : list Z) (ap_tx : TxState) (station bssid source ethernet out : list Z)
    : TxState * list Z * result nat CcmpError :=
  let h := data_header 0x02 station bssid source in
  let n := (8 + length ethernet - 14)%nat in
  protect key ap_tx h (take n (llc_payload ethernet)) 0 out.

(** ** Self tests *)
Definition sta : list Z := [0x02; 0; 0; 0; 0; 1].
Definition ap : list Z := [0x02; 0; 0; 0; 0; 2].
Definition peer : list Z := [0x02; 0; 0; 0; 0; 3].
Definition multicast : list Z := [0x01; 0; 0x5e; 0; 0; 1].

Definition group_ccmp_self_test : bool :=
  let gtk := replicate 16 0x5a in
  match bridge_new sta ap (replicate 16 0x44) with
  | Err _ => false
  | Ok bridge =>
      let '(bridge, r) := install_group_key bridge 1 gtk in
      bool_decide (r = Ok tt) &&
      let h := data_header 0x02 multicast ap peer in
      let eth := splice 12 [0x08; 0x00] (splice 6 peer (splice 0 multicast (replicate 64 0))) in
      let p := llc_payload eth in
      match protect gtk tx_new h (take 58 p) 1 (replicate MAX_WIFI_FRAME 0) with
      | (ap_tx, frame, Ok n) =>
          match decapsulate bridge (take n frame) (replicate MAX_ETH_FRAME 0) with
          | (bridge, out, Ok rn) =>
              bool_decide (take rn out = eth) && (group_rx_packet_number bridge =? 1) && (rx_packet_number bridge =? 0) &&
              let '(bridge, out, r) := decapsulate bridge (take n frame) out in
              bool_decide (r = Err (CcmpFailure Replay)) &&
              let wrong := <[(DATA_HEADER_LEN + 3)%nat :=
                             Z.lor (Z.land (byte_at frame (DATA_HEADER_LEN + 3)) 0x3f) (Z.shiftl 2 6)]> frame in
              let '(bridge, out, r) := decapsulate bridge (take n wrong) out in
              bool_decide (r = Err (CcmpFailure InvalidKey)) &&
              match protect gtk ap_tx h (take 58 p) 1 frame with
              | (ap_tx, frame, Ok n2) =>
                  let bad := <[(n2 - 1)%nat := Z.lxor (byte_at frame (n2 - 1)) 1]> frame in
                  let '(bridge, out, r) := decapsulate bridge (take n2 bad) out in
                  bool_decide (r = Err (CcmpFailure Authentication)) && (group_rx_packet_number bridge =? 1) &&
                  let '(bridge, out, r) := decapsulate bridge (take n2 frame) out in
                  match r with Ok _ => true | Err _ => false end && (group_rx_packet_number bridge =? 2)
              | _ => false
              end
          | _ => false
          end
      | _ => false
      end
  end.

Definition self_test : bool :=
  let tk := replicate 16 0x44 in
  let eth := splice 14 (seqZ 0 50) (splice 12 [0x08; 0x00] (splice 6 sta (splice 0 peer (replicate 64 0)))) in
  match bridge_new sta ap tk with
  | Err _ => false
  | Ok bridge =>
      match encapsulate bridge eth (replicate MAX_WIFI_FRAME 0) with
      | (bridge, wifi, Ok _) =>
          (tx_packet_number bridge =? 1) && (Z.land (byte_at wifi 1) 0x43 =? 0x41) && bool_decide (slice 4 6 wifi = ap) &&
          bool_decide (slice 10 6 wifi = sta) && bool_decide (slice 16 6 wifi = peer) &&
          let inbound := splice 6 peer (splice 0 sta eth) in
          match make_downlink tk tx_new sta ap peer inbound (replicate MAX_WIFI_FRAME 0) with
          | (ap_tx, down, Ok dn) =>
              match decapsulate bridge (take dn down) (replicate MAX_ETH_FRAME 0) with
              | (bridge, recovered, Ok rn) =>
                  bool_decide (take rn recovered = inbound) && (rx_packet_number bridge =? 1) &&
                  let '(bridge, recovered, r) := decapsulate bridge (take dn down) recovered in
                  bool_decide (r = Err (CcmpFailure Replay)) &&
                  let forged := <[10%nat := Z.lxor (byte_at down 10) 1]> down in
                  let '(bridge, recovered, r) := decapsulate bridge (take dn forged) recovered in
                  bool_decide (r = Err WrongPeer) &&
                  match make_downlink tk ap_tx sta ap peer inbound down with
                  | (ap_tx, down, Ok dn2) =>
                      let down := <[(dn2 - 1)%nat := Z.lxor (byte_at down (dn2 - 1)) 1]> down in
                      let '(bridge, recovered, r) := decapsulate bridge (take dn2 down) recovered in
                      bool_decide (r = Err (CcmpFailure Authentication)) && (rx_packet_number bridge =? 1)
                  | _ => false
                  end
              | _ => false
              end
          | _ => false
          end
      | _ => false
      end
  end.

End WifiNet.

Module WifiNetTests.
Lemma bridge_self_tests_pass : WifiNet.self_test = true ∧ WifiNet.group_ccmp_self_test = true.
Proof. split; vm_compute; reflexivity. Qed.
End WifiNetTests.

(** * What the Wi-Fi bridge delivers

    A frame reaches the network stack exactly when the access point's key sealed it with a
    new packet number; no received frame is delivered twice under one key; and a frame
    that the access point sends comes out as the Ethernet frame it was made from. *)
Import Block Io Bytes AesProofs.

Module BridgeProofs.
Import Dot11 Ccmp CcmpProofs WifiNet.

Definition bridge_ok (b : WifiNetBridge) : Prop :=
  block_of 6 (station b) ∧ block_of 6 (bssid b) ∧ block (pairwise b) ∧ 0 ≤ tx_pn (tx b) ≤ PN_MAX ∧
  match group b with None => True | Some (id, key, _) => block key ∧ 0 ≤ id ≤ 3 end.

(** ** The checks before a frame is opened *)
Definition is_group (h : list Z) : bool := negb (Z.land (byte_at h 4) 1 =? 0).
Definition key_id (cc : list Z) : Z := Z.land (Z.shiftr (byte_at cc 3) 6) 3.

(** A frame from the access point to this station or to a group. *)
Definition addressed (b : WifiNetBridge) (h : list Z) : Prop :=
  Z.land (byte_at h 1) 0x03 = 0x02 ∧ slice 10 6 h = bssid b ∧ (is_group h = false → slice 4 6 h = station b).

(** The key and the replay counter that a frame is checked with. *)
Definition selected (b : WifiNetBridge) (h cc : list Z) : option (list Z * RxState) :=
  if is_group h then
    match group b with
    | Some (id, key, grx) => if key_id cc =? id then Some (key, grx) else None
    | None => None
    end
  else if key_id cc =? 0 then Some (pairwise b, rx b) else None.

Definition advanced (b : WifiNetBridge) (h : list Z) (r : RxState) : WifiNetBridge :=
  if is_group h then set_group b (match group b with Some (id, key, _) => Some (id, key, r) | None => None end)
  else set_rx b r.

(** The steps after a frame was opened. *)
Definition deliver (h plain : list Z) (len : nat) (out : list Z) : list Z * result nat BridgeError :=
  if (len <? LLC_SNAP_LEN)%nat || negb (bool_decide (take 6 plain = RFC1042_PREFIX)) then (out, Err LlcSnap)
  else
  let total := (ETH_HEADER_LEN + len - LLC_SNAP_LEN)%nat in
  if (MAX_ETH_FRAME <? total)%nat || (length out <? total)%nat then (out, Err BridgeBufferTooSmall)
  else
  (splice 14 (slice 8 (len - 8) plain) (splice 12 (slice 6 2 plain) (splice 6 (slice 16 6 h) (splice 0 (slice 4 6 h) out))),
   Ok total).

Definition scratch : list Z := replicate (MAX_ETH_FRAME - ETH_HEADER_LEN + LLC_SNAP_LEN) 0.

#[export] Instance addressed_dec b h : Decision (addressed b h).
Proof. unfold addressed. apply _. Defined.

Lemma addressed_decide b h :
  negb (Z.land (byte_at h 1) 0x03 =? 0x02) = false →
  (negb (is_group h) && negb (bool_decide (slice 4 6 h = station b))) || negb (bool_decide (slice 10 6 h = bssid b)) =
    negb (bool_decide (addressed b h)).
Proof.
  intros Hd. apply negb_false_iff, Z.eqb_eq in Hd. destruct (bool_decide_reflect (addressed b h)) as [(_ & Hb & Hs)|Hn]; cbn [negb].
  - rewrite (bool_decide_true (slice 10 6 h = bssid b)) by done. destruct (is_group h); [done|].
    by rewrite bool_decide_true by auto.
  - destruct (is_group h) eqn:Eg, (bool_decide_reflect (slice 4 6 h = station b)), (bool_decide_reflect (slice 10 6 h = bssid b));
      try done; destruct Hn; split_and!; try done; by rewrite Eg.
Qed.

(** [decapsulate] as these three phases, on a frame long enough to have a key identifier. *)
Lemma decapsulate_phases b h cc rest out :
  length h = 24%nat → length cc = 8%nat →
  decapsulate b (h ++ cc ++ rest) out =
    if negb (Z.land (byte_at h 1) 0x03 =? 0x02) then (b, out, Err Direction)
    else if negb (bool_decide (addressed b h)) then (b, out, Err WrongPeer)
    else
    match selected b h cc with
    | None => (b, out, Err (CcmpFailure InvalidKey))
    | Some (key, r) =>
        match unprotect key r (h ++ cc ++ rest) scratch with
        | (r', plain, Err e) => (advanced b h r', out, Err (CcmpFailure e))
        | (r', plain, Ok len) => let '(out, res) := deliver h plain len out in (advanced b h r', out, res)
        end
    end.
Proof.
  intros Hh Hc. unfold decapsulate, DATA_HEADER_LEN. rewrite (proj2 (Nat.ltb_ge _ _)) by (rewrite length_app; lia).
  rewrite take_app_length' by done. cbv zeta. destruct (negb (Z.land (byte_at h 1) 3 =? 2)) eqn:Ed; [done|].
  fold (is_group h). rewrite addressed_decide by done. destruct (negb _) eqn:Ea; [done|].
  rewrite drop_app_length' by done. rewrite lookup_app_l by lia.
  destruct (lookup_lt_is_Some_2 cc 3) as [x Hx]; [lia|]. rewrite Hx.
  assert (Hk : Z.land (Z.shiftr x 6) 3 = key_id cc) by (unfold key_id, byte_at; by rewrite Hx). rewrite Hk. fold scratch.
  unfold selected, advanced, deliver. destruct (is_group h).
  - destruct (group b) as [[[id key] grx]|]; [|done]. destruct (key_id cc =? id); [|done]. cbn [negb].
    destruct (unprotect key grx _ scratch) as [[r' plain] [len|e]]; [|done]. by repeat case_match; simplify_eq.
  - destruct (key_id cc =? 0); [|done]. cbn [negb].
    destruct (unprotect (pairwise b) (rx b) _ scratch) as [[r' plain] [len|e]]; [|done]. by repeat case_match; simplify_eq.
Qed.

Lemma deliver_spec h payload out :
  length h = 24%nat → (length payload ≤ 1508)%nat →
  deliver h (splice 0 payload scratch) (length payload) out =
    if (length payload <? 8)%nat || negb (bool_decide (take 6 payload = RFC1042_PREFIX)) then (out, Err LlcSnap)
    else if (length out <? length payload + 6)%nat then (out, Err BridgeBufferTooSmall)
    else (splice 0 (slice 4 6 h ++ slice 16 6 h ++ drop 6 payload) out, Ok (length payload + 6)%nat).
Proof.
  intros Hh Hp. unfold deliver, LLC_SNAP_LEN, ETH_HEADER_LEN, MAX_ETH_FRAME. destruct (Nat.ltb_spec (length payload) 8) as [|H8]; [done|].
  assert (Hs : ∀ off n, (off + n ≤ length payload)%nat → slice off n (splice 0 payload scratch) = slice off n payload).
  { intros off n Hn. unfold slice, splice. rewrite take_0, app_nil_l, drop_app_le, take_app_le by (rewrite ?length_drop; lia). done. }
  change (take 6 (splice 0 payload scratch)) with (slice 0 6 (splice 0 payload scratch)). rewrite Hs by lia. change (slice 0 6 payload) with (take 6 payload).
  destruct (negb _); [done|]. cbn [orb]. cbv zeta.
  replace (14 + length payload - 8)%nat with (length payload + 6)%nat by lia.
  rewrite (proj2 (Nat.ltb_ge 1514 _)) by lia. cbn [orb]. destruct (Nat.ltb_spec (length out) (length payload + 6)) as [|Ho]; [done|].
  rewrite !Hs by lia. f_equal.
  pose proof (length_slice 4 6 h) as L1. pose proof (length_slice 16 6 h) as L2. pose proof (length_slice 6 2 payload) as L3.
  pose proof (length_slice 8 (length payload - 8) payload) as L4.
  replace (drop 6 payload) with (slice 6 2 payload ++ slice 8 (length payload - 8) payload).
  2:{ rewrite (slice_app_l 6 2). unfold slice. apply take_ge. rewrite length_drop. lia. }
  rewrite <-(splice_app 0 (slice 4 6 h)) by (rewrite !length_app; lia). rewrite L1 by lia. change (0 + 6)%nat with 6%nat.
  rewrite <-(splice_app 6 (slice 16 6 h)) by (rewrite ?length_splice, ?length_app by lia; lia). rewrite L2 by lia. change (6 + 6)%nat with 12%nat.
  rewrite <-(splice_app 12 (slice 6 2 payload)) by (rewrite !length_splice by (rewrite ?length_splice; lia); lia).
  by rewrite L3 by lia.
Qed.

Lemma selected_block b h cc key r : bridge_ok b → selected b h cc = Some (key, r) → block key.
Proof.
  intros (_ & _ & Hp & _ & Hg). unfold selected. destruct (is_group h).
  - destruct (group b) as [[[id k] g]|]; [|done]. destruct (_ =? id); [|done]. intros. simplify_eq. apply Hg.
  - destruct (_ =? 0); [|done]. intros. by simplify_eq.
Qed.

Lemma decapsulate_short b frame out b' out' r : (length frame < 40)%nat → decapsulate b frame out = (b', out', Ok r) → False.
Proof.
  intros Hl. unfold decapsulate, unprotect, CCMP_HEADER_LEN, MIC_LEN, DATA_HEADER_LEN. cbv zeta.
  rewrite (proj2 (Nat.ltb_lt (length frame) (24 + 8 + 8))) by lia. intros H. repeat case_match; simplify_eq.
Qed.

Lemma decapsulate_seal b h cc pn payload key r out :
  bridge_ok b → sealable h → block_of 8 cc → addressed b h → selected b h cc = Some (key, r) → read_pn cc = Ok pn →
  last_pn r < pn → Forall is_byte payload → (length payload ≤ 1508)%nat →
  decapsulate b (seal key h cc pn payload) out =
    let '(out, res) := deliver h (splice 0 payload scratch) (length payload) out in (advanced b h (mkRx pn), out, res).
Proof.
  intros Hb Hh Hc Ha Hs Hr Hpn Hp Hl. unfold seal at 1. rewrite decapsulate_phases by (apply Hh || apply Hc).
  rewrite (proj2 (Z.eqb_eq _ _)) by apply Ha. rewrite bool_decide_true by done. cbn [negb]. rewrite Hs.
  fold (seal key h cc pn payload). rewrite unprotect_seal; try done; [by eapply selected_block|unfold MAX_PAYLOAD; lia].
Qed.

Lemma decapsulate_replay b h cc pn payload key r out :
  bridge_ok b → sealable h → block_of 8 cc → addressed b h → selected b h cc = Some (key, r) → read_pn cc = Ok pn →
  pn ≤ last_pn r → Forall is_byte payload → advanced b h r = b →
  decapsulate b (seal key h cc pn payload) out = (b, out, Err (CcmpFailure Replay)).
Proof.
  intros Hb Hh Hc Ha Hs Hr Hpn Hp Had. unfold seal at 1. rewrite decapsulate_phases by (apply Hh || apply Hc).
  rewrite (proj2 (Z.eqb_eq _ _)) by apply Ha. rewrite bool_decide_true by done. cbn [negb]. rewrite Hs.
  pose proof Hh as (Bh & Ho & Hpr). pose proof (selected_block _ _ _ _ _ Hb Hs) as Hk. pose proof (nonce_block h pn Bh) as Hn.
  rewrite unprotect_cut; try done; [|by apply stream_byte|by apply mic_block].
  rewrite Ho, Hpr, Hr. cbn [negb]. rewrite (proj2 (Z.leb_le _ _)) by done. by rewrite Had.
Qed.

Lemma decapsulate_opens b frame out b' out' total :
  bridge_ok b → Forall is_byte frame → decapsulate b frame out = (b', out', Ok total) →
  ∃ h cc pn payload key r,
    sealable h ∧ block_of 8 cc ∧ addressed b h ∧ selected b h cc = Some (key, r) ∧ read_pn cc = Ok pn ∧ last_pn r < pn ∧
    Forall is_byte payload ∧ (length payload ≤ 1508)%nat ∧ frame = seal key h cc pn payload ∧ b' = advanced b h (mkRx pn) ∧
    deliver h (splice 0 payload scratch) (length payload) out = (out', Ok total).
Proof.
  intros Hb Hf H. destruct (decide (length frame < 40)%nat) as [Hs|Hl]; [by destruct (decapsulate_short _ _ _ _ _ _ Hs H)|].
  destruct (frame_cut frame Hf ltac:(lia)) as (h & cc & ct & tg & -> & Hh & Hc & Hct & Ht).
  rewrite decapsulate_phases in H by (apply Hh || apply Hc). destruct (negb _); [done|].
  case_bool_decide as Ha; [|done]. cbn [negb] in H. destruct (selected b h cc) as [[key r]|] eqn:Es; [|done].
  pose proof (selected_block _ _ _ _ _ Hb Es) as Hk.
  destruct (unprotect key r _ scratch) as [[r' plain] [len|e]] eqn:Eu; [|done].
  destruct (unprotect_opens _ _ _ _ _ _ _ Hk Hf Eu) as (h2 & cc2 & pn & payload & Hh2 & Hc2 & Hr & Hpn & Hp & _ & Hps & E & -> & -> & ->).
  assert (h2 = h ∧ cc2 = cc) as [-> ->].
  { unfold seal in E. apply app_inj_1 in E as [-> E]; [|destruct Hh2 as [[-> _] _], Hh as [-> _]; done].
    apply app_inj_1 in E as [-> E]; [done|]. destruct Hc2 as [-> _], Hc as [-> _]; done. }
  destruct (deliver _ _ _ out) as [out2 res] eqn:Ed. simplify_eq. exists h, cc, pn, payload, key, r. by split_and!.
Qed.

(** What the bridge hands to the network stack: it delivers an Ethernet frame if and only if
    the received frame comes from its access point, is addressed to this station or to a
    group, and is an RFC 1042 payload sealed under the pairwise key (for a group, under
    the installed group key of that index) with a packet number above the last one
    accepted with that key. The Ethernet frame has the addresses of the 802.11 header and
    the body that was sealed, and only that key's replay counter moves. *)
Theorem bridge_exact b frame out b' out' total :
  bridge_ok b → Forall is_byte frame →
  decapsulate b frame out = (b', out', Ok total) ↔
  ∃ h cc pn body key r,
    sealable h ∧ block_of 8 cc ∧ addressed b h ∧ selected b h cc = Some (key, r) ∧ read_pn cc = Ok pn ∧ last_pn r < pn ∧
    Forall is_byte body ∧ (2 ≤ length body ≤ 1502)%nat ∧ (12 + length body ≤ length out)%nat ∧
    frame = seal key h cc pn (RFC1042_PREFIX ++ body) ∧ b' = advanced b h (mkRx pn) ∧
    out' = splice 0 (slice 4 6 h ++ slice 16 6 h ++ body) out ∧ total = (12 + length body)%nat.
Proof.
  intros Hb Hf. split.
  - intros H. destruct (decapsulate_opens _ _ _ _ _ _ Hb Hf H) as (h & cc & pn & payload & key & r & Hh & Hc & Ha & Hs & Hr & Hpn & Hp & Hl & -> & -> & Hd).
    assert (L24 : length h = 24%nat) by apply Hh. rewrite deliver_spec in Hd by done.
    destruct (Nat.ltb_spec (length payload) 8); [done|]. case_bool_decide as Hpre; [|done]. cbn [orb negb] in Hd.
    destruct (Nat.ltb_spec (length out) (length payload + 6)); [done|]. simplify_eq.
    assert (Hcut : payload = RFC1042_PREFIX ++ drop 6 payload) by (rewrite <-Hpre; symmetry; apply take_drop).
    exists h, cc, pn, (drop 6 payload), key, r. rewrite <-Hcut, length_drop. split_and!; try done; try lia. by apply Forall_drop.
  - intros (h & cc & pn & body & key & r & Hh & Hc & Ha & Hs & Hr & Hpn & Hp & Hl & Ho & -> & -> & -> & ->).
    rewrite decapsulate_seal with (r := r); [|done..| |rewrite length_app; cbn; lia].
    2:{ apply Forall_app. split; [|done]. apply (bool_decide_unpack _). vm_compute. exact I. }
    assert (L24 : length h = 24%nat) by apply Hh. rewrite deliver_spec by (rewrite ?length_app; cbn; lia).
    rewrite take_app_length' by done. rewrite bool_decide_true by done. rewrite length_app. change (length RFC1042_PREFIX) with 6%nat.
    rewrite !(proj2 (Nat.ltb_ge _ _)) by lia. cbn [orb negb]. rewrite drop_app_length' by done. f_equal. f_equal. lia.
Qed.

(** ** From one end to the other *)
Lemma llc_payload_spec eth :
  (14 ≤ length eth ≤ 1514)%nat → take (8 + length eth - 14) (llc_payload eth) = RFC1042_PREFIX ++ drop 12 eth.
Proof.
  intros Hl. unfold llc_payload. set (buf := replicate _ 0). assert (Lb : length buf = 1508%nat) by apply length_replicate. clearbody buf.
  pose proof (length_slice 12 2 eth ltac:(lia)) as L2. assert (L3 : length (drop 14 eth) = (length eth - 14)%nat) by apply length_drop.
  replace (drop 12 eth) with (slice 12 2 eth ++ drop 14 eth).
  2:{ unfold slice. rewrite <-(take_drop 2 (drop 12 eth)) at 2. by rewrite drop_drop. }
  pose proof (splice_app 0 RFC1042_PREFIX (slice 12 2 eth) buf) as E1. change (0 + length RFC1042_PREFIX)%nat with 6%nat in E1.
  rewrite E1 by lia. pose proof (splice_app 0 (RFC1042_PREFIX ++ slice 12 2 eth) (drop 14 eth) buf) as E2.
  rewrite length_app, L2, L3 in E2. change (0 + (length RFC1042_PREFIX + 2))%nat with 8%nat in E2.
  rewrite E2, <-app_assoc by lia. apply splice_prefix; rewrite !length_app, L2, L3; cbn; lia.
Qed.

Lemma data_header_spec flags a1 a2 a3 :
  is_byte flags → block_of 6 a1 → block_of 6 a2 → block_of 6 a3 →
  data_header flags a1 a2 a3 = 0x08 :: flags :: 0 :: 0 :: a1 ++ a2 ++ a3 ++ [0; 0] ∧ block_of 24 (data_header flags a1 a2 a3).
Proof.
  intros Hf [L1 B1] [L2 B2] [L3 B3]. assert (E : data_header flags a1 a2 a3 = 0x08 :: flags :: 0 :: 0 :: a1 ++ a2 ++ a3 ++ [0; 0]).
  { unfold data_header. set (h := <[1%nat := flags]> _). assert (Lh : length h = 24%nat) by done.
    pose proof (splice_app 4 a1 a2 h) as E1. rewrite L1 in E1. change (4 + 6)%nat with 10%nat in E1. rewrite E1 by lia.
    pose proof (splice_app 4 (a1 ++ a2) a3 h) as E2. rewrite length_app, L1, L2 in E2. change (4 + (6 + 6))%nat with 16%nat in E2.
    rewrite E2 by lia. unfold splice. rewrite !length_app, L1, L2, L3. subst h. rewrite <-!app_assoc. reflexivity. }
  split; [done|]. rewrite E. split; [cbn; rewrite !length_app; cbn; lia|].
  repeat (constructor; [done|]). rewrite !Forall_app. split_and!; try done. by repeat constructor.
Qed.

(** A frame that the access point makes of an Ethernet frame for this station is delivered as
    that frame, with the source that the access point names. *)
Lemma downlink_delivered b t source eth buf out :
  bridge_ok b → Z.land (byte_at (station b) 0) 1 = 0 → block_of 6 source → Forall is_byte eth → (14 ≤ length eth ≤ 1514)%nat →
  (34 + length eth ≤ length buf)%nat → (length eth ≤ length out)%nat → 0 ≤ tx_pn t < PN_MAX → last_pn (rx b) ≤ tx_pn t →
  ∃ buf', make_downlink (pairwise b) t (station b) (bssid b) source eth buf = (mkTx (tx_pn t + 1), buf', Ok (34 + length eth)%nat) ∧
    decapsulate b (take (34 + length eth) buf') out =
      (set_rx b (mkRx (tx_pn t + 1)), splice 0 (station b ++ source ++ drop 12 eth) out, Ok (length eth)) ∧
    Forall is_byte (take (34 + length eth) buf') ∧ length (take (34 + length eth) buf') = (34 + length eth)%nat ∧
    ∀ out2, decapsulate (set_rx b (mkRx (tx_pn t + 1))) (take (34 + length eth) buf') out2 =
      (set_rx b (mkRx (tx_pn t + 1)), out2, Err (CcmpFailure Replay)).
Proof.
  intros Hb Hu Hsrc He Hl Hbuf Hout Ht Hrx. pose proof Hb as (Hsta & Hbss & Hk & _ & _).
  destruct (data_header_spec 0x02 (station b) (bssid b) source) as [Eh Hh]; [done..|].
  unfold make_downlink. rewrite llc_payload_spec by done. set (payload := RFC1042_PREFIX ++ drop 12 eth).
  assert (Lp : length payload = (length eth - 6)%nat) by (subst payload; rewrite length_app, length_drop; cbn; lia).
  assert (Hp : Forall is_byte payload) by (apply Forall_app; split; [apply (bool_decide_unpack _); vm_compute; exact I|by apply Forall_drop]).
  set (h := data_header 0x02 (station b) (bssid b) source) in *.
  assert (Hc : control_ok (control_word h) = true) by (rewrite Eh; reflexivity).
  rewrite protect_seals by (done || unfold MAX_PAYLOAD; lia). eexists. split; [f_equal; f_equal; lia|].
  pose proof (sealable_protected h Hh Hc) as Hse. set (h' := with_protected h) in *. set (pn := tx_pn t + 1). set (cc := write_ccmp_header pn 0).
  rewrite splice_prefix; [..|rewrite length_seal; try done; [lia|apply Hse]]; [|rewrite length_seal; try done; [lia|apply Hse]].
  assert (Eh' : h' = 0x08 :: 0x42 :: 0 :: 0 :: station b ++ bssid b ++ source ++ [0; 0]) by (unfold h', with_protected; rewrite Eh; reflexivity).
  destruct Hsta as [L1 B1], Hbss as [L2 B2], Hsrc as [L3 B3].
  assert (S1 : slice 4 6 h' = station b) by (rewrite Eh'; by apply take_app_length').
  assert (S2 : slice 10 6 h' = bssid b).
  { rewrite Eh'. unfold slice. cbn [drop]. rewrite drop_app_length' by done. by apply take_app_length'. }
  assert (S3 : slice 16 6 h' = source).
  { rewrite Eh'. unfold slice. cbn [drop]. rewrite app_assoc, drop_app_length' by (rewrite length_app; lia). by apply take_app_length'. }
  assert (G : is_group h' = false).
  { unfold is_group. change 4%nat with (4 + 0)%nat. rewrite <-(byte_at_slice h' 4 6 0) by lia. by rewrite S1, Hu. }
  assert (Hcc : block_of 8 cc) by apply ccmp_header_block.
  assert (Had : ∀ b', station b' = station b → bssid b' = bssid b → addressed b' h').
  { intros b' E1 E2. unfold addressed. rewrite E1, E2. split_and!; [by rewrite Eh'|done|done]. }
  assert (Hsel : ∀ b', selected b' h' cc = Some (pairwise b', rx b')) by (intros b'; unfold selected; by rewrite G).
  assert (Hpn : read_pn cc = Ok pn) by (apply read_written_pn; lia).
  split_and!.
  - rewrite decapsulate_seal with (r := rx b); [|done|done|done|by apply Had|apply Hsel|done|lia|done|lia].
    rewrite deliver_spec by (rewrite ?Lp; apply Hse || lia). rewrite Lp, S1, S3. rewrite !(proj2 (Nat.ltb_ge _ _)) by lia.
    subst payload. rewrite take_app_length', bool_decide_true, drop_app_length' by done. cbn [negb orb].
    unfold advanced. rewrite G. f_equal. f_equal. lia.
  - unfold seal. rewrite !Forall_app. pose proof (nonce_block h' pn (proj1 Hse)) as Hn.
    split_and!; [apply Hse|apply Hcc|by apply stream_byte|apply mic_block; try done; apply Hse].
  - rewrite length_seal; try done; [lia|apply Hse].
  - intros out2. change (pairwise b) with (pairwise (set_rx b (mkRx pn))).
    apply (decapsulate_replay _ _ _ _ _ _ (mkRx pn)); [done|done|done|by apply Had|apply Hsel|done|cbn; lia|done|unfold advanced; by rewrite G].
Qed.

(** ** Keys and counters over time *)
Definition counter (multicast : bool) (b : WifiNetBridge) : Z :=
  if multicast then group_rx_packet_number b else rx_packet_number b.
Definition keys (b : WifiNetBridge) : list Z * list Z * list Z * option (Z * list Z) :=
  (station b, bssid b, pairwise b, fst <$> group b).

(** Receiving keeps the keys, and no replay counter goes back. *)
Lemma decapsulate_counters b frame out b' out' r :
  decapsulate b frame out = (b', out', r) → keys b' = keys b ∧ tx b' = tx b ∧ ∀ c, counter c b ≤ counter c b'.
Proof.
  assert (Hu : ∀ key r f p r' p' res, unprotect key r f p = (r', p', res) → last_pn r ≤ last_pn r').
  { intros key r0 f p r' p' [n|e] H; [apply unprotect_ok in H; lia|apply unprotect_err in H as ->; lia]. }
  unfold decapsulate. cbv zeta. intros H.
  destruct (length frame <? _)%nat; [by simplify_eq|]. destruct (negb (_ =? 2)); [by simplify_eq|].
  destruct (_ || negb (bool_decide (slice 10 6 _ = _))); [by simplify_eq|]. destruct (_ !! 3%nat) as [x|]; [|by simplify_eq].
  set (opened := if negb (Z.land (byte_at (take DATA_HEADER_LEN frame) 4) 1 =? 0) then _ else _) in H.
  assert (Ho : keys opened.1.1 = keys b ∧ tx opened.1.1 = tx b ∧ ∀ c, counter c b ≤ counter c opened.1.1).
  { subst opened. destruct (negb (_ =? 0)).
    - destruct (group b) as [[[id key] g]|] eqn:Eg; [|done]. destruct (negb _); [done|].
      destruct (unprotect key g _ _) as [[g' p'] res] eqn:Eu. apply Hu in Eu. unfold keys, set_group. cbn. rewrite Eg.
      split_and!; [done..|]. intros [|]; unfold counter, group_rx_packet_number, last_packet_number; cbn; rewrite ?Eg; done.
    - destruct (negb _); [done|]. destruct (unprotect (pairwise b) (rx b) _ _) as [[r' p'] res] eqn:Eu. apply Hu in Eu.
      unfold keys, set_rx. cbn. split_and!; [done..|]. intros [|]; done. }
  destruct opened as [[b2 plain] res]. cbn [fst snd] in Ho.
  destruct res as [len|e]; repeat case_match; simplify_eq; done.
Qed.

Lemma encapsulate_counters b ethernet out b' out' r :
  encapsulate b ethernet out = (b', out', r) → keys b' = keys b ∧ ∀ c, counter c b' = counter c b.
Proof. unfold encapsulate. intros H. repeat case_match; simplify_eq; split; try done; intros [|]; done. Qed.

(** The bridge in use: frames sent and received in any order. *)
Inductive bridge_event := Send (ethernet : list Z) | Receive (frame : list Z).

Definition bridge_step (b : WifiNetBridge) (e : bridge_event) : WifiNetBridge * result nat BridgeError :=
  match e with
  | Send ethernet => let '(b, _, r) := encapsulate b ethernet (replicate MAX_WIFI_FRAME 0) in (b, r)
  | Receive frame => let '(b, _, r) := decapsulate b frame (replicate MAX_ETH_FRAME 0) in (b, r)
  end.
Fixpoint bridge_run (b : WifiNetBridge) (es : list bridge_event) : list (result nat BridgeError) :=
  match es with
  | [] => []
  | e :: es => let '(b, r) := bridge_step b e in r :: bridge_run b es
  end.

Definition event_bytes (e : bridge_event) : Prop :=
  match e with Receive frame => Forall is_byte frame | Send ethernet => Forall is_byte ethernet end.

Lemma keys_ok b b' : keys b' = keys b → 0 ≤ tx_pn (tx b') ≤ PN_MAX → bridge_ok b → bridge_ok b'.
Proof.
  unfold keys, bridge_ok. intros Hk Ht (H1 & H2 & H3 & H4 & H5). injection Hk as -> -> -> Hg. split_and!; try done; [apply Ht..|].
  destruct (group b') as [[[i k] g]|], (group b) as [[[i2 k2] g2]|]; try done. injection Hg as -> ->. done.
Qed.

Lemma protect_tx key t header payload id out t' out' r :
  protect key t header payload id out = (t', out', r) → t' = t ∨ (tx_pn t < PN_MAX ∧ t' = mkTx (tx_pn t + 1)).
Proof.
  unfold protect, tx_next. intros H. repeat case_match; simplify_eq; try (by left); right; split; try done; by apply Z.leb_gt.
Qed.

Lemma bridge_step_ok b e b' r : bridge_ok b → bridge_step b e = (b', r) → bridge_ok b' ∧ ∀ c, counter c b ≤ counter c b'.
Proof.
  intros Hb. destruct e as [eth|frame]; cbn [bridge_step].
  - destruct (encapsulate b eth _) as [[b2 o] r2] eqn:E. intros ?; simplify_eq.
    destruct (encapsulate_counters _ _ _ _ _ _ E) as [Hk Hc]. split; [|intros c; by rewrite Hc].
    eapply keys_ok; [done| |done]. unfold encapsulate in E. destruct (_ || _); [simplify_eq; apply Hb|].
    destruct (protect _ _ _ _ _ _) as [[t' o2] r3] eqn:Ep. simplify_eq. cbn.
    destruct Hb as (_ & _ & _ & Ht & _). apply protect_tx in Ep as [-> |[Hlt ->]]; [done|cbn; lia].
  - destruct (decapsulate b frame _) as [[b2 o] r2] eqn:E. intros ?; simplify_eq.
    destruct (decapsulate_counters _ _ _ _ _ _ E) as (Hk & Ht & Hc). split; [|done].
    eapply keys_ok; [done| |done]. rewrite Ht. apply Hb.
Qed.

(** The class and the packet number that a frame carries. *)
Definition frame_class (frame : list Z) : bool := is_group (take 24 frame).
Definition frame_pn (frame : list Z) : Z := match read_pn (slice 24 8 frame) with Ok pn => pn | Err _ => 0 end.

Lemma accepted_counter b frame b' n :
  bridge_ok b → Forall is_byte frame → bridge_step b (Receive frame) = (b', Ok n) →
  counter (frame_class frame) b < frame_pn frame ∧ counter (frame_class frame) b' = frame_pn frame.
Proof.
  intros Hb Hf. cbn [bridge_step]. destruct (decapsulate b frame _) as [[b2 o] r2] eqn:E. intros ?; simplify_eq.
  destruct (decapsulate_opens _ _ _ _ _ _ Hb Hf E) as (h & cc & pn & payload & key & r & Hh & Hc & Ha & Hs & Hr & Hpn & _ & _ & -> & -> & _).
  assert (L24 : length h = 24%nat) by apply Hh. assert (L8 : length cc = 8%nat) by apply Hc.
  assert (Ht : take 24 (seal key h cc pn payload) = h) by by apply take_app_length'.
  assert (Hcc : slice 24 8 (seal key h cc pn payload) = cc).
  { unfold slice, seal. rewrite drop_app_length' by done. by apply take_app_length'. }
  unfold frame_class, frame_pn. rewrite Ht, Hcc, Hr. unfold selected, advanced in *.
  unfold counter, group_rx_packet_number, rx_packet_number, last_packet_number. destruct (is_group h); cbn.
  - destruct (group b) as [[[id k] g]|]; [|done]. destruct (_ =? id); [|done]. simplify_eq. done.
  - destruct (_ =? 0); [|done]. simplify_eq. done.
Qed.

Lemma no_later_delivery frame es b j n :
  bridge_ok b → Forall event_bytes es → frame_pn frame ≤ counter (frame_class frame) b →
  es !! j = Some (Receive frame) → bridge_run b es !! j = Some (Ok n) → False.
Proof.
  revert b j. induction es as [|e es IH]; intros b j Hb He Hc Hj Hr; [done|]. apply Forall_cons in He as [He Hes].
  cbn [bridge_run] in Hr. destruct (bridge_step b e) as [b2 r] eqn:E. destruct (bridge_step_ok _ _ _ _ Hb E) as [Hb2 Hm].
  destruct j as [|j]; cbn in Hj, Hr; simplify_eq.
  - destruct (accepted_counter _ _ _ _ Hb He E). lia.
  - eapply (IH b2 j); try done. specialize (Hm (frame_class frame)). lia.
Qed.

(** C26. No received frame is delivered twice: while the keys stay installed, whatever frames arrive (replayed,
    forged or reordered) and whatever the station sends in between, two frames that the
    bridge delivered at different times are different frames. *)
Theorem no_frame_delivered_twice b es i j f g n m :
  bridge_ok b → Forall event_bytes es → (i < j)%nat →
  es !! i = Some (Receive f) → es !! j = Some (Receive g) →
  bridge_run b es !! i = Some (Ok n) → bridge_run b es !! j = Some (Ok m) → f ≠ g.
Proof.
  intros Hb He Hij Hi Hj Ri Rj <-. revert b i j Hb He Hij Hi Ri Hj Rj.
  induction es as [|e es IH]; intros b i j Hb He Hij Hi Ri Hj Rj; [done|]. apply Forall_cons in He as [He Hes].
  cbn [bridge_run] in *. destruct (bridge_step b e) as [b2 r] eqn:E. destruct (bridge_step_ok _ _ _ _ Hb E) as [Hb2 Hm].
  destruct j as [|j]; [lia|]. cbn in Hj, Rj. destruct i as [|i]; cbn in Hi, Ri; simplify_eq.
  - destruct (accepted_counter _ _ _ _ Hb He E) as [_ Hc]. eapply no_later_delivery; [..|exact Hj|exact Rj]; try done. lia.
  - eapply (IH b2 i j); try done. lia.
Qed.

(** ** An access point that sends two frames *)
Definition sample_bridge : WifiNetBridge := mkBridge sta ap sample_key tx_new rx_new None.
Definition sample_ethernet : list Z := sta ++ peer ++ [0x08; 0x00] ++ seqZ 0 10.
Definition down1 : list Z := take 58 (make_downlink sample_key tx_new sta ap peer sample_ethernet (replicate 58 0)).1.2.
Definition down2 : list Z := take 58 (make_downlink sample_key (mkTx 1) sta ap peer sample_ethernet (replicate 58 0)).1.2.
Definition sample_events : list bridge_event := [Receive down1; Receive down1; Send sample_ethernet; Receive down2; Receive down1].

Lemma sample_bridge_ok : bridge_ok sample_bridge.
Proof. repeat split; try done; try lia; apply (bool_decide_unpack _); vm_compute; exact I. Qed.

Lemma sample_run :
  bridge_run sample_bridge sample_events =
    [Ok 24%nat; Err (CcmpFailure Replay); Ok 58%nat; Ok 24%nat; Err (CcmpFailure Replay)].
Proof. vm_compute. reflexivity. Qed.

Lemma no_frame_delivered_twice_witness :
  bridge_run sample_bridge sample_events !! 0%nat = Some (Ok 24%nat) ∧
  bridge_run sample_bridge sample_events !! 3%nat = Some (Ok 24%nat) ∧ down1 ≠ down2.
Proof.
  split; [by rewrite sample_run|]. split; [by rewrite sample_run|].
  apply (no_frame_delivered_twice sample_bridge sample_events 0 3 down1 down2 24 24).
  - apply sample_bridge_ok.
  - repeat (apply Forall_cons; split; [apply (bool_decide_unpack _); vm_compute; exact I|]). apply Forall_nil; exact I.
  - lia.
  - reflexivity.
  - reflexivity.
  - by rewrite sample_run.
  - by rewrite sample_run.
Defined.

Lemma bridge_exact_witness :
  ∃ h cc pn body key r,
    sealable h ∧ block_of 8 cc ∧ addressed sample_bridge h ∧ selected sample_bridge h cc = Some (key, r) ∧ read_pn cc = Ok pn ∧
    last_pn r < pn ∧ Forall is_byte body ∧ (2 ≤ length body ≤ 1502)%nat ∧ (12 + length body ≤ length (replicate 30 7))%nat ∧
    down1 = seal key h cc pn (RFC1042_PREFIX ++ body) ∧ set_rx sample_bridge (mkRx 1) = advanced sample_bridge h (mkRx pn) ∧
    sample_ethernet ++ replicate 6 7 = splice 0 (slice 4 6 h ++ slice 16 6 h ++ body) (replicate 30 7) ∧ 24%nat = (12 + length body)%nat.
Proof.
  apply (bridge_exact sample_bridge down1 (replicate 30 7) (set_rx sample_bridge (mkRx 1)) (sample_ethernet ++ replicate 6 7) 24).
  - apply sample_bridge_ok.
  - apply (bool_decide_unpack _). vm_compute. exact I.
  - vm_compute. reflexivity.
Defined.
End BridgeProofs.
