(* ===== verification/Rsn.v ===== *)
(** * RSN profiles and EAPOL-Key frames (kernel/src/wifi_rsn.rs)

    The security profile that an access point announces, the key frames of the 4-way
    handshake, and the state machine that follows the handshake without its cryptography. *)
From S2P Require Import Prelude Block DeviceIo Bytes.
Import Block Io Bytes.

Module Rsn.

Definition RSN_OUI : list Z := [0x00; 0x0f; 0xac].
Definition RSN_VERSION : Z := 1.
Definition CIPHER_CCMP_128 : Z := 4.
Definition AKM_PSK : Z := 2.
Definition AKM_SAE : Z := 8.
Definition EAPOL_TYPE_KEY : Z := 3.
Definition EAPOL_KEY_DESCRIPTOR_RSN : Z := 2.
Definition EAPOL_KEY_FIXED_LEN : nat := 95.

(** ** The RSN information element *)
Inductive RsnError :=
  | RsnTruncated
  | UnsupportedVersion
  | InvalidSuite
  | UnsupportedCipher
  | UnsupportedAkm
  | UnsupportedPairwiseCount
  | UnsupportedAkmCount.

#[export] Instance RsnError_eq_dec : EqDecision RsnError.
Proof. solve_decision. Defined.

Inductive Cipher := Ccmp128.

#[export] Instance Cipher_eq_dec : EqDecision Cipher.
Proof. solve_decision. Defined.

Inductive Akm := Psk | Sae.

#[export] Instance Akm_eq_dec : EqDecision Akm.
Proof. solve_decision. Defined.

Record RsnProfile := mkProfile {
  group_cipher : Cipher;
  pairwise_cipher : Cipher;
  akm : Akm;
  capabilities : Z
}.

Definition read_u16_le (bytes : list Z) (offset : nat) : result Z RsnError :=
  let? b := ok_or (get offset 2 bytes) RsnTruncated in Ok (from_le_bytes b).
Definition parse_suite (bytes : list Z) (offset : nat) : result (list Z * Z) RsnError :=
  let? s := ok_or (get offset 4 bytes) RsnTruncated in Ok (take 3 s, byte_at s 3).

Definition parse_cipher (bytes : list Z) (offset : nat) : result Cipher RsnError :=
  let? s := parse_suite bytes offset in
  if negb (bool_decide (s.1 = RSN_OUI)) then Err InvalidSuite
  else if s.2 =? CIPHER_CCMP_128 then Ok Ccmp128 else Err UnsupportedCipher.

Definition parse_akm (bytes : list Z) (offset : nat) : result Akm RsnError :=
  let? s := parse_suite bytes offset in
  if negb (bool_decide (s.1 = RSN_OUI)) then Err InvalidSuite
  else if s.2 =? AKM_PSK then Ok Psk
  else if s.2 =? AKM_SAE then Ok Sae
  else Err UnsupportedAkm.

Definition parse_rsn (body : list Z) : result RsnProfile RsnError :=
  let? version := read_u16_le body 0 in
  if negb (version =? RSN_VERSION) then Err UnsupportedVersion
  else
  let? group_cipher := parse_cipher body 2 in
  let? pairwise_count := read_u16_le body 6 in
  if negb (pairwise_count =? 1) then Err UnsupportedPairwiseCount
  else
  let? pairwise_cipher := parse_cipher body 8 in
  let? akm_count := read_u16_le body 12 in
  if negb (akm_count =? 1) then Err UnsupportedAkmCount
  else
  let? akm := parse_akm body 14 in
  let? capabilities := (if (20 <=? length body)%nat then read_u16_le body 18 else Ok 0) in
  Ok (mkProfile group_cipher pairwise_cipher akm capabilities).

(** ** EAPOL-Key frames *)
Inductive EapolError :=
  | Truncated
  | WrongPacketType
  | WrongDescriptorType
  | InvalidBodyLength.

#[export] Instance EapolError_eq_dec : EqDecision EapolError.
Proof. solve_decision. Defined.

(** [KeyInfo]: the bits of the key information word. *)
Definition info_bit (info bit : Z) : bool := negb (Z.land info (Z.shiftl 1 bit) =? 0).
Definition descriptor_version (info : Z) : Z := Z.land info 0x0007.
Definition key_type_pairwise (info : Z) : bool := info_bit info 3.
Definition install (info : Z) : bool := info_bit info 6.
Definition ack (info : Z) : bool := info_bit info 7.
Definition info_mic (info : Z) : bool := info_bit info 8.
Definition secure (info : Z) : bool := info_bit info 9.
Definition encrypted_key_data (info : Z) : bool := info_bit info 12.

Record EapolKey := mkEapol {
  e_version : Z;
  descriptor_type : Z;
  key_info : Z;
  key_length : Z;
  e_replay : Z;
  e_nonce : list Z;
  e_mic : list Z;
  key_data : list Z
}.

Definition read_u16_be (bytes : list Z) (offset : nat) : result Z EapolError :=
  let? b := ok_or (get offset 2 bytes) Truncated in Ok (from_be_bytes b).
Definition read_u64_be (bytes : list Z) (offset : nat) : result Z EapolError :=
  let? b := ok_or (get offset 8 bytes) Truncated in Ok (from_be_bytes b).

Definition parse_eapol_key (frame : list Z) : result EapolKey EapolError :=
  if (length frame <? 4 + EAPOL_KEY_FIXED_LEN)%nat then Err Truncated
  else if negb (byte_at frame 1 =? EAPOL_TYPE_KEY) then Err WrongPacketType
  else
  let? len := read_u16_be frame 2 in
  let body_len := Z.to_nat len in
  if (body_len <? EAPOL_KEY_FIXED_LEN)%nat || (length frame <? 4 + body_len)%nat then Err InvalidBodyLength
  else
  let b := slice 4 body_len frame in
  if negb (byte_at b 0 =? EAPOL_KEY_DESCRIPTOR_RSN) then Err WrongDescriptorType
  else
  let? key_info := read_u16_be b 1 in
  let? key_length := read_u16_be b 3 in
  let? replay_counter := read_u64_be b 5 in
  let nonce := slice 13 32 b in
  let mic := slice 77 16 b in
  let? key_data_len := read_u16_be b 93 in
  let key_data_end := (95 + Z.to_nat key_data_len)%nat in
  if negb (key_data_end =? body_len)%nat || negb (length frame =? 4 + body_len)%nat then Err InvalidBodyLength
  else
  let? key_data := ok_or (get 95 (key_data_end - 95) b) InvalidBodyLength in
  Ok (mkEapol (byte_at frame 0) (byte_at b 0) key_info key_length replay_counter nonce mic key_data).

(** ** The handshake without its cryptography *)
Inductive FourWayState := FwIdle | FwAwaitingMessage1 | FwAwaitingMessage3 | FwCompleted | FwFailed.

#[export] Instance FourWayState_eq_dec : EqDecision FourWayState.
Proof. solve_decision. Defined.

Inductive FourWayError :=
  | FwWrongState
  | UnsupportedProfile
  | ReplayCounter
  | InvalidMessage
  | MicRequired
  | CryptoNotVerified.

#[export] Instance FourWayError_eq_dec : EqDecision FourWayError.
Proof. solve_decision. Defined.

Record FourWayHandshake := mkFourWay {
  fw_state : FourWayState;
  last_replay : Z;
  anonce : list Z
}.

Definition fw_new : FourWayHandshake := mkFourWay FwIdle 0 (replicate 32 0).
Definition fw_with (h : FourWayHandshake) (s : FourWayState) : FourWayHandshake := mkFourWay s (last_replay h) (anonce h).

Definition fw_begin (profile : RsnProfile) (h : FourWayHandshake) : FourWayHandshake * result () FourWayError :=
  if negb (bool_decide (fw_state h = FwIdle)) then (h, Err FwWrongState)
  else if negb (bool_decide (akm profile = Psk)) || negb (bool_decide (group_cipher profile = Ccmp128)) ||
          negb (bool_decide (pairwise_cipher profile = Ccmp128)) then (h, Err UnsupportedProfile)
  else (mkFourWay FwAwaitingMessage1 0 (replicate 32 0), Ok tt).

Definition fw_receive_message1 (key : EapolKey) (h : FourWayHandshake) : FourWayHandshake * result () FourWayError :=
  if negb (bool_decide (fw_state h = FwAwaitingMessage1)) then (h, Err FwWrongState)
  else if negb (key_type_pairwise (key_info key)) || negb (ack (key_info key)) || info_mic (key_info key) || install (key_info key)
  then (fw_with h FwFailed, Err InvalidMessage)
  else if e_replay key <=? last_replay h then (fw_with h FwFailed, Err ReplayCounter)
  else (mkFourWay FwAwaitingMessage3 (e_replay key) (e_nonce key), Ok tt).

Definition fw_receive_message3_metadata (key : EapolKey) (h : FourWayHandshake) : FourWayHandshake * result () FourWayError :=
  if negb (bool_decide (fw_state h = FwAwaitingMessage3)) then (h, Err FwWrongState)
  else if negb (key_type_pairwise (key_info key)) || negb (ack (key_info key)) || negb (info_mic (key_info key)) ||
          negb (install (key_info key)) || negb (secure (key_info key))
  then (fw_with h FwFailed, Err InvalidMessage)
  else if e_replay key <? last_replay h then (fw_with h FwFailed, Err ReplayCounter)
  else (h, Err CryptoNotVerified).

Definition fw_mark_message3_verified (replay_counter : Z) (h : FourWayHandshake) : FourWayHandshake * result () FourWayError :=
  if negb (bool_decide (fw_state h = FwAwaitingMessage3)) then (h, Err FwWrongState)
  else if replay_counter <? last_replay h then (fw_with h FwFailed, Err ReplayCounter)
  else (mkFourWay FwCompleted replay_counter (anonce h), Ok tt).

Definition fw_fail (h : FourWayHandshake) : FourWayHandshake := mkFourWay FwFailed 0 (replicate 32 0).
Definition fw_reset (h : FourWayHandshake) : FourWayHandshake := mkFourWay FwIdle 0 (replicate 32 0).

(** ** Self test *)
Definition synthetic_eapol_key (out : list Z) (key_info replay nonce_seed : Z) : option (nat * list Z) :=
  let total := (4 + EAPOL_KEY_FIXED_LEN)%nat in
  if (length out <? total)%nat then None
  else
  let out := splice 0 (replicate total 0) out in
  let out := <[0%nat := 2]> out in
  let out := <[1%nat := EAPOL_TYPE_KEY]> out in
  let out := splice 2 (to_be_bytes 2 (Z.of_nat EAPOL_KEY_FIXED_LEN)) out in
  let out := <[4%nat := EAPOL_KEY_DESCRIPTOR_RSN]> out in
  let out := splice 5 (to_be_bytes 2 key_info) out in
  let out := splice 9 (to_be_bytes 8 replay) out in
  let out := splice 17 ((λ i, (nonce_seed + i) mod 256) <$> seqZ 0 32) out in
  let out := splice 97 (to_be_bytes 2 0) out in
  Some (total, out).

Definition psk_rsn : list Z := [1; 0; 0; 0x0f; 0xac; 4; 1; 0; 0; 0x0f; 0xac; 4; 1; 0; 0; 0x0f; 0xac; 2; 0; 0].
Definition sae_rsn : list Z := [1; 0; 0; 0x0f; 0xac; 4; 1; 0; 0; 0x0f; 0xac; 4; 1; 0; 0; 0x0f; 0xac; 8; 0; 0].

Definition self_test : bool :=
  match parse_rsn psk_rsn with
  | Err _ => false
  | Ok profile =>
      bool_decide (akm profile = Psk) && bool_decide (pairwise_cipher profile = Ccmp128) &&
      let '(h, r) := fw_begin profile fw_new in
      bool_decide (r = Ok tt) &&
      match synthetic_eapol_key (replicate 128 0) (Z.lor (Z.lor (Z.shiftl 1 3) (Z.shiftl 1 7)) 2) 1 0x20 with
      | None => false
      | Some (n1, frame) =>
          match parse_eapol_key (take n1 frame) with
          | Err _ => false
          | Ok msg1 =>
              let '(h, r) := fw_receive_message1 msg1 h in
              bool_decide (r = Ok tt) && bool_decide (fw_state h = FwAwaitingMessage3) && (byte_at (anonce h) 0 =? 0x20) &&
              let msg3_info := Z.lor (Z.lor (Z.lor (Z.lor (Z.lor (Z.shiftl 1 3) (Z.shiftl 1 6)) (Z.shiftl 1 7)) (Z.shiftl 1 8)) (Z.shiftl 1 9)) 2 in
              match synthetic_eapol_key frame msg3_info 2 0x20 with
              | None => false
              | Some (n3, frame) =>
                  match parse_eapol_key (take n3 frame) with
                  | Err _ => false
                  | Ok msg3 =>
                      let '(h, r) := fw_receive_message3_metadata msg3 h in
                      bool_decide (r = Err CryptoNotVerified) &&
                      let '(h, r) := fw_mark_message3_verified 2 h in
                      bool_decide (r = Ok tt) && bool_decide (fw_state h = FwCompleted) &&
                      match parse_rsn sae_rsn with Ok p => bool_decide (akm p = Sae) | Err _ => false end
                  end
              end
          end
      end
  end.

End Rsn.

Module RsnProofs.
Import Rsn.

Lemma rsn_self_test_passes : self_test = true.
Proof. vm_compute. reflexivity. Qed.

(** The layout of a key frame, as the list of its fields. *)
Definition eapol_frame (info replay : Z) (nonce mic data : list Z) : list Z :=
  [2; EAPOL_TYPE_KEY] ++ to_be_bytes 2 (95 + Z.of_nat (length data)) ++ [EAPOL_KEY_DESCRIPTOR_RSN] ++ to_be_bytes 2 info ++
  [0; 0] ++ to_be_bytes 8 replay ++ nonce ++ replicate 32 0 ++ mic ++ to_be_bytes 2 (Z.of_nat (length data)) ++ data.

Definition eapol_ok (info replay : Z) (nonce mic data : list Z) : Prop :=
  0 ≤ info ≤ u16_max ∧ 0 ≤ replay ≤ u64_max ∧ length nonce = 32%nat ∧ length mic = 16%nat ∧ 95 + Z.of_nat (length data) ≤ u16_max.

Lemma length_eapol_frame info replay nonce mic data :
  length nonce = 32%nat → length mic = 16%nat → length (eapol_frame info replay nonce mic data) = (99 + length data)%nat.
Proof. intros Hn Hm. unfold eapol_frame. rewrite !length_app, !length_to_be_bytes, length_replicate, Hn, Hm. cbn [length]. lia. Qed.

(** A frame laid out by the standard is read back field by field. *)
Lemma parse_eapol_frame info replay nonce mic data :
  eapol_ok info replay nonce mic data →
  parse_eapol_key (eapol_frame info replay nonce mic data) = Ok (mkEapol 2 EAPOL_KEY_DESCRIPTOR_RSN info 0 replay nonce mic data).
Proof.
  intros (Hi & Hr & Hn & Hm & Hd). unfold u16_max, u64_max in *.
  pose proof (length_eapol_frame info replay nonce mic data Hn Hm) as HL.
  set (f := eapol_frame info replay nonce mic data) in *. set (b := drop 4 f).
  assert (Lb : length b = (95 + length data)%nat) by (subst b; rewrite length_drop; lia).
  assert (E2 : slice 2 2 f = to_be_bytes 2 (95 + Z.of_nat (length data))) by reflexivity.
  assert (E1 : slice 1 2 b = to_be_bytes 2 info ∧ slice 3 2 b = [0; 0] ∧ slice 5 8 b = to_be_bytes 8 replay) by done.
  assert (E13 : drop 13 b = nonce ++ replicate 32 0 ++ mic ++ to_be_bytes 2 (Z.of_nat (length data)) ++ data) by reflexivity.
  assert (E77 : drop 77 b = mic ++ to_be_bytes 2 (Z.of_nat (length data)) ++ data).
  { change 77%nat with (13 + (32 + 32))%nat. rewrite <-drop_drop, E13, <-drop_drop, drop_app_length' by done. reflexivity. }
  assert (E93 : drop 93 b = to_be_bytes 2 (Z.of_nat (length data)) ++ data).
  { change 93%nat with (77 + 16)%nat. rewrite <-drop_drop, E77. by apply drop_app_length'. }
  assert (E95 : drop 95 b = data).
  { change 95%nat with (93 + 2)%nat. rewrite <-drop_drop, E93. apply drop_app_length'. by rewrite length_to_be_bytes. }
  unfold parse_eapol_key. rewrite HL. unfold EAPOL_KEY_FIXED_LEN. rewrite (proj2 (Nat.ltb_ge _ _)) by lia.
  change (byte_at f 1) with EAPOL_TYPE_KEY. change (byte_at f 0) with 2. cbn [Z.eqb EAPOL_TYPE_KEY Pos.eqb negb].
  unfold read_u16_be, read_u64_be. rewrite (get_Some 2 2 f) by lia. rewrite E2. cbn [ok_or rbind].
  rewrite from_to_be_bytes by (change (256 ^ Z.of_nat 2) with 65536; lia).
  replace (Z.to_nat (95 + Z.of_nat (length data))) with (95 + length data)%nat by lia.
  rewrite (proj2 (Nat.ltb_ge _ 95)), (proj2 (Nat.ltb_ge _ (4 + (95 + length data)))) by lia. cbn [orb].
  assert (Eb : slice 4 (95 + length data) f = b) by (unfold slice; fold b; apply take_ge; lia). rewrite Eb.
  change (byte_at b 0) with EAPOL_KEY_DESCRIPTOR_RSN. cbn [Z.eqb EAPOL_KEY_DESCRIPTOR_RSN Pos.eqb negb].
  rewrite !(get_Some _ _ b) by lia. destruct E1 as (-> & -> & ->). cbn [ok_or rbind].
  change (slice 93 2 b) with (take 2 (drop 93 b)). rewrite E93, take_app_length' by by rewrite length_to_be_bytes.
  rewrite !from_to_be_bytes by (change (256 ^ Z.of_nat 2) with 65536; change (256 ^ Z.of_nat 8) with 18446744073709551616; lia).
  rewrite Nat2Z.id, Nat.eqb_refl, (proj2 (Nat.eqb_eq _ _)) by lia. cbn [orb negb]. rewrite get_Some by lia. cbn [ok_or rbind].
  f_equal. f_equal.
  - unfold slice. rewrite E13. by apply take_app_length'.
  - unfold slice. rewrite E77. by apply take_app_length'.
  - unfold slice. rewrite E95. apply take_ge. lia.
Qed.
End RsnProofs.

(** * Randomness (kernel/src/entropy.rs)

    The pool behind security-sensitive values, which fails closed until it is seeded, and
    the best-effort values for the network stack. The processor's RDRAND, the timer and
    the address of a stack variable are inputs. *)
Import Block Io Bytes.

Module Entropy.

Inductive EntropyError := Unavailable | InvalidRequest.

#[export] Instance EntropyError_eq_dec : EqDecision EntropyError.
Proof. solve_decision. Defined.

Record Pool := mkPool {
  seeded : bool;
  pool_key : list Z;
  pool_counter : Z
}.

Definition pool_new : Pool := mkPool false (replicate 32 0) 0.
Definition pool_clear (p : Pool) : Pool := mkPool false (replicate 32 0) 0.
Definition pool_seed (seed : list Z) (p : Pool) : Pool := mkPool true seed 1.

(** A 64-bit word after a shift to the left. *)
Definition shl64 (x n : Z) : Z := Z.land (Z.shiftl x n) u64_max.

Definition xorshift (x : Z) : Z :=
  let x := Z.lxor x (shl64 x 13) in
  let x := Z.lxor x (Z.shiftr x 7) in
  Z.lxor x (shl64 x 17).

(** The bytes of one request: the [i]-th is taken from the [i + 1]-st value of [x]. *)
Fixpoint fill_loop (n : nat) (key : list Z) (i : nat) (x : Z) : list Z :=
  match n with
  | O => []
  | S n => let x := xorshift x in Z.lxor (Z.land x 0xff) (byte_at key (i mod 32)) :: fill_loop n key (i + 1) x
  end.

Definition pool_fill (len : nat) (p : Pool) : Pool * result (list Z) EntropyError :=
  if (len =? 0)%nat then (p, Err InvalidRequest)
  else if negb (seeded p) then (p, Err Unavailable)
  else
  let x := Z.lxor (pool_counter p) (from_le_bytes (take 8 (pool_key p))) in
  (mkPool (seeded p) (pool_key p) (wrapping_add64 (pool_counter p) 1), Ok (fill_loop len (pool_key p) 0 x)).

Definition fill_secure (len : nat) (p : Pool) : Pool * result (list Z) EntropyError := pool_fill len p.
Definition snonce (p : Pool) : Pool * result (list Z) EntropyError := fill_secure 32 p.
Definition try_secure_u64 (p : Pool) : Pool * result Z EntropyError :=
  match fill_secure 8 p with
  | (p, Ok bytes) => (p, Ok (from_le_bytes bytes))
  | (p, Err e) => (p, Err e)
  end.
Definition available (p : Pool) : bool := seeded p.

(** The test, given two values of [random_u64]. *)
Definition entropy_self_test (network_a network_b : Z) (p : Pool) : bool * Pool :=
  let p := pool_clear p in
  let '(p, r) := fill_secure 32 p in
  if negb (bool_decide (r = Err Unavailable)) || available p then (false, p)
  else if (network_a =? 0) && (network_b =? 0) then (false, p)
  else
  let p := pool_seed (replicate 32 0xa5) p in
  if negb (available p) then (false, p)
  else
  match snonce p with
  | (p, Ok a) =>
      match snonce p with
      | (p, Ok b) =>
          if bool_decide (a = replicate 32 0) || bool_decide (b = replicate 32 0) || bool_decide (a = b) then (false, p)
          else
          let p := pool_clear p in
          if available p then (false, p)
          else
          let '(p, r) := snonce p in
          if negb (bool_decide (r = Err Unavailable)) then (false, p)
          else let '(p, r) := try_secure_u64 p in (bool_decide (r = Err Unavailable), p)
      | (p, Err _) => (false, p)
      end
  | (p, Err _) => (false, p)
  end.

(** ** Best-effort values *)
Definition mul64 (x y : Z) : Z := Z.land (x * y) u64_max.

Definition fallback_u64 (ticks stack_addr : Z) : Z :=
  let z := Z.lxor (mul64 ticks 0x9E3779B97F4A7C15) stack_addr in
  let z := mul64 (Z.lxor z (Z.shiftr z 30)) 0xBF58476D1CE4E5B9 in
  let z := mul64 (Z.lxor z (Z.shiftr z 27)) 0x94D049BB133111EB in
  Z.lxor z (Z.shiftr z 31).

(** [rdrand] is what the processor answers, [None] when it has no such instruction; the
    list has the answers of the eight attempts. *)
Definition random_u64 (rdrand : option (list (option Z))) (ticks stack_addr : Z) : Z :=
  match rdrand with
  | Some answers => match head (omap id (take 8 answers)) with Some v => v | None => fallback_u64 ticks stack_addr end
  | None => fallback_u64 ticks stack_addr
  end.

(** Rejection sampling over the values that [random_u64] returns; it takes as many as it
    needs, and [None] says that all that were given are rejected. *)
Fixpoint range_loop (threshold min span : Z) (values : list Z) : option Z :=
  match values with
  | [] => None
  | value :: values => if threshold <=? value then Some (min + value mod span) else range_loop threshold min span values
  end.

Definition random_range (min max : Z) (values : list Z) : option Z :=
  if max <=? min then Some min
  else
  let span := max - min in
  let threshold := ((2 ^ 64 - span) mod 2 ^ 64) mod span in
  range_loop threshold min span values.

End Entropy.

Module EntropyProofs.
Import Entropy.

Lemma entropy_self_test_passes : (entropy_self_test 1 2 pool_new).1 = true.
Proof. vm_compute. reflexivity. Qed.

(** Nothing comes out of a pool that was not seeded, and a request does not seed it. *)
Lemma unseeded_fails len p : seeded p = false → ∃ e, pool_fill len p = (p, Err e).
Proof. intros Hs. unfold pool_fill. rewrite Hs. destruct (len =? 0)%nat; eauto. Qed.

Lemma length_fill_loop n key i x : length (fill_loop n key i x) = n.
Proof. revert i x. induction n as [|n IH]; intros i x; [done|]. cbn [fill_loop length]. by rewrite IH. Qed.

Lemma fill_loop_byte n key i x : Forall is_byte key → Forall is_byte (fill_loop n key i x).
Proof.
  intros Hk. revert i x. induction n as [|n IH]; intros i x; [done|]. cbn [fill_loop]. constructor; [|apply IH].
  apply lxor_byte.
  - change 255 with (Z.ones 8). rewrite Z.land_ones by lia. pose proof (Z.mod_pos_bound (xorshift x) (2 ^ 8)). unfold is_byte, u8_max. lia.
  - pose proof (byte_at_bound key (i mod 32) Hk). unfold is_byte, u8_max. lia.
Qed.

Lemma pool_fill_spec len p p' n :
  Forall is_byte (pool_key p) → pool_fill len p = (p', Ok n) → length n = len ∧ Forall is_byte n ∧ seeded p = true.
Proof.
  intros Hk. unfold pool_fill. destruct (len =? 0)%nat; [done|]. destruct (seeded p); [|done]. cbn [negb]. intros ?; simplify_eq.
  split_and!; [apply length_fill_loop|by apply fill_loop_byte|done].
Qed.

(** Every value that sampling returns lies in the range; and it returns the first value that
    is not among the [2^64 mod span] smallest ones. *)
Lemma random_range_in min max values v :
  0 ≤ min < max → max ≤ u64_max → random_range min max values = Some v → min ≤ v < max.
Proof.
  intros Hm Hx. unfold random_range. rewrite (proj2 (Z.leb_gt _ _)) by lia. cbv zeta.
  generalize (((2 ^ 64 - (max - min)) mod 2 ^ 64) mod (max - min)) as t. intros t.
  induction values as [|x values IH]; [done|]. cbn [range_loop]. destruct (t <=? x); [|apply IH]. intros ?; simplify_eq.
  pose proof (Z.mod_pos_bound x (max - min)). lia.
Qed.

(** Sampling is not biased: the values it accepts fill whole copies of the range. *)
Lemma accepted_fair span : 0 < span ≤ u64_max → (2 ^ 64 - ((2 ^ 64 - span) mod 2 ^ 64) mod span) mod span = 0.
Proof.
  intros Hs. unfold u64_max in Hs. rewrite (Z.mod_small (2 ^ 64 - span)) by lia.
  replace (2 ^ 64) with ((2 ^ 64 - span) + 1 * span) at 1 by lia. set (a := 2 ^ 64 - span).
  pose proof (Z.div_mod a span ltac:(lia)) as Ha. rewrite Ha at 1.
  replace (span * (a / span) + a mod span + 1 * span - a mod span) with ((a / span + 1) * span) by lia.
  apply Z.mod_mul. lia.
Qed.
End EntropyProofs.
