(* ===== verification/Wpa2.v ===== *)
(** * WPA2 keys and the supplicant (kernel/src/wifi_crypto.rs, kernel/src/wifi_wpa2.rs)

    Key derivation and message integrity over a suite of HMAC-SHA1 and PBKDF2, which the
    kernel takes from a library and the model takes as an argument, and the supplicant's
    side of the 4-way and group-key handshakes. A frame that is built in place is returned
    next to the state. *)
From S2P Require Import Prelude Block DeviceIo Bytes Aes GroupKeys Rsn.
Import Block Io Bytes.

(** ** The library's primitives *)
Class Sha1Suite := {
  hmac_sha1 : list Z → list Z → option (list Z);
  pbkdf2_hmac_sha1 : list Z → list Z → Z → nat → list Z
}.

(** What their documentation promises: HMAC takes keys of every length and returns the
    twenty bytes of a SHA-1 digest; PBKDF2 fills the buffer it is given. *)
Class Sha1Laws (S : Sha1Suite) : Prop := {
  hmac_digest key msg : ∃ d, hmac_sha1 key msg = Some d ∧ AesProofs.block_of 20 d;
  pbkdf2_fills pass salt rounds len : AesProofs.block_of len (pbkdf2_hmac_sha1 pass salt rounds len)
}.

Module Crypto.

Definition PMK_LEN : nat := 32.
Definition PTK_LEN : nat := 48.
Definition KCK_LEN : nat := 16.
Definition KEK_LEN : nat := 16.
Definition TK_LEN : nat := 16.

Inductive CryptoError :=
  | InvalidPassphrase
  | InvalidSsid
  | InvalidEapolFrame
  | MicMismatch
  | Hmac.

#[export] Instance CryptoError_eq_dec : EqDecision CryptoError.
Proof. solve_decision. Defined.

Definition kck (ptk : list Z) : list Z := take KCK_LEN ptk.
Definition kek (ptk : list Z) : list Z := slice KCK_LEN KEK_LEN ptk.
Definition tk (ptk : list Z) : list Z := drop (KCK_LEN + KEK_LEN) ptk.

(** The order of arrays. *)
Fixpoint lex_cmp (a b : list Z) : comparison :=
  match a, b with
  | [], [] => Eq
  | [], _ => Lt
  | _, [] => Gt
  | x :: a, y :: b => match x ?= y with Eq => lex_cmp a b | c => c end
  end.

Definition lexicographic_min_max (a b : list Z) : list Z * list Z :=
  match lex_cmp a b with Gt => (b, a) | _ => (a, b) end.

Definition EXPANSION_LABEL : list Z := Prelude.bytes "Pairwise key expansion".
Definition MIC_START : nat := 4 + 77.

Section Suite.
Context `{Sha1Suite}.

Definition derive_pmk (passphrase ssid : list Z) : result (list Z) CryptoError :=
  if negb ((8 <=? length passphrase)%nat && (length passphrase <=? 63)%nat) then Err InvalidPassphrase
  else if (length ssid =? 0)%nat || (32 <? length ssid)%nat then Err InvalidSsid
  else Ok (pbkdf2_hmac_sha1 passphrase ssid 4096 PMK_LEN).

(** The turns of the loop that fills the key. Each one writes a digest, so there are at most
    [PTK_LEN] of them. *)
Fixpoint expand_ptk (fuel : nat) (pmk context ptk : list Z) (generated : nat) (counter : Z) : result (list Z) CryptoError :=
  if (PTK_LEN <=? generated)%nat then Ok ptk
  else
  match fuel with
  | O => Err Hmac
  | S fuel =>
      let? digest := ok_or (hmac_sha1 pmk (EXPANSION_LABEL ++ [0] ++ context ++ [counter])) Hmac in
      let n := Nat.min (length digest) (PTK_LEN - generated) in
      expand_ptk fuel pmk context (splice generated (take n digest) ptk) (generated + n) ((counter + 1) mod 256)
  end.

Definition derive_ptk (pmk aa spa anonce snonce : list Z) : result (list Z) CryptoError :=
  let '(mac1, mac2) := lexicographic_min_max aa spa in
  let '(nonce1, nonce2) := lexicographic_min_max anonce snonce in
  let context := splice 44 nonce2 (splice 12 nonce1 (splice 6 mac2 (splice 0 mac1 (replicate 76 0)))) in
  expand_ptk PTK_LEN pmk context (replicate PTK_LEN 0) 0 0.

Definition compute_eapol_mic (kck eapol_frame : list Z) : result (list Z) CryptoError :=
  if negb (length kck =? KCK_LEN)%nat || (length eapol_frame <? 4 + 95)%nat then Err InvalidEapolFrame
  else if (256 <? length eapol_frame)%nat then Err InvalidEapolFrame
  else
  let frame := splice 0 eapol_frame (replicate 256 0) in
  let frame := splice MIC_START (replicate 16 0) frame in
  let? digest := ok_or (hmac_sha1 kck (take (length eapol_frame) frame)) Hmac in
  Ok (take 16 digest).

Definition verify_eapol_mic (kck eapol_frame : list Z) : result () CryptoError :=
  if (length eapol_frame <? 4 + 95)%nat then Err InvalidEapolFrame
  else
  let? expected := compute_eapol_mic kck eapol_frame in
  let? actual := ok_or (get MIC_START 16 eapol_frame) InvalidEapolFrame in
  if bool_decide (expected = actual) then Ok tt else Err MicMismatch.

Definition crypto_self_test (expected_pmk : list Z) : bool :=
  match derive_pmk (Prelude.bytes "password") (Prelude.bytes "IEEE") with
  | Err _ => false
  | Ok pmk =>
      bool_decide (pmk = expected_pmk) &&
      let aa := [0x00; 0x14; 0x6c; 0x7e; 0x40; 0x80] in
      let spa := [0x00; 0x13; 0x46; 0xfe; 0x32; 0x0c] in
      let anonce := replicate 32 0x11 in
      let snonce := replicate 32 0x22 in
      match derive_ptk pmk aa spa anonce snonce, derive_ptk pmk spa aa snonce anonce with
      | Ok ptk1, Ok ptk2 =>
          bool_decide (kck ptk1 = kck ptk2) && bool_decide (kek ptk1 = kek ptk2) && bool_decide (tk ptk1 = tk ptk2) &&
          let eapol := <[4%nat := 2]> (splice 2 (to_be_bytes 2 95) (<[1%nat := 3]> (<[0%nat := 2]> (replicate 99 0)))) in
          match compute_eapol_mic (kck ptk1) eapol with
          | Err _ => false
          | Ok mic =>
              let eapol := splice 81 mic eapol in
              bool_decide (verify_eapol_mic (kck ptk1) eapol = Ok tt) &&
              bool_decide (verify_eapol_mic (kck ptk1) (<[10%nat := Z.lxor (byte_at eapol 10) 1]> eapol) = Err MicMismatch)
          end
      | _, _ => false
      end
  end.

End Suite.
End Crypto.

(** ** The supplicant *)
Module Wpa2.
Import Crypto Rsn Gtk Entropy.

Definition EAPOL_HEADER_LEN : nat := 4.
Definition KEY_BODY_LEN : nat := EAPOL_KEY_FIXED_LEN.
Definition EAPOL_KEY_FRAME_LEN : nat := EAPOL_HEADER_LEN + KEY_BODY_LEN.
Definition KEY_INFO_PAIRWISE : Z := Z.shiftl 1 3.
Definition KEY_INFO_MIC : Z := Z.shiftl 1 8.
Definition KEY_INFO_SECURE : Z := Z.shiftl 1 9.
Definition KEY_DESCRIPTOR_VERSION_HMAC_SHA1_AES : Z := 2.

Inductive SupplicantState := Idle | AwaitingMessage1 | AwaitingMessage3 | Completed | Failed.

#[export] Instance SupplicantState_eq_dec : EqDecision SupplicantState.
Proof. solve_decision. Defined.

Inductive SupplicantError :=
  | WrongState
  | Protocol (e : EapolError)
  | Handshake (e : FourWayError)
  | CryptoFailure (e : CryptoError)
  | WrongPeer
  | WrongNonce
  | BufferTooSmall
  | UnsupportedDescriptorVersion
  | EntropyFailure (e : EntropyError)
  | GtkFailure (e : GtkError).

#[export] Instance SupplicantError_eq_dec : EqDecision SupplicantError.
Proof. solve_decision. Defined.

Record Wpa2Supplicant := mkSupplicant {
  s_state : SupplicantState;
  handshake : FourWayHandshake;
  station : list Z;
  authenticator : list Z;
  s_nonce : list Z;
  ptk : option (list Z);
  group : GroupKeyStore;
  completed_replay : option Z
}.

Definition supplicant_new (station : list Z) : Wpa2Supplicant :=
  mkSupplicant Idle fw_new station (replicate 6 0) (replicate 32 0) None store_new None.

Definition set_handshake (s : Wpa2Supplicant) (h : FourWayHandshake) : Wpa2Supplicant :=
  mkSupplicant (s_state s) h (station s) (authenticator s) (s_nonce s) (ptk s) (group s) (completed_replay s).
Definition set_store (s : Wpa2Supplicant) (g : GroupKeyStore) : Wpa2Supplicant :=
  mkSupplicant (s_state s) (handshake s) (station s) (authenticator s) (s_nonce s) (ptk s) g (completed_replay s).

Definition reset (s : Wpa2Supplicant) : Wpa2Supplicant :=
  mkSupplicant Idle (fw_reset (handshake s)) (station s) (replicate 6 0) (replicate 32 0) None (clear (group s)) None.
Definition fail (s : Wpa2Supplicant) : Wpa2Supplicant :=
  mkSupplicant Failed (fw_fail (handshake s)) (station s) (replicate 6 0) (replicate 32 0) None (clear (group s)) None.

Definition temporal_key (s : Wpa2Supplicant) : option (list Z) := tk <$> ptk s.
Definition gtk_install_count (s : Wpa2Supplicant) : Z := installs (group s).
Definition gtk_installed (s : Wpa2Supplicant) : bool := bool_decide (is_Some (gtk (group s))).
Definition group_temporal_key (s : Wpa2Supplicant) : option (Z * list Z) :=
  (λ g, (gtk_index g, gtk_key g)) <$> gtk (group s).
Definition s_gtk_index (s : Wpa2Supplicant) : option Z := gtk_index <$> gtk (group s).

Definition begin (profile : RsnProfile) (auth snonce : list Z) (s : Wpa2Supplicant) : Wpa2Supplicant * result () SupplicantError :=
  if negb (bool_decide (s_state s = Idle)) then (s, Err WrongState)
  else
  match fw_begin profile (handshake s) with
  | (h, Err e) => (set_handshake s h, Err (Handshake e))
  | (h, Ok _) => (mkSupplicant AwaitingMessage1 h (station s) auth snonce None (clear (group s)) None, Ok tt)
  end.

Definition begin_with_secure_nonce (profile : RsnProfile) (auth : list Z) (p : Pool) (s : Wpa2Supplicant)
    : Pool * Wpa2Supplicant * result () SupplicantError :=
  match snonce p with
  | (p, Err e) => (p, s, Err (EntropyFailure e))
  | (p, Ok n) => let '(s, r) := begin profile auth n s in (p, s, r)
  end.

(** ** Frames *)
Definition build_eapol_key (output : list Z) (key_info replay_counter : Z) (nonce : list Z)
    : list Z * result nat SupplicantError :=
  if (length output <? EAPOL_KEY_FRAME_LEN)%nat then (output, Err BufferTooSmall)
  else
  let output := splice 0 (replicate EAPOL_KEY_FRAME_LEN 0) output in
  let output := <[0%nat := 2]> output in
  let output := <[1%nat := EAPOL_TYPE_KEY]> output in
  let output := splice 2 (to_be_bytes 2 (Z.of_nat KEY_BODY_LEN)) output in
  let output := <[4%nat := EAPOL_KEY_DESCRIPTOR_RSN]> output in
  let output := splice 5 (to_be_bytes 2 key_info) output in
  let output := splice 9 (to_be_bytes 8 replay_counter) output in
  let output := splice 17 nonce output in
  let output := splice 97 (to_be_bytes 2 0) output in
  (output, Ok EAPOL_KEY_FRAME_LEN).

Definition build_eapol_key_with_data (out : list Z) (info replay : Z) (nonce data : list Z) : list Z * result nat SupplicantError :=
  let body := (KEY_BODY_LEN + length data)%nat in
  let total := (EAPOL_HEADER_LEN + body)%nat in
  if (length out <? total)%nat || (u16_max <? Z.of_nat body) || (u16_max <? Z.of_nat (length data)) then (out, Err BufferTooSmall)
  else
  let out := splice 0 (replicate total 0) out in
  let out := <[0%nat := 2]> out in
  let out := <[1%nat := EAPOL_TYPE_KEY]> out in
  let out := splice 2 (to_be_bytes 2 (Z.of_nat body)) out in
  let out := <[4%nat := EAPOL_KEY_DESCRIPTOR_RSN]> out in
  let out := splice 5 (to_be_bytes 2 info) out in
  let out := splice 9 (to_be_bytes 8 replay) out in
  let out := splice 17 nonce out in
  let out := splice 97 (to_be_bytes 2 (Z.of_nat (length data))) out in
  let out := splice 99 data out in
  (out, Ok total).

Section Suite.
Context `{Sha1Suite}.

(** A key frame without data, signed with the confirmation key. *)
Definition build_signed (ptk : list Z) (info replay : Z) (nonce out : list Z) : list Z * result nat SupplicantError :=
  match build_eapol_key out info replay nonce with
  | (out, Err e) => (out, Err e)
  | (out, Ok len) =>
      match compute_eapol_mic (kck ptk) (take len out) with
      | Err e => (out, Err (CryptoFailure e))
      | Ok mic => (splice 81 mic out, Ok len)
      end
  end.

Definition build_group_key_message2 (ptk : list Z) (replay : Z) (out : list Z) : list Z * result nat SupplicantError :=
  build_signed ptk (Z.lor (Z.lor KEY_INFO_MIC KEY_INFO_SECURE) KEY_DESCRIPTOR_VERSION_HMAC_SHA1_AES) replay (replicate 32 0) out.
Definition build_message4 (ptk : list Z) (replay : Z) (out : list Z) : list Z * result nat SupplicantError :=
  build_signed ptk (Z.lor (Z.lor (Z.lor KEY_INFO_PAIRWISE KEY_INFO_MIC) KEY_INFO_SECURE) KEY_DESCRIPTOR_VERSION_HMAC_SHA1_AES)
    replay (replicate 32 0) out.

Definition sign_frame (ptk frame : list Z) : list Z * result () SupplicantError :=
  match compute_eapol_mic (kck ptk) frame with
  | Err e => (frame, Err (CryptoFailure e))
  | Ok mic => (splice 81 mic frame, Ok tt)
  end.

(** ** Messages *)
Definition receive_message1_build_message2 (pmk message1 output : list Z) (s : Wpa2Supplicant)
    : Wpa2Supplicant * list Z * result nat SupplicantError :=
  if negb (bool_decide (s_state s = AwaitingMessage1)) then (s, output, Err WrongState)
  else
  match parse_eapol_key message1 with
  | Err e => (s, output, Err (Protocol e))
  | Ok key =>
      if negb (descriptor_version (key_info key) =? KEY_DESCRIPTOR_VERSION_HMAC_SHA1_AES) then
        (fail s, output, Err UnsupportedDescriptorVersion)
      else
      match fw_receive_message1 key (handshake s) with
      | (h, Err e) => (set_handshake s h, output, Err (Handshake e))
      | (h, Ok _) =>
          let s := set_handshake s h in
          match derive_ptk pmk (authenticator s) (station s) (anonce h) (s_nonce s) with
          | Err e => (s, output, Err (CryptoFailure e))
          | Ok ptk =>
              match build_signed ptk (Z.lor (Z.lor KEY_INFO_PAIRWISE KEY_INFO_MIC) KEY_DESCRIPTOR_VERSION_HMAC_SHA1_AES)
                      (e_replay key) (s_nonce s) output with
              | (output, Err e) => (s, output, Err e)
              | (output, Ok len) =>
                  (mkSupplicant AwaitingMessage3 h (station s) (authenticator s) (s_nonce s) (Some ptk) (group s) (completed_replay s),
                   output, Ok len)
              end
          end
      end
  end.

(** A message 3 after the handshake was completed. *)
Definition retransmitted_message3 (key : EapolKey) (message3 output : list Z) (s : Wpa2Supplicant)
    : Wpa2Supplicant * list Z * result nat SupplicantError :=
  match ptk s with
  | None => (s, output, Err WrongState)
  | Some ptk =>
      if negb (bool_decide (completed_replay s = Some (e_replay key))) || negb (bool_decide (e_nonce key = anonce (handshake s))) ||
         negb (encrypted_key_data (key_info key)) || bool_decide (key_data key = [])
      then (s, output, Err WrongState)
      else
      match verify_eapol_mic (kck ptk) message3 with
      | Err e => (s, output, Err (CryptoFailure e))
      | Ok _ =>
          match unwrap_gtk (kek ptk) (key_data key) with
          | Err e => (s, output, Err (GtkFailure e))
          | Ok candidate =>
              match install_verified (e_replay key) candidate (group s) with
              | (Err e, g) => (set_store s g, output, Err (GtkFailure e))
              | (Ok Installed, g) => (set_store s g, output, Err WrongState)
              | (Ok Retransmission, g) =>
                  let '(output, r) := build_message4 ptk (e_replay key) output in (set_store s g, output, r)
              end
          end
      end
  end.

Definition receive_message3_build_message4 (message3 output : list Z) (s : Wpa2Supplicant)
    : Wpa2Supplicant * list Z * result nat SupplicantError :=
  match parse_eapol_key message3 with
  | Err e => (s, output, Err (Protocol e))
  | Ok key =>
      if negb (descriptor_version (key_info key) =? KEY_DESCRIPTOR_VERSION_HMAC_SHA1_AES) then
        (fail s, output, Err UnsupportedDescriptorVersion)
      else if bool_decide (s_state s = Completed) then retransmitted_message3 key message3 output s
      else if negb (bool_decide (s_state s = AwaitingMessage3)) then (s, output, Err WrongState)
      else
      match fw_receive_message3_metadata key (handshake s) with
      | (h, Ok _) => (fail (set_handshake s h), output, Err (Handshake CryptoNotVerified))
      | (h, Err error) =>
          let s := set_handshake s h in
          if negb (bool_decide (error = CryptoNotVerified)) then (fail s, output, Err (Handshake error))
          else
          match ptk s with
          | None => (fail s, output, Err WrongState)
          | Some ptk =>
              if negb (bool_decide (e_nonce key = anonce (handshake s))) then (fail s, output, Err WrongNonce)
              else
              match verify_eapol_mic (kck ptk) message3 with
              | Err e => (fail s, output, Err (CryptoFailure e))
              | Ok _ =>
                  if negb (encrypted_key_data (key_info key)) || bool_decide (key_data key = []) then
                    (fail s, output, Err (GtkFailure MissingGtk))
                  else
                  match unwrap_gtk (kek ptk) (key_data key) with
                  | Err e => (fail s, output, Err (GtkFailure e))
                  | Ok candidate =>
                      match install_verified (e_replay key) candidate (group s) with
                      | (Ok Installed, g) =>
                          let s := set_store s g in
                          match fw_mark_message3_verified (e_replay key) (handshake s) with
                          | (h, Err e) => (fail (set_handshake s h), output, Err (Handshake e))
                          | (h, Ok _) =>
                              let s := set_handshake s h in
                              match build_message4 ptk (e_replay key) output with
                              | (output, Err e) => (s, output, Err e)
                              | (output, Ok len) =>
                                  (mkSupplicant Completed (handshake s) (station s) (authenticator s) (s_nonce s) (Some ptk) (group s)
                                     (Some (e_replay key)),
                                   output, Ok len)
                              end
                          end
                      | (_, g) => (fail (set_store s g), output, Err WrongState)
                      end
                  end
              end
          end
      end
  end.

Definition receive_group_key_message1_build_message2 (message1 output : list Z) (s : Wpa2Supplicant)
    : Wpa2Supplicant * list Z * result nat SupplicantError :=
  if negb (bool_decide (s_state s = Completed)) then (s, output, Err WrongState)
  else
  match parse_eapol_key message1 with
  | Err e => (s, output, Err (Protocol e))
  | Ok key =>
      let info := key_info key in
      if negb (descriptor_version info =? KEY_DESCRIPTOR_VERSION_HMAC_SHA1_AES) then (s, output, Err UnsupportedDescriptorVersion)
      else if key_type_pairwise info || negb (ack info) || negb (info_mic info) || negb (secure info) ||
              negb (encrypted_key_data info) || bool_decide (key_data key = []) then (s, output, Err WrongState)
      else
      match ptk s with
      | None => (s, output, Err WrongState)
      | Some ptk =>
          match verify_eapol_mic (kck ptk) message1 with
          | Err e => (s, output, Err (CryptoFailure e))
          | Ok _ =>
              match unwrap_gtk (kek ptk) (key_data key) with
              | Err e => (s, output, Err (GtkFailure e))
              | Ok candidate =>
                  match install_verified (e_replay key) candidate (group s) with
                  | (Err e, g) => (set_store s g, output, Err (GtkFailure e))
                  | (Ok _, g) =>
                      let '(output, r) := build_group_key_message2 ptk (e_replay key) output in (set_store s g, output, r)
                  end
              end
          end
      end
  end.

End Suite.
End Wpa2.

(** * The supplicant's self tests (kernel/src/wifi_wpa2.rs)

    The tests as definitions over any suite, evaluated with a small concrete suite that has
    the documented shape; the suite also shows that the laws can be met. *)
Import Block Io Bytes.

Module Wpa2Test.
Import Crypto Rsn Gtk Entropy Wpa2.

Definition test_station : list Z := [0x00; 0x13; 0x46; 0xfe; 0x32; 0x0c].
Definition test_ap : list Z := [0x00; 0x14; 0x6c; 0x7e; 0x40; 0x80].

Definition ok {A E} (r : result A E) : bool := match r with Ok _ => true | Err _ => false end.

Definition lifecycle_self_test : bool :=
  match parse_rsn psk_rsn with
  | Err _ => false
  | Ok profile =>
      let s := supplicant_new test_station in
      let '(s, r) := begin profile test_ap (replicate 32 0x11) s in
      ok r &&
      let '(s, r) := begin profile test_ap (replicate 32 0x22) s in
      bool_decide (r = Err WrongState) &&
      let s := fail s in
      bool_decide (s_state s = Failed) && bool_decide (temporal_key s = None) && negb (gtk_installed s) &&
      let '(s, r) := begin profile test_ap (replicate 32 0x22) s in
      bool_decide (r = Err WrongState) &&
      let s := reset s in
      bool_decide (s_state s = Idle) && bool_decide (temporal_key s = None) && negb (gtk_installed s) && bool_decide (s_gtk_index s = None) &&
      let '(s, r) := begin profile test_ap (replicate 32 0x33) s in
      ok r &&
      let s := reset s in
      bool_decide (s_state s = Idle) && ok (begin profile test_ap (replicate 32 0x44) s).2
  end.

Definition message1_info : Z := Z.lor (Z.lor KEY_INFO_PAIRWISE (Z.shiftl 1 7)) KEY_DESCRIPTOR_VERSION_HMAC_SHA1_AES.
Definition message3_info : Z :=
  Z.lor (Z.lor (Z.lor (Z.lor (Z.lor (Z.lor KEY_INFO_PAIRWISE (Z.shiftl 1 6)) (Z.shiftl 1 7)) KEY_INFO_MIC) KEY_INFO_SECURE) (Z.shiftl 1 12))
    KEY_DESCRIPTOR_VERSION_HMAC_SHA1_AES.
Definition group_info : Z :=
  Z.lor (Z.lor (Z.lor (Z.lor (Z.shiftl 1 7) KEY_INFO_MIC) KEY_INFO_SECURE) (Z.shiftl 1 12)) KEY_DESCRIPTOR_VERSION_HMAC_SHA1_AES.

Section Suite.
Context `{Sha1Suite}.

(** The access point's key frame with a wrapped group key, signed. *)
Definition ap_frame (ptk : list Z) (info replay : Z) (nonce : list Z) (index : Z) (key : list Z) : option (list Z) :=
  match wrap_gtk_for_test (kek ptk) index key (replicate 40 0) with
  | (Err _, _) => None
  | (Ok wn, wrapped) =>
      match build_eapol_key_with_data (replicate 160 0) info replay nonce (take wn wrapped) with
      | (_, Err _) => None
      | (out, Ok n) => match sign_frame ptk (take n out) with (f, Ok _) => Some f | (_, Err _) => None end
      end
  end.

Definition self_test : bool :=
  match parse_rsn psk_rsn, derive_pmk (Prelude.bytes "password") (Prelude.bytes "IEEE") with
  | Ok profile, Ok pmk =>
      let snonce := replicate 32 0x22 in
      let anonce := replicate 32 0x11 in
      let '(s, r) := begin profile test_ap snonce (supplicant_new test_station) in
      ok r &&
      match build_eapol_key (replicate EAPOL_KEY_FRAME_LEN 0) message1_info 1 anonce with
      | (_, Err _) => false
      | (msg1, Ok n1) =>
          let '(s, msg2, r) := receive_message1_build_message2 pmk (take n1 msg1) (replicate EAPOL_KEY_FRAME_LEN 0) s in
          ok r &&
          match derive_ptk pmk test_ap test_station anonce snonce with
          | Err _ => false
          | Ok ap_ptk =>
              match ap_frame ap_ptk message3_info 2 anonce 1 (replicate GTK_LEN 0x5a) with
              | None => false
              | Some msg3 =>
                  match receive_message3_build_message4 msg3 (replicate EAPOL_KEY_FRAME_LEN 0) s with
                  | (s, msg4, Ok n4) =>
                      bool_decide (s_state s = Completed) && bool_decide (fw_state (handshake s) = FwCompleted) && gtk_installed s &&
                      (gtk_install_count s =? 1) && ok (verify_eapol_mic (kck ap_ptk) (take n4 msg4)) &&
                      let '(s, retry, r) := receive_message3_build_message4 msg3 (replicate EAPOL_KEY_FRAME_LEN 0) s in
                      ok r && (gtk_install_count s =? 1) &&
                      let msg3 := <[99%nat := Z.lxor (byte_at msg3 99) 1]> msg3 in
                      let '(s, retry, r) := receive_message3_build_message4 msg3 retry s in
                      negb (ok r) && (gtk_install_count s =? 1)
                  | _ => false
                  end
              end
          end
      end
  | _, _ => false
  end.

Definition group_rekey_self_test : bool :=
  match parse_rsn psk_rsn, derive_pmk (Prelude.bytes "password") (Prelude.bytes "IEEE") with
  | Ok profile, Ok pmk =>
      let snonce := replicate 32 0x22 in
      let anonce := replicate 32 0x11 in
      let '(s, r) := begin profile test_ap snonce (supplicant_new test_station) in
      ok r &&
      match build_eapol_key (replicate EAPOL_KEY_FRAME_LEN 0) message1_info 1 anonce with
      | (_, Err _) => false
      | (m1, Ok n1) =>
          let '(s, m2, r) := receive_message1_build_message2 pmk (take n1 m1) (replicate EAPOL_KEY_FRAME_LEN 0) s in
          ok r &&
          match derive_ptk pmk test_ap test_station anonce snonce with
          | Err _ => false
          | Ok ptk =>
              match ap_frame ptk message3_info 2 anonce 1 (replicate GTK_LEN 0x5a),
                    ap_frame ptk group_info 3 (replicate 32 0) 2 (replicate GTK_LEN 0xa5),
                    ap_frame ptk group_info 3 (replicate 32 0) 3 (replicate GTK_LEN 0x3c) with
              | Some m3, Some g1, Some conflict =>
                  let '(s, m4, r) := receive_message3_build_message4 m3 (replicate EAPOL_KEY_FRAME_LEN 0) s in
                  ok r && bool_decide (s_gtk_index s = Some 1) && (gtk_install_count s =? 1) &&
                  match receive_group_key_message1_build_message2 g1 (replicate EAPOL_KEY_FRAME_LEN 0) s with
                  | (s, g2, Ok g2n) =>
                      bool_decide (s_gtk_index s = Some 2) && (gtk_install_count s =? 2) && bool_decide (s_state s = Completed) &&
                      ok (verify_eapol_mic (kck ptk) (take g2n g2)) &&
                      let '(s, g2, r) := receive_group_key_message1_build_message2 g1 g2 s in
                      ok r && (gtk_install_count s =? 2) &&
                      let old := splice 81 (replicate 16 0) (splice 9 (to_be_bytes 8 2) g1) in
                      let '(old, r) := sign_frame ptk old in
                      ok r &&
                      let '(s, g2, r) := receive_group_key_message1_build_message2 old g2 s in
                      negb (ok r) &&
                      let '(s, g2, r) := receive_group_key_message1_build_message2 conflict g2 s in
                      negb (ok r) && bool_decide (s_gtk_index s = Some 2) && (gtk_install_count s =? 2)
                  | _ => false
                  end
              | _, _, _ => false
              end
          end
      end
  | _, _ => false
  end.

End Suite.

(** A suite with digests of the right length. *)
Definition toy_digest (len : nat) (s : list Z) : list Z :=
  to_be_bytes len (foldl (λ h b, (h * 257 + b + 1) mod 2 ^ 160) 7 s mod 2 ^ (8 * Z.of_nat len)).
#[export] Instance toy_suite : Sha1Suite := {
  hmac_sha1 key msg := Some (toy_digest 20 (key ++ msg));
  pbkdf2_hmac_sha1 pass salt rounds len := toy_digest len (pass ++ salt ++ [rounds])
}.

Lemma toy_digest_block len s : AesProofs.block_of len (toy_digest len s).
Proof.
  split; [apply length_to_be_bytes|]. apply to_be_bytes_byte. apply Z.mod_pos_bound. apply Z.pow_pos_nonneg; lia.
Qed.

#[export] Instance toy_laws : Sha1Laws toy_suite.
Proof. split; intros; [eexists; split; [reflexivity|]|]; apply toy_digest_block. Qed.

Lemma wpa2_self_tests_pass : lifecycle_self_test = true ∧ self_test = true ∧ group_rekey_self_test = true.
Proof. split_and!; vm_compute; reflexivity. Qed.

Lemma crypto_self_test_passes :
  crypto_self_test (pbkdf2_hmac_sha1 (Prelude.bytes "password") (Prelude.bytes "IEEE") 4096 32) = true.
Proof. vm_compute. reflexivity. Qed.
End Wpa2Test.
