(* ===== verification/Wpa2Proofs.v ===== *)
(** * What the supplicant agrees on

    Frames are built as the standard lays them out and verified as they were signed; both
    ends derive the same keys; an honest handshake completes with the access point's keys;
    secrets exist only while a handshake or an association does; a group key is installed
    only from a verified frame with a new replay counter. *)
From S2P Require Import Prelude Block DeviceIo Bytes Aes GroupKeys Rsn Wpa2.
Import Block Io Bytes AesProofs GtkProofs.

Module Wpa2Proofs.
Import Crypto Rsn RsnProofs Gtk Entropy Wpa2 Wpa2Test.

(** ** Key derivation *)
Lemma lex_cmp_opp a b : lex_cmp b a = CompOpp (lex_cmp a b).
Proof.
  revert b. induction a as [|x a IH]; intros [|y b]; try done. cbn [lex_cmp]. rewrite (Z.compare_antisym x y).
  destruct (x ?= y); cbn [CompOpp]; [apply IH|done..].
Qed.

Lemma lex_cmp_eq a b : lex_cmp a b = Eq → a = b.
Proof.
  revert b. induction a as [|x a IH]; intros [|y b]; try done. cbn [lex_cmp]. destruct (Z.compare_spec x y) as [-> | |]; try done.
  intros E. by rewrite (IH _ E).
Qed.

Lemma min_max_sym a b : lexicographic_min_max a b = lexicographic_min_max b a.
Proof.
  unfold lexicographic_min_max. rewrite (lex_cmp_opp a b). destruct (lex_cmp a b) eqn:E; cbn [CompOpp]; [|done..].
  by rewrite (lex_cmp_eq _ _ E).
Qed.

Section Suite.
Context {S : Sha1Suite} {Laws : Sha1Laws S}.

(** Both ends derive the same key, whichever of the two they are. *)
Lemma derive_ptk_sym pmk aa spa an sn : derive_ptk pmk aa spa an sn = derive_ptk pmk spa aa sn an.
Proof using. unfold derive_ptk. by rewrite (min_max_sym aa), (min_max_sym an). Qed.

(** The loop writes a digest per turn and ends with the key filled. *)
Lemma expand_ptk_total fuel pmk context k generated counter :
  block_of 48 k → (generated ≤ 48)%nat → (48 - generated ≤ fuel)%nat →
  ∃ k', expand_ptk fuel pmk context k generated counter = Ok k' ∧ block_of 48 k'.
Proof using Laws.
  revert k generated counter. induction fuel as [|fuel IH]; intros k g c Hk Hg Hf; cbn [expand_ptk]; unfold PTK_LEN.
  - rewrite (proj2 (Nat.leb_le _ _)) by lia. eauto.
  - destruct (Nat.leb_spec 48 g); [eauto|]. destruct (hmac_digest pmk (EXPANSION_LABEL ++ [0] ++ context ++ [c])) as (d & -> & Ld & Bd).
    cbn [ok_or rbind]. destruct Hk as [Lk Bk]. rewrite Ld. apply IH; [|lia..]. split.
    + rewrite length_splice; rewrite ?length_take; lia.
    + apply Forall_splice; [by apply Forall_take|done].
Qed.

Lemma derive_ptk_total pmk aa spa an sn : ∃ k, derive_ptk pmk aa spa an sn = Ok k ∧ block_of 48 k.
Proof using Laws.
  unfold derive_ptk. destruct (lexicographic_min_max aa spa) as [m1 m2], (lexicographic_min_max an sn) as [n1 n2].
  apply expand_ptk_total; [|unfold PTK_LEN; lia..]. split; [done|by apply Forall_replicate].
Qed.

Lemma ptk_parts k : block_of 48 k → block (kck k) ∧ block (kek k) ∧ block (tk k).
Proof using.
  intros [L B]. unfold kck, kek, tk, KCK_LEN, KEK_LEN. split_and!; split; rewrite ?length_take, ?length_drop, ?length_slice; try lia;
    auto using Forall_take, Forall_drop, Forall_slice.
Qed.

(** ** Message integrity codes *)
Definition mic_of (key frame : list Z) : list Z := take 16 (default [] (hmac_sha1 key (splice 81 (replicate 16 0) frame))).

Lemma mic_of_block key frame : block (mic_of key frame).
Proof using Laws.
  unfold mic_of. destruct (hmac_digest key (splice 81 (replicate 16 0) frame)) as (d & -> & Ld & Bd). cbn [default from_option id].
  split; [rewrite length_take; lia|by apply Forall_take].
Qed.

Lemma compute_mic_spec key frame :
  length key = 16%nat → (99 ≤ length frame ≤ 256)%nat → compute_eapol_mic key frame = Ok (mic_of key frame).
Proof using Laws.
  intros Hk Hl. unfold compute_eapol_mic, KCK_LEN, MIC_START. rewrite Hk, (proj2 (Nat.ltb_ge _ (4 + 95))) by lia.
  rewrite (proj2 (Nat.ltb_ge 256 _)) by lia. change (4 + 77)%nat with 81%nat. cbn [Nat.eqb negb orb].
  rewrite splice_front by (rewrite ?length_replicate; lia).
  rewrite splice_prefix by (rewrite ?length_splice, ?length_replicate; rewrite ?length_replicate; lia).
  unfold mic_of. by destruct (hmac_digest key (splice 81 (replicate 16 0) frame)) as (d & -> & _).
Qed.

(** The code does not depend on the place where it is written. *)
Lemma mic_of_signed key frame m :
  (99 ≤ length frame)%nat → length m = 16%nat → mic_of key (splice 81 m frame) = mic_of key frame.
Proof using. intros Hl Hm. unfold mic_of. rewrite splice_splice; [done|by rewrite length_replicate|rewrite length_replicate; lia]. Qed.

Lemma verify_mic_spec key frame :
  length key = 16%nat → (99 ≤ length frame ≤ 256)%nat →
  verify_eapol_mic key frame = if bool_decide (mic_of key frame = slice 81 16 frame) then Ok tt else Err MicMismatch.
Proof using Laws.
  intros Hk Hl. unfold verify_eapol_mic. rewrite (proj2 (Nat.ltb_ge _ _)) by lia. rewrite compute_mic_spec by done. cbn [rbind].
  unfold MIC_START. rewrite get_Some by lia. done.
Qed.

Lemma verify_signed key frame :
  length key = 16%nat → (99 ≤ length frame ≤ 256)%nat → verify_eapol_mic key (splice 81 (mic_of key frame) frame) = Ok tt.
Proof using Laws.
  intros Hk Hl. destruct (mic_of_block key frame) as [Lm _]. rewrite verify_mic_spec by (done || rewrite length_splice; lia).
  rewrite mic_of_signed by (done || lia). rewrite slice_splice_eq by (done || lia). by rewrite bool_decide_true.
Qed.
End Suite.

(** ** Frames are laid out by the standard *)
Definition no_mic : list Z := replicate 16 0.

Lemma frame_fields info replay nonce data z :
  length nonce = 32%nat → length z = length data →
  let out := [2; EAPOL_TYPE_KEY] ++ to_be_bytes 2 (95 + Z.of_nat (length data)) ++ [EAPOL_KEY_DESCRIPTOR_RSN] ++ to_be_bytes 2 info ++
             [0; 0] ++ to_be_bytes 8 replay ++ replicate 32 0 ++ replicate 48 0 ++ [0; 0] ++ z in
  splice 99 data (splice 97 (to_be_bytes 2 (Z.of_nat (length data))) (splice 17 nonce out)) = eapol_frame info replay nonce no_mic data.
Proof.
  intros Hn Hz. cbv zeta.
  set (H := [2; EAPOL_TYPE_KEY] ++ to_be_bytes 2 (95 + Z.of_nat (length data)) ++ [EAPOL_KEY_DESCRIPTOR_RSN] ++ to_be_bytes 2 info ++
            [0; 0] ++ to_be_bytes 8 replay).
  replace ([2; EAPOL_TYPE_KEY] ++ _) with (H ++ replicate 32 0 ++ (replicate 48 0 ++ [0; 0] ++ z)) by (subst H; by rewrite <-!app_assoc).
  assert (LH : length H = 17%nat) by done.
  replace (eapol_frame info replay nonce no_mic data) with (H ++ nonce ++ replicate 48 0 ++ to_be_bytes 2 (Z.of_nat (length data)) ++ data).
  2:{ unfold eapol_frame, no_mic, H. rewrite <-!app_assoc. reflexivity. }
  clearbody H. rewrite splice_mid by (done || by rewrite Hn).
  rewrite (app_assoc nonce), (app_assoc H). rewrite splice_mid; [|by rewrite !length_app, LH, Hn|by rewrite length_to_be_bytes].
  set (d := to_be_bytes 2 (Z.of_nat (length data))). assert (Ld : length d = 2%nat) by apply length_to_be_bytes.
  rewrite (app_assoc _ d z). rewrite <-(app_nil_r z). rewrite splice_mid; [|by rewrite !length_app, LH, Hn, Ld|done].
  by rewrite app_nil_r, <-!app_assoc.
Qed.

Lemma build_with_data_spec out info replay nonce data :
  length nonce = 32%nat → 95 + Z.of_nat (length data) ≤ u16_max → (99 + length data ≤ length out)%nat →
  build_eapol_key_with_data out info replay nonce data =
    (splice 0 (eapol_frame info replay nonce no_mic data) out, Ok (99 + length data)%nat).
Proof.
  intros Hn Hd Ho. unfold build_eapol_key_with_data, EAPOL_HEADER_LEN, KEY_BODY_LEN, EAPOL_KEY_FIXED_LEN.
  replace (4 + (95 + length data))%nat with (99 + length data)%nat by lia.
  rewrite (proj2 (Nat.ltb_ge _ _)) by lia. rewrite !(proj2 (Z.ltb_ge _ _)) by lia. cbn [orb]. f_equal.
  replace (Z.of_nat (95 + length data)) with (95 + Z.of_nat (length data)) by lia.
  rewrite <-(frame_fields info replay nonce data (replicate (length data) 0) Hn) by apply length_replicate. cbv zeta.
  set (L := [2; EAPOL_TYPE_KEY] ++ _). assert (LL : length L = (99 + length data)%nat).
  { subst L. rewrite !length_app, !length_replicate, !length_to_be_bytes. cbn [length]. lia. }
  match goal with |- splice 99 _ (splice 97 _ (splice 17 _ ?x)) = _ => replace x with (splice 0 L out) end.
  - assert (Ld : length (to_be_bytes 2 (Z.of_nat (length data))) = 2%nat) by apply length_to_be_bytes.
    assert (L1 : length (splice 17 nonce L) = length L) by (apply length_splice; lia). set (d := to_be_bytes 2 (Z.of_nat (length data))) in *.
    assert (L2 : length (splice 97 d (splice 17 nonce L)) = length L) by (rewrite length_splice; lia).
    rewrite (splice_front 17) by lia. rewrite (splice_front 97) by lia. rewrite (splice_front 99) by lia. done.
  - unfold splice at 1 5. rewrite !take_0, !app_nil_l, LL, length_replicate. reflexivity.
Qed.

Lemma build_key_with_data out info replay nonce :
  length nonce = 32%nat → build_eapol_key out info replay nonce = build_eapol_key_with_data out info replay nonce [].
Proof.
  intros Hn. unfold build_eapol_key, build_eapol_key_with_data, EAPOL_KEY_FRAME_LEN. rewrite Nat.add_0_r.
  change (u16_max <? Z.of_nat KEY_BODY_LEN) with false. change (u16_max <? Z.of_nat (length [])) with false. rewrite !orb_false_r.
  destruct (_ <? _)%nat; [done|]. by rewrite splice_nil.
Qed.

Lemma put_mic info replay nonce m data :
  length nonce = 32%nat → length m = 16%nat → splice 81 m (eapol_frame info replay nonce no_mic data) = eapol_frame info replay nonce m data.
Proof.
  intros Hn Hm. unfold eapol_frame. rewrite !(app_assoc [2; _]), !(app_assoc _ [EAPOL_KEY_DESCRIPTOR_RSN]), !(app_assoc _ (to_be_bytes 2 info)).
  rewrite !(app_assoc _ [0; 0]), !(app_assoc _ (to_be_bytes 8 replay)), !(app_assoc _ nonce), !(app_assoc _ (replicate 32 0)).
  apply splice_mid; [|done]. rewrite !length_app, !length_to_be_bytes, Hn. reflexivity.
Qed.

Section Suite.
Context {S : Sha1Suite} {Laws : Sha1Laws S}.

Definition signed_frame (key : list Z) (info replay : Z) (nonce data : list Z) : list Z :=
  eapol_frame info replay nonce (mic_of key (eapol_frame info replay nonce no_mic data)) data.

Lemma length_signed_frame key info replay nonce data :
  length nonce = 32%nat → length (signed_frame key info replay nonce data) = (99 + length data)%nat.
Proof using Laws. intros Hn. apply length_eapol_frame; [done|]. apply mic_of_block. Qed.

Lemma verify_signed_frame key info replay nonce data :
  block key → length nonce = 32%nat → (length data ≤ 157)%nat → verify_eapol_mic key (signed_frame key info replay nonce data) = Ok tt.
Proof using Laws.
  intros [Lk _] Hn Hd. unfold signed_frame. pose proof (length_eapol_frame info replay nonce no_mic data Hn eq_refl) as HL.
  destruct (mic_of_block key (eapol_frame info replay nonce no_mic data)) as [Lm _].
  rewrite <-put_mic by done. apply verify_signed; [done|]. rewrite HL. lia.
Qed.

Lemma sign_spec k info replay nonce data :
  block_of 48 k → length nonce = 32%nat → (length data ≤ 157)%nat →
  compute_eapol_mic (kck k) (eapol_frame info replay nonce no_mic data) = Ok (mic_of (kck k) (eapol_frame info replay nonce no_mic data)) ∧
  splice 81 (mic_of (kck k) (eapol_frame info replay nonce no_mic data)) (eapol_frame info replay nonce no_mic data) =
    signed_frame (kck k) info replay nonce data.
Proof using Laws.
  intros Hk Hn Hd. destruct (ptk_parts k Hk) as ([Lk _] & _). pose proof (length_eapol_frame info replay nonce no_mic data Hn eq_refl) as HL.
  split; [apply compute_mic_spec; [done|rewrite HL; lia]|]. apply put_mic; [done|apply mic_of_block].
Qed.

Lemma build_signed_spec k info replay nonce out :
  block_of 48 k → length nonce = 32%nat → (99 ≤ length out)%nat →
  build_signed k info replay nonce out = (splice 0 (signed_frame (kck k) info replay nonce []) out, Ok 99%nat).
Proof using Laws.
  intros Hk Hn Ho. unfold build_signed. rewrite build_key_with_data by done.
  rewrite build_with_data_spec by (done || (cbn; lia)). cbn [length]. rewrite Nat.add_0_r.
  pose proof (length_eapol_frame info replay nonce no_mic [] Hn eq_refl) as HL. cbn [length] in HL.
  rewrite splice_prefix by lia. destruct (sign_spec k info replay nonce [] Hk Hn) as [-> E]; [cbn; lia|].
  rewrite splice_front by (destruct (mic_of_block (kck k) (eapol_frame info replay nonce no_mic [])); lia). by rewrite E.
Qed.

(** The access point's frame carries its group key. *)
Lemma ap_frame_spec k info replay nonce index key :
  block_of 48 k → length nonce = 32%nat → block_of 16 key →
  ∃ wrapped, ap_frame k info replay nonce index key = Some (signed_frame (kck k) info replay nonce wrapped) ∧
    length wrapped = 32%nat ∧ unwrap_gtk (kek k) wrapped = Ok (mkGtk key (Z.land (Z.land index 3) 3)).
Proof using Laws.
  intros Hk Hn [Lg Bg]. destruct (ptk_parts k Hk) as (_ & Hkek & _).
  assert (Lkde : length (gtk_kde index key) = 24%nat) by (unfold gtk_kde; rewrite !length_app, Lg; done).
  assert (Hw : wrappable (gtk_kde index key)) by (unfold wrappable; rewrite Lkde; split; [lia|done]).
  pose proof (gtk_kde_bytes index key Lg Bg) as Bkde.
  destruct (wrap_runs (kek k) (gtk_kde index key) (replicate 40 0) Hkek Hw Bkde) as [[[La Ba] [Lr Br]] Hwr]; [rewrite Lkde; cbn; lia|].
  destruct (wrap_runs (kek k) (gtk_kde index key) (replicate 72 0) Hkek Hw Bkde) as [_ Hwr2]; [rewrite Lkde; cbn; lia|].
  set (wrapped := (wrapping (kek k) (gtk_kde index key)).1 ++ (wrapping (kek k) (gtk_kde index key)).2) in *.
  assert (Lw : length wrapped = 32%nat) by (subst wrapped; rewrite length_app, La, Lr, Lkde; done).
  assert (Bw : Forall is_byte wrapped) by (apply Forall_app; by split).
  exists wrapped. split_and!; [|done|].
  - unfold ap_frame. unfold wrap_gtk_for_test. unfold written in Hwr.
    destruct (wrap_test (kek k) (gtk_kde index key) (replicate 40 0)) as [[wn|] w]; [|done]. injection Hwr as ->.
    rewrite build_with_data_spec; [|done|rewrite Lw; done|rewrite Lw; cbn; lia]. rewrite Lw.
    pose proof (length_eapol_frame info replay nonce no_mic wrapped Hn eq_refl) as HL. rewrite Lw in HL.
    rewrite splice_prefix by (rewrite ?length_replicate; lia). unfold sign_frame.
    destruct (sign_spec k info replay nonce wrapped Hk Hn) as [-> E]; [lia|]. by rewrite E.
  - by apply (unwrap_gtk_of_wrapped (kek k) index key wrapped (replicate 72 0)).
Qed.

(** ** The three steps of an honest handshake *)
Lemma index_bits index : Z.land (Z.land index 3) 3 = Z.land index 3.
Proof using. by rewrite <-Z.land_assoc. Qed.

Lemma message1_step s pmk an r1 k out :
  s_state s = AwaitingMessage1 → fw_state (handshake s) = FwAwaitingMessage1 → last_replay (handshake s) < r1 ≤ u64_max →
  0 ≤ last_replay (handshake s) → length an = 32%nat → length (s_nonce s) = 32%nat →
  derive_ptk pmk (authenticator s) (station s) an (s_nonce s) = Ok k → block_of 48 k → (99 ≤ length out)%nat →
  receive_message1_build_message2 pmk (eapol_frame message1_info r1 an no_mic []) out s =
    (mkSupplicant AwaitingMessage3 (mkFourWay FwAwaitingMessage3 r1 an) (station s) (authenticator s) (s_nonce s) (Some k) (group s)
       (completed_replay s),
     splice 0 (signed_frame (kck k) 0x10a r1 (s_nonce s) []) out, Ok 99%nat).
Proof using Laws.
  intros Hs Hf Hr H0 Ha Hn Hk Bk Ho. unfold receive_message1_build_message2. rewrite bool_decide_true by done. cbn [negb].
  rewrite parse_eapol_frame by (split_and!; (done || (cbn; lia))).
  cbn [key_info]. change (descriptor_version message1_info =? KEY_DESCRIPTOR_VERSION_HMAC_SHA1_AES) with true. cbn [negb].
  unfold fw_receive_message1. rewrite bool_decide_true by done. cbn [negb key_info e_replay e_nonce].
  change (negb (key_type_pairwise message1_info) || negb (ack message1_info) || info_mic message1_info || install message1_info) with false.
  rewrite (proj2 (Z.leb_gt _ _)) by lia. cbn [set_handshake authenticator station s_nonce anonce group completed_replay]. rewrite Hk.
  change (Z.lor (Z.lor KEY_INFO_PAIRWISE KEY_INFO_MIC) KEY_DESCRIPTOR_VERSION_HMAC_SHA1_AES) with 0x10a.
  by rewrite build_signed_spec.
Qed.

Lemma message3_step s an r1 r3 k data g out :
  s_state s = AwaitingMessage3 → handshake s = mkFourWay FwAwaitingMessage3 r1 an → 0 ≤ r1 ≤ r3 → r3 ≤ u64_max → length an = 32%nat →
  ptk s = Some k → block_of 48 k → installed (group s) = false → (1 ≤ length data ≤ 157)%nat → unwrap_gtk (kek k) data = Ok g →
  (99 ≤ length out)%nat →
  receive_message3_build_message4 (signed_frame (kck k) message3_info r3 an data) out s =
    (mkSupplicant Completed (mkFourWay FwCompleted r3 an) (station s) (authenticator s) (s_nonce s) (Some k)
       (mkStore (Some g) r3 true (saturating_add64 (installs (group s)) 1)) (Some r3),
     splice 0 (signed_frame (kck k) 0x30a r3 (replicate 32 0) []) out, Ok 99%nat).
Proof using Laws.
  intros Hs Hh Hr H3 Ha Hp Bk Hi Hd Hu Ho. pose proof (ptk_parts k Bk) as (Bkck & _ & _).
  unfold receive_message3_build_message4, signed_frame at 1.
  rewrite parse_eapol_frame by (split_and!; try done; try lia; [apply mic_of_block|unfold u16_max; lia]).
  cbn [key_info e_replay e_nonce key_data]. change (descriptor_version message3_info =? KEY_DESCRIPTOR_VERSION_HMAC_SHA1_AES) with true.
  cbn [negb]. rewrite Hs. cbn [bool_decide]. rewrite bool_decide_false, bool_decide_true by done. cbn [negb].
  unfold fw_receive_message3_metadata. rewrite Hh. cbn [fw_state last_replay key_info e_replay]. rewrite bool_decide_true by done. cbn [negb].
  change (negb (key_type_pairwise message3_info) || negb (ack message3_info) || negb (info_mic message3_info) ||
          negb (install message3_info) || negb (secure message3_info)) with false.
  rewrite (proj2 (Z.ltb_ge _ _)) by lia. cbv zeta. rewrite bool_decide_true by done.
  cbn [negb set_handshake ptk handshake anonce]. rewrite Hp. rewrite bool_decide_true by done. cbn [negb].
  fold (signed_frame (kck k) message3_info r3 an data). rewrite verify_signed_frame by (done || lia).
  change (encrypted_key_data message3_info) with true. cbn [negb orb]. rewrite bool_decide_false by (intros ->; cbn in Hd; lia).
  rewrite Hu. unfold install_verified. change (group (set_handshake s ?h)) with (group s). rewrite Hi. cbn [set_store handshake].
  unfold fw_mark_message3_verified. cbn [set_store set_handshake handshake fw_state last_replay anonce]. rewrite bool_decide_true by done. cbn [negb].
  rewrite (proj2 (Z.ltb_ge _ _)) by lia. cbv zeta. cbn [set_handshake station authenticator s_nonce group handshake set_store].
  unfold build_message4. rewrite build_signed_spec by (done || lia). reflexivity.
Qed.

Lemma set_store_same s : set_store s (group s) = s.
Proof using. by destruct s. Qed.

(** The same message 3 once more: answered, and nothing is installed. *)
Lemma message3_again s an r3 k data g out :
  s_state s = Completed → anonce (handshake s) = an → 0 ≤ r3 ≤ u64_max → length an = 32%nat → ptk s = Some k → block_of 48 k →
  completed_replay s = Some r3 → gtk (group s) = Some g → replay_counter (group s) = r3 → installed (group s) = true →
  (1 ≤ length data ≤ 157)%nat → unwrap_gtk (kek k) data = Ok g → (99 ≤ length out)%nat →
  receive_message3_build_message4 (signed_frame (kck k) message3_info r3 an data) out s =
    (s, splice 0 (signed_frame (kck k) 0x30a r3 (replicate 32 0) []) out, Ok 99%nat).
Proof using Laws.
  intros Hs Hh H3 Ha Hp Bk Hc Hg Hrc Hi Hd Hu Ho. pose proof (ptk_parts k Bk) as (Bkck & _ & _).
  unfold receive_message3_build_message4, signed_frame at 1.
  rewrite parse_eapol_frame by (split_and!; try done; try lia; [apply mic_of_block|unfold u16_max; lia]).
  cbn [key_info e_replay e_nonce key_data]. change (descriptor_version message3_info =? KEY_DESCRIPTOR_VERSION_HMAC_SHA1_AES) with true.
  cbn [negb]. rewrite Hs, bool_decide_true by done. unfold retransmitted_message3. rewrite Hp. cbn [e_replay e_nonce key_info key_data].
  rewrite !bool_decide_true by done. change (encrypted_key_data message3_info) with true. cbn [negb orb].
  rewrite bool_decide_false by (intros ->; cbn in Hd; lia). fold (signed_frame (kck k) message3_info r3 an data).
  rewrite verify_signed_frame by (done || lia). rewrite Hu. unfold install_verified. rewrite Hi, Hg, Hrc, Z.ltb_irrefl, !Z.eqb_refl.
  rewrite bool_decide_true by done. cbn [andb]. unfold build_message4. rewrite build_signed_spec by (done || lia).
  by rewrite set_store_same.
Qed.

(** C25. An honest 4-way handshake ends with the same keys at both ends, for all passphrases, addresses, nonces and
    group keys: from an idle supplicant, the access point's message 1 is answered with a
    message 2 that carries the supplicant's nonce and that verifies under the key which
    the access point derives (with the roles of the two ends exchanged), its message 3 is
    answered with a message 4 that verifies, and the supplicant is then complete with the
    access point's temporal key and group key; a message 3 that is sent again is answered
    and changes nothing. *)
Theorem handshake_agrees s profile auth sn an pmk r1 r3 index key out2 out4 :
  s_state s = Idle → fw_state (handshake s) = FwIdle → akm profile = Psk →
  length sn = 32%nat → length an = 32%nat → 0 < r1 ≤ r3 → r3 ≤ u64_max → block_of 16 key →
  (99 ≤ length out2)%nat → (99 ≤ length out4)%nat →
  ∃ k m1 m3 s1 s2 s3 m2 m4,
    derive_ptk pmk (station s) auth sn an = Ok k ∧
    build_eapol_key (replicate 99 0) message1_info r1 an = (m1, Ok 99%nat) ∧
    ap_frame k message3_info r3 an index key = Some m3 ∧
    begin profile auth sn s = (s1, Ok tt) ∧
    receive_message1_build_message2 pmk m1 out2 s1 = (s2, m2, Ok 99%nat) ∧
    (∃ e, parse_eapol_key (take 99 m2) = Ok e ∧ e_nonce e = sn) ∧ verify_eapol_mic (kck k) (take 99 m2) = Ok tt ∧
    receive_message3_build_message4 m3 out4 s2 = (s3, m4, Ok 99%nat) ∧ verify_eapol_mic (kck k) (take 99 m4) = Ok tt ∧
    s_state s3 = Completed ∧ temporal_key s3 = Some (tk k) ∧ group_temporal_key s3 = Some (Z.land index 3, key) ∧
    receive_message3_build_message4 m3 out4 s3 = (s3, m4, Ok 99%nat).
Proof using Laws.
  intros Hs Hf Hakm Lsn Lan Hr H3 Bg Ho2 Ho4. destruct (derive_ptk_total pmk (station s) auth sn an) as (k & Ek & Bk).
  destruct (ap_frame_spec k message3_info r3 an index key Bk Lan Bg) as (data & E3 & Ld & Hu). rewrite index_bits in Hu.
  pose proof (ptk_parts k Bk) as (Bkck & _ & _). destruct profile as [[] [] a c]. cbn in Hakm. subst a.
  set (s1 := mkSupplicant AwaitingMessage1 (mkFourWay FwAwaitingMessage1 0 (replicate 32 0)) (station s) auth sn None (clear (group s)) None).
  assert (E1 : begin (mkProfile Ccmp128 Ccmp128 Psk c) auth sn s = (s1, Ok tt)).
  { unfold begin, fw_begin. rewrite Hs, Hf. reflexivity. }
  assert (E2 := message1_step s1 pmk an r1 k out2 eq_refl eq_refl ltac:(cbn; lia) ltac:(cbn; lia) Lan Lsn).
  rewrite derive_ptk_sym in Ek. specialize (E2 Ek Bk Ho2).
  set (s2 := mkSupplicant AwaitingMessage3 _ _ _ _ _ _ _) in E2.
  assert (E4 := message3_step s2 an r1 r3 k data (mkGtk key (Z.land index 3)) out4 eq_refl eq_refl ltac:(lia) ltac:(lia) Lan eq_refl Bk
                  eq_refl ltac:(lia) Hu Ho4).
  set (s3 := mkSupplicant Completed _ _ _ _ _ _ _) in E4.
  assert (E5 := message3_again s3 an r3 k data (mkGtk key (Z.land index 3)) out4 eq_refl eq_refl ltac:(lia) Lan eq_refl Bk
                  eq_refl eq_refl eq_refl eq_refl ltac:(lia) Hu Ho4).
  exists k, (eapol_frame message1_info r1 an no_mic []), (signed_frame (kck k) message3_info r3 an data), s1, s2, s3.
  eexists _, _. rewrite derive_ptk_sym.
  assert (Ht : ∀ info r n out, length n = 32%nat → (99 ≤ length out)%nat →
    take 99 (splice 0 (signed_frame (kck k) info r n []) out) = signed_frame (kck k) info r n []).
  { intros info r n out Hn Hout. pose proof (length_signed_frame (kck k) info r n [] Hn) as HL. cbn [length] in HL. apply splice_prefix; lia. }
  split_and!; try done.
  - rewrite build_key_with_data, build_with_data_spec by (done || (cbn; lia)). cbn [length]. rewrite Nat.add_0_r. f_equal.
    unfold splice. rewrite take_0, app_nil_l, length_eapol_frame by done. cbn [length]. apply app_nil_r.
  - rewrite Ht by done. eexists. split; [apply parse_eapol_frame|done]. split_and!; try done; cbn [length]; try lia. apply mic_of_block.
  - rewrite Ht by done. apply verify_signed_frame; try done. cbn. lia.
  - rewrite Ht by done. apply verify_signed_frame; try done. cbn. lia.
Qed.
End Suite.
End Wpa2Proofs.

(** * Safety of the supplicant

    The supplicant as a machine that takes the calls of its owner and the frames of the
    air in any order: its invariant, and where its keys come from. *)
Import Block Io Bytes AesProofs GtkProofs.

Module Wpa2Safety.
Import Crypto Rsn RsnProofs Gtk Entropy Wpa2 Wpa2Test Wpa2Proofs.

Section Suite.
Context {S : Sha1Suite}.

(** ** The calls *)
Inductive call :=
  | CBegin (profile : RsnProfile) (auth snonce : list Z)
  | CBeginSecure (profile : RsnProfile) (auth : list Z) (p : Pool)
  | CMessage1 (pmk frame out : list Z)
  | CMessage3 (frame out : list Z)
  | CGroup (frame out : list Z)
  | CReset
  | CFail.

Definition perform (c : call) (s : Wpa2Supplicant) : Wpa2Supplicant :=
  match c with
  | CBegin profile auth sn => (begin profile auth sn s).1
  | CBeginSecure profile auth p => (begin_with_secure_nonce profile auth p s).1.2
  | CMessage1 pmk frame out => (receive_message1_build_message2 pmk frame out s).1.1
  | CMessage3 frame out => (receive_message3_build_message4 frame out s).1.1
  | CGroup frame out => (receive_group_key_message1_build_message2 frame out s).1.1
  | CReset => reset s
  | CFail => fail s
  end.

(** ** The invariant *)
(** No secret is held. *)
Definition bare (s : Wpa2Supplicant) : Prop :=
  ptk s = None ∧ gtk (group s) = None ∧ installed (group s) = false ∧ completed_replay s = None.

(** The pairwise key is confirmed and a group key is in place. *)
Definition keyed (s : Wpa2Supplicant) : Prop :=
  is_Some (ptk s) ∧ is_Some (gtk (group s)) ∧ installed (group s) = true ∧ fw_state (handshake s) = FwCompleted.

Definition supplicant_inv (s : Wpa2Supplicant) : Prop :=
  match s_state s with
  | Idle | AwaitingMessage1 | Failed => bare s
  | AwaitingMessage3 =>
      completed_replay s = None ∧
      (keyed s ∨ is_Some (ptk s) ∧ gtk (group s) = None ∧ installed (group s) = false ∧ fw_state (handshake s) = FwAwaitingMessage3)
  | Completed => keyed s ∧ ∃ r, completed_replay s = Some r ∧ r ≤ replay_counter (group s)
  end.

Lemma supplicant_inv_new station : supplicant_inv (supplicant_new station).
Proof using. done. Qed.

Lemma inv_fail s : supplicant_inv (fail s).
Proof using. done. Qed.

Lemma inv_reset s : supplicant_inv (reset s).
Proof using. done. Qed.

Lemma inv_begin profile auth sn s : supplicant_inv s → supplicant_inv (begin profile auth sn s).1.
Proof using.
  intros Hs. unfold begin. destruct (bool_decide_reflect (s_state s = Idle)) as [Ei|]; [|done]. cbn [negb].
  destruct (fw_begin profile (handshake s)) as [h [[]|e]]; [done|]. unfold supplicant_inv in *. cbn. rewrite Ei in *. done.
Qed.

Lemma inv_message1 pmk frame out s : supplicant_inv s → supplicant_inv (receive_message1_build_message2 pmk frame out s).1.1.
Proof using.
  intros Hs. unfold receive_message1_build_message2. destruct (bool_decide_reflect (s_state s = AwaitingMessage1)) as [Ei|]; [|done]. cbn [negb].
  destruct (parse_eapol_key frame) as [key|]; [|done]. destruct (negb _); [apply inv_fail|].
  unfold supplicant_inv in Hs. rewrite Ei in Hs. destruct Hs as (Hp & Hg & Hi & Hc).
  destruct (fw_receive_message1 key (handshake s)) as [h [[]|e]] eqn:Ef.
  - assert (Hh : fw_state h = FwAwaitingMessage3) by (unfold fw_receive_message1 in Ef; repeat case_match; simplify_eq; done).
    destruct (derive_ptk _ _ _ _ _) as [k|]; [destruct (build_signed _ _ _ _ _) as [o [n|]]|];
      cbn [fst snd]; unfold supplicant_inv; cbn; rewrite ?Ei; try done.
    split; [done|]. right. split_and!; eauto.
  - cbn. unfold supplicant_inv. cbn. rewrite Ei. done.
Qed.

(** Installing into a store that has a key keeps a key in it and never lowers its counter. *)
Lemma install_keeps replay g st r st' :
  install_verified replay g st = (r, st') → is_Some (gtk st) → installed st = true →
  is_Some (gtk st') ∧ installed st' = true ∧ replay_counter st ≤ replay_counter st'.
Proof using.
  intros E Hg Hi. pose proof (install_verified_spec _ _ _ _ _ E) as H. destruct r as [[|]|].
  - destruct H as (-> & -> & -> & Hlt). split_and!; eauto. specialize (Hlt Hi). lia.
  - destruct H as (-> & _). done.
  - destruct H as (-> & _). done.
Qed.

Lemma inv_store s st :
  supplicant_inv s → s_state s = Completed → is_Some (gtk st) → installed st = true → replay_counter (group s) ≤ replay_counter st →
  supplicant_inv (set_store s st).
Proof using.
  unfold supplicant_inv. cbn. intros Hs Ec Hg Hi Hr. rewrite Ec in *. destruct Hs as [(Hp & _ & _ & Hf) (r & Hc & Hle)].
  split; [done|]. exists r. split; [done|]. cbn. lia.
Qed.

Lemma inv_retransmitted key frame out s :
  supplicant_inv s → s_state s = Completed → supplicant_inv (retransmitted_message3 key frame out s).1.1.
Proof using.
  intros Hs Ec. pose proof Hs as Hk. unfold supplicant_inv in Hk. rewrite Ec in Hk. destruct Hk as [(_ & Hg & Hi & _) _].
  unfold retransmitted_message3. destruct (ptk s) as [k|]; [|done]. destruct (_ || _); [done|].
  destruct (verify_eapol_mic _ _); [|done]. destruct (unwrap_gtk _ _) as [g|]; [|done].
  destruct (install_verified (e_replay key) g (group s)) as [r st] eqn:E.
  destruct (install_keeps _ _ _ _ _ E Hg Hi) as (H1 & H2 & H3).
  destruct r as [[|]|]; [|destruct (build_message4 _ _ _) as [o r']|]; by apply inv_store.
Qed.

Lemma inv_message3 frame out s : supplicant_inv s → supplicant_inv (receive_message3_build_message4 frame out s).1.1.
Proof using.
  intros Hs. unfold receive_message3_build_message4. destruct (parse_eapol_key frame) as [key|]; [|done].
  destruct (negb _); [apply inv_fail|]. destruct (bool_decide_reflect (s_state s = Completed)) as [|Hnc]; [by apply inv_retransmitted|].
  destruct (bool_decide_reflect (s_state s = AwaitingMessage3)) as [Ea|]; [|done]. cbn [negb].
  destruct (fw_receive_message3_metadata key (handshake s)) as [h [[]|e]] eqn:Ef; [apply inv_fail|]. cbv zeta.
  destruct (bool_decide_reflect (e = CryptoNotVerified)) as [->|]; [|apply inv_fail]. cbn [negb].
  assert (Hh : h = handshake s ∧ fw_state h = FwAwaitingMessage3) by (unfold fw_receive_message3_metadata in Ef; repeat case_match; simplify_eq; reflect_bools; done).
  destruct Hh as [-> Hh]. unfold supplicant_inv in Hs. rewrite Ea in Hs. destruct Hs as [Hc [(_ & _ & _ & Hf)|(Hp & Hg & Hi & _)]]; [congruence|].
  cbn [ptk set_handshake]. destruct (ptk s) as [k|] eqn:Ek; [|apply inv_fail]. destruct (negb _); [apply inv_fail|].
  destruct (verify_eapol_mic _ _); [|apply inv_fail]. destruct (_ || _); [apply inv_fail|].
  destruct (unwrap_gtk _ _) as [g|]; [|apply inv_fail]. cbn [group set_handshake].
  destruct (install_verified (e_replay key) g (group s)) as [[[|]|] st] eqn:E; [|apply inv_fail..].
  pose proof (install_verified_spec _ _ _ _ _ E) as (H1 & H2 & H3 & _).
  destruct (fw_mark_message3_verified _ _) as [h [[]|e]] eqn:Em; [|apply inv_fail].
  assert (Hh' : fw_state h = FwCompleted) by (unfold fw_mark_message3_verified in Em; repeat case_match; simplify_eq; done).
  destruct (build_message4 _ _ _) as [o [len|]]; cbn [fst snd]; unfold supplicant_inv, keyed; cbn; rewrite ?Ea, ?H1, ?H2, ?Ek.
  - split; [|exists (e_replay key); split; [done|lia]]. split_and!; eauto.
  - split; [done|]. left. split_and!; eauto.
Qed.

Lemma inv_group frame out s : supplicant_inv s → supplicant_inv (receive_group_key_message1_build_message2 frame out s).1.1.
Proof using.
  intros Hs. unfold receive_group_key_message1_build_message2. destruct (bool_decide_reflect (s_state s = Completed)) as [Ec|]; [|done].
  cbn [negb]. pose proof Hs as Hk. unfold supplicant_inv in Hk. rewrite Ec in Hk. destruct Hk as [(_ & Hg & Hi & _) _].
  destruct (parse_eapol_key frame) as [key|]; [|done]. cbv zeta. destruct (negb _); [done|]. destruct (_ || _); [done|].
  destruct (ptk s) as [k|]; [|done]. destruct (verify_eapol_mic _ _); [|done]. destruct (unwrap_gtk _ _) as [g|]; [|done].
  destruct (install_verified (e_replay key) g (group s)) as [r st] eqn:E.
  destruct (install_keeps _ _ _ _ _ E Hg Hi) as (H1 & H2 & H3).
  destruct r as [o|]; [destruct (build_group_key_message2 _ _ _) as [o' r']|]; by apply inv_store.
Qed.

Lemma inv_perform c s : supplicant_inv s → supplicant_inv (perform c s).
Proof using.
  intros Hs. destruct c; cbn [perform].
  - by apply inv_begin.
  - unfold begin_with_secure_nonce. destruct (snonce p) as [p' [n|e]]; [|done].
    pose proof (inv_begin profile auth n s Hs) as H. by destruct (begin profile auth n s) as [s' r].
  - by apply inv_message1.
  - by apply inv_message3.
  - by apply inv_group.
  - apply inv_reset.
  - apply inv_fail.
Qed.

(** C29. Secrets are confined: whatever calls and frames reach a new supplicant in whatever order, it
    holds a pairwise key only between messages 2 and 3 of a handshake and in a completed
    association, a group key only after a message 3, and in every other state (idle,
    waiting for message 1, failed) no key at all. *)
Theorem supplicant_keys_confined st cs :
  let s := foldl (λ s c, perform c s) (supplicant_new st) cs in
  supplicant_inv s ∧ (s_state s ∈ [Idle; AwaitingMessage1; Failed] → temporal_key s = None ∧ group_temporal_key s = None) ∧
  (s_state s = Completed → is_Some (temporal_key s) ∧ is_Some (group_temporal_key s)).
Proof using.
  cbv zeta. assert (H : supplicant_inv (foldl (λ s c, perform c s) (supplicant_new st) cs)).
  { generalize (supplicant_inv_new st). generalize (supplicant_new st). induction cs as [|c cs IH]; intros s Hs; [done|]. cbn [foldl].
    by apply IH, inv_perform. }
  revert H. generalize (foldl (λ s c, perform c s) (supplicant_new st) cs). intros s Hs. split; [done|].
  unfold supplicant_inv in Hs. unfold temporal_key, group_temporal_key. split.
  - intros Hin. assert (Hb : bare s) by (rewrite !elem_of_cons in Hin; destruct (s_state s); set_solver).
    destruct Hb as (-> & -> & _). done.
  - intros E. rewrite E in Hs. destruct Hs as [((k & ->) & (g & ->) & _) _]. eauto.
Qed.

(** ** Where group keys come from *)
(** What a call can do to the store: nothing, wipe it, or offer it the key of a verified frame. *)
Definition offered (s : Wpa2Supplicant) (frame : list Z) (st : GroupKeyStore) : Prop :=
  ∃ key k g r, parse_eapol_key frame = Ok key ∧ ptk s = Some k ∧ verify_eapol_mic (kck k) frame = Ok tt ∧
    unwrap_gtk (kek k) (key_data key) = Ok g ∧ install_verified (e_replay key) g (group s) = (r, st).

Definition store_step (s : Wpa2Supplicant) (frame : list Z) (st : GroupKeyStore) : Prop :=
  st = group s ∨ gtk st = None ∨ offered s frame st.

Lemma message3_store frame out s : store_step s frame (group (receive_message3_build_message4 frame out s).1.1).
Proof using.
  unfold receive_message3_build_message4. destruct (parse_eapol_key frame) as [key|] eqn:Ep; [|by left]. destruct (negb _); [by right; left|].
  destruct (bool_decide (s_state s = Completed)).
  - unfold retransmitted_message3. destruct (ptk s) as [k|] eqn:Ek; [|by left]. destruct (_ || _); [by left|].
    destruct (verify_eapol_mic _ _) as [[]|] eqn:Ev; [|by left]. destruct (unwrap_gtk _ _) as [g|] eqn:Eu; [|by left].
    destruct (install_verified (e_replay key) g (group s)) as [r st] eqn:Ei. right. right.
    exists key, k, g, r. destruct r as [[|]|]; [|destruct (build_message4 _ _ _)|]; done.
  - destruct (negb _); [by left|]. destruct (fw_receive_message3_metadata _ _) as [h [[]|e]]; [by right; left|]. cbv zeta.
    destruct (negb _); [by right; left|]. cbn [ptk set_handshake]. destruct (ptk s) as [k|] eqn:Ek; [|by right; left].
    destruct (negb _); [by right; left|]. destruct (verify_eapol_mic _ _) as [[]|] eqn:Ev; [|by right; left]. destruct (_ || _); [by right; left|].
    destruct (unwrap_gtk _ _) as [g|] eqn:Eu; [|by right; left]. cbn [group set_handshake].
    destruct (install_verified (e_replay key) g (group s)) as [r st] eqn:Ei. destruct r as [[|]|]; [|by right; left..].
    destruct (fw_mark_message3_verified _ _) as [h' [[]|e']]; [|by right; left]. right. right.
    exists key, k, g, (Ok Installed). destruct (build_message4 _ _ _) as [o [len|]]; done.
Qed.

Lemma group_store frame out s : store_step s frame (group (receive_group_key_message1_build_message2 frame out s).1.1).
Proof using.
  unfold receive_group_key_message1_build_message2. destruct (negb _); [by left|]. destruct (parse_eapol_key frame) as [key|] eqn:Ep; [|by left].
  cbv zeta. destruct (negb _); [by left|]. destruct (_ || _); [by left|]. destruct (ptk s) as [k|] eqn:Ek; [|by left].
  destruct (verify_eapol_mic _ _) as [[]|] eqn:Ev; [|by left]. destruct (unwrap_gtk _ _) as [g|] eqn:Eu; [|by left].
  destruct (install_verified (e_replay key) g (group s)) as [r st] eqn:Ei. right. right.
  exists key, k, g, r. destruct r as [o|]; [destruct (build_group_key_message2 _ _ _)|]; done.
Qed.

Lemma other_store c s :
  match c with CMessage3 _ _ | CGroup _ _ => True | _ => group (perform c s) = group s ∨ gtk (group (perform c s)) = None end.
Proof using.
  assert (Hb : ∀ profile auth n, group (begin profile auth n s).1 = group s ∨ gtk (group (begin profile auth n s).1) = None).
  { intros. unfold begin. destruct (negb _); [by left|]. destruct (fw_begin _ _) as [h [[]|e]]; [by right|by left]. }
  destruct c; cbn [perform]; try done; try (by right).
  - unfold begin_with_secure_nonce. destruct (snonce p) as [p' [n|e]]; [|by left].
    specialize (Hb profile auth n). by destruct (begin profile auth n s).
  - unfold receive_message1_build_message2. repeat case_match; simplify_eq/=; try (by left); by right.
Qed.

(** C30. Where a group key comes from: in every state, if a call leaves a group key in a store that it changed,
    then the call brought a frame whose integrity code verifies under the pairwise key in
    force, the key is the one wrapped in that frame, and its counter is the frame's, which
    is above the counter of the key that it replaces if one is installed. A call that wipes
    the store (a reset, a failure, the start of another association) forgets the counter
    with the key. *)
Theorem group_key_origin c s g :
  group (perform c s) ≠ group s → gtk (group (perform c s)) = Some g →
  ∃ frame out key k, (c = CMessage3 frame out ∨ c = CGroup frame out) ∧ parse_eapol_key frame = Ok key ∧ ptk s = Some k ∧
    verify_eapol_mic (kck k) frame = Ok tt ∧ unwrap_gtk (kek k) (key_data key) = Ok g ∧
    replay_counter (group (perform c s)) = e_replay key ∧ (installed (group s) = true → replay_counter (group s) < e_replay key).
Proof using.
  intros Hne Hg. assert (H : ∃ frame out, (c = CMessage3 frame out ∨ c = CGroup frame out) ∧ store_step s frame (group (perform c s))).
  { pose proof (other_store c s) as Ho. destruct c; try (destruct Ho as [Ho|Ho]; congruence).
    - exists frame, out. split; [by left|apply message3_store].
    - exists frame, out. split; [by right|apply group_store]. }
  destruct H as (frame & out & Hc & [H|[H|(key & k & g' & r & Hp & Hk & Hv & Hu & Hi)]]); [done|congruence|].
  exists frame, out, key, k. pose proof (install_verified_spec _ _ _ _ _ Hi) as Hs. destruct r as [[|]|].
  - destruct Hs as (H1 & H2 & H3 & H4). rewrite H1 in Hg. simplify_eq. by split_and!.
  - by destruct Hs as [? _].
  - by destruct Hs as [? _].
Qed.

(** ** What frames that nobody signed can do *)
(** A key frame with another descriptor version ends every association, completed ones
    included, before its integrity code is looked at. *)
Lemma unverified_frame_fails frame out s key :
  parse_eapol_key frame = Ok key → descriptor_version (key_info key) ≠ 2 → perform (CMessage3 frame out) s = fail s.
Proof using.
  intros Hp Hv. cbn [perform]. unfold receive_message3_build_message4. rewrite Hp.
  unfold KEY_DESCRIPTOR_VERSION_HMAC_SHA1_AES. by rewrite (proj2 (Z.eqb_neq _ _)) by done.
Qed.

(** A message 1 with wrong flags leaves the supplicant waiting for message 1 with a failed
    handshake inside; from then on every message 1 is refused. *)
Lemma spoiled_handshake_sticks frame out pmk s key :
  s_state s = AwaitingMessage1 → fw_state (handshake s) = FwAwaitingMessage1 → parse_eapol_key frame = Ok key →
  descriptor_version (key_info key) = 2 → info_mic (key_info key) = true →
  let s' := perform (CMessage1 pmk frame out) s in
  s_state s' = AwaitingMessage1 ∧ ∀ pmk2 frame2 out2 key2,
    parse_eapol_key frame2 = Ok key2 → descriptor_version (key_info key2) = 2 →
    receive_message1_build_message2 pmk2 frame2 out2 s' = (s', out2, Err (Handshake FwWrongState)).
Proof using.
  intros Hs Hf Hp Hv Hm. assert (E : perform (CMessage1 pmk frame out) s = set_handshake s (fw_with (handshake s) FwFailed)).
  { cbn [perform]. unfold receive_message1_build_message2. rewrite bool_decide_true, Hp by done. cbn [negb]. rewrite Hv. cbn.
    unfold fw_receive_message1. rewrite bool_decide_true, Hm by done. cbn [negb]. by rewrite orb_true_r. }
  cbv zeta. rewrite E. split; [done|]. intros pmk2 frame2 out2 key2 Hp2 Hv2. unfold receive_message1_build_message2.
  rewrite bool_decide_true, Hp2 by done. cbn [negb]. rewrite Hv2. cbn. unfold fw_receive_message1. by rewrite bool_decide_false by done.
Qed.

(** A message 1 that is sent again because message 2 was lost is refused. *)
Lemma message1_not_answered_again pmk frame out s :
  s_state s = AwaitingMessage3 → receive_message1_build_message2 pmk frame out s = (s, out, Err WrongState).
Proof using. intros Hs. unfold receive_message1_build_message2. by rewrite bool_decide_false by (rewrite Hs; done). Qed.
End Suite.

(** ** A handshake over the concrete suite *)
Definition toy_idle : Wpa2Supplicant := supplicant_new test_station.
Definition toy_profile : RsnProfile := mkProfile Ccmp128 Ccmp128 Psk 0.
Definition toy_sn : list Z := replicate 32 0x22.
Definition toy_an : list Z := replicate 32 0x11.
Definition toy_pmk : list Z := replicate 32 0x33.
Definition toy_gtk : list Z := replicate 16 0x5a.

Lemma handshake_agrees_witness :
  ∃ k m1 m3 s1 s2 s3 m2 m4,
    derive_ptk toy_pmk test_station test_ap toy_sn toy_an = Ok k ∧
    build_eapol_key (replicate 99 0) message1_info 1 toy_an = (m1, Ok 99%nat) ∧
    ap_frame k message3_info 2 toy_an 1 toy_gtk = Some m3 ∧
    begin toy_profile test_ap toy_sn toy_idle = (s1, Ok tt) ∧
    receive_message1_build_message2 toy_pmk m1 (replicate 99 0) s1 = (s2, m2, Ok 99%nat) ∧
    (∃ e, parse_eapol_key (take 99 m2) = Ok e ∧ e_nonce e = toy_sn) ∧ verify_eapol_mic (kck k) (take 99 m2) = Ok tt ∧
    receive_message3_build_message4 m3 (replicate 99 0) s2 = (s3, m4, Ok 99%nat) ∧ verify_eapol_mic (kck k) (take 99 m4) = Ok tt ∧
    s_state s3 = Completed ∧ temporal_key s3 = Some (tk k) ∧ group_temporal_key s3 = Some (Z.land 1 3, toy_gtk) ∧
    receive_message3_build_message4 m3 (replicate 99 0) s3 = (s3, m4, Ok 99%nat).
Proof.
  apply (handshake_agrees (S := toy_suite) (Laws := toy_laws) toy_idle toy_profile test_ap toy_sn toy_an toy_pmk 1 2 1 toy_gtk
           (replicate 99 0) (replicate 99 0)); try reflexivity; try lia; try (cbn; lia).
  1: { unfold u64_max. lia. }
  split; [reflexivity|]. apply (bool_decide_unpack _). vm_compute. exact I.
Defined.

Definition toy_key : list Z :=
  match derive_ptk toy_pmk test_station test_ap toy_sn toy_an with Ok k => k | Err _ => [] end.
Definition toy_m1 : list Z := (build_eapol_key (replicate 99 0) message1_info 1 toy_an).1.
Definition toy_m3 : list Z := default [] (ap_frame toy_key message3_info 2 toy_an 1 toy_gtk).
Definition toy_waiting : Wpa2Supplicant :=
  perform (CMessage1 toy_pmk toy_m1 (replicate 99 0)) (perform (CBegin toy_profile test_ap toy_sn) toy_idle).

Lemma toy_installs : gtk (group (perform (CMessage3 toy_m3 (replicate 99 0)) toy_waiting)) = Some (mkGtk toy_gtk 1).
Proof. vm_compute. reflexivity. Qed.
Lemma toy_not_yet : gtk (group toy_waiting) = None.
Proof. vm_compute. reflexivity. Qed.

Lemma group_key_origin_witness :
  ∃ frame out key k, (CMessage3 toy_m3 (replicate 99 0) = CMessage3 frame out ∨ CMessage3 toy_m3 (replicate 99 0) = CGroup frame out) ∧
    parse_eapol_key frame = Ok key ∧ ptk toy_waiting = Some k ∧
    verify_eapol_mic (kck k) frame = Ok tt ∧ unwrap_gtk (kek k) (key_data key) = Ok (mkGtk toy_gtk 1) ∧
    replay_counter (group (perform (CMessage3 toy_m3 (replicate 99 0)) toy_waiting)) = e_replay key ∧
    (installed (group toy_waiting) = true → replay_counter (group toy_waiting) < e_replay key).
Proof.
  apply (group_key_origin (CMessage3 toy_m3 (replicate 99 0)) toy_waiting (mkGtk toy_gtk 1)).
  - intros E. pose proof toy_installs as H. rewrite E, toy_not_yet in H. discriminate H.
  - exact toy_installs.
Defined.
End Wpa2Safety.
