(* ===== verification/WifiRecovery.v ===== *)
(** * Connection life cycle and device queues
    (kernel/src/wifi_recovery.rs, kernel/src/wifi_backend.rs)

    The controller of connection attempts, with bounded retries, back-off and epochs, and
    the virtual device with its two bounded rings of frames. *)
From S2P Require Import Prelude Block DeviceIo Bytes.
Import Block Io Bytes.

Module Recovery.

Inductive RecoveryState := Idle | Connecting | Connected | Backoff | Exhausted.

#[export] Instance RecoveryState_eq_dec : EqDecision RecoveryState.
Proof. solve_decision. Defined.

Inductive RecoveryError := WrongState | RetryExhausted | StaleEpoch.

#[export] Instance RecoveryError_eq_dec : EqDecision RecoveryError.
Proof. solve_decision. Defined.

Record RecoveryController := mkRecovery {
  state : RecoveryState;
  epoch : Z;
  attempts : Z;
  max_attempts : Z;
  backoff_ticks : Z;
  deadline_tick : Z;
  disconnects : Z;
  timeouts : Z;
  failures : Z
}.

Record RecoveryStats := mkRecoveryStats {
  st_epoch : Z;
  st_attempts : Z;
  st_disconnects : Z;
  st_timeouts : Z;
  st_failures : Z
}.

Definition recovery_new (max_attempts : Z) : RecoveryController := mkRecovery Idle 1 0 max_attempts 0 0 0 0 0.
Definition stats (c : RecoveryController) : RecoveryStats :=
  mkRecoveryStats (epoch c) (attempts c) (disconnects c) (timeouts c) (failures c).

Definition with_state (c : RecoveryController) (s : RecoveryState) : RecoveryController :=
  mkRecovery s (epoch c) (attempts c) (max_attempts c) (backoff_ticks c) (deadline_tick c) (disconnects c) (timeouts c) (failures c).

(** [epoch.wrapping_add(1)], with 0 skipped. *)
Definition bump (epoch : Z) : Z :=
  let e := (epoch + 1) mod (u32_max + 1) in if e =? 0 then 1 else e.
Definition saturating_add32 (x y : Z) : Z := Z.min (x + y) u32_max.

Definition begin_connect (now_tick timeout_ticks : Z) (c : RecoveryController) : RecoveryController * result Z RecoveryError :=
  if negb (bool_decide (state c = Idle) || bool_decide (state c = Backoff)) then (c, Err WrongState)
  else if max_attempts c <=? attempts c then (with_state c Exhausted, Err RetryExhausted)
  else
  (mkRecovery Connecting (epoch c) (Z.min (attempts c + 1) u8_max) (max_attempts c) (backoff_ticks c)
     (saturating_add64 now_tick timeout_ticks) (disconnects c) (timeouts c) (failures c), Ok (epoch c)).

Definition require_epoch (e : Z) (c : RecoveryController) : result () RecoveryError :=
  if negb (e =? epoch c) then Err StaleEpoch else Ok tt.

Definition connected (e : Z) (c : RecoveryController) : RecoveryController * result () RecoveryError :=
  match require_epoch e c with
  | Err err => (c, Err err)
  | Ok _ =>
      if negb (bool_decide (state c = Connecting)) then (c, Err WrongState)
      else (mkRecovery Connected (epoch c) 0 (max_attempts c) 0 0 (disconnects c) (timeouts c) (failures c), Ok tt)
  end.

(** [failures] and [timeouts] are counted by the callers. *)
Definition enter_backoff (c : RecoveryController) : RecoveryController :=
  let shift := Z.min (Z.max (attempts c - 1) 0) 5 in
  mkRecovery Backoff (bump (epoch c)) (attempts c) (max_attempts c) (Z.shiftl 1 shift) 0 (disconnects c) (timeouts c) (failures c).

Definition count_failure (timed_out : bool) (c : RecoveryController) : RecoveryController :=
  mkRecovery (state c) (epoch c) (attempts c) (max_attempts c) (backoff_ticks c) (deadline_tick c) (disconnects c)
    (if timed_out then saturating_add32 (timeouts c) 1 else timeouts c) (saturating_add32 (failures c) 1).

Definition poll_timeout (now_tick : Z) (c : RecoveryController) : RecoveryController * bool :=
  if bool_decide (state c = Connecting) && (deadline_tick c <=? now_tick) then (enter_backoff (count_failure true c), true)
  else (c, false).

Definition connection_failed (e : Z) (c : RecoveryController) : RecoveryController * result () RecoveryError :=
  match require_epoch e c with
  | Err err => (c, Err err)
  | Ok _ =>
      if negb (bool_decide (state c = Connecting)) then (c, Err WrongState)
      else (enter_backoff (count_failure false c), Ok tt)
  end.

Definition disconnect (c : RecoveryController) : RecoveryController * Z :=
  let c := mkRecovery Idle (bump (epoch c)) 0 (max_attempts c) 0 0 (saturating_add32 (disconnects c) 1) (timeouts c) (failures c) in
  (c, epoch c).

Definition tick_backoff (c : RecoveryController) : RecoveryController * bool :=
  if negb (bool_decide (state c = Backoff)) then (c, false)
  else
  let ticks := if 0 <? backoff_ticks c then backoff_ticks c - 1 else backoff_ticks c in
  if ticks =? 0 then
    (mkRecovery (if max_attempts c <=? attempts c then Exhausted else Idle) (epoch c) (attempts c) (max_attempts c) ticks
       (deadline_tick c) (disconnects c) (timeouts c) (failures c), true)
  else
    (mkRecovery (state c) (epoch c) (attempts c) (max_attempts c) ticks (deadline_tick c) (disconnects c) (timeouts c) (failures c), false).

(** [while state == Backoff { tick_backoff }]: at most 32 ticks. *)
Fixpoint wait_backoff (fuel : nat) (c : RecoveryController) : RecoveryController :=
  match fuel with
  | O => c
  | S fuel => if bool_decide (state c = Backoff) then wait_backoff fuel (tick_backoff c).1 else c
  end.

Definition rok {A E} (r : result A E) : bool := match r with Ok _ => true | Err _ => false end.

(** One failing attempt of the test's last loop. *)
Definition failing_attempt (expected : Z) (acc : RecoveryController * bool) : RecoveryController * bool :=
  let '(c, good) := acc in
  match begin_connect (400 + expected) 1 c with
  | (c, Err _) => (c, false)
  | (c, Ok e) =>
      let '(c', r) := connection_failed e c in
      (wait_backoff 64 c', good && (attempts c =? expected) && rok r)
  end.

Definition recovery_self_test : bool :=
  match begin_connect 100 10 (recovery_new 3) with
  | (_, Err _) => false
  | (c, Ok epoch1) =>
      let '(c1, t1) := poll_timeout 109 c in
      bool_decide (state c = Connecting) && negb t1 &&
      let '(c, t2) := poll_timeout 110 c1 in
      t2 && bool_decide (state c = Backoff) && (backoff_ticks c =? 1) &&
      bool_decide ((connected epoch1 c).2 = Err StaleEpoch) &&
      let '(c, b) := tick_backoff c in
      b && bool_decide (state c = Idle) &&
      match begin_connect 200 10 c with
      | (_, Err _) => false
      | (c, Ok epoch2) =>
          let '(c, r) := connection_failed epoch2 c in
          rok r && bool_decide (state c = Backoff) && (backoff_ticks c =? 2) &&
          let '(c, b1) := tick_backoff c in
          let '(c, b2) := tick_backoff c in
          negb b1 && b2 && bool_decide (state c = Idle) &&
          match begin_connect 300 10 c with
          | (_, Err _) => false
          | (c, Ok epoch3) =>
              let '(c, r) := connected epoch3 c in
              rok r && bool_decide (state c = Connected) && (attempts c =? 0) &&
              let '(c, new_epoch) := disconnect c in
              negb (new_epoch =? epoch3) && bool_decide (state c = Idle) && (attempts c =? 0) &&
              bool_decide ((connected epoch3 c).2 = Err StaleEpoch) &&
              let '(c, good) := foldl (λ acc e, failing_attempt e acc) (c, true) [1; 2; 3] in
              good && bool_decide (state c = Exhausted) && bool_decide ((begin_connect 500 1 c).2 = Err WrongState) &&
              (timeouts c =? 1) && (failures c =? 5) && (disconnects c =? 1)
          end
      end
  end.

End Recovery.

Module Backend.

Definition MAX_80211_FRAME : nat := 1600.
Definition QUEUE_DEPTH : nat := 8.

Inductive BackendError := Down | FrameTooLarge | TxFull | RxFull | BufferTooSmall.

#[export] Instance BackendError_eq_dec : EqDecision BackendError.
Proof. solve_decision. Defined.

Record Slot := mkSlot {
  len : nat;
  data : list Z
}.

Definition slot_empty : Slot := mkSlot 0 (replicate MAX_80211_FRAME 0).

(** The slots of one direction with head, tail and count. *)
Record Ring := mkRing {
  slots : list Slot;
  head : nat;
  tail : nat;
  count : nat
}.

Definition ring_new : Ring := mkRing (replicate QUEUE_DEPTH slot_empty) 0 0 0.
Definition ring_slot (r : Ring) (i : nat) : Slot := default slot_empty (slots r !! i).

(** Copying a frame to the tail. *)
Definition ring_push (frame : list Z) (r : Ring) : Ring :=
  let slot := ring_slot r (tail r) in
  let slot := mkSlot (length frame) (splice 0 frame (data slot)) in
  mkRing (<[tail r := slot]> (slots r)) (head r) ((tail r + 1) mod QUEUE_DEPTH) (count r + 1).

(** Copying the frame at the head to a buffer that is long enough. *)
Definition ring_pop (out : list Z) (r : Ring) : result (nat * list Z * Ring) BackendError :=
  let slot := ring_slot r (head r) in
  if (length out <? len slot)%nat then Err BufferTooSmall
  else
  Ok (len slot, splice 0 (take (len slot) (data slot)) out,
      mkRing (<[head r := mkSlot 0 (data slot)]> (slots r)) ((head r + 1) mod QUEUE_DEPTH) (tail r) (count r - 1)).

(** [set_up(false)]: indices and lengths, the bytes stay. *)
Definition ring_reset (r : Ring) : Ring := mkRing ((λ s, mkSlot 0 (data s)) <$> slots r) 0 0 0.

Record VirtualBackend := mkBackend {
  up : bool;
  tx_ring : Ring;
  rx_ring : Ring;
  tx_frames : Z;
  rx_frames : Z;
  tx_dropped : Z;
  rx_dropped : Z
}.

Definition backend_new : VirtualBackend := mkBackend false ring_new ring_new 0 0 0 0.

Definition set_up (u : bool) (b : VirtualBackend) : VirtualBackend :=
  if u then mkBackend true (tx_ring b) (rx_ring b) (tx_frames b) (rx_frames b) (tx_dropped b) (rx_dropped b)
  else mkBackend false (ring_reset (tx_ring b)) (ring_reset (rx_ring b)) (tx_frames b) (rx_frames b) (tx_dropped b) (rx_dropped b).
Definition is_up (b : VirtualBackend) : bool := up b.

Definition dequeue_tx (out : list Z) (b : VirtualBackend) : VirtualBackend * list Z * result (option nat) BackendError :=
  if (count (tx_ring b) =? 0)%nat then (b, out, Ok None)
  else
  match ring_pop out (tx_ring b) with
  | Err e => (b, out, Err e)
  | Ok (n, out, r) => (mkBackend (up b) r (rx_ring b) (tx_frames b) (rx_frames b) (tx_dropped b) (rx_dropped b), out, Ok (Some n))
  end.

Definition drop_rx (b : VirtualBackend) : VirtualBackend :=
  mkBackend (up b) (tx_ring b) (rx_ring b) (tx_frames b) (rx_frames b) (tx_dropped b) (saturating_add64 (rx_dropped b) 1).
Definition drop_tx (b : VirtualBackend) : VirtualBackend :=
  mkBackend (up b) (tx_ring b) (rx_ring b) (tx_frames b) (rx_frames b) (saturating_add64 (tx_dropped b) 1) (rx_dropped b).

Definition inject_rx (frame : list Z) (b : VirtualBackend) : VirtualBackend * result () BackendError :=
  if negb (up b) then (b, Err Down)
  else if (MAX_80211_FRAME <? length frame)%nat then (drop_rx b, Err FrameTooLarge)
  else if (count (rx_ring b) =? QUEUE_DEPTH)%nat then (drop_rx b, Err RxFull)
  else
  (mkBackend (up b) (tx_ring b) (ring_push frame (rx_ring b)) (tx_frames b) (rx_frames b) (tx_dropped b) (rx_dropped b), Ok tt).

Definition transmit (frame : list Z) (b : VirtualBackend) : VirtualBackend * result () BackendError :=
  if negb (up b) then (b, Err Down)
  else if (MAX_80211_FRAME <? length frame)%nat then (drop_tx b, Err FrameTooLarge)
  else if (count (tx_ring b) =? QUEUE_DEPTH)%nat then (drop_tx b, Err TxFull)
  else
  (mkBackend (up b) (ring_push frame (tx_ring b)) (rx_ring b) (saturating_add64 (tx_frames b) 1) (rx_frames b) (tx_dropped b)
     (rx_dropped b), Ok tt).

Definition receive_into (out : list Z) (b : VirtualBackend) : VirtualBackend * list Z * result (option nat) BackendError :=
  if negb (up b) then (b, out, Err Down)
  else if (count (rx_ring b) =? 0)%nat then (b, out, Ok None)
  else
  match ring_pop out (rx_ring b) with
  | Err e => (b, out, Err e)
  | Ok (n, out, r) =>
      (mkBackend (up b) (tx_ring b) r (tx_frames b) (saturating_add64 (rx_frames b) 1) (tx_dropped b) (rx_dropped b), out, Ok (Some n))
  end.

Definition backend_self_test : bool :=
  let frame := replicate 128 0x5a in
  let b := backend_new in
  let '(b, r) := transmit frame b in
  bool_decide (r = Err Down) &&
  let b := set_up true b in
  is_up b &&
  let '(b, r) := transmit frame b in
  bool_decide (r = Ok tt) &&
  match dequeue_tx (replicate MAX_80211_FRAME 0) b with
  | (b, out, Ok (Some tx_len)) =>
      (tx_len =? 128)%nat && bool_decide (take tx_len out = frame) &&
      let '(b, r) := inject_rx frame b in
      bool_decide (r = Ok tt) &&
      match receive_into (replicate MAX_80211_FRAME 0) b with
      | (b, out, Ok (Some rx_len)) =>
          (rx_len =? 128)%nat && bool_decide (take rx_len out = frame) &&
          let '(b, good) := foldl (λ '(b, good) (_ : nat), let '(b, r) := transmit frame b in (b, good && bool_decide (r = Ok tt)))
                              (b, true) (seq 0 QUEUE_DEPTH) in
          good &&
          let '(b, r) := transmit frame b in
          bool_decide (r = Err TxFull) && is_up b && (tx_frames b =? 9) && (rx_frames b =? 1) && (tx_dropped b =? 1) &&
          (rx_dropped b =? 0) &&
          let b := set_up false b in
          negb (is_up b) && bool_decide ((dequeue_tx out b).2 = Ok None)
      | _ => false
      end
  | _ => false
  end.

End Backend.

Module RecoveryTests.
Lemma recovery_self_tests_pass : Recovery.recovery_self_test = true ∧ Backend.backend_self_test = true.
Proof. split; vm_compute; reflexivity. Qed.
End RecoveryTests.

(** * Bounded retries, epochs and queues

    The controller stops after the configured number of failures and accepts a completion
    only for the attempt in progress; each ring of the device is a bounded queue of frames. *)
Import Block Io Bytes.
#[local] Ltac Zify.zify_post_hook ::= Z.div_mod_to_equations.

Module RecoveryProofs.
Import Recovery.

(** ** Epochs *)
Definition recovery_inv (c : RecoveryController) : Prop :=
  1 ≤ epoch c ≤ u32_max ∧ 0 ≤ attempts c ≤ max_attempts c ∧ max_attempts c ≤ u8_max ∧
  (state c = Connecting → 1 ≤ attempts c) ∧ (state c = Backoff → 1 ≤ attempts c ∧ 1 ≤ backoff_ticks c ≤ 32).

Lemma bump_epoch_spec e : 1 ≤ e ≤ u32_max → 1 ≤ bump e ≤ u32_max ∧ bump e ≠ e.
Proof. unfold bump, u32_max. intros He. cbv zeta. destruct (Z.eqb_spec ((e + 1) mod (4294967295 + 1)) 0); lia. Qed.

(** The operations that move the controller. *)
Inductive event :=
  | EBegin (now timeout : Z)
  | EConnected (e : Z)
  | EPoll (now : Z)
  | EFailed (e : Z)
  | ETick
  | EDisconnect.

Definition step (c : RecoveryController) (ev : event) : RecoveryController :=
  match ev with
  | EBegin now timeout => (begin_connect now timeout c).1
  | EConnected e => (connected e c).1
  | EPoll now => (poll_timeout now c).1
  | EFailed e => (connection_failed e c).1
  | ETick => (tick_backoff c).1
  | EDisconnect => (disconnect c).1
  end.

Lemma backoff_bound a : 1 ≤ Z.shiftl 1 (Z.min (Z.max (a - 1) 0) 5) ≤ 32.
Proof.
  assert (H : 0 ≤ Z.min (Z.max (a - 1) 0) 5 ≤ 5) by lia. revert H. generalize (Z.min (Z.max (a - 1) 0) 5). intros n Hn.
  assert (Hin : n ∈ seqZ 0 6) by (apply elem_of_seqZ; lia). clear Hn. revert n Hin. apply Forall_forall.
  apply (bool_decide_unpack _). vm_compute. exact I.
Qed.

Lemma inv_backoff b c : recovery_inv c → state c = Connecting → recovery_inv (enter_backoff (count_failure b c)).
Proof.
  intros (He & Ha & Hm & Hc & _) Hs. specialize (Hc Hs). unfold recovery_inv. cbn. destruct (bump_epoch_spec _ He) as [Hb _].
  split_and!; try lia; try done. intros _. pose proof (backoff_bound (attempts c)). lia.
Qed.

Lemma recovery_step_inv c ev : recovery_inv c → recovery_inv (step c ev).
Proof.
  intros H. pose proof H as (He & Ha & Hm & Hc & Hb). destruct ev; cbn [step].
  - unfold begin_connect. destruct (negb _); [done|]. destruct (Z.leb_spec (max_attempts c) (attempts c)).
    + unfold recovery_inv. cbn. split_and!; try lia; done.
    + unfold recovery_inv, u8_max in *. cbn. split_and!; try lia; done.
  - unfold connected. destruct (require_epoch e c); [|done]. destruct (negb _); [done|]. unfold recovery_inv. cbn. split_and!; try lia; done.
  - unfold poll_timeout. destruct (bool_decide_reflect (state c = Connecting)); [|done]. destruct (_ <=? _); [|done]. by apply inv_backoff.
  - unfold connection_failed. destruct (require_epoch e c); [|done].
    destruct (bool_decide_reflect (state c = Connecting)); [|done]. by apply inv_backoff.
  - unfold tick_backoff. destruct (bool_decide_reflect (state c = Backoff)) as [Es|]; [|done]. cbn [negb]. specialize (Hb Es).
    rewrite (proj2 (Z.ltb_lt _ _)) by lia. cbv zeta. destruct (Z.eqb_spec (backoff_ticks c - 1) 0).
    + unfold recovery_inv. cbn. split_and!; try lia; destruct (_ <=? _); done.
    + unfold recovery_inv. cbn. split_and!; try lia; done.
  - unfold recovery_inv. cbn. destruct (bump_epoch_spec _ He). split_and!; try lia; done.
Qed.

(** An attempt that failed cannot be completed: its epoch is refused. *)
Lemma failed_epoch_stale c ev e :
  recovery_inv c → state c = Connecting → epoch c = e → state (step c ev) ≠ Connecting → state (step c ev) ≠ Connected →
  (connected e (step c ev)).2 = Err StaleEpoch.
Proof.
  intros (He & _) Hs Hec H1 H2. assert (Hb : epoch (step c ev) = bump (epoch c)).
  { revert H1 H2. destruct ev; cbn [step].
    - unfold begin_connect. rewrite Hs. done.
    - unfold connected. repeat case_match; cbn; intros; congruence.
    - unfold poll_timeout. repeat case_match; cbn; intros; try congruence; done.
    - unfold connection_failed. repeat case_match; cbn; intros; try congruence; done.
    - unfold tick_backoff. rewrite (bool_decide_false (state c = Backoff)) by congruence. cbn. intros. congruence.
    - done. }
  unfold connected, require_epoch. rewrite Hb, <-Hec. destruct (bump_epoch_spec _ He) as [_ Hne]. by rewrite (proj2 (Z.eqb_neq _ _)) by congruence.
Qed.

(** ** Retries are bounded *)
(** Attempts that start along a run. *)
Definition starts (c : RecoveryController) (ev : event) : nat :=
  match ev with EBegin now timeout => match (begin_connect now timeout c).2 with Ok _ => 1 | Err _ => 0 end | _ => 0 end.
Fixpoint attempts_started (c : RecoveryController) (evs : list event) : nat :=
  match evs with [] => 0 | ev :: evs => starts c ev + attempts_started (step c ev) evs end.

(** A run in which no attempt succeeds and the owner does not disconnect. *)
Fixpoint unsuccessful (c : RecoveryController) (evs : list event) : Prop :=
  match evs with
  | [] => True
  | ev :: evs => ev ≠ EDisconnect ∧ state (step c ev) ≠ Connected ∧ unsuccessful (step c ev) evs
  end.

Lemma starts_attempts c ev :
  recovery_inv c → ev ≠ EDisconnect → state c ≠ Connected → state (step c ev) ≠ Connected →
  attempts (step c ev) = attempts c + Z.of_nat (starts c ev) ∧ max_attempts (step c ev) = max_attempts c.
Proof.
  intros (_ & Ha & Hm & _) Hd Hc Hc'. unfold u8_max in Hm. destruct ev; cbn [step starts] in *; try done.
  - unfold begin_connect in *. destruct (negb _); [cbn; lia|]. destruct (Z.leb_spec (max_attempts c) (attempts c)); cbn [fst snd with_state attempts max_attempts]; [lia|].
    unfold u8_max. lia.
  - revert Hc'. unfold connected. repeat case_match; cbn; intros; try lia; congruence.
  - unfold poll_timeout. repeat case_match; cbn; lia.
  - unfold connection_failed. repeat case_match; cbn; lia.
  - unfold tick_backoff. cbv zeta. repeat case_match; cbn; lia.
Qed.

(** Retries are bounded: as long as no attempt succeeds and the owner does not disconnect, whatever timeouts,
    failures, ticks and requests come in whatever order, no more connection attempts are
    started than the controller allows. *)
Theorem retries_bounded c evs :
  recovery_inv c → state c ≠ Connected → unsuccessful c evs →
  Z.of_nat (attempts_started c evs) ≤ max_attempts c - attempts c.
Proof.
  revert c. induction evs as [|ev evs IH]; intros c Hi Hs Hu; cbn [attempts_started].
  - destruct Hi as (_ & ? & _). lia.
  - destruct Hu as (Hd & Hc & Hu). destruct (starts_attempts c ev Hi Hd Hs Hc) as [Ha Hm].
    specialize (IH _ (recovery_step_inv c ev Hi) Hc Hu). lia.
Qed.

Lemma retries_bounded_witness :
  Z.of_nat (attempts_started (recovery_new 2)
    [EBegin 0 10; EPoll 10; ETick; EBegin 20 10; EFailed 2; ETick; ETick; EBegin 30 10; EBegin 40 10]) ≤ 2 - 0.
Proof.
  apply (retries_bounded (recovery_new 2)).
  - repeat split; cbn; try lia; done.
  - done.
  - repeat split; vm_compute; discriminate.
Defined.
End RecoveryProofs.

(** ** The device's rings are bounded queues *)
Module BackendProofs.
Import Backend.

Definition slot_frame (s : Slot) : list Z := take (len s) (data s).

(** The frames in a ring, oldest first. *)
Definition frames (r : Ring) : list (list Z) :=
  (λ i, slot_frame (ring_slot r ((head r + i) mod QUEUE_DEPTH))) <$> seq 0 (count r).

Definition ring_ok (r : Ring) : Prop :=
  length (slots r) = QUEUE_DEPTH ∧ (head r < QUEUE_DEPTH)%nat ∧ tail r = ((head r + count r) mod QUEUE_DEPTH)%nat ∧
  (count r ≤ QUEUE_DEPTH)%nat ∧ Forall (λ s, length (data s) = MAX_80211_FRAME ∧ (len s ≤ MAX_80211_FRAME)%nat) (slots r).

Lemma ring_new_ok : ring_ok ring_new ∧ frames ring_new = [].
Proof.
  split; [|done]. unfold ring_ok, QUEUE_DEPTH. split_and!; [done|cbn; lia|done|cbn; lia|].
  apply Forall_replicate. split; [done|]. cbn [len slot_empty]. lia.
Qed.

(** Indices stay below twice the depth. *)
Lemma mod8 x : (x < 16)%nat → (x mod 8 = if decide (x < 8) then x else x - 8)%nat.
Proof.
  intros Hx. case_decide; [by apply Nat.mod_small|]. replace x with ((x - 8) + 1 * 8)%nat at 1 by lia.
  rewrite Nat.Div0.mod_add. apply Nat.mod_small. lia.
Qed.

Lemma length_frames r : length (frames r) = count r.
Proof. unfold frames. by rewrite length_fmap, length_seq. Qed.

Lemma ring_slot_ok r i : ring_ok r → length (data (ring_slot r i)) = MAX_80211_FRAME ∧ (len (ring_slot r i) ≤ MAX_80211_FRAME)%nat.
Proof.
  intros (_ & _ & _ & _ & HF). unfold ring_slot. destruct (slots r !! i) as [s|] eqn:E; cbn [default from_option id].
  - apply (Forall_lookup_1 _ _ _ _ HF E).
  - unfold slot_empty. cbn [data len]. rewrite length_replicate. lia.
Qed.

(** Slots other than the one written are as before. *)
Lemma ring_slot_insert r i j s h t c :
  (i < length (slots r))%nat →
  ring_slot (mkRing (<[i := s]> (slots r)) h t c) j = if decide (j = i) then s else ring_slot r j.
Proof.
  intros Hi. unfold ring_slot. cbn [slots]. case_decide as H.
  - subst j. by rewrite list_lookup_insert_eq.
  - by rewrite list_lookup_insert_ne.
Qed.

Lemma push_spec frame r :
  ring_ok r → (count r < QUEUE_DEPTH)%nat → (length frame ≤ MAX_80211_FRAME)%nat →
  ring_ok (ring_push frame r) ∧ frames (ring_push frame r) = frames r ++ [frame].
Proof.
  intros Hr Hc Hf. pose proof Hr as (Hl & Hh & Ht & _ & HF). destruct (ring_slot_ok r (tail r) Hr) as [Ld _].
  unfold QUEUE_DEPTH in *.
  assert (Htl : (tail r < length (slots r))%nat) by (rewrite Hl, Ht; apply Nat.mod_upper_bound; lia).
  split.
  - split_and!; cbn [slots head tail count ring_push].
    + by rewrite length_insert.
    + done.
    + unfold QUEUE_DEPTH. rewrite Ht, Nat.Div0.add_mod_idemp_l. f_equal. lia.
    + unfold QUEUE_DEPTH. lia.
    + apply Forall_insert; [done|]. cbn [data len]. rewrite length_splice; lia.
  - unfold frames. cbn [count ring_push]. rewrite seq_app, fmap_app. f_equal.
    + apply list_fmap_ext. intros i x Hx. apply lookup_seq in Hx as [-> Hi]. cbn [head ring_push]. unfold ring_push.
      rewrite ring_slot_insert by done. rewrite decide_False; [done|]. unfold QUEUE_DEPTH. rewrite Ht, !mod8 by lia. repeat case_decide; lia.
    + cbn [seq fmap list_fmap head ring_push]. f_equal. unfold ring_push. rewrite ring_slot_insert by done.
      rewrite decide_True by (unfold QUEUE_DEPTH; by rewrite Ht, Nat.add_0_r || rewrite Ht).
      unfold slot_frame. cbn [len data]. apply splice_prefix; lia.
Qed.

Lemma pop_spec out r f fs :
  ring_ok r → frames r = f :: fs →
  ring_pop out r = (if (length out <? length f)%nat then Err BufferTooSmall else
    Ok (length f, splice 0 f out,
        mkRing (<[head r := mkSlot 0 (data (ring_slot r (head r)))]> (slots r)) ((head r + 1) mod QUEUE_DEPTH) (tail r) (count r - 1))) ∧
  let r' := mkRing (<[head r := mkSlot 0 (data (ring_slot r (head r)))]> (slots r)) ((head r + 1) mod QUEUE_DEPTH) (tail r) (count r - 1) in
  ring_ok r' ∧ frames r' = fs ∧ (length f ≤ MAX_80211_FRAME)%nat.
Proof.
  intros Hr Hfs. pose proof Hr as (Hl & Hh & Ht & Hcd & HF). destruct (ring_slot_ok r (head r) Hr) as [Ld Hlen].
  unfold QUEUE_DEPTH in *. assert (Hcnt : count r = S (length fs)) by (rewrite <-length_frames, Hfs; done).
  assert (Hfr : f = slot_frame (ring_slot r (head r)) ∧
    fs = (λ i, slot_frame (ring_slot r ((head r + i) mod 8))) <$> seq 1 (length fs)).
  { unfold frames in Hfs. rewrite Hcnt in Hfs. cbn [seq fmap list_fmap] in Hfs. rewrite Nat.add_0_r, Nat.mod_small in Hfs by done.
    apply (inj2 cons) in Hfs as [H1 H2]. split; symmetry; [exact H1|exact H2]. }
  destruct Hfr as [Ef Efs]. assert (Lf : length f = len (ring_slot r (head r))) by (rewrite Ef; unfold slot_frame; rewrite length_take; lia).
  split; [|cbv zeta; split_and!].
  - unfold ring_pop. rewrite Lf. destruct (_ <? _)%nat; [done|]. by rewrite Ef at 1.
  - split_and!; cbn [slots head tail count].
    + by rewrite length_insert.
    + unfold QUEUE_DEPTH. apply Nat.mod_upper_bound. lia.
    + unfold QUEUE_DEPTH. rewrite Ht, Nat.Div0.add_mod_idemp_l. f_equal. lia.
    + unfold QUEUE_DEPTH. lia.
    + apply Forall_insert; [done|]. cbn. lia.
  - rewrite Efs. unfold frames. cbn [count head]. replace (count r - 1)%nat with (length fs) by lia.
    rewrite <-(fmap_S_seq 0), <-list_fmap_compose. apply list_fmap_ext. intros i x Hx. apply lookup_seq in Hx as [-> Hi]. cbn [compose].
    rewrite ring_slot_insert by lia. unfold QUEUE_DEPTH. rewrite Nat.Div0.add_mod_idemp_l. cbn [Nat.add].
    replace (head r + 1 + i)%nat with (head r + S i)%nat by lia. rewrite decide_False; [done|].
    rewrite mod8 by lia. case_decide; lia.
  - lia.
Qed.

Lemma reset_spec r : ring_ok r → ring_ok (ring_reset r) ∧ frames (ring_reset r) = [].
Proof.
  intros (Hl & _ & _ & _ & HF). split; [|done]. unfold ring_ok, QUEUE_DEPTH in *. split_and!; cbn [ring_reset slots head tail count]; try done; try lia.
  - by rewrite length_fmap.
  - apply Forall_fmap. eapply Forall_impl; [done|]. intros s [H1 H2]. cbn. lia.
Qed.

(** The device as two queues. *)
Definition backend_ok (b : VirtualBackend) : Prop :=
  ring_ok (tx_ring b) ∧ ring_ok (rx_ring b) ∧ (up b = false → frames (tx_ring b) = [] ∧ frames (rx_ring b) = []).

Lemma backend_new_ok : backend_ok backend_new.
Proof. split_and!; try apply ring_new_ok. split; apply ring_new_ok. Qed.

Lemma set_up_ok u b : backend_ok b → backend_ok (set_up u b).
Proof.
  intros (H1 & H2 & H3). destruct u; cbn [set_up]; [by split_and!|].
  destruct (reset_spec _ H1), (reset_spec _ H2). split_and!; done.
Qed.

Lemma inject_ok frame b b' r : backend_ok b → inject_rx frame b = (b', r) → backend_ok b' ∧ up b' = up b ∧
  match r with
  | Ok _ => frames (rx_ring b') = frames (rx_ring b) ++ [frame] ∧ (length frame ≤ MAX_80211_FRAME)%nat ∧ up b = true
  | Err _ => frames (rx_ring b') = frames (rx_ring b)
  end.
Proof.
  intros Hb. pose proof Hb as (H1 & H2 & H3). unfold inject_rx. destruct (up b) eqn:Eu; cbn [negb]; [|intros ?; by simplify_eq].
  destruct (Nat.ltb_spec MAX_80211_FRAME (length frame)); [intros ?; by simplify_eq|].
  destruct (Nat.eqb_spec (count (rx_ring b)) QUEUE_DEPTH) as [|Hne]; [intros ?; by simplify_eq|].
  intros ?; simplify_eq. pose proof H2 as (_ & _ & _ & Hc & _).
  destruct (push_spec frame (rx_ring b) H2) as [Hok Hfr]; [lia|done|]. split_and!; try done.
Qed.

Lemma transmit_ok frame b b' r : backend_ok b → transmit frame b = (b', r) → backend_ok b' ∧ up b' = up b ∧
  match r with
  | Ok _ => frames (tx_ring b') = frames (tx_ring b) ++ [frame]
  | Err _ => frames (tx_ring b') = frames (tx_ring b)
  end ∧ frames (rx_ring b') = frames (rx_ring b).
Proof.
  intros Hb. pose proof Hb as (H1 & H2 & H3). unfold transmit. destruct (up b) eqn:Eu; cbn [negb]; [|intros ?; by simplify_eq].
  destruct (Nat.ltb_spec MAX_80211_FRAME (length frame)); [intros ?; by simplify_eq|].
  destruct (Nat.eqb_spec (count (tx_ring b)) QUEUE_DEPTH) as [|Hne]; [intros ?; by simplify_eq|].
  intros ?; simplify_eq. pose proof H1 as (_ & _ & _ & Hc & _).
  destruct (push_spec frame (tx_ring b) H1) as [Hok Hfr]; [lia|done|]. split_and!; try done.
Qed.

(** Receiving takes the oldest frame, if it fits. *)
Lemma receive_ok out b b' out' r : backend_ok b → (MAX_80211_FRAME ≤ length out)%nat → receive_into out b = (b', out', r) →
  backend_ok b' ∧ up b' = up b ∧
  match r with
  | Ok (Some n) => ∃ f, frames (rx_ring b) = f :: frames (rx_ring b') ∧ n = length f ∧ out' = splice 0 f out
  | Ok None => up b = true ∧ frames (rx_ring b) = [] ∧ b' = b
  | Err e => e = Down ∧ up b = false ∧ b' = b
  end.
Proof.
  intros Hb Ho. pose proof Hb as (H1 & H2 & H3). unfold receive_into. destruct (up b) eqn:Eu; cbn [negb]; [|intros ?; by simplify_eq].
  destruct (Nat.eqb_spec (count (rx_ring b)) 0) as [E0|Hne].
  { intros ?; simplify_eq. split_and!; try done. apply length_zero_iff_nil. by rewrite length_frames. }
  destruct (frames (rx_ring b)) as [|f fs] eqn:Ef; [apply (f_equal length) in Ef; rewrite length_frames in Ef; done|].
  destruct (pop_spec out (rx_ring b) f fs H2 Ef) as (-> & Hok & Hfr & Hlen). rewrite (proj2 (Nat.ltb_ge _ _)) by lia.
  intros ?; simplify_eq. cbn [rx_ring up]. split_and!; try done. exists f. split_and!; try done; by rewrite Hfr.
Qed.
End BackendProofs.
