(* ===== verification/WifiSession.v ===== *)
(** * The security context of an association (kernel/src/wifi_security.rs)

    A pairwise key with the group keys that arrive under it. *)
From S2P Require Import Prelude Block DeviceIo Bytes Aes GroupKeys Rsn Wpa2 Wifi80211 Ccmp WifiNet WifiRecovery.
Import Block Io Bytes.

Module Security.
Import Crypto Rsn Gtk.

Inductive SecurityError :=
  | Protocol (e : EapolError)
  | GtkFailure (e : GtkError)
  | MissingEncryptedKeyData
  | WrongReplay
  | WrongNonce
  | NoPairwiseKey.

#[export] Instance SecurityError_eq_dec : EqDecision SecurityError.
Proof. solve_decision. Defined.

Record SecurityContext := mkContext {
  c_ptk : option (list Z);
  c_anonce : list Z;
  c_replay : option Z;
  c_group : GroupKeyStore
}.

Definition context_new : SecurityContext := mkContext None (replicate 32 0) None store_new.
Definition context_clear (c : SecurityContext) : SecurityContext := mkContext None (replicate 32 0) None (clear (c_group c)).
Definition install_pairwise (ptk anonce : list Z) (c : SecurityContext) : SecurityContext :=
  let c := context_clear c in mkContext (Some ptk) anonce (c_replay c) (c_group c).

(** The end of both installations: the store decides, and a counter that it took is kept. *)
Definition offer (replay : Z) (candidate : GroupTemporalKey) (c : SecurityContext) : SecurityContext * result InstallOutcome SecurityError :=
  match install_verified replay candidate (c_group c) with
  | (Err e, g) => (mkContext (c_ptk c) (c_anonce c) (c_replay c) g, Err (GtkFailure e))
  | (Ok outcome, g) => (mkContext (c_ptk c) (c_anonce c) (Some replay) g, Ok outcome)
  end.

Definition process_verified_message3 (message3 : list Z) (c : SecurityContext) : SecurityContext * result InstallOutcome SecurityError :=
  match parse_eapol_key message3 with
  | Err e => (c, Err (Protocol e))
  | Ok key =>
      match c_ptk c with
      | None => (c, Err NoPairwiseKey)
      | Some ptk =>
          if negb (bool_decide (e_nonce key = c_anonce c)) then (c, Err WrongNonce)
          else if (match c_replay c with Some last => e_replay key <? last | None => false end) then (c, Err WrongReplay)
          else if negb (encrypted_key_data (key_info key)) || bool_decide (key_data key = []) then (c, Err MissingEncryptedKeyData)
          else
          match unwrap_gtk (kek ptk) (key_data key) with
          | Err e => (c, Err (GtkFailure e))
          | Ok candidate => offer (e_replay key) candidate c
          end
      end
  end.

Definition context_temporal_key (c : SecurityContext) : option (list Z) := tk <$> c_ptk c.
Definition context_gtk_installed (c : SecurityContext) : bool := bool_decide (is_Some (gtk (c_group c))).
Definition context_install_count (c : SecurityContext) : Z := installs (c_group c).
Definition install_verified_gtk_for_test (replay index : Z) (key : list Z) (c : SecurityContext)
    : SecurityContext * result InstallOutcome SecurityError :=
  offer replay (mkGtk key (Z.land index 3)) c.

Definition security_self_test : bool :=
  let ptk := replicate 32 0 ++ replicate 16 0x44 in
  let c := install_pairwise ptk (replicate 32 0x11) context_new in
  bool_decide (context_temporal_key c = Some (replicate 16 0x44)) &&
  let key := replicate GTK_LEN 0x55 in
  let '(c, r1) := install_verified_gtk_for_test 7 1 key c in
  bool_decide (r1 = Ok Installed) &&
  let '(c, r2) := install_verified_gtk_for_test 7 1 key c in
  bool_decide (r2 = Ok Retransmission) && (context_install_count c =? 1) && context_gtk_installed c &&
  let '(c, r3) := install_verified_gtk_for_test 7 1 (replicate GTK_LEN 0x56) c in
  bool_decide (r3 = Err (GtkFailure ConflictingRetransmission)) &&
  let c := context_clear c in
  bool_decide (context_temporal_key c = None) && negb (context_gtk_installed c).

End Security.

Module SecurityProofs.
Import Crypto Rsn Gtk GtkProofs Security.

Lemma security_self_test_passes : security_self_test = true.
Proof. vm_compute. reflexivity. Qed.

(** The counter of the context is the counter of its store. *)
Definition context_inv (c : SecurityContext) : Prop :=
  match c_replay c with
  | None => gtk (c_group c) = None ∧ installed (c_group c) = false
  | Some r => is_Some (c_ptk c) ∧ is_Some (gtk (c_group c)) ∧ installed (c_group c) = true ∧ replay_counter (c_group c) = r
  end.

Lemma offer_inv replay g c : context_inv c → is_Some (c_ptk c) → context_inv (offer replay g c).1.
Proof.
  unfold context_inv, offer. intros Hc Hp. destruct (install_verified replay g (c_group c)) as [r st] eqn:E.
  pose proof (install_verified_spec _ _ _ _ _ E) as H. destruct r as [[|]|]; cbn.
  - destruct H as (-> & -> & -> & _). split_and!; eauto.
  - destruct H as (-> & Hi & -> & Hg). rewrite Hg, Hi. split_and!; eauto.
  - destruct H as (-> & Hi & _). destruct (c_replay c); [done|]. destruct Hc. congruence.
Qed.

Lemma message3_context_inv frame c : context_inv c → context_inv (process_verified_message3 frame c).1.
Proof.
  intros Hc. unfold process_verified_message3. destruct (parse_eapol_key frame) as [key|]; [|done].
  destruct (c_ptk c) as [k|] eqn:Ek; [|done]. destruct (negb _); [done|].
  destruct (match c_replay c with Some _ => _ | None => _ end); [done|]. destruct (_ || _); [done|].
  destruct (unwrap_gtk _ _); [|done]. apply offer_inv; [done|]. by rewrite Ek.
Qed.

(** A new key only with a higher counter; and nothing survives the end of an association. *)
Lemma message3_fresh frame c c' :
  context_inv c → process_verified_message3 frame c = (c', Ok Installed) →
  ∃ key g, parse_eapol_key frame = Ok key ∧ gtk (c_group c') = Some g ∧ c_replay c' = Some (e_replay key) ∧
    ∀ r, c_replay c = Some r → r < e_replay key.
Proof.
  intros Hc. unfold process_verified_message3, offer. destruct (parse_eapol_key frame) as [key|]; [|done].
  destruct (c_ptk c) as [k|]; [|done]. destruct (negb _); [done|].
  destruct (match c_replay c with Some _ => _ | None => _ end); [done|]. destruct (_ || _); [done|].
  destruct (unwrap_gtk _ _) as [g|]; [|done]. destruct (install_verified (e_replay key) g (c_group c)) as [r st] eqn:E.
  pose proof (install_verified_spec _ _ _ _ _ E) as H. destruct r as [[|]|]; try done. intros ?; simplify_eq. destruct H as (H1 & _ & _ & H4).
  exists key, g. split_and!; try done. intros r Hr. unfold context_inv in Hc. rewrite Hr in Hc. destruct Hc as (_ & _ & Hi & <-). auto.
Qed.

Lemma cleared_context c : context_inv (context_clear c) ∧ context_temporal_key (context_clear c) = None ∧
  context_gtk_installed (context_clear c) = false.
Proof. by split_and!. Qed.
End SecurityProofs.

(** * A Wi-Fi session (kernel/src/wifi_session.rs)

    The controller, the device and the bridge behind one interface: a bridge exists while
    an association of the current epoch is active, received frames pass through it on
    their way up, and everything is discarded at the end of the association. *)
Import Block Io Bytes.

Module Session.
Import Recovery Backend.
#[export] Existing Instance WifiNet.BridgeError_eq_dec.
#[export] Existing Instance Wpa2.SupplicantState_eq_dec.

Inductive SessionError :=
  | RecoveryFailure (e : RecoveryError)
  | BackendFailure (e : BackendError)
  | BridgeFailure (e : WifiNet.BridgeError)
  | NoKeys
  | StaleEpoch
  | WrongState
  | HandshakeIncomplete
  | MissingGtk.

#[export] Instance SessionError_eq_dec : EqDecision SessionError.
Proof. solve_decision. Defined.

Record WifiSession := mkSession {
  recovery : RecoveryController;
  backend : VirtualBackend;
  bridge : option WifiNet.WifiNetBridge;
  active_epoch : option Z
}.

Definition session_new (max_attempts : Z) : WifiSession := mkSession (recovery_new max_attempts) backend_new None None.

Definition set_recovery (s : WifiSession) (c : RecoveryController) : WifiSession := mkSession c (backend s) (bridge s) (active_epoch s).
Definition set_backend (s : WifiSession) (b : VirtualBackend) : WifiSession := mkSession (recovery s) b (bridge s) (active_epoch s).
Definition set_bridge (s : WifiSession) (b : WifiNet.WifiNetBridge) : WifiSession :=
  mkSession (recovery s) (backend s) (Some b) (active_epoch s).

Definition clear_association (s : WifiSession) : WifiSession := mkSession (recovery s) (set_up false (backend s)) None None.

Definition begin_connect (now timeout : Z) (s : WifiSession) : WifiSession * result Z SessionError :=
  let s := clear_association s in
  match Recovery.begin_connect now timeout (recovery s) with
  | (c, Ok e) => (set_recovery s c, Ok e)
  | (c, Err e) => (set_recovery s c, Err (RecoveryFailure e))
  end.

(** The end of both activations: the bridge is in place, the device comes up, and the
    controller is told. *)
Definition activate (epoch : Z) (b : WifiNet.WifiNetBridge) (s : WifiSession) : WifiSession * result () SessionError :=
  let s := set_bridge s b in
  let s := set_backend s (set_up true (backend s)) in
  match connected epoch (recovery s) with
  | (c, Err e) => (set_recovery s c, Err (RecoveryFailure e))
  | (c, Ok _) => (mkSession c (backend s) (bridge s) (Some epoch), Ok tt)
  end.

Definition activate_bridge (epoch : Z) (station bssid tk : list Z) (s : WifiSession) : WifiSession * result () SessionError :=
  match WifiNet.bridge_new station bssid tk with
  | Err e => (s, Err (BridgeFailure e))
  | Ok b => activate epoch b s
  end.

Definition activate_bridge_with_group (epoch : Z) (station bssid tk : list Z) (gtk_index : Z) (gtk : list Z) (s : WifiSession)
    : WifiSession * result () SessionError :=
  match WifiNet.bridge_new station bssid tk with
  | Err e => (s, Err (BridgeFailure e))
  | Ok b =>
      match WifiNet.install_group_key b gtk_index gtk with
      | (_, Err e) => (s, Err (BridgeFailure e))
      | (b, Ok _) => activate epoch b s
      end
  end.

Definition install_pairwise_for_test (e : Z) (station bssid tk : list Z) (s : WifiSession) : WifiSession * result () SessionError :=
  if negb (e =? epoch (recovery s)) then (s, Err StaleEpoch)
  else if negb (bool_decide (state (recovery s) = Connecting)) then (s, Err WrongState)
  else activate_bridge e station bssid tk s.

Definition activate_from_wpa2 (e : Z) (station bssid : list Z) (supplicant : Wpa2.Wpa2Supplicant) (s : WifiSession)
    : WifiSession * result () SessionError :=
  if negb (e =? epoch (recovery s)) then (s, Err StaleEpoch)
  else if negb (bool_decide (state (recovery s) = Connecting)) then (s, Err WrongState)
  else if negb (bool_decide (Wpa2.s_state supplicant = Wpa2.Completed)) then (s, Err HandshakeIncomplete)
  else if negb (Wpa2.gtk_installed supplicant) then (s, Err MissingGtk)
  else
  match Wpa2.temporal_key supplicant with
  | None => (s, Err NoKeys)
  | Some tk =>
      match Wpa2.group_temporal_key supplicant with
      | None => (s, Err MissingGtk)
      | Some (gtk_index, gtk) => activate_bridge_with_group e station bssid tk gtk_index gtk s
      end
  end.

Definition require_active (e : Z) (s : WifiSession) : result () SessionError :=
  if negb (bool_decide (active_epoch s = Some e)) || negb (epoch (recovery s) =? e) then Err StaleEpoch
  else if negb (bool_decide (state (recovery s) = Connected)) then Err WrongState
  else Ok tt.

Definition is_active_epoch (e : Z) (s : WifiSession) : bool :=
  bool_decide (active_epoch s = Some e) && (epoch (recovery s) =? e) && bool_decide (state (recovery s) = Connected) &&
  bool_decide (is_Some (bridge s)).
Definition secure_transport_ready (e : Z) (s : WifiSession) : bool := is_active_epoch e s.
Definition has_pairwise_keys (s : WifiSession) : bool := bool_decide (is_Some (bridge s)).

Definition refresh_group_key_from_wpa2 (e : Z) (supplicant : Wpa2.Wpa2Supplicant) (s : WifiSession) : WifiSession * result () SessionError :=
  match require_active e s with
  | Err err => (s, Err err)
  | Ok _ =>
      if negb (bool_decide (Wpa2.s_state supplicant = Wpa2.Completed)) then (s, Err HandshakeIncomplete)
      else
      match Wpa2.group_temporal_key supplicant with
      | None => (s, Err MissingGtk)
      | Some (index, gtk) =>
          match bridge s with
          | None => (s, Err NoKeys)
          | Some b =>
              match WifiNet.install_group_key b index gtk with
              | (b, Err err) => (set_bridge s b, Err (BridgeFailure err))
              | (b, Ok _) => (set_bridge s b, Ok tt)
              end
          end
      end
  end.

Definition transmit_ethernet (e : Z) (ethernet : list Z) (s : WifiSession) : WifiSession * result nat SessionError :=
  match require_active e s with
  | Err err => (s, Err err)
  | Ok _ =>
      match bridge s with
      | None => (s, Err NoKeys)
      | Some b =>
          match WifiNet.encapsulate b ethernet (replicate MAX_80211_FRAME 0) with
          | (b, _, Err err) => (set_bridge s b, Err (BridgeFailure err))
          | (b, frame, Ok n) =>
              let s := set_bridge s b in
              match transmit (take n frame) (backend s) with
              | (d, Err err) => (set_backend s d, Err (BackendFailure err))
              | (d, Ok _) => (set_backend s d, Ok n)
              end
          end
      end
  end.

Definition receive_ethernet (e : Z) (out : list Z) (s : WifiSession) : WifiSession * list Z * result (option nat) SessionError :=
  match require_active e s with
  | Err err => (s, out, Err err)
  | Ok _ =>
      match receive_into (replicate MAX_80211_FRAME 0) (backend s) with
      | (d, _, Err err) => (set_backend s d, out, Err (BackendFailure err))
      | (d, _, Ok None) => (set_backend s d, out, Ok None)
      | (d, frame, Ok (Some n)) =>
          let s := set_backend s d in
          match bridge s with
          | None => (s, out, Err NoKeys)
          | Some b =>
              match WifiNet.decapsulate b (take n frame) out with
              | (b, out, Err err) => (set_bridge s b, out, Err (BridgeFailure err))
              | (b, out, Ok total) => (set_bridge s b, out, Ok (Some total))
              end
          end
      end
  end.

Definition poll_timeout (now : Z) (s : WifiSession) : WifiSession * bool :=
  let '(c, fired) := Recovery.poll_timeout now (recovery s) in
  if fired then (clear_association (set_recovery s c), true) else (set_recovery s c, false).

Definition connection_failed (e : Z) (s : WifiSession) : WifiSession * result () SessionError :=
  match Recovery.connection_failed e (recovery s) with
  | (c, Err err) => (set_recovery s c, Err (RecoveryFailure err))
  | (c, Ok _) => (clear_association (set_recovery s c), Ok tt)
  end.

Definition disconnect (s : WifiSession) : WifiSession * Z :=
  let '(c, e) := Recovery.disconnect (recovery s) in (clear_association (set_recovery s c), e).

Definition dequeue_tx (out : list Z) (s : WifiSession) : WifiSession * list Z * result (option nat) SessionError :=
  match Backend.dequeue_tx out (backend s) with
  | (d, out, Ok r) => (set_backend s d, out, Ok r)
  | (d, out, Err e) => (set_backend s d, out, Err (BackendFailure e))
  end.

Definition inject_rx_for_test (frame : list Z) (s : WifiSession) : WifiSession * result () SessionError :=
  match inject_rx frame (backend s) with
  | (d, Ok _) => (set_backend s d, Ok tt)
  | (d, Err e) => (set_backend s d, Err (BackendFailure e))
  end.

(** ** Self tests *)
Definition test_eth (dst src : list Z) : list Z := splice 12 [8; 0] (splice 6 src (splice 0 dst (replicate 64 0))).

Definition self_test : bool :=
  let sta := WifiNet.sta in let ap := WifiNet.ap in
  let eth := test_eth WifiNet.peer sta in
  match begin_connect 10 5 (session_new 3) with
  | (_, Err _) => false
  | (s, Ok e1) =>
      let '(s, r) := install_pairwise_for_test e1 sta ap (replicate 16 0x11) s in
      rok r && has_pairwise_keys s &&
      let '(s, r) := transmit_ethernet e1 eth s in
      rok r &&
      match dequeue_tx (replicate MAX_80211_FRAME 0) s with
      | (s, out, Ok (Some _)) =>
          let '(s, e2) := disconnect s in
          negb (e2 =? e1) && negb (has_pairwise_keys s) && bool_decide ((transmit_ethernet e1 eth s).2 = Err StaleEpoch) &&
          match begin_connect 20 2 s with
          | (_, Err _) => false
          | (s, Ok e3) =>
              let '(s, fired) := poll_timeout 22 s in
              (e3 =? e2) && fired && negb (has_pairwise_keys s) &&
              bool_decide ((install_pairwise_for_test e3 sta ap (replicate 16 0x22) s).2 = Err StaleEpoch)
          end
      | _ => false
      end
  end.

(** The test's [make_downlink] refuses short frames and otherwise does as the bridge's. *)
Definition make_downlink (key : list Z) (tx : Ccmp.TxState) (station bssid source ethernet out : list Z)
    : Ccmp.TxState * list Z * option nat :=
  if (length ethernet <? 14)%nat then (tx, out, None)
  else
  match WifiNet.make_downlink key tx station bssid source ethernet out with
  | (tx, out, Ok n) => (tx, out, Some n)
  | (tx, out, Err _) => (tx, out, None)
  end.

Definition rx_path_self_test : bool :=
  let station := WifiNet.sta in let ap := WifiNet.ap in let peer := WifiNet.peer in
  let tk := replicate 16 0x44 in
  let ethernet := splice 14 (seqZ 0 50) (test_eth station peer) in
  match begin_connect 1 10 (session_new 2) with
  | (_, Err _) => false
  | (s, Ok epoch) =>
      let '(s, r) := install_pairwise_for_test epoch station ap tk s in
      rok r &&
      match make_downlink tk Ccmp.tx_new station ap peer ethernet (replicate MAX_80211_FRAME 0) with
      | (ap_tx, frame, Some n) =>
          let '(s, r) := inject_rx_for_test (take n frame) s in
          rok r &&
          match receive_ethernet epoch (replicate 1514 0) s with
          | (s, recovered, Ok (Some rn)) =>
              bool_decide (take rn recovered = ethernet) &&
              let '(s, recovered, r) := receive_ethernet epoch recovered s in
              bool_decide (r = Ok None) &&
              let '(s, r) := inject_rx_for_test (take n frame) s in
              rok r &&
              let '(s, recovered, r) := receive_ethernet epoch recovered s in
              bool_decide (r = Err (BridgeFailure (WifiNet.CcmpFailure Ccmp.Replay))) &&
              match make_downlink tk ap_tx station ap peer ethernet frame with
              | (ap_tx, frame, Some n2) =>
                  let tampered := <[(n2 - 1)%nat := Z.lxor (byte_at frame (n2 - 1)) 1]> frame in
                  let '(s, r) := inject_rx_for_test (take n2 tampered) s in
                  rok r &&
                  let '(s, recovered, r) := receive_ethernet epoch recovered s in
                  bool_decide (r = Err (BridgeFailure (WifiNet.CcmpFailure Ccmp.Authentication))) &&
                  let '(s, r) := inject_rx_for_test (take n2 frame) s in
                  rok r &&
                  match receive_ethernet epoch recovered s with
                  | (s, recovered, Ok (Some rn2)) =>
                      bool_decide (take rn2 recovered = ethernet) &&
                      let '(s, new) := disconnect s in
                      negb (new =? epoch) && bool_decide ((receive_ethernet epoch recovered s).2 = Err StaleEpoch)
                  | _ => false
                  end
              | _ => false
              end
          | _ => false
          end
      | _ => false
      end
  end.

Section Suite.
Context `{Sha1Suite}.
Import Crypto Rsn Wpa2 Wpa2Test.

Definition wpa2_handoff_self_test : bool :=
  match parse_rsn psk_rsn, derive_pmk (Prelude.bytes "password") (Prelude.bytes "IEEE") with
  | Ok profile, Ok pmk =>
      let snonce := replicate 32 0x22 in let anonce := replicate 32 0x11 in
      match Session.begin_connect 100 20 (session_new 3) with
      | (_, Err _) => false
      | (session, Ok epoch) =>
          let '(sup, r) := begin profile test_ap snonce (supplicant_new test_station) in
          rok r &&
          bool_decide ((activate_from_wpa2 epoch test_station test_ap sup session).2 = Err HandshakeIncomplete) &&
          match build_eapol_key_with_data (replicate EAPOL_KEY_FRAME_LEN 0) message1_info 1 anonce [] with
          | (_, Err _) => false
          | (msg1, Ok n1) =>
              let '(sup, msg2, r) := receive_message1_build_message2 pmk (take n1 msg1) (replicate EAPOL_KEY_FRAME_LEN 0) sup in
              rok r &&
              match derive_ptk pmk test_ap test_station anonce snonce with
              | Err _ => false
              | Ok ap_ptk =>
                  match ap_frame ap_ptk message3_info 2 anonce 1 (replicate Gtk.GTK_LEN 0x5a) with
                  | None => false
                  | Some msg3 =>
                      let '(sup, msg4, r) := receive_message3_build_message4 msg3 (replicate EAPOL_KEY_FRAME_LEN 0) sup in
                      rok r && bool_decide (s_gtk_index sup = Some 1) && (gtk_install_count sup =? 1) &&
                      let '(session, r) := activate_from_wpa2 epoch test_station test_ap sup session in
                      rok r && has_pairwise_keys session &&
                      bool_decide ((activate_from_wpa2 epoch test_station test_ap sup session).2 = Err Session.WrongState) &&
                      let '(session, r) := transmit_ethernet epoch (test_eth WifiNet.peer test_station) session in
                      rok r &&
                      let '(session, next) := Session.disconnect session in
                      negb (next =? epoch) && negb (has_pairwise_keys session)
                  end
              end
          end
      end
  | _, _ => false
  end.
End Suite.

End Session.

Module SessionTests.
Lemma session_self_tests_pass : Session.self_test = true ∧ Session.rx_path_self_test = true.
Proof. split; vm_compute; reflexivity. Qed.
Lemma wpa2_handoff_passes : Session.wpa2_handoff_self_test = true.
Proof. vm_compute. reflexivity. Qed.
End SessionTests.
