(* ===== verification/WifiSessionProofs.v ===== *)
(** * What a session guarantees

    The invariant that ties keys, epochs and the device together; an epoch that ended is
    refused; a frame of the access point crosses the whole stack after an honest handshake;
    and what re-reading the group key does to replayed group frames. *)
From S2P Require Import Prelude Block DeviceIo Bytes Aes GroupKeys Wifi80211 Ccmp WifiNet Rsn Wpa2 Wpa2Proofs WifiRecovery WifiSession.
Import Block Io Bytes AesProofs.

Module SessionProofs.
Import Recovery Backend RecoveryProofs BackendProofs BridgeProofs Session.

(** ** The events of a session *)
Inductive sevent :=
  | SBegin (now timeout : Z)
  | SInstall (e : Z) (station bssid tk : list Z)
  | SActivate (e : Z) (station bssid : list Z) (sup : Wpa2.Wpa2Supplicant)
  | SRefresh (e : Z) (sup : Wpa2.Wpa2Supplicant)
  | STransmit (e : Z) (ethernet : list Z)
  | SReceive (e : Z) (out : list Z)
  | SPoll (now : Z)
  | SFailed (e : Z)
  | SDisconnect
  | SDequeue (out : list Z)
  | SInject (frame : list Z).

Definition sstep (s : WifiSession) (ev : sevent) : WifiSession :=
  match ev with
  | SBegin now timeout => (Session.begin_connect now timeout s).1
  | SInstall e sta bss tk => (install_pairwise_for_test e sta bss tk s).1
  | SActivate e sta bss sup => (activate_from_wpa2 e sta bss sup s).1
  | SRefresh e sup => (refresh_group_key_from_wpa2 e sup s).1
  | STransmit e eth => (transmit_ethernet e eth s).1
  | SReceive e out => (receive_ethernet e out s).1.1
  | SPoll now => (Session.poll_timeout now s).1
  | SFailed e => (Session.connection_failed e s).1
  | SDisconnect => (Session.disconnect s).1
  | SDequeue out => (Session.dequeue_tx out s).1.1
  | SInject frame => (inject_rx_for_test frame s).1
  end.

(** Keys and addresses have the sizes of the source's arrays. *)
Definition keys_typed (sup : Wpa2.Wpa2Supplicant) : Prop :=
  (∀ k, Wpa2.temporal_key sup = Some k → block k) ∧ (∀ i g, Wpa2.group_temporal_key sup = Some (i, g) → block g).
Definition event_typed (ev : sevent) : Prop :=
  match ev with
  | SInstall _ sta bss tk => block_of 6 sta ∧ block_of 6 bss ∧ Forall is_byte tk
  | SActivate _ sta bss sup => block_of 6 sta ∧ block_of 6 bss ∧ keys_typed sup
  | SRefresh _ sup => keys_typed sup
  | _ => True
  end.

(** ** The invariant *)
Definition session_inv (s : WifiSession) : Prop :=
  recovery_inv (recovery s) ∧ backend_ok (backend s) ∧
  match bridge s with
  | Some b => bridge_ok b ∧ active_epoch s = Some (epoch (recovery s)) ∧ state (recovery s) = Connected ∧ up (backend s) = true
  | None => active_epoch s = None ∧ up (backend s) = false
  end.

Lemma session_new_inv n : 0 ≤ n ≤ u8_max → session_inv (session_new n).
Proof.
  intros Hn. split; [|split; [apply backend_new_ok|done]].
  unfold recovery_inv, session_new, recovery_new. cbn. unfold u32_max. split_and!; try lia; done.
Qed.

Lemma clear_inv s c : recovery_inv c → backend_ok (backend s) → session_inv (clear_association (set_recovery s c)).
Proof. intros Hc Hb. split; [done|]. split; [by apply (set_up_ok false)|done]. Qed.

Lemma temporal_key_spec tk k : Ccmp.temporal_key tk = Ok k → k = tk ∧ length tk = 16%nat.
Proof. unfold Ccmp.temporal_key. destruct (Nat.eqb_spec (length tk) 16); cbn [negb]; [|done]. intros ?; by simplify_eq. Qed.

Lemma bridge_new_ok sta bss tk b :
  block_of 6 sta → block_of 6 bss → Forall is_byte tk → WifiNet.bridge_new sta bss tk = Ok b → bridge_ok b ∧
    b = WifiNet.mkBridge sta bss tk Ccmp.tx_new Ccmp.rx_new None.
Proof.
  intros Hs Hb Ht. unfold WifiNet.bridge_new. destruct (Ccmp.temporal_key tk) as [k|e] eqn:E; [|done]. cbn. intros ?; simplify_eq.
  apply temporal_key_spec in E as [-> E]. split; [|done]. unfold bridge_ok. cbn. unfold Ccmp.PN_MAX. split_and!; try done; try (by split); lia.
Qed.

Lemma land3 x : 0 ≤ Z.land x 3 ≤ 3.
Proof. change (Z.land x 3) with (Z.land x (Z.ones 2)). rewrite Z.land_ones by lia. pose proof (Z.mod_pos_bound x (2 ^ 2)). lia. Qed.

Lemma install_group_ok b i g b' r :
  bridge_ok b → Forall is_byte g → WifiNet.install_group_key b i g = (b', r) → bridge_ok b'.
Proof.
  intros Hok Hg. pose proof Hok as (H1 & H2 & H3 & H4 & H5). unfold WifiNet.install_group_key. destruct (Ccmp.temporal_key g) as [k|e] eqn:E; cbn.
  - apply temporal_key_spec in E as [-> E]. intros ?; simplify_eq. unfold bridge_ok. cbn. pose proof (land3 i). split_and!; try done; try (by split); lia.
  - intros ?; by simplify_eq.
Qed.

(** Activation succeeds in a session that is connecting. *)
Lemma activate_spec e b s :
  session_inv s → epoch (recovery s) = e → state (recovery s) = Connecting → bridge_ok b →
  ∃ s', activate e b s = (s', Ok tt) ∧ session_inv s' ∧ bridge s' = Some b ∧ backend s' = set_up true (backend s) ∧
    epoch (recovery s') = e ∧ active_epoch s' = Some e ∧ state (recovery s') = Connected.
Proof.
  intros (Hr & Hb & _) He Hs Hok. unfold activate, connected, require_epoch. cbn [recovery set_backend set_bridge]. rewrite He, Z.eqb_refl.
  cbn [negb]. rewrite bool_decide_true by done. cbn [negb]. eexists. split; [reflexivity|]. split_and!; try done.
  pose proof (recovery_step_inv _ (EConnected e) Hr) as Hr'. cbn [step] in Hr'. unfold connected, require_epoch in Hr'.
  rewrite He, Z.eqb_refl in Hr'. cbn [negb] in Hr'. rewrite bool_decide_true in Hr' by done. cbn [negb fst] in Hr'.
  split; [exact Hr'|]. split; [by apply (set_up_ok true)|]. cbn. done.
Qed.

Lemma activate_inv e b s :
  session_inv s → epoch (recovery s) = e → state (recovery s) = Connecting → bridge_ok b → session_inv (activate e b s).1.
Proof. intros H1 H2 H3 H4. by destruct (activate_spec e b s H1 H2 H3 H4) as (s' & -> & Hi & _). Qed.

(** Steps that only move the device, or only the bridge, of a session. *)
Lemma inv_backend s d : session_inv s → backend_ok d → up d = up (backend s) → session_inv (set_backend s d).
Proof. intros (H1 & H2 & H3) Hd Hu. split; [done|]. split; [done|]. cbn. rewrite Hu. exact H3. Qed.

Lemma inv_bridge s b b' : session_inv s → bridge s = Some b → bridge_ok b' → session_inv (set_bridge s b').
Proof. intros (H1 & H2 & H3) E Hb. split; [done|]. split; [done|]. cbn. rewrite E in H3. by destruct H3 as [_ H3]. Qed.

Lemma session_bridge_ok s b : session_inv s → bridge s = Some b → bridge_ok b.
Proof. intros (_ & _ & H) E. rewrite E in H. apply H. Qed.

Lemma decapsulate_ok b frame out b' out' r : bridge_ok b → WifiNet.decapsulate b frame out = (b', out', r) → bridge_ok b'.
Proof.
  intros Hb E. destruct (decapsulate_counters _ _ _ _ _ _ E) as (Hk & Ht & _). eapply keys_ok; [done| |done]. rewrite Ht. apply Hb.
Qed.

Lemma encapsulate_ok b eth out b' out' r : bridge_ok b → WifiNet.encapsulate b eth out = (b', out', r) → bridge_ok b'.
Proof.
  intros Hb E. destruct (encapsulate_counters _ _ _ _ _ _ E) as [Hk _]. eapply keys_ok; [done| |done].
  unfold WifiNet.encapsulate in E. destruct (_ || _); [simplify_eq; apply Hb|].
  destruct (Ccmp.protect _ _ _ _ _ _) as [[t o] r2] eqn:Ep. simplify_eq. cbn. destruct Hb as (_ & _ & _ & Ht & _).
  apply protect_tx in Ep as [-> |[Hlt ->]]; [done|cbn; lia].
Qed.

Lemma dequeue_ok out d d' out' r : backend_ok d → Backend.dequeue_tx out d = (d', out', r) → backend_ok d' ∧ up d' = up d.
Proof.
  intros Hd. pose proof Hd as (H1 & H2 & H3). unfold Backend.dequeue_tx. destruct (Nat.eqb_spec (count (tx_ring d)) 0) as [|Hne]; [intros ?; by simplify_eq|].
  destruct (frames (tx_ring d)) as [|f fs] eqn:Ef; [apply (f_equal length) in Ef; rewrite length_frames in Ef; done|].
  destruct (pop_spec out (tx_ring d) f fs H1 Ef) as (-> & Hok & Hfr & _). destruct (_ <? _)%nat; intros ?; simplify_eq; [done|].
  split; [|done]. split_and!; try done. cbn. intros Hu. destruct (H3 Hu) as [? _]. done.
Qed.

Lemma receive_ethernet_inv e out s : session_inv s → session_inv (receive_ethernet e out s).1.1.
Proof.
  intros Hs. unfold receive_ethernet. destruct (require_active e s); [|done].
  destruct (receive_into _ (backend s)) as [[d frame] r] eqn:E. pose proof Hs as (_ & Hb & _).
  assert (Hl : (MAX_80211_FRAME ≤ length (replicate MAX_80211_FRAME 0%Z))%nat) by by rewrite length_replicate.
  destruct (receive_ok _ _ _ _ _ Hb Hl E) as (Hd & Hu & _).
  pose proof (inv_backend s d Hs Hd Hu) as Hs'. destruct r as [[n|]|]; [|done..]. cbv zeta.
  destruct (bridge (set_backend s d)) as [b|] eqn:Eb; [|done].
  destruct (WifiNet.decapsulate b (take n frame) out) as [[b' out'] r'] eqn:Ed.
  pose proof (decapsulate_ok _ _ _ _ _ _ (session_bridge_ok _ _ Hs' Eb) Ed) as Hb'. destruct r'; by apply (inv_bridge _ b).
Qed.

Lemma transmit_inv e eth s : session_inv s → session_inv (transmit_ethernet e eth s).1.
Proof.
  intros Hs. unfold transmit_ethernet. destruct (require_active e s); [|done]. destruct (bridge s) as [b|] eqn:Eb; [|done].
  destruct (WifiNet.encapsulate b eth _) as [[b' frame] r] eqn:Ee.
  pose proof (encapsulate_ok _ _ _ _ _ _ (session_bridge_ok _ _ Hs Eb) Ee) as Hb'. pose proof (inv_bridge _ _ b' Hs Eb Hb') as Hs'.
  destruct r as [n|]; [|done]. cbv zeta. destruct (transmit (take n frame) _) as [d rt] eqn:Et.
  destruct (transmit_ok _ _ _ _ (proj1 (proj2 Hs')) Et) as (Hd & Hu & _). destruct rt; by apply inv_backend.
Qed.

Lemma activation_inv e sta bss tk ig s :
  session_inv s → epoch (recovery s) = e → state (recovery s) = Connecting → block_of 6 sta → block_of 6 bss → Forall is_byte tk →
  match ig with Some (_, g) => Forall is_byte g | None => True end →
  session_inv (match ig with
               | Some (i, g) => activate_bridge_with_group e sta bss tk i g s
               | None => activate_bridge e sta bss tk s
               end).1.
Proof.
  intros Hs He Hc H6 H6' Htk Hg. unfold activate_bridge_with_group, activate_bridge.
  destruct (WifiNet.bridge_new sta bss tk) as [b|err] eqn:Eb; [|by destruct ig as [[i g]|]].
  destruct (bridge_new_ok _ _ _ _ H6 H6' Htk Eb) as [Hb _]. destruct ig as [[i g]|]; [|by apply activate_inv].
  destruct (WifiNet.install_group_key b i g) as [b' [[]|err]] eqn:Ei; [|done]. apply activate_inv; try done. by eapply install_group_ok.
Qed.

Lemma session_step_inv s ev : session_inv s → event_typed ev → session_inv (sstep s ev).
Proof.
  intros Hs Ht. pose proof Hs as (Hr & Hb & Hbr). destruct ev; cbn [sstep event_typed] in *.
  - unfold Session.begin_connect. cbv zeta. cbn [recovery clear_association].
    pose proof (recovery_step_inv _ (EBegin now timeout) Hr) as Hr'. cbn [step] in Hr'.
    destruct (Recovery.begin_connect now timeout (recovery s)) as [c r]. cbn [fst] in Hr'.
    destruct r; apply (clear_inv (set_recovery s c) c); done.
  - unfold install_pairwise_for_test. destruct (Z.eqb_spec e (epoch (recovery s))) as [->|]; [|done]. cbn [negb].
    destruct (bool_decide_reflect (state (recovery s) = Connecting)); [|done]. cbn [negb].
    destruct Ht as (H1 & H2 & H3). by apply (activation_inv _ _ _ _ None).
  - unfold activate_from_wpa2. destruct (Z.eqb_spec e (epoch (recovery s))) as [->|]; [|done]. cbn [negb].
    destruct (bool_decide_reflect (state (recovery s) = Connecting)); [|done]. cbn [negb]. destruct (negb _); [done|]. destruct (negb _); [done|].
    destruct Ht as (H1 & H2 & H3 & H4). destruct (Wpa2.temporal_key sup) as [tk|] eqn:Ek; [|done].
    destruct (Wpa2.group_temporal_key sup) as [[i g]|] eqn:Eg; [|done].
    apply (activation_inv _ _ _ _ (Some (i, g))); try done; [by apply H3|]. by eapply H4.
  - unfold refresh_group_key_from_wpa2. destruct (require_active e s); [|done]. destruct (negb _); [done|].
    destruct (Wpa2.group_temporal_key sup) as [[i g]|] eqn:Eg; [|done]. destruct (bridge s) as [b|] eqn:Eb; [|done].
    destruct (WifiNet.install_group_key b i g) as [b' r] eqn:Ei. destruct Ht as [_ Hg].
    pose proof (install_group_ok _ _ _ _ _ (session_bridge_ok _ _ Hs Eb) (proj2 (Hg _ _ Eg)) Ei) as Hb'. destruct r; by apply (inv_bridge _ b).
  - by apply transmit_inv.
  - by apply receive_ethernet_inv.
  - unfold Session.poll_timeout. pose proof (recovery_step_inv _ (EPoll now) Hr) as Hr'. cbn [step] in Hr'.
    destruct (Recovery.poll_timeout now (recovery s)) as [c fired] eqn:Ep. destruct fired; [by apply clear_inv|].
    unfold Recovery.poll_timeout in Ep. destruct (_ && _); simplify_eq. by destruct s.
  - unfold Session.connection_failed. pose proof (recovery_step_inv _ (EFailed e) Hr) as Hr'. cbn [step] in Hr'.
    destruct (Recovery.connection_failed e (recovery s)) as [c r] eqn:Ef. destruct r; [by apply clear_inv|].
    unfold Recovery.connection_failed in Ef. repeat case_match; simplify_eq; by destruct s.
  - apply (clear_inv s). exact (recovery_step_inv _ EDisconnect Hr). done.
  - unfold Session.dequeue_tx. destruct (Backend.dequeue_tx out (backend s)) as [[d o] r] eqn:Ed.
    destruct (dequeue_ok _ _ _ _ _ Hb Ed) as [Hd Hu]. destruct r; by apply inv_backend.
  - unfold inject_rx_for_test. destruct (inject_rx frame (backend s)) as [d r] eqn:Ed.
    destruct (inject_ok _ _ _ _ Hb Ed) as (Hd & Hu & _). destruct r; by apply inv_backend.
Qed.

Lemma session_run_inv s evs : session_inv s → Forall event_typed evs → session_inv (foldl sstep s evs).
Proof.
  intros Hs He. revert s Hs. induction He as [|ev evs Hev _ IH]; intros s Hs; [done|]. cbn [foldl]. by apply IH, session_step_inv.
Qed.

(** C28. Keys, epoch and device go together: after any sequence of calls, received frames, timeouts and failures,
    a session holds keys exactly while the association of its current epoch is active and
    connected with the device up; otherwise it has no keys and the device is down with
    both its queues empty, so nothing of an old association is left to be sent. *)
Theorem session_keys_tied n evs :
  0 ≤ n ≤ u8_max → Forall event_typed evs →
  let s := foldl sstep (session_new n) evs in
  has_pairwise_keys s = is_active_epoch (epoch (recovery s)) s ∧ has_pairwise_keys s = up (backend s) ∧
  (has_pairwise_keys s = false → active_epoch s = None ∧ frames (tx_ring (backend s)) = [] ∧ frames (rx_ring (backend s)) = []) ∧
  (length (frames (tx_ring (backend s))) ≤ QUEUE_DEPTH)%nat ∧ (length (frames (rx_ring (backend s))) ≤ QUEUE_DEPTH)%nat.
Proof.
  intros Hn He. cbv zeta. pose proof (session_run_inv _ _ (session_new_inv n Hn) He) as H. revert H. generalize (foldl sstep (session_new n) evs).
  intros s (Hr & (Htx & Hrx & Hdown) & Hb). unfold has_pairwise_keys, is_active_epoch. rewrite !length_frames. destruct (bridge s) as [b|].
  - destruct Hb as (_ & Ha & Hc & Hu). rewrite Ha, Hc, Hu, Z.eqb_refl, !bool_decide_true by eauto. split_and!; try done; [apply Htx|apply Hrx].
  - destruct Hb as (Ha & Hu). rewrite Hu, (bool_decide_false (is_Some None)) by (intros [? [=]]). rewrite andb_false_r.
    destruct (Hdown Hu). split_and!; try done; [apply Htx|apply Hrx].
Qed.

(** ** Epochs that ended *)
Lemma bump_index e : 1 ≤ e ≤ u32_max → bump e = e mod u32_max + 1.
Proof.
  unfold bump, u32_max. intros He. cbv zeta. change (4294967295 + 1) with 4294967296.
  destruct (decide (e = 4294967295)) as [->|]; [reflexivity|]. rewrite (Z.mod_small (e + 1)) by lia.
  rewrite (proj2 (Z.eqb_neq _ _)) by lia. rewrite Z.mod_small by lia. done.
Qed.

Lemma sstep_epoch s ev : epoch (recovery (sstep s ev)) = epoch (recovery s) ∨ epoch (recovery (sstep s ev)) = bump (epoch (recovery s)).
Proof.
  assert (Hact : ∀ e b, epoch (recovery (activate e b s).1) = epoch (recovery s)).
  { intros e b. unfold activate, connected. cbn [recovery set_backend set_bridge]. repeat case_match; simplify_eq; done. }
  destruct ev; cbn [sstep].
  - left. unfold Session.begin_connect, Recovery.begin_connect. cbn. repeat case_match; simplify_eq; done.
  - left. unfold install_pairwise_for_test, activate_bridge. repeat case_match; try done; apply Hact.
  - left. unfold activate_from_wpa2, activate_bridge_with_group. repeat case_match; try done; apply Hact.
  - left. unfold refresh_group_key_from_wpa2. repeat case_match; done.
  - left. unfold transmit_ethernet. cbv zeta. repeat case_match; done.
  - left. unfold receive_ethernet. cbv zeta. repeat case_match; done.
  - unfold Session.poll_timeout, Recovery.poll_timeout. destruct (_ && _); [by right|by left].
  - unfold Session.connection_failed, Recovery.connection_failed. destruct (require_epoch _ _); [|by left]. destruct (negb _); [by left|by right].
  - by right.
  - left. unfold Session.dequeue_tx. repeat case_match; done.
  - left. unfold inject_rx_for_test. repeat case_match; done.
Qed.

Lemma run_epoch s evs :
  session_inv s → Forall event_typed evs →
  ∃ k, 0 ≤ k ≤ Z.of_nat (length evs) ∧ epoch (recovery (foldl sstep s evs)) = (epoch (recovery s) - 1 + k) mod u32_max + 1.
Proof.
  intros Hs He. revert s Hs. induction He as [|ev evs Hev _ IH]; intros s Hs; cbn [foldl length].
  - exists 0. split; [lia|]. destruct Hs as ((H & _) & _). rewrite Z.mod_small by (unfold u32_max in *; lia). lia.
  - destruct (IH _ (session_step_inv s ev Hs Hev)) as (k & Hk & E). pose proof Hs as ((Hep & _) & _).
    destruct (sstep_epoch s ev) as [Es|Es]; rewrite Es in E.
    + exists k. split; [lia|done].
    + exists (k + 1). split; [lia|]. rewrite E, bump_index by done.
      replace (epoch (recovery s) mod u32_max + 1 - 1 + k) with (epoch (recovery s) mod u32_max + k) by lia.
      rewrite Z.add_mod_idemp_l by (unfold u32_max; lia). f_equal. f_equal. lia.
Qed.

Lemma epoch_differs e k : 1 ≤ e ≤ u32_max → 0 < k < u32_max → (e - 1 + k) mod u32_max + 1 ≠ e.
Proof.
  intros He Hk. unfold u32_max in *. destruct (Z.lt_ge_cases (e - 1 + k) 4294967295) as [Hlt|Hge].
  - rewrite Z.mod_small by lia. lia.
  - replace (e - 1 + k) with ((e - 1 + k - 4294967295) + 1 * 4294967295) by lia. rewrite Z.mod_add, Z.mod_small by lia. lia.
Qed.

Lemma stale_refused s e :
  session_inv s → epoch (recovery s) ≠ e →
  (∀ eth, transmit_ethernet e eth s = (s, Err Session.StaleEpoch)) ∧
  (∀ out, receive_ethernet e out s = (s, out, Err Session.StaleEpoch)) ∧
  (∀ sup, refresh_group_key_from_wpa2 e sup s = (s, Err Session.StaleEpoch)) ∧
  (∀ sta bss sup, activate_from_wpa2 e sta bss sup s = (s, Err Session.StaleEpoch)).
Proof.
  intros (_ & _ & Hb) Hne. assert (Hr : require_active e s = Err Session.StaleEpoch).
  { unfold require_active. rewrite (proj2 (Z.eqb_neq (epoch (recovery s)) e)) by done. by rewrite orb_true_r. }
  split_and!; intros.
  - unfold transmit_ethernet. by rewrite Hr.
  - unfold receive_ethernet. by rewrite Hr.
  - unfold refresh_group_key_from_wpa2. by rewrite Hr.
  - unfold activate_from_wpa2. by rewrite (proj2 (Z.eqb_neq e _)) by congruence.
Qed.

(** Work of an association that ended is refused: after a disconnect, whatever follows (reconnecting
    included, up to 2^32 - 3 further events), a call that still names the old epoch sends
    nothing, receives nothing and installs no key; it returns a stale-epoch error and
    leaves the session as it is. *)
Theorem old_epoch_refused s evs e :
  session_inv s → epoch (recovery s) = e → Forall event_typed evs → Z.of_nat (length evs) < u32_max - 1 →
  let s' := foldl sstep (Session.disconnect s).1 evs in
  (∀ eth, transmit_ethernet e eth s' = (s', Err Session.StaleEpoch)) ∧
  (∀ out, receive_ethernet e out s' = (s', out, Err Session.StaleEpoch)) ∧
  (∀ sup, refresh_group_key_from_wpa2 e sup s' = (s', Err Session.StaleEpoch)) ∧
  (∀ sta bss sup, activate_from_wpa2 e sta bss sup s' = (s', Err Session.StaleEpoch)).
Proof.
  intros Hs He Hev Hl. cbv zeta. pose proof (session_step_inv s SDisconnect Hs I) as Hd. cbn [sstep] in Hd.
  apply stale_refused; [by apply session_run_inv|]. destruct (run_epoch _ _ Hd Hev) as (k & Hk & ->).
  pose proof Hs as ((Hep & _) & _). change (epoch (recovery (Session.disconnect s).1)) with (bump (epoch (recovery s))).
  rewrite bump_index, He by done. rewrite He in Hep.
  replace (e mod u32_max + 1 - 1 + k) with (e mod u32_max + k) by lia. rewrite Z.add_mod_idemp_l by (unfold u32_max; lia).
  replace (e + k) with (e - 1 + (k + 1)) by lia. apply epoch_differs; [done|lia].
Qed.

(** ** Through the whole stack *)
Lemma require_active_ok s e :
  active_epoch s = Some e → epoch (recovery s) = e → state (recovery s) = Connected → require_active e s = Ok tt.
Proof. intros Ha He Hc. unfold require_active. by rewrite Ha, He, Hc, Z.eqb_refl, !bool_decide_true by done. Qed.

(** A frame that arrives at an idle active session is handed to the bridge. *)
Lemma inject_receive s e b frame out b' out' r :
  session_inv s → bridge s = Some b → epoch (recovery s) = e → frames (rx_ring (backend s)) = [] →
  (length frame ≤ MAX_80211_FRAME)%nat → WifiNet.decapsulate b frame out = (b', out', r) →
  ∃ s1 s2, inject_rx_for_test frame s = (s1, Ok tt) ∧
    receive_ethernet e out s1 = (s2, out', match r with Ok n => Ok (Some n) | Err err => Err (BridgeFailure err) end) ∧
    session_inv s2 ∧ bridge s2 = Some b' ∧ epoch (recovery s2) = e ∧ frames (rx_ring (backend s2)) = [].
Proof.
  intros Hs Eb He Hf Hl Ed. pose proof Hs as (_ & Hbk & Hb). rewrite Eb in Hb. destruct Hb as (Hok & Ha & Hc & Hu). rewrite He in Ha.
  destruct (inject_rx frame (backend s)) as [d r1] eqn:Ei. destruct (inject_ok _ _ _ _ Hbk Ei) as (Hd & Hud & Hr1).
  assert (r1 = Ok tt) as ->.
  { unfold inject_rx in Ei. rewrite Hu, (proj2 (Nat.ltb_ge _ _)) in Ei by done. rewrite <-length_frames, Hf in Ei. cbn in Ei. by simplify_eq. }
  destruct Hr1 as (Hfr & _ & _). rewrite Hf in Hfr. cbn in Hfr.
  pose proof (inv_backend s d Hs Hd Hud) as Hs1. set (s1 := set_backend s d) in *.
  assert (Hlr : (MAX_80211_FRAME ≤ length (replicate MAX_80211_FRAME 0%Z))%nat) by by rewrite length_replicate.
  destruct (receive_into (replicate MAX_80211_FRAME 0) d) as [[d2 buf] r2] eqn:Er.
  destruct (receive_ok _ _ _ _ _ Hd Hlr Er) as (Hd2 & Hud2 & Hr2).
  destruct r2 as [[n|]|]; [|by destruct Hr2 as (_ & ? & _); congruence|by destruct Hr2 as (_ & ? & _); congruence].
  destruct Hr2 as (f & Hff & -> & ->). rewrite Hfr in Hff. injection Hff as <- Hf2.
  assert (Ht : take (length frame) (splice 0 frame (replicate MAX_80211_FRAME 0)) = frame).
  { apply splice_prefix; [|done]. rewrite length_replicate. done. }
  pose proof (inv_backend s1 d2 Hs1 Hd2 Hud2) as Hs2.
  exists s1, (set_bridge (set_backend s1 d2) b'). split_and!.
  - unfold inject_rx_for_test. by rewrite Ei.
  - unfold receive_ethernet. rewrite require_active_ok by done. change (backend s1) with d. rewrite Er. cbv zeta. rewrite Ht.
    change (bridge (set_backend s1 d2)) with (bridge s). rewrite Eb, Ed. by destruct r.
  - apply (inv_bridge _ b); [done|done|]. by eapply decapsulate_ok.
  - done.
  - done.
  - by symmetry.
Qed.

(** A frame of the access point: the source address, the Ethernet frame, the buffer it is
    built in, whether it arrives, and the buffer that it is received into. *)
Record downlink := mkDownlink {
  d_source : list Z;
  d_ethernet : list Z;
  d_buffer : list Z;
  d_arrives : bool;
  d_out : list Z
}.

(** The access point protects the frames in turn from the state [t] of its counter; each
    one that arrives is injected and received twice, as if it were replayed at once. *)
Fixpoint exchange (e : Z) (sta bss tk : list Z) (t : Ccmp.TxState) (s : WifiSession) (l : list downlink)
    : list (list Z * result (option nat) SessionError) :=
  match l with
  | [] => []
  | d :: l =>
      let '(t, buf, r) := WifiNet.make_downlink tk t sta bss (d_source d) (d_ethernet d) (d_buffer d) in
      match r with
      | Ok n =>
          if d_arrives d then
            let '(s, _) := inject_rx_for_test (take n buf) s in
            let '(s, out1, r1) := receive_ethernet e (d_out d) s in
            let '(s, _) := inject_rx_for_test (take n buf) s in
            let '(s, out2, r2) := receive_ethernet e (d_out d) s in
            (out1, r1) :: (out2, r2) :: exchange e sta bss tk t s l
          else exchange e sta bss tk t s l
      | Err _ => exchange e sta bss tk t s l
      end
  end.

(** What a frame should give: itself with the station as destination, then a refusal that
    leaves the buffer alone. *)
Definition expected (sta : list Z) (d : downlink) : list (list Z * result (option nat) SessionError) :=
  if d_arrives d then
    [(splice 0 (sta ++ d_source d ++ drop 12 (d_ethernet d)) (d_out d), Ok (Some (length (d_ethernet d))));
     (d_out d, Err (BridgeFailure (WifiNet.CcmpFailure Ccmp.Replay)))]
  else [].

(** Addresses and bytes, lengths of an Ethernet frame, buffers that are large enough. *)
Definition downlink_ok (d : downlink) : Prop :=
  block_of 6 (d_source d) ∧ Forall is_byte (d_ethernet d) ∧ (14 ≤ length (d_ethernet d) ≤ 1514)%nat ∧
  (34 + length (d_ethernet d) ≤ length (d_buffer d))%nat ∧ (length (d_ethernet d) ≤ length (d_out d))%nat.

(** From any state that accepts the access point's next packet number. *)
Lemma exchange_delivers e sta bss tk t s b l :
  session_inv s → bridge s = Some b → epoch (recovery s) = e → frames (rx_ring (backend s)) = [] →
  WifiNet.station b = sta → WifiNet.bssid b = bss → WifiNet.pairwise b = tk → Z.land (byte_at sta 0) 1 = 0 →
  Forall downlink_ok l → 0 ≤ Ccmp.tx_pn t → Ccmp.last_pn (WifiNet.rx b) ≤ Ccmp.tx_pn t →
  Ccmp.tx_pn t + Z.of_nat (length l) ≤ Ccmp.PN_MAX →
  exchange e sta bss tk t s l = l ≫= expected sta.
Proof.
  intros Hs Eb Ee Hrx <- <- <- Huni HF. revert t s b Hs Eb Ee Hrx Huni.
  induction HF as [|d l (Bsrc & Beth & Hleth & Hbuf & Hout) HF IH]; intros t s b Hs Eb Ee Hrx Huni Ht Hlast Hmax; [done|].
  cbn [length] in Hmax. pose proof (session_bridge_ok _ _ Hs Eb) as Hb.
  destruct (downlink_delivered b t (d_source d) (d_ethernet d) (d_buffer d) (d_out d) Hb Huni Bsrc Beth Hleth Hbuf Hout)
    as (buf' & Emk & Edec & Bfr & Lfr & Erep); [lia|done|].
  assert (Hlen : (length (take (34 + length (d_ethernet d)) buf') ≤ MAX_80211_FRAME)%nat) by (rewrite Lfr; unfold MAX_80211_FRAME; lia).
  cbn [exchange]. rewrite bind_cons, Emk. unfold expected at 1. destruct (d_arrives d).
  - destruct (inject_receive s e b _ _ _ _ _ Hs Eb Ee Hrx Hlen Edec) as (s2 & s3 & Ei2 & Er3 & Hs3 & Eb3 & Ee3 & Hrx3).
    destruct (inject_receive s3 e _ _ _ _ _ _ Hs3 Eb3 Ee3 Hrx3 Hlen (Erep (d_out d))) as (s4 & s5 & Ei4 & Er5 & Hs5 & Eb5 & Ee5 & Hrx5).
    rewrite Ei2, Er3, Ei4, Er5. cbn [app]. do 2 f_equal.
    apply (IH _ s5 (WifiNet.set_rx b (Ccmp.mkRx (Ccmp.tx_pn t + 1)))); try done; cbn; lia.
  - cbn [app]. apply (IH _ s b); try done; cbn; lia.
Qed.


(** ** Reading the group key again *)
(** C37. A group frame can be replayed after the group key is read again: when the session's owner refreshes
    the group key from a supplicant whose key did not change (as after a retransmitted
    handshake message), the replay counter of the group starts at zero, and a group frame
    that the bridge delivered before the refresh is delivered a second time. *)
Theorem refresh_replays_group_frames s b e sup i g r frame out b1 out1 n :
  session_inv s → bridge s = Some b → epoch (recovery s) = e →
  Wpa2.s_state sup = Wpa2.Completed → Wpa2.group_temporal_key sup = Some (i, g) → WifiNet.group b = Some (Z.land i 3, g, r) →
  0 ≤ Ccmp.last_pn r → Forall is_byte frame → is_group (take 24 frame) = true →
  WifiNet.decapsulate b frame out = (b1, out1, Ok n) →
  ∃ s2 b2 b3, refresh_group_key_from_wpa2 e sup (set_bridge s b1) = (s2, Ok tt) ∧ bridge s2 = Some b2 ∧
    WifiNet.decapsulate b2 frame out = (b3, out1, Ok n).
Proof.
  intros Hs Eb He Hcomp Hg Hgrp Hr Hf Hgr Hd. pose proof (session_bridge_ok _ _ Hs Eb) as Hb.
  destruct (decapsulate_opens _ _ _ _ _ _ Hb Hf Hd) as (h & cc & pn & payload & key & r' & Hh & Hc & Ha & Hsel & Hpn & Hlt & Hp & Hl & -> & -> & Hdel).
  assert (Ht : take 24 (CcmpProofs.seal key h cc pn payload) = h) by (assert (L24 : length h = 24%nat) by apply Hh; by apply take_app_length').
  rewrite Ht in Hgr. unfold selected in Hsel. rewrite Hgr, Hgrp in Hsel. destruct (key_id cc =? Z.land i 3) eqn:Ek; [|done]. simplify_eq.
  assert (Bg : length key = 16%nat) by (destruct Hb as (_ & _ & _ & _ & Hb); rewrite Hgrp in Hb; apply Hb).
  set (b2 := WifiNet.set_group (advanced b h (Ccmp.mkRx pn)) (Some (Z.land i 3, key, Ccmp.rx_new))).
  assert (Hb2 : bridge_ok b2).
  { destruct Hb as (H1 & H2 & H3 & H4 & H5). rewrite Hgrp in H5. unfold b2, advanced. rewrite Hgr. unfold bridge_ok. cbn. split_and!; try done; apply H4 || apply H5. }
  exists (set_bridge (set_bridge s (advanced b h (Ccmp.mkRx pn))) b2), b2, (advanced b2 h (Ccmp.mkRx pn)). split_and!.
  - unfold refresh_group_key_from_wpa2. destruct Hs as (_ & _ & Hbr). rewrite Eb in Hbr. destruct Hbr as (_ & Hact & Hcon & _).
    rewrite require_active_ok by done. rewrite Hcomp, Hg, bool_decide_true by done. cbn [negb bridge set_bridge].
    unfold WifiNet.install_group_key, Ccmp.temporal_key. rewrite Bg. reflexivity.
  - done.
  - rewrite decapsulate_seal with (r := Ccmp.rx_new); try done.
    + by rewrite Hdel.
    + unfold b2, advanced, addressed in *. rewrite Hgr in *. exact Ha.
    + unfold selected. rewrite Hgr. cbn. by rewrite Ek.
    + cbn. lia.
Qed.

Lemma ring_reset_twice r : ring_reset (ring_reset r) = ring_reset r.
Proof. unfold ring_reset. cbn [slots]. by rewrite <-list_fmap_compose. Qed.

(** A refused request to connect takes the keys of the connected session with it, and the
    controller keeps refusing until the owner disconnects. *)
Lemma refused_connect_drops_keys s now timeout :
  session_inv s → is_Some (bridge s) →
  ∃ s', Session.begin_connect now timeout s = (s', Err (RecoveryFailure Recovery.WrongState)) ∧ bridge s' = None ∧
    state (recovery s') = Connected ∧
    ∀ now2 timeout2, Session.begin_connect now2 timeout2 s' = (s', Err (RecoveryFailure Recovery.WrongState)).
Proof.
  intros (_ & _ & Hb) [b Eb]. rewrite Eb in Hb. destruct Hb as (_ & _ & Hc & _).
  assert (Hrefuse : ∀ t, recovery t = recovery s → ∀ now timeout,
    Session.begin_connect now timeout t = (clear_association t, Err (RecoveryFailure Recovery.WrongState))).
  { intros t Ht n2 t2. unfold Session.begin_connect, Recovery.begin_connect. cbn [recovery clear_association]. rewrite Ht, Hc. cbn.
    by rewrite <-Ht. }
  exists (clear_association s). rewrite Hrefuse by done. split_and!; try done. intros now2 timeout2. rewrite Hrefuse by done. f_equal.
  unfold clear_association. cbn. by rewrite !ring_reset_twice.
Qed.

(** ** A concrete session *)
Definition demo_sup : Wpa2.Wpa2Supplicant :=
  Wpa2.mkSupplicant Wpa2.Completed (Rsn.mkFourWay Rsn.FwCompleted 2 (replicate 32 0x11)) WifiNet.sta WifiNet.ap (replicate 32 0x22)
    (Some (seqZ 0 48)) (Gtk.mkStore (Some (Gtk.mkGtk (replicate 16 0x5a) 1)) 2 true 1) (Some 2).
Definition demo_connecting : WifiSession := sstep (session_new 3) (SBegin 10 5).
Definition demo_events : list sevent :=
  [SBegin 10 5; SActivate 1 WifiNet.sta WifiNet.ap demo_sup; STransmit 1 (test_eth WifiNet.peer WifiNet.sta); SDisconnect; SBegin 20 5].

Lemma demo_typed : keys_typed demo_sup.
Proof.
  split.
  - intros k [= <-]. split; [reflexivity|]. apply (bool_decide_unpack _). vm_compute. exact I.
  - intros i g [= <- <-]. split; [reflexivity|]. apply (bool_decide_unpack _). vm_compute. exact I.
Qed.

Lemma addresses_typed : block_of 6 WifiNet.sta ∧ block_of 6 WifiNet.ap ∧ block_of 6 WifiNet.peer ∧ block_of 6 WifiNet.multicast.
Proof. split_and!; (split; [reflexivity|]; apply (bool_decide_unpack _); vm_compute; exact I). Qed.

Lemma demo_events_typed : Forall event_typed demo_events.
Proof.
  destruct addresses_typed as (H1 & H2 & _). repeat (apply Forall_cons; split; [first [exact I | exact (conj H1 (conj H2 demo_typed))]|]).
  apply Forall_nil. exact I.
Qed.

Lemma demo_connecting_inv : session_inv demo_connecting.
Proof. apply session_step_inv; [|done]. apply session_new_inv. unfold u8_max. lia. Qed.

Lemma session_keys_tied_witness :
  let s := foldl sstep (session_new 3) demo_events in
  has_pairwise_keys s = is_active_epoch (epoch (recovery s)) s ∧ has_pairwise_keys s = up (backend s) ∧
  (has_pairwise_keys s = false → active_epoch s = None ∧ frames (tx_ring (backend s)) = [] ∧ frames (rx_ring (backend s)) = []) ∧
  (length (frames (tx_ring (backend s))) ≤ QUEUE_DEPTH)%nat ∧ (length (frames (rx_ring (backend s))) ≤ QUEUE_DEPTH)%nat.
Proof.
  apply (session_keys_tied 3 demo_events).
  - unfold u8_max. lia.
  - exact demo_events_typed.
Defined.

Lemma old_epoch_refused_witness :
  let s' := foldl sstep (Session.disconnect demo_connecting).1 demo_events in
  (∀ eth, transmit_ethernet 1 eth s' = (s', Err Session.StaleEpoch)) ∧
  (∀ out, receive_ethernet 1 out s' = (s', out, Err Session.StaleEpoch)) ∧
  (∀ sup, refresh_group_key_from_wpa2 1 sup s' = (s', Err Session.StaleEpoch)) ∧
  (∀ sta bss sup, activate_from_wpa2 1 sta bss sup s' = (s', Err Session.StaleEpoch)).
Proof.
  apply (old_epoch_refused demo_connecting demo_events 1).
  - exact demo_connecting_inv.
  - reflexivity.
  - exact demo_events_typed.
  - vm_compute. reflexivity.
Defined.

(** A frame, one that is lost, and the same frame again. *)
Definition demo_downlinks : list downlink :=
  (λ arrives, mkDownlink WifiNet.peer sample_ethernet (replicate 58 0) arrives (replicate 24 0)) <$> [true; false; true].


(** A multicast frame under the group key, with key index 1. *)
Definition demo_active : WifiSession := (activate_from_wpa2 1 WifiNet.sta WifiNet.ap demo_sup demo_connecting).1.
Definition demo_bridge : WifiNet.WifiNetBridge :=
  WifiNet.mkBridge WifiNet.sta WifiNet.ap (seqZ 32 16) Ccmp.tx_new Ccmp.rx_new (Some (1, replicate 16 0x5a, Ccmp.rx_new)).
Definition demo_group_frame : list Z :=
  take 58 (Ccmp.protect (replicate 16 0x5a) Ccmp.tx_new (WifiNet.data_header 0x02 WifiNet.multicast WifiNet.ap WifiNet.peer)
             (take 18 (WifiNet.llc_payload (WifiNet.multicast ++ WifiNet.peer ++ [0x08; 0x00] ++ seqZ 0 10))) 1 (replicate 58 0)).1.2.
Definition demo_delivered : WifiNet.WifiNetBridge * list Z * result nat WifiNet.BridgeError :=
  WifiNet.decapsulate demo_bridge demo_group_frame (replicate 24 0).

Lemma demo_delivered_ok : demo_delivered.2 = Ok 24%nat.
Proof. vm_compute. reflexivity. Qed.

Lemma demo_active_inv : session_inv demo_active.
Proof.
  destruct addresses_typed as (H1 & H2 & _). apply (session_step_inv _ (SActivate 1 WifiNet.sta WifiNet.ap demo_sup) demo_connecting_inv).
  exact (conj H1 (conj H2 demo_typed)).
Qed.

Lemma refresh_replays_group_frames_witness :
  ∃ s2 b2 b3, refresh_group_key_from_wpa2 1 demo_sup (set_bridge demo_active demo_delivered.1.1) = (s2, Ok tt) ∧ bridge s2 = Some b2 ∧
    WifiNet.decapsulate b2 demo_group_frame (replicate 24 0) = (b3, demo_delivered.1.2, Ok 24%nat).
Proof.
  apply (refresh_replays_group_frames demo_active demo_bridge 1 demo_sup 1 (replicate 16 0x5a) Ccmp.rx_new demo_group_frame (replicate 24 0)
           demo_delivered.1.1 demo_delivered.1.2 24 demo_active_inv).
  - reflexivity.
  - reflexivity.
  - reflexivity.
  - reflexivity.
  - reflexivity.
  - vm_compute. discriminate.
  - apply (bool_decide_unpack _). vm_compute. exact I.
  - vm_compute. reflexivity.
  - pose proof demo_delivered_ok as H. unfold demo_delivered in *. destruct (WifiNet.decapsulate _ _ _) as [[? ?] ?]. cbn in *. by rewrite H.
Defined.
End SessionProofs.
